(* ===== verification/_CoqProject ===== *)
-Q . S2P
Prelude.v
Float64.v
NetIP.v
Model.v
Protocol.v
Packet.v
Aggregate.v
Delivery.v
Config.v
Network.v
NetworkRecovery.v
Fleet.v
AuthDetect.v
NetDev.v
Alert.v
Billing.v
Health.v
Monitor.v
MonitorHealth.v
MonitorBudget.v
MonitorObserve.v
MonitorStored.v
MonitorRuntime.v
Sql.v
Retention.v
Hourly.v
Traffic.v
SensorCommit.v
EventQueue.v
Coverage.v
Privacy.v
Ingest.v
IngestAck.v
Outbox.v
OutboxQueue.v
OfficialDispatch.v
OutboxAdmin.v
DispatchOnce.v
DispatchBudget.v
Worker.v
Regex.v
SSHLog.v
JournalRecord.v
JournalReader.v
JournalOrder.v
Integrity.v
AuthHistory.v
JournalStore.v
JournalIngest.v
JournalOnce.v
JournalEnd.v
Mmdb.v
AuthCompaction.v
Budget.v
Maintenance.v
Reclaim.v
