(* ===== verification/Prelude.v ===== *)
(** * NodeRampart: a Rocq model of the observation, storage and alerting pipeline

    NodeRampart watches one Linux host.  A privileged sensor process captures
    packets, aggregates them into batches per interface and delivers them over a
    Unix socket; a reader follows the system journal for SSH logins; the daemon
    validates the batches, runs detectors on both and commits traffic, authentication
    counts, collector health and events to SQLite, within a storage budget; monitor
    rules watch the components' health and the traffic budgets and raise events of
    their own; events become notifications that wait in an outbox and are sent by
    workers under a lease, a rate limit and, for the official platforms, a request
    budget.  This library models that path, from the bytes of a frame and the records
    of the journal to the request of a notification and what is recorded of its answer.
    Names follow the Go code; every source path below is under src/internal.

    ** How the parts fit

<<
   frame --Packet--> Aggregate --batch--> Delivery ==socket==> Protocol
                                                                  |
              Fleet (one Network per interface, shared budget) <--+-- Ingest
   journal --JournalReader, SSHLog--> JournalIngest --> AuthDetect    |
   kernel counters --NetDev           |                               |
                                      v                               v
             Privacy --> EventQueue --> +-------- one transaction --------+
                                        | Retention  Hourly  JournalStore |
     Alert <-- evidence of events       | Traffic  SensorCommit           |
       ^                                | Coverage  Outbox                |
       |                                +---------------------------------+
     Monitor (health, budgets)             |               |
        |        ^ MonitorObserve          |      Budget, AuthCompaction, Maintenance
     MonitorRuntime == compare-and-swap == store (size limit, order of removal)
                                           |               |
                OutboxQueue, OfficialDispatch     Integrity, AuthHistory (what is known
                       |                          of a period, hints for logins)
                    Worker --> sender (a parameter)
>>

    ** Files

    - [Prelude]: machine integers ([uint64], [int64], durations, instants) with
      their wrap-around and saturation, sums, byte strings, [result], strict total
      orders and their minima, the case-analysis tactics ([bool_to_prop], [case_if],
      [zlia]) and the hint database [rampart].
    - [Float64]: binary64 over the Standard Library's [SpecFloat], one rounding per
      operation.  [NetIP]: the part of [net/netip] the program uses, as text
      functions.  [Model]: model/model.go and model/id.go.
    - [Protocol]: protocol/protocol.go and health.go: batches, their validation, the
      cumulative health of version 5, frames on the socket.
    - [Packet]: sensor/packet.go.  A read of the buffer is checked, so an access
      outside the captured bytes would be the outcome [EPanic].
    - [Aggregate]: sensor/aggregate.go, the bounded flow table of an interface.
    - [Delivery]: sensor/delivery.go, sequence identity, loss accounting and
      acknowledgements as a step per attempt.
    - [Config]: the fields of config/config.go that the components read and
      config/alerts_config.go.
    - [Network], [Fleet]: detect/network.go and detect/fleet.go.  [NetworkRecovery]:
      the recoveries of a flood against the history of batches.  [AuthDetect]:
      detect/auth.go.
    - [Regex]: the patterns of the package [regexp] that the program uses, with the
      matches in the order Go prefers them.  [SSHLog]: collector/auth.go, the messages of
      OpenSSH and PAM.  [JournalRecord]: the decoding of records in collector/journal.go
      and journal_diagnostics.go.  [JournalReader]: [RunReliable] of
      collector/journal_reliable.go, with a child process that prints what it likes;
      [JournalOrder]: that it loses nothing silently.
    - [NetDev]: collector/netdev_set.go and interfaces.go, the polling loop.
    - [Alert]: model/alert.go and model/health_diagnostic.go.
    - [Billing]: billing/billing.go.  [Health]: the values of
      collector/journal_diagnostics.go and assets/health.go that the monitor reads.
    - [Monitor]: daemon/monitor_state.go, monitor_month.go, monitor_diagnostics.go.
      [MonitorHealth], [MonitorBudget] and [MonitorStored] hold its theorems.
      [MonitorObserve]: the health observations of daemon/monitor_observe.go.
    - [MonitorRuntime]: daemon/monitor.go and store/monitor_state.go.
    - [Sql]: the vocabulary of the store: a transaction as a function to an outcome
      with the committed state, and the checks of a column.  [Retention]: the ledger
      of store/retention.go that counts what was removed from the detail tables.  [Hourly]:
      the hourly aggregates of store/store.go.  [Traffic]: the theorems on the totals
      of traffic.  [SensorCommit]: store/sensor_commits.go, a batch committed once
      under its sequence identity.  [Coverage]: store/coverage.go, the intervals of
      component states.
    - [EventQueue]: daemon/events.go, the bounded queue of events whose commit
      failed.  [Privacy]: privacy/privacy.go and the preparation of an event in daemon/app.go.
      [Ingest]: the daemon's handling of a sequenced batch, over [Fleet],
      [SensorCommit] and [EventQueue]; [IngestAck]: what its answer to the sensor
      implies.
    - [JournalStore]: store/journal.go, the checkpoint of the journal, written in one
      transaction with what a record led to.  [JournalIngest]: the daemon's handling of
      records (daemon/health.go and the wiring in daemon/app.go).  [JournalOnce]: each
      record counts once under failing commits.  [JournalEnd]: reader, daemon and store
      together, across processes.
    - [Integrity]: store/integrity.go, what the store can tell of a period.
      [AuthHistory]: store/auth_history.go and daemon/auth_history.go, the hints that a
      login gets from its history.
    - [Mmdb]: assets/mmdb_bounds.go, the check of a GeoIP database before it is used.
    - [AuthCompaction]: the compaction of authentication detail in store/budget_auth.go.
      [Budget]: store/budget.go, the admission of writes and the chunks that reclaim
      space.  [Maintenance]: that repeated maintenance ends.  [Reclaim]: in which order it
      removes, over a history of chunks.
    - [Outbox]: the tables of the notification outbox and its admission
      (store/store.go, alerts.go, presentation.go).  [OutboxQueue]: claims, leases,
      pacing, failures and resumption (store/queue.go, eligibility.go).  [OfficialDispatch]:
      store/official_dispatch.go, the intent, attempt, receipt and polls of a request
      to an official platform.  [OutboxAdmin]: targets, silences, discards and
      expiry.  [DispatchOnce]: the steps of the outbox and the messages that a platform
      sees again.  [DispatchBudget]: the ledger of requests with its backups, which a
      restore goes back to, and the daily budget.  [Worker]: notify/worker.go and
      worker_official.go over these operations.

    ** What the theorems show

    - Protocol and socket: an accepted batch has exact totals that no 64-bit sum
      wraps ([ValidateAt_accepted]); validation changes nothing the second time;
      frames round-trip ([WriteFrame_ReadFrame]); [writeAll] terminates; deltas of
      cumulative health telescope.
    - Sensor: no frame makes the decoder read out of bounds, legal frames with VLAN
      tags, options and extension headers decode to what was sent; a flush conserves
      the captured traffic, is accepted by the daemon and does not depend on the
      iteration order of Go maps; what reaches the daemon is one increasing,
      cumulative stream per session, and losses are accounted.
    - Detection: the flood events of any history are whole incidents
      ([flood_lifecycle]) and a recovery needs consecutive quiet windows that lost
      nothing, told from the batches alone ([recovery_needs_quiet_windows]); scan and
      brute-force alerts count only what was observed, and with complete coverage none
      is missed ([brute_force_exact]); a fleet behaves as independent detectors per
      interface ([fleet_refines_network]) within one budget ([fleet_bounded]).
    - Journal: an SSH message yields the peer's real address and port whatever the peer
      puts in it, and is refused only when it can be read in two ways ([ParseSSH_peer]);
      the reader never says that it runs while a loss is outstanding
      ([readiness_honest]) and acknowledges consecutive records as long as it reports no
      gap, from wherever a child begins to print ([journal_order]); a record is counted
      at most once in a process ([journal_counted_once]) and exactly once across
      processes ([journal_exactly_once]).
    - Counters: deltas telescope to the growth of the kernel's counters and state
      reports are transitions.
    - Alerts: the projection of any evidence passes the validation of its readers and
      depends on fixed keys only.
    - Monitor: the health evaluator, which keeps a few times, refines a specification
      over whole histories ([health_refines_spec]), and a lasting failure is reported
      ([persistent_failure_alerts]); a milestone is announced at most once in a period
      while the billing cycle day recorded stays the same, and only a change of that day
      starts anew ([budget_announced_once]); the state of a health rule can be read back
      whatever the components report, as long as the SSH detector is there and within
      its capacity ([health_state_readable]); commits of unknown outcome, conflicts and
      restarts lose and repeat nothing of what was observed ([monitor_durable_once]).
    - Store: the totals of removed rows are the saturated sums of the removals;
      traffic is conserved in the aggregates ([traffic_conserved]); a batch is committed
      once per sequence identity whatever the sensor repeats ([committed_once]), and its
      health is counted once; the totals of component coverage never credit a component
      with more than it had ([coverage_exact]).
    - What is known of a period: its segments tile it and say of every millisecond what
      the recorded intervals say ([integrity_exact]); a login gets hints only from a
      complete history, and only true ones ([hint_needs_evidence]).
    - Storage budget: compaction changes no count ([compaction_conserves]); a write is
      admitted only within the limits, and refusals are published and counted
      ([admission_bounded]); traffic goes before authentication detail, and events only
      after a finished walk over that detail ([reclaim_order]); repeated maintenance ends
      with all of traffic and events reclaimed ([maintenance_reclaims]).  A database of
      the configured number of pages and its rollback journal fit the configured bytes
      ([budget_fits]).
    - GeoIP: the check with its cache accepts exactly what a plain expansion within the
      limits accepts, and reads nothing outside the data ([mmdb_check_exact]).
    - Daemon: the event queue stays within its bounds, flushes in order and accounts for
      what it lost, in the table of gaps too ([event_queue_accounts]); a stored event
      carries no address the privacy mode hides; a batch acknowledged as complete left
      nothing that is not stored ([complete_ack_sound]).
    - Outbox: under any interleaving of its operations, an official platform sees a
      message again only after it refused it, or on LINE while the retry key still
      makes a repetition harmless ([no_repeated_request]); the messages first sent on a
      day stay within the daily budget, counted since the last restore of a backup, and
      for the paid channels, with a clock that does not go back and a limit that stays
      the same, over all restores ([daily_budget_respected]).
    - Workers: a worker asks a platform only for what it claimed and the outbox allowed,
      once, and records only what was answered ([worker_disciplined]); its requests are
      committed attempts of the outbox ([worker_requests_posted]).

    ** Conventions

    An operation is a function from state to state with its events; where the code
    draws an identifier, reads a clock or a random source, or iterates over a map,
    the value drawn, the reading or the order is an argument, and the theorems hold
    for all of them.  Operations guarded by a mutex are single steps, and so are
    SQLite transactions: one that fails leaves the database as it was.  Go's [error]
    is a [Result] or a sum with the errors the code tells apart.  Code outside the
    repository and renderings of text ([time.Parse], [strconv.ParseFloat], [url.Parse],
    [fmt.Sprint] of a float, JSON, SHA-256) are classes with the laws used, or
    arguments; each class has an instance used by the witnesses.

    Fuel appears in loops whose recursion is not structural, each with a bound that
    the code itself gives: the groups of an IPv6 text (eight), the extension headers
    of a packet (the limit of the decoder), the write loop (every iteration that
    continues has consumed a byte, so the length of the payload is enough;
    [writeAll_total] proves that the fuel never runs out), a flush of the event queue
    ([maxEventFlush], 64 iterations, the code's own bound), the retries of a commit
    (one per fate of the history that is given), the nesting of a JSON text in
    the outbox (the depth limit of its inspector), the star of a pattern and the search
    for further matches (every turn consumes a byte of the text, so its length is
    enough), the recursion of the GeoIP check (its depth limit and two more) and its
    loop over the data section (every value takes a byte, so the length is enough;
    [mmdb_check_exact] holds for a check that never runs out).  Loops that run as long as
    the process does ([Worker.Run], the reader's children, the passes of the monitor,
    chunks of maintenance) take the number of turns or the list of what they meet, and
    the theorems hold for all of them; for maintenance the number that is enough is
    computed from the rows.

    ** Findings

    Seven places where the code does not do what its comments, documents or tests say,
    each with a lemma: [Delivery.unidentified_loss_replaced],
    [Alert.projection_accepts_rejected_time], [MonitorRuntime.unlisted_reason_unreported],
    [SensorCommit.retired_session_recounted], [EventQueue.gap_recounted],
    [IngestAck.eight_interfaces_unsound] and [AuthHistory.hidden_removal].

    ** Not modelled

    The terminal console, the management commands, the formatting and transport of
    notification channels (a sender may answer anything), report documents, evidence
    export, replay, migrations and packaging: user interface, text, network clients and
    files outside the path above.  Of a backup only what it does to the ledger of the
    outbox is modelled: which tables a restore takes back, and the hold that is put on a
    copy with the current schema; copying files and older schemas are left out.  Of the
    store, the removal by age, the inventory of retained rows and the queries of reports
    and of the console are left out.  Of the monitor, [observeBudgets], which asks for
    baselines and forms the budget observations, is left out: the observations are
    arguments.  Of the modelled packages, what is left out is system calls (sockets,
    AF_PACKET, netlink, the journal process), the reading of files and the decoding of
    JSON. *)

From Stdlib Require Export ZArith Lia Ascii String.
From stdpp Require Export base tactics gmap strings list numbers option sorting.

#[global] Open Scope Z_scope.

(** ** Hint database of the development *)

Create HintDb rampart discriminated.
Create Rewrite HintDb rampart.

(** ** Unsigned 64-bit and signed 64-bit machine integers

    Go's [uint64] wraps; [int64] (and [time.Duration], an [int64] of
    nanoseconds) wraps as well.  A machine integer is a [Z]; the predicates
    below say that it is in range. *)

Definition u64_max : Z := 18446744073709551615.
Definition i64_max : Z := 9223372036854775807.
Definition i64_min : Z := -9223372036854775808.

Definition is_u64 (z : Z) : Prop := 0 <= z <= u64_max.
Definition is_i64 (z : Z) : Prop := i64_min <= z <= i64_max.

Definition wrap_u64 (z : Z) : Z := z mod (u64_max + 1).
Definition wrap_i64 (z : Z) : Z := (z - i64_min) mod (u64_max + 1) + i64_min.
Definition add_u64 (a b : Z) : Z := wrap_u64 (a + b).
Definition clamp_i64 (z : Z) : Z := Z.max i64_min (Z.min i64_max z).

(** [if counter < ^uint64(0) { counter++ }] *)
Definition bump_u64 (c : Z) : Z := if c <? u64_max then c + 1 else c.

(** ** Instants

    A [time.Time] is the number of nanoseconds since Go's zero instant
    (0001-01-01T00:00:00Z), so [IsZero] is equality with [0].  A
    [time.Duration] is an [int64] of nanoseconds; [Sub] saturates. *)

Definition time := Z.
Definition duration := Z.

Definition time_zero : time := 0.
Definition is_zero (t : time) : bool := t =? 0.
Definition after (a b : time) : bool := b <? a.
Definition before (a b : time) : bool := a <? b.
Definition time_add (t : time) (d : duration) : time := t + d.
Definition time_sub (a b : time) : duration := clamp_i64 (a - b).

Definition nanosecond : duration := 1.
Definition microsecond : duration := 1000.
Definition millisecond : duration := 1000000.
Definition second : duration := 1000000000.
Definition minute : duration := 60 * second.
Definition hour : duration := 60 * minute.

(** Seconds from Go's zero instant to the Unix epoch, to year 10000 and the
    readings of an instant as Unix time. *)
Definition unix_epoch : time := 62135596800 * second.
Definition year_10000 : time := (62135596800 + 253402300800) * second.
Definition unix_sec (t : time) : Z := (t - unix_epoch) / second.
Definition nanos_of_second (t : time) : Z := t mod second.
Definition unix_micro (t : time) : Z := (t - unix_epoch) / microsecond.
Definition unix_milli (t : time) : Z := (t - unix_epoch) / millisecond.
Definition of_unix_micro (us : Z) : time := unix_epoch + us * microsecond.
Definition of_unix_milli (ms : Z) : time := unix_epoch + ms * millisecond.

(** [1970 <= t.Year() <= 9999], for a time whose location is [off] seconds
    east of UTC. *)
Definition year_in_range (t : time) (off : Z) : bool :=
  (unix_epoch <=? t + off * second) && (t + off * second <? year_10000).

(** [d.Milliseconds()]: division truncated towards zero. *)
Definition milliseconds (d : duration) : Z := Z.quot d millisecond.

(** ** Results of fallible code *)

Inductive result (E A : Type) : Type :=
| Ok (a : A)
| Err (e : E).
Arguments Ok {E A} a.
Arguments Err {E A} e.

Definition rbind {E A B} (m : result E A) (k : A -> result E B) : result E B :=
  match m with Ok a => k a | Err e => Err e end.

Declare Scope rampart_scope.
Delimit Scope rampart_scope with rampart.
Notation "'let?' x ':=' m 'in' k" := (rbind m (fun x => k))
  (at level 10, x pattern, m at level 100, k at level 200)
  : rampart_scope.
Notation "'fail_if' b 'with' e ';;' k" :=
  (if (b : bool) then Err e else k)
  (at level 10, b at level 99, e at level 99, k at level 200) : rampart_scope.
#[global] Open Scope rampart_scope.

Definition is_ok {E A} (r : result E A) : bool :=
  match r with Ok _ => true | Err _ => false end.

(** ** Automation *)

(** Splits a boolean condition of a hypothesis into its conjuncts and turns
    the comparisons into propositions. *)
Ltac bool_to_prop :=
  repeat match goal with
  | H : (_ && _)%bool = true |- _ => apply andb_true_iff in H; destruct H
  | H : (_ || _)%bool = false |- _ => apply orb_false_iff in H; destruct H
  | H : negb _ = true |- _ => apply negb_true_iff in H
  | H : negb _ = false |- _ => apply negb_false_iff in H
  | H : (_ <? _) = true |- _ => apply Z.ltb_lt in H
  | H : (_ <? _) = false |- _ => apply Z.ltb_ge in H
  | H : (_ <=? _) = true |- _ => apply Z.leb_le in H
  | H : (_ <=? _) = false |- _ => apply Z.leb_gt in H
  | H : (_ =? _) = true |- _ => apply Z.eqb_eq in H
  | H : (_ =? _) = false |- _ => apply Z.eqb_neq in H
  | H : bool_decide _ = true |- _ => apply bool_decide_eq_true in H
  | H : bool_decide _ = false |- _ => apply bool_decide_eq_false in H
  end.

(** Case analysis on the conditions of the code, innermost first. *)
Ltac case_if :=
  match goal with
  | |- context [if ?b then _ else _] =>
      lazymatch b with
      | context [if _ then _ else _] => fail
      | _ => let E := fresh "E" in destruct b eqn:E
      end
  end.
Ltac case_if_in H :=
  match type of H with
  | context [if ?b then _ else _] =>
      lazymatch b with
      | context [if _ then _ else _] => fail
      | _ => let E := fresh "E" in destruct b eqn:E
      end
  end.

(** Unfolds the machine constants before [lia]. *)
Ltac zlia :=
  unfold is_u64, is_i64, u64_max, i64_max, i64_min, nanosecond, microsecond,
    millisecond, hour, minute, second in *; lia.

(** ** Lemmas on machine integers and instants *)

Lemma wrap_u64_small z : is_u64 z -> wrap_u64 z = z.
Proof. intros H. unfold wrap_u64. apply Z.mod_small. zlia. Qed.

Lemma wrap_u64_range z : is_u64 (wrap_u64 z).
Proof.
  unfold wrap_u64, is_u64.
  pose proof (Z.mod_pos_bound z (u64_max + 1)). zlia.
Qed.

Lemma add_u64_small a b : is_u64 (a + b) -> add_u64 a b = a + b.
Proof. apply wrap_u64_small. Qed.

Lemma wrap_i64_small z : is_i64 z -> wrap_i64 z = z.
Proof. intros H. unfold wrap_i64. rewrite Z.mod_small; zlia. Qed.

Lemma clamp_i64_range z : is_i64 (clamp_i64 z).
Proof. unfold clamp_i64. zlia. Qed.

Lemma clamp_i64_small z : is_i64 z -> clamp_i64 z = z.
Proof. unfold clamp_i64. zlia. Qed.

Lemma bump_u64_range c : is_u64 c -> is_u64 (bump_u64 c).
Proof. unfold bump_u64. case_if; bool_to_prop; zlia. Qed.

#[export] Hint Resolve wrap_u64_range clamp_i64_range bump_u64_range : rampart.
#[export] Hint Rewrite wrap_u64_small wrap_i64_small clamp_i64_small
  using (zlia) : rampart.

Lemma before_spec a b : before a b = true <-> a < b.
Proof. apply Z.ltb_lt. Qed.
Lemma after_spec a b : after a b = true <-> b < a.
Proof. apply Z.ltb_lt. Qed.

(** A saturated difference still compares correctly with a duration in range. *)
Lemma time_sub_le a b d :
  is_i64 d -> (d <= time_sub a b <-> d <= a - b \/ d = i64_min).
Proof. unfold time_sub, clamp_i64. zlia. Qed.

Lemma time_sub_lt a b d :
  is_i64 d -> d <> i64_max -> (d < time_sub a b <-> d < a - b).
Proof. unfold time_sub, clamp_i64. zlia. Qed.

(** ** Bytes of machine words *)

Lemma lor_shiftl_add hi lo k :
  0 <= k -> 0 <= lo < 2 ^ k -> Z.lor (Z.shiftl hi k) lo = hi * 2 ^ k + lo.
Proof.
  intros Hk Hlo. rewrite <- Z.shiftl_mul_pow2 by lia.
  rewrite <- Z.lxor_lor; [symmetry; apply Z.add_nocarry_lxor|].
  all: apply Z.bits_inj'; intros i Hi; rewrite Z.land_spec, Z.bits_0.
  all: destruct (decide (i < k)); [rewrite Z.shiftl_spec_low by lia; done|].
  all: apply andb_false_iff; right; destruct (decide (lo = 0)) as [->|];
    [apply Z.bits_0|apply Z.bits_above_log2; [lia|]].
  all: apply Z.log2_lt_pow2; [lia|]; apply Z.lt_le_trans with (2 ^ k); [lia|].
  all: apply Z.pow_le_mono_r; lia.
Qed.

Lemma land_255 n : Z.land n 255 = n mod 256.
Proof. change 255 with (Z.ones 8). by rewrite Z.land_ones by lia. Qed.

Lemma land_255_range n : 0 <= Z.land n 255 < 256.
Proof. rewrite land_255. apply Z.mod_pos_bound. lia. Qed.

(** ** Lists *)

Definition lenZ {A} (l : list A) : Z := Z.of_nat (length l).

Lemma lenZ_app {A} (l1 l2 : list A) : lenZ (l1 ++ l2) = lenZ l1 + lenZ l2.
Proof. unfold lenZ. rewrite length_app. lia. Qed.
Lemma lenZ_cons {A} (x : A) l : lenZ (x :: l) = lenZ l + 1.
Proof. unfold lenZ. simpl. lia. Qed.
Lemma lenZ_nonneg {A} (l : list A) : 0 <= lenZ l.
Proof. unfold lenZ. lia. Qed.

Definition sumZ (l : list Z) : Z := foldr Z.add 0 l.

Lemma sumZ_nil : sumZ [] = 0.
Proof. reflexivity. Qed.
Lemma sumZ_cons x l : sumZ (x :: l) = x + sumZ l.
Proof. reflexivity. Qed.

Lemma sumZ_app l1 l2 : sumZ (l1 ++ l2) = sumZ l1 + sumZ l2.
Proof. induction l1; simpl; unfold sumZ in *; lia. Qed.

Lemma sumZ_perm l1 l2 : l1 ≡ₚ l2 -> sumZ l1 = sumZ l2.
Proof. induction 1; unfold sumZ in *; simpl; lia. Qed.

#[global] Instance sumZ_proper : Proper ((≡ₚ) ==> eq) sumZ.
Proof. intros l1 l2. apply sumZ_perm. Qed.

Lemma sumZ_nonneg l : Forall (fun z => 0 <= z) l -> 0 <= sumZ l.
Proof. induction 1; unfold sumZ in *; simpl; lia. Qed.

Lemma sumZ_le l l' : Forall2 Z.le l l' -> sumZ l <= sumZ l'.
Proof. induction 1; unfold sumZ in *; simpl; lia. Qed.

(** A loop over entries of which each step keeps a property keeps it. *)
Lemma foldl_preserves {A B} (P : A -> Prop) (f : A -> B -> A) l : forall a,
  (forall a b, P a -> P (f a b)) -> P a -> P (foldl f a l).
Proof. induction l as [|b l IH]; intros a Hf Ha; simpl; auto. Qed.

Lemma Forall_filter {A} (P Q : A -> Prop) `{!forall x, Decision (P x)} l :
  Forall Q l -> Forall Q (filter P l).
Proof. rewrite !Forall_forall. intros HQ x [_ Hx]%list_elem_of_filter. auto. Qed.

(** ** Retries *)

(** A retry follows what it repeats: an element that was there before is the last. *)
Fixpoint immediate {A} `{EqDecision A} (before l : list A) : bool :=
  match l with
  | [] => true
  | x :: l => (negb (bool_decide (x ∈ before)) || bool_decide (last before = Some x)) && immediate (before ++ [x]) l
  end.

Lemma immediate_snoc {A} `{EqDecision A} (l : list A) x : forall before,
  immediate before l = true -> (x ∈ before ++ l -> last (before ++ l) = Some x) -> immediate before (l ++ [x]) = true.
Proof.
  induction l as [|y l IH]; intros before Hl Hx; simpl in *.
  - rewrite app_nil_r in Hx. rewrite andb_true_r. case_bool_decide; [|done]. by rewrite bool_decide_true by auto.
  - apply andb_true_iff in Hl as [H1 H2]. rewrite H1. apply IH; [done|]. by rewrite <- app_assoc.
Qed.

(** ** Sums over the entries of a finite map *)

Section map_sum.
Context {K V : Type} `{Countable K} (f : K -> V -> Z).

Definition map_sum (m : gmap K V) : Z := sumZ (uncurry f <$> map_to_list m).

Lemma map_sum_empty : map_sum ∅ = 0.
Proof. unfold map_sum. by rewrite map_to_list_empty. Qed.

Lemma map_sum_insert_None (m : gmap K V) k v :
  m !! k = None -> map_sum (<[k := v]> m) = f k v + map_sum m.
Proof.
  intros Hk. unfold map_sum.
  rewrite (map_to_list_insert m k v Hk). reflexivity.
Qed.

Lemma map_sum_delete (m : gmap K V) k v :
  m !! k = Some v -> map_sum m = f k v + map_sum (delete k m).
Proof.
  intros Hk. rewrite <- (insert_delete_id m k v Hk) at 1.
  apply map_sum_insert_None. apply lookup_delete_eq.
Qed.

Lemma map_sum_insert (m : gmap K V) k v v0 :
  m !! k = Some v0 -> map_sum (<[k := v]> m) = f k v - f k v0 + map_sum m.
Proof.
  intros Hk. rewrite <- insert_delete_eq.
  rewrite map_sum_insert_None by apply lookup_delete_eq.
  rewrite (map_sum_delete m k v0 Hk). lia.
Qed.

Lemma map_sum_nonneg (m : gmap K V) :
  map_Forall (fun k v => 0 <= f k v) m -> 0 <= map_sum m.
Proof.
  intros Hm. unfold map_sum. apply sumZ_nonneg, Forall_fmap, Forall_forall.
  intros [k v] Hin%elem_of_map_to_list. simpl. by apply (Hm k).
Qed.

Lemma map_sum_lookup_le (m : gmap K V) k v :
  map_Forall (fun k v => 0 <= f k v) m -> m !! k = Some v -> f k v <= map_sum m.
Proof.
  intros Hm Hk. rewrite (map_sum_delete m k v Hk).
  assert (0 <= map_sum (delete k m)); [|lia].
  apply map_sum_nonneg. intros k' v' [_ Hk']%lookup_delete_Some. by apply (Hm k').
Qed.

Lemma map_sum_le (m : gmap K V) c :
  map_Forall (fun k v => f k v <= c) m -> map_sum m <= c * Z.of_nat (size m).
Proof.
  induction m as [|k v m Hk IH] using map_ind; intros Hm.
  - rewrite map_sum_empty, map_size_empty. lia.
  - rewrite map_sum_insert_None, map_size_insert_None by done.
    apply map_Forall_insert in Hm as [Hv Hm]; [|done]. specialize (IH Hm). simpl in Hv. lia.
Qed.
End map_sum.

#[export] Hint Rewrite @map_sum_empty : rampart.

Lemma dom_insert_present {V} (m : gmap string V) k v v0 :
  m !! k = Some v0 -> dom (<[k := v]> m) = dom m.
Proof.
  intros Hk%elem_of_dom_2. rewrite dom_insert_L. by apply subseteq_union_1_L, singleton_subseteq_l.
Qed.

(** ** Strings

    A Go string is a sequence of bytes, here [String.string].  The control
    characters that the code rejects are below [0x80], so testing runes and
    testing bytes agree: every byte of a multi-byte rune (and every byte that
    decodes to U+FFFD) is at least [0x80]. *)

Definition byte_of (c : ascii) : Z := Z.of_N (N_of_ascii c).

Fixpoint string_exists (p : Z -> bool) (s : string) : bool :=
  match s with
  | EmptyString => false
  | String c s => p (byte_of c) || string_exists p s
  end.

Lemma string_exists_or p q s :
  string_exists (fun b => p b || q b) s = string_exists p s || string_exists q s.
Proof.
  induction s as [|c s IH]; simpl; [done|]. rewrite IH.
  destruct (p _), (q _), (string_exists p s); reflexivity.
Qed.

Definition string_len (s : string) : Z := Z.of_nat (String.length s).

(** [s < t] on Go strings: lexicographic by bytes. *)
Definition string_lt (s t : string) : bool := String.ltb s t.

Notation "s =?s t" := (String.eqb s t) (at level 70) : rampart_scope.

(** ** Strict total orders as boolean comparisons

    The less functions that the code gives to [sort] and the tie breaks of its
    selections are lexicographic; this class says what makes their result
    independent of the order in which a Go map was iterated. *)

Class StrictTotal {A} (lt : A -> A -> bool) : Prop := {
  st_irrefl : forall a, lt a a = false;
  st_trans : forall a b c, lt a b = true -> lt b c = true -> lt a c = true;
  st_total : forall a b, lt a b = false -> lt b a = false -> a = b }.

Definition gtb (a b : Z) : bool := b <? a.
Definition lex {A B} `{EqDecision A} (la : A -> A -> bool) (lb : B -> B -> bool)
    (x y : A * B) : bool :=
  if decide (x.1 = y.1) then lb x.2 y.2 else la x.1 y.1.

#[global] Instance Zlt_strict : StrictTotal Z.ltb.
Proof. split; intros; lia. Qed.

#[global] Instance Zgt_strict : StrictTotal gtb.
Proof. unfold gtb. split; intros; lia. Qed.

Lemma string_compare_lt_trans a : forall b c,
  String.compare a b = Lt -> String.compare b c = Lt -> String.compare a c = Lt.
Proof.
  induction a as [|x a IH]; intros [|y b] [|z c]; simpl; try discriminate; auto.
  unfold Ascii.compare.
  destruct (N.compare_spec (N_of_ascii x) (N_of_ascii y)) as [H1|H1|H1]; try discriminate;
  destruct (N.compare_spec (N_of_ascii y) (N_of_ascii z)) as [H2|H2|H2]; try discriminate;
  destruct (N.compare_spec (N_of_ascii x) (N_of_ascii z)) as [H3|H3|H3]; try lia; eauto.
Qed.

#[global] Instance string_lt_strict : StrictTotal string_lt.
Proof.
  unfold string_lt, String.ltb. split.
  - intros a. pose proof (String.compare_antisym a a) as H.
    by destruct (String.compare a a).
  - intros a b c. destruct (String.compare a b) eqn:E1; try discriminate.
    destruct (String.compare b c) eqn:E2; try discriminate.
    by rewrite (string_compare_lt_trans a b c).
  - intros a b. rewrite (String.compare_antisym b a).
    destruct (String.compare a b) eqn:E; try discriminate. intros _ _.
    by apply String.compare_eq_iff.
Qed.

#[global] Instance lex_strict {A B} `{EqDecision A} (la : A -> A -> bool) (lb : B -> B -> bool) :
  StrictTotal la -> StrictTotal lb -> StrictTotal (lex la lb).
Proof.
  intros HA HB. unfold lex. split.
  - intros [a b]. rewrite decide_True by done. apply st_irrefl.
  - intros [a1 b1] [a2 b2] [a3 b3]; simpl.
    destruct (decide (a1 = a2)) as [->|H1], (decide (a2 = a3)) as [->|H2]; intros E1 E2.
    + by apply (st_trans b1 b2 b3).
    + done.
    + by try rewrite decide_False.
    + destruct (decide (a1 = a3)) as [->|]; [|eapply st_trans; eauto].
      exfalso. pose proof (st_trans _ _ _ E1 E2) as H. rewrite st_irrefl in H. discriminate.
  - intros [a1 b1] [a2 b2]; simpl.
    destruct (decide (a1 = a2)) as [->|H1].
    + rewrite decide_True by done. intros. f_equal. by apply (st_total (lt := lb)).
    + rewrite decide_False by done. intros. exfalso. apply H1. by apply (st_total (lt := la)).
Qed.

(** Sorting: the code's [sort.Slice] with such a comparison. *)
Definition not_less {A} (lt : A -> A -> bool) (x y : A) : Prop := lt y x = false.

#[global] Instance not_less_dec {A} (lt : A -> A -> bool) : RelDecision (not_less lt).
Proof. intros x y. unfold not_less. apply _. Defined.

Definition sorted_by {A} (lt : A -> A -> bool) : list A -> Prop :=
  Sorted (not_less lt).

Definition sort_by {A} (lt : A -> A -> bool) : list A -> list A :=
  merge_sort (not_less lt).

(** A less function that compares keys: [lt x y] is [lt' (g x) (g y)]. *)
Section sort.
Context {A B : Type} (lt : A -> A -> bool) (lt' : B -> B -> bool) `{HS : !StrictTotal lt'}.
Context (g : A -> B) (Hg : forall x y, lt x y = lt' (g x) (g y)).

#[local] Instance not_less_total' : Total (not_less lt').
Proof.
  intros x y. unfold not_less. destruct (lt' y x) eqn:E; [right|by left].
  destruct (lt' x y) eqn:E'; [|done].
  pose proof (st_trans _ _ _ E E') as H. by rewrite st_irrefl in H.
Qed.

#[local] Instance not_less_trans' : Transitive (not_less lt').
Proof.
  unfold not_less. intros x y z H1 H2. destruct (lt' z x) eqn:E; [|done].
  destruct (lt' x y) eqn:E1; [pose proof (st_trans _ _ _ E E1); congruence|].
  rewrite (st_total _ _ E1 H1) in E. congruence.
Qed.

#[local] Instance not_less_antisymm' : AntiSymm (=) (not_less lt').
Proof. intros x y H1 H2. by apply (st_total (lt := lt')). Qed.

#[local] Instance not_less_total : Total (not_less lt).
Proof.
  intros x y. unfold not_less. rewrite !Hg.
  apply (not_less_total' (g x) (g y)).
Qed.

Lemma sort_by_perm l : sort_by lt l ≡ₚ l.
Proof. apply merge_sort_Permutation. Qed.

Lemma sort_by_sorted l : sorted_by lt (sort_by lt l).
Proof. apply Sorted_merge_sort. apply _. Qed.

Lemma sorted_by_keys l : sorted_by lt l -> sorted_by lt' (g <$> l).
Proof.
  unfold sorted_by, not_less. induction 1 as [|x l Hs IH Hd]; simpl; constructor; [done|].
  destruct Hd as [|y l Hy]; simpl; constructor. by rewrite <- Hg.
Qed.

(** Any sorted arrangement is the one [sort_by] computes, when different
    elements have different keys. *)
Lemma sort_by_unique l l' :
  (forall x y, x ∈ l -> y ∈ l -> g x = g y -> x = y) ->
  l' ≡ₚ l -> sorted_by lt l' -> l' = sort_by lt l.
Proof.
  intros Hinj Hp Hs.
  assert (Hk : g <$> l' = g <$> sort_by lt l).
  { apply (Sorted_unique (not_less lt')).
    - by apply sorted_by_keys.
    - apply sorted_by_keys, sort_by_sorted.
    - by rewrite Hp, sort_by_perm. }
  assert (Hin : forall x, x ∈ l' -> x ∈ l) by (intros x; by rewrite Hp).
  assert (Hin2 : forall x, x ∈ sort_by lt l -> x ∈ l) by (intros x; by rewrite sort_by_perm).
  revert Hk Hin Hin2. generalize (sort_by lt l) as r. clear Hp Hs.
  induction l' as [|x l' IH]; intros [|y r] Hk Hin Hin2; try done.
  simpl in Hk. injection Hk as H1 H2. f_equal.
  - apply Hinj; [apply Hin|apply Hin2|done]; apply list_elem_of_here.
  - apply IH; [done|..]; intros z Hz; [apply Hin|apply Hin2]; by apply list_elem_of_further.
Qed.

(** So the result does not depend on the order of the input. *)
Lemma sort_by_order_independent l l' :
  (forall x y, x ∈ l -> y ∈ l -> g x = g y -> x = y) ->
  l ≡ₚ l' -> sort_by lt l = sort_by lt l'.
Proof.
  intros Hinj Hp. symmetry. apply sort_by_unique; [done| |apply sort_by_sorted].
  by rewrite sort_by_perm, Hp.
Qed.
End sort.

(** ** Selecting the first of a collection

    The code scans a map and keeps the best entry so far.  When [better] compares
    keys by a strict total order, the result is the least entry, whatever the
    order of the scan. *)
Definition select {A} (better : A -> A -> bool) (top : A) (l : list A) : A :=
  foldl (fun top x => if better top x then x else top) top l.

Section select.
Context {A B : Type} (lt : B -> B -> bool) `{HS : !StrictTotal lt} (g : A -> B).
Context (better : A -> A -> bool) (P : A -> Prop).
Context (Hb : forall top x, P top -> P x -> better top x = lt (g x) (g top)).

Lemma select_spec l : forall top,
  Forall P (top :: l) ->
  select better top l ∈ top :: l /\
  Forall (fun x => lt (g x) (g (select better top l)) = false) (top :: l).
Proof.
  unfold select. induction l as [|x l IH]; intros top Hl; simpl.
  { split; [apply list_elem_of_here|]. constructor; [apply st_irrefl|constructor]. }
  apply Forall_cons in Hl as [Ht Hl]. apply Forall_cons in Hl as [Hx Hl].
  destruct (better top x) eqn:Eb; rewrite Hb in Eb by done.
  - destruct (IH x ltac:(by constructor)) as [Hin Hall]. split; [by right|].
    constructor; [|done]. apply Forall_cons in Hall as [Hf1 _].
    destruct (lt (g top) _) eqn:E; [|done].
    exfalso. rewrite (st_trans _ _ _ Eb E) in Hf1. discriminate.
  - destruct (IH top ltac:(by constructor)) as [Hin Hall].
    apply Forall_cons in Hall as [Ht1 Hall]. split.
    { apply elem_of_cons in Hin as [->|Hin]; [left|by do 2 right]. }
    constructor; [done|]. constructor; [|done].
    set (r := foldl _ top l) in *.
    destruct (lt (g x) (g r)) eqn:E; [|done]. exfalso.
    destruct (lt (g r) (g top)) eqn:E2; [rewrite (st_trans _ _ _ E E2) in Eb; discriminate|].
    rewrite (st_total (g r) (g top) E2 Ht1) in E. congruence.
Qed.

(** Two least entries of the same collection are the same entry. *)
Lemma least_unique l x y :
  (forall a b, a ∈ l -> b ∈ l -> g a = g b -> a = b) -> x ∈ l -> y ∈ l ->
  Forall (fun a => lt (g a) (g x) = false) l -> Forall (fun a => lt (g a) (g y) = false) l ->
  x = y.
Proof.
  rewrite !Forall_forall. intros Hinj Hx Hy Hlx Hly. apply Hinj; [done..|].
  apply (st_total (lt := lt)); auto.
Qed.
End select.
