(* ===== verification/Float64.v ===== *)
(** * IEEE 754 binary64 numbers

    Go's [float64], through the Standard Library's [SpecFloat] (pure
    definitions, no primitive type): conversion from integers, the arithmetic
    and the comparisons that the detectors, the monitor and the tariff code
    use. *)

From S2P Require Export Prelude.
From Stdlib Require Import SpecFloat.

Definition f64 := spec_float.

Definition f64_prec : Z := 53.
Definition f64_emax : Z := 1024.

Definition f64_zero : f64 := S754_zero false.
Definition f64_nan : f64 := S754_nan.
Definition f64_inf : f64 := S754_infinity false.

(** [float64(n)] for an integer [n]. *)
Definition f64_of_Z (n : Z) : f64 := binary_normalize f64_prec f64_emax n 0 false.

Definition f64_add : f64 -> f64 -> f64 := SFadd f64_prec f64_emax.
Definition f64_sub : f64 -> f64 -> f64 := SFsub f64_prec f64_emax.
Definition f64_mul : f64 -> f64 -> f64 := SFmul f64_prec f64_emax.
Definition f64_div : f64 -> f64 -> f64 := SFdiv f64_prec f64_emax.

(** [a < b], [a <= b], [a >= b] and [a == b] of Go: false on a NaN. *)
Definition f64_lt (a b : f64) : bool := SFltb a b.
Definition f64_le (a b : f64) : bool := SFleb a b.
Definition f64_ge (a b : f64) : bool := SFleb b a.
Definition f64_gt (a b : f64) : bool := SFltb b a.
Definition f64_eq (a b : f64) : bool := SFeqb a b.

Definition f64_is_nan (a : f64) : bool :=
  match a with S754_nan => true | _ => false end.
Definition f64_is_inf (a : f64) : bool :=
  match a with S754_infinity _ => true | _ => false end.
Definition f64_finite (a : f64) : bool := negb (f64_is_nan a || f64_is_inf a).

(** A decimal constant of the source, [m * 10^e], correctly rounded. *)
Definition f64_const (m : positive) (e : Z) : f64 :=
  if 0 <=? e then f64_of_Z (Zpos m * 10 ^ e)
  else
    let '(q, e', l) :=
      SFdiv_core_binary f64_prec f64_emax (Zpos m) 0 (10 ^ (- e)) 0 in
    binary_round_aux f64_prec f64_emax false q e' l.

(** The integer part of a finite number, towards zero. *)
Definition f64_trunc (a : f64) : option Z :=
  match a with
  | S754_zero _ => Some 0
  | S754_finite s m e =>
      let v := if 0 <=? e then Zpos m * 2 ^ e else Z.quot (Zpos m) (2 ^ (- e)) in
      Some (if s then - v else v)
  | _ => None
  end.

(** ** Comparison *)

Lemma f64_compare_swap a b :
  SFcompare b a = match SFcompare a b with Some c => Some (CompOpp c) | None => None end.
Proof.
  destruct a as [sa|sa| |sa ma ea], b as [sb|sb| |sb mb eb];
    try (destruct sa, sb; reflexivity);
    try (destruct sa; reflexivity); try (destruct sb; reflexivity); try reflexivity.
  simpl.
  change (Pos.compare_cont Eq mb ma) with (Pos.compare mb ma).
  change (Pos.compare_cont Eq ma mb) with (Pos.compare ma mb).
  rewrite (Z.compare_antisym ea eb), (Pos.compare_antisym ma mb).
  destruct sa, sb; try reflexivity;
    destruct (ea ?= eb); simpl; try reflexivity;
    destruct (Pos.compare ma mb); reflexivity.
Qed.

Lemma f64_compare_None a b :
  SFcompare a b = None <-> f64_is_nan a || f64_is_nan b = true.
Proof.
  destruct a as [sa|sa| |sa ma ea], b as [sb|sb| |sb mb eb]; simpl;
    try (split; congruence).
Qed.

(** Without a NaN, exactly one of [a >= b] and [a < b] holds. *)
Lemma f64_ge_negb_lt a b :
  f64_is_nan a = false -> f64_is_nan b = false -> f64_ge a b = negb (f64_lt a b).
Proof.
  intros Ha Hb. unfold f64_ge, f64_lt, SFleb, SFltb.
  rewrite (f64_compare_swap a b).
  destruct (SFcompare a b) as [[]|] eqn:E; try reflexivity.
  apply f64_compare_None in E. rewrite Ha, Hb in E. discriminate.
Qed.

Lemma f64_ge_not_lt a b : f64_ge a b = true -> f64_lt a b = false.
Proof.
  unfold f64_ge, f64_lt, SFleb, SFltb. rewrite (f64_compare_swap a b).
  destruct (SFcompare a b) as [[]|]; simpl; congruence.
Qed.

#[export] Hint Resolve f64_ge_not_lt : rampart.
