(* ===== verification/NetIP.v ===== *)
(** * IP addresses as text

    The part of Go's [net/netip] that the program uses: [ParseAddr], [Unmap],
    [Addr.String], [AddrFrom4]/[AddrFrom16] and the masked prefix text that
    [detect.PrefixString] builds.  Text is handled as the list of its bytes. *)

From S2P Require Export Prelude.

Definition bytes_of_string (s : string) : list Z := byte_of <$> list_ascii_of_string s.
Definition string_of_bytes (l : list Z) : string :=
  string_of_list_ascii ((fun b => ascii_of_N (Z.to_N b)) <$> l).

(** [A4 a b c d] is the IPv4 address a.b.c.d; [A6 words zone] an IPv6 address
    of eight 16-bit words. *)
Inductive addr :=
| A4 (a b c d : Z)
| A6 (words : list Z) (zone : string).

#[global] Instance addr_eq_dec : EqDecision addr.
Proof. solve_decision. Defined.

Definition addr_ok (a : addr) : Prop :=
  match a with
  | A4 a b c d => 0 <= a < 256 /\ 0 <= b < 256 /\ 0 <= c < 256 /\ 0 <= d < 256
  | A6 ws _ => length ws = 8%nat /\ Forall (fun w => 0 <= w < 65536) ws
  end.

Definition is4 (a : addr) : bool := match a with A4 _ _ _ _ => true | _ => false end.

(** [Addr.Is4In6] and [Addr.Unmap]. *)
Definition unmap (a : addr) : addr :=
  match a with
  | A6 [w0; w1; w2; w3; w4; w5; hi; lo] _ =>
      if (w0 =? 0) && (w1 =? 0) && (w2 =? 0) && (w3 =? 0) && (w4 =? 0) && (w5 =? 65535)
      then A4 (hi / 256) (hi mod 256) (lo / 256) (lo mod 256) else a
  | _ => a
  end.

(** ** Parsing *)

Definition is_digit (b : Z) : bool := (48 <=? b) && (b <=? 57).

(** [parseIPv4Fields]: [first] says that no byte has been read, [dot] that the
    previous byte was a dot, [val] and [dig] are the current octet and its
    number of digits, [acc] the finished octets, last first. *)
Fixpoint parse4_fields (s : list Z) (first dot : bool) (val dig : Z) (acc : list Z)
    : option (list Z) :=
  match s with
  | [] => if (length acc <? 3)%nat then None else Some (rev (val :: acc))
  | b :: s =>
      if is_digit b then
        if (dig =? 1) && (val =? 0) then None
        else
          let val := val * 10 + (b - 48) in
          if 255 <? val then None else parse4_fields s false false val (dig + 1) acc
      else if b =? 46 then
        if first || dot || match s with [] => true | _ => false end then None
        else if (length acc =? 3)%nat then None
        else parse4_fields s false true 0 0 (val :: acc)
      else None
  end.

Definition parse4 (s : list Z) : option (Z * Z * Z * Z) :=
  match parse4_fields s true false 0 0 [] with
  | Some [a; b; c; d] => Some (a, b, c, d)
  | _ => None
  end.

Definition hex_value (b : Z) : option Z :=
  if is_digit b then Some (b - 48)
  else if (97 <=? b) && (b <=? 102) then Some (b - 97 + 10)
  else if (65 <=? b) && (b <=? 70) then Some (b - 65 + 10)
  else None.

(** The digits of one group: its value, how many digits and what follows;
    [None] when the group has more than four digits. *)
Fixpoint parse_group (s : list Z) (off acc : Z) : option (Z * Z * list Z) :=
  match s with
  | b :: rest =>
      match hex_value b with
      | Some v => if 3 <? off then None else parse_group rest (off + 1) (acc * 16 + v)
      | None => Some (acc, off, s)
      end
  | [] => Some (acc, off, [])
  end.

(** The loop of [parseIPv6]: the words read so far (last first), the position
    of the ellipsis in words, the rest of the text. *)
Fixpoint parse6_loop (fuel : nat) (s : list Z) (ws : list Z) (ell : option nat)
    : option (list Z * option nat * list Z) :=
  match fuel with
  | O => Some (ws, ell, s)
  | S fuel =>
      match parse_group s 0 0 with
      | None => None
      | Some (acc, off, rest) =>
          if off =? 0 then None
          else
            match rest with
            | 46 :: _ =>
                if match ell with None => negb (length ws =? 6)%nat | _ => false end then None
                else if (8 <? length ws + 2)%nat then None
                else
                  match parse4 s with
                  | Some (a, b, c, d) =>
                      Some ((c * 256 + d) :: (a * 256 + b) :: ws, ell, [])
                  | None => None
                  end
            | [] => Some (acc :: ws, ell, [])
            | 58 :: [] => None
            | 58 :: 58 :: rest =>
                match ell with
                | Some _ => None
                | None =>
                    let ws := acc :: ws in
                    match rest with
                    | [] => Some (ws, Some (length ws), [])
                    | _ => parse6_loop fuel rest ws (Some (length ws))
                    end
                end
            | 58 :: rest => parse6_loop fuel rest (acc :: ws) ell
            | _ => None
            end
      end
  end.

Definition expand_ellipsis (ws : list Z) (ell : nat) : list Z :=
  take ell ws ++ replicate (8 - length ws) 0 ++ drop ell ws.

Definition parse6_body (s : list Z) (ell : option nat) : option (list Z) :=
  match parse6_loop 8 s [] ell with
  | Some (ws, ell, []) =>
      let ws := rev ws in
      if (length ws <? 8)%nat then
        match ell with Some e => Some (expand_ellipsis ws e) | None => None end
      else match ell with Some _ => None | None => Some ws end
  | _ => None
  end.

(** The text before and after the first [%]. *)
Fixpoint split_zone (s : list Z) : list Z * option (list Z) :=
  match s with
  | [] => ([], None)
  | b :: s =>
      if b =? 37 then ([], Some s)
      else let '(l, z) := split_zone s in (b :: l, z)
  end.

Definition parse6 (s : list Z) : option addr :=
  let '(s, zone) := split_zone s in
  let finish z :=
    match s with
    | [58; 58] => Some (A6 (replicate 8 0) z)
    | 58 :: 58 :: rest => (fun ws => A6 ws z) <$> parse6_body rest (Some 0%nat)
    | _ => (fun ws => A6 ws z) <$> parse6_body s None
    end in
  match zone with
  | Some [] => None
  | Some z => finish (string_of_bytes z)
  | None => finish EmptyString
  end.

(** [netip.ParseAddr]: the first of [.], [:] and [%] decides. *)
Fixpoint parse_kind (s : list Z) : option Z :=
  match s with
  | [] => None
  | b :: s => if (b =? 46) || (b =? 58) || (b =? 37) then Some b else parse_kind s
  end.

Definition parse_bytes (s : list Z) : option addr :=
  match parse_kind s with
  | Some 46 => (fun '(a, b, c, d) => A4 a b c d) <$> parse4 s
  | Some 58 => parse6 s
  | _ => None
  end.

Definition parse_addr (s : string) : option addr := parse_bytes (bytes_of_string s).

(** ** Printing *)

Definition dec_octet (n : Z) : list Z :=
  if n <? 10 then [48 + n]
  else if n <? 100 then [48 + n / 10; 48 + n mod 10]
  else [48 + n / 100; 48 + (n / 10) mod 10; 48 + n mod 10].

Definition hex_digit (n : Z) : Z := if n <? 10 then 48 + n else 87 + n.

Definition hex_word (n : Z) : list Z :=
  if n <? 16 then [hex_digit n]
  else if n <? 256 then [hex_digit (n / 16); hex_digit (n mod 16)]
  else if n <? 4096 then
    [hex_digit (n / 256); hex_digit (n / 16 mod 16); hex_digit (n mod 16)]
  else [hex_digit (n / 4096); hex_digit (n / 256 mod 16);
        hex_digit (n / 16 mod 16); hex_digit (n mod 16)].

Definition print4 (a b c d : Z) : list Z :=
  dec_octet a ++ 46 :: dec_octet b ++ 46 :: dec_octet c ++ 46 :: dec_octet d.

(** The number of leading zero words. *)
Fixpoint zero_run (ws : list Z) : nat :=
  match ws with 0 :: ws => S (zero_run ws) | _ => O end.

(** The first longest run of at least two zero words: start and length. *)
Fixpoint longest_run (ws : list Z) (i : nat) (best : nat * nat) : nat * nat :=
  match ws with
  | [] => best
  | _ :: ws' =>
      let l := zero_run ws in
      longest_run ws' (S i) (if (2 <=? l)%nat && (best.2 <? l)%nat then (i, l) else best)
  end.

Fixpoint join_words (ws : list Z) : list Z :=
  match ws with
  | [] => []
  | [w] => hex_word w
  | w :: ws => hex_word w ++ [58] ++ join_words ws
  end.

Definition print6 (ws : list Z) : list Z :=
  match longest_run ws 0 (0%nat, 0%nat) with
  | (_, O) => join_words ws
  | (i, l) => join_words (take i ws) ++ [58; 58] ++ join_words (drop (i + l) ws)
  end.

Definition zone_suffix (zone : string) : list Z :=
  match zone with EmptyString => [] | z => 37 :: bytes_of_string z end.

Definition print_addr (a : addr) : list Z :=
  match a with
  | A4 a b c d => print4 a b c d
  | A6 ws zone =>
      match unmap a with
      | A4 a b c d =>
          [58; 58; 102; 102; 102; 102; 58] ++ print4 a b c d ++ zone_suffix zone
      | _ => print6 ws ++ zone_suffix zone
      end
  end.

(** [Addr.String]. *)
Definition addr_string (a : addr) : string := string_of_bytes (print_addr a).

(** [netip.PrefixFrom(address, bits).Masked().String()] for the two prefix
    lengths the program uses: /24 for IPv4 and /48 for IPv6. *)
Definition masked_prefix (a : addr) : string :=
  match a with
  | A4 a b c _ => (addr_string (A4 a b c 0) ++ "/24")%string
  | A6 ws _ => (addr_string (A6 (take 3 ws ++ replicate 5 0) "") ++ "/48")%string
  end.

Example parse_print_ex :
  addr_string <$> parse_addr "2001:DB8:0:0:1::1" = Some "2001:db8::1:0:0:1"%string
  /\ addr_string <$> parse_addr "::ffff:10.0.0.1" = Some "::ffff:10.0.0.1"%string
  /\ (addr_string ∘ unmap) <$> parse_addr "::ffff:10.0.0.1" = Some "10.0.0.1"%string
  /\ parse_addr "10.0.0.01" = None /\ parse_addr "1.2.3" = None
  /\ masked_prefix <$> parse_addr "2001:db8:1:2::3" = Some "2001:db8:1::/48"%string.
Proof. vm_compute. repeat split. Qed.

(** ** The text of an IPv4 address parses back to it *)

Lemma bytes_string_bytes l :
  Forall (fun b => 0 <= b < 256) l -> bytes_of_string (string_of_bytes l) = l.
Proof.
  unfold bytes_of_string, string_of_bytes. rewrite list_ascii_of_string_of_list_ascii.
  induction 1 as [|b l Hb Hl IH]; [done|]. simpl. f_equal; [|done].
  unfold byte_of. rewrite N_ascii_embedding by lia. lia.
Qed.

Lemma dec_octet_digits n : 0 <= n < 256 -> Forall (fun b => 48 <= b <= 57) (dec_octet n).
Proof.
  intros Hn. unfold dec_octet.
  repeat case_if; bool_to_prop; repeat constructor; try lia;
    Z.to_euclidean_division_equations; lia.
Qed.

Lemma is_digit_true b : 48 <= b <= 57 -> is_digit b = true.
Proof. unfold is_digit. intros ?. apply andb_true_iff. split; lia. Qed.

Lemma parse4_octet n s first dot acc :
  0 <= n < 256 ->
  parse4_fields (dec_octet n ++ s) first dot 0 0 acc
  = parse4_fields s false false n (Z.of_nat (length (dec_octet n))) acc.
Proof.
  intros Hn. unfold dec_octet.
  destruct (n <? 10) eqn:H10; [|destruct (n <? 100) eqn:H100]; bool_to_prop; cbn [app].
  - cbn [parse4_fields]. rewrite is_digit_true by lia.
    replace ((0 =? 1) && (0 =? 0)) with false by reflexivity.
    replace (255 <? 0 * 10 + (48 + n - 48)) with false by lia.
    replace (0 * 10 + (48 + n - 48)) with n by lia. reflexivity.
  - assert (0 < n / 10 < 10) by (Z.to_euclidean_division_equations; lia).
    pose proof (Z.mod_pos_bound n 10). pose proof (Z.div_mod n 10).
    cbn [parse4_fields]. rewrite !is_digit_true by lia.
    replace ((0 =? 1) && (0 =? 0)) with false by reflexivity.
    replace (255 <? 0 * 10 + (48 + n / 10 - 48)) with false by lia.
    replace ((0 + 1 =? 1) && (0 * 10 + (48 + n / 10 - 48) =? 0)) with false by lia.
    replace (255 <? (0 * 10 + (48 + n / 10 - 48)) * 10 + (48 + n mod 10 - 48))
      with false by lia.
    replace ((0 * 10 + (48 + n / 10 - 48)) * 10 + (48 + n mod 10 - 48)) with n by lia.
    reflexivity.
  - assert (0 < n / 100 < 3) by (Z.to_euclidean_division_equations; lia).
    assert (0 <= n / 10 mod 10 < 10) by (apply Z.mod_pos_bound; lia).
    assert (0 <= n mod 10 < 10) by (apply Z.mod_pos_bound; lia).
    assert (n = n / 100 * 100 + n / 10 mod 10 * 10 + n mod 10)
      by (Z.to_euclidean_division_equations; lia).
    cbn [parse4_fields]. rewrite !is_digit_true by lia.
    replace ((0 =? 1) && (0 =? 0)) with false by reflexivity.
    replace (0 * 10 + (48 + n / 100 - 48)) with (n / 100) by lia.
    replace (255 <? n / 100) with false by lia.
    replace ((0 + 1 =? 1) && (n / 100 =? 0)) with false by lia.
    replace (n / 100 * 10 + (48 + n / 10 mod 10 - 48))
      with (n / 100 * 10 + n / 10 mod 10) by lia.
    replace (255 <? n / 100 * 10 + n / 10 mod 10) with false by lia.
    replace (0 + 1 + 1 =? 1) with false by lia. cbn [andb].
    replace ((n / 100 * 10 + n / 10 mod 10) * 10 + (48 + n mod 10 - 48)) with n by lia.
    replace (255 <? n) with false by lia. reflexivity.
Qed.

Lemma parse4_dot n dig s acc :
  s <> [] -> (length acc < 3)%nat ->
  parse4_fields (46 :: s) false false n dig acc = parse4_fields s false true 0 0 (n :: acc).
Proof.
  intros Hs Hacc. cbn [parse4_fields].
  replace (is_digit 46) with false by reflexivity.
  replace (46 =? 46) with true by reflexivity.
  destruct s as [|x s]; [done|]. cbn [orb].
  replace (length acc =? 3)%nat with false; [done|].
  symmetry. apply Nat.eqb_neq. lia.
Qed.

Lemma dec_octet_nonempty n s : dec_octet n ++ s <> [].
Proof. unfold dec_octet. repeat case_if; done. Qed.

Lemma parse4_print4 a b c d :
  addr_ok (A4 a b c d) -> parse4 (print4 a b c d) = Some (a, b, c, d).
Proof.
  intros (Ha & Hb & Hc & Hd). unfold parse4, print4.
  rewrite <- (app_nil_r (dec_octet d)).
  do 3 (rewrite parse4_octet by done;
        rewrite parse4_dot by (auto using dec_octet_nonempty; simpl; lia)).
  rewrite parse4_octet by done. reflexivity.
Qed.

Lemma parse_kind_digits l s :
  Forall (fun b => 48 <= b <= 57) l -> parse_kind (l ++ s) = parse_kind s.
Proof.
  induction 1 as [|b l Hb Hl IH]; [done|]. simpl.
  replace (b =? 46) with false by lia. replace (b =? 58) with false by lia.
  by replace (b =? 37) with false by lia.
Qed.

Lemma print4_bytes a b c d :
  addr_ok (A4 a b c d) -> Forall (fun x => 0 <= x < 256) (print4 a b c d).
Proof.
  intros (Ha & Hb & Hc & Hd). unfold print4.
  assert (forall n, 0 <= n < 256 -> Forall (fun x => 0 <= x < 256) (dec_octet n)) as Hd'.
  { intros n Hn. eapply Forall_impl; [by apply dec_octet_digits|simpl; lia]. }
  repeat first [apply Forall_app; split | apply Forall_cons; split | by apply Hd' | lia].
Qed.

Lemma parse_addr_string4 a b c d :
  addr_ok (A4 a b c d) -> parse_addr (addr_string (A4 a b c d)) = Some (A4 a b c d).
Proof.
  intros Hok. unfold parse_addr, addr_string, print_addr.
  rewrite bytes_string_bytes by (by apply print4_bytes).
  unfold parse_bytes.
  replace (parse_kind (print4 a b c d)) with (Some 46).
  - by rewrite parse4_print4.
  - unfold print4. by rewrite parse_kind_digits by (by apply dec_octet_digits, Hok).
Qed.

(** ** The text of an IPv6 address parses back to it *)

Definition word_ok (w : Z) : Prop := 0 <= w < 65536.
Definition hex_byte (b : Z) : Prop := 48 <= b <= 57 \/ 97 <= b <= 102.

Lemma hex_value_digit n : 0 <= n < 16 -> hex_value (hex_digit n) = Some n.
Proof.
  intros Hn. unfold hex_value, hex_digit, is_digit. case_if; bool_to_prop.
  - replace ((48 <=? 48 + n) && (48 + n <=? 57)) with true by lia. f_equal. lia.
  - replace ((48 <=? 87 + n) && (87 + n <=? 57)) with false by lia.
    replace ((97 <=? 87 + n) && (87 + n <=? 102)) with true by lia. f_equal. lia.
Qed.

Lemma hex_word_bytes w : word_ok w -> Forall hex_byte (hex_word w) /\ hex_word w <> []
  /\ (length (hex_word w) <= 4)%nat.
Proof.
  intros Hw. unfold word_ok in Hw.
  assert (Hd : forall n, 0 <= n < 16 -> hex_byte (hex_digit n)).
  { intros n Hn. unfold hex_byte, hex_digit. case_if; bool_to_prop; lia. }
  pose proof (Z.mod_pos_bound w 16). pose proof (Z.mod_pos_bound (w / 16) 16).
  pose proof (Z.mod_pos_bound (w / 256) 16).
  unfold hex_word. repeat case_if; bool_to_prop; simpl; split_and!; try lia; try done;
    repeat match goal with
    | |- Forall _ [] => constructor
    | |- Forall _ (_ :: _) => constructor
    | |- hex_byte _ => apply Hd
    end; Z.to_euclidean_division_equations; lia.
Qed.

(** The next byte of the text does not continue a group. *)
Definition stops (rest : list Z) : Prop :=
  match rest with [] => True | b :: _ => hex_value b = None end.

Lemma parse_group_step n s off acc :
  0 <= n < 16 -> off <= 3 ->
  parse_group (hex_digit n :: s) off acc = parse_group s (off + 1) (acc * 16 + n).
Proof.
  intros Hn Ho. cbn [parse_group]. rewrite hex_value_digit by done.
  by replace (3 <? off) with false by lia.
Qed.

Lemma parse_group_stop rest off acc :
  stops rest -> parse_group rest off acc = Some (acc, off, rest).
Proof. destruct rest; [done|]. simpl. by intros ->. Qed.

Lemma parse_group_word w rest :
  word_ok w -> stops rest ->
  exists off, off <> 0 /\ parse_group (hex_word w ++ rest) 0 0 = Some (w, off, rest).
Proof.
  intros Hw Hs. unfold word_ok in Hw.
  pose proof (Z.mod_pos_bound w 16). pose proof (Z.mod_pos_bound (w / 16) 16).
  pose proof (Z.mod_pos_bound (w / 256) 16).
  unfold hex_word. repeat case_if; bool_to_prop; cbn [app];
    repeat rewrite parse_group_step by (lia || (Z.to_euclidean_division_equations; lia));
    rewrite parse_group_stop by done; eexists; (split; [|do 3 f_equal]); try lia;
    Z.to_euclidean_division_equations; lia.
Qed.

Lemma parse6_word fuel w rest ws ell :
  word_ok w -> stops rest ->
  parse6_loop (S fuel) (hex_word w ++ rest) ws ell
  = match rest with
    | [] => Some (w :: ws, ell, [])
    | 58 :: [] => None
    | 58 :: 58 :: rest =>
        match ell with
        | Some _ => None
        | None =>
            match rest with
            | [] => Some (w :: ws, Some (S (length ws)), [])
            | _ => parse6_loop fuel rest (w :: ws) (Some (S (length ws)))
            end
        end
    | 58 :: rest => parse6_loop fuel rest (w :: ws) ell
    | 46 :: _ => parse6_loop (S fuel) (hex_word w ++ rest) ws ell
    | _ => None
    end.
Proof.
  intros Hw Hs. destruct (parse_group_word w rest Hw Hs) as (off & Ho & Hp).
  destruct rest as [|b rest]; [|destruct (decide (b = 46)) as [->|Hb]; [done|]];
    cbn [parse6_loop]; rewrite Hp; apply Z.eqb_neq in Ho; rewrite Ho.
  - done.
  - destruct (decide (b = 58)) as [->|Hb']; [done|].
    destruct b as [|p|p]; try done.
    do 6 (try destruct p as [p|p|]; try done).
Qed.

(** Reading a group of words written with colons. *)
Lemma parse6_join ws : forall fuel acc ell tail,
  ws <> [] -> Forall word_ok ws -> (length ws <= fuel)%nat ->
  tail = [] \/ (exists t, tail = 58 :: 58 :: t) ->
  parse6_loop fuel (join_words ws ++ tail) acc ell
  = match tail with
    | 58 :: 58 :: t =>
        match ell, t with
        | Some _, _ => None
        | None, [] => Some (rev ws ++ acc, Some (length ws + length acc)%nat, [])
        | None, _ => parse6_loop (fuel - length ws) t (rev ws ++ acc)
                       (Some (length ws + length acc)%nat)
        end
    | _ => Some (rev ws ++ acc, ell, [])
    end.
Proof.
  induction ws as [|w ws IH]; intros fuel acc ell tail Hne Hws Hf Ht; [done|].
  apply Forall_cons in Hws as [Hw Hws]. destruct fuel as [|fuel]; [simpl in Hf; lia|].
  destruct ws as [|w2 ws].
  - cbn [join_words]. rewrite parse6_word; [|done|by destruct Ht as [->|[t ->]]].
    destruct Ht as [->|[t ->]]; [done|]. simpl. rewrite Nat.sub_0_r. done.
  - assert (Hj : join_words (w :: w2 :: ws) ++ tail
      = hex_word w ++ 58 :: (join_words (w2 :: ws) ++ tail))
      by (cbn [join_words]; by rewrite <- !app_assoc).
    rewrite Hj, parse6_word by done.
    assert (Hnc : exists h t, join_words (w2 :: ws) ++ tail = h :: t /\ h <> 58).
    { apply Forall_cons in Hws as [Hw2 _].
      destruct (hex_word_bytes w2 Hw2) as (Hb & Hn & _).
      destruct (hex_word w2) as [|h t] eqn:Eh; [done|].
      apply Forall_cons in Hb as [Hb _]. exists h.
      destruct ws; cbn [join_words]; rewrite Eh; simpl; eexists; (split; [done|]);
        unfold hex_byte in Hb; lia. }
    destruct Hnc as (h & t & Hht & Hh).
    specialize (IH fuel (w :: acc) ell tail ltac:(done) Hws ltac:(simpl in *; lia) Ht).
    rewrite Hht in IH |- *.
    replace (match h :: t with [] => None | 58 :: rest =>
        match ell with Some _ => None | None => match rest with
          | [] => Some (w :: acc, Some (S (length acc)), [])
          | _ => parse6_loop fuel rest (w :: acc) (Some (S (length acc))) end end
        | _ => parse6_loop fuel (h :: t) (w :: acc) ell end)
      with (parse6_loop fuel (h :: t) (w :: acc) ell)
      by (destruct h as [|p|p]; try done; do 6 (try destruct p as [p|p|]; try done)).
    rewrite IH.
    replace (rev (w :: w2 :: ws) ++ acc) with (rev (w2 :: ws) ++ w :: acc)
      by (simpl; rewrite <- !app_assoc; done).
    replace (length (w :: w2 :: ws) + length acc)%nat
      with (length (w2 :: ws) + length (w :: acc))%nat by (simpl; lia).
    done.
Qed.

Lemma parse6_join_end ws fuel acc ell :
  ws <> [] -> Forall word_ok ws -> (length ws <= fuel)%nat ->
  parse6_loop fuel (join_words ws) acc ell = Some (rev ws ++ acc, ell, []).
Proof.
  intros. rewrite <- (app_nil_r (join_words ws)).
  by rewrite parse6_join by first [done|by left].
Qed.

Lemma parse6_join_ellipsis ws fuel acc t :
  ws <> [] -> Forall word_ok ws -> (length ws <= fuel)%nat ->
  parse6_loop fuel (join_words ws ++ 58 :: 58 :: t) acc None
  = if decide (t = []) then Some (rev ws ++ acc, Some (length ws + length acc)%nat, [])
    else parse6_loop (fuel - length ws) t (rev ws ++ acc)
           (Some (length ws + length acc)%nat).
Proof.
  intros. rewrite parse6_join by first [done|right; by eexists].
  cbv iota. by destruct t.
Qed.

(** The run that [print6] compresses is a run of zeros. *)
Lemma zero_run_spec ws : take (zero_run ws) ws = replicate (zero_run ws) 0
  /\ (zero_run ws <= length ws)%nat.
Proof.
  induction ws as [|w ws [IH1 IH2]]; [done|]. destruct w; simpl; [|split; [done|lia]..].
  split; [by rewrite IH1|lia].
Qed.

Definition run_ok (ws : list Z) (r : nat * nat) : Prop :=
  r.2 = 0%nat \/ (2 <= r.2)%nat /\ (r.1 + r.2 <= length ws)%nat
                 /\ take r.2 (drop r.1 ws) = replicate r.2 0.

Lemma longest_run_ok ws0 : forall ws i best,
  drop i ws0 = ws -> run_ok ws0 best -> run_ok ws0 (longest_run ws i best).
Proof.
  induction ws as [|w ws IH]; intros i best Hd Hb; [done|].
  cbn [longest_run]. apply IH.
  - rewrite <- Nat.add_1_r, <- drop_drop, Hd. done.
  - destruct (_ && _) eqn:E; [|done]. apply andb_true_iff in E as [E1 _].
    apply Nat.leb_le in E1. right. cbn [fst snd].
    destruct (zero_run_spec (w :: ws)) as [Hz Hl].
    assert (Hlen : length (drop i ws0) = length (w :: ws)) by (by rewrite Hd).
    rewrite length_drop in Hlen. split_and!; [done|lia|]. by rewrite Hd.
Qed.

Definition plain (b : Z) : Prop := hex_byte b \/ b = 46 \/ b = 58.

Lemma plain_bytes l : Forall plain l ->
  Forall (fun b => 0 <= b < 256) l /\ Forall (fun b => b <> 37) l.
Proof.
  unfold plain, hex_byte. intros H. split; eapply Forall_impl; try exact H; simpl; lia.
Qed.

Lemma split_zone_none l : Forall (fun b => b <> 37) l -> split_zone l = (l, None).
Proof.
  induction 1 as [|b l Hb Hl IH]; [done|]. simpl. apply Z.eqb_neq in Hb. by rewrite Hb, IH.
Qed.

Lemma join_words_plain ws : Forall word_ok ws -> Forall plain (join_words ws)
  /\ (length (join_words ws) <= 5 * length ws - 1)%nat.
Proof.
  assert (Hh : forall l, Forall hex_byte l -> Forall plain l)
    by (intros l Hl; eapply Forall_impl; [exact Hl|]; intros; by left).
  induction 1 as [|w ws Hw Hws [IH1 IH2]]; [simpl; split; [constructor|lia]|].
  destruct (hex_word_bytes w Hw) as (Hb & _ & Hl).
  destruct ws as [|w2 ws]; [split; [by apply Hh|simpl; lia]|].
  change (join_words (w :: w2 :: ws)) with (hex_word w ++ 58 :: join_words (w2 :: ws)). split.
  - apply Forall_app. split; [by apply Hh|]. constructor; [by right; right|]. done.
  - rewrite length_app. remember (join_words (w2 :: ws)) as j. simpl in *. lia.
Qed.

Lemma join_words_head ws : ws <> [] -> Forall word_ok ws ->
  exists h t, join_words ws = h :: t /\ h <> 58.
Proof.
  intros Hne Hws. destruct ws as [|w ws]; [done|]. apply Forall_cons in Hws as [Hw _].
  destruct (hex_word_bytes w Hw) as (Hb & Hn & _).
  destruct (hex_word w) as [|h t] eqn:Eh; [done|].
  apply Forall_cons in Hb as [Hb _]. exists h.
  destruct ws; cbn [join_words]; rewrite Eh; simpl; eexists; (split; [done|]);
    unfold hex_byte in Hb; lia.
Qed.

(** The dispatch of [parseIPv6] on the leading ellipsis. *)
Definition parse6_text (s : list Z) : option (list Z) :=
  match s with
  | [58; 58] => Some (replicate 8 0)
  | 58 :: 58 :: rest => parse6_body rest (Some 0%nat)
  | _ => parse6_body s None
  end.

Lemma parse6_plain s : Forall plain s -> parse6 s = (fun ws => A6 ws "") <$> parse6_text s.
Proof.
  intros Hs. unfold parse6. rewrite split_zone_none by (by apply plain_bytes).
  unfold parse6_text. destruct s as [|x [|y [|z s]]]; try done;
    repeat (match goal with
    | |- context [match ?x with Z0 => _ | _ => _ end] => destruct x
    | |- context [match ?x with xI _ => _ | _ => _ end] => destruct x
    end; try done).
Qed.

Lemma parse6_text_head s h t : s = h :: t -> h <> 58 -> parse6_text s = parse6_body s None.
Proof.
  intros -> Hh. unfold parse6_text. destruct h as [|p|p]; try done.
  do 6 (try destruct p as [p|p|]; try done).
Qed.

Lemma parse6_text_ellipsis s :
  s <> [] -> parse6_text (58 :: 58 :: s) = parse6_body s (Some 0%nat).
Proof. by destruct s. Qed.

Lemma replicate_run (ws : list Z) i l :
  (i + l <= length ws)%nat -> take l (drop i ws) = replicate l 0 ->
  ws = take i ws ++ replicate l 0 ++ drop (i + l) ws.
Proof.
  intros Hl Hr. rewrite <- Hr. rewrite <- drop_drop, !take_drop. done.
Qed.

Lemma parse6_print6 ws :
  length ws = 8%nat -> Forall word_ok ws -> parse6_text (print6 ws) = Some ws.
Proof.
  intros Hl Hws. unfold print6.
  pose proof (longest_run_ok ws ws 0 (0%nat, 0%nat) eq_refl ltac:(by left)) as Hr.
  destruct (longest_run ws 0 _) as [i [|l']].
  { destruct (join_words_head ws) as (h & t & Hj & Hh); [by destruct ws|done|].
    rewrite (parse6_text_head _ _ _ Hj Hh). unfold parse6_body.
    rewrite parse6_join_end by (first [done|lia|by destruct ws]).
    rewrite app_nil_r, rev_involutive, Hl. done. }
  destruct Hr as [Hr|(Hr2 & Hle & Htake)]; [discriminate|]. cbn [fst snd] in *.
  set (l := S l') in *. set (w1 := take i ws). set (w2 := drop (i + l) ws).
  assert (Hw1 : Forall word_ok w1) by (by apply Forall_take).
  assert (Hw2 : Forall word_ok w2) by (by apply Forall_drop).
  assert (H1 : length w1 = i) by (unfold w1; rewrite length_take; lia).
  assert (H2 : length w2 = (8 - (i + l))%nat) by (unfold w2; rewrite length_drop; lia).
  assert (Hexp : ws = w1 ++ replicate (8 - length (w1 ++ w2)) 0 ++ w2).
  { rewrite length_app, H1, H2. replace (8 - (i + (8 - (i + l))))%nat with l by lia.
    by apply replicate_run. }
  assert (Hfin : (if (length (w1 ++ w2) <? 8)%nat
                  then Some (expand_ellipsis (w1 ++ w2) (length w1)) else None) = Some ws).
  { case_if; [|apply Nat.ltb_ge in E; rewrite length_app in E; lia].
    unfold expand_ellipsis. rewrite take_app_length, drop_app_length. by rewrite <- Hexp. }
  assert (Hloop2 : forall fuel acc e, (length w2 <= fuel)%nat -> w2 <> [] ->
    parse6_loop fuel (join_words w2) acc (Some e) = Some (rev w2 ++ acc, Some e, [])).
  { intros fuel acc e Hf Hne. by apply parse6_join_end. }
  destruct (decide (w1 = [])) as [E1|E1].
  - rewrite E1 in *. cbn [join_words app length] in *. destruct (decide (w2 = [])) as [E2|E2].
    + rewrite E2. cbn. rewrite E2 in Hexp. cbn in Hexp. by rewrite Hexp.
    + destruct (join_words_head w2 E2 Hw2) as (h & t & Hj & Hh).
      rewrite parse6_text_ellipsis by (by rewrite Hj).
      unfold parse6_body. rewrite Hloop2 by (done || lia).
      rewrite app_nil_r, rev_involutive. case_if; [|discriminate]. exact Hfin.
  - destruct (join_words_head w1 E1 Hw1) as (h & t & Hj & Hh).
    assert (Hj' : join_words w1 ++ [58; 58] ++ join_words w2
      = h :: (t ++ [58; 58] ++ join_words w2)) by (by rewrite Hj).
    rewrite (parse6_text_head _ _ _ Hj' Hh). unfold parse6_body.
    change ([58; 58] ++ join_words w2) with (58 :: 58 :: join_words w2).
    rewrite parse6_join_ellipsis by (first [done|lia]).
    rewrite app_nil_r, Nat.add_0_r. destruct (decide (w2 = [])) as [E2|E2].
    + rewrite E2. cbn [join_words]. rewrite decide_True, rev_involutive by done.
      rewrite E2, app_nil_r in Hfin. case_if; [|discriminate]. exact Hfin.
    + destruct (join_words_head w2 E2 Hw2) as (h2 & t2 & Hj2 & _).
      rewrite decide_False by (by rewrite Hj2).
      rewrite Hloop2 by (done || lia).
      rewrite rev_app_distr, !rev_involutive. case_if; [|discriminate]. exact Hfin.
Qed.

Lemma print6_plain ws : length ws = 8%nat -> Forall word_ok ws ->
  Forall plain (print6 ws) /\ (length (print6 ws) <= 39)%nat /\
  parse_kind (print6 ws) = Some 58.
Proof.
  intros Hl Hws. unfold print6.
  pose proof (longest_run_ok ws ws 0 (0%nat, 0%nat) eq_refl ltac:(by left)) as Hr.
  assert (Hk : forall us tail, us <> [] -> Forall word_ok us ->
    (1 < length us)%nat \/ (exists t, tail = 58 :: t) ->
    parse_kind (join_words us ++ tail) = Some 58).
  { intros us tail Hne Hus Hor. destruct us as [|u us]; [done|].
    apply Forall_cons in Hus as [Hu _]. destruct (hex_word_bytes u Hu) as (Hb & _ & _).
    assert (Hskip : forall s, parse_kind (hex_word u ++ s) = parse_kind s).
    { clear -Hb. induction Hb as [|b l Hb Hl IH]; [done|]. intros s. simpl. rewrite IH.
      unfold hex_byte in Hb. replace (b =? 46) with false by lia.
      replace (b =? 58) with false by lia. by replace (b =? 37) with false by lia. }
    destruct us as [|u2 us]; cbn [join_words].
    - rewrite Hskip. destruct Hor as [Hor|[t ->]]; [simpl in Hor; lia|done].
    - rewrite <- app_assoc, Hskip. done. }
  destruct (longest_run ws 0 _) as [i [|l']].
  { destruct (join_words_plain ws Hws) as [Hp Hlen]. split_and!; [done|lia|].
    rewrite <- (app_nil_r (join_words ws)). apply Hk; [by destruct ws|done|left; lia]. }
  destruct Hr as [Hr|(Hr2 & Hle & _)]; [discriminate|]. cbn [fst snd] in *.
  set (l := S l') in *.
  destruct (join_words_plain (take i ws)) as [P1 L1]; [by apply Forall_take|].
  destruct (join_words_plain (drop (i + l) ws)) as [P2 L2]; [by apply Forall_drop|].
  rewrite length_take in L1. rewrite length_drop in L2. split_and!.
  - apply Forall_app; split; [done|]. repeat (constructor; [by right; right|]). done.
  - rewrite !length_app. cbn [length]. lia.
  - destruct (decide (take i ws = [])) as [E|E]; [rewrite E; done|].
    apply Hk; [done|by apply Forall_take|]. right. by eexists.
Qed.

(** Decimal digits are hexadecimal digits, so a dotted quad starts a group. *)
Lemma parse_group_dec n rest :
  0 <= n < 256 -> stops rest ->
  exists acc off, off <> 0 /\ parse_group (dec_octet n ++ rest) 0 0 = Some (acc, off, rest).
Proof.
  intros Hn Hs.
  assert (Hstep : forall b s off acc, 48 <= b <= 57 -> off <= 3 ->
    parse_group (b :: s) off acc = parse_group s (off + 1) (acc * 16 + (b - 48))).
  { intros b s off acc Hb Ho. cbn [parse_group]. unfold hex_value.
    rewrite is_digit_true by done. by replace (3 <? off) with false by lia. }
  pose proof (dec_octet_digits n Hn) as Hd. revert Hd.
  unfold dec_octet. repeat case_if; rewrite ?Forall_cons; intros Hd; cbn [app];
    repeat rewrite Hstep by lia; rewrite parse_group_stop by done;
    do 2 eexists; (split; [|reflexivity]); lia.
Qed.

Lemma parse6_quad fuel s acc off tail e a b c d :
  parse_group s 0 0 = Some (acc, off, 46 :: tail) -> off <> 0 ->
  parse4 s = Some (a, b, c, d) ->
  parse6_loop (S fuel) s [65535] (Some e)
  = Some ([c * 256 + d; a * 256 + b; 65535], Some e, []).
Proof.
  intros Hg Ho H4. cbn [parse6_loop]. rewrite Hg. apply Z.eqb_neq in Ho. rewrite Ho.
  cbn [length Nat.add Nat.ltb Nat.leb]. by rewrite H4.
Qed.

Lemma parse6_text_mapped a b c d :
  addr_ok (A4 a b c d) ->
  parse6_text ([58; 58; 102; 102; 102; 102; 58] ++ print4 a b c d)
  = Some [0; 0; 0; 0; 0; 65535; a * 256 + b; c * 256 + d].
Proof.
  intros Hok. pose proof (parse4_print4 a b c d Hok) as H4.
  destruct Hok as (Ha & Hb & Hc & Hd).
  pose proof (dec_octet_digits a Ha) as Hdig.
  set (tail := dec_octet b ++ 46 :: dec_octet c ++ 46 :: dec_octet d).
  assert (Hp4 : print4 a b c d = dec_octet a ++ 46 :: tail) by done.
  destruct (parse_group_dec a (46 :: tail) Ha ltac:(done)) as (acc & off & Ho & Hg).
  rewrite <- Hp4 in Hg.
  assert (Hh : exists h t, print4 a b c d = h :: t /\ h <> 58).
  { rewrite Hp4. destruct (dec_octet a) as [|h t] eqn:E;
      [exfalso; apply (dec_octet_nonempty a []); by rewrite E|].
    apply Forall_cons in Hdig as [Hdig _]. exists h. eexists. split; [done|lia]. }
  destruct Hh as (h & t & Hht & Hh).
  change (parse6_text (58 :: 58 :: (hex_word 65535 ++ 58 :: print4 a b c d))
          = Some [0; 0; 0; 0; 0; 65535; a * 256 + b; c * 256 + d]).
  rewrite parse6_text_ellipsis by done. unfold parse6_body.
  rewrite parse6_word by (done || (unfold word_ok; lia)).
  replace (match 58 :: print4 a b c d with _ => _ end)
    with (parse6_loop 7 (print4 a b c d) [65535] (Some 0%nat)).
  2:{ rewrite Hht. destruct h as [|p|p]; try done. do 6 (try destruct p as [p|p|]; try done). }
  rewrite (parse6_quad 6 _ _ _ _ _ _ _ _ _ Hg Ho H4). reflexivity.
Qed.

Definition unzoned (a : addr) : Prop :=
  addr_ok a /\ match a with A6 _ zone => zone = EmptyString | _ => True end.

Lemma print4_plain a b c d : addr_ok (A4 a b c d) ->
  Forall plain (print4 a b c d) /\ (length (print4 a b c d) <= 15)%nat.
Proof.
  intros (Ha & Hb & Hc & Hd).
  assert (Ho : forall n, 0 <= n < 256 -> Forall plain (dec_octet n) /\ (length (dec_octet n) <= 3)%nat).
  { intros n Hn. split.
    - eapply Forall_impl; [by apply dec_octet_digits|]. intros x Hx. left. by left.
    - unfold dec_octet. repeat case_if; simpl; lia. }
  unfold print4. repeat rewrite length_app || cbn [length].
  split; [|pose proof (proj2 (Ho a Ha)); pose proof (proj2 (Ho b Hb));
           pose proof (proj2 (Ho c Hc)); pose proof (proj2 (Ho d Hd)); lia].
  repeat first [apply Forall_app; split | apply Forall_cons; split
               | by apply Ho | by right; left].
Qed.

Lemma unmap_inv ws zone a b c d : length ws = 8%nat -> Forall word_ok ws ->
  unmap (A6 ws zone) = A4 a b c d ->
  addr_ok (A4 a b c d) /\ ws = [0; 0; 0; 0; 0; 65535; a * 256 + b; c * 256 + d].
Proof.
  intros Hl Hws E. do 9 (destruct ws as [|? ws]; try (simpl in Hl; lia)).
  rewrite !Forall_cons in Hws. unfold unmap, word_ok in *. case_if_in E; [|discriminate].
  injection E as <- <- <- <-. bool_to_prop. subst. destruct_and!. split.
  - simpl; Z.to_euclidean_division_equations; lia.
  - repeat f_equal; rewrite Z.mul_comm; apply Z.div_mod; lia.
Qed.

Lemma unmap_cases ws zone : (exists a b c d, unmap (A6 ws zone) = A4 a b c d)
  \/ unmap (A6 ws zone) = A6 ws zone.
Proof.
  destruct ws as [|? [|? [|? [|? [|? [|? [|? [|? [|? ?]]]]]]]]]; simpl; auto.
  case_if; [left|right]; eauto.
Qed.

(** The two shapes of a printed IPv6 address. *)
Lemma print_addr6 ws : addr_ok (A6 ws "") ->
  (exists a b c d, addr_ok (A4 a b c d) /\
     ws = [0; 0; 0; 0; 0; 65535; a * 256 + b; c * 256 + d] /\
     print_addr (A6 ws "") = [58; 58; 102; 102; 102; 102; 58] ++ print4 a b c d) \/
  print_addr (A6 ws "") = print6 ws.
Proof.
  intros [Hl Hws]. cbn [print_addr zone_suffix].
  destruct (unmap (A6 ws "")) as [a b c d|ws' z] eqn:E; rewrite !app_nil_r; [left|by right].
  destruct (unmap_inv _ _ _ _ _ _ Hl Hws E). by exists a, b, c, d.
Qed.

Lemma print_addr_plain a : unzoned a ->
  Forall plain (print_addr a) /\ (length (print_addr a) <= 45)%nat.
Proof.
  intros [Hok Hz]. destruct a as [a b c d|ws zone].
  - destruct (print4_plain a b c d Hok). split; [done|simpl; lia].
  - subst zone. destruct (print_addr6 ws Hok) as [(a & b & c & d & H4 & _ & ->)| ->].
    + destruct (print4_plain a b c d H4) as [Hp Hl]. split.
      * apply Forall_app; split; [|done].
        rewrite !Forall_cons, Forall_nil. unfold plain, hex_byte. lia.
      * rewrite length_app. simpl length at 1. lia.
    + destruct Hok as [Hl Hws]. destruct (print6_plain ws Hl Hws) as (? & ? & _).
      split; [done|lia].
Qed.

Lemma parse_addr_string a : unzoned a -> parse_addr (addr_string a) = Some a.
Proof.
  intros Ha. destruct (print_addr_plain a Ha) as [Hp _]. destruct Ha as [Hok Hz].
  destruct a as [a b c d|ws zone]; [by apply parse_addr_string4|]. subst zone.
  unfold parse_addr, addr_string. rewrite bytes_string_bytes by (by apply plain_bytes).
  unfold parse_bytes.
  destruct (print_addr6 ws Hok) as [(a & b & c & d & H4 & -> & E)|E]; rewrite E in *.
  - simpl parse_kind. cbv iota. rewrite parse6_plain, parse6_text_mapped by done. done.
  - destruct Hok as [Hl Hws]. destruct (print6_plain ws Hl Hws) as (_ & _ & ->).
    rewrite parse6_plain, parse6_print6 by done. done.
Qed.

Lemma addr_string_text a : unzoned a ->
  string_len (addr_string a) <= 45 /\ string_exists (fun b => b =? 37) (addr_string a) = false.
Proof.
  intros Ha. destruct (print_addr_plain a Ha) as [Hp Hl].
  assert (Hb := plain_bytes _ Hp). destruct Hb as [Hb H37]. unfold string_len, addr_string.
  split.
  - assert (length (bytes_of_string (string_of_bytes (print_addr a))) = length (print_addr a))
      as Hlen by (by rewrite bytes_string_bytes).
    unfold bytes_of_string in Hlen. rewrite length_fmap in Hlen.
    assert (forall s, String.length s = length (list_ascii_of_string s)) as ->
      by (induction s; simpl; congruence). lia.
  - assert (Hex : forall p s, string_exists p s = existsb p (bytes_of_string s)).
    { intros p s. unfold bytes_of_string. induction s; simpl; [done|]. by f_equal. }
    rewrite Hex, bytes_string_bytes by done. clear -H37.
    induction H37 as [|b l H ? IH]; [done|]. simpl. apply Z.eqb_neq in H. by rewrite H.
Qed.

Lemma unmap_unzoned a : unzoned a -> unzoned (unmap a).
Proof.
  intros [Hok Hz]. destruct a as [|ws zone]; [done|]. subst. destruct Hok as [Hl Hws].
  destruct (unmap_cases ws "") as [(a & b & c & d & E)|E]; rewrite E; [|done].
  by destruct (unmap_inv _ _ _ _ _ _ Hl Hws E).
Qed.

Lemma unmap_unmap a : unmap (unmap a) = unmap a.
Proof.
  destruct a as [|ws zone]; [done|].
  by destruct (unmap_cases ws zone) as [(a & b & c & d & E)|E]; rewrite !E.
Qed.

(** ** What the parser accepts is a well-formed address *)

Definition octet_ok (n : Z) : Prop := 0 <= n < 256.

Lemma parse4_fields_ok s : forall first dot val dig acc l,
  parse4_fields s first dot val dig acc = Some l ->
  octet_ok val -> Forall octet_ok acc -> Forall octet_ok l.
Proof.
  unfold octet_ok. induction s as [|b s IH]; intros first dot val dig acc l H Hv Ha.
  - cbn [parse4_fields] in H. case_if_in H; [discriminate|]. injection H as <-.
    simpl. apply Forall_app. split; [by apply Forall_rev|by constructor].
  - cbn [parse4_fields] in H. case_if_in H.
    + case_if_in H; [discriminate|]. cbv zeta in H. case_if_in H; [discriminate|].
      unfold is_digit in E. bool_to_prop. eapply IH; [exact H|lia|done].
    + repeat (case_if_in H; try discriminate H). all: eapply IH; [exact H|lia|by constructor].
Qed.

Lemma parse4_ok s a b c d : parse4 s = Some (a, b, c, d) -> addr_ok (A4 a b c d).
Proof.
  unfold parse4. destruct (parse4_fields _ _ _ _ _ _) as [l|] eqn:E; [|discriminate].
  apply parse4_fields_ok in E; [|unfold octet_ok; lia|constructor].
  destruct l as [|? [|? [|? [|? [|? ?]]]]]; try discriminate. intros [= -> -> -> ->].
  rewrite !Forall_cons in E. unfold octet_ok in E. simpl. tauto.
Qed.

Lemma hex_value_range b v : hex_value b = Some v -> 0 <= v < 16.
Proof.
  unfold hex_value, is_digit. repeat case_if; intros [= <-]; bool_to_prop; lia.
Qed.

Lemma parse_group_range s : forall off acc acc' off' rest,
  parse_group s off acc = Some (acc', off', rest) ->
  0 <= off <= 4 -> 0 <= acc < 16 ^ off -> word_ok acc'.
Proof.
  induction s as [|b s IH]; intros off acc acc' off' rest H Ho Ha.
  - injection H as <- _ _. unfold word_ok. change 65536 with (16 ^ 4).
    pose proof (Z.pow_le_mono_r 16 off 4). lia.
  - cbn [parse_group] in H. destruct (hex_value b) as [v|] eqn:E.
    + case_if_in H; [discriminate|]. bool_to_prop. pose proof (hex_value_range _ _ E).
      eapply IH; [exact H|lia|]. rewrite Z.pow_add_r by lia. lia.
    + injection H as <- _ _. unfold word_ok. change 65536 with (16 ^ 4).
      pose proof (Z.pow_le_mono_r 16 off 4). lia.
Qed.

Definition ell_ok (ws : list Z) (ell : option nat) : Prop :=
  match ell with Some e => (e <= length ws)%nat | None => True end.

Lemma parse6_loop_ok fuel : forall s ws ell ws' ell' rest,
  parse6_loop fuel s ws ell = Some (ws', ell', rest) ->
  Forall word_ok ws -> (length ws + fuel <= 8)%nat -> ell_ok ws ell ->
  Forall word_ok ws' /\ (length ws' <= 8)%nat /\ ell_ok ws' ell'.
Proof.
  induction fuel as [|fuel IH]; intros s ws ell ws' ell' rest H Hw Hf He.
  { injection H as <- <- <-. repeat split; auto; lia. }
  cbn [parse6_loop] in H. destruct (parse_group s 0 0) as [[[acc off] rest0]|] eqn:Eg; [|discriminate].
  assert (Ha : word_ok acc) by (eapply parse_group_range; [exact Eg|lia|simpl; lia]).
  assert (Hsome : forall e, ell_ok ws e -> Forall word_ok (acc :: ws) /\
    (length (acc :: ws) <= 8)%nat /\ ell_ok (acc :: ws) e).
  { intros e Hle. split; [by constructor|]. simpl. split; [lia|]. destruct e; simpl in *; lia. }
  assert (Hrec : forall r e, ell_ok (acc :: ws) e -> parse6_loop fuel r (acc :: ws) e = Some (ws', ell', rest) ->
    Forall word_ok ws' /\ (length ws' <= 8)%nat /\ ell_ok ws' ell').
  { intros r e Hle Hr. eapply IH; [exact Hr|by constructor|simpl; lia|done]. }
  case_if_in H; [discriminate|].
  assert (Hq : forall (g : bool) r, (if g then None
     else if (8 <? length ws + 2)%nat then None
     else match parse4 s with Some (a, b, c, d) => Some ((c * 256 + d) :: (a * 256 + b) :: ws, ell, r)
          | None => None end) = Some (ws', ell', rest) ->
     Forall word_ok ws' /\ (length ws' <= 8)%nat /\ ell_ok ws' ell').
  { intros [] r Hr; [discriminate Hr|].
    destruct (8 <? length ws + 2)%nat eqn:E8; [discriminate Hr|]. apply Nat.ltb_ge in E8.
    destruct (parse4 s) as [[[[a b] c] d]|] eqn:E4; [|discriminate]. injection Hr as <- <- <-.
    apply parse4_ok in E4. simpl in E4. split.
    - constructor; [unfold word_ok; lia|]. constructor; [unfold word_ok; lia|done].
    - simpl. split; [lia|]. destruct ell; simpl in *; lia. }
  destruct rest0 as [|b rest0]; [injection H as <- <- <-; by apply Hsome|].
  destruct (decide (b = 46)) as [->|Hb]; [by apply (Hq _ [] H)|].
  destruct (decide (b = 58)) as [->|Hb'].
  - destruct rest0 as [|b2 r]; [discriminate|].
    destruct (decide (b2 = 58)) as [->|Hb2].
    + destruct ell; [discriminate|]. destruct r.
      * injection H as <- <- <-.
        destruct (Hsome None He) as (? & ? & _). split_and!; [done|done|simpl; lia].
      * apply (Hrec _ _) in H; [done|simpl; lia].
    + assert (H' : parse6_loop fuel (b2 :: r) (acc :: ws) ell = Some (ws', ell', rest)).
      { destruct b2 as [|p|p]; try exact H.
        do 6 (try destruct p as [p|p|]; try exact H). done. }
      apply (Hrec _ _) in H'; [done|]. destruct ell; simpl in *; lia.
  - destruct b as [|p|p]; try discriminate H.
    do 6 (try destruct p as [p|p|]; try discriminate H); done.
Qed.

Lemma parse6_body_ok s ell ws : (ell = None \/ ell = Some 0%nat) ->
  parse6_body s ell = Some ws -> length ws = 8%nat /\ Forall word_ok ws.
Proof.
  intros Hell. unfold parse6_body.
  destruct (parse6_loop 8 s [] ell) as [[[ws0 e] rest]|] eqn:E; [|discriminate].
  destruct rest; [|discriminate].
  destruct (parse6_loop_ok _ _ _ _ _ _ _ E) as (Hw & Hl & He);
    [by apply Forall_nil|simpl; lia|by destruct Hell as [-> | ->]; simpl|]. clear E.
  destruct (length (rev ws0) <? 8)%nat eqn:E.
  - destruct e as [e|]; [|discriminate]. intros [= <-]. unfold expand_ellipsis.
    apply Nat.ltb_lt in E. rewrite length_rev in E. simpl in He. split.
    + rewrite !length_app, length_take, length_drop, length_replicate, length_rev. lia.
    + repeat (apply Forall_app; split).
      * by apply Forall_take, Forall_rev.
      * apply Forall_replicate. unfold word_ok. lia.
      * by apply Forall_drop, Forall_rev.
  - destruct e; [discriminate|]. intros [= <-]. apply Nat.ltb_ge in E.
    rewrite length_rev in *. split; [lia|by apply Forall_rev].
Qed.

Lemma parse_addr_unzoned s a :
  string_exists (fun b => b =? 37) s = false -> parse_addr s = Some a -> unzoned a.
Proof.
  intros Hs. unfold parse_addr, parse_bytes.
  assert (Hex : Forall (fun b => b <> 37) (bytes_of_string s)).
  { unfold bytes_of_string. clear a. induction s as [|c s IH]; simpl in *; [constructor|].
    bool_to_prop. constructor; auto. }
  destruct (parse_kind _) as [k|]; [|discriminate].
  destruct (decide (k = 46)) as [->|].
  { destruct (parse4 _) as [[[[x y] z] w]|] eqn:E; [|discriminate]. intros [= <-].
    split; [by apply (parse4_ok _ _ _ _ _ E)|done]. }
  destruct (decide (k = 58)) as [->|].
  - unfold parse6. rewrite split_zone_none by done.
    set (b := bytes_of_string s). intros H.
    assert (Ht : exists ws, parse6_text b = Some ws /\ a = A6 ws "").
    { change (match b with
      | [58; 58] => Some (A6 (replicate 8 0) "")
      | 58 :: 58 :: rest => (fun ws => A6 ws "") <$> parse6_body rest (Some 0%nat)
      | _ => (fun ws => A6 ws "") <$> parse6_body b None end = Some a) in H.
      unfold parse6_text. destruct b as [|x [|y [|z l]]].
      all: repeat (match type of H with
        | context [match ?x with Z0 => _ | _ => _ end] => destruct x
        | context [match ?x with xI _ => _ | _ => _ end] => destruct x
        end).
      all: try (apply fmap_Some in H as (ws & Hb & ->); by exists ws).
      injection H as <-. by exists (replicate 8 0). }
    destruct Ht as (ws & Ht & ->). split; [|done]. simpl.
    unfold parse6_text in Ht. destruct b as [|x [|y [|z l]]].
    all: repeat (match type of Ht with
        | context [match ?x with Z0 => _ | _ => _ end] => destruct x
        | context [match ?x with xI _ => _ | _ => _ end] => destruct x
        end).
    all: try (apply parse6_body_ok in Ht; [done|auto]).
    injection Ht as <-. split; [done|]. repeat constructor; lia.
  - intros H. exfalso. destruct k as [|p|p]; try discriminate.
    do 6 (try destruct p as [p|p|]; try discriminate); done.
Qed.
