(* ===== verification/Model.v ===== *)
(** * Events and the values shared by the components

    [internal/model]: severities, directions, traffic rows and events, the
    identifiers that [NewID] draws, and the runtime services that only render
    text or supply entropy. *)

From S2P Require Export Float64 NetIP.
From stdpp Require Import pretty.

#[local] Open Scope Z_scope.

Inductive severity :=
| SeverityInfo | SeverityLow | SeverityMedium | SeverityHigh | SeverityCritical.

#[global] Instance severity_eq_dec : EqDecision severity.
Proof. solve_decision. Defined.

(** A [Direction] is a string on the wire; these are its two legal values. *)
Definition DirectionInbound : string := "inbound".
Definition DirectionOutbound : string := "outbound".

Record Geo := mkGeo {
  geo_country_code : string; geo_country : string; geo_region : string;
  geo_city : string; geo_asn : Z; geo_asn_org : string; geo_asn_network : string;
  geo_database_age : string; geo_estimate : bool }.

Definition no_geo : Geo := mkGeo "" "" "" "" 0 "" "" "" false.

Record Event := mkEvent {
  ev_id : string;
  ev_incident : string;
  ev_observed_at : time;
  ev_kind : string;
  ev_phase : string;
  ev_severity : severity;
  ev_summary : string;
  ev_source_ip : string;
  ev_source_range : string;
  ev_target : string;
  ev_count : Z;
  ev_geo : Geo;
  ev_evidence : gmap string string }.

Definition set_summary (s : string) (e : Event) : Event :=
  mkEvent (ev_id e) (ev_incident e) (ev_observed_at e) (ev_kind e) (ev_phase e)
    (ev_severity e) s (ev_source_ip e) (ev_source_range e) (ev_target e)
    (ev_count e) (ev_geo e) (ev_evidence e).

Definition add_evidence (k v : string) (e : Event) : Event :=
  mkEvent (ev_id e) (ev_incident e) (ev_observed_at e) (ev_kind e) (ev_phase e)
    (ev_severity e) (ev_summary e) (ev_source_ip e) (ev_source_range e) (ev_target e)
    (ev_count e) (ev_geo e) (<[k := v]> (ev_evidence e)).

Record Traffic := mkTraffic {
  tr_hour : time; tr_direction : string; tr_country : string; tr_region : string;
  tr_asn : Z; tr_asn_org : string; tr_bytes : Z; tr_packets : Z; tr_attributed : bool }.

(** ** Runtime services

    [crypto/rand] behind [NewID] (the [n]-th draw, in hexadecimal), the
    renderings of floats and durations that [fmt] and [strconv] produce for
    evidence texts, and the platform's conversion of a [float64] outside the
    range of [uint64], which Go leaves to the implementation.  No theorem
    depends on a property of them. *)
Class GoRuntime := {
  id_draw : nat -> string;
  fmt_f0 : f64 -> string;
  fmt_shortest : f64 -> string;
  fmt_duration : duration -> string;
  f64_outside_u64 : f64 -> Z }.

(** [model.NewID]: [n] is the number of identifiers drawn so far. *)
Definition NewID `{GoRuntime} (prefix : string) (n : nat) : string * nat :=
  ((prefix ++ "_" ++ id_draw n)%string, S n).

(** [uint64(f)]. *)
Definition f64_to_u64 `{GoRuntime} (f : f64) : Z :=
  match f64_trunc f with
  | Some z => if (0 <=? z) && (z <=? u64_max) then z else f64_outside_u64 f
  | None => f64_outside_u64 f
  end.

(** [strconv.FormatUint], [FormatInt] and [FormatBool]. *)
Definition fmt_int (z : Z) : string := pretty z.
Definition fmt_bool (b : bool) : string := if b then "true" else "false".

(** [d.Round(time.Second)]: half away from zero, saturating. *)
Definition round_second (d : duration) : duration :=
  let r := Z.rem d second in
  if d <? 0 then
    if - r + - r <? second then d - r else clamp_i64 (d - (second + r))
  else if r + r <? second then d - r else clamp_i64 (d + (second - r)).

(** A runtime for the worked examples. *)
Definition example_runtime : GoRuntime := {|
  id_draw := fun n => pretty (Z.of_nat n);
  fmt_f0 := fun f => match f64_trunc f with Some z => pretty z | None => "?" end;
  fmt_shortest := fun f => match f64_trunc f with Some z => pretty z | None => "?" end;
  fmt_duration := fun d => (pretty d ++ "ns")%string;
  f64_outside_u64 := fun _ => 0 |}.

(** [detect.PrefixString]. *)
Definition PrefixString (value : string) : string :=
  match parse_addr value with
  | None => ""
  | Some a => masked_prefix (unmap a)
  end.
