(* ===== verification/Protocol.v ===== *)
(** * The sensor protocol: batches, cumulative health and frames

    [internal/protocol]: the [Flow] and [Batch] records, the structural
    validation a daemon applies to a received batch, session identifiers, the
    cumulative collector health of protocol version 5 with its [Delta], commit
    acknowledgements, and the length-prefixed frames on the socket. *)

From S2P Require Export Model.

Definition Version : Z := 5.
Definition MaxFrameSize : Z := 1048576.
Definition MaxFlowsPerBatch : Z := 4096.
Definition MaxInterfaces : Z := 8.
Definition MaxBatchPackets : Z := 68719476736.
Definition MaxBatchBytes : Z := 1099511627776.
Definition MaxRemoteIPText : Z := 45.
Definition maxFlowPackets : Z := 68719476736.
Definition maxFlowBytes : Z := 1099511627776.
Definition MaxBatchIntervalMillis : Z := 65000.

Definition MaxElapsedInterval (nominal : duration) : duration :=
  wrap_i64 (nominal
    + Z.min (Z.max (250 * millisecond) (Z.quot nominal 10)) (5 * second)).

(** [r <= 0x20 || r == 0x7f], and with [/]. *)
Definition control_or_space (b : Z) : bool := (b <=? 32) || (b =? 127).

Definition ValidInterfaceName (name : string) : bool :=
  negb (name =?s "") && (string_len name <=? 15)
  && negb (string_exists (fun b => b =? 47) name)
  && negb (string_exists control_or_space name).

Record Flow := mkFlow {
  f_direction : string;
  f_remote_ip : string;
  f_protocol : string;
  f_local_port : Z;
  f_remote_port : Z;
  f_tcp_flags : Z;
  f_packets : Z;
  f_bytes : Z }.

#[global] Instance flow_eq_dec : EqDecision Flow.
Proof. solve_decision. Defined.

Definition zero_flow : Flow := mkFlow "" "" "" 0 0 0 0 0.

(** The reset-on-read observations that version 5 sends cumulatively. *)
Record CollectorHealth := mkHealth {
  h_overflow_bytes : Z;
  h_overflow_packets : Z;
  h_parse_errors : Z;
  h_kernel_packets : Z;
  h_kernel_drops : Z;
  h_kernel_stats_errors : Z;
  h_ipc_batches : Z;
  h_ipc_packets : Z;
  h_ipc_bytes : Z;
  h_saturated : bool }.

#[global] Instance health_eq_dec : EqDecision CollectorHealth.
Proof. solve_decision. Defined.

Definition zero_health : CollectorHealth := mkHealth 0 0 0 0 0 0 0 0 0 false.

(** A [Batch].  Its health counters are the embedded [CollectorHealth] (the
    source keeps them as fields of the batch and copies them with
    [CollectorHealth] and [Apply]).  [b_sent_offset] is the location of
    [SentAt] in seconds east of UTC, as its RFC 3339 text says.  The
    daemon-local [Acknowledge] callback is not data and is left out. *)
Record Batch := mkBatch {
  b_connection : Z;
  b_version : Z;
  b_session : string;
  b_sequence : Z;
  b_sent_at : time;
  b_sent_offset : Z;
  b_interval_ms : Z;
  b_interface : string;
  b_flows : list Flow;
  b_rx_bytes : Z;
  b_tx_bytes : Z;
  b_rx_packets : Z;
  b_tx_packets : Z;
  b_inbound_syn : Z;
  b_inbound_udp : Z;
  b_inbound_icmp : Z;
  b_health : CollectorHealth }.

(** [Batch.CollectorHealth] and [CollectorHealth.Apply]. *)
Definition batch_health (b : Batch) : CollectorHealth := b_health b.

Definition Apply (h : CollectorHealth) (b : Batch) : Batch :=
  mkBatch (b_connection b) (b_version b) (b_session b) (b_sequence b) (b_sent_at b)
    (b_sent_offset b) (b_interval_ms b) (b_interface b) (b_flows b) (b_rx_bytes b)
    (b_tx_bytes b) (b_rx_packets b) (b_tx_packets b) (b_inbound_syn b)
    (b_inbound_udp b) (b_inbound_icmp b) h.

Definition set_flows (fs : list Flow) (b : Batch) : Batch :=
  mkBatch (b_connection b) (b_version b) (b_session b) (b_sequence b) (b_sent_at b)
    (b_sent_offset b) (b_interval_ms b) (b_interface b) fs (b_rx_bytes b)
    (b_tx_bytes b) (b_rx_packets b) (b_tx_packets b) (b_inbound_syn b)
    (b_inbound_udp b) (b_inbound_icmp b) (b_health b).

Definition set_identity (session : string) (seq : Z) (b : Batch) : Batch :=
  mkBatch (b_connection b) (b_version b) session seq (b_sent_at b)
    (b_sent_offset b) (b_interval_ms b) (b_interface b) (b_flows b) (b_rx_bytes b)
    (b_tx_bytes b) (b_rx_packets b) (b_tx_packets b) (b_inbound_syn b)
    (b_inbound_udp b) (b_inbound_icmp b) (b_health b).

Definition empty_batch : Batch :=
  mkBatch 0 0 "" 0 time_zero 0 0 "" [] 0 0 0 0 0 0 0 zero_health.

Record CommitACK := mkACK {
  ack_version : Z;
  ack_session : string;
  ack_interface : string;
  ack_sequence : Z;
  ack_committed : Z;
  ack_health : bool;
  ack_traffic : bool;
  ack_events : bool;
  ack_notifications : bool;
  ack_complete : bool;
  ack_duplicate : bool;
  ack_reason : string }.

(** ** Validation *)

(** [ValidSessionID]: 32 bytes, each [0-9a-f].  (The condition of the source,
    [c < '0' || c > '9' && c < 'a' || c > 'f'], rejects the others.) *)
Definition ValidSessionID (value : string) : bool :=
  (string_len value =? 32)
  && negb (string_exists
             (fun c => (c <? 48) || ((57 <? c) && (c <? 97)) || (102 <? c)) value).

Inductive batch_error :=
| EVersion (v : Z)
| EIdentity
| ESentAt
| EClockSkew
| EInterval
| EInterfaceLength
| EInterfaceBytes
| ETooManyFlows
| EFlowDirection (i : nat)
| EFlowZoned (i : nat)
| EFlowIP (i : nat)
| EFlowZero (i : nat)
| EFlowBounds (i : nat)
| EFlowProtocol (i : nat)
| EByteCounter
| EPacketCounter
| EFlowTotals
| EInboundTotals.

(** The four totals that the flow loop accumulates in [uint64]. *)
Record flow_totals := mkTotals {
  ft_rx_bytes : Z; ft_tx_bytes : Z; ft_rx_packets : Z; ft_tx_packets : Z }.

Definition no_totals : flow_totals := mkTotals 0 0 0 0.

Definition add_flow_totals (f : Flow) (t : flow_totals) : flow_totals :=
  if f_direction f =?s DirectionInbound then
    mkTotals (add_u64 (ft_rx_bytes t) (f_bytes f)) (ft_tx_bytes t)
      (add_u64 (ft_rx_packets t) (f_packets f)) (ft_tx_packets t)
  else
    mkTotals (ft_rx_bytes t) (add_u64 (ft_tx_bytes t) (f_bytes f))
      (ft_rx_packets t) (add_u64 (ft_tx_packets t) (f_packets f)).

Definition set_remote_ip (ip : string) (f : Flow) : Flow :=
  mkFlow (f_direction f) ip (f_protocol f) (f_local_port f) (f_remote_port f)
    (f_tcp_flags f) (f_packets f) (f_bytes f).

Definition known_protocol (p : string) : bool :=
  (p =?s "tcp") || (p =?s "udp") || (p =?s "icmp") || (p =?s "icmpv6") || (p =?s "other").

(** One iteration of the flow loop: the error, if any, and the flow with the
    normalised address that the loop has stored by then. *)
Definition validate_flow (i : nat) (f : Flow) : Flow * option batch_error :=
  if negb (f_direction f =?s DirectionInbound)
     && negb (f_direction f =?s DirectionOutbound)
  then (f, Some (EFlowDirection i))
  else if (MaxRemoteIPText <? string_len (f_remote_ip f))
          || string_exists (fun b => b =? 37) (f_remote_ip f)
  then (f, Some (EFlowZoned i))
  else
    match parse_addr (f_remote_ip f) with
    | None => (f, Some (EFlowIP i))
    | Some a =>
        let f := set_remote_ip (addr_string (unmap a)) f in
        if (f_packets f =? 0) || (f_bytes f =? 0) then (f, Some (EFlowZero i))
        else if (maxFlowPackets <? f_packets f) || (maxFlowBytes <? f_bytes f)
        then (f, Some (EFlowBounds i))
        else if negb (known_protocol (f_protocol f)) then (f, Some (EFlowProtocol i))
        else (f, None)
    end.

(** The loop mutates the batch as it goes, so it returns the flows in every
    case, and the totals or the first error. *)
Fixpoint validate_flows (i : nat) (fs : list Flow) (t : flow_totals)
    : list Flow * result batch_error flow_totals :=
  match fs with
  | [] => ([], Ok t)
  | f :: fs =>
      match validate_flow i f with
      | (f, Some e) => (f :: fs, Err e)
      | (f, None) =>
          let '(fs, r) := validate_flows (S i) fs (add_flow_totals f t) in
          (f :: fs, r)
      end
  end.

Definition byte_counters (b : Batch) : list Z :=
  [b_rx_bytes b; b_tx_bytes b; h_overflow_bytes (b_health b); h_ipc_bytes (b_health b)].

Definition packet_counters (b : Batch) : list Z :=
  let h := b_health b in
  [b_rx_packets b; b_tx_packets b; b_inbound_syn b; b_inbound_udp b; b_inbound_icmp b;
   h_kernel_packets h; h_kernel_drops h; h_kernel_stats_errors h; h_overflow_packets h;
   h_parse_errors h; h_ipc_batches h; h_ipc_packets h].

(** The checks before the flow loop. *)
Definition validate_header (b : Batch) (reference : time) : result batch_error unit :=
  let identified := negb (b_session b =?s "") || negb (b_sequence b =? 0) in
  fail_if (b_version b <? 1) || (Version <? b_version b) with EVersion (b_version b) ;;
  fail_if ((b_version b <? 5) && identified)
          || ((5 <=? b_version b) && identified
              && (negb (ValidSessionID (b_session b)) || (b_sequence b =? 0)
                  || (i64_max <? b_sequence b))) with EIdentity ;;
  fail_if is_zero (b_sent_at b)
          || negb (year_in_range (b_sent_at b) (b_sent_offset b))
          || is_zero reference with ESentAt ;;
  let delta := time_sub reference (b_sent_at b) in
  fail_if (10 * minute <? delta) || (delta <? - (10 * minute)) with EClockSkew ;;
  let maximum := if b_version b <? 4 then 60000 else MaxBatchIntervalMillis in
  fail_if (b_interval_ms b <? 100) || (maximum <? b_interval_ms b) with EInterval ;;
  fail_if (b_interface b =?s "") || (15 <? string_len (b_interface b))
    with EInterfaceLength ;;
  fail_if string_exists (fun c => control_or_space c || (c =? 47)) (b_interface b)
    with EInterfaceBytes ;;
  fail_if MaxFlowsPerBatch <? Z.of_nat (length (b_flows b)) with ETooManyFlows ;;
  Ok tt.

(** The checks after it. *)
Definition validate_counters (b : Batch) (t : flow_totals) : result batch_error unit :=
  fail_if existsb (fun c => MaxBatchBytes <? c) (byte_counters b) with EByteCounter ;;
  fail_if existsb (fun c => MaxBatchPackets <? c) (packet_counters b) with EPacketCounter ;;
  fail_if (b_rx_bytes b <? ft_rx_bytes t) || (b_tx_bytes b <? ft_tx_bytes t)
          || (b_rx_packets b <? ft_rx_packets t) || (b_tx_packets b <? ft_tx_packets t)
    with EFlowTotals ;;
  fail_if b_rx_packets b
          <? add_u64 (add_u64 (b_inbound_syn b) (b_inbound_udp b)) (b_inbound_icmp b)
    with EInboundTotals ;;
  Ok tt.

(** [Batch.ValidateAt]: the batch with its addresses normalised as far as the
    loop went, and the verdict. *)
Definition ValidateAt (b : Batch) (reference : time) : Batch * result batch_error unit :=
  match validate_header b reference with
  | Err e => (b, Err e)
  | Ok _ =>
      let '(fs, r) := validate_flows 0 (b_flows b) no_totals in
      (set_flows fs b, let? t := r in validate_counters b t)
  end.

(** ** Cumulative health *)

(** One row of the table in [Delta]: current value, previous value, limit. *)
Definition counter_delta (now before limit : Z) : option Z :=
  if (now <? before) || (limit <? now) then None else Some (now - before).

Inductive delta_error := EHealthReset | ESaturationReset.

(** [CollectorHealth.Delta] of the current snapshot [h] and the previous one. *)
Definition Delta (h previous : CollectorHealth) : result delta_error CollectorHealth :=
  match
    counter_delta (h_overflow_bytes h) (h_overflow_bytes previous) MaxBatchBytes,
    counter_delta (h_overflow_packets h) (h_overflow_packets previous) MaxBatchPackets,
    counter_delta (h_parse_errors h) (h_parse_errors previous) MaxBatchPackets,
    counter_delta (h_kernel_packets h) (h_kernel_packets previous) MaxBatchPackets,
    counter_delta (h_kernel_drops h) (h_kernel_drops previous) MaxBatchPackets,
    counter_delta (h_kernel_stats_errors h) (h_kernel_stats_errors previous) MaxBatchPackets,
    counter_delta (h_ipc_batches h) (h_ipc_batches previous) MaxBatchPackets,
    counter_delta (h_ipc_packets h) (h_ipc_packets previous) MaxBatchPackets,
    counter_delta (h_ipc_bytes h) (h_ipc_bytes previous) MaxBatchBytes
  with
  | Some ob, Some op, Some pe, Some kp, Some kd, Some ke, Some ib, Some ip, Some iby =>
      if h_saturated previous && negb (h_saturated h) then Err ESaturationReset
      else Ok (mkHealth ob op pe kp kd ke ib ip iby (h_saturated h))
  | _, _, _, _, _, _, _, _, _ => Err EHealthReset
  end.

(** ** Frames

    A frame is a four-byte big-endian length and a JSON document.  Bytes are
    [Z]s.  [io.Writer] and [encoding/json] are not part of the repository:
    [write] is one [Write] call of the connection, which returns the count and
    whether an error came with it; [marshal] and [decode] are the JSON codec
    ([decode] is one [Decode] of a decoder over the payload and returns the
    bytes it has not consumed; [at_eof] says that a further [Decode] would
    report [io.EOF]). *)

Inductive frame_error :=
| FEncode | FTooLarge | FWrite | FShortWrite | FEOF | FSize (n : Z) | FPayload
| FDecode | FTrailing.

Definition be32 (n : Z) : list Z :=
  [Z.land (Z.shiftr n 24) 255; Z.land (Z.shiftr n 16) 255;
   Z.land (Z.shiftr n 8) 255; Z.land n 255].

Definition be32_value (h : list Z) : Z :=
  match h with
  | [a; b; c; d] =>
      Z.lor (Z.shiftl a 24) (Z.lor (Z.shiftl b 16) (Z.lor (Z.shiftl c 8) d))
  | _ => 0
  end.

Section Frames.
Context {W V : Type}.
Variable write : W -> list Z -> (Z * bool) * W.
Variable marshal : V -> option (list Z).
Variable decode : list Z -> option (V * list Z).
Variable at_eof : list Z -> bool.

(** [writeAll]; [fuel] bounds the iterations and [None] is running out. *)
Fixpoint writeAll_fuel (fuel : nat) (w : W) (payload : list Z)
    : option (W * result frame_error unit) :=
  match payload with
  | [] => Some (w, Ok tt)
  | _ :: _ =>
      match fuel with
      | O => None
      | S fuel =>
          let '((n, failed), w) := write w payload in
          if (failed : bool) then Some (w, Err FWrite)
          else if (n <=? 0) || (lenZ payload <? n) then Some (w, Err FShortWrite)
          else writeAll_fuel fuel w (drop (Z.to_nat n) payload)
      end
  end.

(** Every iteration that continues consumes a byte. *)
Definition writeAll (w : W) (payload : list Z) : option (W * result frame_error unit) :=
  writeAll_fuel (length payload) w payload.

Definition WriteFrame (w : W) (value : V) : option (W * result frame_error unit) :=
  match marshal value with
  | None => Some (w, Err FEncode)
  | Some payload =>
      if MaxFrameSize <? lenZ payload then Some (w, Err FTooLarge)
      else
        match writeAll w (be32 (lenZ payload)) with
        | Some (w, Ok _) => writeAll w payload
        | r => r
        end
  end.

(** [io.ReadFull] of [n] bytes from the stream. *)
Definition read_full (n : nat) (r : list Z) : option (list Z * list Z) :=
  if (n <=? length r)%nat then Some (take n r, drop n r) else None.

(** [ReadFrame]: the value and the rest of the stream. *)
Definition ReadFrame (r : list Z) : result frame_error (V * list Z) :=
  match read_full 4 r with
  | None => Err FEOF
  | Some (header, r) =>
      let size := be32_value header in
      if (size =? 0) || (MaxFrameSize <? size) then Err (FSize size)
      else
        match read_full (Z.to_nat size) r with
        | None => Err FPayload
        | Some (payload, r) =>
            match decode payload with
            | None => Err FDecode
            | Some (v, rest) => if at_eof rest then Ok (v, r) else Err FTrailing
            end
        end
  end.
End Frames.

(** ** Lemmas: the flow loop and its totals *)

Definition flow_wf (f : Flow) : Prop := is_u64 (f_packets f) /\ is_u64 (f_bytes f).

Definition health_counters (h : CollectorHealth) : list Z :=
  [h_overflow_bytes h; h_overflow_packets h; h_parse_errors h; h_kernel_packets h;
   h_kernel_drops h; h_kernel_stats_errors h; h_ipc_batches h; h_ipc_packets h;
   h_ipc_bytes h].

(** The machine ranges of a decoded batch. *)
Definition batch_wf (b : Batch) : Prop :=
  Forall flow_wf (b_flows b) /\
  Forall is_u64 (byte_counters b ++ packet_counters b).

(** The mathematical total of a counter over the flows of one direction. *)
Definition flow_total (inbound : bool) (counter : Flow -> Z) (fs : list Flow) : Z :=
  sumZ ((fun f => if Bool.eqb (f_direction f =?s DirectionInbound) inbound
                  then counter f else 0) <$> fs).

Definition flow_accepted (f : Flow) : Prop :=
  (f_direction f = DirectionInbound \/ f_direction f = DirectionOutbound) /\
  1 <= f_packets f <= maxFlowPackets /\ 1 <= f_bytes f <= maxFlowBytes /\
  known_protocol (f_protocol f) = true.

Lemma validate_flow_ok i f f' :
  flow_wf f -> validate_flow i f = (f', None) ->
  flow_accepted f' /\ exists a, parse_addr (f_remote_ip f) = Some a /\
    f' = set_remote_ip (addr_string (unmap a)) f.
Proof.
  intros [Hp Hb]. unfold validate_flow.
  case_if; [discriminate|]. case_if; [discriminate|].
  destruct (parse_addr _) as [a|]; [|discriminate]. simpl.
  repeat case_if; try discriminate. intros [= <-].
  split; [|eauto]. bool_to_prop.
  unfold flow_accepted; simpl.
  split; [|repeat split; zlia || assumption].
  apply andb_false_iff in E as [E|E]; apply negb_false_iff, String.eqb_eq in E; auto.
Qed.

Definition totals_le (n : Z) (t : flow_totals) : Prop :=
  0 <= ft_rx_bytes t <= n * maxFlowBytes /\ 0 <= ft_tx_bytes t <= n * maxFlowBytes /\
  0 <= ft_rx_packets t <= n * maxFlowPackets /\ 0 <= ft_tx_packets t <= n * maxFlowPackets.

Lemma add_flow_totals_exact f t n :
  0 <= n < MaxFlowsPerBatch -> totals_le n t -> flow_accepted f ->
  let t' := add_flow_totals f t in
  totals_le (n + 1) t' /\
  ft_rx_bytes t' = ft_rx_bytes t + flow_total true f_bytes [f] /\
  ft_tx_bytes t' = ft_tx_bytes t + flow_total false f_bytes [f] /\
  ft_rx_packets t' = ft_rx_packets t + flow_total true f_packets [f] /\
  ft_tx_packets t' = ft_tx_packets t + flow_total false f_packets [f].
Proof.
  intros Hn Ht (_ & Hp & Hb & _).
  unfold totals_le, flow_total, add_flow_totals, maxFlowBytes, maxFlowPackets,
    MaxFlowsPerBatch in *. simpl.
  destruct (f_direction f =?s DirectionInbound); simpl;
    rewrite !add_u64_small by zlia; repeat split; zlia.
Qed.

Lemma flow_total_cons inbound c f fs :
  flow_total inbound c (f :: fs) = flow_total inbound c [f] + flow_total inbound c fs.
Proof. unfold flow_total. rewrite !fmap_cons, !sumZ_cons. simpl. unfold sumZ. simpl. lia. Qed.

Lemma flow_total_set_ip inbound c s f :
  (c = f_bytes \/ c = f_packets) ->
  flow_total inbound c [set_remote_ip s f] = flow_total inbound c [f].
Proof. intros [-> | ->]; reflexivity. Qed.

Lemma validate_flows_ok fs : forall i n t fs' t',
  Forall flow_wf fs -> 0 <= n -> n + lenZ fs <= MaxFlowsPerBatch ->
  totals_le n t -> validate_flows i fs t = (fs', Ok t') ->
  Forall flow_accepted fs' /\ length fs' = length fs /\
  Forall2 (fun f f' => exists a, parse_addr (f_remote_ip f) = Some a /\
             f' = set_remote_ip (addr_string (unmap a)) f) fs fs' /\
  ft_rx_bytes t' = ft_rx_bytes t + flow_total true f_bytes fs' /\
  ft_tx_bytes t' = ft_tx_bytes t + flow_total false f_bytes fs' /\
  ft_rx_packets t' = ft_rx_packets t + flow_total true f_packets fs' /\
  ft_tx_packets t' = ft_tx_packets t + flow_total false f_packets fs'.
Proof.
  induction fs as [|f fs IH]; intros i n t fs' t' Hwf Hn Hlen Ht Hv; simpl in Hv.
  - injection Hv as <- <-. unfold flow_total; simpl. repeat split; auto; lia.
  - destruct (validate_flow i f) as [f' [e|]] eqn:Ef; [discriminate|].
    destruct (validate_flows _ _ _) as [fs1 r] eqn:Efs. injection Hv as <- ->.
    apply Forall_cons in Hwf as [Hf Hfs].
    destruct (validate_flow_ok _ _ _ Hf Ef) as [Hacc Hpa].
    unfold lenZ in *; simpl in Hlen.
    destruct (add_flow_totals_exact f' t n) as (Ht' & E1 & E2 & E3 & E4); [lia|done..|].
    destruct (IH _ (n + 1) _ _ _ Hfs ltac:(lia) ltac:(lia) Ht' Efs)
      as (HA & HL & HF & F1 & F2 & F3 & F4).
    rewrite !(flow_total_cons _ _ f' fs1).
    repeat split; [by constructor|simpl; lia|by constructor|lia..].
Qed.

Lemma validate_header_ok b reference :
  validate_header b reference = Ok tt ->
  1 <= b_version b <= Version /\
  ValidInterfaceName (b_interface b) = true /\
  100 <= b_interval_ms b <= MaxBatchIntervalMillis /\
  Z.abs (reference - b_sent_at b) <= 10 * minute /\
  Z.of_nat (length (b_flows b)) <= MaxFlowsPerBatch /\
  (b_sequence b <> 0 -> b_version b = 5 /\ ValidSessionID (b_session b) = true /\
     b_sequence b <= i64_max).
Proof.
  unfold validate_header. intros H. cbv zeta in H.
  repeat (case_if_in H; try discriminate H). all: clear H.
  all: match goal with E : string_exists _ _ = false |- _ =>
    rewrite (string_exists_or control_or_space (fun c => c =? 47)) in E end.
  all: bool_to_prop.
  all: unfold time_sub, clamp_i64, MaxBatchIntervalMillis in *
    ; repeat case_if; bool_to_prop; split_and!; try zlia.
  all: try (unfold ValidInterfaceName;
            repeat match goal with E : _ = false |- _ => rewrite E end;
            apply Z.leb_le in H2; rewrite H2; reflexivity).
  all: assert (Hs : b_sequence b <> 0 ->
         b_version b = 5 /\ ValidSessionID (b_session b) = true /\ b_sequence b <= i64_max);
    [intros Hs; apply Z.eqb_neq in Hs; rewrite Hs, orb_true_r, !andb_true_r in *|tauto].
  all: destruct (b_version b <? 5) eqn:Ev; [discriminate|bool_to_prop].
  all: replace (5 <=? b_version b) with true in * by (symmetry; apply Z.leb_le; lia).
  all: simpl in *; bool_to_prop.
  all: split; [unfold Version in *; lia|split; [assumption|lia]].
Qed.

(** What the loop and the final checks establish. *)
Lemma ValidateAt_inv b reference b' :
  batch_wf b -> ValidateAt b reference = (b', Ok tt) ->
  validate_header b reference = Ok tt /\
  b' = set_flows (b_flows b') b /\
  Forall flow_accepted (b_flows b') /\
  Forall2 (fun f f' => exists a, parse_addr (f_remote_ip f) = Some a /\
             f' = set_remote_ip (addr_string (unmap a)) f) (b_flows b) (b_flows b') /\
  validate_counters b
    (mkTotals (flow_total true f_bytes (b_flows b')) (flow_total false f_bytes (b_flows b'))
       (flow_total true f_packets (b_flows b')) (flow_total false f_packets (b_flows b')))
  = Ok tt.
Proof.
  intros [Hf Hc]. unfold ValidateAt.
  destruct (validate_header b reference) as [[]|] eqn:Hh; [|discriminate].
  pose proof (validate_header_ok _ _ Hh) as (_ & _ & _ & _ & Hl & _).
  destruct (validate_flows _ _ _) as [fs [t|e]] eqn:Hv; [|discriminate].
  intros [= <- Hcnt]. simpl.
  assert (Ht : totals_le 0 no_totals) by (unfold totals_le, no_totals; simpl; lia).
  destruct (validate_flows_ok _ _ 0 _ _ _ Hf ltac:(lia) ltac:(unfold lenZ; lia) Ht Hv)
    as (HA & _ & HF & E1 & E2 & E3 & E4).
  split_and!; [done|done|done|done|]. rewrite <- Hcnt. f_equal.
  destruct t; simpl in *. subst. f_equal.
Qed.

Lemma validate_counters_ok b t :
  Forall is_u64 (byte_counters b ++ packet_counters b) ->
  validate_counters b t = Ok tt ->
  Forall (fun c => c <= MaxBatchBytes) (byte_counters b) /\
  Forall (fun c => c <= MaxBatchPackets) (packet_counters b) /\
  ft_rx_bytes t <= b_rx_bytes b /\ ft_tx_bytes t <= b_tx_bytes b /\
  ft_rx_packets t <= b_rx_packets b /\ ft_tx_packets t <= b_tx_packets b /\
  b_inbound_syn b + b_inbound_udp b + b_inbound_icmp b <= b_rx_packets b.
Proof.
  intros Hu H. unfold validate_counters in H.
  repeat (case_if_in H; try discriminate H).
  assert (Hle : forall m l, existsb (fun c => m <? c) l = false -> Forall (fun c => c <= m) l).
  { clear. intros m l. induction l; simpl; constructor; bool_to_prop; auto; lia. }
  apply Hle in E. apply Hle in E0. clear Hle H.
  assert (Hs : add_u64 (add_u64 (b_inbound_syn b) (b_inbound_udp b)) (b_inbound_icmp b)
               = b_inbound_syn b + b_inbound_udp b + b_inbound_icmp b).
  { unfold packet_counters, byte_counters in *. simpl in *.
    rewrite !Forall_cons in Hu, E0. unfold MaxBatchPackets in *.
    rewrite (add_u64_small (b_inbound_syn b)) by zlia.
    apply add_u64_small. zlia. }
  rewrite Hs in *. bool_to_prop. split_and!; auto; lia.
Qed.

(** ** Lemmas: normalisation is stable *)

Lemma validate_flow_again i f f' j :
  validate_flow i f = (f', None) -> validate_flow j f' = (f', None).
Proof.
  unfold validate_flow. intros H.
  destruct (negb _ && negb _) eqn:Ed in H; [discriminate|].
  destruct ((_ <? _) || _) eqn:Ez in H; [discriminate|]. bool_to_prop.
  destruct (parse_addr (f_remote_ip f)) as [a|] eqn:Ea; [|discriminate].
  assert (Hu : unzoned (unmap a)) by eauto using unmap_unzoned, parse_addr_unzoned.
  cbv zeta in H. simpl in H. repeat (case_if_in H; try discriminate H).
  injection H as <-. simpl. rewrite Ed.
  destruct (addr_string_text _ Hu) as [Hl Hx].
  replace (MaxRemoteIPText <? _) with false
    by (symmetry; apply Z.ltb_ge; exact Hl).
  rewrite Hx, parse_addr_string, unmap_unmap by done. simpl.
  change (set_remote_ip (addr_string (unmap a)) (set_remote_ip (addr_string (unmap a)) f))
    with (set_remote_ip (addr_string (unmap a)) f).
  repeat match goal with E : ?b = false |- context [?b] => rewrite E end. done.
Qed.

Lemma validate_flows_again fs : forall i fs' t t' j,
  validate_flows i fs t = (fs', Ok t') -> validate_flows j fs' t = (fs', Ok t').
Proof.
  induction fs as [|f fs IH]; intros i fs' t t' j H; simpl in H; [by injection H as <- <-|].
  destruct (validate_flow i f) as [f1 [e|]] eqn:Ef; [discriminate|].
  destruct (validate_flows (S i) fs _) as [fs1 r] eqn:Efs. injection H as <- ->.
  simpl. rewrite (validate_flow_again _ _ _ j Ef), (IH _ _ _ _ (S j) Efs). done.
Qed.

(** ** Lemmas: cumulative health *)

(** Field-wise combination; the saturation flag is the later one's. *)
Definition health_add (a b : CollectorHealth) : CollectorHealth :=
  mkHealth (h_overflow_bytes a + h_overflow_bytes b)
    (h_overflow_packets a + h_overflow_packets b)
    (h_parse_errors a + h_parse_errors b)
    (h_kernel_packets a + h_kernel_packets b)
    (h_kernel_drops a + h_kernel_drops b)
    (h_kernel_stats_errors a + h_kernel_stats_errors b)
    (h_ipc_batches a + h_ipc_batches b)
    (h_ipc_packets a + h_ipc_packets b)
    (h_ipc_bytes a + h_ipc_bytes b) (h_saturated b).

(** Every counter of [a] is at most that of [b], and saturation is not lost. *)
Definition health_le (a b : CollectorHealth) : Prop :=
  Forall2 Z.le (health_counters a) (health_counters b) /\
  implb (h_saturated a) (h_saturated b) = true.

Definition health_limits : list Z :=
  [MaxBatchBytes; MaxBatchPackets; MaxBatchPackets; MaxBatchPackets; MaxBatchPackets;
   MaxBatchPackets; MaxBatchPackets; MaxBatchPackets; MaxBatchBytes].

Definition health_bounded (h : CollectorHealth) : Prop :=
  Forall2 Z.le (health_counters h) health_limits.

Definition health_nonneg (h : CollectorHealth) : Prop :=
  Forall (fun c => 0 <= c) (health_counters h).

Lemma counter_delta_Some now before limit d :
  counter_delta now before limit = Some d <-> before <= now <= limit /\ d = now - before.
Proof.
  unfold counter_delta. case_if; split; intros H; try discriminate.
  - apply orb_true_iff in E. destruct E; bool_to_prop; lia.
  - injection H as <-. bool_to_prop. lia.
  - destruct H as [_ ->]. done.
Qed.

(** [Delta] succeeds exactly on a bounded snapshot that dominates the previous
    one, and then it is the difference. *)
Lemma Delta_Ok h p d :
  Delta h p = Ok d <->
  health_le p h /\ health_bounded h /\ health_add p d = h.
Proof.
  unfold Delta, health_le, health_bounded, health_counters, health_limits, health_add.
  rewrite !Forall2_cons, !Forall2_nil.
  repeat match goal with
  | |- context [counter_delta ?n ?b ?l] =>
      let E := fresh "E" in destruct (counter_delta n b l) eqn:E;
      [apply counter_delta_Some in E as [? ->]
      |assert (~ (b <= n <= l))
         by (intros ?; enough (None = Some (n - b)) by discriminate;
             rewrite <- E; apply counter_delta_Some; auto); clear E]
  end;
  try (split; [discriminate|]; intros (? & ? & _); lia).
  destruct h as [a1 a2 a3 a4 a5 a6 a7 a8 a9 sa], p as [p1 p2 p3 p4 p5 p6 p7 p8 p9 sp].
  simpl in *.
  destruct sp, sa; simpl; (split; [intros [= <-]|intros (? & _ & Heq)]; simpl in *);
    try (split_and!; try done; try lia; f_equal; lia);
    try (destruct d; simpl in *; injection Heq; intros; subst; repeat f_equal; lia);
    try discriminate; try (destruct_and!; discriminate).
Qed.

Lemma health_le_refl h : health_le h h.
Proof.
  unfold health_le, health_counters. rewrite !Forall2_cons, Forall2_nil.
  split; [lia|]. by destruct (h_saturated h).
Qed.

Lemma health_le_trans a b c : health_le a b -> health_le b c -> health_le a c.
Proof.
  unfold health_le, health_counters. rewrite !Forall2_cons, !Forall2_nil.
  destruct (h_saturated a), (h_saturated b), (h_saturated c); simpl; intros; split;
    try lia; intuition discriminate.
Qed.

#[global] Instance health_le_preorder : PreOrder health_le.
Proof. split; [intro; apply health_le_refl|intros ???; apply health_le_trans]. Qed.

(** [y] continues the stream after [x]. *)
Definition follows (x y : Batch) : Prop :=
  b_session x = b_session y /\ b_sequence x < b_sequence y /\
  health_le (b_health x) (b_health y) /\ health_bounded (b_health y).

(** What the sender of one interface promises the daemon, whichever batches of
    a session arrive: the interface between delivery and persistence. *)
Class CumulativeStream (bs : list Batch) : Prop := {
  cumulative_follows : StronglySorted follows bs;
  cumulative_bounded : Forall (fun b => 1 <= b_sequence b /\ health_bounded (b_health b)) bs }.

(** [Delta] of any later snapshot against any earlier one succeeds. *)
Lemma follows_Delta x y : follows x y -> exists d, Delta (b_health y) (b_health x) = Ok d.
Proof.
  intros (_ & _ & Hle & Hb).
  exists (mkHealth (h_overflow_bytes (b_health y) - h_overflow_bytes (b_health x))
    (h_overflow_packets (b_health y) - h_overflow_packets (b_health x))
    (h_parse_errors (b_health y) - h_parse_errors (b_health x))
    (h_kernel_packets (b_health y) - h_kernel_packets (b_health x))
    (h_kernel_drops (b_health y) - h_kernel_drops (b_health x))
    (h_kernel_stats_errors (b_health y) - h_kernel_stats_errors (b_health x))
    (h_ipc_batches (b_health y) - h_ipc_batches (b_health x))
    (h_ipc_packets (b_health y) - h_ipc_packets (b_health x))
    (h_ipc_bytes (b_health y) - h_ipc_bytes (b_health x)) (h_saturated (b_health y))).
  apply Delta_Ok. split_and!; [done|done|].
  unfold health_add. cbn. destruct (b_health y). cbn. f_equal; lia.
Qed.

(** ** Lemmas: frames *)

Lemma be32_value_be32 n : 0 <= n < 2 ^ 32 -> be32_value (be32 n) = n.
Proof.
  intros Hn. unfold be32_value, be32. rewrite !land_255, !Z.shiftr_div_pow2 by lia.
  pose proof (Z.mod_pos_bound n 256). pose proof (Z.mod_pos_bound (n / 2 ^ 8) 256).
  pose proof (Z.mod_pos_bound (n / 2 ^ 16) 256).
  rewrite (lor_shiftl_add _ _ 8), (lor_shiftl_add _ _ 16), (lor_shiftl_add _ _ 24) by lia.
  change (2 ^ 32) with 4294967296 in Hn. change (2 ^ 24) with 16777216.
  change (2 ^ 16) with 65536. change (2 ^ 8) with 256.
  pose proof (Z.div_mod n 256). pose proof (Z.div_mod (n / 256) 256).
  pose proof (Z.div_mod (n / 65536) 256).
  replace (n / 65536) with (n / 256 / 256) in * by (rewrite Z.div_div by lia; done).
  replace (n / 16777216) with (n / 256 / 256 / 256) in *
    by (rewrite !Z.div_div by lia; done).
  rewrite (Z.mod_small (n / 256 / 256 / 256)); [lia|].
  rewrite !Z.div_div by lia. split; [apply Z.div_pos; lia|apply Z.div_lt_upper_bound; lia].
Qed.

Section FrameLemmas.
Context {W V : Type}.
Variable write : W -> list Z -> (Z * bool) * W.
Variable sent : W -> list Z.

(** The contract of [io.Writer]: [n] bytes of the payload were written, with
    [0 <= n <= len(p)], and a short count comes with an error. *)
Definition writer_contract : Prop := forall w p n failed w',
  write w p = ((n, failed), w') ->
  0 <= n <= lenZ p /\ sent w' = sent w ++ take (Z.to_nat n) p.

Lemma writeAll_spec fuel : forall w p,
  writer_contract -> (length p <= fuel)%nat ->
  exists w' r, writeAll_fuel write fuel w p = Some (w', r) /\ exists k, sent w' = sent w ++ take k p /\ (r = Ok tt -> (length p <= k)%nat).
Proof.
  induction fuel as [|fuel IH]; intros w p Hc Hl.
  - destruct p; [|simpl in Hl; lia]. exists w, (Ok tt). split; [done|].
    exists 0%nat. rewrite app_nil_r. split; [done|simpl; lia].
  - destruct p as [|b p]; [exists w, (Ok tt); split; [done|]; exists 0%nat;
      rewrite app_nil_r; split; [done|simpl; lia]|].
    cbn [writeAll_fuel]. destruct (write w (b :: p)) as [[n failed] w1] eqn:Ew.
    destruct (Hc _ _ _ _ _ Ew) as [Hn Hs].
    destruct failed.
    { eexists _, _. split; [done|]. exists (Z.to_nat n). split; [done|discriminate]. }
    destruct ((n <=? 0) || (lenZ (b :: p) <? n)) eqn:E.
    { eexists _, _. split; [done|]. exists (Z.to_nat n). split; [done|discriminate]. }
    bool_to_prop. unfold lenZ in *.
    destruct (IH w1 (drop (Z.to_nat n) (b :: p)) Hc) as (w' & r & Hr & k & Hk & Hok).
    { rewrite length_drop. simpl in *. lia. }
    exists w', r. split; [done|]. exists (Z.to_nat n + k)%nat.
    rewrite Hk, Hs, <- app_assoc. split.
    + f_equal. rewrite <- (take_drop (Z.to_nat n) (b :: p)) at 3.
      rewrite take_app. rewrite length_take.
      rewrite take_take. f_equal; f_equal; lia.
    + intros Hr'. specialize (Hok Hr'). rewrite length_drop in Hok. lia.
Qed.
End FrameLemmas.

(** ** Properties *)

(** C1. A batch that [ValidateAt] accepts is safe to use without further
    checks: the byte and packet counters of its flows add up, as mathematical
    sums per direction, to no more than its totals (the [uint64] accumulators
    cannot have wrapped), its protocol counters add up to no more than the
    received packets, every counter is within its bound, every flow is legal
    and carries the canonical text of the address it named, and nothing else of
    the batch was changed. *)
Theorem ValidateAt_accepted b reference b' :
  batch_wf b -> ValidateAt b reference = (b', Ok tt) ->
  b' = set_flows (b_flows b') b /\
  flow_total true f_bytes (b_flows b') <= b_rx_bytes b' /\
  flow_total false f_bytes (b_flows b') <= b_tx_bytes b' /\
  flow_total true f_packets (b_flows b') <= b_rx_packets b' /\
  flow_total false f_packets (b_flows b') <= b_tx_packets b' /\
  b_inbound_syn b' + b_inbound_udp b' + b_inbound_icmp b' <= b_rx_packets b' /\
  Forall (fun c => c <= MaxBatchBytes) (byte_counters b') /\
  Forall (fun c => c <= MaxBatchPackets) (packet_counters b') /\
  Forall flow_accepted (b_flows b') /\
  Forall2 (fun f f' => exists a, parse_addr (f_remote_ip f) = Some a /\
             f' = set_remote_ip (addr_string (unmap a)) f) (b_flows b) (b_flows b') /\
  1 <= b_version b' <= Version /\
  ValidInterfaceName (b_interface b') = true /\
  Z.abs (reference - b_sent_at b') <= 10 * minute /\
  lenZ (b_flows b') <= MaxFlowsPerBatch.
Proof.
  intros Hwf Hv. destruct (ValidateAt_inv _ _ _ Hwf Hv) as (Hh & Hset & HA & HF & Hc).
  destruct (validate_header_ok _ _ Hh) as (Hver & Hname & _ & Hskew & Hlen & _).
  destruct (validate_counters_ok _ _ (proj2 Hwf) Hc) as (B & P & H1 & H2 & H3 & H4 & H5).
  simpl in *. apply Forall2_length in HF as HL. unfold lenZ.
  rewrite Hset. simpl. rewrite <- HL. split_and!; auto; lia.
Qed.

Definition example_flow : Flow :=
  mkFlow "inbound" "::ffff:192.0.2.1" "tcp" 443 51000 2 3 180.
Definition example_batch : Batch :=
  mkBatch 0 5 "" 0 (unix_epoch + 3600 * second) 0 1000 "eth0"
    [example_flow; mkFlow "outbound" "198.51.100.7" "udp" 53 40000 0 1 90]
    180 90 3 1 1 0 0 zero_health.

Lemma ValidateAt_accepted_witness :
  f_remote_ip <$> b_flows (fst (ValidateAt example_batch (unix_epoch + 3601 * second)))
    = ["192.0.2.1"; "198.51.100.7"]%string /\
  flow_total true f_bytes
    (b_flows (fst (ValidateAt example_batch (unix_epoch + 3601 * second)))) <= 180.
Proof.
  assert (Hwf : batch_wf example_batch).
  { split; repeat constructor; simpl; unfold u64_max; lia. }
  pose proof (ValidateAt_accepted example_batch (unix_epoch + 3601 * second)
    (fst (ValidateAt example_batch (unix_epoch + 3601 * second))) Hwf
    ltac:(vm_compute; reflexivity)) as H.
  split; [vm_compute; reflexivity|].
  exact (proj1 (proj2 H)).
Defined.

(** Normalisation is stable: the batch that validation leaves behind, when
    it is accepted, is accepted again unchanged, so a recorded batch that is
    replayed against its own clock keeps the identities it was detected with. *)
Theorem ValidateAt_idempotent b reference b' :
  ValidateAt b reference = (b', Ok tt) -> ValidateAt b' reference = (b', Ok tt).
Proof.
  unfold ValidateAt. destruct (validate_header b reference) as [[]|] eqn:Hh; [|discriminate].
  destruct (validate_flows 0 (b_flows b) no_totals) as [fs [t|e]] eqn:Hv; [|discriminate].
  intros [= <- Hc].
  assert (Hlen : length fs = length (b_flows b)).
  { clear -Hv. revert Hv. generalize 0%nat, no_totals. revert fs t.
    induction (b_flows b) as [|f l IH]; simpl; intros fs t i t0 H; [by injection H as <- _|].
    destruct (validate_flow i f) as [f1 [e|]]; [discriminate|].
    destruct (validate_flows (S i) l _) as [fs1 r] eqn:E. injection H as <- ->.
    simpl. f_equal. by eapply IH. }
  assert (Hh' : validate_header (set_flows fs b) reference = Ok tt).
  { rewrite <- Hh. unfold validate_header. simpl. by rewrite Hlen. }
  rewrite Hh'. simpl. rewrite (validate_flows_again _ _ _ _ _ 0 Hv). simpl.
  f_equal. by rewrite <- Hc.
Qed.

Lemma ValidateAt_idempotent_witness :
  let b' := fst (ValidateAt example_batch (unix_epoch + 3601 * second)) in
  ValidateAt b' (unix_epoch + 3601 * second) = (b', Ok tt).
Proof.
  intros b'. apply (ValidateAt_idempotent example_batch). vm_compute. reflexivity.
Defined.

(** Cumulative health telescopes: when the receiver accepts two successive
    snapshots, accepting the second directly against the first baseline gives
    exactly the sum of the two deltas, so a lost acknowledgement or a skipped
    snapshot changes no total. *)
Theorem Delta_telescopes h0 h1 h2 d1 d2 :
  Delta h1 h0 = Ok d1 -> Delta h2 h1 = Ok d2 ->
  Delta h2 h0 = Ok (health_add d1 d2).
Proof.
  rewrite !Delta_Ok. intros (L1 & _ & E1) (L2 & B2 & E2).
  split_and!; [by etransitivity|done|].
  rewrite <- E2, <- E1. unfold health_add; simpl. f_equal; lia.
Qed.

Lemma Delta_telescopes_witness :
  Delta (mkHealth 9 5 0 0 0 0 2 7 900 true) zero_health
  = Ok (health_add (mkHealth 4 2 0 0 0 0 1 3 400 false) (mkHealth 5 3 0 0 0 0 1 4 500 true)).
Proof.
  apply (Delta_telescopes _ (mkHealth 4 2 0 0 0 0 1 3 400 false)); reflexivity.
Defined.

(** C2. [ReadFrame] inverts [WriteFrame]: whenever the write succeeds on a
    connection that obeys the [io.Writer] contract, however it splits the
    writes, exactly one frame was appended to the stream, and a reader that
    finds it there (with any bytes after it) returns the value and leaves the
    bytes after it. *)
Theorem WriteFrame_ReadFrame {W V} (write : W -> list Z -> (Z * bool) * W)
    (sent : W -> list Z) (marshal : V -> option (list Z))
    (decode : list Z -> option (V * list Z)) (at_eof : list Z -> bool)
    (Hwriter : writer_contract write sent)
    (Hcodec : forall v p, marshal v = Some p ->
       p <> [] /\ exists rest, decode p = Some (v, rest) /\ at_eof rest = true)
    w v w' :
  WriteFrame write marshal w v = Some (w', Ok tt) ->
  exists frame, sent w' = sent w ++ frame /\
    forall rest, ReadFrame decode at_eof (frame ++ rest) = Ok (v, rest).
Proof.
  unfold WriteFrame. destruct (marshal v) as [p|] eqn:Em; [|discriminate].
  destruct (Hcodec _ _ Em) as (Hp & drest & Hd & He).
  case_if; [discriminate|]. bool_to_prop. unfold writeAll, lenZ in *.
  destruct (writeAll_spec write sent (length (be32 (Z.of_nat (length p)))) w
    (be32 (Z.of_nat (length p))) Hwriter ltac:(done)) as (w1 & r1 & -> & k1 & Hs1 & Hk1).
  destruct r1 as [[]|]; [|discriminate]. intros Hw.
  destruct (writeAll_spec write sent (length p) w1 p Hwriter ltac:(done))
    as (w2 & r2 & Hr2 & k2 & Hs2 & Hk2).
  rewrite Hw in Hr2. injection Hr2 as <- <-.
  rewrite take_ge in Hs1, Hs2 by auto.
  exists (be32 (Z.of_nat (length p)) ++ p). split.
  { by rewrite Hs2, Hs1, app_assoc. }
  intros rest. unfold ReadFrame, read_full.
  rewrite <- app_assoc. simpl length at 1.
  case_if; [|apply Nat.leb_gt in E0; rewrite length_app in E0; simpl in E0; lia].
  rewrite take_app_length', drop_app_length' by done.
  rewrite be32_value_be32 by (unfold MaxFrameSize in *; lia).
  destruct p as [|x p]; [done|]. set (q := x :: p) in *.
  assert (Hq : Z.of_nat (length q) <> 0) by (unfold q; simpl; lia).
  apply Z.eqb_neq in Hq. rewrite Hq. apply Z.ltb_ge in E. rewrite E. simpl orb.
  rewrite Nat2Z.id. case_if; [|apply Nat.leb_gt in E1; rewrite length_app in E1; lia].
  rewrite take_app_length, drop_app_length, Hd, He. done.
Qed.

Lemma WriteFrame_ReadFrame_witness :
  let write (w p : list Z) := ((Z.min 3 (lenZ p), false), w ++ take (Z.to_nat (Z.min 3 (lenZ p))) p) in
  let marshal (v : list Z) := if decide (v = []) then None else Some v in
  exists frame, frame = [0; 0; 0; 5; 10; 20; 30; 40; 50] /\
    forall rest, ReadFrame (fun p => Some (p, [])) (fun r => bool_decide (r = []))
      (frame ++ rest) = Ok ([10; 20; 30; 40; 50], rest).
Proof.
  intros write marshal.
  assert (Hw : writer_contract write id).
  { intros w p n failed w' [= <- <- <-]. unfold lenZ. split; [lia|done]. }
  assert (Hc : forall v p, marshal v = Some p -> p <> [] /\
     exists rest, (fun p => Some (p, @nil Z)) p = Some (v, rest)
       /\ (fun r => bool_decide (r = @nil Z)) rest = true).
  { intros v p. unfold marshal. destruct (decide (v = [])); [discriminate|].
    intros [= <-]. split; [done|]. by exists []. }
  destruct (WriteFrame_ReadFrame write id marshal _ _ Hw Hc [] [10; 20; 30; 40; 50]
    [0; 0; 0; 5; 10; 20; 30; 40; 50] ltac:(vm_compute; reflexivity)) as (frame & Hf & Hr).
  exists frame. split; [exact (eq_sym Hf)|exact Hr].
Defined.

(** [writeAll] never runs out of iterations, on any writer that obeys the
    contract; what it leaves on the stream is a prefix of the payload, and the
    whole payload when it reports success. *)
Theorem writeAll_total {W} (write : W -> list Z -> (Z * bool) * W) (sent : W -> list Z)
    (Hwriter : writer_contract write sent) w p :
  exists w' r, writeAll write w p = Some (w', r) /\
    exists k, sent w' = sent w ++ take k p /\ (r = Ok tt -> sent w' = sent w ++ p).
Proof.
  destruct (writeAll_spec write sent (length p) w p Hwriter ltac:(done))
    as (w' & r & Hr & k & Hs & Hk).
  exists w', r. split; [done|]. exists k. split; [done|]. intros Ht.
  by rewrite Hs, take_ge by auto.
Qed.

Lemma writeAll_total_witness :
  let write (w p : list Z) := ((1, bool_decide (length w = 2%nat)), w ++ take 1 p) in
  exists w' r, writeAll (fun w p => if decide (p = []) then ((0, true), w) else write w p)
      [] [7; 8; 9] = Some (w', r) /\ r = Err FWrite /\
  exists k, w' = [] ++ take k [7; 8; 9].
Proof.
  intros write.
  assert (Hw : writer_contract
    (fun w p => if decide (p = []) then ((0, true), w) else write w p) id).
  { intros w p n failed w'. simpl. case_decide; intros [= <- <- <-]; unfold lenZ.
    - subst. split; [simpl; lia|]. by rewrite app_nil_r.
    - destruct p; [done|]. split; [simpl; lia|done]. }
  destruct (writeAll_total _ id Hw [] [7; 8; 9]) as (w' & r & Hr & k & Hk & _).
  exists w', r. split; [exact Hr|]. split; [vm_compute in Hr; congruence|].
  exists k. exact Hk.
Defined.
