(* ===== verification/Packet.v ===== *)
(** * Packet decoding

    [internal/sensor/packet.go]: Ethernet with up to two VLAN tags, IPv4, IPv6
    with its chain of extension headers, and the transport tuple.  Frames come
    from the network, so every read of the buffer is a checked operation here:
    a read outside the slice is the outcome [EPanic]. *)

From S2P Require Export Protocol.

Inductive decode_error :=
| EDirection | ETruncatedEthernet | ETruncatedVLAN | EUnsupportedEtherType
| EIPv4 | EIPv4HeaderLength | EIPv4TotalLength
| EIPv6 | EIPv6PayloadLength | ETruncatedExtension | EExtensionLength
| ETruncatedFragment | ETruncatedAH | EAHLength | ETransportOffset
| EPanic.

Definition etherTypeIPv4 : Z := 2048.
Definition etherTypeIPv6 : Z := 34525.
Definition etherTypeVLAN : Z := 33024.
Definition etherTypeQinQ : Z := 34984.

(** [p_local_port] and the rest are the fields that [decodeTransport] fills. *)
Record Packet := mkPacket {
  p_direction : string;
  p_remote_ip : addr;
  p_protocol : string;
  p_local_port : Z;
  p_remote_port : Z;
  p_tcp_flags : Z;
  p_bytes : Z }.

Definition set_bytes (n : Z) (p : Packet) : Packet :=
  mkPacket (p_direction p) (p_remote_ip p) (p_protocol p) (p_local_port p)
    (p_remote_port p) (p_tcp_flags p) n.

(** ** Checked reads *)

Definition read8 (data : list Z) (i : Z) : result decode_error Z :=
  if (0 <=? i) && (i <? lenZ data)
  then Ok (nth (Z.to_nat i) data 0) else Err EPanic.

Definition slice (data : list Z) (lo hi : Z) : result decode_error (list Z) :=
  if (0 <=? lo) && (lo <=? hi) && (hi <=? lenZ data)
  then Ok (take (Z.to_nat (hi - lo)) (drop (Z.to_nat lo) data)) else Err EPanic.

(** [binary.BigEndian.Uint16(data[i:i+2])]. *)
Definition read16 (data : list Z) (i : Z) : result decode_error Z :=
  let? hi := read8 data i in
  let? lo := read8 data (i + 1) in
  Ok (Z.lor (Z.shiftl hi 8) lo).

(** [netip.AddrFrom4] and [netip.AddrFrom16] of a slice of the right length. *)
Definition addr_from4 (b : list Z) : result decode_error addr :=
  match b with [a; b; c; d] => Ok (A4 a b c d) | _ => Err EPanic end.

Fixpoint words_of (b : list Z) : list Z :=
  match b with
  | hi :: lo :: b => Z.lor (Z.shiftl hi 8) lo :: words_of b
  | _ => []
  end.

Definition addr_from16 (b : list Z) : result decode_error addr :=
  if lenZ b =? 16 then Ok (A6 (words_of b) "") else Err EPanic.

(** ** Transport *)

Definition set_transport (protocol : string) (lp rp flags : Z) (p : Packet) : Packet :=
  mkPacket (p_direction p) (p_remote_ip p) protocol lp rp flags (p_bytes p).

(** The two ports as the code reads them, by direction. *)
Definition read_ports (direction : string) (data : list Z) : result decode_error (Z * Z) :=
  if direction =?s DirectionInbound then
    let? l := read16 data 2 in let? r := read16 data 0 in Ok (l, r)
  else
    let? l := read16 data 0 in let? r := read16 data 2 in Ok (l, r).

Definition decodeTransport (p : Packet) (protocol : Z) (data : list Z) (parsePorts : bool)
    : result decode_error Packet :=
  if protocol =? 6 then
    if parsePorts && (14 <=? lenZ data) then
      let? ports := read_ports (p_direction p) data in
      let? flags := read8 data 13 in
      Ok (set_transport "tcp" (fst ports) (snd ports) flags p)
    else Ok (set_transport "tcp" (p_local_port p) (p_remote_port p) (p_tcp_flags p) p)
  else if protocol =? 17 then
    if parsePorts && (4 <=? lenZ data) then
      let? ports := read_ports (p_direction p) data in
      Ok (set_transport "udp" (fst ports) (snd ports) (p_tcp_flags p) p)
    else Ok (set_transport "udp" (p_local_port p) (p_remote_port p) (p_tcp_flags p) p)
  else
    let name := if protocol =? 1 then "icmp" else if protocol =? 58 then "icmpv6"
                else "other" in
    Ok (set_transport name (p_local_port p) (p_remote_port p) (p_tcp_flags p) p).

Definition new_packet (direction : string) (source destination : addr) : Packet :=
  mkPacket direction
    (if direction =?s DirectionInbound then source else destination) "" 0 0 0 0.

(** ** IPv4 *)

Definition decodeIPv4 (data : list Z) (direction : string) : result decode_error Packet :=
  fail_if lenZ data <? 20 with EIPv4 ;;
  let? b0 := read8 data 0 in
  fail_if negb (Z.shiftr b0 4 =? 4) with EIPv4 ;;
  let headerLen := Z.land b0 15 * 4 in
  fail_if (headerLen <? 20) || (lenZ data <? headerLen) with EIPv4HeaderLength ;;
  let? totalLen := read16 data 2 in
  fail_if (totalLen <? headerLen) || (lenZ data <? totalLen) with EIPv4TotalLength ;;
  let? sbytes := slice data 12 16 in
  let? source := addr_from4 sbytes in
  let? dbytes := slice data 16 20 in
  let? destination := addr_from4 dbytes in
  let packet := new_packet direction source destination in
  let? frag := read16 data 6 in
  let fragmentOffset := Z.land frag 8191 in
  let? transport := slice data headerLen totalLen in
  let? protocol := read8 data 9 in
  decodeTransport packet protocol transport (fragmentOffset =? 0).

(** ** IPv6 *)

(** How the walk over the extension headers ends: at a transport header, or
    at the header type of a fragment that is not the first. *)
Inductive walk :=
| AtTransport (next offset : Z)
| AtFragment (next : Z).

(** [for extensions := 0; extensions < 8; extensions++], with [n] iterations
    left.  [firstFragment] stays true on every path that goes on. *)
Fixpoint walk_extensions (n : nat) (data : list Z) (last next offset : Z)
    : result decode_error walk :=
  match n with
  | O => Ok (AtTransport next offset)
  | S n =>
      if (next =? 0) || (next =? 43) || (next =? 60) then
        fail_if last <? offset + 2 with ETruncatedExtension ;;
        let? len8 := read8 data (offset + 1) in
        let length := (len8 + 1) * 8 in
        fail_if (length <? 8) || (last <? offset + length) with EExtensionLength ;;
        let? next := read8 data offset in
        walk_extensions n data last next (offset + length)
      else if next =? 44 then
        fail_if last <? offset + 8 with ETruncatedFragment ;;
        let? fragment := read16 data (offset + 2) in
        let? next := read8 data offset in
        if Z.land fragment 65528 =? 0
        then walk_extensions n data last next (offset + 8)
        else Ok (AtFragment next)
      else if next =? 51 then
        fail_if last <? offset + 2 with ETruncatedAH ;;
        let? len8 := read8 data (offset + 1) in
        let length := (len8 + 2) * 4 in
        fail_if (length <? 8) || (last <? offset + length) with EAHLength ;;
        let? next := read8 data offset in
        walk_extensions n data last next (offset + length)
      else Ok (AtTransport next offset)
  end.

Definition decodeIPv6 (data : list Z) (direction : string) : result decode_error Packet :=
  fail_if lenZ data <? 40 with EIPv6 ;;
  let? b0 := read8 data 0 in
  fail_if negb (Z.shiftr b0 4 =? 6) with EIPv6 ;;
  let? payloadLen := read16 data 4 in
  fail_if negb (payloadLen =? 0) && (lenZ data <? 40 + payloadLen)
    with EIPv6PayloadLength ;;
  let last := if payloadLen =? 0 then lenZ data else 40 + payloadLen in
  let? sbytes := slice data 8 24 in
  let? source := addr_from16 sbytes in
  let? dbytes := slice data 24 40 in
  let? destination := addr_from16 dbytes in
  let packet := new_packet direction source destination in
  let? next := read8 data 6 in
  let? w := walk_extensions 8 data last next 40 in
  match w with
  | AtFragment next => decodeTransport packet next [] false
  | AtTransport next offset =>
      fail_if last <? offset with ETransportOffset ;;
      let? transport := slice data offset last in
      decodeTransport packet next transport true
  end.

(** ** Ethernet *)

(** [for tags := 0; ... && tags < 2; tags++]. *)
Fixpoint skip_tags (tags : nat) (frame : list Z) (etherType offset : Z)
    : result decode_error (Z * Z) :=
  match tags with
  | O => Ok (etherType, offset)
  | S tags =>
      if (etherType =? etherTypeVLAN) || (etherType =? etherTypeQinQ) then
        fail_if lenZ frame <? offset + 4 with ETruncatedVLAN ;;
        let? etherType := read16 frame (offset + 2) in
        skip_tags tags frame etherType (offset + 4)
      else Ok (etherType, offset)
  end.

Definition DecodeEthernet (frame : list Z) (direction : string)
    : result decode_error Packet :=
  fail_if negb (direction =?s DirectionInbound) && negb (direction =?s DirectionOutbound)
    with EDirection ;;
  fail_if lenZ frame <? 14 with ETruncatedEthernet ;;
  let? etherType := read16 frame 12 in
  let? p := skip_tags 2 frame etherType 14 in
  let '(etherType, offset) := p in
  let? packet :=
    if etherType =? etherTypeIPv4 then
      let? data := slice frame offset (lenZ frame) in decodeIPv4 data direction
    else if etherType =? etherTypeIPv6 then
      let? data := slice frame offset (lenZ frame) in decodeIPv6 data direction
    else Err EUnsupportedEtherType in
  Ok (set_bytes (lenZ frame) packet).

(** ** Safety: a computation that never reads outside its buffer *)

Definition byte (b : Z) : Prop := 0 <= b < 256.

Definition safe {A} (r : result decode_error A) (P : A -> Prop) : Prop :=
  match r with Ok a => P a | Err e => e <> EPanic end.

Lemma safe_bind {A B} (m : result decode_error A) (k : A -> result decode_error B) P Q :
  safe m P -> (forall a, P a -> safe (k a) Q) -> safe (rbind m k) Q.
Proof. destruct m; simpl; auto. Qed.

Lemma safe_fail_if {A} (b : bool) e (k : result decode_error A) P :
  e <> EPanic -> (b = false -> safe k P) -> safe (if b then Err e else k) P.
Proof. destruct b; simpl; auto. Qed.

Lemma safe_weaken {A} (r : result decode_error A) (P Q : A -> Prop) :
  safe r P -> (forall a, P a -> Q a) -> safe r Q.
Proof. destruct r; simpl; auto. Qed.

Lemma safe_read8 data i :
  Forall byte data -> 0 <= i < lenZ data -> safe (read8 data i) byte.
Proof.
  intros Hd Hi. unfold read8. case_if; [|bool_to_prop; apply andb_false_iff in E;
    destruct E; bool_to_prop; lia].
  simpl. rewrite Forall_forall in Hd. apply Hd, list_elem_of_In, nth_In.
  unfold lenZ in *. lia.
Qed.

Lemma safe_read16 data i :
  Forall byte data -> 0 <= i -> i + 1 < lenZ data ->
  safe (read16 data i) (fun v => 0 <= v < 65536).
Proof.
  intros Hd Hi Hl. unfold read16.
  eapply safe_bind; [apply safe_read8; [done|lia]|]. intros hi Hhi.
  eapply safe_bind; [apply safe_read8; [done|lia]|]. intros lo Hlo.
  simpl. unfold byte in *. rewrite (lor_shiftl_add _ _ 8); lia.
Qed.

Lemma safe_slice data lo hi :
  Forall byte data -> 0 <= lo <= hi -> hi <= lenZ data ->
  safe (slice data lo hi) (fun s => Forall byte s /\ lenZ s = hi - lo).
Proof.
  intros Hd Hlo Hhi. unfold slice.
  replace ((0 <=? lo) && (lo <=? hi) && (hi <=? lenZ data)) with true
    by (symmetry; rewrite !andb_true_iff, !Z.leb_le; lia).
  simpl. split; [by apply Forall_take, Forall_drop|].
  unfold lenZ in *. rewrite length_take, length_drop. lia.
Qed.

Lemma words_of_ok n : forall b, length b = (2 * n)%nat -> Forall byte b ->
  length (words_of b) = n /\ Forall (fun w => 0 <= w < 65536) (words_of b).
Proof.
  induction n as [|n IH]; intros b Hl Hb.
  - destruct b; [simpl; auto|discriminate].
  - destruct b as [|hi [|lo b]]; [simpl in Hl; lia..|].
    apply Forall_cons in Hb as [Hhi Hb]. apply Forall_cons in Hb as [Hlo Hb].
    destruct (IH b) as [Hn Hf]; [simpl in Hl; lia|done|].
    simpl. split; [lia|]. constructor; [|done].
    unfold byte in *. rewrite (lor_shiftl_add _ _ 8); lia.
Qed.

Lemma safe_addr4 b :
  Forall byte b /\ lenZ b = 4 -> safe (addr_from4 b) unzoned.
Proof.
  unfold lenZ. intros [Hb Hl]. do 5 (destruct b as [|? b]; simpl in Hl; try lia).
  rewrite !Forall_cons in Hb. unfold byte in Hb. unfold unzoned. simpl. tauto.
Qed.

Lemma safe_addr16 b :
  Forall byte b /\ lenZ b = 16 -> safe (addr_from16 b) unzoned.
Proof.
  intros [Hb Hl]. unfold addr_from16. rewrite Hl. simpl.
  split; [|done]. apply words_of_ok; [unfold lenZ in Hl; lia|done].
Qed.

(** What the decoder promises of a packet, apart from its length. *)
Definition packet_ok (direction : string) (p : Packet) : Prop :=
  p_direction p = direction /\ unzoned (p_remote_ip p) /\
  0 <= p_local_port p < 65536 /\ 0 <= p_remote_port p < 65536 /\
  0 <= p_tcp_flags p < 256.

Definition no_ports (p : Packet) : Prop :=
  p_local_port p = 0 /\ p_remote_port p = 0 /\ p_tcp_flags p = 0.

Lemma safe_read_ports direction data :
  Forall byte data -> 4 <= lenZ data ->
  safe (read_ports direction data)
    (fun ports => 0 <= fst ports < 65536 /\ 0 <= snd ports < 65536).
Proof.
  intros Hd Hl. unfold read_ports. case_if;
    (eapply safe_bind; [apply safe_read16; [done|lia|lia]|]; intros l Hlp;
     eapply safe_bind; [apply safe_read16; [done|lia|lia]|]; intros r Hrp; simpl; auto).
Qed.

Lemma safe_decodeTransport direction p protocol data parsePorts :
  Forall byte data -> packet_ok direction p ->
  safe (decodeTransport p protocol data parsePorts)
    (fun p' => packet_ok direction p' /\ known_protocol (p_protocol p') = true /\
       (parsePorts = false -> no_ports p -> no_ports p')).
Proof.
  intros Hd Hp. unfold decodeTransport, packet_ok, no_ports in *.
  repeat case_if; simpl; auto; bool_to_prop; subst.
  - eapply safe_bind; [apply safe_read_ports; [done|lia]|]. intros ports Hpo.
    eapply safe_bind; [apply safe_read8; [done|lia]|]. intros fl Hfl.
    unfold byte in *. simpl. split; [tauto|]. split; [done|discriminate].
  - eapply safe_bind; [apply safe_read_ports; [done|lia]|]. intros ports Hpo.
    simpl in *. split; [tauto|]. split; [done|discriminate].
Qed.

Lemma new_packet_ok direction source destination :
  unzoned source -> unzoned destination ->
  packet_ok direction (new_packet direction source destination) /\
  no_ports (new_packet direction source destination).
Proof.
  intros. unfold packet_ok, no_ports, new_packet. simpl. case_if; split_and!; auto; lia.
Qed.

(** Steps through a decoder: binds by the safety lemmas, guards by their
    conditions. *)
Ltac safe_step :=
  lazymatch goal with
  | |- safe (rbind _ _) _ => eapply safe_bind
  | |- safe (if _ then Err _ else _) _ => apply safe_fail_if; [discriminate|intro; bool_to_prop]
  end.

Lemma header_len_range b : byte b -> 0 <= Z.land b 15 * 4 <= 60.
Proof.
  intros _. change 15 with (Z.ones 4). rewrite Z.land_ones by lia.
  pose proof (Z.mod_pos_bound b (2 ^ 4)). lia.
Qed.

Lemma safe_decodeIPv4 data direction :
  Forall byte data ->
  safe (decodeIPv4 data direction)
    (fun p => packet_ok direction p /\ known_protocol (p_protocol p) = true).
Proof.
  intros Hd. unfold decodeIPv4.
  safe_step. safe_step; [apply safe_read8; [done|lia]|]. intros b0 Hb0.
  pose proof (header_len_range b0 Hb0). cbv zeta.
  safe_step. safe_step.
  safe_step; [apply safe_read16; [done|lia|lia]|]. intros totalLen Ht. safe_step.
  safe_step; [apply safe_slice; [done|lia|lia]|]. intros sb Hsb.
  safe_step; [apply safe_addr4; exact Hsb|]. intros src Hsrc.
  safe_step; [apply safe_slice; [done|lia|lia]|]. intros db Hdb.
  safe_step; [apply safe_addr4; exact Hdb|]. intros dst Hdst.
  safe_step; [apply safe_read16; [done|lia|lia]|]. intros frag Hfrag.
  safe_step; [apply safe_slice; [done|lia|lia]|]. intros tr Htr.
  safe_step; [apply safe_read8; [done|lia]|]. intros proto Hproto.
  eapply safe_weaken; [apply (safe_decodeTransport direction); [apply Htr|]|cbv beta; tauto].
  by apply new_packet_ok.
Qed.

Lemma safe_walk n : forall data last next offset,
  Forall byte data -> last <= lenZ data -> 0 <= offset ->
  safe (walk_extensions n data last next offset)
    (fun w => match w with
              | AtTransport _ offset' => offset <= offset' /\ (offset' <= last \/ offset' = offset)
              | AtFragment _ => True end).
Proof.
  induction n as [|n IH]; intros data last next offset Hd Hlast Hoff; [simpl; lia|].
  cbn [walk_extensions]. case_if; [|case_if; [|case_if; [|simpl; lia]]].
  - safe_step. safe_step; [apply safe_read8; [done|lia]|]. intros len8 Hl.
    unfold byte in Hl. cbv zeta. safe_step.
    safe_step; [apply safe_read8; [done|lia]|]. intros next' _.
    eapply safe_weaken; [apply IH; [done|lia|lia]|]. intros [?|?]; lia || done.
  - safe_step. safe_step; [apply safe_read16; [done|lia|lia]|]. intros fr Hfr.
    safe_step; [apply safe_read8; [done|lia]|]. intros next' _.
    case_if; [|done].
    eapply safe_weaken; [apply IH; [done|lia|lia]|]. intros [?|?]; lia || done.
  - safe_step. safe_step; [apply safe_read8; [done|lia]|]. intros len8 Hl.
    unfold byte in Hl. cbv zeta. safe_step.
    safe_step; [apply safe_read8; [done|lia]|]. intros next' _.
    eapply safe_weaken; [apply IH; [done|lia|lia]|]. intros [?|?]; lia || done.
Qed.

Lemma safe_decodeIPv6 data direction :
  Forall byte data ->
  safe (decodeIPv6 data direction)
    (fun p => packet_ok direction p /\ known_protocol (p_protocol p) = true).
Proof.
  intros Hd. unfold decodeIPv6.
  safe_step. safe_step; [apply safe_read8; [done|lia]|]. intros b0 Hb0.
  safe_step. safe_step; [apply safe_read16; [done|lia|lia]|]. intros pl Hpl. safe_step.
  set (last := if pl =? 0 then lenZ data else 40 + pl).
  assert (Hlast : 40 <= last <= lenZ data).
  { cbv beta in *. unfold last. match goal with H : _ && _ = false |- _ => rename H into Hg end.
    destruct (pl =? 0) eqn:E; simpl in Hg; bool_to_prop; lia. }
  safe_step; [apply safe_slice; [done|lia|lia]|]. intros sb Hsb.
  safe_step; [apply safe_addr16; exact Hsb|]. intros src Hsrc.
  safe_step; [apply safe_slice; [done|lia|lia]|]. intros db Hdb.
  safe_step; [apply safe_addr16; exact Hdb|]. intros dst Hdst.
  safe_step; [apply safe_read8; [done|lia]|]. intros next Hnext.
  safe_step; [apply safe_walk; [done|lia|lia]|].
  destruct (new_packet_ok direction src dst Hsrc Hdst) as [Hp Hn].
  intros [nx off|nx] Hw.
  - safe_step. safe_step; [apply safe_slice; [done|lia|lia]|]. intros tr [Htr _].
    eapply safe_weaken; [apply safe_decodeTransport; [done|exact Hp]|tauto].
  - eapply safe_weaken; [apply safe_decodeTransport; [constructor|exact Hp]|tauto].
Qed.

Lemma safe_skip_tags n : forall frame etherType offset,
  Forall byte frame -> 0 <= offset <= lenZ frame ->
  safe (skip_tags n frame etherType offset) (fun r => 0 <= snd r <= lenZ frame).
Proof.
  induction n as [|n IH]; intros frame et off Hf Ho; [done|].
  cbn [skip_tags]. case_if; [|done]. safe_step.
  safe_step; [apply safe_read16; [done|lia|lia]|]. intros et' _. apply IH; [done|lia].
Qed.

Lemma safe_DecodeEthernet frame direction :
  Forall byte frame ->
  safe (DecodeEthernet frame direction)
    (fun p => packet_ok direction p /\ known_protocol (p_protocol p) = true /\
              p_bytes p = lenZ frame /\ 14 <= lenZ frame /\
              (direction = DirectionInbound \/ direction = DirectionOutbound)).
Proof.
  intros Hf. unfold DecodeEthernet. apply safe_fail_if; [discriminate|]. intros Hd.
  assert (Hdir : direction = DirectionInbound \/ direction = DirectionOutbound).
  { apply andb_false_iff in Hd as [Hd|Hd]; apply negb_false_iff, String.eqb_eq in Hd; auto. }
  safe_step.
  safe_step; [apply safe_read16; [done|lia|lia]|]. intros et _.
  safe_step; [apply safe_skip_tags; [done|lia]|]. intros [et' off] Ho. simpl in Ho.
  eapply safe_bind with (P := fun p => packet_ok direction p /\ known_protocol (p_protocol p) = true).
  - case_if; [|case_if; [|simpl; discriminate]];
      (safe_step; [apply safe_slice; [done|lia|lia]|]; intros data [Hdata _]).
    + by apply safe_decodeIPv4.
    + by apply safe_decodeIPv6.
  - intros p [Hp Hk]. simpl. unfold packet_ok in *. simpl. tauto.
Qed.

(** ** A reference encoder

    Frames as a sender builds them; the decoder is compared with it below. *)

Definition be16 (n : Z) : list Z := [Z.shiftr n 8; Z.land n 255].

(** A transport header and what follows it. *)
Inductive segment :=
| STcp (sp dp : Z) (middle : list Z) (flags : Z) (rest : list Z)
| SUdp (sp dp : Z) (rest : list Z)
| SOther (protocol : Z) (body : list Z).

Definition segment_ok (s : segment) : Prop :=
  match s with
  | STcp sp dp middle _ _ => 0 <= sp < 65536 /\ 0 <= dp < 65536 /\ length middle = 9%nat
  | SUdp sp dp _ => 0 <= sp < 65536 /\ 0 <= dp < 65536
  | SOther protocol _ => protocol <> 6 /\ protocol <> 17
  end.

Definition segment_protocol (s : segment) : Z :=
  match s with STcp _ _ _ _ _ => 6 | SUdp _ _ _ => 17 | SOther p _ => p end.

Definition segment_bytes (s : segment) : list Z :=
  match s with
  | STcp sp dp middle flags rest => be16 sp ++ be16 dp ++ middle ++ flags :: rest
  | SUdp sp dp rest => be16 sp ++ be16 dp ++ rest
  | SOther _ body => body
  end.

Definition protocol_name (p : Z) : string :=
  if p =? 6 then "tcp" else if p =? 17 then "udp" else if p =? 1 then "icmp"
  else if p =? 58 then "icmpv6" else "other".

(** The packet that an observer should see; [complete] says that the transport
    header is there (a first fragment or an unfragmented packet). *)
Definition observed (direction : string) (source destination : addr) (s : segment)
    (complete : bool) (size : Z) : Packet :=
  let inbound := direction =?s DirectionInbound in
  let '(sp, dp, flags) :=
    match s with
    | STcp sp dp _ flags _ => if complete then (sp, dp, flags) else (0, 0, 0)
    | SUdp sp dp _ => if complete then (sp, dp, 0) else (0, 0, 0)
    | SOther _ _ => (0, 0, 0)
    end in
  mkPacket direction (if inbound then source else destination)
    (protocol_name (segment_protocol s))
    (if inbound then dp else sp) (if inbound then sp else dp) flags size.

(** VLAN tags: protocol identifier and control information. *)
Definition tag_bytes (tags : list (Z * Z)) : list Z :=
  t ← tags; be16 (fst t) ++ be16 (snd t).

Definition ethernet_frame (macs : list Z) (tags : list (Z * Z)) (etherType : Z)
    (payload : list Z) : list Z :=
  macs ++ tag_bytes tags ++ be16 etherType ++ payload.

(** IPv4 with options; [fragment] is the flags-and-offset word. *)
Definition ipv4_packet (tos : Z) (ident : Z * Z) (fragment ttl : Z) (checksum : Z * Z)
    (src dst : Z * Z * Z * Z) (options body : list Z) (protocol : Z) : list Z :=
  let '(s1, s2, s3, s4) := src in
  let '(d1, d2, d3, d4) := dst in
  let header := 20 + lenZ options in
  [64 + header / 4; tos] ++ be16 (header + lenZ body) ++ [fst ident; snd ident] ++
  be16 fragment ++ [ttl; protocol; fst checksum; snd checksum;
                    s1; s2; s3; s4; d1; d2; d3; d4] ++ options ++ body.

(** IPv6 extension headers. *)
Inductive extension :=
| XOptions (kind len8 : Z) (body : list Z)
| XFragment (reserved offset : Z) (ident : list Z)
| XAuth (len8 : Z) (body : list Z).

Definition extension_type (x : extension) : Z :=
  match x with XOptions k _ _ => k | XFragment _ _ _ => 44 | XAuth _ _ => 51 end.

Definition extension_ok (x : extension) : Prop :=
  match x with
  | XOptions kind len8 body =>
      (kind = 0 \/ kind = 43 \/ kind = 60) /\ 0 <= len8 /\ lenZ body = (len8 + 1) * 8 - 2
  | XFragment _ offset ident => 0 <= offset < 65536 /\ lenZ ident = 4
  | XAuth len8 body => 0 <= len8 /\ lenZ body = (len8 + 2) * 4 - 2
  end.

Definition chain_type (xs : list extension) (protocol : Z) : Z :=
  match xs with [] => protocol | x :: _ => extension_type x end.

Definition extension_bytes (x : extension) (next : Z) : list Z :=
  match x with
  | XOptions _ len8 body => next :: len8 :: body
  | XFragment reserved offset ident => next :: reserved :: be16 offset ++ ident
  | XAuth len8 body => next :: len8 :: body
  end.

Fixpoint chain_bytes (xs : list extension) (protocol : Z) : list Z :=
  match xs with
  | [] => []
  | x :: xs => extension_bytes x (chain_type xs protocol) ++ chain_bytes xs protocol
  end.

(** A fragment other than the first: its offset is not zero. *)
Definition later_fragment (x : extension) : bool :=
  match x with XFragment _ offset _ => negb (Z.land offset 65528 =? 0) | _ => false end.

Definition ipv6_packet (flow : Z * Z * Z) (hops : Z) (src dst : list Z)
    (xs : list extension) (body : list Z) (protocol : Z) : list Z :=
  let payload := chain_bytes xs protocol ++ body in
  [96; fst (fst flow); snd (fst flow); snd flow] ++ be16 (lenZ payload) ++
  [chain_type xs protocol; hops] ++ src ++ dst ++ payload.

(** ** Reading what was written *)

Lemma read8_lookup data i b :
  0 <= i -> data !! Z.to_nat i = Some b -> read8 data i = Ok b.
Proof.
  intros Hi Hl. pose proof (lookup_lt_Some _ _ _ Hl). unfold read8, lenZ.
  replace ((0 <=? i) && (i <? Z.of_nat (length data))) with true
    by (symmetry; apply andb_true_iff; split; [apply Z.leb_le|apply Z.ltb_lt]; lia).
  f_equal. rewrite nth_lookup, Hl. done.
Qed.

Lemma read8_app pre b rest : read8 (pre ++ b :: rest) (lenZ pre) = Ok b.
Proof.
  apply read8_lookup; unfold lenZ; [lia|]. rewrite Nat2Z.id, lookup_app_r, Nat.sub_diag by lia.
  done.
Qed.

Lemma be16_join n : 0 <= n < 65536 -> Z.lor (Z.shiftl (Z.shiftr n 8) 8) (Z.land n 255) = n.
Proof.
  intros Hn. rewrite land_255, Z.shiftr_div_pow2 by lia.
  pose proof (Z.mod_pos_bound n 256). rewrite (lor_shiftl_add _ _ 8) by lia.
  change (2 ^ 8) with 256. pose proof (Z.div_mod n 256). lia.
Qed.

Lemma read16_lookup data i n :
  0 <= i -> 0 <= n < 65536 ->
  data !! Z.to_nat i = Some (Z.shiftr n 8) -> data !! S (Z.to_nat i) = Some (Z.land n 255) ->
  read16 data i = Ok n.
Proof.
  intros Hi Hn H1 H2. unfold read16. rewrite (read8_lookup data i (Z.shiftr n 8)) by done.
  simpl. rewrite (read8_lookup data (i + 1) (Z.land n 255)).
  - simpl. by rewrite be16_join.
  - lia.
  - by replace (Z.to_nat (i + 1)) with (S (Z.to_nat i)) by lia.
Qed.

Lemma read16_app pre n rest :
  0 <= n < 65536 -> read16 (pre ++ be16 n ++ rest) (lenZ pre) = Ok n.
Proof.
  intros Hn. unfold lenZ. apply read16_lookup; [lia|done|..]; rewrite Nat2Z.id, lookup_app_r by lia.
  - by rewrite Nat.sub_diag.
  - by replace (S (length pre) - length pre)%nat with 1%nat by lia.
Qed.

Lemma slice_app pre mid rest hi :
  hi = lenZ pre + lenZ mid -> slice (pre ++ mid ++ rest) (lenZ pre) hi = Ok mid.
Proof.
  intros ->. unfold slice, lenZ. rewrite !length_app.
  replace (_ && _) with true by (symmetry; rewrite !andb_true_iff, !Z.leb_le; lia).
  rewrite Nat2Z.id, drop_app_length.
  replace (Z.to_nat _) with (length mid) by lia. by rewrite take_app_length.
Qed.

(** The transport decoder sees what [observed] says. *)
Lemma decodeTransport_observed direction src dst s complete size :
  segment_ok s ->
  rbind (decodeTransport (new_packet direction src dst) (segment_protocol s)
           (segment_bytes s) complete) (fun p => Ok (set_bytes size p))
  = Ok (observed direction src dst s complete size).
Proof.
  intros Hs. unfold decodeTransport.
  destruct s as [sp dp middle flags rest|sp dp rest|p body]; cbn [segment_protocol].
  - destruct Hs as (Hsp & Hdp & Hm). simpl (6 =? 6). cbv iota.
    destruct complete; [|cbn [andb rbind]; unfold observed, new_packet; destruct (direction =?s DirectionInbound); reflexivity]. cbn [andb].
    replace (14 <=? _) with true
      by (symmetry; apply Z.leb_le; unfold lenZ; simpl; rewrite !length_app; simpl; lia).
    cbn [segment_bytes]. unfold read_ports, observed. cbn [new_packet p_direction].
    rewrite (read16_lookup _ 0 sp) by (done || lia).
    rewrite (read16_lookup _ 2 dp) by (done || lia).
    rewrite (read8_lookup _ 13 flags); [|lia|].
    + unfold new_packet; destruct (direction =?s DirectionInbound); reflexivity.
    + change (Z.to_nat 13) with (4 + 9)%nat. rewrite <- Hm.
      change ((middle ++ flags :: rest) !! length middle = Some flags).
      rewrite lookup_app_r, Nat.sub_diag by lia. done.
  - destruct Hs as (Hsp & Hdp). simpl (17 =? 6). simpl (17 =? 17). cbv iota.
    destruct complete; [|cbn [andb rbind]; unfold observed, new_packet; destruct (direction =?s DirectionInbound); reflexivity]. cbn [andb].
    replace (4 <=? _) with true by (symmetry; apply Z.leb_le; unfold lenZ; simpl; lia).
    cbn [segment_bytes]. unfold read_ports, observed. cbn [new_packet p_direction].
    rewrite (read16_lookup _ 0 sp) by (done || lia).
    rewrite (read16_lookup _ 2 dp) by (done || lia).
    unfold new_packet; destruct (direction =?s DirectionInbound); reflexivity.
  - destruct Hs as [H6 H17]. unfold observed, protocol_name. cbn [segment_protocol].
    apply Z.eqb_neq in H6, H17. rewrite H6, H17.
    unfold new_packet; destruct (p =? 1), (p =? 58), (direction =?s DirectionInbound); reflexivity.
Qed.

Definition is_vlan (t : Z) : bool := (t =? etherTypeVLAN) || (t =? etherTypeQinQ).

Definition tags_ok (tags : list (Z * Z)) : Prop :=
  (length tags <= 2)%nat /\ Forall (fun t => is_vlan (fst t) = true) tags.

Definition tags_type (tags : list (Z * Z)) (et : Z) : Z :=
  match tags with [] => et | t :: _ => fst t end.

Lemma is_vlan_range t : is_vlan t = true -> 0 <= t < 65536.
Proof.
  unfold is_vlan, etherTypeVLAN, etherTypeQinQ. intros [H|H]%orb_true_iff; bool_to_prop; lia.
Qed.

Lemma skip_tags_frame n : forall tags pre et payload,
  (length tags <= n)%nat -> Forall (fun t => is_vlan (fst t) = true) tags ->
  0 <= et < 65536 -> is_vlan et = false ->
  skip_tags n (pre ++ tag_bytes tags ++ be16 et ++ payload) (tags_type tags et) (lenZ pre + 2)
  = Ok (et, lenZ pre + lenZ (tag_bytes tags) + 2).
Proof.
  induction n as [|n IH]; intros tags pre et payload Hl Ht Het Hv.
  { destruct tags; [|simpl in Hl; lia]. simpl. do 2 f_equal. unfold lenZ; simpl; lia. }
  destruct tags as [|[tpid tci] tags].
  { cbn [skip_tags tags_type]. fold (is_vlan et). rewrite Hv. simpl. do 2 f_equal.
    unfold lenZ; simpl; lia. }
  apply Forall_cons in Ht as [Htp Ht]. simpl in Hl.
  cbn [skip_tags tags_type fst]. cbn [fst] in Htp. fold (is_vlan tpid). rewrite Htp.
  assert (Heq : pre ++ tag_bytes ((tpid, tci) :: tags) ++ be16 et ++ payload
    = (pre ++ be16 tpid ++ be16 tci) ++ tag_bytes tags ++ be16 et ++ payload).
  { unfold tag_bytes. simpl. by rewrite <- !app_assoc. }
  rewrite Heq. set (pre' := pre ++ be16 tpid ++ be16 tci).
  assert (Hp : lenZ pre' = lenZ pre + 4)
    by (unfold pre'; rewrite !lenZ_app; unfold lenZ; simpl; lia).
  replace (lenZ pre + 2 + 2) with (lenZ pre') by lia.
  replace (lenZ pre + 2 + 4) with (lenZ pre' + 2) by lia.
  assert (Hrd : read16 (pre' ++ tag_bytes tags ++ be16 et ++ payload) (lenZ pre')
    = Ok (tags_type tags et)).
  { destruct tags as [|[t1 c1] tags].
    - apply (read16_app pre' et payload). done.
    - apply Forall_cons in Ht as [Ht1 _].
      apply (read16_app pre' t1). by apply is_vlan_range. }
  replace (lenZ _ <? lenZ pre' + 2) with false.
  2:{ symmetry. apply Z.ltb_ge. rewrite !lenZ_app.
      pose proof (lenZ_nonneg payload). pose proof (lenZ_nonneg (tag_bytes tags)).
      unfold be16. rewrite !lenZ_cons. change (lenZ (@nil Z)) with 0. lia. }
  rewrite Hrd. cbn [rbind].
  rewrite IH by (done || lia). do 2 f_equal. rewrite Hp.
  change (tag_bytes ((tpid, tci) :: tags)) with (be16 tpid ++ be16 tci ++ tag_bytes tags).
  rewrite !lenZ_app. unfold be16. rewrite !lenZ_cons. change (lenZ (@nil Z)) with 0. lia.
Qed.

(** Decoding an Ethernet frame is decoding its payload. *)
Lemma DecodeEthernet_frame macs tags et payload direction :
  lenZ macs = 12 -> tags_ok tags -> et = etherTypeIPv4 \/ et = etherTypeIPv6 ->
  direction = DirectionInbound \/ direction = DirectionOutbound ->
  let frame := ethernet_frame macs tags et payload in
  DecodeEthernet frame direction
  = let? p := (if et =? etherTypeIPv4 then decodeIPv4 payload direction
               else decodeIPv6 payload direction) in
    Ok (set_bytes (lenZ frame) p).
Proof.
  intros Hm [Htl Ht] Het Hd frame.
  assert (Hr : 0 <= et < 65536 /\ is_vlan et = false) by (destruct Het as [-> | ->]; split; done).
  destruct Hr as [Hr Hv]. unfold DecodeEthernet.
  replace (_ && _) with false by (destruct Hd as [-> | ->]; reflexivity).
  pose proof (skip_tags_frame 2 tags macs et payload Htl Ht Hr Hv) as Hskip.
  assert (Hfl : lenZ frame = lenZ macs + lenZ (tag_bytes tags) + 2 + lenZ payload).
  { unfold frame, ethernet_frame. rewrite !lenZ_app. unfold be16. rewrite !lenZ_cons.
    change (lenZ (@nil Z)) with 0. lia. }
  pose proof (lenZ_nonneg payload). pose proof (lenZ_nonneg (tag_bytes tags)).
  replace (lenZ frame <? 14) with false by (symmetry; apply Z.ltb_ge; lia).
  assert (Hrd : read16 frame 12 = Ok (tags_type tags et)).
  { unfold frame, ethernet_frame. rewrite <- Hm. destruct tags as [|[t1 c1] tags].
    - by apply (read16_app macs et payload).
    - apply Forall_cons in Ht as [Ht1 _]. apply (read16_app macs t1). by apply is_vlan_range. }
  rewrite Hrd. cbn [rbind]. rewrite Hm in Hskip. change (12 + 2) with 14 in Hskip.
  unfold frame, ethernet_frame at 1. rewrite Hskip. cbn [rbind].
  fold (ethernet_frame macs tags et payload). fold frame.
  assert (Hs : slice frame (12 + lenZ (tag_bytes tags) + 2) (lenZ frame) = Ok payload).
  { unfold frame, ethernet_frame.
    replace (macs ++ tag_bytes tags ++ be16 et ++ payload)
      with ((macs ++ tag_bytes tags ++ be16 et) ++ payload ++ [])
      by (rewrite app_nil_r, <- !app_assoc; done).
    replace (12 + lenZ (tag_bytes tags) + 2) with (lenZ (macs ++ tag_bytes tags ++ be16 et)).
    - apply slice_app. rewrite !lenZ_app. change (lenZ (@nil Z)) with 0. lia.
    - rewrite !lenZ_app. unfold be16. rewrite !lenZ_cons. change (lenZ (@nil Z)) with 0. lia. }
  destruct Het as [-> | ->]; simpl; rewrite Hs; reflexivity.
Qed.

(** ** IPv4 *)

Lemma decodeIPv4_packet tos ident fragment ttl checksum src dst options s direction trailing size :
  segment_ok s ->
  lenZ options mod 4 = 0 -> lenZ options <= 40 ->
  20 + lenZ options + lenZ (segment_bytes s) < 65536 ->
  0 <= fragment < 65536 ->
  rbind (decodeIPv4 (ipv4_packet tos ident fragment ttl checksum src dst options
                       (segment_bytes s) (segment_protocol s) ++ trailing) direction)
    (fun p => Ok (set_bytes size p))
  = let '(s1, s2, s3, s4) := src in
    let '(d1, d2, d3, d4) := dst in
    Ok (observed direction (A4 s1 s2 s3 s4) (A4 d1 d2 d3 d4) s
          (Z.land fragment 8191 =? 0) size).
Proof.
  intros Hs Hm Ho Hl Hf. destruct src as [[[s1 s2] s3] s4], dst as [[[d1 d2] d3] d4].
  unfold ipv4_packet. pose proof (lenZ_nonneg options). pose proof (lenZ_nonneg trailing).
  pose proof (lenZ_nonneg (segment_bytes s)).
  set (b := segment_bytes s) in *. set (h := 20 + lenZ options) in *.
  assert (Hh : exists k, h = 4 * k /\ 5 <= k <= 15).
  { exists (5 + lenZ options / 4). pose proof (Z.div_mod (lenZ options) 4).
    unfold h. assert (0 <= lenZ options / 4 <= 10);
      [split; [apply Z.div_pos; lia|apply Z.div_le_upper_bound; lia]|lia]. }
  destruct Hh as (k & Hk & Hk5).
  set (data := (_ ++ trailing)).
  assert (Hdl : lenZ data = h + lenZ b + lenZ trailing).
  { unfold data. rewrite !lenZ_app. unfold be16. rewrite !lenZ_cons.
    change (lenZ (@nil Z)) with 0. lia. }
  unfold decodeIPv4.
  replace (lenZ data <? 20) with false by (symmetry; apply Z.ltb_ge; lia).
  rewrite (read8_lookup data 0 (64 + k)); [|lia|unfold data; simpl; do 2 f_equal].
  2:{ rewrite Hk, Z.mul_comm, Z.div_mul; lia. }
  cbn [rbind].
  assert (Hsh : (Z.shiftr (64 + k) 4 =? 4) = true).
  { apply Z.eqb_eq. rewrite Z.shiftr_div_pow2 by lia. change (2 ^ 4) with 16.
    symmetry. apply (Z.div_unique _ _ _ k); lia. }
  rewrite Hsh. cbn [negb].
  assert (Hla : Z.land (64 + k) 15 * 4 = h).
  { change 15 with (Z.ones 4). rewrite Z.land_ones by lia. change (2 ^ 4) with 16.
    replace (64 + k) with (k + 4 * 16) by lia. rewrite Z.mod_add, Z.mod_small by lia. lia. }
  rewrite Hla.
  replace ((h <? 20) || (lenZ data <? h)) with false
    by (symmetry; apply orb_false_iff; split; apply Z.ltb_ge; lia).
  rewrite (read16_lookup data 2 (h + lenZ b)) by (try lia; done). cbn [rbind].
  replace ((h + lenZ b <? h) || (lenZ data <? h + lenZ b)) with false
    by (symmetry; apply orb_false_iff; split; apply Z.ltb_ge; lia).
  assert (Hsl : forall lo mid rest pre, data = pre ++ mid ++ rest -> lo = lenZ pre ->
    forall hi, hi = lo + lenZ mid -> slice data lo hi = Ok mid).
  { intros lo mid rest pre -> -> hi ->. by apply slice_app. }
  rewrite (Hsl 12 [s1; s2; s3; s4] ([d1; d2; d3; d4] ++ options ++ b ++ trailing)
    ([64 + h / 4; tos] ++ be16 (h + lenZ b) ++ [fst ident; snd ident] ++ be16 fragment ++
     [ttl; segment_protocol s; fst checksum; snd checksum])) by
    (unfold data; rewrite <- ?app_assoc; simpl; rewrite <- ?app_assoc; done).
  rewrite (Hsl 16 [d1; d2; d3; d4] (options ++ b ++ trailing)
    ([64 + h / 4; tos] ++ be16 (h + lenZ b) ++ [fst ident; snd ident] ++ be16 fragment ++
     [ttl; segment_protocol s; fst checksum; snd checksum; s1; s2; s3; s4])) by
    (unfold data; rewrite <- ?app_assoc; simpl; rewrite <- ?app_assoc; done).
  cbn [rbind addr_from4].
  rewrite (read16_lookup data 6 fragment) by (try lia; done). cbn [rbind].
  rewrite (Hsl h b trailing
    (([64 + h / 4; tos] ++ be16 (h + lenZ b) ++ [fst ident; snd ident] ++ be16 fragment ++
     [ttl; segment_protocol s; fst checksum; snd checksum; s1; s2; s3; s4; d1; d2; d3; d4])
     ++ options)) by
    (try (rewrite !lenZ_app; unfold be16; rewrite !lenZ_cons; change (lenZ (@nil Z)) with 0; lia);
     try reflexivity; unfold data; rewrite <- ?app_assoc; simpl; rewrite <- ?app_assoc; done).
  cbn [rbind].
  rewrite (read8_lookup data 9 (segment_protocol s)) by (try lia; done). cbn [rbind].
  apply (decodeTransport_observed direction (A4 s1 s2 s3 s4) (A4 d1 d2 d3 d4) s). done.
Qed.

(** ** IPv6 *)

Definition is_extension (p : Z) : bool :=
  (p =? 0) || (p =? 43) || (p =? 60) || (p =? 44) || (p =? 51).

(** Where the walk over a well-formed chain ends. *)
Fixpoint chain_walk (xs : list extension) (protocol offset : Z) : walk :=
  match xs with
  | [] => AtTransport protocol offset
  | x :: xs =>
      if later_fragment x then AtFragment (chain_type xs protocol)
      else chain_walk xs protocol
             (offset + lenZ (extension_bytes x (chain_type xs protocol)))
  end.

Lemma extension_bytes_first x next rest pre :
  read8 (pre ++ extension_bytes x next ++ rest) (lenZ pre) = Ok next.
Proof. destruct x; simpl; apply read8_app. Qed.

Lemma extension_bytes_second x next rest pre v :
  (match x with XOptions _ l _ => l | XAuth l _ => l | XFragment r _ _ => r end) = v ->
  read8 (pre ++ extension_bytes x next ++ rest) (lenZ pre + 1) = Ok v.
Proof.
  intros <-. replace (lenZ pre + 1) with (lenZ (pre ++ [next]))
    by (rewrite lenZ_app; unfold lenZ; simpl; lia).
  destruct x; simpl; rewrite (app_assoc pre [next]) || rewrite cons_middle, app_assoc;
    apply read8_app.
Qed.

Lemma walk_chain xs : forall n data pre tail protocol last,
  data = pre ++ chain_bytes xs protocol ++ tail ->
  (length xs <= n)%nat -> is_extension protocol = false -> Forall extension_ok xs ->
  lenZ pre + lenZ (chain_bytes xs protocol) <= last ->
  walk_extensions n data last (chain_type xs protocol) (lenZ pre)
  = Ok (chain_walk xs protocol (lenZ pre)).
Proof.
  induction xs as [|x xs IH]; intros n data pre tail protocol last Hdata Hn Hp Hok Hlast.
  { simpl. destruct n; [done|]. cbn [walk_extensions].
    unfold is_extension in Hp. bool_to_prop.
    repeat match goal with H : ?a <> ?b |- _ => apply Z.eqb_neq in H; rewrite H; clear H end.
    done. }
  apply Forall_cons in Hok as [Hx Hok]. destruct n as [|n]; [simpl in Hn; lia|].
  simpl in Hn. cbn [chain_bytes] in Hdata, Hlast. set (next := chain_type xs protocol) in *.
  rewrite lenZ_app in Hlast. pose proof (lenZ_nonneg (chain_bytes xs protocol)).
  rewrite <- app_assoc in Hdata.
  assert (Hstep : later_fragment x = false ->
    walk_extensions n data last next (lenZ pre + lenZ (extension_bytes x next))
    = Ok (chain_walk (x :: xs) protocol (lenZ pre))).
  { intros Hlf. cbn [chain_walk]. rewrite Hlf. fold next.
    rewrite <- lenZ_app. apply (IH n data _ tail); [|lia|done|done|rewrite lenZ_app; lia].
    by rewrite Hdata, <- !app_assoc. }
  pose proof (extension_bytes_first x next (chain_bytes xs protocol ++ tail) pre) as Hfst.
  pose proof (fun v => extension_bytes_second x next (chain_bytes xs protocol ++ tail) pre v)
    as Hsnd.
  rewrite <- Hdata in Hfst, Hsnd.
  destruct x as [kind len8 body|res off ident|len8 body].
  - destruct Hx as (Hk & Hl8 & Hb). cbn [walk_extensions chain_type extension_type].
    replace (_ || _) with true by (destruct Hk as [-> |[-> | ->]]; reflexivity).
    cbn [extension_bytes] in Hlast, Hstep. rewrite !lenZ_cons in Hlast, Hstep.
    rewrite (Hsnd len8) by done. cbn [rbind]. rewrite Hfst. cbn [rbind].
    replace (last <? lenZ pre + 2) with false by (symmetry; apply Z.ltb_ge; lia).
    replace (_ || _) with false by (symmetry; apply orb_false_iff; split; apply Z.ltb_ge; lia).
    replace (lenZ pre + (len8 + 1) * 8) with (lenZ pre + (lenZ body + 1 + 1)) by lia.
    by apply Hstep.
  - destruct Hx as (Hoff & Hid). cbn [walk_extensions chain_type extension_type].
    cbn [Z.eqb Pos.eqb orb].
    cbn [extension_bytes] in Hlast, Hstep. unfold be16 in Hlast, Hstep.
    cbn [app] in Hlast, Hstep. rewrite !lenZ_cons in Hlast, Hstep.
    replace (last <? lenZ pre + 8) with false by (symmetry; apply Z.ltb_ge; lia).
    assert (Hrd : read16 data (lenZ pre + 2) = Ok off).
    { replace (lenZ pre + 2) with (lenZ (pre ++ [next; res]))
        by (rewrite lenZ_app; unfold lenZ; simpl; lia).
      replace data with ((pre ++ [next; res]) ++ be16 off ++ ident ++ chain_bytes xs protocol ++ tail)
        by (rewrite Hdata; simpl; by rewrite <- !app_assoc).
      by apply read16_app. }
    rewrite Hrd. cbn [rbind]. rewrite Hfst. cbn [rbind].
    cbn [later_fragment] in Hstep. destruct (Z.land off 65528 =? 0) eqn:E.
    + replace (lenZ pre + 8) with (lenZ pre + (lenZ ident + 1 + 1 + 1 + 1)) by lia.
      by apply Hstep.
    + cbn [chain_walk later_fragment]. rewrite E. done.
  - destruct Hx as (Hl8 & Hb). cbn [walk_extensions chain_type extension_type].
    cbn [Z.eqb Pos.eqb orb].
    cbn [extension_bytes] in Hlast, Hstep. rewrite !lenZ_cons in Hlast, Hstep.
    rewrite (Hsnd len8) by done. cbn [rbind]. rewrite Hfst. cbn [rbind].
    replace (last <? lenZ pre + 2) with false by (symmetry; apply Z.ltb_ge; lia).
    replace (_ || _) with false by (symmetry; apply orb_false_iff; split; apply Z.ltb_ge; lia).
    replace (lenZ pre + (len8 + 2) * 4) with (lenZ pre + (lenZ body + 1 + 1)) by lia.
    by apply Hstep.
Qed.

(** A later fragment carries nothing of the chain after its own header. *)
Definition fragment_last (xs : list extension) : Prop :=
  forall xs1 x xs2, xs = xs1 ++ x :: xs2 -> later_fragment x = true -> xs2 = [].

Lemma chain_walk_spec xs : forall protocol offset,
  fragment_last xs ->
  chain_walk xs protocol offset
  = if existsb later_fragment xs then AtFragment protocol
    else AtTransport protocol (offset + lenZ (chain_bytes xs protocol)).
Proof.
  induction xs as [|x xs IH]; intros protocol offset Hf.
  { simpl. f_equal. unfold lenZ; simpl; lia. }
  cbn [chain_walk existsb chain_bytes]. destruct (later_fragment x) eqn:E.
  - rewrite (Hf [] x xs eq_refl E). done.
  - rewrite IH.
    + simpl. destruct (existsb later_fragment xs); [done|]. rewrite lenZ_app. f_equal. lia.
    + intros xs1 y xs2 -> Hy. by apply (Hf (x :: xs1) y xs2).
Qed.

Lemma decodeIPv6_packet flow hops src dst xs s direction trailing size :
  segment_ok s -> is_extension (segment_protocol s) = false ->
  Forall extension_ok xs -> (length xs <= 8)%nat -> fragment_last xs ->
  lenZ src = 16 -> lenZ dst = 16 ->
  0 < lenZ (chain_bytes xs (segment_protocol s) ++ segment_bytes s) < 65536 ->
  rbind (decodeIPv6 (ipv6_packet flow hops src dst xs (segment_bytes s) (segment_protocol s)
                       ++ trailing) direction)
    (fun p => Ok (set_bytes size p))
  = Ok (observed direction (A6 (words_of src) "") (A6 (words_of dst) "") s
          (negb (existsb later_fragment xs)) size).
Proof.
  intros Hs Hp Hok Hn Hfl Hsrc Hdst Hlen. unfold ipv6_packet.
  set (chain := chain_bytes xs (segment_protocol s)) in *.
  set (b := segment_bytes s) in *. set (pl := lenZ (chain ++ b)) in *.
  pose proof (lenZ_nonneg trailing). pose proof (lenZ_nonneg b). pose proof (lenZ_nonneg chain).
  assert (Hpl : pl = lenZ chain + lenZ b) by apply lenZ_app.
  set (head := [96; fst (fst flow); snd (fst flow); snd flow] ++ be16 pl ++
    [chain_type xs (segment_protocol s); hops]).
  set (data := _ ++ trailing).
  assert (Hdata : data = (head ++ src ++ dst) ++ chain ++ b ++ trailing)
    by (unfold data, head; rewrite <- ?app_assoc; simpl; by rewrite <- ?app_assoc).
  assert (Hhl : lenZ head = 8) by reflexivity.
  assert (Hhsd : lenZ (head ++ src ++ dst) = 40) by (rewrite !lenZ_app; lia).
  assert (Hdl : lenZ data = 40 + pl + lenZ trailing).
  { rewrite Hdata. rewrite !(lenZ_app (head ++ _)), Hhsd, !lenZ_app. lia. }
  unfold decodeIPv6.
  replace (lenZ data <? 40) with false by (symmetry; apply Z.ltb_ge; lia).
  rewrite (read8_lookup data 0 96) by (done || lia). cbn [rbind].
  change (negb (Z.shiftr 96 4 =? 6)) with false. cbv iota.
  rewrite (read16_lookup data 4 pl) by (done || lia). cbn [rbind].
  replace (pl =? 0) with false by (symmetry; apply Z.eqb_neq; lia). cbn [negb andb].
  replace (lenZ data <? 40 + pl) with false by (symmetry; apply Z.ltb_ge; lia).
  assert (Hsl : forall lo mid rest pre, data = pre ++ mid ++ rest -> lo = lenZ pre ->
    forall hi, hi = lo + lenZ mid -> slice data lo hi = Ok mid).
  { intros lo mid rest pre -> -> hi ->. by apply slice_app. }
  rewrite (Hsl 8 src (dst ++ chain ++ b ++ trailing) head)
    by (rewrite ?Hdata, <- ?app_assoc; lia || done).
  rewrite (Hsl 24 dst (chain ++ b ++ trailing) (head ++ src))
    by (rewrite ?Hdata, <- ?app_assoc, ?lenZ_app; lia || done).
  cbn [rbind]. unfold addr_from16. rewrite Hsrc, Hdst. cbn [Z.eqb Pos.eqb rbind].
  rewrite (read8_lookup data 6 (chain_type xs (segment_protocol s))) by (done || lia).
  cbn [rbind].
  pose proof (walk_chain xs 8 data _ (b ++ trailing) (segment_protocol s) (40 + pl) Hdata
    Hn Hp Hok ltac:(rewrite Hhsd; fold chain; lia)) as Hwalk.
  rewrite Hhsd in Hwalk. rewrite Hwalk.
  cbn [rbind]. rewrite chain_walk_spec by done. fold chain.
  destruct (existsb later_fragment xs); cbn [negb].
  - rewrite <- (decodeTransport_observed direction _ _ s false size Hs).
    unfold decodeTransport. by repeat case_if.
  - replace (40 + pl <? 40 + lenZ chain) with false by (symmetry; apply Z.ltb_ge; lia).
    rewrite (Hsl (40 + lenZ chain) b trailing ((head ++ src ++ dst) ++ chain))
      by (rewrite ?Hdata, <- ?app_assoc, ?lenZ_app; lia || done).
    cbn [rbind]. by apply decodeTransport_observed.
Qed.

(** ** Properties *)

(** C3. No frame, however malformed, makes the decoder read outside the
    captured bytes; a decoded packet has the direction it was asked for, a
    protocol name that [ValidateAt] accepts, port numbers and flags of the
    right width, and the length of the frame as its byte count. *)
Theorem DecodeEthernet_memory_safe frame direction :
  Forall byte frame ->
  DecodeEthernet frame direction <> Err EPanic /\
  forall p, DecodeEthernet frame direction = Ok p ->
    packet_ok direction p /\ known_protocol (p_protocol p) = true /\
    p_bytes p = lenZ frame.
Proof.
  intros Hf. pose proof (safe_DecodeEthernet frame direction Hf) as H.
  destruct (DecodeEthernet frame direction) as [p|e]; simpl in H.
  - split; [discriminate|]. intros ? [= <-]. tauto.
  - split; [congruence|discriminate].
Qed.

Definition example_macs : list Z := [1; 2; 3; 4; 5; 6; 7; 8; 9; 10; 11; 12].
Definition example_segment : segment := STcp 40000 22 [0;0;0;0;0;0;0;0;80] 2 [1; 2; 3].
Definition example_frame : list Z :=
  ethernet_frame example_macs [(33024, 7)] etherTypeIPv4
    (ipv4_packet 0 (1, 2) 0 64 (0, 0) (203, 0, 113, 9) (192, 0, 2, 5) [1; 1; 1; 0]
       (segment_bytes example_segment) 6 ++ [0; 0]).

Lemma DecodeEthernet_memory_safe_witness :
  exists p, DecodeEthernet example_frame DirectionInbound = Ok p /\
    p_bytes p = 61 /\ p_local_port p = 22 /\ packet_ok DirectionInbound p.
Proof.
  assert (Hb : Forall byte example_frame).
  { apply (bool_decide_unpack (Forall (fun b => 0 <= b < 256) example_frame)).
    vm_compute. exact I. }
  destruct (DecodeEthernet_memory_safe example_frame DirectionInbound Hb) as [_ H].
  eexists. split; [vm_compute; reflexivity|].
  split; [reflexivity|]. split; [reflexivity|].
  apply H. vm_compute. reflexivity.
Defined.

(** IPv4 frames decode to what was sent: for every legal header with
    options, any VLAN tags the decoder supports and any trailing padding, the
    packet names the remote end, the protocol, the ports by direction and the
    TCP flags; and a fragment with a non-zero offset yields no ports or flags,
    whatever bytes it carries. *)
Theorem DecodeEthernet_ipv4 macs tags tos ident fragment ttl checksum s1 s2 s3 s4
    d1 d2 d3 d4 options s trailing direction
    (Hmacs : lenZ macs = 12) (Htags : tags_ok tags) (Hs : segment_ok s)
    (Hdir : direction = DirectionInbound \/ direction = DirectionOutbound)
    (Hfrag : 0 <= fragment < 65536)
    (Hopt : lenZ options mod 4 = 0 /\ lenZ options <= 40)
    (Hlen : 20 + lenZ options + lenZ (segment_bytes s) < 65536) :
  let frame := ethernet_frame macs tags etherTypeIPv4
    (ipv4_packet tos ident fragment ttl checksum (s1, s2, s3, s4) (d1, d2, d3, d4)
       options (segment_bytes s) (segment_protocol s) ++ trailing) in
  DecodeEthernet frame direction
  = Ok (observed direction (A4 s1 s2 s3 s4) (A4 d1 d2 d3 d4) s
          (Z.land fragment 8191 =? 0) (lenZ frame)).
Proof.
  intros frame. unfold frame. rewrite DecodeEthernet_frame by auto.
  destruct Hopt. rewrite Z.eqb_refl. by apply decodeIPv4_packet.
Qed.

Lemma DecodeEthernet_ipv4_witness :
  DecodeEthernet example_frame DirectionInbound
  = Ok (mkPacket DirectionInbound (A4 203 0 113 9) "tcp" 22 40000 2 61).
Proof.
  refine (DecodeEthernet_ipv4 example_macs [(33024, 7)] 0 (1, 2) 0 64 (0, 0) 203 0 113 9
    192 0 2 5 [1; 1; 1; 0] example_segment [0; 0] DirectionInbound _ _ _ _ _ _ _).
  - reflexivity.
  - split; [simpl; lia|repeat constructor].
  - repeat split; lia.
  - by left.
  - lia.
  - split; [reflexivity|unfold lenZ; simpl; lia].
  - unfold lenZ; simpl; lia.
Defined.

(** C4. IPv6 frames decode to what was sent, through any chain of up to eight
    hop-by-hop, routing, destination, authentication and fragment headers; a
    fragment that is not the first yields no ports or flags, because nothing
    after its header is read as a header. *)
Theorem DecodeEthernet_ipv6 macs tags flow hops src dst xs s trailing direction
    (Hmacs : lenZ macs = 12) (Htags : tags_ok tags) (Hs : segment_ok s)
    (Hdir : direction = DirectionInbound \/ direction = DirectionOutbound)
    (Hp : is_extension (segment_protocol s) = false)
    (Hxs : Forall extension_ok xs /\ (length xs <= 8)%nat /\ fragment_last xs)
    (Haddr : lenZ src = 16 /\ lenZ dst = 16)
    (Hlen : 0 < lenZ (chain_bytes xs (segment_protocol s) ++ segment_bytes s) < 65536) :
  let frame := ethernet_frame macs tags etherTypeIPv6
    (ipv6_packet flow hops src dst xs (segment_bytes s) (segment_protocol s) ++ trailing) in
  DecodeEthernet frame direction
  = Ok (observed direction (A6 (words_of src) "") (A6 (words_of dst) "") s
          (negb (existsb later_fragment xs)) (lenZ frame)).
Proof.
  intros frame. unfold frame. rewrite DecodeEthernet_frame by auto.
  change (etherTypeIPv6 =? etherTypeIPv4) with false. cbv iota.
  destruct Hxs as (? & ? & ?), Haddr. by apply decodeIPv6_packet.
Qed.

Lemma DecodeEthernet_ipv6_witness :
  let src := [32; 1; 13; 184; 0; 0; 0; 0; 0; 0; 0; 0; 0; 0; 0; 1] in
  let dst := [32; 1; 13; 184; 0; 0; 0; 0; 0; 0; 0; 0; 0; 0; 0; 2] in
  let frame off := ethernet_frame example_macs [] etherTypeIPv6
    (ipv6_packet (0, 0, 0) 64 src dst
       [XOptions 0 0 [1; 4; 0; 0; 0; 0]; XFragment 0 off [0; 0; 0; 9]]
       (segment_bytes (SUdp 53 4000 [7; 7])) 17 ++ []) in
  DecodeEthernet (frame 1) DirectionOutbound
  = Ok (mkPacket DirectionOutbound (A6 [8193; 3512; 0; 0; 0; 0; 0; 2] "") "udp" 53 4000 0 76) /\
  DecodeEthernet (frame 185) DirectionOutbound
  = Ok (mkPacket DirectionOutbound (A6 [8193; 3512; 0; 0; 0; 0; 0; 2] "") "udp" 0 0 0 76).
Proof.
  assert (Hfl : forall off, fragment_last
    [XOptions 0 0 [1; 4; 0; 0; 0; 0]; XFragment 0 off [0; 0; 0; 9]]).
  { intros off xs1 x xs2 H Hx. destruct xs1 as [|? [|? xs1]]; simpl in H.
    - injection H as <- _. discriminate Hx.
    - by injection H as _ _ <-.
    - injection H as _ _ H. by destruct xs1. }
  assert (Hxs : forall off, 0 <= off < 65536 -> Forall extension_ok
    [XOptions 0 0 [1; 4; 0; 0; 0; 0]; XFragment 0 off [0; 0; 0; 9]]
    /\ (2 <= 8)%nat /\ fragment_last
    [XOptions 0 0 [1; 4; 0; 0; 0; 0]; XFragment 0 off [0; 0; 0; 9]]).
  { intros off Ho. split; [|split; [lia|apply Hfl]].
    repeat constructor; unfold lenZ; simpl; lia. }
  intros src dst frame. split.
  - refine (DecodeEthernet_ipv6 example_macs [] (0, 0, 0) 64 src dst
      [XOptions 0 0 [1; 4; 0; 0; 0; 0]; XFragment 0 1 [0; 0; 0; 9]] (SUdp 53 4000 [7; 7]) []
      DirectionOutbound _ _ _ _ _ _ _ _); try reflexivity; try (by right).
    + split; [simpl; lia|constructor].
    + repeat split; lia.
    + apply Hxs. lia.
    + split; reflexivity.
    + unfold lenZ; simpl; lia.
  - refine (DecodeEthernet_ipv6 example_macs [] (0, 0, 0) 64 src dst
      [XOptions 0 0 [1; 4; 0; 0; 0; 0]; XFragment 0 185 [0; 0; 0; 9]] (SUdp 53 4000 [7; 7]) []
      DirectionOutbound _ _ _ _ _ _ _ _); try reflexivity; try (by right).
    + split; [simpl; lia|constructor].
    + repeat split; lia.
    + apply Hxs. lia.
    + split; reflexivity.
    + unfold lenZ; simpl; lia.
Defined.
