(* ===== verification/Aggregate.v ===== *)
(** * Flow aggregation

    [internal/sensor/aggregate.go]: the counters of one interface between two
    flushes, the bounded flow table, and the batch a flush makes of them.  The
    mutex is taken by every operation, so an operation is one step; packets
    arrive in any order between flushes. *)

From S2P Require Export Packet.

Record flowKey := mkKey {
  k_direction : string;
  k_remote_ip : string;
  k_protocol : string;
  k_local_port : Z;
  k_remote_port : Z;
  k_tcp_flags : Z }.

#[global] Instance flowKey_eq_dec : EqDecision flowKey.
Proof. solve_decision. Defined.

#[global] Instance flowKey_countable : Countable flowKey.
Proof.
  apply (inj_countable'
    (fun k => (k_direction k, k_remote_ip k, k_protocol k, k_local_port k, k_remote_port k,
               k_tcp_flags k))
    (fun '(d, ip, p, lp, rp, fl) => mkKey d ip p lp rp fl)).
  by intros [].
Defined.

Record counters := mkCounters { c_packets : Z; c_bytes : Z }.

Record Aggregator := mkAggregator {
  a_started : time;
  a_iface : string;
  a_max_flows : Z;
  a_flows : gmap flowKey counters;
  a_rx_bytes : Z; a_tx_bytes : Z; a_rx_packets : Z; a_tx_packets : Z;
  a_inbound_syn : Z; a_inbound_udp : Z; a_inbound_icmp : Z;
  a_overflow_bytes : Z; a_overflow_packets : Z; a_parse_errors : Z }.

Definition NewAggregator (iface : string) (maxFlows : Z) (now : time) : Aggregator :=
  mkAggregator now iface maxFlows ∅ 0 0 0 0 0 0 0 0 0 0.

Definition inc_u64 (c : Z) : Z := add_u64 c 1.

(** The directional counters and the protocol counters of [Observe]. *)
Definition count_packet (p : Packet) (a : Aggregator) : Aggregator :=
  if p_direction p =?s DirectionInbound then
    let syn := (p_protocol p =?s "tcp") && negb (Z.land (p_tcp_flags p) 2 =? 0)
               && (Z.land (p_tcp_flags p) 16 =? 0) in
    let udp := p_protocol p =?s "udp" in
    let icmp := (p_protocol p =?s "icmp") || (p_protocol p =?s "icmpv6") in
    mkAggregator (a_started a) (a_iface a) (a_max_flows a) (a_flows a)
      (add_u64 (a_rx_bytes a) (p_bytes p)) (a_tx_bytes a)
      (inc_u64 (a_rx_packets a)) (a_tx_packets a)
      (if syn then inc_u64 (a_inbound_syn a) else a_inbound_syn a)
      (if udp then inc_u64 (a_inbound_udp a) else a_inbound_udp a)
      (if icmp then inc_u64 (a_inbound_icmp a) else a_inbound_icmp a)
      (a_overflow_bytes a) (a_overflow_packets a) (a_parse_errors a)
  else
    mkAggregator (a_started a) (a_iface a) (a_max_flows a) (a_flows a)
      (a_rx_bytes a) (add_u64 (a_tx_bytes a) (p_bytes p))
      (a_rx_packets a) (inc_u64 (a_tx_packets a))
      (a_inbound_syn a) (a_inbound_udp a) (a_inbound_icmp a)
      (a_overflow_bytes a) (a_overflow_packets a) (a_parse_errors a).

Definition packet_key (p : Packet) : flowKey :=
  mkKey (p_direction p) (addr_string (p_remote_ip p)) (p_protocol p) (p_local_port p)
    (p_remote_port p) (Z.land (p_tcp_flags p) 23).

Definition set_agg_flows (m : gmap flowKey counters) (a : Aggregator) : Aggregator :=
  mkAggregator (a_started a) (a_iface a) (a_max_flows a) m
    (a_rx_bytes a) (a_tx_bytes a) (a_rx_packets a) (a_tx_packets a)
    (a_inbound_syn a) (a_inbound_udp a) (a_inbound_icmp a)
    (a_overflow_bytes a) (a_overflow_packets a) (a_parse_errors a).

Definition add_overflow (bytes : Z) (a : Aggregator) : Aggregator :=
  mkAggregator (a_started a) (a_iface a) (a_max_flows a) (a_flows a)
    (a_rx_bytes a) (a_tx_bytes a) (a_rx_packets a) (a_tx_packets a)
    (a_inbound_syn a) (a_inbound_udp a) (a_inbound_icmp a)
    (add_u64 (a_overflow_bytes a) bytes) (inc_u64 (a_overflow_packets a)) (a_parse_errors a).

(** [Aggregator.Observe]. *)
Definition Observe (p : Packet) (a : Aggregator) : Aggregator :=
  let a := count_packet p a in
  let key := packet_key p in
  match a_flows a !! key with
  | None =>
      if a_max_flows a <=? Z.of_nat (size (a_flows a)) then add_overflow (p_bytes p) a
      else set_agg_flows (<[key := mkCounters (inc_u64 0) (add_u64 0 (p_bytes p))]> (a_flows a)) a
  | Some v =>
      set_agg_flows (<[key := mkCounters (inc_u64 (c_packets v))
                                (add_u64 (c_bytes v) (p_bytes p))]> (a_flows a)) a
  end.

Definition ParseError (a : Aggregator) : Aggregator :=
  mkAggregator (a_started a) (a_iface a) (a_max_flows a) (a_flows a)
    (a_rx_bytes a) (a_tx_bytes a) (a_rx_packets a) (a_tx_packets a)
    (a_inbound_syn a) (a_inbound_udp a) (a_inbound_icmp a)
    (a_overflow_bytes a) (a_overflow_packets a) (inc_u64 (a_parse_errors a)).

(** One flow of the batch, from one entry of the map. *)
Definition flow_of (kv : flowKey * counters) : Flow :=
  let '(k, v) := kv in
  mkFlow (k_direction k) (k_remote_ip k) (k_protocol k) (k_local_port k)
    (k_remote_port k) (k_tcp_flags k) (c_packets v) (c_bytes v).

(** The less function of [sort.Slice]. *)
Definition flow_less (x y : Flow) : bool :=
  if negb (f_bytes x =? f_bytes y) then f_bytes y <? f_bytes x
  else if negb (f_remote_ip x =?s f_remote_ip y) then string_lt (f_remote_ip x) (f_remote_ip y)
  else if negb (f_protocol x =?s f_protocol y) then string_lt (f_protocol x) (f_protocol y)
  else if negb (f_local_port x =? f_local_port y) then f_local_port x <? f_local_port y
  else if negb (f_remote_port x =? f_remote_port y) then f_remote_port x <? f_remote_port y
  else if negb (f_direction x =?s f_direction y) then string_lt (f_direction x) (f_direction y)
  else f_tcp_flags x <? f_tcp_flags y.

(** [flush]; the flows are the entries of the map, in the order of [sort.Slice]. *)
Definition flush (now : time) (a : Aggregator) : Batch * Aggregator :=
  let interval := Z.max (time_sub now (a_started a)) (100 * millisecond) in
  (mkBatch 0 Version "" 0 now 0 (milliseconds interval) (a_iface a)
     (sort_by flow_less (flow_of <$> map_to_list (a_flows a)))
     (a_rx_bytes a) (a_tx_bytes a) (a_rx_packets a) (a_tx_packets a)
     (a_inbound_syn a) (a_inbound_udp a) (a_inbound_icmp a)
     (mkHealth (a_overflow_bytes a) (a_overflow_packets a) (a_parse_errors a) 0 0 0 0 0 0 false),
   NewAggregator (a_iface a) (a_max_flows a) now).

(** What happens to an aggregator between two flushes. *)
Inductive capture := CPacket (p : Packet) | CParseError.

Definition capture_step (a : Aggregator) (c : capture) : Aggregator :=
  match c with CPacket p => Observe p a | CParseError => ParseError a end.

Definition capture_all (cs : list capture) (a : Aggregator) : Aggregator :=
  foldl capture_step a cs.

(** ** What the counters mean: sums over the captured packets *)

Definition captured (cs : list capture) : list Packet :=
  omap (fun c => match c with CPacket p => Some p | CParseError => None end) cs.

Definition inbound (p : Packet) : bool := p_direction p =?s DirectionInbound.

(** The total of [f] over the packets of one direction. *)
Definition packet_total (dir : bool) (f : Packet -> Z) (ps : list Packet) : Z :=
  sumZ ((fun p => if Bool.eqb (inbound p) dir then f p else 0) <$> ps).

Definition one (_ : Packet) : Z := 1.

(** The part of the table that belongs to one direction. *)
Definition table_total (dir : bool) (f : counters -> Z) (m : gmap flowKey counters) : Z :=
  map_sum (fun k v => if Bool.eqb (k_direction k =?s DirectionInbound) dir then f v else 0) m.

Definition packet_fits (p : Packet) : Prop := 1 <= p_bytes p.

Record aggregated (cs : list capture) (a : Aggregator) : Prop := {
  ag_rx_bytes : a_rx_bytes a = packet_total true p_bytes (captured cs);
  ag_tx_bytes : a_tx_bytes a = packet_total false p_bytes (captured cs);
  ag_rx_packets : a_rx_packets a = packet_total true one (captured cs);
  ag_tx_packets : a_tx_packets a = packet_total false one (captured cs);
  ag_bytes : table_total true c_bytes (a_flows a) + table_total false c_bytes (a_flows a)
             + a_overflow_bytes a = a_rx_bytes a + a_tx_bytes a;
  ag_packets : table_total true c_packets (a_flows a) + table_total false c_packets (a_flows a)
             + a_overflow_packets a = a_rx_packets a + a_tx_packets a;
  ag_in_bytes : table_total true c_bytes (a_flows a) <= a_rx_bytes a;
  ag_out_bytes : table_total false c_bytes (a_flows a) <= a_tx_bytes a;
  ag_in_packets : table_total true c_packets (a_flows a) <= a_rx_packets a;
  ag_out_packets : table_total false c_packets (a_flows a) <= a_tx_packets a;
  ag_protocols : a_inbound_syn a + a_inbound_udp a + a_inbound_icmp a <= a_rx_packets a;
  ag_parse_errors : a_parse_errors a = lenZ cs - lenZ (captured cs);
  ag_nonneg : 0 <= a_inbound_syn a /\ 0 <= a_inbound_udp a /\ 0 <= a_inbound_icmp a /\
              0 <= a_overflow_bytes a /\ 0 <= a_overflow_packets a;
  ag_size : Z.of_nat (size (a_flows a)) <= a_max_flows a;
  ag_entries : map_Forall (fun k v => 1 <= c_packets v /\ 1 <= c_bytes v /\
                 exists p, p ∈ captured cs /\ k = packet_key p) (a_flows a) }.

Lemma packet_total_snoc dir f ps p :
  packet_total dir f (ps ++ [p])
  = packet_total dir f ps + (if Bool.eqb (inbound p) dir then f p else 0).
Proof.
  unfold packet_total. rewrite fmap_app, sumZ_app. simpl fmap.
  rewrite sumZ_cons, sumZ_nil. lia.
Qed.

Lemma packet_total_nonneg dir f ps :
  Forall (fun p => 0 <= f p) ps -> 0 <= packet_total dir f ps.
Proof.
  intros Hf. unfold packet_total. apply sumZ_nonneg, Forall_fmap.
  eapply Forall_impl; [exact Hf|]. intros p Hp. simpl in *. case_if; lia.
Qed.

Lemma captured_snoc cs c :
  captured (cs ++ [c]) = captured cs ++ match c with CPacket p => [p] | CParseError => [] end.
Proof. unfold captured. rewrite omap_app. by destruct c. Qed.

(** What one packet adds to the table: to the entry of its key or, when the
    table is full, to the overflow. *)
Lemma table_total_add dir f m k v v0 :
  m !! k = v0 ->
  table_total dir f (<[k := v]> m)
  = table_total dir f m
    + (if Bool.eqb (k_direction k =?s DirectionInbound) dir
       then f v - match v0 with Some v0 => f v0 | None => 0 end else 0).
Proof.
  intros Hk. unfold table_total. destruct v0 as [v0|].
  - rewrite (map_sum_insert _ m k v v0 Hk). simpl. case_if; lia.
  - rewrite (map_sum_insert_None _ m k v Hk). simpl. case_if; lia.
Qed.

Lemma table_entry_le dir f m k v :
  map_Forall (fun _ v => 0 <= f v) m -> m !! k = Some v ->
  Bool.eqb (k_direction k =?s DirectionInbound) dir = true -> f v <= table_total dir f m.
Proof.
  intros Hm Hk Hd. unfold table_total.
  pose proof (map_sum_lookup_le
    (fun k v => if Bool.eqb (k_direction k =?s DirectionInbound) dir then f v else 0) m k v) as H.
  simpl in H. rewrite Hd in H. apply H; [|done].
  intros k' v' Hk'. case_if; [|lia]. by apply (Hm k').
Qed.

Lemma table_nonneg dir f m :
  map_Forall (fun _ v => 0 <= f v) m -> 0 <= table_total dir f m.
Proof.
  intros Hm. apply map_sum_nonneg. intros k v Hk. case_if; [by apply (Hm k)|lia].
Qed.

(** The capture fits: no counter of the program can wrap. *)
Definition capture_fits (cs : list capture) : Prop :=
  Forall packet_fits (captured cs) /\
  packet_total true p_bytes (captured cs) + packet_total false p_bytes (captured cs) <= u64_max /\
  lenZ cs <= u64_max.

Lemma packet_total_one ps : packet_total true one ps + packet_total false one ps = lenZ ps.
Proof.
  induction ps as [|p ps IH] using rev_ind; [done|].
  rewrite !packet_total_snoc, lenZ_app. unfold one in *.
  destruct (inbound p); simpl; unfold lenZ in *; simpl; lia.
Qed.

Lemma captured_length cs : lenZ (captured cs) <= lenZ cs.
Proof.
  induction cs as [|c cs IH] using rev_ind; [done|].
  rewrite captured_snoc, !lenZ_app. destruct c; unfold lenZ in *; simpl; lia.
Qed.

Lemma capture_fits_snoc cs c : capture_fits (cs ++ [c]) -> capture_fits cs.
Proof.
  unfold capture_fits. rewrite captured_snoc. intros (Hf & Hs & Hl).
  apply Forall_app in Hf as [Hf Hc]. rewrite lenZ_app in Hl. pose proof (lenZ_nonneg [c]).
  split_and!; [done| |lia]. destruct c as [p|]; [|by rewrite app_nil_r in Hs].
  rewrite !packet_total_snoc in Hs. apply Forall_cons in Hc as [Hp _].
  unfold packet_fits in Hp. destruct (inbound p); simpl in Hs; lia.
Qed.

Lemma add_u64_exact a b : 0 <= a -> 0 <= b -> a + b <= u64_max -> add_u64 a b = a + b.
Proof. intros. apply add_u64_small. zlia. Qed.

(** What [count_packet] does when nothing can wrap. *)
Lemma count_packet_exact p a :
  let rx := if inbound p then p_bytes p else 0 in
  let tx := if inbound p then 0 else p_bytes p in
  1 <= p_bytes p ->
  0 <= a_rx_bytes a -> 0 <= a_tx_bytes a -> 0 <= a_rx_packets a -> 0 <= a_tx_packets a ->
  0 <= a_inbound_syn a -> 0 <= a_inbound_udp a -> 0 <= a_inbound_icmp a ->
  a_inbound_syn a + a_inbound_udp a + a_inbound_icmp a <= a_rx_packets a ->
  a_rx_bytes a + rx <= u64_max -> a_tx_bytes a + tx <= u64_max ->
  a_rx_packets a + 1 <= u64_max -> a_tx_packets a + 1 <= u64_max ->
  let a1 := count_packet p a in
  a_rx_bytes a1 = a_rx_bytes a + rx /\ a_tx_bytes a1 = a_tx_bytes a + tx /\
  a_rx_packets a1 = a_rx_packets a + (if inbound p then 1 else 0) /\
  a_tx_packets a1 = a_tx_packets a + (if inbound p then 0 else 1) /\
  a_inbound_syn a1 + a_inbound_udp a1 + a_inbound_icmp a1 <= a_rx_packets a1 /\
  0 <= a_inbound_syn a1 /\ 0 <= a_inbound_udp a1 /\ 0 <= a_inbound_icmp a1 /\
  a_flows a1 = a_flows a /\ a_overflow_bytes a1 = a_overflow_bytes a /\
  a_overflow_packets a1 = a_overflow_packets a /\ a_parse_errors a1 = a_parse_errors a /\
  a_max_flows a1 = a_max_flows a /\ a_iface a1 = a_iface a /\ a_started a1 = a_started a.
Proof.
  unfold count_packet, inbound. intros. destruct (p_direction p =?s DirectionInbound); simpl.
  - unfold inc_u64. rewrite !(add_u64_exact _ 1) by lia. rewrite add_u64_exact by lia.
    assert (Hx : forall (b1 b2 b3 : bool) x y z n,
      (b1 = true -> b2 = false /\ b3 = false) -> (b2 = true -> b3 = false) ->
      x + y + z <= n ->
      (if b1 then x + 1 else x) + (if b2 then y + 1 else y) + (if b3 then z + 1 else z) <= n + 1).
    { intros [] [] []; intros; intuition lia. }
    split_and!; try lia; try done.
    + apply Hx; [| |lia].
      * intros [[->%String.eqb_eq _]%andb_true_iff _]%andb_true_iff. done.
      * intros ->%String.eqb_eq. done.
    + case_if; lia.
    + case_if; lia.
    + case_if; lia.
  - unfold inc_u64. rewrite (add_u64_exact _ 1) by lia. rewrite add_u64_exact by lia.
    split_and!; lia || done.
Qed.

(** Reads a field of an updated aggregator. *)
Ltac agg_fields :=
  cbn [set_agg_flows a_started a_iface a_max_flows a_flows a_rx_bytes a_tx_bytes
       a_rx_packets a_tx_packets a_inbound_syn a_inbound_udp a_inbound_icmp
       a_overflow_bytes a_overflow_packets a_parse_errors].

(** Arithmetic by the direction of the packet [p]. *)
Ltac by_direction p := unfold one in *; destruct (inbound p); simpl in *; lia.

Lemma packet_key_inbound p : (k_direction (packet_key p) =?s DirectionInbound) = inbound p.
Proof. done. Qed.

Lemma capture_step_aggregated cs c a :
  capture_fits (cs ++ [c]) -> aggregated cs a -> aggregated (cs ++ [c]) (capture_step a c).
Proof.
  intros Hfits [I1 I2 I3 I4 I5 I6 I7 I8 I9 I10 I11 I12 (N1 & N2 & N3 & N4 & N5) I13 I14].
  pose proof (capture_fits_snoc _ _ Hfits) as (Hf & _ & _).
  destruct Hfits as (Hfc & Hs & Hl). rewrite captured_snoc in Hfc, Hs.
  pose proof (captured_length cs) as Hcl. rewrite lenZ_app in Hl.
  change (lenZ [c]) with 1 in Hl.
  assert (HB : forall d, 0 <= packet_total d p_bytes (captured cs)).
  { intros d. apply packet_total_nonneg. eapply Forall_impl; [exact Hf|].
    intros q Hq. unfold packet_fits in Hq. simpl. lia. }
  assert (HP : forall d, 0 <= packet_total d one (captured cs)).
  { intros d. apply packet_total_nonneg, Forall_forall. unfold one. lia. }
  pose proof (HB true). pose proof (HB false). pose proof (HP true). pose proof (HP false).
  pose proof (packet_total_one (captured cs)) as Hone.
  destruct c as [p|].
  2:{ rewrite app_nil_r in *. simpl.
      constructor; rewrite ?captured_snoc, ?app_nil_r; simpl; auto.
      unfold inc_u64. rewrite I12, add_u64_exact by lia. rewrite lenZ_app.
      change (lenZ [CParseError]) with 1. lia. }
  apply Forall_app in Hfc as [_ Hp]. apply Forall_cons in Hp as [Hp _]. unfold packet_fits in Hp.
  rewrite !packet_total_snoc in Hs.
  assert (HE : map_Forall (fun _ v => 0 <= c_bytes v) (a_flows a)
               /\ map_Forall (fun _ v => 0 <= c_packets v) (a_flows a)).
  { split; intros k v Hk; destruct (I14 k v Hk); lia. }
  destruct HE as [HEb HEp].
  destruct (count_packet_exact p a) as (C1 & C2 & C3 & C4 & C5 & C6 & C7 & C8 & C9 & C10 & C11 & C12 & C13 & _);
    try (by_direction p).
  assert (Hcap : captured (cs ++ [CPacket p]) = captured cs ++ [p]) by apply captured_snoc.
  assert (Hmem : forall k v, a_flows a !! k = Some v -> 1 <= c_packets v /\ 1 <= c_bytes v /\
     exists q, q ∈ captured cs ++ [p] /\ k = packet_key q).
  { intros k v Hk. destruct (I14 k v Hk) as (? & ? & q & Hq & ->). split_and!; auto.
    exists q. split; [|done]. apply elem_of_app. by left. }
  pose proof (table_nonneg true _ _ HEb). pose proof (table_nonneg false _ _ HEb).
  pose proof (table_nonneg true _ _ HEp). pose proof (table_nonneg false _ _ HEp).
  unfold capture_step, Observe. set (a1 := count_packet p a) in *. cbv zeta.
  rewrite C9. destruct (a_flows a !! packet_key p) as [v|] eqn:Ek.
  - pose proof (table_entry_le (inbound p) _ _ _ _ HEb Ek ltac:(rewrite packet_key_inbound; apply eqb_reflx)).
    pose proof (table_entry_le (inbound p) _ _ _ _ HEp Ek ltac:(rewrite packet_key_inbound; apply eqb_reflx)).
    destruct (I14 _ _ Ek) as (Hv1 & Hv2 & _).
    assert (Hb : add_u64 (c_bytes v) (p_bytes p) = c_bytes v + p_bytes p)
      by (apply add_u64_exact; by_direction p).
    assert (Hn : inc_u64 (c_packets v) = c_packets v + 1)
      by (apply add_u64_exact; by_direction p).
    rewrite Hb, Hn.
    constructor; rewrite ?Hcap, ?packet_total_snoc; agg_fields;
      rewrite ?(table_total_add _ _ _ _ _ _ Ek), ?packet_key_inbound;
      cbn [c_packets c_bytes]; try (by_direction p).
    + rewrite C12, I12, !lenZ_app. change (lenZ [CPacket p]) with 1. change (lenZ [p]) with 1. lia.
    + rewrite C13. rewrite map_size_insert_Some by eauto. lia.
    + apply map_Forall_insert_2; [|exact Hmem]. cbn [c_packets c_bytes]. split_and!; [lia|lia|].
      exists p. split; [|done]. apply elem_of_app. right. apply list_elem_of_here.
  - case_if; bool_to_prop.
    + assert (Hb : add_u64 (a_overflow_bytes a1) (p_bytes p) = a_overflow_bytes a + p_bytes p)
        by (rewrite C10; apply add_u64_exact; by_direction p).
      assert (Hn : inc_u64 (a_overflow_packets a1) = a_overflow_packets a + 1)
        by (rewrite C11; apply add_u64_exact; by_direction p).
      unfold add_overflow. rewrite Hb, Hn, C9.
      constructor; rewrite ?Hcap, ?packet_total_snoc; agg_fields;
        try (by_direction p).
      * rewrite C12, I12, !lenZ_app. change (lenZ [CPacket p]) with 1. change (lenZ [p]) with 1. lia.
      * exact Hmem.
    + assert (Hb : add_u64 0 (p_bytes p) = p_bytes p)
        by (rewrite add_u64_exact; by_direction p).
      change (inc_u64 0) with 1. rewrite Hb.
      constructor; rewrite ?Hcap, ?packet_total_snoc; agg_fields;
        rewrite ?(table_total_add _ _ _ _ _ _ Ek), ?packet_key_inbound;
        cbn [c_packets c_bytes]; try (by_direction p).
      * rewrite C12, I12, !lenZ_app. change (lenZ [CPacket p]) with 1. change (lenZ [p]) with 1. lia.
      * rewrite C13 in *. rewrite map_size_insert_None by done. lia.
      * apply map_Forall_insert_2; [|exact Hmem]. cbn [c_packets c_bytes]. split_and!; [lia|lia|].
        exists p. split; [|done]. apply elem_of_app. right. apply list_elem_of_here.
Qed.

Lemma NewAggregator_aggregated iface maxFlows now :
  0 <= maxFlows -> aggregated [] (NewAggregator iface maxFlows now).
Proof. intros. constructor; simpl; try done; unfold table_total; rewrite ?map_sum_empty; lia. Qed.

Lemma capture_all_aggregated cs iface maxFlows now :
  0 <= maxFlows -> capture_fits cs ->
  aggregated cs (capture_all cs (NewAggregator iface maxFlows now)).
Proof.
  intros Hm. induction cs as [|c cs IH] using rev_ind; intros Hf.
  { by apply NewAggregator_aggregated. }
  unfold capture_all in *. rewrite foldl_app. simpl.
  apply capture_step_aggregated; [done|]. apply IH. by eapply capture_fits_snoc.
Qed.

Lemma count_packet_static p a :
  a_started (count_packet p a) = a_started a /\ a_iface (count_packet p a) = a_iface a
  /\ a_max_flows (count_packet p a) = a_max_flows a.
Proof. unfold count_packet. by case_if. Qed.

Lemma capture_all_static cs : forall a,
  a_started (capture_all cs a) = a_started a /\ a_iface (capture_all cs a) = a_iface a
  /\ a_max_flows (capture_all cs a) = a_max_flows a.
Proof.
  induction cs as [|c cs IH]; intros a; [done|]. simpl.
  destruct (IH (capture_step a c)) as (-> & -> & ->). destruct c as [p|]; [|done].
  destruct (count_packet_static p a) as (H1 & H2 & H3).
  simpl. unfold Observe. cbv zeta. case_match; [done|]. case_if; done.
Qed.

(** ** The order of the flows *)

Definition flow_key_tuple (f : Flow) :=
  (f_bytes f, (f_remote_ip f, (f_protocol f, (f_local_port f,
    (f_remote_port f, (f_direction f, f_tcp_flags f)))))).

Definition tuple_less :=
  lex gtb (lex string_lt (lex string_lt (lex Z.ltb (lex Z.ltb (lex string_lt Z.ltb))))).

Lemma flow_less_tuple x y : flow_less x y = tuple_less (flow_key_tuple x) (flow_key_tuple y).
Proof.
  unfold flow_less, tuple_less, lex, flow_key_tuple, gtb. cbn [fst snd].
  repeat match goal with
  | |- context [negb (?a =? ?b)] => destruct (Z.eqb_spec a b); cbn [negb];
      [rewrite (decide_True (P := a = b)) by done|rewrite (decide_False (P := a = b)) by done]
  | |- context [negb (?a =?s ?b)] => destruct (String.eqb_spec a b); cbn [negb];
      [rewrite (decide_True (P := a = b)) by done|rewrite (decide_False (P := a = b)) by done]
  end; done.
Qed.

(** The comparison ignores only the packet count, so it orders flows with
    different keys. *)
Lemma flow_less_strict_keys x y :
  flow_less x y = false -> flow_less y x = false -> flow_key_tuple x = flow_key_tuple y.
Proof. rewrite !flow_less_tuple. apply st_total. Qed.

Definition table_flows (m : gmap flowKey counters) : list Flow := flow_of <$> map_to_list m.

Lemma table_flows_elem m f :
  f ∈ table_flows m <-> exists k v, m !! k = Some v /\ f = flow_of (k, v).
Proof.
  unfold table_flows. rewrite list_elem_of_fmap. split.
  - intros ([k v] & -> & Hin). apply elem_of_map_to_list in Hin. eauto.
  - intros (k & v & Hk & ->). exists (k, v). by rewrite elem_of_map_to_list.
Qed.

Lemma table_flows_injective m x y :
  x ∈ table_flows m -> y ∈ table_flows m -> flow_key_tuple x = flow_key_tuple y -> x = y.
Proof.
  rewrite !table_flows_elem. intros (k1 & v1 & H1 & ->) (k2 & v2 & H2 & ->) Heq.
  destruct k1, k2, v1, v2. unfold flow_key_tuple in Heq. simpl in Heq.
  injection Heq as -> -> -> -> -> -> ->. rewrite H1 in H2. by injection H2 as ->.
Qed.

Lemma flush_flows_perm now a : b_flows (fst (flush now a)) ≡ₚ table_flows (a_flows a).
Proof. apply sort_by_perm. Qed.

Lemma flow_total_perm dir f fs fs' :
  fs ≡ₚ fs' -> flow_total dir f fs = flow_total dir f fs'.
Proof. intros Hp. unfold flow_total. by rewrite Hp. Qed.

Lemma flow_total_table dir m :
  flow_total dir f_bytes (table_flows m) = table_total dir c_bytes m /\
  flow_total dir f_packets (table_flows m) = table_total dir c_packets m.
Proof.
  unfold flow_total, table_flows, table_total, map_sum. rewrite <- !list_fmap_compose.
  split; f_equal; apply list_fmap_ext; intros i [k v] _; done.
Qed.

(** ** A flushed batch is acceptable to the daemon *)

Definition decoded (p : Packet) : Prop :=
  exists frame direction, Forall byte frame /\ DecodeEthernet frame direction = Ok p.

Lemma decoded_ok p : decoded p ->
  (p_direction p = DirectionInbound \/ p_direction p = DirectionOutbound) /\
  unzoned (p_remote_ip p) /\ known_protocol (p_protocol p) = true /\ 14 <= p_bytes p.
Proof.
  intros (frame & direction & Hb & Hd).
  pose proof (safe_DecodeEthernet frame direction Hb) as H. rewrite Hd in H. simpl in H.
  destruct H as ((-> & Hu & _) & Hk & -> & Hl & Hdir). auto.
Qed.

Lemma validate_flow_of p v i :
  decoded p -> 1 <= c_packets v <= maxFlowPackets -> 1 <= c_bytes v <= maxFlowBytes ->
  exists f', validate_flow i (flow_of (packet_key p, v)) = (f', None).
Proof.
  intros Hd Hp Hb. destruct (decoded_ok p Hd) as (Hdir & Hu & Hk & _).
  destruct (addr_string_text _ Hu) as [Hl Hx].
  unfold validate_flow. cbn [flow_of packet_key f_direction f_remote_ip k_direction k_remote_ip].
  replace (_ && _) with false by (destruct Hdir as [-> | ->]; reflexivity).
  replace (_ || _) with false.
  2:{ symmetry. apply orb_false_iff. split; [apply Z.ltb_ge; exact Hl|exact Hx]. }
  rewrite parse_addr_string by done. cbn [set_remote_ip f_packets f_bytes f_protocol k_protocol].
  replace ((c_packets v =? 0) || (c_bytes v =? 0)) with false by lia.
  replace ((maxFlowPackets <? c_packets v) || (maxFlowBytes <? c_bytes v)) with false by lia.
  cbn [flow_of f_protocol k_protocol packet_key]. rewrite Hk. eauto.
Qed.

Lemma validate_flows_complete fs : forall i t,
  Forall (fun f => forall i, exists f', validate_flow i f = (f', None)) fs ->
  exists fs' t', validate_flows i fs t = (fs', Ok t').
Proof.
  induction fs as [|f fs IH]; intros i t Hf; [simpl; eauto|].
  apply Forall_cons in Hf as [Hf Hfs]. destruct (Hf i) as [f' Hf'].
  destruct (IH (S i) (add_flow_totals f' t) Hfs) as (fs' & t' & H).
  simpl. rewrite Hf', H. eauto.
Qed.

Lemma renamed_totals dir fs fs' :
  Forall2 (fun f f' => exists a, parse_addr (f_remote_ip f) = Some a /\
             f' = set_remote_ip (addr_string (unmap a)) f) fs fs' ->
  flow_total dir f_bytes fs' = flow_total dir f_bytes fs /\
  flow_total dir f_packets fs' = flow_total dir f_packets fs.
Proof.
  induction 1 as [|f f' fs fs' (a & _ & ->) _ [IH1 IH2]]; [done|].
  rewrite !(flow_total_cons _ _ _ fs), !(flow_total_cons _ _ _ fs'), IH1, IH2.
  rewrite !flow_total_set_ip by auto. done.
Qed.

(** The entries of an aggregate of decoded packets are legal flows. *)
Lemma aggregate_flows_valid cs a :
  aggregated cs a -> Forall decoded (captured cs) ->
  a_rx_bytes a + a_tx_bytes a <= MaxBatchBytes ->
  a_rx_packets a + a_tx_packets a <= MaxBatchPackets ->
  0 <= a_rx_bytes a -> 0 <= a_tx_bytes a -> 0 <= a_rx_packets a -> 0 <= a_tx_packets a ->
  Forall (fun f => flow_wf f /\ forall i, exists f', validate_flow i f = (f', None))
    (table_flows (a_flows a)).
Proof.
  intros Hag Hdec Hb Hp Hr1 Hr2 Hr3 Hr4. apply Forall_forall. intros f Hf.
  apply table_flows_elem in Hf as (k & v & Hk & ->).
  destruct (ag_entries _ _ Hag k v Hk) as (Hv1 & Hv2 & p & Hpin & ->).
  assert (Hd : decoded p) by (rewrite Forall_forall in Hdec; auto).
  assert (HE : map_Forall (fun _ v => 0 <= c_bytes v) (a_flows a)
               /\ map_Forall (fun _ v => 0 <= c_packets v) (a_flows a)).
  { split; intros k' v' Hk'; destruct (ag_entries _ _ Hag k' v' Hk'); lia. }
  pose proof (table_entry_le (inbound p) _ _ _ _ (proj1 HE) Hk
    ltac:(rewrite packet_key_inbound; apply eqb_reflx)).
  pose proof (table_entry_le (inbound p) _ _ _ _ (proj2 HE) Hk
    ltac:(rewrite packet_key_inbound; apply eqb_reflx)).
  pose proof (ag_in_bytes _ _ Hag). pose proof (ag_out_bytes _ _ Hag).
  pose proof (ag_in_packets _ _ Hag). pose proof (ag_out_packets _ _ Hag).
  unfold MaxBatchBytes, MaxBatchPackets in *.
  assert (c_packets v <= 68719476736 /\ c_bytes v <= 1099511627776)
    by (destruct (inbound p); lia).
  split; [unfold flow_wf; simpl; zlia|].
  intros i. apply validate_flow_of; unfold maxFlowPackets, maxFlowBytes; lia || done.
Qed.

(** The checks before the flow loop, on a flushed batch. *)
Lemma flush_header cs iface maxFlows start now reference :
  let a := capture_all cs (NewAggregator iface maxFlows start) in
  ValidInterfaceName iface = true -> now - start <= 65 * second ->
  0 < now -> year_in_range now 0 = true ->
  reference <> 0 -> Z.abs (reference - now) <= 10 * minute ->
  Z.of_nat (size (a_flows a)) <= MaxFlowsPerBatch ->
  validate_header (fst (flush now a)) reference = Ok tt.
Proof.
  intros a Hname Hel Hnow Hyear Href Hskew Hsize. unfold validate_header.
  assert (Hlen : length (sort_by flow_less (flow_of <$> map_to_list (a_flows a)))
                 = size (a_flows a)).
  { rewrite (Permutation_length (sort_by_perm _ _)), length_fmap. apply length_map_to_list. }
  destruct (capture_all_static cs (NewAggregator iface maxFlows start)) as (Hst & Hif & _).
  fold a in Hst, Hif. simpl in Hst, Hif.
  cbn [flush fst b_version b_session b_sequence b_sent_at b_sent_offset b_interval_ms
       b_interface b_flows].
  rewrite Hlen, Hif, Hst. change (negb ("" =?s "") || negb (0 =? 0)) with false.
  rewrite !andb_false_r. cbn [orb andb].
  change ((Version <? 1) || (Version <? Version)) with false. cbv iota.
  unfold is_zero. rewrite Hyear.
  replace (now =? 0) with false by lia. replace (reference =? 0) with false by lia.
  cbn [orb negb].
  assert (Hd : (10 * minute <? time_sub reference now)
               || (time_sub reference now <? - (10 * minute)) = false).
  { unfold time_sub, clamp_i64. apply orb_false_iff. split; zlia. }
  rewrite Hd. change (Version <? 4) with false. cbv iota.
  assert (Hms : 100 <= milliseconds (Z.max (time_sub now start) (100 * millisecond)) <= 65000).
  { unfold milliseconds, time_sub, clamp_i64.
    set (d := Z.max (Z.max i64_min (Z.min i64_max (now - start))) (100 * millisecond)).
    assert (100 * millisecond <= d <= 65000 * millisecond) by (unfold d; zlia).
    unfold millisecond in *. rewrite Z.quot_div_nonneg by lia.
    split; [apply Z.div_le_lower_bound; lia|apply Z.div_le_upper_bound; lia]. }
  replace ((_ <? 100) || (MaxBatchIntervalMillis <? _)) with false
    by (symmetry; unfold MaxBatchIntervalMillis; lia).
  unfold ValidInterfaceName in Hname. bool_to_prop.
  match goal with H : (iface =?s "") = false |- _ => rewrite H end.
  replace (15 <? string_len iface) with false by lia. cbn [orb].
  rewrite (string_exists_or control_or_space (fun c => c =? 47)).
  repeat match goal with H : string_exists _ _ = false |- _ => rewrite H; clear H end.
  cbn [orb]. replace (MaxFlowsPerBatch <? _) with false by (symmetry; apply Z.ltb_ge; lia).
  reflexivity.
Qed.

(** The checks after it. *)
Lemma flush_counters cs a now t :
  aggregated cs a ->
  a_rx_bytes a + a_tx_bytes a <= MaxBatchBytes ->
  lenZ cs <= MaxBatchPackets ->
  0 <= a_rx_bytes a -> 0 <= a_tx_bytes a -> 0 <= a_rx_packets a -> 0 <= a_tx_packets a ->
  ft_rx_bytes t = table_total true c_bytes (a_flows a) ->
  ft_tx_bytes t = table_total false c_bytes (a_flows a) ->
  ft_rx_packets t = table_total true c_packets (a_flows a) ->
  ft_tx_packets t = table_total false c_packets (a_flows a) ->
  validate_counters (fst (flush now a)) t = Ok tt.
Proof.
  intros Hag Hb Hp R1 R2 R3 R4 T1 T2 T3 T4.
  destruct Hag as [I1 I2 I3 I4 I5 I6 I7 I8 I9 I10 I11 I12 (N1 & N2 & N3 & N4 & N5) _ I14].
  pose proof (packet_total_one (captured cs)) as Hone. pose proof (captured_length cs).
  pose proof (lenZ_nonneg (captured cs)).
  assert (HE : map_Forall (fun _ v => 0 <= c_bytes v) (a_flows a)
               /\ map_Forall (fun _ v => 0 <= c_packets v) (a_flows a)).
  { split; intros k v Hk; destruct (I14 k v Hk); lia. }
  destruct HE as [HEb HEp].
  pose proof (table_nonneg true _ _ HEb). pose proof (table_nonneg false _ _ HEb).
  pose proof (table_nonneg true _ _ HEp). pose proof (table_nonneg false _ _ HEp).
  unfold validate_counters, byte_counters, packet_counters, MaxBatchBytes, MaxBatchPackets in *.
  cbn [flush fst b_rx_bytes b_tx_bytes b_rx_packets b_tx_packets b_inbound_syn b_inbound_udp
       b_inbound_icmp b_health h_overflow_bytes h_overflow_packets h_parse_errors
       h_kernel_packets h_kernel_drops h_kernel_stats_errors h_ipc_batches h_ipc_packets
       h_ipc_bytes existsb].
  rewrite T1, T2, T3, T4.
  rewrite (add_u64_exact (a_inbound_syn a)) by zlia.
  rewrite (add_u64_exact (_ + _)) by zlia.
  repeat match goal with
  | |- context [?x <? ?y] => replace (x <? y) with false by (symmetry; apply Z.ltb_ge; lia)
  end.
  reflexivity.
Qed.

(** ** Properties *)

(** C6. No traffic is lost or counted twice between two flushes: the bytes and
    packets of the flows and of the overflow add up exactly to what was
    captured, per direction in the totals, the table stays within its bound and
    the batch starts the next window from zero. *)
Theorem flush_conserves cs iface maxFlows start now
    (Hmax : 0 <= maxFlows) (Hfits : capture_fits cs) :
  let '(b, next) := flush now (capture_all cs (NewAggregator iface maxFlows start)) in
  b_rx_bytes b = packet_total true p_bytes (captured cs) /\
  b_tx_bytes b = packet_total false p_bytes (captured cs) /\
  b_rx_packets b = packet_total true one (captured cs) /\
  b_tx_packets b = packet_total false one (captured cs) /\
  flow_total true f_bytes (b_flows b) + flow_total false f_bytes (b_flows b)
    + h_overflow_bytes (b_health b) = b_rx_bytes b + b_tx_bytes b /\
  flow_total true f_packets (b_flows b) + flow_total false f_packets (b_flows b)
    + h_overflow_packets (b_health b) = b_rx_packets b + b_tx_packets b /\
  h_parse_errors (b_health b) = lenZ cs - lenZ (captured cs) /\
  lenZ (b_flows b) <= maxFlows /\
  next = NewAggregator iface maxFlows now.
Proof.
  pose proof (capture_all_aggregated cs iface maxFlows start Hmax Hfits) as Hag.
  destruct (capture_all_static cs (NewAggregator iface maxFlows start)) as (_ & Hif & Hmx).
  set (a := capture_all cs (NewAggregator iface maxFlows start)) in *.
  pose proof (flush_flows_perm now a) as Hp.
  destruct (flush now a) as [b next] eqn:E. simpl in Hp.
  rewrite !(flow_total_perm _ _ _ _ Hp).
  destruct (flow_total_table true (a_flows a)) as [-> ->].
  destruct (flow_total_table false (a_flows a)) as [-> ->].
  unfold lenZ at 3. rewrite (Permutation_length Hp). unfold table_flows.
  rewrite length_fmap, length_map_to_list.
  unfold flush in E. injection E as <- <-. simpl in *. rewrite Hif, Hmx in *.
  destruct Hag. simpl in *. rewrite Hmx in *. split_and!; done.
Qed.

Definition example_packet : Packet :=
  mkPacket DirectionInbound (A4 203 0 113 9) "tcp" 22 40000 2 61.

Lemma flush_conserves_witness :
  let cs := [CPacket example_packet; CParseError; CPacket example_packet;
             CPacket (mkPacket DirectionOutbound (A4 203 0 113 9) "udp" 53 9 0 90)] in
  h_overflow_packets (b_health (fst (flush (5 * second)
    (capture_all cs (NewAggregator "eth0" 1 second))))) = 1 /\
  b_rx_bytes (fst (flush (5 * second) (capture_all cs (NewAggregator "eth0" 1 second)))) = 122.
Proof.
  intros cs. split; [vm_compute; reflexivity|].
  assert (Hf : capture_fits cs).
  { split; [repeat constructor; unfold packet_fits; simpl; lia|].
    split; vm_compute; discriminate. }
  pose proof (flush_conserves cs "eth0" 1 second (5 * second) ltac:(lia) Hf) as H.
  destruct (flush (5 * second) _) as [b next]. cbn [fst]. destruct H as (-> & _). reflexivity.
Defined.

(** C5. Whatever decoded packets an aggregator saw within the protocol's
    limits, the batch it flushes passes the daemon's validation: the sensor and
    the daemon agree on the format, for IPv4, IPv6 and IPv4-mapped addresses. *)
Theorem flush_accepted cs iface maxFlows start now reference
    (Hmax : 0 <= maxFlows <= MaxFlowsPerBatch) (Hname : ValidInterfaceName iface = true)
    (Hdec : Forall decoded (captured cs))
    (Hbytes : packet_total true p_bytes (captured cs)
              + packet_total false p_bytes (captured cs) <= MaxBatchBytes)
    (Hpackets : lenZ cs <= MaxBatchPackets)
    (Helapsed : now - start <= 65 * second) (Hnow : 0 < now)
    (Hyear : year_in_range now 0 = true)
    (Hskew : reference <> 0 /\ Z.abs (reference - now) <= 10 * minute) :
  exists b', ValidateAt (fst (flush now
    (capture_all cs (NewAggregator iface maxFlows start)))) reference = (b', Ok tt).
Proof.
  assert (Hfits : capture_fits cs).
  { split; [|unfold MaxBatchBytes, MaxBatchPackets in *; split; zlia].
    eapply Forall_impl; [exact Hdec|]. intros p Hp. unfold packet_fits.
    destruct (decoded_ok p Hp) as (_ & _ & _ & ?). lia. }
  pose proof (capture_all_aggregated cs iface maxFlows start (proj1 Hmax) Hfits) as Hag.
  set (a := capture_all cs (NewAggregator iface maxFlows start)) in *.
  destruct (capture_all_static cs (NewAggregator iface maxFlows start)) as (_ & _ & Hmx).
  fold a in Hmx. simpl in Hmx.
  assert (HB : forall d, 0 <= packet_total d p_bytes (captured cs)).
  { intros d. apply packet_total_nonneg. eapply Forall_impl; [exact (proj1 Hfits)|].
    intros q Hq. unfold packet_fits in Hq. simpl. lia. }
  assert (HP : forall d, 0 <= packet_total d one (captured cs)).
  { intros d. apply packet_total_nonneg, Forall_forall. unfold one. lia. }
  pose proof (HB true). pose proof (HB false). pose proof (HP true). pose proof (HP false).
  pose proof (packet_total_one (captured cs)). pose proof (captured_length cs).
  pose proof (ag_size _ _ Hag) as Hsize. pose proof Hag as Hag'.
  destruct Hag' as [I1 I2 I3 I4 _ _ _ _ _ _ _ _ _ _ _].
  pose proof (aggregate_flows_valid cs a Hag Hdec ltac:(lia) ltac:(lia) ltac:(lia) ltac:(lia)
    ltac:(lia) ltac:(lia)) as Hvalid.
  unfold ValidateAt. unfold a. rewrite flush_header by (try fold a; try lia; tauto). fold a.
  assert (Hperm : b_flows (fst (flush now a)) ≡ₚ table_flows (a_flows a))
    by apply flush_flows_perm.
  assert (Hv : Forall (fun f => flow_wf f /\ forall i, exists f', validate_flow i f = (f', None))
    (b_flows (fst (flush now a)))) by (by rewrite Hperm).
  destruct (validate_flows_complete (b_flows (fst (flush now a))) 0 no_totals) as (fs' & t' & Hvf).
  { eapply Forall_impl; [exact Hv|]. by intros f [_ Hf]. }
  rewrite Hvf.
  destruct (validate_flows_ok _ 0%nat 0 no_totals _ _
    ltac:(eapply Forall_impl; [exact Hv|]; by intros f [Hf _]) ltac:(lia)
    ltac:(unfold lenZ; rewrite (Permutation_length Hperm); unfold table_flows;
          rewrite length_fmap, length_map_to_list; lia)
    ltac:(unfold totals_le, no_totals; simpl; lia) Hvf)
    as (_ & _ & HF & F1 & F2 & F3 & F4).
  simpl in F1, F2, F3, F4.
  destruct (renamed_totals true _ _ HF) as [E1 E3], (renamed_totals false _ _ HF) as [E2 E4].
  rewrite (flow_total_perm _ _ _ _ Hperm) in E1. rewrite (flow_total_perm _ _ _ _ Hperm) in E2.
  rewrite (flow_total_perm _ _ _ _ Hperm) in E3. rewrite (flow_total_perm _ _ _ _ Hperm) in E4.
  destruct (flow_total_table true (a_flows a)) as [G1 G3].
  destruct (flow_total_table false (a_flows a)) as [G2 G4].
  eexists. cbn [rbind].
  rewrite (flush_counters cs a now t' Hag) by lia. reflexivity.
Qed.

Lemma flush_accepted_witness :
  let cs := [CPacket (mkPacket DirectionInbound (A4 203 0 113 9) "tcp" 22 40000 2 61); CParseError] in
  exists b', ValidateAt (fst (flush (unix_epoch + 10 * second)
    (capture_all cs (NewAggregator "eth0" 4096 unix_epoch)))) (unix_epoch + 11 * second)
  = (b', Ok tt).
Proof.
  intros cs. apply (flush_accepted cs "eth0" 4096 unix_epoch (unix_epoch + 10 * second)).
  - split; vm_compute; discriminate.
  - reflexivity.
  - constructor; [|constructor]. exists example_frame, DirectionInbound. split.
    + apply (bool_decide_unpack (Forall (fun b => 0 <= b < 256) example_frame)).
      vm_compute. exact I.
    + vm_compute. reflexivity.
  - vm_compute. discriminate.
  - vm_compute. discriminate.
  - vm_compute. discriminate.
  - vm_compute. reflexivity.
  - reflexivity.
  - split; vm_compute; discriminate.
Defined.

(** The order of the flows in a batch does not depend on the order in
    which Go iterates the table: any arrangement of its entries that
    [sort.Slice] could leave sorted is the one of the batch, largest byte
    counts first. *)
Theorem flush_order_unique now a entries sorted
    (Hentries : entries ≡ₚ map_to_list (a_flows a))
    (Hperm : sorted ≡ₚ (flow_of <$> entries)) (Hsorted : sorted_by flow_less sorted) :
  sorted = b_flows (fst (flush now a)) /\
  sorted_by gtb (f_bytes <$> sorted).
Proof.
  split.
  - apply (sort_by_unique flow_less tuple_less flow_key_tuple flow_less_tuple);
      [apply table_flows_injective| |done].
    rewrite Hperm. by apply fmap_Permutation.
  - unfold sorted_by, not_less, gtb in *. clear Hperm.
    induction Hsorted as [|x l Hs IH Hd]; [constructor|]. constructor; [done|].
    destruct Hd as [|y l Hy]; constructor.
    unfold flow_less in Hy. case_if_in Hy; [done|]. bool_to_prop. lia.
Qed.

Lemma flush_order_unique_witness :
  let k ip := mkKey "inbound" ip "udp" 53 9 0 in
  let a := set_agg_flows {[ k "192.0.2.1" := mkCounters 1 50; k "192.0.2.9" := mkCounters 2 70 ]}
             (NewAggregator "eth0" 10 second) in
  [flow_of (k "192.0.2.9", mkCounters 2 70); flow_of (k "192.0.2.1", mkCounters 1 50)]
  = b_flows (fst (flush (2 * second) a)).
Proof.
  intros k a.
  apply (flush_order_unique (2 * second) a
    [(k "192.0.2.9", mkCounters 2 70); (k "192.0.2.1", mkCounters 1 50)]).
  - assert (H : map_to_list (a_flows a) = [(k "192.0.2.9", mkCounters 2 70); (k "192.0.2.1", mkCounters 1 50)]
      \/ map_to_list (a_flows a) = [(k "192.0.2.1", mkCounters 1 50); (k "192.0.2.9", mkCounters 2 70)])
      by (vm_compute; first [left; reflexivity|right; reflexivity]).
    destruct H as [-> | ->]; [done|]. apply perm_swap.
  - done.
  - repeat constructor.
Defined.
