(* ===== verification/Delivery.v ===== *)
(** * Delivery of batches from the sensor

    [internal/sensor/delivery.go]: sequence identity and cumulative health per
    interface, loss accounting when a batch cannot be written, commit
    acknowledgements, and the retirement of interfaces.  The socket, the clock
    and the random source appear as the outcome of each attempt; every sequence
    of outcomes is a behaviour of the sender. *)

From S2P Require Export Protocol.

(** [d_health] is the cumulative snapshot that the next batch carries. *)
Record DeliveryState := mkDelivery {
  d_interface : string;
  d_session : string;
  d_sent : Z;
  d_committed : Z;
  d_complete : bool;
  d_reason : string;
  d_health : CollectorHealth }.

(** The pending batches of the source hold nothing but health counters.
    [s_ack] says that a goroutine reads acknowledgements of the connection. *)
Record BatchSender := mkSender {
  s_connected : bool;
  s_ack : bool;
  s_pending : gmap string CollectorHealth;
  s_delivery : gmap string DeliveryState }.

Definition new_sender : BatchSender := mkSender false false ∅ ∅.

Definition set_pending (m : gmap string CollectorHealth) (s : BatchSender) : BatchSender :=
  mkSender (s_connected s) (s_ack s) m (s_delivery s).
Definition set_delivery (m : gmap string DeliveryState) (s : BatchSender) : BatchSender :=
  mkSender (s_connected s) (s_ack s) (s_pending s) m.

(** [s.pending[name]]: the zero batch when there is none. *)
Definition pending_of (s : BatchSender) (name : string) : CollectorHealth :=
  default zero_health (s_pending s !! name).

(** ** Saturating health counters *)

(** [addHealth]: the counter and the saturation flag. *)
Definition addHealth (destination value maximum : Z) (saturated : bool) : Z * bool :=
  if (maximum <? destination) || (maximum - destination <? value)
  then (maximum, true) else (destination + value, saturated).

(** [mergeHealth]. *)
Definition mergeHealth (d s : CollectorHealth) : CollectorHealth :=
  let sat := h_saturated d || h_saturated s in
  let '(kp, sat) := addHealth (h_kernel_packets d) (h_kernel_packets s) MaxBatchPackets sat in
  let '(kd, sat) := addHealth (h_kernel_drops d) (h_kernel_drops s) MaxBatchPackets sat in
  let '(ke, sat) :=
    addHealth (h_kernel_stats_errors d) (h_kernel_stats_errors s) MaxBatchPackets sat in
  let '(pe, sat) := addHealth (h_parse_errors d) (h_parse_errors s) MaxBatchPackets sat in
  let '(op, sat) := addHealth (h_overflow_packets d) (h_overflow_packets s) MaxBatchPackets sat in
  let '(ob, sat) := addHealth (h_overflow_bytes d) (h_overflow_bytes s) MaxBatchBytes sat in
  let '(ib, sat) := addHealth (h_ipc_batches d) (h_ipc_batches s) MaxBatchPackets sat in
  let '(ip, sat) := addHealth (h_ipc_packets d) (h_ipc_packets s) MaxBatchPackets sat in
  let '(iy, sat) := addHealth (h_ipc_bytes d) (h_ipc_bytes s) MaxBatchBytes sat in
  mkHealth ob op pe kp kd ke ib ip iy sat.

(** The five [addHealth] calls for a batch that was not delivered. *)
Definition add_loss (b : Batch) (h : CollectorHealth) : CollectorHealth :=
  let '(ib, sat) := addHealth (h_ipc_batches h) 1 MaxBatchPackets (h_saturated h) in
  let '(ip, sat) := addHealth (h_ipc_packets h) (b_rx_packets b) MaxBatchPackets sat in
  let '(ip, sat) := addHealth ip (b_tx_packets b) MaxBatchPackets sat in
  let '(iy, sat) := addHealth (h_ipc_bytes h) (b_rx_bytes b) MaxBatchBytes sat in
  let '(iy, sat) := addHealth iy (b_tx_bytes b) MaxBatchBytes sat in
  mkHealth (h_overflow_bytes h) (h_overflow_packets h) (h_parse_errors h)
    (h_kernel_packets h) (h_kernel_drops h) (h_kernel_stats_errors h) ib ip iy sat.

(** ** Operations *)

Inductive send_error :=
| SInvalidInterface | SPendingCapacity | SDeliveryCapacity | SNoSession
| SSequenceExhausted | SDeadline | SConnect | SSetDeadline | SWrite.

(** [identify]: [nonce] is the session that [crypto/rand] yields, if it does. *)
Definition identify (b : Batch) (nonce : option string) (s : BatchSender)
    : BatchSender * result send_error Batch :=
  if b_version b <? 5 then (s, Ok b)
  else
    let name := b_interface b in
    let found :=
      match s_delivery s !! name with
      | Some st => Ok (st, s)
      | None =>
          if MaxInterfaces <=? Z.of_nat (size (s_delivery s)) then Err SDeliveryCapacity
          else
            match nonce with
            | None => Err SNoSession
            | Some session =>
                let st := mkDelivery name session 0 0 false "unconfirmed" (pending_of s name) in
                Ok (st, set_delivery (<[name := st]> (s_delivery s)) s)
            end
      end in
    match found with
    | Err e => (s, Err e)
    | Ok (st, s) =>
        if i64_max <=? d_sent st then
          (set_delivery (<[name := mkDelivery (d_interface st) (d_session st) (d_sent st)
                             (d_committed st) false "sequence_exhausted" (d_health st)]>
                           (s_delivery s)) s,
           Err SSequenceExhausted)
        else
          let health := mergeHealth (d_health st) (b_health b) in
          let st' := mkDelivery (d_interface st) (d_session st) (d_sent st + 1)
                       (d_committed st) false "unconfirmed" health in
          (set_delivery (<[name := st']> (s_delivery s)) s,
           Ok (Apply health (set_identity (d_session st) (d_sent st + 1) b)))
    end.

(** [retainLoss]. *)
Definition retainLoss (b : Batch) (s : BatchSender) : BatchSender :=
  let name := b_interface b in
  if (5 <=? b_version b) && negb (b_session b =?s "") then
    match s_delivery s !! name with
    | Some st =>
        let st' := mkDelivery (d_interface st) (d_session st) (d_sent st) (d_committed st)
                     false "transport_failed" (add_loss b (d_health st)) in
        mkSender (s_connected s) (s_ack s)
          (<[name := add_loss b (pending_of s name)]> (s_pending s))
          (<[name := st']> (s_delivery s))
    | None => s
    end
  else
    set_pending (<[name := add_loss b (mergeHealth zero_health (b_health b))]> (s_pending s)) s.

(** [Close]; its error is ignored by every caller here. *)
Definition Close (s : BatchSender) : BatchSender :=
  mkSender false (if s_connected s then false else s_ack s) (s_pending s) (s_delivery s).

(** One acknowledgement in [readACKs]. *)
Definition ack_valid (a : CommitACK) : bool :=
  (ack_version a =? Version) && ValidSessionID (ack_session a)
  && ValidInterfaceName (ack_interface a) && negb (ack_sequence a =? 0)
  && negb ((ack_sequence a <? ack_committed a) && negb (ack_duplicate a))
  && (string_len (ack_reason a) <=? 64).

Definition ack_complete_all (a : CommitACK) : bool :=
  ack_complete a && ack_health a && ack_traffic a && ack_events a && ack_notifications a.

Definition ack_state (a : CommitACK) (st : DeliveryState) : DeliveryState :=
  let committed :=
    if ack_health a && ack_traffic a && (d_committed st <=? ack_committed a)
    then ack_committed a else d_committed st in
  if ack_sequence a =? d_sent st then
    mkDelivery (d_interface st) (d_session st) (d_sent st) committed (ack_complete_all a)
      (ack_reason a) (d_health st)
  else
    mkDelivery (d_interface st) (d_session st) (d_sent st) committed (d_complete st)
      (d_reason st) (d_health st).

Definition readACK (a : CommitACK) (s : BatchSender) : BatchSender :=
  if negb (ack_valid a) then s
  else
    match s_delivery s !! ack_interface a with
    | Some st =>
        if (d_session st =?s ack_session a) && (ack_sequence a <=? d_sent st)
           && (ack_committed a <=? d_sent st)
        then set_delivery (<[ack_interface a := ack_state a st]> (s_delivery s)) s
        else s
    | None => s
    end.

(** What the environment does during one [sendBefore]: the session drawn, the
    reader of acknowledgements having ended, time left, the outcomes of
    [connect] (and whether the connection can be read), [SetWriteDeadline] and
    [WriteFrame], and whether the peer got the whole frame although the write
    failed.  [at_acks] are the acknowledgements that the reading goroutine
    handles between [identify] and the end of the attempt. *)
Record attempt := mkAttempt {
  at_nonce : option string;
  at_ack_done : bool;
  at_time_left : bool;
  at_connect : bool;
  at_reader : bool;
  at_deadline : bool;
  at_write : bool;
  at_received : bool;
  at_acks : list CommitACK }.

(** Connecting when there is no connection: [inl] the error. *)
Definition open_connection (at' : attempt) (s : BatchSender) : BatchSender * option send_error :=
  if negb (at_time_left at') then (s, Some SDeadline)
  else if s_connected s then (s, None)
  else if at_connect at' then
    (mkSender true (at_reader at' || s_ack s) (s_pending s) (s_delivery s), None)
  else (s, Some SConnect).

(** The rest of [sendBefore], once the batch is identified. *)
Definition transmit (b : Batch) (at' : attempt) (s : BatchSender)
    : BatchSender * option send_error * option Batch :=
  let s := if s_ack s && at_ack_done at' then Close s else s in
  let '(s, err) := open_connection at' s in
  let s := foldl (fun s a => readACK a s) s (at_acks at') in
  let err := match err with
             | Some e => Some e
             | None => if at_deadline at' then None else Some SSetDeadline
             end in
  match err with
  | Some e => (Close (retainLoss b s), Some e, None)
  | None =>
      if at_write at' then
        (set_pending (delete (b_interface b) (s_pending s)) s, None, Some b)
      else
        (Close (retainLoss b s), Some SWrite,
         if at_received at' then Some b else None)
  end.

(** [sendBefore]: the sender, the error, and the batch that reached the peer. *)
Definition sendBefore (b : Batch) (at' : attempt) (s : BatchSender)
    : BatchSender * option send_error * option Batch :=
  let name := b_interface b in
  if negb (ValidInterfaceName name) then (s, Some SInvalidInterface, None)
  else if bool_decide (s_pending s !! name = None)
          && (MaxInterfaces <=? Z.of_nat (size (s_pending s)))
  then (s, Some SPendingCapacity, None)
  else
    let b := if b_version b <? 5 then Apply (mergeHealth (b_health b) (pending_of s name)) b else b in
    match identify b (at_nonce at') s with
    | (s, Err e) => (retainLoss b s, Some e, None)
    | (s, Ok b) =>
        transmit b at' s
    end.

(** [discard]. *)
Definition discard (b : Batch) (nonce : option string) (s : BatchSender) : BatchSender :=
  let '(s, r) := identify b nonce s in
  let b := match r with Ok b => b | Err _ => b end in
  let b := if b_version b <? 5
           then Apply (mergeHealth (b_health b) (pending_of s (b_interface b))) b else b in
  Close (retainLoss b s).

(** [RetireInterface]: the losses it reports. *)
Definition RetireInterface (name : string) (s : BatchSender) : BatchSender * (Z * Z * Z) :=
  let p := pending_of s name in
  (mkSender (s_connected s) (s_ack s) (delete name (s_pending s)) (delete name (s_delivery s)),
   (h_ipc_batches p, h_ipc_packets p, h_ipc_bytes p)).

(** [PendingLoss], whose sums are over a map in any order. *)
Definition PendingLoss (s : BatchSender) : Z * Z * Z :=
  let total f := foldr (fun p n => add_u64 n (f p)) 0 (snd <$> map_to_list (s_pending s)) in
  (total h_ipc_batches, total h_ipc_packets, total h_ipc_bytes).

(** [DeliveryStatus]. *)
Definition DeliveryStatus (s : BatchSender) : list DeliveryState :=
  sort_by (fun x y => string_lt (d_interface x) (d_interface y))
    (snd <$> map_to_list (s_delivery s)).

(** ** Traces *)

Inductive sender_op :=
| OSend (b : Batch) (a : attempt)
| ODiscard (b : Batch) (nonce : option string)
| OAck (a : CommitACK)
| ORetire (name : string).

(** The next state and the batch that reached the daemon, if one did. *)
Definition sender_step (s : BatchSender) (op : sender_op) : BatchSender * option Batch :=
  match op with
  | OSend b a => let '(s, _, w) := sendBefore b a s in (s, w)
  | ODiscard b nonce => (discard b nonce s, None)
  | OAck a => (readACK a s, None)
  | ORetire name => (fst (RetireInterface name s), None)
  end.

Fixpoint sender_run (s : BatchSender) (ops : list sender_op) : BatchSender * list Batch :=
  match ops with
  | [] => (s, [])
  | op :: ops =>
      let '(s, w) := sender_step s op in
      let '(s, ws) := sender_run s ops in
      (s, match w with Some b => b :: ws | None => ws end)
  end.

(** ** Saturating counters only grow *)

Definition health_wf (h : CollectorHealth) : Prop := health_nonneg h /\ health_bounded h.

(** Counters of a batch as the sensor fills them. *)
Definition input_ok (b : Batch) : Prop :=
  health_nonneg (b_health b) /\ 0 <= b_rx_packets b /\ 0 <= b_tx_packets b /\
  0 <= b_rx_bytes b /\ 0 <= b_tx_bytes b.

Lemma addHealth_spec d v m sat r sat' :
  0 <= d <= m -> 0 <= v -> addHealth d v m sat = (r, sat') ->
  d <= r <= m /\ (sat = true -> sat' = true) /\ (sat' = false -> sat = false /\ r = d + v).
Proof.
  unfold addHealth. intros Hd Hv. case_if; intros [= <- <-]; bool_to_prop.
  - split; [lia|]. split; [done|discriminate].
  - split; [lia|]. auto.
Qed.

(** Destructs the chain of [addHealth] calls, recording what each one did. *)
Ltac health_chain :=
  repeat match goal with
  | |- context [addHealth ?d ?v ?m ?sat] =>
      let r := fresh "r" in let sat' := fresh "sat" in let E := fresh "E" in
      destruct (addHealth d v m sat) as [r sat'] eqn:E;
      apply addHealth_spec in E; [|lia|lia]; destruct E as (? & ? & ?)
  end.

Ltac health_unfold :=
  unfold health_wf, health_nonneg, health_bounded, health_le, health_counters, health_limits in *;
  cbn [h_overflow_bytes h_overflow_packets h_parse_errors h_kernel_packets h_kernel_drops
    h_kernel_stats_errors h_ipc_batches h_ipc_packets h_ipc_bytes h_saturated] in *;
  rewrite ?Forall_cons, ?Forall_nil, ?Forall2_cons, ?Forall2_nil in *;
  unfold MaxBatchBytes, MaxBatchPackets in *.

(** Follows the saturation flag through the chain, up or down. *)
Ltac flag_chain :=
  repeat match goal with
  | H : true = true -> _ |- _ => specialize (H eq_refl)
  | H : ?x = true, H' : ?x = true -> _ |- _ => specialize (H' H)
  | H : ?x = false, H' : ?x = false -> _ |- _ => specialize (H' H); destruct H'
  end.

Lemma mergeHealth_spec d s :
  health_wf d -> health_nonneg s ->
  health_wf (mergeHealth d s) /\ health_le d (mergeHealth d s) /\
  (h_saturated (mergeHealth d s) = false -> mergeHealth d s = health_add d s).
Proof.
  intros Hd Hs. destruct d as [a1 a2 a3 a4 a5 a6 a7 a8 a9 sa].
  destruct s as [c1 c2 c3 c4 c5 c6 c7 c8 c9 sc]. unfold mergeHealth. health_unfold.
  health_chain. health_unfold. split_and!; try lia.
  - destruct sa; [|done]. simpl in *. flag_chain. subst. done.
  - intros Hsat. flag_chain. destruct sa, sc; try discriminate.
    unfold health_add. cbn. f_equal; lia || done.
Qed.

Lemma add_loss_spec b h :
  input_ok b -> health_wf h ->
  health_wf (add_loss b h) /\ health_le h (add_loss b h) /\
  (h_saturated (add_loss b h) = false ->
   add_loss b h = health_add h
     (mkHealth 0 0 0 0 0 0 1 (b_rx_packets b + b_tx_packets b)
        (b_rx_bytes b + b_tx_bytes b) false)).
Proof.
  intros (_ & Hb) Hh. destruct h as [a1 a2 a3 a4 a5 a6 a7 a8 a9 sa].
  unfold add_loss. health_unfold. health_chain. health_unfold. split_and!; try lia.
  - destruct sa; [|done]. flag_chain. subst. done.
  - intros Hsat. flag_chain. unfold health_add. cbn. f_equal; lia || done.
Qed.

Lemma zero_health_wf : health_wf zero_health.
Proof. health_unfold. simpl. lia. Qed.

(** ** Invariant of the sender *)

Definition delivery_ok (name : string) (st : DeliveryState) : Prop :=
  d_interface st = name /\ health_wf (d_health st) /\
  0 <= d_committed st <= d_sent st /\ d_sent st <= i64_max.

Record sender_ok (s : BatchSender) : Prop := {
  so_pending : map_Forall (fun _ h => health_wf h) (s_pending s);
  so_delivery : map_Forall delivery_ok (s_delivery s);
  so_delivery_size : Z.of_nat (size (s_delivery s)) <= MaxInterfaces }.

Lemma pending_of_wf s name : sender_ok s -> health_wf (pending_of s name).
Proof.
  intros Hs. unfold pending_of. destruct (s_pending s !! name) as [h|] eqn:E; simpl.
  - by apply (so_pending _ Hs name).
  - apply zero_health_wf.
Qed.

(** How the state of one interface may change within a session. *)
Definition advances (o o' : option DeliveryState) : Prop :=
  match o, o' with
  | Some st, Some st' =>
      d_session st' = d_session st /\ d_sent st <= d_sent st' /\
      health_le (d_health st) (d_health st')
  | Some _, None => False
  | None, _ => True
  end.

Lemma advances_refl o : advances o o.
Proof. destruct o; simpl; [|done]. split_and!; [done|lia|reflexivity]. Qed.

Lemma advances_trans o1 o2 o3 : advances o1 o2 -> advances o2 o3 -> advances o1 o3.
Proof.
  destruct o1, o2, o3; simpl; try tauto. intros (-> & ? & ?) (-> & ? & ?).
  split_and!; [done|lia|by etransitivity].
Qed.

Lemma health_saturates_wf b : input_ok b -> health_wf (mergeHealth zero_health (b_health b)).
Proof. intros (Hb & _). apply mergeHealth_spec; [apply zero_health_wf|done]. Qed.

Lemma retainLoss_ok b s :
  input_ok b -> sender_ok s ->
  sender_ok (retainLoss b s) /\
  forall i, advances (s_delivery s !! i) (s_delivery (retainLoss b s) !! i).
Proof.
  intros Hb Hs. unfold retainLoss. cbv zeta.
  destruct ((5 <=? b_version b) && negb (b_session b =?s "")).
  - destruct (s_delivery s !! b_interface b) as [st|] eqn:E; [|split; [done|intros; apply advances_refl]].
    destruct (so_delivery _ Hs _ _ E) as (Hn & Hw & Hc & Hm).
    destruct (add_loss_spec b (d_health st) Hb Hw) as (Hw' & Hle & _).
    split; [constructor; simpl|].
    + apply map_Forall_insert_2; [|apply Hs].
      apply add_loss_spec; [done|by apply pending_of_wf].
    + apply map_Forall_insert_2; [|apply Hs]. split_and!; simpl; auto; lia.
    + rewrite map_size_insert_Some by eauto. apply Hs.
    + intros i. simpl. destruct (decide (i = b_interface b)) as [->|].
      * rewrite lookup_insert_eq, E. simpl. split_and!; [done|lia|done].
      * rewrite lookup_insert_ne by done. apply advances_refl.
  - split; [constructor; simpl; [|apply Hs..]|intros; apply advances_refl].
    apply map_Forall_insert_2; [|apply Hs].
    apply add_loss_spec; [done|by apply health_saturates_wf].
Qed.

Lemma Close_ok s : sender_ok s -> sender_ok (Close s).
Proof. intros [? ? ?]. by constructor. Qed.

(** What [identify] gives when it succeeds on a batch of version 5. *)
Lemma identify_ok b nonce s s' r :
  input_ok b -> sender_ok s -> identify b nonce s = (s', r) ->
  sender_ok s' /\ s_pending s' = s_pending s /\
  (forall i, advances (s_delivery s !! i) (s_delivery s' !! i)) /\
  match r with
  | Err _ => True
  | Ok b' =>
      input_ok b' /\ b_interface b' = b_interface b /\ b_version b' = b_version b /\
      (5 <= b_version b -> exists st',
         s_delivery s' !! b_interface b = Some st' /\
         b_session b' = d_session st' /\ b_sequence b' = d_sent st' /\
         b_health b' = d_health st' /\ 1 <= d_sent st' /\
         match s_delivery s !! b_interface b with
         | Some st => d_sent st < d_sent st' /\ d_health st' = mergeHealth (d_health st) (b_health b)
         | None => d_health st' = mergeHealth (pending_of s (b_interface b)) (b_health b)
         end)
  end.
Proof.
  intros Hb Hs. pose proof Hb as (Hbh & Hb1 & Hb2 & Hb3 & Hb4). unfold identify.
  destruct (b_version b <? 5) eqn:Ev; bool_to_prop.
  { intros [= <- <-]. split_and!; auto using advances_refl. intros; lia. }
  cbv zeta. set (name := b_interface b).
  destruct (s_delivery s !! name) as [st|] eqn:E.
  - destruct (so_delivery _ Hs _ _ E) as (Hn & Hw & Hc & Hm).
    destruct (mergeHealth_spec (d_health st) (b_health b) Hw Hbh) as (Hw' & Hle & _).
    destruct (i64_max <=? d_sent st) eqn:Ei; intros [= <- <-]; bool_to_prop.
    + split_and!; [constructor; simpl|done| |done].
      * apply Hs.
      * apply map_Forall_insert_2; [|apply Hs]. split_and!; simpl; auto; lia.
      * rewrite map_size_insert_Some by eauto. apply Hs.
      * intros i. simpl. destruct (decide (i = name)) as [->|].
        -- rewrite lookup_insert_eq, E. simpl. split_and!; [done|lia|reflexivity].
        -- rewrite lookup_insert_ne by done. apply advances_refl.
    + split_and!; [constructor; simpl|done| | | |..]; simpl; auto.
      * apply Hs.
      * apply map_Forall_insert_2; [|apply Hs]. split_and!; simpl; auto; lia.
      * rewrite map_size_insert_Some by eauto. apply Hs.
      * intros i. destruct (decide (i = name)) as [->|].
        -- rewrite lookup_insert_eq, E. simpl. split_and!; [done|lia|done].
        -- rewrite lookup_insert_ne by done. apply advances_refl.
      * split_and!; simpl; auto. apply Hw'.
      * intros _. eexists. rewrite lookup_insert_eq. split; [done|]. simpl.
        split_and!; try done; lia.
  - destruct (MaxInterfaces <=? Z.of_nat (size (s_delivery s))) eqn:Esz; bool_to_prop.
    { intros [= <- <-]. split_and!; auto using advances_refl. }
    destruct nonce as [session|].
    2:{ intros [= <- <-]. split_and!; auto using advances_refl. }
    cbn [d_sent]. change (i64_max <=? 0) with false. cbv iota.
    cbn [d_interface d_session d_committed d_health]. intros [= <- <-].
    pose proof (pending_of_wf s name Hs) as Hw.
    destruct (mergeHealth_spec (pending_of s name) (b_health b) Hw Hbh) as (Hw' & Hle & _).
    rewrite insert_insert_eq.
    split_and!; [constructor; simpl|done| | | |..]; simpl; auto.
    + apply Hs.
    + apply map_Forall_insert_2; [|apply Hs]. split_and!; simpl; auto; zlia.
    + rewrite map_size_insert_None by done. lia.
    + intros i. destruct (decide (i = name)) as [->|].
      * by rewrite E.
      * rewrite lookup_insert_ne by done. apply advances_refl.
    + split_and!; simpl; auto. apply Hw'.
    + intros _. eexists. rewrite lookup_insert_eq. split; [done|]. simpl. split_and!; try done; lia.
Qed.

(** An acknowledgement changes neither the session, the sequence nor the health. *)
Lemma readACK_delivery a s i :
  s_delivery (readACK a s) !! i
  = match s_delivery s !! i with
    | Some st =>
        Some (if ack_valid a && (ack_interface a =?s i) && (d_session st =?s ack_session a)
                 && (ack_sequence a <=? d_sent st) && (ack_committed a <=? d_sent st)
              then ack_state a st else st)
    | None => None
    end.
Proof.
  unfold readACK. destruct (ack_valid a); simpl; [|by destruct (s_delivery s !! i)].
  destruct (String.eqb_spec (ack_interface a) i) as [->|Hne]; simpl.
  - destruct (s_delivery s !! i) as [st|] eqn:E; [|by rewrite E].
    case_if; simpl; [by rewrite lookup_insert_eq|by rewrite E].
  - destruct (s_delivery s !! ack_interface a) as [st'|] eqn:E.
    + destruct (_ && _); simpl; [rewrite lookup_insert_ne by done|]; by destruct (s_delivery s !! i).
    + by destruct (s_delivery s !! i).
Qed.

Lemma ack_state_same a st :
  d_interface (ack_state a st) = d_interface st /\ d_session (ack_state a st) = d_session st /\
  d_sent (ack_state a st) = d_sent st /\ d_health (ack_state a st) = d_health st.
Proof. unfold ack_state. by case_if. Qed.

Lemma ack_state_committed a st :
  ack_committed a <= d_sent st -> 0 <= d_committed st <= d_sent st ->
  0 <= d_committed (ack_state a st) <= d_sent st /\
  d_committed st <= d_committed (ack_state a st).
Proof.
  intros Ha Hc. unfold ack_state.
  destruct (ack_sequence a =? d_sent st), (ack_health a), (ack_traffic a); simpl;
    repeat case_if; bool_to_prop; simpl; lia.
Qed.

(** The same per-interface records up to what acknowledgements may change. *)
Definition same_health (o o' : option DeliveryState) : Prop :=
  match o, o' with
  | Some st, Some st' =>
      d_interface st' = d_interface st /\ d_session st' = d_session st /\
      d_sent st' = d_sent st /\ d_health st' = d_health st
  | None, None => True
  | _, _ => False
  end.

Lemma same_health_advances o o' : same_health o o' -> advances o o'.
Proof.
  destruct o, o'; simpl; try done. intros (_ & -> & -> & ->). split_and!; [done|lia|reflexivity].
Qed.

Lemma readACK_ok a s : sender_ok s ->
  sender_ok (readACK a s) /\ s_pending (readACK a s) = s_pending s /\
  forall i, same_health (s_delivery s !! i) (s_delivery (readACK a s) !! i).
Proof.
  intros Hs. split_and!.
  - constructor.
    + unfold readACK. repeat case_match; apply Hs.
    + intros i st Hi. rewrite readACK_delivery in Hi.
      destruct (s_delivery s !! i) as [st0|] eqn:E; [|done]. injection Hi as <-.
      pose proof (so_delivery _ Hs _ _ E) as Hst. case_if; [|done]. bool_to_prop.
      destruct Hst as (Hn & Hw & Hc & Hm). destruct (ack_state_same a st0) as (A1 & A2 & A3 & A4).
      pose proof (ack_state_committed a st0 ltac:(assumption) Hc) as [Hc' _].
      unfold delivery_ok. rewrite A1, A3, A4. auto.
    + unfold readACK. repeat case_match; try apply Hs. simpl.
      rewrite map_size_insert_Some by eauto. apply Hs.
  - unfold readACK. repeat case_match; done.
  - intros i. rewrite readACK_delivery. destruct (s_delivery s !! i) as [st|]; [|done].
    case_if; simpl; [|done]. destruct (ack_state_same a st) as (? & ? & ? & ?). auto.
Qed.

Lemma readACKs_ok acks : forall s, sender_ok s ->
  let s' := foldl (fun s a => readACK a s) s acks in
  sender_ok s' /\ s_pending s' = s_pending s /\
  forall i, same_health (s_delivery s !! i) (s_delivery s' !! i).
Proof.
  induction acks as [|a acks IH]; intros s Hs; simpl.
  - split_and!; [done|done|]. intros i. destruct (s_delivery s !! i); simpl; auto.
  - destruct (readACK_ok a s Hs) as (Hs1 & Hp1 & Hd1).
    destruct (IH _ Hs1) as (Hs2 & Hp2 & Hd2). split_and!; [done|congruence|].
    intros i. specialize (Hd1 i). specialize (Hd2 i).
    destruct (s_delivery s !! i), (s_delivery (readACK a s) !! i),
      (s_delivery (foldl (fun s a => readACK a s) (readACK a s) acks) !! i); simpl in *; try done.
    destruct Hd1 as (? & ? & ? & ?), Hd2 as (? & ? & ? & ?). split_and!; congruence.
Qed.

Lemma open_connection_same at' s :
  s_pending (fst (open_connection at' s)) = s_pending s /\
  s_delivery (fst (open_connection at' s)) = s_delivery s.
Proof. unfold open_connection. by repeat case_if. Qed.

Lemma sender_ok_same s s' :
  s_pending s' = s_pending s -> s_delivery s' = s_delivery s -> sender_ok s -> sender_ok s'.
Proof. intros Hp Hd [? ? ?]. constructor; by rewrite ?Hp, ?Hd. Qed.

(** What a step does to the records, and what the batch it delivers carries. *)
Definition step_effect (s s' : BatchSender) (w : option Batch) : Prop :=
  (forall i, advances (s_delivery s !! i) (s_delivery s' !! i)) /\
  match w with
  | Some b => b_version b < 5 \/ exists st',
      s_delivery s' !! b_interface b = Some st' /\
      b_session b = d_session st' /\ 1 <= b_sequence b <= d_sent st' /\
      health_wf (b_health b) /\ health_le (b_health b) (d_health st') /\
      match s_delivery s !! b_interface b with
      | Some st => d_sent st < b_sequence b /\ health_le (d_health st) (b_health b)
      | None => True
      end
  | None => True
  end.

Lemma input_ok_apply h b : health_nonneg h -> input_ok b -> input_ok (Apply h b).
Proof. intros Hh (_ & Hb). split; [done|exact Hb]. Qed.

(** The batch that [sendBefore] identifies: merged with the pending losses for
    the old protocol. *)
Definition outgoing (b : Batch) (s : BatchSender) : Batch :=
  if b_version b <? 5
  then Apply (mergeHealth (b_health b) (pending_of s (b_interface b))) b else b.

Lemma outgoing_fields b s :
  b_interface (outgoing b s) = b_interface b /\ b_version (outgoing b s) = b_version b
  /\ (5 <= b_version b -> outgoing b s = b).
Proof. unfold outgoing. case_if; bool_to_prop; split_and!; auto. intros; lia. Qed.

Lemma mergeHealth_nonneg d s :
  health_nonneg d -> health_nonneg s -> health_nonneg (mergeHealth d s).
Proof.
  assert (Hadd : forall d v m sat r sat', 0 <= d -> 0 <= v -> 0 <= m ->
    addHealth d v m sat = (r, sat') -> 0 <= r).
  { intros d' v m sat r sat' Hd Hv Hm. unfold addHealth. case_if; intros [= <- <-]; lia. }
  intros Hd Hs. unfold mergeHealth. health_unfold.
  repeat match goal with
  | |- context [addHealth ?d ?v ?m ?sat] =>
      let E := fresh "E" in destruct (addHealth d v m sat) eqn:E; apply Hadd in E; [|lia..]
  end.
  health_unfold. lia.
Qed.

Lemma outgoing_ok b s : input_ok b -> sender_ok s -> input_ok (outgoing b s).
Proof.
  intros Hb Hs. unfold outgoing. case_if; [|done].
  apply input_ok_apply; [|done]. apply mergeHealth_nonneg; [apply Hb|].
  apply (pending_of_wf s _ Hs).
Qed.

Lemma same_health_some o o' st : same_health o o' -> o = Some st ->
  exists st', o' = Some st' /\ d_session st' = d_session st /\ d_sent st' = d_sent st
              /\ d_health st' = d_health st.
Proof. intros H ->. destruct o' as [st'|]; [|done]. destruct H as (_ & ? & ? & ?). eauto. Qed.

(** The two ways an attempt ends: written, or lost after the acknowledgements of
    the meantime. *)
Lemma transmit_cases b at' s s' err w :
  transmit b at' s = (s', err, w) ->
  exists s3, s_pending s3 = s_pending s /\ s_delivery s3 = s_delivery s /\
  let s4 := foldl (fun s a => readACK a s) s3 (at_acks at') in
  (err = None /\ w = Some b /\ s' = set_pending (delete (b_interface b) (s_pending s4)) s4) \/
  (err <> None /\ err <> Some SInvalidInterface /\ err <> Some SPendingCapacity /\
   (w = None \/ w = Some b) /\ s' = Close (retainLoss b s4)).
Proof.
  unfold transmit. cbv zeta.
  set (s2 := if s_ack s && at_ack_done at' then Close s else s).
  assert (H2 : s_pending s2 = s_pending s /\ s_delivery s2 = s_delivery s)
    by (unfold s2; by case_if).
  destruct H2 as [H2p H2d].
  destruct (open_connection at' s2) as [s3 e3] eqn:Eo.
  destruct (open_connection_same at' s2) as [H3p H3d]. rewrite Eo in H3p, H3d. cbn [fst] in *.
  intros H. exists s3. split; [congruence|]. split; [congruence|].
  assert (Hreal : forall e, e3 = Some e -> e = SDeadline \/ e = SConnect).
  { intros e ->. unfold open_connection in Eo. repeat (case_if_in Eo; try discriminate);
      injection Eo as _ <-; auto. }
  destruct e3 as [e|]; [|destruct (at_deadline at')].
  - injection H as <- <- <-. right. destruct (Hreal e eq_refl) as [-> | ->];
      split_and!; try discriminate; auto.
  - destruct (at_write at'); injection H as <- <- <-; [by left|right].
    split_and!; try discriminate; auto. destruct (at_received at'); auto.
  - injection H as <- <- <-. right. split_and!; try discriminate; auto.
Qed.

Lemma same_health_refl o : same_health o o.
Proof. destruct o; simpl; auto. Qed.

(** After an attempt the record of the interface keeps its sequence, and its
    health grows by the loss when the attempt failed. *)
Lemma transmit_effect b at' s s' err w :
  input_ok b -> sender_ok s -> transmit b at' s = (s', err, w) ->
  sender_ok s' /\ (forall i, advances (s_delivery s !! i) (s_delivery s' !! i)) /\
  (w = None \/ w = Some b) /\
  (forall st, s_delivery s !! b_interface b = Some st -> 5 <= b_version b -> b_session b <> ""%string ->
   exists st', s_delivery s' !! b_interface b = Some st' /\ d_sent st' = d_sent st /\
     d_session st' = d_session st /\
     d_health st' = match err with Some _ => add_loss b (d_health st) | None => d_health st end).
Proof.
  intros Hb Hs H. destruct (transmit_cases _ _ _ _ _ _ H) as (s3 & Hp & Hd & Hcase).
  assert (Hs3 : sender_ok s3) by (by apply (sender_ok_same s)).
  destruct (readACKs_ok (at_acks at') s3 Hs3) as (Hs4 & Hp4 & Hd4).
  cbv zeta in Hcase. set (s4 := foldl (fun s a => readACK a s) s3 (at_acks at')) in *.
  assert (Hadv : forall i, advances (s_delivery s !! i) (s_delivery s4 !! i)).
  { intros i. rewrite <- Hd. apply same_health_advances, Hd4. }
  rewrite Hd in Hd4.
  destruct Hcase as [(-> & -> & ->)|(Hne & _ & _ & Hw & ->)].
  - split_and!; [|done|by right|].
    + constructor; simpl; [apply map_Forall_delete|..]; apply Hs4.
    + intros st E _ _. destruct (same_health_some _ _ _ (Hd4 _) E) as (st4 & E4 & ? & ? & ?).
      exists st4. simpl. auto.
  - destruct (retainLoss_ok b s4 Hb Hs4) as [Hs5 Hadv5]. split_and!; [by apply Close_ok| |done|].
    + intros i. eapply advances_trans; [apply Hadv|apply Hadv5].
    + intros st E Hv Hsess. destruct (same_health_some _ _ _ (Hd4 _) E) as (st4 & E4 & G1 & G2 & G3).
      destruct err as [e|]; [|done]. unfold retainLoss. cbv zeta. rewrite E4.
      apply String.eqb_neq in Hsess. rewrite Hsess.
      replace (5 <=? b_version b) with true by lia. cbn.
      eexists. rewrite lookup_insert_eq. split; [done|]. cbn. by rewrite G1, G2, G3.
Qed.

(** Either the sender refused before identifying the batch, or it identified
    and transmitted it. *)
Lemma sendBefore_cases b at' s s' err w :
  sendBefore b at' s = (s', err, w) ->
  (s' = s /\ w = None /\ (err = Some SInvalidInterface \/ err = Some SPendingCapacity)) \/
  (exists s1, identify (outgoing b s) (at_nonce at') s = (s1, Err (default SWrite err)) /\
     err <> None /\ w = None /\ s' = retainLoss (outgoing b s) s1) \/
  (exists s1 b', identify (outgoing b s) (at_nonce at') s = (s1, Ok b') /\
     transmit b' at' s1 = (s', err, w)).
Proof.
  unfold sendBefore. cbv zeta.
  destruct (negb _); [intros [= <- <- <-]; auto|].
  destruct (_ && _); [intros [= <- <- <-]; auto|].
  fold (outgoing b s). destruct (identify (outgoing b s) (at_nonce at') s) as [s1 [b'|e]].
  - intros H. right; right. by exists s1, b'.
  - intros [= <- <- <-]. right; left. exists s1. by split_and!.
Qed.

Lemma sendBefore_effect b at' s s' err w :
  input_ok b -> sender_ok s -> sendBefore b at' s = (s', err, w) ->
  sender_ok s' /\ step_effect s s' w.
Proof.
  intros Hb Hs H. pose proof (outgoing_ok b s Hb Hs) as Hb1.
  destruct (sendBefore_cases _ _ _ _ _ _ H)
    as [(-> & -> & _)|[(s1 & Ei & _ & -> & ->)|(s1 & b2 & Ei & Ht)]].
  - split; [done|]. split; [intros; apply advances_refl|done].
  - destruct (identify_ok _ _ _ _ _ Hb1 Hs Ei) as (Hs1 & _ & Hadv1 & _).
    destruct (retainLoss_ok _ s1 Hb1 Hs1) as [Hs2 Hadv2].
    split; [done|]. split; [|done]. intros i. eapply advances_trans; eauto.
  - destruct (identify_ok _ _ _ _ _ Hb1 Hs Ei) as (Hs1 & _ & Hadv1 & Hb2 & Hname & Hver & Hst).
    destruct (transmit_effect _ _ _ _ _ _ Hb2 Hs1 Ht) as (Hs' & Hadv2 & Hw & _).
    split; [done|]. split; [intros i; eapply advances_trans; [apply Hadv1|apply Hadv2]|].
    destruct Hw as [-> | ->]; [done|].
    destruct (decide (b_version b2 < 5)) as [|Hv5]; [by left|right]. rewrite Hver in Hv5.
    destruct (Hst ltac:(lia)) as (st1 & E1 & F1 & F2 & F3 & F4 & F5). rewrite Hname.
    pose proof (Hadv2 (b_interface (outgoing b s))) as Ha. rewrite E1 in Ha.
    destruct (s_delivery s' !! b_interface (outgoing b s)) as [st'|] eqn:E'; [|done].
    destruct Ha as (L1 & L2 & L3). destruct (so_delivery _ Hs1 _ _ E1) as (_ & Hw1 & _).
    exists st'. rewrite F3. split_and!; try done; [congruence|lia|lia|].
    destruct (s_delivery s !! b_interface (outgoing b s)) as [st|] eqn:E0; [|done].
    destruct F5 as [F5 F6]. split; [lia|]. rewrite F6.
    apply mergeHealth_spec; [by apply (so_delivery _ Hs _ _ E0)|apply Hb1].
Qed.

Lemma discard_effect b nonce s :
  input_ok b -> sender_ok s ->
  sender_ok (discard b nonce s) /\ step_effect s (discard b nonce s) None.
Proof.
  intros Hb Hs. unfold discard. destruct (identify b nonce s) as [s1 r] eqn:Ei.
  destruct (identify_ok _ _ _ _ _ Hb Hs Ei) as (Hs1 & _ & Hadv1 & Hr).
  set (b1 := match r with Ok b => b | Err _ => b end).
  assert (Hb1 : input_ok b1) by (destruct r; [apply Hr|done]).
  fold (outgoing b1 s1).
  destruct (retainLoss_ok (outgoing b1 s1) s1) as [Hs2 Hadv2]; [by apply outgoing_ok|done|].
  split; [by apply Close_ok|]. split; [|done].
  intros i. eapply advances_trans; [apply Hadv1|apply Hadv2].
Qed.

(** Operations on the batches of the sensor that keep interface [i]. *)
Definition op_ok (i : string) (op : sender_op) : Prop :=
  match op with
  | OSend b _ | ODiscard b _ => input_ok b /\ 5 <= b_version b
  | OAck _ => True
  | ORetire name => name <> i
  end.

Lemma sender_step_effect i op s :
  op_ok i op -> sender_ok s ->
  let '(s', w) := sender_step s op in
  sender_ok s' /\ advances (s_delivery s !! i) (s_delivery s' !! i) /\
  match w with
  | Some b => step_effect s s' (Some b)
  | None => True
  end.
Proof.
  intros Hop Hs. destruct op as [b a|b nonce|a|name]; simpl in *.
  - destruct (sendBefore b a s) as [[s' err] w] eqn:E.
    destruct (sendBefore_effect _ _ _ _ _ _ (proj1 Hop) Hs E) as [Hs' [Hadv Hw]].
    split_and!; [done|done|]. by destruct w.
  - destruct (discard_effect b nonce s (proj1 Hop) Hs) as [Hs' [Hadv _]]. auto.
  - destruct (readACK_ok a s Hs) as (Hs' & _ & Hd). split_and!; [done| |done].
    by apply same_health_advances.
  - split_and!; [constructor; simpl|rewrite lookup_delete_ne by done; apply advances_refl|done].
    + apply map_Forall_delete, Hs.
    + apply map_Forall_delete, Hs.
    + pose proof (map_size_delete name (s_delivery s)) as Hsz. pose proof (so_delivery_size _ Hs).
      rewrite Hsz. destruct (s_delivery s !! name); unfold id; lia.
Qed.

(** The part of a trace that reaches the daemon for one interface. *)
Definition stream_of (i : string) (bs : list Batch) : list Batch :=
  filter (fun b => b_interface b = i) bs.

Definition beyond (o : option DeliveryState) (b : Batch) : Prop :=
  1 <= b_sequence b /\ health_bounded (b_health b) /\
  match o with
  | Some st => b_session b = d_session st /\ d_sent st < b_sequence b /\
               health_le (d_health st) (b_health b)
  | None => True
  end.

Lemma beyond_advances o o' b : advances o o' -> beyond o' b -> beyond o b.
Proof.
  unfold beyond. destruct o as [st|], o' as [st'|]; simpl; try tauto.
  intros (E1 & E2 & E3) (? & ? & E4 & ? & ?). split_and!; auto; try congruence; try lia.
  by etransitivity.
Qed.

Lemma sendBefore_version b a s s' e b' :
  sendBefore b a s = (s', e, Some b') -> b_version b' = b_version b.
Proof.
  intros H. destruct (sendBefore_cases _ _ _ _ _ _ H)
    as [(_ & Hw & _)|[(_ & _ & _ & Hw & _)|(s1 & b2 & Ei & Ht)]]; try discriminate.
  destruct (outgoing_fields b s) as (_ & Hv & _). rewrite <- Hv.
  destruct (transmit_cases _ _ _ _ _ _ Ht) as (s3 & _ & _ & Hcase). cbv zeta in Hcase.
  assert (Some b' = Some b2) as [= ->]
    by (destruct Hcase as [(_ & ? & _)|(_ & _ & _ & [?|?] & _)]; congruence).
  unfold identify in Ei. repeat (case_match; try discriminate); injection Ei as <- <-; done.
Qed.

Lemma sender_run_stream i ops : forall s,
  sender_ok s -> Forall (op_ok i) ops ->
  let bs := stream_of i (snd (sender_run s ops)) in
  Forall (beyond (s_delivery s !! i)) bs /\ StronglySorted follows bs.
Proof.
  induction ops as [|op ops IH]; intros s Hs Hops; [split; constructor|].
  apply Forall_cons in Hops as [Hop Hops]. simpl.
  pose proof (sender_step_effect i op s Hop Hs) as Heff.
  destruct (sender_step s op) as [s1 w] eqn:Estep. destruct Heff as (Hs1 & Hadv & Hw).
  specialize (IH s1 Hs1 Hops). destruct (sender_run s1 ops) as [s2 ws] eqn:Erun. simpl in IH |- *.
  destruct IH as [IHb IHs].
  assert (Hrest : Forall (beyond (s_delivery s !! i)) (stream_of i ws)).
  { eapply Forall_impl; [exact IHb|]. intros b. by apply beyond_advances. }
  destruct w as [b|]; [|done]. unfold stream_of. rewrite filter_cons.
  destruct (decide (b_interface b = i)) as [<-|]; [|done]. fold (stream_of (b_interface b) ws).
  destruct Hw as [_ [Hv|(st' & E & F1 & F2 & F4 & F5 & F6)]].
  { exfalso. destruct op as [b0 a|b0 nonce|a|name]; simpl in Estep; try discriminate.
    destruct (sendBefore b0 a s) as [[? ?] ?] eqn:Es. injection Estep as -> ->.
    apply sendBefore_version in Es. destruct Hop as [_ Hop]. lia. }
  assert (Hbeyond : beyond (s_delivery s !! b_interface b) b).
  { split; [lia|]. split; [apply F4|]. pose proof Hadv as Ha. rewrite E in Ha.
    destruct (s_delivery s !! b_interface b) as [st|]; [|done].
    destruct Ha as (Ha1 & Ha2 & Ha3). split_and!; [congruence|tauto|tauto]. }
  split; [by constructor|]. constructor; [done|].
  eapply Forall_impl; [exact IHb|]. intros y (G1 & G2 & G3). rewrite E in G3.
  destruct G3 as (K1 & K2 & K3). split_and!; [congruence|lia|by etransitivity|done].
Qed.

Lemma new_sender_ok : sender_ok new_sender.
Proof. constructor; [apply map_Forall_empty..|vm_compute; discriminate]. Qed.

Lemma sender_stream i s ops :
  sender_ok s -> Forall (op_ok i) ops ->
  CumulativeStream (stream_of i (snd (sender_run s ops))).
Proof.
  intros Hs Hops. destruct (sender_run_stream i ops s Hs Hops) as [Hb Hf].
  constructor; [done|]. eapply Forall_impl; [exact Hb|]. by intros b (? & ? & _).
Qed.

(** ** Acknowledgements are the only source of confirmation *)

Definition op_acks (op : sender_op) : list CommitACK :=
  match op with OSend _ a => at_acks a | OAck a => [a] | _ => [] end.

Definition confirmed (acks : list CommitACK) (i : string) (st : DeliveryState) : Prop :=
  (d_complete st = true -> exists a, a ∈ acks /\ ack_valid a = true /\ ack_interface a = i /\
     ack_session a = d_session st /\ ack_sequence a = d_sent st /\ ack_complete_all a = true) /\
  (d_committed st <> 0 -> exists a, a ∈ acks /\ ack_valid a = true /\ ack_interface a = i /\
     ack_session a = d_session st /\ ack_committed a = d_committed st /\
     ack_health a = true /\ ack_traffic a = true).

Definition all_confirmed (acks : list CommitACK) (s : BatchSender) : Prop :=
  map_Forall (confirmed acks) (s_delivery s).

Lemma confirmed_more acks acks' i st :
  acks ⊆ acks' -> confirmed acks i st -> confirmed acks' i st.
Proof.
  intros Hsub [H1 H2]. split.
  - intros Hc. destruct (H1 Hc) as (a & Ha & Hrest). eauto.
  - intros Hc. destruct (H2 Hc) as (a & Ha & Hrest). eauto.
Qed.

Lemma all_confirmed_insert acks s name st :
  all_confirmed acks s ->
  (match s_delivery s !! name with
   | Some st0 => d_session st = d_session st0 /\ d_committed st = d_committed st0
   | None => d_committed st = 0
   end) -> d_complete st = false ->
  map_Forall (confirmed acks) (<[name := st]> (s_delivery s)).
Proof.
  intros Hs Hst Hc. apply map_Forall_insert_2; [|exact Hs].
  split; [by rewrite Hc|]. intros Hn. destruct (s_delivery s !! name) as [st0|] eqn:E; [|done].
  destruct Hst as [E1 E2]. rewrite E1, E2 in *. by apply (proj2 (Hs _ _ E)).
Qed.

Lemma identify_confirmed acks b nonce s :
  all_confirmed acks s -> all_confirmed acks (fst (identify b nonce s)).
Proof.
  intros Hs. unfold identify. case_if; [done|]. cbv zeta.
  destruct (s_delivery s !! b_interface b) as [st|] eqn:Est.
  - case_if; apply (all_confirmed_insert acks s); rewrite ?Est; done.
  - destruct (MaxInterfaces <=? _); [done|]. destruct nonce; [|done]. cbn [d_sent].
    change (i64_max <=? 0) with false. simpl. unfold all_confirmed. simpl.
    rewrite insert_insert_eq. apply (all_confirmed_insert acks s); rewrite ?Est; done.
Qed.

Lemma retainLoss_confirmed acks b s :
  all_confirmed acks s -> all_confirmed acks (retainLoss b s).
Proof.
  intros Hs. unfold retainLoss. cbv zeta. destruct (_ && _); [|done].
  destruct (s_delivery s !! b_interface b) as [st|] eqn:E; [|done].
  apply (all_confirmed_insert acks s); rewrite ?E; done.
Qed.

Lemma readACK_confirmed acks a s :
  all_confirmed acks s -> all_confirmed (acks ++ [a]) (readACK a s).
Proof.
  intros Hs i st Hi. rewrite readACK_delivery in Hi.
  destruct (s_delivery s !! i) as [st0|] eqn:E; [|done]. injection Hi as <-.
  assert (Hsub : acks ⊆ acks ++ [a]) by set_solver.
  pose proof (confirmed_more _ _ _ _ Hsub (Hs _ _ E)) as H0.
  case_if; [|done]. bool_to_prop.
  repeat match goal with H : (_ =?s _) = true |- _ => apply String.eqb_eq in H end.
  assert (Ha : a ∈ acks ++ [a]) by set_solver. destruct H0 as [H01 H02].
  unfold ack_state. destruct (ack_sequence a =? d_sent st0) eqn:Es; bool_to_prop; split; cbn.
  - intros Hc. exists a. split_and!; auto.
  - case_if; [|exact H02]. intros _. bool_to_prop. exists a. split_and!; auto.
  - exact H01.
  - case_if; [|exact H02]. intros _. bool_to_prop. exists a. split_and!; auto.
Qed.

Lemma readACKs_confirmed new : forall acks s,
  all_confirmed acks s ->
  all_confirmed (acks ++ new) (foldl (fun s a => readACK a s) s new).
Proof.
  induction new as [|a new IH]; intros acks s Hs; simpl; [by rewrite app_nil_r|].
  rewrite cons_middle, app_assoc. by apply IH, readACK_confirmed.
Qed.

Lemma all_confirmed_more acks acks' s :
  acks ⊆ acks' -> all_confirmed acks s -> all_confirmed acks' s.
Proof. intros Hsub Hs i st Hi. eapply confirmed_more; eauto. Qed.

Lemma all_confirmed_same acks s s' :
  s_delivery s' = s_delivery s -> all_confirmed acks s -> all_confirmed acks s'.
Proof. unfold all_confirmed. by intros ->. Qed.

Lemma sender_step_confirmed acks op s :
  all_confirmed acks s ->
  all_confirmed (acks ++ op_acks op) (fst (sender_step s op)).
Proof.
  intros Hs. assert (Hmore : forall l s', all_confirmed acks s' -> all_confirmed (acks ++ l) s').
  { intros l s' H. eapply all_confirmed_more; [|exact H]. set_solver. }
  destruct op as [b a|b nonce|a|name]; cbn [op_acks sender_step].
  - destruct (sendBefore b a s) as [[s' err] w] eqn:Esend. cbn [fst].
    pose proof (identify_confirmed acks (outgoing b s) (at_nonce a) s Hs) as Hi.
    destruct (sendBefore_cases _ _ _ _ _ _ Esend)
      as [(-> & _)|[(s1 & Ei & _ & _ & ->)|(s1 & b2 & Ei & Ht)]]; [by apply Hmore|..];
      rewrite Ei in Hi; cbn [fst] in Hi; [by apply Hmore, retainLoss_confirmed|].
    destruct (transmit_cases _ _ _ _ _ _ Ht) as (s3 & _ & Hd & Hcase). cbv zeta in Hcase.
    assert (Hs3 : all_confirmed acks s3) by (by eapply all_confirmed_same).
    pose proof (readACKs_confirmed (at_acks a) acks s3 Hs3) as Hs4.
    destruct Hcase as [(_ & _ & ->)|(_ & _ & _ & _ & ->)]; [done|by apply retainLoss_confirmed].
  - unfold discard. pose proof (identify_confirmed acks b nonce s Hs) as Hi.
    destruct (identify b nonce s) as [s1 r]. cbn [fst] in Hi.
    apply Hmore. by apply retainLoss_confirmed.
  - by apply readACK_confirmed.
  - apply Hmore. intros i st Hi. simpl in Hi. apply lookup_delete_Some in Hi as [_ Hi]. eauto.
Qed.

Lemma sender_run_confirmed ops : forall acks s,
  all_confirmed acks s ->
  all_confirmed (acks ++ (ops ≫= op_acks)) (fst (sender_run s ops)).
Proof.
  induction ops as [|op ops IH]; intros acks s Hs; simpl; [by rewrite app_nil_r|].
  pose proof (sender_step_confirmed acks op s Hs) as H1.
  destruct (sender_step s op) as [s1 w]. cbn [fst] in H1. specialize (IH _ _ H1).
  destruct (sender_run s1 ops). simpl in *. by rewrite <- app_assoc in IH.
Qed.

(** ** Accounting *)

(** What a batch that did not arrive adds to the cumulative health. *)
Definition loss_of (b : Batch) : CollectorHealth :=
  mkHealth 0 0 0 0 0 0 1 (b_rx_packets b + b_tx_packets b) (b_rx_bytes b + b_tx_bytes b) false.

(** [identify] of a version 5 batch whose interface has a session. *)
Lemma identify_known b nonce s st :
  5 <= b_version b -> s_delivery s !! b_interface b = Some st -> d_sent st < i64_max ->
  identify b nonce s =
    let health := mergeHealth (d_health st) (b_health b) in
    (set_delivery (<[b_interface b := mkDelivery (d_interface st) (d_session st) (d_sent st + 1)
       (d_committed st) false "unconfirmed" health]> (s_delivery s)) s,
     Ok (Apply health (set_identity (d_session st) (d_sent st + 1) b))).
Proof.
  intros Hv E Hm. unfold identify. replace (b_version b <? 5) with false by lia.
  cbv zeta. rewrite E. by replace (i64_max <=? d_sent st) with false by lia.
Qed.

(** The operations of a sensor that speaks version 5. *)
Definition op_input (op : sender_op) : Prop :=
  match op with
  | OSend b _ | ODiscard b _ => input_ok b /\ 5 <= b_version b
  | _ => True
  end.

Lemma sender_run_ok ops : forall s,
  sender_ok s -> Forall op_input ops -> sender_ok (fst (sender_run s ops)).
Proof.
  induction ops as [|op ops IH]; intros s Hs Hops; [done|].
  apply Forall_cons in Hops as [Hop Hops]. simpl.
  assert (Hn : exists j, op_ok j op).
  { destruct op as [b a|b n|a|name]; try (exists ""%string; exact Hop).
    exists (name ++ "x")%string. simpl. clear. induction name; [done|].
    intros H. injection H as H. done. }
  destruct Hn as [j Hj]. pose proof (sender_step_effect j op s Hj Hs) as H.
  destruct (sender_step s op) as [s1 w]. destruct H as (Hs1 & _).
  specialize (IH s1 Hs1 Hops). by destruct (sender_run s1 ops).
Qed.

(** ** Properties *)

(** C7. Whatever the network does (failed connections, partial writes, frames
    that arrive although their write failed), the batches of one interface that
    reach the daemon carry strictly increasing sequence numbers of one session
    and cumulative health that only grows, so the daemon's [Delta] of any of
    them against any earlier one succeeds. *)
Theorem sender_stream_cumulative i ops x y pre mid post
    (Hops : Forall (op_ok i) ops)
    (Hstream : stream_of i (snd (sender_run new_sender ops)) = pre ++ x :: mid ++ y :: post) :
  b_session x = b_session y /\ 1 <= b_sequence x < b_sequence y /\
  exists d, Delta (b_health y) (b_health x) = Ok d.
Proof.
  destruct (sender_stream i new_sender ops new_sender_ok Hops) as [Hf Hb].
  rewrite Hstream in Hf, Hb.
  assert (Hxy : follows x y).
  { clear -Hf. induction pre as [|z pre IH]; simpl in Hf.
    - apply StronglySorted_inv in Hf as [_ Hf]. rewrite Forall_app in Hf.
      destruct Hf as [_ Hf]. by apply Forall_cons in Hf as [Hf _].
    - apply StronglySorted_inv in Hf as [Hf _]. auto. }
  apply Forall_app in Hb as [_ Hb]. apply Forall_cons in Hb as [[Hx _] _].
  destruct (follows_Delta x y Hxy) as [d Hd]. destruct Hxy as (? & ? & _).
  split_and!; [done|done|done|by exists d].
Qed.

Definition example_session : string := "00112233445566778899aabbccddeeff".
Definition sent_batch : Batch :=
  mkBatch 0 5 "" 0 (unix_epoch + 3600 * second) 0 1000 "eth0" [] 180 90 3 1 1 0 0
    (mkHealth 10 1 0 3 2 0 0 0 0 false).
Definition example_attempt (write received : bool) : attempt :=
  mkAttempt (Some example_session) false true true true true write received [].
Definition example_ops : list sender_op :=
  [OSend sent_batch (example_attempt true true);
   OSend sent_batch (example_attempt false false);
   OSend sent_batch (example_attempt false true);
   OSend sent_batch (example_attempt true true)].

Lemma sender_stream_cumulative_witness :
  let bs := stream_of "eth0" (snd (sender_run new_sender example_ops)) in
  b_sequence <$> bs = [1; 3; 4] /\
  exists x y, nth_error bs 1 = Some x /\ nth_error bs 2 = Some y /\
    h_kernel_drops (b_health y) = 8 /\ h_ipc_batches (b_health y) = 2 /\
    exists d, Delta (b_health y) (b_health x) = Ok d.
Proof.
  intros bs. split; [vm_compute; reflexivity|].
  assert (Hok : Forall (op_ok "eth0") example_ops).
  { repeat constructor; unfold health_nonneg; repeat constructor; vm_compute; discriminate. }
  destruct bs as [|x0 [|x [|y [|]]]] eqn:E; try (vm_compute in E; discriminate E).
  exists x, y. split; [reflexivity|]. split; [reflexivity|].
  split; [vm_compute in E; injection E as _ _ <-; reflexivity|].
  split; [vm_compute in E; injection E as _ _ <-; reflexivity|].
  apply (sender_stream_cumulative "eth0" example_ops x y [x0] [] [] Hok E).
Defined.

(** Acknowledgements are honest: after any trace, the committed sequence of
    an interface is at most the sequence it has sent, and both a confirmed
    sequence and the state "complete" come from an acknowledgement that was
    received for this interface and session with its dataset flags set
    (complete: all five, for the last batch sent). *)
Theorem delivery_confirmation_sound ops i st
    (Hops : Forall op_input ops)
    (Hst : s_delivery (fst (sender_run new_sender ops)) !! i = Some st) :
  0 <= d_committed st <= d_sent st /\
  confirmed (ops ≫= op_acks) i st.
Proof.
  split.
  - apply (so_delivery _ (sender_run_ok ops _ new_sender_ok Hops) _ _ Hst).
  - pose proof (sender_run_confirmed ops [] new_sender (map_Forall_empty _)) as Hc.
    by apply (Hc i st Hst).
Qed.

Lemma delivery_confirmation_sound_witness :
  let ack := mkACK 5 example_session "eth0" 4 4 true true true true true false "" in
  let st := s_delivery (fst (sender_run new_sender (example_ops ++ [OAck ack]))) !! "eth0" in
  (d_committed <$> st) = Some 4 /\ (d_complete <$> st) = Some true /\
  exists st', st = Some st' /\ confirmed [ack] "eth0" st'.
Proof.
  intros ack st. split; [vm_compute; reflexivity|]. split; [vm_compute; reflexivity|].
  destruct st as [st'|] eqn:E; [|vm_compute in E; discriminate E].
  exists st'. split; [reflexivity|].
  apply (delivery_confirmation_sound (example_ops ++ [OAck ack]) "eth0" st'); [|exact E].
  repeat constructor; unfold health_nonneg; repeat constructor; vm_compute; discriminate.
Defined.

(** Nothing read from the collectors is forgotten: when a version 5 batch is
    identified, the cumulative health of its interface grows by exactly the
    batch's own health and, when the attempt fails, by one lost batch with its
    packets and bytes -- or the snapshot says that it is saturated. *)
Theorem sendBefore_accounts b at' s s' err w st
    (Hb : input_ok b) (Hs : sender_ok s) (Hv : 5 <= b_version b)
    (Hsent : s_delivery s !! b_interface b = Some st) (Hseq : d_sent st < i64_max)
    (Hsess : d_session st <> ""%string)
    (Hrun : sendBefore b at' s = (s', err, w))
    (Hreach : err <> Some SInvalidInterface /\ err <> Some SPendingCapacity) :
  exists st', s_delivery s' !! b_interface b = Some st' /\
    d_sent st' = d_sent st + 1 /\
    (h_saturated (d_health st') = false ->
     d_health st' = health_add (d_health st)
       (health_add (b_health b)
          (match err with Some _ => loss_of b | None => zero_health end))).
Proof.
  assert (Hout : outgoing b s = b) by (apply outgoing_fields; lia).
  pose proof (identify_known b (at_nonce at') s st Hv Hsent Hseq) as Hid. cbv zeta in Hid.
  destruct (sendBefore_cases _ _ _ _ _ _ Hrun)
    as [(_ & _ & H)|[(s1 & Ei & _)|(s1 & b2 & Ei & Ht)]]; [tauto|rewrite Hout, Hid in Ei; done|].
  rewrite Hout, Hid in Ei. injection Ei as <- <-.
  pose proof (identify_ok _ _ _ _ _ Hb Hs Hid) as (Hs1 & _ & _ & Hb2 & _).
  destruct (so_delivery _ Hs _ _ Hsent) as (_ & Hw & _).
  destruct (mergeHealth_spec (d_health st) (b_health b) Hw (proj1 Hb)) as (Hw1 & _ & Hexact).
  destruct (transmit_effect _ _ _ _ _ _ Hb2 Hs1 Ht) as (_ & _ & _ & Hst).
  edestruct Hst as (st' & E' & G1 & _ & G3);
    [simpl; by rewrite lookup_insert_eq|done|done|]. simpl in E', G1, G3.
  exists st'. split; [done|]. split; [done|]. intros Hsat. destruct err as [e|].
  - destruct (add_loss_spec _ _ Hb2 Hw1) as (_ & [_ Hle] & Hloss).
    rewrite G3 in Hsat |- *. rewrite Hsat in Hle. specialize (Hloss Hsat).
    rewrite Hloss, Hexact by (by destruct (h_saturated (mergeHealth _ _))).
    unfold health_add, loss_of. cbn. f_equal; try lia.
  - rewrite G3 in Hsat |- *. pose proof Hsat as Hflag. rewrite (Hexact Hsat) in Hflag |- *.
    unfold health_add. cbn. f_equal; lia || done.
Qed.

Lemma sendBefore_accounts_witness :
  let s := fst (sender_run new_sender [OSend sent_batch (example_attempt true true)]) in
  exists st', s_delivery (fst (fst (sendBefore sent_batch (example_attempt false false) s)))
                !! "eth0" = Some st' /\ d_sent st' = 2 /\
    d_health st' = mkHealth 20 2 0 6 4 0 1 4 270 false.
Proof.
  intros s.
  assert (Hin : input_ok sent_batch)
    by (repeat split; unfold health_nonneg; repeat constructor; vm_compute; discriminate).
  assert (Hs : sender_ok s).
  { apply sender_run_ok; [apply new_sender_ok|]. constructor; [|constructor].
    split; [exact Hin|simpl; lia]. }
  destruct (s_delivery s !! "eth0"%string) as [st|] eqn:E; [|vm_compute in E; discriminate E].
  pose proof E as E2. vm_compute in E2. injection E2 as <-.
  destruct (sendBefore sent_batch (example_attempt false false) s) as [[s' err] w] eqn:Es.
  assert (Herr : err = Some SWrite) by (vm_compute in Es; congruence).
  destruct (sendBefore_accounts sent_batch (example_attempt false false) s s' err w _
    Hin Hs ltac:(simpl; lia) E ltac:(vm_compute; reflexivity) ltac:(discriminate) Es
    ltac:(rewrite Herr; split; discriminate)) as (st' & E' & Hseq & Hacc).
  cbn [fst]. exists st'. split; [exact E'|]. split; [exact Hseq|].
  rewrite Hacc; [rewrite Herr; reflexivity|].
  vm_compute in Es. injection Es as <- _ _. vm_compute in E'. injection E' as <-. reflexivity.
Defined.

(** The local estimate of undelivered batches is not cumulative when no session
    can be drawn: two version 5 batches that are lost before they get an
    identity leave an estimate of one batch, because the branch of [retainLoss]
    without a session replaces the pending counters. *)
Lemma unidentified_loss_replaced :
  let no_nonce := mkAttempt None false true true true true true false [] in
  let s1 := fst (sender_step new_sender (OSend sent_batch no_nonce)) in
  let s2 := fst (sender_step s1 (OSend sent_batch no_nonce)) in
  PendingLoss s1 = (1, 4, 270) /\ PendingLoss s2 = (1, 4, 270).
Proof. vm_compute. split; reflexivity. Qed.
