(* ===== verification/Config.v ===== *)
(** * Configuration

    The parts of [internal/config/config.go] that the components read, and the
    range checks that [Config.Validate] applies to them. *)

From S2P Require Export Protocol.

Record AuthConfig := mkAuthConfig {
  ac_enabled : bool;
  ac_threshold : Z;
  ac_window : duration;
  ac_cooldown : duration;
  ac_history_hints : bool }.

Record DetectionConfig := mkDetection {
  syn_packets_per_second : Z;
  udp_packets_per_second : Z;
  icmp_packets_per_second : Z;
  bytes_per_second : Z;
  recovery_ratio : f64;
  recovery_windows : Z;
  update_interval : duration;
  scan_unique_ports : Z;
  scan_window : duration }.

(** The conditions of [Validate] on the authentication section. *)
Definition auth_config_valid (c : AuthConfig) : bool :=
  negb ((ac_threshold c <? 2) || (4096 <? ac_threshold c))
  && negb ((ac_window c <? second) || (24 * hour <? ac_window c))
  && negb ((ac_cooldown c <? 0) || (7 * 24 * hour <? ac_cooldown c)).

(** The conditions of [Validate] on the detection section. *)
Definition detection_config_valid (c : DetectionConfig) : bool :=
  negb (f64_le (recovery_ratio c) (f64_of_Z 0) || f64_ge (recovery_ratio c) (f64_of_Z 1))
  && negb ((recovery_windows c <? 1) || (60 <? recovery_windows c))
  && negb ((update_interval c <? second) || (24 * hour <? update_interval c))
  && negb ((scan_unique_ports c <? 2) || (65535 <? scan_unique_ports c))
  && negb ((scan_window c <? second) || (hour <? scan_window c)).

(** The detection section of [Defaults]. *)
Definition default_detection : DetectionConfig :=
  mkDetection 5000 10000 2000 (100 * 1024 * 1024) (f64_div (f64_of_Z 1) (f64_of_Z 2)) 3
    (5 * minute) 20 (60 * second).

Definition default_auth : AuthConfig := mkAuthConfig true 8 (5 * minute) (15 * minute) false.

(** ** Monitor alerts: [internal/config/alerts_config.go] *)

Record BudgetAlertsConfig := mkBudgetAlerts {
  ba_enabled : bool;
  ba_monthly_bytes : Z;
  ba_monthly_cost : f64;
  ba_daily_bytes : Z;
  ba_daily_growth_ratio : f64;
  ba_baseline_days : Z }.

Record HealthAlertsConfig := mkHealthAlerts {
  ha_enabled : bool;
  ha_grace_period : duration;
  ha_recovery_period : duration;
  ha_reminder_interval : duration;
  ha_geoip_failure_threshold : Z;
  ha_geoip_stale_after : duration }.

Record AlertsConfig := mkAlerts {
  al_budget : BudgetAlertsConfig;
  al_health : HealthAlertsConfig }.

Definition defaultAlerts : AlertsConfig :=
  mkAlerts (mkBudgetAlerts false 0 f64_zero 0 f64_zero 7)
    (mkHealthAlerts false (2 * minute) minute (24 * hour) 2 (72 * hour)).

(** [validateAlerts], given whether billing is enabled. *)
Definition validateAlerts (billing_enabled : bool) (c : AlertsConfig) : bool :=
  let b := al_budget c in
  let h := al_health c in
  negb ((i64_max <? ba_monthly_bytes b) || (i64_max <? ba_daily_bytes b))
  && negb (f64_is_nan (ba_monthly_cost b) || f64_is_inf (ba_monthly_cost b)
           || f64_lt (ba_monthly_cost b) f64_zero || f64_gt (ba_monthly_cost b) (f64_const 1 12))
  && negb (f64_is_nan (ba_daily_growth_ratio b) || f64_is_inf (ba_daily_growth_ratio b)
           || (negb (f64_eq (ba_daily_growth_ratio b) f64_zero)
               && (f64_le (ba_daily_growth_ratio b) (f64_of_Z 1)
                   || f64_gt (ba_daily_growth_ratio b) (f64_of_Z 100))))
  && negb ((ba_baseline_days b <? 3) || (30 <? ba_baseline_days b))
  && negb (ba_enabled b && (ba_monthly_bytes b =? 0) && f64_eq (ba_monthly_cost b) f64_zero
           && (ba_daily_bytes b =? 0) && f64_eq (ba_daily_growth_ratio b) f64_zero)
  && negb (ba_enabled b && f64_gt (ba_monthly_cost b) f64_zero && negb billing_enabled)
  && negb ((ha_grace_period h <? 10 * second) || (hour <? ha_grace_period h))
  && negb ((ha_recovery_period h <? 10 * second) || (hour <? ha_recovery_period h))
  && negb (negb (ha_reminder_interval h =? 0)
           && ((ha_reminder_interval h <? hour) || (7 * 24 * hour <? ha_reminder_interval h)))
  && negb ((ha_geoip_failure_threshold h <? 1) || (30 <? ha_geoip_failure_threshold h))
  && negb ((ha_geoip_stale_after h <? 24 * hour) || (30 * 24 * hour <? ha_geoip_stale_after h)).
