(* ===== verification/Network.v ===== *)
(** * Network detection on one interface

    [internal/detect/network.go]: flood incidents with hysteresis, port scans
    over a bounded table of sources and ports, and the correlation of UDP
    replies with requests.  Everything that [Network] mutates is state here,
    and so are the port budget that detectors of one fleet share and the number
    of identifiers drawn. *)

From S2P Require Export Config.

Record floodState := mkFlood {
  fl_incident : string;
  fl_started : time;
  fl_last_update : time;
  fl_quiet : Z }.

Record scanState := mkScan {
  sc_started : time;
  sc_last : time;
  sc_ports : gset Z;
  sc_packets : Z;
  sc_emitted : bool }.

Definition maxScanSources : Z := 8192.
Definition maxUDPRequestTuples : Z := 16384.
Definition maxScanPortEntries : Z := 262144.
Definition udpReplyWindow : duration := 30 * second.

Record udpTuple := mkTuple {
  t_iface : string; t_remote_ip : string; t_local_port : Z; t_remote_port : Z }.

#[global] Instance udpTuple_eq_dec : EqDecision udpTuple.
Proof. solve_decision. Defined.

#[global] Instance udpTuple_countable : Countable udpTuple.
Proof.
  apply (inj_countable' (fun t => (t_iface t, t_remote_ip t, t_local_port t, t_remote_port t))
    (fun '(i, r, l, p) => mkTuple i r l p)).
  by intros [].
Defined.

(** The persistent part of [NetworkStats]. *)
Record counters_state := mkStats {
  st_scan_ignored : Z;
  st_udp_ignored : Z;
  st_udp_unclassified : Z;
  st_udp_excluded : Z;
  st_udp_complete : bool;
  st_recovery_suppressed : Z;
  st_saturated : bool }.

Record Network := mkNetwork {
  n_config : DetectionConfig;
  n_floods : gmap string floodState;
  n_scans : gmap string scanState;
  n_udp : gmap udpTuple time;
  n_udp_uncertain : time;
  n_last_batch : time;
  n_last_interface : string;
  n_stats : counters_state;
  n_scan_limit : Z;
  n_udp_limit : Z;
  n_continuity_reset : bool;
  n_scan_ports : Z;
  n_scan_uncertain : time }.

(** The shared port budget and the number of identifiers drawn so far. *)
Record World := mkWorld { w_used : Z; w_limit : Z; w_ids : nat }.

Definition reserve (w : World) : bool * World :=
  if w_limit w <=? w_used w then (false, w)
  else (true, mkWorld (w_used w + 1) (w_limit w) (w_ids w)).
Definition release (count : Z) (w : World) : World :=
  mkWorld (w_used w - count) (w_limit w) (w_ids w).
Definition budget_saturated (w : World) : bool := w_limit w <=? w_used w.

Definition no_stats : counters_state := mkStats 0 0 0 0 false 0 false.

Definition newNetworkLimits (cfg : DetectionConfig) (scans udp : Z) : Network :=
  mkNetwork cfg ∅ ∅ ∅ time_zero time_zero "" no_stats scans udp false 0 time_zero.

(** ** Field updates *)

Definition set_floods (m : gmap string floodState) (n : Network) : Network :=
  mkNetwork (n_config n) m (n_scans n) (n_udp n) (n_udp_uncertain n) (n_last_batch n)
    (n_last_interface n) (n_stats n) (n_scan_limit n) (n_udp_limit n)
    (n_continuity_reset n) (n_scan_ports n) (n_scan_uncertain n).
Definition set_scans (m : gmap string scanState) (ports : Z) (n : Network) : Network :=
  mkNetwork (n_config n) (n_floods n) m (n_udp n) (n_udp_uncertain n) (n_last_batch n)
    (n_last_interface n) (n_stats n) (n_scan_limit n) (n_udp_limit n)
    (n_continuity_reset n) ports (n_scan_uncertain n).
Definition set_udp (m : gmap udpTuple time) (n : Network) : Network :=
  mkNetwork (n_config n) (n_floods n) (n_scans n) m (n_udp_uncertain n) (n_last_batch n)
    (n_last_interface n) (n_stats n) (n_scan_limit n) (n_udp_limit n)
    (n_continuity_reset n) (n_scan_ports n) (n_scan_uncertain n).
Definition set_udp_uncertain (t : time) (n : Network) : Network :=
  mkNetwork (n_config n) (n_floods n) (n_scans n) (n_udp n) t (n_last_batch n)
    (n_last_interface n) (n_stats n) (n_scan_limit n) (n_udp_limit n)
    (n_continuity_reset n) (n_scan_ports n) (n_scan_uncertain n).
Definition set_last (t : time) (iface : string) (n : Network) : Network :=
  mkNetwork (n_config n) (n_floods n) (n_scans n) (n_udp n) (n_udp_uncertain n) t
    iface (n_stats n) (n_scan_limit n) (n_udp_limit n)
    (n_continuity_reset n) (n_scan_ports n) (n_scan_uncertain n).
Definition set_stats (s : counters_state) (n : Network) : Network :=
  mkNetwork (n_config n) (n_floods n) (n_scans n) (n_udp n) (n_udp_uncertain n)
    (n_last_batch n) (n_last_interface n) s (n_scan_limit n) (n_udp_limit n)
    (n_continuity_reset n) (n_scan_ports n) (n_scan_uncertain n).
Definition set_continuity_reset (b : bool) (n : Network) : Network :=
  mkNetwork (n_config n) (n_floods n) (n_scans n) (n_udp n) (n_udp_uncertain n)
    (n_last_batch n) (n_last_interface n) (n_stats n) (n_scan_limit n) (n_udp_limit n)
    b (n_scan_ports n) (n_scan_uncertain n).
Definition set_scan_uncertain (t : time) (n : Network) : Network :=
  mkNetwork (n_config n) (n_floods n) (n_scans n) (n_udp n) (n_udp_uncertain n)
    (n_last_batch n) (n_last_interface n) (n_stats n) (n_scan_limit n) (n_udp_limit n)
    (n_continuity_reset n) (n_scan_ports n) t.

(** [addCounter]: the new value and the saturation flag. *)
Definition saturating_add (counter value : Z) (saturated : bool) : Z * bool :=
  if u64_max - counter <? value then (u64_max, true) else (counter + value, saturated).

Inductive counter_name :=
| CScanIgnored | CUDPIgnored | CUDPUnclassified | CUDPExcluded | CRecoverySuppressed.

Definition addCounter (c : counter_name) (value : Z) (n : Network) : Network :=
  let s := n_stats n in
  let old := match c with
             | CScanIgnored => st_scan_ignored s
             | CUDPIgnored => st_udp_ignored s
             | CUDPUnclassified => st_udp_unclassified s
             | CUDPExcluded => st_udp_excluded s
             | CRecoverySuppressed => st_recovery_suppressed s
             end in
  let '(v, sat) := saturating_add old value (st_saturated s) in
  set_stats
    (mkStats (if c is CScanIgnored then v else st_scan_ignored s)
             (if c is CUDPIgnored then v else st_udp_ignored s)
             (if c is CUDPUnclassified then v else st_udp_unclassified s)
             (if c is CUDPExcluded then v else st_udp_excluded s)
             (st_udp_complete s)
             (if c is CRecoverySuppressed then v else st_recovery_suppressed s) sat) n.

(** [ResetContinuity]. *)
Definition ResetContinuity (n : Network) : Network :=
  set_continuity_reset true (set_udp ∅ (set_last time_zero "" n)).

(** ** The tables *)

(** [deleteScan]. *)
Definition deleteScan (source : string) (nw : Network * World) : Network * World :=
  let '(n, w) := nw in
  match n_scans n !! source with
  | Some st =>
      (set_scans (delete source (n_scans n)) (n_scan_ports n - Z.of_nat (size (sc_ports st))) n,
       release (Z.of_nat (size (sc_ports st))) w)
  | None => (n, w)
  end.

(** [releaseScanState], over the table in any order. *)
Definition releaseScanState (nw : Network * World) : Network * World :=
  foldl (fun nw source => deleteScan source nw) nw ((map_to_list (n_scans (fst nw))).*1).

(** [prune]: the loop over the scans, then the loop over the requests. *)
Definition prune_scans (now : time) (nw : Network * World) : Network * World :=
  foldl (fun nw '(source, st) =>
      if scan_window (n_config (fst nw)) <? time_sub now (sc_started st)
      then deleteScan source nw else nw) nw (map_to_list (n_scans (fst nw))).

Definition prune (now : time) (nw : Network * World) : Network * World :=
  let '(n, w) := prune_scans now nw in
  (set_udp (filter (fun kv => ~ udpReplyWindow <= time_sub now (snd kv)) (n_udp n)) n, w).

(** [markUDPUncertain] and [markScanIncomplete]. *)
Definition markUDPUncertain (now : time) (n : Network) : Network :=
  let now := if before now (n_last_batch n) then n_last_batch n else now in
  let until := time_add now udpReplyWindow in
  if after until (n_udp_uncertain n) then set_udp_uncertain until n else n.

Definition markScanIncomplete (at' : time) (n : Network) : Network :=
  let until := time_add at' (scan_window (n_config n) + nanosecond) in
  if after until (n_scan_uncertain n) then set_scan_uncertain until n else n.

Definition udp_key (iface : string) (f : Flow) : udpTuple :=
  mkTuple iface (f_remote_ip f) (f_local_port f) (f_remote_port f).

(** [rememberUDP]. *)
Definition rememberUDP (f : Flow) (iface : string) (now : time) (n : Network) : Network :=
  let key := udp_key iface f in
  if bool_decide (n_udp n !! key = None) && (n_udp_limit n <=? Z.of_nat (size (n_udp n)))
  then addCounter CUDPIgnored (f_packets f) n
  else if after now (default time_zero (n_udp n !! key))
  then set_udp (<[key := now]> (n_udp n)) n else n.

(** [observePort], once the source has a state: the port and the packets. *)
Definition count_port (f : Flow) (now : time) (st : scanState) (nw : Network * World)
    : Network * World :=
  let '(n, w) := nw in
  let packets := if u64_max - sc_packets st <? f_packets f then u64_max
                 else sc_packets st + f_packets f in
  let store ports (n : Network) delta :=
    set_scans (<[f_remote_ip f := mkScan (sc_started st) now ports packets (sc_emitted st)]>
                 (n_scans n)) (n_scan_ports n + delta) n in
  if negb (sc_emitted st) && (Z.of_nat (size (sc_ports st)) <? scan_unique_ports (n_config n))
     && bool_decide (f_local_port f ∉ sc_ports st)
  then
    match reserve w with
    | (true, w) => (store ({[f_local_port f]} ∪ sc_ports st) n 1, w)
    | (false, w) =>
        (store (sc_ports st) (markScanIncomplete now (addCounter CScanIgnored (f_packets f) n)) 0, w)
    end
  else (store (sc_ports st) n 0, w).

(** [observePort]. *)
Definition observePort (f : Flow) (now : time) (nw : Network * World) : Network * World :=
  let n := fst nw in
  let fresh nw := count_port f now (mkScan now time_zero ∅ 0 false) nw in
  match n_scans n !! f_remote_ip f with
  | None =>
      if n_scan_limit n <=? Z.of_nat (size (n_scans n))
      then (markScanIncomplete now (addCounter CScanIgnored (f_packets f) n), snd nw)
      else fresh nw
  | Some st =>
      if scan_window (n_config n) <? time_sub now (sc_started st)
      then fresh (deleteScan (f_remote_ip f) nw)
      else count_port f now st nw
  end.

(** ** Sources of a batch *)

Definition sources := gmap string (gmap string Flow).

(** [addSource]. *)
Definition addSource (kind : string) (f : Flow) (s : sources) : sources :=
  let m := default ∅ (s !! kind) in
  let g :=
    match m !! f_remote_ip f with
    | None => f
    | Some a =>
        mkFlow (f_direction a) (f_remote_ip a)
          (if f_protocol a =?s f_protocol f then f_protocol a else "")
          (if f_local_port a =? f_local_port f then f_local_port a else 0)
          (f_remote_port a) (f_tcp_flags a)
          (add_u64 (f_packets a) (f_packets f)) (add_u64 (f_bytes a) (f_bytes f))
    end in
  <[kind := <[f_remote_ip f := g]> m]> s.

(** One comparison of [topSource]. *)
Definition better (byBytes : bool) (top source : Flow) : bool :=
  let value f := if byBytes then f_bytes f else f_packets f in
  (value top <? value source)
  || ((value source =? value top)
      && ((f_remote_ip top =?s "") || string_lt (f_remote_ip source) (f_remote_ip top))).

(** [topSource], over the sources in iteration order. *)
Definition topSource_list (byBytes : bool) (l : list Flow) : Flow :=
  select (better byBytes) zero_flow l.

Definition topSource (s : gmap string Flow) (byBytes : bool) : Flow :=
  topSource_list byBytes ((map_to_list s).*2).

(** ** Events *)

Section Runtime.
Context `{GoRuntime}.

Definition draw (prefix : string) (w : World) : string * World :=
  let '(id, n) := NewID prefix (w_ids w) in (id, mkWorld (w_used w) (w_limit w) n).

(** [fmt.Sprintf("%.0f %s", value, unit)]. *)
Definition rate_text (value : f64) (unit : string) : string :=
  (fmt_f0 value ++ " " ++ unit)%string.

(** [floodEvent]. *)
Definition floodEvent (kind phase : string) (st : floodState) (value threshold : f64)
    (sev : severity) (unit : string) (f : Flow) (now : time) (w : World) : Event * World :=
  let '(id, w) := draw "evt" w in
  let evidence : gmap string string :=
    {["threshold" := rate_text threshold unit; "observed_rate" := fmt_shortest value;
      "threshold_rate" := fmt_shortest threshold]} in
  let evidence :=
    if phase =?s "recovery"
    then <["incident_duration_millis" := fmt_int (milliseconds (time_sub now (fl_started st)))]>
           evidence
    else evidence in
  let attributed := negb (f_remote_ip f =?s "") in
  let target :=
    if attributed && negb (f_protocol f =?s "")
    then if negb (f_local_port f =? 0)
         then (f_protocol f ++ "/" ++ fmt_int (f_local_port f))%string
         else f_protocol f
    else "" in
  let evidence :=
    if attributed
    then <["top_source_packets" := fmt_int (f_packets f)]>
         (<["top_source_bytes" := fmt_int (f_bytes f)]>
         (<["source_scope" := "retained_flows"]> evidence))
    else evidence in
  (mkEvent id (fl_incident st) now kind phase sev
     ("observed " ++ rate_text value unit ++ "; configured threshold "
      ++ rate_text threshold unit)
     (if attributed then f_remote_ip f else "")
     (if attributed then PrefixString (f_remote_ip f) else "")
     target (f64_to_u64 value) no_geo evidence, w).

(** [observeFlood]. *)
Definition observeFlood (kind : string) (value threshold : f64) (sev : severity)
    (unit : string) (f : Flow) (now : time) (reliable : bool) (nw : Network * World)
    : option Event * (Network * World) :=
  let '(n, w) := nw in
  let put st := set_floods (<[kind := st]> (n_floods n)) n in
  if f64_ge value threshold then
    match n_floods n !! kind with
    | None =>
        let '(inc, w) := draw "inc" w in
        let st := mkFlood inc now now 0 in
        let '(e, w) := floodEvent kind "start" st value threshold sev unit f now w in
        (Some e, (put st, w))
    | Some st =>
        if update_interval (n_config n) <=? time_sub now (fl_last_update st) then
          let st := mkFlood (fl_incident st) (fl_started st) now 0 in
          let '(e, w) := floodEvent kind "update" st value threshold sev unit f now w in
          (Some e, (put st, w))
        else (None, (put (mkFlood (fl_incident st) (fl_started st) (fl_last_update st) 0), w))
    end
  else
    match n_floods n !! kind with
    | None => (None, (n, w))
    | Some st =>
        let reset := put (mkFlood (fl_incident st) (fl_started st) (fl_last_update st) 0) in
        if negb reliable then (None, (reset, w))
        else if f64_lt value (f64_mul threshold (recovery_ratio (n_config n))) then
          let quiet := fl_quiet st + 1 in
          let st := mkFlood (fl_incident st) (fl_started st) (fl_last_update st) quiet in
          if recovery_windows (n_config n) <=? quiet then
            let '(e, w) :=
              floodEvent kind "recovery" st value threshold SeverityInfo unit f now w in
            let e := set_summary ("rate recovered to " ++ rate_text value unit ++ " after "
                       ++ fmt_duration (round_second (time_sub now (fl_started st)))) e in
            (Some e, (set_floods (delete kind (n_floods n)) n, w))
          else (None, (put st, w))
        else (None, (reset, w))
    end.

(** [d.Seconds()] as [strconv] prints it. *)
Definition fmt_seconds (d : duration) : string :=
  fmt_shortest (f64_add (f64_of_Z (Z.quot d second))
                  (f64_div (f64_of_Z (Z.rem d second)) (f64_of_Z second))).

(** The event of one scan in [scanEvents]. *)
Definition scan_event (cfg : DetectionConfig) (source : string) (st : scanState) (now : time)
    (w : World) : Event * World :=
  let '(id, w) := draw "evt" w in
  let '(inc, w) := draw "inc" w in
  let count := Z.of_nat (size (sc_ports st)) in
  (mkEvent id inc now "port_scan" "start" SeverityMedium
     ("at least " ++ fmt_int count ++ " unique local ports probed in "
      ++ fmt_duration (round_second (time_sub now (sc_started st))))
     source (PrefixString source) "" count no_geo
     {["packets" := fmt_int (sc_packets st); "rule" := "inbound_syn_or_unsolicited_udp";
       "threshold" := fmt_int (scan_unique_ports cfg);
       "window_seconds" := fmt_seconds (scan_window cfg);
       "elapsed_millis" := fmt_int (milliseconds (time_sub now (sc_started st)))]}, w).

(** One entry of the loop of [scanEvents]. *)
Definition scan_entry (now : time) (acc : list Event * (Network * World))
    (entry : string * scanState) : list Event * (Network * World) :=
  let '(events, (n, w)) := acc in
  let '(source, st) := entry in
  if scan_window (n_config n) <? time_sub now (sc_last st)
  then (events, deleteScan source (n, w))
  else if negb (sc_emitted st) && (scan_unique_ports (n_config n) <=? Z.of_nat (size (sc_ports st)))
  then
    let st' := mkScan (sc_started st) (sc_last st) (sc_ports st) (sc_packets st) true in
    let '(e, w) := scan_event (n_config n) source st' now w in
    (events ++ [e], (set_scans (<[source := st']> (n_scans n)) (n_scan_ports n) n, w))
  else (events, (n, w)).

(** [scanEvents], over the table in iteration order. *)
Definition scanEvents (now : time) (nw : Network * World) : list Event * (Network * World) :=
  foldl (scan_entry now) ([], nw) (map_to_list (n_scans (fst nw))).

(** ** [Observe] *)

Definition absDuration (d : duration) : duration := if d <? 0 then wrap_i64 (- d) else d.

(** [continuous] and [complete] of one batch. *)
Definition continuous_batch (n : Network) (b : Batch) : bool :=
  is_zero (n_last_batch n)
  || (after (b_sent_at b) (n_last_batch n)
      && (b_interface b =?s n_last_interface n)
      && (absDuration (wrap_i64 (time_sub (b_sent_at b) (n_last_batch n)
                                 - wrap_i64 (b_interval_ms b * millisecond)))
          <=? millisecond)).

Definition complete_batch (b : Batch) : bool :=
  let h := b_health b in
  (h_kernel_drops h =? 0) && (h_kernel_stats_errors h =? 0) && (h_parse_errors h =? 0)
  && (h_overflow_packets h =? 0) && (h_overflow_bytes h =? 0) && (h_ipc_batches h =? 0)
  && (h_ipc_packets h =? 0) && (h_ipc_bytes h =? 0) && negb (h_saturated h).

(** The first loop: outbound UDP flows are requests. *)
Definition remember_flow (b : Batch) (n : Network) (f : Flow) : Network :=
  if (f_direction f =?s DirectionOutbound) && (f_protocol f =?s "udp") then
    if (f_local_port f =? 0) || (f_remote_port f =? 0)
    then addCounter CUDPIgnored (f_packets f) n
    else rememberUDP f (b_interface b) (b_sent_at b) n
  else n.

Definition set_udp_complete (v : bool) (n : Network) : Network :=
  let s := n_stats n in
  set_stats (mkStats (st_scan_ignored s) (st_udp_ignored s) (st_udp_unclassified s)
               (st_udp_excluded s) v (st_recovery_suppressed s) (st_saturated s)) n.

(** The second loop: one inbound flow. *)
Definition inbound_flow (b : Batch) (acc : sources * (Network * World)) (f : Flow)
    : sources * (Network * World) :=
  let '(top, nw) := acc in
  if negb (f_direction f =?s DirectionInbound) then (top, nw)
  else
    let top := addSource "bandwidth_spike" f top in
    if f_protocol f =?s "tcp" then
      let top :=
        if negb (Z.land (f_tcp_flags f) 2 =? 0) && (Z.land (f_tcp_flags f) 16 =? 0)
        then addSource "syn_flood" f top else top in
      (top, if negb (f_local_port f =? 0) && (Z.land (f_tcp_flags f) 23 =? 2)
            then observePort f (b_sent_at b) nw else nw)
    else if f_protocol f =?s "udp" then
      let top := addSource "udp_flood" f top in
      let '(n, w) := nw in
      if (f_local_port f =? 0) || (f_remote_port f =? 0)
      then (top, (addCounter CUDPUnclassified (f_packets f) n, w))
      else if bool_decide (n_udp n !! udp_key (b_interface b) f <> None)
      then (top, (addCounter CUDPExcluded (f_packets f) n, w))
      else if negb (st_udp_complete (n_stats n))
      then (top, (addCounter CUDPUnclassified (f_packets f) n, w))
      else (top, observePort f (b_sent_at b) nw)
    else if (f_protocol f =?s "icmp") || (f_protocol f =?s "icmpv6")
    then (addSource "icmp_flood" f top, nw)
    else (top, nw).

(** The part of [Observe] before the rates: the detector, the sources and
    whether this window counts as reliable. *)
Definition observe_flows (b : Batch) (nw : Network * World)
    : sources * bool * (Network * World) :=
  let '(n, w) := nw in
  let continuous := continuous_batch n b in
  let complete := complete_batch b in
  let n := if is_zero (n_last_batch n) || negb continuous || negb complete
           then markUDPUncertain (b_sent_at b) n else n in
  let n := if after (b_sent_at b) (n_last_batch n)
           then set_last (b_sent_at b) (b_interface b) n else n in
  let '(n, w) := prune (b_sent_at b) (n, w) in
  let ignoredBefore := st_udp_ignored (n_stats n) in
  let n := foldl (remember_flow b) n (b_flows b) in
  let n := if negb (st_udp_ignored (n_stats n) =? ignoredBefore)
              || (n_udp_limit n <=? Z.of_nat (size (n_udp n)))
           then markUDPUncertain (b_sent_at b) n else n in
  let n := set_udp_complete
             ((3 <=? b_version b) && negb (before (b_sent_at b) (n_udp_uncertain n))
              && continuous && complete) n in
  let scanIgnoredBefore := st_scan_ignored (n_stats n) in
  let '(top, (n, w)) := foldl (inbound_flow b) (∅, (n, w)) (b_flows b) in
  let reliable := negb (n_continuity_reset n) && continuous && complete
    && (st_scan_ignored (n_stats n) =? scanIgnoredBefore)
    && (st_udp_ignored (n_stats n) =? ignoredBefore) && negb (st_saturated (n_stats n)) in
  (top, reliable, (set_continuity_reset false n, w)).

Record rate := mkRate {
  r_kind : string; r_value : f64; r_threshold : Z; r_severity : severity; r_unit : string }.

Definition batch_seconds (b : Batch) : f64 := f64_div (f64_of_Z (b_interval_ms b)) (f64_of_Z 1000).

Definition batch_rates (cfg : DetectionConfig) (b : Batch) : list rate :=
  let per_second c := f64_div (f64_of_Z c) (batch_seconds b) in
  [mkRate "syn_flood" (per_second (b_inbound_syn b)) (syn_packets_per_second cfg) SeverityHigh "pps";
   mkRate "udp_flood" (per_second (b_inbound_udp b)) (udp_packets_per_second cfg) SeverityHigh "pps";
   mkRate "icmp_flood" (per_second (b_inbound_icmp b)) (icmp_packets_per_second cfg) SeverityMedium "pps";
   mkRate "bandwidth_spike" (per_second (b_rx_bytes b)) (bytes_per_second cfg) SeverityHigh "bytes/s"].

(** One iteration of the loop over the rates: events, suppressed, state. *)
Definition observe_rate (b : Batch) (top : sources) (reliable : bool)
    (acc : list Event * bool * (Network * World)) (r : rate)
    : list Event * bool * (Network * World) :=
  let '(events, suppressed, nw) := acc in
  if r_threshold r =? 0 then acc
  else
    let f := topSource (default ∅ (top !! r_kind r)) (r_kind r =?s "bandwidth_spike") in
    let threshold := f64_of_Z (r_threshold r) in
    let suppressed := suppressed
      || (negb reliable && bool_decide (n_floods (fst nw) !! r_kind r <> None)
          && f64_lt (r_value r) (f64_mul threshold (recovery_ratio (n_config (fst nw))))) in
    match observeFlood (r_kind r) (r_value r) threshold (r_severity r) (r_unit r) f
            (b_sent_at b) reliable nw with
    | (Some e, nw) =>
        (events ++ [add_evidence "coverage_complete" (fmt_bool reliable)
                      (add_evidence "window_millis" (fmt_int (b_interval_ms b)) e)],
         suppressed, nw)
    | (None, nw) => (events, suppressed, nw)
    end.

Definition observe_rates (b : Batch) (top : sources) (reliable : bool) (nw : Network * World)
    : list Event * bool * (Network * World) :=
  foldl (observe_rate b top reliable) ([], false, nw) (batch_rates (n_config (fst nw)) b).

(** [Observe]. *)
Definition Observe (b : Batch) (nw : Network * World) : list Event * (Network * World) :=
  if f64_le (batch_seconds b) (f64_of_Z 0) then ([], nw)
  else
    let '(top, reliable, nw) := observe_flows b nw in
    let '(events, suppressed, nw) := observe_rates b top reliable nw in
    let '(n, w) := nw in
    let n := if suppressed then addCounter CRecoverySuppressed 1 n else n in
    let '(scans, (n, w)) := scanEvents (b_sent_at b) (n, w) in
    (events ++ map (add_evidence "coverage_complete"
                      (fmt_bool (negb (before (b_sent_at b) (n_scan_uncertain n))))) scans,
     (n, w)).

End Runtime.

(** ** [Stats] *)

Record NetworkStats := mkNetworkStats {
  ns_scan_sources : Z; ns_scan_source_limit : Z; ns_scan_ignored : Z;
  ns_scan_saturated : bool; ns_scan_ports : Z; ns_scan_port_limit : Z;
  ns_scan_port_saturated : bool; ns_scan_complete : bool; ns_scan_incomplete_until : time;
  ns_udp_tuples : Z; ns_udp_limit : Z; ns_udp_ignored : Z; ns_udp_unclassified : Z;
  ns_udp_excluded : Z; ns_udp_saturated : bool; ns_udp_complete : bool;
  ns_recovery_suppressed : Z; ns_saturated : bool }.

Definition Stats (n : Network) (w : World) : NetworkStats :=
  let s := n_stats n in
  mkNetworkStats (Z.of_nat (size (n_scans n))) (n_scan_limit n) (st_scan_ignored s)
    (n_scan_limit n <=? Z.of_nat (size (n_scans n))) (n_scan_ports n) (w_limit w)
    (budget_saturated w) (negb (before (n_last_batch n) (n_scan_uncertain n)))
    (n_scan_uncertain n) (Z.of_nat (size (n_udp n))) (n_udp_limit n) (st_udp_ignored s)
    (st_udp_unclassified s) (st_udp_excluded s)
    (n_udp_limit n <=? Z.of_nat (size (n_udp n))) (st_udp_complete s)
    (st_recovery_suppressed s) (st_saturated s).

(** ** Invariant: bounded tables and an exact port count *)

Definition ports_total (m : gmap string scanState) : Z :=
  map_sum (fun _ st => Z.of_nat (size (sc_ports st))) m.

(** The invariant of one detector and of its share of the budget; [others] are
    the ports that the other detectors hold. *)
Record net_inv (cfg : DetectionConfig) (scan_limit udp_limit others limit : Z)
    (nw : Network * World) : Prop := {
  ni_config : n_config (fst nw) = cfg;
  ni_scan_limit : n_scan_limit (fst nw) = scan_limit;
  ni_udp_limit : n_udp_limit (fst nw) = udp_limit;
  ni_scans : Z.of_nat (size (n_scans (fst nw))) <= scan_limit;
  ni_udp : Z.of_nat (size (n_udp (fst nw))) <= udp_limit;
  ni_ports : n_scan_ports (fst nw) = ports_total (n_scans (fst nw));
  ni_each : map_Forall (fun _ st => Z.of_nat (size (sc_ports st)) <= scan_unique_ports cfg)
              (n_scans (fst nw));
  ni_used : w_used (snd nw) = others + n_scan_ports (fst nw);
  ni_budget : w_used (snd nw) <= w_limit (snd nw);
  ni_limit : w_limit (snd nw) = limit }.

(** Two states that agree on everything the invariant reads. *)
Definition same_tables (n n' : Network) : Prop :=
  n_config n' = n_config n /\ n_scan_limit n' = n_scan_limit n /\
  n_udp_limit n' = n_udp_limit n /\ n_scans n' = n_scans n /\ n_udp n' = n_udp n /\
  n_scan_ports n' = n_scan_ports n.

Lemma net_inv_same cfg sl ul o l n n' w w' :
  same_tables n n' -> w_used w' = w_used w -> w_limit w' = w_limit w ->
  net_inv cfg sl ul o l (n, w) -> net_inv cfg sl ul o l (n', w').
Proof.
  intros (E1 & E2 & E3 & E4 & E5 & E6) Hu Hl []. simpl in *.
  constructor; simpl; rewrite ?E1, ?E2, ?E3, ?E4, ?E5, ?E6, ?Hu, ?Hl; auto.
Qed.

Lemma same_tables_refl n : same_tables n n.
Proof. by repeat split. Qed.

Lemma same_tables_trans n1 n2 n3 : same_tables n1 n2 -> same_tables n2 n3 -> same_tables n1 n3.
Proof. unfold same_tables. intros. destruct_and!. split_and!; congruence. Qed.

Lemma addCounter_same c v n : same_tables n (addCounter c v n).
Proof. unfold addCounter. destruct (saturating_add _ _ _). by repeat split. Qed.

Lemma markScanIncomplete_same t n : same_tables n (markScanIncomplete t n).
Proof. unfold markScanIncomplete. cbv zeta; repeat case_if; by repeat split. Qed.

Lemma markUDPUncertain_same t n : same_tables n (markUDPUncertain t n).
Proof. unfold markUDPUncertain. cbv zeta. repeat case_if; by repeat split. Qed.

#[export] Hint Resolve same_tables_refl addCounter_same markScanIncomplete_same
  markUDPUncertain_same : rampart.

Lemma ports_nonneg (m : gmap string scanState) :
  map_Forall (fun (_ : string) st => 0 <= Z.of_nat (size (sc_ports st))) m.
Proof. intros k st _. lia. Qed.

Lemma deleteScan_inv cfg sl ul o l source nw :
  net_inv cfg sl ul o l nw -> net_inv cfg sl ul o l (deleteScan source nw).
Proof.
  destruct nw as [n w]. intros Hi. unfold deleteScan.
  destruct (n_scans n !! source) as [st|] eqn:E; [|done].
  destruct Hi. simpl in *.
  assert (Hp : ports_total (n_scans n) = Z.of_nat (size (sc_ports st)) + ports_total (delete source (n_scans n)))
    by exact (map_sum_delete (fun _ st => Z.of_nat (size (sc_ports st))) _ _ _ E).
  constructor; simpl; auto; try lia.
  - rewrite map_size_delete_Some by eauto. lia.
  - by apply map_Forall_delete.
Qed.

Lemma releaseScanState_inv cfg sl ul o l nw :
  net_inv cfg sl ul o l nw -> net_inv cfg sl ul o l (releaseScanState nw).
Proof.
  intros Hi. unfold releaseScanState. apply foldl_preserves; [|done].
  intros a b. apply deleteScan_inv.
Qed.

Lemma net_prune_inv cfg sl ul o l now nw :
  net_inv cfg sl ul o l nw -> net_inv cfg sl ul o l (prune now nw).
Proof.
  intros Hi. unfold prune.
  assert (H : net_inv cfg sl ul o l (prune_scans now nw)).
  { unfold prune_scans. apply foldl_preserves; [|done].
    intros a [source st] Ha. case_if; [by apply deleteScan_inv|done]. }
  destruct (prune_scans now nw) as [n w]. destruct H.
  constructor; simpl in *; auto.
  etransitivity; [|eassumption]. apply Nat2Z.inj_le, map_subseteq_size, map_filter_subseteq.
Qed.

Lemma rememberUDP_inv cfg sl ul o l f iface now n w :
  net_inv cfg sl ul o l (n, w) -> net_inv cfg sl ul o l (rememberUDP f iface now n, w).
Proof.
  intros Hi. unfold rememberUDP. cbv zeta. case_if.
  { eapply net_inv_same; [..|exact Hi]; auto with rampart. }
  case_if; [|done]. destruct Hi. constructor; simpl in *; auto.
  destruct (n_udp n !! udp_key iface f) eqn:Ek.
  - rewrite map_size_insert_Some by eauto. done.
  - rewrite map_size_insert_None by done. rewrite bool_decide_true in E by done.
    simpl in E. bool_to_prop. lia.
Qed.

Lemma insert_scan_inv cfg sl ul o l source st ports n w w' :
  net_inv cfg sl ul o l (n, w) ->
  (n_scans n !! source = None -> Z.of_nat (size (n_scans n)) < sl) ->
  Z.of_nat (size (sc_ports st)) <= scan_unique_ports cfg ->
  ports = n_scan_ports n + Z.of_nat (size (sc_ports st))
          - Z.of_nat (size (default ∅ (sc_ports <$> n_scans n !! source))) ->
  w_limit w' = w_limit w -> w_used w' - w_used w = ports - n_scan_ports n ->
  w_used w' <= w_limit w' ->
  net_inv cfg sl ul o l (set_scans (<[source := st]> (n_scans n)) ports n, w').
Proof.
  intros Hi Hsz Hst Hp Hl Hu Hb. destruct Hi. simpl in *.
  assert (Ht : ports = ports_total (<[source := st]> (n_scans n))).
  { rewrite Hp, ni_ports0. unfold ports_total. destruct (n_scans n !! source) as [st0|] eqn:E.
    - rewrite (map_sum_insert _ _ _ _ _ E). simpl. lia.
    - rewrite (map_sum_insert_None _ _ _ _ E).
      change (default ∅ (sc_ports <$> @None scanState)) with (∅ : gset Z).
      rewrite size_empty. lia. }
  constructor; simpl; auto; try lia.
  - destruct (n_scans n !! source) eqn:E.
    + rewrite map_size_insert_Some by eauto. done.
    + rewrite map_size_insert_None by done. specialize (Hsz eq_refl). lia.
  - by apply map_Forall_insert_2.
Qed.

Lemma insert_scan_same_inv cfg sl ul o l source st st0 n w :
  net_inv cfg sl ul o l (n, w) -> n_scans n !! source = Some st0 ->
  sc_ports st = sc_ports st0 ->
  net_inv cfg sl ul o l (set_scans (<[source := st]> (n_scans n)) (n_scan_ports n) n, w).
Proof.
  intros Hi E Hp. pose proof Hi as Hi0. destruct Hi0. simpl in *.
  apply insert_scan_inv with (w := w); auto; rewrite ?E, ?Hp; try done; simpl; try lia.
  by apply (ni_each0 source).
Qed.

(** The state that [count_port] starts from is the one in the table or a fresh
    one for a source without an entry. *)
Lemma count_port_inv cfg sl ul o l f now st n w :
  net_inv cfg sl ul o l (n, w) ->
  1 <= scan_unique_ports cfg ->
  sc_ports st = default ∅ (sc_ports <$> n_scans n !! f_remote_ip f) ->
  (n_scans n !! f_remote_ip f = None -> Z.of_nat (size (n_scans n)) < sl) ->
  net_inv cfg sl ul o l (count_port f now st (n, w)).
Proof.
  intros Hi Hu Hp Hsz. pose proof Hi as Hi0. destruct Hi0. simpl in *.
  assert (Hst : Z.of_nat (size (sc_ports st)) <= scan_unique_ports cfg).
  { rewrite Hp. destruct (n_scans n !! f_remote_ip f) as [s0|] eqn:E.
    - by apply (ni_each0 (f_remote_ip f)).
    - change (default ∅ (sc_ports <$> @None scanState)) with (∅ : gset Z).
      rewrite size_empty. lia. }
  unfold count_port. cbv zeta.
  destruct (negb (sc_emitted st) && _ && _) eqn:E.
  2:{ apply insert_scan_inv with (w := w); simpl; auto; rewrite <- ?Hp; lia. }
  unfold reserve. destruct (w_limit w <=? w_used w) eqn:Eb.
  - set (n' := markScanIncomplete now (addCounter CScanIgnored (f_packets f) n)).
    assert (Hsame : same_tables n n')
      by (eapply same_tables_trans; [apply addCounter_same|apply markScanIncomplete_same]).
    assert (Hi' : net_inv cfg sl ul o l (n', w)) by (by eapply net_inv_same; [..|exact Hi]).
    destruct Hsame as (S1 & S2 & S3 & S4 & S5 & S6).
    apply insert_scan_inv with (w := w); simpl; rewrite ?S4; auto; rewrite <- ?Hp; lia.
  - bool_to_prop.
    assert (Hsize : size ({[f_local_port f]} ∪ sc_ports st) = S (size (sc_ports st))).
    { rewrite size_union, size_singleton; [done|].
      intros x Hx%elem_of_singleton. by subst. }
    rewrite ni_config0 in *.
    apply insert_scan_inv with (w := w); simpl; auto; rewrite ?Hsize, <- ?Hp; lia.
Qed.

Lemma observePort_inv cfg sl ul o l f now nw :
  net_inv cfg sl ul o l nw -> 1 <= scan_unique_ports cfg ->
  net_inv cfg sl ul o l (observePort f now nw).
Proof.
  destruct nw as [n w]. intros Hi Hu. unfold observePort. cbv zeta. simpl fst. simpl snd.
  destruct (n_scans n !! f_remote_ip f) as [st|] eqn:E.
  - case_if.
    + pose proof (deleteScan_inv _ _ _ _ _ (f_remote_ip f) _ Hi) as Hd.
      assert (Hdel : n_scans (fst (deleteScan (f_remote_ip f) (n, w))) !! f_remote_ip f = None).
      { simpl. rewrite E. simpl. apply lookup_delete_eq. }
      assert (Hsz : Z.of_nat (size (n_scans (fst (deleteScan (f_remote_ip f) (n, w))))) < sl).
      { simpl. rewrite E. simpl. rewrite map_size_delete_Some by eauto.
        destruct Hi. simpl in *. assert (size (n_scans n) <> 0%nat); [|lia].
        intros H0. apply map_size_empty_inv in H0. rewrite H0 in E. by rewrite lookup_empty in E. }
      destruct (deleteScan (f_remote_ip f) (n, w)) as [n' w']. simpl in Hdel, Hsz.
      apply count_port_inv; auto. by rewrite Hdel.
    + apply count_port_inv; auto; rewrite E; [done|discriminate].
  - case_if; bool_to_prop.
    + eapply net_inv_same; [|reflexivity|reflexivity|exact Hi].
      eapply same_tables_trans; [apply addCounter_same|apply markScanIncomplete_same].
    + apply count_port_inv; auto; rewrite E; [done|]. intros _.
      destruct Hi. simpl in *. lia.
Qed.

Lemma remember_flow_inv cfg sl ul o l b f n w :
  net_inv cfg sl ul o l (n, w) -> net_inv cfg sl ul o l (remember_flow b n f, w).
Proof.
  intros Hi. unfold remember_flow. case_if; [|done]. case_if.
  - eapply net_inv_same; [..|exact Hi]; auto with rampart.
  - by apply rememberUDP_inv.
Qed.

Lemma inbound_flow_inv cfg sl ul o l b f acc :
  net_inv cfg sl ul o l (snd acc) -> 1 <= scan_unique_ports cfg ->
  net_inv cfg sl ul o l (snd (inbound_flow b acc f)).
Proof.
  destruct acc as [top [n w]]. intros Hi Hu. unfold inbound_flow. simpl in Hi.
  assert (Hc : forall c v, net_inv cfg sl ul o l (addCounter c v n, w)).
  { intros c v. eapply net_inv_same; [..|exact Hi]; auto with rampart. }
  case_if; [done|]. cbv zeta. case_if; [|case_if; [|case_if; done]].
  - simpl. case_if; [by apply observePort_inv|done].
  - case_if; [apply Hc|]. case_if; [apply Hc|]. case_if; [apply Hc|by apply observePort_inv].
Qed.

Lemma observe_flows_inv cfg sl ul o l b nw :
  net_inv cfg sl ul o l nw -> 1 <= scan_unique_ports cfg ->
  net_inv cfg sl ul o l (snd (observe_flows b nw)).
Proof.
  destruct nw as [n w]. intros Hi Hu. unfold observe_flows.
  set (n1 := if is_zero (n_last_batch n) || _ || _ then _ else _).
  assert (H1 : net_inv cfg sl ul o l (n1, w)).
  { unfold n1. case_if; [|done]. eapply net_inv_same; [..|exact Hi]; auto with rampart. }
  set (n2 := if after _ (n_last_batch n1) then _ else _).
  assert (H2 : net_inv cfg sl ul o l (n2, w)).
  { unfold n2. case_if; [|done]. eapply net_inv_same; [..|exact H1]; by repeat split. }
  cbv zeta. fold n1. fold n2.
  pose proof (net_prune_inv _ _ _ _ _ (b_sent_at b) _ H2) as H3.
  destruct (prune (b_sent_at b) (n2, w)) as [n3 w3].
  set (n4 := foldl (remember_flow b) n3 (b_flows b)).
  assert (H4 : net_inv cfg sl ul o l (n4, w3)).
  { apply (foldl_preserves (fun n => net_inv cfg sl ul o l (n, w3))); [|done].
    intros a f. apply remember_flow_inv. }
  set (n5 := if negb _ || _ then markUDPUncertain (b_sent_at b) n4 else n4).
  assert (H5 : net_inv cfg sl ul o l (n5, w3)).
  { unfold n5. case_if; [|done]. eapply net_inv_same; [..|exact H4]; auto with rampart. }
  set (n6 := set_udp_complete _ n5).
  assert (H6 : net_inv cfg sl ul o l (n6, w3))
    by (eapply net_inv_same; [..|exact H5]; by repeat split).
  assert (H7 : net_inv cfg sl ul o l (snd (foldl (inbound_flow b) (∅, (n6, w3)) (b_flows b)))).
  { apply (foldl_preserves (fun acc => net_inv cfg sl ul o l (snd acc))); [|done].
    intros a f Ha. by apply inbound_flow_inv. }
  destruct (foldl (inbound_flow b) (∅, (n6, w3)) (b_flows b)) as [top [n7 w7]]. simpl in *.
  eapply net_inv_same; [..|exact H7]; by repeat split.
Qed.

Section RuntimeLemmas.
Context `{GoRuntime}.

Lemma set_floods_same m n : same_tables n (set_floods m n).
Proof. by repeat split. Qed.

(** Drawing identifiers leaves the budget alone. *)
Lemma floodEvent_budget kind phase st v t sv u f now w :
  w_used (snd (floodEvent kind phase st v t sv u f now w)) = w_used w /\
  w_limit (snd (floodEvent kind phase st v t sv u f now w)) = w_limit w.
Proof. done. Qed.

Lemma observeFlood_inv cfg sl ul o l kind v t sv u f now r nw :
  net_inv cfg sl ul o l nw ->
  net_inv cfg sl ul o l (snd (observeFlood kind v t sv u f now r nw)).
Proof.
  destruct nw as [n w]. intros Hi.
  assert (Hs : forall m w', w_used w' = w_used w -> w_limit w' = w_limit w ->
    net_inv cfg sl ul o l (set_floods m n, w')).
  { intros. eapply net_inv_same; [apply set_floods_same|done|done|exact Hi]. }
  unfold observeFlood. cbv zeta.
  destruct (f64_ge v t), (n_floods n !! kind) as [st|]; repeat case_if; simpl; auto.
Qed.

Lemma observe_rate_inv cfg sl ul o l b top r acc rt :
  net_inv cfg sl ul o l (snd acc) -> net_inv cfg sl ul o l (snd (observe_rate b top r acc rt)).
Proof.
  destruct acc as [[ev sup] nw]. intros Hi. change (net_inv cfg sl ul o l nw) in Hi.
  unfold observe_rate. case_if; [done|]. cbv zeta.
  match goal with |- context [observeFlood ?k ?v ?t ?s ?u ?f ?now ?rr nw] =>
    pose proof (observeFlood_inv _ _ _ _ _ k v t s u f now rr _ Hi) as Ho;
    destruct (observeFlood k v t s u f now rr nw) as [[e|] nw'] end; exact Ho.
Qed.

Lemma scan_entry_inv cfg sl ul o l now acc entry :
  net_inv cfg sl ul o l (snd acc) ->
  (forall st, n_scans (fst (snd acc)) !! fst entry = Some st -> sc_ports st = sc_ports (snd entry)) ->
  (exists st, n_scans (fst (snd acc)) !! fst entry = Some st) ->
  net_inv cfg sl ul o l (snd (scan_entry now acc entry)).
Proof.
  destruct acc as [ev [n w]], entry as [source st]. simpl. intros Hi Hsame [st0 E].
  unfold scan_entry. case_if; [exact (deleteScan_inv _ _ _ _ _ source _ Hi)|].
  case_if; [|done]. simpl.
  assert (Hw : forall n' w', w_used w' = w_used w -> w_limit w' = w_limit w ->
    net_inv cfg sl ul o l (n', w) -> net_inv cfg sl ul o l (n', w')).
  { intros n' w' Hu Hl Hn. eapply net_inv_same; [apply same_tables_refl|done|done|exact Hn]. }
  apply Hw; [done|done|]. eapply insert_scan_same_inv; [done|exact E|]. simpl.
  symmetry. by apply Hsame.
Qed.

(** [scanEvents] visits entries that are in the table as they were listed:
    it changes only the entry it visits. *)
Lemma scanEvents_inv cfg sl ul o l now nw :
  net_inv cfg sl ul o l nw -> net_inv cfg sl ul o l (snd (scanEvents now nw)).
Proof.
  intros Hi. unfold scanEvents.
  assert (Hgen : forall entries acc,
    NoDup (fst <$> entries) ->
    (forall source st, (source, st) ∈ entries -> n_scans (fst (snd acc)) !! source = Some st) ->
    net_inv cfg sl ul o l (snd acc) ->
    net_inv cfg sl ul o l (snd (foldl (scan_entry now) acc entries))).
  { induction entries as [|[source st] entries IH]; intros acc Hnd Hin Ha; [done|].
    simpl in Hnd. apply NoDup_cons in Hnd as [Hnotin Hnd]. simpl. apply IH; [done| |].
    - intros s' st' Hs'. pose proof (Hin s' st' ltac:(by right)) as E.
      assert (Hne : s' <> source).
      { intros ->. apply Hnotin. apply list_elem_of_fmap. by exists (source, st'). }
      destruct acc as [ev [n w]]. unfold scan_entry. simpl in *.
      case_if; [|case_if; [|done]].
      + simpl. destruct (n_scans n !! source); simpl; [by rewrite lookup_delete_ne|done].
      + simpl. by rewrite lookup_insert_ne.
    - pose proof (Hin source st ltac:(by left)) as E. apply scan_entry_inv; simpl; [done| |eauto].
      intros st0 E0. rewrite E in E0. by injection E0 as ->. }
  apply Hgen; [apply NoDup_fst_map_to_list| |done].
  intros source st Hs. by apply elem_of_map_to_list in Hs.
Qed.

Lemma net_Observe_inv cfg sl ul o l b nw :
  net_inv cfg sl ul o l nw -> 1 <= scan_unique_ports cfg ->
  net_inv cfg sl ul o l (snd (Observe b nw)).
Proof.
  intros Hi Hu. unfold Observe. case_if; [done|].
  pose proof (observe_flows_inv _ _ _ _ _ b _ Hi Hu) as H1.
  destruct (observe_flows b nw) as [[top r] nw1]. simpl in H1.
  assert (H2 : net_inv cfg sl ul o l (snd (observe_rates b top r nw1))).
  { unfold observe_rates.
    apply (foldl_preserves (fun acc => net_inv cfg sl ul o l (snd acc))); [|done].
    intros acc rt. apply observe_rate_inv. }
  destruct (observe_rates b top r nw1) as [[ev sup] [n2 w2]]. simpl in H2.
  set (n3 := if sup then addCounter CRecoverySuppressed 1 n2 else n2).
  assert (H3 : net_inv cfg sl ul o l (n3, w2)).
  { unfold n3. case_if; [|done]. eapply net_inv_same; [..|exact H2]; auto with rampart. }
  pose proof (scanEvents_inv _ _ _ _ _ (b_sent_at b) _ H3) as H4.
  by destruct (scanEvents (b_sent_at b) (n3, w2)) as [scans [n4 w4]].
Qed.
End RuntimeLemmas.

(** ** Flood incidents *)

(** The incident of a kind, if one is open. *)
Definition incident (kind : string) (n : Network) : option string :=
  fl_incident <$> n_floods n !! kind.

(** Only [observeFlood] changes the open incidents. *)
Lemma deleteScan_floods source nw : n_floods (fst (deleteScan source nw)) = n_floods (fst nw).
Proof. destruct nw as [n w]. unfold deleteScan. by destruct (n_scans n !! source). Qed.

Lemma addCounter_floods c v n : n_floods (addCounter c v n) = n_floods n.
Proof. unfold addCounter. by destruct (saturating_add _ _ _). Qed.

Lemma markScanIncomplete_floods t n : n_floods (markScanIncomplete t n) = n_floods n.
Proof. unfold markScanIncomplete. cbv zeta. by case_if. Qed.

Lemma markUDPUncertain_floods t n : n_floods (markUDPUncertain t n) = n_floods n.
Proof. unfold markUDPUncertain. cbv zeta. by repeat case_if. Qed.

Lemma count_port_floods f now st nw :
  n_floods (fst (count_port f now st nw)) = n_floods (fst nw).
Proof.
  destruct nw as [n w]. unfold count_port. cbv zeta. case_if; [|done].
  destruct (reserve w) as [[] w']; simpl; [done|].
  by rewrite markScanIncomplete_floods, addCounter_floods.
Qed.

Lemma observePort_floods f now nw : n_floods (fst (observePort f now nw)) = n_floods (fst nw).
Proof.
  unfold observePort. cbv zeta. destruct (n_scans (fst nw) !! f_remote_ip f) as [st|]; case_if;
    rewrite ?count_port_floods, ?deleteScan_floods; try done.
  simpl. by rewrite markScanIncomplete_floods, addCounter_floods.
Qed.

Lemma prune_floods now nw : n_floods (fst (prune now nw)) = n_floods (fst nw).
Proof.
  unfold prune.
  assert (Hp : n_floods (fst (prune_scans now nw)) = n_floods (fst nw)).
  { unfold prune_scans. apply foldl_preserves; [|done].
    intros a [source st] Ha. case_if; [by rewrite deleteScan_floods|done]. }
  by destruct (prune_scans now nw).
Qed.

Lemma remember_flow_floods b n f : n_floods (remember_flow b n f) = n_floods n.
Proof.
  unfold remember_flow. case_if; [|done]. case_if; [apply addCounter_floods|].
  unfold rememberUDP. cbv zeta. case_if; [apply addCounter_floods|]. by case_if.
Qed.

Lemma inbound_flow_floods b acc f :
  n_floods (fst (snd (inbound_flow b acc f))) = n_floods (fst (snd acc)).
Proof.
  destruct acc as [top [n w]]. unfold inbound_flow. cbv zeta.
  case_if; [done|]. case_if; [|case_if; [|by case_if]].
  - simpl. case_if; [by rewrite observePort_floods|done].
  - repeat case_if; simpl; rewrite ?addCounter_floods, ?observePort_floods; done.
Qed.

Lemma observe_flows_floods b nw :
  n_floods (fst (snd (observe_flows b nw))) = n_floods (fst nw).
Proof.
  destruct nw as [n w]. unfold observe_flows. cbv zeta.
  set (n1 := if is_zero (n_last_batch n) || _ || _ then _ else _).
  assert (H1 : n_floods n1 = n_floods n)
    by (unfold n1; case_if; [apply markUDPUncertain_floods|done]).
  set (n2 := if after _ (n_last_batch n1) then _ else _).
  assert (H2 : n_floods n2 = n_floods n) by (unfold n2; case_if; done).
  pose proof (prune_floods (b_sent_at b) (n2, w)) as H3.
  destruct (prune (b_sent_at b) (n2, w)) as [n3 w3]. simpl in H3.
  assert (H4 : n_floods (foldl (remember_flow b) n3 (b_flows b)) = n_floods n).
  { apply foldl_preserves; [|congruence]. intros a f Ha. by rewrite remember_flow_floods. }
  set (n4 := foldl (remember_flow b) n3 (b_flows b)) in *.
  set (n5 := if negb _ || _ then markUDPUncertain (b_sent_at b) n4 else n4).
  assert (H5 : n_floods n5 = n_floods n)
    by (unfold n5; case_if; [by rewrite markUDPUncertain_floods|done]).
  set (n6 := set_udp_complete _ n5).
  assert (H7 : n_floods (fst (snd (foldl (inbound_flow b) (∅, (n6, w3)) (b_flows b)))) = n_floods n).
  { apply (foldl_preserves (fun acc => n_floods (fst (snd acc)) = n_floods n)); [|done].
    intros a f Ha. by rewrite inbound_flow_floods. }
  by destruct (foldl (inbound_flow b) (∅, (n6, w3)) (b_flows b)) as [top [n7 w7]].
Qed.

Section FloodLemmas.
Context `{GoRuntime}.

Lemma scanEvents_floods now nw : n_floods (fst (snd (scanEvents now nw))) = n_floods (fst nw).
Proof.
  unfold scanEvents.
  apply (foldl_preserves (fun acc => n_floods (fst (snd acc)) = n_floods (fst nw))); [|done].
  intros [ev [n w]] [source st] Ha. simpl in Ha. unfold scan_entry.
  case_if; [|case_if; [|done]]; [|done].
  pose proof (deleteScan_floods source (n, w)) as Hd. cbn [snd fst] in *. congruence.
Qed.

Lemma scanEvents_kind now nw :
  Forall (fun e => ev_kind e = "port_scan"%string) (fst (scanEvents now nw)).
Proof.
  unfold scanEvents.
  apply (foldl_preserves (fun acc => Forall (fun e => ev_kind e = "port_scan"%string) (fst acc)));
    [|by constructor].
  intros [ev [n w]] [source st] Ha. simpl in Ha. unfold scan_entry.
  case_if; [done|]. case_if; [|done]. simpl. apply Forall_app. split; [done|]. by constructor.
Qed.

(** The legal sequences of events of one kind, from one open incident (or none)
    to another: start, updates, recovery, with one identifier throughout. *)
Inductive lifecycle : option string -> list Event -> option string -> Prop :=
| life_nil o : lifecycle o [] o
| life_start e es o :
    ev_phase e = "start"%string -> lifecycle (Some (ev_incident e)) es o ->
    lifecycle None (e :: es) o
| life_update e es i o :
    ev_phase e = "update"%string -> ev_incident e = i -> lifecycle (Some i) es o ->
    lifecycle (Some i) (e :: es) o
| life_recovery e es i o :
    ev_phase e = "recovery"%string -> ev_incident e = i -> lifecycle None es o ->
    lifecycle (Some i) (e :: es) o.

Lemma lifecycle_app o1 es1 o2 es2 o3 :
  lifecycle o1 es1 o2 -> lifecycle o2 es2 o3 -> lifecycle o1 (es1 ++ es2) o3.
Proof. induction 1; simpl; intros; eauto using lifecycle. Qed.

(** One rate: the event, if any, is the next step of the lifecycle of its kind,
    and the incidents of the other kinds stay. *)
Lemma observeFlood_lifecycle kind v t sv u f now r n w :
  let '(e, (n', _)) := observeFlood kind v t sv u f now r (n, w) in
  lifecycle (incident kind n) (option_list e) (incident kind n') /\
  (forall e', e = Some e' -> ev_kind e' = kind) /\
  (forall k, k <> kind -> n_floods n' !! k = n_floods n !! k) /\
  n_config n' = n_config n.
Proof.
  unfold observeFlood, incident. cbv zeta.
  destruct (f64_ge v t), (n_floods n !! kind) as [st|] eqn:E; repeat case_if; simpl;
    rewrite ?lookup_insert_eq, ?lookup_delete_eq, ?E; simpl;
    (split_and!; [eauto using lifecycle|intros ? [= <-]; done || discriminate
                 |intros; rewrite ?lookup_insert_ne, ?lookup_delete_ne by done; done|done]).
Qed.
End FloodLemmas.

Section ObserveLemmas.
Context `{GoRuntime}.

Definition of_kind (kind : string) (es : list Event) : list Event :=
  filter (fun e => ev_kind e = kind) es.

Lemma of_kind_app k es1 es2 : of_kind k (es1 ++ es2) = of_kind k es1 ++ of_kind k es2.
Proof. apply filter_app. Qed.

Lemma of_kind_none k es : Forall (fun e => ev_kind e <> k) es -> of_kind k es = [].
Proof.
  unfold of_kind. induction 1 as [|e es He _ IH]; [done|]. by rewrite filter_cons_False.
Qed.

(** The events that one rate adds. *)
Lemma observe_rate_lifecycle kind b top r acc rt :
  let '(es, _, (n', _)) := observe_rate b top r acc rt in
  exists new, es = fst (fst acc) ++ new /\
    lifecycle (incident kind (fst (snd acc))) (of_kind kind new) (incident kind n') /\
    n_config n' = n_config (fst (snd acc)).
Proof.
  destruct acc as [[ev sup] [n w]]. unfold observe_rate. cbn [fst snd]. case_if.
  { exists []. rewrite app_nil_r. split_and!; [done|constructor|done]. }
  cbv zeta.
  pose proof (observeFlood_lifecycle (r_kind rt) (r_value rt) (f64_of_Z (r_threshold rt))
    (r_severity rt) (r_unit rt)
    (topSource (default ∅ (top !! r_kind rt)) (r_kind rt =?s "bandwidth_spike"))
    (b_sent_at b) r n w) as Hl.
  destruct (observeFlood _ _ _ _ _ _ _ _ _) as [[e|] [n' w']]; simpl in Hl;
    destruct Hl as (Hl & Hk & Hother & Hc).
  - eexists. split; [done|]. split; [|done].
    destruct (decide (r_kind rt = kind)) as [<-|Hne].
    + unfold of_kind. rewrite filter_cons_True by (simpl; by apply Hk). simpl.
      inversion Hl as [|? ? ? Hp Hrest|? ? ? ? Hp Hi Hrest|? ? ? ? Hp Hi Hrest]; subst;
        [eapply life_start|eapply life_update|eapply life_recovery]; eauto.
    + rewrite of_kind_none by (constructor; [simpl; rewrite (Hk e) by done; done|constructor]).
      unfold incident. rewrite Hother by done. constructor.
  - exists []. rewrite app_nil_r. split; [done|]. split; [|done].
    destruct (decide (r_kind rt = kind)) as [<-|Hne]; [exact Hl|].
    unfold incident. rewrite Hother by done. constructor.
Qed.

Lemma observe_rates_lifecycle kind b top r nw :
  let '(es, _, (n', _)) := observe_rates b top r nw in
  lifecycle (incident kind (fst nw)) (of_kind kind es) (incident kind n') /\
  n_config n' = n_config (fst nw).
Proof.
  unfold observe_rates. generalize (batch_rates (n_config (fst nw)) b) as rates. intros rates.
  assert (Hgen : forall rates acc,
    let '(es, _, (n', _)) := foldl (observe_rate b top r) acc rates in
    exists new, es = fst (fst acc) ++ new /\
      lifecycle (incident kind (fst (snd acc))) (of_kind kind new) (incident kind n') /\
      n_config n' = n_config (fst (snd acc))).
  { clear. induction rates as [|rt rates IH]; intros acc; simpl.
    { destruct acc as [[es sup] [n w]]. exists []. rewrite app_nil_r.
      split_and!; [done|constructor|done]. }
    pose proof (observe_rate_lifecycle kind b top r acc rt) as H1.
    specialize (IH (observe_rate b top r acc rt)).
    destruct (observe_rate b top r acc rt) as [[es1 sup1] [n1 w1]].
    destruct H1 as (new1 & -> & L1 & C1). cbn [fst snd] in IH.
    destruct (foldl _ _ rates) as [[es2 sup2] [n2 w2]]. destruct IH as (new2 & -> & L2 & C2).
    exists (new1 ++ new2). rewrite app_assoc. split_and!; [done| |congruence].
    rewrite of_kind_app. by eapply lifecycle_app. }
  specialize (Hgen rates ([], false, nw)).
  destruct (foldl _ _ rates) as [[es sup] [n' w']].
  destruct Hgen as (new & -> & Hl & Hc). by split.
Qed.

Lemma Observe_lifecycle kind b nw :
  kind <> "port_scan"%string ->
  lifecycle (incident kind (fst nw)) (of_kind kind (fst (Observe b nw)))
    (incident kind (fst (snd (Observe b nw)))).
Proof.
  intros Hk. unfold Observe. case_if; [constructor|].
  pose proof (observe_flows_floods b nw) as Hf.
  destruct (observe_flows b nw) as [[top r] nw1]. cbn [fst snd] in Hf.
  pose proof (observe_rates_lifecycle kind b top r nw1) as Hl.
  destruct (observe_rates b top r nw1) as [[ev sup] [n2 w2]]. destruct Hl as [Hl _].
  set (n3 := if sup then addCounter CRecoverySuppressed 1 n2 else n2).
  assert (H3 : n_floods n3 = n_floods n2) by (unfold n3; case_if; [apply addCounter_floods|done]).
  pose proof (scanEvents_floods (b_sent_at b) (n3, w2)) as H4.
  pose proof (scanEvents_kind (b_sent_at b) (n3, w2)) as H5.
  destruct (scanEvents (b_sent_at b) (n3, w2)) as [scans [n4 w4]]. cbn [fst snd] in *.
  rewrite of_kind_app, (of_kind_none kind (map _ scans)), app_nil_r.
  - unfold incident in *. rewrite H4, H3. by rewrite <- Hf.
  - apply Forall_map. eapply Forall_impl; [exact H5|]. intros e He. simpl in *. congruence.
Qed.

(** What happens to a detector: batches, reconnections of the sensor, and
    whatever the other detectors of its fleet do to the shared budget. *)
Inductive net_step :=
| NBatch (b : Batch)
| NReset
| NBudget (w : World).

Definition batches (steps : list net_step) : list Batch :=
  omap (fun s => if s is NBatch b then Some b else None) steps.

Definition net_do (s : net_step) (nw : Network * World) : list Event * (Network * World) :=
  match s with
  | NBatch b => Observe b nw
  | NReset => ([], (ResetContinuity (fst nw), snd nw))
  | NBudget w => ([], (fst nw, w))
  end.

Fixpoint net_run (steps : list net_step) (nw : Network * World)
    : list Event * (Network * World) :=
  match steps with
  | [] => ([], nw)
  | s :: steps =>
      let '(es, nw) := net_do s nw in
      let '(es', nw) := net_run steps nw in
      (es ++ es', nw)
  end.

Lemma batches_app s1 s2 : batches (s1 ++ s2) = batches s1 ++ batches s2.
Proof. apply omap_app. Qed.

Lemma net_run_snoc steps s : forall nw,
  net_run (steps ++ [s]) nw =
    (fst (net_run steps nw) ++ fst (net_do s (snd (net_run steps nw))),
     snd (net_do s (snd (net_run steps nw)))).
Proof.
  induction steps as [|s0 steps IH]; intros nw; simpl.
  { destruct (net_do s nw) as [es nw1]. by rewrite app_nil_r. }
  destruct (net_do s0 nw) as [es nw1]. rewrite IH.
  destruct (net_run steps nw1) as [es1 nw2]. simpl. by rewrite app_assoc.
Qed.

(** A rate of another kind, or without a threshold, leaves the kind alone. *)
Lemma observe_rate_other kind b top r acc rt :
  r_kind rt <> kind \/ r_threshold rt = 0 ->
  let '(es, _, (n', _)) := observe_rate b top r acc rt in
  of_kind kind es = of_kind kind (fst (fst acc)) /\
  n_floods n' !! kind = n_floods (fst (snd acc)) !! kind /\
  n_config n' = n_config (fst (snd acc)).
Proof.
  destruct acc as [[ev sup] [n w]]. unfold observe_rate. cbn [fst snd].
  intros Hor. case_if; [done|]. destruct Hor as [Hne|H0]; [|bool_to_prop; lia]. cbv zeta.
  pose proof (observeFlood_lifecycle (r_kind rt) (r_value rt) (f64_of_Z (r_threshold rt))
    (r_severity rt) (r_unit rt)
    (topSource (default ∅ (top !! r_kind rt)) (r_kind rt =?s "bandwidth_spike"))
    (b_sent_at b) r n w) as Hl.
  destruct (observeFlood _ _ _ _ _ _ _ _ _) as [[e|] [n' w']]; simpl in Hl;
    destruct Hl as (_ & Hk & Hother & Hc); split_and!; auto.
  rewrite of_kind_app, (of_kind_none kind [_]), app_nil_r; [done|].
  constructor; [simpl; by rewrite (Hk e)|constructor].
Qed.

Lemma observe_rates_other kind b top r rates : forall acc,
  Forall (fun rt => r_kind rt <> kind \/ r_threshold rt = 0) rates ->
  let '(es, _, (n', _)) := foldl (observe_rate b top r) acc rates in
  of_kind kind es = of_kind kind (fst (fst acc)) /\
  n_floods n' !! kind = n_floods (fst (snd acc)) !! kind /\
  n_config n' = n_config (fst (snd acc)).
Proof.
  induction rates as [|rt rates IH]; intros acc Hr; simpl; [by destruct acc as [[] []]|].
  apply Forall_cons in Hr as [H1 Hr].
  pose proof (observe_rate_other kind b top r acc rt H1) as Ho.
  specialize (IH (observe_rate b top r acc rt) Hr).
  destruct (observe_rate b top r acc rt) as [[es1 s1] [n1 w1]]. cbn [fst snd] in IH.
  destruct (foldl _ _ rates) as [[es2 s2] [n2 w2]].
  destruct Ho as (A1 & A2 & A3), IH as (B1 & B2 & B3). split_and!; congruence.
Qed.

End ObserveLemmas.

(** ** The source blamed for a flood *)

Definition source_value (byBytes : bool) (f : Flow) : Z :=
  if byBytes then f_bytes f else f_packets f.
Definition source_key (byBytes : bool) (f : Flow) : Z * string :=
  (source_value byBytes f, f_remote_ip f).
Definition source_lt : Z * string -> Z * string -> bool := lex gtb string_lt.

Definition legal_source (f : Flow) : Prop :=
  0 <= f_packets f /\ 0 <= f_bytes f /\ f_remote_ip f <> ""%string.

Lemma better_key byBytes top source :
  legal_source top ->
  better byBytes top source = source_lt (source_key byBytes source) (source_key byBytes top).
Proof.
  intros (_ & _ & Hip). unfold better, source_lt, lex, source_key, source_value, gtb. simpl.
  apply String.eqb_neq in Hip. rewrite Hip.
  destruct (decide _) as [->|Hne].
  - rewrite Z.ltb_irrefl, Z.eqb_refl. done.
  - apply Z.eqb_neq in Hne. rewrite Hne. by rewrite orb_false_r.
Qed.

(** The first source replaces the zero flow. *)
Lemma topSource_list_cons byBytes f l :
  legal_source f ->
  topSource_list byBytes (f :: l) = select (better byBytes) f l.
Proof.
  intros (Hp & Hb & _). unfold topSource_list, select. simpl. unfold better at 2. simpl.
  destruct byBytes; simpl.
  - destruct (f_bytes f); done || lia.
  - destruct (f_packets f); done || lia.
Qed.

(** ** The ports behind a scan *)

Section ScanOrigin.
(** [P source started ports]: what is claimed of the ports of one entry. *)
Context (P : string -> time -> gset Z -> Prop).

Definition scans_all (n : Network) : Prop :=
  map_Forall (fun source st => P source (sc_started st) (sc_ports st)) (n_scans n).

Lemma deleteScan_all source nw : scans_all (fst nw) -> scans_all (fst (deleteScan source nw)).
Proof.
  destruct nw as [n w]. unfold deleteScan, scans_all. simpl. intros Ha.
  destruct (n_scans n !! source); simpl; [by apply map_Forall_delete|done].
Qed.

Lemma scans_all_same n n' : n_scans n' = n_scans n -> scans_all n -> scans_all n'.
Proof. unfold scans_all. by intros ->. Qed.

Lemma same_tables_all n n' : same_tables n n' -> scans_all n -> scans_all n'.
Proof. intros (_ & _ & _ & E & _). by apply scans_all_same. Qed.

Lemma prune_all now nw : scans_all (fst nw) -> scans_all (fst (prune now nw)).
Proof.
  intros Ha. unfold prune.
  assert (Hp : scans_all (fst (prune_scans now nw))).
  { unfold prune_scans. apply (foldl_preserves (fun nw => scans_all (fst nw))); [|done].
    intros a [source st] H. case_if; [by apply deleteScan_all|done]. }
  by destruct (prune_scans now nw).
Qed.

(** A port that is counted extends the claim; a fresh entry starts it. *)
Definition extends (cfg : DetectionConfig) (f : Flow) (now : time) : Prop :=
  P (f_remote_ip f) now ∅ /\
  forall started ports, time_sub now started <= scan_window cfg ->
    P (f_remote_ip f) started ports -> P (f_remote_ip f) started ({[f_local_port f]} ∪ ports).

Lemma count_port_all cfg f now st nw :
  n_config (fst nw) = cfg -> extends cfg f now -> scans_all (fst nw) ->
  time_sub now (sc_started st) <= scan_window cfg ->
  P (f_remote_ip f) (sc_started st) (sc_ports st) ->
  scans_all (fst (count_port f now st nw)).
Proof.
  destruct nw as [n w]. simpl. intros Hc [_ Hext] Ha Hwin Hst. unfold count_port. cbv zeta.
  assert (Hsame : scans_all (markScanIncomplete now (addCounter CScanIgnored (f_packets f) n))).
  { eapply same_tables_all; [|exact Ha].
    eapply same_tables_trans; [apply addCounter_same|apply markScanIncomplete_same]. }
  unfold scans_all in *.
  case_if; [destruct (reserve w) as [[] w']|]; simpl; apply map_Forall_insert_2; simpl; auto.
Qed.

Lemma observePort_all cfg f now nw :
  n_config (fst nw) = cfg -> is_i64 (scan_window cfg) -> 0 <= scan_window cfg ->
  extends cfg f now -> scans_all (fst nw) -> scans_all (fst (observePort f now nw)).
Proof.
  intros Hc Hi Hw Hext Ha. unfold observePort. cbv zeta.
  assert (Hnow : time_sub now now <= scan_window cfg)
    by (unfold time_sub; rewrite Z.sub_diag; unfold clamp_i64; zlia).
  destruct (n_scans (fst nw) !! f_remote_ip f) as [st|] eqn:E;
    [destruct (_ <? _) eqn:Ew|destruct (_ <=? _) eqn:Ew]; bool_to_prop.
  - apply (count_port_all cfg); auto; [|by apply deleteScan_all|apply Hext].
    destruct nw as [n w]. unfold deleteScan. simpl in *. by rewrite E.
  - apply (count_port_all cfg); auto. by rewrite <- Hc.
  - simpl. eapply same_tables_all; [|exact Ha].
    eapply same_tables_trans; [apply addCounter_same|apply markScanIncomplete_same].
  - apply (count_port_all cfg); auto. apply Hext.
Qed.

Lemma observePort_config f now nw : n_config (fst (observePort f now nw)) = n_config (fst nw).
Proof.
  assert (Hd : forall s nw, n_config (fst (deleteScan s nw)) = n_config (fst nw)).
  { intros s [n w]. unfold deleteScan. by destruct (n_scans n !! s). }
  assert (Hm : forall n, n_config (markScanIncomplete now (addCounter CScanIgnored (f_packets f) n))
    = n_config n).
  { intros n. destruct (same_tables_trans _ _ _ (addCounter_same CScanIgnored (f_packets f) n)
      (markScanIncomplete_same now _)) as [E _]. exact E. }
  assert (Hc : forall st nw, n_config (fst (count_port f now st nw)) = n_config (fst nw)).
  { intros st [n w]. unfold count_port. cbv zeta. case_if; [|done].
    destruct (reserve w) as [[] w']; simpl; [done|apply Hm]. }
  unfold observePort. cbv zeta.
  destruct (n_scans (fst nw) !! f_remote_ip f) as [st|];
    [destruct (_ <? _)|destruct (_ <=? _)]; rewrite ?Hc, ?Hd; try done. simpl. apply Hm.
Qed.

(** A flow that [inbound_flow] may count as a probe. *)
Definition probe (f : Flow) : bool :=
  (f_direction f =?s DirectionInbound) && negb (f_local_port f =? 0)
  && (((f_protocol f =?s "tcp") && (Z.land (f_tcp_flags f) 23 =? 2))
      || ((f_protocol f =?s "udp") && negb (f_remote_port f =? 0))).

Lemma inbound_flow_all cfg b acc f :
  is_i64 (scan_window cfg) -> 0 <= scan_window cfg ->
  (probe f = true -> extends cfg f (b_sent_at b)) ->
  n_config (fst (snd acc)) = cfg /\ scans_all (fst (snd acc)) ->
  n_config (fst (snd (inbound_flow b acc f))) = cfg /\
  scans_all (fst (snd (inbound_flow b acc f))).
Proof.
  destruct acc as [top [n w]]. simpl fst. simpl snd. intros Hi Hw Hext [Hc Ha].
  assert (Hadd : forall c v, n_config (addCounter c v n) = cfg /\ scans_all (addCounter c v n)).
  { intros c v. pose proof (addCounter_same c v n) as Hs. split; [destruct Hs; congruence|].
    by eapply same_tables_all. }
  assert (Hport : probe f = true ->
    n_config (fst (observePort f (b_sent_at b) (n, w))) = cfg /\
    scans_all (fst (observePort f (b_sent_at b) (n, w)))).
  { intros Hp. rewrite observePort_config. split; [done|]. by eapply observePort_all; eauto. }
  unfold inbound_flow. cbv zeta. case_if; [done|]. bool_to_prop.
  destruct (f_protocol f =?s "tcp") eqn:Et.
  - simpl. destruct (negb (f_local_port f =? 0) && _) eqn:Ep; [|done]. apply Hport.
    unfold probe. rewrite E, Et. bool_to_prop. simpl.
    rewrite H0. rewrite (proj2 (Z.eqb_neq _ _) H). done.
  - destruct (f_protocol f =?s "udp") eqn:Eu; [|by case_if].
    destruct ((f_local_port f =? 0) || (f_remote_port f =? 0)) eqn:Ez; [apply Hadd|].
    case_if; [apply Hadd|]. case_if; [apply Hadd|]. apply Hport.
    unfold probe. rewrite E, Et, Eu. apply orb_false_iff in Ez as [-> ->]. done.
Qed.

Lemma observe_flows_all cfg b nw :
  is_i64 (scan_window cfg) -> 0 <= scan_window cfg ->
  Forall (fun f => probe f = true -> extends cfg f (b_sent_at b)) (b_flows b) ->
  n_config (fst nw) = cfg -> scans_all (fst nw) ->
  n_config (fst (snd (observe_flows b nw))) = cfg /\ scans_all (fst (snd (observe_flows b nw))).
Proof.
  destruct nw as [n w]. simpl. intros Hi Hw Hext Hc Ha. unfold observe_flows. cbv zeta.
  set (ok := fun n => n_config n = cfg /\ scans_all n).
  assert (Hok : forall n n', same_tables n n' -> ok n -> ok n').
  { intros m m' Hs [H1 H2]. split; [destruct Hs; congruence|by eapply same_tables_all]. }
  set (n1 := if is_zero (n_last_batch n) || _ || _ then _ else _).
  assert (H1 : ok n1) by (unfold n1; case_if; [eapply Hok; [apply markUDPUncertain_same|]|]; done).
  set (n2 := if after _ (n_last_batch n1) then _ else _).
  assert (H2 : ok n2) by (unfold n2; case_if; done).
  assert (H3 : ok (fst (prune (b_sent_at b) (n2, w)))).
  { destruct H2 as [C2 A2]. split; [|by apply prune_all]. unfold prune.
    assert (Hp : n_config (fst (prune_scans (b_sent_at b) (n2, w))) = cfg).
    { unfold prune_scans. apply (foldl_preserves (fun nw => n_config (fst nw) = cfg)); [|done].
      intros [a u] [source st] Hcc. case_if; [|done]. unfold deleteScan.
      by destruct (n_scans a !! source). }
    by destruct (prune_scans _ _). }
  destruct (prune (b_sent_at b) (n2, w)) as [n3 w3]. simpl in H3.
  assert (H4 : ok (foldl (remember_flow b) n3 (b_flows b))).
  { apply foldl_preserves; [|done]. intros m f Hm. unfold remember_flow. case_if; [|done].
    case_if; [by eapply Hok; [apply addCounter_same|]|]. unfold rememberUDP. cbv zeta.
    case_if; [by eapply Hok; [apply addCounter_same|]|]. by case_if. }
  set (n4 := foldl (remember_flow b) n3 (b_flows b)) in *.
  set (n5 := if negb _ || _ then markUDPUncertain (b_sent_at b) n4 else n4).
  assert (H5 : ok n5) by (unfold n5; case_if; [eapply Hok; [apply markUDPUncertain_same|]|]; done).
  set (n6 := set_udp_complete _ n5). assert (H6 : ok n6) by done.
  assert (H7 : ok (fst (snd (foldl (inbound_flow b) (∅, (n6, w3)) (b_flows b))))).
  { assert (Hgen : forall fs acc, ok (fst (snd acc)) ->
      Forall (fun f => probe f = true -> extends cfg f (b_sent_at b)) fs ->
      ok (fst (snd (foldl (inbound_flow b) acc fs)))).
    { induction fs as [|f fs IH]; intros acc Hacc Hfs; [done|]. simpl.
      apply Forall_cons in Hfs as [Hf Hfs]. apply IH; [|done]. by apply inbound_flow_all. }
    by apply Hgen. }
  by destruct (foldl (inbound_flow b) (∅, (n6, w3)) (b_flows b)) as [top [n7 w7]].
Qed.
End ScanOrigin.

Section ScanEvents.
Context `{GoRuntime}.

Lemma scanEvents_all (P : string -> time -> gset Z -> Prop) cfg now nw :
  n_config (fst nw) = cfg -> scans_all P (fst nw) ->
  n_config (fst (snd (scanEvents now nw))) = cfg /\
  scans_all P (fst (snd (scanEvents now nw))) /\
  Forall (fun e => exists started ports, P (ev_source_ip e) started ports /\
    ev_count e = Z.of_nat (size ports) /\ scan_unique_ports cfg <= ev_count e)
    (fst (scanEvents now nw)).
Proof.
  intros Hc Ha. unfold scanEvents.
  assert (Hl : Forall (fun kv => P (fst kv) (sc_started (snd kv)) (sc_ports (snd kv)))
                 (map_to_list (n_scans (fst nw)))).
  { apply Forall_forall. intros [source st] Hin%elem_of_map_to_list. by apply (Ha source). }
  revert Hl. generalize (map_to_list (n_scans (fst nw))) as entries.
  assert (Hgen : forall entries acc,
    Forall (fun kv => P (fst kv) (sc_started (snd kv)) (sc_ports (snd kv))) entries ->
    n_config (fst (snd acc)) = cfg -> scans_all P (fst (snd acc)) ->
    Forall (fun e => exists started ports, P (ev_source_ip e) started ports /\
      ev_count e = Z.of_nat (size ports) /\ scan_unique_ports cfg <= ev_count e) (fst acc) ->
    n_config (fst (snd (foldl (scan_entry now) acc entries))) = cfg /\
    scans_all P (fst (snd (foldl (scan_entry now) acc entries))) /\
    Forall (fun e => exists started ports, P (ev_source_ip e) started ports /\
      ev_count e = Z.of_nat (size ports) /\ scan_unique_ports cfg <= ev_count e)
      (fst (foldl (scan_entry now) acc entries))).
  { induction entries as [|[source st] entries IH]; intros acc Hl Hcc Haa He; [done|].
    apply Forall_cons in Hl as [Hst Hl]. simpl in Hst |- *.
    destruct acc as [ev [n w]]. simpl in Hcc, Haa, He. apply IH; [done|..]; unfold scan_entry.
    - case_if; [|by case_if]. unfold deleteScan. simpl. by destruct (n_scans n !! source).
    - case_if; [by apply (deleteScan_all P source (n, w))|].
      case_if; [|done]. simpl. unfold scans_all. simpl. by apply map_Forall_insert_2.
    - case_if; [done|]. case_if; [|done]. simpl. bool_to_prop. apply Forall_app. split; [done|].
      constructor; [|constructor]. exists (sc_started st), (sc_ports st). simpl.
      rewrite <- Hcc. split_and!; done. }
  intros entries Hl. by apply Hgen.
Qed.

Lemma Observe_scans (P : string -> time -> gset Z -> Prop) cfg b nw :
  is_i64 (scan_window cfg) -> 0 <= scan_window cfg ->
  Forall (fun f => probe f = true -> extends P cfg f (b_sent_at b)) (b_flows b) ->
  n_config (fst nw) = cfg -> scans_all P (fst nw) ->
  n_config (fst (snd (Observe b nw))) = cfg /\ scans_all P (fst (snd (Observe b nw))) /\
  Forall (fun e => exists started ports, P (ev_source_ip e) started ports /\
    ev_count e = Z.of_nat (size ports) /\ scan_unique_ports cfg <= ev_count e)
    (of_kind "port_scan" (fst (Observe b nw))).
Proof.
  intros Hi Hw Hext Hc Ha. unfold Observe. case_if; [split_and!; [done|done|constructor]|].
  destruct (observe_flows_all P cfg b nw Hi Hw Hext Hc Ha) as [C1 A1].
  destruct (observe_flows b nw) as [[top r] [n1 w1]]. cbn [fst snd] in C1, A1.
  assert (Hoff : Forall (fun rt => r_kind rt <> "port_scan"%string \/ r_threshold rt = 0)
                   (batch_rates (n_config n1) b))
    by (repeat first [apply Forall_nil_2 | apply Forall_cons_2; [left; discriminate|]]).
  pose proof (observe_rates_other "port_scan" b top r _ ([], false, (n1, w1)) Hoff) as Ho.
  assert (A2 : scans_all P (fst (snd (observe_rates b top r (n1, w1))))).
  { unfold observe_rates. apply (foldl_preserves (fun acc => scans_all P (fst (snd acc)))); [|done].
    intros [[ev sup] [n w]] rt Hacc. unfold observe_rate. case_if; [done|]. cbv zeta.
    unfold observeFlood. cbv zeta.
    destruct (f64_ge _ _), (n_floods n !! r_kind rt); repeat case_if; done. }
  change (foldl (observe_rate b top r) ([], false, (n1, w1)) (batch_rates (n_config n1) b))
    with (observe_rates b top r (n1, w1)) in Ho.
  destruct (observe_rates b top r (n1, w1)) as [[ev sup] [n2 w2]].
  destruct Ho as (E1 & _ & E2). cbn [fst snd] in *.
  set (n3 := if sup then addCounter CRecoverySuppressed 1 n2 else n2).
  assert (H3 : n_config n3 = cfg /\ scans_all P n3).
  { unfold n3. case_if; [|split; [congruence|done]].
    pose proof (addCounter_same CRecoverySuppressed 1 n2) as Hs.
    split; [destruct Hs; congruence|by eapply same_tables_all]. }
  destruct (scanEvents_all P cfg (b_sent_at b) (n3, w2)) as (C4 & A4 & F4); [apply H3|apply H3|].
  pose proof (scanEvents_kind (b_sent_at b) (n3, w2)) as K4.
  destruct (scanEvents (b_sent_at b) (n3, w2)) as [scans [n4 w4]]. cbn [fst snd] in *.
  split_and!; [done|done|]. rewrite of_kind_app, E1. simpl.
  apply Forall_forall. intros e [_ He]%list_elem_of_filter.
  apply list_elem_of_fmap in He as (e0 & -> & He0). rewrite Forall_forall in F4.
  exact (F4 e0 He0).
Qed.

(** What a history of batches justifies: every port of the entry was probed by
    that source, in the window that opened with the entry. *)
Definition probed (cfg : DetectionConfig) (hist : list Batch) (source : string) (started : time)
    (p : Z) : Prop :=
  exists b f, b ∈ hist /\ f ∈ b_flows b /\ probe f = true /\ f_remote_ip f = source /\
    f_local_port f = p /\ started <= b_sent_at b <= started + scan_window cfg.

Definition justified (cfg : DetectionConfig) (hist : list Batch) (source : string)
    (started : time) (ports : gset Z) : Prop :=
  (exists b, b ∈ hist /\ started = b_sent_at b) /\
  forall p, p ∈ ports -> probed cfg hist source started p.

Lemma justified_mono cfg hist hist' source started ports :
  hist ⊆ hist' -> justified cfg hist source started ports ->
  justified cfg hist' source started ports.
Proof.
  intros Hsub [(b & Hb & Hs) Hp]. split; [exists b; auto|].
  intros p (b' & f & Hb' & Hrest)%Hp. exists b', f. auto.
Qed.

Lemma justified_extends cfg hist b f :
  is_i64 (scan_window cfg) -> scan_window cfg <> i64_max -> 0 <= scan_window cfg ->
  (forall b', b' ∈ hist -> b_sent_at b' <= b_sent_at b) -> b ∈ hist -> f ∈ b_flows b ->
  probe f = true -> extends (justified cfg hist) cfg f (b_sent_at b).
Proof.
  intros Hi Hmax Hw Hle Hb Hf Hp. split.
  - split; [by exists b|]. intros p Hin. by apply elem_of_empty in Hin.
  - intros started ports Hsub [(b0 & Hb0 & ->) Hj]. split; [by exists b0|].
    intros p [Hin%elem_of_singleton|Hin]%elem_of_union; [|by apply Hj]. subst p.
    exists b, f. split_and!; auto.
    destruct (time_sub_lt (b_sent_at b) (b_sent_at b0) (scan_window cfg) Hi Hmax) as [_ Hx].
    destruct (decide (scan_window cfg < b_sent_at b - b_sent_at b0)); [apply Hx in l|]; lia.
Qed.

Lemma Observe_justified cfg hist b nw :
  is_i64 (scan_window cfg) -> scan_window cfg <> i64_max -> 0 <= scan_window cfg ->
  (forall b', b' ∈ hist -> b_sent_at b' <= b_sent_at b) ->
  n_config (fst nw) = cfg -> scans_all (justified cfg hist) (fst nw) ->
  n_config (fst (snd (Observe b nw))) = cfg /\
  scans_all (justified cfg (hist ++ [b])) (fst (snd (Observe b nw))) /\
  Forall (fun e => exists started ports,
    justified cfg (hist ++ [b]) (ev_source_ip e) started ports /\
    ev_count e = Z.of_nat (size ports) /\ scan_unique_ports cfg <= ev_count e)
    (of_kind "port_scan" (fst (Observe b nw))).
Proof.
  intros Hi Hmax Hw Hle Hc Ha. apply Observe_scans; auto.
  - apply Forall_forall. intros f Hf Hp. apply justified_extends; auto.
    + intros b' [Hb'|Hb'%list_elem_of_singleton]%elem_of_app; [auto|subst; lia].
    + apply elem_of_app. right. by apply list_elem_of_singleton.
  - intros source st Hs. eapply justified_mono; [|by apply (Ha source st Hs)].
    intros x Hx. apply elem_of_app. by left.
Qed.

Lemma net_run_justified cfg steps : forall hist nw,
  is_i64 (scan_window cfg) -> scan_window cfg <> i64_max -> 0 <= scan_window cfg ->
  StronglySorted Z.le (b_sent_at <$> hist ++ batches steps) ->
  n_config (fst nw) = cfg -> scans_all (justified cfg hist) (fst nw) ->
  n_config (fst (snd (net_run steps nw))) = cfg /\
  scans_all (justified cfg (hist ++ batches steps)) (fst (snd (net_run steps nw))).
Proof.
  induction steps as [|s steps IH]; intros hist nw Hi Hmax Hw Hs Hc Ha; simpl.
  { by rewrite app_nil_r. }
  destruct s as [b| |w]; simpl.
  - assert (Hle : forall b', b' ∈ hist -> b_sent_at b' <= b_sent_at b).
    { intros b' Hb'. rewrite fmap_app in Hs. eapply (StronglySorted_app_1_elem_of Z.le); [exact Hs| |].
      - apply list_elem_of_fmap. by exists b'.
      - simpl. apply list_elem_of_here. }
    destruct (Observe_justified cfg hist b nw Hi Hmax Hw Hle Hc Ha) as (C1 & A1 & _).
    destruct (Observe b nw) as [es nw1].
    specialize (IH (hist ++ [b]) nw1 Hi Hmax Hw). rewrite <- app_assoc in IH.
    destruct (IH Hs C1 A1) as [C2 A2]. by destruct (net_run steps nw1).
  - destruct (IH hist (ResetContinuity (fst nw), snd nw) Hi Hmax Hw Hs Hc Ha) as [C2 A2].
    by destruct (net_run steps _).
  - destruct (IH hist (fst nw, w) Hi Hmax Hw Hs Hc Ha) as [C2 A2].
    by destruct (net_run steps _).
Qed.
End ScanEvents.

(** ** Quiet windows over a history *)

Section Histories.
Context `{GoRuntime}.

Lemma net_run_lifecycle kind steps : forall nw,
  kind <> "port_scan"%string ->
  lifecycle (incident kind (fst nw)) (of_kind kind (fst (net_run steps nw)))
    (incident kind (fst (snd (net_run steps nw)))).
Proof.
  induction steps as [|s steps IH]; intros nw Hk; simpl; [constructor|].
  assert (H1 : lifecycle (incident kind (fst nw)) (of_kind kind (fst (net_do s nw)))
                 (incident kind (fst (snd (net_do s nw))))).
  { destruct s as [b| |w]; [by apply Observe_lifecycle|constructor..]. }
  destruct (net_do s nw) as [es nw1]. specialize (IH nw1 Hk).
  destruct (net_run steps nw1) as [es' nw2]. cbn [fst snd] in *.
  rewrite of_kind_app. by eapply lifecycle_app.
Qed.
End Histories.

(** ** Properties *)

Section Properties.
Context `{GoRuntime}.

(** C8. Flood events of one kind form incidents: over any history of batches,
    reconnections and activity of other interfaces, from any state, each incident
    is a start, updates and a recovery with one identifier, no incident starts
    while one is open, and none is updated or recovered unless it is open. *)
Theorem flood_lifecycle kind steps nw :
  kind <> "port_scan"%string ->
  lifecycle (incident kind (fst nw)) (of_kind kind (fst (net_run steps nw)))
    (incident kind (fst (snd (net_run steps nw)))).
Proof. apply net_run_lifecycle. Qed.

(** The source blamed for a flood is the one with the most traffic, the
    lowest address text among equals, and does not depend on the order in which
    the table of sources is visited. *)
Theorem topSource_order_independent byBytes l l' :
  Forall legal_source l -> NoDup (f_remote_ip <$> l) -> l ≡ₚ l' ->
  topSource_list byBytes l = topSource_list byBytes l' /\
  (l <> [] -> topSource_list byBytes l ∈ l /\
     forall f, f ∈ l -> f <> topSource_list byBytes l ->
       source_value byBytes f < source_value byBytes (topSource_list byBytes l) \/
       (source_value byBytes f = source_value byBytes (topSource_list byBytes l) /\
        string_lt (f_remote_ip (topSource_list byBytes l)) (f_remote_ip f) = true)).
Proof.
  intros Hl Hnd Hp.
  assert (Hmax : forall l, Forall legal_source l -> l <> [] ->
    topSource_list byBytes l ∈ l /\ Forall (fun f => source_lt (source_key byBytes f)
      (source_key byBytes (topSource_list byBytes l)) = false) l).
  { intros [|f k] Hk Hne; [done|]. rewrite topSource_list_cons by (by apply Forall_inv in Hk).
    apply (select_spec source_lt (source_key byBytes) (better byBytes) legal_source); [|done].
    intros top x Ht _. by apply better_key. }
  assert (Hinj : forall f g, f ∈ l -> g ∈ l -> source_key byBytes f = source_key byBytes g -> f = g).
  { intros f g (i & Hf)%list_elem_of_lookup (j & Hg)%list_elem_of_lookup [= _ Hip].
    assert (i = j); [|by simplify_eq].
    eapply NoDup_lookup; [exact Hnd| |]; rewrite list_lookup_fmap, ?Hf, ?Hg; simpl; by rewrite ?Hip. }
  destruct (decide (l = [])) as [->|Hne].
  { apply Permutation_nil_l in Hp as <-. by split. }
  destruct (Hmax l Hl Hne) as [Hin Hall]. split.
  - destruct (Hmax l') as [Hin' Hall']; [by rewrite <- Hp| |].
    { intros ->. by apply Permutation_nil_r in Hp. }
    rewrite <- Hp in Hall'. apply (elem_of_Permutation_proper _ _ _ Hp) in Hin'.
    by apply (least_unique source_lt (source_key byBytes) l).
  - rewrite Forall_forall in Hall. intros _. split; [done|]. intros f Hf Hdiff. specialize (Hall f Hf).
    assert (Hkey : source_key byBytes f <> source_key byBytes (topSource_list byBytes l))
      by (intros Heq; by apply Hdiff, Hinj).
    destruct (source_lt (source_key byBytes (topSource_list byBytes l)) (source_key byBytes f)) eqn:E;
      [|exfalso; apply Hkey; by apply (st_total (lt := source_lt))].
    unfold source_lt, lex, source_key, gtb in E. simpl in E.
    destruct (decide _) as [Heq|_]; [by right|left; by apply Z.ltb_lt].
Qed.

(** A port scan is reported only for what was seen: at least
    [ScanUniquePorts] different local ports, the number that the event counts,
    each probed by that source in a batch of the history sent within one scan
    window of the first. *)
Theorem port_scan_sound cfg sl ul w steps b e :
  detection_config_valid cfg = true ->
  StronglySorted Z.le (b_sent_at <$> batches steps ++ [b]) ->
  e ∈ fst (Observe b (snd (net_run steps (newNetworkLimits cfg sl ul, w)))) ->
  ev_kind e = "port_scan"%string ->
  scan_unique_ports cfg <= ev_count e /\
  exists started (ports : gset Z), ev_count e = Z.of_nat (size ports) /\
    forall p, p ∈ ports -> probed cfg (batches steps ++ [b]) (ev_source_ip e) started p.
Proof.
  intros Hv Hs He Hk. unfold detection_config_valid in Hv. bool_to_prop.
  assert (Hi : is_i64 (scan_window cfg)) by zlia.
  assert (Hmax : scan_window cfg <> i64_max) by zlia.
  assert (Hw : 0 <= scan_window cfg) by zlia.
  assert (Hs0 : StronglySorted Z.le (b_sent_at <$> batches steps))
    by (rewrite fmap_app in Hs; by apply StronglySorted_app_1_l in Hs).
  destruct (net_run_justified cfg steps [] (newNetworkLimits cfg sl ul, w)) as [C1 A1];
    try done.
  assert (Hle : forall b', b' ∈ batches steps -> b_sent_at b' <= b_sent_at b).
  { intros b' Hb'. rewrite fmap_app in Hs. eapply (StronglySorted_app_1_elem_of Z.le); [exact Hs| |].
    - apply list_elem_of_fmap. by exists b'.
    - apply list_elem_of_here. }
  destruct (Observe_justified cfg (batches steps) b _ Hi Hmax Hw Hle C1 A1) as (_ & _ & Hall).
  rewrite Forall_forall in Hall. destruct (Hall e) as (started & ports & [_ Hj] & Hc & Hu).
  { apply list_elem_of_filter. by split. }
  split; [done|]. by exists started, ports.
Qed.
End Properties.

(** A worked history: a SYN flood from one source over two ports, then quiet. *)
Definition example_detection : DetectionConfig :=
  mkDetection 5 0 0 0 (f64_div (f64_of_Z 1) (f64_of_Z 2)) 2 second 2 (60 * second).
Definition example_window (k syn : Z) (flows : list Flow) : Batch :=
  mkBatch 0 5 "" 0 (unix_epoch + k * second) 0 1000 "eth0" flows 1000 0 10 0 syn 0 0 zero_health.
Definition example_syn (port : Z) : Flow := mkFlow "inbound" "192.0.2.1" "tcp" port 51000 2 3 180.
Definition example_history : list net_step :=
  [NBatch (example_window 1 10 [example_syn 80]); NBatch (example_window 2 8 [example_syn 443]);
   NBatch (example_window 3 0 [])].
Definition example_network : Network * World :=
  (newNetworkLimits example_detection 4 4, mkWorld 0 8 0).

Lemma flood_lifecycle_witness :
  let kind := "syn_flood"%string in
  let run := @net_run example_runtime (example_history ++ [NBatch (example_window 4 0 [])]) example_network in
  ev_phase <$> of_kind kind (fst run) = ["start"; "update"; "recovery"]%string /\
  lifecycle None (of_kind kind (fst run)) None.
Proof.
  split; [vm_compute; reflexivity|].
  exact (@flood_lifecycle example_runtime "syn_flood" (example_history ++ [NBatch (example_window 4 0 [])])
    example_network ltac:(discriminate)).
Defined.

Lemma topSource_order_independent_witness :
  let f ip n := mkFlow "inbound" ip "tcp" 80 51000 2 n n in
  let l := [f "192.0.2.9" 5; f "192.0.2.3" 7; f "192.0.2.1" 7]%string in
  topSource_list false l = topSource_list false (rev l) /\
  f_remote_ip (topSource_list false l) = "192.0.2.1"%string.
Proof.
  intros f l. split; [|vm_compute; reflexivity].
  apply (topSource_order_independent false l (rev l)).
  - repeat (apply Forall_cons_2; [by unfold legal_source|]). apply Forall_nil_2.
  - apply (bool_decide_unpack _). by vm_compute.
  - apply Permutation_rev.
Defined.

Lemma port_scan_sound_witness :
  let nw := snd (@net_run example_runtime [NBatch (example_window 1 10 [example_syn 80])] example_network) in
  exists e, e ∈ fst (@Observe example_runtime (example_window 2 8 [example_syn 443]) nw) /\
    ev_kind e = "port_scan"%string /\ 2 <= ev_count e.
Proof.
  intros nw.
  assert (Hex : exists e, e ∈ fst (@Observe example_runtime (example_window 2 8 [example_syn 443]) nw) /\
    ev_kind e = "port_scan"%string).
  { destruct (fst (@Observe example_runtime (example_window 2 8 [example_syn 443]) nw))
      as [|e1 [|e2 es]] eqn:E; try (vm_compute in E; discriminate E).
    exists e2. split; [right; left|]. vm_compute in E. by injection E as _ <- _. }
  destruct Hex as (e & He & Hk). exists e. split_and!; [done|done|].
  refine (proj1 (@port_scan_sound example_runtime example_detection 4 4 (mkWorld 0 8 0)
    [NBatch (example_window 1 10 [example_syn 80])] (example_window 2 8 [example_syn 443]) e _ _ He Hk)).
  - vm_compute. reflexivity.
  - repeat constructor; vm_compute; discriminate.
Defined.
