(* ===== verification/NetworkRecovery.v ===== *)
(** * When a flood is over

    The recoveries that a detector reports ([Observe] of detect/network.go) against the
    history alone: the batches, the reconnections and what the counters of [Stats] say. *)

From S2P Require Export Network.

(** ** Windows of a history

    What follows mentions the steps of a history and the public counters only. *)

(** What a batch follows: nothing yet, a reconnection of the sensor, or the latest
    batch so far. *)
Inductive link := LStart | LReset | LLast (t : time) (iface : string).

(** A batch that covers no time is ignored. *)
Definition covers (b : Batch) : bool :=
  negb (f64_le (f64_div (f64_of_Z (b_interval_ms b)) (f64_of_Z 1000)) (f64_of_Z 0)).

Definition link_step (s : net_step) (l : link) : link :=
  match s with
  | NBatch b =>
      if covers b
      then match l with
           | LLast t _ => if t <? b_sent_at b then LLast (b_sent_at b) (b_interface b) else l
           | _ => LLast (b_sent_at b) (b_interface b)
           end
      else l
  | NReset => LReset
  | NBudget _ => l
  end.

(** A window of a history: what it follows, its batch, and the counters of the detector
    before and after it. *)
Record window := mkWindow {
  wi_link : link; wi_batch : Batch; wi_before : counters_state; wi_after : counters_state }.

(** Nothing was lost in capture, decoding, aggregation or delivery. *)
Definition lossless (h : CollectorHealth) : Prop :=
  h_kernel_drops h = 0 /\ h_kernel_stats_errors h = 0 /\ h_parse_errors h = 0 /\
  h_overflow_packets h = 0 /\ h_overflow_bytes h = 0 /\ h_ipc_batches h = 0 /\
  h_ipc_packets h = 0 /\ h_ipc_bytes h = 0 /\ h_saturated h = false.

(** The interval of the batch starts where the latest one of the same interface ended, to
    the millisecond that the sensor rounds off. *)
Definition joined (l : link) (b : Batch) : Prop :=
  match l with
  | LStart => True
  | LReset => False
  | LLast t iface =>
      t < b_sent_at b /\ b_interface b = iface /\
      Z.abs (b_sent_at b - t - b_interval_ms b * millisecond) <= millisecond
  end.

(** What a kind of flood counts, and its threshold. *)
Definition flood_count (kind : string) (b : Batch) : Z :=
  if kind =?s "syn_flood" then b_inbound_syn b
  else if kind =?s "udp_flood" then b_inbound_udp b
  else if kind =?s "icmp_flood" then b_inbound_icmp b
  else b_rx_bytes b.

Definition flood_threshold (cfg : DetectionConfig) (kind : string) : Z :=
  if kind =?s "syn_flood" then syn_packets_per_second cfg
  else if kind =?s "udp_flood" then udp_packets_per_second cfg
  else if kind =?s "icmp_flood" then icmp_packets_per_second cfg
  else bytes_per_second cfg.

(** The rate of the window is under the recovery ratio of the threshold. *)
Definition below_recovery (cfg : DetectionConfig) (kind : string) (b : Batch) : Prop :=
  f64_lt (f64_div (f64_of_Z (flood_count kind b))
            (f64_div (f64_of_Z (b_interval_ms b)) (f64_of_Z 1000)))
         (f64_mul (f64_of_Z (flood_threshold cfg kind)) (recovery_ratio cfg)) = true.

(** A window that may count towards a recovery: lossless, joined to its predecessor,
    nothing turned away for want of room, no counter saturated, and quiet. *)
Record clean_window (cfg : DetectionConfig) (kind : string) (w : window) : Prop := {
  cw_lossless : lossless (b_health (wi_batch w));
  cw_joined : joined (wi_link w) (wi_batch w);
  cw_scans : st_scan_ignored (wi_after w) = st_scan_ignored (wi_before w);
  cw_requests : st_udp_ignored (wi_after w) = st_udp_ignored (wi_before w);
  cw_exact : st_saturated (wi_after w) = false;
  cw_below : below_recovery cfg kind (wi_batch w) }.

(** What validation leaves of a batch's clock fields. *)
Definition timely (b : Batch) : Prop :=
  0 < b_sent_at b /\ 0 <= b_interval_ms b <= MaxBatchIntervalMillis.

Section Recovery.
Context `{GoRuntime}.

(** The windows of a history, latest first. *)
Definition window_step (l : link) (s : net_step) (nw : Network * World) (ws : list window)
    : list window :=
  match s with
  | NBatch b =>
      if covers b
      then mkWindow l b (n_stats (fst nw)) (n_stats (fst (snd (Observe b nw)))) :: ws
      else ws
  | _ => ws
  end.

Fixpoint windows (l : link) (steps : list net_step) (nw : Network * World) (ws : list window)
    : list window :=
  match steps with
  | [] => ws
  | s :: steps => windows (link_step s l) steps (snd (net_do s nw)) (window_step l s nw ws)
  end.

(** ** The counter of quiet windows *)

(** The rate that makes a window quiet. *)
Definition rate_quiet (cfg : DetectionConfig) (kind : string) (rt : rate) : bool :=
  (r_kind rt =?s kind) && negb (r_threshold rt =? 0)
  && negb (f64_ge (r_value rt) (f64_of_Z (r_threshold rt)))
  && f64_lt (r_value rt) (f64_mul (f64_of_Z (r_threshold rt)) (recovery_ratio cfg)).

(** The window of a batch is quiet and trusted for a kind. *)
Definition quiet_window (kind : string) (b : Batch) (nw : Network * World) : bool :=
  let '(_, reliable, (n, _)) := observe_flows b nw in
  reliable && existsb (rate_quiet (n_config n) kind) (batch_rates (n_config n) b).

(** The quiet windows of a history, latest first; [Observe] ignores a batch
    that covers no time. *)
Definition quiet_step (kind : string) (s : net_step) (nw : Network * World) (h : list bool)
    : list bool :=
  match s with
  | NBatch b => if f64_le (batch_seconds b) (f64_of_Z 0) then h else quiet_window kind b nw :: h
  | _ => h
  end.

Fixpoint quiet_history (kind : string) (steps : list net_step) (nw : Network * World)
    (h : list bool) : list bool :=
  match steps with
  | [] => h
  | s :: steps => quiet_history kind steps (snd (net_do s nw)) (quiet_step kind s nw h)
  end.

(** The counter of an open incident is at most the number of quiet windows that
    end the history [h], latest first. *)
Definition quiet_ok (kind : string) (h : list bool) (n : Network) : Prop :=
  forall st, n_floods n !! kind = Some st ->
    0 <= fl_quiet st <= lenZ h /\ Forall (fun q => q = true) (take (Z.to_nat (fl_quiet st)) h).

Definition recovered (kind : string) (es : list Event) : Prop :=
  exists e, e ∈ es /\ ev_kind e = kind /\ ev_phase e = "recovery"%string.

Lemma observeFlood_quiet kind v t sv u f now r n w h q :
  quiet_ok kind h n ->
  (r = true -> f64_ge v t = false ->
   f64_lt v (f64_mul t (recovery_ratio (n_config n))) = true -> q = true) ->
  let '(e, (n', _)) := observeFlood kind v t sv u f now r (n, w) in
  quiet_ok kind (q :: h) n' /\
  (forall e', e = Some e' -> ev_phase e' = "recovery"%string ->
     recovery_windows (n_config n) <= lenZ (q :: h) /\
     Forall (fun q => q = true) (take (Z.to_nat (recovery_windows (n_config n))) (q :: h))).
Proof.
  intros Hok Hq. unfold observeFlood, quiet_ok in *. cbv zeta.
  assert (Hzero : forall inc st up, let st := mkFlood inc st up 0 in
    0 <= fl_quiet st <= lenZ (q :: h) /\
    Forall (fun q => q = true) (take (Z.to_nat (fl_quiet st)) (q :: h))).
  { intros. simpl. pose proof (lenZ_nonneg (q :: h)). split; [lia|constructor]. }
  destruct (f64_ge v t) eqn:Ege, (n_floods n !! kind) as [st|] eqn:E.
  - case_if; simpl; rewrite lookup_insert_eq; (split; [intros ? [= <-]; apply Hzero|]);
      try (intros ? [= <-]; discriminate); discriminate.
  - simpl. rewrite lookup_insert_eq. split; [intros ? [= <-]; apply Hzero|].
    intros ? [= <-]. discriminate.
  - destruct r; simpl negb; cbv iota.
    2:{ simpl. rewrite lookup_insert_eq. split; [intros ? [= <-]; apply Hzero|discriminate]. }
    destruct (f64_lt v _) eqn:Elt.
    2:{ simpl. rewrite lookup_insert_eq. split; [intros ? [= <-]; apply Hzero|discriminate]. }
    rewrite (Hq eq_refl eq_refl eq_refl). destruct (Hok st eq_refl) as [Hr Hall].
    assert (Hnew : 0 <= fl_quiet st + 1 <= lenZ (true :: h) /\
      Forall (fun q => q = true) (take (Z.to_nat (fl_quiet st + 1)) (true :: h))).
    { rewrite lenZ_cons. split; [lia|].
      replace (Z.to_nat (fl_quiet st + 1)) with (S (Z.to_nat (fl_quiet st))) by lia.
      simpl. by constructor. }
    case_if; simpl.
    + split; [intros st'; by rewrite lookup_delete_eq|]. intros _ _ _. bool_to_prop.
      destruct Hnew as [Hlen Hnew]. split; [lia|].
      replace (Z.to_nat (recovery_windows (n_config n)))
        with (Nat.min (Z.to_nat (recovery_windows (n_config n))) (Z.to_nat (fl_quiet st + 1))) by lia.
      rewrite <- take_take. by apply Forall_take.
    + rewrite lookup_insert_eq. split; [intros ? [= <-]; exact Hnew|discriminate].
  - simpl. rewrite E. split; [discriminate|discriminate].
Qed.

(** A recovery among [es] closes a run of quiet windows. *)
Definition recovery_after (cfg : DetectionConfig) (h : list bool) (es : list Event) : Prop :=
  forall e, e ∈ es -> ev_phase e = "recovery"%string ->
    recovery_windows cfg <= lenZ h /\
    Forall (fun q => q = true) (take (Z.to_nat (recovery_windows cfg)) h).

Lemma observe_rate_quiet kind b top r ev sup n w rt h q :
  r_kind rt = kind -> r_threshold rt <> 0 -> quiet_ok kind h n -> of_kind kind ev = [] ->
  (r = true -> rate_quiet (n_config n) kind rt = true -> q = true) ->
  let '(es, _, (n', _)) := observe_rate b top r (ev, sup, (n, w)) rt in
  quiet_ok kind (q :: h) n' /\ recovery_after (n_config n) (q :: h) (of_kind kind es) /\
  n_config n' = n_config n.
Proof.
  intros <- Ht Hok Hev Hq. unfold observe_rate. rewrite (proj2 (Z.eqb_neq _ _) Ht). cbv zeta.
  set (f := topSource _ _).
  pose proof (observeFlood_quiet (r_kind rt) (r_value rt) (f64_of_Z (r_threshold rt))
    (r_severity rt) (r_unit rt) f (b_sent_at b) r n w h q Hok) as Hl.
  pose proof (observeFlood_lifecycle (r_kind rt) (r_value rt) (f64_of_Z (r_threshold rt))
    (r_severity rt) (r_unit rt) f (b_sent_at b) r n w) as Hc.
  destruct (observeFlood _ _ _ _ _ _ _ _ _) as [e [n' w']].
  destruct Hl as [Hl Hrec].
  { intros Hr Hge Hlt. apply Hq; [done|]. unfold rate_quiet.
    rewrite String.eqb_refl, Hge, Hlt, (proj2 (Z.eqb_neq _ _) Ht). done. }
  destruct Hc as (_ & Hk & _ & Hc).
  destruct e as [e|]; (split_and!; [done| |done]).
  - rewrite of_kind_app, Hev. unfold of_kind.
    rewrite filter_cons_True by (simpl; by apply Hk).
    intros e' [->|He']%elem_of_cons Hp; [by apply (Hrec e)|by apply elem_of_nil in He'].
  - rewrite Hev. intros e' He'. by apply elem_of_nil in He'.
Qed.

Lemma observe_rates_quiet kind b top r n w h :
  quiet_ok kind h n ->
  (Forall (fun rt => r_kind rt <> kind \/ r_threshold rt = 0) (batch_rates (n_config n) b) ->
   n_floods n !! kind = None) ->
  let q := r && existsb (rate_quiet (n_config n) kind) (batch_rates (n_config n) b) in
  let '(es, _, (n', _)) := observe_rates b top r (n, w) in
  quiet_ok kind (q :: h) n' /\ recovery_after (n_config n) (q :: h) (of_kind kind es) /\
  (Forall (fun rt => r_kind rt <> kind \/ r_threshold rt = 0) (batch_rates (n_config n) b) ->
   n_floods n' !! kind = None) /\ n_config n' = n_config n.
Proof.
  intros Hok Hoff. cbv zeta. unfold observe_rates. cbn [fst].
  set (off := fun rt : rate => r_kind rt <> kind \/ r_threshold rt = 0) in *.
  assert (Hnd : NoDup (r_kind <$> batch_rates (n_config n) b)).
  { change (NoDup ["syn_flood"; "udp_flood"; "icmp_flood"; "bandwidth_spike"]%string).
    apply (bool_decide_unpack _). by vm_compute. }
  generalize dependent (batch_rates (n_config n) b). intros rates Hoff Hnd.
  destruct (decide (Forall off rates)) as [Hall|Hsome].
  { pose proof (observe_rates_other kind b top r rates ([], false, (n, w)) Hall) as Ho.
    destruct (foldl _ _ _) as [[es sup] [n' w']]. destruct Ho as (E1 & E2 & E3). simpl in *.
    rewrite E1, E2, (Hoff Hall). split_and!; auto.
    - intros st. rewrite E2, (Hoff Hall). discriminate.
    - intros e He. by apply elem_of_nil in He. }
  apply not_Forall_Exists, Exists_exists in Hsome; [|apply _].
  destruct Hsome as (rt & Hin & Hno).
  assert (Hk : r_kind rt = kind) by (destruct (decide (r_kind rt = kind)); [done|]; exfalso; apply Hno; by left).
  assert (Ht : r_threshold rt <> 0) by (intros H0; apply Hno; by right).
  apply list_elem_of_split in Hin as (l1 & l2 & ->).
  rewrite fmap_app in Hnd. apply NoDup_app in Hnd as (_ & Hd & Hnd2).
  simpl in Hnd2. apply NoDup_cons in Hnd2 as [Hn2 _].
  assert (O1 : Forall off l1).
  { apply Forall_forall. intros x Hx. left. intros Hxk. apply (Hd kind); [apply list_elem_of_fmap; by exists x|].
    rewrite <- Hk. apply list_elem_of_here. }
  assert (O2 : Forall off l2).
  { apply Forall_forall. intros x Hx. left. intros Hxk. apply Hn2. rewrite Hk.
    apply list_elem_of_fmap. by exists x. }
  rewrite foldl_app. simpl.
  pose proof (observe_rates_other kind b top r l1 ([], false, (n, w)) O1) as H1.
  destruct (foldl _ _ l1) as [[es1 s1] [n1 w1]]. destruct H1 as (A1 & A2 & A3). simpl in A1, A2, A3.
  set (q := r && _).
  assert (Hok1 : quiet_ok kind h n1) by (intros st; rewrite A2; apply Hok).
  pose proof (observe_rate_quiet kind b top r es1 s1 n1 w1 rt h q Hk Ht Hok1 A1) as H2.
  destruct (observe_rate b top r _ rt) as [[es2 s2] [n2 w2]].
  destruct H2 as (B1 & B2 & B3).
  { intros Hr Hqt. unfold q. rewrite Hr, existsb_app. simpl. rewrite <- A3, Hqt.
    simpl. by rewrite orb_true_r. }
  pose proof (observe_rates_other kind b top r l2 (es2, s2, (n2, w2)) O2) as H3.
  destruct (foldl _ _ l2) as [[es3 s3] [n3 w3]]. destruct H3 as (C1 & C2 & C3). simpl in C1, C2, C3.
  rewrite C1, <- A3. split; [intros st; rewrite C2; apply B1|].
  split; [exact B2|]. split; [|congruence].
  - intros Hall. exfalso. apply Forall_app in Hall as [_ Hall]. apply Forall_cons in Hall as [Hall _].
    by apply Hno.
Qed.
(** What the history of quiet windows says of the detector. *)
Record quiet_inv (cfg : DetectionConfig) (kind : string) (h : list bool) (n : Network) : Prop := {
  qi_config : n_config n = cfg;
  qi_quiet : quiet_ok kind h n;
  qi_off : forall b,
    Forall (fun rt => r_kind rt <> kind \/ r_threshold rt = 0) (batch_rates cfg b) ->
    n_floods n !! kind = None }.

Lemma rates_off_any cfg kind b b' :
  Forall (fun rt => r_kind rt <> kind \/ r_threshold rt = 0) (batch_rates cfg b) ->
  Forall (fun rt => r_kind rt <> kind \/ r_threshold rt = 0) (batch_rates cfg b').
Proof. unfold batch_rates. rewrite !Forall_cons. simpl. tauto. Qed.

Lemma Observe_quiet cfg kind b nw h :
  kind <> "port_scan"%string -> is_i64 (scan_window cfg) -> 0 <= scan_window cfg ->
  quiet_inv cfg kind h (fst nw) ->
  let h' := if f64_le (batch_seconds b) (f64_of_Z 0) then h else quiet_window kind b nw :: h in
  quiet_inv cfg kind h' (fst (snd (Observe b nw))) /\
  recovery_after cfg h' (of_kind kind (fst (Observe b nw))).
Proof.
  intros Hk Hi Hw [Hc Hq Hoff]. cbv zeta. unfold Observe, quiet_window. case_if.
  { split; [done|]. intros e He. by apply elem_of_nil in He. }
  pose proof (observe_flows_floods b nw) as Hf.
  destruct (observe_flows_all (fun _ _ _ => True) cfg b nw Hi Hw) as [Hi1 _];
    [by apply Forall_forall|done|done|].
  destruct (observe_flows b nw) as [[top r] [n1 w1]]. cbn [fst snd] in Hf, Hi1.
  pose proof (observe_rates_quiet kind b top r n1 w1 h) as Hr. rewrite Hi1 in Hr. rewrite Hi1.
  destruct (observe_rates b top r (n1, w1)) as [[ev sup] [n2 w2]].
  destruct Hr as (Q2 & R2 & O2 & C2).
  { intros st. rewrite Hf. apply Hq. }
  { intros Hall. rewrite Hf. by apply (Hoff b). }
  set (n3 := if sup then addCounter CRecoverySuppressed 1 n2 else n2).
  assert (H3 : n_floods n3 = n_floods n2 /\ n_config n3 = n_config n2).
  { unfold n3. case_if; [|done]. split; [apply addCounter_floods|].
    by destruct (addCounter_same CRecoverySuppressed 1 n2). }
  pose proof (scanEvents_floods (b_sent_at b) (n3, w2)) as H4.
  pose proof (scanEvents_kind (b_sent_at b) (n3, w2)) as H5.
  assert (H6 : n_config (fst (snd (scanEvents (b_sent_at b) (n3, w2)))) = n_config n3).
  { unfold scanEvents.
    apply (foldl_preserves (fun acc => n_config (fst (snd acc)) = n_config n3)); [|done].
    intros [es [n w]] [source st] Ha. simpl in Ha. unfold scan_entry.
    case_if; [|by case_if]. unfold deleteScan. by destruct (n_scans n !! source). }
  destruct (scanEvents (b_sent_at b) (n3, w2)) as [scans [n4 w4]]. cbn [fst snd] in *.
  destruct H3 as [F3 C3]. split.
  - constructor; [congruence| |].
    + intros st. rewrite H4, F3. apply Q2.
    + intros b' Hall. rewrite H4, F3. apply O2. by eapply rates_off_any.
  - rewrite of_kind_app, (of_kind_none kind (map _ scans)), app_nil_r; [exact R2|].
    apply Forall_map. eapply Forall_impl; [exact H5|]. intros e He. simpl in *. congruence.
Qed.

Lemma net_run_quiet cfg kind steps : forall nw h,
  kind <> "port_scan"%string -> is_i64 (scan_window cfg) -> 0 <= scan_window cfg ->
  quiet_inv cfg kind h (fst nw) ->
  quiet_inv cfg kind (quiet_history kind steps nw h) (fst (snd (net_run steps nw))).
Proof.
  induction steps as [|s steps IH]; intros nw h Hk Hi Hw Hq; simpl; [done|].
  assert (Hq1 : quiet_inv cfg kind (quiet_step kind s nw h) (fst (snd (net_do s nw)))).
  { destruct s as [b| |w]; simpl; [by apply Observe_quiet| |done].
    destruct Hq. by constructor. }
  specialize (IH (snd (net_do s nw)) _ Hk Hi Hw Hq1).
  destruct (net_do s nw) as [es nw1]. simpl in *. by destruct (net_run steps nw1).
Qed.

Lemma quiet_history_snoc kind steps s : forall nw h,
  quiet_history kind (steps ++ [s]) nw h =
    quiet_step kind s (snd (net_run steps nw)) (quiet_history kind steps nw h).
Proof.
  induction steps as [|s0 steps IH]; intros nw h; simpl; [done|]. rewrite IH.
  destruct (net_do s0 nw) as [es nw1]. simpl. by destruct (net_run steps nw1).
Qed.

(** ** A quiet window is clean *)

(** What the flood rules and the tables of scans leave alone. *)
Definition seen (n : Network) : time * string * bool :=
  (n_last_batch n, n_last_interface n, n_continuity_reset n).
Definition ignored (n : Network) : Z * Z :=
  (st_scan_ignored (n_stats n), st_udp_ignored (n_stats n)).

Lemma addCounter_seen c v n : seen (addCounter c v n) = seen n.
Proof. unfold addCounter. by destruct (saturating_add _ _ _). Qed.

Lemma markScanIncomplete_seen t n :
  seen (markScanIncomplete t n) = seen n /\ n_stats (markScanIncomplete t n) = n_stats n.
Proof. unfold markScanIncomplete. by case_if. Qed.

Lemma markUDPUncertain_seen t n :
  seen (markUDPUncertain t n) = seen n /\ n_stats (markUDPUncertain t n) = n_stats n.
Proof. unfold markUDPUncertain. cbv zeta. by destruct (after _ (n_udp_uncertain n)). Qed.

Lemma deleteScan_seen source nw :
  seen (fst (deleteScan source nw)) = seen (fst nw) /\
  n_stats (fst (deleteScan source nw)) = n_stats (fst nw).
Proof. destruct nw as [n w]. unfold deleteScan. by destruct (n_scans n !! source). Qed.

Lemma prune_seen now nw :
  seen (fst (prune now nw)) = seen (fst nw) /\ n_stats (fst (prune now nw)) = n_stats (fst nw).
Proof.
  unfold prune.
  assert (Hp : seen (fst (prune_scans now nw)) = seen (fst nw) /\
               n_stats (fst (prune_scans now nw)) = n_stats (fst nw)).
  { unfold prune_scans.
    apply (foldl_preserves (fun a => seen (fst a) = seen (fst nw) /\ n_stats (fst a) = n_stats (fst nw)));
      [|done].
    intros a [source st] [Ha1 Ha2]. case_if; [|done].
    destruct (deleteScan_seen source a). split; congruence. }
  by destruct (prune_scans now nw) as [n w].
Qed.

Lemma remember_flow_seen b n f :
  seen (remember_flow b n f) = seen n /\
  st_scan_ignored (n_stats (remember_flow b n f)) = st_scan_ignored (n_stats n).
Proof.
  assert (Hc : forall v, seen (addCounter CUDPIgnored v n) = seen n /\
    st_scan_ignored (n_stats (addCounter CUDPIgnored v n)) = st_scan_ignored (n_stats n)).
  { intros v. unfold addCounter. by destruct (saturating_add _ _ _). }
  unfold remember_flow. case_if; [|done]. case_if; [apply Hc|].
  unfold rememberUDP. cbv zeta. case_if; [apply Hc|]. by case_if.
Qed.

Lemma count_port_seen f now st nw : seen (fst (count_port f now st nw)) = seen (fst nw).
Proof.
  destruct nw as [n w]. unfold count_port. cbv zeta. case_if; [|done].
  destruct (reserve w) as [[] w']; [done|]. simpl.
  destruct (markScanIncomplete_seen now (addCounter CScanIgnored (f_packets f) n)) as [Hm _].
  etransitivity; [|etransitivity; [exact Hm|apply addCounter_seen]]. done.
Qed.

Lemma observePort_seen f now nw : seen (fst (observePort f now nw)) = seen (fst nw).
Proof.
  unfold observePort. cbv zeta.
  destruct (n_scans (fst nw) !! _); case_if; rewrite ?count_port_seen; try done.
  - apply deleteScan_seen.
  - simpl. destruct (markScanIncomplete_seen now (addCounter CScanIgnored (f_packets f) (fst nw))) as [-> _].
    apply addCounter_seen.
Qed.

Lemma inbound_flow_seen b acc f : seen (fst (snd (inbound_flow b acc f))) = seen (fst (snd acc)).
Proof.
  destruct acc as [top [n w]]. unfold inbound_flow. case_if; [done|]. cbv zeta. case_if.
  - simpl. case_if; [by rewrite observePort_seen|done].
  - repeat case_if; simpl; rewrite ?addCounter_seen, ?observePort_seen; done.
Qed.

(** A reliable window, and what a window leaves of the clock fields. *)
Lemma observe_flows_spec b n w :
  let '(_, reliable, (n', _)) := observe_flows b (n, w) in
  seen n' = (if after (b_sent_at b) (n_last_batch n)
             then (b_sent_at b, b_interface b, false)
             else (n_last_batch n, n_last_interface n, false)) /\
  (reliable = true ->
   n_continuity_reset n = false /\ continuous_batch n b = true /\ complete_batch b = true /\
   ignored n' = ignored n /\ st_saturated (n_stats n') = false).
Proof.
  unfold observe_flows. cbv zeta.
  set (n1 := if is_zero (n_last_batch n) || _ || _ then _ else _).
  assert (H1 : seen n1 = seen n /\ n_stats n1 = n_stats n)
    by (unfold n1; case_if; [apply markUDPUncertain_seen|done]).
  set (n2 := if after _ (n_last_batch n1) then _ else _).
  assert (H2 : seen n2 = (if after (b_sent_at b) (n_last_batch n)
             then (b_sent_at b, b_interface b, n_continuity_reset n)
             else (n_last_batch n, n_last_interface n, n_continuity_reset n)) /\
             n_stats n2 = n_stats n).
  { destruct H1 as [H1 H1']. unfold n2. unfold seen in H1. injection H1 as E1 E2 E3. rewrite E1.
    case_if; [by rewrite <- E3|]. unfold seen. by rewrite E1, E2, E3. }
  destruct (prune_seen (b_sent_at b) (n2, w)) as [H3 H3'].
  destruct (prune (b_sent_at b) (n2, w)) as [n3 w3]. cbn [fst] in H3, H3'.
  set (n4 := foldl (remember_flow b) n3 (b_flows b)).
  assert (H4 : seen n4 = seen n3 /\ st_scan_ignored (n_stats n4) = st_scan_ignored (n_stats n3)).
  { apply (foldl_preserves (fun m => seen m = seen n3 /\
      st_scan_ignored (n_stats m) = st_scan_ignored (n_stats n3))); [|done].
    intros m f [Hm1 Hm2]. destruct (remember_flow_seen b m f). split; congruence. }
  set (n5 := if negb _ || _ then markUDPUncertain (b_sent_at b) n4 else n4).
  assert (H5 : seen n5 = seen n4 /\ n_stats n5 = n_stats n4)
    by (unfold n5; case_if; [apply markUDPUncertain_seen|done]).
  set (n6 := set_udp_complete _ n5).
  assert (H6 : seen n6 = seen n5 /\ st_scan_ignored (n_stats n6) = st_scan_ignored (n_stats n5)) by done.
  assert (H7 : seen (fst (snd (foldl (inbound_flow b) (∅, (n6, w3)) (b_flows b)))) = seen n6).
  { apply (foldl_preserves (fun acc => seen (fst (snd acc)) = seen n6)); [|done].
    intros a f Ha. by rewrite inbound_flow_seen. }
  destruct (foldl (inbound_flow b) (∅, (n6, w3)) (b_flows b)) as [top [n7 w7]]. cbn [fst snd] in H7.
  destruct H2 as [H2 H2'], H4 as [H4 H4'], H5 as [H5 H5'], H6 as [H6 H6'].
  assert (Hs : seen n7 = seen n2) by congruence. rewrite H2 in Hs. split.
  - clear -Hs. unfold seen in *. simpl. destruct (after _ _); by injection Hs as -> -> _.
  - intros Hr. bool_to_prop. unfold ignored. simpl. split_and!; [|done|done| |done].
    + clear -Hs H0. unfold seen in Hs. destruct (after _ _); injection Hs as _ _ <-; exact H0.
    + f_equal; congruence.
Qed.
(** The flood rules leave the clock fields alone, and the counters when the window is
    reliable. *)
Lemma observe_rates_seen b top r nw :
  let '(_, sup, (n', _)) := observe_rates b top r nw in
  seen n' = seen (fst nw) /\ n_stats n' = n_stats (fst nw) /\ (r = true -> sup = false).
Proof.
  unfold observe_rates. generalize (batch_rates (n_config (fst nw)) b). intros rates.
  set (ok := fun acc : list Event * bool * (Network * World) =>
    seen (fst (snd acc)) = seen (fst nw) /\ n_stats (fst (snd acc)) = n_stats (fst nw) /\
    (r = true -> snd (fst acc) = false)).
  assert (Hok : ok (foldl (observe_rate b top r) ([], false, nw) rates)).
  { apply foldl_preserves; [|done].
    intros [[ev sup] [n w]] rt (Ha & Hb & Hc). unfold observe_rate. case_if; [done|]. cbv zeta.
    assert (Hf : forall v th sv u f now, let '(_, (n', _)) := observeFlood (r_kind rt) v th sv u f now r (n, w) in
      seen n' = seen n /\ n_stats n' = n_stats n).
    { intros. unfold observeFlood. cbv zeta.
      destruct (f64_ge _ _), (n_floods n !! r_kind rt); repeat case_if; done. }
    match goal with |- context [observeFlood ?k ?v ?th ?sv ?u ?f ?now r ?nw] =>
      specialize (Hf v th sv u f now); destruct (observeFlood k v th sv u f now r nw) as [[e|] [n' w']] end;
      destruct Hf as [Hf1 Hf2]; (split_and!; simpl in *; [congruence..|]);
      intros ->; by rewrite (Hc eq_refl). }
  by destruct (foldl _ _ rates) as [[ev sup] [n w]].
Qed.

Lemma scanEvents_seen now nw :
  seen (fst (snd (scanEvents now nw))) = seen (fst nw) /\
  n_stats (fst (snd (scanEvents now nw))) = n_stats (fst nw).
Proof.
  unfold scanEvents.
  apply (foldl_preserves (fun acc => seen (fst (snd acc)) = seen (fst nw) /\
    n_stats (fst (snd acc)) = n_stats (fst nw))); [|done].
  intros [es [n w]] [source st] [Ha1 Ha2]. unfold scan_entry. case_if.
  - destruct (deleteScan_seen source (n, w)). cbn [snd fst] in *. split; congruence.
  - by case_if.
Qed.

Lemma Observe_spec b n w :
  covers b = true ->
  let '(_, reliable, _) := observe_flows b (n, w) in
  let n' := fst (snd (Observe b (n, w))) in
  seen n' = (if after (b_sent_at b) (n_last_batch n)
             then (b_sent_at b, b_interface b, false)
             else (n_last_batch n, n_last_interface n, false)) /\
  (reliable = true ->
   n_continuity_reset n = false /\ continuous_batch n b = true /\ complete_batch b = true /\
   ignored n' = ignored n /\ st_saturated (n_stats n') = false).
Proof.
  intros Hc. unfold Observe, covers, batch_seconds in *. apply negb_true_iff in Hc. rewrite Hc.
  pose proof (observe_flows_spec b n w) as Hs.
  destruct (observe_flows b (n, w)) as [[top r] [n1 w1]]. destruct Hs as [Hs Hr].
  pose proof (observe_rates_seen b top r (n1, w1)) as Ho.
  destruct (observe_rates b top r (n1, w1)) as [[ev sup] [n2 w2]]. destruct Ho as (O1 & O2 & O3).
  set (n3 := if sup then addCounter CRecoverySuppressed 1 n2 else n2).
  assert (H3 : seen n3 = seen n2) by (unfold n3; destruct sup; [apply addCounter_seen|done]).
  destruct (scanEvents_seen (b_sent_at b) (n3, w2)) as [S1 S2].
  destruct (scanEvents (b_sent_at b) (n3, w2)) as [scans [n4 w4]]. cbn [fst snd] in *.
  split; [congruence|]. intros Ht. destruct (Hr Ht) as (R1 & R2 & R3 & R4 & R5).
  assert (E : n_stats n4 = n_stats n1) by (unfold n3 in S2; rewrite (O3 Ht) in S2; congruence).
  split_and!; [done..| |]; [unfold ignored in *|]; by rewrite E.
Qed.

(** The detector remembers the link of the history. *)
Definition link_ok (l : link) (n : Network) : Prop :=
  match l with
  | LStart => n_last_batch n = time_zero /\ n_continuity_reset n = false
  | LReset => n_last_batch n = time_zero /\ n_continuity_reset n = true
  | LLast t iface => time_zero < t /\ seen n = (t, iface, false)
  end.

Lemma link_ok_step l s nw :
  (forall b, s = NBatch b -> timely b) -> link_ok l (fst nw) ->
  link_ok (link_step s l) (fst (snd (net_do s nw))).
Proof.
  destruct nw as [n w]. intros Hb Hl. destruct s as [b| |w']; [|done|done]. simpl.
  destruct (Hb b eq_refl) as [Ht _]. destruct (covers b) eqn:Hc.
  - pose proof (Observe_spec b n w Hc) as Ho.
    destruct (observe_flows b (n, w)) as [[top r] nw1]. destruct Ho as [Ho _].
    unfold after in Ho. destruct l as [| |t iface]; simpl in Hl.
    + destruct Hl as [El _]. rewrite El, (proj2 (Z.ltb_lt time_zero _) Ht) in Ho. done.
    + destruct Hl as [El _]. rewrite El, (proj2 (Z.ltb_lt time_zero _) Ht) in Ho. done.
    + destruct Hl as [Hp El]. unfold seen in El. injection El as E1 E2 E3. rewrite E1, E2 in Ho.
      destruct (t <? b_sent_at b) eqn:E; simpl; (split; [|exact Ho]); done.
  - unfold Observe, covers, batch_seconds in *. apply negb_false_iff in Hc. by rewrite Hc.
Qed.

Lemma joined_spec l n b :
  timely b -> link_ok l n -> n_continuity_reset n = false -> continuous_batch n b = true ->
  joined l b.
Proof.
  intros [Ht Hi] Hl Hr Hc. destruct l as [| |t iface]; simpl in *; [done| |].
  { destruct Hl. congruence. }
  destruct Hl as [Hp El]. injection El as E1 E2 _. unfold continuous_batch in Hc.
  rewrite E1, E2 in Hc. unfold is_zero, after in Hc.
  rewrite (proj2 (Z.eqb_neq t 0)) in Hc by (unfold time_zero in *; lia). simpl in Hc.
  apply andb_true_iff in Hc as [Hc Hd]. apply andb_true_iff in Hc as [Ha Hs].
  apply Z.ltb_lt in Ha. apply String.eqb_eq in Hs. apply Z.leb_le in Hd.
  split_and!; [done|done|]. unfold MaxBatchIntervalMillis in Hi. revert Hd.
  assert (Hw : is_i64 (b_interval_ms b * millisecond)) by (unfold millisecond; zlia).
  rewrite (wrap_i64_small _ Hw). unfold time_sub, clamp_i64.
  rewrite (wrap_i64_small (_ - _)) by (unfold millisecond in *; zlia).
  unfold absDuration. case_if; bool_to_prop; [rewrite wrap_i64_small by (unfold millisecond in *; zlia)|];
    unfold millisecond in *; zlia.
Qed.

Lemma rate_quiet_below cfg kind b :
  existsb (rate_quiet cfg kind) (batch_rates cfg b) = true -> below_recovery cfg kind b.
Proof.
  unfold below_recovery, batch_rates, batch_seconds, rate_quiet. cbv zeta.
  cbn [existsb r_kind r_threshold r_value].
  intros Hq. unfold flood_count, flood_threshold.
  repeat (apply orb_true_iff in Hq; destruct Hq as [Hq|Hq]); [..|done];
    repeat (apply andb_true_iff in Hq as [Hq ?]); apply String.eqb_eq in Hq; subst kind; assumption.
Qed.

Lemma quiet_window_clean cfg kind l b nw :
  covers b = true -> timely b -> link_ok l (fst nw) -> n_config (fst (snd (observe_flows b nw))) = cfg ->
  quiet_window kind b nw = true ->
  clean_window cfg kind
    (mkWindow l b (n_stats (fst nw)) (n_stats (fst (snd (Observe b nw))))).
Proof.
  destruct nw as [n w]. intros Hc Ht Hl Hcfg Hq. unfold quiet_window in Hq.
  pose proof (Observe_spec b n w Hc) as Ho.
  destruct (observe_flows b (n, w)) as [[top r] [n1 w1]]. simpl in Hcfg. rewrite Hcfg in Hq.
  apply andb_true_iff in Hq as [Hr Hq]. destruct Ho as [_ Ho].
  destruct (Ho Hr) as (R1 & R2 & R3 & R4 & R5). unfold ignored in R4. injection R4 as R4 R4'.
  constructor; simpl; [| | | | |by apply rate_quiet_below]; try done.
  - unfold complete_batch in R3. bool_to_prop. unfold lossless. tauto.
  - by apply (joined_spec l n b).
Qed.

Lemma windows_clean cfg kind steps : forall l nw h ws,
  kind <> "port_scan"%string -> is_i64 (scan_window cfg) -> 0 <= scan_window cfg ->
  Forall timely (batches steps) -> link_ok l (fst nw) -> quiet_inv cfg kind h (fst nw) ->
  Forall2 (fun q w => q = true -> clean_window cfg kind w) h ws ->
  Forall2 (fun q w => q = true -> clean_window cfg kind w)
    (quiet_history kind steps nw h) (windows l steps nw ws).
Proof.
  induction steps as [|s steps IH]; intros l nw h ws Hk Hi Hw Ht Hl Hq Hf; [done|]. simpl.
  assert (Hb : forall b, s = NBatch b -> timely b).
  { intros b ->. simpl in Ht. by apply Forall_cons in Ht as [Ht _]. }
  assert (Ht' : Forall timely (batches steps)).
  { destruct s; simpl in Ht; [by apply Forall_cons in Ht as [_ Ht]|done..]. }
  apply IH; try done; [by apply link_ok_step| |].
  - apply (net_run_quiet cfg kind [s] nw h) in Hq; [|done..]. simpl in Hq.
    by destruct (net_do s nw).
  - destruct s as [b| |w]; [|done..]. unfold quiet_step, window_step. destruct (covers b) eqn:Hc.
    + pose proof Hc as Hc'. unfold covers in Hc. apply negb_true_iff in Hc.
      fold (batch_seconds b) in Hc. rewrite Hc. constructor; [|done].
      apply quiet_window_clean; [done|by apply Hb|done|].
      apply (observe_flows_all (fun _ _ _ => True) cfg b nw Hi Hw); [by apply Forall_forall|apply Hq|done].
    + unfold covers in Hc. apply negb_false_iff in Hc. fold (batch_seconds b) in Hc. by rewrite Hc.
Qed.

End Recovery.

Section Properties.
Context `{GoRuntime}.

(** C9. A flood is reported over only after [RecoveryWindows] windows in a row, this one
    included, each of which lost nothing in capture, decoding, aggregation or delivery,
    starts where the latest batch of the same interface ended with no reconnection in
    between, turned nothing away for want of room, saturated no counter, and has a rate
    under the recovery ratio of the threshold. *)
Theorem recovery_needs_quiet_windows cfg sl ul w kind steps b e :
  detection_config_valid cfg = true -> kind <> "port_scan"%string ->
  Forall timely (batches (steps ++ [NBatch b])) ->
  let nw := (newNetworkLimits cfg sl ul, w) in
  e ∈ fst (Observe b (snd (net_run steps nw))) -> ev_kind e = kind ->
  ev_phase e = "recovery"%string ->
  let ws := windows LStart (steps ++ [NBatch b]) nw [] in
  recovery_windows cfg <= lenZ ws /\
  Forall (clean_window cfg kind) (take (Z.to_nat (recovery_windows cfg)) ws).
Proof.
  intros Hv Hk Ht nw He Hke Hp ws. unfold detection_config_valid in Hv. bool_to_prop.
  assert (Hi : is_i64 (scan_window cfg)) by zlia.
  assert (Hw : 0 <= scan_window cfg) by zlia.
  assert (Hq : quiet_inv cfg kind [] (newNetworkLimits cfg sl ul)).
  { constructor; [done| |intros; apply lookup_empty].
    intros st. simpl. rewrite lookup_empty. discriminate. }
  pose proof (net_run_quiet cfg kind steps nw [] Hk Hi Hw Hq) as Hq1.
  destruct (Observe_quiet _ kind b _ _ Hk Hi Hw Hq1) as [_ Hr].
  pose proof (windows_clean cfg kind (steps ++ [NBatch b]) LStart nw [] [] Hk Hi Hw Ht
    (conj eq_refl eq_refl) Hq ltac:(constructor)) as Hf.
  rewrite quiet_history_snoc in Hf. fold ws in Hf.
  destruct (Hr e) as [R1 R2]; [apply list_elem_of_filter; by split|done|].
  split; [unfold lenZ in *; by rewrite <- (Forall2_length _ _ _ Hf)|].
  apply (Forall2_take _ _ _ (Z.to_nat (recovery_windows cfg))) in Hf.
  eapply Forall2_Forall_r; [exact Hf|]. eapply Forall_impl; [exact R2|]. by intros q -> w' Hw'; apply Hw'.
Qed.
End Properties.

Lemma recovery_needs_quiet_windows_witness :
  let ws := @windows example_runtime LStart (example_history ++ [NBatch (example_window 4 0 [])])
              example_network [] in
  lenZ ws = 4 /\ recovery_windows example_detection = 2 /\
  recovery_windows example_detection <= lenZ ws /\
  Forall (clean_window example_detection "syn_flood")
    (take (Z.to_nat (recovery_windows example_detection)) ws).
Proof.
  split; [vm_compute; reflexivity|]. split; [vm_compute; reflexivity|].
  destruct (fst (@Observe example_runtime (example_window 4 0 [])
    (snd (@net_run example_runtime example_history example_network)))) as [|e es] eqn:E.
  { vm_compute in E. discriminate E. }
  apply (@recovery_needs_quiet_windows example_runtime example_detection 4 4 (mkWorld 0 8 0)
    "syn_flood" example_history (example_window 4 0 []) e);
    [vm_compute; reflexivity|discriminate| | | |].
  - repeat constructor; vm_compute; congruence.
  - unfold example_network in E. rewrite E. apply list_elem_of_here.
  - vm_compute in E. by injection E as <- _.
  - vm_compute in E. by injection E as <- _.
Defined.
