(* ===== verification/Fleet.v ===== *)
(** * The detectors of all interfaces

    [internal/detect/fleet.go]: one [Network] per interface, at most [limit] of
    them, the longest silent one evicted for a new name, all sharing one budget
    of scan ports. *)

From S2P Require Export Network.

Record interfaceDetector := mkDetector {
  id_detector : Network;
  id_last_seen : time;
  id_connection : Z }.

Record Fleet := mkFleet {
  fl_config : DetectionConfig;
  fl_limit : Z;
  fl_interfaces : gmap string interfaceDetector;
  fl_evicted : Z;
  fl_world : World }.

(** [NewFleet]; [ids] identifiers were drawn before. *)
Definition NewFleet (cfg : DetectionConfig) (limit : Z) (ids : nat) : Fleet :=
  mkFleet cfg (Z.max 1 (Z.min limit MaxInterfaces)) ∅ 0 (mkWorld 0 maxScanPortEntries ids).

(** The comparison of the loop that looks for [oldest]: names with their entries,
    the empty name first. *)
Definition older (oldest entry : string * time) : bool :=
  (fst oldest =?s "") || before (snd entry) (snd oldest)
  || ((snd entry =? snd oldest) && string_lt (fst entry) (fst oldest)).

Definition seen_list (m : gmap string interfaceDetector) : list (string * time) :=
  (fun '(name, e) => (name, id_last_seen e)) <$> map_to_list m.

Definition oldest_of (l : list (string * time)) : string :=
  fst (select older ("", time_zero) l).

Definition oldest (m : gmap string interfaceDetector) : string := oldest_of (seen_list m).

(** The eviction of [Observe].  A missing [oldest] would be a nil dereference;
    [oldest_present] shows that the name is always there. *)
Definition evict (f : Fleet) : Fleet :=
  match fl_interfaces f !! oldest (fl_interfaces f) with
  | Some e =>
      mkFleet (fl_config f) (fl_limit f) (delete (oldest (fl_interfaces f)) (fl_interfaces f))
        (bump_u64 (fl_evicted f)) (snd (releaseScanState (id_detector e, fl_world f)))
  | None => f
  end.

(** The entry that [Observe] works on, and the fleet that holds it. *)
Definition enter (b : Batch) (f : Fleet) : interfaceDetector * Fleet :=
  match fl_interfaces f !! b_interface b with
  | None =>
      let f := if fl_limit f <=? Z.of_nat (size (fl_interfaces f)) then evict f else f in
      (mkDetector (newNetworkLimits (fl_config f) (maxScanSources / fl_limit f)
                     (maxUDPRequestTuples / fl_limit f)) time_zero (b_connection b), f)
  | Some e =>
      if id_connection e =? b_connection b then (e, f)
      else (mkDetector (ResetContinuity (id_detector e)) (id_last_seen e) (b_connection b), f)
  end.

Definition put (name : string) (e : interfaceDetector) (w : World) (f : Fleet) : Fleet :=
  mkFleet (fl_config f) (fl_limit f) (<[name := e]> (fl_interfaces f)) (fl_evicted f) w.

(** [Observe]. *)
Definition Observe `{GoRuntime} (b : Batch) (f : Fleet) : list Event * Fleet :=
  if negb (ValidInterfaceName (b_interface b)) then ([], f)
  else
    let '(e, f) := enter b f in
    if negb (is_zero (id_last_seen e)) && negb (after (b_sent_at b) (id_last_seen e))
    then ([], put (b_interface b) e (fl_world f) f)
    else
      let '(events, (n, w)) := Network.Observe b (id_detector e, fl_world f) in
      (map (add_evidence "interface" (b_interface b)) events,
       put (b_interface b) (mkDetector n (b_sent_at b) (id_connection e)) w f).

Fixpoint run `{GoRuntime} (bs : list Batch) (f : Fleet) : list Event * Fleet :=
  match bs with
  | [] => ([], f)
  | b :: bs =>
      let '(es, f) := Observe b f in
      let '(es', f) := run bs f in
      (es ++ es', f)
  end.

(** ** [Stats] *)

Record InterfaceNetworkStats := mkInterfaceStats {
  is_name : string; is_last_seen : time; is_stats : NetworkStats }.

(** The result of [Stats]: the fields that only a fleet fills, and the rest. *)
Record FleetStats := mkFleetStats {
  fs_scope : string;
  fs_interface_limit : Z;
  fs_evicted : Z;
  fs_interfaces : list InterfaceNetworkStats;
  fs_total : NetworkStats }.

(** One iteration of the loop over the interfaces. *)
Definition add_stats (r s : NetworkStats) : NetworkStats :=
  let '(ignored, sat) :=
    saturating_add (ns_scan_ignored r) (ns_scan_ignored s) (ns_saturated r || ns_saturated s) in
  let '(udp_ignored, sat) := saturating_add (ns_udp_ignored r) (ns_udp_ignored s) sat in
  let '(unclassified, sat) := saturating_add (ns_udp_unclassified r) (ns_udp_unclassified s) sat in
  let '(excluded, sat) := saturating_add (ns_udp_excluded r) (ns_udp_excluded s) sat in
  let '(suppressed, sat) :=
    saturating_add (ns_recovery_suppressed r) (ns_recovery_suppressed s) sat in
  mkNetworkStats (ns_scan_sources r + ns_scan_sources s) (ns_scan_source_limit r) ignored
    (ns_scan_saturated r || ns_scan_saturated s) (ns_scan_ports r + ns_scan_ports s)
    (ns_scan_port_limit r) (ns_scan_port_saturated r || ns_scan_port_saturated s)
    (ns_scan_complete r && ns_scan_complete s)
    (if after (ns_scan_incomplete_until s) (ns_scan_incomplete_until r)
     then ns_scan_incomplete_until s else ns_scan_incomplete_until r)
    (ns_udp_tuples r + ns_udp_tuples s) (ns_udp_limit r) udp_ignored unclassified excluded
    (ns_udp_saturated r || ns_udp_saturated s) (ns_udp_complete r && ns_udp_complete s)
    suppressed sat.

Definition interface_stats (w : World) (entry : string * interfaceDetector) : InterfaceNetworkStats :=
  let '(name, e) := entry in
  mkInterfaceStats name (id_last_seen e) (Network.Stats (id_detector e) w).

Definition name_lt (x y : string * interfaceDetector) : bool := string_lt (fst x) (fst y).

Definition Stats (f : Fleet) : FleetStats :=
  let seen := negb (Z.of_nat (size (fl_interfaces f)) <=? 0) in
  let initial :=
    mkNetworkStats 0 (maxScanSources / fl_limit f * fl_limit f) 0 false 0 (w_limit (fl_world f))
      false seen time_zero 0 (maxUDPRequestTuples / fl_limit f * fl_limit f) 0 0 0 false seen 0
      false in
  let entries :=
    interface_stats (fl_world f) <$> sort_by name_lt (map_to_list (fl_interfaces f)) in
  mkFleetStats "per_interface" (fl_limit f) (fl_evicted f) entries
    (foldl add_stats initial (is_stats <$> entries)).

(** ** Invariant *)

Definition ports_of (_ : string) (e : interfaceDetector) : Z := n_scan_ports (id_detector e).

(** The part of [net_inv] that does not speak of the budget. *)
Definition detector_ok (cfg : DetectionConfig) (sl ul : Z) (n : Network) : Prop :=
  n_config n = cfg /\ n_scan_limit n = sl /\ n_udp_limit n = ul /\
  Z.of_nat (size (n_scans n)) <= sl /\ Z.of_nat (size (n_udp n)) <= ul /\
  n_scan_ports n = ports_total (n_scans n) /\
  map_Forall (fun _ st => Z.of_nat (size (sc_ports st)) <= scan_unique_ports cfg) (n_scans n).

Lemma net_inv_split cfg sl ul o l n w :
  net_inv cfg sl ul o l (n, w) <->
  detector_ok cfg sl ul n /\ w_used w = o + n_scan_ports n /\ w_used w <= w_limit w /\ w_limit w = l.
Proof.
  unfold detector_ok. split.
  - intros []. simpl in *. by repeat split.
  - intros. destruct_and!. by constructor.
Qed.

Record fleet_inv (cfg : DetectionConfig) (f : Fleet) : Prop := {
  fi_config : fl_config f = cfg;
  fi_limit : 1 <= fl_limit f <= MaxInterfaces;
  fi_size : Z.of_nat (size (fl_interfaces f)) <= fl_limit f;
  fi_names : map_Forall (fun name _ => name <> ""%string) (fl_interfaces f);
  fi_detectors : map_Forall (fun _ e =>
    detector_ok cfg (maxScanSources / fl_limit f) (maxUDPRequestTuples / fl_limit f)
      (id_detector e)) (fl_interfaces f);
  fi_used : w_used (fl_world f) = map_sum ports_of (fl_interfaces f);
  fi_budget : w_used (fl_world f) <= w_limit (fl_world f);
  fi_capacity : w_limit (fl_world f) = maxScanPortEntries }.

(** ** The oldest interface *)

Definition age_key (entry : string * time) : Z * string := (snd entry, fst entry).
Definition age_lt : Z * string -> Z * string -> bool := lex Z.ltb string_lt.

Lemma older_key top entry :
  fst top <> ""%string -> older top entry = age_lt (age_key entry) (age_key top).
Proof.
  destruct top as [n t], entry as [n' t']. simpl. intros Hn. unfold older, age_lt, age_key, lex.
  apply String.eqb_neq in Hn. simpl. rewrite Hn. unfold before. simpl.
  destruct (decide _) as [->|Hne].
  - by rewrite Z.ltb_irrefl, Z.eqb_refl.
  - apply Z.eqb_neq in Hne. rewrite Hne. by rewrite orb_false_r.
Qed.

Lemma select_older_spec l :
  Forall (fun entry => fst entry <> ""%string) l -> l <> [] ->
  let r := select older (""%string, time_zero) l in
  r ∈ l /\ Forall (fun x => age_lt (age_key x) (age_key r) = false) l.
Proof.
  intros Hl Hne. destruct l as [|x l]; [done|].
  change (select older (""%string, time_zero) (x :: l)) with (select older x l).
  apply (select_spec age_lt age_key older (fun entry => fst entry <> ""%string)); [|done].
  intros top y Ht _. by apply older_key.
Qed.

Lemma seen_list_elem m name t :
  (name, t) ∈ seen_list m <-> exists e, m !! name = Some e /\ id_last_seen e = t.
Proof.
  unfold seen_list. rewrite list_elem_of_fmap. split.
  - intros ([n e] & [= -> ->] & Hin%elem_of_map_to_list). by exists e.
  - intros (e & He & <-). exists (name, e). by rewrite elem_of_map_to_list.
Qed.

Lemma oldest_present m :
  map_Forall (fun name _ => name <> ""%string) m -> m <> ∅ -> is_Some (m !! oldest m).
Proof.
  intros Hn Hne. destruct (select_older_spec (seen_list m)) as [Hin _].
  - apply Forall_forall. intros [name t] (e & He & _)%seen_list_elem. by apply (Hn name e).
  - unfold seen_list. intros Hnil%fmap_nil_inv. by apply map_to_list_empty_iff in Hnil.
  - unfold oldest, oldest_of. destruct (select older _ _) as [name t].
    apply seen_list_elem in Hin as (e & He & _). by exists e.
Qed.

(** ** Preservation *)

Lemma deleteScan_lookup source nw k :
  n_scans (fst (deleteScan source nw)) !! k =
    if decide (k = source) then None else n_scans (fst nw) !! k.
Proof.
  destruct nw as [n w]. unfold deleteScan. simpl.
  destruct (n_scans n !! source) eqn:E; simpl; case_decide; subst; auto.
  - apply lookup_delete_eq.
  - by rewrite lookup_delete_ne.
Qed.

Lemma releaseScanState_empty nw : n_scans (fst (releaseScanState nw)) = ∅.
Proof.
  unfold releaseScanState. apply map_eq. intros k. rewrite lookup_empty.
  assert (Hgen : forall l nw, k ∈ l \/ n_scans (fst nw) !! k = None ->
    n_scans (fst (foldl (fun nw source => deleteScan source nw) nw l)) !! k = None).
  { clear. induction l as [|s l IH]; intros nw [Hin|Hn]; simpl; auto.
    - by apply elem_of_nil in Hin.
    - apply IH. rewrite deleteScan_lookup. apply elem_of_cons in Hin as [->|Hin]; [|by left].
      right. by rewrite decide_True.
    - apply IH. right. rewrite deleteScan_lookup. by case_decide. }
  apply Hgen. destruct (n_scans (fst nw) !! k) as [st|] eqn:E; [left|by right].
  apply list_elem_of_fmap. exists (k, st). split; [done|]. by apply elem_of_map_to_list.
Qed.

Lemma fleet_entry_inv cfg f name e :
  fleet_inv cfg f -> fl_interfaces f !! name = Some e ->
  net_inv cfg (maxScanSources / fl_limit f) (maxUDPRequestTuples / fl_limit f)
    (map_sum ports_of (delete name (fl_interfaces f))) maxScanPortEntries
    (id_detector e, fl_world f).
Proof.
  intros [] He. apply net_inv_split. split; [by apply (fi_detectors0 name)|].
  split; [|by split]. rewrite fi_used0, (map_sum_delete _ _ _ _ He). unfold ports_of. lia.
Qed.

(** Storing a detector that keeps the invariant with the rest of the fleet. *)
Lemma put_inv cfg f name e w :
  fleet_inv cfg f -> name <> ""%string ->
  (fl_interfaces f !! name = None -> Z.of_nat (size (fl_interfaces f)) < fl_limit f) ->
  net_inv cfg (maxScanSources / fl_limit f) (maxUDPRequestTuples / fl_limit f)
    (map_sum ports_of (delete name (fl_interfaces f))) maxScanPortEntries (id_detector e, w) ->
  fleet_inv cfg (put name e w f).
Proof.
  intros Hf Hname Hsize (Hd & Hu & Hb & Hl)%net_inv_split. destruct Hf.
  constructor; simpl; auto.
  - destruct (fl_interfaces f !! name) eqn:E.
    + rewrite map_size_insert_Some by eauto. done.
    + rewrite map_size_insert_None by done. specialize (Hsize eq_refl). lia.
  - by apply map_Forall_insert_2.
  - by apply map_Forall_insert_2.
  - rewrite <- insert_delete_eq, map_sum_insert_None by apply lookup_delete_eq.
    rewrite Hu. unfold ports_of at 2. lia.
Qed.

Lemma delete_inv cfg f name w :
  fleet_inv cfg f -> w_used w = map_sum ports_of (delete name (fl_interfaces f)) ->
  w_used w <= w_limit w -> w_limit w = maxScanPortEntries ->
  fleet_inv cfg (mkFleet (fl_config f) (fl_limit f) (delete name (fl_interfaces f))
    (bump_u64 (fl_evicted f)) w).
Proof.
  intros [] Hu Hb Hl. constructor; simpl; auto.
  - pose proof (map_subseteq_size _ _ (delete_subseteq (fl_interfaces f) name)). lia.
  - by apply map_Forall_delete.
  - by apply map_Forall_delete.
Qed.

Lemma evict_inv cfg f : fleet_inv cfg f -> fleet_inv cfg (evict f).
Proof.
  intros Hf. unfold evict.
  destruct (fl_interfaces f !! oldest (fl_interfaces f)) as [e|] eqn:E; [|done].
  pose proof (fleet_entry_inv _ _ _ _ Hf E) as Hi.
  pose proof (releaseScanState_inv _ _ _ _ _ _ Hi) as Hr.
  pose proof (releaseScanState_empty (id_detector e, fl_world f)) as Hempty.
  destruct (releaseScanState (id_detector e, fl_world f)) as [n w]. simpl in Hempty |- *.
  apply net_inv_split in Hr as ((_ & _ & _ & _ & _ & Hp & _) & Hu & Hb & Hl).
  rewrite Hempty in Hp. unfold ports_total in Hp. rewrite map_sum_empty in Hp.
  apply delete_inv; [done|lia|done|done].
Qed.

Lemma evict_room cfg f :
  fleet_inv cfg f -> fl_limit f <= Z.of_nat (size (fl_interfaces f)) ->
  Z.of_nat (size (fl_interfaces (evict f))) < fl_limit f /\ fl_limit (evict f) = fl_limit f.
Proof.
  intros [] Hfull. unfold evict.
  destruct (oldest_present (fl_interfaces f)) as [e He]; [done| |].
  { intros Hnil. rewrite Hnil, map_size_empty in Hfull. lia. }
  rewrite He. simpl. rewrite map_size_delete_Some by eauto. lia.
Qed.

Lemma ResetContinuity_inv cfg sl ul o l n w :
  0 <= ul -> net_inv cfg sl ul o l (n, w) -> net_inv cfg sl ul o l (ResetContinuity n, w).
Proof.
  intros Hul Hi. destruct Hi. constructor; simpl in *; auto.
Qed.

Lemma newNetwork_ok cfg sl ul :
  0 <= sl -> 0 <= ul -> detector_ok cfg sl ul (newNetworkLimits cfg sl ul).
Proof. intros. repeat split; simpl; try done; by rewrite map_size_empty. Qed.

Lemma limit_nonneg n l : 1 <= l -> 0 <= n -> 0 <= n / l.
Proof. intros. apply Z.div_pos; lia. Qed.

(** What [enter] prepares. *)
Lemma enter_inv cfg f b e f' :
  fleet_inv cfg f -> enter b f = (e, f') ->
  fleet_inv cfg f' /\
  (fl_interfaces f' !! b_interface b = None ->
     Z.of_nat (size (fl_interfaces f')) < fl_limit f') /\
  net_inv cfg (maxScanSources / fl_limit f') (maxUDPRequestTuples / fl_limit f')
    (map_sum ports_of (delete (b_interface b) (fl_interfaces f'))) maxScanPortEntries
    (id_detector e, fl_world f').
Proof.
  intros Hf. unfold enter.
  destruct (fl_interfaces f !! b_interface b) as [e0|] eqn:E.
  - pose proof (fleet_entry_inv _ _ _ _ Hf E) as Hi.
    destruct (fi_limit _ _ Hf) as [Hlim _].
    case_if; intros [= <- <-]; simpl; (split; [done|]); (split; [congruence|]); [done|].
    apply ResetContinuity_inv; [|done]. by apply limit_nonneg.
  - set (f1 := if fl_limit f <=? _ then evict f else f). intros [= <- <-]. simpl.
    assert (H1 : fleet_inv cfg f1) by (unfold f1; case_if; [by apply evict_inv|done]).
    assert (Hsize : Z.of_nat (size (fl_interfaces f1)) < fl_limit f1).
    { unfold f1. case_if; bool_to_prop; [|done].
      by destruct (evict_room cfg f Hf E0) as [? ->]. }
    assert (Hnone : fl_interfaces f1 !! b_interface b = None).
    { unfold f1. case_if; [|done]. unfold evict.
      destruct (fl_interfaces f !! oldest (fl_interfaces f)); [|done]. simpl.
      destruct (decide (b_interface b = oldest (fl_interfaces f))) as [<-|];
        [apply lookup_delete_eq|by rewrite lookup_delete_ne]. }
    split; [done|]. split; [done|]. rewrite delete_id by done. apply net_inv_split.
    destruct H1. rewrite fi_config0. split.
    + destruct fi_limit0. apply newNetwork_ok; by apply limit_nonneg.
    + split; [simpl; lia|by split].
Qed.

Lemma name_valid name : ValidInterfaceName name = true -> name <> ""%string.
Proof. unfold ValidInterfaceName. intros H. bool_to_prop. by apply String.eqb_neq. Qed.

Section Runtime.
Context `{GoRuntime}.

Lemma fleet_Observe_inv cfg f b :
  1 <= scan_unique_ports cfg -> fleet_inv cfg f -> fleet_inv cfg (snd (Observe b f)).
Proof.
  intros Hu Hf. unfold Observe. destruct (negb _) eqn:Ev; [done|]. bool_to_prop.
  destruct (enter b f) as [e f'] eqn:E.
  destruct (enter_inv _ _ _ _ _ Hf E) as (Hf' & Hsize & Hi).
  apply name_valid in Ev. case_if; [by apply put_inv|].
  pose proof (net_Observe_inv _ _ _ _ _ b _ Hi Hu) as Ho.
  destruct (Network.Observe b _) as [events [n w]]. simpl. by apply put_inv.
Qed.

Lemma run_inv cfg bs : forall f,
  1 <= scan_unique_ports cfg -> fleet_inv cfg f -> fleet_inv cfg (snd (run bs f)).
Proof.
  induction bs as [|b bs IH]; intros f Hu Hf; simpl; [done|].
  pose proof (fleet_Observe_inv cfg f b Hu Hf) as H1. destruct (Observe b f) as [es f1].
  specialize (IH f1 Hu H1). by destruct (run bs f1).
Qed.

Lemma NewFleet_inv cfg limit ids : fleet_inv cfg (NewFleet cfg limit ids).
Proof.
  constructor; simpl; try done.
  - unfold MaxInterfaces. lia.
  - rewrite map_size_empty. lia.
Qed.
End Runtime.

(** ** Refinement: each interface is a [Network] *)

Section Refinement.
Context `{GoRuntime}.
Context (cfg : DetectionConfig) (sl ul : Z).

(** The detector of an interface is where a detector of its own gets with a
    subsequence of the batches of that interface, sent at increasing times. *)
Definition reached (hist : list Batch) (name : string) (e : interfaceDetector) : Prop :=
  exists w0 steps,
    fst (snd (net_run steps (newNetworkLimits cfg sl ul, w0))) = id_detector e /\
    sublist (batches steps) (filter (fun b => b_interface b = name) hist) /\
    StronglySorted Z.lt (b_sent_at <$> batches steps) /\
    Forall (fun b => b_sent_at b <= id_last_seen e) (batches steps) /\
    (id_last_seen e = 0 -> batches steps = []).

Definition fleet_reached (hist : list Batch) (f : Fleet) : Prop :=
  fl_config f = cfg /\ maxScanSources / fl_limit f = sl /\ maxUDPRequestTuples / fl_limit f = ul /\
  map_Forall (fun name e => reached hist name e) (fl_interfaces f).

Lemma reached_mono hist b name e : reached hist name e -> reached (hist ++ [b]) name e.
Proof.
  intros (w0 & steps & H1 & H2 & H3). exists w0, steps. split; [done|]. split; [|done].
  rewrite filter_app. etransitivity; [exact H2|]. apply sublist_inserts_r. reflexivity.
Qed.

Lemma reached_new hist name c : reached hist name (mkDetector (newNetworkLimits cfg sl ul) time_zero c).
Proof.
  exists (mkWorld 0 0 0), []. split_and!; simpl; try done; constructor || apply sublist_nil_l.
Qed.

Lemma reached_reset hist name n t c c' :
  reached hist name (mkDetector n t c) -> reached hist name (mkDetector (ResetContinuity n) t c').
Proof.
  intros (w0 & steps & H1 & H2 & H3 & H4 & H5). exists w0, (steps ++ [NReset]).
  assert (Hb : batches (steps ++ [NReset]) = batches steps) by (rewrite batches_app; apply app_nil_r).
  rewrite Hb, net_run_snoc. simpl in *. rewrite H1. by split_and!.
Qed.

Lemma reached_enter hist f b e f' :
  fleet_reached hist f -> enter b f = (e, f') ->
  fleet_reached hist f' /\ reached hist (b_interface b) e.
Proof.
  intros (Hc & Hs & Hu & Hall). unfold enter.
  destruct (fl_interfaces f !! b_interface b) as [e0|] eqn:E.
  - pose proof (Hall _ _ E) as He0. destruct e0 as [n t c]. simpl.
    case_if; intros [= <- <-]; (split; [by split_and!|]); [done|]. by eapply reached_reset.
  - intros [= <- <-]. split.
    + case_if; [|by split_and!]. unfold evict.
      destruct (fl_interfaces f !! oldest (fl_interfaces f)); [|by split_and!].
      split_and!; simpl; auto. by apply map_Forall_delete.
    + assert (Hsame : forall f1, fl_config f1 = fl_config f -> fl_limit f1 = fl_limit f ->
        reached hist (b_interface b)
          (mkDetector (newNetworkLimits (fl_config f1) (maxScanSources / fl_limit f1)
             (maxUDPRequestTuples / fl_limit f1)) time_zero (b_connection b))).
      { intros f1 -> ->. rewrite Hc, Hs, Hu. apply reached_new. }
      case_if; [|by apply Hsame]. unfold evict.
      destruct (fl_interfaces f !! oldest (fl_interfaces f)); by apply Hsame.
Qed.

(** One batch: the fleet stays reached, and its events are those of the detector
    of the interface. *)
Lemma Observe_reached hist f b :
  0 < b_sent_at b -> fleet_reached hist f ->
  fleet_reached (hist ++ [b]) (snd (Observe b f)) /\
  (fst (Observe b f) = [] \/
   exists w0 steps,
     fst (Observe b f) = map (add_evidence "interface" (b_interface b))
       (fst (Network.Observe b (snd (net_run steps (newNetworkLimits cfg sl ul, w0))))) /\
     sublist (batches steps ++ [b]) (filter (fun b' => b_interface b' = b_interface b) (hist ++ [b])) /\
     StronglySorted Z.lt (b_sent_at <$> batches steps ++ [b])).
Proof.
  intros Hpos Hf.
  assert (Hmono : forall f, fleet_reached hist f -> fleet_reached (hist ++ [b]) f).
  { intros g (? & ? & ? & Hall). split_and!; auto. intros name e He.
    by apply reached_mono, Hall. }
  assert (Hput : forall g e w, fleet_reached (hist ++ [b]) g -> reached (hist ++ [b]) (b_interface b) e ->
    fleet_reached (hist ++ [b]) (put (b_interface b) e w g)).
  { intros g e w (? & ? & ? & Hall) He. split_and!; auto. by apply map_Forall_insert_2. }
  unfold Observe. case_if; [split; [by apply Hmono|by left]|].
  destruct (enter b f) as [e f'] eqn:E0.
  destruct (reached_enter _ _ _ _ _ Hf E0) as [Hf' He].
  case_if.
  { split; [|by left]. apply Hput; [by apply Hmono|by apply reached_mono]. }
  destruct He as (w0 & steps & H1 & H2 & H3 & H4 & H5).
  set (steps' := steps ++ [NBudget (fl_world f')]).
  assert (Hb : batches steps' = batches steps)
    by (unfold steps'; rewrite batches_app; apply app_nil_r).
  assert (Hrun : snd (net_run steps' (newNetworkLimits cfg sl ul, w0)) = (id_detector e, fl_world f')).
  { unfold steps'. rewrite net_run_snoc. simpl. by rewrite H1. }
  assert (Hsub : sublist (batches steps' ++ [b])
    (filter (fun b' => b_interface b' = b_interface b) (hist ++ [b]))).
  { rewrite Hb, filter_app. apply sublist_app; [done|].
    rewrite filter_cons_True by done. reflexivity. }
  assert (Hlt : Forall (fun b' => b_sent_at b' < b_sent_at b) (batches steps)).
  { apply andb_false_iff in E1 as [Hz|Hafter].
    - apply negb_false_iff, Z.eqb_eq in Hz. by rewrite (H5 Hz).
    - apply negb_false_iff, after_spec in Hafter.
      eapply Forall_impl; [exact H4|]. intros b' Hb'. simpl in Hb'. lia. }
  assert (Hss : StronglySorted Z.lt (b_sent_at <$> batches steps' ++ [b])).
  { rewrite Hb, fmap_app. apply StronglySorted_app_2; [|done|repeat constructor].
    intros x1 x2 (b' & -> & Hb')%list_elem_of_fmap Hx2. simpl in Hx2.
    apply list_elem_of_singleton in Hx2 as ->. rewrite Forall_forall in Hlt. by apply Hlt. }
  pose proof (net_run_snoc steps' (NBatch b) (newNetworkLimits cfg sl ul, w0)) as Hsnoc.
  rewrite Hrun in Hsnoc. simpl in Hsnoc.
  destruct (Network.Observe b (id_detector e, fl_world f')) as [events [n w]] eqn:Eo. simpl. split.
  - apply Hput; [by apply Hmono|]. exists w0, (steps' ++ [NBatch b]).
    rewrite Hsnoc, batches_app. simpl. split_and!; auto.
    + apply Forall_app. split; [|repeat constructor; lia]. rewrite Hb.
      eapply Forall_impl; [exact Hlt|]. simpl. intros. lia.
    + intros Hz. rewrite Hz in Hpos. lia.
  - right. exists w0, steps'. split_and!; auto. by rewrite Hrun, Eo.
Qed.

Lemma run_reached bs : forall hist f,
  Forall (fun b => 0 < b_sent_at b) bs -> fleet_reached hist f ->
  fleet_reached (hist ++ bs) (snd (run bs f)).
Proof.
  induction bs as [|b bs IH]; intros hist f Hpos Hf; simpl; [by rewrite app_nil_r|].
  apply Forall_cons in Hpos as [Hb Hpos].
  destruct (Observe_reached hist f b Hb Hf) as [H1 _]. destruct (Observe b f) as [es f1].
  specialize (IH (hist ++ [b]) f1 Hpos H1). rewrite <- app_assoc in IH. by destruct (run bs f1).
Qed.
End Refinement.

(** ** Totals of [Stats] *)

Lemma add_stats_sums l : forall r,
  ns_scan_ports (foldl add_stats r l) = ns_scan_ports r + sumZ (ns_scan_ports <$> l) /\
  ns_scan_sources (foldl add_stats r l) = ns_scan_sources r + sumZ (ns_scan_sources <$> l) /\
  ns_udp_tuples (foldl add_stats r l) = ns_udp_tuples r + sumZ (ns_udp_tuples <$> l) /\
  ns_scan_complete (foldl add_stats r l) = ns_scan_complete r && forallb ns_scan_complete l.
Proof.
  induction l as [|s l IH]; intros r; cbn [foldl fmap list_fmap forallb].
  { rewrite sumZ_nil, andb_true_r. split_and!; lia || done. }
  destruct (IH (add_stats r s)) as (E1 & E2 & E3 & E4). rewrite !sumZ_cons, E1, E2, E3, E4.
  unfold add_stats. repeat destruct (saturating_add _ _ _). simpl.
  split_and!; [lia..|by rewrite andb_assoc].
Qed.

Lemma stats_sum (g : NetworkStats -> Z) (h : interfaceDetector -> Z) w m :
  (forall e, g (Network.Stats (id_detector e) w) = h e) ->
  sumZ (g <$> (is_stats <$> (interface_stats w <$> sort_by name_lt (map_to_list m)))) =
  map_sum (fun _ e => h e) m.
Proof.
  intros Hg. unfold map_sum. apply sumZ_perm.
  rewrite <- !list_fmap_compose, (sort_by_perm name_lt).
  apply Permutation_refl', list_fmap_ext. intros i [name e] _. simpl. apply Hg.
Qed.

Section Properties.
Context `{GoRuntime}.

(** C10. However many interfaces and sources there are, the fleet stays within
    its capacity: at most [limit] (1 to 8) interfaces, 8192 sources, 16384
    remembered requests and 262144 ports over all of them, and the shared budget
    in use is exactly the number of ports held. *)
Theorem fleet_bounded cfg limit ids bs :
  1 <= scan_unique_ports cfg ->
  let f := snd (run bs (NewFleet cfg limit ids)) in
  fleet_inv cfg f /\
  map_sum (fun _ e => Z.of_nat (size (n_scans (id_detector e)))) (fl_interfaces f) <= maxScanSources /\
  map_sum (fun _ e => Z.of_nat (size (n_udp (id_detector e)))) (fl_interfaces f)
    <= maxUDPRequestTuples.
Proof.
  intros Hu f. pose proof (run_inv cfg bs _ Hu (NewFleet_inv cfg limit ids)) as Hf. fold f in Hf.
  split; [done|]. destruct Hf.
  assert (Hcap : forall c, 0 <= c -> c / fl_limit f * Z.of_nat (size (fl_interfaces f)) <= c).
  { intros c Hc. pose proof (limit_nonneg c (fl_limit f) ltac:(lia) Hc).
    pose proof (Z.mul_div_le c (fl_limit f) ltac:(lia)). nia. }
  split; (etransitivity; [apply map_sum_le|by apply Hcap]); intros name e He;
    destruct (fi_detectors0 name e He) as (_ & _ & _ & ? & ? & _); simpl; lia.
Qed.

(** C11. The fleet is a family of independent detectors: the events of a batch
    are those that a detector of its own would report, labelled with the
    interface, after a subsequence of the earlier batches of that interface,
    which were sent at strictly increasing times; a batch that is not newer, or
    whose interface name is invalid, yields nothing. *)
Theorem fleet_refines_network cfg limit ids bs b :
  Forall (fun b => 0 < b_sent_at b) (bs ++ [b]) ->
  let f0 := NewFleet cfg limit ids in
  let network := newNetworkLimits cfg (maxScanSources / fl_limit f0) (maxUDPRequestTuples / fl_limit f0) in
  let events := fst (Observe b (snd (run bs f0))) in
  events = [] \/
  exists w0 steps,
    events = map (add_evidence "interface" (b_interface b))
               (fst (Network.Observe b (snd (net_run steps (network, w0))))) /\
    sublist (batches steps ++ [b]) (filter (fun b' => b_interface b' = b_interface b) (bs ++ [b])) /\
    StronglySorted Z.lt (b_sent_at <$> batches steps ++ [b]).
Proof.
  intros [Hpos Hb]%Forall_app f0 network events.
  apply Forall_inv in Hb.
  assert (H0 : fleet_reached cfg (maxScanSources / fl_limit f0) (maxUDPRequestTuples / fl_limit f0) [] f0)
    by (split_and!; done).
  pose proof (run_reached _ _ _ bs [] f0 Hpos H0) as H1.
  by destruct (Observe_reached _ _ _ _ _ b Hb H1) as [_ ?].
Qed.

(** A batch leaves the detectors of the other interfaces alone, except that
    a new interface in a full fleet displaces the one seen longest ago, the first
    by name among equals, in whatever order the table is visited. *)
Theorem Observe_isolated cfg limit ids bs b name e :
  1 <= scan_unique_ports cfg ->
  let f := snd (run bs (NewFleet cfg limit ids)) in
  fl_interfaces f !! name = Some e -> name <> b_interface b ->
  fl_interfaces (snd (Observe b f)) !! name = Some e \/
  (fl_interfaces (snd (Observe b f)) !! name = None /\
   fl_interfaces f !! b_interface b = None /\
   Z.of_nat (size (fl_interfaces f)) = fl_limit f /\
   forall name' e', fl_interfaces f !! name' = Some e' -> name' <> name ->
     id_last_seen e < id_last_seen e' \/
     (id_last_seen e = id_last_seen e' /\ string_lt name name' = true)).
Proof.
  intros Hu f He Hne. pose proof (run_inv cfg bs _ Hu (NewFleet_inv cfg limit ids)) as Hf.
  fold f in Hf. clearbody f. unfold Observe. case_if; [by left|].
  assert (Hput : forall g e' w, fl_interfaces (put (b_interface b) e' w g) !! name = fl_interfaces g !! name)
    by (intros; simpl; by rewrite lookup_insert_ne).
  assert (Hgoal : forall e' g,
    fl_interfaces (snd (if negb (is_zero (id_last_seen e')) && negb (after (b_sent_at b) (id_last_seen e'))
      then ([], put (b_interface b) e' (fl_world g) g)
      else let '(events, (n, w)) := Network.Observe b (id_detector e', fl_world g) in
        (map (add_evidence "interface" (b_interface b)) events,
         put (b_interface b) (mkDetector n (b_sent_at b) (id_connection e')) w g))) !! name
    = fl_interfaces g !! name).
  { intros e' g. case_if; [apply Hput|]. destruct (Network.Observe _ _) as [es [n w]]. apply Hput. }
  destruct (enter b f) as [e' g] eqn:Eg. rewrite Hgoal. clear Hgoal Hput. unfold enter in Eg.
  destruct (fl_interfaces f !! b_interface b) as [e0|] eqn:E0.
  { left. case_if_in Eg; by injection Eg as <- <-. }
  injection Eg as <- <-. case_if; [|by left]. bool_to_prop. unfold evict.
  destruct (fl_interfaces f !! oldest (fl_interfaces f)) as [eo|] eqn:Eo; [|by left]. simpl.
  destruct (decide (name = oldest (fl_interfaces f))) as [->|Hno];
    [right|left; by rewrite lookup_delete_ne].
  rewrite lookup_delete_eq. destruct Hf. split_and!; [done|done|lia|]. intros name' e' He' Hdiff.
  destruct (select_older_spec (seen_list (fl_interfaces f))) as [Hin Hall].
  { apply Forall_forall. intros [n t] (x & Hx & _)%seen_list_elem. by apply (fi_names0 n x). }
  { intros Hnil%fmap_nil_inv. apply map_to_list_empty_iff in Hnil. by rewrite Hnil in He. }
  rewrite Forall_forall in Hall. unfold oldest, oldest_of in *.
  destruct (select older _ _) as [no to]. simpl in *.
  apply seen_list_elem in Hin as (x & Hx & <-). rewrite He in Hx. injection Hx as <-.
  assert (Hmin : age_lt (age_key (name', id_last_seen e')) (age_key (no, id_last_seen e)) = false).
  { apply Hall, seen_list_elem. by exists e'. }
  destruct (age_lt (age_key (no, id_last_seen e)) (age_key (name', id_last_seen e'))) eqn:Elt.
  - unfold age_lt, lex, age_key in Elt. simpl in Elt. destruct (decide _); [by right|left].
    by apply Z.ltb_lt.
  - exfalso. apply Hdiff. pose proof (st_total (lt := age_lt) _ _ Hmin Elt) as Hk.
    by injection Hk as ? ->.
Qed.

(** The totals of [Stats] are the sums over the interfaces: the ports are
    the budget in use, the sources and requests are those held, and scan coverage
    is complete exactly when there is an interface and each is complete. *)
Theorem Stats_exact cfg limit ids bs :
  1 <= scan_unique_ports cfg ->
  let f := snd (run bs (NewFleet cfg limit ids)) in
  ns_scan_ports (fs_total (Stats f)) = w_used (fl_world f) /\
  ns_scan_sources (fs_total (Stats f)) =
    map_sum (fun _ e => Z.of_nat (size (n_scans (id_detector e)))) (fl_interfaces f) /\
  ns_udp_tuples (fs_total (Stats f)) =
    map_sum (fun _ e => Z.of_nat (size (n_udp (id_detector e)))) (fl_interfaces f) /\
  (ns_scan_complete (fs_total (Stats f)) = true <->
     fl_interfaces f <> ∅ /\
     map_Forall (fun _ e => n_scan_uncertain (id_detector e) <= n_last_batch (id_detector e))
       (fl_interfaces f)).
Proof.
  intros Hu f. pose proof (run_inv cfg bs _ Hu (NewFleet_inv cfg limit ids)) as Hf. fold f in Hf.
  unfold Stats. cbn [fs_total]. set (l := is_stats <$> _).
  destruct (add_stats_sums l (mkNetworkStats 0 (maxScanSources / fl_limit f * fl_limit f) 0 false 0
    (w_limit (fl_world f)) false (negb (Z.of_nat (size (fl_interfaces f)) <=? 0)) time_zero 0
    (maxUDPRequestTuples / fl_limit f * fl_limit f) 0 0 0 false
    (negb (Z.of_nat (size (fl_interfaces f)) <=? 0)) 0 false)) as (-> & -> & -> & ->).
  unfold l. cbn [ns_scan_ports ns_scan_sources ns_udp_tuples ns_scan_complete].
  rewrite (stats_sum ns_scan_ports (fun e => n_scan_ports (id_detector e))) by done.
  rewrite (stats_sum ns_scan_sources (fun e => Z.of_nat (size (n_scans (id_detector e))))) by done.
  rewrite (stats_sum ns_udp_tuples (fun e => Z.of_nat (size (n_udp (id_detector e))))) by done.
  split_and!; [by rewrite (fi_used _ _ Hf)|done|done|].
  rewrite andb_true_iff, negb_true_iff, Z.leb_gt, forallb_forall.
  assert (Hne : 0 < Z.of_nat (size (fl_interfaces f)) <-> fl_interfaces f <> ∅).
  { rewrite <- map_size_non_empty_iff. lia. }
  rewrite Hne. apply and_iff_compat_l.
  assert (Hin : forall s, In s (is_stats <$> (interface_stats (fl_world f) <$>
      sort_by name_lt (map_to_list (fl_interfaces f)))) <->
    exists name e, fl_interfaces f !! name = Some e /\ s = Network.Stats (id_detector e) (fl_world f)).
  { intros s. rewrite <- list_elem_of_In, <- list_fmap_compose, list_elem_of_fmap. split.
    - intros ([name e] & -> & Hin). rewrite (sort_by_perm name_lt) in Hin.
      apply elem_of_map_to_list in Hin. by exists name, e.
    - intros (name & e & He & ->). exists (name, e). split; [done|].
      rewrite (sort_by_perm name_lt). by apply elem_of_map_to_list. }
  split.
  - intros Hall name e He. specialize (Hall _ (proj2 (Hin _) (ex_intro _ name (ex_intro _ e (conj He eq_refl))))).
    unfold Network.Stats in Hall. simpl in Hall. apply negb_true_iff, Z.ltb_ge in Hall. exact Hall.
  - intros Hall s (name & e & He & ->)%Hin. unfold Network.Stats. simpl.
    apply negb_true_iff, Z.ltb_ge. by apply (Hall name).
Qed.
End Properties.

Definition on_interface (name : string) (b : Batch) : Batch :=
  mkBatch (b_connection b) (b_version b) (b_session b) (b_sequence b) (b_sent_at b)
    (b_sent_offset b) (b_interval_ms b) name (b_flows b) (b_rx_bytes b) (b_tx_bytes b)
    (b_rx_packets b) (b_tx_packets b) (b_inbound_syn b) (b_inbound_udp b) (b_inbound_icmp b)
    (b_health b).

Definition example_batches : list Batch :=
  [example_window 1 10 [example_syn 80]; on_interface "wlan0" (example_window 2 0 [example_syn 22])].

Lemma fleet_bounded_witness :
  let f := snd (@run example_runtime example_batches (NewFleet example_detection 2 0)) in
  w_used (fl_world f) = 2 /\
  map_sum (fun _ e => Z.of_nat (size (n_scans (id_detector e)))) (fl_interfaces f) <= maxScanSources.
Proof.
  split; [vm_compute; reflexivity|].
  exact (proj1 (proj2 (@fleet_bounded example_runtime example_detection 2 0 example_batches
    ltac:(vm_compute; discriminate)))).
Defined.

Lemma fleet_refines_network_witness :
  let b := example_window 2 8 [example_syn 443] in
  let f := snd (@run example_runtime example_batches (NewFleet example_detection 2 0)) in
  exists w0 steps,
    ev_kind <$> fst (@Observe example_runtime b f) = ["syn_flood"; "port_scan"]%string /\
    fst (@Observe example_runtime b f) = map (add_evidence "interface" "eth0")
      (fst (@Network.Observe example_runtime b
        (snd (@net_run example_runtime steps (newNetworkLimits example_detection 4096 8192, w0))))).
Proof.
  intros b f.
  assert (Hk : ev_kind <$> fst (@Observe example_runtime b f) = ["syn_flood"; "port_scan"]%string)
    by (vm_compute; reflexivity).
  destruct (@fleet_refines_network example_runtime example_detection 2 0 example_batches b)
    as [Hnil|(w0 & steps & He & _)].
  - apply (bool_decide_unpack _). vm_compute. exact I.
  - exfalso. fold f in Hnil. rewrite Hnil in Hk. discriminate Hk.
  - exists w0, steps. split; [exact Hk|exact He].
Defined.

Lemma Observe_isolated_witness :
  let f := snd (@run example_runtime [example_window 1 10 [example_syn 80]]
                  (NewFleet example_detection 1 0)) in
  let b := on_interface "wlan0" (example_window 2 0 []) in
  exists e, fl_interfaces f !! "eth0"%string = Some e /\
    (fl_interfaces (snd (@Observe example_runtime b f)) !! "eth0"%string = Some e \/
     fl_interfaces (snd (@Observe example_runtime b f)) !! "eth0"%string = None) /\
    w_used (fl_world (snd (@Observe example_runtime b f))) = 0.
Proof.
  intros f b. destruct (fl_interfaces f !! "eth0"%string) as [e|] eqn:E;
    [|vm_compute in E; discriminate].
  exists e. split; [done|]. split; [|vm_compute; reflexivity].
  destruct (@Observe_isolated example_runtime example_detection 1 0
    [example_window 1 10 [example_syn 80]] b "eth0" e ltac:(vm_compute; discriminate) E
    ltac:(discriminate)) as [H|[H _]]; [by left|by right].
Defined.

Lemma Stats_exact_witness :
  let f := snd (@run example_runtime example_batches (NewFleet example_detection 2 0)) in
  ns_scan_ports (fs_total (Stats f)) = 2 /\
  is_name <$> fs_interfaces (Stats f) = ["eth0"; "wlan0"]%string.
Proof.
  intros f. split; [|vm_compute; reflexivity].
  transitivity (w_used (fl_world f)); [|vm_compute; reflexivity].
  exact (proj1 (@Stats_exact example_runtime example_detection 2 0 example_batches
    ltac:(vm_compute; discriminate))).
Defined.
