(* ===== verification/AuthDetect.v ===== *)
(** * SSH authentication failures

    [internal/detect/auth.go]: failures per source in a sliding window, kept in
    slices whose capacities are bounded over all sources, alerts with a cooldown,
    and the time until which the windows may miss failures. *)

From S2P Require Export Config.

(** [collector.AuthObservation]. *)
Record AuthObservation := mkObservation {
  ao_at : time;
  ao_kind : string;
  ao_source : addr;
  ao_source_port : Z;
  ao_user : string;
  ao_method : string;
  ao_root : bool;
  ao_invalid_user : bool }.

Definition AuthFailure : string := "failure".
Definition AuthSuccess : string := "success".

Record authTimestamp := mkStamp { at_seconds : Z; at_nanos : Z }.

Definition compactAuthTime (t : time) : authTimestamp := mkStamp (unix_sec t) (nanos_of_second t).
Definition stamp_before (s : authTimestamp) (t : time) : bool :=
  (at_seconds s <? unix_sec t)
  || ((at_seconds s =? unix_sec t) && (at_nanos s <? nanos_of_second t)).
Definition stamp_after (s : authTimestamp) (t : time) : bool :=
  (unix_sec t <? at_seconds s)
  || ((at_seconds s =? unix_sec t) && (nanos_of_second t <? at_nanos s)).

(** A slice of stamps: its elements and [cap]. *)
Record stamps := mkStamps { sl_items : list authTimestamp; sl_cap : Z }.
Definition nil_stamps : stamps := mkStamps [] 0.

Record Auth := mkAuth {
  a_config : AuthConfig;
  a_failures : gmap string stamps;
  a_last_alert : gmap string time;
  a_last_seen : gmap string time;
  a_observed : Z;
  a_auxiliary : Z;
  a_rejected : Z;
  a_refused : Z;
  a_truncated : Z;
  a_entries : Z;
  a_capacity : Z;
  a_entry_limit : Z;
  a_last_prune : time;
  a_incomplete_until : time }.

Definition maxAuthSources : Z := 65536.
Definition maxFailuresPerAuthSource : Z := 4096.
Definition maxAuthFailureEntries : Z := 131072.

Definition NewAuth (cfg : AuthConfig) : Auth :=
  mkAuth cfg ∅ ∅ ∅ 0 0 0 0 0 0 0 maxAuthFailureEntries time_zero time_zero.

(** ** Field updates *)

Definition set_failures (m : gmap string stamps) (entries capacity : Z) (a : Auth) : Auth :=
  mkAuth (a_config a) m (a_last_alert a) (a_last_seen a) (a_observed a) (a_auxiliary a)
    (a_rejected a) (a_refused a) (a_truncated a) entries capacity (a_entry_limit a)
    (a_last_prune a) (a_incomplete_until a).
Definition set_alerts (m : gmap string time) (a : Auth) : Auth :=
  mkAuth (a_config a) (a_failures a) m (a_last_seen a) (a_observed a) (a_auxiliary a)
    (a_rejected a) (a_refused a) (a_truncated a) (a_entries a) (a_capacity a)
    (a_entry_limit a) (a_last_prune a) (a_incomplete_until a).
Definition set_seen (m : gmap string time) (a : Auth) : Auth :=
  mkAuth (a_config a) (a_failures a) (a_last_alert a) m (a_observed a) (a_auxiliary a)
    (a_rejected a) (a_refused a) (a_truncated a) (a_entries a) (a_capacity a)
    (a_entry_limit a) (a_last_prune a) (a_incomplete_until a).
Definition set_counts (observed auxiliary rejected refused truncated : Z) (a : Auth) : Auth :=
  mkAuth (a_config a) (a_failures a) (a_last_alert a) (a_last_seen a) observed auxiliary
    rejected refused truncated (a_entries a) (a_capacity a) (a_entry_limit a)
    (a_last_prune a) (a_incomplete_until a).
Definition set_last_prune (t : time) (a : Auth) : Auth :=
  mkAuth (a_config a) (a_failures a) (a_last_alert a) (a_last_seen a) (a_observed a)
    (a_auxiliary a) (a_rejected a) (a_refused a) (a_truncated a) (a_entries a) (a_capacity a)
    (a_entry_limit a) t (a_incomplete_until a).
Definition set_incomplete (t : time) (a : Auth) : Auth :=
  mkAuth (a_config a) (a_failures a) (a_last_alert a) (a_last_seen a) (a_observed a)
    (a_auxiliary a) (a_rejected a) (a_refused a) (a_truncated a) (a_entries a) (a_capacity a)
    (a_entry_limit a) (a_last_prune a) t.

(** [a.failures[source]]. *)
Definition failures_of (source : string) (a : Auth) : stamps :=
  default nil_stamps (a_failures a !! source).

(** ** Operations *)

Definition markIncomplete (at' : time) (a : Auth) : Auth :=
  let until := time_add at' (ac_window (a_config a) + nanosecond) in
  if after until (a_incomplete_until a) then set_incomplete until a else a.

Definition refuse (at' : time) (a : Auth) : Auth :=
  markIncomplete at'
    (set_counts (a_observed a) (a_auxiliary a) (a_rejected a) (bump_u64 (a_refused a))
       (a_truncated a) a).

(** [trim]: the kept slice and the detector. *)
Definition trim (source : string) (cutoff : time) (a : Auth) : stamps * Auth :=
  let times := failures_of source a in
  let kept := filter (fun at' => stamp_before at' cutoff = false) (sl_items times) in
  let entries := a_entries a - (lenZ (sl_items times) - lenZ kept) in
  let '(cap, capacity) :=
    if (lenZ kept =? 0) || (lenZ kept * 2 <? sl_cap times)
    then (lenZ kept, a_capacity a - (sl_cap times - lenZ kept))
    else (sl_cap times, a_capacity a) in
  let kept := mkStamps kept cap in
  (kept,
   set_failures (if bool_decide (a_failures a !! source <> None)
                 then <[source := kept]> (a_failures a) else a_failures a)
     entries capacity a).

(** One iteration of the loop of [prune]. *)
Definition prune_source (now : time) (a : Auth) (entry : string * time) : Auth :=
  let '(source, seen) := entry in
  if before seen (time_add now (- ac_window (a_config a) - ac_cooldown (a_config a))) then
    let times := failures_of source a in
    set_seen (delete source (a_last_seen a))
      (set_alerts (delete source (a_last_alert a))
         (set_failures (delete source (a_failures a)) (a_entries a - lenZ (sl_items times))
            (a_capacity a - sl_cap times) a))
  else snd (trim source (time_add now (- ac_window (a_config a))) a).

(** [prune], over the sources in iteration order. *)
Definition prune (now : time) (a : Auth) : Auth :=
  set_last_prune now (foldl (prune_source now) a (map_to_list (a_last_seen a))).

Definition pruneIfDue (now : time) (a : Auth) : Auth :=
  if is_zero (a_last_prune a)
     || (Z.min second (ac_window (a_config a)) <=? time_sub now (a_last_prune a))
  then prune now a else a.

(** The truncation of a full source. *)
Definition truncate (now : time) (kept : stamps) (a : Auth) : stamps * Auth :=
  if maxFailuresPerAuthSource <=? lenZ (sl_items kept) then
    (mkStamps (tail (sl_items kept)) (sl_cap kept),
     markIncomplete now
       (set_counts (a_observed a) (a_auxiliary a) (a_rejected a) (a_refused a)
          (bump_u64 (a_truncated a))
          (set_failures (a_failures a) (a_entries a - 1) (a_capacity a) a)))
  else (kept, a).

(** Growing a full slice: [None] when the budget refuses. *)
Definition grow (kept : stamps) (a : Auth) : option (stamps * Auth) :=
  if lenZ (sl_items kept) =? sl_cap kept then
    let available := a_entry_limit a - a_capacity a in
    if available <=? 0 then None
    else
      let capacity := Z.min (Z.min (Z.max 1 (2 * sl_cap kept)) maxFailuresPerAuthSource)
                        (sl_cap kept + available) in
      Some (mkStamps (sl_items kept) capacity,
            set_failures (a_failures a) (a_entries a) (a_capacity a + (capacity - sl_cap kept)) a)
  else Some (kept, a).

(** A canonical failure up to the point where it is recorded: [None] when it is
    refused. *)
Definition admit_source (source : string) (now : time) (a : Auth) : bool * Auth :=
  if bool_decide (a_failures a !! source = None) && (maxAuthSources <=? Z.of_nat (size (a_failures a)))
  then
    let a := pruneIfDue now a in
    if maxAuthSources <=? Z.of_nat (size (a_failures a)) then
      (false, refuse now
         (set_counts (a_observed a) (a_auxiliary a) (bump_u64 (a_rejected a)) (a_refused a)
            (a_truncated a) a))
    else (true, a)
  else (true, a).

Definition record_failure (source : string) (now : time) (a : Auth) : option stamps * Auth :=
  let '(kept, a) := trim source (time_add now (- ac_window (a_config a))) a in
  let '(kept, a) := truncate now kept a in
  let '(kept, a) :=
    if (lenZ (sl_items kept) =? sl_cap kept) && (a_entry_limit a <=? a_capacity a)
    then let a := pruneIfDue now a in (failures_of source a, a)
    else (kept, a) in
  match grow kept a with
  | None => (None, refuse now a)
  | Some (kept, a) =>
      let kept := mkStamps (sl_items kept ++ [compactAuthTime now]) (sl_cap kept) in
      (Some kept,
       set_seen (<[source := now]> (a_last_seen a))
         (set_failures (<[source := kept]> (a_failures a)) (a_entries a + 1) (a_capacity a) a))
  end.

Section Runtime.
Context `{GoRuntime}.

Definition draw (prefix : string) (ids : nat) : string * nat := NewID prefix ids.

(** The failures of the window that precede a success. *)
Definition prior_failures (source : string) (now : time) (a : Auth) : list authTimestamp :=
  filter (fun s => stamp_before s (time_add now (- ac_window (a_config a))) = false
                   /\ stamp_after s now = false) (sl_items (failures_of source a)).

(** The event of a success. *)
Definition success_event (o : AuthObservation) (a : Auth) (ids : nat) : Event * nat :=
  let source := addr_string (ao_source o) in
  let prior := lenZ (prior_failures source (ao_at o) a) in
  let evidence : gmap string string :=
    {["method" := ao_method o;
      "window_millis" := fmt_int (milliseconds (ac_window (a_config a)))]} in
  let evidence :=
    if 0 <? prior
    then <["preceding_source_failures" := fmt_int prior]>
         (<["window" := fmt_duration (ac_window (a_config a))]>
         (<["count_basis" := "openssh_final_failure"]> evidence))
    else evidence in
  let evidence :=
    if before (ao_at o) (a_incomplete_until a)
    then <["preceding_source_failures_complete" := "false"]> evidence
    else evidence in
  let '(id, ids) := draw "evt" ids in
  let '(inc, ids) := draw "inc" ids in
  (mkEvent id inc (ao_at o) "ssh_login_success" "observed"
     (if ao_root o then SeverityMedium else SeverityInfo)
     ("successful SSH " ++ ao_method o ++ " authentication") source (PrefixString source)
     ("ssh user=" ++ ao_user o) 1 no_geo evidence, ids).

(** The event of a burst of failures, of which [kept] are in the window. *)
Definition brute_force_event (o : AuthObservation) (kept : Z) (a : Auth) (ids : nat)
    : Event * nat :=
  let source := addr_string (ao_source o) in
  let '(id, ids) := draw "evt" ids in
  let '(inc, ids) := draw "inc" ids in
  (mkEvent id inc (ao_at o) "ssh_brute_force" "start" SeverityHigh
     (fmt_int kept ++ " SSH authentication failures in " ++ fmt_duration (ac_window (a_config a)))
     source (PrefixString source) ("ssh user=" ++ ao_user o) kept no_geo
     {["window_millis" := fmt_int (milliseconds (ac_window (a_config a)));
       "method" := ao_method o; "invalid_user" := fmt_bool (ao_invalid_user o);
       "count_basis" := "openssh_final_failure";
       "detection_window_complete" :=
         fmt_bool (negb (before (ao_at o) (a_incomplete_until a)))]}, ids).

(** [Observe] of a canonical failure. *)
Definition observe_failure (o : AuthObservation) (a : Auth) (ids : nat)
    : option Event * (Auth * nat) :=
  let source := addr_string (ao_source o) in
  let now := ao_at o in
  let a := set_counts (bump_u64 (a_observed a)) (a_auxiliary a) (a_rejected a) (a_refused a)
             (a_truncated a) a in
  let a := if a_observed a mod 1024 =? 0 then prune now a else a in
  match admit_source source now a with
  | (false, a) => (None, (a, ids))
  | (true, a) =>
      match record_failure source now a with
      | (None, a) => (None, (a, ids))
      | (Some kept, a) =>
          let count := lenZ (sl_items kept) in
          if (count <? ac_threshold (a_config a))
             || (time_sub now (default time_zero (a_last_alert a !! source))
                 <? ac_cooldown (a_config a))
          then (None, (a, ids))
          else
            let a := set_alerts (<[source := now]> (a_last_alert a)) a in
            let '(e, ids) := brute_force_event o count a ids in
            (Some e, (a, ids))
      end
  end.

(** A failure that counts as an attempt. *)
Definition canonical (o : AuthObservation) : bool :=
  (ao_kind o =?s AuthFailure) && negb (ao_method o =?s "pam").

(** [Observe]. *)
Definition Observe (o : AuthObservation) (a : Auth) (ids : nat) : option Event * (Auth * nat) :=
  if ao_kind o =?s AuthSuccess then
    let '(e, ids) := success_event o a ids in (Some e, (a, ids))
  else if negb (canonical o) then
    (None, (set_counts (a_observed a) (add_u64 (a_auxiliary a) 1) (a_rejected a) (a_refused a)
              (a_truncated a) a, ids))
  else observe_failure o a ids.

(** The events of a sequence of observations with what caused them. *)
Fixpoint observe_all (os : list AuthObservation) (a : Auth) (ids : nat)
    : list (AuthObservation * Event) * (Auth * nat) :=
  match os with
  | [] => ([], (a, ids))
  | o :: os =>
      let '(e, (a, ids)) := Observe o a ids in
      let '(es, r) := observe_all os a ids in
      (match e with Some e => (o, e) :: es | None => es end, r)
  end.
End Runtime.

(** ** [StatsAt] *)

Record AuthStats := mkAuthStats {
  as_canonical : Z; as_auxiliary : Z; as_rejected_sources : Z; as_rejected_failures : Z;
  as_truncations : Z; as_entries : Z; as_capacity : Z; as_entry_limit : Z; as_sources : Z;
  as_source_limit : Z; as_saturated : bool; as_incomplete_until : time; as_complete : bool }.

Definition StatsAt (now : time) (a : Auth) : AuthStats :=
  mkAuthStats (a_observed a) (a_auxiliary a) (a_rejected a) (a_refused a) (a_truncated a)
    (a_entries a) (a_capacity a) (a_entry_limit a) (Z.of_nat (size (a_failures a)))
    maxAuthSources
    ((a_entry_limit a <=? a_capacity a) || (maxAuthSources <=? Z.of_nat (size (a_failures a))))
    (a_incomplete_until a) (negb (before now (a_incomplete_until a))).

(** ** Instants and stamps *)

Lemma stamp_split t :
  t - unix_epoch = second * unix_sec t + nanos_of_second t /\ 0 <= nanos_of_second t < second.
Proof.
  unfold unix_sec, nanos_of_second.
  assert (Hm : t mod second = (t - unix_epoch) mod second).
  { unfold unix_epoch. rewrite Zminus_mod, Z.mod_mul by (vm_compute; discriminate).
    rewrite Z.sub_0_r, Z.mod_mod by (vm_compute; discriminate). done. }
  rewrite Hm. pose proof (Z.div_mod (t - unix_epoch) second ltac:(vm_compute; discriminate)).
  pose proof (Z.mod_pos_bound (t - unix_epoch) second ltac:(vm_compute; reflexivity)). lia.
Qed.

Lemma stamp_before_spec s t : stamp_before (compactAuthTime s) t = (s <? t).
Proof.
  unfold stamp_before, compactAuthTime. simpl.
  destruct (stamp_split s) as [Es Hs], (stamp_split t) as [Et Ht].
  apply eq_iff_eq_true. rewrite orb_true_iff, andb_true_iff, !Z.ltb_lt, Z.eqb_eq.
  unfold second in *. lia.
Qed.

Lemma stamp_after_spec s t : stamp_after (compactAuthTime s) t = (t <? s).
Proof.
  unfold stamp_after, compactAuthTime. simpl.
  destruct (stamp_split s) as [Es Hs], (stamp_split t) as [Et Ht].
  apply eq_iff_eq_true. rewrite orb_true_iff, andb_true_iff, !Z.ltb_lt, Z.eqb_eq.
  unfold second in *. lia.
Qed.

#[global] Instance compactAuthTime_inj : Inj eq eq compactAuthTime.
Proof.
  intros s t [= Hs Hn]. destruct (stamp_split s) as [Es _], (stamp_split t) as [Et _].
  rewrite Hs, Hn, <- Et in Es. lia.
Qed.

(** ** Invariant: bounded and accounted slices *)

Definition items_total (m : gmap string stamps) : Z := map_sum (fun _ s => lenZ (sl_items s)) m.
Definition cap_total (m : gmap string stamps) : Z := map_sum (fun _ s => sl_cap s) m.

Definition slice_ok (s : stamps) : Prop :=
  lenZ (sl_items s) <= sl_cap s /\ sl_cap s <= maxFailuresPerAuthSource.

Record auth_inv (a : Auth) : Prop := {
  ai_slices : map_Forall (fun _ s => slice_ok s) (a_failures a);
  ai_entries : a_entries a = items_total (a_failures a);
  ai_capacity : a_capacity a = cap_total (a_failures a);
  ai_limit : a_capacity a <= a_entry_limit a;
  ai_sources : Z.of_nat (size (a_failures a)) <= maxAuthSources;
  ai_seen : dom (a_last_seen a) = dom (a_failures a);
  ai_alerts : dom (a_last_alert a) ⊆ dom (a_failures a) }.

(** Counters, marks and the time of the last sweep do not matter to it. *)
Definition same_slices (a a' : Auth) : Prop :=
  a_config a' = a_config a /\ a_failures a' = a_failures a /\ a_last_alert a' = a_last_alert a /\
  a_last_seen a' = a_last_seen a /\ a_entries a' = a_entries a /\ a_capacity a' = a_capacity a /\
  a_entry_limit a' = a_entry_limit a.

(** What the history of failures and alerts is about. *)
Definition same_view (a a' : Auth) : Prop :=
  a_config a' = a_config a /\ a_failures a' = a_failures a /\ a_last_alert a' = a_last_alert a /\
  a_last_seen a' = a_last_seen a.

Lemma same_slices_view a a' : same_slices a a' -> same_view a a'.
Proof. unfold same_slices, same_view. tauto. Qed.

Lemma auth_inv_same a a' : same_slices a a' -> auth_inv a -> auth_inv a'.
Proof.
  intros (E0 & E1 & E2 & E3 & E4 & E5 & E6) [].
  constructor; rewrite ?E1, ?E2, ?E3, ?E4, ?E5, ?E6; auto.
Qed.

Lemma markIncomplete_same t a : same_slices a (markIncomplete t a).
Proof. unfold markIncomplete. cbv zeta. case_if; by repeat split. Qed.

Lemma refuse_same t a : same_slices a (refuse t a).
Proof. unfold refuse, markIncomplete. cbv zeta. case_if; by repeat split. Qed.

#[local] Hint Resolve markIncomplete_same refuse_same : rampart.

Lemma failures_ok source a : auth_inv a -> slice_ok (failures_of source a).
Proof.
  intros []. unfold failures_of. destruct (a_failures a !! source) eqn:E; simpl.
  - by apply (ai_slices0 source).
  - done.
Qed.

Lemma lenZ_filter {A} (P : A -> Prop) `{!forall x, Decision (P x)} l : lenZ (filter P l) <= lenZ l.
Proof. unfold lenZ. apply Nat2Z.inj_le, length_filter. Qed.

(** What [trim] keeps. *)
Definition kept_items (cutoff : time) (s : stamps) : list authTimestamp :=
  filter (fun at' => stamp_before at' cutoff = false) (sl_items s).

Lemma trim_spec source cutoff a :
  let '(kept, a') := trim source cutoff a in
  sl_items kept = kept_items cutoff (failures_of source a) /\
  (slice_ok (failures_of source a) -> slice_ok kept /\ sl_cap kept <= sl_cap (failures_of source a)) /\
  kept = failures_of source a' /\
  a_config a' = a_config a /\ a_last_alert a' = a_last_alert a /\
  a_last_seen a' = a_last_seen a /\ a_entry_limit a' = a_entry_limit a /\
  a_incomplete_until a' = a_incomplete_until a /\
  (forall s, s <> source -> a_failures a' !! s = a_failures a !! s) /\
  (a_failures a' !! source = None <-> a_failures a !! source = None).
Proof.
  unfold trim. fold (kept_items cutoff (failures_of source a)).
  set (kept := kept_items cutoff (failures_of source a)).
  assert (Hle : lenZ kept <= lenZ (sl_items (failures_of source a))) by apply lenZ_filter.
  pose proof (lenZ_nonneg kept) as Hk.
  destruct ((lenZ kept =? 0) || (lenZ kept * 2 <? sl_cap (failures_of source a))) eqn:E; cbv beta iota zeta;
    (split_and!; simpl; auto;
     [unfold slice_ok; simpl; lia
     |unfold failures_of; simpl; case_bool_decide as Hb;
        [by rewrite lookup_insert_eq|]
     |intros s Hs; case_bool_decide; [by rewrite lookup_insert_ne|done]
     |case_bool_decide; [rewrite lookup_insert_eq; naive_solver|done]]).
  all: destruct (a_failures a !! source) eqn:Ea; [discriminate Hb|]; simpl.
  all: unfold kept, kept_items, failures_of; rewrite Ea; done.
Qed.

Lemma trim_inv source cutoff a : auth_inv a -> auth_inv (snd (trim source cutoff a)).
Proof.
  intros Hi. pose proof (failures_ok source a Hi) as Hok.
  unfold trim. fold (kept_items cutoff (failures_of source a)).
  set (kept := kept_items cutoff (failures_of source a)).
  assert (Hle : lenZ kept <= lenZ (sl_items (failures_of source a))) by apply lenZ_filter.
  pose proof (lenZ_nonneg kept) as Hk. destruct Hok as [Hok1 Hok2].
  assert (Hgen : forall cap capacity,
    lenZ kept <= cap <= sl_cap (failures_of source a) ->
    capacity = a_capacity a - (sl_cap (failures_of source a) - cap) ->
    auth_inv (set_failures
      (if bool_decide (a_failures a !! source <> None)
       then <[source := mkStamps kept cap]> (a_failures a) else a_failures a)
      (a_entries a - (lenZ (sl_items (failures_of source a)) - lenZ kept)) capacity a)).
  { intros cap capacity Hcap ->. destruct Hi.
    unfold failures_of in *. case_bool_decide as Hb.
    - destruct (a_failures a !! source) as [s|] eqn:Ea; [|by exfalso]. simpl in *.
      constructor; simpl; auto.
      + apply map_Forall_insert_2; [|done]. unfold slice_ok. simpl. lia.
      + unfold items_total. rewrite (map_sum_insert _ _ _ _ _ Ea). simpl.
        unfold items_total in ai_entries0. lia.
      + unfold cap_total. rewrite (map_sum_insert _ _ _ _ _ Ea). simpl.
        unfold cap_total in ai_capacity0. lia.
      + lia.
      + by rewrite map_size_insert_Some by eauto.
      + by rewrite (dom_insert_present _ _ _ _ Ea).
      + by rewrite (dom_insert_present _ _ _ _ Ea).
    - destruct (a_failures a !! source) as [s|] eqn:Ea; [discriminate Hb|]. simpl in *.
      assert (Hk0 : lenZ kept = 0) by (change (lenZ (@nil authTimestamp)) with 0 in *; lia).
      rewrite Hk0. change (lenZ (@nil authTimestamp)) with 0.
      constructor; simpl; auto; lia. }
  destruct ((lenZ kept =? 0) || _) eqn:E; cbv beta iota; apply Hgen; lia.
Qed.

Lemma trim_same source cutoff a :
  let a' := snd (trim source cutoff a) in
  a_config a' = a_config a /\ a_last_alert a' = a_last_alert a /\ a_last_seen a' = a_last_seen a /\
  a_entry_limit a' = a_entry_limit a /\ a_incomplete_until a' = a_incomplete_until a.
Proof.
  pose proof (trim_spec source cutoff a) as H.
  destruct (trim source cutoff a) as [kept a']. simpl. tauto.
Qed.

Lemma prune_source_inv now a entry : auth_inv a -> auth_inv (prune_source now a entry).
Proof.
  destruct entry as [source seen]. intros Hi. unfold prune_source.
  case_if; [|by apply trim_inv]. pose proof (failures_ok source a Hi) as [Hok1 Hok2].
  pose proof (lenZ_nonneg (sl_items (failures_of source a))) as Hn.
  destruct Hi. unfold failures_of in *.
  constructor; simpl; auto.
  - by apply map_Forall_delete.
  - destruct (a_failures a !! source) as [s|] eqn:Es; simpl.
    + unfold items_total in *. rewrite ai_entries0, (map_sum_delete _ _ _ _ Es). lia.
    + rewrite delete_id by done. change (lenZ (@nil authTimestamp)) with 0. lia.
  - destruct (a_failures a !! source) as [s|] eqn:Es; simpl.
    + unfold cap_total in *. rewrite ai_capacity0, (map_sum_delete _ _ _ _ Es). lia.
    + rewrite delete_id by done. lia.
  - lia.
  - pose proof (map_subseteq_size _ _ (delete_subseteq (a_failures a) source)). lia.
  - by rewrite !dom_delete_L, ai_seen0.
  - rewrite !dom_delete_L. by apply difference_mono_r.
Qed.

Lemma auth_prune_inv now a : auth_inv a -> auth_inv (prune now a).
Proof.
  intros Hi. unfold prune. eapply auth_inv_same with (foldl _ _ _); [by repeat split|].
  apply (foldl_preserves auth_inv); [|done]. intros a' entry. apply prune_source_inv.
Qed.

Lemma pruneIfDue_inv now a : auth_inv a -> auth_inv (pruneIfDue now a).
Proof. intros Hi. unfold pruneIfDue. case_if; [by apply auth_prune_inv|done]. Qed.

(** Sweeps keep the configuration and the limits. *)
Lemma prune_config now a :
  a_config (prune now a) = a_config a /\ a_entry_limit (prune now a) = a_entry_limit a /\
  a_incomplete_until (prune now a) = a_incomplete_until a.
Proof.
  unfold prune. simpl.
  apply (foldl_preserves (fun a' => a_config a' = a_config a /\ a_entry_limit a' = a_entry_limit a /\
    a_incomplete_until a' = a_incomplete_until a)); [|done].
  intros a' [source seen] (H1 & H2 & H3). unfold prune_source. case_if; [done|].
  pose proof (trim_same source (time_add now (- ac_window (a_config a'))) a') as Ht.
  simpl in Ht. destruct Ht as (-> & _ & _ & -> & ->). done.
Qed.

Lemma pruneIfDue_config now a :
  a_config (pruneIfDue now a) = a_config a /\ a_entry_limit (pruneIfDue now a) = a_entry_limit a /\
  a_incomplete_until (pruneIfDue now a) = a_incomplete_until a.
Proof. unfold pruneIfDue. case_if; [apply prune_config|done]. Qed.

Lemma admit_source_inv source now a :
  auth_inv a ->
  let '(ok, a') := admit_source source now a in
  auth_inv a' /\ (ok = true -> a_failures a' !! source = None ->
    Z.of_nat (size (a_failures a')) < maxAuthSources).
Proof.
  intros Hi. unfold admit_source. pose proof (pruneIfDue_inv now a Hi) as Hp.
  case_if; bool_to_prop.
  - case_if; bool_to_prop; [|by split].
    split; [|discriminate]. eapply auth_inv_same; [apply refuse_same|].
    eapply auth_inv_same; [|exact Hp]. by repeat split.
  - split; [done|]. intros _ Hnone. rewrite bool_decide_true in E by done. simpl in E.
    bool_to_prop. done.
Qed.

(** Recording a slice for a source. *)
Lemma store_inv source kept now entries capacity a :
  auth_inv a -> slice_ok kept -> 
  (a_failures a !! source = None -> Z.of_nat (size (a_failures a)) < maxAuthSources) ->
  entries = a_entries a + lenZ (sl_items kept) - lenZ (sl_items (failures_of source a)) ->
  capacity = a_capacity a + sl_cap kept - sl_cap (failures_of source a) ->
  capacity <= a_entry_limit a ->
  auth_inv (set_seen (<[source := now]> (a_last_seen a))
    (set_failures (<[source := kept]> (a_failures a)) entries capacity a)).
Proof.
  intros Hi Hk Hsize -> -> Hcap. destruct Hi. unfold failures_of in *.
  constructor; simpl; auto.
  - by apply map_Forall_insert_2.
  - destruct (a_failures a !! source) as [s|] eqn:Es; simpl; unfold items_total in *.
    + rewrite (map_sum_insert _ _ _ _ _ Es). lia.
    + rewrite (map_sum_insert_None _ _ _ _ Es). change (lenZ (@nil authTimestamp)) with 0. lia.
  - destruct (a_failures a !! source) as [s|] eqn:Es; simpl; unfold cap_total in *.
    + rewrite (map_sum_insert _ _ _ _ _ Es). lia.
    + rewrite (map_sum_insert_None _ _ _ _ Es). lia.
  - destruct (a_failures a !! source) as [s|] eqn:Es.
    + by rewrite map_size_insert_Some by eauto.
    + rewrite map_size_insert_None by done. specialize (Hsize eq_refl). lia.
  - by rewrite !dom_insert_L, ai_seen0.
  - rewrite dom_insert_L. etransitivity; [done|apply union_subseteq_r].
Qed.

Lemma trim_dom source cutoff a : dom (a_failures (snd (trim source cutoff a))) = dom (a_failures a).
Proof.
  pose proof (trim_spec source cutoff a) as H. destruct (trim source cutoff a) as [kept a'].
  destruct H as (_ & _ & _ & _ & _ & _ & _ & _ & Hother & Hsame). simpl.
  apply set_eq. intros s. rewrite !elem_of_dom, <- !not_eq_None_Some.
  destruct (decide (s = source)) as [->|Hne]; [by rewrite Hsame|by rewrite Hother].
Qed.

Lemma pruneIfDue_dom now a : dom (a_failures (pruneIfDue now a)) ⊆ dom (a_failures a).
Proof.
  unfold pruneIfDue. case_if; [|done]. unfold prune. simpl.
  apply (foldl_preserves (fun a' => dom (a_failures a') ⊆ dom (a_failures a))); [|done].
  intros a' [source seen] Ha. unfold prune_source. case_if.
  - simpl. rewrite dom_delete_L. etransitivity; [apply subseteq_difference_l|]; done.
  - by rewrite trim_dom.
Qed.

(** A sweep only drops stamps. *)
Lemma trim_items source source' cutoff a :
  sublist (sl_items (failures_of source (snd (trim source' cutoff a))))
    (sl_items (failures_of source a)).
Proof.
  pose proof (trim_spec source' cutoff a) as H. destruct (trim source' cutoff a) as [kept a'].
  destruct H as (Hk & _ & Hf & _ & _ & _ & _ & _ & Hother & _). simpl.
  destruct (decide (source = source')) as [->|Hne].
  - rewrite <- Hf, Hk. apply sublist_filter.
  - unfold failures_of. by rewrite Hother.
Qed.

Lemma pruneIfDue_items source now a :
  sublist (sl_items (failures_of source (pruneIfDue now a))) (sl_items (failures_of source a)).
Proof.
  unfold pruneIfDue. case_if; [|done]. unfold prune. unfold failures_of at 1. simpl.
  fold (failures_of source (foldl (prune_source now) a (map_to_list (a_last_seen a)))).
  apply (foldl_preserves (fun a' => sublist (sl_items (failures_of source a'))
    (sl_items (failures_of source a)))); [|done].
  intros a' [s seen] Ha. unfold prune_source. case_if.
  - unfold failures_of at 1. simpl. destruct (decide (source = s)) as [->|Hne].
    + rewrite lookup_delete_eq. simpl. apply sublist_nil_l.
    + by rewrite lookup_delete_ne.
  - etransitivity; [apply trim_items|done].
Qed.

Lemma sublist_lenZ {A} (l1 l2 : list A) : sublist l1 l2 -> lenZ l1 <= lenZ l2.
Proof. intros H. unfold lenZ. apply sublist_length in H. lia. Qed.

Lemma pruneIfDue_room source now a :
  Z.of_nat (size (a_failures a)) <= maxAuthSources ->
  (a_failures a !! source = None -> Z.of_nat (size (a_failures a)) < maxAuthSources) ->
  a_failures (pruneIfDue now a) !! source = None ->
  Z.of_nat (size (a_failures (pruneIfDue now a))) < maxAuthSources.
Proof.
  intros Hall Hroom Hnone. pose proof (pruneIfDue_dom now a) as Hsub.
  rewrite <- !size_dom in *. apply not_elem_of_dom in Hnone.
  destruct (a_failures a !! source) as [s|] eqn:Es.
  - apply elem_of_dom_2 in Es.
    assert (Hs : (size ({[source]} ∪ dom (a_failures (pruneIfDue now a))) <= size (dom (a_failures a)))%nat).
    { apply subseteq_size, union_subseteq. split; [by apply singleton_subseteq_l|done]. }
    rewrite size_union, size_singleton in Hs by (by apply disjoint_singleton_l). lia.
  - specialize (Hroom eq_refl). apply subseteq_size in Hsub. lia.
Qed.

(** What [grow] and the append do to a slice that is stored. *)
Lemma grow_store_inv source now a b :
  auth_inv a -> slice_ok b -> sl_cap b = sl_cap (failures_of source a) ->
  (a_failures a !! source = None -> Z.of_nat (size (a_failures a)) < maxAuthSources) ->
  forall d, d = lenZ (sl_items b) - lenZ (sl_items (failures_of source a)) ->
  lenZ (sl_items b) < maxFailuresPerAuthSource ->
  match grow b (set_failures (a_failures a) (a_entries a + d) (a_capacity a) a) with
  | None => True
  | Some (kept, a') =>
      auth_inv (set_seen (<[source := now]> (a_last_seen a'))
        (set_failures (<[source := mkStamps (sl_items kept ++ [compactAuthTime now]) (sl_cap kept)]>
           (a_failures a')) (a_entries a' + 1) (a_capacity a') a'))
  end.
Proof.
  intros Hi [Hb1 Hb2] Hcap Hroom d -> Hlen. unfold grow. simpl.
  pose proof (lenZ_nonneg (sl_items b)) as Hn.
  assert (Hone : forall l : list authTimestamp, lenZ (l ++ [compactAuthTime now]) = lenZ l + 1)
    by (intros; rewrite lenZ_app; done).
  destruct (lenZ (sl_items b) =? sl_cap b) eqn:Efull.
  - destruct (a_entry_limit a - a_capacity a <=? 0) eqn:Eav; [done|]. bool_to_prop. simpl.
    apply (store_inv source _ now _ _ a); simpl; rewrite ?Hone; auto; try lia.
    unfold slice_ok. simpl. rewrite Hone. unfold maxFailuresPerAuthSource in *. lia.
  - bool_to_prop. simpl. pose proof (ai_limit _ Hi).
    apply (store_inv source _ now _ _ a); simpl; rewrite ?Hone; auto; try lia.
    unfold slice_ok. simpl. rewrite Hone. lia.
Qed.

(** A full source: the slice is full too, so that the append reuses it. *)
Lemma truncate_inv now source kept a :
  auth_inv a -> kept = failures_of source a -> maxFailuresPerAuthSource <= lenZ (sl_items kept) ->
  exists a1, auth_inv a1 /\ same_slices a a1 /\
    a_incomplete_until a1 = a_incomplete_until (markIncomplete now a) /\
    truncate now kept a =
      (mkStamps (tail (sl_items kept)) (sl_cap kept),
       set_failures (a_failures a1) (a_entries a1 + -1) (a_capacity a1) a1) /\
    lenZ (tail (sl_items kept)) = lenZ (sl_items kept) - 1 /\
    sl_cap kept = maxFailuresPerAuthSource /\
    lenZ (sl_items kept) = maxFailuresPerAuthSource.
Proof.
  intros Hi Hk Hlen. pose proof (failures_ok source a Hi) as [Hok1 Hok2]. rewrite <- Hk in *.
  set (a0 := set_counts (a_observed a) (a_auxiliary a) (a_rejected a) (a_refused a)
               (bump_u64 (a_truncated a)) a).
  exists (markIncomplete now a0).
  assert (Hs : same_slices a (markIncomplete now a0)).
  { unfold markIncomplete. cbv zeta. case_if; by repeat split. }
  split; [by eapply auth_inv_same|]. split; [done|].
  split; [unfold markIncomplete; cbv zeta; simpl; by case_if|].
  unfold truncate. rewrite (proj2 (Z.leb_le _ _) Hlen). split.
  - f_equal. unfold markIncomplete, a0. cbv zeta. simpl. by case_if.
  - split; [|lia]. destruct (sl_items kept); [vm_compute in Hlen; by exfalso|].
    simpl. rewrite lenZ_cons. lia.
Qed.

Lemma trim_room source cutoff a :
  (a_failures a !! source = None -> Z.of_nat (size (a_failures a)) < maxAuthSources) ->
  a_failures (snd (trim source cutoff a)) !! source = None ->
  Z.of_nat (size (a_failures (snd (trim source cutoff a)))) < maxAuthSources.
Proof.
  intros Hroom Hnone. rewrite <- size_dom, trim_dom, size_dom. apply Hroom.
  pose proof (trim_spec source cutoff a) as H. destruct (trim source cutoff a) as [kept a'].
  simpl in Hnone. tauto.
Qed.

Lemma record_failure_inv source now a :
  auth_inv a ->
  (a_failures a !! source = None -> Z.of_nat (size (a_failures a)) < maxAuthSources) ->
  auth_inv (snd (record_failure source now a)).
Proof.
  intros Hi Hroom. unfold record_failure.
  pose proof (trim_spec source (time_add now (- ac_window (a_config a))) a) as Ht.
  pose proof (trim_inv source (time_add now (- ac_window (a_config a))) a Hi) as Hi1.
  pose proof (trim_room source (time_add now (- ac_window (a_config a))) a Hroom) as Hroom1.
  destruct (trim source _ a) as [kept a1]. cbn [snd] in *.
  destruct Ht as (_ & _ & Hkept & _).
  assert (Hfin : forall a2 d b, auth_inv a2 -> slice_ok b -> sl_cap b = sl_cap (failures_of source a2) ->
    (a_failures a2 !! source = None -> Z.of_nat (size (a_failures a2)) < maxAuthSources) ->
    d = lenZ (sl_items b) - lenZ (sl_items (failures_of source a2)) ->
    lenZ (sl_items b) < maxFailuresPerAuthSource ->
    forall a3, a3 = set_failures (a_failures a2) (a_entries a2 + d) (a_capacity a2) a2 ->
    (d = 0 \/ lenZ (sl_items b) <> sl_cap b) ->
    auth_inv (snd (match grow b a3 with
      | None => (None, refuse now a3)
      | Some (kept, a) =>
          let kept := mkStamps (sl_items kept ++ [compactAuthTime now]) (sl_cap kept) in
          (Some kept, set_seen (<[source := now]> (a_last_seen a))
            (set_failures (<[source := kept]> (a_failures a)) (a_entries a + 1) (a_capacity a) a))
      end))).
  { intros a2 d b Ha2 Hb Hcap Hr Hd Hlen a3 -> Hfull.
    pose proof (grow_store_inv source now a2 b Ha2 Hb Hcap Hr d Hd Hlen) as Hg.
    destruct (grow b _) as [[k a4]|] eqn:Eg; [exact Hg|]. simpl.
    destruct Hfull as [->|Hne].
    - eapply auth_inv_same; [apply refuse_same|]. eapply auth_inv_same; [|exact Ha2].
      repeat split; simpl; lia.
    - exfalso. unfold grow in Eg. rewrite (proj2 (Z.eqb_neq _ _) Hne) in Eg. discriminate. }
  destruct (decide (maxFailuresPerAuthSource <= lenZ (sl_items kept))) as [Hfull|Hroomy].
  - destruct (truncate_inv now source kept a1 Hi1 Hkept Hfull)
      as (a2 & Hi2 & (E0 & E1 & E2 & E3 & E4 & E5 & E6) & _ & -> & Htl & Hcap & Hlen).
    cbn [sl_items sl_cap].
    rewrite Htl, Hlen, Hcap, (proj2 (Z.eqb_neq _ _)) by (vm_compute; discriminate).
    simpl andb. cbv iota.
    assert (Hf2 : failures_of source a2 = kept) by (unfold failures_of in *; by rewrite E1, Hkept).
    assert (Hsl : slice_ok (mkStamps (tail (sl_items kept)) maxFailuresPerAuthSource)).
    { unfold slice_ok. simpl. rewrite Htl, Hlen. unfold maxFailuresPerAuthSource. lia. }
    apply (Hfin a2 (-1)); simpl; rewrite ?Hf2, ?E1, ?Htl, ?Hlen, ?Hcap; auto; try lia;
      unfold maxFailuresPerAuthSource; lia.
  - unfold truncate. rewrite (proj2 (Z.leb_gt _ _)) by lia.
    set (go := (lenZ (sl_items kept) =? sl_cap kept) && _).
    assert (H2 : let '(b, a2) := if go then let a := pruneIfDue now a1 in (failures_of source a, a)
                                 else (kept, a1) in
      b = failures_of source a2 /\ auth_inv a2 /\
      (a_failures a2 !! source = None -> Z.of_nat (size (a_failures a2)) < maxAuthSources) /\
      lenZ (sl_items b) < maxFailuresPerAuthSource).
    { destruct go; [|split_and!; auto; lia]. cbv zeta. split; [done|].
      split; [by apply pruneIfDue_inv|]. split; [apply pruneIfDue_room; [apply Hi1|done]|].
      eapply Z.le_lt_trans; [apply sublist_lenZ, pruneIfDue_items|]. rewrite <- Hkept. lia. }
    destruct (if go then _ else _) as [b a2]. destruct H2 as (Hb & Hi2 & Hr2 & Hl2).
    apply (Hfin a2 0); rewrite <- ?Hb; auto; try lia.
    + rewrite Hb. by apply failures_ok.
    + destruct a2. unfold set_failures. simpl. by rewrite Z.add_0_r.
Qed.

(** ** Coverage: what the slices say of the history

    [hist] are the canonical failures so far, as source and time; [alerts] the
    alerts; [last] bounds the times of both.  The slices hold, for every window
    that starts at a [c] that the incompleteness mark and the sweeps have not
    reached, exactly the failures of the history from [c] on. *)

Definition times_of (source : string) (hist : list (string * time)) : list time :=
  (filter (fun p => p.1 = source) hist).*2.

Definition from (c : time) (l : list time) : list time := filter (fun t => c <= t) l.
Definition stamps_from (c : time) (l : list authTimestamp) : list authTimestamp :=
  filter (fun s => stamp_before s c = false) l.

Lemma stamps_from_compact c l : stamps_from c (compactAuthTime <$> l) = compactAuthTime <$> from c l.
Proof.
  unfold stamps_from, from. induction l as [|t l IH]; [done|].
  rewrite fmap_cons, !filter_cons, stamp_before_spec.
  destruct (decide (c <= t)); [rewrite decide_True by lia|rewrite decide_False by lia];
    rewrite ?fmap_cons, IH; done.
Qed.

Lemma from_from c c' l : c <= c' -> from c' (from c l) = from c' l.
Proof. intros Hc. unfold from. apply list_filter_filter_l. intros t Ht. lia. Qed.

Lemma from_nil c l : Forall (fun t => t < c) l -> from c l = [].
Proof.
  unfold from. induction 1 as [|t l Ht _ IH]; [done|]. by rewrite filter_cons_False by lia.
Qed.

Lemma from_app c l1 l2 : from c (l1 ++ l2) = from c l1 ++ from c l2.
Proof. apply filter_app. Qed.

Lemma times_of_app s h1 h2 : times_of s (h1 ++ h2) = times_of s h1 ++ times_of s h2.
Proof. unfold times_of. by rewrite filter_app, fmap_app. Qed.

Lemma times_of_Forall (P : time -> Prop) s hist :
  Forall (fun p => P p.2) hist -> Forall P (times_of s hist).
Proof.
  intros H. unfold times_of. apply Forall_fmap, Forall_forall.
  intros p [_ Hp]%list_elem_of_filter. rewrite Forall_forall in H. by apply H.
Qed.

Section Coverage.
Context (cfg : AuthConfig) (Hwin : 0 <= ac_window cfg) (Hcool : 0 <= ac_cooldown cfg).

Definition source_ok (until last : time) (hist : list (string * time)) (s : string)
    (items : list authTimestamp) (seen : option time) : Prop :=
  exists ts, items = compactAuthTime <$> ts /\ sublist ts (times_of s hist) /\
    Forall (fun t => exists u : time, seen = Some u /\ t <= u) ts /\
    forall c, until <= c + ac_window cfg -> last <= c + ac_window cfg ->
      from c ts = from c (times_of s hist).

Lemma source_ok_trim until last hist s items seen cutoff :
  cutoff <= last - ac_window cfg -> source_ok until last hist s items seen ->
  source_ok until last hist s (stamps_from cutoff items) seen.
Proof.
  intros Hc (ts & -> & Hsub & Hseen & Hcov). exists (from cutoff ts).
  split; [apply stamps_from_compact|]. split; [etransitivity; [apply sublist_filter|done]|].
  split; [by apply Forall_filter|]. intros c Hu Hl. rewrite from_from by lia. by apply Hcov.
Qed.

Lemma source_ok_delete until last hist s items u :
  u < last - ac_window cfg - ac_cooldown cfg -> source_ok until last hist s items (Some u) ->
  source_ok until last hist s [] None.
Proof.
  intros Hu (ts & -> & Hsub & Hseen & Hcov). exists []. split_and!;
    [done|apply sublist_nil_l|constructor|]. intros c Hc Hl. rewrite <- Hcov by done.
  rewrite (from_nil c ts); [done|]. eapply Forall_impl; [exact Hseen|].
  intros t (u' & [= ->] & Ht). lia.
Qed.

Lemma source_ok_mono until until' last last' hist s items seen :
  until <= until' -> last <= last' -> source_ok until last hist s items seen ->
  source_ok until' last' hist s items seen.
Proof.
  intros Hu Hl (ts & -> & Hsub & Hseen & Hcov). exists ts. split_and!; auto.
  intros c Hc Hlast. apply Hcov; lia.
Qed.

(** After a loss at [now], nothing is claimed of windows that reach it. *)
Lemma source_ok_lost until last hist s ts seen :
  last + ac_window cfg < until -> sublist ts (times_of s hist) ->
  Forall (fun t => exists u : time, seen = Some u /\ t <= u) ts -> Forall (fun p => p.2 <= last) hist ->
  source_ok until last hist s (compactAuthTime <$> ts) seen.
Proof.
  intros Hu Hsub Hseen Hh. exists ts. split_and!; auto. intros c Hc _.
  apply (times_of_Forall (fun t => t <= last) s) in Hh.
  assert (Hlt : Forall (fun t => t < c) (times_of s hist))
    by (eapply Forall_impl; [exact Hh|]; simpl; intros; lia).
  rewrite !from_nil; [done|done|]. apply Forall_forall. intros t Ht.
  rewrite Forall_forall in Hlt. apply Hlt. by eapply elem_of_sublist.
Qed.

Lemma source_ok_accept until now hist s items seen :
  (forall u, seen = Some u -> u <= now) -> source_ok until now hist s items seen ->
  source_ok until now (hist ++ [(s, now)]) s (items ++ [compactAuthTime now]) (Some now).
Proof.
  intros Hseen (ts & -> & Hsub & Hts & Hcov). exists (ts ++ [now]).
  assert (Hnow : times_of s [(s, now)] = [now])
    by (unfold times_of; by rewrite filter_cons_True).
  rewrite times_of_app, Hnow, fmap_app. split; [done|].
  split; [by apply sublist_app|]. split.
  - apply Forall_app. split; [|repeat constructor; eauto with lia].
    eapply Forall_impl; [exact Hts|]. intros t (u & Hu & Ht). exists now.
    specialize (Hseen u Hu). split; [done|lia].
  - intros c Hc Hl. by rewrite !from_app, Hcov.
Qed.

Lemma source_ok_other until last hist s s' t items seen :
  s <> s' -> source_ok until last hist s items seen ->
  source_ok until last (hist ++ [(s', t)]) s items seen.
Proof.
  intros Hne (ts & -> & Hsub & Hts & Hcov). exists ts.
  assert (Hno : times_of s [(s', t)] = [])
    by (unfold times_of; by rewrite filter_cons_False by (simpl; congruence)).
  by rewrite times_of_app, Hno, app_nil_r.
Qed.

(** The whole detector. *)
Record coverage (hist alerts : list (string * time)) (last : time) (a : Auth) : Prop := {
  cv_config : a_config a = cfg;
  cv_hist : Forall (fun p => p.2 <= last) hist;
  cv_seen : map_Forall (fun _ (u : time) => u <= last) (a_last_seen a);
  cv_source : forall s, source_ok (a_incomplete_until a) last hist s
                (sl_items (failures_of s a)) (a_last_seen a !! s);
  cv_alerts : forall s (t : time), (s, t) ∈ alerts ->
    t + ac_cooldown cfg <= last \/ exists la : time, a_last_alert a !! s = Some la /\ t <= la;
  cv_last_alert : map_Forall (fun s (la : time) => (s, la) ∈ alerts /\
    exists u : time, a_last_seen a !! s = Some u /\ la <= u) (a_last_alert a) }.

Lemma coverage_same hist alerts last a a' :
  same_view a a' -> a_incomplete_until a <= a_incomplete_until a' ->
  coverage hist alerts last a -> coverage hist alerts last a'.
Proof.
  intros (E0 & E1 & E2 & E3) Hu [].
  constructor; rewrite ?E0, ?E2, ?E3; auto.
  intros s. unfold failures_of in *. rewrite E1. eapply source_ok_mono; [exact Hu| |apply cv_source0].
  lia.
Qed.

Lemma coverage_later hist alerts last now a :
  last <= now -> coverage hist alerts last a -> coverage hist alerts now a.
Proof.
  intros Hl []. constructor; auto.
  - eapply Forall_impl; [exact cv_hist0|]. simpl. intros. lia.
  - eapply map_Forall_impl; [exact cv_seen0|]. simpl. intros. lia.
  - intros s. eapply source_ok_mono; [|exact Hl|apply cv_source0]. lia.
  - intros s t Hin. destruct (cv_alerts0 s t Hin) as [|]; [left; lia|by right].
Qed.

Lemma coverage_trim hist alerts last source cutoff a :
  cutoff <= last - ac_window cfg -> coverage hist alerts last a ->
  coverage hist alerts last (snd (trim source cutoff a)).
Proof.
  intros Hc []. pose proof (trim_spec source cutoff a) as H.
  destruct (trim source cutoff a) as [kept a']. simpl.
  destruct H as (Hk & _ & Hf & E0 & E2 & E3 & _ & E5 & Hother & _).
  constructor; rewrite ?E0, ?E2, ?E3, ?E5; auto.
  intros s. destruct (decide (s = source)) as [->|Hne].
  - rewrite <- Hf, Hk. by apply source_ok_trim.
  - unfold failures_of. rewrite Hother by done. apply cv_source0.
Qed.

Lemma coverage_prune_source hist alerts now entry a :
  a_last_seen a !! entry.1 = Some entry.2 -> coverage hist alerts now a ->
  coverage hist alerts now (prune_source now a entry).
Proof.
  destruct entry as [source seen]. simpl. intros Hs Hc. unfold prune_source.
  rewrite (cv_config _ _ _ _ Hc).
  case_if; [|apply coverage_trim; [unfold time_add; lia|done]].
  apply before_spec in E. unfold time_add in E. destruct Hc. constructor; simpl; auto.
  - by apply map_Forall_delete.
  - intros s. unfold failures_of. simpl. destruct (decide (s = source)) as [->|Hne].
    + rewrite !lookup_delete_eq. simpl. pose proof (cv_source0 source) as Hsrc. rewrite Hs in Hsrc.
      eapply source_ok_delete; [|exact Hsrc]. lia.
    + rewrite !lookup_delete_ne by done. apply cv_source0.
  - intros s t Hin. destruct (cv_alerts0 s t Hin) as [|(la & Hla & Ht)]; [by left|].
    destruct (decide (s = source)) as [->|Hne]; [left|right].
    + destruct (cv_last_alert0 _ _ Hla) as (_ & u & Hu & Hlau). rewrite Hs in Hu.
      injection Hu as <-. lia.
    + exists la. by rewrite lookup_delete_ne.
  - intros s la [Hne Hla]%lookup_delete_Some. destruct (cv_last_alert0 s la Hla) as (? & u & Hu & ?).
    split; [done|]. exists u. by rewrite lookup_delete_ne.
Qed.

Lemma coverage_prune hist alerts now a :
  coverage hist alerts now a -> coverage hist alerts now (prune now a).
Proof.
  intros Hc. unfold prune.
  apply coverage_same with (foldl (prune_source now) a (map_to_list (a_last_seen a)));
    [by repeat split|simpl; lia|].
  assert (Hgen : forall entries b, NoDup entries.*1 ->
    (forall source seen, (source, seen) ∈ entries -> a_last_seen b !! source = Some seen) ->
    coverage hist alerts now b -> coverage hist alerts now (foldl (prune_source now) b entries)).
  { induction entries as [|[source seen] entries IH]; intros b Hnd Hin Hb; [done|].
    simpl in Hnd. apply NoDup_cons in Hnd as [Hnotin Hnd]. simpl. apply IH; [done| |].
    - intros s' seen' Hs'. pose proof (Hin s' seen' ltac:(by right)) as E.
      assert (Hne : s' <> source).
      { intros ->. apply Hnotin. apply list_elem_of_fmap. by exists (source, seen'). }
      unfold prune_source. case_if; [simpl; by rewrite lookup_delete_ne|].
      pose proof (trim_same source (time_add now (- ac_window (a_config b))) b) as Ht.
      simpl in Ht. destruct Ht as (_ & _ & -> & _). done.
    - apply (coverage_prune_source hist alerts now (source, seen) b); [|done].
      apply Hin. left. }
  apply Hgen; [apply NoDup_fst_map_to_list| |done].
  intros source seen Hs. by apply elem_of_map_to_list in Hs.
Qed.

Lemma coverage_pruneIfDue hist alerts now a :
  coverage hist alerts now a -> coverage hist alerts now (pruneIfDue now a).
Proof. intros Hc. unfold pruneIfDue. case_if; [by apply coverage_prune|done]. Qed.

(** A failure that is not recorded at all. *)
Lemma coverage_lost hist alerts now source a a' :
  same_view a a' -> a_incomplete_until a <= a_incomplete_until a' ->
  now + ac_window cfg < a_incomplete_until a' ->
  coverage hist alerts now a -> coverage (hist ++ [(source, now)]) alerts now a'.
Proof.
  intros (E0 & E1 & E2 & E3) Hu Hnow []. constructor; rewrite ?E0, ?E2, ?E3; auto.
  - apply Forall_app. split; [done|]. repeat constructor. simpl. lia.
  - intros s. unfold failures_of. rewrite E1. destruct (cv_source0 s) as (ts & Hts & Hsub & Hseen & _).
    unfold failures_of in Hts. rewrite Hts.
    apply source_ok_lost; [done| |done|].
    + rewrite times_of_app. by apply sublist_inserts_r.
    + apply Forall_app. split; [done|]. repeat constructor. simpl. lia.
Qed.

(** A failure that is recorded in a slice. *)
Lemma coverage_store hist alerts now source items cap entries capacity a :
  coverage hist alerts now a ->
  source_ok (a_incomplete_until a) now (hist ++ [(source, now)]) source items (Some now) ->
  coverage (hist ++ [(source, now)]) alerts now
    (set_seen (<[source := now]> (a_last_seen a))
      (set_failures (<[source := mkStamps items cap]> (a_failures a)) entries capacity a)).
Proof.
  intros [] Hok. constructor; simpl; auto.
  - apply Forall_app. split; [done|]. repeat constructor. simpl. lia.
  - apply map_Forall_insert_2; [lia|done].
  - intros s. unfold failures_of. simpl. destruct (decide (s = source)) as [->|Hne].
    + by rewrite !lookup_insert_eq.
    + rewrite !lookup_insert_ne by done. by apply source_ok_other.
  - intros s la Hla. destruct (cv_last_alert0 s la Hla) as (Hin & u & Hu & Hle).
    split; [done|]. destruct (decide (s = source)) as [->|Hne].
    + exists now. rewrite lookup_insert_eq. split; [done|]. specialize (cv_seen0 _ _ Hu).
      simpl in cv_seen0. lia.
    + exists u. by rewrite lookup_insert_ne.
Qed.

Lemma markIncomplete_until t a :
  a_config a = cfg ->
  a_incomplete_until a <= a_incomplete_until (markIncomplete t a) /\
  t + ac_window cfg < a_incomplete_until (markIncomplete t a).
Proof.
  intros <-. unfold markIncomplete, after, time_add, nanosecond. cbv zeta.
  case_if; bool_to_prop; simpl; lia.
Qed.

Lemma source_ok_truncated until now hist s items seen :
  (forall u, seen = Some u -> u <= now) -> now + ac_window cfg < until ->
  Forall (fun p => p.2 <= now) hist ->
  (exists until', source_ok until' now hist s items seen) ->
  source_ok until now (hist ++ [(s, now)]) s (tail items ++ [compactAuthTime now]) (Some now).
Proof.
  intros Hseen Hu Hh (until' & ts & -> & Hsub & Hts & _).
  assert (Hnow : times_of s [(s, now)] = [now])
    by (unfold times_of; by rewrite filter_cons_True).
  assert (Htl : sublist (tail ts) ts) by (destruct ts; [done|by apply sublist_cons]).
  replace (tail (compactAuthTime <$> ts) ++ [compactAuthTime now])
    with (compactAuthTime <$> tail ts ++ [now]) by (rewrite fmap_app; by destruct ts).
  apply source_ok_lost; [done| | |].
  - rewrite times_of_app, Hnow. apply sublist_app; [by etransitivity|done].
  - apply Forall_app. split; [|repeat constructor; exists now; split; [done|lia]].
    apply Forall_forall. intros t Ht. rewrite Forall_forall in Hts.
    destruct (Hts t) as (u & Hu' & Hle); [by eapply elem_of_sublist|].
    exists now. specialize (Hseen u Hu'). split; [done|lia].
  - apply Forall_app. split; [done|]. repeat constructor. simpl. lia.
Qed.

(** The stamps of a slice that lie in the window. *)
Lemma stamps_from_all c l l' :
  sublist l l' -> stamps_from c l' = l' -> stamps_from c l = l.
Proof.
  intros Hsub Hl'. unfold stamps_from in *.
  assert (Hall : Forall (fun x => stamp_before x c = false) l).
  { apply Forall_forall. intros x Hx. assert (Hin : x ∈ l') by (by eapply elem_of_sublist).
    rewrite <- Hl' in Hin. by apply list_elem_of_filter in Hin as [? _]. }
  clear Hsub Hl'. induction Hall as [|x l Hx _ IH]; [done|].
  rewrite filter_cons_True by done. by rewrite IH.
Qed.

Lemma stamps_from_idem c l : stamps_from c (stamps_from c l) = stamps_from c l.
Proof. unfold stamps_from. by apply list_filter_filter_l. Qed.

Lemma stamps_from_snoc now l :
  stamps_from (now - ac_window cfg) l = l ->
  stamps_from (now - ac_window cfg) (l ++ [compactAuthTime now]) = l ++ [compactAuthTime now].
Proof.
  intros Hl. unfold stamps_from in *. rewrite filter_app, Hl. f_equal.
  rewrite filter_cons_True; [done|]. rewrite stamp_before_spec. lia.
Qed.

Lemma grow_items b a kept a' : grow b a = Some (kept, a') ->
  sl_items kept = sl_items b /\ a_last_seen a' = a_last_seen a /\ a_failures a' = a_failures a /\
  a' = set_failures (a_failures a) (a_entries a) (a_capacity a') a.
Proof.
  unfold grow. case_if; [case_if; [discriminate|]|]; intros [= <- <-]; [done|].
  split_and!; [done..|]. by destruct a.
Qed.

Lemma record_failure_coverage hist alerts source now a :
  auth_inv a -> coverage hist alerts now a ->
  let '(r, a') := record_failure source now a in
  coverage (hist ++ [(source, now)]) alerts now a' /\
  match r with
  | None => now + ac_window cfg < a_incomplete_until a'
  | Some kept => kept = failures_of source a' /\ a_last_seen a' !! source = Some now /\
      stamps_from (now - ac_window cfg) (sl_items kept) = sl_items kept
  end.
Proof.
  intros Hi Hc. unfold record_failure. rewrite (cv_config _ _ _ _ Hc).
  set (cutoff := time_add now (- ac_window cfg)).
  assert (Hcut : cutoff = now - ac_window cfg) by (unfold cutoff, time_add; lia).
  pose proof (trim_spec source cutoff a) as Ht.
  pose proof (trim_inv source cutoff a Hi) as Hi1.
  pose proof (coverage_trim hist alerts now source cutoff a ltac:(lia) Hc) as Hc1.
  destruct (trim source cutoff a) as [kept a1]. cbn [snd] in *.
  destruct Ht as (Hitems & _ & Hkept & _).
  assert (Hin : stamps_from cutoff (sl_items kept) = sl_items kept)
    by (rewrite Hitems; apply stamps_from_idem).
  rewrite Hcut in Hin. clear Hitems.
  destruct (decide (maxFailuresPerAuthSource <= lenZ (sl_items kept))) as [Hfull|Hroomy].
  - destruct (truncate_inv now source kept a1 Hi1 Hkept Hfull)
      as (a2 & Hi2 & Hsame & Huntil & -> & Htl & Hcap & Hlen).
    destruct (markIncomplete_until now a1 (cv_config _ _ _ _ Hc1)) as [Hu1 Hu2].
    rewrite <- Huntil in Hu1, Hu2.
    pose proof (coverage_same _ _ _ a1 a2 (same_slices_view _ _ Hsame) Hu1 Hc1) as Hc2.
    cbn [sl_items sl_cap].
    rewrite Htl, Hlen, Hcap, (proj2 (Z.eqb_neq _ _)) by (vm_compute; discriminate).
    simpl andb. cbv iota. unfold grow at 1. cbn [sl_items sl_cap].
    rewrite Htl, Hlen, (proj2 (Z.eqb_neq _ _)) by (vm_compute; discriminate). cbn [sl_items sl_cap].
    split.
    + apply (coverage_store _ _ _ _ _ _ _ _ _ Hc2).
      apply (source_ok_truncated _ _ _ _ _ (a_last_seen a1 !! source)); [|done|apply Hc1|].
      * intros u Hu. by apply (cv_seen _ _ _ _ Hc1 source).
      * exists (a_incomplete_until a1). rewrite Hkept. apply Hc1.
    + split; [unfold failures_of; simpl; by rewrite lookup_insert_eq|].
      split; [apply lookup_insert_eq|]. apply stamps_from_snoc. eapply stamps_from_all; [|exact Hin].
      destruct (sl_items kept); [done|by apply sublist_cons].
  - unfold truncate. rewrite (proj2 (Z.leb_gt _ _)) by lia.
    set (go := (lenZ (sl_items kept) =? sl_cap kept) && _).
    assert (H2 : let '(b, a2) := if go then let a := pruneIfDue now a1 in (failures_of source a, a)
                                 else (kept, a1) in
      b = failures_of source a2 /\ coverage hist alerts now a2 /\
      stamps_from (now - ac_window cfg) (sl_items b) = sl_items b).
    { destruct go; [|by split_and!]. cbv zeta. split; [done|].
      split; [by apply coverage_pruneIfDue|].
      eapply stamps_from_all; [apply pruneIfDue_items|]. by rewrite <- Hkept. }
    destruct (if go then _ else _) as [b a2]. destruct H2 as (Hb & Hc2 & Hin2).
    destruct (grow b a2) as [[k a3]|] eqn:Eg.
    + apply grow_items in Eg as (Hk & Hs3 & Hf3 & Ha3).
      assert (Hc3 : coverage hist alerts now a3)
        by (eapply coverage_same; [| |exact Hc2]; rewrite Ha3; [done|simpl; lia]).
      assert (Hb3 : sl_items k = sl_items (failures_of source a3))
        by (unfold failures_of in *; rewrite Hf3, <- Hb; exact Hk).
      split.
      * apply (coverage_store _ _ _ _ _ _ _ _ _ Hc3). rewrite Hb3.
        apply (source_ok_accept _ _ _ _ _ (a_last_seen a3 !! source)); [|apply Hc3].
        intros u Hu. by apply (cv_seen _ _ _ _ Hc3 source).
      * split; [unfold failures_of; simpl; by rewrite lookup_insert_eq|].
        split; [apply lookup_insert_eq|]. apply stamps_from_snoc. by rewrite Hk.
    + pose proof (markIncomplete_until now
        (set_counts (a_observed a2) (a_auxiliary a2) (a_rejected a2) (bump_u64 (a_refused a2))
           (a_truncated a2) a2) (cv_config _ _ _ _ Hc2)) as [Hu1 Hu2].
      split; [|exact Hu2].
      eapply coverage_lost; [apply same_slices_view, refuse_same|exact Hu1|exact Hu2|exact Hc2].
Qed.

Lemma admit_source_coverage hist alerts source now a :
  coverage hist alerts now a ->
  let '(ok, a') := admit_source source now a in
  if ok then coverage hist alerts now a'
  else coverage (hist ++ [(source, now)]) alerts now a' /\ now + ac_window cfg < a_incomplete_until a'.
Proof.
  intros Hc. unfold admit_source. case_if; [|done].
  pose proof (coverage_pruneIfDue _ _ _ _ Hc) as Hp. case_if; [|done].
  set (b := set_counts _ _ _ _ _ (pruneIfDue now a)).
  pose proof (markIncomplete_until now
    (set_counts (a_observed b) (a_auxiliary b) (a_rejected b) (bump_u64 (a_refused b))
       (a_truncated b) b) (cv_config _ _ _ _ Hp)) as [Hu1 Hu2].
  split; [|exact Hu2].
  apply (coverage_lost _ _ _ _ (pruneIfDue now a)); [|exact Hu1|exact Hu2|exact Hp].
  unfold refuse, markIncomplete, same_view. cbv zeta. case_if; by repeat split.
Qed.

Lemma sublist_from c l k : sublist l k -> sublist (from c l) (from c k).
Proof.
  unfold from. induction 1 as [|x l k _ IH|x l k _ IH]; rewrite ?filter_cons; [done|..];
    case_decide; auto using sublist.
Qed.

(** An alert is recorded. *)
Lemma coverage_alert hist alerts now source a :
  a_last_seen a !! source = Some now -> coverage hist alerts now a ->
  coverage hist (alerts ++ [(source, now)]) now
    (set_alerts (<[source := now]> (a_last_alert a)) a).
Proof.
  intros Hseen []. constructor; simpl; auto.
  - intros s t [Hin|Hin]%elem_of_app.
    + destruct (decide (s = source)) as [->|Hne].
      * destruct (cv_alerts0 source t Hin) as [|(la & Hla & Ht)]; [by left|right].
        exists now. rewrite lookup_insert_eq. split; [done|].
        destruct (cv_last_alert0 _ _ Hla) as (_ & u & Hu & Hle).
        specialize (cv_seen0 _ _ Hu). simpl in cv_seen0. lia.
      * rewrite lookup_insert_ne by done. by apply cv_alerts0.
    + apply list_elem_of_singleton in Hin as [= -> ->]. right. exists now.
      by rewrite lookup_insert_eq.
  - intros s la Hla. destruct (decide (s = source)) as [->|Hne].
    + rewrite lookup_insert_eq in Hla. injection Hla as <-.
      split; [apply elem_of_app; right; by apply list_elem_of_singleton|]. exists now. by split.
    + rewrite lookup_insert_ne in Hla by done. destruct (cv_last_alert0 s la Hla) as [Hin Hu].
      split; [apply elem_of_app; by left|done].
Qed.

Lemma coverage_alert_sources hist alerts now a a' :
  same_view a a' -> a_incomplete_until a = a_incomplete_until a' ->
  coverage hist alerts now a -> coverage hist alerts now a'.
Proof. intros Hs Hu. apply coverage_same; [done|lia]. Qed.

(** The failures of a source in the window that ends now. *)
Definition in_window (source : string) (now : time) (hist : list (string * time)) : Z :=
  lenZ (from (now - ac_window cfg) (times_of source hist)).

(** No alert of a source in the last cooldown. *)
Definition cooled (source : string) (now : time) (alerts : list (string * time)) : Prop :=
  forall t, (source, t) ∈ alerts -> t + ac_cooldown cfg <= now.

Section Runtime.
Context `{GoRuntime}.

Lemma observe_failure_spec hist alerts last o a ids :
  is_i64 (ac_cooldown cfg) -> auth_inv a -> coverage hist alerts last a -> last <= ao_at o ->
  let source := addr_string (ao_source o) in
  let now := ao_at o in
  let hist' := hist ++ [(source, now)] in
  let '(r, (a', _)) := observe_failure o a ids in
  auth_inv a' /\
  coverage hist' (alerts ++ (if r is Some _ then [(source, now)] else [])) now a' /\
  match r with
  | Some e =>
      ev_kind e = "ssh_brute_force"%string /\ ev_source_ip e = source /\
      ac_threshold cfg <= ev_count e <= in_window source now hist' /\
      (a_incomplete_until a' <= now -> ev_count e = in_window source now hist') /\
      ev_evidence e !! "detection_window_complete"%string =
        Some (fmt_bool (negb (before now (a_incomplete_until a')))) /\
      cooled source now alerts
  | None =>
      a_incomplete_until a' <= now -> ac_threshold cfg <= in_window source now hist' ->
      ac_cooldown cfg <= now -> ~ cooled source now alerts
  end.
Proof.
  intros Hcd Hi Hc Hlast source now hist'. unfold observe_failure.
  fold source. fold now. cbv zeta.
  set (a1 := set_counts _ _ _ _ _ a).
  assert (Hi1 : auth_inv a1) by (eapply auth_inv_same; [|exact Hi]; by repeat split).
  assert (Hc1 : coverage hist alerts now a1).
  { apply (coverage_same _ _ _ a); [by repeat split|reflexivity|].
    by eapply coverage_later. }
  set (a2 := if _ =? 0 then prune now a1 else a1).
  assert (Hi2 : auth_inv a2) by (unfold a2; case_if; [by apply auth_prune_inv|done]).
  assert (Hc2 : coverage hist alerts now a2) by (unfold a2; case_if; [by apply coverage_prune|done]).
  clearbody a2. clear a1 Hi1 Hc1.
  pose proof (admit_source_inv source now a2 Hi2) as Hadm.
  pose proof (admit_source_coverage hist alerts source now a2 Hc2) as Hadmc.
  destruct (admit_source source now a2) as [[] a3].
  2:{ destruct Hadm as [Hi3 _], Hadmc as [Hc3 Hu]. split; [done|].
      rewrite app_nil_r. split; [done|]. intros. lia. }
  destruct Hadm as [Hi3 Hroom]. specialize (Hroom eq_refl).
  pose proof (record_failure_inv source now a3 Hi3 Hroom) as Hi4.
  pose proof (record_failure_coverage hist alerts source now a3 Hi3 Hadmc) as Hrec.
  destruct (record_failure source now a3) as [[kept|] a4]; cbn [snd] in Hi4.
  2:{ destruct Hrec as [Hc4 Hu]. split; [done|]. rewrite app_nil_r. split; [done|]. intros. lia. }
  destruct Hrec as (Hc4 & -> & Hseen & Hin). fold hist' in Hc4.
  rewrite (cv_config _ _ _ _ Hc4).
  (* the count against the history *)
  destruct (cv_source _ _ _ _ Hc4 source) as (ts & Hts & Hsub & _ & Hcov).
  assert (Hfrom : from (now - ac_window cfg) ts = ts).
  { rewrite Hts, stamps_from_compact in Hin. by apply (inj (fmap compactAuthTime)) in Hin. }
  set (count := lenZ (sl_items (failures_of source a4))).
  assert (Hcount : count = lenZ ts) by (unfold count; rewrite Hts; unfold lenZ; by rewrite length_fmap).
  assert (Hle : count <= in_window source now hist').
  { unfold in_window. rewrite Hcount, <- Hfrom. apply sublist_lenZ. by apply sublist_from. }
  assert (Hexact : a_incomplete_until a4 <= now -> count = in_window source now hist').
  { intros Hu. unfold in_window. rewrite Hcount, <- Hfrom, Hcov by lia. done. }
  assert (Hlate : (time_sub now (default time_zero (a_last_alert a4 !! source)) <? ac_cooldown cfg) = false
                  <-> (a_last_alert a4 !! source = None -> ac_cooldown cfg <= now) /\
                      (forall la, a_last_alert a4 !! source = Some la -> la + ac_cooldown cfg <= now)).
  { rewrite Z.ltb_ge, time_sub_le by done.
    destruct (a_last_alert a4 !! source) as [la|]; simpl; unfold time_zero;
      (split; [intros [?|?]; (split; intros; simplify_eq; unfold i64_min in *; lia)
              |intros [? ?]; left]).
    - specialize (H1 la eq_refl). lia.
    - specialize (H0 eq_refl). lia. }
  destruct ((count <? ac_threshold cfg) || (time_sub now _ <? ac_cooldown cfg)) eqn:E.
  - split; [done|]. rewrite app_nil_r. split; [done|]. intros Hu Hthr Hnow Hcool'.
    rewrite <- (Hexact Hu) in Hthr. apply orb_true_iff in E as [E|E]; [bool_to_prop; lia|].
    apply not_false_iff_true in E. apply E. apply Hlate. split; [done|].
    intros la Hla. apply Hcool'. by apply (cv_last_alert _ _ _ _ Hc4 source).
  - apply orb_false_iff in E as [E1 E2]. apply Z.ltb_ge in E1. cbn.
    split; [|split; [by apply coverage_alert|]].
    + destruct Hi4. constructor; simpl; auto. rewrite dom_insert_L.
      apply union_subseteq. split; [|done]. apply singleton_subseteq_l. rewrite <- ai_seen0.
      by eapply elem_of_dom_2.
    + split; [done|]. split; [done|]. split; [done|]. split; [done|].
      split; [by vm_compute|]. intros t Ht.
      destruct (cv_alerts _ _ _ _ Hc4 source t Ht) as [|(la & Hla & Hta)]; [done|].
      apply Hlate in E2 as [_ E2]. specialize (E2 la Hla). lia.
Qed.
End Runtime.
End Coverage.

(** ** Histories *)

Definition attempt_of (o : AuthObservation) : string * time := (addr_string (ao_source o), ao_at o).
Definition attempts (os : list AuthObservation) : list (string * time) :=
  attempt_of <$> filter (fun o => canonical o = true) os.

Definition is_alert (oe : AuthObservation * Event) : Prop :=
  ev_kind oe.2 = "ssh_brute_force"%string.
#[global] Instance is_alert_dec oe : Decision (is_alert oe).
Proof. unfold is_alert. apply _. Defined.
Definition alerts_of (es : list (AuthObservation * Event)) : list (string * time) :=
  (fun oe => attempt_of oe.1) <$> filter is_alert es.

Lemma attempts_app os1 os2 : attempts (os1 ++ os2) = attempts os1 ++ attempts os2.
Proof. unfold attempts. by rewrite filter_app, fmap_app. Qed.

Lemma attempts_one o : attempts [o] = if canonical o then [attempt_of o] else [].
Proof.
  unfold attempts. destruct (canonical o) eqn:E;
    [by rewrite filter_cons_True|by rewrite filter_cons_False by congruence].
Qed.

Lemma alerts_of_one o e : alerts_of [(o, e)] = if decide (is_alert (o, e)) then [attempt_of o] else [].
Proof.
  unfold alerts_of. case_decide; [by rewrite filter_cons_True|by rewrite filter_cons_False].
Qed.

Lemma alerts_of_app es1 es2 : alerts_of (es1 ++ es2) = alerts_of es1 ++ alerts_of es2.
Proof. unfold alerts_of. by rewrite filter_app, fmap_app. Qed.

Lemma canonical_kind o : canonical o = true -> (ao_kind o =?s AuthSuccess) = false.
Proof.
  unfold canonical. intros Hc. bool_to_prop. apply String.eqb_eq in H. by rewrite H.
Qed.

Section Histories.
Context `{GoRuntime}.
Context (cfg : AuthConfig) (Hvalid : auth_config_valid cfg = true).

Lemma valid_window : 0 <= ac_window cfg.
Proof. unfold auth_config_valid in Hvalid. bool_to_prop. zlia. Qed.
Lemma valid_cooldown : 0 <= ac_cooldown cfg /\ is_i64 (ac_cooldown cfg).
Proof. unfold auth_config_valid in Hvalid. bool_to_prop. zlia. Qed.

Lemma Observe_coverage hist alerts last o a ids :
  auth_inv a -> coverage cfg hist alerts last a -> last <= ao_at o ->
  let '(r, (a', _)) := Observe o a ids in
  let es := if r is Some e then [(o, e)] else [] in
  auth_inv a' /\ coverage cfg (hist ++ attempts [o]) (alerts ++ alerts_of es) (ao_at o) a'.
Proof.
  intros Hi Hc Hlast. unfold Observe.
  destruct (ao_kind o =?s AuthSuccess) eqn:Ek.
  - assert (Hn : canonical o = false).
    { destruct (canonical o) eqn:Ec; [|done]. apply canonical_kind in Ec. congruence. }
    destruct (success_event o a ids) as [e ids'] eqn:Ee. cbv zeta.
    assert (Hk : ~ is_alert (o, e)) by (injection Ee as <- _; discriminate).
    rewrite attempts_one, alerts_of_one, Hn, decide_False, !app_nil_r by done.
    split; [done|by eapply coverage_later].
  - destruct (canonical o) eqn:Ec; simpl negb; cbv iota; rewrite attempts_one, Ec.
    + pose proof (observe_failure_spec cfg valid_window (proj1 valid_cooldown) hist alerts last o a
        ids (proj2 valid_cooldown) Hi Hc Hlast) as Hs.
      destruct (observe_failure o a ids) as [r [a' ids']]. destruct Hs as (Hi' & Hc' & Hr).
      split; [done|]. destruct r as [e|]; [|done]. destruct Hr as [He _].
      rewrite alerts_of_one, decide_True by done. done.
    + split; [eapply auth_inv_same; [|exact Hi]; by repeat split|]. rewrite !app_nil_r.
      apply (coverage_same _ _ _ _ a); [by repeat split|reflexivity|].
      by eapply coverage_later.
Qed.

Lemma observe_all_coverage os : forall hist alerts last a ids,
  auth_inv a -> coverage cfg hist alerts last a ->
  StronglySorted Z.le (last :: (ao_at <$> os)) ->
  let '(es, (a', _)) := observe_all os a ids in
  auth_inv a' /\
  exists last', coverage cfg (hist ++ attempts os) (alerts ++ alerts_of es) last' a' /\
    last' ∈ last :: (ao_at <$> os).
Proof.
  induction os as [|o os IH]; intros hist alerts last a ids Hi Hc Hs; simpl.
  { split; [done|]. exists last. unfold attempts, alerts_of. cbn. rewrite !app_nil_r.
    split; [done|left]. }
  apply StronglySorted_inv in Hs as [Hs Hall]. apply Forall_cons in Hall as [Hlast _].
  pose proof (Observe_coverage hist alerts last o a ids Hi Hc Hlast) as Ho.
  destruct (Observe o a ids) as [r [a1 ids1]]. destruct Ho as [Hi1 Hc1].
  specialize (IH _ _ _ a1 ids1 Hi1 Hc1 Hs).
  destruct (observe_all os a1 ids1) as [es [a' ids']]. destruct IH as (Hi' & last' & Hc' & Hin).
  split; [done|]. exists last'. split; [|by right].
  rewrite <- !app_assoc, <- attempts_app, <- alerts_of_app in Hc'. by destruct r.
Qed.

Lemma observe_all_snoc os o : forall a ids,
  observe_all (os ++ [o]) a ids =
    (fst (observe_all os a ids) ++
       (if fst (Observe o (fst (snd (observe_all os a ids))) (snd (snd (observe_all os a ids)))) is Some e
        then [(o, e)] else []),
     snd (Observe o (fst (snd (observe_all os a ids))) (snd (snd (observe_all os a ids))))).
Proof.
  induction os as [|o1 os IH]; intros a ids; simpl.
  { by destruct (Observe o a ids) as [[e|] [a1 ids1]]. }
  destruct (Observe o1 a ids) as [[e|] [a1 ids1]]; rewrite IH;
    destruct (observe_all os a1 ids1) as [es [a2 ids2]]; done.
Qed.

Lemma NewAuth_inv : auth_inv (NewAuth cfg).
Proof. constructor; simpl; try done; rewrite ?map_size_empty; done. Qed.

Lemma NewAuth_coverage last : coverage cfg [] [] last (NewAuth cfg).
Proof.
  constructor; simpl; try done; try constructor.
  - intros s. exists []. split_and!; done || constructor.
  - by apply elem_of_nil in H0.
Qed.

(** A sorted history, up to the observation that is next. *)
Lemma history_coverage os o ids :
  StronglySorted Z.le (ao_at <$> os ++ [o]) ->
  let '(es, (a, _)) := observe_all os (NewAuth cfg) ids in
  auth_inv a /\ exists last, coverage cfg (attempts os) (alerts_of es) last a /\ last <= ao_at o.
Proof.
  intros Hs. rewrite fmap_app in Hs. simpl in Hs.
  set (last0 := default (ao_at o) (head (ao_at <$> os))).
  assert (Hs0 : StronglySorted Z.le (last0 :: (ao_at <$> os)) /\
                Forall (fun t => t <= ao_at o) (last0 :: (ao_at <$> os))).
  { apply StronglySorted_app in Hs as (Hle & Hs & _). unfold last0.
    assert (Hall : Forall (fun t => t <= ao_at o) (ao_at <$> os)).
    { apply Forall_forall. intros t Ht. apply Hle; [done|]. by apply list_elem_of_singleton. }
    destruct os as [|o1 os]; simpl in *; [by repeat constructor|].
    split; [|by apply Forall_cons in Hall as [? ?]; repeat constructor].
    constructor; [done|]. constructor; [lia|]. by apply StronglySorted_inv in Hs as [_ ?]. }
  destruct Hs0 as [Hs0 Hall].
  pose proof (observe_all_coverage os [] [] last0 (NewAuth cfg) ids NewAuth_inv
    (NewAuth_coverage last0) Hs0) as Ho.
  destruct (observe_all os (NewAuth cfg) ids) as [es [a ids']].
  destruct Ho as (Hi & last & Hc & Hin). split; [done|]. exists last. split; [done|].
  rewrite Forall_forall in Hall. by apply Hall.
Qed.
End Histories.

(** ** Boundedness needs no order of the observations *)

Section Bounded.
Context `{GoRuntime}.

Lemma record_failure_seen source now a :
  let '(r, a') := record_failure source now a in
  r = None \/ a_last_seen a' !! source = Some now.
Proof.
  unfold record_failure. destruct (trim source _ a) as [k1 a1].
  destruct (truncate now k1 a1) as [k2 a2].
  destruct (if _ && _ then _ else (k2, a2)) as [k3 a3].
  destruct (grow k3 a3) as [[k4 a4]|]; [right|by left]. simpl. apply lookup_insert_eq.
Qed.

Lemma observe_failure_inv o a ids :
  auth_inv a -> auth_inv (fst (snd (observe_failure o a ids))).
Proof.
  intros Hi. unfold observe_failure. cbv zeta.
  set (source := addr_string (ao_source o)). set (now := ao_at o).
  set (a1 := set_counts _ _ _ _ _ a).
  assert (Hi1 : auth_inv a1) by (eapply auth_inv_same; [|exact Hi]; by repeat split).
  set (a2 := if _ =? 0 then prune now a1 else a1).
  assert (Hi2 : auth_inv a2) by (unfold a2; case_if; [by apply auth_prune_inv|done]).
  pose proof (admit_source_inv source now a2 Hi2) as Hadm.
  destruct (admit_source source now a2) as [[] a3]; [|by destruct Hadm].
  destruct Hadm as [Hi3 Hroom].
  pose proof (record_failure_inv source now a3 Hi3 (Hroom eq_refl)) as Hi4.
  pose proof (record_failure_seen source now a3) as Hseen.
  destruct (record_failure source now a3) as [[kept|] a4]; cbn [snd] in Hi4; [|done].
  destruct Hseen as [|Hseen]; [discriminate|].
  case_if; [done|]. simpl. destruct Hi4. constructor; simpl; auto.
  rewrite dom_insert_L. apply union_subseteq. split; [|done].
  apply singleton_subseteq_l. rewrite <- ai_seen0. by eapply elem_of_dom_2.
Qed.

Lemma auth_Observe_inv o a ids : auth_inv a -> auth_inv (fst (snd (Observe o a ids))).
Proof.
  intros Hi. unfold Observe. case_if; [done|].
  destruct (negb (canonical o)); [|by apply observe_failure_inv].
  eapply auth_inv_same; [|exact Hi]. by repeat split.
Qed.

Lemma observe_all_inv os : forall a ids,
  auth_inv a -> auth_inv (fst (snd (observe_all os a ids))).
Proof.
  induction os as [|o os IH]; intros a ids Hi; simpl; [done|].
  pose proof (auth_Observe_inv o a ids Hi) as H1. destruct (Observe o a ids) as [r [a1 ids1]].
  specialize (IH a1 ids1 H1). by destruct (observe_all os a1 ids1).
Qed.
End Bounded.

Lemma window_stamps c now ts :
  Forall (fun t => t <= now) ts ->
  filter (fun s => stamp_before s c = false /\ stamp_after s now = false) (compactAuthTime <$> ts)
  = compactAuthTime <$> from c ts.
Proof.
  unfold from. induction 1 as [|t ts Ht _ IH]; [done|].
  rewrite fmap_cons, !filter_cons, stamp_before_spec, stamp_after_spec, IH.
  destruct (decide (c <= t)); [rewrite decide_True by lia|rewrite decide_False by lia]; done.
Qed.

(** ** Properties *)

Section Properties.
Context `{GoRuntime}.

(** Whatever is observed, in whatever order, memory stays bounded and
    accounted for: [entries] and [capacity] are exactly the stamps held and the
    slots allocated, the slots are within the limit shared by all sources, no
    source holds more than 4096 and there are at most 65536 sources. *)
Theorem auth_bounded cfg os ids :
  let a := fst (snd (observe_all os (NewAuth cfg) ids)) in
  a_entries a = items_total (a_failures a) /\ a_capacity a = cap_total (a_failures a) /\
  a_entries a <= a_capacity a <= a_entry_limit a /\
  Z.of_nat (size (a_failures a)) <= maxAuthSources /\
  map_Forall (fun _ s => lenZ (sl_items s) <= sl_cap s <= maxFailuresPerAuthSource) (a_failures a).
Proof.
  intros a. assert (Hi : auth_inv a) by (apply observe_all_inv, (NewAuth_inv cfg)).
  destruct Hi. split_and!; auto.
  rewrite ai_entries0, ai_capacity0. unfold items_total, cap_total, map_sum.
  apply sumZ_le. apply Forall2_fmap, Forall_Forall2_diag, Forall_forall.
  intros [s x] Hin%elem_of_map_to_list. simpl. by apply (ai_slices0 s).
Qed.

(** C12. A brute-force alert is sound, and exact when the detector says that
    its window is complete: the failures that it counts are at least the
    threshold, never more than the canonical failures of that source in the
    window, and exactly those when [detection_window_complete] is true. *)
Theorem brute_force_exact cfg os o ids e :
  auth_config_valid cfg = true -> StronglySorted Z.le (ao_at <$> os ++ [o]) ->
  let '(_, (a, ids)) := observe_all os (NewAuth cfg) ids in
  fst (Observe o a ids) = Some e -> ev_kind e = "ssh_brute_force"%string ->
  let real := in_window cfg (addr_string (ao_source o)) (ao_at o) (attempts (os ++ [o])) in
  ev_source_ip e = addr_string (ao_source o) /\
  ac_threshold cfg <= ev_count e <= real /\
  (ev_evidence e !! "detection_window_complete"%string = Some "true"%string -> ev_count e = real).
Proof.
  intros Hv Hs. pose proof (history_coverage cfg Hv os o ids Hs) as Hh.
  destruct (observe_all os (NewAuth cfg) ids) as [es [a ids']].
  destruct Hh as (Hi & last & Hc & Hlast). intros Hr Hk. cbv zeta.
  unfold Observe in Hr. destruct (ao_kind o =?s AuthSuccess).
  { injection Hr as <-. discriminate Hk. }
  destruct (canonical o) eqn:Ec; simpl in Hr; [|discriminate].
  pose proof (observe_failure_spec cfg (valid_window cfg Hv) (proj1 (valid_cooldown cfg Hv))
    _ _ last o a ids' (proj2 (valid_cooldown cfg Hv)) Hi Hc Hlast) as Hspec.
  destruct (observe_failure o a ids') as [r [a' ids'']]. simpl in Hr. subst r.
  destruct Hspec as (_ & _ & _ & Hip & Hcount & Hexact & Hev & _).
  rewrite attempts_app, attempts_one, Ec. split; [done|]. split; [done|].
  rewrite Hev. intros [= Hcomplete]. apply Hexact.
  unfold before, fmt_bool in Hcomplete. destruct (ao_at o <? a_incomplete_until a') eqn:E;
    [discriminate Hcomplete|]. by apply Z.ltb_ge.
Qed.

(** No attack is missed: when the canonical failures of a source within the
    window reach the threshold, coverage is complete and that source was not
    reported within the cooldown, the failure raises an alert. *)
Theorem brute_force_not_missed cfg os o ids :
  auth_config_valid cfg = true -> StronglySorted Z.le (ao_at <$> os ++ [o]) ->
  canonical o = true -> ac_cooldown cfg <= ao_at o ->
  let '(es, (a, ids)) := observe_all os (NewAuth cfg) ids in
  let '(r, (a', _)) := Observe o a ids in
  a_incomplete_until a' <= ao_at o ->
  ac_threshold cfg
    <= in_window cfg (addr_string (ao_source o)) (ao_at o) (attempts (os ++ [o])) ->
  cooled cfg (addr_string (ao_source o)) (ao_at o) (alerts_of es) ->
  exists e, r = Some e /\ ev_kind e = "ssh_brute_force"%string.
Proof.
  intros Hv Hs Hcan Hcd. pose proof (history_coverage cfg Hv os o ids Hs) as Hh.
  destruct (observe_all os (NewAuth cfg) ids) as [es [a ids']].
  destruct Hh as (Hi & last & Hc & Hlast).
  unfold Observe. rewrite (canonical_kind o Hcan), Hcan. simpl negb. cbv iota.
  pose proof (observe_failure_spec cfg (valid_window cfg Hv) (proj1 (valid_cooldown cfg Hv))
    _ _ last o a ids' (proj2 (valid_cooldown cfg Hv)) Hi Hc Hlast) as Hspec.
  destruct (observe_failure o a ids') as [[e|] [a' ids'']]; destruct Hspec as (_ & _ & Hr).
  - intros _ _ _. exists e. by destruct Hr.
  - rewrite attempts_app, attempts_one, Hcan. intros Hu Ht Hcool. exfalso. by apply Hr.
Qed.

(** Alerts of one source are at least a cooldown apart, even when the source
    is swept in between. *)
Theorem alerts_cooldown cfg os ids :
  auth_config_valid cfg = true -> StronglySorted Z.le (ao_at <$> os) ->
  StronglySorted (fun p q => p.1 = q.1 -> p.2 + ac_cooldown cfg <= q.2)
    (alerts_of (fst (observe_all os (NewAuth cfg) ids))).
Proof.
  intros Hv. induction os as [|o os IH] using rev_ind; intros Hs; [constructor|].
  pose proof (history_coverage cfg Hv os o ids Hs) as Hh.
  assert (Hs' : StronglySorted Z.le (ao_at <$> os))
    by (rewrite fmap_app in Hs; by apply StronglySorted_app_1_l in Hs).
  specialize (IH Hs'). rewrite observe_all_snoc.
  destruct (observe_all os (NewAuth cfg) ids) as [es [a ids']].
  destruct Hh as (Hi & last & Hc & Hlast). cbn [fst snd] in *.
  unfold Observe. destruct (ao_kind o =?s AuthSuccess).
  { simpl. rewrite alerts_of_app, alerts_of_one. rewrite decide_False by discriminate.
    by rewrite app_nil_r. }
  destruct (canonical o) eqn:Ec; simpl negb; cbv iota; [|cbn; by rewrite app_nil_r].
  pose proof (observe_failure_spec cfg (valid_window cfg Hv) (proj1 (valid_cooldown cfg Hv))
    _ _ last o a ids' (proj2 (valid_cooldown cfg Hv)) Hi Hc Hlast) as Hspec.
  destruct (observe_failure o a ids') as [[e|] [a' ids'']]; cbn [fst]; [|by rewrite app_nil_r].
  destruct Hspec as (_ & _ & Hk & _ & _ & _ & _ & Hcool).
  rewrite alerts_of_app, alerts_of_one, decide_True by done.
  apply StronglySorted_app_2; [|done|repeat constructor].
  intros [s t] q Hin Hq. apply list_elem_of_singleton in Hq as ->. simpl. intros ->.
  by apply Hcool.
Qed.

(** The count of failures that a success reports is exact unless the event
    says otherwise: with complete coverage it is the number of canonical failures
    of that source in the window before the success. *)
Theorem success_prior_exact cfg os o ids :
  auth_config_valid cfg = true -> StronglySorted Z.le (ao_at <$> os ++ [o]) ->
  let '(_, (a, _)) := observe_all os (NewAuth cfg) ids in
  let source := addr_string (ao_source o) in
  lenZ (prior_failures source (ao_at o) a) <= in_window cfg source (ao_at o) (attempts os) /\
  (before (ao_at o) (a_incomplete_until a) = false ->
   lenZ (prior_failures source (ao_at o) a) = in_window cfg source (ao_at o) (attempts os)).
Proof.
  intros Hv Hs. pose proof (history_coverage cfg Hv os o ids Hs) as Hh.
  destruct (observe_all os (NewAuth cfg) ids) as [es [a ids']].
  destruct Hh as (Hi & last & Hc & Hlast). cbv zeta. set (source := addr_string _).
  pose proof (valid_window cfg Hv) as Hw.
  destruct (cv_source _ _ _ _ _ Hc source) as (ts & Hts & Hsub & _ & Hcov).
  assert (Hle : Forall (fun t => t <= ao_at o) ts).
  { apply Forall_forall. intros t Ht. eapply elem_of_sublist in Hsub; [|exact Ht].
    pose proof (times_of_Forall (fun t => t <= last) source _ (cv_hist _ _ _ _ _ Hc)) as Hall.
    rewrite Forall_forall in Hall. specialize (Hall t Hsub). simpl in Hall. lia. }
  assert (Hprior : prior_failures source (ao_at o) a =
                   compactAuthTime <$> from (ao_at o - ac_window cfg) ts).
  { unfold prior_failures. rewrite Hts, (cv_config _ _ _ _ _ Hc).
    replace (time_add (ao_at o) (- ac_window cfg)) with (ao_at o - ac_window cfg)
      by (unfold time_add; lia).
    by apply window_stamps. }
  rewrite Hprior. replace (lenZ (compactAuthTime <$> from (ao_at o - ac_window cfg) ts))
    with (lenZ (from (ao_at o - ac_window cfg) ts)) by (unfold lenZ; by rewrite length_fmap).
  unfold in_window. split; [by apply sublist_lenZ, sublist_from|].
  intros Hb. apply Z.ltb_ge in Hb. rewrite Hcov by lia. done.
Qed.
End Properties.

(** Worked observations: failures of one source, two seconds apart. *)
Definition example_auth : AuthConfig := mkAuthConfig true 3 (10 * second) (60 * second) false.
Definition example_failure (k : Z) : AuthObservation :=
  mkObservation (unix_epoch + k * second) "failure" (A4 192 0 2 7) 40000 "root" "password" true false.
Definition example_attempts : list AuthObservation := example_failure <$> [1; 3; 20; 22].

Lemma auth_bounded_witness :
  let a := fst (snd (@observe_all example_runtime example_attempts (NewAuth example_auth) 0)) in
  a_entries a = 2 /\ a_entries a <= a_capacity a <= a_entry_limit a.
Proof.
  split; [vm_compute; reflexivity|].
  exact (proj1 (proj2 (proj2 (@auth_bounded example_runtime example_auth example_attempts 0)))).
Defined.

Lemma sorted_example : StronglySorted Z.le (ao_at <$> example_attempts ++ [example_failure 24]).
Proof. repeat constructor; vm_compute; discriminate. Qed.

Lemma brute_force_exact_witness :
  let '(_, (a, ids)) := @observe_all example_runtime example_attempts (NewAuth example_auth) 0 in
  exists e, fst (@Observe example_runtime (example_failure 24) a ids) = Some e /\ ev_count e = 3.
Proof.
  pose proof (@brute_force_exact example_runtime example_auth example_attempts (example_failure 24) 0)
    as Ht.
  destruct (@observe_all example_runtime example_attempts (NewAuth example_auth) 0) as [es [a ids]] eqn:E.
  vm_compute in E. injection E as _ <- <-.
  eexists. split; [vm_compute; reflexivity|].
  eapply Ht; [vm_compute; reflexivity|apply sorted_example|vm_compute; reflexivity..].
Defined.

Lemma brute_force_not_missed_witness :
  let '(_, (a, ids)) := @observe_all example_runtime example_attempts (NewAuth example_auth) 0 in
  exists e, fst (@Observe example_runtime (example_failure 24) a ids) = Some e /\
    ev_kind e = "ssh_brute_force"%string.
Proof.
  pose proof (@brute_force_not_missed example_runtime example_auth example_attempts
    (example_failure 24) 0 ltac:(vm_compute; reflexivity) sorted_example
    ltac:(vm_compute; reflexivity) ltac:(vm_compute; discriminate)) as Ht.
  destruct (@observe_all example_runtime example_attempts (NewAuth example_auth) 0) as [es [a ids]] eqn:E.
  destruct (@Observe example_runtime (example_failure 24) a ids) as [r [a' ids']] eqn:Eo.
  vm_compute in E. injection E as <- <- <-. vm_compute in Eo. injection Eo as <- <- <-.
  apply Ht; [vm_compute; discriminate|vm_compute; discriminate|].
  intros t Hin. by apply elem_of_nil in Hin.
Defined.

Lemma alerts_cooldown_witness :
  let os := example_failure <$> [1; 2; 3; 4; 62; 63; 64] in
  let alerts := alerts_of (fst (@observe_all example_runtime os (NewAuth example_auth) 0)) in
  lenZ alerts = 2 /\
  StronglySorted (fun p q => p.1 = q.1 -> p.2 + ac_cooldown example_auth <= q.2) alerts.
Proof.
  intros os alerts. split; [vm_compute; reflexivity|].
  apply (@alerts_cooldown example_runtime example_auth os 0); [vm_compute; reflexivity|].
  repeat constructor; vm_compute; discriminate.
Defined.

Lemma success_prior_exact_witness :
  let '(_, (a, _)) := @observe_all example_runtime example_attempts (NewAuth example_auth) 0 in
  lenZ (prior_failures "192.0.2.7" (unix_epoch + 24 * second) a) = 2.
Proof.
  pose proof (@success_prior_exact example_runtime example_auth example_attempts
    (example_failure 24) 0 ltac:(vm_compute; reflexivity) sorted_example) as Ht.
  destruct (@observe_all example_runtime example_attempts (NewAuth example_auth) 0) as [es [a ids]] eqn:E.
  vm_compute in E. injection E as _ <- _.
  transitivity (in_window example_auth "192.0.2.7" (unix_epoch + 24 * second) (attempts example_attempts));
    [|vm_compute; reflexivity].
  apply Ht. vm_compute. reflexivity.
Defined.
