(* ===== verification/NetDev.v ===== *)
(** * Interface counters

    [internal/collector/netdev_set.go] and [interfaces.go]: the polling loop that
    turns the kernel's cumulative counters into deltas, one baseline per
    interface.  A step of the loop is a function of what the environment does in
    that tick: what discovery returns, what reading each interface returns,
    whether the receiver takes a delta and what the callbacks answer. *)

From S2P Require Export Protocol.

Record netCounters := mkCounters {
  nc_rx_bytes : Z; nc_rx_packets : Z; nc_tx_bytes : Z; nc_tx_packets : Z }.

Record InterfaceRef := mkRef { ref_name : string; ref_index : Z }.

Record InterfaceObservation := mkObs {
  io_name : string; io_index : Z; io_state : string; io_last_delta : time }.

Record InterfaceTotals := mkTotals {
  it_interface : string; it_at : time;
  it_rx_bytes : Z; it_tx_bytes : Z; it_rx_packets : Z; it_tx_packets : Z }.

Record netBaseline := mkBaseline {
  bl_index : Z; bl_counters : netCounters; bl_valid : bool; bl_last_delta : time }.

Definition zero_counters : netCounters := mkCounters 0 0 0 0.
Definition no_baseline : netBaseline := mkBaseline 0 zero_counters false time_zero.

(** The error of discovery: none, partial (the links are still usable) or other. *)
Inductive discovery := DComplete | DPartial | DFailed.
#[global] Instance discovery_eq_dec : EqDecision discovery.
Proof. solve_decision. Defined.

(** The places from which the loop reports its state. *)
Inductive site := AtDiscovery | AtCounters | AtInterfaces.

(** What one iteration of the loop meets. *)
Record tick := mkTick {
  tk_now : time;
  tk_cancelled : bool;                      (** [ctx.Err()] at the top *)
  tk_refs : list InterfaceRef;
  tk_discovery : discovery;
  tk_read : string -> option netCounters;
  tk_accept : string -> bool;               (** the receiver takes the delta *)
  tk_discovery_ok : bool;                   (** [OnDiscovery] returns nil *)
  tk_interfaces_ok : bool;                  (** [OnInterfaces] returns nil *)
  tk_state_ok : site -> bool }.             (** [OnState] returns nil *)

Record poll := mkPoll {
  pl_baselines : gmap string netBaseline;
  pl_reported : bool;
  pl_healthy : bool }.

Definition new_poll : poll := mkPoll ∅ false false.

(** [report]: [Some b] when [OnState] is called, with an error unless [b]. *)
Definition report (ok : bool) (s : site) (t : tick) (p : poll) : list bool * poll :=
  if negb (pl_reported p) || negb (eqb (pl_healthy p) ok) then
    if tk_state_ok t s then ([ok], mkPoll (pl_baselines p) true ok) else ([], p)
  else ([], p).

(** [usable]. *)
Definition usable (t : tick) : bool :=
  negb (bool_decide (tk_discovery t = DFailed)) && (0 <? lenZ (tk_refs t))
  && (lenZ (tk_refs t) <=? MaxInterfaces).

(** The delta of two samples, when there is one. *)
Definition countable (previous : netBaseline) (index : Z) (c : netCounters) : bool :=
  bl_valid previous && (bl_index previous =? index)
  && (nc_rx_bytes (bl_counters previous) <=? nc_rx_bytes c)
  && (nc_tx_bytes (bl_counters previous) <=? nc_tx_bytes c)
  && (nc_rx_packets (bl_counters previous) <=? nc_rx_packets c)
  && (nc_tx_packets (bl_counters previous) <=? nc_tx_packets c).

Definition sub_u64 (a b : Z) : Z := wrap_u64 (a - b).

Definition delta_of (name : string) (now : time) (old new : netCounters) : InterfaceTotals :=
  mkTotals name now
    (sub_u64 (nc_rx_bytes new) (nc_rx_bytes old)) (sub_u64 (nc_tx_bytes new) (nc_tx_bytes old))
    (sub_u64 (nc_rx_packets new) (nc_rx_packets old))
    (sub_u64 (nc_tx_packets new) (nc_tx_packets old)).

(** How an iteration ends early: cancelled (the loop returns nil) or an error. *)
Inductive stop := Cancelled | InvalidInterface | DuplicateInterface.

(** The variables of the loop over [refs]. *)
Record scan := mkScan {
  sn_next : gmap string netBaseline;
  sn_healthy : bool;
  sn_read_failed : bool;
  sn_observations : list InterfaceObservation;
  sn_deltas : list InterfaceTotals }.

(** One interface. *)
Definition scan_ref (t : tick) (baselines : gmap string netBaseline) (ref : InterfaceRef) (s : scan)
    : result stop scan :=
  let name := ref_name ref in
  fail_if negb (ValidInterfaceName name) with InvalidInterface ;;
  fail_if bool_decide (sn_next s !! name <> None) with DuplicateInterface ;;
  let previous := default no_baseline (baselines !! name) in
  let degraded := mkObs name (ref_index ref) "degraded" (bl_last_delta previous) in
  match (if ref_index ref <=? 0 then None else tk_read t name) with
  | None =>
      Ok (mkScan
        (<[name := mkBaseline (bl_index previous) (bl_counters previous) false (bl_last_delta previous)]>
           (sn_next s)) false true (sn_observations s ++ [degraded]) (sn_deltas s))
  | Some current =>
      if countable previous (ref_index ref) current then
        fail_if negb (tk_accept t name) with Cancelled ;;
        Ok (mkScan (<[name := mkBaseline (ref_index ref) current true (tk_now t)]> (sn_next s))
              (sn_healthy s) (sn_read_failed s)
              (sn_observations s ++ [mkObs name (ref_index ref) "running" (tk_now t)])
              (sn_deltas s ++ [delta_of name (tk_now t) (bl_counters previous) current]))
      else
        Ok (mkScan
          (<[name := mkBaseline (ref_index ref) current true (bl_last_delta previous)]> (sn_next s))
          false (sn_read_failed s) (sn_observations s ++ [degraded]) (sn_deltas s))
  end.

(** The loop over [refs]; an early return still has sent the earlier deltas. *)
Fixpoint scan_refs (t : tick) (baselines : gmap string netBaseline) (refs : list InterfaceRef)
    (s : scan) : list InterfaceTotals * result stop scan :=
  match refs with
  | [] => (sn_deltas s, Ok s)
  | ref :: refs =>
      match scan_ref t baselines ref s with
      | Err e => (sn_deltas s, Err e)
      | Ok s => scan_refs t baselines refs s
      end
  end.

(** What an iteration does to the outside. *)
Record effects := mkEffects {
  ef_deltas : list InterfaceTotals;
  ef_reports : list bool;
  ef_observations : option (list InterfaceObservation) }.

(** One iteration of [runSet], up to the wait for the next tick. *)
Definition poll_once (t : tick) (p : poll) : effects * result stop poll :=
  if tk_cancelled t then (mkEffects [] [] None, Err Cancelled)
  else
    let '(r1, p) := if tk_discovery_ok t then ([], p) else report false AtDiscovery t p in
    if usable t then
      let start := mkScan ∅ (bool_decide (tk_discovery t = DComplete)) false [] [] in
      match scan_refs t (pl_baselines p) (tk_refs t) start with
      | (deltas, Err e) => (mkEffects deltas r1 None, Err e)
      | (deltas, Ok s) =>
          let p := mkPoll (sn_next s) (pl_reported p) (pl_healthy p) in
          let '(r2, p) :=
            if sn_healthy s then report true AtCounters t p
            else if bool_decide (tk_discovery t <> DComplete) || pl_reported p || sn_read_failed s
            then report false AtCounters t p else ([], p) in
          let '(r3, p) := if tk_interfaces_ok t then ([], p) else report false AtInterfaces t p in
          (mkEffects deltas (r1 ++ r2 ++ r3) (Some (sn_observations s)), Ok p)
      end
    else
      let '(r2, p) := report false AtCounters t (mkPoll ∅ (pl_reported p) (pl_healthy p)) in
      let '(r3, p) := if tk_interfaces_ok t then ([], p) else report false AtInterfaces t p in
      (mkEffects [] (r1 ++ r2 ++ r3) (Some []), Ok p).

(** [runSet]: iterations until one stops or the ticks end. *)
Fixpoint run_set (ts : list tick) (p : poll) : list effects * result stop poll :=
  match ts with
  | [] => ([], Ok p)
  | t :: ts =>
      let '(e, r) := poll_once t p in
      match r with
      | Err s => ([e], Err s)
      | Ok p => let '(es, r) := run_set ts p in (e :: es, r)
      end
  end.

(** ** [ResolveInterfaces] of an explicit selection

    [lookup]: [net.InterfaceByName] of an interface that is up, its index;
    [cancelled]: [ctx.Err()] before each name. *)
Definition ref_less (x y : InterfaceRef) : bool := string_lt (ref_name x) (ref_name y).

Fixpoint resolve_names (lookup : string -> option Z) (cancelled : string -> bool)
    (names : list string) (seen : gset string) (acc : list InterfaceRef)
    : option (list InterfaceRef) :=
  match names with
  | [] => Some acc
  | name :: names =>
      if cancelled name then None
      else if negb (ValidInterfaceName name) || bool_decide (name ∈ seen) then None
      else resolve_names lookup cancelled names ({[name]} ∪ seen)
             (acc ++ [mkRef name (default 0 (lookup name))])
  end.

(** [defaults]: [defaultInterfaces], the route discovery. *)
Definition ResolveInterfaces (defaults : discovery * list InterfaceRef)
    (lookup : string -> option Z) (cancelled : string -> bool) (names : list string)
    : discovery * list InterfaceRef :=
  match names with
  | [] => defaults
  | _ =>
      if MaxInterfaces <? lenZ names then (DFailed, [])
      else match resolve_names lookup cancelled names ∅ [] with
           | Some refs => (DComplete, sort_by ref_less refs)
           | None => (DFailed, [])
           end
  end.

(** ** What the deltas of one interface are

    A sample of an interface is its index and counters, when discovery lists it
    and it can be read; the specification of the deltas looks at the samples of
    that interface alone. *)

Definition ref_sample (t : tick) (ref : InterfaceRef) : option (Z * netCounters) :=
  c ← (if ref_index ref <=? 0 then None else tk_read t (ref_name ref));
  Some (ref_index ref, c).

Definition named (name : string) (refs : list InterfaceRef) : list InterfaceRef :=
  filter (fun r => ref_name r = name) refs.

Definition sample (t : tick) (name : string) : option (Z * netCounters) :=
  if usable t then ref ← head (named name (tk_refs t)); ref_sample t ref else None.

Definition monotone (old new : Z * netCounters) : bool :=
  countable (mkBaseline (fst old) (snd old) true time_zero) (fst new) (snd new).

(** The delta of two successive samples. *)
Definition step_deltas (name : string) (now : time) (old new : option (Z * netCounters))
    : list InterfaceTotals :=
  match old, new with
  | Some o, Some s => if monotone o s then [delta_of name now (snd o) (snd s)] else []
  | _, _ => []
  end.

Fixpoint sample_deltas (name : string) (old : option (Z * netCounters)) (ts : list tick)
    : list InterfaceTotals :=
  match ts with
  | [] => []
  | t :: ts => step_deltas name (tk_now t) old (sample t name) ++ sample_deltas name (sample t name) ts
  end.

(** The sample that a baseline stands for. *)
Definition baseline_sample (b : option netBaseline) : option (Z * netCounters) :=
  match b with
  | Some b => if bl_valid b then Some (bl_index b, bl_counters b) else None
  | None => None
  end.

Definition for_interface (name : string) (ds : list InterfaceTotals) : list InterfaceTotals :=
  filter (fun d => it_interface d = name) ds.

Lemma for_interface_app name d1 d2 :
  for_interface name (d1 ++ d2) = for_interface name d1 ++ for_interface name d2.
Proof. apply filter_app. Qed.

Lemma for_interface_one name now old new n :
  for_interface name [delta_of n now old new] =
    if decide (n = name) then [delta_of n now old new] else [].
Proof. unfold for_interface. by rewrite filter_cons. Qed.

Lemma countable_sample b index c :
  countable b index c =
    match baseline_sample (Some b) with Some o => monotone o (index, c) | None => false end.
Proof. unfold baseline_sample, monotone, countable. by destruct (bl_valid b). Qed.

(** One interface: its baseline stands for its sample, its deltas are those of
    the samples, and nothing else changes. *)
Definition ref_effect (t : tick) (baselines : gmap string netBaseline) (ref : InterfaceRef)
    (s s' : scan) : Prop :=
  sn_next s !! ref_name ref = None /\ is_Some (sn_next s' !! ref_name ref) /\
  (forall name, name <> ref_name ref -> sn_next s' !! name = sn_next s !! name) /\
  baseline_sample (sn_next s' !! ref_name ref) = ref_sample t ref /\
  forall name, for_interface name (sn_deltas s') = for_interface name (sn_deltas s) ++
    (if decide (ref_name ref = name)
     then step_deltas name (tk_now t) (baseline_sample (baselines !! name)) (ref_sample t ref)
     else []).

Lemma ref_effect_insert t baselines ref s b ds healthy failed obs :
  sn_next s !! ref_name ref = None -> baseline_sample (Some b) = ref_sample t ref ->
  (forall name, for_interface name ds = if decide (ref_name ref = name)
     then step_deltas name (tk_now t) (baseline_sample (baselines !! name)) (ref_sample t ref)
     else []) ->
  ref_effect t baselines ref s
    (mkScan (<[ref_name ref := b]> (sn_next s)) healthy failed obs (sn_deltas s ++ ds)).
Proof.
  intros Hnone Hb Hds. unfold ref_effect. cbn [sn_next sn_deltas]. rewrite lookup_insert_eq.
  split; [done|]. split; [by eexists|]. split; [intros; by rewrite lookup_insert_ne|].
  split; [done|]. intros name. by rewrite for_interface_app, Hds.
Qed.

Lemma scan_ref_spec t baselines ref s s' :
  scan_ref t baselines ref s = Ok s' -> ref_effect t baselines ref s s'.
Proof.
  unfold scan_ref. destruct (negb _); [discriminate|].
  destruct (bool_decide (sn_next s !! ref_name ref <> None)) eqn:Hdup; [discriminate|].
  apply bool_decide_eq_false in Hdup. apply dec_stable in Hdup.
  set (previous := default no_baseline (baselines !! ref_name ref)).
  assert (Hprev : baseline_sample (Some previous) = baseline_sample (baselines !! ref_name ref))
    by (unfold previous; by destruct (baselines !! ref_name ref)).
  assert (Hnil : forall sm, (forall o x, baseline_sample (Some previous) = Some o -> sm = Some x ->
      monotone o x = false) -> forall name, @nil InterfaceTotals = if decide (ref_name ref = name)
      then step_deltas name (tk_now t) (baseline_sample (baselines !! name)) sm else []).
  { intros sm Hsm name. case_decide as Hn; [|done]. subst name. rewrite <- Hprev.
    unfold step_deltas. destruct (baseline_sample (Some previous)) as [o|], sm as [x|]; try done.
    by rewrite (Hsm o x). }
  pose proof (countable_sample previous) as Hcount.
  assert (Hs : forall c, (if ref_index ref <=? 0 then None else tk_read t (ref_name ref)) = c ->
    ref_sample t ref = (c ← c; Some (ref_index ref, c))) by (by intros c <-).
  destruct (if ref_index ref <=? 0 then _ else _) as [c|]; specialize (Hs _ eq_refl); cbn in Hs.
  - rewrite Hcount. destruct (baseline_sample (Some previous)) as [o|] eqn:Eo;
      [destruct (monotone o (ref_index ref, c)) eqn:Em|].
    + destruct (negb (tk_accept t (ref_name ref))); [discriminate|]. intros [= <-].
      apply ref_effect_insert; [done|done|]. intros name. rewrite for_interface_one.
      case_decide; [|done]. subst name. rewrite <- Hprev, Hs. unfold step_deltas. rewrite Em.
      unfold baseline_sample in Eo. destruct (bl_valid previous); [|done]. by injection Eo as <-.
    + intros [= <-]. rewrite <- (app_nil_r (sn_deltas s)).
      apply ref_effect_insert; [done|done|]. apply Hnil. intros o' x [= <-]. rewrite Hs.
      by intros [= <-].
    + intros [= <-]. rewrite <- (app_nil_r (sn_deltas s)).
      apply ref_effect_insert; [done|done|]. by apply Hnil.
  - intros [= <-]. rewrite <- (app_nil_r (sn_deltas s)).
    apply ref_effect_insert; [done|done|]. apply Hnil. rewrite Hs. discriminate.
Qed.

(** All interfaces of a tick. *)
Lemma scan_refs_spec t baselines refs : forall s ds s',
  scan_refs t baselines refs s = (ds, Ok s') ->
  ds = sn_deltas s' /\
  (forall name, is_Some (sn_next s !! name) -> named name refs = []) /\
  forall name,
    baseline_sample (sn_next s' !! name) =
      match head (named name refs) with
      | Some ref => ref_sample t ref
      | None => baseline_sample (sn_next s !! name)
      end /\
    for_interface name (sn_deltas s') = for_interface name (sn_deltas s) ++
      match head (named name refs) with
      | Some ref => step_deltas name (tk_now t) (baseline_sample (baselines !! name)) (ref_sample t ref)
      | None => []
      end.
Proof.
  induction refs as [|ref refs IH]; intros s ds s'; simpl.
  { intros [= <- <-]. split; [done|]. split; [done|]. intros name. by rewrite app_nil_r. }
  destruct (scan_ref t baselines ref s) as [s1|e] eqn:E; [|discriminate]. intros Hr.
  apply scan_ref_spec in E as (Hnone & Hsome & Hother & Hsame & Hds).
  destruct (IH _ _ _ Hr) as (-> & Hfresh & Hall). split; [done|].
  unfold named in *. split.
  - intros name Hn. destruct (decide (ref_name ref = name)) as [<-|Hne].
    { rewrite Hnone in Hn. by apply is_Some_None in Hn. }
    rewrite filter_cons_False by done. apply Hfresh. by rewrite Hother by done.
  - intros name. destruct (Hall name) as [Hb Hd]. rewrite Hb, Hd, Hds, <- app_assoc.
    destruct (decide (ref_name ref = name)) as [<-|Hne].
    + rewrite filter_cons_True by done. rewrite (Hfresh _ Hsome). cbn.
      by rewrite app_nil_r.
    + rewrite filter_cons_False by done. rewrite Hother by done. by split.
Qed.

(** One tick. *)
Lemma report_baselines ok s t p : pl_baselines (snd (report ok s t p)) = pl_baselines p.
Proof. unfold report. repeat case_if; done. Qed.

Lemma poll_once_spec t p e p' :
  poll_once t p = (e, Ok p') ->
  forall name,
    baseline_sample (pl_baselines p' !! name) = sample t name /\
    for_interface name (ef_deltas e) =
      step_deltas name (tk_now t) (baseline_sample (pl_baselines p !! name)) (sample t name).
Proof.
  unfold poll_once. destruct (tk_cancelled t); [discriminate|].
  set (d := if tk_discovery_ok t then _ else _).
  assert (Hd : pl_baselines (snd d) = pl_baselines p)
    by (unfold d; case_if; [done|apply report_baselines]).
  destruct d as [r1 p1]. simpl in Hd. unfold sample. destruct (usable t).
  - set (start := mkScan _ _ _ _ _).
    destruct (scan_refs t (pl_baselines p1) (tk_refs t) start) as [ds [s|er]] eqn:Es; [|discriminate].
    destruct (scan_refs_spec _ _ _ _ _ _ Es) as (-> & _ & Hall).
    set (p2 := mkPoll _ _ _). set (c := if sn_healthy s then _ else _).
    assert (Hc : pl_baselines (snd c) = sn_next s)
      by (unfold c; repeat case_if; rewrite ?report_baselines; done).
    destruct c as [r2 p3]. set (f := if tk_interfaces_ok t then _ else _).
    assert (Hf : pl_baselines (snd f) = pl_baselines p3)
      by (unfold f; case_if; rewrite ?report_baselines; done).
    destruct f as [r3 p4]. simpl in Hc, Hf. intros [= <- <-] name. cbn [ef_deltas].
    rewrite Hf, Hc. destruct (Hall name) as [Hb Hdl]. rewrite Hb, Hdl, Hd. cbn.
    rewrite lookup_empty. destruct (head (named name (tk_refs t))); [done|].
    split; [done|]. by destruct (baseline_sample (pl_baselines p !! name)).
  - set (c := report false AtCounters t _).
    assert (Hc : pl_baselines (snd c) = ∅) by (unfold c; by rewrite report_baselines).
    destruct c as [r2 p3]. set (f := if tk_interfaces_ok t then _ else _).
    assert (Hf : pl_baselines (snd f) = pl_baselines p3)
      by (unfold f; case_if; rewrite ?report_baselines; done).
    destruct f as [r3 p4]. simpl in Hc, Hf. intros [= <- <-] name. cbn [ef_deltas].
    rewrite Hf, Hc, lookup_empty. split; [done|].
    by destruct (baseline_sample (pl_baselines p !! name)).
Qed.

Lemma run_set_spec ts : forall p es p',
  run_set ts p = (es, Ok p') ->
  forall name, for_interface name (es ≫= ef_deltas) =
    sample_deltas name (baseline_sample (pl_baselines p !! name)) ts.
Proof.
  induction ts as [|t ts IH]; intros p es p'; simpl; [by intros [= <- _]|].
  destruct (poll_once t p) as [e [p1|er]] eqn:E; [|discriminate].
  destruct (run_set ts p1) as [es1 r] eqn:Er. intros [= <- ->] name. cbn [mbind list_bind].
  rewrite for_interface_app. destruct (poll_once_spec _ _ _ _ E name) as [Hb Hd].
  rewrite Hd. f_equal. fold (es1 ≫= ef_deltas). rewrite (IH _ _ _ Er name). by rewrite Hb.
Qed.

(** ** Telescoping *)

Definition counters_ok (c : netCounters) : Prop :=
  is_u64 (nc_rx_bytes c) /\ is_u64 (nc_rx_packets c) /\ is_u64 (nc_tx_bytes c) /\ is_u64 (nc_tx_packets c).

Lemma sub_u64_exact a b : is_u64 a -> is_u64 b -> b <= a -> sub_u64 a b = a - b.
Proof. intros. unfold sub_u64. apply wrap_u64_small. zlia. Qed.

(** The counters of a delta. *)
Definition totals (d : InterfaceTotals) : Z * Z * Z * Z :=
  (it_rx_bytes d, it_tx_bytes d, it_rx_packets d, it_tx_packets d).

Definition add_totals (x y : Z * Z * Z * Z) : Z * Z * Z * Z :=
  let '(a, b, c, d) := x in let '(a', b', c', d') := y in (a + a', b + b', c + c', d + d').

Definition sum_totals (ds : list InterfaceTotals) : Z * Z * Z * Z :=
  foldr (fun d acc => add_totals (totals d) acc) (0, 0, 0, 0) ds.

Definition growth (first last : netCounters) : Z * Z * Z * Z :=
  (nc_rx_bytes last - nc_rx_bytes first, nc_tx_bytes last - nc_tx_bytes first,
   nc_rx_packets last - nc_rx_packets first, nc_tx_packets last - nc_tx_packets first).

(** The interface is read in every tick, with one index and counters that do not
    go back, from [first] to [last]. *)
Fixpoint steady (name : string) (index : Z) (first : netCounters) (ts : list tick)
    (last : netCounters) : Prop :=
  match ts with
  | [] => first = last
  | t :: ts => exists c, sample t name = Some (index, c) /\ counters_ok c /\
      monotone (index, first) (index, c) = true /\ steady name index c ts last
  end.

Lemma add_totals_assoc x y z : add_totals x (add_totals y z) = add_totals (add_totals x y) z.
Proof. destruct x as [[[]]], y as [[[]]], z as [[[]]]. simpl. f_equal; [f_equal; [f_equal|]|]; lia. Qed.

Lemma sum_totals_app d1 d2 : sum_totals (d1 ++ d2) = add_totals (sum_totals d1) (sum_totals d2).
Proof.
  induction d1 as [|d d1 IH].
  - simpl. by destruct (sum_totals d2) as [[[]]].
  - change (sum_totals ((d :: d1) ++ d2)) with (add_totals (totals d) (sum_totals (d1 ++ d2))).
    by rewrite IH, add_totals_assoc.
Qed.

Lemma steady_telescopes name index ts : forall first last,
  counters_ok first -> steady name index first ts last ->
  sum_totals (sample_deltas name (Some (index, first)) ts) = growth first last.
Proof.
  induction ts as [|t ts IH]; intros first last Hf; simpl.
  - intros ->. unfold growth. by rewrite !Z.sub_diag.
  - intros (c & Hs & Hc & Hm & Hst). rewrite Hs, sum_totals_app, (IH c last Hc Hst).
    unfold step_deltas. rewrite Hm. unfold monotone, countable in Hm. simpl in Hm. bool_to_prop.
    destruct Hf as (? & ? & ? & ?), Hc as (? & ? & ? & ?).
    simpl. unfold totals, growth, delta_of. simpl.
    rewrite !sub_u64_exact by assumption. f_equal; [f_equal; [f_equal|]|]; lia.
Qed.

(** ** Properties *)

(** The deltas of an interface are those of its own samples: each successful
    pair of successive samples with one index and counters that did not go back
    yields its difference, once, in order; a missing sample, another index or a
    counter that went back yields none and starts afresh; no other interface
    matters. *)
Theorem deltas_of_samples ts es p name :
  run_set ts new_poll = (es, Ok p) ->
  for_interface name (es ≫= ef_deltas) = sample_deltas name None ts.
Proof.
  intros Hr. rewrite (run_set_spec _ _ _ _ Hr name). simpl. by rewrite lookup_empty.
Qed.

(** Nothing is lost or counted twice: while an interface is steady, the
    deltas sent add up exactly to the growth of the kernel's counters between
    its first and its last sample. *)
Theorem deltas_telescope t ts es p name index first last :
  run_set (t :: ts) new_poll = (es, Ok p) ->
  sample t name = Some (index, first) -> counters_ok first -> steady name index first ts last ->
  sum_totals (for_interface name (es ≫= ef_deltas)) = growth first last.
Proof.
  intros Hr Hs Hf Hst. rewrite (run_set_spec _ _ _ _ Hr name). simpl.
  rewrite lookup_empty, Hs. simpl. by apply steady_telescopes.
Qed.

(** ** Reported transitions *)

(** Every report differs from the state that was reported before it. *)
Fixpoint alternates (previous : option bool) (l : list bool) : Prop :=
  match l with
  | [] => True
  | b :: l => previous <> Some b /\ alternates (Some b) l
  end.

Definition reported_state (p : poll) : option bool :=
  if pl_reported p then Some (pl_healthy p) else None.

Fixpoint state_after (previous : option bool) (l : list bool) : option bool :=
  match l with [] => previous | b :: l => state_after (Some b) l end.

Lemma alternates_app l1 l2 : forall previous,
  alternates previous l1 -> alternates (state_after previous l1) l2 ->
  alternates previous (l1 ++ l2).
Proof. induction l1 as [|b l1 IH]; intros previous; simpl; [done|]. intros [? ?] ?. auto. Qed.

Lemma state_after_app l1 l2 : forall previous,
  state_after previous (l1 ++ l2) = state_after (state_after previous l1) l2.
Proof. induction l1 as [|b l1 IH]; intros previous; simpl; auto. Qed.

(** What one or several reports do. *)
Definition reports_ok (p : poll) (lp : list bool * poll) : Prop :=
  alternates (reported_state p) (fst lp) /\
  reported_state (snd lp) = state_after (reported_state p) (fst lp).

Lemma report_ok ok s t p : reports_ok p (report ok s t p).
Proof.
  unfold report, reports_ok, reported_state. destruct p as [b [] []], ok; cbn;
    destruct (tk_state_ok t s); cbn; repeat split; discriminate || congruence.
Qed.

Lemma reports_none p : reports_ok p ([], p).
Proof. by split. Qed.

Lemma reports_then p l1 p1 p1' l2 p2 :
  reports_ok p (l1, p1) -> reported_state p1' = reported_state p1 -> reports_ok p1' (l2, p2) ->
  reports_ok p (l1 ++ l2, p2).
Proof.
  unfold reports_ok. simpl. intros [A1 S1] E [A2 S2]. rewrite E in A2, S2.
  rewrite S1 in A2, S2. split; [by apply alternates_app|by rewrite state_after_app].
Qed.

#[local] Hint Resolve report_ok reports_none : rampart.

Lemma poll_once_reports t p e r :
  poll_once t p = (e, r) ->
  alternates (reported_state p) (ef_reports e) /\
  forall p', r = Ok p' -> reported_state p' = state_after (reported_state p) (ef_reports e).
Proof.
  unfold poll_once. destruct (tk_cancelled t); [intros [= <- <-]; by split|].
  set (d := if tk_discovery_ok t then _ else _).
  assert (Hd : reports_ok p d) by (unfold d; case_if; auto with rampart).
  destruct d as [r1 p1]. destruct (usable t).
  - destruct (scan_refs _ _ _ _) as [ds [s|er]]; [|intros [= <- <-]; by split; [apply Hd|]].
    set (p2 := mkPoll _ _ _).
    set (c := if sn_healthy s then _ else _).
    assert (Hc : reports_ok p2 c) by (unfold c; repeat case_if; auto with rampart).
    destruct c as [r2 p3]. set (f := if tk_interfaces_ok t then _ else _).
    assert (Hf : reports_ok p3 f) by (unfold f; case_if; auto with rampart).
    destruct f as [r3 p4]. intros [= <- <-]. cbn [ef_reports].
    assert (H23 : reports_ok p2 (r2 ++ r3, p4)) by (by eapply reports_then).
    assert (H : reports_ok p (r1 ++ r2 ++ r3, p4)) by (by eapply (reports_then p r1 p1 p2)).
    destruct H as [HA HS]. split; [exact HA|]. by intros p' [= <-].
  - set (p2 := mkPoll _ _ _). pose proof (report_ok false AtCounters t p2) as Hc.
    destruct (report false AtCounters t p2) as [r2 p3]. set (f := if tk_interfaces_ok t then _ else _).
    assert (Hf : reports_ok p3 f) by (unfold f; case_if; auto with rampart).
    destruct f as [r3 p4]. intros [= <- <-]. cbn [ef_reports].
    assert (H23 : reports_ok p2 (r2 ++ r3, p4)) by (by eapply reports_then).
    assert (H : reports_ok p (r1 ++ r2 ++ r3, p4)) by (by eapply (reports_then p r1 p1 p2)).
    destruct H as [HA HS]. split; [exact HA|]. by intros p' [= <-].
Qed.

Lemma run_set_reports ts : forall p es r,
  run_set ts p = (es, r) -> alternates (reported_state p) (es ≫= ef_reports).
Proof.
  induction ts as [|t ts IH]; intros p es r; simpl; [by intros [= <- _]|].
  destruct (poll_once t p) as [e r1] eqn:E.
  destruct (poll_once_reports _ _ _ _ E) as [HA HS]. destruct r1 as [p1|er].
  - destruct (run_set ts p1) as [es1 r2] eqn:Er. intros [= <- <-]. cbn [mbind list_bind].
    apply alternates_app; [done|]. rewrite <- (HS p1 eq_refl). by eapply IH.
  - intros [= <- <-]. cbn [mbind list_bind]. by rewrite app_nil_r.
Qed.

(** ** Resolved selections *)

Lemma resolve_names_spec lookup cancelled names : forall seen acc refs,
  resolve_names lookup cancelled names seen acc = Some refs ->
  refs = acc ++ ((fun n => mkRef n (default 0 (lookup n))) <$> names) /\
  Forall (fun n => ValidInterfaceName n = true) names /\ NoDup names /\
  Forall (fun n => n ∉ seen) names.
Proof.
  induction names as [|n names IH]; intros seen acc refs; simpl.
  { intros [= <-]. rewrite app_nil_r. repeat split; constructor. }
  destruct (cancelled n); [discriminate|].
  destruct (negb (ValidInterfaceName n) || _) eqn:E; [discriminate|]. bool_to_prop.
  intros Hr. destruct (IH _ _ _ Hr) as (-> & Hv & Hnd & Hns). rewrite <- app_assoc.
  split; [done|]. split; [by constructor|]. split.
  - constructor; [|done]. intros Hin. rewrite Forall_forall in Hns. apply (Hns n Hin).
    apply elem_of_union_l. by apply elem_of_singleton.
  - constructor; [done|]. eapply Forall_impl; [exact Hns|]. simpl. intros x Hx Hs. apply Hx.
    by apply elem_of_union_r.
Qed.

Lemma named_absent name refs : name ∉ ref_name <$> refs -> named name refs = [].
Proof.
  unfold named. induction refs as [|r refs IH]; intros Hn; [done|].
  rewrite fmap_cons in Hn. apply not_elem_of_cons in Hn as [Hne Hn].
  rewrite filter_cons_False by congruence. by apply IH.
Qed.

(** Distinct legal names never stop the loop over the interfaces with an error. *)
Lemma scan_refs_accepts t baselines refs : forall s,
  Forall (fun r => ValidInterfaceName (ref_name r) = true) refs -> NoDup (ref_name <$> refs) ->
  Forall (fun r => sn_next s !! ref_name r = None) refs ->
  forall ds e, scan_refs t baselines refs s = (ds, Err e) -> e = Cancelled.
Proof.
  induction refs as [|ref refs IH]; intros s Hv Hnd Hfresh ds e; simpl; [discriminate|].
  apply Forall_cons in Hv as [Hv1 Hv]. apply Forall_cons in Hfresh as [Hf1 Hfresh].
  rewrite fmap_cons in Hnd. apply NoDup_cons in Hnd as [Hnotin Hnd].
  destruct (scan_ref t baselines ref s) as [s1|e1] eqn:E.
  - apply scan_ref_spec in E as (_ & _ & Hother & _). apply IH; [done|done|].
    apply Forall_forall. intros r Hr. rewrite Forall_forall in Hfresh.
    rewrite Hother; [by apply Hfresh|]. intros Heq. apply Hnotin. rewrite <- Heq.
    by apply list_elem_of_fmap_2.
  - intros [= _ <-]. unfold scan_ref in E. rewrite Hv1, Hf1 in E. simpl negb in E. cbv iota in E.
    rewrite bool_decide_false in E by (intros Hn; by apply Hn).
    destruct (if ref_index ref <=? 0 then _ else _); [|discriminate].
    destruct (countable _ _ _); [|discriminate].
    destruct (negb (tk_accept t (ref_name ref))); [by injection E as <-|discriminate].
Qed.

(** The state is reported as transitions: over any run, whatever discovery,
    readings and callbacks do, every report accepted by [OnState] differs from
    the one accepted before it. *)
Theorem reports_alternate ts es r :
  run_set ts new_poll = (es, r) -> alternates None (es ≫= ef_reports).
Proof. apply run_set_reports. Qed.

(** An explicit selection resolves to exactly the selected names, sorted,
    each once, with the index of its link or 0 when it is not up; and such a
    selection never makes the collector return an error. *)
Theorem ResolveInterfaces_explicit defaults lookup cancelled names refs t p e stopped :
  names <> [] -> ResolveInterfaces defaults lookup cancelled names = (DComplete, refs) ->
  ref_name <$> refs ≡ₚ names /\ NoDup names /\ 0 < lenZ refs <= MaxInterfaces /\
  sorted_by ref_less refs /\
  Forall (fun r => ref_index r = default 0 (lookup (ref_name r))) refs /\
  (tk_refs t = refs -> poll_once t p = (e, Err stopped) -> stopped = Cancelled).
Proof.
  intros Hne. unfold ResolveInterfaces. destruct names as [|n names]; [done|].
  set (all := n :: names) in *. case_if; [discriminate|]. bool_to_prop.
  destruct (resolve_names lookup cancelled all ∅ []) as [l|] eqn:Er; [|discriminate].
  intros [= <-]. destruct (resolve_names_spec _ _ _ _ _ _ Er) as (El & Hv & Hnd & _). clear Er.
  assert (Hl : ref_name <$> l = all) by (rewrite El, app_nil_l, <- list_fmap_compose; apply list_fmap_id).
  pose proof (sort_by_perm ref_less l) as Hp.
  assert (Hnames : ref_name <$> sort_by ref_less l ≡ₚ all) by (rewrite Hp; by rewrite Hl).
  split; [done|]. split; [done|]. split.
  { unfold lenZ. rewrite Hp, <- (length_fmap ref_name l), Hl. fold (lenZ all).
    unfold all in *. rewrite lenZ_cons in *. pose proof (lenZ_nonneg names). lia. }
  split; [by apply (sort_by_sorted ref_less string_lt ref_name)|]. split.
  { rewrite Hp, El. apply Forall_fmap. by apply Forall_true. }
  intros Ht. unfold poll_once. destruct (tk_cancelled t); [by intros [= _ <-]|].
  destruct (if tk_discovery_ok t then _ else _) as [r1 p1]. destruct (usable t).
  - set (start := mkScan _ _ _ _ _).
    destruct (scan_refs t (pl_baselines p1) (tk_refs t) start) as [ds [s|er]] eqn:Es.
    + destruct (if sn_healthy s then _ else _) as [r2 p3].
      destruct (if tk_interfaces_ok t then _ else _). discriminate.
    + intros [= _ <-]. eapply scan_refs_accepts; [..|exact Es]; rewrite Ht.
      * apply (Forall_fmap ref_name (fun n => ValidInterfaceName n = true)). by rewrite Hnames.
      * by rewrite Hnames.
      * apply Forall_true. intros x. apply lookup_empty.
  - destruct (report _ _ _ _) as [r2 p3]. destruct (if tk_interfaces_ok t then _ else _).
    discriminate.
Qed.

(** A worked run: two interfaces, one of which restarts its counters. *)
Definition example_tick (k : Z) (eth wlan : Z) : tick :=
  mkTick (unix_epoch + k * second) false [mkRef "eth0" 2; mkRef "wlan0" 3] DComplete
    (fun name => Some (let c := if name =?s "eth0" then eth else wlan in mkCounters c c c c))
    (fun _ => true) true true (fun _ => true).
Definition example_ticks : list tick :=
  [example_tick 1 100 50; example_tick 2 150 60; example_tick 3 210 7; example_tick 4 300 9].

Lemma deltas_of_samples_witness :
  for_interface "wlan0" (fst (run_set example_ticks new_poll) ≫= ef_deltas)
  = sample_deltas "wlan0" None example_ticks /\
  it_rx_bytes <$> sample_deltas "wlan0" None example_ticks = [10; 2].
Proof.
  split; [|vm_compute; reflexivity].
  destruct (run_set example_ticks new_poll) as [es [p|e]] eqn:E.
  - by apply (deltas_of_samples example_ticks es p "wlan0").
  - vm_compute in E. discriminate E.
Defined.

Lemma deltas_telescope_witness :
  sum_totals (for_interface "eth0" (fst (run_set example_ticks new_poll) ≫= ef_deltas))
  = (200, 200, 200, 200).
Proof.
  destruct (run_set example_ticks new_poll) as [es [p|e]] eqn:E; [|vm_compute in E; discriminate E].
  assert (Hok : forall c, 0 <= c <= 300 -> counters_ok (mkCounters c c c c)).
  { intros c Hc. unfold counters_ok. simpl. zlia. }
  apply (deltas_telescope (example_tick 1 100 50)
    [example_tick 2 150 60; example_tick 3 210 7; example_tick 4 300 9] es p "eth0" 2
    (mkCounters 100 100 100 100) (mkCounters 300 300 300 300) E);
    [vm_compute; reflexivity|apply Hok; lia|].
  exists (mkCounters 150 150 150 150). split_and!; [vm_compute; reflexivity|apply Hok; lia|reflexivity|].
  exists (mkCounters 210 210 210 210). split_and!; [vm_compute; reflexivity|apply Hok; lia|reflexivity|].
  exists (mkCounters 300 300 300 300). split_and!; [vm_compute; reflexivity|apply Hok; lia|reflexivity|].
  reflexivity.
Defined.

Lemma reports_alternate_witness :
  (fst (run_set example_ticks new_poll) ≫= ef_reports) = [true; false; true] /\
  alternates None (fst (run_set example_ticks new_poll) ≫= ef_reports).
Proof.
  split; [vm_compute; reflexivity|].
  destruct (run_set example_ticks new_poll) as [es r] eqn:E.
  by apply (reports_alternate example_ticks es r).
Defined.

Lemma ResolveInterfaces_explicit_witness :
  let lookup n := if n =?s "eth0" then Some 2 else None in
  let r := ResolveInterfaces (DFailed, []) lookup (fun _ => false) ["wlan0"; "eth0"]%string in
  r = (DComplete, [mkRef "eth0" 2; mkRef "wlan0" 0]) /\
  forall t p e stopped, tk_refs t = snd r -> poll_once t p = (e, Err stopped) -> stopped = Cancelled.
Proof.
  intros lookup r.
  assert (E : r = (DComplete, [mkRef "eth0" 2; mkRef "wlan0" 0])) by (vm_compute; reflexivity).
  split; [exact E|]. intros t p e stopped Ht.
  destruct (ResolveInterfaces_explicit (DFailed, []) lookup (fun _ => false) ["wlan0"; "eth0"]%string
    [mkRef "eth0" 2; mkRef "wlan0" 0] t p e stopped ltac:(discriminate) E)
    as (_ & _ & _ & _ & _ & H).
  apply H. rewrite Ht, E. reflexivity.
Defined.
