(* ===== verification/Alert.v ===== *)
(** * Recorded alert contexts

    [internal/model/alert.go] and [health_diagnostic.go]: the projection of the
    evidence of a monitor event, a map of texts, into a typed context that may be
    shared, and the validation that every reader repeats.  The two parsers of the
    standard library whose grammar is not fixed by this code ([time.Parse] of
    RFC 3339 and [strconv.ParseFloat]) are services of a class. *)

From S2P Require Export Model.

(** [parse_rfc3339] gives the instant and the seconds east of UTC of its text. *)
Class GoParsers := {
  parse_rfc3339 : string -> option (time * Z);
  parse_float : string -> option f64 }.

(** A [time.Time] with its location: seconds east of UTC and whether the
    location is [time.UTC]. *)
Record moment := mkMoment { mo_at : time; mo_offset : Z; mo_utc : bool }.

Definition to_utc (at' : time) : moment := mkMoment at' 0 true.

Definition one_of (l : list string) (s : string) : bool := existsb (fun x => x =?s s) l.

(** ** Fixed categories *)

Definition alertKind : string -> bool :=
  one_of ["budget_month_bytes"; "budget_month_cost"; "budget_day_bytes"; "budget_day_growth";
          "health_sensor"; "health_interface_counter"; "health_ssh_journal"; "health_storage";
          "health_geoip_update"].

Definition alertReason : string -> bool :=
  one_of ["disabled"; "not_checked"; "read_failed"; "state_invalid"; "clock_rollback";
          "insufficient_coverage"; "baseline_unavailable"; "zero_baseline"; "billing_unavailable";
          "calendar_unavailable"; "observed_estimate"; "threshold_crossed"; "healthy";
          "component_unavailable"; "sensor_stale"; "interface_stale"; "journal_unavailable";
          "storage_write_failed"; "storage_pressure"; "storage_busy"; "storage_unconfigured";
          "metadata_unavailable"; "update_failed"; "update_stale"; "schedule_failed";
          "startup_grace"; "check_unknown"].

Definition alertCoverage : string -> bool := one_of ["unknown"; "incomplete"; "adequate_recorded"].

Definition AlertBasis : string := "selected_interface_guest_tx".
Definition LegacyAlertBasis : string :=
  "Observed selected-interface guest TX estimate; private traffic and duplicated paths may be included; overlapping UTC-hour precision.".

Definition has_prefix (prefix s : string) : bool := String.prefix prefix s.

(** ** Periods: the layouts 2006-01 and 2006-01-02 *)

Definition digits_value (l : list Z) : Z := fold_left (fun acc d => acc * 10 + (d - 48)) l 0.

Definition leap_year (y : Z) : bool :=
  (y mod 4 =? 0) && (negb (y mod 100 =? 0) || (y mod 400 =? 0)).
Definition days_in (y m : Z) : Z :=
  if m =? 2 then if leap_year y then 29 else 28
  else if (m =? 4) || (m =? 6) || (m =? 9) || (m =? 11) then 30 else 31.

(** A parsed month or day, and its year. *)
Definition parse_period (daily : bool) (period : string) : option Z :=
  match bytes_of_string period with
  | y1 :: y2 :: y3 :: y4 :: dash :: m1 :: m2 :: rest =>
      let year := digits_value [y1; y2; y3; y4] in
      let month := digits_value [m1; m2] in
      if forallb is_digit [y1; y2; y3; y4; m1; m2] && (dash =? 45) && (1 <=? month) && (month <=? 12)
      then
        match daily, rest with
        | false, [] => Some year
        | true, [dash; d1; d2] =>
            let day := digits_value [d1; d2] in
            if (dash =? 45) && is_digit d1 && is_digit d2 && (1 <=? day) && (day <=? days_in year month)
            then Some year else None
        | _, _ => None
        end
      else None
  | _ => None
  end.

Definition alertPeriod (kind period : string) : bool :=
  match parse_period (has_prefix "budget_day_" kind) period with
  | Some year => (1970 <=? year) && (year <=? 9999)
  | None => false
  end.

Definition alertTime (at' : option moment) : bool :=
  match at' with
  | None => true
  | Some t => negb (is_zero (mo_at t)) && year_in_range (mo_at t) (mo_offset t) && mo_utc t
  end.

Definition alertCurrency (currency : string) : bool :=
  (string_len currency =? 3) && negb (string_exists (fun b => (b <? 65) || (90 <? b)) currency).

Definition alertAmount (value : option f64) (maximum : f64) : bool :=
  match value with
  | None => true
  | Some v => negb (f64_is_nan v) && negb (f64_is_inf v) && f64_ge v (f64_of_Z 0) && f64_le v maximum
  end.

Definition max_cost : f64 := f64_const 1 120.
Definition max_threshold_cost : f64 := f64_const 1 12.
Definition max_baseline : f64 := f64_of_Z u64_max.
Definition max_growth : f64 := f64_of_Z 100.

(** ** Diagnostics *)

Record HealthDiagnostic := mkDiagnostic {
  d_component_reason : string;
  d_failure_stage : string;
  d_failure_cause : string;
  d_geoip_edition : string;
  d_http_status : option Z;
  d_journal_state : string;
  d_exit_code : option Z;
  d_signal : string;
  d_at : option moment;
  d_scope : string }.

Definition present (s : string) : bool := negb (s =?s "").
Definition some {A} (o : option A) : bool := if o is Some _ then true else false.

Definition diagnostic_has_fields (d : HealthDiagnostic) : bool :=
  present (d_component_reason d) || present (d_failure_stage d) || present (d_failure_cause d)
  || present (d_geoip_edition d) || some (d_http_status d) || present (d_journal_state d)
  || some (d_exit_code d) || present (d_signal d) || some (d_at d) || present (d_scope d).

Definition journalComponentReason : string -> bool :=
  one_of ["process_started"; "record_persisted"; "start_failed"; "read_failed"; "process_exited";
          "persist_failed"; "cursor_unavailable"; "backfill_time_limit"; "backfill_count_limit";
          "invalid_cursor"; "malformed_record"; "untrusted_origin"; "recovery_state_unavailable";
          "worker_stopped"].

Definition journalDiagnosticState : string -> bool :=
  one_of ["starting"; "running"; "retrying"; "degraded"; "gap"].

Definition journalDiagnosticCause : string -> bool :=
  one_of ["executable_not_found"; "executable_invalid"; "permission_denied";
          "file_descriptor_limit"; "memory_allocation_failed"; "resource_unavailable"; "no_space";
          "io_error"; "journal_files_unavailable"; "unsupported_option";
          "journal_format_unsupported"; "journal_corrupt"; "process_signaled"; "process_exited";
          "process_start_failed"; "stream_read_failed"; "cursor_unavailable";
          "backfill_time_limit"; "backfill_count_limit"; "invalid_cursor"; "malformed_record";
          "untrusted_origin"; "persist_failed"; "recovery_pending"; "untrusted_uid";
          "untrusted_executable"; "untrusted_unit"; "untrusted_transport";
          "missing_origin_metadata"].

Definition journalDiagnosticSignal : string -> bool :=
  one_of ["SIGHUP"; "SIGINT"; "SIGQUIT"; "SIGILL"; "SIGTRAP"; "SIGABRT"; "SIGBUS"; "SIGFPE";
          "SIGKILL"; "SIGUSR1"; "SIGSEGV"; "SIGUSR2"; "SIGPIPE"; "SIGALRM"; "SIGTERM"; "SIGXCPU";
          "SIGXFSZ"; "SIGVTALRM"; "SIGPROF"; "SIGSYS"].

Definition geoComponentReason : string -> bool :=
  one_of ["ok"; "unchanged"; "download_failed"; "activation_failed"; "schedule_failed";
          "credentials_unavailable"; "unknown"].

Definition geoDiagnosticFailure (d : HealthDiagnostic) : bool :=
  let stage := d_failure_stage d in
  let cause := d_failure_cause d in
  if present (d_geoip_edition d) && negb (one_of ["City"; "ASN"] (d_geoip_edition d)) then false
  else if cause =?s "http_status" then
    (stage =?s "download")
    && match d_http_status d with
       | Some s => (100 <=? s) && (s <=? 599) && negb (s =? 200)
       | None => false
       end
  else if some (d_http_status d) then false
  else if stage =?s "configuration" then cause =?s "unavailable"
  else if stage =?s "credentials" then one_of ["unavailable"; "invalid"] cause
  else if stage =?s "download" then
    one_of ["failed"; "dns_lookup_failed"; "network_unreachable"; "connection_refused"; "timeout";
            "cancelled"; "tls_failed"; "redirect_rejected"; "response_read_failed";
            "response_too_large"] cause
  else if stage =?s "staging" then
    one_of ["failed"; "temporary_directory_unavailable"; "temporary_directory_unsafe";
            "storage_full"; "permission_denied"] cause
  else if stage =?s "archive" then cause =?s "invalid"
  else if stage =?s "validation" then
    one_of ["validation_rejected"; "resource_budget"; "validator_privilege_drop_failed";
            "validator_setup_failed"; "validator_failed"; "validator_response_invalid";
            "source_changed"; "timeout"; "cancelled"] cause
  else if stage =?s "activation" then
    one_of ["failed"; "recovery_pending"; "metadata_save_failed"] cause
  else if stage =?s "cleanup" then cause =?s "failed"
  else false.

(** [Validate] of a diagnostic. *)
Definition diagnostic_valid (kind : string) (d : HealthDiagnostic) : bool :=
  diagnostic_has_fields d && alertTime (d_at d)
  && (negb (present (d_scope d)) || one_of ["current"; "last_failure"] (d_scope d))
  && negb (present (d_failure_cause d) && negb (present (d_scope d)))
  && (if kind =?s "health_ssh_journal" then
        (negb (present (d_component_reason d)) || journalComponentReason (d_component_reason d))
        && (negb (present (d_journal_state d)) || journalDiagnosticState (d_journal_state d))
        && (negb (present (d_failure_cause d)) || journalDiagnosticCause (d_failure_cause d))
        && negb (present (d_failure_stage d)) && negb (present (d_geoip_edition d))
        && negb (some (d_http_status d))
        && match d_exit_code d with Some c => (0 <=? c) && (c <=? 255) | None => true end
        && (negb (present (d_signal d)) || journalDiagnosticSignal (d_signal d))
        && negb (negb (present (d_failure_cause d)) && (some (d_exit_code d) || present (d_signal d)))
      else if kind =?s "health_geoip_update" then
        (negb (present (d_component_reason d)) || geoComponentReason (d_component_reason d))
        && negb (present (d_journal_state d)) && negb (some (d_exit_code d))
        && negb (present (d_signal d))
        && negb ((present (d_failure_stage d) || present (d_failure_cause d)
                  || present (d_geoip_edition d) || some (d_http_status d))
                 && negb (geoDiagnosticFailure d))
      else false).

(** ** Reading fields

    A reader gives a value and whether what it found was rejected. *)

Definition fields := gmap string string.
Definition field (m : fields) (key : string) : string := default "" (m !! key).

(** [text]: at most [limit] bytes. *)
Definition read_text (limit : Z) (valid : string -> bool) (value : string) : string * bool :=
  if negb (present value) then ("", false)
  else if (limit <? string_len value) || negb (valid value) then ("", true) else (value, false).

Definition all_digits (s : string) : bool := negb (string_exists (fun b => negb (is_digit b)) s).
Definition decimal (s : string) : Z := digits_value (bytes_of_string s).

(** [number]: [strconv.Atoi] of at most three digits. *)
Definition read_number (maximum : Z) (value : string) : option Z * bool :=
  if negb (present value) then (None, false)
  else if (string_len value <=? 3) && all_digits value && (decimal value <=? maximum)
  then (Some (decimal value), false) else (None, true).

(** [unsigned]: [strconv.ParseUint] of at most twenty digits. *)
Definition read_unsigned (value : string) : option Z * bool :=
  if negb (present value) then (None, false)
  else if (string_len value <=? 20) && all_digits value && (decimal value <=? u64_max)
  then (Some (decimal value), false) else (None, true).

Definition float_byte (b : Z) : bool :=
  is_digit b || (b =? 46) || (b =? 101) || (b =? 69) || (b =? 43) || (b =? 45).

Section Parsers.
Context `{GoParsers}.

(** [amount]. *)
Definition read_amount (maximum : f64) (value : string) : option f64 * bool :=
  if negb (present value) then (None, false)
  else if (string_len value <=? 128) && negb (string_exists (fun b => negb (float_byte b)) value) then
    match parse_float value with
    | Some v => if alertAmount (Some v) maximum then (Some v, false) else (None, true)
    | None => (None, true)
    end
  else (None, true).

(** [parseTime]. *)
Definition read_time (value : string) : option moment * bool :=
  if negb (present value) then (None, false)
  else if string_len value <=? 40 then
    match parse_rfc3339 value with
    | Some (at', off) =>
        if negb (is_zero at') && year_in_range at' off then (Some (to_utc at'), false) else (None, true)
    | None => (None, true)
    end
  else (None, true).

(** [projectHealthDiagnostic] for the journal. *)
Definition project_journal (m : fields) (scope : string) (at' : option moment)
    : HealthDiagnostic * bool :=
  let '(reason, r1) := read_text 64 journalComponentReason (field m "component_reason") in
  let '(state, r2) := read_text 64 journalDiagnosticState (field m "journal_state") in
  let '(cause, r3) := read_text 64 journalDiagnosticCause (field m "failure_cause") in
  let '(code, r4) := read_number 255 (field m "journal_exit_code") in
  let '(sig, r5) := read_text 64 journalDiagnosticSignal (field m "journal_signal") in
  let drop := (present cause && negb (present scope))
              || (negb (present cause) && (some code || present sig)) in
  let d := mkDiagnostic reason "" (if drop then "" else cause) "" None state
             (if drop then None else code) (if drop then "" else sig) at' scope in
  (d, r1 || r2 || r3 || r4 || r5 || drop
      || existsb (fun key => present (field m key))
           ["failure_stage"; "geoip_edition"; "http_status"]%string).

(** [projectHealthDiagnostic] for GeoIP. *)
Definition project_geo (m : fields) (scope : string) (at' : option moment)
    : HealthDiagnostic * bool :=
  let '(reason, r1) := read_text 64 geoComponentReason (field m "component_reason") in
  let stage := field m "failure_stage" in
  let cause := field m "failure_cause" in
  let edition := field m "geoip_edition" in
  let failure := existsb (fun key => present (field m key))
                   ["failure_stage"; "failure_cause"; "geoip_edition"; "http_status"]%string in
  let '(d, r2) :=
    if failure then
      let '(status, r) := read_number 599 (field m "http_status") in
      let d := mkDiagnostic reason stage cause edition status "" None "" at' scope in
      if (64 <? string_len stage) || (64 <? string_len cause) || (64 <? string_len edition)
         || negb (geoDiagnosticFailure d) || negb (present scope)
         || (present (field m "http_status") && negb (some status))
      then (mkDiagnostic reason "" "" "" None "" None "" at' scope, true) else (d, r)
    else (mkDiagnostic reason "" "" "" None "" None "" at' scope, false) in
  (d, r1 || r2 || existsb (fun key => present (field m key))
                    ["journal_state"; "journal_exit_code"; "journal_signal"]%string).

Definition projectHealthDiagnostic (kind : string) (m : fields) : option HealthDiagnostic * bool :=
  if negb (one_of ["health_ssh_journal"; "health_geoip_update"] kind) then (None, false)
  else
    let '(scope, r1) := read_text 64 (one_of ["current"; "last_failure"]) (field m "diagnostic_scope") in
    let '(at', r2) := read_time (field m "diagnostic_at_utc") in
    let '(d, r3) := if kind =?s "health_ssh_journal" then project_journal m scope at'
                    else project_geo m scope at' in
    let rejected := r1 || r2 || r3 in
    if negb (diagnostic_has_fields d) then (None, rejected)
    else if negb (diagnostic_valid kind d) then (None, true) else (Some d, rejected).

(** ** Contexts *)

Record AlertContext := mkContext {
  ac_schema : Z;
  ac_availability : string;
  ac_metric : string;
  ac_reason : string;
  ac_period : string;
  ac_period_start : option moment;
  ac_period_end : option moment;
  ac_observed_bytes : option Z;
  ac_threshold_bytes : option Z;
  ac_observed_cost : option f64;
  ac_threshold_cost : option f64;
  ac_currency : string;
  ac_milestone : option Z;
  ac_baseline_mean : option f64;
  ac_baseline_days : option Z;
  ac_growth_ratio : option f64;
  ac_coverage : string;
  ac_basis : string;
  ac_condition_since : option moment;
  ac_diagnostic : option HealthDiagnostic }.

Definition hasFields (a : AlertContext) : bool :=
  present (ac_reason a) || present (ac_period a) || some (ac_period_start a)
  || some (ac_period_end a) || some (ac_observed_bytes a) || some (ac_threshold_bytes a)
  || some (ac_observed_cost a) || some (ac_threshold_cost a) || present (ac_currency a)
  || some (ac_milestone a) || some (ac_baseline_mean a) || some (ac_baseline_days a)
  || some (ac_growth_ratio a) || present (ac_coverage a) || present (ac_basis a)
  || some (ac_condition_since a) || some (ac_diagnostic a).

Definition complete (a : AlertContext) : bool :=
  let metric := ac_metric a in
  if has_prefix "health_" metric then present (ac_reason a) && some (ac_condition_since a)
  else
    present (ac_period a) && some (ac_period_start a) && some (ac_period_end a)
    && some (ac_observed_bytes a) && some (ac_milestone a) && present (ac_coverage a)
    && present (ac_basis a)
    && (if one_of ["budget_month_bytes"; "budget_day_bytes"] metric then some (ac_threshold_bytes a)
        else if metric =?s "budget_month_cost" then
          some (ac_observed_cost a) && some (ac_threshold_cost a) && present (ac_currency a)
        else if metric =?s "budget_day_growth" then
          some (ac_baseline_mean a) && some (ac_baseline_days a) && some (ac_growth_ratio a)
        else false).

(** The bounds of a period: both or neither, in order. *)
Definition bounds_ok (start finish : option moment) : bool :=
  match start, finish with
  | None, None => true
  | Some s, Some e => before (mo_at s) (mo_at e)
  | _, _ => false
  end.

Definition milestone_ok (m : option Z) : bool :=
  match m with None => true | Some v => (v =? 0) || (v =? 80) || (v =? 100) end.

(** The scalar checks of [Validate]. *)
Definition scalars_valid (kind : string) (a : AlertContext) : bool :=
  (negb (present (ac_reason a)) || alertReason (ac_reason a))
  && (negb (present (ac_period a)) || alertPeriod kind (ac_period a))
  && alertTime (ac_period_start a) && alertTime (ac_period_end a) && alertTime (ac_condition_since a)
  && bounds_ok (ac_period_start a) (ac_period_end a)
  && alertAmount (ac_observed_cost a) max_cost && alertAmount (ac_threshold_cost a) max_threshold_cost
  && alertAmount (ac_baseline_mean a) max_baseline && alertAmount (ac_growth_ratio a) max_growth
  && (negb (present (ac_currency a)) || alertCurrency (ac_currency a))
  && milestone_ok (ac_milestone a)
  && match ac_baseline_days a with Some d => (0 <=? d) && (d <=? 30) | None => true end
  && (negb (present (ac_coverage a)) || alertCoverage (ac_coverage a))
  && (negb (present (ac_basis a)) || (ac_basis a =?s AlertBasis)).

(** The shape that a kind allows. *)
Definition shape_valid (kind : string) (a : AlertContext) : bool :=
  if has_prefix "health_" kind then
    negb (present (ac_period a) || some (ac_period_start a) || some (ac_observed_bytes a)
          || some (ac_threshold_bytes a) || some (ac_observed_cost a) || some (ac_threshold_cost a)
          || present (ac_currency a) || some (ac_milestone a) || some (ac_baseline_mean a)
          || some (ac_baseline_days a) || some (ac_growth_ratio a) || present (ac_coverage a)
          || present (ac_basis a))
  else
    negb (some (ac_condition_since a)
          || (negb (kind =?s "budget_month_cost")
              && (some (ac_observed_cost a) || some (ac_threshold_cost a) || present (ac_currency a)))
          || (negb (kind =?s "budget_day_growth")
              && (some (ac_baseline_mean a) || some (ac_baseline_days a) || some (ac_growth_ratio a)))
          || (negb (one_of ["budget_month_bytes"; "budget_day_bytes"] kind)
              && some (ac_threshold_bytes a)))
    && negb (match ac_threshold_bytes a with Some v => v =? 0 | None => false end
             || match ac_threshold_cost a with Some v => f64_eq v (f64_of_Z 0) | None => false end
             || match ac_growth_ratio a with Some v => f64_le v (f64_of_Z 1) | None => false end).

(** [Validate]. *)
Definition Validate (kind : string) (a : AlertContext) : bool :=
  alertKind kind && (ac_metric a =?s kind)
  && ((ac_schema a =? 1) || (ac_schema a =? 2))
  && eqb (ac_schema a =? 1) (negb (some (ac_diagnostic a)))
  && match ac_diagnostic a with Some d => diagnostic_valid kind d | None => true end
  && scalars_valid kind a && shape_valid kind a
  && (if ac_availability a =?s "recorded" then complete a
      else if ac_availability a =?s "partial" then hasFields a
      else if ac_availability a =?s "unavailable" then negb (hasFields a)
      else false).

(** The availability that the end of [ProjectAlertContext] writes. *)
Definition set_availability (rejected : bool) (a : AlertContext) : AlertContext :=
  let availability :=
    if hasFields a then if negb rejected && complete a then "recorded" else "partial"
    else "unavailable" in
  mkContext (ac_schema a) availability (ac_metric a) (ac_reason a) (ac_period a)
    (ac_period_start a) (ac_period_end a) (ac_observed_bytes a) (ac_threshold_bytes a)
    (ac_observed_cost a) (ac_threshold_cost a) (ac_currency a) (ac_milestone a)
    (ac_baseline_mean a) (ac_baseline_days a) (ac_growth_ratio a) (ac_coverage a) (ac_basis a)
    (ac_condition_since a) (ac_diagnostic a).

(** The health branch. *)
Definition project_health (kind : string) (m : fields) (reason : string) : AlertContext * bool :=
  let '(since, r1) := read_time (field m "condition_since_utc") in
  let '(d, r2) := projectHealthDiagnostic kind m in
  (mkContext (if some d then 2 else 1) "unavailable" kind reason "" None None None None None None
     "" None None None None "" "" since d, r1 || r2).

Definition read_bounds (m : fields) : option moment * option moment * bool :=
  let '(start, r1) := read_time (field m "period_start_utc") in
  let '(finish, r2) := read_time (field m "period_end_utc") in
  if bounds_ok start finish then (start, finish, r1 || r2) else (None, None, true).

Definition read_milestone (m : fields) : option Z * bool :=
  let '(v, r) := read_unsigned (field m "milestone") in
  if milestone_ok v then (v, r) else (None, true).

Definition read_threshold_bytes (m : fields) : option Z * bool :=
  match read_unsigned (field m "threshold_bytes") with
  | (Some 0, _) => (None, true)
  | r => r
  end.

Definition read_threshold_cost (m : fields) : option f64 * bool :=
  match read_amount max_threshold_cost (field m "threshold_cost") with
  | (Some v, r) => if f64_eq v (f64_of_Z 0) then (None, true) else (Some v, r)
  | r => r
  end.

Definition read_growth (m : fields) : option f64 * bool :=
  match read_amount max_growth (field m "growth_ratio") with
  | (Some v, r) => if f64_le v (f64_of_Z 1) then (None, true) else (Some v, r)
  | r => r
  end.

Definition read_days (m : fields) : option Z * bool :=
  match read_unsigned (field m "baseline_days") with
  | (Some v, r) => if v <=? 30 then (Some v, r) else (None, true)
  | r => r
  end.

(** The budget branch. *)
Definition project_budget (kind : string) (m : fields) (reason : string) : AlertContext * bool :=
  let '(period, r1) := read_text 256 (alertPeriod kind) (field m "period") in
  let '(start, finish, r2) := read_bounds m in
  let '(bytes, r3) := read_unsigned (field m "observed_bytes") in
  let '(milestone, r4) := read_milestone m in
  let '(coverage, r5) := read_text 256 alertCoverage (field m "coverage") in
  let '(basis, r6) := read_text 256 (one_of [LegacyAlertBasis; AlertBasis]) (field m "basis") in
  let basis := if present basis then AlertBasis else "" in
  let rejected := r1 || r2 || r3 || r4 || r5 || r6 in
  let base tb oc tc currency mean days growth :=
    mkContext 1 "unavailable" kind reason period start finish bytes tb oc tc currency milestone
      mean days growth coverage basis None None in
  if one_of ["budget_month_bytes"; "budget_day_bytes"] kind then
    let '(tb, r) := read_threshold_bytes m in
    (base tb None None "" None None None, rejected || r)
  else if kind =?s "budget_month_cost" then
    let '(oc, r7) := read_amount max_cost (field m "observed_cost") in
    let '(tc, r8) := read_threshold_cost m in
    let '(currency, r9) := read_text 256 alertCurrency (field m "currency") in
    (base None oc tc currency None None None, rejected || r7 || r8 || r9)
  else if kind =?s "budget_day_growth" then
    let '(mean, r7) := read_amount max_baseline (field m "baseline_mean_bytes") in
    let '(growth, r8) := read_growth m in
    let '(days, r9) := read_days m in
    (base None None None "" mean days growth, rejected || r7 || r8 || r9)
  else (base None None None "" None None None, rejected).

(** [ProjectAlertContext]. *)
Definition ProjectAlertContext (kind : string) (m : fields) : option AlertContext :=
  if negb (alertKind kind) then None
  else
    let '(reason, r0) := read_text 256 alertReason (field m "reason") in
    let '(a, r) := if has_prefix "health_" kind then project_health kind m reason
                   else project_budget kind m reason in
    Some (set_availability (r0 || r) a).
End Parsers.

(** ** What the readers guarantee *)

Lemma one_of_elem l s : one_of l s = true <-> s ∈ l.
Proof.
  unfold one_of. rewrite existsb_exists. setoid_rewrite String.eqb_eq.
  rewrite list_elem_of_In. split; [by intros (x & Hx & ->)|by exists s].
Qed.

Lemma present_false s : present s = false <-> s = ""%string.
Proof. unfold present. rewrite negb_false_iff. apply String.eqb_eq. Qed.

(** [ok_or_absent valid s]: the form in which [Validate] checks a text. *)
Definition ok_or_absent (valid : string -> bool) (s : string) : bool := negb (present s) || valid s.

Lemma read_text_ok limit valid v : ok_or_absent valid (fst (read_text limit valid v)) = true.
Proof.
  unfold read_text, ok_or_absent. destruct (negb (present v)) eqn:E; [done|].
  destruct ((limit <? string_len v) || negb (valid v)) eqn:E2; [done|]. bool_to_prop. simpl.
  by rewrite E, H0.
Qed.

Lemma digits_value_nonneg l : forall acc, 0 <= acc -> forallb is_digit l = true ->
  0 <= fold_left (fun acc d => acc * 10 + (d - 48)) l acc.
Proof.
  induction l as [|d l IH]; intros acc Ha; simpl; [done|]. intros Hl. bool_to_prop.
  apply IH; [|done]. unfold is_digit in H. lia.
Qed.

Lemma decimal_nonneg s : all_digits s = true -> 0 <= decimal s.
Proof.
  intros Hs. unfold decimal, digits_value. apply digits_value_nonneg; [done|].
  unfold all_digits in Hs. apply negb_true_iff in Hs.
  unfold bytes_of_string. induction s as [|c s IH]; [done|]. simpl in *. bool_to_prop.
  rewrite H. by apply IH.
Qed.

Lemma read_number_ok maximum v n r : read_number maximum v = (Some n, r) -> 0 <= n <= maximum.
Proof.
  unfold read_number. repeat case_if; try discriminate. intros [= <- _]. bool_to_prop.
  split; [by apply decimal_nonneg|done].
Qed.

Lemma read_unsigned_ok v n r : read_unsigned v = (Some n, r) -> 0 <= n.
Proof.
  unfold read_unsigned. repeat case_if; try discriminate. intros [= <- _]. bool_to_prop.
  by apply decimal_nonneg.
Qed.

(** The checks of a context whose fields are known. *)
Ltac context_fields :=
  unfold scalars_valid, shape_valid;
  cbn [ac_metric ac_schema ac_diagnostic some ac_reason ac_period ac_period_start ac_period_end
    ac_condition_since ac_observed_cost ac_threshold_cost ac_baseline_mean ac_growth_ratio
    ac_currency ac_milestone ac_baseline_days ac_coverage ac_basis ac_observed_bytes
    ac_threshold_bytes].

Section ReaderLemmas.
Context `{GoParsers}.

Lemma read_amount_ok maximum v : alertAmount (fst (read_amount maximum v)) maximum = true.
Proof.
  unfold read_amount. case_if; [done|]. case_if; [|done].
  destruct (parse_float v) as [f|]; [|done].
  destruct (alertAmount (Some f) maximum) eqn:Ea; [exact Ea|done].
Qed.

(** The text of a time says UTC, as every text that the program writes does. *)
Definition utc_text (v : string) : Prop := forall at' off, parse_rfc3339 v = Some (at', off) -> off = 0.

Lemma read_time_ok v : utc_text v -> alertTime (fst (read_time v)) = true.
Proof.
  unfold read_time, utc_text. intros Hutc. case_if; [done|]. case_if; [|done].
  destruct (parse_rfc3339 v) as [[at' off]|]; [|done].
  destruct (negb (is_zero at') && year_in_range at' off) eqn:Ey; [|done]. bool_to_prop. simpl.
  rewrite (Hutc at' off eq_refl) in H1. by rewrite H0, H1.
Qed.

Lemma read_bounds_ok m :
  utc_text (field m "period_start_utc") -> utc_text (field m "period_end_utc") ->
  let '(start, finish, _) := read_bounds m in
  alertTime start = true /\ alertTime finish = true /\ bounds_ok start finish = true.
Proof.
  intros Hs%read_time_ok Hf%read_time_ok. unfold read_bounds.
  destruct (read_time (field m "period_start_utc")) as [s r1].
  destruct (read_time (field m "period_end_utc")) as [e r2]. simpl in Hs, Hf.
  destruct (bounds_ok s e) eqn:E; [by rewrite E|done].
Qed.

Lemma read_milestone_ok m : milestone_ok (fst (read_milestone m)) = true.
Proof.
  unfold read_milestone. destruct (read_unsigned _) as [v r].
  destruct (milestone_ok v) eqn:E; [exact E|done].
Qed.

Lemma read_threshold_bytes_ok m :
  match fst (read_threshold_bytes m) with Some v => v =? 0 | None => false end = false.
Proof.
  unfold read_threshold_bytes. destruct (read_unsigned _) as [[v|] r]; [|done].
  destruct v; done.
Qed.

Lemma read_threshold_cost_ok m :
  alertAmount (fst (read_threshold_cost m)) max_threshold_cost = true /\
  match fst (read_threshold_cost m) with Some v => f64_eq v (f64_of_Z 0) | None => false end = false.
Proof.
  unfold read_threshold_cost.
  pose proof (read_amount_ok max_threshold_cost (field m "threshold_cost")) as Ha.
  destruct (read_amount _ _) as [[v|] r]; [|done]. destruct (f64_eq v (f64_of_Z 0)) eqn:E; done.
Qed.

Lemma read_growth_ok m :
  alertAmount (fst (read_growth m)) max_growth = true /\
  match fst (read_growth m) with Some v => f64_le v (f64_of_Z 1) | None => false end = false.
Proof.
  unfold read_growth.
  pose proof (read_amount_ok max_growth (field m "growth_ratio")) as Ha.
  destruct (read_amount _ _) as [[v|] r]; [|done]. destruct (f64_le v (f64_of_Z 1)) eqn:E; done.
Qed.

Lemma read_days_ok m :
  match fst (read_days m) with Some d => (0 <=? d) && (d <=? 30) | None => true end = true.
Proof.
  unfold read_days. destruct (read_unsigned _) as [[v|] r] eqn:E; [|done].
  apply read_unsigned_ok in E. destruct (v <=? 30) eqn:E2; [|done]. cbn [fst]. rewrite E2.
  rewrite (proj2 (Z.leb_le 0 v)); done.
Qed.

Lemma projectHealthDiagnostic_ok kind m d r :
  projectHealthDiagnostic kind m = (Some d, r) -> diagnostic_valid kind d = true.
Proof.
  unfold projectHealthDiagnostic. destruct (negb (one_of _ kind)); [discriminate|].
  destruct (read_text _ _ _) as [scope r1]. destruct (read_time _) as [at' r2].
  destruct (if kind =?s "health_ssh_journal" then _ else _) as [d' r3].
  destruct (negb (diagnostic_has_fields d')); [discriminate|].
  destruct (diagnostic_valid kind d') eqn:E; simpl; [by intros [= <- _]|discriminate].
Qed.

(** Only the availability is left to check. *)
Lemma set_availability_valid kind r a :
  alertKind kind = true -> ac_metric a = kind ->
  ac_schema a = (if some (ac_diagnostic a) then 2 else 1) ->
  match ac_diagnostic a with Some d => diagnostic_valid kind d | None => true end = true ->
  scalars_valid kind a = true -> shape_valid kind a = true ->
  Validate kind (set_availability r a) = true.
Proof.
  intros Hk Hm Hs Hd Hsc Hsh. unfold Validate.
  change (scalars_valid kind (set_availability r a)) with (scalars_valid kind a).
  change (shape_valid kind (set_availability r a)) with (shape_valid kind a).
  change (complete (set_availability r a)) with (complete a).
  change (hasFields (set_availability r a)) with (hasFields a).
  cbn [set_availability ac_metric ac_schema ac_diagnostic ac_availability].
  rewrite Hk, Hm, String.eqb_refl, Hs, Hd, Hsc, Hsh.
  destruct (some (ac_diagnostic a)), (hasFields a) eqn:Ef, r, (complete a) eqn:Ec;
    simpl; rewrite ?Ef, ?Ec; done.
Qed.

Lemma project_health_valid kind m reason :
  has_prefix "health_" kind = true -> ok_or_absent alertReason reason = true ->
  utc_text (field m "condition_since_utc") ->
  let '(a, _) := project_health kind m reason in
  ac_metric a = kind /\ ac_schema a = (if some (ac_diagnostic a) then 2 else 1) /\
  match ac_diagnostic a with Some d => diagnostic_valid kind d | None => true end = true /\
  scalars_valid kind a = true /\ shape_valid kind a = true.
Proof.
  intros Hp Hr Ht%read_time_ok. unfold project_health.
  destruct (read_time (field m "condition_since_utc")) as [since r1]. simpl in Ht.
  destruct (projectHealthDiagnostic kind m) as [d r2] eqn:Ed. cbn [ac_metric ac_schema ac_diagnostic].
  split; [done|]. split; [done|]. split.
  { destruct d as [d|]; [|done]. by eapply projectHealthDiagnostic_ok. }
  unfold ok_or_absent in Hr. context_fields. rewrite Hp, Hr, Ht. done.
Qed.

Lemma project_budget_valid kind m reason :
  has_prefix "health_" kind = false -> ok_or_absent alertReason reason = true ->
  utc_text (field m "period_start_utc") -> utc_text (field m "period_end_utc") ->
  let '(a, _) := project_budget kind m reason in
  ac_metric a = kind /\ ac_schema a = (if some (ac_diagnostic a) then 2 else 1) /\
  match ac_diagnostic a with Some d => diagnostic_valid kind d | None => true end = true /\
  scalars_valid kind a = true /\ shape_valid kind a = true.
Proof.
  intros Hp Hr Hs Hf. unfold project_budget.
  pose proof (read_text_ok 256 (alertPeriod kind) (field m "period")) as H1.
  destruct (read_text 256 (alertPeriod kind) _) as [period r1].
  pose proof (read_bounds_ok m Hs Hf) as H2.
  destruct (read_bounds m) as [[start finish] r2]. destruct H2 as (H2a & H2b & H2c).
  destruct (read_unsigned (field m "observed_bytes")) as [bytes r3].
  pose proof (read_milestone_ok m) as H4. destruct (read_milestone m) as [milestone r4].
  pose proof (read_text_ok 256 alertCoverage (field m "coverage")) as H5.
  destruct (read_text 256 alertCoverage _) as [coverage r5].
  destruct (read_text 256 _ (field m "basis")) as [basis r6].
  assert (H6 : (negb (present (if present basis then AlertBasis else ""))
    || ((if present basis then AlertBasis else "") =?s AlertBasis)) = true) by (by destruct (present basis)).
  set (b := if present basis then AlertBasis else "") in *. clearbody b.
  unfold ok_or_absent in *. cbn [fst] in *.
  pose proof (read_threshold_bytes_ok m) as H7.
  destruct (read_threshold_cost_ok m) as [H8 H9].
  destruct (read_growth_ok m) as [H10 H11]. pose proof (read_days_ok m) as H12.
  pose proof (read_amount_ok max_cost (field m "observed_cost")) as H13.
  pose proof (read_amount_ok max_baseline (field m "baseline_mean_bytes")) as H14.
  pose proof (read_text_ok 256 alertCurrency (field m "currency")) as H15.
  destruct (one_of ["budget_month_bytes"; "budget_day_bytes"]%string kind) eqn:E1;
    [|destruct (kind =?s "budget_month_cost") eqn:E2;
      [|destruct (kind =?s "budget_day_growth") eqn:E3]].
  - destruct (read_threshold_bytes m) as [tb r]. simpl in H7.
    context_fields.
    rewrite Hp, Hr, H1, H2a, H2b, H2c, H4, H5, H6, H7, E1. simpl. rewrite !andb_false_r. done.
  - destruct (read_amount max_cost _) as [oc r7], (read_threshold_cost m) as [tc r8],
      (read_text 256 alertCurrency _) as [currency r9]. cbn [fst] in H8, H9, H13, H15.
    unfold ok_or_absent in H15. context_fields.
    rewrite Hp, Hr, H1, H2a, H2b, H2c, H4, H5, H6, H8, H9, H13, H15, E1, E2. simpl.
    rewrite !andb_false_r. done.
  - destruct (read_amount max_baseline _) as [mean r7], (read_growth m) as [growth r8],
      (read_days m) as [days r9]. cbn [fst] in H10, H11, H12, H14.
    context_fields.
    rewrite Hp, Hr, H1, H2a, H2b, H2c, H4, H5, H6, H10, H11, H12, H14, E1, E3. simpl.
    rewrite !andb_false_r. done.
  - context_fields.
    rewrite Hp, Hr, H1, H2a, H2b, H2c, H4, H5, H6, E1. simpl. rewrite !andb_false_r. done.
Qed.
End ReaderLemmas.

(** ** Properties *)

(** The evidence keys that hold times, and all the keys that are read. *)
Definition time_keys : list string :=
  ["condition_since_utc"; "period_start_utc"; "period_end_utc"].
Definition known_keys : list string :=
  time_keys ++
  ["reason"; "period"; "observed_bytes"; "milestone"; "coverage"; "basis"; "threshold_bytes";
   "observed_cost"; "threshold_cost"; "currency"; "baseline_mean_bytes"; "growth_ratio";
   "baseline_days"; "diagnostic_scope"; "diagnostic_at_utc"; "component_reason"; "journal_state";
   "failure_cause"; "journal_exit_code"; "journal_signal"; "failure_stage"; "geoip_edition";
   "http_status"].

Section Properties.
Context `{GoParsers}.

(** C13. Whatever evidence was stored, its projection is one that every reader
    accepts: for each monitor kind there is a context, and when the times of the
    evidence are written in UTC, as the program writes them, it passes
    [Validate]: every text is from a fixed list or of a fixed shape, numbers are
    in range, only the fields of its kind are there and the availability says what
    they amount to. *)
Theorem ProjectAlertContext_valid kind m :
  alertKind kind = true -> (forall key, key ∈ time_keys -> utc_text (field m key)) ->
  exists a, ProjectAlertContext kind m = Some a /\ Validate kind a = true.
Proof.
  intros Hk Hutc. unfold ProjectAlertContext. rewrite Hk. simpl negb. cbv iota.
  pose proof (read_text_ok 256 alertReason (field m "reason")) as Hr.
  destruct (read_text 256 alertReason _) as [reason r0]. cbn [fst] in Hr.
  assert (Ht : forall key, bool_decide (key ∈ time_keys) = true -> utc_text (field m key))
    by (intros key Hkey%bool_decide_eq_true; by apply Hutc).
  destruct (has_prefix "health_" kind) eqn:Ep.
  - pose proof (project_health_valid kind m reason Ep Hr (Ht "condition_since_utc"%string eq_refl)) as Hp.
    destruct (project_health kind m reason) as [a r]. destruct Hp as (H1 & H2 & H3 & H4 & H5).
    eexists. split; [done|]. by apply set_availability_valid.
  - pose proof (project_budget_valid kind m reason Ep Hr (Ht "period_start_utc"%string eq_refl)
      (Ht "period_end_utc"%string eq_refl)) as Hp.
    destruct (project_budget kind m reason) as [a r]. destruct Hp as (H1 & H2 & H3 & H4 & H5).
    eexists. split; [done|]. by apply set_availability_valid.
Qed.

(** Nothing else leaks: the projection depends on the fixed keys only, and an
    event of another kind has none. *)
Theorem ProjectAlertContext_fixed_keys kind m m' :
  (forall key, key ∈ known_keys -> m !! key = m' !! key) ->
  ProjectAlertContext kind m = ProjectAlertContext kind m' /\
  (alertKind kind = false -> ProjectAlertContext kind m = None).
Proof.
  intros Heq. split; [|intros Hk; unfold ProjectAlertContext; by rewrite Hk].
  assert (E : forall key, bool_decide (key ∈ known_keys) = true -> field m key = field m' key)
    by (intros key Hkey%bool_decide_eq_true; unfold field; by rewrite Heq).
  unfold ProjectAlertContext, project_health, project_budget, projectHealthDiagnostic,
    project_journal, project_geo, read_bounds, read_milestone, read_threshold_bytes,
    read_threshold_cost, read_growth, read_days, existsb.
  repeat match goal with
  | |- context [field m ?key] => rewrite (E key eq_refl)
  end.
  reflexivity.
Qed.

(** A time east or west of UTC at the edge of the year range is accepted by the
    projection and rejected by the validation: the range is checked before the
    conversion to UTC. *)
Lemma projection_accepts_rejected_time (v : string) :
  string_len v = 25 -> parse_rfc3339 v = Some (year_10000 + 3599 * second, -3600) ->
  exists a, ProjectAlertContext "health_sensor" {["condition_since_utc"%string := v]} = Some a /\
    Validate "health_sensor" a = false.
Proof.
  intros Hlen Hp.
  assert (Ht : read_time v = (Some (to_utc (year_10000 + 3599 * second)), false)).
  { unfold read_time, present. destruct (v =?s "") eqn:Ev.
    - apply String.eqb_eq in Ev. subst v. discriminate.
    - rewrite Hlen, Hp. reflexivity. }
  unfold ProjectAlertContext. change (negb (alertKind "health_sensor")) with false.
  unfold project_health. cbv iota.
  change (field {["condition_since_utc"%string := v]} "condition_since_utc") with v.
  change (field {["condition_since_utc"%string := v]} "reason") with ""%string.
  rewrite Ht. eexists. split; [reflexivity|]. vm_compute. reflexivity.
Qed.
End Properties.

(** Parsers for the worked examples: one text of each kind. *)
Definition example_parsers : GoParsers := {|
  parse_rfc3339 := fun v =>
    if v =?s "2026-07-01T00:00:00Z" then Some (of_unix_milli 1782864000000, 0)
    else if v =?s "2026-08-01T00:00:00Z" then Some (of_unix_milli 1785542400000, 0)
    else None;
  parse_float := fun v => if v =?s "1.5" then Some (f64_const 15 (-1)) else None |}.

Definition example_evidence : fields :=
  {["reason" := "threshold_crossed"; "period" := "2026-07";
    "period_start_utc" := "2026-07-01T00:00:00Z"; "period_end_utc" := "2026-08-01T00:00:00Z";
    "observed_bytes" := "1000"; "threshold_bytes" := "900"; "milestone" := "100";
    "coverage" := "adequate_recorded"; "basis" := LegacyAlertBasis; "note" := "ignored"]}%string.

Lemma ProjectAlertContext_valid_witness :
  exists a, @ProjectAlertContext example_parsers "budget_month_bytes" example_evidence = Some a /\
    Validate "budget_month_bytes" a = true /\ ac_availability a = "recorded"%string.
Proof.
  destruct (@ProjectAlertContext_valid example_parsers "budget_month_bytes" example_evidence)
    as (a & Ha & Hv).
  - vm_compute. reflexivity.
  - intros key Hkey at' off. unfold time_keys in Hkey.
    repeat (apply elem_of_cons in Hkey as [->|Hkey]; [vm_compute; by intros [= _ <-] || discriminate|]).
    by apply elem_of_nil in Hkey.
  - exists a. split; [exact Ha|]. split; [exact Hv|]. vm_compute in Ha. by injection Ha as <-.
Defined.

Lemma ProjectAlertContext_fixed_keys_witness :
  @ProjectAlertContext example_parsers "budget_month_bytes" example_evidence =
  @ProjectAlertContext example_parsers "budget_month_bytes" (delete "note"%string example_evidence).
Proof.
  apply ProjectAlertContext_fixed_keys.
  intros key Hkey. symmetry. apply lookup_delete_ne. intros <-.
  apply (bool_decide_eq_true_2 ("note"%string ∈ known_keys)) in Hkey. vm_compute in Hkey.
  discriminate Hkey.
Defined.
