(* ===== verification/Billing.v ===== *)
(** * Tariffs

    [internal/billing/billing.go]: the validation of a profile and the tiered
    estimate.  Reading the profile file is left out; [net/url] is a service of a
    class.  Arithmetic is that of binary64 with one rounding per operation (no
    fused multiply and add). *)

From S2P Require Export Alert.
From Stdlib Require Import SpecFloat.

(** What [url.Parse] tells of its text: the scheme, the host and whether user
    information is present. *)
Class GoURL := { parse_url : string -> option (string * string * bool) }.

Definition MaxPricePerGB : f64 := f64_const 1 100.

Record Tier := mkTier { UpToGB : f64; PricePerGB : f64 }.

Record Profile := mkProfile {
  pf_schema : Z;
  pf_name : string;
  pf_provider : string;
  pf_region : string;
  pf_currency : string;
  pf_effective_date : string;
  pf_source_url : string;
  pf_free_gb : f64;
  pf_unit_bytes : Z;
  pf_egress : list Tier }.

Record Estimate := mkEstimate {
  es_unavailable : bool;
  es_billable_gb : f64;
  es_cost : f64;
  es_currency : string;
  es_profile : string;
  es_provider : string;
  es_region : string;
  es_effective_date : string }.

(** [strings.TrimSpace(s) == ""]: every rune is white space, in UTF-8. *)
Fixpoint all_space (l : list Z) : bool :=
  match l with
  | [] => true
  | a :: r =>
      if ((9 <=? a) && (a <=? 13)) || (a =? 32) then all_space r
      else match r with
           | b :: r2 =>
               if (a =? 194) && ((b =? 133) || (b =? 160)) then all_space r2
               else match r2 with
                    | c :: r3 =>
                        if ((a =? 225) && (b =? 154) && (c =? 128))
                           || ((a =? 226) && (b =? 128)
                               && (((128 <=? c) && (c <=? 138)) || (c =? 168) || (c =? 169) || (c =? 175)))
                           || ((a =? 226) && (b =? 129) && (c =? 159))
                           || ((a =? 227) && (b =? 128) && (c =? 128))
                        then all_space r3 else false
                    | [] => false
                    end
           | [] => false
           end
  end.

Definition safeText (value : string) (maximum : Z) : bool :=
  negb (all_space (bytes_of_string value)) && (string_len value <=? maximum)
  && negb (string_exists (fun b => (b <? 32) || (b =? 127)) value).

Definition unit_ok (unit_bytes : Z) : bool :=
  (unit_bytes =? 0) || (unit_bytes =? 1000000000) || (unit_bytes =? Z.shiftl 1 30).

(** The loop of [validateAmounts] over the tiers. *)
Fixpoint tiers_ok (previous : f64) (tiers : list Tier) : bool :=
  match tiers with
  | [] => true
  | tier :: rest =>
      let last := match rest with [] => true | _ => false end in
      negb (f64_lt (UpToGB tier) f64_zero || f64_is_nan (UpToGB tier) || f64_is_inf (UpToGB tier))
      && negb (f64_lt (PricePerGB tier) f64_zero || f64_gt (PricePerGB tier) MaxPricePerGB
               || f64_is_nan (PricePerGB tier) || f64_is_inf (PricePerGB tier))
      && negb (negb last && f64_le (UpToGB tier) previous)
      && negb (last && negb (f64_eq (UpToGB tier) f64_zero))
      && tiers_ok (if f64_gt (UpToGB tier) f64_zero then UpToGB tier else previous) rest
  end.

Definition validateAmounts (p : Profile) : bool :=
  unit_ok (pf_unit_bytes p)
  && negb (f64_lt (pf_free_gb p) f64_zero || f64_is_nan (pf_free_gb p) || f64_is_inf (pf_free_gb p)
           || (lenZ (pf_egress p) =? 0) || (32 <? lenZ (pf_egress p)))
  && tiers_ok f64_zero (pf_egress p).

Definition Profile_Validate `{GoURL} (p : Profile) : bool :=
  unit_ok (pf_unit_bytes p)
  && negb (negb (pf_schema p =? 1) || negb (safeText (pf_name p) 128)
           || negb (safeText (pf_provider p) 64) || negb (safeText (pf_region p) 64)
           || negb (string_len (pf_currency p) =? 3))
  && negb (string_exists (fun b => (b <? 65) || (90 <? b)) (pf_currency p))
  && some (parse_period true (pf_effective_date p))
  && match parse_url (pf_source_url p) with
     | Some (scheme, host, user) =>
         negb ((4096 <? string_len (pf_source_url p)) || negb (scheme =?s "https") || (host =?s "") || user)
     | None => false
     end
  && validateAmounts p.

(** ** The estimate *)

(** [math.Max]. *)
Definition f64_max (x y : f64) : f64 :=
  match x, y with
  | S754_infinity false, _ | _, S754_infinity false => f64_inf
  | S754_nan, _ | _, S754_nan => f64_nan
  | S754_zero s, S754_zero _ => if s then y else x
  | _, _ => if f64_gt x y then x else y
  end.

(** The loop over the tiers: what remains, the lower bound of the tier and the
    cost. *)
Fixpoint charge (tiers : list Tier) (remaining lower cost : f64) : f64 * f64 :=
  match tiers with
  | [] => (remaining, cost)
  | tier :: rest =>
      if f64_le remaining f64_zero then (remaining, cost)
      else
        let bounded := f64_gt (UpToGB tier) f64_zero in
        let capacity := f64_sub (UpToGB tier) lower in
        let amount := if bounded && f64_gt remaining capacity then capacity else remaining in
        charge rest (f64_sub remaining amount) (if bounded then UpToGB tier else lower)
          (f64_add cost (f64_mul amount (PricePerGB tier)))
  end.

Definition billable_gb (p : Profile) (outbound : Z) : f64 :=
  let unit := if pf_unit_bytes p =? 0 then 1000000000 else pf_unit_bytes p in
  f64_max f64_zero (f64_sub (f64_div (f64_of_Z outbound) (f64_of_Z unit)) (pf_free_gb p)).

Definition Profile_Estimate (p : Profile) (outbound : Z) : Estimate :=
  let result unavailable billable cost :=
    mkEstimate unavailable billable cost (pf_currency p) (pf_name p) (pf_provider p) (pf_region p)
      (pf_effective_date p) in
  if negb (validateAmounts p) then result true f64_zero f64_zero
  else
    let billable := billable_gb p outbound in
    let '(remaining, cost) := charge (pf_egress p) billable f64_zero f64_zero in
    if f64_is_nan cost || f64_is_inf cost || f64_lt cost f64_zero || f64_gt remaining f64_zero
    then result true f64_zero f64_zero
    else result false billable cost.

(** ** The tiers consume everything *)

Lemma f64_sub_diag_not_pos x : f64_gt (f64_sub x x) f64_zero = false.
Proof.
  unfold f64_gt, f64_zero, f64_sub, SFltb. destruct x as [s|s| |s m e]; simpl.
  - by destruct s.
  - by destruct s.
  - done.
  - unfold SFsub. rewrite Z.min_id.
    replace (cond_Zopp s (Zpos (shl_align m e e).1) - cond_Zopp s (Zpos (shl_align m e e).1)) with 0
      by lia.
    simpl. done.
Qed.

Lemma f64_le_not_gt a b : f64_le a b = true -> f64_gt a b = false.
Proof. unfold f64_gt. intros H. apply f64_ge_not_lt. by unfold f64_ge. Qed.

Lemma f64_zero_not_pos a : f64_eq a f64_zero = true -> f64_gt a f64_zero = false.
Proof.
  unfold f64_eq, f64_gt, SFeqb, SFltb, f64_zero.
  destruct a as [[]|[]| |[] ? ?]; simpl; congruence.
Qed.

(** When the last tier is unbounded, nothing billable remains. *)
Lemma charge_consumes tiers : forall previous remaining lower cost,
  tiers <> [] -> tiers_ok previous tiers = true ->
  f64_gt (charge tiers remaining lower cost).1 f64_zero = false.
Proof.
  induction tiers as [|tier rest IH]; intros previous remaining lower cost Hne Hok; [done|].
  cbn [charge]. destruct (f64_le remaining f64_zero) eqn:Er; [by apply f64_le_not_gt|].
  cbn [tiers_ok] in Hok. apply andb_true_iff in Hok as [Hok Hrest].
  apply andb_true_iff in Hok as [Hok Hlast].
  destruct rest as [|tier' rest'].
  - cbn [charge fst]. simpl in Hlast. apply negb_true_iff, negb_false_iff in Hlast.
    rewrite (f64_zero_not_pos _ Hlast). apply f64_sub_diag_not_pos.
  - by apply (IH (if f64_gt (UpToGB tier) f64_zero then UpToGB tier else previous)).
Qed.

Lemma validateAmounts_tiers p :
  validateAmounts p = true -> pf_egress p <> [] /\ tiers_ok f64_zero (pf_egress p) = true.
Proof.
  unfold validateAmounts. intros [[_ Hf]%andb_true_iff Hok]%andb_true_iff. split; [|done].
  intros E. rewrite E, !orb_true_r in Hf. discriminate Hf.
Qed.

(** An estimate of an accepted profile is refused only when the cost is not a
    finite number from zero up: the tiers always consume the billable amount. *)
Lemma Profile_Estimate_available p outbound :
  validateAmounts p = true ->
  let cost := (charge (pf_egress p) (billable_gb p outbound) f64_zero f64_zero).2 in
  let e := Profile_Estimate p outbound in
  es_unavailable e = negb (f64_finite cost && f64_ge cost f64_zero) /\
  (es_unavailable e = false -> es_cost e = cost /\ es_billable_gb e = billable_gb p outbound).
Proof.
  intros Hv. pose proof (validateAmounts_tiers p Hv) as [Hne Hok].
  pose proof (charge_consumes (pf_egress p) f64_zero (billable_gb p outbound) f64_zero f64_zero
    Hne Hok) as Hc.
  unfold Profile_Estimate. rewrite Hv. cbn [negb].
  destruct (charge _ _ _ _) as [remaining cost]. cbn [fst snd] in *. rewrite Hc, orb_false_r.
  assert (Hge : f64_is_nan cost = false -> f64_ge cost f64_zero = negb (f64_lt cost f64_zero))
    by (intros; by apply f64_ge_negb_lt).
  unfold f64_finite. destruct (f64_is_nan cost); simpl; [done|]. rewrite Hge by done.
  destruct (f64_is_inf cost), (f64_lt cost f64_zero); simpl; done.
Qed.
