(* ===== verification/Health.v ===== *)
(** * What the components report of their health

    The journal collector's status ([internal/collector/journal_reliable.go] and
    [journal_diagnostics.go]) and the metadata of the managed GeoIP updates
    ([internal/assets/health.go] and [geo_diagnostic.go]): the values that the
    monitor reads and the checks that keep free text out of them.  Times are
    instants in UTC. *)

From S2P Require Export Alert.

(** ** The journal *)

Record JournalStatus := mkJournal {
  js_state : string;
  js_reason : string;
  js_at : time;
  js_since : time;
  js_count : Z;
  js_cause : string;
  js_detail : string;
  js_scope : string;
  js_diagnostic_at : time;
  js_exit_code : option Z;
  js_signal : string }.

Record JournalDiagnostic := mkJournalDiagnostic {
  jd_cause : string;
  jd_detail : string;
  jd_scope : string;
  jd_at : time;
  jd_exit_code : option Z;
  jd_signal : string }.

Definition no_journal_diagnostic : JournalDiagnostic := mkJournalDiagnostic "" "" "" time_zero None "".

Definition QualityDegraded (s : JournalStatus) : bool :=
  (js_state s =?s "degraded") || ((js_state s =?s "gap") && (js_reason s =?s "malformed_record")).

(** The first matching entry of a table of texts. *)
Definition lookup_text (table : list (string * string)) (key : string) : string :=
  default "" (snd <$> List.find (fun row => fst row =?s key) table).

Definition JournalCauseDescription : string -> string :=
  lookup_text [
    ("executable_not_found",
     "The configured journalctl executable could not be found; check its installation and configured path.");
    ("executable_invalid",
     "The configured journalctl executable could not be executed in this environment; check its format and architecture.");
    ("permission_denied",
     "Access was denied while starting or reading journalctl; check service-user journal permissions and security policy.");
    ("file_descriptor_limit",
     "An open-file limit prevented journal access; check service and system file-descriptor limits.");
    ("memory_allocation_failed",
     "A memory allocation failed while accessing the journal; check host and service memory pressure.");
    ("resource_unavailable",
     "A required system resource was temporarily unavailable; check process limits and host resource pressure.");
    ("no_space",
     "Journal access reported no space left; check filesystem space, inode capacity and inotify watch limits.");
    ("io_error",
     "Journal access reported an input/output error; inspect journal and kernel storage diagnostics.");
    ("journal_files_unavailable",
     "No journal files were available to journalctl; check journald storage and the service's journal visibility.");
    ("unsupported_option",
     "journalctl rejected a command-line option; check the installed systemd version and configured executable.");
    ("journal_format_unsupported",
     "journalctl reported an unsupported journal format or feature; check reader and journal format compatibility.");
    ("journal_corrupt",
     "journalctl reported damaged or truncated journal data; inspect journald diagnostics and verify retained journal files.");
    ("process_signaled",
     "journalctl was terminated by a signal; the signal alone does not identify its sender or establish an out-of-memory event.");
    ("process_exited",
     "The journalctl follow process exited; inspect the exit status and local journald diagnostics.");
    ("process_start_failed",
     "The journalctl process could not be started; the available evidence does not identify a more specific cause.");
    ("stream_read_failed",
     "Reading the journalctl output stream failed; the available evidence does not identify a more specific cause.");
    ("cursor_unavailable",
     "The saved journal cursor was unavailable or no longer matched; bounded replay resumed with an explicit coverage gap.");
    ("backfill_time_limit",
     "Journal replay reached the configured time boundary; older coverage is recorded as a gap.");
    ("backfill_count_limit",
     "Journal replay reached the configured record limit; skipped coverage is recorded as a gap.");
    ("invalid_cursor",
     "The saved journal cursor failed validation; bounded replay resumed with an explicit coverage gap.");
    ("malformed_record",
     "A journal record was malformed, oversized, or lacked a readable message; recovery requires a new trusted record to be persisted.");
    ("untrusted_origin",
     "A journal record failed SSH-origin checks; inspect its UID, executable, service or session unit, and transport metadata.");
    ("missing_origin_metadata",
     "A journal record lacked required UID, executable or transport metadata; its SSH origin could not be verified.");
    ("untrusted_uid",
     "A journal record did not have the required root sender UID; its SSH origin was rejected.");
    ("untrusted_executable",
     "A journal record's executable was outside the approved OpenSSH paths; its SSH origin was rejected.");
    ("untrusted_unit",
     "A journal record carried an unsupported or invalid explicit system unit, or a user-service unit; its SSH origin was rejected.");
    ("untrusted_transport",
     "A journal record used an unsupported transport; SSH-origin verification requires the journal or syslog transport.");
    ("persist_failed",
     "The journal checkpoint or recovery marker could not be persisted; inspect NodeRampart storage health.");
    ("recovery_pending",
     "A previously recorded journal quality failure still awaits a new trusted record to be persisted.")]%string.

Definition SafeJournalReason (reason : string) : string :=
  if one_of ["process_started"; "record_persisted"; "start_failed"; "read_failed"; "process_exited";
             "persist_failed"; "cursor_unavailable"; "backfill_time_limit"; "backfill_count_limit";
             "invalid_cursor"; "malformed_record"; "untrusted_origin"; "recovery_state_unavailable";
             "worker_stopped"] reason then reason else "".

Definition SafeJournalState (state : string) : string :=
  if one_of ["starting"; "running"; "retrying"; "degraded"; "gap"] state then state else "".

Definition validJournalSignal : string -> bool :=
  one_of ["SIGHUP"; "SIGINT"; "SIGQUIT"; "SIGILL"; "SIGTRAP"; "SIGABRT"; "SIGBUS"; "SIGFPE";
          "SIGKILL"; "SIGUSR1"; "SIGSEGV"; "SIGUSR2"; "SIGPIPE"; "SIGALRM"; "SIGTERM"; "SIGXCPU";
          "SIGXFSZ"; "SIGVTALRM"; "SIGPROF"; "SIGSYS"].

(** A time between 1970 and 9999. *)
Definition recorded_time (at' : time) : bool := negb (is_zero at') && year_in_range at' 0.

(** [SafeDiagnostic]: only fixed categories and bounded numbers get through. *)
Definition SafeDiagnostic (s : JournalStatus) : JournalDiagnostic :=
  let detail := JournalCauseDescription (js_cause s) in
  if negb (present detail) || negb (one_of ["current"; "last_failure"] (js_scope s))
  then no_journal_diagnostic
  else mkJournalDiagnostic (js_cause s) detail (js_scope s)
         (if recorded_time (js_diagnostic_at s) then js_diagnostic_at s else time_zero)
         (match js_exit_code s with
          | Some c => if (0 <=? c) && (c <=? 255) then Some c else None
          | None => None
          end)
         (if validJournalSignal (js_signal s) then js_signal s else "").

Definition setDiagnostic (d : JournalDiagnostic) (s : JournalStatus) : JournalStatus :=
  mkJournal (js_state s) (js_reason s) (js_at s) (js_since s) (js_count s)
    (jd_cause d) (jd_detail d) (jd_scope d) (jd_at d) (jd_exit_code d) (jd_signal d).

Definition journalDiagnostic (cause : string) (at' : time) : JournalDiagnostic :=
  let detail := JournalCauseDescription cause in
  if negb (present detail) then no_journal_diagnostic
  else mkJournalDiagnostic cause detail "current" at' None "".

(** ** Managed GeoIP updates *)

Record GeoDiagnostic := mkGeoDiagnostic {
  gd_stage : string;
  gd_reason : string;
  gd_edition : string;
  gd_http_status : Z }.

Record ScheduleHealth := mkSchedule {
  sh_checked_at : time;
  sh_failures : Z;
  sh_result : string }.

Record Health := mkHealth {
  h_schema : Z;
  h_checked_at : time;
  h_last_success : time;
  h_failures : Z;
  h_result : string;
  h_scheduled : bool;
  h_schedule : option ScheduleHealth;
  h_diagnostic : option GeoDiagnostic }.

Definition no_health : Health := mkHealth 0 time_zero time_zero 0 "" false None None.

Definition geo_stage_allows (stage reason : string) : bool :=
  if stage =?s "configuration" then reason =?s "unavailable"
  else if stage =?s "credentials" then one_of ["unavailable"; "invalid"] reason
  else if stage =?s "download" then
    one_of ["failed"; "dns_lookup_failed"; "network_unreachable"; "connection_refused"; "timeout";
            "cancelled"; "tls_failed"; "redirect_rejected"; "http_status"; "response_read_failed";
            "response_too_large"] reason
  else if stage =?s "staging" then
    one_of ["failed"; "temporary_directory_unavailable"; "temporary_directory_unsafe";
            "storage_full"; "permission_denied"] reason
  else if stage =?s "archive" then reason =?s "invalid"
  else if stage =?s "validation" then
    one_of ["validation_rejected"; "resource_budget"; "validator_privilege_drop_failed";
            "validator_setup_failed"; "validator_failed"; "validator_response_invalid";
            "source_changed"; "timeout"; "cancelled"] reason
  else if stage =?s "activation" then
    one_of ["failed"; "recovery_pending"; "metadata_save_failed"] reason
  else if stage =?s "cleanup" then reason =?s "failed"
  else false.

(** [GeoDiagnostic.Validate]. *)
Definition GeoDiagnostic_Validate (d : GeoDiagnostic) : bool :=
  one_of [""; "City"; "ASN"] (gd_edition d)
  && (if gd_reason d =?s "http_status" then
        negb (negb (gd_stage d =?s "download") || (gd_http_status d <? 100)
              || (599 <? gd_http_status d) || (gd_http_status d =? 200))
      else gd_http_status d =? 0)
  && geo_stage_allows (gd_stage d) (gd_reason d).

(** [NormalizeLegacy]: an old schedule failure becomes a schedule record, and the
    update itself is unknown. *)
Definition NormalizeLegacy (h : Health) : Health :=
  if (h_result h =?s "schedule_failed") && negb (some (h_schedule h)) then
    let checked := if before (h_checked_at h) (h_last_success h) then h_last_success h
                   else h_checked_at h in
    mkHealth (h_schema h) (h_last_success h) (h_last_success h) 0 "unknown" (h_scheduled h)
      (Some (mkSchedule checked 1 "failed")) (h_diagnostic h)
  else h.

Definition optional_time (at' : time) : bool := is_zero at' || year_in_range at' 0.

Definition schedule_valid (h : Health) (s : ScheduleHealth) : bool :=
  negb ((h_result h =?s "schedule_failed") || negb (optional_time (sh_checked_at s)))
  && (if sh_result s =?s "ok" then negb (is_zero (sh_checked_at s) || negb (sh_failures s =? 0))
      else if sh_result s =?s "failed" then negb (is_zero (sh_checked_at s) || (sh_failures s =? 0))
      else if sh_result s =?s "unknown" then sh_failures s =? 0
      else false).

(** [Health.Validate]. *)
Definition Health_Validate (h : Health) : bool :=
  (h_schema h =? 1)
  && one_of ["ok"; "unchanged"; "download_failed"; "activation_failed"; "schedule_failed";
             "credentials_unavailable"; "unknown"] (h_result h)
  && optional_time (h_checked_at h) && optional_time (h_last_success h)
  && match h_schedule h with Some s => schedule_valid h s | None => true end
  && negb (negb (is_zero (h_last_success h))
           && (is_zero (h_checked_at h) || after (h_last_success h) (h_checked_at h)))
  && negb (one_of ["ok"; "unchanged"] (h_result h)
           && (is_zero (h_checked_at h) || is_zero (h_last_success h) || negb (h_failures h =? 0)))
  && match h_diagnostic h with
     | Some d => GeoDiagnostic_Validate d && negb (one_of ["ok"; "unchanged"] (h_result h))
     | None => true
     end.

(** ** The vocabularies agree

    The collectors' categories are those that a recorded context accepts. *)

Lemma one_of_spec l s : one_of l s = true <-> s ∈ l.
Proof.
  unfold one_of. rewrite existsb_exists. split.
  - intros (x & Hin & ->%String.eqb_eq). by apply list_elem_of_In.
  - intros Hin. exists s. by rewrite String.eqb_refl, <- list_elem_of_In.
Qed.

(** Two lists of the same texts. *)
Lemma one_of_same l l' s :
  forallb (one_of l') l && forallb (one_of l) l' = true -> one_of l s = one_of l' s.
Proof.
  intros [H1 H2]%andb_true_iff. rewrite forallb_forall in H1, H2.
  apply eq_true_iff_eq. rewrite !one_of_spec. split; intros Hin%list_elem_of_In.
  - by apply one_of_spec, H1.
  - by apply one_of_spec, H2.
Qed.

Lemma lookup_text_present table key :
  Forall (fun row => present (snd row) = true) table ->
  present (lookup_text table key) = one_of (fst <$> table) key.
Proof.
  unfold lookup_text, one_of. induction 1 as [|row table Hrow Ht IH]; simpl; [done|].
  by destruct (fst row =?s key).
Qed.

Lemma JournalCauseDescription_present cause :
  present (JournalCauseDescription cause) = journalDiagnosticCause cause.
Proof.
  unfold JournalCauseDescription. rewrite lookup_text_present; [by apply one_of_same|].
  apply (bool_decide_unpack _). vm_compute. exact I.
Qed.

Lemma SafeJournalReason_accepted reason :
  present (SafeJournalReason reason) = true ->
  SafeJournalReason reason = reason /\ journalComponentReason reason = true.
Proof.
  unfold SafeJournalReason. destruct (one_of _ reason) eqn:E; [|done]. intros _. by split.
Qed.

(** A diagnostic that holds nothing but fixed categories and bounded numbers. *)
Record journal_safe (d : JournalDiagnostic) : Prop := {
  safe_cause : jd_cause d = ""%string \/
    journalDiagnosticCause (jd_cause d) = true /\
    one_of ["current"; "last_failure"]%string (jd_scope d) = true;
  safe_signal : jd_signal d = ""%string \/ journalDiagnosticSignal (jd_signal d) = true;
  safe_code : forall c, jd_exit_code d = Some c -> 0 <= c <= 255;
  safe_at : jd_at d = time_zero \/ recorded_time (jd_at d) = true;
  safe_detail : jd_detail d = JournalCauseDescription (jd_cause d) }.

Lemma no_journal_diagnostic_safe : journal_safe no_journal_diagnostic.
Proof. by split; try (left; reflexivity). Qed.

Lemma SafeDiagnostic_safe s : journal_safe (SafeDiagnostic s).
Proof.
  unfold SafeDiagnostic. rewrite JournalCauseDescription_present.
  destruct (journalDiagnosticCause (js_cause s)) eqn:Ec; [|apply no_journal_diagnostic_safe].
  destruct (one_of ["current"; "last_failure"]%string (js_scope s)) eqn:Es;
    [|apply no_journal_diagnostic_safe].
  split; cbn [jd_cause jd_scope jd_signal jd_exit_code jd_at jd_detail negb orb].
  - auto.
  - destruct (validJournalSignal (js_signal s)) eqn:Eg; auto.
  - destruct (js_exit_code s) as [c|]; [|done]. case_if; [|done]. intros ? [= <-]. lia.
  - case_if; auto.
  - done.
Qed.

(** An accepted GeoIP diagnostic is one that a recorded context accepts. *)
Lemma GeoDiagnostic_Validate_accepted d c r scope at' :
  GeoDiagnostic_Validate d = true ->
  geoDiagnosticFailure
    (mkDiagnostic r (gd_stage d) (gd_reason d) (gd_edition d)
       (if gd_http_status d =? 0 then None else Some (gd_http_status d)) "" c "" at' scope) = true.
Proof.
  unfold GeoDiagnostic_Validate, geoDiagnosticFailure, geo_stage_allows. cbn [d_geoip_edition
    d_failure_cause d_failure_stage d_http_status].
  intros [[He Hs]%andb_true_iff Hst]%andb_true_iff.
  assert (Hed : present (gd_edition d) && negb (one_of ["City"; "ASN"]%string (gd_edition d)) = false).
  { apply one_of_spec in He. repeat (apply elem_of_cons in He as [->|He]; [done|]).
    by apply elem_of_nil in He. }
  rewrite Hed. destruct (gd_reason d =?s "http_status") eqn:Er.
  - apply String.eqb_eq in Er. apply negb_true_iff in Hs.
    repeat (apply orb_false_iff in Hs as [Hs ?]). apply negb_false_iff in Hs. rewrite Hs.
    bool_to_prop. replace (gd_http_status d =? 0) with false by lia. lia.
  - rewrite Hs. cbn [some].
    destruct (gd_stage d =?s "download") eqn:Ed; [|repeat case_if; done].
    repeat (case_if; [done|]). revert Hst Er. clear. unfold one_of. cbn [existsb].
    rewrite (String.eqb_sym "http_status" (gd_reason d)). intros Hst Er. rewrite Er in Hst.
    done.
Qed.
