(* ===== verification/Monitor.v ===== *)
(** * The monitor's rules

    [internal/daemon/monitor_state.go], [monitor_month.go] and
    [monitor_diagnostics.go]: the state of one monitor rule, what one observation
    of it does (a health condition with its grace, reminder and recovery periods, a
    budget with its milestones, periods and closings), the events that it raises
    and the checks of what is read back.  Times are instants in UTC. *)

From S2P Require Export Config Billing Health.

(** The renderings of [fmt.Sprint] of a float and of [RFC3339Nano] in UTC. *)
Class GoText := {
  fmt_v : f64 -> string;
  fmt_rfc3339nano : time -> string }.

Definition monitorKeys : list string :=
  ["budget_month_bytes"; "budget_month_cost"; "budget_day_bytes"; "budget_day_growth";
   "health_sensor"; "health_interface_counter"; "health_ssh_journal"; "health_storage";
   "health_geoip_update"].

Definition monitorBasis : string :=
  "Observed selected-interface guest TX estimate; private traffic and duplicated paths may be included; overlapping UTC-hour precision.".

(** ** Data *)

Record MonitorPeriodResult := mkPeriodResult {
  pr_period : string;
  pr_start : time;
  pr_end : time;
  pr_evaluated : bool;
  pr_reason : string;
  pr_milestone : Z;
  pr_coverage : string }.

#[global] Instance MonitorPeriodResult_eq_dec : EqDecision MonitorPeriodResult.
Proof. unfold EqDecision, time in *. solve_decision. Defined.

Definition no_period_result : MonitorPeriodResult := mkPeriodResult "" time_zero time_zero false "" 0 "".

Record monitorMonthPolicy := mkPolicy {
  mp_cycle_start_day : Z;
  mp_threshold_bytes : Z;
  mp_threshold_cost : f64;
  mp_currency : string;
  mp_unit_bytes : Z;
  mp_free_gb : f64;
  mp_tiers : list Tier }.

Record MonitorRuleStatus := mkStatus {
  ms_key : string;
  ms_state : string;
  ms_reason : string;
  ms_enabled : bool;
  ms_available : bool;
  ms_pending : bool;
  ms_period : string;
  ms_period_start : time;
  ms_period_end : time;
  ms_observed_bytes : Z;
  ms_threshold_bytes : Z;
  ms_observed_cost : f64;
  ms_threshold_cost : f64;
  ms_currency : string;
  ms_growth_ratio : f64;
  ms_baseline_mean : f64;
  ms_baseline_days : Z;
  ms_milestone : Z;
  ms_basis : string;
  ms_coverage : string;
  ms_condition_since : time;
  ms_last_notification : time;
  ms_previous_period : MonitorPeriodResult;
  ms_last_persisted : time;
  ms_pending_since : time;
  ms_pending_age : Z }.

Definition no_status : MonitorRuleStatus :=
  mkStatus "" "" "" false false false "" time_zero time_zero 0 0 f64_zero f64_zero "" f64_zero
    f64_zero 0 0 "" "" time_zero time_zero no_period_result time_zero time_zero 0.

Record monitorData := mkData {
  md_schema : Z;
  md_observed_at : time;
  md_period : string;
  md_period_start : time;
  md_period_end : time;
  md_milestone : Z;
  md_evaluated : bool;
  md_incident : string;
  md_active : bool;
  md_condition_since : time;
  md_recovery_since : time;
  md_last_notification : time;
  md_geo_scheduled : bool;
  md_status : MonitorRuleStatus;
  md_month_policy : option monitorMonthPolicy;
  md_month_finalized : bool;
  md_previous_period : MonitorPeriodResult }.

#[global] Instance f64_eq_dec : EqDecision f64.
Proof. unfold EqDecision, f64. solve_decision. Defined.
#[global] Instance Tier_eq_dec : EqDecision Tier.
Proof. solve_decision. Defined.
#[global] Instance monitorMonthPolicy_eq_dec : EqDecision monitorMonthPolicy.
Proof. solve_decision. Defined.
#[global] Instance MonitorRuleStatus_eq_dec : EqDecision MonitorRuleStatus.
Proof. unfold EqDecision, time in *. solve_decision. Defined.
#[global] Instance monitorData_eq_dec : EqDecision monitorData.
Proof. unfold EqDecision, time in *. solve_decision. Defined.

Definition no_data : monitorData :=
  mkData 0 time_zero "" time_zero time_zero 0 false "" false time_zero time_zero time_zero false
    no_status None false no_period_result.

(** What the caller saw: [in_diagnostic] is attached to an event and not kept. *)
Record monitorDiagnostic := mkMonitorDiagnostic {
  dg_journal : option JournalStatus;
  dg_geo : option Health }.

Definition no_diagnostic : monitorDiagnostic := mkMonitorDiagnostic None None.

Record monitorObservation := mkObservation {
  in_now : time;
  in_status : MonitorRuleStatus;
  in_condition : string;
  in_since : time;
  in_geo_known : bool;
  in_geo_scheduled : bool;
  in_month_policy : option monitorMonthPolicy;
  in_closing : bool;
  in_diagnostic : monitorDiagnostic }.

(** Assignments to a field. *)

Definition with_state (v : string) (d : MonitorRuleStatus) : MonitorRuleStatus :=
  mkStatus
    (ms_key d) v (ms_reason d) (ms_enabled d) (ms_available d) (ms_pending d) (ms_period d)
    (ms_period_start d) (ms_period_end d) (ms_observed_bytes d) (ms_threshold_bytes d)
    (ms_observed_cost d) (ms_threshold_cost d) (ms_currency d) (ms_growth_ratio d)
    (ms_baseline_mean d) (ms_baseline_days d) (ms_milestone d) (ms_basis d) (ms_coverage d)
    (ms_condition_since d) (ms_last_notification d) (ms_previous_period d)
    (ms_last_persisted d) (ms_pending_since d) (ms_pending_age d).
Definition with_reason (v : string) (d : MonitorRuleStatus) : MonitorRuleStatus :=
  mkStatus
    (ms_key d) (ms_state d) v (ms_enabled d) (ms_available d) (ms_pending d) (ms_period d)
    (ms_period_start d) (ms_period_end d) (ms_observed_bytes d) (ms_threshold_bytes d)
    (ms_observed_cost d) (ms_threshold_cost d) (ms_currency d) (ms_growth_ratio d)
    (ms_baseline_mean d) (ms_baseline_days d) (ms_milestone d) (ms_basis d) (ms_coverage d)
    (ms_condition_since d) (ms_last_notification d) (ms_previous_period d)
    (ms_last_persisted d) (ms_pending_since d) (ms_pending_age d).
Definition with_available (v : bool) (d : MonitorRuleStatus) : MonitorRuleStatus :=
  mkStatus
    (ms_key d) (ms_state d) (ms_reason d) (ms_enabled d) v (ms_pending d) (ms_period d)
    (ms_period_start d) (ms_period_end d) (ms_observed_bytes d) (ms_threshold_bytes d)
    (ms_observed_cost d) (ms_threshold_cost d) (ms_currency d) (ms_growth_ratio d)
    (ms_baseline_mean d) (ms_baseline_days d) (ms_milestone d) (ms_basis d) (ms_coverage d)
    (ms_condition_since d) (ms_last_notification d) (ms_previous_period d)
    (ms_last_persisted d) (ms_pending_since d) (ms_pending_age d).
Definition with_pending (v : bool) (d : MonitorRuleStatus) : MonitorRuleStatus :=
  mkStatus
    (ms_key d) (ms_state d) (ms_reason d) (ms_enabled d) (ms_available d) v (ms_period d)
    (ms_period_start d) (ms_period_end d) (ms_observed_bytes d) (ms_threshold_bytes d)
    (ms_observed_cost d) (ms_threshold_cost d) (ms_currency d) (ms_growth_ratio d)
    (ms_baseline_mean d) (ms_baseline_days d) (ms_milestone d) (ms_basis d) (ms_coverage d)
    (ms_condition_since d) (ms_last_notification d) (ms_previous_period d)
    (ms_last_persisted d) (ms_pending_since d) (ms_pending_age d).
Definition with_period (v : string) (d : MonitorRuleStatus) : MonitorRuleStatus :=
  mkStatus
    (ms_key d) (ms_state d) (ms_reason d) (ms_enabled d) (ms_available d) (ms_pending d) v
    (ms_period_start d) (ms_period_end d) (ms_observed_bytes d) (ms_threshold_bytes d)
    (ms_observed_cost d) (ms_threshold_cost d) (ms_currency d) (ms_growth_ratio d)
    (ms_baseline_mean d) (ms_baseline_days d) (ms_milestone d) (ms_basis d) (ms_coverage d)
    (ms_condition_since d) (ms_last_notification d) (ms_previous_period d)
    (ms_last_persisted d) (ms_pending_since d) (ms_pending_age d).
Definition with_period_start (v : time) (d : MonitorRuleStatus) : MonitorRuleStatus :=
  mkStatus
    (ms_key d) (ms_state d) (ms_reason d) (ms_enabled d) (ms_available d) (ms_pending d)
    (ms_period d) v (ms_period_end d) (ms_observed_bytes d) (ms_threshold_bytes d)
    (ms_observed_cost d) (ms_threshold_cost d) (ms_currency d) (ms_growth_ratio d)
    (ms_baseline_mean d) (ms_baseline_days d) (ms_milestone d) (ms_basis d) (ms_coverage d)
    (ms_condition_since d) (ms_last_notification d) (ms_previous_period d)
    (ms_last_persisted d) (ms_pending_since d) (ms_pending_age d).
Definition with_period_end (v : time) (d : MonitorRuleStatus) : MonitorRuleStatus :=
  mkStatus
    (ms_key d) (ms_state d) (ms_reason d) (ms_enabled d) (ms_available d) (ms_pending d)
    (ms_period d) (ms_period_start d) v (ms_observed_bytes d) (ms_threshold_bytes d)
    (ms_observed_cost d) (ms_threshold_cost d) (ms_currency d) (ms_growth_ratio d)
    (ms_baseline_mean d) (ms_baseline_days d) (ms_milestone d) (ms_basis d) (ms_coverage d)
    (ms_condition_since d) (ms_last_notification d) (ms_previous_period d)
    (ms_last_persisted d) (ms_pending_since d) (ms_pending_age d).
Definition with_observed_bytes (v : Z) (d : MonitorRuleStatus) : MonitorRuleStatus :=
  mkStatus
    (ms_key d) (ms_state d) (ms_reason d) (ms_enabled d) (ms_available d) (ms_pending d)
    (ms_period d) (ms_period_start d) (ms_period_end d) v (ms_threshold_bytes d)
    (ms_observed_cost d) (ms_threshold_cost d) (ms_currency d) (ms_growth_ratio d)
    (ms_baseline_mean d) (ms_baseline_days d) (ms_milestone d) (ms_basis d) (ms_coverage d)
    (ms_condition_since d) (ms_last_notification d) (ms_previous_period d)
    (ms_last_persisted d) (ms_pending_since d) (ms_pending_age d).
Definition with_threshold_bytes (v : Z) (d : MonitorRuleStatus) : MonitorRuleStatus :=
  mkStatus
    (ms_key d) (ms_state d) (ms_reason d) (ms_enabled d) (ms_available d) (ms_pending d)
    (ms_period d) (ms_period_start d) (ms_period_end d) (ms_observed_bytes d) v
    (ms_observed_cost d) (ms_threshold_cost d) (ms_currency d) (ms_growth_ratio d)
    (ms_baseline_mean d) (ms_baseline_days d) (ms_milestone d) (ms_basis d) (ms_coverage d)
    (ms_condition_since d) (ms_last_notification d) (ms_previous_period d)
    (ms_last_persisted d) (ms_pending_since d) (ms_pending_age d).
Definition with_observed_cost (v : f64) (d : MonitorRuleStatus) : MonitorRuleStatus :=
  mkStatus
    (ms_key d) (ms_state d) (ms_reason d) (ms_enabled d) (ms_available d) (ms_pending d)
    (ms_period d) (ms_period_start d) (ms_period_end d) (ms_observed_bytes d)
    (ms_threshold_bytes d) v (ms_threshold_cost d) (ms_currency d) (ms_growth_ratio d)
    (ms_baseline_mean d) (ms_baseline_days d) (ms_milestone d) (ms_basis d) (ms_coverage d)
    (ms_condition_since d) (ms_last_notification d) (ms_previous_period d)
    (ms_last_persisted d) (ms_pending_since d) (ms_pending_age d).
Definition with_threshold_cost (v : f64) (d : MonitorRuleStatus) : MonitorRuleStatus :=
  mkStatus
    (ms_key d) (ms_state d) (ms_reason d) (ms_enabled d) (ms_available d) (ms_pending d)
    (ms_period d) (ms_period_start d) (ms_period_end d) (ms_observed_bytes d)
    (ms_threshold_bytes d) (ms_observed_cost d) v (ms_currency d) (ms_growth_ratio d)
    (ms_baseline_mean d) (ms_baseline_days d) (ms_milestone d) (ms_basis d) (ms_coverage d)
    (ms_condition_since d) (ms_last_notification d) (ms_previous_period d)
    (ms_last_persisted d) (ms_pending_since d) (ms_pending_age d).
Definition with_currency (v : string) (d : MonitorRuleStatus) : MonitorRuleStatus :=
  mkStatus
    (ms_key d) (ms_state d) (ms_reason d) (ms_enabled d) (ms_available d) (ms_pending d)
    (ms_period d) (ms_period_start d) (ms_period_end d) (ms_observed_bytes d)
    (ms_threshold_bytes d) (ms_observed_cost d) (ms_threshold_cost d) v (ms_growth_ratio d)
    (ms_baseline_mean d) (ms_baseline_days d) (ms_milestone d) (ms_basis d) (ms_coverage d)
    (ms_condition_since d) (ms_last_notification d) (ms_previous_period d)
    (ms_last_persisted d) (ms_pending_since d) (ms_pending_age d).
Definition with_milestone (v : Z) (d : MonitorRuleStatus) : MonitorRuleStatus :=
  mkStatus
    (ms_key d) (ms_state d) (ms_reason d) (ms_enabled d) (ms_available d) (ms_pending d)
    (ms_period d) (ms_period_start d) (ms_period_end d) (ms_observed_bytes d)
    (ms_threshold_bytes d) (ms_observed_cost d) (ms_threshold_cost d) (ms_currency d)
    (ms_growth_ratio d) (ms_baseline_mean d) (ms_baseline_days d) v (ms_basis d)
    (ms_coverage d) (ms_condition_since d) (ms_last_notification d) (ms_previous_period d)
    (ms_last_persisted d) (ms_pending_since d) (ms_pending_age d).
Definition with_coverage (v : string) (d : MonitorRuleStatus) : MonitorRuleStatus :=
  mkStatus
    (ms_key d) (ms_state d) (ms_reason d) (ms_enabled d) (ms_available d) (ms_pending d)
    (ms_period d) (ms_period_start d) (ms_period_end d) (ms_observed_bytes d)
    (ms_threshold_bytes d) (ms_observed_cost d) (ms_threshold_cost d) (ms_currency d)
    (ms_growth_ratio d) (ms_baseline_mean d) (ms_baseline_days d) (ms_milestone d) (ms_basis d)
    v (ms_condition_since d) (ms_last_notification d) (ms_previous_period d)
    (ms_last_persisted d) (ms_pending_since d) (ms_pending_age d).
Definition with_condition_since (v : time) (d : MonitorRuleStatus) : MonitorRuleStatus :=
  mkStatus
    (ms_key d) (ms_state d) (ms_reason d) (ms_enabled d) (ms_available d) (ms_pending d)
    (ms_period d) (ms_period_start d) (ms_period_end d) (ms_observed_bytes d)
    (ms_threshold_bytes d) (ms_observed_cost d) (ms_threshold_cost d) (ms_currency d)
    (ms_growth_ratio d) (ms_baseline_mean d) (ms_baseline_days d) (ms_milestone d) (ms_basis d)
    (ms_coverage d) v (ms_last_notification d) (ms_previous_period d) (ms_last_persisted d)
    (ms_pending_since d) (ms_pending_age d).
Definition with_last_notification (v : time) (d : MonitorRuleStatus) : MonitorRuleStatus :=
  mkStatus
    (ms_key d) (ms_state d) (ms_reason d) (ms_enabled d) (ms_available d) (ms_pending d)
    (ms_period d) (ms_period_start d) (ms_period_end d) (ms_observed_bytes d)
    (ms_threshold_bytes d) (ms_observed_cost d) (ms_threshold_cost d) (ms_currency d)
    (ms_growth_ratio d) (ms_baseline_mean d) (ms_baseline_days d) (ms_milestone d) (ms_basis d)
    (ms_coverage d) (ms_condition_since d) v (ms_previous_period d) (ms_last_persisted d)
    (ms_pending_since d) (ms_pending_age d).
Definition with_previous_period (v : MonitorPeriodResult) (d : MonitorRuleStatus) : MonitorRuleStatus :=
  mkStatus
    (ms_key d) (ms_state d) (ms_reason d) (ms_enabled d) (ms_available d) (ms_pending d)
    (ms_period d) (ms_period_start d) (ms_period_end d) (ms_observed_bytes d)
    (ms_threshold_bytes d) (ms_observed_cost d) (ms_threshold_cost d) (ms_currency d)
    (ms_growth_ratio d) (ms_baseline_mean d) (ms_baseline_days d) (ms_milestone d) (ms_basis d)
    (ms_coverage d) (ms_condition_since d) (ms_last_notification d) v (ms_last_persisted d)
    (ms_pending_since d) (ms_pending_age d).
Definition with_last_persisted (v : time) (d : MonitorRuleStatus) : MonitorRuleStatus :=
  mkStatus
    (ms_key d) (ms_state d) (ms_reason d) (ms_enabled d) (ms_available d) (ms_pending d)
    (ms_period d) (ms_period_start d) (ms_period_end d) (ms_observed_bytes d)
    (ms_threshold_bytes d) (ms_observed_cost d) (ms_threshold_cost d) (ms_currency d)
    (ms_growth_ratio d) (ms_baseline_mean d) (ms_baseline_days d) (ms_milestone d) (ms_basis d)
    (ms_coverage d) (ms_condition_since d) (ms_last_notification d) (ms_previous_period d) v
    (ms_pending_since d) (ms_pending_age d).
Definition with_pending_since (v : time) (d : MonitorRuleStatus) : MonitorRuleStatus :=
  mkStatus
    (ms_key d) (ms_state d) (ms_reason d) (ms_enabled d) (ms_available d) (ms_pending d)
    (ms_period d) (ms_period_start d) (ms_period_end d) (ms_observed_bytes d)
    (ms_threshold_bytes d) (ms_observed_cost d) (ms_threshold_cost d) (ms_currency d)
    (ms_growth_ratio d) (ms_baseline_mean d) (ms_baseline_days d) (ms_milestone d) (ms_basis d)
    (ms_coverage d) (ms_condition_since d) (ms_last_notification d) (ms_previous_period d)
    (ms_last_persisted d) v (ms_pending_age d).
Definition with_pending_age (v : Z) (d : MonitorRuleStatus) : MonitorRuleStatus :=
  mkStatus
    (ms_key d) (ms_state d) (ms_reason d) (ms_enabled d) (ms_available d) (ms_pending d)
    (ms_period d) (ms_period_start d) (ms_period_end d) (ms_observed_bytes d)
    (ms_threshold_bytes d) (ms_observed_cost d) (ms_threshold_cost d) (ms_currency d)
    (ms_growth_ratio d) (ms_baseline_mean d) (ms_baseline_days d) (ms_milestone d) (ms_basis d)
    (ms_coverage d) (ms_condition_since d) (ms_last_notification d) (ms_previous_period d)
    (ms_last_persisted d) (ms_pending_since d) v.
Definition with_enabled (v : bool) (d : MonitorRuleStatus) : MonitorRuleStatus :=
  mkStatus
    (ms_key d) (ms_state d) (ms_reason d) v (ms_available d) (ms_pending d) (ms_period d)
    (ms_period_start d) (ms_period_end d) (ms_observed_bytes d) (ms_threshold_bytes d)
    (ms_observed_cost d) (ms_threshold_cost d) (ms_currency d) (ms_growth_ratio d)
    (ms_baseline_mean d) (ms_baseline_days d) (ms_milestone d) (ms_basis d) (ms_coverage d)
    (ms_condition_since d) (ms_last_notification d) (ms_previous_period d)
    (ms_last_persisted d) (ms_pending_since d) (ms_pending_age d).

Definition put_schema (v : Z) (d : monitorData) : monitorData :=
  mkData
    v (md_observed_at d) (md_period d) (md_period_start d) (md_period_end d) (md_milestone d)
    (md_evaluated d) (md_incident d) (md_active d) (md_condition_since d) (md_recovery_since d)
    (md_last_notification d) (md_geo_scheduled d) (md_status d) (md_month_policy d)
    (md_month_finalized d) (md_previous_period d).
Definition put_observed_at (v : time) (d : monitorData) : monitorData :=
  mkData
    (md_schema d) v (md_period d) (md_period_start d) (md_period_end d) (md_milestone d)
    (md_evaluated d) (md_incident d) (md_active d) (md_condition_since d) (md_recovery_since d)
    (md_last_notification d) (md_geo_scheduled d) (md_status d) (md_month_policy d)
    (md_month_finalized d) (md_previous_period d).
Definition put_period (v : string) (d : monitorData) : monitorData :=
  mkData
    (md_schema d) (md_observed_at d) v (md_period_start d) (md_period_end d) (md_milestone d)
    (md_evaluated d) (md_incident d) (md_active d) (md_condition_since d) (md_recovery_since d)
    (md_last_notification d) (md_geo_scheduled d) (md_status d) (md_month_policy d)
    (md_month_finalized d) (md_previous_period d).
Definition put_period_start (v : time) (d : monitorData) : monitorData :=
  mkData
    (md_schema d) (md_observed_at d) (md_period d) v (md_period_end d) (md_milestone d)
    (md_evaluated d) (md_incident d) (md_active d) (md_condition_since d) (md_recovery_since d)
    (md_last_notification d) (md_geo_scheduled d) (md_status d) (md_month_policy d)
    (md_month_finalized d) (md_previous_period d).
Definition put_period_end (v : time) (d : monitorData) : monitorData :=
  mkData
    (md_schema d) (md_observed_at d) (md_period d) (md_period_start d) v (md_milestone d)
    (md_evaluated d) (md_incident d) (md_active d) (md_condition_since d) (md_recovery_since d)
    (md_last_notification d) (md_geo_scheduled d) (md_status d) (md_month_policy d)
    (md_month_finalized d) (md_previous_period d).
Definition put_milestone (v : Z) (d : monitorData) : monitorData :=
  mkData
    (md_schema d) (md_observed_at d) (md_period d) (md_period_start d) (md_period_end d) v
    (md_evaluated d) (md_incident d) (md_active d) (md_condition_since d) (md_recovery_since d)
    (md_last_notification d) (md_geo_scheduled d) (md_status d) (md_month_policy d)
    (md_month_finalized d) (md_previous_period d).
Definition put_evaluated (v : bool) (d : monitorData) : monitorData :=
  mkData
    (md_schema d) (md_observed_at d) (md_period d) (md_period_start d) (md_period_end d)
    (md_milestone d) v (md_incident d) (md_active d) (md_condition_since d)
    (md_recovery_since d) (md_last_notification d) (md_geo_scheduled d) (md_status d)
    (md_month_policy d) (md_month_finalized d) (md_previous_period d).
Definition put_incident (v : string) (d : monitorData) : monitorData :=
  mkData
    (md_schema d) (md_observed_at d) (md_period d) (md_period_start d) (md_period_end d)
    (md_milestone d) (md_evaluated d) v (md_active d) (md_condition_since d)
    (md_recovery_since d) (md_last_notification d) (md_geo_scheduled d) (md_status d)
    (md_month_policy d) (md_month_finalized d) (md_previous_period d).
Definition put_active (v : bool) (d : monitorData) : monitorData :=
  mkData
    (md_schema d) (md_observed_at d) (md_period d) (md_period_start d) (md_period_end d)
    (md_milestone d) (md_evaluated d) (md_incident d) v (md_condition_since d)
    (md_recovery_since d) (md_last_notification d) (md_geo_scheduled d) (md_status d)
    (md_month_policy d) (md_month_finalized d) (md_previous_period d).
Definition put_condition_since (v : time) (d : monitorData) : monitorData :=
  mkData
    (md_schema d) (md_observed_at d) (md_period d) (md_period_start d) (md_period_end d)
    (md_milestone d) (md_evaluated d) (md_incident d) (md_active d) v (md_recovery_since d)
    (md_last_notification d) (md_geo_scheduled d) (md_status d) (md_month_policy d)
    (md_month_finalized d) (md_previous_period d).
Definition put_recovery_since (v : time) (d : monitorData) : monitorData :=
  mkData
    (md_schema d) (md_observed_at d) (md_period d) (md_period_start d) (md_period_end d)
    (md_milestone d) (md_evaluated d) (md_incident d) (md_active d) (md_condition_since d) v
    (md_last_notification d) (md_geo_scheduled d) (md_status d) (md_month_policy d)
    (md_month_finalized d) (md_previous_period d).
Definition put_last_notification (v : time) (d : monitorData) : monitorData :=
  mkData
    (md_schema d) (md_observed_at d) (md_period d) (md_period_start d) (md_period_end d)
    (md_milestone d) (md_evaluated d) (md_incident d) (md_active d) (md_condition_since d)
    (md_recovery_since d) v (md_geo_scheduled d) (md_status d) (md_month_policy d)
    (md_month_finalized d) (md_previous_period d).
Definition put_geo_scheduled (v : bool) (d : monitorData) : monitorData :=
  mkData
    (md_schema d) (md_observed_at d) (md_period d) (md_period_start d) (md_period_end d)
    (md_milestone d) (md_evaluated d) (md_incident d) (md_active d) (md_condition_since d)
    (md_recovery_since d) (md_last_notification d) v (md_status d) (md_month_policy d)
    (md_month_finalized d) (md_previous_period d).
Definition put_status (v : MonitorRuleStatus) (d : monitorData) : monitorData :=
  mkData
    (md_schema d) (md_observed_at d) (md_period d) (md_period_start d) (md_period_end d)
    (md_milestone d) (md_evaluated d) (md_incident d) (md_active d) (md_condition_since d)
    (md_recovery_since d) (md_last_notification d) (md_geo_scheduled d) v (md_month_policy d)
    (md_month_finalized d) (md_previous_period d).
Definition put_month_policy (v : option monitorMonthPolicy) (d : monitorData) : monitorData :=
  mkData
    (md_schema d) (md_observed_at d) (md_period d) (md_period_start d) (md_period_end d)
    (md_milestone d) (md_evaluated d) (md_incident d) (md_active d) (md_condition_since d)
    (md_recovery_since d) (md_last_notification d) (md_geo_scheduled d) (md_status d) v
    (md_month_finalized d) (md_previous_period d).
Definition put_month_finalized (v : bool) (d : monitorData) : monitorData :=
  mkData
    (md_schema d) (md_observed_at d) (md_period d) (md_period_start d) (md_period_end d)
    (md_milestone d) (md_evaluated d) (md_incident d) (md_active d) (md_condition_since d)
    (md_recovery_since d) (md_last_notification d) (md_geo_scheduled d) (md_status d)
    (md_month_policy d) v (md_previous_period d).
Definition put_previous_period (v : MonitorPeriodResult) (d : monitorData) : monitorData :=
  mkData
    (md_schema d) (md_observed_at d) (md_period d) (md_period_start d) (md_period_end d)
    (md_milestone d) (md_evaluated d) (md_incident d) (md_active d) (md_condition_since d)
    (md_recovery_since d) (md_last_notification d) (md_geo_scheduled d) (md_status d)
    (md_month_policy d) (md_month_finalized d) v.

(** ** Rules and their initial status *)

Definition monitorEnabled (key : string) (cfg : AlertsConfig) : bool :=
  let b := al_budget cfg in
  if key =?s "budget_month_bytes" then ba_enabled b && (0 <? ba_monthly_bytes b)
  else if key =?s "budget_month_cost" then ba_enabled b && f64_gt (ba_monthly_cost b) f64_zero
  else if key =?s "budget_day_bytes" then ba_enabled b && (0 <? ba_daily_bytes b)
  else if key =?s "budget_day_growth" then ba_enabled b && f64_gt (ba_daily_growth_ratio b) f64_zero
  else ha_enabled (al_health cfg).

(** The fields that a new status gives. *)
Definition new_status (key : string) (enabled available : bool) (state reason : string)
    : MonitorRuleStatus :=
  mkStatus key state reason enabled available false "" time_zero time_zero 0 0 f64_zero f64_zero ""
    f64_zero f64_zero 0 0 "" "" time_zero time_zero no_period_result time_zero time_zero 0.

(** The rules of [initialMonitorStatus]. *)
Definition initial_rules (cfg : AlertsConfig) : list MonitorRuleStatus :=
  (fun key =>
     if monitorEnabled key cfg then new_status key true false "unknown" "not_checked"
     else new_status key false true "disabled" "disabled") <$> monitorKeys.

(** ** Validation of what is read back *)

Definition ValidID (value : string) : bool :=
  negb ((string_len value <? 1) || (128 <? string_len value))
  && negb (string_exists (fun b =>
       negb (((97 <=? b) && (b <=? 122)) || ((65 <=? b) && (b <=? 90)) || is_digit b
             || (b =? 95) || (b =? 45) || (b =? 58) || (b =? 46))) value).

Definition month_or_day (key period : string) : option Z :=
  parse_period (has_prefix "budget_day_" key) period.

Definition milestone_value (m : Z) : bool := (m =? 0) || (m =? 80) || (m =? 100).

Definition validatePeriodResult (p : MonitorPeriodResult) : bool :=
  if decide (p = no_period_result) then true
  else
    match parse_period false (pr_period p) with
    | None => false
    | Some year =>
        (1970 <=? year) && (year <=? 9999)
        && before (pr_start p) (pr_end p)
        && (time_sub (pr_end p) (pr_start p) <=? 32 * 24 * hour)
        && (unix_epoch <=? pr_start p) && (pr_end p <? year_10000)
        && milestone_value (pr_milestone p)
    end
    && one_of ["unknown"; "incomplete"; "adequate_recorded"] (pr_coverage p)
    && (if one_of ["observed_estimate"; "threshold_crossed"] (pr_reason p) then pr_evaluated p
        else if one_of ["historical_policy_unavailable"; "billing_cycle_changed"] (pr_reason p)
             then negb (pr_evaluated p)
        else false).

Definition monitor_states : list string :=
  ["disabled"; "unknown"; "observed"; "alert"; "healthy"; "debouncing"; "recovering"].

Definition monitor_reasons : list string :=
  ["disabled"; "not_checked"; "read_failed"; "state_invalid"; "clock_rollback";
   "insufficient_coverage"; "baseline_unavailable"; "zero_baseline"; "billing_unavailable";
   "calendar_unavailable"; "observed_estimate"; "threshold_crossed"; "healthy";
   "component_unavailable"; "sensor_stale"; "interface_stale"; "journal_unavailable";
   "storage_write_failed"; "storage_pressure"; "storage_busy"; "storage_unconfigured";
   "metadata_unavailable"; "update_failed"; "update_stale"; "startup_grace"; "check_unknown";
   "historical_policy_unavailable"; "period_close_pending"; "schedule_failed"].

(** A finite number from zero up. *)
Definition amount_ok (v : f64) : bool := negb (f64_is_nan v || f64_is_inf v || f64_lt v f64_zero).

Definition status_numbers_ok (s : MonitorRuleStatus) : bool :=
  forallb amount_ok [ms_observed_cost s; ms_threshold_cost s; ms_growth_ratio s; ms_baseline_mean s].

Definition status_fields_ok (s : MonitorRuleStatus) : bool :=
  one_of [""; "unknown"; "incomplete"; "adequate_recorded"] (ms_coverage s)
  && negb ((present (ms_basis s) && negb (ms_basis s =?s monitorBasis))
           || (ms_baseline_days s <? 0) || (30 <? ms_baseline_days s)
           || (present (ms_currency s) && negb (alertCurrency (ms_currency s)))).

Definition validateMonitorStatus (s : MonitorRuleStatus) : bool :=
  validatePeriodResult (ms_previous_period s)
  && one_of monitorKeys (ms_key s)
  && (negb (present (ms_period s))
      || (before (ms_period_start s) (ms_period_end s) && some (month_or_day (ms_key s) (ms_period s))))
  && milestone_value (ms_milestone s)
  && forallb optional_time
       [ms_period_start s; ms_period_end s; ms_condition_since s; ms_last_notification s]
  && one_of monitor_states (ms_state s)
  && one_of monitor_reasons (ms_reason s)
  && status_fields_ok s
  && status_numbers_ok s.

(** ** Monthly policies *)

(** [copyMonthPolicy] copies: values are not shared here. *)
Definition copyMonthPolicy (p : option monitorMonthPolicy) : option monitorMonthPolicy := p.

Definition policy_profile (p : monitorMonthPolicy) : Profile :=
  mkProfile 1 "Recorded monitor tariff" "custom" "recorded" (mp_currency p) "1970-01-01"
    "https://example.invalid/recorded-tariff" (mp_free_gb p) (mp_unit_bytes p) (mp_tiers p).

Definition policy_validate `{GoURL} (key : string) (p : monitorMonthPolicy) : bool :=
  negb ((mp_cycle_start_day p <? 0) || (28 <? mp_cycle_start_day p))
  && (if key =?s "budget_month_bytes" then
        negb ((mp_threshold_bytes p =? 0) || (i64_max <? mp_threshold_bytes p)
              || negb (f64_eq (mp_threshold_cost p) f64_zero) || present (mp_currency p)
              || negb (mp_unit_bytes p =? 0) || negb (f64_eq (mp_free_gb p) f64_zero)
              || negb (lenZ (mp_tiers p) =? 0))
      else
        negb (negb (key =?s "budget_month_cost") || negb (mp_threshold_bytes p =? 0)
              || f64_le (mp_threshold_cost p) f64_zero
              || f64_gt (mp_threshold_cost p) (f64_const 1 12)
              || f64_is_nan (mp_threshold_cost p) || f64_is_inf (mp_threshold_cost p))
        && Profile_Validate (policy_profile p)).

Definition month_key (key : string) : bool := one_of ["budget_month_bytes"; "budget_month_cost"] key.

Definition validateMonthData `{GoURL} (d : monitorData) (key : string) : bool :=
  match md_month_policy d with
  | Some p => present (md_period d) && policy_validate key p
  | None => true
  end
  && negb (md_month_finalized d && (negb (present (md_period d)) || negb (month_key key)))
  && validatePeriodResult (md_previous_period d).

(** The checks of [decodeMonitorData] after the JSON was read. *)
Definition decoded_data_ok `{GoURL} (key : string) (d : monitorData) : bool :=
  ((md_schema d =? 1) || (md_schema d =? 2)) && (ms_key (md_status d) =?s key)
  && milestone_value (md_milestone d)
  && negb ((md_active d && negb (ValidID (md_incident d)))
           || (present (md_incident d) && negb (ValidID (md_incident d))))
  && negb ((0 <? md_milestone d) && (negb (present (md_period d)) || negb (ValidID (md_incident d))))
  && negb (md_evaluated d && (negb (has_prefix "budget_day_" key) || negb (present (md_period d))))
  && negb (md_active d && is_zero (md_condition_since d))
  && (negb (present (md_period d))
      || (some (month_or_day key (md_period d)) && before (md_period_start d) (md_period_end d)))
  && forallb optional_time
       [md_observed_at d; md_period_start d; md_period_end d; md_condition_since d;
        md_recovery_since d; md_last_notification d; ms_condition_since (md_status d);
        ms_last_notification (md_status d)]
  && negb (is_zero (md_observed_at d) || after (md_condition_since d) (md_observed_at d)
           || after (md_recovery_since d) (md_observed_at d)
           || after (md_last_notification d) (md_observed_at d))
  && validateMonitorStatus (md_status d)
  && validateMonthData d key.

(** [decodeMonitorData], given the JSON decoder that rejects unknown fields and
    trailing data. *)
Definition decodeMonitorData `{GoURL} (decode_json : list Z -> option monitorData)
    (raw : list Z) (key : string) : option monitorData :=
  if 16384 <? lenZ raw then None
  else match decode_json raw with
       | Some d => if decoded_data_ok key d then Some d else None
       | None => None
       end.

(** ** Months *)

Definition recordedCycleDay (day : Z) : Z := if day =? 1 then 0 else day.

Definition billingCycleChanged (previous : monitorData) (i : monitorObservation) : bool :=
  match in_month_policy i with
  | Some policy =>
      if in_closing i || negb (present (md_period previous)) || negb (month_key (ms_key (in_status i)))
      then false
      else
        let old := match md_month_policy previous with
                   | Some p => recordedCycleDay (mp_cycle_start_day p)
                   | None => 0
                   end in
        negb (old =? recordedCycleDay (mp_cycle_start_day policy))
  | None => false
  end.

Definition monitorRollback (previous : monitorData) (i : monitorObservation) : bool :=
  before (in_now i) (md_observed_at previous)
  || (present (ms_period (in_status i)) && present (md_period previous)
      && string_lt (ms_period (in_status i)) (md_period previous)
      && negb (billingCycleChanged previous i)).

Definition needsMonthClose (previous : monitorData) (i : monitorObservation) : bool :=
  ms_enabled (in_status i) && negb (billingCycleChanged previous i)
  && month_key (ms_key (in_status i)) && present (md_period previous)
  && string_lt (md_period previous) (ms_period (in_status i)) && negb (md_month_finalized previous).

(** [currentMonthPolicy], given the cycle day and the tariff of the configuration. *)
Definition currentMonthPolicy (cycle_start_day : Z) (billing : option Profile)
    (s : MonitorRuleStatus) : option monitorMonthPolicy :=
  if negb (ms_available s) then None
  else if ms_key s =?s "budget_month_bytes" then
    Some (mkPolicy (recordedCycleDay cycle_start_day) (ms_threshold_bytes s) f64_zero "" 0 f64_zero [])
  else
    match billing with
    | Some p =>
        if negb (ms_key s =?s "budget_month_cost") then None
        else Some (mkPolicy (recordedCycleDay cycle_start_day) 0 (ms_threshold_cost s) (pf_currency p)
                     (pf_unit_bytes p) (pf_free_gb p) (pf_egress p))
    | None => None
    end.

(** The observation that [closingObservation] starts from. *)
Definition closing_status (previous : monitorData) : MonitorRuleStatus :=
  let s := md_status previous in
  mkStatus (ms_key s) "unknown" "historical_policy_unavailable" true false false
    (md_period previous) (md_period_start previous) (md_period_end previous)
    (ms_observed_bytes s) (ms_threshold_bytes s) (ms_observed_cost s) (ms_threshold_cost s)
    (ms_currency s) (ms_growth_ratio s) (ms_baseline_mean s) (ms_baseline_days s) (ms_milestone s)
    (ms_basis s) "unknown" (ms_condition_since s) (ms_last_notification s) (ms_previous_period s)
    time_zero time_zero 0.

(** The policy that it closes the month with: a bytes threshold can be taken from
    the status when no policy was recorded. *)
Definition closing_policy (previous : monitorData) : option monitorMonthPolicy :=
  let s := md_status previous in
  match copyMonthPolicy (md_month_policy previous) with
  | Some p => Some p
  | None =>
      if (ms_period s =?s md_period previous) && (ms_period_start s =? md_period_start previous)
         && (ms_period_end s =? md_period_end previous) && (ms_key s =?s "budget_month_bytes")
         && (0 <? ms_threshold_bytes s) && (ms_threshold_bytes s <=? i64_max)
      then Some (mkPolicy 0 (ms_threshold_bytes s) f64_zero "" 0 f64_zero [])
      else None
  end.

(** [closingObservation]: [summary] is the transmitted bytes of the recorded
    interval and [coverage] what the store says of it.  [inl] is an error. *)
Definition closingObservation `{GoURL} (summary : time -> time -> option Z)
    (coverage : time -> time -> string) (cancelled : bool) (now : time) (previous : monitorData)
    : result string monitorObservation :=
  if after (md_period_end previous) now then Err "recorded month has not ended"%string
  else
    let s := closing_status previous in
    let policy := closing_policy previous in
    let i s := mkObservation now s "" time_zero false false policy true no_diagnostic in
    match policy with
    | None => Ok (i s)
    | Some p =>
        if negb (policy_validate (ms_key s) p) then Ok (i s)
        else if negb (before (md_period_start previous) (md_period_end previous))
                || (32 * 24 * hour <? time_sub (md_period_end previous) (md_period_start previous))
        then Err "invalid closing range"%string
        else
          match summary (md_period_start previous) (md_period_end previous) with
          | None => Err "read failed"%string
          | Some tx =>
              if cancelled then Err "cancelled"%string
              else
                let s := with_coverage (coverage (md_period_start previous) (md_period_end previous)) s in
                let s := with_observed_bytes tx s in
                let s := with_threshold_bytes (mp_threshold_bytes p) s in
                let s := with_threshold_cost (mp_threshold_cost p) s in
                let finish s := Ok (i (with_reason "observed_estimate" (with_available true s))) in
                if ms_key s =?s "budget_month_cost" then
                  let estimate := Profile_Estimate (policy_profile p) tx in
                  if es_unavailable estimate then Err "recorded monthly tariff unavailable"%string
                  else finish (with_currency (es_currency estimate)
                                 (with_observed_cost (es_cost estimate) s))
                else finish s
          end
    end.

(** ** Events *)

Section Evaluate.
Context `{GoRuntime, GoText}.

(** [addEvidence]: nothing for a recovery, fixed categories otherwise. *)
Definition journal_evidence (status : JournalStatus) (e : Event) : Event :=
  if negb (one_of ["starting"; "retrying"; "gap"; "degraded"] (js_state status)) then e
  else
    let e := add_evidence "journal_state" (js_state status) e in
    let reason := SafeJournalReason (js_reason status) in
    let e := if present reason then add_evidence "component_reason" reason e else e in
    let d := SafeDiagnostic status in
    if negb (present (jd_cause d)) then e
    else
      let e := add_evidence "failure_cause" (jd_cause d) e in
      let e := add_evidence "diagnostic_scope" (jd_scope d) e in
      let e := if negb (is_zero (jd_at d)) && negb (after (jd_at d) (ev_observed_at e))
               then add_evidence "diagnostic_at_utc" (fmt_rfc3339nano (jd_at d)) e else e in
      let e := match jd_exit_code d with
               | Some code => add_evidence "journal_exit_code" (fmt_int code) e
               | None => e
               end in
      if present (jd_signal d) then add_evidence "journal_signal" (jd_signal d) e else e.

Definition geo_evidence (h : Health) (e : Event) : Event :=
  if negb (Health_Validate h) then e
  else
    let e := add_evidence "component_reason" (h_result h) e in
    let e := if negb (is_zero (h_checked_at h)) && negb (after (h_checked_at h) (ev_observed_at e))
             then add_evidence "diagnostic_at_utc" (fmt_rfc3339nano (h_checked_at h)) e else e in
    match h_diagnostic h with
    | None => e
    | Some d =>
        let e := add_evidence "diagnostic_scope" "current" e in
        let e := add_evidence "failure_stage" (gd_stage d) e in
        let e := add_evidence "failure_cause" (gd_reason d) e in
        let e := if present (gd_edition d) then add_evidence "geoip_edition" (gd_edition d) e else e in
        if gd_http_status d =? 0 then e
        else add_evidence "http_status" (fmt_int (gd_http_status d)) e
    end.

Definition addEvidence (d : monitorDiagnostic) (e : Event) : Event :=
  if ev_phase e =?s "recovery" then e
  else if ev_kind e =?s "health_ssh_journal" then
    match dg_journal d with Some status => journal_evidence status e | None => e end
  else if ev_kind e =?s "health_geoip_update" then
    match dg_geo d with Some h => geo_evidence h e | None => e end
  else e.

Definition healthStatus (d : monitorData) : monitorData :=
  put_status (with_last_notification (md_last_notification d)
               (with_condition_since (md_condition_since d) (md_status d))) d.

Definition healthEvent (d : monitorData) (now : time) (phase : string)
    (diagnostic : monitorDiagnostic) (ids : nat) : Event * nat :=
  let recovery := phase =?s "recovery" in
  let '(id, ids) := NewID "evt" ids in
  (addEvidence diagnostic
     (mkEvent id (md_incident d) now (ms_key (md_status d)) phase
        (if recovery then SeverityInfo else SeverityMedium)
        (if recovery then "Monitoring health condition recovered"
         else "Monitoring health condition requires attention")
        "" "" "" 0 no_geo
        {["reason" := ms_reason (md_status d);
          "condition_since_utc" := fmt_rfc3339nano (md_condition_since d);
          "observation" := "recorded component health; does not guarantee complete collection or notification delivery"]}%string),
   ids).

Definition put_state (state : string) (d : monitorData) : monitorData :=
  put_status (with_state state (md_status d)) d.
Definition put_unavailable (state reason : string) (d : monitorData) : monitorData :=
  put_status (with_available false (with_reason reason (with_state state (md_status d)))) d.

Definition evaluation : Type := monitorData * list Event * nat.

(** The branch of a failed condition. *)
Definition health_failed (next : monitorData) (i : monitorObservation) (h : HealthAlertsConfig)
    (startup : bool) (ids : nat) : evaluation :=
  let now := in_now i in
  let next := put_recovery_since time_zero next in
  let next :=
    put_condition_since
      (if is_zero (md_condition_since next) then
         if negb (is_zero (in_since i)) && negb (after (in_since i) now) then in_since i else now
       else md_condition_since next) next in
  if negb (md_active next) then
    let next := put_state "debouncing" next in
    if startup || (time_sub now (md_condition_since next) <? ha_grace_period h)
    then (healthStatus next, [], ids)
    else
      let '(incident, ids) := NewID "monitor" ids in
      let next := put_state "alert"
        (put_last_notification now (put_incident incident (put_active true next))) in
      let '(event, ids) := healthEvent next now "start" (in_diagnostic i) ids in
      (healthStatus next, [event], ids)
  else
    let next := put_state "alert" next in
    if negb startup && (0 <? ha_reminder_interval h)
       && (ha_reminder_interval h <=? time_sub now (md_last_notification next))
    then
      let next := put_last_notification now next in
      let '(event, ids) := healthEvent next now "update" (in_diagnostic i) ids in
      (healthStatus next, [event], ids)
    else (healthStatus next, [], ids).

(** The branch of a healthy condition. *)
Definition health_healthy (next : monitorData) (i : monitorObservation) (h : HealthAlertsConfig)
    (startup : bool) (ids : nat) : evaluation :=
  let now := in_now i in
  if startup then
    (healthStatus (put_unavailable "unknown" "startup_grace" (put_recovery_since time_zero next)),
     [], ids)
  else if md_active next then
    let next :=
      put_recovery_since
        (if is_zero (md_recovery_since next) then now else md_recovery_since next) next in
    let next := put_state "recovering" next in
    if time_sub now (md_recovery_since next) <? ha_recovery_period h
    then (healthStatus next, [], ids)
    else
      let next := put_state "healthy" (put_last_notification now (put_active false next)) in
      let '(event, ids) := healthEvent next now "recovery" (in_diagnostic i) ids in
      (healthStatus (put_recovery_since time_zero (put_condition_since time_zero next)), [event], ids)
  else
    (healthStatus (put_state "healthy" (put_recovery_since time_zero
       (put_condition_since time_zero next))), [], ids).

Definition evaluateHealth (next : monitorData) (i : monitorObservation) (h : HealthAlertsConfig)
    (started : time) (ids : nat) : evaluation :=
  let next := if in_geo_known i then put_geo_scheduled (in_geo_scheduled i) next else next in
  if negb (ms_enabled (in_status i)) || (in_condition i =?s "disabled") then
    let next := put_incident "" (put_recovery_since time_zero
      (put_condition_since time_zero (put_active false next))) in
    (put_status (with_available true (with_reason "disabled" (with_state "disabled" (md_status next))))
       next, [], ids)
  else if in_condition i =?s "unknown" then
    let next := put_recovery_since time_zero next in
    let next := if negb (md_active next) then put_condition_since time_zero next else next in
    (healthStatus (put_status (with_available false (with_state "unknown" (md_status next))) next),
     [], ids)
  else
    let startup := before (in_now i) (time_add started (ha_grace_period h)) in
    if in_condition i =?s "failed" then health_failed next i h startup ids
    else health_healthy next i h startup ids.

(** ** Budgets *)

(** [threshold/5*4 + (threshold%5*4+4)/5], in [uint64]. *)
Definition eighty_percent (threshold : Z) : Z :=
  add_u64 (wrap_u64 (threshold / 5 * 4)) (add_u64 (wrap_u64 (threshold mod 5 * 4)) 4 / 5).

Definition budget_milestone (s : MonitorRuleStatus) : Z :=
  if ms_key s =?s "budget_month_bytes" then
    if ms_threshold_bytes s <=? ms_observed_bytes s then 100
    else if eighty_percent (ms_threshold_bytes s) <=? ms_observed_bytes s then 80 else 0
  else if ms_key s =?s "budget_month_cost" then
    if f64_ge (ms_observed_cost s) (ms_threshold_cost s) then 100
    else if f64_ge (ms_observed_cost s) (f64_mul (ms_threshold_cost s) (f64_const 8 (-1))) then 80 else 0
  else if ms_key s =?s "budget_day_bytes" then
    if ms_threshold_bytes s <=? ms_observed_bytes s then 100 else 0
  else if ms_key s =?s "budget_day_growth" then
    if f64_ge (f64_of_Z (ms_observed_bytes s)) (f64_mul (ms_baseline_mean s) (ms_growth_ratio s))
    then 100 else 0
  else 0.

Definition budget_summary (milestone : Z) : string :=
  ("Observed guest TX estimate reached " ++ fmt_int milestone ++ "% of the configured threshold")%string.

Definition budget_evidence (s : MonitorRuleStatus) (milestone : Z) : gmap string string :=
  {["period" := ms_period s;
    "period_start_utc" := fmt_rfc3339nano (ms_period_start s);
    "period_end_utc" := fmt_rfc3339nano (ms_period_end s);
    "reason" := "threshold_crossed";
    "observed_bytes" := fmt_int (ms_observed_bytes s);
    "threshold_bytes" := fmt_int (ms_threshold_bytes s);
    "observed_cost" := fmt_v (ms_observed_cost s);
    "threshold_cost" := fmt_v (ms_threshold_cost s);
    "currency" := ms_currency s]}%string
  ∪ {["baseline_mean_bytes" := fmt_v (ms_baseline_mean s);
      "baseline_days" := fmt_int (ms_baseline_days s);
      "growth_ratio" := fmt_v (ms_growth_ratio s);
      "milestone" := fmt_int milestone;
      "coverage" := ms_coverage s;
      "basis" := monitorBasis]}%string.

(** A different month, or a different billing cycle, starts from nothing; the
    month that a cycle change cuts short is kept as a result. *)
Definition start_period (previous next : monitorData) (i : monitorObservation) : monitorData :=
  let s := in_status i in
  let cycleChanged := billingCycleChanged previous i in
  if (md_period previous =?s ms_period s) && negb cycleChanged then next
  else
    let next :=
      if cycleChanged then
        let c := ms_coverage (md_status previous) in
        let coverage := if one_of ["adequate_recorded"; "incomplete"] c then c else "unknown"%string in
        let r := mkPeriodResult (md_period previous) (md_period_start previous)
                   (md_period_end previous) false "billing_cycle_changed" (md_milestone previous)
                   coverage in
        put_status (with_previous_period r (md_status next)) (put_previous_period r next)
      else next in
    put_month_policy None (put_month_finalized false (put_last_notification time_zero
      (put_incident "" (put_evaluated false (put_milestone 0
        (put_period_end (ms_period_end s) (put_period_start (ms_period_start s)
          (put_period (ms_period s) next)))))))).

Definition daily_key (s : MonitorRuleStatus) : bool := has_prefix "budget_day_" (ms_key s).

(** The policy that the current month will be closed with. *)
Definition record_policy (next : monitorData) (i : monitorObservation) : monitorData :=
  let s := in_status i in
  if negb (daily_key s) && negb (in_closing i) then
    let next := put_period_end (ms_period_end s) (put_period_start (ms_period_start s) next) in
    match copyMonthPolicy (in_month_policy i) with
    | Some p => put_month_policy (Some p) next
    | None =>
        if (ms_key s =?s "budget_month_bytes") && (0 <? ms_threshold_bytes s)
        then put_month_policy (Some (mkPolicy 0 (ms_threshold_bytes s) f64_zero "" 0 f64_zero [])) next
        else put_month_policy None next
    end
  else next.

(** The milestone reached, and its event when it is a new one. *)
Definition reach_milestone (next : monitorData) (i : monitorObservation) (ids : nat) : evaluation :=
  let s := in_status i in
  let milestone := budget_milestone s in
  if md_milestone next <? milestone then
    let first := md_milestone next =? 0 in
    let phase := if first then "start"%string else "update"%string in
    let '(next, ids) :=
      if first then let '(id, ids) := NewID "monitor" ids in (put_incident id next, ids)
      else (next, ids) in
    let next := put_last_notification (in_now i) (put_milestone milestone next) in
    let '(id, ids) := NewID "evt" ids in
    (next,
     [mkEvent id (md_incident next) (in_now i) (ms_key s) phase
        (if milestone =? 100 then SeverityHigh else SeverityMedium)
        (budget_summary milestone) "" "" "" 0 no_geo (budget_evidence s milestone)],
     ids)
  else (next, [], ids).

(** The status that an evaluated budget shows. *)
Definition budget_status (next : monitorData) : monitorData :=
  let next :=
    if 0 <? md_milestone next
    then put_status (with_reason "threshold_crossed" (with_state "alert" (md_status next))) next
    else next in
  put_status (with_last_notification (md_last_notification next)
               (with_milestone (md_milestone next) (md_status next))) next.

(** The result of a month that is closed. *)
Definition close_month (next : monitorData) (i : monitorObservation) : monitorData :=
  if in_closing i then
    let r := mkPeriodResult (md_period next) (md_period_start next) (md_period_end next) true
               (ms_reason (md_status next)) (md_milestone next) (ms_coverage (in_status i)) in
    put_status (with_previous_period r (md_status next))
      (put_previous_period r (put_month_finalized true next))
  else next.

Definition evaluateBudget (next previous : monitorData) (i : monitorObservation) (ids : nat)
    : evaluation :=
  let s := in_status i in
  if in_closing i && md_month_finalized previous then (previous, [], ids)
  else
    let next := put_status (with_previous_period (md_previous_period previous) (md_status next)) next in
    if in_closing i && negb (ms_available s) && (ms_reason s =?s "historical_policy_unavailable") then
      let r := mkPeriodResult (md_period previous) (md_period_start previous) (md_period_end previous)
                 false (ms_reason s) (md_milestone previous) (ms_coverage s) in
      (put_state "unknown" (put_status (with_previous_period r (md_status next))
         (put_previous_period r (put_month_finalized true next))), [], ids)
    else if negb (ms_enabled s) then
      (put_status (with_available true (with_reason "disabled" (with_state "disabled" (md_status next))))
         next, [], ids)
    else if negb (ms_available s) then
      let next :=
        if ms_period s =?s md_period previous then
          put_status (with_last_notification (md_last_notification previous)
                       (with_milestone (md_milestone previous) (md_status next))) next
        else next in
      (put_state "unknown" next, [], ids)
    else if (md_period previous =?s ms_period s) && daily_key s && md_evaluated previous then
      (put_status (md_status previous) next, [], ids)
    else
      let next := record_policy (start_period previous next i) i in
      let next := put_evaluated (daily_key s) next in
      let next := put_status (with_reason "observed_estimate"
                    (with_state "observed" (md_status next))) next in
      let '(next, events, ids) := reach_milestone next i ids in
      (close_month (budget_status next) i, events, ids).

Definition evaluateMonitor (previous : monitorData) (i : monitorObservation) (cfg : AlertsConfig)
    (started : time) (ids : nat) : evaluation :=
  if monitorRollback previous i then (previous, [], ids)
  else
    let next := put_status (in_status i)
      (put_observed_at (in_now i) (put_schema 2 previous)) in
    if has_prefix "budget_" (ms_key (in_status i)) then evaluateBudget next previous i ids
    else evaluateHealth next i (al_health cfg) started ids.
End Evaluate.

(** Renderings and a URL parser for the worked examples. *)
Definition example_text : GoText := {|
  fmt_v := fun f => match f64_trunc f with Some z => pretty.pretty z | None => "?" end;
  fmt_rfc3339nano := fun t => pretty.pretty t |}.

Definition example_url : GoURL := {| parse_url := fun _ => Some ("https", "example.invalid", false)%string |}.
