(* ===== verification/MonitorHealth.v ===== *)
(** * Health incidents

    The contract of a health rule of [internal/daemon/monitor_state.go], as a
    specification over the history of observations alone, and the proof that the
    evaluator, which keeps only a few times, implements it. *)

From S2P Require Export Monitor.

(** ** The specification

    Histories are newest first and hold the observations that were not in the
    past of an earlier one. *)

Section Spec.
Context (h : HealthAlertsConfig) (started : time).

Definition enabled_condition (condition : string) (i : monitorObservation) : bool :=
  ms_enabled (in_status i) && (in_condition i =?s condition).

Definition starting_up (i : monitorObservation) : bool :=
  before (in_now i) (time_add started (ha_grace_period h)).

Definition failed (i : monitorObservation) : bool := enabled_condition "failed" i.
Definition unknown (i : monitorObservation) : bool := enabled_condition "unknown" i.
Definition disabled (i : monitorObservation) : bool :=
  negb (ms_enabled (in_status i)) || (in_condition i =?s "disabled").
(** A healthy observation is believed only after the start-up period. *)
Definition healthy (i : monitorObservation) : bool :=
  negb (disabled i) && negb (unknown i) && negb (failed i) && negb (starting_up i).

(** A failure goes on until an observation contradicts or interrupts it. *)
Definition ongoing (i : monitorObservation) : bool :=
  negb (disabled i) && negb (unknown i) && negb (healthy i).

(** The newest observations up to the first that does not satisfy [p]. *)
Fixpoint leading (p : monitorObservation -> bool) (l : list monitorObservation)
    : list monitorObservation :=
  match l with
  | i :: l => if p i then i :: leading p l else []
  | [] => []
  end.

(** When the failure that a failed observation reports began. *)
Definition onset (i : monitorObservation) : time :=
  if negb (is_zero (in_since i)) && negb (after (in_since i) (in_now i)) then in_since i else in_now i.

Definition failing_since (l : list monitorObservation) : option time :=
  onset <$> last (filter (fun i => failed i = true) (leading ongoing l)).
Definition healthy_since (l : list monitorObservation) : option time :=
  in_now <$> last (leading healthy l).

(** The open incident and the time of its latest event. *)
Definition open_incident : Type := option (string * time).

(** The phase that the newest observation must report. *)
Definition due (l : list monitorObservation) (o : open_incident) : option string :=
  match l with
  | [] => None
  | i :: _ =>
      if failed i then
        if starting_up i then None
        else match o with
             | None =>
                 match failing_since l with
                 | Some t => if ha_grace_period h <=? time_sub (in_now i) t then Some "start"%string else None
                 | None => None
                 end
             | Some (_, t) =>
                 if (0 <? ha_reminder_interval h) && (ha_reminder_interval h <=? time_sub (in_now i) t)
                 then Some "update"%string else None
             end
      else if healthy i then
        match o, healthy_since l with
        | Some _, Some t =>
            if ha_recovery_period h <=? time_sub (in_now i) t then Some "recovery"%string else None
        | _, _ => None
        end
      else None
  end.

(** One accepted observation: nothing, or one event of the incident; a disabled
    rule drops its incident silently. *)
Inductive spec_step (l : list monitorObservation) (i : monitorObservation)
    : open_incident -> list Event -> open_incident -> Prop :=
| step_silent o :
    due (i :: l) o = None -> spec_step l i o [] (if disabled i then None else o)
| step_start e :
    due (i :: l) None = Some "start"%string -> ev_phase e = "start"%string ->
    ev_observed_at e = in_now i -> ev_kind e = ms_key (in_status i) ->
    spec_step l i None [e] (Some (ev_incident e, in_now i))
| step_update e id t :
    due (i :: l) (Some (id, t)) = Some "update"%string -> ev_phase e = "update"%string ->
    ev_observed_at e = in_now i -> ev_kind e = ms_key (in_status i) -> ev_incident e = id ->
    spec_step l i (Some (id, t)) [e] (Some (id, in_now i))
| step_recovery e id t :
    due (i :: l) (Some (id, t)) = Some "recovery"%string -> ev_phase e = "recovery"%string ->
    ev_observed_at e = in_now i -> ev_kind e = ms_key (in_status i) -> ev_incident e = id ->
    spec_step l i (Some (id, t)) [e] None.

(** The time of the newest observation: an older one is ignored. *)
Definition newest (l : list monitorObservation) : time :=
  match l with i :: _ => in_now i | [] => time_zero end.

Inductive spec_run : list monitorObservation -> open_incident -> list monitorObservation ->
    list Event -> list monitorObservation -> open_incident -> Prop :=
| run_nil l o : spec_run l o [] [] l o
| run_late l o i obs es l' o' :
    in_now i < newest l -> spec_run l o obs es l' o' -> spec_run l o (i :: obs) es l' o'
| run_step l o i obs es1 o1 es l' o' :
    newest l <= in_now i -> spec_step l i o es1 o1 -> spec_run (i :: l) o1 obs es l' o' ->
    spec_run l o (i :: obs) (es1 ++ es) l' o'.
End Spec.

(** ** The evaluator over a history *)

Section Run.
Context `{GoRuntime, GoText} (cfg : AlertsConfig) (started : time).

Fixpoint monitor_run (obs : list monitorObservation) (d : monitorData) (ids : nat) : evaluation :=
  match obs with
  | [] => (d, [], ids)
  | i :: obs =>
      let '(d, es1, ids) := evaluateMonitor d i cfg started ids in
      let '(d, es, ids) := monitor_run obs d ids in (d, es1 ++ es, ids)
  end.
End Run.

(** An observation of the health rule [key], at a time after the zero instant. *)
Definition observes (key : string) (i : monitorObservation) : Prop :=
  ms_key (in_status i) = key /\ ms_period (in_status i) = ""%string /\ 0 < in_now i.

(** ** The evaluator follows the specification *)

Section History.
Context (h : HealthAlertsConfig) (started : time).

Lemma failed_ongoing i : failed i = true -> ongoing h started i = true.
Proof.
  unfold ongoing, healthy, disabled, unknown, failed, enabled_condition.
  destruct (ms_enabled _); [|done]. simpl. intros ->%String.eqb_eq. done.
Qed.

(** The four kinds of observation. *)
Lemma condition_cases i :
  (disabled i = true /\ failed i = false /\ unknown i = false) \/
  (disabled i = false /\ failed i = false /\ unknown i = true) \/
  (disabled i = false /\ failed i = true /\ unknown i = false) \/
  (disabled i = false /\ failed i = false /\ unknown i = false).
Proof.
  unfold disabled, unknown, failed, enabled_condition.
  destruct (ms_enabled _); simpl; [|by left].
  destruct (in_condition i =?s "disabled") eqn:E1;
    [apply String.eqb_eq in E1; rewrite E1; by left|].
  destruct (in_condition i =?s "failed") eqn:E2;
    [apply String.eqb_eq in E2; rewrite E2; by do 2 right; left|].
  destruct (in_condition i =?s "unknown") eqn:E3; [by right; left|by do 3 right].
Qed.

Lemma onset_nonzero i : 0 < in_now i -> is_zero (onset i) = false.
Proof.
  unfold onset. intros Hn. destruct (is_zero (in_since i)) eqn:E; simpl; [|case_if; [done|]];
    unfold is_zero; lia.
Qed.

Lemma last_filter_cons (P : monitorObservation -> Prop) `{!forall x, Decision (P x)} i l :
  P i -> last (filter P (i :: l)) = Some (default i (last (filter P l))).
Proof.
  intros Hi. rewrite filter_cons_True by done.
  destruct (filter P l) as [|j r] eqn:E; [done|]. rewrite last_cons_cons.
  by destruct (last (j :: r)) as [x|] eqn:E2; [|apply last_None in E2].
Qed.

Lemma failing_since_failed i l :
  failed i = true ->
  failing_since h started (i :: l) = Some (default (onset i) (failing_since h started l)).
Proof.
  intros Hf. unfold failing_since. cbn [leading]. rewrite failed_ongoing by done.
  rewrite last_filter_cons by done.
  by destruct (last _).
Qed.

Lemma failing_since_skip i l :
  ongoing h started i = true -> failed i = false ->
  failing_since h started (i :: l) = failing_since h started l.
Proof.
  intros Ho Hf. unfold failing_since. cbn [leading]. rewrite Ho, filter_cons_False; [done|].
  by rewrite Hf.
Qed.

Lemma failing_since_reset i l :
  ongoing h started i = false -> failing_since h started (i :: l) = None.
Proof. intros Ho. unfold failing_since. cbn [leading]. by rewrite Ho. Qed.

Lemma healthy_since_healthy i l :
  healthy h started i = true ->
  healthy_since h started (i :: l) = Some (default (in_now i) (healthy_since h started l)).
Proof.
  intros Hf. unfold healthy_since. cbn [leading]. rewrite Hf.
  destruct (leading _ l) as [|j r] eqn:E; [done|]. rewrite last_cons_cons.
  by destruct (last (j :: r)) as [x|] eqn:E2; [|apply last_None in E2].
Qed.

Lemma healthy_since_reset i l :
  healthy h started i = false -> healthy_since h started (i :: l) = None.
Proof. intros Ho. unfold healthy_since. cbn [leading]. by rewrite Ho. Qed.

(** The times that a history gives are after the zero instant. *)
Lemma failing_since_nonzero l t :
  Forall (fun i => 0 < in_now i) l -> failing_since h started l = Some t -> is_zero t = false.
Proof.
  intros Hl. revert t. induction Hl as [|i l Hi Hl IH]; intros t; [done|].
  destruct (failed i) eqn:Ef.
  - rewrite failing_since_failed by done. intros [= <-].
    destruct (failing_since h started l); [by apply IH|by apply onset_nonzero].
  - destruct (ongoing h started i) eqn:Eo.
    + rewrite failing_since_skip by done. apply IH.
    + by rewrite failing_since_reset.
Qed.

Lemma healthy_since_nonzero l t :
  Forall (fun i => 0 < in_now i) l -> healthy_since h started l = Some t -> is_zero t = false.
Proof.
  intros Hl. revert t. induction Hl as [|i l Hi Hl IH]; intros t; [done|].
  destruct (healthy h started i) eqn:Ef.
  - rewrite healthy_since_healthy by done. intros [= <-].
    destruct (healthy_since h started l); [by apply IH|]. unfold is_zero. simpl. lia.
  - by rewrite healthy_since_reset.
Qed.

(** What a state keeps of a history. *)
Record tracks (l : list monitorObservation) (d : monitorData) (o : open_incident) : Prop := {
  tr_at : md_observed_at d = newest l;
  tr_open : o = if md_active d then Some (md_incident d, md_last_notification d) else None;
  tr_failing : md_active d = false -> md_condition_since d = default time_zero (failing_since h started l);
  tr_healthy : md_active d = true -> md_recovery_since d = default time_zero (healthy_since h started l);
  tr_times : Forall (fun i => 0 < in_now i) l }.

(** The state's condition start, updated by a failed observation. *)
Lemma condition_start l d i :
  Forall (fun i => 0 < in_now i) l ->
  md_condition_since d = default time_zero (failing_since h started l) ->
  (if is_zero (md_condition_since d) then onset i else md_condition_since d) =
  default (onset i) (failing_since h started l).
Proof.
  intros Hl ->. destruct (failing_since h started l) as [t|] eqn:E; simpl; [|done].
  by rewrite (failing_since_nonzero l t Hl E).
Qed.

Lemma recovery_start l d i :
  Forall (fun i => 0 < in_now i) l ->
  md_recovery_since d = default time_zero (healthy_since h started l) ->
  (if is_zero (md_recovery_since d) then in_now i else md_recovery_since d) =
  default (in_now i) (healthy_since h started l).
Proof.
  intros Hl ->. destruct (healthy_since h started l) as [t|] eqn:E; simpl; [|done].
  by rewrite (healthy_since_nonzero l t Hl E).
Qed.
End History.

#[local] Arguments healthEvent : simpl never.

Section Steps.
Context `{GoRuntime, GoText} (h : HealthAlertsConfig) (started : time).

(** What the handlers start from: the old incident with the new observation. *)
Record carries (d next : monitorData) (i : monitorObservation) : Prop := {
  ca_at : md_observed_at next = in_now i;
  ca_key : ms_key (md_status next) = ms_key (in_status i);
  ca_active : md_active next = md_active d;
  ca_incident : md_incident next = md_incident d;
  ca_since : md_condition_since next = md_condition_since d;
  ca_recovery : md_recovery_since next = md_recovery_since d;
  ca_last : md_last_notification next = md_last_notification d }.

Lemma addEvidence_event d e :
  ev_phase (addEvidence d e) = ev_phase e /\ ev_incident (addEvidence d e) = ev_incident e /\
  ev_observed_at (addEvidence d e) = ev_observed_at e /\ ev_kind (addEvidence d e) = ev_kind e /\
  ev_id (addEvidence d e) = ev_id e.
Proof.
  unfold addEvidence, journal_evidence, geo_evidence. cbv zeta.
  repeat first [case_if | case_match]; done.
Qed.

Lemma healthEvent_event d now phase diag ids :
  let e := fst (healthEvent d now phase diag ids) in
  ev_phase e = phase /\ ev_incident e = md_incident d /\ ev_observed_at e = now /\
  ev_kind e = ms_key (md_status d).
Proof.
  unfold healthEvent. simpl. by destruct (addEvidence_event diag
    (mkEvent ("evt_" ++ id_draw ids) (md_incident d) now (ms_key (md_status d)) phase
       (if phase =?s "recovery" then SeverityInfo else SeverityMedium)
       (if phase =?s "recovery" then "Monitoring health condition recovered"
        else "Monitoring health condition requires attention")
       "" "" "" 0 no_geo
       {["reason" := ms_reason (md_status d);
         "condition_since_utc" := fmt_rfc3339nano (md_condition_since d);
         "observation" := "recorded component health; does not guarantee complete collection or notification delivery"]})%string)
    as (? & ? & ? & ? & _).
Qed.

(** Reads the fields of the state that a handler returns. *)
Ltac tracked :=
  split; cbn; [reflexivity|reflexivity|intros; try discriminate|intros; try discriminate|done].

(** Runs a handler on a concrete record. *)
Ltac open_next next Ca Ck Cact Ci Cs Cr Cl :=
  destruct next; cbn in Ca, Ck, Cact, Ci, Cs, Cr, Cl; subst; cbn.

(** Names the event of a handler. *)
Ltac name_event :=
  match goal with
  | |- context [healthEvent ?d ?n ?p ?g ?k] =>
      let Hp := fresh "Hp" in let Hi := fresh "Hi" in
      let Ho := fresh "Ho" in let Hk := fresh "Hk" in
      destruct (healthEvent_event d n p g k) as (Hp & Hi & Ho & Hk);
      destruct (healthEvent d n p g k) as [e ids']; cbn in Hp, Hi, Ho, Hk
  end.

Lemma failed_step l d o next i ids :
  tracks h started l d o -> carries d next i -> 0 < in_now i -> failed i = true ->
  let '(d', es, _) := health_failed next i h (starting_up h started i) ids in
  exists o', spec_step h started l i o es o' /\ tracks h started (i :: l) d' o'.
Proof.
  intros [Hat Ho Hf Hh Ht] [Ca Ck Cact Ci Cs Cr Cl] Hn Hfail.
  assert (Hon : disabled i = false /\ healthy h started i = false).
  { destruct (condition_cases i) as [|[|[|]]]; destruct_and!; try congruence.
    split; [done|]. unfold healthy. rewrite Hfail, !andb_false_r. done. }
  destruct Hon as [Hdis Hheal].
  assert (Ht' : Forall (fun i => 0 < in_now i) (i :: l)) by by constructor.
  pose proof (failing_since_failed h started i l Hfail) as Hfs.
  pose proof (healthy_since_reset h started i l Hheal) as Hhs.
  unfold health_failed. destruct (md_active d) eqn:Eact.
  - assert (Hdue : due h started (i :: l) o =
      if starting_up h started i then None
      else if (0 <? ha_reminder_interval h)
           && (ha_reminder_interval h <=? time_sub (in_now i) (md_last_notification d))
      then Some "update"%string else None) by (subst o; simpl; by rewrite Hfail).
    clear Hf. open_next next Ca Ck Cact Ci Cs Cr Cl.
    destruct (starting_up h started i); [|destruct (_ && _) eqn:Er]; cbn.
    1, 3: eexists; (split; [by apply step_silent|]); rewrite Hdis; tracked; by rewrite Hhs.
    name_event. eexists. split; [apply step_update; congruence|]. tracked. by rewrite Hhs.
  - specialize (Hf eq_refl). pose proof (condition_start h started l d i Ht Hf) as Hc.
    assert (Hdue : due h started (i :: l) o =
      if starting_up h started i then None
      else if ha_grace_period h <=? time_sub (in_now i) (default (onset i) (failing_since h started l))
      then Some "start"%string else None) by (subst o; simpl; by rewrite Hfail, Hfs).
    open_next next Ca Ck Cact Ci Cs Cr Cl. fold (onset i). rewrite Hc, Z.ltb_antisym.
    destruct (starting_up h started i); [|destruct (_ <=? _) eqn:Er]; cbn.
    1, 3: eexists; (split; [by apply step_silent|]); rewrite Hdis; tracked; by rewrite Hfs.
    name_event. eexists. split; [apply step_start; congruence|]. rewrite Hi. tracked. by rewrite Hhs.
Qed.

Lemma healthy_step l d o next i ids :
  tracks h started l d o -> carries d next i -> 0 < in_now i ->
  disabled i = false -> unknown i = false -> failed i = false ->
  let '(d', es, _) := health_healthy next i h (starting_up h started i) ids in
  exists o', spec_step h started l i o es o' /\ tracks h started (i :: l) d' o'.
Proof.
  intros [Hat Ho Hf Hh Ht] [Ca Ck Cact Ci Cs Cr Cl] Hn Hdis Hunk Hfail.
  assert (Hheal : healthy h started i = negb (starting_up h started i))
    by (unfold healthy; by rewrite Hdis, Hunk, Hfail).
  assert (Hong : ongoing h started i = starting_up h started i)
    by (unfold ongoing; rewrite Hheal, Hdis, Hunk; by destruct (starting_up h started i)).
  assert (Ht' : Forall (fun i => 0 < in_now i) (i :: l)) by by constructor.
  unfold health_healthy. destruct (starting_up h started i) eqn:Es.
  - assert (Hdue : due h started (i :: l) o = None) by (simpl; by rewrite Hfail, Hheal).
    pose proof (failing_since_skip h started i l Hong Hfail) as Hfs.
    pose proof (healthy_since_reset h started i l Hheal) as Hhs.
    destruct (md_active d) eqn:Eact; open_next next Ca Ck Cact Ci Cs Cr Cl;
      (eexists; split; [by apply step_silent|]); rewrite Hdis; tracked.
    + by rewrite Hhs.
    + rewrite Hfs. auto.
  - pose proof (failing_since_reset h started i l Hong) as Hfs.
    pose proof (healthy_since_healthy h started i l Hheal) as Hhs.
    destruct (md_active d) eqn:Eact.
    + specialize (Hh eq_refl). pose proof (recovery_start h started l d i Ht Hh) as Hr.
      assert (Hdue : due h started (i :: l) o =
        if ha_recovery_period h <=?
             time_sub (in_now i) (default (in_now i) (healthy_since h started l))
        then Some "recovery"%string else None)
        by (subst o; cbn [due]; by rewrite Hfail, Hheal, Hhs).
      open_next next Ca Ck Cact Ci Cs Cr Cl. rewrite Hr, Z.ltb_antisym.
      destruct (_ <=? _) eqn:Er; cbn.
      * name_event. eexists. split; [apply step_recovery; congruence|]. tracked. by rewrite Hfs.
      * eexists. split; [by apply step_silent|]. rewrite Hdis. tracked. by rewrite Hhs.
    + assert (Hdue : due h started (i :: l) o = None)
        by (subst o; cbn [due]; by rewrite Hfail, Hheal).
      open_next next Ca Ck Cact Ci Cs Cr Cl.
      eexists. split; [by apply step_silent|]. rewrite Hdis. tracked. by rewrite Hfs.
Qed.

(** Every accepted observation is a step of the specification. *)
Lemma evaluateHealth_step l d o next i ids :
  tracks h started l d o -> carries d next i -> 0 < in_now i ->
  let '(d', es, _) := evaluateHealth next i h started ids in
  exists o', spec_step h started l i o es o' /\ tracks h started (i :: l) d' o'.
Proof.
  intros Ht Hc Hn. unfold evaluateHealth.
  set (next1 := if in_geo_known i then _ else next).
  assert (Hc1 : carries d next1 i)
    by (unfold next1; destruct Hc, (in_geo_known i), next; by split).
  clearbody next1. clear Hc next.
  change (negb (ms_enabled (in_status i)) || (in_condition i =?s "disabled")) with (disabled i).
  destruct (condition_cases i) as [(Hd & Hf & Hu)|[(Hd & Hf & Hu)|[(Hd & Hf & Hu)|(Hd & Hf & Hu)]]];
    rewrite Hd.
  - assert (Hheal : healthy h started i = false) by (unfold healthy; by rewrite Hd).
    assert (Hong : ongoing h started i = false) by (unfold ongoing; by rewrite Hd).
    pose proof (failing_since_reset h started i l Hong) as Hfs.
    destruct Ht as [Hat Ho Hfo Hh Htt]. destruct Hc1 as [Ca Ck Cact Ci Cs Cr Cl].
    assert (Ht' : Forall (fun i => 0 < in_now i) (i :: l)) by by constructor.
    open_next next1 Ca Ck Cact Ci Cs Cr Cl. eexists. split.
    { apply step_silent. cbn [due]. by rewrite Hf, Hheal. }
    rewrite Hd. tracked. by rewrite Hfs.
  - unfold unknown, enabled_condition in Hu. apply andb_true_iff in Hu as [Hen Hu'].
    rewrite Hu'. assert (Hu : unknown i = true) by (unfold unknown, enabled_condition; by rewrite Hen).
    assert (Hheal : healthy h started i = false) by (unfold healthy; by rewrite Hu, andb_false_r).
    assert (Hong : ongoing h started i = false) by (unfold ongoing; by rewrite Hu, andb_false_r).
    pose proof (failing_since_reset h started i l Hong) as Hfs.
    pose proof (healthy_since_reset h started i l Hheal) as Hhs.
    destruct Ht as [Hat Ho Hfo Hh Htt]. destruct Hc1 as [Ca Ck Cact Ci Cs Cr Cl].
    assert (Ht' : Forall (fun i => 0 < in_now i) (i :: l)) by by constructor.
    destruct (md_active d) eqn:Eact; open_next next1 Ca Ck Cact Ci Cs Cr Cl;
      (eexists; split; [apply step_silent; cbn [due]; by rewrite Hf, Hheal|]); rewrite Hd; tracked.
    + by rewrite Hhs.
    + by rewrite Hfs.
  - assert (Hen : ms_enabled (in_status i) = true /\ in_condition i = "failed"%string).
    { unfold failed, enabled_condition in Hf. apply andb_true_iff in Hf as [He Hx].
      apply String.eqb_eq in Hx. done. }
    destruct Hen as [Hen Hcond]. rewrite Hcond. cbn [String.eqb Ascii.eqb Bool.eqb].
    fold (starting_up h started i). by apply (failed_step l d).
  - assert (Hen : ms_enabled (in_status i) = true)
      by (unfold disabled in Hd; apply orb_false_iff in Hd as [Hd _]; by apply negb_false_iff in Hd).
    pose proof Hu as Hu'. pose proof Hf as Hf'.
    unfold unknown, failed, enabled_condition in Hu', Hf'. rewrite Hen in Hu', Hf'. simpl in Hu', Hf'.
    rewrite Hu', Hf'. fold (starting_up h started i). by apply (healthy_step l d).
Qed.
End Steps.

Section Contract.
Context `{GoRuntime, GoText} (cfg : AlertsConfig) (started : time).
Abbreviation h := (al_health cfg).

Lemma health_rollback key l d o i :
  tracks h started l d o -> observes key i -> monitorRollback d i = (in_now i <? newest l).
Proof.
  intros Ht (_ & Hp & _). unfold monitorRollback, before. rewrite Hp, (tr_at _ _ _ _ _ Ht). simpl.
  by rewrite orb_false_r.
Qed.

Lemma evaluateMonitor_step key l d o i ids :
  has_prefix "budget_" key = false -> tracks h started l d o -> observes key i ->
  newest l <= in_now i ->
  let '(d', es, _) := evaluateMonitor d i cfg started ids in
  exists o', spec_step h started l i o es o' /\ tracks h started (i :: l) d' o'.
Proof.
  intros Hk Ht Ho Hle. unfold evaluateMonitor. rewrite (health_rollback key l d o i Ht Ho).
  replace (in_now i <? newest l) with false by lia.
  destruct Ho as (Hkey & _ & Hn). rewrite Hkey, Hk.
  apply (evaluateHealth_step h started l d); [done| |done].
  destruct d. by split.
Qed.

Lemma evaluateMonitor_late key l d o i ids :
  tracks h started l d o -> observes key i -> in_now i < newest l ->
  evaluateMonitor d i cfg started ids = (d, [], ids).
Proof.
  intros Ht Ho Hlt. unfold evaluateMonitor. rewrite (health_rollback key l d o i Ht Ho).
  by replace (in_now i <? newest l) with true by lia.
Qed.

Lemma monitor_run_tracks key obs : forall l d o ids,
  has_prefix "budget_" key = false -> Forall (observes key) obs -> tracks h started l d o ->
  let '(d', es, _) := monitor_run cfg started obs d ids in
  exists l' o', spec_run h started l o obs es l' o' /\ tracks h started l' d' o'.
Proof.
  induction obs as [|i obs IH]; intros l d o ids Hk Hobs Ht; cbn [monitor_run].
  { exists l, o. split; [constructor|done]. }
  apply Forall_cons in Hobs as [Hi Hobs]. destruct (Z.lt_ge_cases (in_now i) (newest l)) as [Hlt|Hge].
  - rewrite (evaluateMonitor_late key l d o i ids Ht Hi Hlt).
    specialize (IH l d o ids Hk Hobs Ht). destruct (monitor_run _ _ _ _ _) as [[d' es] ids'].
    destruct IH as (l' & o' & Hrun & Ht'). exists l', o'. split; [by apply run_late|done].
  - pose proof (evaluateMonitor_step key l d o i ids Hk Ht Hi Hge) as Hstep.
    destruct (evaluateMonitor _ _ _ _ _) as [[d1 es1] ids1]. destruct Hstep as (o1 & Hs & Ht1).
    specialize (IH (i :: l) d1 o1 ids1 Hk Hobs Ht1).
    destruct (monitor_run _ _ _ _ _) as [[d' es] ids'].
    destruct IH as (l' & o' & Hrun & Ht'). exists l', o'. split; [by eapply run_step|done].
Qed.

Lemma no_data_tracks : tracks h started [] no_data None.
Proof. by split. Qed.

(** ** Consequences of the specification *)

(** An open incident was started by an event. *)
Lemma spec_run_started l o obs es l' o' id t :
  spec_run h started l o obs es l' o' -> o' = Some (id, t) ->
  (exists e, e ∈ es /\ ev_phase e = "start"%string /\ ev_incident e = id) \/
  (exists t', o = Some (id, t')).
Proof.
  induction 1 as [l o|l o i obs es l' o' _ _ IH|l o i obs es1 o1 es l' o' _ Hs _ IH]; intros ->.
  - right. by exists t.
  - by apply IH.
  - destruct (IH eq_refl) as [(e & He & Hp & Hi)|(t' & ->)].
    { left. exists e. split; [|done]. apply elem_of_app. by right. }
    inversion Hs as [o2 Hd|e Hd Hp| |]; subst.
    + right. destruct (disabled i); [done|]. by exists t'.
    + left. exists e. split; [|done]. apply elem_of_app. left. apply list_elem_of_here.
    + right. eauto.
Qed.

Lemma failing_since_le l b t :
  Forall (fun i => in_now i <= b) l -> failing_since h started l = Some t -> t <= b.
Proof.
  intros Hl. revert t. induction Hl as [|i l Hi Hl IH]; intros t; [done|].
  assert (Hon : onset i <= in_now i) by (unfold onset, after; case_if; lia).
  destruct (failed i) eqn:Ef.
  - rewrite failing_since_failed by done. intros [= <-].
    destruct (failing_since h started l) as [t'|]; simpl; [by apply IH|lia].
  - destruct (ongoing h started i) eqn:Eo.
    + rewrite failing_since_skip by done. apply IH.
    + by rewrite failing_since_reset.
Qed.

(** A run of failed observations: the failure began no later than the first. *)
Lemma failing_since_run run l b :
  Forall (fun i => failed i = true) run -> Forall (fun i => in_now i <= b) l ->
  (exists i run', run = run' ++ [i] /\ in_now i <= b) ->
  exists t, failing_since h started (run ++ l) = Some t /\ t <= b.
Proof.
  intros Hf Hl. induction run as [|j run IH]; intros (i & run' & Hr & Hi).
  { by destruct run'. }
  apply Forall_cons in Hf as [Hj Hf]. simpl. rewrite failing_since_failed by done.
  destruct run' as [|k run'].
  - injection Hr as -> ->. eexists. split; [reflexivity|]. cbn [app].
    destruct (failing_since h started l) as [t|] eqn:E; cbn [default]; [exact (failing_since_le l b t Hl E)|].
    unfold onset, after. case_if; lia.
  - injection Hr as -> Hr. destruct IH as (t & Ht & Hle); [done|by exists i, run'|].
    exists t. by rewrite Ht.
Qed.

(** A history that is in order is accepted whole. *)
Lemma spec_run_sorted obs : forall l o es l' o',
  StronglySorted Z.le (in_now <$> obs) -> Forall (fun i => newest l <= in_now i) obs ->
  spec_run h started l o obs es l' o' -> l' = reverse obs ++ l.
Proof.
  induction obs as [|i obs IH]; intros l o es l' o' Hs Hn Hrun.
  - by inversion Hrun.
  - apply Forall_cons in Hn as [Hi Hn]. rewrite fmap_cons in Hs. apply StronglySorted_inv in Hs as [Hs Hall].
    inversion Hrun; subst; [lia|]. rewrite reverse_cons, <- app_assoc. simpl.
    eapply IH; [done| |done]. apply (Forall_fmap in_now (Z.le (in_now i))) in Hall. exact Hall.
Qed.

(** The last step of a run. *)
Lemma spec_run_last obs i : forall l o es l' o',
  spec_run h started l o (obs ++ [i]) es l' o' ->
  (exists l1 o1 es1 es2, spec_run h started l o obs es1 l1 o1 /\ es = es1 ++ es2 /\
    ((in_now i < newest l1 /\ l' = l1 /\ o' = o1 /\ es2 = []) \/
     (newest l1 <= in_now i /\ l' = i :: l1 /\ spec_step h started l1 i o1 es2 o'))).
Proof.
  induction obs as [|j obs IH]; intros l o es l' o' Hrun; simpl in Hrun.
  - exists l, o, [], es. split; [constructor|]. split; [done|].
    inversion Hrun as [|l0 o0 i0 obs0 es0 l0' o0' Hlt Hr|l0 o0 i0 obs0 es1 o1 es0 l0' o0' Hle Hs Hr];
      subst; inversion Hr; subst.
    + by left.
    + right. rewrite app_nil_r. done.
  - inversion Hrun as [|l0 o0 i0 obs0 es0 l0' o0' Hlt Hr|l0 o0 i0 obs0 es1 o1 es0 l0' o0' Hle Hs Hr];
      subst; destruct (IH _ _ _ _ _ Hr) as (l2 & o2 & e1 & e2 & Hr2 & -> & Hcase);
      do 4 eexists.
    + split; [by apply run_late|]. split; [done|exact Hcase].
    + split; [by eapply run_step|]. rewrite app_assoc. split; [done|exact Hcase].
Qed.

(** The last observation of an ordered history is a step after the others. *)
Lemma sorted_run_last obs j es l o :
  StronglySorted Z.le (in_now <$> obs ++ [j]) ->
  Forall (fun i => newest [] <= in_now i) (obs ++ [j]) ->
  spec_run h started [] None (obs ++ [j]) es l o ->
  exists o1 es1, spec_step h started (reverse obs) j o1 es1 o.
Proof.
  intros Hs Hn Hr. pose proof (spec_run_sorted _ _ _ _ _ _ Hs Hn Hr) as Hl.
  apply spec_run_last in Hr as (l1 & o1 & es1 & es2 & Hr1 & -> & Hcase).
  rewrite fmap_app in Hs. apply StronglySorted_app_1_l in Hs. apply Forall_app in Hn as [Hn _].
  pose proof (spec_run_sorted _ _ _ _ _ _ Hs Hn Hr1) as Hl1.
  rewrite app_nil_r in Hl, Hl1. destruct Hcase as [(_ & -> & _)|(_ & _ & Hstep)].
  - exfalso. rewrite Hl1, reverse_snoc in Hl. apply (f_equal length) in Hl. simpl in Hl. lia.
  - exists o1, es2. by rewrite <- Hl1.
Qed.

(** A failure for the grace period is due. *)
Lemma sorted_run_due obs i run j :
  StronglySorted Z.le (in_now <$> (obs ++ i :: run) ++ [j]) ->
  Forall (fun i => failed i = true) (i :: run ++ [j]) ->
  starting_up h started j = false -> ha_grace_period h <= time_sub (in_now j) (in_now i) ->
  due h started (j :: reverse (obs ++ i :: run)) None = Some "start"%string.
Proof.
  intros Hs Hf Hst Hg. apply Forall_cons in Hf as [Hfi [Hf Hfj%Forall_inv]%Forall_app].
  cbn [due]. rewrite Hfj, Hst, reverse_app.
  destruct (failing_since_run (j :: reverse (i :: run)) (reverse obs) (in_now i)) as (t & Hfs & Hle).
  - constructor; [done|]. apply Forall_reverse. by constructor.
  - apply Forall_reverse, Forall_forall. intros k Hin.
    rewrite <- app_assoc, fmap_app in Hs.
    eapply (StronglySorted_app_1_elem_of Z.le); [exact Hs|by apply list_elem_of_fmap_2|].
    simpl. apply list_elem_of_here.
  - exists i, (j :: reverse run). by rewrite reverse_cons.
  - cbn [app] in Hfs. rewrite Hfs.
    assert (time_sub (in_now j) (in_now i) <= time_sub (in_now j) t)
      by (unfold time_sub, clamp_i64; lia).
    by replace (_ <=? _) with true by lia.
Qed.

(** A due start leaves an incident open, whether it was open before or not. *)
Lemma failed_opens l j o es o' :
  spec_step h started l j o es o' -> failed j = true -> starting_up h started j = false ->
  due h started (j :: l) None = Some "start"%string -> exists id t, o' = Some (id, t).
Proof.
  intros Hstep Hfj Hst Hdue. inversion Hstep as [o2 Hd|e Hd|e id t Hd|e id t Hd]; subst.
  - destruct o as [[id t]|]; [|congruence].
    assert (Hdis : disabled j = false)
      by (destruct (condition_cases j) as [|[|[|]]]; destruct_and!; congruence).
    rewrite Hdis. eauto.
  - eauto.
  - eauto.
  - exfalso. revert Hd. cbn [due]. rewrite Hfj, Hst. case_if; done.
Qed.
End Contract.

(** ** Properties *)

Section Properties.
Context `{GoRuntime, GoText} (cfg : AlertsConfig) (started : time).

(** C14. Over any history of observations of a health rule, late ones included,
    the evaluator raises exactly the events of the specification, which looks at
    the history alone: a start once a failure has lasted the grace period outside
    start-up, reminders at least an interval apart, a recovery once the component
    has been healthy for the recovery period; all with the identifier of the open
    incident. *)
Theorem health_refines_spec key obs :
  has_prefix "budget_" key = false -> Forall (observes key) obs ->
  let '(d, es, _) := monitor_run cfg started obs no_data 0 in
  exists l o, spec_run (al_health cfg) started [] None obs es l o /\
    o = if md_active d then Some (md_incident d, md_last_notification d) else None.
Proof.
  intros Hk Hobs.
  pose proof (monitor_run_tracks cfg started key obs [] no_data None 0 Hk Hobs
    (no_data_tracks cfg started)) as Hr.
  destruct (monitor_run _ _ _ _ _) as [[d es] ids]. destruct Hr as (l & o & Hr & Ht).
  exists l, o. split; [done|]. by apply (tr_open _ _ _ _ _ Ht).
Qed.

(** C15. A failure that lasts is alerted: when observations in order end in a run
    of failed ones that spans the grace period, and the start-up period is over,
    an incident is open and its start was raised. *)
Theorem persistent_failure_alerts key obs i run j :
  has_prefix "budget_" key = false ->
  Forall (observes key) (obs ++ i :: run ++ [j]) ->
  StronglySorted Z.le (in_now <$> obs ++ i :: run ++ [j]) ->
  Forall (fun i => failed i = true) (i :: run ++ [j]) ->
  starting_up (al_health cfg) started j = false ->
  ha_grace_period (al_health cfg) <= time_sub (in_now j) (in_now i) ->
  let '(d, es, _) := monitor_run cfg started (obs ++ i :: run ++ [j]) no_data 0 in
  md_active d = true /\
  exists e, e ∈ es /\ ev_phase e = "start"%string /\ ev_incident e = md_incident d.
Proof.
  intros Hk Hobs Hs Hf Hst Hg.
  rewrite app_comm_cons, app_assoc in *.
  pose proof (monitor_run_tracks cfg started key _ [] no_data None 0 Hk Hobs
    (no_data_tracks cfg started)) as Hr.
  destruct (monitor_run _ _ _ _ _) as [[d es] ids]. destruct Hr as (l & o & Hr & Ht).
  assert (Hnew : Forall (fun i => newest [] <= in_now i) ((obs ++ i :: run) ++ [j])).
  { eapply Forall_impl; [exact Hobs|]. intros k (_ & _ & ?). simpl. unfold time_zero. lia. }
  destruct (sorted_run_last cfg started _ _ _ _ _ Hs Hnew Hr) as (o1 & es1 & Hstep).
  destruct (failed_opens cfg started _ _ _ _ _ Hstep) as (id & t & ->).
  - by apply Forall_cons in Hf as [_ [_ Hj%Forall_inv]%Forall_app].
  - done.
  - by apply sorted_run_due.
  - pose proof (tr_open _ _ _ _ _ Ht) as Ho.
    destruct (md_active d); [|done]. injection Ho as -> ->. split; [done|].
    by destruct (spec_run_started cfg started _ _ _ _ _ _ _ _ Hr eq_refl) as [|(t' & ?)].
Qed.
End Properties.

(** ** A worked history *)

Definition example_health_observation (condition reason : string) (at' : time) : monitorObservation :=
  mkObservation at' (new_status "health_sensor" true true "healthy" reason) condition time_zero
    false false None false no_diagnostic.

Definition example_alerts : AlertsConfig :=
  mkAlerts (al_budget defaultAlerts) (mkHealthAlerts true (2 * minute) minute (24 * hour) 2 (72 * hour)).

(** Minutes after the start of the daemon. *)
Definition example_minute (n : Z) : time := unix_epoch + n * minute.

Definition example_failed (n : Z) : monitorObservation :=
  example_health_observation "failed" "sensor_stale" (example_minute n).

Definition example_history : list monitorObservation :=
  [example_failed 5; example_failed 6; example_failed 7].

Definition example_recovery : list monitorObservation :=
  [example_health_observation "healthy" "healthy" (example_minute 8);
   example_health_observation "healthy" "healthy" (example_minute 9)].

Lemma health_refines_spec_witness :
  (let '(d, es, _) := @monitor_run example_runtime example_text example_alerts unix_epoch
     (example_history ++ example_recovery) no_data 0 in
   exists l o, spec_run (al_health example_alerts) unix_epoch [] None
     (example_history ++ example_recovery) es l o /\
     o = if md_active d then Some (md_incident d, md_last_notification d) else None) /\
  map ev_phase (snd (fst (@monitor_run example_runtime example_text example_alerts unix_epoch
    (example_history ++ example_recovery) no_data 0))) = ["start"; "recovery"]%string.
Proof.
  split; [|vm_compute; reflexivity].
  apply (@health_refines_spec example_runtime example_text example_alerts unix_epoch "health_sensor").
  - vm_compute. reflexivity.
  - repeat constructor.
Defined.

Lemma persistent_failure_alerts_witness :
  let '(d, es, _) := @monitor_run example_runtime example_text example_alerts unix_epoch
    ([] ++ example_failed 5 :: [example_failed 6] ++ [example_failed 7]) no_data 0 in
  md_active d = true /\
  exists e, e ∈ es /\ ev_phase e = "start"%string /\ ev_incident e = md_incident d.
Proof.
  apply (@persistent_failure_alerts example_runtime example_text example_alerts unix_epoch
    "health_sensor").
  - vm_compute. reflexivity.
  - repeat constructor.
  - apply (bool_decide_unpack _). vm_compute. exact I.
  - repeat constructor.
  - vm_compute. reflexivity.
  - vm_compute. discriminate.
Defined.
