(* ===== verification/MonitorBudget.v ===== *)
(** * Budget milestones

    What [evaluateBudget] and [closingObservation] of [internal/daemon] promise over
    a history: each milestone of a period is announced at most once and in order,
    under one incident, whatever late, unavailable, repeated or closing
    observations come in between. *)

From S2P Require Export Monitor.

(** ** The 80% threshold, without overflow *)

Lemma eighty_percent_spec t :
  0 <= t <= u64_max ->
  eighty_percent t = (4 * t + 4) / 5 /\ is_u64 (eighty_percent t).
Proof.
  intros Ht. unfold eighty_percent.
  pose proof (Z.div_mod t 5 ltac:(lia)) as Hd. pose proof (Z.mod_pos_bound t 5 ltac:(lia)) as Hm.
  set (q := t / 5) in *. set (r := t mod 5) in *.
  assert (Hq : 0 <= q) by (unfold q; apply Z.div_pos; lia).
  rewrite (wrap_u64_small (q * 4)) by zlia.
  rewrite (wrap_u64_small (r * 4)) by zlia.
  rewrite (add_u64_small (r * 4) 4) by zlia.
  assert (Hr : 0 <= (r * 4 + 4) / 5 <= 4)
    by (split; [apply Z.div_pos; lia|]; apply Z.lt_succ_r, Z.div_lt_upper_bound; lia).
  rewrite add_u64_small by zlia. split; [|zlia].
  replace (4 * t + 4) with (r * 4 + 4 + q * 4 * 5) by lia. rewrite Z.div_add by lia. lia.
Qed.

(** The least number of bytes that is 80% of the threshold. *)
Lemma eighty_percent_reached t o : 0 <= t <= u64_max -> eighty_percent t <= o <-> 4 * t <= 5 * o.
Proof.
  intros Ht. destruct (eighty_percent_spec t Ht) as [-> _].
  pose proof (Z.div_mod (4 * t + 4) 5 ltac:(lia)). pose proof (Z.mod_pos_bound (4 * t + 4) 5 ltac:(lia)).
  lia.
Qed.

(** ** Inputs of a budget rule *)

Inductive budget_input :=
| BObserve (i : monitorObservation)
| BClose (now : time) (summary : time -> time -> option Z) (coverage : time -> time -> string)
    (cancelled : bool).

(** The components of an equation between tuples of five. *)
Ltac tuple_fields H C1 C2 C3 C4 C5 :=
  pose proof (f_equal (fun t => fst (fst (fst (fst t)))) H) as C1;
  pose proof (f_equal (fun t => snd (fst (fst (fst t)))) H) as C2;
  pose proof (f_equal (fun t => snd (fst (fst t))) H) as C3;
  pose proof (f_equal (fun t => snd (fst t)) H) as C4;
  pose proof (f_equal snd H) as C5;
  cbn [fst snd] in C1, C2, C3, C4, C5.

Section Budget.
Context `{GoRuntime, GoText, GoURL} (cfg : AlertsConfig) (started : time).

Definition budget_do (b : budget_input) (d : monitorData) (ids : nat) : evaluation :=
  match b with
  | BObserve i => evaluateMonitor d i cfg started ids
  | BClose now summary coverage cancelled =>
      (* a month is closed only when one is recorded: [needsMonthClose] *)
      if negb (present (md_period d)) then (d, [], ids)
      else match closingObservation summary coverage cancelled now d with
           | Ok i => evaluateMonitor d i cfg started ids
           | Err _ => (d, [], ids)
           end
  end.

Fixpoint budget_run (l : list budget_input) (d : monitorData) (ids : nat) : evaluation :=
  match l with
  | [] => (d, [], ids)
  | b :: l =>
      let '(d, es1, ids) := budget_do b d ids in
      let '(d, es, ids) := budget_run l d ids in (d, es1 ++ es, ids)
  end.

(** The rule's key, on whatever billing cycle day is configured at the time: a month that
    is available comes with its policy, and an unavailable one without, as
    [observeBudgets] makes them. *)
Definition budget_observation (key : string) (b : budget_input) : Prop :=
  match b with
  | BObserve i =>
      ms_key (in_status i) = key /\ in_closing i = false /\
      (ms_available (in_status i) = true ->
         present (ms_period (in_status i)) = true /\
         (month_key key = true -> exists p, in_month_policy i = Some p)) /\
      (ms_available (in_status i) = false -> in_month_policy i = None)
  | BClose _ _ _ _ => True
  end.

(** ** The log of announcements *)

(** The log of a rule: the events it announced, and where the cycle day that its state
    records changed. *)
Inductive entry :=
| Announced (e : Event)
| NewCycle (old new : Z).

Definition recorded_day (d : monitorData) : option Z :=
  (fun p => recordedCycleDay (mp_cycle_start_day p)) <$> md_month_policy d.

Definition cycle_mark (d d' : monitorData) : list entry :=
  if month_key (ms_key (md_status d)) && present (md_period d) then
    match recorded_day d, recorded_day d' with
    | Some old, Some new => if old =? new then [] else [NewCycle old new]
    | _, _ => []
    end
  else [].

Fixpoint budget_log (l : list budget_input) (d : monitorData) (ids : nat) : list entry :=
  match l with
  | [] => []
  | b :: l =>
      let '(d', es, ids) := budget_do b d ids in
      cycle_mark d d' ++ (Announced <$> es) ++ budget_log l d' ids
  end.

(** The log that may follow when milestone [m] of period [p] was the last announced (0
    for none), under incident [id].  Only another cycle day starts anew. *)
Inductive announces : string -> Z -> string -> list entry -> Prop :=
| an_nil p m id : announces p m id []
| an_start p m id e es p' m' :
    (string_lt p p' = true \/ (p = p' /\ m = 0)) -> 0 < m' ->
    ev_phase e = "start"%string -> ev_evidence e !! "period"%string = Some p' ->
    ev_evidence e !! "milestone"%string = Some (fmt_int m') ->
    announces p' m' (ev_incident e) es -> announces p m id (Announced e :: es)
| an_update p m id e es m' :
    0 < m < m' -> ev_phase e = "update"%string -> ev_incident e = id ->
    ev_evidence e !! "period"%string = Some p ->
    ev_evidence e !! "milestone"%string = Some (fmt_int m') ->
    announces p m' id es -> announces p m id (Announced e :: es)
| an_cycle p m id old new es p' id' :
    old <> new -> announces p' 0 id' es -> announces p m id (NewCycle old new :: es).

Lemma announces_later p m id p' id' es :
  string_lt p p' = true -> announces p' 0 id' es -> announces p m id es.
Proof.
  intros Hlt Ha. inversion Ha as [|p0 m0 id0 e es' q m' Hor Hm Hp Hq Hmm Hr| |]; subst;
    [constructor| |lia|by eapply an_cycle].
  eapply an_start; [left|exact Hm|exact Hp|exact Hq|exact Hmm|exact Hr].
  destruct Hor as [Hlt2|[<- _]]; [|done]. exact (st_trans (lt := string_lt) _ _ _ Hlt Hlt2).
Qed.

(** ** One evaluation *)

(** An input that an evaluation of state [d] may get. *)
Definition admissible (key : string) (d : monitorData) (i : monitorObservation) : Prop :=
  budget_observation key (BObserve i) \/
  (in_closing i = true /\ ms_key (in_status i) = key /\ ms_period (in_status i) = md_period d /\
   present (md_period d) = true).

Record budget_inv (key : string) (d : monitorData) : Prop := {
  bi_milestone : 0 <= md_milestone d;
  bi_key : present (md_period d) = true -> ms_key (md_status d) = key;
  bi_policy : present (md_period d) = true -> month_key key = true ->
    exists p, md_month_policy d = Some p }.

(** What an event sequence may go on with. *)
Definition goes_on (d : monitorData) (es : list entry) (d' : monitorData) : Prop :=
  forall rest, announces (md_period d') (md_milestone d') (md_incident d') rest ->
    announces (md_period d) (md_milestone d) (md_incident d) (es ++ rest).

Lemma goes_on_same d d' :
  md_period d' = md_period d -> md_milestone d' = md_milestone d -> md_incident d' = md_incident d ->
  goes_on d [] d'.
Proof. intros E1 E2 E3 rest. by rewrite E1, E2, E3. Qed.

Lemma goes_on_trans d es1 d1 es2 d2 :
  goes_on d es1 d1 -> goes_on d1 es2 d2 -> goes_on d (es1 ++ es2) d2.
Proof. intros G1 G2 rest Hr. rewrite <- app_assoc. by apply G1, G2. Qed.

Lemma budget_milestone_nonneg s : 0 <= budget_milestone s <= 100.
Proof. unfold budget_milestone. repeat case_if; lia. Qed.

Lemma budget_evidence_fields s m :
  budget_evidence s m !! "period"%string = Some (ms_period s) /\
  budget_evidence s m !! "milestone"%string = Some (fmt_int m).
Proof.
  unfold budget_evidence. split.
  - apply lookup_union_Some_l. by rewrite lookup_insert_eq.
  - rewrite lookup_union_r.
    + by rewrite !lookup_insert_ne, lookup_insert_eq by done.
    + by rewrite !lookup_insert_ne, lookup_singleton_ne by done.
Qed.

(** Reaching a milestone of the period that the state is in. *)
Lemma reach_milestone_goes_on next i ids :
  0 <= md_milestone next -> md_period next = ms_period (in_status i) ->
  let '(d, es, _) := reach_milestone next i ids in
  goes_on next (Announced <$> es) d /\ md_period d = md_period next /\ md_month_policy d = md_month_policy next /\
  md_status d = md_status next /\
  md_milestone d = Z.max (md_milestone next) (budget_milestone (in_status i)) /\
  (es = [] <-> budget_milestone (in_status i) <= md_milestone next).
Proof.
  intros Hm Hper. unfold reach_milestone.
  pose proof (budget_evidence_fields (in_status i) (budget_milestone (in_status i))) as [He1 He2].
  set (m := budget_milestone (in_status i)) in *.
  destruct (md_milestone next <? m) eqn:E; bool_to_prop.
  - destruct (md_milestone next =? 0) eqn:E0; bool_to_prop; destruct next; cbn in *; subst;
      (split_and!; [|done|done|done|lia|split; [done|lia]]); intros rest Hr; cbn in *.
    + eapply an_start; cbn; [by right|exact E|done|exact He1|exact He2|exact Hr].
    + eapply an_update; cbn; [|done|done|exact He1|exact He2|exact Hr]. lia.
  - split_and!; [by apply goes_on_same|done|done|done|lia|done].
Qed.

(** The fields that the log and the invariant speak of. *)
Definition core (d : monitorData) : string * Z * string * option monitorMonthPolicy * string :=
  (md_period d, md_milestone d, md_incident d, md_month_policy d, ms_key (md_status d)).

Lemma core_goes_on d es d1 d2 : core d1 = core d2 -> goes_on d es d1 -> goes_on d es d2.
Proof. intros [= E1 E2 E3 E4 E5] Hg rest. rewrite <- E1, <- E2, <- E3. apply Hg. Qed.

Lemma core_inv key d1 d2 : core d1 = core d2 -> budget_inv key d1 -> budget_inv key d2.
Proof.
  intros [= E1 E2 E3 E4 E5] [Hm Hk Hp]. split; rewrite <- ?E1, <- ?E2, <- ?E4, <- ?E5; auto.
Qed.

Lemma finish_core next i : core (close_month (budget_status next) i) = core next.
Proof. unfold close_month, budget_status. destruct next. by repeat case_if. Qed.

Lemma new_period_later d i :
  monitorRollback d i = false -> billingCycleChanged d i = false ->
  present (ms_period (in_status i)) = true -> (md_period d =?s ms_period (in_status i)) = false ->
  string_lt (md_period d) (ms_period (in_status i)) = true.
Proof.
  unfold monitorRollback. intros [_ Hr]%orb_false_iff Hc Hp Hne. rewrite Hc, Hp in Hr. simpl in Hr.
  rewrite andb_true_r in Hr. apply String.eqb_neq in Hne.
  destruct (string_lt (md_period d) (ms_period (in_status i))) eqn:E; [done|]. exfalso. apply Hne.
  apply (st_total (lt := string_lt)); [done|].
  destruct (present (md_period d)) eqn:Epr; [done|].
  unfold present in Epr. apply negb_false_iff, String.eqb_eq in Epr. rewrite Epr in E.
  unfold present in Hp. by destruct (ms_period (in_status i)).
Qed.

(** The state in which the milestone is evaluated. *)
Definition budget_base (d next : monitorData) (i : monitorObservation) : monitorData :=
  put_status (with_reason "observed_estimate" (with_state "observed"
    (md_status (put_evaluated (daily_key (in_status i)) (record_policy (start_period d next i) i)))))
    (put_evaluated (daily_key (in_status i)) (record_policy (start_period d next i) i)).

Lemma record_policy_core next i :
  md_period (record_policy next i) = md_period next /\
  md_milestone (record_policy next i) = md_milestone next /\
  md_incident (record_policy next i) = md_incident next /\
  md_status (record_policy next i) = md_status next /\
  (daily_key (in_status i) || in_closing i = true ->
     md_month_policy (record_policy next i) = md_month_policy next) /\
  (daily_key (in_status i) || in_closing i = false -> forall p, in_month_policy i = Some p ->
     md_month_policy (record_policy next i) = Some p).
Proof.
  unfold record_policy, copyMonthPolicy. rewrite <- negb_orb.
  destruct (daily_key (in_status i) || in_closing i); simpl; [done|].
  destruct next, (in_month_policy i) as [q|]; [|case_if]; simpl; split_and!; try done.
  all: by intros _ p [= ->].
Qed.

Lemma start_period_core d next i :
  md_period next = md_period d -> md_milestone next = md_milestone d ->
  md_incident next = md_incident d -> md_month_policy next = md_month_policy d ->
  let d1 := start_period d next i in
  md_period d1 = ms_period (in_status i) /\ ms_key (md_status d1) = ms_key (md_status next) /\
  (if (md_period d =?s ms_period (in_status i)) && negb (billingCycleChanged d i)
   then md_milestone d1 = md_milestone d /\ md_incident d1 = md_incident d /\
        md_month_policy d1 = md_month_policy d
   else md_milestone d1 = 0).
Proof.
  intros E1 E2 E3 E4. unfold start_period.
  destruct (billingCycleChanged d i); cbn [negb]; rewrite ?andb_false_r, ?andb_true_r; [done|].
  destruct (md_period d =?s ms_period (in_status i)) eqn:E; simpl; [|done].
  apply String.eqb_eq in E. split_and!; congruence.
Qed.

(** A closing leaves the cycle as it is. *)
Lemma closing_same_cycle d i : in_closing i = true -> billingCycleChanged d i = false.
Proof. unfold billingCycleChanged. intros ->. by destruct (in_month_policy i). Qed.

(** The cycle has changed exactly when the recorded day and the day observed differ. *)
Lemma cycle_days key d i p q :
  budget_inv key d -> present (md_period d) = true -> month_key key = true ->
  ms_key (in_status i) = key -> in_closing i = false ->
  in_month_policy i = Some p -> md_month_policy d = Some q ->
  billingCycleChanged d i =
    negb (recordedCycleDay (mp_cycle_start_day q) =? recordedCycleDay (mp_cycle_start_day p)).
Proof.
  intros Hi Hp Hm Hk Hc Ep Eq. unfold billingCycleChanged. by rewrite Ep, Hc, Hp, Hk, Hm, Eq.
Qed.

(** A change of cycle is one of a recorded month. *)
Lemma cycle_changed_inv d i :
  billingCycleChanged d i = true ->
  present (md_period d) = true /\ month_key (ms_key (in_status i)) = true /\ in_closing i = false.
Proof.
  unfold billingCycleChanged. destruct (in_month_policy i); [|done].
  destruct (in_closing i); [done|]. destruct (present (md_period d)); [|done].
  by destruct (month_key _).
Qed.

Lemma cycle_mark_policy d d1 d2 :
  md_month_policy d1 = md_month_policy d2 -> cycle_mark d d1 = cycle_mark d d2.
Proof. unfold cycle_mark, recorded_day. by intros ->. Qed.

Lemma cycle_mark_same d d1 : md_month_policy d1 = md_month_policy d -> cycle_mark d d1 = [].
Proof.
  intros E. rewrite (cycle_mark_policy d d1 d E). unfold cycle_mark. case_if; [|done].
  destruct (recorded_day d); [by rewrite Z.eqb_refl|done].
Qed.

Lemma daily_not_month key s :
  ms_key s = key -> month_key key = true -> daily_key s = false.
Proof.
  unfold daily_key, month_key, one_of. intros <-. cbn [existsb]. rewrite orb_false_r.
  intros [E|E]%orb_true_iff; apply String.eqb_eq in E; by rewrite <- E.
Qed.

(** Where a mark comes from. *)
Definition marked_by (i : monitorObservation) (es : list entry) : Prop :=
  forall old new, NewCycle old new ∈ es ->
    in_closing i = false /\
    exists p, in_month_policy i = Some p /\ recordedCycleDay (mp_cycle_start_day p) = new.

(** The policy that the state of an evaluated month records. *)
Lemma base_policy key d next i :
  budget_inv key d -> admissible key d i -> ms_available (in_status i) = true ->
  md_period next = md_period d -> md_milestone next = md_milestone d ->
  md_incident next = md_incident d -> md_month_policy next = md_month_policy d ->
  month_key key = true ->
  exists p, md_month_policy (budget_base d next i) = Some p /\
    if in_closing i then md_month_policy d = Some p else in_month_policy i = Some p.
Proof.
  intros Hi Ha Hav E1 E2 E3 E4 Hm.
  destruct (start_period_core d next i E1 E2 E3 E4) as (_ & _ & S3).
  destruct (record_policy_core (start_period d next i) i) as (_ & _ & _ & _ & R5 & R6).
  assert (Hkey : ms_key (in_status i) = key) by (destruct Ha as [(? & _)|(_ & ? & _)]; done).
  pose proof (daily_not_month key (in_status i) Hkey Hm) as Hd. rewrite Hd in R5, R6.
  change (md_month_policy (budget_base d next i))
    with (md_month_policy (record_policy (start_period d next i) i)).
  destruct (in_closing i) eqn:Ec.
  - destruct Ha as [(_ & ? & _)|(_ & _ & Hper & Hpr)]; [congruence|].
    rewrite (closing_same_cycle d i Ec), Hper, String.eqb_refl in S3. destruct S3 as (_ & _ & S3).
    rewrite R5, S3 by done. destruct (bi_policy _ _ Hi Hpr Hm) as [p Hp]. by exists p.
  - destruct Ha as [(_ & _ & Hav' & _)|(? & _)]; [|congruence].
    destruct (Hav' Hav) as (_ & Hpol). destruct (Hpol Hm) as [p Hp].
    exists p. split; [by apply R6|done].
Qed.

(** Starting or continuing a period. *)
Lemma budget_base_step key d next i :
  budget_inv key d -> admissible key d i -> monitorRollback d i = false ->
  ms_available (in_status i) = true -> ms_key (md_status next) = key ->
  md_period next = md_period d -> md_milestone next = md_milestone d ->
  md_incident next = md_incident d -> md_month_policy next = md_month_policy d ->
  let base := budget_base d next i in
  md_period base = ms_period (in_status i) /\ budget_inv key base /\
  goes_on d (cycle_mark d base) base /\ marked_by i (cycle_mark d base) /\
  md_milestone base =
    (if (md_period d =?s ms_period (in_status i)) && negb (billingCycleChanged d i)
     then md_milestone d else 0).
Proof.
  intros Hi Ha Hroll Hav Hkey E1 E2 E3 E4 base.
  destruct (start_period_core d next i E1 E2 E3 E4) as (S1 & S2 & S3).
  destruct (record_policy_core (start_period d next i) i) as (R1 & R2 & R3 & R4 & _).
  pose proof (base_policy key d next i Hi Ha Hav E1 E2 E3 E4) as Hpol. fold base in Hpol.
  assert (C1 : md_period base = ms_period (in_status i))
    by (rewrite <- S1, <- R1; unfold base, budget_base; by destruct (record_policy _ _)).
  assert (C2 : md_milestone base = md_milestone (start_period d next i))
    by (rewrite <- R2; unfold base, budget_base; by destruct (record_policy _ _)).
  assert (C3 : md_incident base = md_incident (start_period d next i))
    by (rewrite <- R3; unfold base, budget_base; by destruct (record_policy _ _)).
  assert (C4 : ms_key (md_status base) = key)
    by (rewrite <- Hkey, <- S2, <- R4; unfold base, budget_base; by destruct (record_policy _ _)).
  assert (Hik : ms_key (in_status i) = key) by (destruct Ha as [(? & _)|(_ & ? & _)]; done).
  assert (Hmark : marked_by i (cycle_mark d base)).
  { intros old new. unfold cycle_mark, recorded_day. case_if; [|by intros ?%elem_of_nil].
    bool_to_prop. rewrite (bi_key _ _ Hi) in * by done.
    destruct Hpol as (p & -> & Hp); [done|]. destruct (bi_policy _ _ Hi) as [q Eq]; [done..|].
    rewrite Eq. simpl. case_if; [by intros ?%elem_of_nil|].
    intros Hin%list_elem_of_singleton. injection Hin as -> ->.
    destruct (in_closing i); [rewrite Eq in Hp; injection Hp as ->; bool_to_prop; done|].
    split; [done|by exists p]. }
  split_and!; [done| | |done|].
  - split; [|done|intros _ Hm; destruct (Hpol Hm) as (p & -> & _); by exists p].
    rewrite C2. revert S3. case_if; intros S3; [destruct S3 as [-> _]; apply Hi|by rewrite S3].
  - intros rest Hr. rewrite C1, C2, C3 in Hr.
    destruct (billingCycleChanged d i) eqn:Ecyc.
    + rewrite andb_false_r in S3. rewrite S3 in Hr.
      destruct (cycle_changed_inv d i Ecyc) as (Hpr & Hm & Hcl). rewrite Hik in Hm.
      destruct (Hpol Hm) as (p & Ep & Hp). rewrite Hcl in Hp.
      destruct (bi_policy _ _ Hi Hpr Hm) as [q Eq].
      rewrite (cycle_days key d i p q) in Ecyc by done. apply negb_true_iff in Ecyc.
      unfold cycle_mark, recorded_day. rewrite (bi_key _ _ Hi Hpr), Hm, Hpr, Ep, Eq. simpl.
      rewrite Ecyc. eapply an_cycle; [by apply Z.eqb_neq|exact Hr].
    + assert (Hnone : cycle_mark d base = []).
      { unfold cycle_mark, recorded_day. case_if; [|done]. bool_to_prop.
        rewrite (bi_key _ _ Hi) in * by done.
        destruct Hpol as (p & Ep & Hp); [done|]. destruct (bi_policy _ _ Hi) as [q Eq]; [done..|].
        rewrite Ep, Eq. simpl. destruct (in_closing i) eqn:Ec.
        - rewrite Eq in Hp. injection Hp as ->. by rewrite Z.eqb_refl.
        - rewrite (cycle_days key d i p q) in Ecyc by done. apply negb_false_iff in Ecyc.
          by rewrite Ecyc. }
      rewrite Hnone. cbn [app]. rewrite andb_true_r in S3.
      destruct (md_period d =?s ms_period (in_status i)) eqn:Eq.
      * destruct S3 as (E5 & E6 & _). rewrite E5, E6 in Hr. apply String.eqb_eq in Eq. by rewrite Eq.
      * rewrite S3 in Hr. eapply announces_later; [|exact Hr].
        destruct Ha as [(_ & _ & Hav' & _)|(_ & _ & Hp & _)].
        -- destruct (Hav' Hav) as [Hpres _]. by apply new_period_later.
        -- rewrite Hp, String.eqb_refl in Eq. discriminate Eq.
  - rewrite C2. case_if; [by destruct S3|done].
Qed.

(** Every evaluation goes on with the log and keeps the invariant. *)
Lemma evaluateMonitor_announces key d i ids :
  has_prefix "budget_" key = true -> budget_inv key d -> admissible key d i ->
  let '(d', es, _) := evaluateMonitor d i cfg started ids in
  budget_inv key d' /\ goes_on d (cycle_mark d d' ++ (Announced <$> es)) d' /\
  marked_by i (cycle_mark d d').
Proof.
  intros Hpre Hi Ha. unfold evaluateMonitor.
  assert (Hkey : ms_key (in_status i) = key) by (destruct Ha as [(? & _)|(_ & ? & _)]; done).
  assert (Hquiet : forall d', md_period d' = md_period d -> md_milestone d' = md_milestone d ->
      md_incident d' = md_incident d -> md_month_policy d' = md_month_policy d ->
      goes_on d (cycle_mark d d' ++ (Announced <$> [])) d' /\ marked_by i (cycle_mark d d')).
  { intros d' D1 D2 D3 D4. rewrite (cycle_mark_same d d' D4). split; [by apply goes_on_same|].
    by intros ? ? ?%elem_of_nil. }
  destruct (monitorRollback d i) eqn:Hroll; [by split; [|apply Hquiet]|].
  rewrite Hkey, Hpre. unfold evaluateBudget.
  destruct (_ && md_month_finalized d); [by split; [|apply Hquiet]|].
  set (next := put_status (with_previous_period (md_previous_period d) _) _).
  assert (Hn : core next = (md_period d, md_milestone d, md_incident d, md_month_policy d, key))
    by (unfold core; rewrite <- Hkey; by destruct d).
  assert (Hsame : forall d', core d' = core next -> budget_inv key d' /\
      goes_on d (cycle_mark d d' ++ (Announced <$> [])) d' /\ marked_by i (cycle_mark d d')).
  { intros d' Hd'. rewrite Hn in Hd'. unfold core in Hd'; tuple_fields Hd' D1 D2 D3 D4 D5.
    split; [|by apply Hquiet]. destruct Hi as [Im Ik Ip].
    split; rewrite ?D1, ?D2, ?D4; auto. }
  clearbody next.
  destruct (in_closing i && _ && _); [apply Hsame; by destruct next|].
  destruct (negb (ms_enabled _)); [apply Hsame; by destruct next|].
  destruct (ms_available (in_status i)) eqn:Eav; cbn [negb].
  2: { apply Hsame. destruct next. by case_if. }
  destruct (_ && md_evaluated d) eqn:Eev.
  { unfold core in Hn; tuple_fields Hn N1 N2 N3 N4 N5. destruct Hi as [Im Ik Ip].
    apply andb_true_iff in Eev as [[Eper _]%andb_true_iff _]. apply String.eqb_eq in Eper.
    destruct next; cbn in *; subst. split; [split|]; cbn; auto. }
  unfold core in Hn; tuple_fields Hn N1 N2 N3 N4 N5.
  destruct (budget_base_step key d next i Hi Ha Hroll Eav N5 N1 N2 N3 N4) as (Bp & Bi & Bg & Bk & _).
  fold (budget_base d next i). set (base := budget_base d next i) in *. clearbody base.
  pose proof (reach_milestone_goes_on base i ids (bi_milestone _ _ Bi) Bp) as Hr.
  destruct (reach_milestone base i ids) as [[d1 es] ids1].
  destruct Hr as (Rg & Rp & Rpol & Rs & Rm & _).
  pose proof (finish_core d1 i) as Hf.
  assert (Hmk : cycle_mark d (close_month (budget_status d1) i) = cycle_mark d base).
  { apply cycle_mark_policy. rewrite <- Rpol. unfold core in Hf. by tuple_fields Hf F1 F2 F3 F4 F5. }
  rewrite Hmk. split_and!; [| |done].
  - eapply core_inv; [symmetry; apply finish_core|]. destruct Bi as [Im Ik Ip].
    split; rewrite ?Rp, ?Rpol, ?Rs; auto. rewrite Rm. lia.
  - eapply core_goes_on; [symmetry; apply finish_core|]. by eapply goes_on_trans.
Qed.
End Budget.

(** ** Properties *)

Section Properties.
Context `{GoRuntime, GoText, GoURL} (cfg : AlertsConfig) (started : time).

Lemma closingObservation_shape summary coverage cancelled now d i :
  closingObservation summary coverage cancelled now d = Ok i ->
  in_closing i = true /\ ms_key (in_status i) = ms_key (md_status d) /\
  ms_period (in_status i) = md_period d.
Proof.
  unfold closingObservation.
  repeat (case_match; try discriminate); intros [= <-]; done.
Qed.

Lemma budget_do_announces key b d ids :
  has_prefix "budget_" key = true -> budget_inv key d -> budget_observation key b ->
  let '(d', es, _) := budget_do cfg started b d ids in
  budget_inv key d' /\ goes_on d (cycle_mark d d' ++ (Announced <$> es)) d' /\
  forall old new, NewCycle old new ∈ cycle_mark d d' ->
    exists i p, b = BObserve i /\ in_month_policy i = Some p /\
      recordedCycleDay (mp_cycle_start_day p) = new.
Proof.
  intros Hk Hi Hb.
  assert (Hquiet : budget_inv key d /\ goes_on d (cycle_mark d d ++ (Announced <$> [])) d /\
    forall old new, NewCycle old new ∈ cycle_mark d d ->
      exists i p, b = BObserve i /\ in_month_policy i = Some p /\
        recordedCycleDay (mp_cycle_start_day p) = new).
  { rewrite (cycle_mark_same d d eq_refl). split_and!; [done|by apply goes_on_same|].
    by intros ? ? ?%elem_of_nil. }
  destruct b as [i|now summary coverage cancelled]; cbn [budget_do].
  - pose proof (evaluateMonitor_announces cfg started key d i ids Hk Hi (or_introl Hb)) as He.
    destruct (evaluateMonitor _ _ _ _ _) as [[d' es] ids']. destruct He as (He1 & He2 & He3).
    split_and!; [done..|]. intros old new (_ & p & Hp & Hd)%He3. by exists i, p.
  - destruct (present (md_period d)) eqn:Ep; cbn [negb]; [|exact Hquiet].
    destruct (closingObservation _ _ _ _ _) as [i|] eqn:Ec; [|exact Hquiet].
    apply closingObservation_shape in Ec as (Hc & Hkey & Hper).
    pose proof (evaluateMonitor_announces cfg started key d i ids Hk Hi) as He.
    destruct (evaluateMonitor _ _ _ _ _) as [[d' es] ids']. destruct He as (He1 & He2 & He3).
    { right. split_and!; [done| |done|done]. by rewrite Hkey, (bi_key _ _ Hi Ep). }
    split_and!; [done..|]. intros old new [Hno _]%He3. congruence.
Qed.

Lemma budget_run_announces key l : forall d ids,
  has_prefix "budget_" key = true -> budget_inv key d ->
  Forall (budget_observation key) l ->
  announces (md_period d) (md_milestone d) (md_incident d) (budget_log cfg started l d ids) /\
  (forall old new, NewCycle old new ∈ budget_log cfg started l d ids ->
     exists i p, BObserve i ∈ l /\ in_month_policy i = Some p /\
       recordedCycleDay (mp_cycle_start_day p) = new).
Proof.
  induction l as [|b l IH]; intros d ids Hk Hi Hl; cbn [budget_log];
    [split; [constructor|by intros ? ? ?%elem_of_nil]|].
  apply Forall_cons in Hl as [Hb Hl].
  pose proof (budget_do_announces key b d ids Hk Hi Hb) as Hd.
  destruct (budget_do _ _ _ _ _) as [[d1 es1] ids1]. destruct Hd as (Hi1 & Hg1 & Hm1).
  destruct (IH d1 ids1 Hk Hi1 Hl) as [Ha Hm]. split.
  - rewrite app_assoc. by apply Hg1.
  - intros old new [Hin|[Hin|Hin]%elem_of_app]%elem_of_app.
    + destruct (Hm1 old new Hin) as (i & p & -> & Hp). exists i, p. split; [apply list_elem_of_here|done].
    + by apply list_elem_of_fmap in Hin as (e & [=] & _).
    + destruct (Hm old new Hin) as (i & p & Hin' & Hp). exists i, p. split; [by right|done].
Qed.

(** The log holds the announced events, in their order. *)
Lemma budget_log_events l : forall d ids,
  omap (fun x => if x is Announced e then Some e else None) (budget_log cfg started l d ids) =
  snd (fst (budget_run cfg started l d ids)).
Proof.
  induction l as [|b l IH]; intros d ids; [done|]. cbn [budget_log budget_run].
  destruct (budget_do _ _ _ _ _) as [[d1 es1] ids1]. specialize (IH d1 ids1).
  destruct (budget_run _ _ _ _ _) as [[d2 es2] ids2]. rewrite !omap_app, IH. cbn [fst snd].
  assert (E1 : omap (fun x => if x is Announced e then Some e else None) (cycle_mark d d1) = []).
  { unfold cycle_mark. case_if; [|done].
    destruct (recorded_day d), (recorded_day d1); [by case_if|done..]. }
  assert (E2 : omap (fun x => if x is Announced e then Some e else None) (Announced <$> es1) = es1)
    by (clear; induction es1 as [|e es IH]; [done|]; cbn; by f_equal).
  by rewrite E1, E2.
Qed.

Lemma no_data_budget key : budget_inv key no_data.
Proof. by split. Qed.

(** C16. Over any history of a budget rule (observations late, unavailable or repeated,
    months closed at any moment, and the billing cycle day of the configuration changed
    any number of times), each milestone of a period is announced at most once as long
    as the recorded cycle day stays the same: periods only advance, milestones of a period
    rise, the first is a start with a new incident and the next an update of it.  The log
    starts anew only where the recorded day changes to another one, and each such day is
    that of an observation of the history. *)
Theorem budget_announced_once key l :
  has_prefix "budget_" key = true -> Forall (budget_observation key) l ->
  let log := budget_log cfg started l no_data 0 in
  announces "" 0 "" log /\
  omap (fun x => if x is Announced e then Some e else None) log =
    snd (fst (budget_run cfg started l no_data 0)) /\
  forall old new, NewCycle old new ∈ log ->
    old <> new /\ exists i p, BObserve i ∈ l /\ in_month_policy i = Some p /\
      recordedCycleDay (mp_cycle_start_day p) = new.
Proof.
  intros Hk Hl log.
  destruct (budget_run_announces key l no_data 0 Hk (no_data_budget key) Hl) as [Ha Hm].
  split_and!; [exact Ha|apply budget_log_events|].
  intros old new Hin. split; [|by apply (Hm old)]. fold log in Ha. clear Hm.
  induction Ha as [|p m id e es p' m' ? ? ? ? ? ? IH|p m id e es m' ? ? ? ? ? ? IH|p m id o n es p' id' ? ? IH].
  - by apply elem_of_nil in Hin.
  - apply elem_of_cons in Hin as [[=]|Hin]; auto.
  - apply elem_of_cons in Hin as [[=]|Hin]; auto.
  - apply elem_of_cons in Hin as [[= -> ->]|Hin]; auto.
Qed.

(** No crossing is missed: an available observation of the current or a new
    period leaves the highest milestone seen in the period, with an event exactly
    when it is a new one; for the monthly bytes, 80% and 100% are the exact
    fractions of the threshold for every 64-bit value. *)
Theorem budget_milestone_exact key d i ids :
  has_prefix "budget_" key = true -> budget_inv key d -> budget_observation key (BObserve i) ->
  monitorRollback d i = false -> ms_enabled (in_status i) = true -> ms_available (in_status i) = true ->
  (md_period d =?s ms_period (in_status i)) && daily_key (in_status i) && md_evaluated d = false ->
  let m := budget_milestone (in_status i) in
  let before := if (md_period d =?s ms_period (in_status i)) && negb (billingCycleChanged d i)
                then md_milestone d else 0 in
  let '(d', es, _) := evaluateMonitor d i cfg started ids in
  md_milestone d' = Z.max before m /\ (es = [] <-> m <= before) /\
  (key = "budget_month_bytes"%string -> 0 < ms_threshold_bytes (in_status i) <= i64_max ->
   (80 <= m <-> 4 * ms_threshold_bytes (in_status i) <= 5 * ms_observed_bytes (in_status i)) /\
   (m = 100 <-> ms_threshold_bytes (in_status i) <= ms_observed_bytes (in_status i))).
Proof.
  intros Hpre Hi Hb Hroll Hen Hav Hev. unfold evaluateMonitor. rewrite Hroll.
  pose proof Hb as (Hkey & Hcl & _). rewrite Hkey, Hpre. unfold evaluateBudget.
  rewrite Hcl, Hen, Hav, Hev. cbn [andb negb].
  set (next := put_status (with_previous_period (md_previous_period d) _) _).
  destruct (budget_base_step key d next i Hi (or_introl Hb) Hroll Hav)
    as (Bp & Bi & _ & _ & Bm); [by unfold next; rewrite <- Hkey|by destruct d..|].
  fold (budget_base d next i). set (base := budget_base d next i) in *.
  pose proof (reach_milestone_goes_on base i ids (bi_milestone _ _ Bi) Bp) as Hr.
  destruct (reach_milestone base i ids) as [[d1 es] ids1].
  destruct Hr as (_ & _ & _ & _ & Rm & Re). rewrite Bm in Rm, Re.
  pose proof (finish_core d1 i) as Hc. unfold core in Hc; tuple_fields Hc F1 F2 F3 F4 F5.
  rewrite F2, Rm. split_and!; [done|done|].
  intros -> Ht. unfold budget_milestone. rewrite Hkey. cbn [String.eqb Ascii.eqb Bool.eqb].
  pose proof (eighty_percent_reached (ms_threshold_bytes (in_status i))
    (ms_observed_bytes (in_status i)) ltac:(zlia)) as H80.
  repeat case_if; bool_to_prop; lia.
Qed.
End Properties.

(** ** A worked month *)

Definition example_budget (period : string) (bytes : Z) (at' : time) : monitorObservation :=
  mkObservation at'
    (mkStatus "budget_month_bytes" "unknown" "observed_estimate" true true false period
       unix_epoch (unix_epoch + 30 * 24 * hour) bytes 1000 f64_zero f64_zero "" f64_zero f64_zero 0 0
       monitorBasis "adequate_recorded" time_zero time_zero no_period_result time_zero time_zero 0)
    "" time_zero false false (Some (mkPolicy 0 1000 f64_zero "" 0 f64_zero [])) false no_diagnostic.

Definition example_month : list budget_input :=
  [BObserve (example_budget "1970-01" 799 (unix_epoch + hour));
   BObserve (example_budget "1970-01" 800 (unix_epoch + 2 * hour));
   BObserve (example_budget "1970-01" 900 (unix_epoch + 3 * hour));
   BObserve (example_budget "1970-01" 1000 (unix_epoch + 4 * hour));
   BClose (unix_epoch + 31 * 24 * hour) (fun _ _ => Some 1200) (fun _ _ => "adequate_recorded"%string) false;
   BObserve (example_budget "1970-02" 850 (unix_epoch + 31 * 24 * hour))].

(** The same month, and then another cycle day that cuts it short. *)
Definition example_cycle (day bytes : Z) (at' : time) : monitorObservation :=
  let o := example_budget "1970-02" bytes at' in
  mkObservation (in_now o) (in_status o) (in_condition o) (in_since o) (in_geo_known o)
    (in_geo_scheduled o) (Some (mkPolicy day 1000 f64_zero "" 0 f64_zero [])) (in_closing o)
    (in_diagnostic o).

Lemma budget_announced_once_witness :
  let l := example_month ++ [BObserve (example_cycle 15 950 (unix_epoch + 32 * 24 * hour));
                             BObserve (example_cycle 15 1000 (unix_epoch + 33 * 24 * hour))] in
  let log := @budget_log example_runtime example_text example_url defaultAlerts unix_epoch l no_data 0 in
  announces "" 0 "" log /\
  map (fun x => match x with Announced e => ev_phase e | NewCycle _ _ => "cycle"%string end) log =
    ["start"; "update"; "start"; "cycle"; "start"; "update"]%string.
Proof.
  intros l log. split; [|vm_compute; reflexivity].
  apply (@budget_announced_once example_runtime example_text example_url defaultAlerts unix_epoch
    "budget_month_bytes" l).
  - vm_compute. reflexivity.
  - repeat constructor; (done || (intros; eexists; reflexivity)).
Defined.

Lemma budget_milestone_exact_witness :
  let '(d', es, _) := @evaluateMonitor example_runtime example_text no_data
    (example_budget "1970-01" 800 (unix_epoch + hour)) defaultAlerts unix_epoch 0 in
  md_milestone d' = 80 /\ (es = [] <-> 80 <= 0) /\
  ("budget_month_bytes"%string = "budget_month_bytes"%string -> 0 < 1000 <= i64_max ->
   (80 <= 80 <-> 4 * 1000 <= 5 * 800) /\ (80 = 100 <-> 1000 <= 800)).
Proof.
  apply (@budget_milestone_exact example_runtime example_text defaultAlerts unix_epoch
    "budget_month_bytes" no_data (example_budget "1970-01" 800 (unix_epoch + hour)) 0).
  - vm_compute. reflexivity.
  - by split.
  - repeat constructor; (done || (intros; eexists; by split)).
  - vm_compute. reflexivity.
  - reflexivity.
  - reflexivity.
  - vm_compute. reflexivity.
Defined.
