(* ===== verification/MonitorObserve.v ===== *)
(** * What the monitor observes of the components' health

    [internal/daemon/monitor_observe.go]: the five health observations of a pass, made
    from what the components report.  What the components report is an argument: the
    state of the sensor and of the counters, the journal's status, the detector's
    coverage, the storage budget, the failed storage operations and the metadata of the
    managed GeoIP databases. *)

From S2P Require Export MonitorHealth.

(** The storage operations whose failure is reported. *)
Definition monitor_storage_operations : list string :=
  ["interface"; "sensor_health"; "traffic"; "event"; "journal"; "journal_recovery"; "coverage";
   "coverage_gap"; "interface_coverage_gap"; "budget_maintenance"; "event_queue_capacity";
   "event_metadata_rejected"; "process_restart_pending_unknown"].

(** [monitorStorageFailure]: [failures] are the operations that failed last. *)
Definition monitorStorageFailure (failures : list string) : bool :=
  existsb (fun operation => one_of failures operation) monitor_storage_operations.

(** The fields of [store.StorageBudgetStatus] that are read. *)
Record budget_report := mkBudgetReport { br_state : string; br_configured : bool }.

(** What reading the asset metadata gives: a missing file is told apart. *)
Inductive asset_report := AssetRead (h : Health) | AssetMissing | AssetUnreadable.

Record component_reports := mkReports {
  cr_sensor_enabled : bool;
  cr_sensor_state : string;             (* [sensorCoverageState] *)
  cr_counter_state : string;
  cr_counter_at : time;
  cr_auth_enabled : bool;
  cr_journal : JournalStatus;
  cr_detector : option bool;            (* coverage complete; none without a detector *)
  cr_budget : option budget_report;     (* none when it cannot be read *)
  cr_failures : list string;
  cr_last_failure : time;
  cr_asset : asset_report;
  cr_geo_configured : bool }.           (* a City or ASN database is configured *)

(** An observation before its condition is known. *)
Definition observation (now : time) (s : MonitorRuleStatus) (condition : string) (since : time)
    (d : monitorDiagnostic) : monitorObservation :=
  mkObservation now s condition since false false None false d.

(** The entry that [observeMonitor] and [pass] start from. *)
Definition observation_template (cfg : AlertsConfig) (now : time) (key : string) : monitorObservation :=
  let enabled := monitorEnabled key cfg in
  observation now (new_status key enabled (negb enabled) "disabled" "disabled") "disabled" time_zero
    no_diagnostic.

Definition healthy_of (now : time) (key : string) (enabled : bool) : monitorObservation :=
  observation now (new_status key enabled true "healthy" "healthy") "healthy" time_zero no_diagnostic.
Definition disabled_of (now : time) (key : string) (enabled : bool) : monitorObservation :=
  observation now (new_status key enabled true "healthy" "healthy") "disabled" time_zero no_diagnostic.
Definition failed_of (now : time) (key : string) (enabled : bool) (reason : string) (since : time)
    (d : monitorDiagnostic) : monitorObservation :=
  observation now (new_status key enabled true "healthy" reason) "failed" since d.

(** The rule of the sensor, of the interface counters and of the journal. *)
Definition observe_sensor (now : time) (enabled : bool) (r : component_reports) : monitorObservation :=
  if negb (cr_sensor_enabled r) then disabled_of now "health_sensor" enabled
  else if negb (cr_sensor_state r =?s "running")
  then failed_of now "health_sensor" enabled "sensor_stale" time_zero no_diagnostic
  else healthy_of now "health_sensor" enabled.

Definition observe_counters (now : time) (enabled : bool) (r : component_reports) : monitorObservation :=
  if negb (cr_counter_state r =?s "running") || is_zero (cr_counter_at r)
     || (10 * second <? time_sub now (cr_counter_at r)) || after (cr_counter_at r) now
  then failed_of now "health_interface_counter" enabled "interface_stale" time_zero no_diagnostic
  else healthy_of now "health_interface_counter" enabled.

Definition observe_journal (now : time) (enabled : bool) (r : component_reports) : monitorObservation :=
  let key := "health_ssh_journal"%string in
  if negb (cr_auth_enabled r) then disabled_of now key enabled
  else if negb (js_state (cr_journal r) =?s "running")
  then failed_of now key enabled "journal_unavailable" (js_since (cr_journal r))
         (mkMonitorDiagnostic (Some (cr_journal r)) None)
  else match cr_detector r with
       | None => failed_of now key enabled "auth_state_unknown" time_zero no_diagnostic
       | Some complete =>
           if complete then healthy_of now key enabled
           else failed_of now key enabled "auth_state_capacity" time_zero no_diagnostic
       end.

(** [observeStorageHealth]. *)
Definition observeStorageHealth (now : time) (budget : option budget_report) (failed : bool)
    (since : time) : monitorObservation :=
  let key := "health_storage"%string in
  let unknown reason := observation now (new_status key true false "unknown" reason) "unknown"
                          time_zero no_diagnostic in
  if failed then failed_of now key true "storage_write_failed" since no_diagnostic
  else match budget with
       | None => unknown "read_failed"%string
       | Some b =>
           if br_state b =?s "degraded"
           then failed_of now key true "storage_pressure" time_zero no_diagnostic
           else if br_state b =?s "busy" then unknown "storage_busy"%string
           else if negb (br_configured b) then unknown "storage_unconfigured"%string
           else if negb (br_state b =?s "running") then unknown "check_unknown"%string
           else healthy_of now key true
       end.

(** [observeGeoHealth]. *)
Definition observeGeoHealth (h : HealthAlertsConfig) (now : time) (asset : asset_report)
    (configured scheduled : bool) : monitorObservation :=
  let key := "health_geoip_update"%string in
  let value known sched available state reason condition d :=
    mkObservation now (new_status key (ha_enabled h) available state reason) condition time_zero
      known sched None false d in
  let unreadable missing :=
    if missing && negb scheduled && negb configured
    then value false false true "disabled" "disabled" "disabled" no_diagnostic
    else if scheduled
    then value false false true "healthy" "metadata_unavailable" "failed" no_diagnostic
    else value false false false "healthy" "metadata_unavailable" "unknown" no_diagnostic in
  match asset with
  | AssetMissing => unreadable true
  | AssetUnreadable => unreadable false
  | AssetRead raw =>
      let a := NormalizeLegacy raw in
      if negb (Health_Validate a) then unreadable false
      else
        let failure reason d := value true (h_scheduled a) true "healthy" reason "failed" d in
        let unknown := value true (h_scheduled a) false "healthy" "check_unknown" "unknown" no_diagnostic in
        let schedule p := match h_schedule a with Some s => p s | None => false end in
        if after (h_checked_at a) now || after (h_last_success a) now
           || schedule (fun s => after (sh_checked_at s) now)
        then unknown
        else if schedule (fun s => ha_geoip_failure_threshold h <=? sh_failures s)
        then failure "schedule_failed"%string no_diagnostic
        else if h_result a =?s "unknown" then unknown
        else if ha_geoip_failure_threshold h <=? h_failures a
        then failure "update_failed"%string (mkMonitorDiagnostic None (Some a))
        else if h_scheduled a && (is_zero (h_last_success a)
                  || (ha_geoip_stale_after h <? time_sub now (h_last_success a)))
        then failure "update_stale"%string no_diagnostic
        else if negb (one_of ["ok"; "unchanged"] (h_result a))
                || schedule (fun s => negb (sh_result s =?s "ok"))
        then unknown
        else value true (h_scheduled a) true "healthy" "healthy" "healthy" no_diagnostic
  end.

(** [observeHealth], and the health observations of a pass: the templates when health
    alerts are disabled. *)
Definition observeHealth (cfg : AlertsConfig) (now : time) (r : component_reports) (scheduled : bool)
    : list monitorObservation :=
  let enabled := ha_enabled (al_health cfg) in
  [observe_sensor now enabled r; observe_counters now enabled r; observe_journal now enabled r;
   observeStorageHealth now (cr_budget r) (monitorStorageFailure (cr_failures r)) (cr_last_failure r);
   observeGeoHealth (al_health cfg) now (cr_asset r) (cr_geo_configured r) scheduled].

Definition health_keys : list string := drop 4 monitorKeys.

Definition health_observations (cfg : AlertsConfig) (now : time) (r : component_reports)
    (scheduled : bool) : list monitorObservation :=
  if ha_enabled (al_health cfg) then observeHealth cfg now r scheduled
  else observation_template cfg now <$> health_keys.

(** ** What an observation of a pass looks like *)

(** The reasons that the observers give.  The two of the detector are not among the
    reasons that a stored status may have. *)
Definition observed_reasons : list string :=
  ["disabled"; "healthy"; "sensor_stale"; "interface_stale"; "journal_unavailable";
   "storage_write_failed"; "read_failed"; "storage_pressure"; "storage_busy"; "storage_unconfigured";
   "check_unknown"; "metadata_unavailable"; "schedule_failed"; "update_failed"; "update_stale"].
Definition detector_reasons : list string := ["auth_state_unknown"; "auth_state_capacity"].

(** The status is that of a new one, the reason one of the lists above, and only the
    journal and the storage date a failure. *)
Definition made_by_observer (r : component_reports) (i : monitorObservation) : Prop :=
  exists key enabled available state reason,
    in_status i = new_status key enabled available state reason /\ key ∈ health_keys /\
    one_of ["healthy"; "unknown"; "disabled"] state = true /\
    (one_of observed_reasons reason = true \/
     one_of detector_reasons reason = true /\ cr_auth_enabled r = true /\
       js_state (cr_journal r) = "running"%string /\ cr_detector r <> Some true) /\
    (in_since i = time_zero \/ in_since i = js_since (cr_journal r) \/ in_since i = cr_last_failure r).

Lemma made_by_observer_intro r i key enabled available state reason :
  in_status i = new_status key enabled available state reason -> key ∈ health_keys ->
  one_of ["healthy"; "unknown"; "disabled"] state = true -> one_of observed_reasons reason = true ->
  (in_since i = time_zero \/ in_since i = js_since (cr_journal r) \/ in_since i = cr_last_failure r) ->
  made_by_observer r i.
Proof. intros. exists key, enabled, available, state, reason. tauto. Qed.

Ltac observer key :=
  eapply (made_by_observer_intro _ _ key);
  [reflexivity|apply (bool_decide_unpack _); vm_compute; exact I|reflexivity|reflexivity|cbn; tauto].

Lemma observeGeoHealth_made h now asset configured scheduled r :
  made_by_observer r (observeGeoHealth h now asset configured scheduled).
Proof.
  unfold observeGeoHealth. cbv zeta.
  destruct asset as [raw| |]; repeat case_if; observer "health_geoip_update"%string.
Qed.

Lemma health_observations_made cfg now r scheduled :
  Forall (made_by_observer r) (health_observations cfg now r scheduled).
Proof.
  unfold health_observations. destruct (ha_enabled (al_health cfg)).
  - unfold observeHealth. repeat apply Forall_cons_2; [..|apply Forall_nil_2].
    + unfold observe_sensor. repeat case_if; observer "health_sensor"%string.
    + unfold observe_counters. case_if; observer "health_interface_counter"%string.
    + unfold observe_journal. destruct (cr_auth_enabled r) eqn:Ea; [|observer "health_ssh_journal"%string].
      destruct (js_state (cr_journal r) =?s "running") eqn:Ej; [|observer "health_ssh_journal"%string].
      apply String.eqb_eq in Ej.
      destruct (cr_detector r) as [[]|] eqn:Ed; [observer "health_ssh_journal"%string|..];
        (do 5 eexists; split_and!; [reflexivity|apply (bool_decide_unpack _); vm_compute; exact I
          |reflexivity|right; rewrite Ed; by split_and!|by left]).
    + unfold observeStorageHealth. case_if; [observer "health_storage"%string|].
      destruct (cr_budget r); repeat case_if; observer "health_storage"%string.
    + apply observeGeoHealth_made.
  - apply Forall_fmap, Forall_forall. intros key Hk. unfold compose, observation_template.
    eapply (made_by_observer_intro _ _ key); [reflexivity|done|reflexivity|reflexivity|by left].
Qed.

Lemma health_observations_now cfg now r scheduled :
  Forall (fun i => in_now i = now) (health_observations cfg now r scheduled).
Proof.
  unfold health_observations, observeHealth. case_if; repeat constructor.
  - unfold observe_sensor. by repeat case_if.
  - unfold observe_counters. by repeat case_if.
  - unfold observe_journal. repeat case_if; try done. destruct (cr_detector r); [by case_if|done].
  - unfold observeStorageHealth. case_if; [done|]. destruct (cr_budget r); by repeat case_if.
  - unfold observeGeoHealth. cbv zeta. destruct (cr_asset r); by repeat case_if.
Qed.
