(* ===== verification/MonitorStored.v ===== *)
(** * What the monitor stores can be read back

    Every state that the health evaluator reaches passes the checks that
    [decodeMonitorData] makes when it is read again, whatever the components report, as
    long as the SSH detector is there and within its capacity; an observation whose
    reason is outside the fixed list never does. *)

From S2P Require Export MonitorObserve.

(** ** Statuses *)

(** The fields that the evaluator changes in the status of a health rule. *)
Definition restatus (state reason : string) (available : bool) (since last : time)
    (s : MonitorRuleStatus) : MonitorRuleStatus :=
  with_last_notification last (with_condition_since since (with_available available
    (with_reason reason (with_state state s)))).

Lemma restatus_valid state reason available since last s :
  validateMonitorStatus s = true -> one_of monitor_states state = true ->
  one_of monitor_reasons reason = true -> optional_time since = true -> optional_time last = true ->
  validateMonitorStatus (restatus state reason available since last s) = true.
Proof.
  unfold validateMonitorStatus, restatus, status_fields_ok, status_numbers_ok.
  destruct s. cbn -[one_of validatePeriodResult optional_time milestone_value parse_period amount_ok
    alertCurrency].
  intros Hv Hs Hr Hc Hl. rewrite !andb_true_iff in *. tauto.
Qed.

Lemma valid_reason s : validateMonitorStatus s = true -> one_of monitor_reasons (ms_reason s) = true.
Proof. unfold validateMonitorStatus. rewrite !andb_true_iff. tauto. Qed.

Lemma valid_times s :
  validateMonitorStatus s = true ->
  optional_time (ms_condition_since s) = true /\ optional_time (ms_last_notification s) = true.
Proof.
  unfold validateMonitorStatus. rewrite !andb_true_iff. intros (((((_ & Ht) & _) & _) & _) & _).
  cbn [forallb] in Ht. rewrite !andb_true_iff in Ht. tauto.
Qed.

(** ** Health states *)

(** A time of the state: not set, or within the years and not after the last
    observation. *)
Definition time_ok (now t : time) : Prop := optional_time t = true /\ t <= now.

Lemma time_ok_later now now' t : now <= now' -> time_ok now t -> time_ok now' t.
Proof. intros Hle [Ho Ht]. split; [done|]. lia. Qed.

(** What the evaluator needs of an observation. *)
Definition sound_observation (key : string) (i : monitorObservation) : Prop :=
  observes key i /\ validateMonitorStatus (in_status i) = true /\
  recorded_time (in_now i) = true /\ optional_time (in_since i) = true.

Record health_ok (key : string) (d : monitorData) : Prop := {
  ho_fixed : (md_milestone d, md_evaluated d, md_month_policy d, md_month_finalized d, md_previous_period d)
             = (0, false, None, false, no_period_result);
  ho_period : (md_period d, md_period_start d, md_period_end d) = (""%string, time_zero, time_zero);
  ho_active : md_active d = true ->
    ValidID (md_incident d) = true /\ is_zero (md_condition_since d) = false;
  ho_incident : md_incident d = ""%string \/ ValidID (md_incident d) = true;
  ho_since : time_ok (md_observed_at d) (md_condition_since d);
  ho_recovery : time_ok (md_observed_at d) (md_recovery_since d);
  ho_last : time_ok (md_observed_at d) (md_last_notification d) }.

(** A state after an observation. *)
Record health_stored (key : string) (d : monitorData) : Prop := {
  hs_ok : health_ok key d;
  hs_schema : md_schema d = 2;
  hs_key : ms_key (md_status d) = key;
  hs_at : recorded_time (md_observed_at d) = true;
  hs_status : validateMonitorStatus (md_status d) = true }.

Lemma health_stored_decodes `{GoURL} key d :
  health_stored key d -> decoded_data_ok key d = true.
Proof.
  intros [[Hf Hp Ha Hi [Hs1 Hs2] [Hr1 Hr2] [Hl1 Hl2]] Hsch Hk Hat Hst].
  injection Hf as E1 E2 E3 E4 E5. injection Hp as E6 E7 E8.
  destruct (valid_times _ Hst) as [V1 V2].
  unfold decoded_data_ok, validateMonthData, recorded_time, after in *.
  rewrite E1, E2, E3, E4, E5, E6, E7, E8, Hsch, Hk, Hst, String.eqb_refl.
  apply andb_true_iff in Hat as [Hz Hy]. apply negb_true_iff in Hz.
  cbn [forallb negb orb andb]. rewrite V1, V2, Hs1, Hr1, Hl1, Hz.
  replace (optional_time (md_observed_at d)) with true by (unfold optional_time; by rewrite Hy, orb_true_r).
  replace (md_observed_at d <? md_condition_since d) with false by lia.
  replace (md_observed_at d <? md_recovery_since d) with false by lia.
  replace (md_observed_at d <? md_last_notification d) with false by lia.
  assert (Hact : (md_active d && negb (ValidID (md_incident d)))
                 || (present (md_incident d) && negb (ValidID (md_incident d))) = false).
  { destruct Hi as [Hi|Hi].
    - rewrite Hi in Ha |- *. destruct (md_active d); [|done].
      destruct (Ha eq_refl) as [Hv _]. discriminate Hv.
    - by rewrite Hi, !andb_false_r. }
  rewrite Hact. cbn.
  replace (md_active d && is_zero (md_condition_since d)) with false; [done|].
  destruct (md_active d); [|done]. by destruct (Ha eq_refl) as [_ ->].
Qed.

(** ** Every branch of the health evaluator *)

#[local] Arguments one_of : simpl never.
#[local] Arguments ValidID : simpl never.
#[local] Arguments healthEvent : simpl never.
#[local] Arguments optional_time : simpl never.

Section Stored.
Context `{GoRuntime, GoText} (cfg : AlertsConfig) (started : time).
(** [NewID] draws hexadecimal text. *)
Context (Hid : forall n, ValidID ("monitor_" ++ id_draw n)%string = true).
Abbreviation h := (al_health cfg).

(** Incident, times and status that a branch may leave. *)
Lemma stored_leaf key d i d' :
  health_ok key d -> sound_observation key i -> md_observed_at d <= in_now i ->
  (md_milestone d', md_evaluated d', md_month_policy d', md_month_finalized d', md_previous_period d')
    = (md_milestone d, md_evaluated d, md_month_policy d, md_month_finalized d, md_previous_period d) ->
  (md_period d', md_period_start d', md_period_end d') = (md_period d, md_period_start d, md_period_end d) ->
  md_schema d' = 2 -> md_observed_at d' = in_now i ->
  md_status d' = restatus (ms_state (md_status d')) (ms_reason (md_status d'))
    (ms_available (md_status d')) (ms_condition_since (md_status d'))
    (ms_last_notification (md_status d')) (in_status i) ->
  one_of monitor_states (ms_state (md_status d')) = true ->
  one_of monitor_reasons (ms_reason (md_status d')) = true ->
  optional_time (ms_condition_since (md_status d')) = true ->
  optional_time (ms_last_notification (md_status d')) = true ->
  (md_active d' = true -> ValidID (md_incident d') = true /\ is_zero (md_condition_since d') = false) ->
  (md_incident d' = ""%string \/ ValidID (md_incident d') = true) ->
  time_ok (in_now i) (md_condition_since d') -> time_ok (in_now i) (md_recovery_since d') ->
  time_ok (in_now i) (md_last_notification d') -> health_stored key d'.
Proof.
  intros [Hf Hp Ha Hi Hs Hr Hl] ((Hk & _ & _) & Hv & Hn & _) Hle Ef Ep Esch Eat Est Hst Hre Hsc Hsl
    Hact Hinc Hcs Hrs Hln.
  split; [split|done| | |]; rewrite ?Eat; try done; [congruence|congruence| |].
  - rewrite Est. by destruct (in_status i).
  - rewrite Est. by apply restatus_valid.
Qed.

Lemma zero_time_ok now : 0 < now -> time_ok now time_zero.
Proof. intros Hn. split; [done|]. unfold time_zero. lia. Qed.

Lemma now_time_ok i : recorded_time (in_now i) = true -> time_ok (in_now i) (in_now i).
Proof.
  intros [_ Hy]%andb_true_iff. split; [|lia]. unfold optional_time. by rewrite Hy, orb_true_r.
Qed.

Lemma onset_time_ok i :
  recorded_time (in_now i) = true -> optional_time (in_since i) = true ->
  time_ok (in_now i) (onset i).
Proof.
  intros Hn Hs. unfold onset. case_if; [|by apply now_time_ok].
  split; [done|]. unfold after in E. lia.
Qed.

Lemma started_time_ok key d i :
  health_ok key d -> sound_observation key i -> md_observed_at d <= in_now i ->
  let c := if is_zero (md_condition_since d) then onset i else md_condition_since d in
  time_ok (in_now i) c /\ is_zero c = false.
Proof.
  intros Ho ((_ & _ & Hpos) & _ & Hn & Hs) Hle. cbv zeta.
  destruct (is_zero (md_condition_since d)) eqn:E.
  - split; [by apply onset_time_ok|by apply onset_nonzero].
  - split; [|done]. eapply time_ok_later; [exact Hle|apply Ho].
Qed.

(** The event of a branch does not matter here. *)
Ltac skip_event :=
  try match goal with |- context [healthEvent ?d ?n ?p ?g ?k] => destruct (healthEvent d n p g k) end.

(** Names what a branch left and proves the conditions of [stored_leaf]. *)
Ltac leaf Hd Hi Hle :=
  eapply stored_leaf;
    [exact Hd|exact Hi|exact Hle|reflexivity|reflexivity|reflexivity|reflexivity
    |unfold restatus; cbn; by destruct (in_status _)
    |cbn; first [reflexivity|assumption]|cbn; first [reflexivity|assumption]
    |cbn; assumption|cbn; assumption
    |cbn|cbn|cbn; assumption|cbn; assumption|cbn; assumption].

Lemma evaluateHealth_stored key d i ids :
  health_ok key d -> sound_observation key i -> md_observed_at d <= in_now i ->
  let next := put_status (in_status i) (put_observed_at (in_now i) (put_schema 2 d)) in
  let '(d', _, _) := evaluateHealth next i h started ids in health_stored key d'.
Proof.
  intros Hd Hi Hle next.
  destruct (started_time_ok key d i Hd Hi Hle) as [TS SZ].
  pose proof Hi as ((_ & _ & Hpos) & Hv & Hn & _).
  pose proof (zero_time_ok _ Hpos) as TZ. pose proof (now_time_ok i Hn) as TN.
  pose proof (time_ok_later _ _ _ Hle (ho_since _ _ Hd)) as TC.
  pose proof (time_ok_later _ _ _ Hle (ho_recovery _ _ Hd)) as TR.
  pose proof (time_ok_later _ _ _ Hle (ho_last _ _ Hd)) as TL.
  pose proof (valid_reason _ Hv) as HR. destruct (valid_times _ Hv) as [V1 V2].
  pose proof (ho_active _ _ Hd) as HA. pose proof (ho_incident _ _ Hd) as HI.
  assert (TE : time_ok (in_now i) (if is_zero (md_recovery_since d) then in_now i else md_recovery_since d))
    by (by case_if).
  pose proof TZ as [OZ _]. pose proof TN as [ON _]. pose proof TC as [OC _].
  pose proof TL as [OL _]. pose proof TS as [OS _].
  assert (Hids : ValidID ("monitor" ++ "_" ++ id_draw ids)%string = true) by apply Hid.
  unfold evaluateHealth, health_failed, health_healthy, next. cbv zeta. fold (onset i).
  destruct d as [sch oat per pst pen mil eva inc act cs rs ln geo st pol fin prev].
  cbn in * |-. clear next.
  destruct (negb (ms_enabled _) || _).
  { destruct (in_geo_known i); leaf Hd Hi Hle; auto; done. }
  destruct (in_condition i =?s "unknown").
  { destruct (in_geo_known i), act; leaf Hd Hi Hle; auto; done. }
  destruct (in_condition i =?s "failed").
  - destruct (in_geo_known i), act; cbn;
      set (c := if is_zero cs then onset i else cs) in *; clearbody c;
      repeat case_if; skip_event; leaf Hd Hi Hle; auto; try done;
      try (intros _; split; [first [exact Hids|by apply HA]|exact SZ]); right; exact Hids.
  - destruct (in_geo_known i), act; cbn;
      set (c := if is_zero rs then in_now i else rs) in *; clearbody c;
      repeat case_if; skip_event; leaf Hd Hi Hle; auto; done.
Qed.

Lemma no_data_health_ok key : health_ok key no_data.
Proof.
  split; [reflexivity|reflexivity|intros Ha; discriminate Ha|by left|..];
    (split; [reflexivity|apply Z.le_refl]).
Qed.

Lemma monitor_run_stored key obs : forall d ids,
  has_prefix "budget_" key = false -> Forall (sound_observation key) obs ->
  health_ok key d -> md_observed_at d = time_zero /\ obs <> [] \/ health_stored key d ->
  let '(d', _, _) := monitor_run cfg started obs d ids in health_stored key d'.
Proof.
  induction obs as [|i obs IH]; intros d ids Hk Hobs Hd Hor; cbn [monitor_run].
  { by destruct Hor as [[_ ?]|]. }
  apply Forall_cons in Hobs as [Hi Hobs].
  assert (Hstep : let '(d1, _, _) := evaluateMonitor d i cfg started ids in health_stored key d1).
  { unfold evaluateMonitor. pose proof Hi as ((Hkey & Hper & Hpos) & _).
    destruct (monitorRollback d i) eqn:Er.
    - destruct Hor as [[H0at _]|]; [|done]. exfalso. unfold monitorRollback, before in Er.
      rewrite H0at, Hper in Er. simpl in Er. unfold time_zero in Er.
      apply orb_true_iff in Er as [Er|Er]; [lia|discriminate Er].
    - rewrite Hkey, Hk. apply (evaluateHealth_stored key d i ids Hd Hi).
      unfold monitorRollback, before in Er. apply orb_false_iff in Er as [Er _]. lia. }
  destruct (evaluateMonitor _ _ _ _ _) as [[d1 es1] ids1].
  specialize (IH d1 ids1 Hk Hobs (hs_ok _ _ Hstep) (or_intror Hstep)).
  by destruct (monitor_run _ _ _ _ _) as [[d2 es2] ids2].
Qed.
End Stored.

(** ** Properties *)

Section Properties.
Context `{GoRuntime, GoText, GoURL} (cfg : AlertsConfig) (started : time).

(** The clocks behind a pass: instants between 1970 and 9999, or not set. *)
Definition reports_dated (now : time) (r : component_reports) : Prop :=
  recorded_time now = true /\ optional_time (js_since (cr_journal r)) = true /\
  optional_time (cr_last_failure r) = true.

(** The detector of SSH failures is there and within its capacity whenever the journal
    is followed. *)
Definition detector_known (r : component_reports) : Prop :=
  cr_auth_enabled r = true -> js_state (cr_journal r) = "running"%string -> cr_detector r = Some true.

(** An observation of the rule in some pass, with the onset that a pending transition may
    have recorded already. *)
Definition health_observation (key : string) (i : monitorObservation) : Prop :=
  exists now r scheduled i0,
    i0 ∈ health_observations cfg now r scheduled /\ ms_key (in_status i0) = key /\
    reports_dated now r /\ detector_known r /\
    (i = i0 \/ exists since, optional_time since = true /\
       i = mkObservation (in_now i0) (in_status i0) (in_condition i0) since (in_geo_known i0)
             (in_geo_scheduled i0) (in_month_policy i0) (in_closing i0) (in_diagnostic i0)).

Lemma one_of_included l l' s :
  forallb (one_of l') l = true -> one_of l s = true -> one_of l' s = true.
Proof.
  rewrite forallb_forall. intros Hl Hs%one_of_spec. apply Hl. by apply list_elem_of_In.
Qed.

Lemma new_status_valid key enabled available state reason :
  key ∈ monitorKeys -> one_of monitor_states state = true -> one_of monitor_reasons reason = true ->
  validateMonitorStatus (new_status key enabled available state reason) = true.
Proof.
  intros Hk%one_of_spec Hs Hr. unfold validateMonitorStatus, new_status. cbn -[one_of].
  rewrite Hk, Hs, Hr. vm_compute. reflexivity.
Qed.

Lemma health_keys_known key : key ∈ health_keys -> key ∈ monitorKeys /\ has_prefix "budget_" key = false.
Proof.
  intros Hk. split.
  - rewrite <- (take_drop 4 monitorKeys). apply elem_of_app. by right.
  - revert key Hk. apply (Forall_forall (fun k => has_prefix "budget_" k = false)).
    repeat constructor.
Qed.

Lemma health_observation_sound key i :
  health_observation key i -> sound_observation key i /\ has_prefix "budget_" key = false.
Proof.
  intros (now & r & scheduled & i0 & Hin & Hkey & (Hn & Hj & Hf) & Hd & Hi).
  pose proof (health_observations_made cfg now r scheduled) as Hm. rewrite Forall_forall in Hm.
  pose proof (health_observations_now cfg now r scheduled) as Ht. rewrite Forall_forall in Ht.
  specialize (Ht i0 Hin). cbn in Ht.
  destruct (Hm i0 Hin) as (k & en & av & st & re & Hst & Hk & Hs & Hre & Hsi).
  destruct (health_keys_known k Hk) as [Hk1 Hk2].
  assert (Ek : k = key) by (by rewrite <- Hkey, Hst). subst k.
  assert (Hv : validateMonitorStatus (in_status i0) = true).
  { rewrite Hst. apply new_status_valid; [done|eapply one_of_included; [|exact Hs]; reflexivity|].
    destruct Hre as [Hre|(_ & Ha & Hjs & Hne)]; [eapply one_of_included; [|exact Hre]; reflexivity|].
    by specialize (Hd Ha Hjs). }
  assert (Hnow : 0 < now).
  { unfold recorded_time, year_in_range, is_zero in Hn. bool_to_prop. unfold unix_epoch, second in *. lia. }
  assert (Hs0 : sound_observation key i0).
  { split_and!; [split_and!; [done|by rewrite Hst|by rewrite Ht]|done|by rewrite Ht|].
    destruct Hsi as [->|[->| ->]]; done. }
  split; [|done]. destruct Hi as [->|(since & Hsince & ->)]; [done|].
  destruct Hs0 as (Ho & Hv0 & Hn0 & _). by split_and!.
Qed.

(** C17. The state of a health rule can be read back whatever the sensor, the counters,
    the journal, the storage and the GeoIP metadata report, in any order of passes, late
    ones included, as long as the SSH detector is there and within its capacity: what is
    encoded passes every check of [decodeMonitorData] and gives the same state. *)
Theorem health_state_readable key obs :
  (forall n, ValidID ("monitor_" ++ id_draw n)%string = true) ->
  Forall (health_observation key) obs -> obs <> [] ->
  let '(d, _, _) := monitor_run cfg started obs no_data 0 in
  decoded_data_ok key d = true /\
  forall encode decode_json,
    decode_json (encode d) = Some d -> lenZ (encode d) <= 16384 ->
    decodeMonitorData decode_json (encode d) key = Some d.
Proof.
  intros Hid Hall Hne.
  assert (Hk : has_prefix "budget_" key = false).
  { destruct Hall as [|i obs Hi _]; [done|]. by apply (health_observation_sound key i). }
  assert (Hobs : Forall (sound_observation key) obs).
  { eapply Forall_impl; [exact Hall|]. intros i Hi. by apply health_observation_sound. }
  pose proof (monitor_run_stored cfg started Hid key obs no_data 0 Hk Hobs (no_data_health_ok key)
    (or_introl (conj eq_refl Hne))) as Hs.
  destruct (monitor_run _ _ _ _ _) as [[d es] ids].
  pose proof (health_stored_decodes key d Hs) as Hok. split; [done|].
  intros encode decode_json Hdec Hlen. unfold decodeMonitorData. rewrite Hdec, Hok.
  by replace (16384 <? lenZ (encode d)) with false by lia.
Qed.

(** A failure with a reason outside the fixed list leaves a state that the
    validation refuses: it is never stored and never raises an event that is. *)
Lemma unlisted_reason_invalid key d i ids :
  has_prefix "budget_" key = false -> observes key i -> monitorRollback d i = false ->
  failed i = true -> one_of monitor_reasons (ms_reason (in_status i)) = false ->
  let '(d', _, _) := evaluateMonitor d i cfg started ids in
  validateMonitorStatus (md_status d') = false.
Proof.
  intros Hk (Hkey & _) Hr Hf Hreason. unfold evaluateMonitor. rewrite Hr, Hkey, Hk.
  unfold failed, enabled_condition in Hf. apply andb_true_iff in Hf as [Hen Hc].
  apply String.eqb_eq in Hc.
  assert (Hrs : forall s, ms_reason s = ms_reason (in_status i) -> validateMonitorStatus s = false).
  { intros s Hs. unfold validateMonitorStatus. rewrite Hs, Hreason, !andb_false_r. done. }
  unfold evaluateHealth, health_failed. rewrite Hen, Hc. cbn.
  destruct d, (in_geo_known i); cbn; repeat case_if; cbn;
    repeat match goal with |- context [healthEvent ?d ?n ?p ?g ?k] =>
      destruct (healthEvent d n p g k) end; by apply Hrs.
Qed.
End Properties.

(** A runtime whose identifiers are fixed text. *)
Definition fixed_runtime : GoRuntime := {|
  id_draw := fun _ => "0123456789abcdef";
  fmt_f0 := fun _ => "0";
  fmt_shortest := fun _ => "0";
  fmt_duration := fun _ => "0s";
  f64_outside_u64 := fun _ => 0 |}.

(** Two passes with a stale sensor, and one in which it is back. *)
Definition example_reports (sensor : string) : component_reports :=
  mkReports true sensor "running" (example_minute 5) true
    (mkJournal "running" "record_persisted" (example_minute 5) (example_minute 1) 0 "" "" "" time_zero
       None "") (Some true) (Some (mkBudgetReport "running" true)) [] time_zero AssetMissing false.

Definition example_sensor_pass (n : Z) (sensor : string) : monitorObservation :=
  observe_sensor (example_minute n) true (example_reports sensor).

Definition example_sensor_history : list monitorObservation :=
  [example_sensor_pass 5 "degraded"; example_sensor_pass 8 "degraded"; example_sensor_pass 9 "running"].

Lemma health_state_readable_witness :
  let '(d, _, _) := @monitor_run fixed_runtime example_text example_alerts unix_epoch
    example_sensor_history no_data 0 in
  @decoded_data_ok example_url "health_sensor" d = true /\
  forall encode decode_json,
    decode_json (encode d) = Some d -> lenZ (encode d) <= 16384 ->
    @decodeMonitorData example_url decode_json (encode d) "health_sensor" = Some d.
Proof.
  apply (@health_state_readable fixed_runtime example_text example_url example_alerts unix_epoch
    "health_sensor" example_sensor_history).
  - intros n. vm_compute. reflexivity.
  - assert (Hgen : forall n sensor, 1 <= n <= 9 ->
      health_observation example_alerts "health_sensor" (example_sensor_pass n sensor)).
    { intros n sensor Hn. exists (example_minute n), (example_reports sensor), false,
        (example_sensor_pass n sensor).
      split_and!; [|unfold example_sensor_pass, observe_sensor; by repeat case_if| |done|by left].
      - change (health_observations _ _ _ _)
          with (observeHealth example_alerts (example_minute n) (example_reports sensor) false).
        apply list_elem_of_here.
      - split_and!; [|vm_compute; reflexivity|vm_compute; reflexivity].
        unfold recorded_time, year_in_range, is_zero, example_minute, unix_epoch, year_10000, minute, second.
        lia. }
    unfold example_sensor_history. repeat (apply Forall_cons_2; [apply Hgen; lia|]). apply Forall_nil_2.
  - discriminate.
Defined.
