(* ===== verification/MonitorRuntime.v ===== *)
(** * The monitor's persistence

    [internal/daemon/monitor.go] and [CommitMonitorState] of
    [internal/store/monitor_state.go]: a rule's next state is committed with its
    events by compare-and-swap on a revision.  A commit whose outcome is unknown,
    a conflict or an unreadable store leaves a pending transition, which later
    passes resolve. *)

From S2P Require Export MonitorBudget MonitorStored.

(** ** The store *)

Record MonitorState := mkMonitorState {
  mst_key : string;
  mst_revision : Z;
  mst_updated_at : time;
  mst_data : list Z }.

Definition validMonitorKey : string -> bool :=
  one_of ["budget_month_bytes"; "budget_month_cost"; "budget_day_bytes"; "budget_day_growth";
          "health_sensor"; "health_interface_counter"; "health_ssh_journal"; "health_storage";
          "health_geoip_update"].

Inductive commit_error :=
| MonitorConflict
| CommitRefused (reason : string).

Section Runtime.
(** The rendered notification of an event, the JSON codec and the store's size
    limit on events are services. *)
Context {Message : Type} `{GoRuntime, GoText, GoURL}.
Context (cfg : AlertsConfig) (started : time).
Context (message_of : Event -> option Message).
Context (encode : monitorData -> option (list Z)) (decode_json : list Z -> option monitorData).
Context (event_fits : Event -> bool).

(** Rows of [monitor_state], and of [events] with the notification decision that
    the same transaction records. *)
Record DB := mkDB {
  db_states : gmap string MonitorState;
  db_events : list (Event * option Message) }.

Definition event_ids (l : list (Event * option Message)) : list string := ev_id ∘ fst <$> l.

(** The rows that the transaction inserts; an identity that exists aborts it. *)
Fixpoint insert_events (l : list (Event * option Message)) (events : list (Event * option Message))
    : result commit_error (list (Event * option Message)) :=
  match l with
  | [] => Ok events
  | em :: l =>
      if bool_decide (ev_id (fst em) ∈ event_ids events)
      then Err (CommitRefused "monitor event identity already exists")
      else if negb (event_fits (fst em)) then Err (CommitRefused "event metadata exceeds storage limit")
      else insert_events l (events ++ [em])
  end.

(** The checks of the events before the transaction: valid, distinct identities
    of this rule. *)
Fixpoint events_valid (key : string) (seen : list string) (events : list Event) : bool :=
  match events with
  | [] => true
  | e :: events =>
      ValidID (ev_id e) && negb (bool_decide (ev_id e ∈ seen))
      && negb (is_zero (ev_observed_at e)) && (ev_kind e =?s key)
      && events_valid key (ev_id e :: seen) events
  end.

Definition CommitMonitorState (next : MonitorState) (expected : Z)
    (events : list Event) (messages : list (option Message)) (db : DB) : result commit_error DB :=
  if negb (validMonitorKey (mst_key next)) || (expected <? 0) || (expected =? i64_max)
     || is_zero (mst_updated_at next) || (16384 <? lenZ (mst_data next))
     || (2 <? lenZ events) || negb (lenZ events =? lenZ messages)
  then Err (CommitRefused "invalid bounded monitor transition")
  else if negb (events_valid (mst_key next) [] events)
  then Err (CommitRefused "invalid monitor transition event")
  else
    let row := db_states db !! mst_key next in
    let previous := from_option mst_revision 0 row in
    if negb (previous =? expected) then Err MonitorConflict
    else if (match row with
             | Some r => unix_milli (mst_updated_at next) <? unix_milli (mst_updated_at r)
             | None => unix_milli (mst_updated_at next) <? 0
             end)
    then Err (CommitRefused "monitor state time cannot move backwards")
    else if (previous =? 0) && (32 <=? Z.of_nat (size (db_states db)))
    then Err (CommitRefused "monitor state capacity reached")
    else
      let row := mkMonitorState (mst_key next) (expected + 1)
                   (of_unix_milli (unix_milli (mst_updated_at next))) (mst_data next) in
      let? rows := insert_events (zip events messages) (db_events db) in
      Ok (mkDB (<[mst_key next := row]> (db_states db)) rows).

(** What a caller can see of a commit: the transaction never ran, or it ran and its
    result was reported, or it ran and only an error came back. *)
Inductive delivery := Unreached | Reported | Unreported.
Inductive commit_result := Committed | Conflicted | Unavailable.

Definition call_commit (o : delivery) (next : MonitorState) (expected : Z)
    (events : list Event) (messages : list (option Message)) (db : DB) : commit_result * DB :=
  match o with
  | Unreached => (Unavailable, db)
  | _ =>
      match CommitMonitorState next expected events messages db with
      | Ok db' => (if o is Reported then Committed else Unavailable, db')
      | Err MonitorConflict => (if o is Reported then Conflicted else Unavailable, db)
      | Err _ => (Unavailable, db)
      end
  end.

(** ** The runtime *)

Record monitorPending := mkPending {
  mp_observation : monitorObservation;
  mp_next : monitorData;
  mp_record : MonitorState;
  mp_expected : Z;
  mp_events : list Event;
  mp_messages : list (option Message);
  mp_since : time }.

Record monitorRuntime := mkRuntime {
  rt_records : gmap string MonitorState;
  rt_states : gmap string monitorData;
  rt_invalid : gmap string bool;
  rt_pending : gmap string monitorPending;
  rt_loaded : bool;
  rt_ids : nat }.

Definition newMonitorRuntime (ids : nat) : monitorRuntime := mkRuntime ∅ ∅ ∅ ∅ false ids.

(** A missing entry of a Go map. *)
Definition record_of (m : monitorRuntime) (key : string) : MonitorState :=
  default (mkMonitorState "" 0 time_zero []) (rt_records m !! key).
Definition state_of (m : monitorRuntime) (key : string) : monitorData :=
  default no_data (rt_states m !! key).
Definition invalid_of (m : monitorRuntime) (key : string) : bool :=
  default false (rt_invalid m !! key).

Definition with_pending_of (key : string) (p : option monitorPending) (m : monitorRuntime) : monitorRuntime :=
  mkRuntime (rt_records m) (rt_states m) (rt_invalid m)
    (partial_alter (fun _ => p) key (rt_pending m)) (rt_loaded m) (rt_ids m).
Definition with_ids (ids : nat) (m : monitorRuntime) : monitorRuntime :=
  mkRuntime (rt_records m) (rt_states m) (rt_invalid m) (rt_pending m) (rt_loaded m) ids.

(** One record of [reload]. *)
Definition load_record (m : monitorRuntime) (key : string) (r : MonitorState) : monitorRuntime :=
  match decodeMonitorData decode_json (mst_data r) key with
  | Some d =>
      if of_unix_milli (unix_milli (md_observed_at d)) =? mst_updated_at r then
        mkRuntime (<[key := r]> (rt_records m)) (<[key := d]> (rt_states m))
          (<[key := false]> (rt_invalid m)) (rt_pending m) (rt_loaded m) (rt_ids m)
      else mkRuntime (rt_records m) (rt_states m) (<[key := true]> (rt_invalid m)) (rt_pending m)
             (rt_loaded m) (rt_ids m)
  | None => mkRuntime (rt_records m) (rt_states m) (<[key := true]> (rt_invalid m)) (rt_pending m)
              (rt_loaded m) (rt_ids m)
  end.

(** [reload]: [readable] is whether the store could be read. *)
Definition reload (readable : bool) (db : DB) (m : monitorRuntime) : option monitorRuntime :=
  if negb readable then None
  else
    let m := foldl (fun m kr => load_record m (fst kr) (snd kr)) m (map_to_list (db_states db)) in
    Some (mkRuntime (rt_records m) (rt_states m) (rt_invalid m) (rt_pending m) true (rt_ids m)).

(** How one commit goes: its first call, the reload after a conflict and the
    bounded retry. *)
Record attempt := mkAttempt { at_first : delivery; at_readable : bool; at_retry : delivery }.

Definition same_data (a b : list Z) : bool := bool_decide (a = b).

(** A commit that succeeded. *)
Definition acknowledge (key : string) (p : monitorPending) (m : monitorRuntime) : monitorRuntime :=
  let r := mkMonitorState (mst_key (mp_record p)) (mp_expected p + 1)
             (mst_updated_at (mp_record p)) (mst_data (mp_record p)) in
  mkRuntime (<[key := r]> (rt_records m)) (<[key := mp_next p]> (rt_states m)) (rt_invalid m)
    (delete key (rt_pending m)) (rt_loaded m) (rt_ids m).

Definition call_pending (o : delivery) (p : monitorPending) (db : DB) : commit_result * DB :=
  call_commit o (mp_record p) (mp_expected p) (mp_events p) (mp_messages p) db.

(** The pending transition, evaluated again on a state that the store holds. *)
Definition reevaluate (key : string) (p : monitorPending) (m : monitorRuntime)
    : option (monitorPending * monitorRuntime) :=
  let '(next, events, ids) :=
    evaluateMonitor (state_of m key) (mp_observation p) cfg started (rt_ids m) in
  match encode next with
  | None => None
  | Some data =>
      Some (mkPending (mp_observation p) next
              (mkMonitorState (mst_key (mp_record p)) (mst_revision (mp_record p)) (md_observed_at next) data)
              (mst_revision (record_of m key)) events (message_of <$> events) (mp_since p),
            with_ids ids m)
  end.

(** [commit]. *)
Definition commit (key : string) (a : attempt) (m : monitorRuntime) (db : DB)
    : bool * monitorRuntime * DB :=
  match rt_pending m !! key with
  | None => (true, m, db)
  | Some p =>
      let r := record_of m key in
      if (mp_expected p <? mst_revision r) && same_data (mst_data r) (mst_data (mp_record p))
      then (true, with_pending_of key None m, db)
      else
        match call_pending (at_first a) p db with
        | (Committed, db) => (true, acknowledge key p m, db)
        | (Unavailable, db) => (false, m, db)
        | (Conflicted, db) =>
            match reload (at_readable a) db m with
            | None => (false, m, db)
            | Some m =>
                if invalid_of m key then (false, m, db)
                else if after (md_observed_at (state_of m key)) (in_now (mp_observation p))
                then (true, with_pending_of key None m, db)
                else if same_data (mst_data (record_of m key)) (mst_data (mp_record p))
                then (true, with_pending_of key None m, db)
                else
                  match reevaluate key p m with
                  | None => (false, m, db)
                  | Some (p, m) =>
                      let m := with_pending_of key (Some p) m in
                      match call_pending (at_retry a) p db with
                      | (Committed, db) => (true, acknowledge key p m, db)
                      | (_, db) => (false, m, db)
                      end
                  end
            end
        end
  end.

Definition view_as (state reason : string) (available : bool) (s : MonitorRuleStatus) : MonitorRuleStatus :=
  with_available available (with_reason reason (with_state state s)).
Definition view_pending (s : MonitorRuleStatus) : MonitorRuleStatus :=
  with_available false (with_pending true s).

(** [storeObservation]. *)
Definition storeObservation (i : monitorObservation) (a : attempt) (m : monitorRuntime) (db : DB)
    : MonitorRuleStatus * monitorRuntime * DB :=
  let key := ms_key (in_status i) in
  let '(next, events, ids) := evaluateMonitor (state_of m key) i cfg started (rt_ids m) in
  let m := with_ids ids m in
  match encode next with
  | Some data =>
      if (16384 <? lenZ data) || negb (validateMonitorStatus (md_status next))
         || negb (validateMonthData next key)
      then (view_as "unknown" "state_invalid" false (in_status i), m, db)
      else if (negb (ms_enabled (in_status i)) && (mst_revision (record_of m key) =? 0))
              || same_data (mst_data (record_of m key)) data
      then (md_status next, m, db)
      else
        let p := mkPending i next (mkMonitorState key 0 (md_observed_at next) data)
                   (mst_revision (record_of m key)) events (message_of <$> events) (in_now i) in
        let '(ok, m, db) := commit key a (with_pending_of key (Some p) m) db in
        if ok then (md_status (state_of m key), m, db) else (view_pending (md_status next), m, db)
  | None => (view_as "unknown" "state_invalid" false (in_status i), m, db)
  end.

(** A pending transition without events takes the new observation in, unless a
    month has to be closed first or the clock went back. *)
Definition refresh_pending (key : string) (i : monitorObservation) (m : monitorRuntime) : monitorRuntime :=
  match rt_pending m !! key with
  | None => m
  | Some p =>
      if (lenZ (mp_events p) =? 0) && negb (in_closing (mp_observation p))
         && negb (needsMonthClose (mp_next p) i) && negb (before (in_now i) (md_observed_at (mp_next p)))
      then
        let i :=
          if (in_condition i =?s "failed") && negb (is_zero (md_condition_since (mp_next p)))
          then mkObservation (in_now i) (in_status i) (in_condition i) (md_condition_since (mp_next p))
                 (in_geo_known i) (in_geo_scheduled i) (in_month_policy i) (in_closing i)
                 (in_diagnostic i)
          else i in
        let '(next, events, ids) := evaluateMonitor (mp_next p) i cfg started (rt_ids m) in
        let m := with_ids ids m in
        match encode next with
        | Some data =>
            if validateMonitorStatus (md_status next) && validateMonthData next key then
              with_pending_of key
                (Some (mkPending i next
                         (mkMonitorState (mst_key (mp_record p)) (mst_revision (mp_record p))
                            (md_observed_at next) data)
                         (mp_expected p) events (message_of <$> events) (mp_since p))) m
            else m
        | None => m
        end
      else m
  end.

(** What a closing observation reads, and how the commits of one pass go. *)
Record month_reads := mkReads {
  rd_summary : time -> time -> option Z;
  rd_coverage : time -> time -> string;
  rd_cancelled : bool }.

(** The observation that [refresh_pending] may have redated. *)
Definition refreshed (key : string) (i : monitorObservation) (m : monitorRuntime) : monitorObservation :=
  match rt_pending m !! key with
  | Some p =>
      if (lenZ (mp_events p) =? 0) && negb (in_closing (mp_observation p))
         && negb (needsMonthClose (mp_next p) i) && negb (before (in_now i) (md_observed_at (mp_next p)))
         && (in_condition i =?s "failed") && negb (is_zero (md_condition_since (mp_next p)))
      then mkObservation (in_now i) (in_status i) (in_condition i) (md_condition_since (mp_next p))
             (in_geo_known i) (in_geo_scheduled i) (in_month_policy i) (in_closing i) (in_diagnostic i)
      else i
  | None => i
  end.

(** The observation of a rule without a pending transition: a rollback changes
    nothing, and a recorded month is closed before the next is opened. *)
Definition observe_rule (i : monitorObservation) (rd : month_reads) (a1 a2 : attempt)
    (m : monitorRuntime) (db : DB) : MonitorRuleStatus * monitorRuntime * DB :=
  let key := ms_key (in_status i) in
  let previous := state_of m key in
  if monitorRollback previous i
  then (view_as "unknown" "clock_rollback" false (md_status previous), m, db)
  else if needsMonthClose previous i then
    match closingObservation (rd_summary rd) (rd_coverage rd) (rd_cancelled rd) (in_now i) previous with
    | Err _ => (view_as "unknown" "period_close_pending" false (md_status previous), m, db)
    | Ok c =>
        let '(view, m, db) := storeObservation c a1 m db in
        if negb (some (rt_pending m !! key)) && md_month_finalized (state_of m key)
        then storeObservation i a2 m db
        else (view, m, db)
    end
  else storeObservation i a2 m db.

(** One observation of [applyObservations], up to the view's decoration. *)
Definition apply_observation (i : monitorObservation) (rd : month_reads) (a0 a1 a2 : attempt)
    (m : monitorRuntime) (db : DB) : MonitorRuleStatus * monitorRuntime * DB :=
  let key := ms_key (in_status i) in
  let s := in_status i in
  if negb (ms_enabled s) && has_prefix "budget_" key
  then (view_as "disabled" "disabled" true s, m, db)
  else if negb (rt_loaded m) || invalid_of m key
  then (view_as "unknown" (if invalid_of m key then "state_invalid" else "read_failed") false s, m, db)
  else
    let i := refreshed key i m in
    let m := refresh_pending key i m in
    let '(ok, m, db) := commit key a0 m db in
    match ok, rt_pending m !! key with
    | false, Some p => (view_pending (md_status (mp_next p)), m, db)
    | _, _ => observe_rule i rd a1 a2 m db
    end.

(** The decoration that ends the loop of [applyObservations]. *)
Definition decorate (key : string) (read_failed : bool) (m : monitorRuntime) (view : MonitorRuleStatus)
    : MonitorRuleStatus :=
  let view :=
    if read_failed && negb (ms_pending view) && ms_enabled view
    then view_as "unknown" "read_failed" false view else view in
  let view :=
    match rt_pending m !! key with
    | Some p => with_pending_since (mp_since p) (with_pending true view)
    | None => view
    end in
  let r := record_of m key in
  let view := if 0 <? mst_revision r then with_last_persisted (mst_updated_at r) view else view in
  if ms_pending view then
    let durable := state_of m key in
    let view := with_last_notification time_zero (with_milestone 0 view) in
    if ms_period view =?s md_period durable
    then with_last_notification (md_last_notification durable) (with_milestone (md_milestone durable) view)
    else view
  else view.

(** The loop of [applyObservations]. *)
Fixpoint apply_all (l : list (monitorObservation * month_reads * attempt * attempt * attempt))
    (read_failed : bool) (m : monitorRuntime) (db : DB)
    : list MonitorRuleStatus * monitorRuntime * DB :=
  match l with
  | [] => ([], m, db)
  | (i, rd, a0, a1, a2) :: l =>
      let '(view, m, db) := apply_observation i rd a0 a1 a2 m db in
      let view := decorate (ms_key (in_status i)) read_failed m view in
      let '(views, m, db) := apply_all l read_failed m db in (view :: views, m, db)
  end.

(** One pass. *)
Definition monitor_pass (readable : bool)
    (l : list (monitorObservation * month_reads * attempt * attempt * attempt))
    (m : monitorRuntime) (db : DB) : monitorRuntime * DB :=
  let '(m, failed) := match reload readable db m with
                      | Some m => (m, false)
                      | None => (m, true)
                      end in
  let '(_, m, db) := apply_all l failed m db in (m, db).

(** ** Chains of evaluations *)

(** [chain key d obs d' es]: the observations [obs] of the rule, each with the start of the
    process that evaluated it, lead from [d] to [d'] one after the other, with the events
    [es]. *)
Inductive chain (key : string) : monitorData -> list (time * monitorObservation) -> monitorData ->
    list Event -> Prop :=
| chain_nil d : chain key d [] d []
| chain_snoc d obs d1 es at' i ids d2 es2 ids2 :
    chain key d obs d1 es -> ms_key (in_status i) = key ->
    evaluateMonitor d1 i cfg at' ids = (d2, es2, ids2) ->
    chain key d (obs ++ [(at', i)]) d2 (es ++ es2).

Lemma chain_one key d at' i ids d2 es2 ids2 :
  ms_key (in_status i) = key -> evaluateMonitor d i cfg at' ids = (d2, es2, ids2) ->
  chain key d [(at', i)] d2 es2.
Proof.
  intros Hk He.
  apply (chain_snoc key d [] d [] at' i ids d2 es2 ids2); [constructor|done|done].
Qed.

Lemma chain_trans key d obs1 d1 es1 obs2 d2 es2 :
  chain key d obs1 d1 es1 -> chain key d1 obs2 d2 es2 -> chain key d (obs1 ++ obs2) d2 (es1 ++ es2).
Proof.
  intros Hc. induction 1 as [d1|d1 obs2 d2 es2 at' i ids d3 es3 ids3 _ IH Hk He].
  - by rewrite !app_nil_r.
  - rewrite !app_assoc. eapply chain_snoc; [by apply IH|done|done].
Qed.

(** ** The store's side *)

(** The revision and the state that the store holds of a rule. *)
Definition revision_of (db : DB) (key : string) : Z := from_option mst_revision 0 (db_states db !! key).
Definition durable (db : DB) (key : string) (d : monitorData) : Prop :=
  match db_states db !! key with
  | Some r => 1 <= mst_revision r /\ decode_json (mst_data r) = Some d
  | None => d = no_data
  end.
(** The events of a rule, in the order in which they were inserted. *)
Definition rule_events (db : DB) (key : string) : list Event :=
  filter (fun e => ev_kind e = key) (fst <$> db_events db).

Lemma insert_events_spec l : forall events rows,
  insert_events l events = Ok rows ->
  rows = events ++ l /\ (NoDup (event_ids events) -> NoDup (event_ids rows)).
Proof.
  induction l as [|em l IH]; intros events rows; cbn [insert_events].
  { intros [= <-]. by rewrite app_nil_r. }
  case_bool_decide as Hin; [done|]. destruct (event_fits (fst em)); [cbn [negb]|done].
  intros [-> Hnd]%IH. rewrite <- app_assoc in *. split; [done|]. intros Hn. apply Hnd.
  unfold event_ids in *. rewrite fmap_app. apply NoDup_app. split; [done|]. split.
  - intros x Hx Hx2. apply list_elem_of_singleton in Hx2 as ->. by apply Hin.
  - apply NoDup_singleton.
Qed.

Lemma events_valid_kind key events : forall seen,
  events_valid key seen events = true -> Forall (fun e => ev_kind e = key) events.
Proof.
  induction events as [|e events IH]; intros seen Hv; [constructor|].
  cbn [events_valid] in Hv. apply andb_true_iff in Hv as [Hv Hr].
  apply andb_true_iff in Hv as [_ Hk]. apply String.eqb_eq in Hk.
  constructor; [done|]. by apply IH in Hr.
Qed.

Lemma filter_kind_all key (l : list Event) :
  Forall (fun e => ev_kind e = key) l -> filter (fun e => ev_kind e = key) l = l.
Proof. induction 1 as [|e l He Hl IH]; [done|]. by rewrite filter_cons_True, IH. Qed.

Lemma filter_kind_none key key' (l : list Event) :
  Forall (fun e => ev_kind e = key) l -> key <> key' -> filter (fun e => ev_kind e = key') l = [].
Proof.
  intros Hl Hne. induction Hl as [|e l He Hl IH]; [done|].
  rewrite filter_cons_False by congruence. done.
Qed.

(** What a transaction that commits does. *)
Lemma CommitMonitorState_spec next expected events messages db db' :
  CommitMonitorState next expected events messages db = Ok db' ->
  0 <= expected /\ revision_of db (mst_key next) = expected /\
  (exists at', db_states db' = <[mst_key next :=
     mkMonitorState (mst_key next) (expected + 1) at' (mst_data next)]> (db_states db)) /\
  rule_events db' (mst_key next) = rule_events db (mst_key next) ++ events /\
  (forall key, key <> mst_key next -> rule_events db' key = rule_events db key) /\
  (NoDup (event_ids (db_events db)) -> NoDup (event_ids (db_events db'))).
Proof.
  unfold CommitMonitorState.
  destruct (_ || _) eqn:Eb; [done|]. destruct (events_valid _ _ _) eqn:Ev; [|done]. cbn [negb].
  cbv zeta. fold (revision_of db (mst_key next)).
  destruct (revision_of db (mst_key next) =? expected) eqn:Er; [cbn [negb]|done].
  destruct (match db_states db !! mst_key next with Some r => _ | None => _ end); [done|].
  destruct (_ && _); [done|].
  destruct (insert_events _ _) as [rows|] eqn:Ei; [|done]. cbn [rbind]. intros [= <-].
  apply insert_events_spec in Ei as [-> Hnd]. apply events_valid_kind in Ev.
  bool_to_prop. unfold lenZ in *.
  assert (Hz : (zip events messages).*1 = events) by (apply fst_zip; lia).
  split_and!; [lia|done|by eexists| | |done]; [|intros key Hne];
    unfold rule_events; cbn [db_events]; rewrite fmap_app, Hz, filter_app.
  - rewrite (filter_kind_all (mst_key next) events) by exact Ev. done.
  - rewrite (filter_kind_none (mst_key next) key events Ev) by congruence. by rewrite app_nil_r.
Qed.

(** ** The invariant *)

(** The JSON of a state reads back as the state. *)
Context (Hcodec : forall d data, encode d = Some data -> decode_json data = Some d).

(** The row of the rule holds these bytes. *)
Definition holds (db : DB) (key : string) (data : list Z) : Prop :=
  mst_data <$> db_states db !! key = Some data.

(** What the daemon holds of a rule is at most as new as the store; where it is as
    new, it is the same. *)
Record synced (key : string) (m : monitorRuntime) (db : DB) : Prop := {
  sy_record : match rt_records m !! key with
    | Some r => 1 <= mst_revision r <= revision_of db key /\
        (mst_revision r = revision_of db key -> durable db key (state_of m key))
    | None => rt_states m !! key = None
    end;
  sy_pending : forall p, rt_pending m !! key = Some p ->
    mst_key (mp_record p) = key /\ ms_key (in_status (mp_observation p)) = key /\
    decode_json (mst_data (mp_record p)) = Some (mp_next p) }.

(** A pending transition goes on from the observations [obs] that the store has taken in
    and ends with its own; one that the store holds already adds nothing.  [F] are the
    evaluations that the history allows, in their order. *)
Definition goes_on_from (key : string) (F obs : list (time * monitorObservation)) (d : monitorData)
    (db : DB) (p : monitorPending) : Prop :=
  (mp_expected p = revision_of db key ->
     exists obs2, chain key d (obs2 ++ [(started, mp_observation p)]) (mp_next p) (mp_events p) /\
       obs ++ obs2 ++ [(started, mp_observation p)] `sublist_of` F) /\
  (holds db key (mst_data (mp_record p)) \/ obs ++ [(started, mp_observation p)] `sublist_of` F).

(** The store holds what evaluations of its own states gave, once each. *)
Definition accounted (key : string) (F : list (time * monitorObservation)) (m : monitorRuntime)
    (db : DB) : Prop :=
  exists d obs, durable db key d /\ chain key no_data obs d (rule_events db key) /\
    obs `sublist_of` F /\
    forall p, rt_pending m !! key = Some p -> goes_on_from key F obs d db p.

Definition rule_inv (key : string) (F : list (time * monitorObservation)) (m : monitorRuntime)
    (db : DB) : Prop := synced key m db /\ accounted key F m db.

Definition runtime_inv (F : list (time * monitorObservation)) (m : monitorRuntime) (db : DB) : Prop :=
  NoDup (event_ids (db_events db)) /\ forall key, rule_inv key F m db.

Lemma goes_on_from_mono key F F' obs d db p :
  F `sublist_of` F' -> goes_on_from key F obs d db p -> goes_on_from key F' obs d db p.
Proof.
  intros Hs [G1 G2]. split.
  - intros Hrev. destruct (G1 Hrev) as (obs2 & Hc & Ho). exists obs2. split; [done|]. by etrans.
  - destruct G2 as [G2|G2]; [by left|right; by etrans].
Qed.

(** More evaluations may be allowed. *)
Lemma runtime_inv_mono F F' m db : F `sublist_of` F' -> runtime_inv F m db -> runtime_inv F' m db.
Proof.
  intros Hs [Hn Hi]. split; [done|]. intros key. destruct (Hi key) as [Hy (d & obs & Hd & Hc & Ho & Hp)].
  split; [done|]. exists d, obs. split_and!; [done|done|by etrans|].
  intros p Hpp. by eapply goes_on_from_mono, Hp.
Qed.

Lemma durable_functional db key d d' : durable db key d -> durable db key d' -> d = d'.
Proof.
  unfold durable. destruct (db_states db !! key); [|congruence].
  intros [_ Hd1] [_ Hd2]. congruence.
Qed.

(** A daemon as new as the store holds the store's state. *)
Lemma current_state key m db d :
  synced key m db -> mst_revision (record_of m key) = revision_of db key -> durable db key d ->
  state_of m key = d.
Proof.
  intros [Hr _] Hrev Hd. unfold record_of in Hrev.
  destruct (rt_records m !! key) as [r|]; cbn in Hrev.
  - destruct Hr as [_ Hs]. by apply (durable_functional db key); [apply Hs|].
  - unfold state_of. rewrite Hr. unfold durable, revision_of in *.
    destruct (db_states db !! key); [destruct Hd as [? _]; cbn in Hrev; lia|done].
Qed.

(** What another rule's operation leaves alone. *)
Lemma synced_frame key m m' db db' :
  rt_records m' !! key = rt_records m !! key -> rt_states m' !! key = rt_states m !! key ->
  rt_pending m' !! key = rt_pending m !! key -> db_states db' !! key = db_states db !! key ->
  synced key m db -> synced key m' db'.
Proof.
  intros E1 E2 E3 E4 [Hr Hp].
  split; unfold state_of, revision_of, durable in *; rewrite ?E1, ?E2, ?E3, ?E4; done.
Qed.

Lemma accounted_frame key F m m' db db' :
  rt_pending m' !! key = rt_pending m !! key ->
  db_states db' !! key = db_states db !! key -> rule_events db' key = rule_events db key ->
  accounted key F m db -> accounted key F m' db'.
Proof.
  intros E0 E1 E2 (d & obs & Hd & Hc & Ho & Hp). exists d, obs.
  unfold durable, goes_on_from, revision_of, holds in *. rewrite E0, E1, E2. by split_and!.
Qed.

Lemma rule_frame key F m m' db db' :
  rt_records m' !! key = rt_records m !! key -> rt_states m' !! key = rt_states m !! key ->
  rt_pending m' !! key = rt_pending m !! key -> db_states db' !! key = db_states db !! key ->
  rule_events db' key = rule_events db key -> rule_inv key F m db -> rule_inv key F m' db'.
Proof.
  intros E1 E2 E3 E4 E5 [Hs Ha].
  split; [by eapply synced_frame; [..|exact Hs]|by eapply accounted_frame; [..|exact Ha]].
Qed.

Lemma forget_pending_inv key F m db :
  runtime_inv F m db -> runtime_inv F (with_pending_of key None m) db.
Proof.
  intros [Hn Hi]. split; [done|]. intros k. destruct (decide (k = key)) as [->|Hne].
  - destruct (Hi key) as [[Hr _] (d & obs & Hd & Hc & Ho & _)].
    assert (Hnone : rt_pending (with_pending_of key None m) !! key = None)
      by (cbn; by rewrite lookup_partial_alter_eq).
    split; [split; [done|]|exists d, obs; split_and!; try done];
      intros p Hp; by rewrite Hnone in Hp.
  - eapply rule_frame; [..|exact (Hi k)]; try done. cbn. by rewrite lookup_partial_alter_ne.
Qed.

Lemma with_ids_inv ids F m db : runtime_inv F m db -> runtime_inv F (with_ids ids m) db.
Proof.
  intros [Hn Hi]. split; [done|]. intros k. by eapply rule_frame; [..|exact (Hi k)].
Qed.

(** A new pending transition. *)
Lemma put_pending_inv key F F' p m db :
  runtime_inv F m db -> F `sublist_of` F' -> mst_key (mp_record p) = key ->
  ms_key (in_status (mp_observation p)) = key ->
  decode_json (mst_data (mp_record p)) = Some (mp_next p) ->
  (forall d obs, durable db key d -> obs `sublist_of` F ->
     (forall q, rt_pending m !! key = Some q -> goes_on_from key F obs d db q) ->
     goes_on_from key F' obs d db p) ->
  runtime_inv F' (with_pending_of key (Some p) m) db.
Proof.
  intros [Hn Hi] HF H2 H3 H4 H5. destruct (Hi key) as [[Hr _] (d & obs & Hd & Hc & Ho & Hp)].
  pose proof (H5 d obs Hd Ho Hp) as Hg.
  destruct (runtime_inv_mono F F' m db HF (conj Hn Hi)) as [_ Hi'].
  assert (Hsome : rt_pending (with_pending_of key (Some p) m) !! key = Some p)
    by (cbn; by rewrite lookup_partial_alter_eq).
  split; [done|]. intros k. destruct (decide (k = key)) as [->|Hne].
  - split; [split; [done|]|exists d, obs; split_and!; [done|done|by etrans|]];
      intros q Hq; rewrite Hsome in Hq; by injection Hq as <-.
  - eapply rule_frame; [..|exact (Hi' k)]; try done. cbn. by rewrite lookup_partial_alter_ne.
Qed.

(** Reading a row of the store. *)
Lemma load_record_inv key r F m db :
  runtime_inv F m db -> db_states db !! key = Some r -> runtime_inv F (load_record m key r) db.
Proof.
  intros [Hn Hi] Hrow. split; [done|]. intros k. pose proof (Hi k) as Hk.
  unfold load_record. destruct (decodeMonitorData decode_json (mst_data r) key) as [d|] eqn:Ed.
  2: by eapply rule_frame; [..|exact Hk].
  destruct (_ =? _); [|by eapply rule_frame; [..|exact Hk]].
  destruct (decide (k = key)) as [->|Hne].
  - destruct Hk as [[_ Hp] Ha]. split; [|by eapply accounted_frame; [..|exact Ha]].
    split; [|exact Hp]. cbn. rewrite lookup_insert_eq.
    assert (Hd : decode_json (mst_data r) = Some d).
    { unfold decodeMonitorData in Ed. case_if_in Ed; [discriminate Ed|].
      destruct (decode_json _) as [d'|]; [|discriminate Ed]. by case_if_in Ed. }
    destruct Ha as (d0 & _ & Hdur & _). unfold durable, revision_of, state_of in *. cbn.
    rewrite Hrow in *. cbn. rewrite lookup_insert_eq. cbn. destruct Hdur as [Hge _].
    split; [lia|]. done.
  - eapply rule_frame; [..|exact Hk]; try done; cbn; by rewrite lookup_insert_ne.
Qed.

Lemma reload_inv readable F m m' db :
  runtime_inv F m db -> reload readable db m = Some m' -> runtime_inv F m' db.
Proof.
  intros Hi. unfold reload. destruct readable; [cbn [negb]|done]. intros [= <-].
  assert (Hgen : forall l m, (forall kr, kr ∈ l -> db_states db !! fst kr = Some (snd kr)) ->
    runtime_inv F m db -> runtime_inv F (foldl (fun m kr => load_record m (fst kr) (snd kr)) m l) db).
  { clear. induction l as [|kr l IH]; intros m Hl Hm; [done|]. simpl. apply IH.
    - intros kr' Hin. apply Hl. by apply list_elem_of_further.
    - apply load_record_inv; [done|]. apply Hl, list_elem_of_here. }
  specialize (Hgen (map_to_list (db_states db)) m).
  destruct Hgen as [Hn Hk]; [|done|].
  { intros [k r] Hin. by apply elem_of_map_to_list in Hin. }
  split; [done|]. intros k. by eapply rule_frame; [..|exact (Hk k)].
Qed.

(** A rule that is valid after a reload is read from its row. *)
Lemma load_record_other m key r k :
  k <> key -> rt_records (load_record m key r) !! k = rt_records m !! k /\
    invalid_of (load_record m key r) k = invalid_of m k /\
    state_of (load_record m key r) k = state_of m k.
Proof.
  intros Hne. unfold load_record, invalid_of, state_of.
  destruct (decodeMonitorData _ _ _); [case_if|]; cbn; by rewrite ?lookup_insert_ne.
Qed.

Lemma load_record_valid m key r :
  invalid_of (load_record m key r) key = false ->
  rt_records (load_record m key r) !! key = Some r /\
  decode_json (mst_data r) = Some (state_of (load_record m key r) key).
Proof.
  unfold load_record, invalid_of, state_of.
  destruct (decodeMonitorData _ _ _) as [d|] eqn:Ed; [case_if|]; cbn; rewrite !lookup_insert_eq; try done.
  intros _. split; [done|]. unfold decodeMonitorData in Ed. case_if_in Ed; [discriminate Ed|].
  destruct (decode_json _) as [d'|]; [|discriminate Ed]. case_if_in Ed; [|discriminate Ed].
  by injection Ed as ->.
Qed.

Lemma reload_row m m' db key r :
  reload true db m = Some m' -> db_states db !! key = Some r -> invalid_of m' key = false ->
  record_of m' key = r /\ decode_json (mst_data r) = Some (state_of m' key).
Proof.
  unfold reload. cbn [negb]. intros [= <-] Hrow Hinv.
  pose proof (NoDup_fst_map_to_list (db_states db)) as Hnd.
  apply elem_of_map_to_list in Hrow. revert Hnd Hrow Hinv.
  unfold record_of, invalid_of, state_of. cbn [rt_records rt_invalid rt_states].
  generalize (map_to_list (db_states db)) as l. intros l. revert m.
  induction l as [|[k r'] l IH]; intros m Hnd Hin Hinv; [by apply elem_of_nil in Hin|].
  cbn [foldl fst snd fmap list_fmap] in *. apply NoDup_cons in Hnd as [Hno Hnd].
  apply elem_of_cons in Hin as [[= <- <-]|Hin]; [|by apply (IH (load_record m k r'))].
  assert (Hkeep : forall l m, key ∉ l.*1 ->
    let m' := foldl (fun m kr => load_record m (fst kr) (snd kr)) m l in
    rt_records m' !! key = rt_records m !! key /\ invalid_of m' key = invalid_of m key /\
    state_of m' key = state_of m key).
  { clear. induction l as [|[k r'] l IH]; intros m Hno; [done|].
    cbn [foldl fst snd fmap list_fmap] in *. apply not_elem_of_cons in Hno as [Hne Hno].
    destruct (load_record_other m k r' key Hne) as (E1 & E2 & E3).
    destruct (IH (load_record m k r') Hno) as (F1 & F2 & F3). split_and!; congruence. }
  destruct (Hkeep l (load_record m key r) Hno) as (K1 & K2 & K3).
  unfold invalid_of, state_of in *. rewrite K2 in Hinv. rewrite K1, K3.
  destruct (load_record_valid m key r Hinv) as [-> Hd]. by split.
Qed.

(** A committed pending transition: the store goes on, and whatever the caller
    learns, what it holds stays consistent. *)
Lemma commit_applied key p F m db db' :
  runtime_inv F m db -> rt_pending m !! key = Some p ->
  CommitMonitorState (mp_record p) (mp_expected p) (mp_events p) (mp_messages p) db = Ok db' ->
  runtime_inv F m db' /\ runtime_inv F (acknowledge key p m) db' /\ durable db' key (mp_next p).
Proof.
  intros [Hn Hi] Hp Hc.
  destruct (Hi key) as [[Hr Hpend] (d & obs & Hdur & Hch & Hsub & Hgo)].
  destruct (Hpend p Hp) as (Hkey & Hok & Hdec). destruct (Hgo p Hp) as [Hgo1 _].
  apply CommitMonitorState_spec in Hc as (Hpos & Hrev & (at' & Hst) & Hev & Hother & Hnd).
  rewrite Hkey in *. symmetry in Hrev. destruct (Hgo1 Hrev) as (obs2 & Hch2 & Hsub2).
  assert (Hrev' : revision_of db' key = mp_expected p + 1)
    by (unfold revision_of; rewrite Hst, lookup_insert_eq; done).
  assert (Hdur' : durable db' key (mp_next p))
    by (unfold durable; rewrite Hst, lookup_insert_eq; cbn; split; [lia|done]).
  assert (Hch' : chain key no_data (obs ++ obs2 ++ [(started, mp_observation p)]) (mp_next p)
                   (rule_events db' key))
    by (rewrite Hev; by eapply chain_trans).
  assert (Hframe : forall k m', k <> key -> rt_records m' !! k = rt_records m !! k ->
    rt_states m' !! k = rt_states m !! k -> rt_pending m' !! k = rt_pending m !! k -> rule_inv k F m' db').
  { intros k m' Hne E1 E2 E3. eapply rule_frame; [done..| | |exact (Hi k)]; [|by apply Hother].
    by rewrite Hst, lookup_insert_ne. }
  split_and!; [split; [by apply Hnd|]..|done]; intros k; (destruct (decide (k = key)) as [->|Hne];
    [|apply Hframe; cbn; rewrite ?lookup_insert_ne, ?lookup_delete_ne by done; done]); split.
  - split; [|done].
    destruct (rt_records m !! key) as [r|]; [|done]. rewrite Hrev'. split; lia.
  - exists (mp_next p), (obs ++ obs2 ++ [(started, mp_observation p)]). split_and!; [done..|].
    intros q Hq. rewrite Hp in Hq. injection Hq as <-. split; [rewrite Hrev'; lia|].
    left. unfold holds. by rewrite Hst, lookup_insert_eq.
  - split; cbn; [|intros q; by rewrite lookup_delete_eq].
    rewrite lookup_insert_eq. cbn. rewrite Hrev'. split; [lia|]. intros _.
    unfold state_of. cbn. by rewrite lookup_insert_eq.
  - exists (mp_next p), (obs ++ obs2 ++ [(started, mp_observation p)]). split_and!; [done..|].
    intros q. cbn. by rewrite lookup_delete_eq.
Qed.

Lemma call_pending_inv key o p F m db :
  runtime_inv F m db -> rt_pending m !! key = Some p ->
  let '(res, db') := call_pending o p db in
  runtime_inv F m db' /\
  (res = Committed -> runtime_inv F (acknowledge key p m) db' /\ durable db' key (mp_next p)) /\
  (res = Conflicted -> db' = db /\ mp_expected p <> revision_of db key).
Proof.
  intros Hi Hp. unfold call_pending, call_commit.
  destruct (proj2 Hi key) as [[_ Hpend] _]. destruct (Hpend p Hp) as (Hkey & _ & _).
  destruct (CommitMonitorState _ _ _ _ _) as [db'|e] eqn:Ec.
  - destruct (commit_applied key p F m db db' Hi Hp Ec) as (H3 & H4 & H5). by destruct o.
  - assert (Hconf : e = MonitorConflict -> mp_expected p <> revision_of db key).
    { intros ->. unfold CommitMonitorState in Ec. rewrite Hkey in Ec.
      destruct (_ || _); [done|]. destruct (negb (events_valid _ _ _)); [done|]. cbv zeta in Ec.
      fold (revision_of db key) in Ec.
      destruct (revision_of db key =? mp_expected p) eqn:Er; cbn [negb] in Ec; [|bool_to_prop; lia].
      destruct (match db_states db !! key with Some r => _ | None => _ end); [done|].
      destruct (_ && _); [done|]. exfalso. revert Ec. generalize (db_events db).
      induction (zip (mp_events p) (mp_messages p)) as [|em l IH]; intros rows; cbn; [done|].
      case_bool_decide; [done|]. destruct (negb _); [done|]. apply IH. }
    destruct o, e; split_and!; try done; intros _; (split; [done|by apply Hconf]).
Qed.

(** The transition evaluated again on the store's state. *)
Lemma reevaluate_inv key p p' F m m' db :
  runtime_inv F m db -> rt_pending m !! key = Some p -> reevaluate key p m = Some (p', m') ->
  ~ holds db key (mst_data (mp_record p)) ->
  runtime_inv F (with_pending_of key (Some p') m') db /\
  rt_pending (with_pending_of key (Some p') m') !! key = Some p'.
Proof.
  intros Hi Hp Hre Hno. split; [|cbn; by rewrite lookup_partial_alter_eq].
  destruct (proj2 Hi key) as [Hs (d & obs & Hd & Hc & Ho & Hgo)].
  destruct (sy_pending _ _ _ Hs p Hp) as (Hkey & Hobs & _).
  destruct (Hgo p Hp) as [_ [Hholds|Hsub]]; [by destruct Hno|].
  revert Hre. unfold reevaluate. destruct (evaluateMonitor _ _ _ _ _) as [[next events] ids] eqn:Ee.
  destruct (encode next) as [data|] eqn:En; [|done]. intros [= <- <-].
  set (p' := mkPending _ _ _ _ _ _ _).
  destruct Hi as [Hn Hi]. split; [done|]. intros k. destruct (decide (k = key)) as [->|Hne].
  2: { eapply rule_frame; [..|exact (Hi k)]; try done. cbn. by rewrite lookup_partial_alter_ne. }
  assert (Hsome : rt_pending (with_pending_of key (Some p') (with_ids ids m)) !! key = Some p')
    by (cbn; by rewrite lookup_partial_alter_eq).
  split; [split; [apply Hs|]|exists d, obs; split_and!; [done..|]];
    intros q Hq; rewrite Hsome in Hq; injection Hq as <-; cbn.
  - split_and!; [done|done|by apply Hcodec].
  - split; [|by right]. cbn. intros Hrev. rewrite (current_state key m db d Hs Hrev Hd) in Ee.
    exists []. split; [|done]. by eapply chain_one.
Qed.

Lemma load_pending l : forall m,
  rt_pending (foldl (fun m kr => load_record m (fst kr) (snd kr)) m l) = rt_pending m.
Proof.
  induction l as [|kr l IH]; intros m; [done|]. simpl. rewrite IH. unfold load_record.
  destruct (decodeMonitorData _ _ _); [case_if|]; done.
Qed.

(** After a conflict, the store's row is read or the rule is found invalid. *)
Lemma conflict_row readable F m m1 db key p :
  runtime_inv F m db -> rt_pending m !! key = Some p -> mp_expected p <> revision_of db key ->
  reload readable db m = Some m1 -> invalid_of m1 key = false ->
  rt_pending m1 !! key = Some p /\
  match db_states db !! key with
  | Some r => record_of m1 key = r /\ durable db key (state_of m1 key)
  | None => True
  end.
Proof.
  intros Hi Hp Hrev El Hinv. destruct readable; [|discriminate El]. split.
  - unfold reload in El. injection El as <-. cbn. rewrite <- Hp. by rewrite load_pending.
  - destruct (db_states db !! key) as [r|] eqn:Er; [|done].
    destruct (reload_row m m1 db key r El Er Hinv) as [Hrec Hdec]. split; [done|].
    destruct (proj2 Hi key) as [_ (d & _ & Hd & _)]. unfold durable in *. rewrite Er in *.
    by destruct Hd as [Hge _].
Qed.

Lemma commit_inv key a F m db :
  runtime_inv F m db -> let '(_, m', db') := commit key a m db in runtime_inv F m' db'.
Proof.
  intros Hi. unfold commit. destruct (rt_pending m !! key) as [p|] eqn:Hp; [|done].
  case_if; [by apply forget_pending_inv|].
  pose proof (call_pending_inv key (at_first a) p F m db Hi Hp) as Hc.
  destruct (call_pending _ _ _) as [[] db1]; destruct Hc as (Hi1 & Hack & Hconf);
    [by apply Hack| |done].
  destruct (Hconf eq_refl) as [-> Hrev].
  destruct (reload (at_readable a) db m) as [m1|] eqn:El; [|done].
  pose proof (reload_inv _ _ _ _ _ Hi1 El) as Hi2.
  destruct (invalid_of m1 key) eqn:Ev; [done|].
  destruct (conflict_row _ _ _ _ _ _ _ Hi1 Hp Hrev El Ev) as [Hp1 Hrow].
  case_if; [by apply forget_pending_inv|].
  destruct (same_data (mst_data (record_of m1 key)) _) eqn:Esame; [by apply forget_pending_inv|].
  destruct (reevaluate key p m1) as [[p2 m2]|] eqn:Er; [|done].
  assert (Hno : ~ holds db key (mst_data (mp_record p))).
  { unfold holds. intros Hh. destruct (db_states db !! key) as [r|]; [|discriminate Hh].
    destruct Hrow as [Hrec _]. injection Hh as Hh. unfold same_data in Esame.
    apply bool_decide_eq_false in Esame. by rewrite Hrec in Esame. }
  destruct (reevaluate_inv key p p2 F m1 m2 db Hi2 Hp1 Er Hno) as [Hi3 Hp2].
  pose proof (call_pending_inv key (at_retry a) p2 F _ db Hi3 Hp2) as Hc2.
  destruct (call_pending _ p2 _) as [[] db2]; destruct Hc2 as (Hi4 & Hack2 & _); [|done|done].
  destruct (Hack2 eq_refl) as [[Hn Hk] _]. split; [done|].
  intros k. by eapply rule_frame; [..|exact (Hk k)].
Qed.

Lemma sublist_snoc {A} (x : A) l F : l `sublist_of` F -> l ++ [x] `sublist_of` F ++ [x].
Proof. intros Hs. by apply sublist_app. Qed.

(** The transition that an observation starts. *)
Lemma fresh_pending_inv key i F m db next events ids data msgs since at' :
  runtime_inv F m db -> ms_key (in_status i) = key ->
  evaluateMonitor (state_of m key) i cfg started (rt_ids m) = (next, events, ids) ->
  encode next = Some data ->
  runtime_inv (F ++ [(started, i)])
    (with_pending_of key (Some (mkPending i next (mkMonitorState key 0 at' data)
       (mst_revision (record_of m key)) events msgs since)) (with_ids ids m)) db.
Proof.
  intros Hi Hk Ee En. destruct (proj2 Hi key) as [Hs _].
  eapply put_pending_inv; cbn;
    [by apply with_ids_inv|by apply sublist_inserts_r|done|done|by apply Hcodec|].
  intros d obs Hd Ho _. split; cbn; [|right; by apply sublist_snoc].
  intros Hrev. rewrite (current_state key m db d Hs Hrev Hd) in Ee.
  exists []. split; [by eapply chain_one|by apply sublist_snoc].
Qed.

Lemma storeObservation_inv i a F m db :
  runtime_inv F m db ->
  let '(_, m', db') := storeObservation i a m db in runtime_inv (F ++ [(started, i)]) m' db'.
Proof.
  intros Hi. unfold storeObservation. set (key := ms_key (in_status i)).
  destruct (evaluateMonitor _ _ _ _ _) as [[next events] ids] eqn:Ee.
  pose proof (runtime_inv_mono F (F ++ [(started, i)]) _ db ltac:(by apply sublist_inserts_r)
    (with_ids_inv ids F m db Hi)) as Hi1.
  destruct (encode next) as [data|] eqn:En; [|done].
  repeat (case_if; [done|]).
  pose proof (fresh_pending_inv key i F m db next events ids data (message_of <$> events) (in_now i)
    (md_observed_at next) Hi eq_refl Ee En) as Hi2.
  pose proof (commit_inv key a _ _ db Hi2) as Hc.
  destruct (commit key a _ db) as [[ok m1] db1]. by destruct ok.
Qed.

(** The observation that [refresh_pending] evaluates is the given one, or a failure with
    the onset that the pending transition recorded. *)
Definition redated (i i' : monitorObservation) : Prop :=
  i' = i \/ in_condition i = "failed"%string /\ exists since,
    i' = mkObservation (in_now i) (in_status i) (in_condition i) since (in_geo_known i)
           (in_geo_scheduled i) (in_month_policy i) (in_closing i) (in_diagnostic i).

Lemma redated_key i i' : redated i i' -> ms_key (in_status i') = ms_key (in_status i).
Proof. by intros [->|(_ & since & ->)]. Qed.

Lemma refreshed_redated key i m : redated i (refreshed key i m).
Proof.
  unfold refreshed. destruct (rt_pending m !! key) as [p|]; [|by left]. case_if; [|by left].
  right. bool_to_prop. split; [by apply String.eqb_eq|]. by eexists.
Qed.

Lemma refreshed_again key i m p :
  rt_pending m !! key = Some p ->
  (lenZ (mp_events p) =? 0) && negb (in_closing (mp_observation p))
    && negb (needsMonthClose (mp_next p) (refreshed key i m))
    && negb (before (in_now (refreshed key i m)) (md_observed_at (mp_next p))) = true ->
  (let i := refreshed key i m in
   if (in_condition i =?s "failed") && negb (is_zero (md_condition_since (mp_next p)))
   then mkObservation (in_now i) (in_status i) (in_condition i) (md_condition_since (mp_next p))
          (in_geo_known i) (in_geo_scheduled i) (in_month_policy i) (in_closing i) (in_diagnostic i)
   else i) = refreshed key i m.
Proof.
  unfold refreshed. intros -> E. cbv zeta.
  destruct (_ && _ && _ && _ && (in_condition i =?s "failed") && _) eqn:E1.
  - by case_if.
  - rewrite E in E1. cbn [andb] in E1. by rewrite E1.
Qed.

Lemma refresh_pending_inv key i F m db :
  ms_key (in_status i) = key -> runtime_inv F m db ->
  runtime_inv (F ++ [(started, refreshed key i m)]) (refresh_pending key (refreshed key i m) m) db.
Proof.
  intros Hkey Hi.
  assert (Hmono : forall m', runtime_inv F m' db -> runtime_inv (F ++ [(started, refreshed key i m)]) m' db)
    by (intros m'; apply runtime_inv_mono; by apply sublist_inserts_r).
  pose proof (redated_key _ _ (refreshed_redated key i m)) as Hk1. rewrite Hkey in Hk1.
  unfold refresh_pending. destruct (rt_pending m !! key) as [p|] eqn:Hp; [|by apply Hmono].
  case_if; [|by apply Hmono].
  pose proof (refreshed_again key i m p Hp E) as Hagain. cbv zeta in Hagain. rewrite Hagain. clear Hagain.
  apply andb_true_iff in E as [[[E _]%andb_true_iff _]%andb_true_iff _].
  set (i1 := refreshed key i m) in *. clearbody i1. destruct (proj2 Hi key) as [Hs _].
  destruct (sy_pending _ _ _ Hs p Hp) as (Hkey' & _).
  destruct (evaluateMonitor _ _ _ _ _) as [[next events] ids] eqn:Ee.
  pose proof (with_ids_inv ids F m db Hi) as Hi1.
  destruct (encode next) as [data|] eqn:En; [|by apply Hmono]. case_if; [|by apply Hmono].
  eapply put_pending_inv; cbn;
    [exact Hi1|by apply sublist_inserts_r|done|done|by apply Hcodec|].
  intros d obs Hd Ho Hgo. destruct (Hgo p Hp) as [Hgo1 _].
  split; cbn; [|right; by apply sublist_snoc].
  intros Hrev. destruct (Hgo1 Hrev) as (obs2 & Hc & Hsub).
  assert (Hnil : mp_events p = []) by (destruct (mp_events p); [done|unfold lenZ in E; simpl in E; lia]).
  rewrite Hnil in Hc. exists (obs2 ++ [(started, mp_observation p)]). split.
  - change events with ([] ++ events). by eapply chain_snoc.
  - rewrite app_assoc. by apply sublist_snoc.
Qed.

(** A given observation of a pass, with the start of the process and what a closing
    observation reads. *)
Definition slot : Type := time * monitorObservation * month_reads.

(** The closing observation of a recorded month, made in this slot. *)
Definition closes (s : slot) (c : monitorObservation) : Prop :=
  exists previous, closingObservation (rd_summary s.2) (rd_coverage s.2) (rd_cancelled s.2)
    (in_now s.1.2) previous = Ok c.

(** The evaluations that the slots allow, in their order: of a pending transition
    refreshed with the observation, of the month it closes, and of the observation. *)
Inductive evaluated : list slot -> list (time * monitorObservation) -> Prop :=
| ev_nil : evaluated [] []
| ev_slot G F s i' cs :
    evaluated G F -> redated s.1.2 i' -> (cs = [] \/ exists c, cs = [(s.1.1, c)] /\ closes s c) ->
    evaluated (G ++ [s]) (F ++ [(s.1.1, i')] ++ cs ++ [(s.1.1, i')]).

Lemma observe_rule_inv i rd a1 a2 F m db :
  runtime_inv F m db ->
  let '(_, m', db') := observe_rule i rd a1 a2 m db in
  exists cs, (cs = [] \/ exists c, cs = [(started, c)] /\ closes (started, i, rd) c) /\
    runtime_inv (F ++ cs ++ [(started, i)]) m' db'.
Proof.
  intros Hi. unfold observe_rule.
  assert (Hmono : forall m' db' G, F `sublist_of` G -> runtime_inv F m' db' -> runtime_inv G m' db')
    by (intros; by eapply runtime_inv_mono).
  assert (Hnone : runtime_inv (F ++ [] ++ [(started, i)]) m db)
    by (apply Hmono; [by apply sublist_inserts_r|done]).
  case_if; [by exists []; split; [left|]|].
  pose proof (storeObservation_inv i a2 F m db Hi) as H2.
  case_if.
  2: { destruct (storeObservation i a2 m db) as [[view m1] db1]. exists []. by split; [left|]. }
  destruct (closingObservation _ _ _ _ _) as [c|] eqn:Ec; [|by exists []; split; [left|]].
  assert (Hcl : closes (started, i, rd) c) by (by eexists).
  pose proof (storeObservation_inv c a1 F m db Hi) as H3.
  destruct (storeObservation c a1 m db) as [[view m1] db1].
  case_if.
  - pose proof (storeObservation_inv i a2 _ m1 db1 H3) as H4.
    destruct (storeObservation i a2 m1 db1) as [[view2 m2] db2].
    exists [(started, c)]. split; [right; by exists c|]. by rewrite app_assoc.
  - exists [(started, c)]. split; [right; by exists c|]. rewrite app_assoc.
    eapply runtime_inv_mono; [|exact H3]. by apply sublist_inserts_r.
Qed.

Lemma apply_observation_inv i rd a0 a1 a2 G F m db :
  evaluated G F -> runtime_inv F m db ->
  let '(_, m', db') := apply_observation i rd a0 a1 a2 m db in
  exists F', evaluated (G ++ [(started, i, rd)]) F' /\ runtime_inv F' m' db'.
Proof.
  intros Hev Hi. unfold apply_observation.
  assert (Hskip : exists F', evaluated (G ++ [(started, i, rd)]) F' /\ runtime_inv F' m db).
  { eexists. split; [apply (ev_slot G F (started, i, rd) i []); [done|by left|by left]|].
    eapply runtime_inv_mono; [|exact Hi]. by apply sublist_inserts_r. }
  repeat (case_if; [done|]). clear Hskip.
  set (key := ms_key (in_status i)).
  pose proof (refresh_pending_inv key i F m db eq_refl Hi) as Hi1.
  pose proof (refreshed_redated key i m) as Hred.
  set (i1 := refreshed key i m) in *. clearbody i1.
  pose proof (commit_inv key a0 _ _ db Hi1) as H2.
  destruct (commit key a0 _ db) as [[ok m1] db1].
  pose proof (observe_rule_inv i1 rd a1 a2 _ m1 db1 H2) as H3.
  assert (Hearly : exists F', evaluated (G ++ [(started, i, rd)]) F' /\ runtime_inv F' m1 db1).
  { eexists. split; [apply (ev_slot G F (started, i, rd) i1 []); [done|done|by left]|].
    eapply runtime_inv_mono; [|exact H2]. apply sublist_app; [done|]. by repeat constructor. }
  assert (Hlate : let '(_, m', db') := observe_rule i1 rd a1 a2 m1 db1 in
    exists F', evaluated (G ++ [(started, i, rd)]) F' /\ runtime_inv F' m' db').
  { destruct (observe_rule i1 rd a1 a2 m1 db1) as [[view m2] db2]. destruct H3 as (cs & Hcs & H3).
    exists (F ++ [(started, i1)] ++ cs ++ [(started, i1)]). rewrite <- app_assoc in H3. split; [|done].
    apply (ev_slot G F (started, i, rd) i1 cs); [done|done|].
    destruct Hcs as [->|(c & -> & previous & Hc)]; [by left|right]. exists c. split; [done|].
    exists previous. cbn in *. by destruct Hred as [->|(_ & since & ->)]. }
  destruct ok; [exact Hlate|]. destruct (rt_pending m1 !! key); [exact Hearly|exact Hlate].
Qed.

(** The slots of a pass. *)
Definition slots (at' : time) (l : list (monitorObservation * month_reads * attempt * attempt * attempt))
    : list slot := (fun x => (at', x.1.1.1.1, x.1.1.1.2)) <$> l.

Lemma apply_all_inv l failed : forall G F m db,
  evaluated G F -> runtime_inv F m db ->
  let '(_, m', db') := apply_all l failed m db in
  exists F', evaluated (G ++ slots started l) F' /\ runtime_inv F' m' db'.
Proof.
  induction l as [|[[[[i rd] a0] a1] a2] l IH]; intros G F m db Hev Hi; cbn [apply_all].
  { exists F. by rewrite app_nil_r. }
  pose proof (apply_observation_inv i rd a0 a1 a2 G F m db Hev Hi) as H2.
  destruct (apply_observation _ _ _ _ _ _ _) as [[view m1] db1]. destruct H2 as (F1 & He1 & Hi1).
  specialize (IH _ F1 m1 db1 He1 Hi1). destruct (apply_all l failed m1 db1) as [[views m2] db2].
  destruct IH as (F2 & He2 & Hi2). exists F2. by rewrite <- app_assoc in He2.
Qed.

Lemma pass_inv readable l G F m db :
  evaluated G F -> runtime_inv F m db ->
  let '(m', db') := monitor_pass readable l m db in
  exists F', evaluated (G ++ slots started l) F' /\ runtime_inv F' m' db'.
Proof.
  intros Hev Hi. unfold monitor_pass. destruct (reload readable db m) as [m1|] eqn:El.
  - pose proof (apply_all_inv l false G F m1 db Hev (reload_inv _ _ _ _ _ Hi El)) as H3.
    by destruct (apply_all _ _ _ _) as [[views m2] db2].
  - pose proof (apply_all_inv l true G F m db Hev Hi) as H3.
    by destruct (apply_all _ _ _ _) as [[views m2] db2].
Qed.

(** ** What storing an observation leaves *)

(** The state is an evaluation of the observation. *)
Definition evaluates (i : monitorObservation) (d : monitorData) : Prop :=
  exists d0 ids es ids', evaluateMonitor d0 i cfg started ids = (d, es, ids').

(** The daemon lets go of a transition only when the store holds it, or a state that was
    observed later. *)
Definition settled (key : string) (i : monitorObservation) (m : monitorRuntime) (db : DB) : Prop :=
  match rt_pending m !! key with
  | Some p => mp_observation p = i
  | None => exists d, durable db key d /\ (evaluates i d \/ in_now i < md_observed_at d)
  end.

Lemma commit_settles key a p F m db :
  runtime_inv F m db -> rt_pending m !! key = Some p -> mp_expected p = mst_revision (record_of m key) ->
  evaluates (mp_observation p) (mp_next p) ->
  let '(_, m', db') := commit key a m db in settled key (mp_observation p) m' db'.
Proof.
  intros Hi Hp Hex Hev. unfold commit. rewrite Hp, Hex, Z.ltb_irrefl. cbn [andb].
  assert (Hkeep : forall m' db', rt_pending m' !! key = Some p -> settled key (mp_observation p) m' db')
    by (intros m' db' Hp'; unfold settled; by rewrite Hp').
  pose proof (call_pending_inv key (at_first a) p F m db Hi Hp) as Hc.
  destruct (call_pending _ _ _) as [[] db1]; destruct Hc as (Hi1 & Hack & Hconf); [| |by apply Hkeep].
  { destruct (Hack eq_refl) as [_ Hd]. unfold settled. cbn. rewrite lookup_delete_eq.
    exists (mp_next p). split; [done|by left]. }
  destruct (Hconf eq_refl) as [-> Hrev].
  destruct (reload (at_readable a) db m) as [m1|] eqn:El; [|by apply Hkeep].
  pose proof (reload_inv _ _ _ _ _ Hi1 El) as Hi2.
  assert (Hp0 : rt_pending m1 !! key = Some p).
  { unfold reload in El. destruct (negb _); [done|]. injection El as <-. cbn. by rewrite load_pending. }
  destruct (invalid_of m1 key) eqn:Ev; [by apply Hkeep|].
  destruct (conflict_row _ _ _ _ _ _ _ Hi1 Hp Hrev El Ev) as [_ Hrow].
  assert (Hd : durable db key (state_of m1 key)).
  { destruct (db_states db !! key) as [r|] eqn:Er; [by destruct Hrow|]. exfalso. apply Hrev.
    destruct (proj2 Hi1 key) as [[Hr _] _]. unfold revision_of in *. rewrite Er, Hex in *. cbn in *.
    unfold record_of. destruct (rt_records m !! key) as [r|]; [lia|done]. }
  unfold settled. case_if.
  { cbn. rewrite lookup_partial_alter_eq. eexists. split; [exact Hd|right]. unfold after in E. lia. }
  destruct (same_data (mst_data (record_of m1 key)) _) eqn:Esame.
  { cbn. rewrite lookup_partial_alter_eq. eexists. split; [exact Hd|left].
    unfold same_data in Esame. apply bool_decide_eq_true in Esame.
    destruct (db_states db !! key) as [r|] eqn:Er.
    - destruct Hrow as [Hrec _]. rewrite Hrec in Esame. unfold durable in Hd. rewrite Er in Hd.
      destruct (proj2 Hi1 key) as [Hs _]. destruct (sy_pending _ _ _ Hs p Hp) as (_ & _ & Hdec).
      rewrite <- Esame in Hdec. destruct Hd as [_ Hd]. rewrite Hdec in Hd. by injection Hd as <-.
    - exfalso. apply Hrev.
      destruct (proj2 Hi1 key) as [[Hr _] _]. unfold revision_of in *. rewrite Er, Hex in *. cbn in *.
      unfold record_of. destruct (rt_records m !! key) as [r|]; [lia|done]. }
  destruct (reevaluate key p m1) as [[p2 m2]|] eqn:Er; [|fold (settled key (mp_observation p) m1 db);
    by apply Hkeep].
  assert (Hno : ~ holds db key (mst_data (mp_record p))).
  { unfold holds. intros Hh. destruct (db_states db !! key) as [r|]; [|discriminate Hh].
    destruct Hrow as [Hrec _]. injection Hh as Hh. unfold same_data in Esame.
    apply bool_decide_eq_false in Esame. by rewrite Hrec in Esame. }
  destruct (reevaluate_inv key p p2 F m1 m2 db Hi2 Hp0 Er Hno) as [Hi3 Hp2].
  assert (Hev2 : mp_observation p2 = mp_observation p /\ evaluates (mp_observation p) (mp_next p2)).
  { unfold reevaluate in Er. destruct (evaluateMonitor _ _ _ _ _) as [[next events] ids] eqn:Ee.
    destruct (encode next); [|done]. injection Er as <- <-. split; [done|]. by do 4 eexists. }
  pose proof (call_pending_inv key (at_retry a) p2 F _ db Hi3 Hp2) as Hc2.
  destruct Hev2 as [Hobs Hev2].
  destruct (call_pending _ p2 _) as [[] db2]; destruct Hc2 as (Hi4 & Hack2 & _);
    [|by rewrite Hp2|by rewrite Hp2].
  destruct (Hack2 eq_refl) as [_ Hd2]. cbn. rewrite lookup_delete_eq.
  exists (mp_next p2). split; [done|by left].
Qed.

(** An observation whose next state is valid and new is stored, or waits. *)
Lemma storeObservation_settles i a F m db :
  runtime_inv F m db ->
  let key := ms_key (in_status i) in
  let '(next, _, _) := evaluateMonitor (state_of m key) i cfg started (rt_ids m) in
  forall data, encode next = Some data -> lenZ data <= 16384 ->
    validateMonitorStatus (md_status next) = true -> validateMonthData next key = true ->
    ms_enabled (in_status i) = true -> mst_data (record_of m key) <> data ->
    let '(_, m', db') := storeObservation i a m db in settled key i m' db'.
Proof.
  intros Hi key. destruct (evaluateMonitor _ _ _ _ _) as [[next events] ids] eqn:Ee.
  intros data En Hlen Hst Hmo Hena Hnew. unfold storeObservation. fold key.
  rewrite Ee, En, Hst, Hmo, Hena. cbn [negb andb orb].
  replace (16384 <? lenZ data) with false by lia. cbn [orb].
  assert (Hsame : same_data (mst_data (record_of (with_ids ids m) key)) data = false)
    by (unfold same_data; by apply bool_decide_eq_false).
  rewrite Hsame.
  pose proof (fresh_pending_inv key i F m db next events ids data (message_of <$> events) (in_now i)
    (md_observed_at next) Hi eq_refl Ee En) as Hi2.
  set (p := mkPending _ _ _ _ _ _ _) in *.
  assert (Hp : rt_pending (with_pending_of key (Some p) (with_ids ids m)) !! key = Some p)
    by (cbn; by rewrite lookup_partial_alter_eq).
  pose proof (commit_settles key a p _ _ db Hi2 Hp eq_refl ltac:(by do 4 eexists)) as Hc.
  destruct (commit key a _ db) as [[ok m1] db1]. by destruct ok.
Qed.
End Runtime.

(** ** Histories of processes *)

Section History.
Context {Message : Type} `{GoRuntime, GoText, GoURL}.
Context (cfg : AlertsConfig) (message_of : Event -> option Message).
Context (encode : monitorData -> option (list Z)) (decode_json : list Z -> option monitorData).
Context (event_fits : Event -> bool).
Context (Hcodec : forall d data, encode d = Some data -> decode_json data = Some d).

(** What happens to a daemon: passes, and restarts, each with a start of its own. *)
Inductive monitor_event :=
| MPass (readable : bool) (l : list (monitorObservation * month_reads * attempt * attempt * attempt))
| MRestart (at' : time).

Fixpoint monitor_history (l : list monitor_event) (started : time) (m : monitorRuntime)
    (db : @DB Message) : time * monitorRuntime * DB :=
  match l with
  | [] => (started, m, db)
  | MPass readable os :: l =>
      let '(m, db) := monitor_pass cfg started message_of encode decode_json event_fits readable os m db in
      monitor_history l started m db
  | MRestart at' :: l => monitor_history l at' (newMonitorRuntime (rt_ids m)) db
  end.

(** The observations that a history was given, in their order. *)
Fixpoint given (l : list monitor_event) (started : time) : list slot :=
  match l with
  | [] => []
  | MPass _ os :: l => slots started os ++ given l started
  | MRestart at' :: l => given l at'
  end.

(** What a restart leaves: the store. *)
Lemma new_runtime_inv ids started at' F m db :
  runtime_inv cfg started decode_json F m db ->
  runtime_inv (Message := Message) cfg at' decode_json F (newMonitorRuntime ids) db.
Proof.
  intros [Hn Hi]. split; [done|]. intros k. destruct (Hi k) as [_ (d & obs & Hd & Hc & Ho & _)].
  assert (Hnone : forall p, rt_pending (newMonitorRuntime (Message := Message) ids) !! k = Some p -> False)
    by (intros p; cbn; by rewrite lookup_empty).
  split; [split; cbn; [by rewrite !lookup_empty|]|exists d, obs; split_and!; [done..|]];
    intros p Hp; by destruct (Hnone p).
Qed.

Lemma monitor_history_inv l : forall started G F m db,
  evaluated G F -> runtime_inv cfg started decode_json F m db ->
  let '(at', m', db') := monitor_history l started m db in
  exists F', evaluated (G ++ given l started) F' /\ runtime_inv cfg at' decode_json F' m' db'.
Proof.
  induction l as [|[readable os|at'] l IH]; intros started G F m db Hev Hi; cbn [monitor_history given].
  - exists F. by rewrite app_nil_r.
  - pose proof (pass_inv cfg started message_of encode decode_json event_fits Hcodec readable os G F m db
      Hev Hi) as H2.
    destruct (monitor_pass _ _ _ _ _ _ _ _ _ _) as [m1 db1]. destruct H2 as (F1 & He1 & Hi1).
    specialize (IH started _ F1 m1 db1 He1 Hi1). by rewrite <- app_assoc in IH.
  - apply (IH at' G F); [done|]. by eapply new_runtime_inv.
Qed.

Lemma empty_inv started ids :
  runtime_inv (Message := Message) cfg started decode_json [] (newMonitorRuntime ids) (mkDB ∅ []).
Proof.
  split; [apply NoDup_nil_2|]. intros k. split.
  - split; cbn; [by rewrite !lookup_empty|]. intros p. by rewrite lookup_empty.
  - exists no_data, []. split_and!; [done|constructor|done|]. intros p. cbn. by rewrite lookup_empty.
Qed.
End History.

(** ** Properties *)

Section Properties.
Context {Message : Type} `{GoRuntime, GoText, GoURL}.
Context (cfg : AlertsConfig) (started : time) (message_of : Event -> option Message).
Context (encode : monitorData -> option (list Z)) (decode_json : list Z -> option monitorData).
Context (event_fits : Event -> bool).

(** C18. Exactly once: whatever passes, restarts, unreadable stores, failed or
    conflicting commits and commits whose outcome was lost happen, the state that the
    store holds of a rule is the result of evaluating observations one after the other
    from the initial state, and its events are those of these evaluations, none lost,
    repeated or reordered; no identity is stored twice.  The observations are those that
    the passes were given, in their order and each under the start of its process: of one
    given observation at most the pending transition refreshed with it, the recorded month
    that it closes and the observation itself.  And from every state reached, an
    observation with a valid new state is stored, waits as the pending transition, or is
    superseded by a state observed later. *)
Theorem monitor_durable_once l ids :
  (forall d data, encode d = Some data -> decode_json data = Some d) ->
  let '(at', m, db) := monitor_history cfg message_of encode decode_json event_fits l started
    (newMonitorRuntime ids) (mkDB ∅ []) in
  NoDup (event_ids (db_events db)) /\
  (exists F, evaluated (given l started) F /\
    forall key, exists d obs,
      durable decode_json db key d /\ chain cfg key no_data obs d (rule_events db key) /\
      obs `sublist_of` F) /\
  forall i a,
    let key := ms_key (in_status i) in
    let '(next, _, _) := evaluateMonitor (state_of m key) i cfg at' (rt_ids m) in
    forall data, encode next = Some data -> lenZ data <= 16384 ->
      validateMonitorStatus (md_status next) = true -> validateMonthData next key = true ->
      ms_enabled (in_status i) = true -> mst_data (record_of m key) <> data ->
      let '(_, m', db') :=
        storeObservation cfg at' message_of encode decode_json event_fits i a m db in
      settled cfg at' decode_json key i m' db'.
Proof.
  intros Hcodec.
  pose proof (monitor_history_inv cfg message_of encode decode_json event_fits Hcodec l started [] [] _ _
    ev_nil (empty_inv cfg decode_json started ids)) as Hi.
  destruct (monitor_history _ _ _ _ _ _ _ _ _) as [[at' m] db]. destruct Hi as (F & Hev & Hi).
  pose proof Hi as [Hn Hk]. split_and!; [done| |].
  - exists F. split; [done|]. intros key. destruct (Hk key) as [_ (d & obs & Hd & Hc & Ho & _)].
    by exists d, obs.
  - intros i a. by apply (storeObservation_settles cfg at' message_of encode decode_json event_fits Hcodec i a F).
Qed.

(** C19. A failed component whose reason is not in the fixed list is not reported:
    nothing is stored, no transition is left pending and no event is raised; the
    rule only shows an invalid state. *)
Theorem unlisted_reason_unreported key i a m db :
  has_prefix "budget_" key = false -> observes key i -> failed i = true ->
  one_of monitor_reasons (ms_reason (in_status i)) = false ->
  monitorRollback (state_of m key) i = false ->
  let '(view, m', db') := storeObservation cfg started message_of encode decode_json event_fits i a m db in
  view = view_as "unknown" "state_invalid" false (in_status i) /\
  db' = db /\ rt_pending m' = rt_pending m /\ rt_states m' = rt_states m.
Proof.
  intros Hk Hobs Hf Hreason Hroll. unfold storeObservation.
  pose proof (unlisted_reason_invalid cfg started key (state_of m key) i (rt_ids m) Hk Hobs Hroll Hf
    Hreason) as Hv.
  pose proof Hobs as [-> _].
  destruct (evaluateMonitor _ _ _ _ _) as [[next events] ids].
  destruct (encode next); [|done]. by rewrite Hv, orb_true_r.
Qed.
End Properties.

Definition example_status (reason : string) : MonitorRuleStatus :=
  new_status "health_ssh_journal" true true "healthy" reason.

Definition example_auth_failure : monitorObservation :=
  mkObservation (example_minute 5) (example_status "auth_state_capacity") "failed" time_zero false false
    None false no_diagnostic.

Lemma unlisted_reason_unreported_witness :
  let '(view, m', db') := @storeObservation unit example_runtime example_text example_url example_alerts
    unix_epoch (fun _ => None) (fun _ => Some [0]) (fun _ => None) (fun _ => true)
    example_auth_failure (mkAttempt Reported true Reported) (newMonitorRuntime 0) (mkDB ∅ []) in
  view = view_as "unknown" "state_invalid" false (example_status "auth_state_capacity") /\
  db' = mkDB ∅ [] /\ rt_pending m' = ∅ /\ rt_states m' = ∅.
Proof.
  apply (@unlisted_reason_unreported unit example_runtime example_text example_url example_alerts
    unix_epoch (fun _ => None) (fun _ => Some [0]) (fun _ => None) (fun _ => true) "health_ssh_journal").
  - vm_compute. reflexivity.
  - repeat constructor.
  - reflexivity.
  - vm_compute. reflexivity.
  - vm_compute. reflexivity.
Defined.

(** A codec for the states of a worked history: their numbers. *)
Definition example_states : list monitorData :=
  let evaluate d i ids := fst (@evaluateMonitor example_runtime example_text d i example_alerts unix_epoch ids) in
  let s1 := fst (evaluate no_data (example_failed 5) 0%nat) in
  let s2 := fst (evaluate s1 (example_failed 7) 0%nat) in
  let s3 := fst (evaluate s2 (example_failed 8) 2%nat) in
  [s1; s2; s3].
Definition example_encode (d : monitorData) : option (list Z) :=
  match list_find (fun s => s = d) example_states with
  | Some (n, _) => Some [Z.of_nat n]
  | None => None
  end.
Definition example_decode (data : list Z) : option monitorData :=
  match data with
  | [n] => example_states !! Z.to_nat n
  | _ => None
  end.

Lemma example_codec d data : example_encode d = Some data -> example_decode data = Some d.
Proof.
  unfold example_encode, example_decode. generalize example_states as states. intros states.
  destruct (list_find _ states) as [[n s]|] eqn:E; [|intros He; discriminate He].
  apply list_find_Some in E as (Hn & -> & _). intros [= <-]. by rewrite Nat2Z.id.
Qed.

Definition example_pass (n : Z) (o : delivery) : monitor_event :=
  MPass true [(example_failed n, mkReads (fun _ _ => None) (fun _ _ => ""%string) false,
               mkAttempt o true o, mkAttempt o true o, mkAttempt o true o)].

(** The commit of the alert is applied but reported as an error; the next pass finds
    it in the store and goes on. *)
Definition example_passes : list monitor_event :=
  [example_pass 5 Reported; example_pass 7 Unreported; example_pass 8 Reported; MRestart (example_minute 9)].

Lemma monitor_durable_once_witness :
  let '(_, _, db) := @monitor_history unit example_runtime example_text example_url example_alerts
    (fun _ => None) example_encode example_decode (fun _ => true) example_passes unix_epoch
    (newMonitorRuntime 0) (mkDB ∅ []) in
  NoDup (event_ids (db_events db)) /\
  exists F, @evaluated example_url (given example_passes unix_epoch) F /\
  forall key, exists d obs, durable example_decode db key d /\
    @chain example_runtime example_text example_alerts key no_data obs d (rule_events db key) /\
    obs `sublist_of` F.
Proof.
  pose proof (@monitor_durable_once unit example_runtime example_text example_url example_alerts
    unix_epoch (fun _ => None) example_encode example_decode (fun _ => true) example_passes 0
    example_codec) as Hm.
  destruct (monitor_history _ _ _ _ _ _ _ _ _) as [[at' m] db]. by destruct Hm as (H1 & H2 & _).
Defined.

(** The history is not empty: one alert is stored, at revision 3. *)
Example example_passes_stored :
  let '(_, _, db) := @monitor_history unit example_runtime example_text example_url example_alerts
    (fun _ => None) example_encode example_decode (fun _ => true) example_passes unix_epoch
    (newMonitorRuntime 0) (mkDB ∅ []) in
  (ev_phase <$> rule_events db "health_sensor", revision_of db "health_sensor") = (["start"%string], 3).
Proof. vm_compute. reflexivity. Qed.
