(* ===== verification/Sql.v ===== *)
(** * What the store uses of its database

    A table is a finite map or a list of rows.  A transaction is a function from
    the tables to the tables or an error, and an error leaves them as they were.
    Integer columns hold 64-bit integers; a sum outside their range is stored as a
    floating-point number, whose value is not modelled. *)

From S2P Require Export Protocol.

(** ** Integer columns *)

Inductive column := CInt (z : Z) | CReal.

#[global] Instance column_eq_dec : EqDecision column.
Proof. solve_decision. Defined.

(** [c + z] as stored. *)
Definition sql_add (c : column) (z : Z) : column :=
  match c with
  | CInt a => if (i64_min <=? a + z) && (a + z <=? i64_max) then CInt (a + z) else CReal
  | CReal => CReal
  end.

(** What is in an integer column; [exact] says that it is an integer. *)
Definition int_of (c : column) : Z := match c with CInt z => z | CReal => 0 end.
Definition exact (c : column) : Prop := exists z, c = CInt z /\ 0 <= z <= i64_max.

Lemma exact_add c z :
  exact c -> 0 <= z -> int_of c + z <= i64_max ->
  sql_add c z = CInt (int_of c + z) /\ exact (sql_add c z).
Proof.
  intros (a & -> & Ha) Hz Hle. cbn [sql_add int_of] in *.
  destruct ((i64_min <=? a + z) && (a + z <=? i64_max)) eqn:E.
  - split; [done|]. exists (a + z). split; [done|zlia].
  - apply andb_false_iff in E as [E|E]; bool_to_prop; zlia.
Qed.

(** A [uint64] argument with its high bit set is refused by [database/sql]. *)
Definition sql_uint (z : Z) : bool := z <=? i64_max.

(** ** Instants in tables *)

(** [t.UTC().Truncate(time.Hour).Unix()] and the millisecond reading of midnight. *)
Definition hour_unix (t : time) : Z := unix_sec (t - t mod hour).
Definition day_unix_milli (t : time) : Z := unix_milli (t - t mod (24 * hour)).

(** ** The order in which a Go map is iterated *)

Record map_order := mkOrder {
  iterate : forall A : Type, list A -> list A;
  iterate_perm : forall A (l : list A), iterate A l ≡ₚ l }.
Arguments iterate _ {A} _.
Arguments iterate_perm _ {A} _.

Definition in_order : map_order := mkOrder (fun _ l => l) (fun _ _ => reflexivity _).
Definition reversed : map_order := mkOrder (fun _ l => rev l) (fun _ l => symmetry (Permutation_rev l)).

(** Entries of a map in the order of an iteration. *)
Definition entries {K V} `{Countable K} (o : map_order) (m : gmap K V) : list (K * V) :=
  iterate o (map_to_list m).

Lemma entries_perm {K V} `{Countable K} o (m : gmap K V) : entries o m ≡ₚ map_to_list m.
Proof. apply iterate_perm. Qed.

Lemma entries_NoDup {K V} `{Countable K} o (m : gmap K V) : NoDup (entries o m).*1.
Proof. rewrite (entries_perm o m). apply NoDup_fst_map_to_list. Qed.

Lemma elem_of_entries {K V} `{Countable K} o (m : gmap K V) k v :
  (k, v) ∈ entries o m <-> m !! k = Some v.
Proof. rewrite (entries_perm o m). apply elem_of_map_to_list. Qed.

Lemma sum_entries {K V} `{Countable K} o (f : K -> V -> Z) (m : gmap K V) :
  sumZ (uncurry f <$> entries o m) = map_sum f m.
Proof. unfold map_sum. by rewrite (entries_perm o m). Qed.

(** ** Loops that may fail *)

Section rfold.
Context {E A B : Type} (f : A -> B -> result E A).

Fixpoint rfold (a : A) (l : list B) : result E A :=
  match l with
  | [] => Ok a
  | b :: l => let? a := f a b in rfold a l
  end.

(** An invariant of the loop over the entries still to come. *)
Lemma rfold_inv (P : A -> list B -> Prop) l : forall a a',
  (forall a b l a', P a (b :: l) -> f a b = Ok a' -> P a' l) ->
  P a l -> rfold a l = Ok a' -> P a' [].
Proof.
  induction l as [|b l IH]; intros a a' Hs Hp; simpl.
  - intros H. by injection H as <-.
  - destruct (f a b) as [a1|] eqn:Ef; simpl; [|discriminate]. eauto.
Qed.

Lemma rfold_total (P : A -> list B -> Prop) l : forall a,
  (forall a b l, P a (b :: l) -> exists a', f a b = Ok a' /\ P a' l) ->
  P a l -> exists a', rfold a l = Ok a' /\ P a' [].
Proof.
  induction l as [|b l IH]; intros a Hs Hp; simpl; [by eauto|].
  destruct (Hs _ _ _ Hp) as (a1 & -> & Hp'). simpl. eauto.
Qed.
End rfold.
