(* ===== verification/Retention.v ===== *)
(** * The ledger of removed rows

    [recordRetention] and [pruneRows] of [internal/store/retention.go]: every
    removal is added to the entry of its dataset, reason and day and to a total that
    outlives the ledger, which keeps the last 1024 entries. *)

From S2P Require Export Sql Alert.

Definition retentionDatasets : list string :=
  ["events"; "traffic_hourly"; "auth_hourly"; "interface_hourly"; "interface_detail_hourly";
   "collector_health_hourly"; "report_snapshots"; "coverage_intervals"; "coverage_gaps";
   "notification_outbox"; "notification_silences"].

Definition ValidRetentionDataset : string -> bool := one_of retentionDatasets.

Definition ValidRetentionReason : string -> bool :=
  one_of ["time_expiry"; "storage_pressure"; "cardinality_compaction"; "capacity_eviction";
          "silence_body_discard"].

Record entry := mkLedgerEntry {
  le_operations : Z;
  le_rows : Z;
  le_start : Z;
  le_end : Z;
  le_first : Z;
  le_last : Z }.

(** [retention_ledger] in the order of its ids, [retention_totals] and the
    [evicted_entries] of [retention_meta]. *)
Record Retention := mkRetention {
  rn_ledger : list (Z * (string * string * Z) * entry);
  rn_totals : gmap (string * string) entry;
  rn_evicted : Z }.

Definition no_retention : Retention := mkRetention [] ∅ 0.

Inductive retention_error := InvalidRetention | RetentionExhausted.

(** [update]: what [ON CONFLICT DO UPDATE] makes of the old entry and the new. *)
Definition add_saturated (a b : Z) : Z := if i64_max - b <? a then i64_max else a + b.
Definition merge_entry (old new : entry) : entry :=
  mkLedgerEntry (Z.min (le_operations old) (i64_max - 1) + 1)
    (add_saturated (le_rows old) (le_rows new))
    (Z.min (le_start old) (le_start new)) (Z.max (le_end old) (le_end new))
    (Z.min (le_first old) (le_first new)) (Z.max (le_last old) (le_last new)).

Definition has_entry (k : string * string * Z) (l : list (Z * (string * string * Z) * entry)) : bool :=
  existsb (fun r => bool_decide (r.1.2 = k)) l.

Definition ledger_ids (l : list (Z * (string * string * Z) * entry)) : list Z := fst ∘ fst <$> l.

(** The ledger's row of the day, inserted with the next id or updated. *)
Definition ledger_upsert (k : string * string * Z) (e : entry)
    (l : list (Z * (string * string * Z) * entry))
    : result retention_error (list (Z * (string * string * Z) * entry)) :=
  if negb (has_entry k l) then
    let last := foldr Z.max 0 (ledger_ids l) in
    if last =? i64_max then Err RetentionExhausted else Ok (l ++ [(last + 1, k, e)])
  else Ok ((fun r => if bool_decide (r.1.2 = k) then (r.1, merge_entry r.2 e) else r) <$> l).

Definition total_upsert (k : string * string) (e : entry) (t : gmap (string * string) entry)
    : gmap (string * string) entry :=
  match t !! k with
  | None => <[k := e]> t
  | Some old => <[k := merge_entry old e]> t
  end.

Definition recordRetention (dataset reason : string) (count start stop : Z) (now : time)
    (r : Retention) : result retention_error Retention :=
  if count =? 0 then Ok r
  else if negb (ValidRetentionDataset dataset) || negb (ValidRetentionReason reason)
          || (count <? 0) || (stop <? start) || is_zero now
  then Err InvalidRetention
  else
    let e := mkLedgerEntry 1 count start stop (unix_milli now) (unix_milli now) in
    let? ledger := ledger_upsert (dataset, reason, day_unix_milli now) e (rn_ledger r) in
    let totals := total_upsert (dataset, reason) e (rn_totals r) in
    let evicted := lenZ ledger - 1024 in
    if 0 <? evicted
    then Ok (mkRetention (drop (Z.to_nat evicted) ledger) totals (add_saturated (rn_evicted r) evicted))
    else Ok (mkRetention ledger totals (rn_evicted r)).

(** The count and the extent of the deleted rows. *)
Definition extent (rows : list (Z * Z)) : Z * Z * Z :=
  foldl (fun '(count, start, stop) '(low, high) =>
           (count + 1, if (count =? 0) || (low <? start) then low else start,
            if (count =? 0) || (stop <? high) then high else stop)) (0, 0, 0) rows.

(** [pruneRows]: [rows] are the times of the rows that [DELETE ... RETURNING] gives. *)
Definition pruneRows (dataset reason : string) (rows : list (Z * Z)) (now : time) (r : Retention)
    : result retention_error (Z * Retention) :=
  if negb (ValidRetentionDataset dataset) then Err InvalidRetention
  else
    let '(count, start, stop) := extent rows in
    let? r := recordRetention dataset reason count start stop now r in Ok (count, r).

(** ** The ledger accounts for every removal *)

Record removal := mkRemoval {
  rm_dataset : string; rm_reason : string; rm_count : Z; rm_start : Z; rm_end : Z; rm_now : time }.

Definition record_removal (r : Retention) (m : removal) : result retention_error Retention :=
  recordRetention (rm_dataset m) (rm_reason m) (rm_count m) (rm_start m) (rm_end m) (rm_now m) r.

(** The removals of one dataset and reason that counted rows. *)
Definition counted (k : string * string) (m : removal) : Prop :=
  (rm_dataset m, rm_reason m) = k /\ rm_count m <> 0.
#[global] Instance counted_dec k m : Decision (counted k m).
Proof. unfold counted. apply _. Defined.

Definition removals_of (k : string * string) (h : list removal) : list removal := filter (counted k) h.

(** The total that the table keeps for a history of removals, oldest first. *)
Definition total_of (l : list removal) (t : option entry) : Prop :=
  match t with
  | None => l = []
  | Some e =>
      l <> []
      /\ le_operations e = Z.min i64_max (lenZ l)
      /\ le_rows e = Z.min i64_max (sumZ (rm_count <$> l))
      /\ Forall (fun m => le_start e <= rm_start m /\ rm_end m <= le_end e) l
  end.

Definition ledger_ok (r : Retention) : Prop :=
  0 <= rn_evicted r
  /\ ledger_ids (rn_ledger r) = seqZ (rn_evicted r + 1) (lenZ (rn_ledger r))
  /\ lenZ (rn_ledger r) <= 1024
  /\ (rn_evicted r = 0 \/ lenZ (rn_ledger r) = 1024)
  /\ rn_evicted r + lenZ (rn_ledger r) <= i64_max.

Definition retention_inv (h : list removal) (r : Retention) : Prop :=
  ledger_ok r /\ forall k, total_of (removals_of k h) (rn_totals r !! k).

Lemma foldr_max_seqZ a n : 0 <= a -> 0 <= n -> foldr Z.max 0 (seqZ (a + 1) n) = if 0 <? n then a + n else 0.
Proof.
  intros Ha Hn. revert a Ha. pattern n. apply natlike_ind; [done| |done].
  clear n Hn. intros n Hn IH a Ha. rewrite seqZ_cons by lia. cbn [foldr].
  replace (Z.succ (a + 1)) with (a + 1 + 1) by lia. replace (Z.pred (Z.succ n)) with n by lia.
  rewrite IH by lia. rewrite (proj2 (Z.ltb_lt 0 (Z.succ n))) by lia.
  destruct (0 <? n) eqn:E; bool_to_prop; lia.
Qed.

Lemma drop_seqZ n a m : 0 <= n <= m -> drop (Z.to_nat n) (seqZ a m) = seqZ (a + n) (m - n).
Proof.
  intros Hn. unfold seqZ. rewrite <- fmap_drop, drop_seq.
  replace (0 + Z.to_nat n)%nat with (Z.to_nat n + 0)%nat by lia.
  rewrite <- fmap_add_seq, <- list_fmap_compose.
  replace (Z.to_nat m - Z.to_nat n)%nat with (Z.to_nat (m - n)) by lia.
  apply list_fmap_ext. intros ? i _. simpl. lia.
Qed.

Lemma seqZ_snoc a n : 0 <= n -> seqZ a n ++ [a + n] = seqZ a (n + 1).
Proof. intros Hn. rewrite (seqZ_app a n 1) by lia. done. Qed.

Lemma ledger_upsert_spec k e r l :
  ledger_ok r -> ledger_upsert k e (rn_ledger r) = Ok l ->
  ledger_ids l = seqZ (rn_evicted r + 1) (lenZ l)
  /\ lenZ (rn_ledger r) <= lenZ l <= lenZ (rn_ledger r) + 1 /\ 0 < lenZ l
  /\ rn_evicted r + lenZ l <= i64_max.
Proof.
  intros (He & Hids & Hlen & Hfull & Hmax). unfold ledger_upsert.
  pose proof (lenZ_nonneg (rn_ledger r)).
  destruct (negb (has_entry k (rn_ledger r))) eqn:Eh.
  - rewrite Hids, foldr_max_seqZ by lia.
    assert (Hlast : (if 0 <? lenZ (rn_ledger r) then rn_evicted r + lenZ (rn_ledger r) else 0)
      = rn_evicted r + lenZ (rn_ledger r)) by (case_if; bool_to_prop; lia).
    rewrite Hlast. destruct (_ =? i64_max) eqn:E; [discriminate|]. intros Hl. injection Hl as <-.
    bool_to_prop. rewrite lenZ_app. unfold ledger_ids in *. rewrite fmap_app, Hids.
    change (lenZ [_]) with 1. split; [|lia].
    rewrite <- seqZ_snoc by lia. f_equal. simpl. f_equal. lia.
  - intros Hl. injection Hl as <-. unfold lenZ, ledger_ids in *. rewrite length_fmap.
    split; [|split; [lia|split; [|lia]]].
    + rewrite <- list_fmap_compose. erewrite list_fmap_ext; [exact Hids|].
      intros ? [[? ?] ?] _. simpl. by destruct (bool_decide _).
    + destruct (rn_ledger r); [discriminate|simpl; lia].
Qed.

Lemma total_upsert_spec k k' l c start stop at' t :
  (forall k, total_of (l k) (t !! k)) -> 0 < c <= i64_max ->
  forall m, rm_count m = c -> rm_start m = start -> rm_end m = stop ->
  total_of (if decide (k' = k) then l k' ++ [m] else l k')
    (total_upsert k (mkLedgerEntry 1 c start stop at' at') t !! k').
Proof.
  intros Ht Hc m <- <- <-. unfold total_upsert.
  destruct (decide (k' = k)) as [->|Hk].
  2:{ destruct (t !! k); rewrite lookup_insert_ne by congruence; apply Ht. }
  pose proof (Ht k) as Hk. destruct (t !! k) as [old|]; rewrite lookup_insert_eq; simpl.
  - destruct Hk as (Hne & Hops & Hrows & Hext). rewrite lenZ_app, fmap_app, sumZ_app.
    change (lenZ [m]) with 1. change (sumZ (rm_count <$> [m])) with (rm_count m + 0).
    split; [by destruct (l k)|]. split; [zlia|]. split.
    { unfold add_saturated. case_if; bool_to_prop; zlia. }
    apply Forall_app. split; [|repeat constructor; lia].
    eapply Forall_impl; [exact Hext|]. simpl. lia.
  - rewrite Hk. change ([] ++ [m]) with [m]. change (sumZ (rm_count <$> [m])) with (rm_count m + 0).
    change (lenZ [m]) with 1. split; [done|]. split; [zlia|]. split; [zlia|]. repeat constructor; lia.
Qed.

Lemma recordRetention_kept ds rs c a b now r r' :
  ledger_ok r -> recordRetention ds rs c a b now r = Ok r' -> ledger_ok r'.
Proof.
  intros Hl. unfold recordRetention. case_if; [by intros [= <-]|]. case_if; [discriminate|].
  destruct (ledger_upsert _ _ _) as [ledger|] eqn:El; [|discriminate]. simpl.
  destruct (ledger_upsert_spec _ _ _ _ Hl El) as (Hids & Hlen & Hpos & Hmax').
  destruct Hl as (He & _ & H1024 & Hfull & _).
  case_if; intros Hr; injection Hr as <-; bool_to_prop; unfold ledger_ok; simpl.
  - assert (Hd : lenZ (drop (Z.to_nat (lenZ ledger - 1024)) ledger) = 1024).
    { unfold lenZ in *. rewrite length_drop. lia. }
    unfold add_saturated. rewrite (proj2 (Z.ltb_ge _ _)) by lia. rewrite Hd.
    split; [lia|]. split; [|lia].
    unfold ledger_ids in *. rewrite fmap_drop, Hids, drop_seqZ by lia. f_equal; lia.
  - split; [lia|]. split; [done|]. lia.
Qed.

(** It succeeds for every removal of a known dataset and reason while ids last. *)
Lemma recordRetention_total ds rs c a b now r :
  ledger_ok r -> rn_evicted r + lenZ (rn_ledger r) < i64_max ->
  ValidRetentionDataset ds = true -> ValidRetentionReason rs = true ->
  0 <= c -> a <= b -> now <> 0 ->
  exists r', recordRetention ds rs c a b now r = Ok r'
    /\ rn_evicted r' + lenZ (rn_ledger r') <= rn_evicted r + lenZ (rn_ledger r) + 1.
Proof.
  intros Hl Hroom Hds Hrs Hc Hab Hnow. unfold recordRetention. case_if; [eexists; split; [done|lia]|].
  rewrite Hds, Hrs. unfold is_zero. rewrite (proj2 (Z.ltb_ge _ _)), (proj2 (Z.ltb_ge b a)) by lia.
  rewrite (proj2 (Z.eqb_neq now 0)) by done. simpl.
  assert (exists l, ledger_upsert (ds, rs, day_unix_milli now)
    (mkLedgerEntry 1 c a b (unix_milli now) (unix_milli now)) (rn_ledger r) = Ok l) as [l El].
  { unfold ledger_upsert. case_if; [|by eauto].
    pose proof Hl as (He & Hids & _ & Hfull & _). pose proof (lenZ_nonneg (rn_ledger r)).
    rewrite Hids, foldr_max_seqZ by lia.
    repeat case_if; try (by eauto); exfalso; bool_to_prop; zlia. }
  rewrite El. simpl. destruct (ledger_upsert_spec _ _ _ _ Hl El) as (_ & Hlen & _ & _).
  destruct Hl as (He & _ & H1024 & Hfull & _).
  case_if; eexists; (split; [reflexivity|]); simpl; bool_to_prop; [|lia].
  unfold add_saturated. rewrite (proj2 (Z.ltb_ge _ _)) by lia.
  unfold lenZ in *. rewrite length_drop. lia.
Qed.

(** [recordRetention] keeps the accounts of a history of removals. *)
Lemma recordRetention_ok h r r' m :
  retention_inv h r -> rm_count m <= i64_max ->
  record_removal r m = Ok r' -> retention_inv (h ++ [m]) r'.
Proof.
  intros [Hl Ht] Hmax Hr. split; [by eapply recordRetention_kept|]. revert Hr.
  unfold record_removal, recordRetention.
  assert (Hrem : forall k, removals_of k (h ++ [m]) =
    if decide (k = (rm_dataset m, rm_reason m)) then
      if decide (rm_count m = 0) then removals_of k h else removals_of k h ++ [m]
    else removals_of k h).
  { intros k. unfold removals_of. rewrite filter_app. cbn [filter list_filter].
    destruct (decide (counted k m)) as [[Hk Hc]|Hn].
    - rewrite decide_True by done. by rewrite decide_False.
    - rewrite app_nil_r. destruct (decide _) as [->|]; [|done].
      rewrite decide_True; [done|]. apply dec_stable. intros Hc. by apply Hn. }
  destruct (rm_count m =? 0) eqn:E0.
  { intros Hr. injection Hr as <-. intros k. rewrite Hrem.
    bool_to_prop. destruct (decide (k = _)); [destruct (decide (rm_count m = 0)); [|done]|]; apply Ht. }
  bool_to_prop. destruct (_ || _) eqn:Ev; [discriminate|]. bool_to_prop.
  destruct (ledger_upsert _ _ _) as [ledger|] eqn:El; [|discriminate]. simpl.
  intros Hr k.
  rewrite Hrem.
  pose proof (total_upsert_spec (rm_dataset m, rm_reason m) k (fun k => removals_of k h) (rm_count m)
    (rm_start m) (rm_end m) (unix_milli (rm_now m)) (rn_totals r) Ht ltac:(lia) m eq_refl eq_refl eq_refl) as Hk.
  destruct (decide (rm_count m = 0)) as [|_]; [done|].
  revert Hr. case_if; intros Hr; injection Hr as <-; exact Hk.
Qed.

(** The ledger accounts for every removal: whatever removals are recorded, the
    total of a dataset and reason is the saturated sum of the rows removed for it and
    covers their times, it exists only if rows were removed, and the ledger keeps the
    last 1024 entries under consecutive ids that continue after those evicted. *)
Theorem retention_accounts h r :
  Forall (fun m => rm_count m <= i64_max) h ->
  rfold record_removal no_retention h = Ok r ->
  (forall k, total_of (removals_of k h) (rn_totals r !! k))
  /\ ledger_ids (rn_ledger r) = seqZ (rn_evicted r + 1) (lenZ (rn_ledger r))
  /\ lenZ (rn_ledger r) <= 1024.
Proof.
  intros Hh Hr.
  assert (Hi : exists past, past ++ [] = h /\ retention_inv past r).
  { apply (rfold_inv record_removal (fun r rest => exists past, past ++ rest = h /\ retention_inv past r))
      with (3 := Hr).
    - intros r1 m l r2 (past & Heq & Hi) Hm. exists (past ++ [m]). split; [by rewrite <- app_assoc|].
      eapply recordRetention_ok; [exact Hi| |exact Hm].
      rewrite <- Heq in Hh. apply Forall_app in Hh as [_ Hh]. by apply Forall_cons in Hh as [? _].
    - exists []. split; [done|]. split; [repeat split; simpl; vm_compute; auto; discriminate|done]. }
  destruct Hi as (past & Heq & (_ & Hids & Hlen & _) & Ht). rewrite app_nil_r in Heq. by subst past.
Qed.

Lemma retention_accounts_witness :
  let h := [mkRemoval "events" "time_expiry" 3 10 20 (unix_epoch + second);
            mkRemoval "events" "time_expiry" 4 5 12 (unix_epoch + 2 * second);
            mkRemoval "coverage_gaps" "capacity_eviction" 1 7 7 (unix_epoch + 3 * second)] in
  exists r, rfold record_removal no_retention h = Ok r /\ rn_totals r !! ("events", "time_expiry") =
      Some (mkLedgerEntry 2 7 5 20 1000 2000)
    /\ ((forall k, total_of (removals_of k h) (rn_totals r !! k))
        /\ ledger_ids (rn_ledger r) = seqZ (rn_evicted r + 1) (lenZ (rn_ledger r))
        /\ lenZ (rn_ledger r) <= 1024).
Proof.
  intros h. eexists. split; [vm_compute; reflexivity|]. split; [vm_compute; reflexivity|].
  apply (retention_accounts h); [|vm_compute; reflexivity].
  repeat constructor; vm_compute; discriminate.
Defined.

(** ** Coverage gaps *)

(** A row of [coverage_gaps]; times are milliseconds. *)
Record gap := mkGap { g_name : string; g_reason : string; g_start : Z; g_end : Z; g_count : Z }.

(** The table in the order of its ids. *)
Abbreviation gaps := (list (Z * gap)).

Definition next_id (l : gaps) : Z := foldr Z.max 0 l.*1 + 1.

(** The insertion and the pruning that follows it, shared by [insertSensorGap] and
    [recordCoverageGap]. *)
Definition insert_gap (g : gap) (now : time) (l : gaps) (r : Retention)
    : result retention_error (gaps * Retention) :=
  let id := next_id l in
  let old := filter (fun row => row.1 <= id - 1000) (l ++ [(id, g)]) in
  let? (_, r) := pruneRows "coverage_gaps" "capacity_eviction" ((fun row => (g_start row.2, g_end row.2)) <$> old) now r in
  Ok (filter (fun row => ~ row.1 <= id - 1000) (l ++ [(id, g)]), r).

(** [insertSensorGap]. *)
Definition insertSensorGap (reason : string) (start stop : time) (count : Z) (now : time)
    (l : gaps) (r : Retention) : result retention_error (gaps * Retention) :=
  insert_gap (mkGap "sensor_feed" reason (unix_milli start) (unix_milli stop) count) now l r.

(** [CoverageGap] and [recordCoverageGap] without a pending journal. *)
Record CoverageGap := mkCoverageGap {
  cg_name : string; cg_reason : string; cg_start : time; cg_end : time; cg_count : Z }.

Definition recordCoverageGap (g : CoverageGap) (now : time) (l : gaps) (r : Retention)
    : result retention_error (gaps * Retention) :=
  if (cg_name g =?s "") || (64 <? string_len (cg_name g)) || (cg_reason g =?s "")
     || (64 <? string_len (cg_reason g)) || is_zero (cg_start g)
     || before (cg_end g) (cg_start g) || (i64_max <? cg_count g)
  then Err InvalidRetention
  else insert_gap (mkGap (cg_name g) (cg_reason g) (unix_milli (cg_start g)) (unix_milli (cg_end g)) (cg_count g))
         now l r.

(** The table holds consecutive ids, at most one thousand, and intervals. *)
Definition gaps_ok (l : gaps) : Prop :=
  l.*1 = seqZ (next_id l - lenZ l) (lenZ l) /\ lenZ l < next_id l /\ lenZ l <= 1000
  /\ Forall (fun row => g_start row.2 <= g_end row.2) l.

Lemma filter_ids (l : gaps) c :
  l.*1 = seqZ (c + 1 - lenZ l) (lenZ l) -> lenZ l <= 1001 ->
  (lenZ l <= 1000 /\ filter (fun row => row.1 <= c - 1000) l = []
     /\ filter (fun row => ~ row.1 <= c - 1000) l = l)
  \/ (lenZ l = 1001 /\ exists x l', l = x :: l'
     /\ filter (fun row => row.1 <= c - 1000) l = [x]
     /\ filter (fun row => ~ row.1 <= c - 1000) l = l').
Proof.
  intros Hids Hlen.
  assert (Hrec : forall (m : gaps) k, m.*1 = seqZ k (lenZ m) -> c - 1000 < k ->
    filter (fun row => row.1 <= c - 1000) m = [] /\ filter (fun row => ~ row.1 <= c - 1000) m = m).
  { induction m as [|x m IH]; intros k Hm Hk; [done|].
    rewrite lenZ_cons, Z.add_1_r, seqZ_cons in Hm by (pose proof (lenZ_nonneg m); lia).
    rewrite Z.pred_succ in Hm. apply (f_equal (fun l => (head l, tail l))) in Hm as Hm'.
    simpl in Hm'. injection Hm' as Hx Hm'. destruct (IH (Z.succ k) Hm' ltac:(lia)) as [IH1 IH2].
    rewrite !filter_cons, IH1, IH2. by rewrite decide_False, decide_True by lia. }
  destruct (decide (lenZ l <= 1000)) as [|Hn]; [left; split; [done|]; apply (Hrec _ _ Hids); lia|].
  right. split; [lia|]. destruct l as [|x l]; [exfalso; apply Hn; vm_compute; discriminate|].
  exists x, l. split; [done|].
  rewrite lenZ_cons in *. rewrite (Z.add_1_r (lenZ l)), seqZ_cons in Hids by (pose proof (lenZ_nonneg l); lia).
  apply (f_equal (fun l => (head l, tail l))) in Hids. rewrite Z.pred_succ in Hids.
  simpl in Hids. injection Hids as Hx Hl.
  destruct (Hrec _ _ Hl ltac:(lia)) as [H1 H2].
  rewrite !filter_cons, H1, H2. by rewrite decide_True, decide_False by lia.
Qed.

Lemma gaps_ok_snoc g l :
  gaps_ok l -> g_start g <= g_end g ->
  let l' := l ++ [(next_id l, g)] in
  l'.*1 = seqZ (next_id l + 1 - lenZ l') (lenZ l') /\ lenZ l' <= 1001
  /\ lenZ l' <= next_id l /\ Forall (fun row => g_start row.2 <= g_end row.2) l'.
Proof.
  intros (Hids & Hpos & Hlen & Hg) Hgap l'. subst l'. rewrite lenZ_app, fmap_app.
  change (lenZ [_]) with 1. pose proof (lenZ_nonneg l). split; [|split; [lia|split; [lia|]]].
  - rewrite Hids at 1. rewrite <- seqZ_snoc by lia. f_equal; [f_equal; lia|simpl; f_equal; lia].
  - apply Forall_app. by repeat constructor.
Qed.

(** The table after an insertion. *)
Lemma gaps_ok_kept g l :
  gaps_ok l -> g_start g <= g_end g ->
  exists old, filter (fun row => row.1 <= next_id l - 1000) (l ++ [(next_id l, g)]) = old
    /\ (old = [] \/ exists x, old = [x] /\ g_start x.2 <= g_end x.2)
    /\ gaps_ok (filter (fun row => ~ row.1 <= next_id l - 1000) (l ++ [(next_id l, g)]))
    /\ last (filter (fun row => ~ row.1 <= next_id l - 1000) (l ++ [(next_id l, g)])) = Some (next_id l, g).
Proof.
  intros Hl Hgap. destruct (gaps_ok_snoc g l Hl Hgap) as (Hids & Hlen & Hpos & Hg).
  assert (Hnext : forall m : gaps, m.*1 = seqZ (next_id l + 1 - lenZ m) (lenZ m) -> 0 < lenZ m ->
    lenZ m <= next_id l -> next_id m = next_id l + 1).
  { intros m Hm Hm0 Hm1. unfold next_id at 1. rewrite Hm.
    replace (next_id l + 1 - lenZ m) with (next_id l - lenZ m + 1) by lia.
    rewrite foldr_max_seqZ by lia. rewrite (proj2 (Z.ltb_lt _ _)) by lia. lia. }
  eexists; split; [reflexivity|].
  destruct (filter_ids _ (next_id l) Hids Hlen) as [(Hle & -> & ->)|(Heq & x & l' & Hx & -> & ->)].
  - split; [by left|]. split; [|by rewrite last_snoc].
    assert (Hpos' : 0 < lenZ (l ++ [(next_id l, g)])) by (rewrite lenZ_app; pose proof (lenZ_nonneg l); vm_compute (lenZ [_]); lia).
    unfold gaps_ok. rewrite (Hnext _ Hids Hpos' Hpos). split; [done|]. split; [lia|]. done.
  - rewrite Hx in Hids, Heq, Hpos, Hg. apply Forall_cons in Hg as [Hg1 Hg2].
    rewrite lenZ_cons in *. split; [right; by exists x|].
    rewrite (Z.add_1_r (lenZ l')), seqZ_cons in Hids by (pose proof (lenZ_nonneg l'); lia).
    apply (f_equal tail) in Hids. rewrite Z.pred_succ in Hids. simpl in Hids.
    assert (Hids' : l'.*1 = seqZ (next_id l + 1 - lenZ l') (lenZ l')) by (rewrite Hids at 1; f_equal; lia).
    split.
    + unfold gaps_ok. rewrite (Hnext l' Hids') by lia. split; [done|]. split; [lia|]. split; [lia|done].
    + destruct l' as [|y l']; [simpl in Heq; vm_compute in Heq; discriminate|].
      apply (f_equal last) in Hx. rewrite last_snoc in Hx. by rewrite last_cons_cons in Hx.
Qed.

Lemma pruned_one (old : gaps) now r :
  ledger_ok r -> rn_evicted r + lenZ (rn_ledger r) < i64_max -> now <> 0 ->
  (old = [] \/ exists x, old = [x] /\ g_start x.2 <= g_end x.2) ->
  exists n r', pruneRows "coverage_gaps" "capacity_eviction"
      ((fun row => (g_start row.2, g_end row.2)) <$> old) now r = Ok (n, r')
    /\ rn_evicted r' + lenZ (rn_ledger r') <= rn_evicted r + lenZ (rn_ledger r) + 1.
Proof.
  intros Hl Hroom Hnow Hold. unfold pruneRows. simpl (negb _).
  assert (exists c a b, extent ((fun row => (g_start row.2, g_end row.2)) <$> old) = (c, a, b) /\ 0 <= c /\ a <= b)
    as (c & a & b & -> & Hc & Hab).
  { destruct Hold as [->|(x & -> & Hx)]; [by exists 0, 0, 0|]. do 3 eexists. split; [reflexivity|]. simpl. lia. }
  destruct (recordRetention_total "coverage_gaps" "capacity_eviction" c a b now r) as (r' & Hr & Hle); try done.
  rewrite Hr. simpl. eauto.
Qed.

(** A gap is always recorded while ids last, and its row is the last of the table. *)
Lemma insert_gap_total g now l r :
  gaps_ok l -> ledger_ok r -> rn_evicted r + lenZ (rn_ledger r) < i64_max ->
  g_start g <= g_end g -> now <> 0 ->
  exists l' r', insert_gap g now l r = Ok (l', r') /\ last l' = Some (next_id l, g)
    /\ rn_evicted r' + lenZ (rn_ledger r') <= rn_evicted r + lenZ (rn_ledger r) + 1.
Proof.
  intros Hl Hr Hroom Hg Hnow. unfold insert_gap.
  destruct (gaps_ok_kept g l Hl Hg) as (old & -> & Hold & _ & Hlast).
  destruct (pruned_one old now r Hr Hroom Hnow Hold) as (n & r' & -> & Hle). simpl. eauto.
Qed.

Lemma insert_gap_kept g now l r l' r' :
  gaps_ok l -> ledger_ok r -> g_start g <= g_end g ->
  insert_gap g now l r = Ok (l', r') -> gaps_ok l' /\ ledger_ok r'.
Proof.
  intros Hl Hr Hg. unfold insert_gap.
  destruct (gaps_ok_kept g l Hl Hg) as (old & -> & _ & Hok & _).
  unfold pruneRows. destruct (negb _); [discriminate|]. destruct (extent _) as [[c a] b].
  destruct (recordRetention _ _ _ _ _ _ _) as [r1|] eqn:Er; [|discriminate]. simpl.
  intros Hi. injection Hi as <- <-. split; [done|]. by eapply recordRetention_kept.
Qed.
