(* ===== verification/Hourly.v ===== *)
(** * Hourly aggregates

    The tables of [internal/store/store.go] that observations are added to: traffic
    by country and network with a bounded number of keys per hour, authentication
    observations, interface totals and collector health. *)

From S2P Require Export Retention NetDev.

(** ** [limit]: texts without control characters, cut at a length *)

(** The number of bytes of the UTF-8 sequence that starts a text. *)
Definition continuation (lo hi b : Z) : bool := (lo <=? b) && (b <=? hi).
Definition utf8_size (l : list Z) : option nat :=
  match l with
  | [] => None
  | b0 :: l =>
      if b0 <? 128 then Some 1%nat
      else if continuation 194 223 b0 then
        match l with
        | b1 :: _ => if continuation 128 191 b1 then Some 2%nat else None
        | _ => None
        end
      else if continuation 224 239 b0 then
        match l with
        | b1 :: b2 :: _ =>
            if continuation (if b0 =? 224 then 160 else 128) (if b0 =? 237 then 159 else 191) b1
               && continuation 128 191 b2 then Some 3%nat else None
        | _ => None
        end
      else if continuation 240 244 b0 then
        match l with
        | b1 :: b2 :: b3 :: _ =>
            if continuation (if b0 =? 240 then 144 else 128) (if b0 =? 244 then 143 else 191) b1
               && continuation 128 191 b2 && continuation 128 191 b3 then Some 4%nat else None
        | _ => None
        end
      else None
  end.

(** [strings.Map] with the mapping of [limit]: control characters are dropped and a
    byte outside any UTF-8 sequence becomes U+FFFD.  [skip] counts the bytes of the
    current sequence that are still to be copied. *)
Fixpoint drop_control (skip : nat) (l : list Z) : list Z :=
  match l with
  | [] => []
  | b :: r =>
      match skip with
      | S skip => b :: drop_control skip r
      | O =>
          match utf8_size l with
          | None => [239; 191; 189] ++ drop_control 0 r
          | Some n =>
              if (b <? 32) || (b =? 127) then drop_control 0 r
              else b :: drop_control (pred n) r
          end
      end
  end.

Fixpoint valid_utf8 (skip : nat) (l : list Z) : bool :=
  match l with
  | [] => (skip =? 0)%nat
  | b :: r =>
      match skip with
      | S skip => valid_utf8 skip r
      | O => match utf8_size l with Some n => valid_utf8 (pred n) r | None => false end
      end
  end.

(** The longest valid prefix of at most [n] bytes. *)
Fixpoint trim_utf8 (n : nat) (l : list Z) : list Z :=
  match n with
  | O => []
  | S m => if valid_utf8 0 (take n l) then take n l else trim_utf8 m l
  end.

Definition limit (value : string) (max : nat) : string :=
  let l := drop_control 0 (bytes_of_string value) in
  if (max <? length l)%nat then string_of_bytes (trim_utf8 max l) else string_of_bytes l.

(** ** Traffic *)

Record trafficKey := mkTrafficKey {
  tk_hour : Z;
  tk_direction : string;
  tk_country : string;
  tk_region : string;
  tk_asn : Z;
  tk_asn_org : string;
  tk_attributed : bool }.

#[global] Instance trafficKey_eq_dec : EqDecision trafficKey.
Proof. solve_decision. Defined.

#[global] Instance trafficKey_countable : Countable trafficKey.
Proof.
  refine (inj_countable' (fun k => (tk_hour k, tk_direction k, tk_country k, tk_region k, tk_asn k, tk_asn_org k, tk_attributed k))
    (fun '(h, d, c, r, a, o, t) => mkTrafficKey h d c r a o t) _).
  by intros [].
Defined.

(** Bytes and packets. *)
Abbreviation totals := (Z * Z)%type.

Definition maxTrafficKeysPerHour : Z := 16384.

(** [traffic_hourly] and [traffic_cardinality_hourly]. *)
Record TrafficTables := mkTraffic' {
  tt_rows : gmap trafficKey (column * column);
  tt_keys : gmap Z Z }.

Inductive store_error :=
| TrafficTimestamp | TrafficDirection | TrafficCounters
| TrafficBounds | OverflowBounds
| AuthIncomplete | InterfaceInvalid | HighBit
| RetentionFailed (e : retention_error).

Definition retained {A} (r : result retention_error A) : result store_error A :=
  match r with Ok a => Ok a | Err e => Err (RetentionFailed e) end.

Definition key_of (item : Traffic) : trafficKey :=
  mkTrafficKey (hour_unix (tr_hour item)) (tr_direction item) (limit (tr_country item) 160)
    (limit (tr_region item) 160) (tr_asn item) (limit (tr_asn_org item) 160) (tr_attributed item).

(** One item of the batch. *)
Definition aggregate_item (m : gmap trafficKey totals) (item : Traffic)
    : result store_error (gmap trafficKey totals) :=
  if is_zero (tr_hour item) then Err TrafficTimestamp
  else if negb (tr_direction item =?s DirectionInbound) && negb (tr_direction item =?s DirectionOutbound)
  then Err TrafficDirection
  else if (tr_bytes item =? 0) || (tr_packets item =? 0) || (i64_max <? tr_bytes item)
          || (i64_max <? tr_packets item) || (4294967295 <? tr_asn item)
  then Err TrafficCounters
  else
    let key := key_of item in
    let '(bytes, packets) := default (0, 0) (m !! key) in
    if (i64_max - bytes <? tr_bytes item) || (i64_max - packets <? tr_packets item) then Err TrafficBounds
    else Ok (<[key := (bytes + tr_bytes item, packets + tr_packets item)]> m).

(** The variables of the loop that writes the aggregated keys. *)
Record key_loop := mkLoop {
  lp_rows : gmap trafficKey (column * column);
  lp_keys : gmap Z Z;
  lp_compacted : gmap Z Z;
  lp_overflow : gmap (Z * string) totals }.

Definition add_columns (c : column * column) (v : totals) : column * column :=
  (sql_add c.1 v.1, sql_add c.2 v.2).

Definition loaded_keys (cardinality : gmap Z Z) (keys : gmap Z Z) (hour : Z) : Z :=
  default (default 0 (cardinality !! hour)) (keys !! hour).

(** One key: a row that exists is updated, a new one is kept while the hour has
    room, and is taken out again and added to the overflow otherwise. *)
Definition write_key (cardinality : gmap Z Z) (l : key_loop) (kv : trafficKey * totals)
    : result store_error key_loop :=
  let '(key, value) := kv in
  let hour := tk_hour key in
  let keys := loaded_keys cardinality (lp_keys l) hour in
  match lp_rows l !! key with
  | Some row =>
      Ok (mkLoop (<[key := add_columns row value]> (lp_rows l)) (<[hour := keys]> (lp_keys l))
            (lp_compacted l) (lp_overflow l))
  | None =>
      if keys <? maxTrafficKeysPerHour then
        Ok (mkLoop (<[key := (CInt value.1, CInt value.2)]> (lp_rows l)) (<[hour := keys + 1]> (lp_keys l))
              (lp_compacted l) (lp_overflow l))
      else
        let current := default (0, 0) (lp_overflow l !! (hour, tk_direction key)) in
        if (i64_max - current.1 <? value.1) || (i64_max - current.2 <? value.2) then Err OverflowBounds
        else
          Ok (mkLoop (lp_rows l) (<[hour := keys]> (lp_keys l))
                (<[hour := default 0 (lp_compacted l !! hour) + 1]> (lp_compacted l))
                (<[(hour, tk_direction key) := (current.1 + value.1, current.2 + value.2)]> (lp_overflow l)))
  end.

Definition overflow_key (hd : Z * string) : trafficKey :=
  mkTrafficKey hd.1 hd.2 "_overflow" "" 0 "" false.

Definition write_overflow (rows : gmap trafficKey (column * column)) (e : (Z * string) * totals)
    : gmap trafficKey (column * column) :=
  match rows !! overflow_key e.1 with
  | None => <[overflow_key e.1 := (CInt e.2.1, CInt e.2.2)]> rows
  | Some row => <[overflow_key e.1 := add_columns row e.2]> rows
  end.

Definition record_compaction (now : Z -> time) (r : Retention) (e : Z * Z) : result store_error Retention :=
  retained (recordRetention "traffic_hourly" "cardinality_compaction" e.2 (e.1 * 1000)
              ((e.1 + 3600) * 1000) (now e.1) r).

(** [addTrafficBatch]: [o] is the order of its iterations over maps and [now] the
    clock when the compaction of an hour is recorded. *)
Definition addTrafficBatch (o : map_order) (now : Z -> time) (traffic : list Traffic)
    (t : TrafficTables) (r : Retention) : result store_error (TrafficTables * Retention) :=
  match traffic with
  | [] => Ok (t, r)
  | _ =>
      let? aggregated := rfold aggregate_item ∅ traffic in
      let? l := rfold (write_key (tt_keys t)) (mkLoop (tt_rows t) ∅ ∅ ∅) (entries o aggregated) in
      let rows := foldl write_overflow (lp_rows l) (entries o (lp_overflow l)) in
      let? r := rfold (record_compaction now) r (entries o (lp_compacted l)) in
      Ok (mkTraffic' rows (lp_keys l ∪ tt_keys t), r)
  end.

(** ** Authentication observations *)

(** [auth_hourly] by hour, kind and source range, and [auth_cardinality_hourly]. *)
Record AuthTables := mkAuthTables {
  at_rows : gmap (Z * string * string) column;
  at_keys : gmap Z Z }.

Definition maxAuthKeysPerHour : Z := 65536.

Definition count_one (k : Z * string * string) (rows : gmap (Z * string * string) column)
    : gmap (Z * string * string) column :=
  <[k := match rows !! k with Some c => sql_add c 1 | None => CInt 1 end]> rows.

Definition addAuth (observedAt : time) (kind sourceRange : string) (now : time)
    (t : AuthTables) (r : Retention) : result store_error (AuthTables * Retention) :=
  if is_zero observedAt || (kind =?s "") then Err AuthIncomplete
  else
    let hour := hour_unix observedAt in
    let kind := limit kind 64 in
    let sourceRange := limit sourceRange 128 in
    let keys := default 0 (at_keys t !! hour) in
    match at_rows t !! (hour, kind, sourceRange) with
    | Some _ => Ok (mkAuthTables (count_one (hour, kind, sourceRange) (at_rows t)) (at_keys t), r)
    | None =>
        if keys <? maxAuthKeysPerHour then
          Ok (mkAuthTables (count_one (hour, kind, sourceRange) (at_rows t)) (<[hour := keys + 1]> (at_keys t)), r)
        else
          let? r := retained (recordRetention "auth_hourly" "cardinality_compaction" 1 (hour * 1000)
                                ((hour + 3600) * 1000) now r) in
          Ok (mkAuthTables (count_one (hour, kind, "_overflow") (at_rows t)) (at_keys t), r)
    end.

(** ** Interface totals *)

(** The columns are received and sent bytes, then received and sent packets. *)
Abbreviation interface_row := (column * column * column * column)%type.

Definition add_interface (row : option interface_row) (t : InterfaceTotals) : interface_row :=
  match row with
  | None => (CInt (it_rx_bytes t), CInt (it_tx_bytes t), CInt (it_rx_packets t), CInt (it_tx_packets t))
  | Some (a, b, c, d) =>
      (sql_add a (it_rx_bytes t), sql_add b (it_tx_bytes t), sql_add c (it_rx_packets t), sql_add d (it_tx_packets t))
  end.

(** [interface_hourly] and [interface_detail_hourly]. *)
Record InterfaceTables := mkInterfaceTables {
  if_hourly : gmap Z interface_row;
  if_detail : gmap (Z * string) interface_row }.

(** Slash is forbidden in real interface names. *)
Definition overflow_interface : string := "_overflow/".

(** The number of interfaces that have a row of their own in an hour. *)
Definition detail_count (hour : Z) (detail : gmap (Z * string) interface_row) : Z :=
  lenZ (filter (fun k : Z * string => k.1 = hour /\ k.2 <> overflow_interface) (map_to_list detail).*1).

(** The gap that an hour with too many interfaces leaves, once. *)
Definition cardinality_gap (hour : Z) : gap :=
  mkGap "interface_counter" "interface_detail_cardinality" (hour * 1000) ((hour + 3600) * 1000) 1.
Definition same_gap (g : gap) (row : Z * gap) : bool :=
  (g_name row.2 =?s g_name g) && (g_reason row.2 =?s g_reason g)
  && (g_start row.2 =? g_start g) && (g_end row.2 =? g_end g).
Definition insert_gap_once (g : gap) (now : time) (l : gaps) (r : Retention)
    : result retention_error (gaps * Retention) :=
  if existsb (same_gap g) l then
    let old := filter (fun row => row.1 <= next_id l - 1 - 1000) l in
    let? (_, r) := pruneRows "coverage_gaps" "capacity_eviction" ((fun row => (g_start row.2, g_end row.2)) <$> old) now r in
    Ok (filter (fun row => ~ row.1 <= next_id l - 1 - 1000) l, r)
  else insert_gap g now l r.

Definition AddInterface (totals : InterfaceTotals) (now1 now2 : time)
    (t : InterfaceTables) (l : gaps) (r : Retention)
    : result store_error (InterfaceTables * gaps * Retention) :=
  if is_zero (it_at totals)
     || (negb (it_interface totals =?s "") && negb (ValidInterfaceName (it_interface totals)))
  then Err InterfaceInvalid
  else if negb (forallb sql_uint [it_rx_bytes totals; it_tx_bytes totals; it_rx_packets totals; it_tx_packets totals])
  then Err HighBit
  else
    let hour := hour_unix (it_at totals) in
    let hourly := <[hour := add_interface (if_hourly t !! hour) totals]> (if_hourly t) in
    let detail := if_detail t in
    let add name := <[(hour, name) := add_interface (detail !! (hour, name)) totals]> detail in
    let name := it_interface totals in
    if name =?s "" then Ok (mkInterfaceTables hourly detail, l, r)
    else if some (detail !! (hour, name)) || (detail_count hour detail <? 32)
    then Ok (mkInterfaceTables hourly (add name), l, r)
    else
      let? r := retained (recordRetention "interface_detail_hourly" "cardinality_compaction" 1
                            (hour * 1000) ((hour + 3600) * 1000) now1 r) in
      let? (l, r) := retained (insert_gap_once (cardinality_gap hour) now2 l r) in
      Ok (mkInterfaceTables hourly (add overflow_interface), l, r).

(** ** Collector health *)

(** A row of [collector_health_hourly]: batches, the nine counters in the order of
    the snapshot, the batches with saturated counters and when one was last seen. *)
Record health_row := mkHealthRow {
  hr_batches : column;
  hr_counters : list column;
  hr_saturations : column;
  hr_last_seen : Z }.

(** [recordBatchHealth]: [h] is the health that the batch carries. *)
Definition recordBatchHealth (sent_at : time) (h : CollectorHealth) (rows : gmap Z health_row)
    : result store_error (gmap Z health_row) :=
  if negb (forallb sql_uint (health_counters h)) then Err HighBit
  else
    let hour := hour_unix sent_at in
    let saturated := if h_saturated h then 1 else 0 in
    Ok (<[hour :=
      match rows !! hour with
      | None => mkHealthRow (CInt 1) (CInt <$> health_counters h) (CInt saturated) (unix_milli sent_at)
      | Some row =>
          mkHealthRow (sql_add (hr_batches row) 1) (zip_with sql_add (hr_counters row) (health_counters h))
            (sql_add (hr_saturations row) saturated) (unix_milli sent_at)
      end]> rows).
