(* ===== verification/Traffic.v ===== *)
(** * Traffic is conserved

    What [addTrafficBatch] of [internal/store/store.go] promises: the bytes and
    packets of a batch all reach the rows of their hour and direction, whichever keys
    are compacted into the overflow row and in whatever order, and the number of keys
    of an hour stays bounded. *)

From S2P Require Export Hourly.

(** ** Totals of an hour and direction *)

(** Bytes or packets. *)
Definition side (s : bool) {A} (p : A * A) : A := if s then p.1 else p.2.

Definition weigh (b : bool) (z : Z) : Z := if b then z else 0.

Definition at_key (h : Z) (d : string) (k : trafficKey) : bool :=
  (tk_hour k =? h) && (tk_direction k =?s d).

Definition hour_total (s : bool) (h : Z) (d : string) (rows : gmap trafficKey (column * column)) : Z :=
  map_sum (fun k v => weigh (at_key h d k) (int_of (side s v))) rows.

Definition item_value (s : bool) (i : Traffic) : Z := if s then tr_bytes i else tr_packets i.
Definition batch_total (s : bool) (h : Z) (d : string) (traffic : list Traffic) : Z :=
  sumZ ((fun i => weigh (at_key h d (key_of i)) (item_value s i)) <$> traffic).

Definition is_overflow (k : trafficKey) : bool :=
  bool_decide (k = overflow_key (tk_hour k, tk_direction k)).

(** The keys of an hour besides those of the overflow. *)
Definition hour_keys (h : Z) (rows : gmap trafficKey (column * column)) : Z :=
  map_sum (fun k _ => weigh ((tk_hour k =? h) && negb (is_overflow k)) 1) rows.

Definition row_exact (c : column * column) : Prop := exact c.1 /\ exact c.2.
Definition rows_exact (rows : gmap trafficKey (column * column)) : Prop :=
  map_Forall (fun _ c => row_exact c) rows.

Definition traffic_ok (t : TrafficTables) : Prop :=
  rows_exact (tt_rows t)
  /\ forall h, hour_keys h (tt_rows t) <= default 0 (tt_keys t !! h) <= maxTrafficKeysPerHour.

(** The counters of an item are unsigned. *)
Definition item_wf (i : Traffic) : Prop := 0 <= tr_bytes i /\ 0 <= tr_packets i.

(** ** Generic facts *)

Lemma weigh_nonneg b z : 0 <= z -> 0 <= weigh b z.
Proof. destruct b; simpl; lia. Qed.

Lemma map_sum_single {K V} `{Countable K} (g : V -> Z) (k0 : K) (m : gmap K V) :
  map_sum (fun k v => weigh (bool_decide (k = k0)) (g v)) m = from_option g 0 (m !! k0).
Proof.
  assert (Hz : forall m : gmap K V, m !! k0 = None ->
    map_sum (fun k v => weigh (bool_decide (k = k0)) (g v)) m = 0).
  { clear m. intros m. induction m as [|k v m' Hk IH] using map_ind; intros Hm; [by rewrite map_sum_empty|].
    apply lookup_insert_None in Hm as [Hm Hne]. rewrite map_sum_insert_None, IH by done.
    by rewrite bool_decide_false. }
  destruct (m !! k0) as [v|] eqn:E; simpl; [|by apply Hz].
  rewrite (map_sum_delete _ _ _ _ E), Hz by apply lookup_delete_eq.
  rewrite bool_decide_true by done. simpl. lia.
Qed.

Lemma row_exact_side s c : row_exact c -> exact (side s c).
Proof. intros []. by destruct s. Qed.

Lemma exact_int c : exact c -> 0 <= int_of c <= i64_max.
Proof. by intros (z & -> & Hz). Qed.

Lemma exact_CInt z : 0 <= z <= i64_max -> exact (CInt z).
Proof. by exists z. Qed.

Lemma hour_total_row s h d rows k c :
  rows_exact rows -> rows !! k = Some c -> at_key h d k = true -> int_of (side s c) <= hour_total s h d rows.
Proof.
  intros Hr Hk Ha.
  transitivity (weigh (at_key h d k) (int_of (side s c))); [by rewrite Ha|].
  apply (map_sum_lookup_le (fun k v => weigh (at_key h d k) (int_of (side s v)))); [|done].
  intros k' c' Hk'. apply weigh_nonneg, exact_int, row_exact_side, (Hr k'), Hk'.
Qed.

Lemma hour_total_nonneg s h d rows : rows_exact rows -> 0 <= hour_total s h d rows.
Proof.
  intros Hr. apply map_sum_nonneg. intros k c Hk. apply weigh_nonneg, exact_int, row_exact_side, (Hr k), Hk.
Qed.

(** A value added to a row, present or not, whose hour has room for it. *)
Definition put_row (k : trafficKey) (v : totals) (rows : gmap trafficKey (column * column))
    : gmap trafficKey (column * column) :=
  <[k := match rows !! k with Some c => add_columns c v | None => (CInt v.1, CInt v.2) end]> rows.

Lemma side_add s c v : side s (add_columns c v) = sql_add (side s c) (side s v).
Proof. by destruct s. Qed.

Lemma put_spec k v rows :
  rows_exact rows -> (forall s, 0 <= side s v) ->
  (forall s, hour_total s (tk_hour k) (tk_direction k) rows + side s v <= i64_max) ->
  rows_exact (put_row k v rows)
  /\ forall s h d, hour_total s h d (put_row k v rows) = hour_total s h d rows + weigh (at_key h d k) (side s v).
Proof.
  intros Hr Hv Hroom. unfold put_row.
  assert (Hself : at_key (tk_hour k) (tk_direction k) k = true)
    by (unfold at_key; by rewrite Z.eqb_refl, String.eqb_refl).
  destruct (rows !! k) as [c|] eqn:Ek.
  - assert (Hadd : forall s, sql_add (side s c) (side s v) = CInt (int_of (side s c) + side s v)
      /\ exact (sql_add (side s c) (side s v))).
    { intros s. pose proof (hour_total_row s _ _ _ _ _ Hr Ek Hself). specialize (Hroom s).
      apply exact_add; [apply row_exact_side, (Hr k), Ek|done|lia]. }
    split.
    + apply map_Forall_insert_2; [|done]. split; [apply (Hadd true)|apply (Hadd false)].
    + intros s h d. unfold hour_total. rewrite (map_sum_insert _ _ _ _ _ Ek), side_add.
      destruct (Hadd s) as [-> _]. simpl. destruct (at_key h d k); simpl; lia.
  - split.
    + apply map_Forall_insert_2; [|done].
      split; apply exact_CInt; [specialize (Hv true); specialize (Hroom true)|specialize (Hv false); specialize (Hroom false)];
        simpl in *; pose proof (hour_total_nonneg true (tk_hour k) (tk_direction k) rows Hr);
        pose proof (hour_total_nonneg false (tk_hour k) (tk_direction k) rows Hr); lia.
    + intros s h d. unfold hour_total. rewrite map_sum_insert_None by done.
      destruct s; simpl; lia.
Qed.

(** ** Aggregation of the batch *)

Definition agg_total (s : bool) (h : Z) (d : string) (m : gmap trafficKey totals) : Z :=
  map_sum (fun k v => weigh (at_key h d k) (side s v)) m.

Definition values_ok {K} `{Countable K} (m : gmap K totals) : Prop :=
  map_Forall (fun _ v => forall s, 0 <= side s v <= i64_max) m.

Lemma aggregate_item_spec m i m' :
  values_ok m -> item_wf i -> aggregate_item m i = Ok m' ->
  values_ok m' /\ forall s h d, agg_total s h d m' = agg_total s h d m + weigh (at_key h d (key_of i)) (item_value s i).
Proof.
  intros Hm [Hb Hp]. unfold aggregate_item. repeat (case_if; [discriminate|]).
  destruct (m !! key_of i) as [[b p]|] eqn:Ek; simpl default; cbv iota;
    (case_if; [discriminate|]); intros Hr; injection Hr as <-; bool_to_prop.
  - pose proof (Hm _ _ Ek true) as Hb1. pose proof (Hm _ _ Ek false) as Hp1. simpl in Hb1, Hp1. split.
    + apply map_Forall_insert_2; [|done]. intros []; simpl; lia.
    + intros s h d. unfold agg_total. rewrite (map_sum_insert _ _ _ _ _ Ek).
      destruct (at_key h d _), s; simpl; lia.
  - split.
    + apply map_Forall_insert_2; [|done]. intros []; simpl; lia.
    + intros s h d. unfold agg_total. rewrite map_sum_insert_None by done.
      destruct (at_key h d _), s; simpl; lia.
Qed.

Lemma aggregate_spec traffic m :
  Forall item_wf traffic -> rfold aggregate_item ∅ traffic = Ok m ->
  values_ok m /\ forall s h d, agg_total s h d m = batch_total s h d traffic.
Proof.
  intros Hwf Hr.
  pose (P := fun m rest => Forall item_wf rest /\ values_ok m /\
    forall s h d, agg_total s h d m + batch_total s h d rest = batch_total s h d traffic).
  destruct (rfold_inv aggregate_item P traffic ∅ m) as (_ & Hv & Ht); [| |exact Hr|].
  - intros m1 i l m2 (Hl & Hv & Ht) Hi. apply Forall_cons in Hl as [Hi' Hl].
    destruct (aggregate_item_spec m1 i m2 Hv Hi' Hi) as [Hv' Ht'].
    split; [done|]. split; [done|]. intros s h d. rewrite <- Ht, Ht'.
    unfold batch_total. rewrite fmap_cons, sumZ_cons. lia.
  - split; [done|]. split; [apply map_Forall_empty|]. intros s h d.
    unfold agg_total. by rewrite map_sum_empty.
  - split; [done|]. intros s h d. specialize (Ht s h d). unfold batch_total at 1 in Ht. simpl in Ht.
    rewrite <- Ht. unfold sumZ. simpl. lia.
Qed.

(** ** The loop over the keys *)

(** What the loop has put_row aside for the overflow row of an hour and direction. *)
Definition aside (s : bool) (h : Z) (d : string) (o : gmap (Z * string) totals) : Z :=
  from_option (side s) 0 (o !! (h, d)).

Lemma at_key_spec h d k : at_key h d k = true <-> (h, d) = (tk_hour k, tk_direction k).
Proof.
  unfold at_key. rewrite andb_true_iff, Z.eqb_eq, String.eqb_eq. split; [by intros [<- <-]|by intros [= -> ->]].
Qed.

Lemma write_key_put card l k v l' :
  rows_exact (lp_rows l) -> values_ok (lp_overflow l) -> (forall s, 0 <= side s v) ->
  (forall s, hour_total s (tk_hour k) (tk_direction k) (lp_rows l) + side s v <= i64_max) ->
  write_key card l (k, v) = Ok l' ->
  rows_exact (lp_rows l') /\ values_ok (lp_overflow l')
  /\ (forall s h d, hour_total s h d (lp_rows l') + aside s h d (lp_overflow l')
       = hour_total s h d (lp_rows l) + aside s h d (lp_overflow l) + weigh (at_key h d k) (side s v)).
Proof.
  intros Hr Ho Hv Hroom. destruct (put_spec k v (lp_rows l) Hr Hv Hroom) as [Hex Htot].
  unfold put_row in *. unfold write_key. destruct (lp_rows l !! k) as [c|] eqn:Ek.
  { intros H. injection H as <-. simpl. split; [done|]. split; [done|]. intros s h d. rewrite Htot. lia. }
  destruct (_ <? maxTrafficKeysPerHour).
  { intros H. injection H as <-. simpl. split; [done|]. split; [done|]. intros s h d. rewrite Htot. lia. }
  case_if; [discriminate|]. intros H. injection H as <-. simpl. bool_to_prop.
  set (current := default (0, 0) (lp_overflow l !! (tk_hour k, tk_direction k))) in *.
  assert (Hcur : forall s, 0 <= side s current <= i64_max
    /\ side s current = aside s (tk_hour k) (tk_direction k) (lp_overflow l)).
  { intros s. subst current. unfold aside. destruct (lp_overflow l !! _) as [c|] eqn:Ec; simpl.
    - split; [by apply (Ho _ _ Ec)|done].
    - destruct s; simpl; zlia. }
  split; [done|]. split.
  - apply map_Forall_insert_2; [|done]. intros s. pose proof (Hcur true) as [Hc1 _]. pose proof (Hcur false) as [Hc2 _].
    pose proof (Hv true). pose proof (Hv false). destruct s; simpl in *; lia.
  - intros s h d. destruct (at_key h d k) eqn:Ea.
    + apply at_key_spec in Ea. injection Ea as -> ->. unfold aside at 1. rewrite lookup_insert_eq.
      destruct (Hcur s) as [_ <-]. clear Hcur. clearbody current.
      destruct s; cbn [from_option side fst snd weigh]; lia.
    + unfold aside. rewrite lookup_insert_ne; [cbn [weigh]; by rewrite Z.add_0_r|].
      intros E. symmetry in E. apply at_key_spec in E. congruence.
Qed.

Definition rest_total (s : bool) (h : Z) (d : string) (l : list (trafficKey * totals)) : Z :=
  sumZ ((fun kv => weigh (at_key h d kv.1) (side s kv.2)) <$> l).

Lemma rest_total_cons s h d k v l :
  rest_total s h d ((k, v) :: l) = weigh (at_key h d k) (side s v) + rest_total s h d l.
Proof. reflexivity. Qed.

Lemma rest_total_nonneg s h d (l : list (trafficKey * totals)) :
  Forall (fun kv => forall s, 0 <= side s kv.2) l -> 0 <= rest_total s h d l.
Proof.
  intros Hl. apply sumZ_nonneg, Forall_fmap. eapply Forall_impl; [exact Hl|].
  intros kv Hkv. apply weigh_nonneg, Hkv.
Qed.

Lemma hour_aside_room s h d rows o : rows_exact rows -> values_ok o -> 0 <= hour_total s h d rows /\ 0 <= aside s h d o.
Proof.
  intros Hr Ho. split; [by apply hour_total_nonneg|]. unfold aside.
  destruct (o !! (h, d)) eqn:E; simpl; [by apply (Ho _ _ E)|done].
Qed.

Lemma write_keys_spec card rows l l' :
  rows_exact rows -> Forall (fun kv => forall s, 0 <= side s kv.2) l ->
  (forall s h d, hour_total s h d rows + rest_total s h d l <= i64_max) ->
  rfold (write_key card) (mkLoop rows ∅ ∅ ∅) l = Ok l' ->
  rows_exact (lp_rows l') /\ values_ok (lp_overflow l')
  /\ forall s h d, hour_total s h d (lp_rows l') + aside s h d (lp_overflow l')
       = hour_total s h d rows + rest_total s h d l.
Proof.
  intros Hr Hl Hroom Hf.
  pose (P := fun lp rest => rows_exact (lp_rows lp) /\ values_ok (lp_overflow lp)
    /\ Forall (fun kv : trafficKey * totals => forall s, 0 <= side s kv.2) rest
    /\ forall s h d, hour_total s h d (lp_rows lp) + aside s h d (lp_overflow lp) + rest_total s h d rest
         = hour_total s h d rows + rest_total s h d l).
  destruct (rfold_inv (write_key card) P l (mkLoop rows ∅ ∅ ∅) l') as (Hr' & Ho' & _ & Ht); [| |exact Hf|].
  - intros lp [k v] rest lp' (Hr1 & Ho1 & Hrest & Ht1) Hw. apply Forall_cons in Hrest as [Hv Hrest]. simpl in Hv.
    destruct (write_key_put card lp k v lp' Hr1 Ho1 Hv) as (Hr2 & Ho2 & Ht2); [|done|].
    { intros s. specialize (Ht1 s (tk_hour k) (tk_direction k)). rewrite rest_total_cons in Ht1.
      rewrite (proj2 (at_key_spec (tk_hour k) (tk_direction k) k) eq_refl) in Ht1. cbn [weigh] in Ht1.
      pose proof (hour_aside_room s (tk_hour k) (tk_direction k) _ _ Hr1 Ho1).
      pose proof (rest_total_nonneg s (tk_hour k) (tk_direction k) _ Hrest).
      specialize (Hroom s (tk_hour k) (tk_direction k)). lia. }
    split; [done|]. split; [done|]. split; [done|]. intros s h d.
    rewrite Ht2, <- Ht1, rest_total_cons. lia.
  - split; [done|]. split; [apply map_Forall_empty|]. split; [done|].
    intros s h d. cbn [lp_rows lp_overflow]. unfold aside. rewrite lookup_empty. simpl. lia.
  - split; [done|]. split; [done|]. intros s h d. rewrite <- Ht. unfold rest_total. simpl.
    unfold sumZ. simpl. lia.
Qed.

(** ** The overflow rows *)

Definition ov_total (s : bool) (h : Z) (d : string) (l : list ((Z * string) * totals)) : Z :=
  sumZ ((fun e => weigh (bool_decide (e.1 = (h, d))) (side s e.2)) <$> l).

Lemma at_overflow_key h d e : at_key h d (overflow_key e) = bool_decide (e = (h, d)).
Proof.
  apply Bool.eq_iff_eq_true. rewrite bool_decide_eq_true, at_key_spec. destruct e. simpl. split; congruence.
Qed.

Lemma write_overflow_put rows e : write_overflow rows e = put_row (overflow_key e.1) e.2 rows.
Proof. unfold write_overflow, put_row. by destruct (rows !! _). Qed.

Lemma ov_total_nonneg s h d (l : list ((Z * string) * totals)) :
  Forall (fun kv => forall s, 0 <= side s kv.2) l -> 0 <= ov_total s h d l.
Proof.
  intros Hl. apply sumZ_nonneg, Forall_fmap. eapply Forall_impl; [exact Hl|].
  intros kv Hkv. apply weigh_nonneg, Hkv.
Qed.

Lemma overflow_spec l : forall rows,
  rows_exact rows -> Forall (fun e : (Z * string) * totals => forall s, 0 <= side s e.2) l ->
  (forall s h d, hour_total s h d rows + ov_total s h d l <= i64_max) ->
  rows_exact (foldl write_overflow rows l)
  /\ forall s h d, hour_total s h d (foldl write_overflow rows l) = hour_total s h d rows + ov_total s h d l.
Proof.
  induction l as [|e l IH]; intros rows Hr Hl Hroom; simpl.
  { split; [done|]. intros s h d. unfold ov_total, sumZ. simpl. lia. }
  apply Forall_cons in Hl as [He Hl]. rewrite write_overflow_put.
  assert (Hcons : forall s h d, ov_total s h d (e :: l) = weigh (bool_decide (e.1 = (h, d))) (side s e.2) + ov_total s h d l)
    by reflexivity.
  destruct (put_spec (overflow_key e.1) e.2 rows Hr He) as [Hr' Ht'].
  { intros s. simpl. specialize (Hroom s e.1.1 e.1.2). rewrite Hcons in Hroom.
    rewrite bool_decide_true in Hroom by (by destruct (e.1)). cbn [weigh] in Hroom.
    pose proof (ov_total_nonneg s e.1.1 e.1.2 l Hl). lia. }
  destruct (IH _ Hr' Hl) as [Hr'' Ht''].
  { intros s h d. rewrite Ht', at_overflow_key. specialize (Hroom s h d). rewrite Hcons in Hroom. lia. }
  split; [done|]. intros s h d. rewrite Ht'', Ht', at_overflow_key, Hcons. lia.
Qed.

Lemma ov_total_entries (s : bool) (h : Z) (d : string) (o : map_order) (m : gmap (Z * string) totals) : ov_total s h d (entries o m) = aside s h d m.
Proof.
  unfold ov_total, aside.
  rewrite <- (map_sum_single (side s) (h, d) m), <- (sum_entries o).
  f_equal. apply list_fmap_ext. by intros ? [e v] _.
Qed.

Lemma entries_values {K} `{Countable K} (o : map_order) (m : gmap K totals) :
  values_ok m -> Forall (fun kv => forall s, 0 <= side s kv.2) (entries o m).
Proof.
  intros Hm. apply Forall_forall. intros [k v] Hk%elem_of_entries s. simpl. by apply (Hm _ _ Hk).
Qed.

Lemma rest_total_entries (s : bool) (h : Z) (d : string) (o : map_order) (m : gmap trafficKey totals) : rest_total s h d (entries o m) = agg_total s h d m.
Proof.
  unfold rest_total, agg_total. rewrite <- (sum_entries o). f_equal.
  apply list_fmap_ext. by intros ? [e v] _.
Qed.

(** ** The number of keys *)

Lemma hour_keys_present h k c c0 rows :
  rows !! k = Some c0 -> hour_keys h (<[k := c]> rows) = hour_keys h rows.
Proof. intros Hk. unfold hour_keys. rewrite (map_sum_insert _ _ _ _ _ Hk). lia. Qed.

Lemma hour_keys_new h k c rows :
  rows !! k = None ->
  hour_keys h (<[k := c]> rows) = weigh ((tk_hour k =? h) && negb (is_overflow k)) 1 + hour_keys h rows.
Proof. intros Hk. unfold hour_keys. by rewrite map_sum_insert_None. Qed.

Lemma loaded_keys_insert card keys hr n h :
  loaded_keys card (<[hr := n]> keys) h = if decide (h = hr) then n else loaded_keys card keys h.
Proof.
  unfold loaded_keys. destruct (decide (h = hr)) as [->|Hne]; [by rewrite lookup_insert_eq|].
  by rewrite lookup_insert_ne.
Qed.

Lemma write_key_bound card l kv l' :
  (forall h, hour_keys h (lp_rows l) <= loaded_keys card (lp_keys l) h <= maxTrafficKeysPerHour) ->
  write_key card l kv = Ok l' ->
  forall h, hour_keys h (lp_rows l') <= loaded_keys card (lp_keys l') h <= maxTrafficKeysPerHour.
Proof.
  destruct kv as [k v]. intros Hb. unfold write_key.
  destruct (lp_rows l !! k) as [c|] eqn:Ek; [|case_if].
  - intros Hw h. injection Hw as <-. simpl. rewrite (hour_keys_present _ _ _ _ _ Ek), loaded_keys_insert.
    case_decide; subst; apply Hb.
  - intros Hw h. injection Hw as <-. simpl. rewrite hour_keys_new, loaded_keys_insert by done.
    specialize (Hb h). bool_to_prop. case_decide as Hd.
    + subst h. destruct (_ && _); simpl; lia.
    + rewrite (proj2 (Z.eqb_neq _ _)) by congruence. simpl. lia.
  - case_if; [discriminate|]. intros Hw h. injection Hw as <-. simpl. rewrite loaded_keys_insert.
    case_decide; subst; apply Hb.
Qed.

Lemma write_keys_bound card rows l l' :
  (forall h, hour_keys h rows <= default 0 (card !! h) <= maxTrafficKeysPerHour) ->
  rfold (write_key card) (mkLoop rows ∅ ∅ ∅) l = Ok l' ->
  forall h, hour_keys h (lp_rows l') <= loaded_keys card (lp_keys l') h <= maxTrafficKeysPerHour.
Proof.
  intros Hb.
  apply (rfold_inv (write_key card) (fun lp _ => forall h,
    hour_keys h (lp_rows lp) <= loaded_keys card (lp_keys lp) h <= maxTrafficKeysPerHour)).
  - intros lp kv _ lp' Hlp Hw. by eapply write_key_bound.
  - intros h. unfold loaded_keys. simpl. rewrite lookup_empty. apply Hb.
Qed.

Lemma is_overflow_key e : is_overflow (overflow_key e) = true.
Proof. unfold is_overflow. apply bool_decide_eq_true. by destruct e. Qed.

Lemma overflow_keys h l : forall rows, hour_keys h (foldl write_overflow rows l) = hour_keys h rows.
Proof.
  induction l as [|e l IH]; intros rows; simpl; [done|]. rewrite IH, write_overflow_put. unfold put_row.
  destruct (rows !! overflow_key e.1) eqn:E; [by apply (hour_keys_present _ _ _ _ _ E)|].
  rewrite hour_keys_new, is_overflow_key by done. by rewrite andb_false_r.
Qed.

Lemma union_keys card keys h : default 0 ((keys ∪ card) !! h) = loaded_keys card keys h.
Proof.
  unfold loaded_keys. rewrite lookup_union. destruct (keys !! h), (card !! h); reflexivity.
Qed.

(** C21. Traffic is conserved: when a batch is stored, the bytes and packets of every
    hour and direction grow by exactly those of the batch, whatever the order of the
    iterations over maps and however many keys are compacted; every column stays an
    exact integer, and an hour keeps at most 16384 keys besides its overflow rows. *)
Theorem traffic_conserved o now traffic t r t' r' :
  traffic_ok t -> Forall item_wf traffic ->
  (forall s h d, hour_total s h d (tt_rows t) + batch_total s h d traffic <= i64_max) ->
  addTrafficBatch o now traffic t r = Ok (t', r') ->
  traffic_ok t'
  /\ forall s h d, hour_total s h d (tt_rows t') = hour_total s h d (tt_rows t) + batch_total s h d traffic.
Proof.
  intros [Hr Hb] Hwf Hroom. unfold addTrafficBatch.
  destruct traffic as [|i traffic']; [intros H; injection H as <- <-; split; [done|]; intros s h d;
    unfold batch_total, sumZ; simpl; lia|].
  set (traffic := i :: traffic') in *.
  destruct (rfold aggregate_item ∅ traffic) as [m|] eqn:Em; [|discriminate]. cbn [rbind].
  destruct (aggregate_spec traffic m Hwf Em) as [Hv Ht].
  destruct (rfold (write_key _) _ _) as [l|] eqn:El; [|discriminate]. cbn [rbind].
  destruct (write_keys_spec _ _ _ _ Hr (entries_values o m Hv)
    ltac:(intros; rewrite rest_total_entries, Ht; apply Hroom) El) as (Hr' & Ho' & Ht').
  destruct (overflow_spec (entries o (lp_overflow l)) (lp_rows l) Hr' (entries_values o _ Ho')) as [Hr'' Ht''].
  { intros s h d. rewrite ov_total_entries, Ht', rest_total_entries, Ht. apply Hroom. }
  destruct (rfold (record_compaction now) _ _) as [r1|]; [|discriminate]. cbn [rbind].
  intros H. injection H as <- <-. split; [split|]; cbn [tt_rows tt_keys].
  - done.
  - intros h. rewrite overflow_keys, union_keys. by apply (write_keys_bound _ _ _ _ Hb El).
  - intros s h d. rewrite Ht'', ov_total_entries, Ht', rest_total_entries, Ht. done.
Qed.

Lemma traffic_conserved_witness :
  let at1 := unix_epoch + 5 * hour + 7 * second in
  let batch := [mkTraffic at1 "inbound" "DE" "BE" 3320 "Telekom" 1500 3 true;
                mkTraffic at1 "outbound" "DE" "BE" 3320 "Telekom" 60 1 true;
                mkTraffic at1 "inbound" "" "" 0 "" 40 1 false] in
  let full := mkTraffic' ∅ {[18000 := 16384]} in
  match addTrafficBatch in_order (fun _ => at1) batch full no_retention with
  | Ok (t', _) =>
      tt_rows t' !! overflow_key (18000, "inbound"%string) = Some (CInt 1540, CInt 4)
      /\ (traffic_ok t' /\ forall s h d, hour_total s h d (tt_rows t') = hour_total s h d (tt_rows full) + batch_total s h d batch)
  | Err _ => False
  end.
Proof.
  intros at1 batch full.
  assert (Hc : match addTrafficBatch in_order (fun _ => at1) batch full no_retention with
    | Ok (t', _) => bool_decide (tt_rows t' !! overflow_key (18000, "inbound"%string) = Some (CInt 1540, CInt 4))
    | Err _ => false end = true) by (vm_compute; reflexivity).
  destruct (addTrafficBatch in_order (fun _ => at1) batch full no_retention) as [[t' r']|] eqn:E; [|discriminate Hc].
  apply bool_decide_eq_true in Hc. split; [exact Hc|].
  apply (traffic_conserved in_order (fun _ => at1) batch full no_retention t' r') with (4 := E).
  - split; [apply map_Forall_empty|]. intros h. cbn [tt_rows tt_keys full].
    unfold hour_keys. rewrite map_sum_empty.
    destruct (decide (h = 18000)) as [->|Hne]; [vm_compute; split; discriminate|].
    rewrite lookup_singleton_ne by done. vm_compute. split; discriminate.
  - repeat constructor; vm_compute; discriminate.
  - intros s h d. unfold hour_total. cbn [tt_rows full]. rewrite map_sum_empty.
    unfold batch_total, sumZ, batch. cbn [fmap list_fmap foldr].
    repeat match goal with |- context [at_key h d ?k] => destruct (at_key h d k) end;
      destruct s; vm_compute; discriminate.
Defined.

(** ** A valid batch is stored *)

Definition item_valid (i : Traffic) : Prop :=
  tr_hour i <> 0 /\ (tr_direction i = DirectionInbound \/ tr_direction i = DirectionOutbound)
  /\ 0 < tr_bytes i /\ 0 < tr_packets i /\ tr_asn i <= 4294967295.

Lemma batch_total_cons s h d i l :
  batch_total s h d (i :: l) = weigh (at_key h d (key_of i)) (item_value s i) + batch_total s h d l.
Proof. reflexivity. Qed.

Lemma batch_total_nonneg s h d l : Forall item_wf l -> 0 <= batch_total s h d l.
Proof.
  intros Hl. apply sumZ_nonneg, Forall_fmap. eapply Forall_impl; [exact Hl|].
  intros i [Hb Hp]. simpl. apply weigh_nonneg. by destruct s.
Qed.

Lemma agg_total_row s m k v :
  values_ok m -> m !! k = Some v -> side s v <= agg_total s (tk_hour k) (tk_direction k) m.
Proof.
  intros Hm Hk.
  assert (Ha : weigh (at_key (tk_hour k) (tk_direction k) k) (side s v) = side s v)
    by (by rewrite (proj2 (at_key_spec _ _ k) eq_refl)).
  rewrite <- Ha.
  apply (map_sum_lookup_le (fun k' v => weigh (at_key (tk_hour k) (tk_direction k) k') (side s v))); [|done].
  intros k' v' Hk'. apply weigh_nonneg. by apply (Hm _ _ Hk').
Qed.

Lemma item_wf_valid i : item_valid i -> item_wf i.
Proof. intros (_ & _ & Hb & Hp & _). split; lia. Qed.

Lemma aggregate_total traffic :
  Forall item_valid traffic -> (forall s h d, batch_total s h d traffic <= i64_max) ->
  exists m, rfold aggregate_item ∅ traffic = Ok m /\ Z.of_nat (size m) <= lenZ traffic.
Proof.
  intros Hv Hroom.
  pose (P := fun (m : gmap trafficKey totals) rest => Forall item_valid rest /\ values_ok m
    /\ (forall s h d, agg_total s h d m + batch_total s h d rest <= i64_max)
    /\ Z.of_nat (size m) + lenZ rest <= lenZ traffic).
  destruct (rfold_total aggregate_item P traffic ∅) as (m & Hm & _ & _ & _ & Hs).
  - intros m i rest (Hr & Hm & Ht & Hsz). apply Forall_cons in Hr as [Hi Hr].
    pose proof Hi as (Hh & Hd & Hb & Hp & Ha).
    assert (Hval : forall s, side s (default (0, 0) (m !! key_of i)) + item_value s i <= i64_max).
    { intros s. specialize (Ht s (tk_hour (key_of i)) (tk_direction (key_of i))).
      rewrite batch_total_cons, (proj2 (at_key_spec _ _ (key_of i)) eq_refl) in Ht. cbn [weigh] in Ht.
      pose proof (batch_total_nonneg s (tk_hour (key_of i)) (tk_direction (key_of i)) rest
        (Forall_impl _ _ _ Hr item_wf_valid)).
      assert (side s (default (0, 0) (m !! key_of i)) <= agg_total s (tk_hour (key_of i)) (tk_direction (key_of i)) m); [|lia].
      destruct (m !! key_of i) as [v|] eqn:Ek; [by apply agg_total_row|].
      transitivity 0; [by destruct s|]. apply map_sum_nonneg. intros k v Hk. apply weigh_nonneg. by apply (Hm _ _ Hk). }
    assert (Hok : exists m', aggregate_item m i = Ok m' /\ Z.of_nat (size m') <= Z.of_nat (size m) + 1).
    { unfold aggregate_item. unfold is_zero. rewrite (proj2 (Z.eqb_neq _ _)) by done.
      destruct (negb _ && negb _) eqn:Ed.
      { bool_to_prop. destruct Hd as [Hd|Hd]; rewrite Hd in *; discriminate. }
      pose proof (Hval true) as H1. pose proof (Hval false) as H2. cbn [side item_value] in H1, H2.
      assert (Hcur : 0 <= (default (0, 0) (m !! key_of i)).1 /\ 0 <= (default (0, 0) (m !! key_of i)).2).
      { destruct (m !! key_of i) as [v|] eqn:Ek; [|simpl; lia]. simpl. split; [apply (Hm _ _ Ek true)|apply (Hm _ _ Ek false)]. }
      destruct (default (0, 0) (m !! key_of i)) as [b p]. cbn [fst snd] in *.
      rewrite !(proj2 (Z.eqb_neq _ _)) by lia. do 5 (rewrite (proj2 (Z.ltb_ge _ _)) by lia). cbn [orb].
      eexists. split; [reflexivity|]. rewrite map_size_insert. destruct (m !! key_of i); unfold id; lia. }
    destruct Hok as (m' & Hm' & Hsz'). exists m'. split; [done|].
    destruct (aggregate_item_spec m i m' Hm (item_wf_valid i Hi) Hm') as [Hv' Ht'].
    split; [done|]. split; [done|]. split.
    + intros s h d. specialize (Ht s h d). rewrite batch_total_cons in Ht. rewrite Ht'. lia.
    + rewrite lenZ_cons in Hsz. lia.
  - split; [done|]. split; [apply map_Forall_empty|]. split; [|rewrite map_size_empty; lia].
    intros s h d. unfold agg_total. rewrite map_sum_empty. specialize (Hroom s h d). lia.
  - exists m. split; [done|]. unfold lenZ in *. simpl in Hs. lia.
Qed.

Lemma write_keys_total card rows l :
  Forall (fun kv : trafficKey * totals => forall s, 0 <= side s kv.2) l ->
  (forall s h d, rest_total s h d l <= i64_max) ->
  exists l', rfold (write_key card) (mkLoop rows ∅ ∅ ∅) l = Ok l'
    /\ map_Forall (fun _ c => 0 <= c) (lp_compacted l') /\ Z.of_nat (size (lp_compacted l')) <= lenZ l.
Proof.
  intros Hl Hroom.
  pose (P := fun lp rest => Forall (fun kv : trafficKey * totals => forall s, 0 <= side s kv.2) rest
    /\ values_ok (lp_overflow lp)
    /\ (forall s h d, aside s h d (lp_overflow lp) + rest_total s h d rest <= i64_max)
    /\ map_Forall (fun _ c => 0 <= c) (lp_compacted lp)
    /\ Z.of_nat (size (lp_compacted lp)) + lenZ rest <= lenZ l).
  destruct (rfold_total (write_key card) P l (mkLoop rows ∅ ∅ ∅)) as (l' & Hl' & _ & _ & _ & Hc & Hs).
  - intros lp [k v] rest (Hv & Ho & Ht & Hc & Hs). apply Forall_cons in Hv as [Hk Hv]. simpl in Hk.
    rewrite lenZ_cons in Hs.
    assert (Hrest : forall s h d, aside s h d (lp_overflow lp) + rest_total s h d rest <= i64_max).
    { intros s h d. specialize (Ht s h d). rewrite rest_total_cons in Ht.
      pose proof (weigh_nonneg (at_key h d k) (side s v) (Hk s)). lia. }
    unfold write_key. destruct (lp_rows lp !! k); [|case_if].
    1,2: eexists; (split; [reflexivity|]); split; [done|]; split; [done|]; split; [done|]; split; [done|];
      cbn [lp_compacted]; lia.
    set (current := default (0, 0) (lp_overflow lp !! (tk_hour k, tk_direction k))).
    assert (Hcur : forall s, 0 <= side s current
      /\ side s current = aside s (tk_hour k) (tk_direction k) (lp_overflow lp)).
    { intros s. subst current. unfold aside. destruct (lp_overflow lp !! _) as [c|] eqn:Ec; simpl.
      - split; [by apply (Ho _ _ Ec)|done].
      - by destruct s. }
    assert (Hsum : forall s, side s current + side s v <= i64_max).
    { intros s. specialize (Ht s (tk_hour k) (tk_direction k)). rewrite rest_total_cons in Ht.
      rewrite (proj2 (at_key_spec _ _ k) eq_refl) in Ht. cbn [weigh] in Ht. destruct (Hcur s) as [_ ->].
      pose proof (rest_total_nonneg s (tk_hour k) (tk_direction k) rest Hv). lia. }
    clearbody current. pose proof (Hsum true) as Hs1. pose proof (Hsum false) as Hs2. cbn [side] in Hs1, Hs2.
    do 2 rewrite (proj2 (Z.ltb_ge _ _)) by lia. cbn [orb].
    eexists. split; [reflexivity|]. split; [done|]. cbn [lp_overflow lp_compacted]. split; [|split; [|split]].
    + apply map_Forall_insert_2; [|done]. intros s. destruct (Hcur s) as [Hn _]. specialize (Hk s). specialize (Hsum s).
      destruct s; cbn [side fst snd] in *; lia.
    + intros s h d. destruct (at_key h d k) eqn:Ea.
      * apply at_key_spec in Ea. injection Ea as -> ->. specialize (Ht s (tk_hour k) (tk_direction k)).
        rewrite rest_total_cons, (proj2 (at_key_spec _ _ k) eq_refl) in Ht. cbn [weigh] in Ht.
        destruct (Hcur s) as [_ Heq]. rewrite <- Heq in Ht. unfold aside. rewrite lookup_insert_eq.
        destruct s; cbn [from_option side fst snd] in *; lia.
      * unfold aside. rewrite lookup_insert_ne; [apply Hrest|]. intros E1. symmetry in E1. apply at_key_spec in E1. congruence.
    + apply map_Forall_insert_2; [|done]. destruct (lp_compacted lp !! tk_hour k) eqn:Ec; simpl; [|lia].
      pose proof (Hc _ _ Ec). simpl in *. lia.
    + rewrite map_size_insert. destruct (lp_compacted lp !! tk_hour k); unfold id; lia.
  - split; [done|]. split; [apply map_Forall_empty|]. split; [|split; [apply map_Forall_empty|]].
    + intros s h d. cbn [lp_overflow]. unfold aside. rewrite lookup_empty. simpl. apply Hroom.
    + cbn [lp_compacted]. rewrite map_size_empty. lia.
  - exists l'. split; [done|]. split; [done|]. unfold lenZ in *. simpl in Hs. lia.
Qed.

Lemma record_compactions_total now l : forall r,
  (forall h, now h <> 0) -> Forall (fun e : Z * Z => 0 <= e.2) l -> ledger_ok r ->
  rn_evicted r + lenZ (rn_ledger r) + lenZ l <= i64_max ->
  exists r', rfold (record_compaction now) r l = Ok r' /\ ledger_ok r'
    /\ rn_evicted r' + lenZ (rn_ledger r') <= rn_evicted r + lenZ (rn_ledger r) + lenZ l.
Proof.
  induction l as [|e l IH]; intros r Hnow Hl Hr Hroom; simpl.
  { exists r. split; [done|]. split; [done|]. unfold lenZ. simpl. lia. }
  apply Forall_cons in Hl as [He Hl]. rewrite lenZ_cons in Hroom. pose proof (lenZ_nonneg l).
  destruct (recordRetention_total "traffic_hourly" "cardinality_compaction" e.2 (e.1 * 1000) ((e.1 + 3600) * 1000)
    (now e.1) r Hr ltac:(lia) eq_refl eq_refl He ltac:(lia) (Hnow _)) as (r1 & Hr1 & Hle).
  unfold record_compaction at 1. rewrite Hr1. cbn [retained rbind].
  destruct (IH r1 Hnow Hl (recordRetention_kept _ _ _ _ _ _ _ _ Hr Hr1) ltac:(lia)) as (r2 & Hr2 & Hok & Hle2).
  exists r2. split; [done|]. split; [done|]. rewrite lenZ_cons. lia.
Qed.

(** A batch of valid items whose sums fit is stored, while ledger ids last. *)
Lemma addTrafficBatch_total o now traffic t r :
  Forall item_valid traffic -> (forall s h d, batch_total s h d traffic <= i64_max) ->
  (forall h, now h <> 0) -> ledger_ok r ->
  rn_evicted r + lenZ (rn_ledger r) + lenZ traffic <= i64_max ->
  exists t' r', addTrafficBatch o now traffic t r = Ok (t', r') /\ ledger_ok r'
    /\ rn_evicted r' + lenZ (rn_ledger r') <= rn_evicted r + lenZ (rn_ledger r) + lenZ traffic.
Proof.
  intros Hv Hsum Hnow Hr Hroom. unfold addTrafficBatch.
  destruct traffic as [|i traffic']; [exists t, r; split; [done|]; split; [done|]; unfold lenZ; simpl; lia|].
  set (traffic := i :: traffic') in *.
  destruct (aggregate_total traffic Hv Hsum) as (m & Em & Hsize). rewrite Em. cbn [rbind].
  destruct (aggregate_spec traffic m (Forall_impl _ _ _ Hv item_wf_valid) Em) as [Hm Ht].
  destruct (write_keys_total (tt_keys t) (tt_rows t) (entries o m) (entries_values o m Hm)) as (l & El & Hc & Hs).
  { intros s h d. rewrite rest_total_entries, Ht. apply Hsum. }
  rewrite El. cbn [rbind].
  assert (Hlen : forall {V} (m : gmap Z V), lenZ (entries o m) = Z.of_nat (size m)).
  { intros V m'. unfold lenZ. by rewrite (entries_perm o m'), length_map_to_list. }
  assert (Hlen' : lenZ (entries o m) = Z.of_nat (size m)).
  { unfold lenZ. by rewrite (entries_perm o m), length_map_to_list. }
  destruct (record_compactions_total now (entries o (lp_compacted l)) r Hnow) as (r' & Er & Hok & Hle); [|done| |].
  - apply Forall_forall. intros [h c] Hin%elem_of_entries. by apply (Hc _ _ Hin).
  - rewrite Hlen. lia.
  - rewrite Er. cbn [rbind]. eexists _, _. split; [reflexivity|]. split; [done|]. rewrite Hlen in Hle. lia.
Qed.
