(* ===== verification/SensorCommit.v ===== *)
(** * Commits of sensor batches

    [internal/store/sensor_commits.go]: collector health, traffic and the watermark
    of an interface and session are committed in one transaction; a sequence that was
    committed is only counted as a duplicate.  At most 64 watermarks are kept, and
    what the retired ones had seen is remembered as one instant. *)

From S2P Require Export Traffic.

Definition MaxSensorWatermarks : Z := 64.

(** [SensorWatermark].  The health is stored as JSON, which reads back as it was
    written. *)
Record SensorWatermark := mkWatermark {
  w_session : string;
  w_interface : string;
  w_sequence : Z;
  w_sent_at : time;
  w_committed_at : time;
  w_events : bool;
  w_notifications : bool;
  w_complete : bool;
  w_reason : string;
  w_gaps : Z;
  w_duplicates : Z;
  w_health : CollectorHealth }.

Definition no_watermark : SensorWatermark :=
  mkWatermark "" "" 0 time_zero time_zero false false false "" 0 0 zero_health.

Inductive commit_failure :=
| InvalidIdentity
| InvalidBatch (e : batch_error)
| InconsistentCompletion
| InvalidReason
| WatermarkInvalid
| IncompleteDataset
| NonmonotonicSession
| HealthReset (e : delta_error)
| GapsExhausted
| StoreFailed (e : store_error)
| DatabaseFailed.

Definition stored_result {A} (r : result store_error A) : result commit_failure A :=
  match r with Ok a => Ok a | Err e => Err (StoreFailed e) end.

(** A row of [sensor_watermarks]; the table is in the order of its row ids.  Times
    are microseconds and milliseconds of Unix time. *)
Record watermark_row := mkWatermarkRow {
  wr_session : string;
  wr_interface : string;
  wr_sequence : Z;
  wr_sent_us : Z;
  wr_committed_ms : Z;
  wr_events : bool;
  wr_notifications : bool;
  wr_complete : bool;
  wr_reason : string;
  wr_gaps : Z;
  wr_duplicates : Z;
  wr_health : CollectorHealth }.

Definition row_key (r : watermark_row) : string * string := (wr_session r, wr_interface r).

Definition commit_reasons : list string :=
  ["committed"; "derived_events_pending"; "derived_events_rejected"; "notification_rejected"].

(** [decodeSensorHealth]. *)
Definition watermark_ok (w : SensorWatermark) : bool :=
  ValidSessionID (w_session w) && ValidInterfaceName (w_interface w)
  && negb (w_sequence w =? 0) && (w_sequence w <=? i64_max)
  && year_in_range (w_sent_at w) 0 && year_in_range (w_committed_at w) 0
  && Bool.eqb (w_complete w) (w_reason w =?s "committed")
  && implb (w_complete w) (w_events w && w_notifications w)
  && one_of commit_reasons (w_reason w)
  && is_ok (Delta (w_health w) zero_health).

Definition watermark_of (r : watermark_row) : SensorWatermark :=
  mkWatermark (wr_session r) (wr_interface r) (wr_sequence r) (of_unix_micro (wr_sent_us r))
    (of_unix_milli (wr_committed_ms r)) (wr_events r) (wr_notifications r) (wr_complete r)
    (wr_reason r) (wr_gaps r) (wr_duplicates r) (wr_health r).

Definition row_of (k : string * string) (rows : list watermark_row) : option watermark_row :=
  find (fun r => bool_decide (row_key r = k)) rows.

(** [readSensorWatermark]. *)
Definition readSensorWatermark (session name : string) (rows : list watermark_row)
    : result commit_failure (option SensorWatermark) :=
  match row_of (session, name) rows with
  | None => Ok None
  | Some r => if watermark_ok (watermark_of r) then Ok (Some (watermark_of r)) else Err WatermarkInvalid
  end.

(** What the transaction reads and writes: the watermarks, [retired_before_us], the
    coverage gaps, the ledger, the hourly health and the hourly traffic. *)
Record SensorDB := mkSensorDB {
  sd_rows : list watermark_row;
  sd_retired : Z;
  sd_gaps : gaps;
  sd_retention : Retention;
  sd_health : gmap Z health_row;
  sd_traffic : TrafficTables }.

Definition set_rows (rows : list watermark_row) (d : SensorDB) : SensorDB :=
  mkSensorDB rows (sd_retired d) (sd_gaps d) (sd_retention d) (sd_health d) (sd_traffic d).
Definition set_retired (us : Z) (d : SensorDB) : SensorDB :=
  mkSensorDB (sd_rows d) us (sd_gaps d) (sd_retention d) (sd_health d) (sd_traffic d).
Definition set_ledger (g : gaps) (r : Retention) (d : SensorDB) : SensorDB :=
  mkSensorDB (sd_rows d) (sd_retired d) g r (sd_health d) (sd_traffic d).
Definition set_sums (h : gmap Z health_row) (t : TrafficTables) (r : Retention) (d : SensorDB) : SensorDB :=
  mkSensorDB (sd_rows d) (sd_retired d) (sd_gaps d) r h t.

Definition no_sensor_db : SensorDB := mkSensorDB [] 0 [] no_retention ∅ (mkTraffic' ∅ ∅).

(** [sensorACK]. *)
Definition sensorACK (b : Batch) (w : SensorWatermark) (duplicate : bool) : CommitACK :=
  let unknown := duplicate && (b_sequence b <? w_sequence w) in
  mkACK Version (b_session b) (b_interface b) (b_sequence b) (w_sequence w) true true
    (w_events w && negb unknown) (w_notifications w && negb unknown) (w_complete w && negb unknown)
    duplicate (if unknown then "duplicate_history_unknown" else w_reason w).

(** The acknowledgement of a failure. *)
Definition failure_ack (b : Batch) (committed : Z) (reason : string) : CommitACK :=
  mkACK Version (b_session b) (b_interface b) (b_sequence b) committed false false false false false false reason.

(** The readings of the clock during one transaction. *)
Record commit_clock := mkClock {
  ck_gap : time;
  ck_compaction : Z -> time;
  ck_partial : time;
  ck_commit : time;
  ck_retire : time }.

(** [MAX(sent_at_us)] of an interface, 0 when there is none. *)
Definition previous_end (name : string) (rows : list watermark_row) : Z :=
  match wr_sent_us <$> filter (fun r => wr_interface r = name) rows with
  | [] => 0
  | us :: l => foldr Z.max us l
  end.

(** The derived results of the caller that may be committed. *)
Definition completion_ok (events notifications complete : bool) (reason : string) : bool :=
  Bool.eqb complete (reason =?s "committed") && implb complete (events && notifications).

(** The checks before the transaction. *)
Definition commit_admitted (b : Batch) (events notifications complete : bool) (reason : string)
    : result commit_failure Batch :=
  if (b_version b <? 5) || negb (ValidSessionID (b_session b)) || (b_sequence b =? 0)
     || (i64_max <? b_sequence b) || negb (ValidInterfaceName (b_interface b)) || is_zero (b_sent_at b)
  then Err InvalidIdentity
  else
    let '(b, verdict) := ValidateAt b (b_sent_at b) in
    match verdict with
    | Err e => Err (InvalidBatch e)
    | Ok _ =>
        if negb (completion_ok events notifications complete reason) then Err InconsistentCompletion
        else if negb (one_of commit_reasons reason) then Err InvalidReason
        else Ok b
    end.

(** The sequences and the time between the last committed observation of the
    interface and this one. *)
Definition window_start (b : Batch) : time := time_add (b_sent_at b) (- (b_interval_ms b * millisecond)).
Definition gap_count (b : Batch) (w : option SensorWatermark) : Z :=
  match w with Some w => b_sequence b - w_sequence w - 1 | None => b_sequence b - 1 end.

Definition record_gap (b : Batch) (count previousEnd : Z) (now : time) (d : SensorDB)
    : result commit_failure SensorDB :=
  let windowStart := window_start b in
  let gapStart := if 0 <? previousEnd then of_unix_micro previousEnd else windowStart in
  if (0 <? count) || (millisecond <? time_sub windowStart gapStart) then
    let gapStart := if before windowStart gapStart then windowStart else gapStart in
    let reason := if 0 <? count then "sensor_sequence_gap"%string else "sensor_observation_gap"%string in
    let? (g, r) := stored_result (retained (insertSensorGap reason gapStart windowStart count now (sd_gaps d) (sd_retention d))) in
    Ok (set_ledger g r d)
  else Ok d.

(** What the batch adds to the hourly tables, and the gap of a partial result. *)
Definition record_observation (o : map_order) (ck : commit_clock) (b : Batch) (before : CollectorHealth)
    (traffic : list Traffic) (complete : bool) (d : SensorDB) : result commit_failure SensorDB :=
  match Delta (b_health b) before with
  | Err e => Err (HealthReset e)
  | Ok delta =>
      let? health := stored_result (recordBatchHealth (b_sent_at b) delta (sd_health d)) in
      let? (t, r) := stored_result (addTrafficBatch o (ck_compaction ck) traffic (sd_traffic d) (sd_retention d)) in
      let d := set_sums health t r d in
      if complete then Ok d
      else
        let? (g, r) := stored_result (retained (insertSensorGap "sensor_derived_events_partial" (window_start b)
                         (b_sent_at b) 0 (ck_partial ck) (sd_gaps d) (sd_retention d))) in
        Ok (set_ledger g r d)
  end.

(** The upsert: an update keeps the row's place and its count of duplicates. *)
Definition watermark_row_of (w : SensorWatermark) : watermark_row :=
  mkWatermarkRow (w_session w) (w_interface w) (w_sequence w) (unix_micro (w_sent_at w))
    (unix_milli (w_committed_at w)) (w_events w) (w_notifications w) (w_complete w) (w_reason w)
    (w_gaps w) (w_duplicates w) (w_health w).

Definition keep_duplicates (old new : watermark_row) : watermark_row :=
  mkWatermarkRow (wr_session new) (wr_interface new) (wr_sequence new) (wr_sent_us new) (wr_committed_ms new)
    (wr_events new) (wr_notifications new) (wr_complete new) (wr_reason new) (wr_gaps new)
    (wr_duplicates old) (wr_health new).

Definition upsert_row (r : watermark_row) (rows : list watermark_row) : list watermark_row :=
  if some (row_of (row_key r) rows)
  then (fun old => if bool_decide (row_key old = row_key r) then keep_duplicates old r else old) <$> rows
  else rows ++ [r].

(** [ORDER BY committed_at,rowid LIMIT 1]. *)
Definition oldest_row (rows : list watermark_row) : option watermark_row :=
  foldr (fun r best => match best with
                       | Some r' => if wr_committed_ms r' <? wr_committed_ms r then Some r' else Some r
                       | None => Some r end) None rows.

Definition remove_row (k : string * string) (rows : list watermark_row) : list watermark_row :=
  filter (fun r => row_key r <> k) rows.

(** One watermark too many is retired. *)
Definition retire_watermark (committed now : time) (d : SensorDB) : result commit_failure SensorDB :=
  if lenZ (sd_rows d) <=? MaxSensorWatermarks then Ok d
  else
    match oldest_row (sd_rows d) with
    | None => Err DatabaseFailed
    | Some oldest =>
        let d := set_retired (Z.max (sd_retired d) (wr_sent_us oldest)) (set_rows (remove_row (row_key oldest) (sd_rows d)) d) in
        let? (g, r) := stored_result (retained (insertSensorGap "sensor_watermark_retired" committed committed 0 now
                         (sd_gaps d) (sd_retention d))) in
        Ok (set_ledger g r d)
    end.

(** A duplicate only counts. *)
Definition count_duplicate (k : string * string) (rows : list watermark_row) : list watermark_row :=
  (fun r => if bool_decide (row_key r = k) then
     mkWatermarkRow (wr_session r) (wr_interface r) (wr_sequence r) (wr_sent_us r) (wr_committed_ms r)
       (wr_events r) (wr_notifications r) (wr_complete r) (wr_reason r) (wr_gaps r)
       (Z.min i64_max (wr_duplicates r + 1)) (wr_health r)
   else r) <$> rows.

(** [CommitSensorBatch]: the acknowledgement and the tables, or the failure that
    rolled the transaction back. *)
Definition CommitSensorBatch (o : map_order) (ck : commit_clock) (b : Batch) (traffic : list Traffic)
    (events notifications complete : bool) (reason : string) (d : SensorDB)
    : CommitACK * result commit_failure SensorDB :=
  let fail committed cause e := (failure_ack b committed cause, Err e) in
  match commit_admitted b events notifications complete reason with
  | Err e => fail 0 "storage_failed"%string e
  | Ok b =>
      match readSensorWatermark (b_session b) (b_interface b) (sd_rows d) with
      | Err e => fail 0 "storage_failed"%string e
      | Ok w =>
          let before := default no_watermark w in
          if some w && (b_sequence b <=? w_sequence before) then
            (sensorACK b before true, Ok (set_rows (count_duplicate (b_session b, b_interface b) (sd_rows d)) d))
          else if negb (lenZ traffic =? lenZ (b_flows b))
          then fail (w_sequence before) "storage_failed"%string IncompleteDataset
          else
            let previousEnd := previous_end (b_interface b) (sd_rows d) in
            let us := unix_micro (b_sent_at b) in
            if (negb (some w) && (us <=? sd_retired d)) || (us <=? previousEnd)
            then fail (w_sequence before) "retired_or_nonmonotonic_session"%string NonmonotonicSession
            else
              let count := gap_count b w in
              let commit :=
                let? d := record_gap b count previousEnd (ck_gap ck) d in
                let? d := record_observation o ck b (w_health before) traffic complete d in
                if i64_max - count <? w_gaps before then Err GapsExhausted
                else
                  let next := mkWatermark (b_session b) (b_interface b) (b_sequence b) (b_sent_at b) (ck_commit ck)
                                events notifications complete reason (w_gaps before + count)
                                (w_duplicates before) (b_health b) in
                  let? d := retire_watermark (ck_commit ck) (ck_retire ck)
                              (set_rows (upsert_row (watermark_row_of next) (sd_rows d)) d) in
                  Ok (next, d) in
              match commit with
              | Err e => fail (w_sequence before) "storage_failed"%string e
              | Ok (next, d) => (sensorACK b next false, Ok d)
              end
      end
  end.

(** ** Histories of commits *)

(** A call may fail before the transaction commits, or commit and lose its answer. *)
Inductive call_fate := NotRun | Answered | AnswerLost.

Record commit_call := mkCall {
  cc_order : map_order;
  cc_clock : commit_clock;
  cc_batch : Batch;
  cc_traffic : list Traffic;
  cc_events : bool;
  cc_notifications : bool;
  cc_complete : bool;
  cc_reason : string;
  cc_fate : call_fate }.

(** The batch is [Some] when the transaction applied it. *)
Definition run_commit (d : SensorDB) (c : commit_call) : SensorDB * option Batch :=
  match cc_fate c with
  | NotRun => (d, None)
  | _ =>
      match CommitSensorBatch (cc_order c) (cc_clock c) (cc_batch c) (cc_traffic c) (cc_events c)
              (cc_notifications c) (cc_complete c) (cc_reason c) d with
      | (ack, Ok d') => (d', if ack_duplicate ack then None else Some (cc_batch c))
      | (_, Err _) => (d, None)
      end
  end.

Fixpoint run_commits (d : SensorDB) (cs : list commit_call) : SensorDB * list Batch :=
  match cs with
  | [] => (d, [])
  | c :: cs =>
      let '(d, b) := run_commit d c in
      let '(d, bs) := run_commits d cs in
      (d, match b with Some b => b :: bs | None => bs end)
  end.

(** The watermarks that a step retired. *)
Definition retired_rows (before after : SensorDB) : list watermark_row :=
  filter (fun r => row_of (row_key r) (sd_rows after) = None) (sd_rows before).

(** ** Rows *)

Lemma row_of_Some k rows r : row_of k rows = Some r -> r ∈ rows /\ row_key r = k.
Proof.
  unfold row_of. intros H. apply find_some in H as [Hin Hk].
  split; [by apply list_elem_of_In|by apply bool_decide_eq_true in Hk].
Qed.

Lemma row_of_None k rows : row_of k rows = None <-> k ∉ row_key <$> rows.
Proof.
  unfold row_of. induction rows as [|r rows IH]; simpl; [split; [by intros _ ?%elem_of_nil|done]|].
  rewrite not_elem_of_cons. case_bool_decide; [split; [discriminate|by intros [? _]]|].
  rewrite IH. split; [intros; split; [congruence|done]|by intros [_ ?]].
Qed.

Lemma row_of_elem k rows r :
  NoDup (row_key <$> rows) -> r ∈ rows -> row_key r = k -> row_of k rows = Some r.
Proof.
  intros Hnd Hr <-. destruct (row_of (row_key r) rows) as [r'|] eqn:E.
  - apply row_of_Some in E as [Hr' Hk]. f_equal.
    apply list_elem_of_lookup in Hr as [i Hi]. apply list_elem_of_lookup in Hr' as [j Hj].
    assert (i = j) as <-; [|congruence].
    apply (NoDup_lookup (row_key <$> rows) i j (row_key r) Hnd).
    + by rewrite list_lookup_fmap, Hi.
    + by rewrite list_lookup_fmap, Hj, <- Hk.
  - apply row_of_None in E. exfalso. apply E, list_elem_of_fmap. eauto.
Qed.

Lemma keys_fmap (f : watermark_row -> watermark_row) (rows : list watermark_row) :
  (forall r, row_key (f r) = row_key r) -> row_key <$> (f <$> rows) = row_key <$> rows.
Proof. intros Hf. rewrite <- list_fmap_compose. apply list_fmap_ext. intros ? r _. apply Hf. Qed.

Lemma row_of_fmap (f : watermark_row -> watermark_row) k rows :
  (forall r, row_key (f r) = row_key r) -> row_of k (f <$> rows) = f <$> row_of k rows.
Proof.
  intros Hf. unfold row_of. induction rows as [|r rows IH]; [done|]. simpl. rewrite Hf.
  case_bool_decide; [done|]. exact IH.
Qed.

Lemma row_of_remove k k' rows :
  row_of k (remove_row k' rows) = if decide (k = k') then None else row_of k rows.
Proof.
  unfold row_of, remove_row. induction rows as [|r rows IH]; simpl; [by case_decide|].
  rewrite filter_cons. destruct (decide (row_key r <> k')) as [Hne|He]; simpl; rewrite IH.
  - case_bool_decide; [|done]. rewrite decide_False by congruence. done.
  - apply dec_stable in He. case_decide; [done|]. rewrite bool_decide_false by congruence. done.
Qed.

Lemma upsert_key_keep old r : row_key (if bool_decide (row_key old = row_key r) then keep_duplicates old r else old) = row_key old.
Proof. case_bool_decide as Hk; [|done]. by rewrite Hk. Qed.

Lemma row_of_app k r rows :
  row_of k (rows ++ [r]) = match row_of k rows with
    | Some r' => Some r' | None => if decide (row_key r = k) then Some r else None end.
Proof.
  unfold row_of. induction rows as [|r' rows IH]; simpl.
  - case_bool_decide; case_decide; done.
  - case_bool_decide; [done|exact IH].
Qed.

(** The upsert changes the row of its key only. *)
Lemma row_of_upsert k r rows :
  row_of k (upsert_row r rows) =
    if decide (k = row_key r) then
      Some (match row_of (row_key r) rows with Some old => keep_duplicates old r | None => r end)
    else row_of k rows.
Proof.
  unfold upsert_row. destruct (row_of (row_key r) rows) as [old|] eqn:E; simpl.
  - rewrite row_of_fmap by (intros; apply upsert_key_keep). case_decide as Hk.
    + subst k. rewrite E. simpl. apply row_of_Some in E as [_ ->]. by rewrite bool_decide_true.
    + destruct (row_of k rows) as [r'|] eqn:E'; [|done]. simpl. apply row_of_Some in E' as [_ ->].
      by rewrite bool_decide_false.
  - rewrite row_of_app. case_decide as Hk.
    + subst k. rewrite E. by rewrite decide_True.
    + rewrite decide_False by congruence. by destruct (row_of k rows).
Qed.

Lemma upsert_NoDup r rows : NoDup (row_key <$> rows) -> NoDup (row_key <$> upsert_row r rows).
Proof.
  intros Hnd. unfold upsert_row. destruct (row_of (row_key r) rows) as [old|] eqn:E; simpl.
  - by rewrite keys_fmap by (intros; apply upsert_key_keep).
  - rewrite fmap_app. apply NoDup_app. split; [done|]. apply row_of_None in E. split; [|apply NoDup_singleton].
    intros k Hk ->%list_elem_of_singleton. done.
Qed.

Lemma remove_NoDup k (rows : list watermark_row) : NoDup (row_key <$> rows) -> NoDup (row_key <$> remove_row k rows).
Proof.
  intros Hnd. unfold remove_row. induction rows as [|r rows IH]; [done|]. rewrite fmap_cons in Hnd.
  apply NoDup_cons in Hnd as [Hr Hnd]. rewrite filter_cons. case_decide; [|auto].
  rewrite fmap_cons. apply NoDup_cons. split; [|auto].
  intros (r' & Hk & [_ Hin]%list_elem_of_filter)%list_elem_of_fmap. apply Hr, list_elem_of_fmap. eauto.
Qed.

Lemma previous_end_le k rows r :
  row_of k rows = Some r -> wr_sent_us r <= previous_end k.2 rows.
Proof.
  intros [Hin Hk]%row_of_Some. unfold previous_end.
  assert (Hl : wr_sent_us r ∈ wr_sent_us <$> filter (fun r => wr_interface r = k.2) rows).
  { apply list_elem_of_fmap. exists r. split; [done|]. apply list_elem_of_filter. split; [|done].
    by rewrite <- Hk. }
  destruct (wr_sent_us <$> _) as [|us l]; [by apply elem_of_nil in Hl|].
  assert (Hmax : forall l us, us <= foldr Z.max us l /\ Forall (fun u => u <= foldr Z.max us l) l).
  { clear. induction l as [|v l IH]; intros us; simpl; [done|]. destruct (IH us) as [IH1 IH2].
    split; [lia|]. constructor; [lia|]. eapply Forall_impl; [exact IH2|]. simpl. lia. }
  apply elem_of_cons in Hl as [->|Hl]; [apply Hmax|].
  destruct (Hmax l us) as [_ Hf]. rewrite Forall_forall in Hf. by apply Hf.
Qed.

(** ** What an applied batch changes *)

Definition batch_key (b : Batch) : string * string := (b_session b, b_interface b).
Definition health_of (r : option watermark_row) : CollectorHealth := from_option wr_health zero_health r.

Lemma commit_admitted_same b e n c reason b' :
  commit_admitted b e n c reason = Ok b' ->
  exists fs, b' = set_flows fs b /\ ValidateAt b (b_sent_at b) = (b', Ok tt)
    /\ 5 <= b_version b /\ b_sequence b <> 0 /\ b_sequence b <= i64_max
    /\ completion_ok e n c reason = true /\ one_of commit_reasons reason = true.
Proof.
  unfold commit_admitted. destruct (_ || _) eqn:E; [discriminate|].
  destruct (ValidateAt b (b_sent_at b)) as [b1 [[]|]] eqn:Ev; [|discriminate].
  destruct (completion_ok e n c reason) eqn:Ec; [|discriminate].
  destruct (one_of commit_reasons reason) eqn:Er; [|discriminate]. intros H. injection H as <-.
  bool_to_prop. unfold ValidateAt in Ev |- *. destruct (validate_header _ _); [|discriminate].
  destruct (validate_flows _ _ _) as [fs t]. exists fs. injection Ev as <- Ht.
  done.
Qed.

(** The watermarks after a commit: the upsert, and the retirement of the oldest. *)
Inductive rows_after (r : watermark_row) (d d' : SensorDB) : Prop :=
| rows_kept :
    sd_rows d' = upsert_row r (sd_rows d) -> sd_retired d' = sd_retired d ->
    lenZ (sd_rows d') <= MaxSensorWatermarks -> rows_after r d d'
| rows_retired old :
    old ∈ upsert_row r (sd_rows d) ->
    sd_rows d' = remove_row (row_key old) (upsert_row r (sd_rows d)) ->
    sd_retired d' = Z.max (sd_retired d) (wr_sent_us old) -> rows_after r d d'.

Lemma oldest_row_elem rows r : oldest_row rows = Some r -> r ∈ rows.
Proof.
  revert r. induction rows as [|r' rows IH]; intros r; simpl; [discriminate|].
  destruct (oldest_row rows) as [best|] eqn:E.
  - case_if; intros H; injection H as <-; [|by left]. right. by apply IH.
  - intros H. injection H as <-. by left.
Qed.

(** The tables that a commit writes besides the watermarks. *)
Definition same_marks (d d' : SensorDB) : Prop := sd_rows d' = sd_rows d /\ sd_retired d' = sd_retired d.

Lemma record_gap_marks b c p now d d' :
  record_gap b c p now d = Ok d' ->
  same_marks d d' /\ sd_health d' = sd_health d /\ sd_traffic d' = sd_traffic d.
Proof.
  unfold record_gap. destruct ((0 <? c) || _); [|by intros [= <-]].
  destruct (insertSensorGap _ _ _ _ _ _ _) as [[g r]|]; [|discriminate]. cbn [retained stored_result rbind].
  by intros [= <-].
Qed.

Lemma record_observation_spec o ck b before traffic complete d d' :
  record_observation o ck b before traffic complete d = Ok d' ->
  same_marks d d'
  /\ (exists delta, Delta (b_health b) before = Ok delta
       /\ recordBatchHealth (b_sent_at b) delta (sd_health d) = Ok (sd_health d'))
  /\ exists r, addTrafficBatch o (ck_compaction ck) traffic (sd_traffic d) (sd_retention d) = Ok (sd_traffic d', r).
Proof.
  unfold record_observation. destruct (Delta _ _) as [delta|] eqn:Ed; [|discriminate].
  destruct (recordBatchHealth _ _ _) as [h|] eqn:Eh; [|discriminate]. cbn [stored_result rbind].
  destruct (addTrafficBatch _ _ _ _ _) as [[t r]|] eqn:Et; [|discriminate]. cbn [stored_result rbind].
  destruct complete.
  - intros H. injection H as <-. simpl. repeat split; eauto.
  - destruct (insertSensorGap _ _ _ _ _ _ _) as [[g r2]|]; [|discriminate]. cbn [retained stored_result rbind].
    intros H. injection H as <-. simpl. repeat split; eauto.
Qed.

Lemma retire_watermark_spec r committed now d d' :
  retire_watermark committed now (set_rows (upsert_row r (sd_rows d)) d) = Ok d' ->
  rows_after r d d' /\ sd_health d' = sd_health d /\ sd_traffic d' = sd_traffic d.
Proof.
  unfold retire_watermark. case_if.
  { intros H. injection H as <-. bool_to_prop. split; [by left|done]. }
  cbn [sd_rows set_rows]. destruct (oldest_row _) as [old|] eqn:Eo; [|discriminate].
  destruct (insertSensorGap _ _ _ _ _ _ _) as [[g r2]|]; [|discriminate]. cbn [retained stored_result rbind].
  intros H. injection H as <-. split; [|done].
  apply (rows_retired _ _ _ old); [by apply oldest_row_elem|done|done].
Qed.

(** A commit that succeeded either counted a duplicate of a sequence that its row
    had reached, or applied a batch later than everything known of its interface.  The
    indices are the flags [duplicate] and [complete] of the acknowledgement. *)
Inductive commit_effect (b : Batch) (complete : bool) (d d' : SensorDB) : bool -> bool -> Prop :=
| effect_duplicate r :
    row_of (batch_key b) (sd_rows d) = Some r -> b_sequence b <= wr_sequence r ->
    d' = set_rows (count_duplicate (batch_key b) (sd_rows d)) d ->
    commit_effect b complete d d' true (wr_complete r && negb (b_sequence b <? wr_sequence r))
| effect_applied r old delta :
    old = row_of (batch_key b) (sd_rows d) ->
    row_key r = batch_key b -> wr_sequence r = b_sequence b -> wr_sent_us r = unix_micro (b_sent_at b) ->
    wr_health r = b_health b ->
    from_option wr_sequence 0 old < b_sequence b ->
    previous_end (b_interface b) (sd_rows d) < unix_micro (b_sent_at b) ->
    (old = None -> sd_retired d < unix_micro (b_sent_at b)) ->
    rows_after r d d' ->
    Delta (b_health b) (health_of old) = Ok delta ->
    recordBatchHealth (b_sent_at b) delta (sd_health d) = Ok (sd_health d') ->
    wr_complete r = complete ->
    commit_effect b complete d d' false complete.

Lemma readSensorWatermark_Ok s i rows w :
  readSensorWatermark s i rows = Ok w ->
  w = watermark_of <$> row_of (s, i) rows /\ forall r, row_of (s, i) rows = Some r -> watermark_ok (watermark_of r) = true.
Proof.
  unfold readSensorWatermark. destruct (row_of (s, i) rows) as [r|].
  - destruct (watermark_ok (watermark_of r)) eqn:E; [|discriminate]. intros [= <-]. split; [done|]. by intros ? [= <-].
  - intros [= <-]. split; [done|discriminate].
Qed.

Lemma CommitSensorBatch_effect o ck b traffic e n c reason d ack d' :
  0 <= b_sequence b ->
  CommitSensorBatch o ck b traffic e n c reason d = (ack, Ok d') ->
  commit_effect b c d d' (ack_duplicate ack) (ack_complete ack).
Proof.
  intros Hseq. unfold CommitSensorBatch.
  destruct (commit_admitted _ _ _ _ _) as [b'|] eqn:Ea; [|discriminate].
  destruct (commit_admitted_same _ _ _ _ _ _ Ea) as (fs & -> & _ & _ & Hnz & _).
  cbn [b_session b_interface b_sequence b_sent_at b_health b_flows set_flows].
  destruct (readSensorWatermark _ _ _) as [w|] eqn:Ew; [|discriminate].
  apply readSensorWatermark_Ok in Ew as [-> _]. fold (batch_key b).
  set (old := row_of (batch_key b) (sd_rows d)).
  assert (Hbefore : w_sequence (default no_watermark (watermark_of <$> old)) = from_option wr_sequence 0 old
    /\ w_health (default no_watermark (watermark_of <$> old)) = health_of old) by (by destruct old).
  destruct Hbefore as [Hws Hwh]. rewrite Hws, Hwh. destruct (some _ && _) eqn:Edup.
  { intros [= <- <-]. apply andb_true_iff in Edup as [Hs Hle]. destruct old as [r|] eqn:Eo; [|discriminate].
    bool_to_prop. exact (effect_duplicate b c d _ r Eo Hle eq_refl). }
  destruct (negb (_ =? _)); [discriminate|]. destruct (_ || _) eqn:Eord; [discriminate|].
  destruct (record_gap _ _ _ _ _) as [d1|] eqn:E1; [|discriminate]. cbn [rbind].
  destruct (record_observation _ _ _ _ _ _ _) as [d2|] eqn:E2; [|discriminate]. cbn [rbind].
  destruct (_ <? w_gaps _); [discriminate|].
  destruct (retire_watermark _ _ _) as [d3|] eqn:E3; [|discriminate]. cbn [rbind].
  intros [= <- <-].
  apply record_gap_marks in E1 as ([Hr1 Ht1] & Hh1 & _).
  apply record_observation_spec in E2 as ([Hr2 Ht2] & (delta & Hd & Hh2) & _).
  apply retire_watermark_spec in E3 as (Hr3 & Hh3 & _).
  cbn [b_health set_flows b_sent_at] in Hd, Hh2. rewrite Hh1, <- Hh3 in Hh2.
  apply orb_false_iff in Eord as [Eret Eprev]. bool_to_prop.
  match goal with |- commit_effect _ _ _ _ _ ?y => replace y with c by (symmetry; apply andb_true_r) end.
  match type of Hr3 with rows_after ?r _ _ => apply (effect_applied b c d _ r old delta) end;
    try reflexivity; try done.
  - destruct old as [r|] eqn:Eo; simpl; [|lia]. cbn [some fmap option_fmap option_map andb] in Edup. bool_to_prop. simpl in *. lia.
  - intros Hnone. rewrite Hnone in Eret. simpl in Eret. bool_to_prop. done.
  - destruct Hr3 as [Hrows Hret Hlen|r Hin Hrows Hret].
    + left; [congruence|congruence|done].
    + apply (rows_retired _ _ _ r); congruence.
Qed.

(** ** Each batch is applied at most once *)

(** The latest time that is known for an interface and session. *)
Definition seen (k : string * string) (d : SensorDB) : Z :=
  match row_of k (sd_rows d) with Some r => wr_sent_us r | None => sd_retired d end.

Definition rows_distinct (d : SensorDB) : Prop := NoDup (row_key <$> sd_rows d).

Lemma count_duplicate_row k k' rows :
  row_of k (count_duplicate k' rows) = (fun r => if bool_decide (row_key r = k') then
     mkWatermarkRow (wr_session r) (wr_interface r) (wr_sequence r) (wr_sent_us r) (wr_committed_ms r)
       (wr_events r) (wr_notifications r) (wr_complete r) (wr_reason r) (wr_gaps r)
       (Z.min i64_max (wr_duplicates r + 1)) (wr_health r)
   else r) <$> row_of k rows.
Proof. apply row_of_fmap. intros r. by case_bool_decide. Qed.

Lemma count_duplicate_keys k rows : row_key <$> count_duplicate k rows = row_key <$> rows.
Proof. apply keys_fmap. intros r. by case_bool_decide. Qed.

Lemma seen_duplicate k k' d : seen k (set_rows (count_duplicate k' (sd_rows d)) d) = seen k d.
Proof.
  unfold seen. cbn [sd_rows set_rows]. rewrite count_duplicate_row.
  destruct (row_of k (sd_rows d)); [|done]. simpl. by case_bool_decide.
Qed.

(** The row of a key after the upsert: later for the batch's own key. *)
Lemma seen_upsert k r d :
  seen k (set_rows (upsert_row r (sd_rows d)) d) = if decide (k = row_key r) then wr_sent_us r else seen k d.
Proof.
  unfold seen. cbn [sd_rows set_rows]. rewrite row_of_upsert. case_decide; [|done].
  by destruct (row_of (row_key r) (sd_rows d)).
Qed.

Lemma rows_after_seen r d d' k :
  rows_distinct d -> rows_after r d d' ->
  rows_distinct d' /\ (if decide (k = row_key r) then wr_sent_us r else seen k d) <= seen k d'.
Proof.
  intros Hnd Ha. rewrite <- seen_upsert. pose proof (upsert_NoDup r _ Hnd) as Hnd1.
  destruct Ha as [Hrows Hret _|old Hin Hrows Hret]; unfold rows_distinct; rewrite Hrows.
  - split; [done|]. unfold seen. cbn [sd_rows set_rows sd_retired]. rewrite Hrows, Hret. done.
  - split; [by apply remove_NoDup|]. unfold seen. cbn [sd_rows set_rows sd_retired].
    rewrite Hrows, Hret, row_of_remove. case_decide as Hk.
    + subst k. rewrite (row_of_elem _ _ _ Hnd1 Hin eq_refl). lia.
    + destruct (row_of k _); lia.
Qed.

Lemma commit_effect_seen b c d d' dup complete :
  rows_distinct d -> commit_effect b c d d' dup complete ->
  rows_distinct d' /\ (forall k, seen k d <= seen k d')
  /\ (dup = false -> seen (batch_key b) d < unix_micro (b_sent_at b) <= seen (batch_key b) d').
Proof.
  intros Hnd [r Hr Hle ->|r old delta Hold Hk Hs Hus Hh Hseq Hprev Hnew Hafter _ _ _].
  - split; [|split; [intros k; by rewrite seen_duplicate|discriminate]].
    unfold rows_distinct. cbn [sd_rows set_rows]. by rewrite count_duplicate_keys.
  - assert (Hlt : seen (batch_key b) d < unix_micro (b_sent_at b)).
    { unfold seen. rewrite <- Hold. destruct old as [r0|] eqn:Eo; [|by apply Hnew].
      symmetry in Hold. pose proof (previous_end_le _ _ _ Hold) as Hp. simpl in Hp. lia. }
    split; [|split].
    + by apply (rows_after_seen r d d' (batch_key b) Hnd Hafter).
    + intros k. pose proof (proj2 (rows_after_seen r d d' k Hnd Hafter)) as Hle.
      case_decide as Hd; [|done]. subst k. rewrite Hk in *. lia.
    + intros _. pose proof (proj2 (rows_after_seen r d d' (batch_key b) Hnd Hafter)) as Hle.
      rewrite decide_True in Hle by congruence. lia.
Qed.

Lemma run_commit_effect d c d' ob :
  0 <= b_sequence (cc_batch c) -> run_commit d c = (d', ob) ->
  (d' = d /\ ob = None) \/ exists dup complete, commit_effect (cc_batch c) (cc_complete c) d d' dup complete
    /\ ob = if dup then None else Some (cc_batch c).
Proof.
  intros Hseq. unfold run_commit.
  destruct (CommitSensorBatch _ _ _ _ _ _ _ _ d) as [ack [d1|]] eqn:E;
    destruct (cc_fate c); intros [= <- <-]; try (by left); right.
  all: exists (ack_duplicate ack), (ack_complete ack); split; [by eapply CommitSensorBatch_effect|done].
Qed.

Definition sent_us (b : Batch) : Z := unix_micro (b_sent_at b).

Lemma run_commits_sorted k cs : forall d d' applied,
  rows_distinct d -> Forall (fun c => 0 <= b_sequence (cc_batch c)) cs ->
  run_commits d cs = (d', applied) ->
  StronglySorted Z.lt (sent_us <$> filter (fun b => batch_key b = k) applied)
  /\ Forall (fun b => seen (batch_key b) d < sent_us b) applied.
Proof.
  induction cs as [|c cs IH]; intros d d' applied Hnd Hseq; simpl.
  { intros [= <- <-]. by repeat constructor. }
  apply Forall_cons in Hseq as [Hc Hseq].
  destruct (run_commit d c) as [d1 ob] eqn:E1. destruct (run_commits d1 cs) as [d2 bs] eqn:E2.
  intros [= <- <-].
  destruct (run_commit_effect d c d1 ob Hc E1) as [[-> ->]|(dup & complete & Heff & ->)]; [by eapply IH|].
  destruct (commit_effect_seen _ _ _ _ _ _ Hnd Heff) as (Hnd1 & Hmono & Hb).
  destruct (IH d1 d2 bs Hnd1 Hseq E2) as [Hsort Hlater].
  assert (Hlater' : Forall (fun b => seen (batch_key b) d < sent_us b) bs).
  { eapply Forall_impl; [exact Hlater|]. intros b. specialize (Hmono (batch_key b)). simpl. lia. }
  destruct dup; [done|]. destruct (Hb eq_refl) as [Hb1 Hb2]. split; [|by constructor].
  rewrite filter_cons. case_decide as Hk; [|done]. rewrite fmap_cons. constructor; [done|].
  apply Forall_fmap, Forall_forall. intros b' [Hk' Hin]%list_elem_of_filter.
  rewrite Forall_forall in Hlater. specialize (Hlater b' Hin). unfold compose, sent_us in *.
  rewrite Hk', <- Hk in Hlater. lia.
Qed.

(** C20. A batch is applied at most once, whatever is sent again, out of order, after
    an answer was lost or after its watermark was retired: the batches of an interface
    and session that transactions apply have strictly increasing observation times. *)
Theorem committed_once k cs d applied :
  Forall (fun c => 0 <= b_sequence (cc_batch c)) cs ->
  run_commits no_sensor_db cs = (d, applied) ->
  StronglySorted Z.lt (sent_us <$> filter (fun b => batch_key b = k) applied).
Proof.
  intros Hseq Hr. by destruct (run_commits_sorted k cs _ _ _ (NoDup_nil_2 : rows_distinct no_sensor_db) Hseq Hr).
Qed.

(** ** Collector health is counted once *)

(** The [n]-th counter of a snapshot, and the sums over the hourly table and over the
    watermarks. *)
Definition counter (n : nat) (h : CollectorHealth) : Z := nth n (health_counters h) 0.
Definition recorded (n : nat) (rows : gmap Z health_row) : Z :=
  map_sum (fun _ r => int_of (nth n (hr_counters r) CReal)) rows.
Definition marked (n : nat) (rows : list watermark_row) : Z :=
  sumZ ((fun r => counter n (wr_health r)) <$> rows).

Definition health_rows_ok (rows : gmap Z health_row) : Prop :=
  map_Forall (fun _ r => length (hr_counters r) = 9%nat /\ Forall exact (hr_counters r)) rows.

Lemma counter_add n a b : counter n (health_add a b) = counter n a + counter n b.
Proof. do 9 (destruct n as [|n]; [reflexivity|]). by destruct n. Qed.

Lemma counter_zero n : counter n zero_health = 0.
Proof. do 9 (destruct n as [|n]; [reflexivity|]). by destruct n. Qed.

Lemma counter_bounds n h : health_nonneg h -> health_bounded h -> 0 <= counter n h <= MaxBatchBytes.
Proof.
  unfold health_nonneg, health_bounded, health_limits, health_counters, counter.
  rewrite !Forall_cons, !Forall2_cons. intros Hn Hb.
  do 9 (destruct n as [|n]; [cbn [health_counters nth]; unfold MaxBatchBytes, MaxBatchPackets in *; lia|]).
  destruct n; vm_compute; split; discriminate.
Qed.

Lemma nth_zip_add n (cs : list column) (zs : list Z) :
  length cs = length zs -> (n < length cs)%nat ->
  nth n (zip_with sql_add cs zs) CReal = sql_add (nth n cs CReal) (nth n zs 0).
Proof.
  revert cs zs. induction n as [|n IH]; intros [|c cs] [|z zs] Hl Hn; simpl in *; try lia; [done|].
  apply IH; lia.
Qed.

Lemma recorded_nonneg n rows : health_rows_ok rows -> 0 <= recorded n rows.
Proof.
  intros Hr. apply map_sum_nonneg. intros h r Hh. destruct (Hr _ _ Hh) as [_ Hx].
  rewrite Forall_forall in Hx. destruct (nth_in_or_default n (hr_counters r) CReal) as [Hin|Hd]; [|by rewrite Hd].
  apply list_elem_of_In, Hx in Hin. by apply exact_int.
Qed.

Lemma nth_exact n cs : Forall exact cs -> (n < length cs)%nat -> exact (nth n cs CReal).
Proof.
  intros Hx Hn. rewrite Forall_forall in Hx. apply Hx, list_elem_of_In, nth_In. lia.
Qed.

(** [recordBatchHealth] adds the delta, while the sums have room. *)
Lemma recordBatchHealth_spec sent h rows rows' :
  health_rows_ok rows -> health_nonneg h ->
  (forall n, recorded n rows + counter n h <= i64_max) ->
  recordBatchHealth sent h rows = Ok rows' ->
  health_rows_ok rows' /\ forall n, recorded n rows' = recorded n rows + counter n h.
Proof.
  intros Hr Hh Hroom. unfold recordBatchHealth. case_if; [discriminate|]. intros [= <-].
  clear E.
  assert (Hnn : forall n, 0 <= counter n h).
  { intros n. unfold counter. destruct (nth_in_or_default n (health_counters h) 0) as [Hin|Hd]; [|by rewrite Hd].
    unfold health_nonneg in Hh. rewrite Forall_forall in Hh. by apply Hh, list_elem_of_In. }
  destruct (rows !! hour_unix sent) as [r|] eqn:Er.
  - destruct (Hr _ _ Er) as [Hlen Hex].
    assert (Hle : forall n, int_of (nth n (hr_counters r) CReal) <= recorded n rows).
    { intros n. apply (map_sum_lookup_le (fun _ r => int_of (nth n (hr_counters r) CReal)) rows (hour_unix sent)); [|done].
      intros h' r' Hh'. destruct (Hr _ _ Hh') as [Hl' Hx']. destruct (decide (n < 9)%nat).
      - apply exact_int, nth_exact; [done|lia].
      - rewrite nth_overflow by lia. done. }
    assert (Hadd : forall n, (n < 9)%nat ->
      nth n (zip_with sql_add (hr_counters r) (health_counters h)) CReal
        = CInt (int_of (nth n (hr_counters r) CReal) + counter n h)
      /\ exact (nth n (zip_with sql_add (hr_counters r) (health_counters h)) CReal)).
    { intros n Hn. rewrite nth_zip_add by (rewrite ?Hlen; done). fold (counter n h).
      apply exact_add; [apply nth_exact; [done|lia]|done|]. specialize (Hle n). specialize (Hroom n). lia. }
    assert (Hzlen : length (zip_with sql_add (hr_counters r) (health_counters h)) = 9%nat)
      by (rewrite length_zip_with, Hlen; done).
    split.
    + apply map_Forall_insert_2; [|done]. cbn [hr_counters]. split; [done|].
      apply Forall_forall. intros c Hc. apply list_elem_of_In, (In_nth _ _ CReal) in Hc as (n & Hn & <-).
      apply Hadd. lia.
    + intros n. unfold recorded. rewrite (map_sum_insert _ _ _ _ _ Er). cbn [hr_counters].
      destruct (decide (n < 9)%nat) as [Hn|Hn].
      * destruct (Hadd n Hn) as [-> _]. cbn [int_of]. lia.
      * rewrite !nth_overflow by (rewrite ?Hzlen, ?Hlen; lia). unfold counter. rewrite nth_overflow by (simpl; lia). lia.
  - split.
    + apply map_Forall_insert_2; [|done]. cbn [hr_counters]. split; [done|].
      change (Forall exact (CInt <$> health_counters h)). set (zs := health_counters h) in *.
      apply Forall_forall. intros c (z & -> & Hz)%list_elem_of_fmap. apply exact_CInt. subst zs.
      apply list_elem_of_In, (In_nth _ _ 0) in Hz as (n & Hn & <-). fold (counter n h).
      pose proof (recorded_nonneg n rows Hr). specialize (Hroom n). specialize (Hnn n). lia.
    + intros n. unfold recorded. rewrite map_sum_insert_None by done. fold (recorded n rows).
      match goal with |- ?x + _ = _ => assert (Hx : x = counter n h) end; [|lia].
      change (int_of (nth n (CInt <$> health_counters h) CReal) = counter n h). unfold counter.
      destruct (decide (n < length (health_counters h))%nat) as [Hn|Hn].
      * rewrite (nth_indep _ _ (CInt 0)) by (by rewrite length_fmap).
        change (CInt <$> health_counters h) with (map CInt (health_counters h)). by rewrite map_nth.
      * rewrite !nth_overflow by (rewrite ?length_fmap; lia). done.
Qed.

Lemma marked_upsert n r rows :
  NoDup (row_key <$> rows) ->
  marked n (upsert_row r rows) = marked n rows - counter n (health_of (row_of (row_key r) rows)) + counter n (wr_health r).
Proof.
  intros Hnd. unfold upsert_row, marked. destruct (row_of (row_key r) rows) as [old|] eqn:E; cbn [some].
  - revert Hnd E. induction rows as [|r' rows IH]; [discriminate|]. rewrite !fmap_cons, !sumZ_cons.
    intros [Hnin Hnd]%NoDup_cons. unfold row_of. cbn [find]. case_bool_decide as Hk.
    + intros [= ->]. cbn [health_of from_option keep_duplicates wr_health].
      assert (Hrest : (fun r0 => counter n (wr_health r0)) <$>
        ((fun old0 => if bool_decide (row_key old0 = row_key r) then keep_duplicates old0 r else old0) <$> rows)
        = (fun r0 => counter n (wr_health r0)) <$> rows); [|rewrite Hrest; lia].
      rewrite <- list_fmap_compose. apply list_fmap_ext. intros i r1 Hi. unfold compose.
      rewrite bool_decide_false; [done|]. intros Hk1. apply Hnin. rewrite Hk, <- Hk1.
      apply list_elem_of_fmap. exists r1. split; [done|]. by eapply list_elem_of_lookup_2.
    + intros E. rewrite IH; [lia|done|exact E].
  - rewrite fmap_app, sumZ_app. change (health_of None) with zero_health. rewrite counter_zero.
    cbn [fmap list_fmap sumZ foldr]. lia.
Qed.

Lemma marked_duplicate n k rows : marked n (count_duplicate k rows) = marked n rows.
Proof.
  unfold marked, count_duplicate. rewrite <- list_fmap_compose. f_equal. apply list_fmap_ext.
  intros ? r _. unfold compose. by case_bool_decide.
Qed.

Definition row_ok (r : watermark_row) : Prop :=
  0 < wr_sent_us r /\ health_nonneg (wr_health r) /\ health_bounded (wr_health r).

Lemma upsert_rows_ok (r : watermark_row) rows :
  row_ok r -> Forall row_ok rows -> Forall row_ok (upsert_row r rows).
Proof.
  intros Hr Hrows. unfold upsert_row. destruct (row_of (row_key r) rows); cbn [some].
  - rewrite Forall_fmap. eapply Forall_impl; [exact Hrows|]. intros r' Hr'. simpl. by case_bool_decide.
  - apply Forall_app. split; [done|]. by apply Forall_singleton.
Qed.

Lemma marked_room n rows :
  Forall row_ok rows -> lenZ rows <= MaxSensorWatermarks -> 0 <= marked n rows <= i64_max.
Proof.
  intros Hr Hlen.
  assert (Hb : 0 <= marked n rows <= MaxBatchBytes * lenZ rows).
  { clear Hlen. induction Hr as [|r rows (_ & Hn & Hb) _ IH]; [done|]. unfold marked in *.
    rewrite fmap_cons, sumZ_cons, lenZ_cons. pose proof (counter_bounds n _ Hn Hb). lia. }
  unfold MaxSensorWatermarks, MaxBatchBytes in *. zlia.
Qed.

Lemma previous_end_pos name rows : Forall (fun r => 0 < wr_sent_us r) rows -> 0 <= previous_end name rows.
Proof.
  intros Hr. unfold previous_end. destruct (wr_sent_us <$> _) as [|us l] eqn:E; [done|].
  assert (Hus : us ∈ wr_sent_us <$> filter (fun r => wr_interface r = name) rows) by (rewrite E; by left).
  apply list_elem_of_fmap in Hus as (r & -> & [_ Hin]%list_elem_of_filter).
  rewrite Forall_forall in Hr. pose proof (Hr r Hin) as Hpos. simpl in Hpos.
  assert (Hmax : wr_sent_us r <= foldr Z.max (wr_sent_us r) l) by (clear; induction l; simpl; lia). lia.
Qed.

Lemma Delta_counter h p delta n : Delta h p = Ok delta -> counter n h = counter n p + counter n delta.
Proof. intros (_ & _ & <-)%Delta_Ok. apply counter_add. Qed.

Lemma Delta_nonneg h p delta : Delta h p = Ok delta -> health_nonneg delta.
Proof.
  intros H. apply Delta_Ok in H as H'. destruct H' as ([Hle _] & _ & <-).
  unfold health_nonneg, health_counters, health_add in *. cbn in Hle.
  rewrite !Forall2_cons in Hle. repeat constructor; lia.
Qed.

(** What the watermarks and the hourly health are together, given the batches that
    were applied, oldest first. *)
Record health_inv (past : list Batch) (d : SensorDB) : Prop := {
  hi_distinct : rows_distinct d;
  hi_len : lenZ (sd_rows d) <= MaxSensorWatermarks;
  hi_rows : Forall row_ok (sd_rows d);
  hi_retired : 0 <= sd_retired d;
  hi_sums : sd_retired d = 0 -> health_rows_ok (sd_health d)
    /\ forall n, recorded n (sd_health d) = marked n (sd_rows d);
  hi_last : sd_retired d = 0 -> forall k,
    (fun r => (wr_sequence r, wr_sent_us r, wr_health r)) <$> row_of k (sd_rows d)
    = (fun b => (b_sequence b, sent_us b, b_health b)) <$> last (filter (fun b => batch_key b = k) past) }.

Definition call_ok (c : commit_call) : Prop :=
  0 <= b_sequence (cc_batch c) /\ health_nonneg (b_health (cc_batch c)).

Lemma last_filter_snoc k past b :
  last (filter (fun b => batch_key b = k) (past ++ [b])) =
    if decide (batch_key b = k) then Some b else last (filter (fun b => batch_key b = k) past).
Proof.
  rewrite filter_app, filter_cons, filter_nil. case_decide; [by rewrite last_snoc|]. by rewrite app_nil_r.
Qed.

Lemma health_inv_duplicate past d k :
  health_inv past d -> health_inv past (set_rows (count_duplicate k (sd_rows d)) d).
Proof.
  intros [Hd Hl Hr Ht Hs Hk]. constructor; cbn [sd_rows set_rows sd_retired sd_health].
  - unfold rows_distinct. cbn [sd_rows set_rows]. by rewrite count_duplicate_keys.
  - unfold count_duplicate, lenZ. by rewrite length_fmap.
  - unfold count_duplicate. rewrite Forall_fmap. eapply Forall_impl; [exact Hr|]. intros r Hr'. simpl.
    by case_bool_decide.
  - done.
  - intros Hz. destruct (Hs Hz) as [H1 H2]. split; [done|]. intros n. by rewrite marked_duplicate.
  - intros Hz k'. rewrite <- (Hk Hz), count_duplicate_row. destruct (row_of k' (sd_rows d)); [|done].
    simpl. by case_bool_decide.
Qed.

Lemma remove_row_len r (rows : list watermark_row) :
  NoDup (row_key <$> rows) -> r ∈ rows -> lenZ (remove_row (row_key r) rows) <= lenZ rows - 1.
Proof.
  intros Hnd Hin. unfold lenZ, remove_row.
  assert (length (filter (fun r' => row_key r' <> row_key r) rows) < length rows)%nat; [|lia].
  clear Hnd. induction rows as [|r' rows IH]; [by apply elem_of_nil in Hin|].
  rewrite filter_cons. apply elem_of_cons in Hin as [->|Hin].
  - rewrite decide_False by (intros Hn; by apply Hn). simpl.
    pose proof (length_filter (fun r0 => row_key r0 <> row_key r') rows). lia.
  - specialize (IH Hin). case_decide; simpl; lia.
Qed.

Lemma upsert_len r rows : lenZ (upsert_row r rows) <= lenZ rows + 1.
Proof.
  unfold upsert_row. destruct (some _); unfold lenZ; [rewrite length_fmap; lia|rewrite length_app; simpl; lia].
Qed.

Lemma health_inv_applied past d d' b r old delta :
  health_inv past d -> health_nonneg (b_health b) ->
  old = row_of (batch_key b) (sd_rows d) -> row_key r = batch_key b ->
  wr_sequence r = b_sequence b -> wr_sent_us r = unix_micro (b_sent_at b) -> wr_health r = b_health b ->
  previous_end (b_interface b) (sd_rows d) < unix_micro (b_sent_at b) ->
  rows_after r d d' -> Delta (b_health b) (health_of old) = Ok delta ->
  recordBatchHealth (b_sent_at b) delta (sd_health d) = Ok (sd_health d') ->
  health_inv (past ++ [b]) d'.
Proof.
  intros [Hd Hl Hr Ht Hs Hk] Hn Hold Hkey Hseq Hus Hh Hprev Hafter HD Hrec.
  pose proof (previous_end_pos (b_interface b) _ (Forall_impl _ _ _ Hr (fun r Hok => proj1 Hok))) as Hp.
  assert (Hrow : row_ok r).
  { apply Delta_Ok in HD as (_ & Hb & _). unfold row_ok. rewrite Hus, Hh. split; [lia|done]. }
  pose proof (upsert_rows_ok r _ Hrow Hr) as Hup. pose proof (upsert_NoDup r _ Hd) as Hud.
  pose proof (upsert_len r (sd_rows d)) as Hul.
  destruct Hafter as [Hrows Hret Hlen|gone Hin Hrows Hret].
  - constructor; rewrite ?Hret, ?Hrows; try done.
    + unfold rows_distinct. by rewrite Hrows.
    + by rewrite <- Hrows.
    + intros Hz. destruct (Hs Hz) as [Hok Heq].
      assert (Hm : forall n, marked n (upsert_row r (sd_rows d)) = marked n (sd_rows d) + counter n delta).
      { intros n. rewrite (marked_upsert n r _ Hd), Hkey, <- Hold, Hh, (Delta_counter _ _ _ n HD). lia. }
      assert (Hroom : forall n, recorded n (sd_health d) + counter n delta <= i64_max).
      { intros n. rewrite Heq, <- Hm. apply marked_room; [done|]. by rewrite <- Hrows. }
      destruct (recordBatchHealth_spec _ _ _ _ Hok (Delta_nonneg _ _ _ HD) Hroom Hrec) as [Hok' Heq'].
      split; [done|]. intros n. by rewrite Heq', Heq, Hm.
    + intros Hz k. rewrite row_of_upsert, last_filter_snoc, Hkey.
      destruct (decide (k = batch_key b)) as [->|Hne].
      * rewrite decide_True by done. simpl. unfold sent_us. rewrite <- Hseq, <- Hus, <- Hh.
        by destruct (row_of (batch_key b) (sd_rows d)).
      * rewrite decide_False by congruence. by apply Hk.
  - assert (Hgone : 0 < wr_sent_us gone).
    { rewrite Forall_forall in Hup. apply (Hup gone Hin). }
    constructor; rewrite ?Hret, ?Hrows; try lia.
    + unfold rows_distinct. rewrite Hrows. by apply remove_NoDup.
    + pose proof (remove_row_len gone _ Hud Hin). lia.
    + by apply Forall_filter.
Qed.

Lemma run_commits_health cs : forall past d d' bs,
  health_inv past d -> Forall call_ok cs -> run_commits d cs = (d', bs) -> health_inv (past ++ bs) d'.
Proof.
  induction cs as [|c cs IH]; intros past d d' bs Hi Hcs; simpl.
  { intros [= <- <-]. by rewrite app_nil_r. }
  apply Forall_cons in Hcs as [[Hc Hn] Hcs].
  destruct (run_commit d c) as [d1 ob] eqn:E1. destruct (run_commits d1 cs) as [d2 bs'] eqn:E2. intros [= <- <-].
  destruct (run_commit_effect d c d1 ob Hc E1) as [[-> ->]|(dup & complete & Heff & ->)]; [by eapply IH|].
  destruct Heff as [r Hr Hle Heq|r old delta Hold Hk Hs Hus Hh Hseq Hprev Hnew Hafter HD Hrec _].
  - eapply IH; [|done|exact E2]. rewrite Heq. by apply health_inv_duplicate.
  - rewrite cons_middle, app_assoc. eapply IH; [|done|exact E2].
    by eapply health_inv_applied.
Qed.

Lemma no_sensor_db_inv : health_inv [] no_sensor_db.
Proof.
  constructor; try done. apply NoDup_nil_2.
Qed.

(** Collector health is counted once: while no watermark has been retired, each
    counter of the hourly table is exactly the sum over the interfaces and sessions of
    the last snapshot applied for them, however often batches were repeated, lost or
    answered in vain; and the table keeps at most 64 watermarks. *)
Theorem health_counted_once cs d applied :
  Forall call_ok cs -> run_commits no_sensor_db cs = (d, applied) ->
  lenZ (sd_rows d) <= MaxSensorWatermarks
  /\ (sd_retired d = 0 ->
      health_rows_ok (sd_health d)
      /\ (forall n, recorded n (sd_health d) = marked n (sd_rows d))
      /\ forall k, (fun r => (wr_sequence r, wr_sent_us r, wr_health r)) <$> row_of k (sd_rows d)
           = (fun b => (b_sequence b, sent_us b, b_health b)) <$> last (filter (fun b => batch_key b = k) applied)).
Proof.
  intros Hcs Hr. destruct (run_commits_health cs [] _ d applied no_sensor_db_inv Hcs Hr) as [_ Hl _ _ Hs Hk].
  split; [done|]. intros Hz. destruct (Hs Hz) as [H1 H2]. split; [done|]. split; [done|]. by apply Hk.
Qed.

(** ** Worked examples *)

Definition example_session : string := "00112233445566778899aabbccddeeff".
Definition example_batch (seq : Z) (at' : time) (h : CollectorHealth) : Batch :=
  mkBatch 0 5 example_session seq at' 0 1000 "eth0"
    [mkFlow "inbound" "192.0.2.7" "tcp" 443 50000 2 3 180] 180 90 3 1 1 0 0 h.
Definition example_clock (now : time) : commit_clock := mkClock now (fun _ => now) now now now.
Definition example_call (seq : Z) (at' : time) (h : CollectorHealth) (fate : call_fate) : commit_call :=
  mkCall in_order (example_clock (at' + second)) (example_batch seq at' h)
    [mkTraffic at' "inbound" "DE" "BE" 3320 "Telekom" 180 3 true] true true true "committed" fate.

Definition at_one : time := unix_epoch + 5 * hour.

(** The first commit loses its answer, its batch is sent again, a later batch is lost
    on the way and the next one closes the gap. *)
Definition example_calls : list commit_call :=
  [example_call 1 at_one (mkHealth 0 0 0 3 2 0 0 0 0 false) AnswerLost;
   example_call 1 at_one (mkHealth 0 0 0 3 2 0 0 0 0 false) Answered;
   example_call 2 (at_one + second) (mkHealth 0 0 0 5 2 0 0 0 0 false) NotRun;
   example_call 3 (at_one + 2 * second) (mkHealth 0 0 0 9 4 0 1 4 270 false) Answered].

Lemma example_calls_ok : Forall call_ok example_calls.
Proof. repeat constructor; vm_compute; discriminate. Qed.

Lemma committed_once_witness :
  match run_commits no_sensor_db example_calls with
  | (d, applied) =>
      b_sequence <$> applied = [1; 3]
      /\ StronglySorted Z.lt (sent_us <$> filter (fun b => batch_key b = (example_session, "eth0"%string)) applied)
  end.
Proof.
  assert (Hc : match run_commits no_sensor_db example_calls with
    | (d, applied) => bool_decide (b_sequence <$> applied = [1; 3]) end = true) by (vm_compute; reflexivity).
  destruct (run_commits no_sensor_db example_calls) as [d applied] eqn:E.
  apply bool_decide_eq_true in Hc. split; [exact Hc|].
  apply (committed_once (example_session, "eth0"%string) example_calls d applied); [|exact E].
  repeat constructor; vm_compute; discriminate.
Defined.

Lemma health_counted_once_witness :
  match run_commits no_sensor_db example_calls with
  | (d, applied) =>
      sd_retired d = 0 /\ recorded 4 (sd_health d) = 4 /\ (wr_gaps <$> sd_rows d) = [1] /\
      (lenZ (sd_rows d) <= MaxSensorWatermarks
      /\ (sd_retired d = 0 ->
      health_rows_ok (sd_health d)
      /\ (forall n, recorded n (sd_health d) = marked n (sd_rows d))
      /\ forall k, (fun r => (wr_sequence r, wr_sent_us r, wr_health r)) <$> row_of k (sd_rows d)
           = (fun b => (b_sequence b, sent_us b, b_health b)) <$> last (filter (fun b => batch_key b = k) applied)))
  end.
Proof.
  assert (Hc : match run_commits no_sensor_db example_calls with
    | (d, applied) => (sd_retired d =? 0) && (recorded 4 (sd_health d) =? 4)
        && bool_decide ((wr_gaps <$> sd_rows d) = [1]) end = true) by (vm_compute; reflexivity).
  destruct (run_commits no_sensor_db example_calls) as [d applied] eqn:E.
  apply andb_true_iff in Hc as [Hc H3]. apply andb_true_iff in Hc as [H1 H2].
  apply Z.eqb_eq in H1. apply Z.eqb_eq in H2. apply bool_decide_eq_true in H3.
  split; [exact H1|]. split; [exact H2|]. split; [exact H3|].
  apply (health_counted_once example_calls d applied); [|exact E]. apply example_calls_ok.
Defined.

(** ** A new batch is committed *)

(** The gaps and the ledger are in order, with room for [n] more ids. *)
Definition books_ok (n : Z) (d : SensorDB) : Prop :=
  gaps_ok (sd_gaps d) /\ ledger_ok (sd_retention d)
  /\ rn_evicted (sd_retention d) + lenZ (rn_ledger (sd_retention d)) + n <= i64_max.

Lemma unix_milli_mono a b : a <= b -> unix_milli a <= unix_milli b.
Proof. intros H. unfold unix_milli. apply Z.div_le_mono; [vm_compute; reflexivity|lia]. Qed.

Lemma insertSensorGap_total n reason start stop count now d :
  books_ok (n + 1) d -> 0 <= n -> start <= stop -> now <> 0 ->
  exists g r, insertSensorGap reason start stop count now (sd_gaps d) (sd_retention d) = Ok (g, r)
    /\ books_ok n (set_ledger g r d).
Proof.
  intros (Hg & Hl & Hroom) Hn Hle Hnow. unfold insertSensorGap.
  set (gp := mkGap _ _ _ _ _).
  assert (Hgp : g_start gp <= g_end gp) by (by apply unix_milli_mono).
  destruct (insert_gap_total gp now _ _ Hg Hl ltac:(lia) Hgp Hnow) as (g & r & Hi & _ & Hr).
  exists g, r. split; [done|]. destruct (insert_gap_kept _ _ _ _ _ _ Hg Hl Hgp Hi) as [Hg' Hl'].
  split; [done|]. split; [done|]. cbn [set_ledger sd_retention]. lia.
Qed.

Lemma record_gap_total n b count prev now d :
  books_ok (n + 1) d -> 0 <= n -> now <> 0 ->
  exists d', record_gap b count prev now d = Ok d' /\ books_ok n d'.
Proof.
  intros Hb Hn Hnow. unfold record_gap.
  destruct ((0 <? count) || _).
  - set (start := if before _ _ then _ else _).
    assert (Hstart : start <= window_start b).
    { subst start. unfold before. match goal with |- context [window_start b <? ?x] => destruct (window_start b <? x) eqn:E end;
        bool_to_prop; lia. }
    destruct (insertSensorGap_total n (if 0 <? count then "sensor_sequence_gap" else "sensor_observation_gap")
      start (window_start b) count now d Hb Hn Hstart Hnow) as (g & r & -> & Hok).
    cbn [retained stored_result rbind]. eauto.
  - exists d. split; [done|]. destruct Hb as (Hg & Hl & Hroom). split; [done|]. split; [done|lia].
Qed.

Lemma record_observation_total n o ck b before delta traffic complete d :
  Delta (b_health b) before = Ok delta -> Forall item_valid traffic ->
  (forall s h d, batch_total s h d traffic <= i64_max) ->
  (forall h, ck_compaction ck h <> 0) -> ck_partial ck <> 0 -> 0 <= b_interval_ms b ->
  books_ok (n + 1 + lenZ traffic) d -> 0 <= n -> health_bounded delta ->
  exists d', record_observation o ck b before traffic complete d = Ok d' /\ books_ok n d'.
Proof.
  intros HD Hv Hsum Hck Hp Hint (Hg & Hl & Hroom) Hn Hb. unfold record_observation. rewrite HD.
  assert (Hh : exists h, recordBatchHealth (b_sent_at b) delta (sd_health d) = Ok h).
  { unfold recordBatchHealth. assert (Hs : forallb sql_uint (health_counters delta) = true); [|rewrite Hs; by eauto].
    unfold health_bounded, health_limits, health_counters in *. rewrite !Forall2_cons in Hb.
    cbn [forallb]. unfold sql_uint, MaxBatchBytes, MaxBatchPackets in *.
    rewrite !(proj2 (Z.leb_le _ _)) by zlia. done. }
  destruct Hh as [h ->]. cbn [stored_result rbind].
  destruct (addTrafficBatch_total o (ck_compaction ck) traffic (sd_traffic d) (sd_retention d) Hv Hsum Hck Hl)
    as (t & r & -> & Hl' & Hr'); [lia|]. cbn [stored_result rbind].
  assert (Hb1 : books_ok (n + 1) (set_sums h t r d)) by (split; [done|]; split; [done|]; simpl; lia).
  destruct complete.
  - exists (set_sums h t r d). split; [done|]. destruct Hb1 as (Hg1 & Hl1 & Hr1). split; [done|]. split; [done|lia].
  - assert (Hle : window_start b <= b_sent_at b) by (unfold window_start, time_add, millisecond; lia).
    destruct (insertSensorGap_total n "sensor_derived_events_partial" (window_start b) (b_sent_at b) 0 (ck_partial ck)
      (set_sums h t r d) Hb1 Hn Hle Hp) as (g & r' & -> & Hok).
    cbn [retained stored_result rbind]. eauto.
Qed.

Lemma retire_watermark_total committed now d :
  books_ok 1 d -> now <> 0 -> exists d', retire_watermark committed now d = Ok d'.
Proof.
  intros Hb Hnow. unfold retire_watermark. destruct (lenZ (sd_rows d) <=? MaxSensorWatermarks) eqn:El; [by eauto|].
  destruct (oldest_row (sd_rows d)) as [r|] eqn:Eo.
  - edestruct (insertSensorGap_total 0 "sensor_watermark_retired" committed committed 0 now
      (set_retired (Z.max (sd_retired d) (wr_sent_us r)) (set_rows (remove_row (row_key r) (sd_rows d)) d)))
      as (g & r' & -> & _); [done|lia|lia|done|]. cbn [retained stored_result rbind]. eauto.
  - destruct (sd_rows d) as [|r rows]; [discriminate|]. simpl in Eo.
    destruct (oldest_row rows) as [best|]; [destruct (_ <? _)|]; discriminate.
Qed.

(** A batch is new to the tables: a sequence and a time that they have not seen. *)
Definition batch_new (b : Batch) (d : SensorDB) : Prop :=
  let old := row_of (batch_key b) (sd_rows d) in
  from_option wr_sequence 0 old < b_sequence b
  /\ previous_end (b_interface b) (sd_rows d) < sent_us b
  /\ (old = None -> sd_retired d < sent_us b)
  /\ from_option wr_gaps 0 old + b_sequence b <= i64_max + from_option wr_sequence 0 old
  /\ (exists delta, Delta (b_health b) (health_of old) = Ok delta)
  /\ forall r, old = Some r -> watermark_ok (watermark_of r) = true.

Definition clock_set (ck : commit_clock) : Prop :=
  ck_gap ck <> 0 /\ (forall h, ck_compaction ck h <> 0) /\ ck_partial ck <> 0 /\ ck_retire ck <> 0.

Lemma Delta_bounded h p delta : Delta h p = Ok delta -> health_nonneg p -> health_bounded delta.
Proof.
  intros H Hp. apply Delta_Ok in H as (_ & Hb & <-).
  unfold health_bounded, health_nonneg, health_counters, health_limits, health_add in *. cbn in Hb.
  rewrite !Forall2_cons in Hb. rewrite !Forall_cons in Hp. repeat constructor; lia.
Qed.

(** [CommitSensorBatch] commits every new batch that is valid and complete, and says
    what it was told of the derived results. *)
Lemma batch_committed o ck b b' traffic e n c reason d :
  commit_admitted b e n c reason = Ok b' -> 0 <= b_sequence b -> batch_new b d ->
  Forall row_ok (sd_rows d) -> clock_set ck -> books_ok (3 + lenZ traffic) d ->
  lenZ traffic = lenZ (b_flows b') -> Forall item_valid traffic ->
  (forall s h d, batch_total s h d traffic <= i64_max) ->
  exists d', CommitSensorBatch o ck b traffic e n c reason d =
    (mkACK Version (b_session b) (b_interface b) (b_sequence b) (b_sequence b) true true e n c false reason, Ok d').
Proof.
  intros Ha Hseq0 (Hseq & Hprev & Hnew & Hgaps & [delta HD] & Hread) Hrows (Hck1 & Hck2 & Hck3 & Hck4) Hb Hlen Hv Hsum.
  unfold CommitSensorBatch. rewrite Ha.
  destruct (commit_admitted_same _ _ _ _ _ _ Ha) as (fs & -> & Hval & _ & Hnz & _).
  assert (Hint : 0 <= b_interval_ms b).
  { unfold ValidateAt in Hval. destruct (validate_header b (b_sent_at b)) as [[]|] eqn:Eh; [|discriminate].
    pose proof (validate_header_ok _ _ Eh). lia. }
  cbn [b_session b_interface b_sequence b_sent_at b_health b_flows set_flows] in *.
  unfold readSensorWatermark. fold (batch_key b). set (old := row_of (batch_key b) (sd_rows d)) in *.
  assert (Hw : exists w, (match old with
      | Some r => if watermark_ok (watermark_of r) then Ok (Some (watermark_of r)) else Err WatermarkInvalid
      | None => Ok None end) = Ok w /\ w = watermark_of <$> old).
  { destruct old as [r|]; [|by eauto]. rewrite (Hread r eq_refl). eauto. }
  destruct Hw as (w & -> & ->).
  assert (Hbefore : w_sequence (default no_watermark (watermark_of <$> old)) = from_option wr_sequence 0 old
    /\ w_health (default no_watermark (watermark_of <$> old)) = health_of old
    /\ w_gaps (default no_watermark (watermark_of <$> old)) = from_option wr_gaps 0 old) by (by destruct old).
  destruct Hbefore as (-> & -> & ->).
  rewrite (proj2 (Z.leb_gt (b_sequence b) _)), andb_false_r by lia.
  rewrite Hlen, Z.eqb_refl. cbn [negb].
  assert (Hord : (negb (some (watermark_of <$> old)) && (unix_micro (b_sent_at b) <=? sd_retired d))
    || (unix_micro (b_sent_at b) <=? previous_end (b_interface b) (sd_rows d)) = false).
  { unfold sent_us in *. rewrite (proj2 (Z.leb_gt _ (previous_end _ _))), orb_false_r by lia.
    destruct old as [r|]; [done|]. simpl. apply Z.leb_gt. by apply Hnew. }
  rewrite Hord.
  assert (Hcount : gap_count (set_flows fs b) (watermark_of <$> old) = b_sequence b - from_option wr_sequence 0 old - 1).
  { unfold gap_count. destruct old; simpl; lia. }
  destruct (record_gap_total (2 + lenZ traffic) (set_flows fs b) (gap_count (set_flows fs b) (watermark_of <$> old))
    (previous_end (b_interface b) (sd_rows d)) (ck_gap ck) d) as (d1 & E1 & Hb1); [| |done|].
  { destruct Hb as (? & ? & ?). split; [done|]. split; [done|lia]. }
  { pose proof (lenZ_nonneg traffic). lia. }
  rewrite E1. cbn [rbind].
  assert (Hnn : health_nonneg (health_of old)).
  { destruct old as [r|] eqn:Eo; [|by repeat constructor]. apply row_of_Some in Eo as [Hin _].
    rewrite Forall_forall in Hrows. by apply (Hrows r Hin). }
  destruct (record_observation_total 1 o ck (set_flows fs b) (health_of old) delta traffic c d1 HD Hv Hsum Hck2 Hck3 Hint)
    as (d2 & E2 & Hb2); [|lia|by eapply Delta_bounded|].
  { destruct Hb1 as (? & ? & ?). split; [done|]. split; [done|lia]. }
  rewrite E2. cbn [rbind].
  rewrite (proj2 (Z.ltb_ge _ _)) by (rewrite Hcount; lia).
  edestruct (retire_watermark_total (ck_commit ck) (ck_retire ck)) as (d3 & ->); [|done|cbn [rbind]].
  { exact Hb2. }
  exists d3. unfold sensorACK. cbn. by rewrite !andb_true_r.
Qed.

(** ** A retired session that continues

    The tables refuse what a retired session sent before it was retired, but not what
    it sends later: the batch is taken for the first of a new session, and its
    cumulative health is counted again from zero. *)

Definition many_session (i : nat) : string :=
  String (ascii_of_nat (48 + i / 10)) (String (ascii_of_nat (48 + i mod 10)) "112233445566778899aabbccddeeff").
Definition many_call (i : nat) (seq : Z) (at' : time) (packets : Z) : commit_call :=
  let b := example_batch seq at' (mkHealth 0 0 0 packets 0 0 0 0 0 false) in
  mkCall in_order (example_clock (at' + second))
    (mkBatch 0 5 (many_session i) seq at' 0 1000 "eth0" (b_flows b) 180 90 3 1 1 0 0 (b_health b))
    [mkTraffic at' "inbound" "DE" "BE" 3320 "Telekom" 180 3 true] true true true "committed" Answered.

(** Sixty-five sessions that saw three packets each, and then the first of them with
    one packet more. *)
Definition many_calls : list commit_call :=
  ((fun i => many_call i 1 (at_one + Z.of_nat i * 2 * second) 3) <$> seq 0 65)
  ++ [many_call 0 2 (at_one + 140 * second) 4].

(** 65 * 3 + 1 packets were seen. *)
Lemma retired_session_recounted :
  let '(d, applied) := run_commits no_sensor_db many_calls in
  lenZ applied = 66 /\ recorded 3 (sd_health d) = 65 * 3 + 4.
Proof.
  assert (Hc : match run_commits no_sensor_db many_calls with
    | (d, applied) => (lenZ applied =? 66) && (recorded 3 (sd_health d) =? 65 * 3 + 4) end = true)
    by (vm_compute; reflexivity).
  destruct (run_commits no_sensor_db many_calls) as [d applied].
  apply andb_true_iff in Hc as [H1 H2]. by apply Z.eqb_eq in H1, H2.
Qed.
