(* ===== verification/EventQueue.v ===== *)
(** * The queue of events waiting for the store

    [internal/daemon/events.go]: events are encoded and kept, bounded in number and
    bytes, until a transaction has stored them; what cannot be kept is counted and
    becomes a coverage gap. *)

From S2P Require Export SensorCommit.

Definition maxPendingEvents : Z := 1024.
Definition maxPendingEventBytes : Z := 4194304.
Definition maxQueuedEventBytes : Z := 98304.
Definition maxEventFlush : nat := 64.

Inductive loss_kind := eventCapacity | eventInvalid | eventRestart.

Record eventLoss := mkLoss { el_active : bool; el_start : time; el_end : time; el_count : Z }.
Definition no_loss : eventLoss := mkLoss false time_zero time_zero 0.

Record eventLosses := mkLosses { ls_capacity : eventLoss; ls_invalid : eventLoss; ls_restart : eventLoss }.

Definition loss_of_kind (k : loss_kind) (l : eventLosses) : eventLoss :=
  match k with eventCapacity => ls_capacity l | eventInvalid => ls_invalid l | eventRestart => ls_restart l end.
Definition set_loss (k : loss_kind) (v : eventLoss) (l : eventLosses) : eventLosses :=
  match k with
  | eventCapacity => mkLosses v (ls_invalid l) (ls_restart l)
  | eventInvalid => mkLosses (ls_capacity l) v (ls_restart l)
  | eventRestart => mkLosses (ls_capacity l) (ls_invalid l) v
  end.

(** [EventIngestStatus]: the copy that readers see. *)
Record EventIngestStatus := mkIngest {
  in_pending : Z;
  in_pending_bytes : Z;
  in_oldest : time;
  in_last_persisted : time;
  in_dropped : Z;
  in_unrecorded : Z;
  in_saturated : bool }.

Record queuedEvent := mkQueued { qe_data : list Z; qe_at : time }.

(** [pendingEvents], [pendingEventBytes], [eventLosses] and [eventIngest] of [App]. *)
Record eventQueue := mkQueue {
  eq_pending : list queuedEvent;
  eq_bytes : Z;
  eq_losses : eventLosses;
  eq_ingest : EventIngestStatus }.

Definition new_queue : eventQueue :=
  mkQueue [] 0 (mkLosses no_loss no_loss no_loss) (mkIngest 0 0 time_zero time_zero 0 0 false).

Definition with_pending (p : list queuedEvent) (bytes : Z) (q : eventQueue) : eventQueue :=
  mkQueue p bytes (eq_losses q) (eq_ingest q).
Definition with_losses (l : eventLosses) (q : eventQueue) : eventQueue :=
  mkQueue (eq_pending q) (eq_bytes q) l (eq_ingest q).
Definition with_ingest (i : EventIngestStatus) (q : eventQueue) : eventQueue :=
  mkQueue (eq_pending q) (eq_bytes q) (eq_losses q) i.

Definition publishEventQueue (q : eventQueue) : eventQueue :=
  let i := eq_ingest q in
  with_ingest (mkIngest (lenZ (eq_pending q)) (eq_bytes q)
    (match eq_pending q with e :: _ => qe_at e | [] => time_zero end)
    (in_last_persisted i) (in_dropped i)
    (add_u64 (el_count (ls_capacity (eq_losses q))) (el_count (ls_invalid (eq_losses q))))
    (in_saturated i)) q.

(** The loss of one more event observed at [at']. *)
Definition more_loss (at' : time) (l : eventLoss) : eventLoss :=
  let l := if el_active l then l else mkLoss true at' at' 0 in
  mkLoss true (if before at' (el_start l) then at' else el_start l)
    (if after at' (el_end l) then at' else el_end l)
    (if el_count l <? i64_max then el_count l + 1 else el_count l).

(** [noteEventLoss]; [now] is the clock when the event has no time. *)
Definition noteEventLoss (k : loss_kind) (at' now : time) (q : eventQueue) : eventQueue :=
  let at' := if is_zero at' then now else at' in
  let loss := more_loss at' (loss_of_kind k (eq_losses q)) in
  let i := eq_ingest q in
  publishEventQueue (with_ingest
    (mkIngest (in_pending i) (in_pending_bytes i) (in_oldest i) (in_last_persisted i)
       (bump_u64 (in_dropped i)) (in_unrecorded i)
       (in_saturated i || negb (in_dropped i <? u64_max) || (el_count loss =? i64_max)))
    (with_losses (set_loss k loss (eq_losses q)) q)).

Section EventQueue.
(** The notification prepared for an event, the JSON of both and the size checks on
    the event's own JSON columns. *)
Context {Message : Type}.
Context (encode : Event * option Message -> option (list Z)) (decode : list Z -> option (Event * option Message)).
Context (metadata_fits : Event -> bool).

(** [queueEvent] of an event that [prepareEvent] made. *)
Definition queueEvent (stored : Event) (message : option Message) (now : time) (q : eventQueue) : eventQueue :=
  match encode (stored, message) with
  | Some data =>
      if negb (metadata_fits stored) || (maxQueuedEventBytes <? lenZ data)
      then noteEventLoss eventInvalid (ev_observed_at stored) now q
      else if (maxPendingEvents <=? lenZ (eq_pending q)) || (maxPendingEventBytes - eq_bytes q <? lenZ data)
      then noteEventLoss eventCapacity (ev_observed_at stored) now q
      else publishEventQueue (with_pending (eq_pending q ++ [mkQueued data (ev_observed_at stored)])
             (eq_bytes q + lenZ data) q)
  | None => noteEventLoss eventInvalid (ev_observed_at stored) now q
  end.

(** The rows of [events] with the decision recorded for them.  [INSERT OR IGNORE]:
    an event that is there stays as it is. *)
Abbreviation event_log := (list (Event * option Message)).
Definition logged (e : Event) (log : event_log) : bool :=
  existsb (fun r => ev_id r.1 =?s ev_id e) log.
Definition insert_event (w : Event * option Message) (log : event_log) : event_log :=
  if logged w.1 log then log else log ++ [w].

(** A call of [InsertEventNotification]: whether it was answered, and the log. *)
Definition call_insert (f : call_fate) (w : Event * option Message) (log : event_log) : bool * event_log :=
  match f with
  | NotRun => (false, log)
  | Answered => (true, insert_event w log)
  | AnswerLost => (false, insert_event w log)
  end.

Definition persisted_at (now : time) (q : eventQueue) : eventQueue :=
  let i := eq_ingest q in
  with_ingest (mkIngest (in_pending i) (in_pending_bytes i) (in_oldest i) now (in_dropped i)
                (in_unrecorded i) (in_saturated i)) q.

Definition fate_of (fates : list call_fate) : call_fate := default NotRun (head fates).

(** The loop of [flushEvents] over at most [n] events. *)
Fixpoint flush_loop (n : nat) (fates : list call_fate) (now : time) (log : event_log) (q : eventQueue)
    : event_log * eventQueue :=
  match n, eq_pending q with
  | O, _ | _, [] => (log, q)
  | S n, e :: pending =>
      match decode (qe_data e) with
      | None =>
          flush_loop n (tail fates) now log
            (with_pending pending (eq_bytes q - lenZ (qe_data e)) (noteEventLoss eventInvalid (qe_at e) now q))
      | Some w =>
          match call_insert (fate_of fates) w log with
          | (false, log) => (log, q)
          | (true, log) =>
              flush_loop n (tail fates) now log
                (with_pending pending (eq_bytes q - lenZ (qe_data e)) (persisted_at now q))
          end
      end
  end.

Definition gap_reason (k : loss_kind) : string :=
  match k with
  | eventCapacity => "event_queue_capacity"
  | eventInvalid => "event_metadata_rejected"
  | eventRestart => "process_restart_pending_unknown"
  end.

(** The gap tables of the store, and one call of [RecordCoverageGap]. *)
Abbreviation gap_tables := (list (Z * gap) * Retention)%type.
Definition call_gap (f : call_fate) (g : CoverageGap) (now : time) (t : gap_tables) : bool * gap_tables :=
  match f with
  | NotRun => (false, t)
  | _ =>
      match recordCoverageGap g now t.1 t.2 with
      | Ok t' => (if f is Answered then true else false, t')
      | Err _ => (false, t)
      end
  end.

(** The losses of one kind become a gap; the third component is what was recorded. *)
Definition flush_loss (k : loss_kind) (f : call_fate) (now : time) (t : gap_tables) (q : eventQueue)
    : gap_tables * eventQueue * list CoverageGap :=
  let loss := loss_of_kind k (eq_losses q) in
  if negb (el_active loss) then (t, q, [])
  else
    let g := mkCoverageGap "network_events" (gap_reason k) (el_start loss) (el_end loss) (el_count loss) in
    match call_gap f g now t with
    | (true, t) => (t, with_losses (set_loss k no_loss (eq_losses q)) q, [g])
    | (false, t) => (t, q, [])
    end.

(** How the calls of one flush go. *)
Record flush_fates := mkFates {
  ff_events : list call_fate; ff_capacity : call_fate; ff_invalid : call_fate; ff_restart : call_fate }.

(** [flushEvents]. *)
Definition flushEvents (f : flush_fates) (now : time) (log : event_log) (t : gap_tables) (q : eventQueue)
    : event_log * gap_tables * eventQueue * list CoverageGap :=
  let '(log, q) := flush_loop maxEventFlush (ff_events f) now log q in
  let '(t, q, g1) := flush_loss eventCapacity (ff_capacity f) now t q in
  let '(t, q, g2) := flush_loss eventInvalid (ff_invalid f) now t q in
  let '(t, q, g3) := flush_loss eventRestart (ff_restart f) now t q in
  (log, t, publishEventQueue q, g1 ++ g2 ++ g3).

(** The loop of [finishEvents]: one flush after the other while they make progress;
    [fates] ends when the context does. *)
Fixpoint finish_loop (fates : list flush_fates) (now : time) (log : event_log) (t : gap_tables) (q : eventQueue)
    : event_log * gap_tables * eventQueue * list CoverageGap :=
  match fates with
  | [] => (log, t, q, [])
  | f :: fates =>
      let before := lenZ (eq_pending q) in
      let '(log, t, q, g) := flushEvents f now log t q in
      if (lenZ (eq_pending q) =? 0) || (lenZ (eq_pending q) =? before) then (log, t, q, g)
      else let '(log, t, q, g') := finish_loop fates now log t q in (log, t, q, g ++ g')
  end.

(** [finishEvents]: what is left is recorded as a gap, if that is possible. *)
Definition finishEvents (fates : list flush_fates) (last : call_fate) (now : time) (log : event_log)
    (t : gap_tables) (q : eventQueue) : event_log * gap_tables * eventQueue * list CoverageGap :=
  let '(log, t, q, g) := finish_loop fates now log t q in
  if lenZ (eq_pending q) =? 0 then (log, t, q, g)
  else
    let g' := mkCoverageGap "network_events" "shutdown_unpersisted_events" now now (lenZ (eq_pending q)) in
    let '(ok, t) := call_gap last g' now t in
    (log, t, q, if ok then g ++ [g'] else g).

(** ** Histories *)

Inductive queue_op :=
| OpQueue (stored : Event) (message : option Message) (now : time)
| OpFlush (f : flush_fates) (now : time).

(** The state with its history: the events that were accepted and how many were turned
    away. *)
Record queue_run := mkRun {
  qr_log : event_log; qr_tables : gap_tables; qr_queue : eventQueue;
  qr_accepted : list (Event * option Message); qr_lost : Z }.

Definition queue_step (s : queue_run) (op : queue_op) : queue_run :=
  match op with
  | OpQueue e m now =>
      let q := queueEvent e m now (qr_queue s) in
      if lenZ (eq_pending q) =? lenZ (eq_pending (qr_queue s))
      then mkRun (qr_log s) (qr_tables s) q (qr_accepted s) (qr_lost s + 1)
      else mkRun (qr_log s) (qr_tables s) q (qr_accepted s ++ [(e, m)]) (qr_lost s)
  | OpFlush f now =>
      let '(log, t, q, _) := flushEvents f now (qr_log s) (qr_tables s) (qr_queue s) in
      mkRun log t q (qr_accepted s) (qr_lost s)
  end.

(** [App.Run]: a process starts with a loss of its own, since it cannot tell what the
    process before it still held. *)
Definition started_queue (started : time) : eventQueue :=
  with_losses (set_loss eventRestart (mkLoss true started started 0) (eq_losses new_queue)) new_queue.

Definition queue_start (started : time) (log : event_log) (t : gap_tables) : queue_run :=
  mkRun log t (started_queue started) [] 0.

(** The events that the store holds and those that wait: the first that waits may be
    stored already, when only the answer of its transaction was lost. *)
Definition split_at (l waiting : event_log) (log : event_log) : Prop :=
  log = l \/ exists x, head waiting = Some x /\ log = l ++ [x].

Definition waits (w : Event * option Message) (e : queuedEvent) : Prop := decode (qe_data e) = Some w.

Definition queue_bounded (q : eventQueue) : Prop :=
  eq_bytes q = sumZ ((fun e => lenZ (qe_data e)) <$> eq_pending q)
  /\ eq_bytes q <= maxPendingEventBytes /\ lenZ (eq_pending q) <= maxPendingEvents.

(** The losses that wait to be recorded. *)
Definition waiting_losses (q : eventQueue) : Z :=
  el_count (ls_capacity (eq_losses q)) + el_count (ls_invalid (eq_losses q)).
Definition loss_ok (l : eventLoss) : Prop :=
  if el_active l then 0 < el_count l <= i64_max /\ el_start l <= el_end l else l = no_loss.
Definition restart_ok (l : eventLoss) : Prop :=
  l = no_loss \/ el_active l = true /\ el_count l = 0.
Definition losses_ok (q : eventQueue) : Prop :=
  loss_ok (ls_capacity (eq_losses q)) /\ loss_ok (ls_invalid (eq_losses q))
  /\ restart_ok (ls_restart (eq_losses q)).

(** The rows of [coverage_gaps] that a process has added since the table's next id was
    [base], as long as none of them was evicted, and the events they count. *)
Definition added (base : Z) (l : gaps) : list gap := snd <$> filter (fun row => base <= row.1) l.
Definition none_evicted (base : Z) (l : gaps) : Prop := next_id l - base <= 1000.
Definition event_loss_row (g : gap) : bool :=
  (g_name g =?s "network_events")
  && one_of [gap_reason eventCapacity; gap_reason eventInvalid] (g_reason g).
Definition row_losses (g : gap) : Z := if event_loss_row g then g_count g else 0.
Definition recorded_losses (base : Z) (l : gaps) : Z := sumZ (row_losses <$> added base l).

(** The restart is recorded, or its loss waits. *)
Definition restart_marked (base : Z) (l : gaps) (q : eventQueue) : Prop :=
  el_active (ls_restart (eq_losses q)) = true
  \/ exists g, g ∈ added base l /\ g_name g = "network_events"%string
       /\ g_reason g = gap_reason eventRestart.

(** The accounts: what was turned away is in the table or waits, never less; exactly so as
    long as no answer was lost ([answered]). *)
Definition losses_accounted (base lost : Z) (answered : bool) (l : gaps) (q : eventQueue) : Prop :=
  0 <= lost /\ base <= next_id l
  /\ (lost <= i64_max -> in_dropped (eq_ingest q) = lost /\ waiting_losses q <= lost)
  /\ (none_evicted base l ->
       restart_marked base l q
       /\ (lost <= i64_max ->
            lost <= recorded_losses base l + waiting_losses q
            /\ (answered = true -> recorded_losses base l + waiting_losses q = lost))).

(** The log of the events of this process: [before] is what was stored already. *)
Record queue_inv (before accepted : event_log) (base lost : Z) (answered : bool) (log : event_log)
    (l : gaps) (q : eventQueue) : Prop := {
  qi_stored : exists s w, accepted = s ++ w /\ Forall2 waits w (eq_pending q)
    /\ split_at (before ++ s) w log;
  qi_bounded : queue_bounded q;
  qi_losses : losses_ok q;
  qi_lost : losses_accounted base lost answered l q }.

Lemma publish_fields q :
  eq_pending (publishEventQueue q) = eq_pending q /\ eq_bytes (publishEventQueue q) = eq_bytes q
  /\ eq_losses (publishEventQueue q) = eq_losses q
  /\ in_dropped (eq_ingest (publishEventQueue q)) = in_dropped (eq_ingest q).
Proof. done. Qed.

Lemma more_loss_ok at' l :
  loss_ok l -> loss_ok (more_loss at' l)
  /\ (el_count l < i64_max -> el_count (more_loss at' l) = el_count l + 1).
Proof.
  unfold loss_ok, more_loss. destruct (el_active l) eqn:Ea.
  - intros [Hc Hse]. cbn [el_active el_count el_start el_end]. unfold before, after.
    destruct (el_count l <? i64_max) eqn:E1; bool_to_prop;
      (split; [split; [lia|]; destruct (at' <? el_start l) eqn:E2, (el_end l <? at') eqn:E3; bool_to_prop; lia|lia]).
  - intros ->. cbn. unfold before, after. rewrite !Z.ltb_irrefl. split; [split; [zlia|lia]|done].
Qed.

Lemma loss_nonneg q :
  losses_ok q -> 0 <= el_count (ls_capacity (eq_losses q)) /\ 0 <= el_count (ls_invalid (eq_losses q)).
Proof.
  intros (Hc & Hi & _). unfold loss_ok in *.
  destruct (el_active (ls_capacity _)), (el_active (ls_invalid _)); rewrite ?Hc, ?Hi; simpl; lia.
Qed.

Lemma noteEventLoss_inv k at' now before acc base lost ans log l q :
  k <> eventRestart -> queue_inv before acc base lost ans log l q ->
  queue_inv before acc base (lost + 1) ans log l (noteEventLoss k at' now q).
Proof.
  intros Hk [Hs Hb Hok (Hl0 & Hbase & Hd & Hrec)].
  pose proof (loss_nonneg q Hok) as Hpos. pose proof Hok as (Hc & Hi & Hr).
  set (a := if is_zero at' then now else at').
  assert (Hloss : loss_ok (loss_of_kind k (eq_losses q))) by (by destruct k).
  destruct (more_loss_ok a _ Hloss) as [Hmore Hcount].
  assert (Hw : lost + 1 <= i64_max -> waiting_losses (noteEventLoss k at' now q) = waiting_losses q + 1).
  { intros Hmax. destruct (Hd ltac:(lia)) as [_ Hwait]. unfold waiting_losses, noteEventLoss in *.
    cbn [publishEventQueue with_ingest with_losses eq_losses]. fold a.
    destruct k; [| |done]; cbn [set_loss loss_of_kind ls_capacity ls_invalid] in *;
      rewrite Hcount by lia; lia. }
  constructor; [exact Hs|exact Hb| |].
  - unfold losses_ok, noteEventLoss. cbn [publishEventQueue with_ingest with_losses eq_losses]. fold a.
    destruct k; [| |done]; cbn [set_loss ls_capacity ls_invalid ls_restart]; done.
  - split; [lia|]. split; [done|]. split.
    + intros Hmax. destruct (Hd ltac:(lia)) as [Hdrop Hwait]. rewrite (Hw Hmax). split; [|lia].
      unfold noteEventLoss. cbn [publishEventQueue with_ingest with_losses eq_ingest in_dropped].
      rewrite Hdrop. unfold bump_u64. by rewrite (proj2 (Z.ltb_lt lost u64_max)) by zlia.
    + intros Hev. destruct (Hrec Hev) as [Hmark Hsum]. split.
      * unfold restart_marked, noteEventLoss in *.
        cbn [publishEventQueue with_ingest with_losses eq_losses]. by destruct k.
      * intros Hmax. destruct (Hsum ltac:(lia)) as [Hle Heq]. rewrite (Hw Hmax). split; [lia|].
        intros Ha. specialize (Heq Ha). lia.
Qed.

(** The documented behaviour of the JSON codec on the values that are queued. *)
Hypothesis round_trip : forall w data, encode w = Some data -> decode data = Some w.

Lemma queue_enqueue_inv before acc base lost ans log l q e m data :
  queue_inv before acc base lost ans log l q -> encode (e, m) = Some data ->
  lenZ (eq_pending q) < maxPendingEvents -> lenZ data <= maxPendingEventBytes - eq_bytes q ->
  queue_inv before (acc ++ [(e, m)]) base lost ans log l
    (publishEventQueue (with_pending (eq_pending q ++ [mkQueued data (ev_observed_at e)]) (eq_bytes q + lenZ data) q)).
Proof.
  intros [(s & w & Hacc & Hw & Hs) (Hbytes & Hb & Hn) Hl Hlost] He Hroom Hdata. constructor; [| |exact Hl|exact Hlost].
  - exists s, (w ++ [(e, m)]). split; [by rewrite Hacc, app_assoc|]. cbn [publishEventQueue with_ingest with_pending eq_pending].
    split; [apply Forall2_app; [done|]; repeat constructor; by apply round_trip|].
    destruct Hs as [->|(x & Hx & ->)]; [by left|right]. exists x. split; [|done].
    by destruct w.
  - unfold queue_bounded. cbn [publishEventQueue with_ingest with_pending eq_pending eq_bytes].
    rewrite fmap_app, sumZ_app, lenZ_app. cbn [fmap list_fmap sumZ foldr qe_data].
    change (lenZ [mkQueued data (ev_observed_at e)]) with 1. split; [lia|]. split; lia.
Qed.

Lemma queueEvent_inv before acc base lost ans log l q e m now :
  queue_inv before acc base lost ans log l q ->
  (lenZ (eq_pending (queueEvent e m now q)) = lenZ (eq_pending q)
     /\ queue_inv before acc base (lost + 1) ans log l (queueEvent e m now q))
  \/ (lenZ (eq_pending (queueEvent e m now q)) = lenZ (eq_pending q) + 1
     /\ queue_inv before (acc ++ [(e, m)]) base lost ans log l (queueEvent e m now q)).
Proof.
  intros Hi. unfold queueEvent. destruct (encode (e, m)) as [data|] eqn:Ee.
  2:{ left. split; [done|]. by apply noteEventLoss_inv. }
  destruct (_ || _) eqn:E1; [left; split; [done|]; by apply noteEventLoss_inv|].
  destruct (_ || _) eqn:E2 in |- *; [left; split; [done|]; by apply noteEventLoss_inv|].
  bool_to_prop. right. split.
  - cbn [publishEventQueue with_ingest with_pending eq_pending]. by rewrite lenZ_app.
  - by apply queue_enqueue_inv.
Qed.

Definition log_ids (l : event_log) : list string := (fun w => ev_id w.1) <$> l.

Lemma logged_elem e l : logged e l = true <-> ev_id e ∈ log_ids l.
Proof.
  unfold logged, log_ids. rewrite existsb_exists, list_elem_of_fmap. split.
  - intros (w & Hw%list_elem_of_In & Heq%String.eqb_eq). by exists w.
  - intros (w & Heq & Hw). exists w. split; [by apply list_elem_of_In|]. by apply String.eqb_eq.
Qed.

(** Storing the first event that waits stores it once. *)
Lemma insert_event_split l x w log :
  NoDup (log_ids (l ++ x :: w)) -> split_at l (x :: w) log -> insert_event x log = l ++ [x].
Proof.
  intros Hnd Hs. unfold log_ids in Hnd. rewrite fmap_app, fmap_cons in Hnd.
  apply NoDup_app in Hnd as (_ & Hdis & _). unfold insert_event.
  destruct Hs as [->|(y & Hy & ->)].
  - destruct (logged x.1 l) eqn:E; [|done]. apply logged_elem in E. exfalso. apply (Hdis _ E). by left.
  - injection Hy as <-. assert (logged x.1 (l ++ [x]) = true) as ->; [|done].
    apply logged_elem. unfold log_ids. rewrite fmap_app. apply elem_of_app. right. by left.
Qed.

Lemma flush_loop_inv n : forall fates now before acc base lost ans log l q log' q',
  NoDup (log_ids (before ++ acc)) -> queue_inv before acc base lost ans log l q ->
  flush_loop n fates now log q = (log', q') -> queue_inv before acc base lost ans log' l q'.
Proof.
  induction n as [|n IH]; intros fates now before acc base lost ans log l q log' q' Hnd Hi; cbn [flush_loop].
  { by intros [= <- <-]. }
  destruct (eq_pending q) as [|e pending] eqn:Ep; [by intros [= <- <-]|].
  destruct Hi as [(s & w & Hacc & Hw & Hs) (Hbytes & Hb & Hn) Hl Hlost]. rewrite Ep in *.
  apply Forall2_cons_inv_r in Hw as (x & w' & Hx & Hw & ->). rewrite Hx.
  assert (Hins : insert_event x log = before ++ s ++ [x]).
  { subst acc. rewrite app_assoc in Hnd |- *. by eapply insert_event_split. }
  assert (Hstay : forall log1, split_at (before ++ s) (x :: w') log1 ->
    queue_inv before acc base lost ans log1 l q).
  { intros log1 Hs1. constructor; [|by unfold queue_bounded; rewrite Ep|done|done].
    exists s, (x :: w'). split; [done|]. split; [rewrite Ep; by constructor|done]. }
  unfold call_insert. destruct (fate_of fates).
  - intros [= <- <-]. by apply Hstay.
  - apply IH; [done|]. rewrite Hins. constructor; [| |done|done].
    + exists (s ++ [x]), w'. split; [by rewrite Hacc, <- app_assoc|]. split; [done|by left].
    + unfold queue_bounded. cbn [with_pending persisted_at with_ingest eq_pending eq_bytes].
      rewrite fmap_cons, sumZ_cons in Hbytes. rewrite lenZ_cons in Hn. pose proof (lenZ_nonneg (qe_data e)).
      split; [lia|]. split; lia.
  - intros [= <- <-]. apply Hstay. rewrite Hins, app_assoc. right. by exists x.
Qed.

(** *** The table of gaps *)

Lemma next_id_spec (l : gaps) : 1 <= next_id l /\ forall row, row ∈ l -> row.1 < next_id l.
Proof.
  unfold next_id. induction l as [|row l [IH1 IH2]]; [split; [done|by intros row ?%elem_of_nil]|].
  rewrite fmap_cons. cbn [foldr].
  split; [lia|]. intros row' [->|Hin]%elem_of_cons; [lia|]. specialize (IH2 row' Hin). lia.
Qed.

Lemma next_id_ge (l : gaps) row : row ∈ l -> row.1 + 1 <= next_id l.
Proof. intros Hin. destruct (next_id_spec l) as [_ Hlt]. specialize (Hlt row Hin). lia. Qed.

Lemma next_id_le (l : gaps) c : 1 <= c -> (forall row, row ∈ l -> row.1 < c) -> next_id l <= c.
Proof.
  intros Hc Hall. unfold next_id. induction l as [|row l IH]; [done|]. rewrite fmap_cons. cbn [foldr].
  pose proof (Hall row (list_elem_of_here _ _)).
  assert (foldr Z.max 0 l.*1 + 1 <= c); [|lia]. apply IH. intros row' Hin. apply Hall. by right.
Qed.

(** A row added to the table, as long as the process has not added more than it keeps. *)
Lemma insert_gap_spec g now l r l' r' base :
  insert_gap g now l r = Ok (l', r') -> base <= next_id l ->
  next_id l' = next_id l + 1 /\ (none_evicted base l' -> added base l' = added base l ++ [g]).
Proof.
  unfold insert_gap. cbv zeta. set (id := next_id l). intros Hg Hbase.
  destruct (pruneRows _ _ _ _ _) as [[c r1]|]; [|discriminate Hg]. cbn [rbind] in Hg. injection Hg as <- <-.
  destruct (next_id_spec l) as [Hpos Hlt]. fold id in Hpos, Hlt.
  set (l' := filter _ (l ++ [(id, g)])).
  assert (Hid : next_id l' = id + 1).
  { apply Z.le_antisymm.
    - apply next_id_le; [lia|]. intros row [_ Hin]%list_elem_of_filter.
      apply elem_of_app in Hin as [Hin| ->%list_elem_of_singleton]; [|simpl; lia].
      specialize (Hlt row Hin). lia.
    - apply (next_id_ge l' (id, g)), list_elem_of_filter. split; [simpl; lia|].
      apply elem_of_app. right. by apply list_elem_of_singleton. }
  split; [done|]. unfold none_evicted. rewrite Hid. intros Hev. unfold added, l'.
  rewrite list_filter_filter.
  rewrite (list_filter_iff _ (fun row : Z * gap => base <= row.1)) by (intros row; lia).
  rewrite filter_app, fmap_app. f_equal. by rewrite filter_cons_True.
Qed.

Lemma recorded_snoc base l l' g :
  added base l' = added base l ++ [g] -> recorded_losses base l' = recorded_losses base l + row_losses g.
Proof. intros E. unfold recorded_losses. rewrite E, fmap_app, sumZ_app. simpl. lia. Qed.

(** A call that stores a gap adds its row; one that does not leaves the table. *)
Lemma call_gap_spec f g now t b t' base :
  call_gap f g now t = (b, t') -> base <= next_id t.1 ->
  (t' = t /\ b = false)
  \/ (next_id t'.1 = next_id t.1 + 1 /\ (b = false -> f = AnswerLost)
     /\ (none_evicted base t'.1 -> added base t'.1 = added base t.1 ++
          [mkGap (cg_name g) (cg_reason g) (unix_milli (cg_start g)) (unix_milli (cg_end g)) (cg_count g)])).
Proof.
  unfold call_gap, recordCoverageGap. intros Hc Hbase.
  destruct f; [by injection Hc as <- <-; left|..]; (case_if_in Hc; [by injection Hc as <- <-; left|]);
    destruct (insert_gap _ _ _ _) as [[l' r']|] eqn:Ei; injection Hc as <- <-; try (by left); right;
    destruct (insert_gap_spec _ _ _ _ _ _ base Ei Hbase) as [Hid Hadd]; done.
Qed.

#[local] Instance call_fate_eq_dec : EqDecision call_fate.
Proof. solve_decision. Defined.

Lemma flush_loss_inv k f now before acc base lost ans log t q t' q' g :
  queue_inv before acc base lost ans log t.1 q -> flush_loss k f now t q = (t', q', g) ->
  queue_inv before acc base lost (ans && negb (bool_decide (f = AnswerLost))) log t'.1 q'.
Proof.
  intros [Hs Hb Hok (Hl0 & Hbase & Hd & Hrec)] Hfl.
  pose proof (loss_nonneg q Hok) as Hpos. pose proof Hok as (Hc & Hv & Hr).
  set (ans' := ans && _).
  assert (Hans : ans' = true -> ans = true /\ f <> AnswerLost).
  { unfold ans'. intros [Ha Hf]%andb_true_iff. split; [done|]. by case_bool_decide. }
  clearbody ans'. revert Hfl. unfold flush_loss.
  destruct (el_active (loss_of_kind k (eq_losses q))) eqn:Ea; cbn [negb].
  2: { intros [= <- <- <-]. constructor; [done..|]. split_and!; [done..|]. intros Hev.
       destruct (Hrec Hev) as [Hm Hsum]. split; [done|]. intros Hmax.
       destruct (Hsum Hmax) as [Hle Heq]. split; [done|]. intros [Ha _]%Hans. by apply Heq. }
  set (gp := mkCoverageGap _ _ _ _ _).
  destruct (call_gap f gp now t) as [b t1] eqn:Ec.
  destruct (call_gap_spec _ _ _ _ _ _ base Ec Hbase) as [[-> ->]|(Hid & Hlost & Hadd)].
  { intros [= <- <- <-]. constructor; [done..|]. split_and!; [done..|]. intros Hev.
    destruct (Hrec Hev) as [Hm Hsum]. split; [done|]. intros Hmax.
    destruct (Hsum Hmax) as [Hle Heq]. split; [done|]. intros [Ha _]%Hans. by apply Heq. }
  set (row := mkGap _ _ _ _ _) in Hadd.
  assert (Hrow : row_losses row =
    match k with eventRestart => 0 | _ => el_count (loss_of_kind k (eq_losses q)) end)
    by (unfold row_losses, row, gp; by destruct k).
  assert (Hev0 : none_evicted base t1.1 -> none_evicted base t.1) by (unfold none_evicted; lia).
  assert (Hmark : none_evicted base t1.1 -> forall q1, (k = eventRestart \/
      ls_restart (eq_losses q1) = ls_restart (eq_losses q)) -> restart_marked base t1.1 q1).
  { intros Hev q1 Hq1. unfold restart_marked. rewrite (Hadd Hev).
    destruct Hq1 as [-> | ->].
    - right. exists row. split; [apply elem_of_app; right; by apply list_elem_of_singleton|done].
    - destruct (Hrec (Hev0 Hev)) as [[Hm|(g0 & Hg0 & Hm)] _]; [by left|right].
      exists g0. split; [apply elem_of_app; by left|done]. }
  destruct b; intros [= <- <- <-].
  - constructor; [done|done| |].
    + unfold losses_ok. cbn [with_losses eq_losses].
      destruct k; cbn [set_loss ls_capacity ls_invalid ls_restart]; split_and!; try done. by left.
    + assert (Hw : waiting_losses (with_losses (set_loss k no_loss (eq_losses q)) q) + row_losses row
                     = waiting_losses q).
      { rewrite Hrow. unfold waiting_losses. cbn [with_losses eq_losses].
        destruct k; cbn [set_loss loss_of_kind ls_capacity ls_invalid el_count no_loss]; lia. }
      assert (Hrow0 : 0 <= row_losses row) by (rewrite Hrow; destruct k; simpl; lia).
      cbn [with_losses eq_ingest]. split; [done|]. split; [lia|]. split.
      { intros Hmax. destruct (Hd Hmax). cbn [with_losses eq_ingest]. split; [done|]. lia. }
      intros Hev. split.
      { apply Hmark; [done|]. destruct k; [right|right|by left]; done. }
      intros Hmax. destruct (Hrec (Hev0 Hev)) as [_ Hsum]. destruct (Hsum Hmax) as [Hle Heq].
      rewrite (recorded_snoc _ _ _ _ (Hadd Hev)). split; [lia|].
      intros [Ha _]%Hans. specialize (Heq Ha). lia.
  - constructor; [done..|]. split; [done|]. split; [lia|]. split; [done|]. intros Hev. split.
    { apply Hmark; [done|by right]. }
    intros Hmax. destruct (Hrec (Hev0 Hev)) as [_ Hsum]. destruct (Hsum Hmax) as [Hle Heq].
    rewrite (recorded_snoc _ _ _ _ (Hadd Hev)), Hrow. split; [destruct k; simpl; lia|].
    intros [_ Hf]%Hans. by destruct Hf, Hlost.
Qed.

(** No gap of the flush was stored without an answer. *)
Definition gaps_answered (f : flush_fates) : bool :=
  negb (bool_decide (ff_capacity f = AnswerLost)) && negb (bool_decide (ff_invalid f = AnswerLost))
  && negb (bool_decide (ff_restart f = AnswerLost)).

Lemma flushEvents_inv f now before acc base lost ans log t q log' t' q' g :
  NoDup (log_ids (before ++ acc)) -> queue_inv before acc base lost ans log t.1 q ->
  flushEvents f now log t q = (log', t', q', g) ->
  queue_inv before acc base lost (ans && gaps_answered f) log' t'.1 q'.
Proof.
  intros Hnd Hi. unfold flushEvents, gaps_answered.
  destruct (flush_loop _ _ _ _ _) as [log1 q1] eqn:E1.
  apply (flush_loop_inv _ _ _ before acc base lost ans _ t.1) in E1; [|done..].
  destruct (flush_loss eventCapacity _ _ _ _) as [[t2 q2] g2] eqn:E2. eapply flush_loss_inv in E2; [|exact E1].
  destruct (flush_loss eventInvalid _ _ _ _) as [[t3 q3] g3] eqn:E3. eapply flush_loss_inv in E3; [|exact E2].
  destruct (flush_loss eventRestart _ _ _ _) as [[t4 q4] g4] eqn:E4. eapply flush_loss_inv in E4; [|exact E3].
  intros [= <- <- <- <-]. rewrite !andb_assoc. destruct E4 as [G1 G2 G3 G4]. by constructor.
Qed.

Definition op_event_ids (ops : list queue_op) : list string :=
  omap (fun op => match op with OpQueue e _ _ => Some (ev_id e) | OpFlush _ _ => None end) ops.

Definition ops_answered (ops : list queue_op) : bool :=
  forallb (fun op => match op with OpQueue _ _ _ => true | OpFlush f _ => gaps_answered f end) ops.

Definition run_inv (before : event_log) (base : Z) (ans : bool) (s : queue_run) : Prop :=
  queue_inv before (qr_accepted s) base (qr_lost s) ans (qr_log s) (qr_tables s).1 (qr_queue s).

Lemma queue_offer_inv before base ans s e m now :
  run_inv before base ans s -> run_inv before base ans (queue_step s (OpQueue e m now)).
Proof.
  intros Hi. unfold run_inv, queue_step.
  destruct (queueEvent_inv _ _ _ _ _ _ _ _ e m now Hi) as [[Hlen Hi']|[Hlen Hi']].
  - rewrite (proj2 (Z.eqb_eq _ _) Hlen). exact Hi'.
  - rewrite (proj2 (Z.eqb_neq _ _)) by lia. exact Hi'.
Qed.

Lemma queue_flush_inv before base ans s f now :
  NoDup (log_ids (before ++ qr_accepted s)) -> run_inv before base ans s ->
  run_inv before base (ans && gaps_answered f) (queue_step s (OpFlush f now)).
Proof.
  intros Hnd Hi. unfold run_inv, queue_step.
  destruct (flushEvents f now (qr_log s) (qr_tables s) (qr_queue s)) as [[[log t] q] g] eqn:E.
  exact (flushEvents_inv _ _ _ _ _ _ _ _ _ _ _ _ _ _ Hnd Hi E).
Qed.

Lemma flush_keeps_accepted s f now : qr_accepted (queue_step s (OpFlush f now)) = qr_accepted s.
Proof.
  unfold queue_step. by destruct (flushEvents f now (qr_log s) (qr_tables s) (qr_queue s)) as [[[log t] q] g].
Qed.

(** The accepted events are among those that were offered, in order. *)
Lemma accepted_sublist ops : forall s,
  log_ids (qr_accepted (foldl queue_step s ops)) `sublist_of` log_ids (qr_accepted s) ++ op_event_ids ops.
Proof.
  induction ops as [|op ops IH]; intros s; simpl; [by rewrite app_nil_r|].
  etransitivity; [apply IH|]. destruct op as [e m now|f now]; [|by rewrite flush_keeps_accepted].
  unfold queue_step. case_if; cbn [qr_accepted].
  - apply sublist_app; [done|]. by constructor.
  - unfold log_ids. by rewrite fmap_app, <- app_assoc.
Qed.

Lemma queue_run_inv before base ops : forall ans s,
  NoDup (log_ids before ++ log_ids (qr_accepted s) ++ op_event_ids ops) -> run_inv before base ans s ->
  run_inv before base (ans && ops_answered ops) (foldl queue_step s ops).
Proof.
  induction ops as [|op ops IH]; intros ans s Hnd Hi; [by rewrite andb_true_r|]. simpl.
  assert (Hone : log_ids (qr_accepted (queue_step s op)) ++ op_event_ids ops
      `sublist_of` log_ids (qr_accepted s) ++ op_event_ids (op :: ops)).
  { etransitivity; [apply sublist_app; [apply (accepted_sublist [op])|done]|].
    rewrite <- app_assoc. apply sublist_app; [done|]. destruct op; done. }
  assert (Hnd1 : NoDup (log_ids before ++ log_ids (qr_accepted (queue_step s op)) ++ op_event_ids ops)).
  { eapply sublist_NoDup; [exact Hnd|]. by apply sublist_app. }
  destruct op as [e m now|f now].
  - apply (IH ans); [done|]. by apply queue_offer_inv.
  - rewrite andb_assoc. apply IH; [done|]. apply queue_flush_inv; [|done].
    unfold log_ids. rewrite fmap_app. rewrite app_assoc in Hnd. by apply NoDup_app in Hnd as [? _].
Qed.

(** C22. No event is lost silently, stored twice or stored out of order: after any
    sequence of events and flushes of a process, whatever the store does with each
    transaction, the log is what it was before followed by the accepted events in their
    order, those that wait excepted (the first of them may be stored already, when only
    its answer was lost), and at most 1024 events and 4 MiB wait.  Every event turned
    away is counted by the status and, as long as the process has added no more rows than
    [coverage_gaps] keeps, in that table or in the losses that wait to be recorded: never
    less than were lost, and exactly those if no answer of the store was lost.  The restart
    itself is marked in the table or waits to be. *)
Theorem event_queue_accounts started log t ops :
  NoDup (log_ids log ++ op_event_ids ops) ->
  let s := foldl queue_step (queue_start started log t) ops in
  let base := next_id t.1 in
  let l := (qr_tables s).1 in
  (exists stored waiting, qr_accepted s = stored ++ waiting
     /\ Forall2 waits waiting (eq_pending (qr_queue s)) /\ split_at (log ++ stored) waiting (qr_log s))
  /\ lenZ (eq_pending (qr_queue s)) <= maxPendingEvents
  /\ sumZ ((fun e => lenZ (qe_data e)) <$> eq_pending (qr_queue s)) <= maxPendingEventBytes
  /\ (qr_lost s <= i64_max -> in_dropped (eq_ingest (qr_queue s)) = qr_lost s)
  /\ (none_evicted base l ->
       restart_marked base l (qr_queue s)
       /\ (qr_lost s <= i64_max ->
            qr_lost s <= recorded_losses base l + waiting_losses (qr_queue s)
            /\ (ops_answered ops = true ->
                 recorded_losses base l + waiting_losses (qr_queue s) = qr_lost s))).
Proof.
  intros Hnd s base l.
  assert (Hi : run_inv log base (true && ops_answered ops) s).
  { apply queue_run_inv; [done|]. constructor.
    - exists [], []. split; [done|]. split; [constructor|]. left. by rewrite app_nil_r.
    - by repeat split.
    - split_and!; [done|done|]. by right.
    - assert (H0 : recorded_losses base t.1 = 0).
      { unfold recorded_losses, added.
        destruct (filter (fun row : Z * gap => base <= row.1) t.1) as [|row rows] eqn:E; [done|]. exfalso.
        assert (Hin : row ∈ filter (fun row : Z * gap => base <= row.1) t.1) by (rewrite E; by left).
        apply list_elem_of_filter in Hin as [Hge Hin]. destruct (next_id_spec t.1) as [_ Hlt].
        specialize (Hlt row Hin). unfold base in Hge. lia. }
      split; [done|]. split; [done|]. split; [done|]. intros _. split; [by left|].
      intros _. cbn [queue_start qr_tables qr_lost qr_queue]. rewrite H0. done. }
  destruct Hi as [Hs (Hbytes & Hb & Hn) _ (_ & _ & Hd & Hrec)].
  split; [exact Hs|]. split; [exact Hn|]. split; [by rewrite <- Hbytes|].
  split; [intros Hmax; by apply Hd|]. exact Hrec.
Qed.
End EventQueue.

(** ** A worked example *)

#[local] Instance Geo_eq_dec : EqDecision Geo.
Proof. solve_decision. Defined.
#[local] Instance Event_eq_dec : EqDecision Event.
Proof. unfold EqDecision, time in *. solve_decision. Defined.

Definition example_event (id : string) : Event :=
  mkEvent id "inc_1" (unix_epoch + 5 * second) "port_scan" "start" SeverityMedium "" "" "" "" 20 no_geo ∅.

(** A codec of two events; the third cannot be encoded. *)
Definition example_encode (w : Event * option unit) : option (list Z) :=
  if decide (w = (example_event "a", None)) then Some [1]
  else if decide (w = (example_event "b", None)) then Some [2; 2] else None.
Definition example_decode (data : list Z) : option (Event * option unit) :=
  match data with [1] => Some (example_event "a", None) | [2; 2] => Some (example_event "b", None) | _ => None end.

Definition example_ops : list (@queue_op unit) :=
  let now := unix_epoch + 9 * second in
  [OpQueue (example_event "a") None now; OpQueue (example_event "b") None now;
   OpFlush (mkFates [AnswerLost] NotRun NotRun NotRun) now;
   OpQueue (example_event "c") None now;
   OpFlush (mkFates [Answered; Answered] Answered Answered Answered) now].

Definition example_run (ops : list (@queue_op unit)) : queue_run :=
  foldl (queue_step example_encode example_decode (fun _ => true))
    (queue_start unix_epoch [] ([], no_retention)) ops.

Lemma event_queue_accounts_witness :
  let s := example_run example_ops in
  log_ids (qr_log s) = ["a"; "b"]%string /\ qr_lost s = 1 /\ recorded_losses 1 (qr_tables s).1 = 1 /\
  ((exists stored waiting, qr_accepted s = stored ++ waiting
     /\ Forall2 (waits example_decode) waiting (eq_pending (qr_queue s))
     /\ split_at ([] ++ stored) waiting (qr_log s))
  /\ lenZ (eq_pending (qr_queue s)) <= maxPendingEvents
  /\ sumZ ((fun e => lenZ (qe_data e)) <$> eq_pending (qr_queue s)) <= maxPendingEventBytes
  /\ (qr_lost s <= i64_max -> in_dropped (eq_ingest (qr_queue s)) = qr_lost s)
  /\ (none_evicted 1 (qr_tables s).1 ->
       restart_marked 1 (qr_tables s).1 (qr_queue s)
       /\ (qr_lost s <= i64_max ->
            qr_lost s <= recorded_losses 1 (qr_tables s).1 + waiting_losses (qr_queue s)
            /\ (ops_answered example_ops = true ->
                 recorded_losses 1 (qr_tables s).1 + waiting_losses (qr_queue s) = qr_lost s)))).
Proof.
  intros s. split; [vm_compute; reflexivity|]. split; [vm_compute; reflexivity|]. split; [vm_compute; reflexivity|].
  apply (event_queue_accounts example_encode example_decode (fun _ => true)).
  - intros w data. unfold example_encode. repeat case_decide; intros [= <-]; subst; reflexivity.
  - apply (bool_decide_unpack _). vm_compute. exact I.
Defined.

(** A gap whose answer was lost is recorded again by the next flush: one event turned away,
    two in the table. *)
Lemma gap_recounted :
  let now := unix_epoch + 9 * second in
  let s := example_run [OpQueue (example_event "c") None now;
                        OpFlush (mkFates [] Answered AnswerLost Answered) now;
                        OpFlush (mkFates [] Answered Answered Answered) now] in
  qr_lost s = 1 /\ recorded_losses 1 (qr_tables s).1 = 2.
Proof. vm_compute. done. Qed.
