(* ===== verification/Coverage.v ===== *)
(** * Intervals of component states

    [internal/store/coverage.go]: the store keeps what each component was doing as
    intervals of milliseconds, of which the last one of a component is open while the
    component is registered and reaches to its last sign of life. *)

From S2P Require Export Retention.

Definition maxCoverageIntervals : Z := 10000.

(** A row of [coverage_intervals]; the table is in the order of its ids. *)
Record interval := mkInterval {
  iv_id : Z; iv_name : string; iv_state : string; iv_start : Z; iv_end : option Z }.

(** [component_status]: the state and [updated_at] of a name. *)
Record CoverageDB := mkCoverage {
  cv_intervals : list interval; cv_status : gmap string (string * Z) }.

Definition no_coverage : CoverageDB := mkCoverage [] ∅.

Definition open_interval (iv : interval) : bool := if iv_end iv is None then true else false.
Definition end_at (ms : Z) (iv : interval) : interval :=
  mkInterval (iv_id iv) (iv_name iv) (iv_state iv) (iv_start iv) (Some ms).
Definition next_interval (l : list interval) : Z := foldr Z.max 0 (iv_id <$> l) + 1.

(** [UPDATE coverage_intervals SET ended_at=MAX(started_at,?) WHERE name=? AND ended_at IS NULL]. *)
Definition close_open (name : string) (ms : Z) (l : list interval) : list interval :=
  (fun iv => if (iv_name iv =?s name) && open_interval iv then end_at (Z.max (iv_start iv) ms) iv else iv) <$> l.

(** What the retention of intervals removes, and what it leaves: the closed ones that
    are not among the last [maxCoverageIntervals]. *)
Definition evicted_intervals (l : list interval) : list interval :=
  filter (fun iv => open_interval iv = false) (take (Z.to_nat (lenZ l - maxCoverageIntervals)) l).
Definition kept_intervals (l : list interval) : list interval :=
  filter (fun iv => open_interval iv = true) (take (Z.to_nat (lenZ l - maxCoverageIntervals)) l)
  ++ drop (Z.to_nat (lenZ l - maxCoverageIntervals)) l.

(** [setCoverage]. *)
Definition setCoverage (name state : string) (now : time) (d : CoverageDB) (r : Retention)
    : result retention_error (CoverageDB * Retention) :=
  if (name =?s "") || (64 <? string_len name) || negb (one_of ["running"; "degraded"; "disabled"] state)
  then Err InvalidRetention
  else
    let ms := unix_milli now in
    let status := <[name := (state, match cv_status d !! name with
                                    | Some (_, updated) => Z.max updated ms
                                    | None => ms
                                    end)]> (cv_status d) in
    if bool_decide (fst <$> cv_status d !! name = Some state)
    then Ok (mkCoverage (cv_intervals d) status, r)
    else
      let l := close_open name ms (cv_intervals d) in
      let l := l ++ [mkInterval (next_interval l) name state ms None] in
      let? (_, r) := pruneRows "coverage_intervals" "capacity_eviction"
                       ((fun iv => (iv_start iv, default (iv_start iv) (iv_end iv))) <$> evicted_intervals l) now r in
      Ok (mkCoverage (kept_intervals l) status, r).

(** [HeartbeatCoverage]. *)
Definition HeartbeatCoverage (now : time) (d : CoverageDB) : CoverageDB :=
  mkCoverage (cv_intervals d) ((fun '(state, updated) => (state, Z.max updated (unix_milli now))) <$> cv_status d).

(** [resetCoverage]: open intervals end at the last sign of life; what follows until
    [now] is unknown.  [o] is the order of [SELECT ... FROM component_status]. *)
Definition close_at_heartbeat (ms : Z) (status : gmap string (string * Z)) (iv : interval) : interval :=
  if open_interval iv
  then end_at (Z.max (iv_start iv) (Z.min ms (from_option snd (iv_start iv) (status !! iv_name iv)))) iv
  else iv.

Definition add_unknown (ms : Z) (l : list interval) (row : string * (string * Z)) : list interval :=
  l ++ [mkInterval (next_interval l) row.1 "unknown" (Z.min row.2.2 ms) (Some ms)].

Definition resetCoverage (o : map_order) (now : time) (d : CoverageDB) : CoverageDB :=
  let ms := unix_milli now in
  mkCoverage
    (foldl (add_unknown ms) (close_at_heartbeat ms (cv_status d) <$> cv_intervals d)
       (filter (fun row : string * (string * Z) => row.2.2 < ms) (entries o (cv_status d))))
    ∅.

(** ** The totals of a range *)

(** [COALESCE(i.ended_at,c.updated_at,i.started_at)]. *)
Definition stop_of (d : CoverageDB) (iv : interval) : Z :=
  match iv_end iv with
  | Some e => e
  | None => from_option snd (iv_start iv) (cv_status d !! iv_name iv)
  end.

Definition overlap (d : CoverageDB) (a b : Z) (iv : interval) : Z :=
  Z.max 0 (Z.min (stop_of d iv) b - Z.max (iv_start iv) a).

Definition interval_key (iv : interval) : string * string := (iv_name iv, iv_state iv).

(** [Coverage]: name, state and milliseconds; [None] for an empty range. *)
Definition Coverage (start stop : time) (d : CoverageDB) : option (list (string * string * Z)) :=
  if negb (before start stop) then None
  else
    let a := unix_milli start in
    let b := unix_milli stop in
    let rows := filter (fun iv => iv_start iv < b /\ a < stop_of d iv) (cv_intervals d) in
    let total k := (k, sumZ (overlap d a b <$> filter (fun iv => interval_key iv = k) rows)) in
    Some (take 128 (sort_by (fun x y => lex string_lt string_lt x.1 y.1) (total <$> remove_dups (interval_key <$> rows)))).

(** ** Histories *)

Inductive coverage_op :=
| CovSet (name state : string) (now : time)
| CovHeartbeat (now : time)
| CovReset (o : map_order) (now : time).

Definition coverage_ms (op : coverage_op) : Z :=
  unix_milli match op with CovSet _ _ now | CovHeartbeat now | CovReset _ now => now end.

Definition coverage_step (s : CoverageDB * Retention) (op : coverage_op) : result retention_error (CoverageDB * Retention) :=
  match op with
  | CovSet name state now => setCoverage name state now s.1 s.2
  | CovHeartbeat now => Ok (HeartbeatCoverage now s.1, s.2)
  | CovReset o now => Ok (resetCoverage o now s.1, s.2)
  end.

(** What the intervals stand for: the state of every component at every millisecond,
    and the last sign of life of those registered.  A state lasts until the next; a
    process that starts makes the time since the last sign of life unknown. *)
Record timeline := mkTimeline {
  tl_state : string -> Z -> option string; tl_alive : gmap string Z }.

Definition no_timeline : timeline := mkTimeline (fun _ _ => None) ∅.

Definition timeline_step (tl : timeline) (op : coverage_op) : timeline :=
  let ms := coverage_ms op in
  match op with
  | CovSet name state _ =>
      mkTimeline (fun n t => if decide (n = name) then if ms <=? t then Some state else tl_state tl n t
                             else tl_state tl n t)
        (<[name := from_option (Z.max ms) ms (tl_alive tl !! name)]> (tl_alive tl))
  | CovHeartbeat _ => mkTimeline (tl_state tl) (Z.max ms <$> tl_alive tl)
  | CovReset _ _ =>
      mkTimeline (fun n t => match tl_alive tl !! n with
                             | Some alive => if ms <=? t then None else if alive <=? t then Some "unknown"%string
                                             else tl_state tl n t
                             | None => tl_state tl n t
                             end) ∅
  end.

(** ** The intervals are the timeline *)

(** An interval ends before a later one of the same name starts. *)
Definition ends_before (i j : interval) : Prop :=
  iv_name i = iv_name j -> exists e, iv_end i = Some e /\ e <= iv_start j.

Definition interval_ok (now : Z) (tl : timeline) (d : CoverageDB) (iv : interval) : Prop :=
  match iv_end iv with
  | Some e =>
      iv_start iv <= e <= now
      /\ (forall t, iv_start iv <= t < e -> tl_state tl (iv_name iv) t = Some (iv_state iv))
      /\ (forall st u, cv_status d !! iv_name iv = Some (st, u) -> e <= u)
  | None =>
      exists u, cv_status d !! iv_name iv = Some (iv_state iv, u) /\ iv_start iv <= u
        /\ forall t, iv_start iv <= t -> tl_state tl (iv_name iv) t = Some (iv_state iv)
  end.

Definition covers (d : CoverageDB) (iv : interval) (t : Z) : Prop := iv_start iv <= t < stop_of d iv.

Definition evictions (r : Retention) : option entry := rn_totals r !! ("coverage_intervals", "capacity_eviction")%string.

Record coverage_inv (now : Z) (tl : timeline) (d : CoverageDB) (r : Retention) : Prop := {
  ci_alive : tl_alive tl = snd <$> cv_status d;
  ci_now : forall n st u, cv_status d !! n = Some (st, u) -> u <= now;
  ci_order : StronglySorted ends_before (cv_intervals d);
  ci_intervals : Forall (interval_ok now tl d) (cv_intervals d);
  ci_open : forall n st u, cv_status d !! n = Some (st, u) ->
    exists iv, iv ∈ cv_intervals d /\ iv_name iv = n /\ iv_end iv = None;
  ci_full : evictions r = None -> forall n t s, tl_state tl n t = Some s ->
    (forall u, tl_alive tl !! n = Some u -> t < u) ->
    exists iv, iv ∈ cv_intervals d /\ iv_name iv = n /\ covers d iv t }.

Lemma pruneRows_evictions rows now r n r' :
  pruneRows "coverage_intervals" "capacity_eviction" rows now r = Ok (n, r') ->
  evictions r' = None -> evictions r = None /\ rows = [].
Proof.
  unfold pruneRows. cbn [ValidRetentionDataset]. change (ValidRetentionDataset _) with true. cbn [negb].
  assert (Hext : forall rows c s e, 0 <= c ->
    c <= (foldl (fun '(count, start, stop) '(low, high) =>
           (count + 1, if (count =? 0) || (low <? start) then low else start,
            if (count =? 0) || (stop <? high) then high else stop)) (c, s, e) rows).1.1
    /\ (rows <> [] -> c < (foldl (fun '(count, start, stop) '(low, high) =>
           (count + 1, if (count =? 0) || (low <? start) then low else start,
            if (count =? 0) || (stop <? high) then high else stop)) (c, s, e) rows).1.1)).
  { induction rows0 as [|[a b] l IH]; intros c s e Hc; simpl; [split; [lia|done]|].
    match goal with |- context [foldl _ (c + 1, ?x, ?y) _] => specialize (IH (c + 1) x y ltac:(lia)) end.
    split; [lia|intros _; lia]. }
  specialize (Hext rows 0 0 0 ltac:(lia)). unfold extent.
  destruct (foldl _ _ _) as [[c s] e]. simpl in Hext.
  destruct (recordRetention _ _ _ _ _ _ _) as [r1|] eqn:Er; [|discriminate]. simpl. intros [= <- <-].
  unfold recordRetention in Er. destruct (c =? 0) eqn:E0; bool_to_prop.
  { injection Er as <-. intros He. split; [done|]. destruct rows; [done|]. destruct Hext as [_ Hx].
    specialize (Hx ltac:(done)). lia. }
  destruct (_ || _); [discriminate|]. destruct (ledger_upsert _ _ _) as [l|]; [|discriminate]. simpl in Er.
  assert (Ht : rn_totals r1 = total_upsert ("coverage_intervals", "capacity_eviction")%string
    (mkLedgerEntry 1 c s e (unix_milli now) (unix_milli now)) (rn_totals r)).
  { revert Er. by case_if; intros [= <-]. }
  unfold evictions. rewrite Ht. unfold total_upsert. destruct (rn_totals r !! _); by rewrite lookup_insert_eq.
Qed.

Lemma open_interval_spec iv : open_interval iv = true <-> iv_end iv = None.
Proof. unfold open_interval. by destruct (iv_end iv). Qed.

Lemma kept_sublist l : kept_intervals l `sublist_of` l.
Proof.
  unfold kept_intervals. set (n := Z.to_nat _). clearbody n. transitivity (take n l ++ drop n l); [|by rewrite take_drop].
  apply sublist_app; [apply sublist_filter|done].
Qed.

Lemma kept_open l iv : iv ∈ l -> iv_end iv = None -> iv ∈ kept_intervals l.
Proof.
  intros Hin Ho. unfold kept_intervals. apply elem_of_app.
  rewrite <- (take_drop (Z.to_nat (lenZ l - maxCoverageIntervals)) l) in Hin.
  apply elem_of_app in Hin as [Hin|Hin]; [left|by right].
  apply list_elem_of_filter. split; [by apply open_interval_spec|done].
Qed.

Lemma kept_all l iv : evicted_intervals l = [] -> iv ∈ l -> iv ∈ kept_intervals l.
Proof.
  intros He Hin. destruct (open_interval iv) eqn:Eo; [apply kept_open; [done|by apply open_interval_spec]|].
  unfold kept_intervals. apply elem_of_app.
  rewrite <- (take_drop (Z.to_nat (lenZ l - maxCoverageIntervals)) l) in Hin.
  apply elem_of_app in Hin as [Hin|Hin]; [exfalso|by right].
  assert (Hx : iv ∈ evicted_intervals l) by (by apply list_elem_of_filter). rewrite He in Hx. by apply elem_of_nil in Hx.
Qed.

Lemma StronglySorted_sublist {A} (R : A -> A -> Prop) l l' :
  l `sublist_of` l' -> StronglySorted R l' -> StronglySorted R l.
Proof.
  induction 1 as [|x l l' Hs IH|x l l' Hs IH]; intros Hr; [constructor| |].
  - apply StronglySorted_inv in Hr as [Hr Hf]. constructor; [by apply IH|].
    apply Forall_forall. intros y Hy. rewrite Forall_forall in Hf. apply Hf.
    by eapply elem_of_sublist.
  - apply StronglySorted_inv in Hr as [Hr _]. by apply IH.
Qed.

Lemma close_open_elem name ms l iv :
  iv ∈ close_open name ms l <->
  exists iv0, iv0 ∈ l /\ iv = if (iv_name iv0 =?s name) && open_interval iv0 then end_at (Z.max (iv_start iv0) ms) iv0 else iv0.
Proof. unfold close_open. rewrite list_elem_of_fmap. split; intros (iv0 & H1 & H2); exists iv0; done. Qed.

(** Closing open intervals keeps the order. *)
Lemma ends_before_close (f : interval -> interval) l :
  (forall iv, iv_name (f iv) = iv_name iv /\ iv_start (f iv) = iv_start iv
     /\ (open_interval iv = false -> f iv = iv)) ->
  StronglySorted ends_before l -> StronglySorted ends_before (f <$> l).
Proof.
  intros Hf. induction 1 as [|iv l Hs IH Hall]; [constructor|]. rewrite fmap_cons. constructor; [done|].
  apply Forall_fmap. eapply Forall_impl; [exact Hall|]. intros j Hj. unfold ends_before, compose in *.
  destruct (Hf iv) as (Hn & _ & Hk), (Hf j) as (-> & -> & _). rewrite Hn. intros Heq.
  destruct (Hj Heq) as (e & He & Hle). rewrite Hk; [by exists e|]. unfold open_interval. by rewrite He.
Qed.

Lemma ends_before_snoc l j :
  StronglySorted ends_before l -> Forall (fun i => ends_before i j) l -> StronglySorted ends_before (l ++ [j]).
Proof.
  induction 1 as [|i l Hs IH Hall]; intros Hj; simpl; [by repeat constructor|].
  apply Forall_cons in Hj as [Hi Hj]. constructor; [by apply IH|]. apply Forall_app. split; [done|]. by constructor.
Qed.

(** At most one interval of a name is open. *)
Lemma open_unique l i j :
  StronglySorted ends_before l -> i ∈ l -> j ∈ l -> iv_name i = iv_name j -> iv_end i = None -> iv_end j = None -> i = j.
Proof.
  induction 1 as [|k l Hs IH Hall]; intros Hi Hj Hn Hei Hej; [by apply elem_of_nil in Hi|].
  rewrite Forall_forall in Hall. apply elem_of_cons in Hi, Hj.
  destruct Hi as [Hi|Hi], Hj as [Hj|Hj]; subst; [done| | |by apply IH].
  - destruct (Hall _ Hj Hn) as (e & He & _). congruence.
  - destruct (Hall _ Hi (eq_sym Hn)) as (e & He & _). congruence.
Qed.

(** ** Each operation keeps the invariant *)

Lemma cov_set_status now tl d (name : string) ms :
  (forall n st u, cv_status d !! n = Some (st, u) -> u <= now) -> now <= ms ->
  tl_alive tl = snd <$> cv_status d ->
  (match cv_status d !! name with Some (_, u) => Z.max u ms | None => ms end) = ms
  /\ from_option (Z.max ms) ms (tl_alive tl !! name) = ms.
Proof.
  intros Hnow Hms Ha. rewrite Ha, lookup_fmap. destruct (cv_status d !! name) as [[st u]|] eqn:E; simpl; [|done].
  specialize (Hnow _ _ _ E). lia.
Qed.

Lemma coverage_inv_ext now tl tl' d r :
  (forall n t, tl_state tl' n t = tl_state tl n t) -> tl_alive tl' = tl_alive tl ->
  coverage_inv now tl d r -> coverage_inv now tl' d r.
Proof.
  intros Hs Hal [Ha Hn Ho Hi Hopen Hfull]. constructor; try done.
  - by rewrite Hal.
  - eapply Forall_impl; [exact Hi|]. intros iv. unfold interval_ok. destruct (iv_end iv).
    + intros (H1 & H2 & H3). split; [done|]. split; [|done]. intros t Ht. rewrite Hs. by apply H2.
    + intros (u & H1 & H2 & H3). exists u. split; [done|]. split; [done|]. intros t Ht. rewrite Hs. by apply H3.
  - intros He n t s. rewrite Hs, Hal. by apply Hfull.
Qed.

(** A heartbeat, or a state that is reported again. *)
Lemma status_extended now ms tl d r status alive :
  coverage_inv now tl d r -> now <= ms ->
  (forall n, status !! n = cv_status d !! n \/ exists st u, cv_status d !! n = Some (st, u) /\ status !! n = Some (st, ms)) ->
  alive = snd <$> status ->
  coverage_inv ms (mkTimeline (tl_state tl) alive) (mkCoverage (cv_intervals d) status) r.
Proof.
  intros [Ha Hn Ho Hi Hopen Hfull] Hms Hst ->. constructor; cbn [tl_alive cv_status cv_intervals tl_state]; [done| | | | |].
  - intros n st u Hl. destruct (Hst n) as [Heq|(st' & u' & _ & Heq)]; rewrite Heq in Hl.
    + specialize (Hn _ _ _ Hl). lia.
    + injection Hl as <- <-. lia.
  - done.
  - eapply Forall_impl; [exact Hi|]. intros iv. unfold interval_ok. cbn [cv_status tl_state].
    destruct (iv_end iv) as [e|].
    + intros (He & Hs & Hc). split; [lia|]. split; [done|]. intros st u Hl.
      destruct (Hst (iv_name iv)) as [Heq|(st' & u' & Hold & Heq)]; rewrite Heq in Hl; [by eapply Hc|].
      injection Hl as <- <-. lia.
    + intros (u & Hu & Hle & Hs). destruct (Hst (iv_name iv)) as [Heq|(st' & u' & Hold & Heq)].
      * exists u. by rewrite Heq.
      * rewrite Hold in Hu. injection Hu as -> <-. exists ms. specialize (Hn _ _ _ Hold).
        split; [done|]. split; [lia|done].
  - intros n st u Hl. destruct (Hst n) as [Heq|(st' & u' & Hold & _)]; [rewrite Heq in Hl|]; by eapply Hopen.
  - intros He n t s Hs Hlt.
    assert (Hcov : forall iv, iv ∈ cv_intervals d -> covers d iv t -> covers (mkCoverage (cv_intervals d) status) iv t).
    { intros iv Hin [H1 H2]. split; [done|]. unfold stop_of in *. cbn [cv_status]. destruct (iv_end iv); [done|].
      destruct (Hst (iv_name iv)) as [->|(st' & u' & Hold & ->)]; [done|]. rewrite Hold in H2. simpl in *.
      specialize (Hn _ _ _ Hold). lia. }
    assert (Hd : (exists u, tl_alive tl !! n = Some u /\ u <= t) \/ ~ exists u, tl_alive tl !! n = Some u /\ u <= t).
    { destruct (tl_alive tl !! n) as [u|]; [|right; by intros (? & ? & _)].
      destruct (Z.le_gt_cases u t); [left; by exists u|right; intros (? & [= <-] & ?); lia]. }
    destruct Hd as [(u & Hu & Hle)|Hno].
    + rewrite Ha, lookup_fmap in Hu. destruct (cv_status d !! n) as [[st u']|] eqn:Eu; [|discriminate].
      injection Hu as ->. destruct (Hst n) as [Heq|(st' & u'' & Hold & Heq)].
      { specialize (Hlt u). rewrite lookup_fmap, Heq, Eu in Hlt. specialize (Hlt eq_refl). lia. }
      destruct (Hopen _ _ _ Eu) as (iv & Hin & Hname & Hend). exists iv. split; [done|]. split; [done|].
      rewrite Forall_forall in Hi. specialize (Hi iv Hin). unfold interval_ok in Hi. rewrite Hend in Hi.
      destruct Hi as (u2 & Hu2 & Hle2 & _). rewrite Hname, Eu in Hu2. injection Hu2 as _ <-.
      split; [lia|]. unfold stop_of. cbn [cv_status]. rewrite Hend, Hname, Heq. simpl.
      specialize (Hlt ms). rewrite lookup_fmap, Heq in Hlt. by apply Hlt.
    + destruct (Hfull He n t s Hs) as (iv & Hin & Hname & Hc).
      { intros u Hu. destruct (Z.lt_ge_cases t u); [done|]. exfalso. apply Hno. by exists u. }
      exists iv. split; [done|]. split; [done|]. by apply Hcov.
Qed.

Lemma prune_coverage now tl l status r rows at' n r' :
  coverage_inv now tl (mkCoverage l status) r ->
  pruneRows "coverage_intervals" "capacity_eviction" rows at' r = Ok (n, r') ->
  (rows = [] -> evicted_intervals l = []) ->
  coverage_inv now tl (mkCoverage (kept_intervals l) status) r'.
Proof.
  intros [Ha Hn Ho Hi Hopen Hfull] Hp Hrows. cbn [cv_intervals cv_status] in *. constructor; cbn [cv_intervals cv_status]; try done.
  - eapply StronglySorted_sublist; [apply kept_sublist|done].
  - apply Forall_forall. intros iv Hin. rewrite Forall_forall in Hi.
    specialize (Hi iv (elem_of_sublist _ _ _ Hin (kept_sublist l))). exact Hi.
  - intros m st u Hl. destruct (Hopen _ _ _ Hl) as (iv & Hin & Hname & Hend). exists iv.
    split; [by apply kept_open|done].
  - intros He m t s Hs Hlt. destruct (pruneRows_evictions _ _ _ _ _ Hp He) as [He0 Hr0].
    destruct (Hfull He0 m t s Hs Hlt) as (iv & Hin & Hname & Hc). exists iv.
    split; [apply kept_all; [by apply Hrows|done]|done].
Qed.

Lemma state_changed now ms tl tl' d r (name state : string) id :
  coverage_inv now tl d r -> now <= ms ->
  (forall n t, tl_state tl' n t = if decide (n = name) then if ms <=? t then Some state else tl_state tl n t
                                  else tl_state tl n t) ->
  tl_alive tl' = <[name := ms]> (tl_alive tl) ->
  coverage_inv ms tl'
    (mkCoverage (close_open name ms (cv_intervals d) ++ [mkInterval id name state ms None])
       (<[name := (state, ms)]> (cv_status d))) r.
Proof.
  intros [Ha Hn Ho Hi Hopen Hfull] Hms Hst Halive. rewrite Forall_forall in Hi.
  assert (Hclose : forall iv, iv ∈ cv_intervals d -> iv_name iv = name -> iv_end iv = None -> Z.max (iv_start iv) ms = ms).
  { intros iv Hin Hname Hend. specialize (Hi iv Hin). unfold interval_ok in Hi. rewrite Hend in Hi.
    destruct Hi as (u & Hu & Hle & _). specialize (Hn _ _ _ Hu). lia. }
  assert (Hold : forall n t, t < ms -> tl_state tl' n t = tl_state tl n t).
  { intros n t Hlt. rewrite Hst. case_decide; [|done]. by rewrite (proj2 (Z.leb_gt _ _)). }
  constructor; cbn [cv_intervals cv_status].
  - rewrite Halive, Ha. by rewrite fmap_insert.
  - intros n st u. rewrite lookup_insert. case_decide; [intros [= _ <-]; lia|]. intros Hl. specialize (Hn _ _ _ Hl). lia.
  - apply ends_before_snoc.
    + apply ends_before_close; [|done]. intros iv. case_if; [|done]. split; [done|]. split; [done|].
      intros Hc. apply andb_true_iff in E as [_ E]. congruence.
    + apply Forall_forall. intros i (iv & Hin & ->)%close_open_elem Hname. simpl in Hname.
      assert (Hname' : iv_name iv = name) by (revert Hname; by case_if). rewrite (proj2 (String.eqb_eq _ _) Hname').
      cbn [andb]. specialize (Hi iv Hin). unfold interval_ok in Hi. unfold open_interval.
      destruct (iv_end iv) as [e|] eqn:Ee; cbn [end_at iv_end iv_start]; [exists e; split; [done|lia]|].
      eexists. split; [reflexivity|]. rewrite (Hclose iv Hin Hname' Ee). lia.
  - apply Forall_app. split; [|constructor; [|constructor]].
    + apply Forall_forall. intros i (iv & Hin & ->)%close_open_elem. pose proof (Hi iv Hin) as Hok. unfold interval_ok in Hok.
      destruct (iv_name iv =?s name) eqn:En; bool_to_prop; cbn [andb].
      * apply String.eqb_eq in En. unfold open_interval. destruct (iv_end iv) as [e|] eqn:Ee; unfold interval_ok; cbn [cv_status].
        -- rewrite Ee. destruct Hok as (He & Hs & Hc). split; [lia|]. split.
           ++ intros t Ht. rewrite Hold by lia. by apply Hs.
           ++ intros st u. rewrite En, lookup_insert_eq. intros [= _ <-]. lia.
        -- cbn [end_at iv_end iv_start iv_name iv_state]. destruct Hok as (u & Hu & Hle & Hs).
           rewrite (Hclose iv Hin En Ee). specialize (Hn _ _ _ Hu). split; [lia|]. split.
           ++ intros t Ht. rewrite Hold by lia. apply Hs. lia.
           ++ intros st u'. rewrite En, lookup_insert_eq. intros [= _ <-]. lia.
      * apply String.eqb_neq in En. unfold interval_ok. cbn [cv_status]. rewrite lookup_insert_ne by congruence.
        destruct (iv_end iv) as [e|].
        -- destruct Hok as (He & Hs & Hc). split; [lia|]. split; [|done]. intros t Ht. rewrite Hst, decide_False by done. by apply Hs.
        -- destruct Hok as (u & Hu & Hle & Hs). exists u. split; [done|]. split; [done|].
           intros t Ht. rewrite Hst, decide_False by done. by apply Hs.
    + unfold interval_ok. cbn [iv_end iv_name iv_state iv_start cv_status]. exists ms. rewrite lookup_insert_eq.
      split; [done|]. split; [lia|]. intros t Ht. rewrite Hst, decide_True by done. by rewrite (proj2 (Z.leb_le _ _)).
  - intros n st u. rewrite lookup_insert. case_decide as Hd.
    + intros _. eexists. split; [apply elem_of_app; right; by left|]. by subst.
    + intros Hl. destruct (Hopen _ _ _ Hl) as (iv & Hin & Hname & Hend). exists iv. split; [|done].
      apply elem_of_app. left. apply close_open_elem. exists iv. split; [done|].
      rewrite (proj2 (String.eqb_neq _ _)) by congruence. done.
  - intros He n t s Hs Hlt.
    assert (Hback : t < ms \/ n <> name -> exists iv, iv ∈ cv_intervals d /\ iv_name iv = n /\ iv_start iv <= t
      /\ (t < stop_of d iv \/ iv_name iv = name /\ iv_end iv = None)).
    { intros Ht. assert (Hs0 : tl_state tl n t = Some s).
      { rewrite <- Hs. destruct Ht; [by rewrite Hold|]. by rewrite Hst, decide_False. }
      clear Hs. rename Hs0 into Hs.
      destruct (cv_status d !! n) as [[st u]|] eqn:Eu.
      - destruct (Z.lt_ge_cases t u) as [Hu|Hu].
        + destruct (Hfull He n t s Hs) as (iv & Hin & Hname & Hc1 & Hc2).
          { intros u0. rewrite Ha, lookup_fmap, Eu. by intros [= <-]. }
          exists iv. auto.
        + destruct (decide (n = name)) as [->|Hne].
          * destruct (Hopen _ _ _ Eu) as (iv & Hin & Hname & Hend). exists iv. specialize (Hi iv Hin).
            unfold interval_ok in Hi. rewrite Hend in Hi. destruct Hi as (u0 & Hu0 & Hle & _). rewrite Hname, Eu in Hu0.
            injection Hu0 as _ <-. split; [done|]. split; [done|]. split; [lia|]. by right.
          * specialize (Hlt u). rewrite Halive, lookup_insert_ne, Ha, lookup_fmap, Eu in Hlt by congruence.
            specialize (Hlt eq_refl). lia.
      - destruct (Hfull He n t s Hs) as (iv & Hin & Hname & Hc1 & Hc2).
        { intros u0. rewrite Ha, lookup_fmap, Eu. discriminate. }
        exists iv. auto. }
    destruct Hback as (iv & Hin & Hname & Hc1 & Hc2).
    { destruct (decide (n = name)) as [->|]; [|by right]. left. apply Hlt. by rewrite Halive, lookup_insert_eq. }
    exists (if (iv_name iv =?s name) && open_interval iv then end_at (Z.max (iv_start iv) ms) iv else iv).
    split; [apply elem_of_app; left; apply close_open_elem; by exists iv|].
    destruct ((iv_name iv =?s name) && open_interval iv) eqn:Eo.
    + apply andb_true_iff in Eo as [En%String.eqb_eq Eo%open_interval_spec]. split; [done|]. split; [done|].
      unfold stop_of. cbn [end_at iv_end]. assert (t < ms); [|lia].
      apply Hlt. rewrite Halive, <- Hname, En. by rewrite lookup_insert_eq.
    + split; [done|]. split; [done|]. destruct Hc2 as [Hc2|[En Hend]].
      * unfold stop_of in *. cbn [cv_status]. destruct (iv_end iv) eqn:Ee; [done|].
        rewrite lookup_insert_ne; [done|]. intros Hx. symmetry in Hx. apply String.eqb_eq in Hx.
        apply open_interval_spec in Ee. by rewrite Hx, Ee in Eo.
      * apply String.eqb_eq in En. apply open_interval_spec in Hend. by rewrite En, Hend in Eo.
Qed.

(** The rows that a reset adds, one for each component that it no longer hears of. *)
Definition unknown_of (ms : Z) (row : string * (string * Z)) (iv : interval) : Prop :=
  iv_name iv = row.1 /\ iv_state iv = "unknown"%string /\ iv_start iv = Z.min row.2.2 ms /\ iv_end iv = Some ms.

Lemma add_unknown_spec ms rows : forall l, exists us,
  foldl (add_unknown ms) l rows = l ++ us /\ Forall2 (unknown_of ms) rows us.
Proof.
  induction rows as [|row rows IH]; intros l; simpl; [exists []; by rewrite app_nil_r|].
  destruct (IH (add_unknown ms l row)) as (us & Heq & Hus). rewrite Heq. unfold add_unknown.
  rewrite <- app_assoc. eexists. split; [reflexivity|]. by constructor.
Qed.

Lemma ends_before_app l1 l2 :
  StronglySorted ends_before l1 -> StronglySorted ends_before l2 ->
  (forall i j, i ∈ l1 -> j ∈ l2 -> ends_before i j) -> StronglySorted ends_before (l1 ++ l2).
Proof.
  induction 1 as [|i l1 Hs IH Hall]; intros H2 Hx; simpl; [done|]. constructor.
  - apply IH; [done|]. intros a b Ha Hb. apply Hx; [by right|done].
  - apply Forall_app. split; [done|]. apply Forall_forall. intros j Hj. apply Hx; [by left|done].
Qed.

Lemma unknown_elem ms rows us iv :
  Forall2 (unknown_of ms) rows us -> iv ∈ us -> exists row, row ∈ rows /\ unknown_of ms row iv.
Proof.
  induction 1 as [|row u rows us Hu Hus IH]; intros Hin; [by apply elem_of_nil in Hin|].
  apply elem_of_cons in Hin as [->|Hin]; [exists row; split; [by left|done]|].
  destruct (IH Hin) as (row' & H1 & H2). exists row'. split; [by right|done].
Qed.

Lemma unknown_sorted ms rows us :
  NoDup rows.*1 -> Forall2 (unknown_of ms) rows us -> StronglySorted ends_before us.
Proof.
  intros Hnd. induction 1 as [|row u rows us Hu Hus IH]; [constructor|].
  rewrite fmap_cons in Hnd. apply NoDup_cons in Hnd as [Hnot Hnd]. constructor; [by apply IH|].
  apply Forall_forall. intros j Hj Hname. exfalso. destruct (unknown_elem _ _ _ _ Hus Hj) as (row' & Hin & Hr).
  apply Hnot. destruct Hu as [Hu _], Hr as [Hr _]. rewrite <- Hu, Hname, Hr. by apply list_elem_of_fmap_2.
Qed.

Lemma closed_at_heartbeat now ms tl d iv :
  interval_ok now tl d iv -> (forall n st u, cv_status d !! n = Some (st, u) -> u <= now) -> now <= ms ->
  let iv' := close_at_heartbeat ms (cv_status d) iv in
  iv_name iv' = iv_name iv /\ iv_state iv' = iv_state iv /\ iv_start iv' = iv_start iv
  /\ iv_end iv' = Some (stop_of d iv) /\ iv_start iv <= stop_of d iv <= now
  /\ (forall t, iv_start iv <= t < stop_of d iv -> tl_state tl (iv_name iv) t = Some (iv_state iv))
  /\ (forall st u, cv_status d !! iv_name iv = Some (st, u) -> stop_of d iv <= u).
Proof.
  intros Hok Hn Hms. unfold interval_ok, close_at_heartbeat, open_interval, stop_of in *.
  destruct (iv_end iv) as [e|] eqn:Ee; simpl; [rewrite Ee; by destruct Hok as (? & ? & ?)|].
  destruct Hok as (u & Hu & Hle & Hs). rewrite Hu. simpl. pose proof (Hn _ _ _ Hu).
  split; [done|]. split; [done|]. split; [done|]. split; [f_equal; lia|]. split; [lia|].
  split; [intros t Ht; apply Hs; lia|]. intros st u'. intros [= _ <-]. lia.
Qed.

Lemma state_reset now ms tl tl' d r us rows :
  coverage_inv now tl d r -> now <= ms ->
  (forall n t, tl_state tl' n t = match tl_alive tl !! n with
     | Some alive => if ms <=? t then None else if alive <=? t then Some "unknown"%string else tl_state tl n t
     | None => tl_state tl n t end) ->
  tl_alive tl' = ∅ ->
  NoDup rows.*1 -> (forall n st u, (n, (st, u)) ∈ rows <-> cv_status d !! n = Some (st, u) /\ u < ms) ->
  Forall2 (unknown_of ms) rows us ->
  coverage_inv ms tl' (mkCoverage ((close_at_heartbeat ms (cv_status d) <$> cv_intervals d) ++ us) ∅) r.
Proof.
  intros [Ha Hn Ho Hi Hopen Hfull] Hms Hst Halive Hnd Hrows Hus. rewrite Forall_forall in Hi.
  assert (Hclosed := fun iv Hin => closed_at_heartbeat now ms tl d iv (Hi iv Hin) Hn Hms).
  assert (Hunk : forall j, j ∈ us -> exists st u, cv_status d !! iv_name j = Some (st, u) /\ u < ms
     /\ iv_state j = "unknown"%string /\ iv_start j = u /\ iv_end j = Some ms).
  { intros j Hj. destruct (unknown_elem _ _ _ _ Hus Hj) as ([n [st u]] & Hin & (H1 & H2 & H3 & H4)). simpl in *.
    apply Hrows in Hin as [Hin Hlt]. exists st, u. rewrite H1. split; [done|]. split; [done|]. split; [done|].
    split; [lia|done]. }
  constructor; cbn [cv_intervals cv_status].
  - by rewrite Halive, fmap_empty.
  - intros n st u. by rewrite lookup_empty.
  - apply ends_before_app; [|by eapply unknown_sorted|].
    + apply ends_before_close; [|done]. intros iv. unfold close_at_heartbeat. by destruct (open_interval iv).
    + intros i j (iv & -> & Hin)%list_elem_of_fmap Hj Hname. destruct (Hclosed iv Hin) as (H1 & _ & _ & H4 & _ & _ & H7).
      destruct (Hunk j Hj) as (st & u & Hu & _ & _ & Hstart & _). rewrite <- Hname, H1 in Hu. specialize (H7 _ _ Hu).
      eexists. split; [exact H4|]. lia.
  - apply Forall_app. split; apply Forall_forall.
    + intros i (iv & -> & Hin)%list_elem_of_fmap. destruct (Hclosed iv Hin) as (H1 & H2 & H3 & H4 & H5 & H6 & H7).
      unfold interval_ok. rewrite H4, H1, H2, H3. cbn [cv_status]. split; [lia|]. split; [|intros st u; by rewrite lookup_empty].
      intros t Ht. rewrite Hst, Ha, lookup_fmap. destruct (cv_status d !! iv_name iv) as [[st u]|] eqn:Eu; simpl; [|by apply H6].
      specialize (H7 _ _ eq_refl). rewrite (proj2 (Z.leb_gt _ _)), (proj2 (Z.leb_gt _ _)) by lia. by apply H6.
    + intros j Hj. destruct (Hunk j Hj) as (st & u & Hu & Hlt & Hs & Hstart & Hend). unfold interval_ok.
      rewrite Hend, Hs. cbn [cv_status]. split; [lia|]. split; [|intros ? ?; by rewrite lookup_empty].
      intros t Ht. rewrite Hst, Ha, lookup_fmap, Hu. simpl. by rewrite (proj2 (Z.leb_gt ms t)), (proj2 (Z.leb_le u t)) by lia.
  - intros n st u. by rewrite lookup_empty.
  - intros He n t s. rewrite Hst, Halive. intros Hs _.
    assert (Hkeep : forall iv, iv ∈ cv_intervals d -> iv_name iv = n -> covers d iv t -> exists iv',
      iv' ∈ (close_at_heartbeat ms (cv_status d) <$> cv_intervals d) ++ us /\ iv_name iv' = n
      /\ covers (mkCoverage ((close_at_heartbeat ms (cv_status d) <$> cv_intervals d) ++ us) ∅) iv' t).
    { intros iv Hin Hname [Hc1 Hc2]. destruct (Hclosed iv Hin) as (H1 & _ & H3 & H4 & _). eexists.
      split; [apply elem_of_app; left; by apply list_elem_of_fmap_2|]. split; [by rewrite H1|].
      unfold covers. rewrite H3. split; [done|]. unfold stop_of at 1. by rewrite H4. }
    rewrite Ha, lookup_fmap in Hs. destruct (cv_status d !! n) as [[st u]|] eqn:Eu; simpl in Hs.
    + destruct (ms <=? t) eqn:E1; [discriminate|]. destruct (u <=? t) eqn:E2; bool_to_prop.
      * assert (Hin : (n, (st, u)) ∈ rows) by (apply Hrows; split; [done|lia]).
        apply list_elem_of_lookup in Hin as [k Hk]. destruct (Forall2_lookup_l _ _ _ _ _ Hus Hk) as (iv & Hiv & H1 & H2 & H3 & H4).
        exists iv. split; [apply elem_of_app; right; by eapply list_elem_of_lookup_2|]. split; [done|].
        unfold covers, stop_of. rewrite H4, H3. simpl. lia.
      * destruct (Hfull He n t s Hs) as (iv & Hin & Hname & Hc); [|by eapply Hkeep].
        rewrite Ha, lookup_fmap, Eu. by intros ? [= <-].
    + destruct (Hfull He n t s Hs) as (iv & Hin & Hname & Hc); [|by eapply Hkeep].
      rewrite Ha, lookup_fmap, Eu. by intros ? ?.
Qed.

Lemma coverage_step_inv now tl d r op d' r' :
  coverage_inv now tl d r -> now <= coverage_ms op ->
  coverage_step (d, r) op = Ok (d', r') -> coverage_inv (coverage_ms op) (timeline_step tl op) d' r'.
Proof.
  intros Hinv Hms. destruct op as [name state at'|at'|o at']; cbn [coverage_step coverage_ms timeline_step fst snd] in *;
    change (coverage_ms _) with (unix_milli at') in *.
  - unfold setCoverage. case_if; [discriminate|].
    destruct (cov_set_status now tl d name (unix_milli at') (ci_now _ _ _ _ Hinv) Hms (ci_alive _ _ _ _ Hinv)) as [-> Halive].
    case_bool_decide as Hsame.
    + intros [= <- <-]. rewrite Halive.
      destruct (cv_status d !! name) as [[st u]|] eqn:Eu; [|discriminate]. injection Hsame as ->.
      destruct (ci_open _ _ _ _ Hinv _ _ _ Eu) as (iv & Hin & Hname & Hend).
      pose proof (ci_intervals _ _ _ _ Hinv) as Hi. rewrite Forall_forall in Hi. specialize (Hi iv Hin).
      unfold interval_ok in Hi. rewrite Hend in Hi. destruct Hi as (u' & Hu' & Hle & Hs). rewrite Hname, Eu in Hu'.
      injection Hu' as Hst <-. pose proof (ci_now _ _ _ _ Hinv _ _ _ Eu).
      apply (coverage_inv_ext _ (mkTimeline (tl_state tl) (<[name := unix_milli at']> (tl_alive tl)))); [|done|].
      * intros n t. simpl. case_decide; [|done]. subst. case_if; [|done]. bool_to_prop. by rewrite Hs by lia.
      * apply (status_extended now); [done|done| |].
        -- intros n. destruct (decide (n = name)) as [->|]; [right; exists state, u; by rewrite lookup_insert_eq|left].
           by rewrite lookup_insert_ne.
        -- rewrite (ci_alive _ _ _ _ Hinv), fmap_insert. done.
    + destruct (pruneRows _ _ _ _ _) as [[n r1]|] eqn:Ep; [|discriminate]. cbn [rbind]. intros [= <- <-].
      eapply prune_coverage; [|exact Ep|by intros ->%fmap_nil_inv].
      apply (state_changed now _ tl); [done|done|done|]. simpl. by rewrite Halive.
  - intros [= <- <-]. unfold HeartbeatCoverage. apply (status_extended now); [done|done| |].
    + intros n. rewrite lookup_fmap. destruct (cv_status d !! n) as [[st u]|] eqn:Eu; [right|by left].
      exists st, u. split; [done|]. simpl. pose proof (ci_now _ _ _ _ Hinv _ _ _ Eu). do 2 f_equal. lia.
    + rewrite (ci_alive _ _ _ _ Hinv), <- !map_fmap_compose. apply map_fmap_ext. intros n [st u] _. simpl. lia.
  - intros [= <- <-]. unfold resetCoverage.
    destruct (add_unknown_spec (unix_milli at') (filter (fun row : string * (string * Z) => row.2.2 < unix_milli at') (entries o (cv_status d)))
      (close_at_heartbeat (unix_milli at') (cv_status d) <$> cv_intervals d)) as (us & -> & Hus).
    eapply (state_reset now); [done|done|done|done| | |exact Hus].
    + apply (sublist_NoDup _ (entries o (cv_status d)).*1); [apply entries_NoDup|apply fmap_sublist, sublist_filter].
    + intros n st u. rewrite list_elem_of_filter, elem_of_entries. simpl. tauto.
Qed.

Lemma coverage_run_inv ops : forall now tl d r d' r',
  coverage_inv now tl d r -> StronglySorted Z.le (now :: (coverage_ms <$> ops)) ->
  rfold coverage_step (d, r) ops = Ok (d', r') ->
  exists now', coverage_inv now' (foldl timeline_step tl ops) d' r'.
Proof.
  induction ops as [|op ops IH]; intros now tl d r d' r' Hi Hs; cbn [rfold foldl].
  { intros [= <- <-]. by exists now. }
  rewrite fmap_cons in Hs. apply StronglySorted_inv in Hs as [Hs Hle]. apply Forall_cons in Hle as [Hle _].
  destruct (coverage_step (d, r) op) as [[d1 r1]|] eqn:E; [|discriminate]. cbn [rbind]. intros Hr.
  eapply IH; [by eapply coverage_step_inv|exact Hs|exact Hr].
Qed.

Lemma no_coverage_inv now : coverage_inv now no_timeline no_coverage no_retention.
Proof.
  constructor; simpl; done || constructor.
Qed.

(** ** The totals are the time spent *)

(** Milliseconds of a range at which a component was in a state. *)
Definition time_in (tl : timeline) (n s : string) (a b : Z) : Z :=
  sumZ ((fun t => if decide (tl_state tl n t = Some s) then 1 else 0) <$> seqZ a (b - a)).

Definition inside (d : CoverageDB) (t : Z) (iv : interval) : Z :=
  if (iv_start iv <=? t) && (t <? stop_of d iv) then 1 else 0.

Lemma sum_add {A} (f g : A -> Z) l :
  sumZ ((fun x => f x + g x) <$> l) = sumZ (f <$> l) + sumZ (g <$> l).
Proof. induction l as [|x l IH]; [done|]. rewrite !fmap_cons, !sumZ_cons, IH. lia. Qed.

Lemma sum_swap {A B} (f : A -> B -> Z) l1 l2 :
  sumZ ((fun x => sumZ (f x <$> l2)) <$> l1) = sumZ ((fun y => sumZ ((fun x => f x y) <$> l1)) <$> l2).
Proof.
  induction l1 as [|x l1 IH]; [by induction l2|]. rewrite fmap_cons, sumZ_cons, IH, <- sum_add.
  f_equal.
Qed.

Lemma overlap_inside d a b iv :
  overlap d a b iv = sumZ ((fun t => inside d t iv) <$> seqZ a (b - a)).
Proof.
  unfold overlap. destruct (Z.le_gt_cases b a) as [Hab|Hab]; [rewrite seqZ_nil by lia; simpl; lia|].
  replace b with (a + Z.of_nat (Z.to_nat (b - a))) by lia. rewrite Z.add_simpl_l.
  induction (Z.to_nat (b - a)) as [|m IH]; [simpl; lia|].
  rewrite seqZ_S, fmap_app, sumZ_app, <- IH. simpl. unfold inside. case_if; bool_to_prop; [lia|].
  apply andb_false_iff in E as [E|E]; bool_to_prop; lia.
Qed.

(** An instant is in at most one interval of a component. *)
Lemma inside_once d t n l :
  StronglySorted ends_before l -> Forall (fun iv => iv_name iv = n) l ->
  sumZ (inside d t <$> l) <= 1
  /\ (forall iv, iv ∈ l -> covers d iv t -> sumZ (inside d t <$> l) = 1)
  /\ ((forall iv, iv ∈ l -> ~ covers d iv t) -> sumZ (inside d t <$> l) = 0).
Proof.
  intros Hs. induction Hs as [|i l Hs IH Hall]; intros Hn; [split; [done|]; split; [by intros ? ?%elem_of_nil|done]|].
  apply Forall_cons in Hn as [Hi Hn]. destruct (IH Hn) as (H1 & H2 & H3). rewrite fmap_cons, sumZ_cons.
  assert (Hc : covers d i t \/ ~ covers d i t) by (unfold covers; lia).
  destruct Hc as [Hc|Hc].
  - assert (Hin : inside d t i = 1).
    { unfold inside, covers in *. rewrite (proj2 (Z.leb_le _ _)), (proj2 (Z.ltb_lt _ _)) by lia. done. }
    rewrite Hin, H3; [split; [lia|]; split; [done|]; intros Hno; exfalso; apply (Hno i); [by left|done]|].
    intros j Hj Hcj. rewrite Forall_forall in Hall, Hn. specialize (Hn j Hj).
    destruct (Hall j Hj) as (e & He & Hle); [congruence|]. unfold covers, stop_of in *. rewrite He in Hc. lia.
  - assert (Hin : inside d t i = 0).
    { unfold inside, covers in *. case_if; [bool_to_prop; lia|done]. }
    rewrite Hin. split; [lia|]. split.
    + intros iv [->|Hiv]%elem_of_cons Hcov; [done|]. by rewrite (H2 iv Hiv Hcov).
    + intros Hno. rewrite H3; [done|]. intros iv Hiv. apply Hno. by right.
Qed.

(** The milliseconds that the intervals of a component and state have in a range. *)
Definition group_ms (d : CoverageDB) (n s : string) (a b : Z) : Z :=
  sumZ (overlap d a b <$> filter (fun iv => interval_key iv = (n, s)) (cv_intervals d)).

Lemma group_time now tl d r n s a b :
  coverage_inv now tl d r ->
  group_ms d n s a b <= time_in tl n s a b
  /\ (evictions r = None -> (forall u, tl_alive tl !! n = Some u -> b <= u) -> group_ms d n s a b = time_in tl n s a b).
Proof.
  intros [Ha Hn Ho Hi Hopen Hfull]. unfold group_ms, time_in. set (l := filter _ _).
  assert (Hl : StronglySorted ends_before l) by (eapply StronglySorted_sublist; [apply sublist_filter|done]).
  assert (Hnames : Forall (fun iv => iv_name iv = n) l).
  { apply Forall_forall. intros iv [Hk _]%list_elem_of_filter. by injection Hk. }
  assert (Hstate : forall iv t, iv ∈ l -> covers d iv t -> tl_state tl n t = Some s).
  { intros iv t [Hk Hin]%list_elem_of_filter [Hc1 Hc2]. injection Hk as <- <-. rewrite Forall_forall in Hi.
    specialize (Hi iv Hin). unfold interval_ok, stop_of in *. destruct (iv_end iv).
    - destruct Hi as (_ & Hs & _). by apply Hs.
    - destruct Hi as (u & _ & _ & Hs). by apply Hs. }
  rewrite (list_fmap_ext (overlap d a b) (fun iv => sumZ ((fun t => inside d t iv) <$> seqZ a (b - a))) l)
    by (intros; apply overlap_inside).
  rewrite (sum_swap (fun iv t => inside d t iv)).
  assert (Hpoint : forall t, sumZ (inside d t <$> l) <= if decide (tl_state tl n t = Some s) then 1 else 0).
  { intros t. destruct (inside_once d t n l Hl Hnames) as (H1 & _ & H3). case_decide as Hd; [done|].
    rewrite H3; [done|]. intros iv Hin Hc. apply Hd. by eapply Hstate. }
  split.
  - apply sumZ_le. apply Forall2_fmap, Forall_Forall2_diag, Forall_true. intros t. apply Hpoint.
  - intros He Hb. f_equal. apply list_fmap_ext. intros k t Hk.
    assert (Ht : a <= t < b) by (apply list_elem_of_lookup_2, elem_of_seqZ in Hk; lia).
    destruct (inside_once d t n l Hl Hnames) as (_ & H2 & H3). case_decide as Hd.
    + destruct (Hfull He n t s Hd) as (iv & Hin & Hname & Hc).
      { intros u Hu. specialize (Hb u Hu). lia. }
      apply (H2 iv); [|done]. apply list_elem_of_filter. split; [|done]. unfold interval_key. f_equal; [done|].
      rewrite Forall_forall in Hi. specialize (Hi iv Hin). unfold interval_ok, covers, stop_of in *.
      assert (Hsx : tl_state tl (iv_name iv) t = Some (iv_state iv)).
      { destruct Hc as [Hc1 Hc2], (iv_end iv).
        - destruct Hi as (_ & Hs & _). by apply Hs.
        - destruct Hi as (u & _ & _ & Hs). by apply Hs. }
      congruence.
    + apply H3. intros iv Hin Hc. apply Hd. by eapply Hstate.
Qed.

Lemma sum_filter {A} (P Q : A -> Prop) `{!forall x, Decision (P x), !forall x, Decision (Q x)} (f : A -> Z) l :
  (forall x, Q x -> ~ P x -> f x = 0) ->
  sumZ (f <$> filter Q (filter P l)) = sumZ (f <$> filter Q l).
Proof.
  intros Hf. induction l as [|x l IH]; [done|]. rewrite (filter_cons P), (filter_cons Q x l).
  destruct (decide (P x)) as [Hp|Hp]; [rewrite (filter_cons Q)|]; destruct (decide (Q x)) as [Hq|Hq];
    rewrite ?fmap_cons, ?sumZ_cons, IH; try done. rewrite (Hf x Hq Hp). lia.
Qed.

(** The rows of [Coverage] are the groups that have an interval in the range. *)
Lemma Coverage_rows start stop d totals n s ms :
  Coverage start stop d = Some totals -> (n, s, ms) ∈ totals ->
  ms = group_ms d n s (unix_milli start) (unix_milli stop).
Proof.
  unfold Coverage. destruct (negb _); [discriminate|]. intros [= <-] Hin.
  eapply elem_of_sublist in Hin; [|apply sublist_take]. rewrite sort_by_perm in Hin.
  apply list_elem_of_fmap in Hin as (k & [= <- ->] & _). unfold group_ms. apply sum_filter.
  intros iv _ Hno. unfold overlap. lia.
Qed.

Lemma Coverage_listed start stop d totals n s :
  Coverage start stop d = Some totals -> lenZ totals < 128 ->
  0 < group_ms d n s (unix_milli start) (unix_milli stop) ->
  (n, s, group_ms d n s (unix_milli start) (unix_milli stop)) ∈ totals.
Proof.
  intros Hc Hlen Hpos. pose proof Hc as Hc'. revert Hc. unfold Coverage. destruct (negb _) eqn:En; [discriminate|].
  set (rows := filter _ _). set (groups := (fun k => _) <$> remove_dups _). intros [= Ht].
  assert (Hall : totals = sort_by (fun x y => lex string_lt string_lt x.1 y.1) groups).
  { rewrite <- Ht in *. unfold lenZ in Hlen. rewrite length_take in Hlen. rewrite take_ge; [done|lia]. }
  assert (Hk : (n, s) ∈ interval_key <$> rows).
  { destruct (decide ((n, s) ∈ interval_key <$> rows)) as [|Hno]; [done|]. exfalso.
    assert (Hz : group_ms d n s (unix_milli start) (unix_milli stop) = 0); [|lia].
    unfold group_ms.
    rewrite <- (sum_filter (fun iv => iv_start iv < unix_milli stop /\ unix_milli start < stop_of d iv) _ (overlap d _ _))
      by (intros iv _ Hno'; unfold overlap; lia).
    fold rows. assert (filter (fun iv => interval_key iv = (n, s)) rows = []) as ->; [|done].
    apply elem_of_nil_inv. intros iv [Hkey Hin]%list_elem_of_filter.
    apply Hno. rewrite <- Hkey. by apply list_elem_of_fmap_2. }
  assert (Hin : exists ms, (n, s, ms) ∈ totals).
  { eexists. rewrite Hall, sort_by_perm. apply list_elem_of_fmap. exists (n, s).
    split; [reflexivity|]. by apply elem_of_remove_dups. }
  destruct Hin as [ms Hin]. by rewrite <- (Coverage_rows _ _ _ _ _ _ _ Hc' Hin).
Qed.

(** C23. The totals of a range are the time that was spent: whatever states, heartbeats
    and restarts were recorded, in the order of their times, a component is never
    credited with more milliseconds of a state than it had, whatever was evicted since;
    and when nothing was evicted and the range ends before the component's last sign of
    life, every listed total is exact and every state with time in the range is listed. *)
Theorem coverage_exact ops d r start stop totals n s :
  StronglySorted Z.le (coverage_ms <$> ops) ->
  rfold coverage_step (no_coverage, no_retention) ops = Ok (d, r) ->
  Coverage start stop d = Some totals ->
  let spent := time_in (foldl timeline_step no_timeline ops) n s (unix_milli start) (unix_milli stop) in
  (forall ms, (n, s, ms) ∈ totals -> 0 <= ms <= spent)
  /\ (evictions r = None ->
      (forall u, tl_alive (foldl timeline_step no_timeline ops) !! n = Some u -> unix_milli stop <= u) ->
      (forall ms, (n, s, ms) ∈ totals -> ms = spent)
      /\ (lenZ totals < 128 -> 0 < spent -> (n, s, spent) ∈ totals)).
Proof.
  intros Hs Hr Hc spent.
  assert (Hi : exists now, coverage_inv now (foldl timeline_step no_timeline ops) d r).
  { eapply (coverage_run_inv ops (from_option coverage_ms 0 (head ops))); [apply no_coverage_inv| |exact Hr].
    destruct ops as [|op ops]; [by repeat constructor|]. rewrite fmap_cons in *. constructor; [done|].
    apply StronglySorted_inv in Hs as [_ Hall]. by constructor. }
  destruct Hi as [now Hi].
  destruct (group_time now _ d r n s (unix_milli start) (unix_milli stop) Hi) as [Hle Heq]. fold spent in Hle, Heq.
  split.
  - intros ms Hin. rewrite (Coverage_rows _ _ _ _ _ _ _ Hc Hin). split; [|done].
    apply sumZ_nonneg, Forall_fmap, Forall_true. intros iv. unfold compose, overlap. lia.
  - intros He Hb. specialize (Heq He Hb). split.
    + intros ms Hin. by rewrite (Coverage_rows _ _ _ _ _ _ _ Hc Hin).
    + intros Hlen Hpos. rewrite <- Heq in *. by apply Coverage_listed.
Qed.

Definition example_coverage : list coverage_op :=
  let at_ms ms := unix_epoch + ms * millisecond in
  [CovSet "sensor_feed" "running" (at_ms 1000); CovSet "ssh_journal" "running" (at_ms 1500);
   CovHeartbeat (at_ms 3000); CovSet "sensor_feed" "degraded" (at_ms 4000); CovHeartbeat (at_ms 5000);
   CovReset in_order (at_ms 9000); CovSet "sensor_feed" "running" (at_ms 9500); CovHeartbeat (at_ms 12000)].

Definition example_totals : list (string * string * Z) :=
  [("sensor_feed", "degraded", 1000); ("sensor_feed", "running", 3500); ("sensor_feed", "unknown", 4000);
   ("ssh_journal", "running", 3000); ("ssh_journal", "unknown", 4000)]%string.

Lemma coverage_exact_witness :
  match rfold coverage_step (no_coverage, no_retention) example_coverage with
  | Ok (d, r) =>
      let start := unix_epoch + 2 * second in
      let stop := unix_epoch + 11 * second in
      Coverage start stop d = Some example_totals
      /\ forall ms, ("sensor_feed"%string, "running"%string, ms) ∈ example_totals ->
           ms = time_in (foldl timeline_step no_timeline example_coverage) "sensor_feed" "running"
                  (unix_milli start) (unix_milli stop)
  | Err _ => False
  end.
Proof.
  assert (Hall : match rfold coverage_step (no_coverage, no_retention) example_coverage with
    | Ok (d, r) => Coverage (unix_epoch + 2 * second) (unix_epoch + 11 * second) d = Some example_totals
                   /\ evictions r = None
    | Err _ => False end) by (vm_compute; split; reflexivity).
  destruct (rfold coverage_step (no_coverage, no_retention) example_coverage) as [[d r]|] eqn:E; [|destruct Hall].
  destruct Hall as [Hc He]. split; [exact Hc|].
  assert (Hs : StronglySorted Z.le (coverage_ms <$> example_coverage))
    by (repeat constructor; vm_compute; discriminate).
  pose proof (coverage_exact example_coverage d r _ _ _ "sensor_feed" "running" Hs E Hc) as [_ H].
  apply H; [exact He|]. intros u Hu. vm_compute in Hu. injection Hu as <-. vm_compute. discriminate.
Defined.
