(* ===== verification/Privacy.v ===== *)
(** * What is stored and sent of an event

    [internal/privacy/privacy.go] and [prepareEvent] of [internal/daemon/app.go]: an
    event gets the identifiers it lacks and the location of its source, and its source
    address is transformed once for the store and once for the notifications. *)

From S2P Require Export Network.

(** [Transformer] with the keyed hash of a key: the hexadecimal text of the first ten
    bytes of the HMAC of an address text. *)
Record Transformer := mkTransformer { tf_mode : string; tf_mac : string -> string }.

(** [Transformer.IP]. *)
Definition IP (t : Transformer) (value : string) : string * string :=
  match parse_addr value with
  | None => (""%string, ""%string)
  | Some address =>
      let address := unmap address in
      let prefix := PrefixString (addr_string address) in
      if tf_mode t =?s "full" then (addr_string address, prefix)
      else if tf_mode t =?s "hash" then
        let hashed := ("ip_" ++ tf_mac t (addr_string address))%string in (hashed, hashed)
      else (""%string, prefix)
  end.

(** [severityRank]. *)
Definition severityRank (s : severity) : Z :=
  match s with
  | SeverityCritical => 5
  | SeverityHigh => 4
  | SeverityMedium => 3
  | SeverityLow => 2
  | SeverityInfo => 1
  end.

Definition set_source (source : string * string) (e : Event) : Event :=
  mkEvent (ev_id e) (ev_incident e) (ev_observed_at e) (ev_kind e) (ev_phase e) (ev_severity e) (ev_summary e)
    source.1 source.2 (ev_target e) (ev_count e) (ev_geo e) (ev_evidence e).

(** The event with the time, the identifiers and the location that it may lack;
    [fresh] are the identifiers that [NewID] would draw. *)
Definition complete_event (lookup : addr -> Geo) (fresh : string * string) (now : time) (e : Event) : Event :=
  mkEvent (if ev_id e =?s "" then fresh.1 else ev_id e)
    (if ev_incident e =?s "" then fresh.2 else ev_incident e)
    (if is_zero (ev_observed_at e) then now else ev_observed_at e)
    (ev_kind e) (ev_phase e) (ev_severity e) (ev_summary e) (ev_source_ip e) (ev_source_range e) (ev_target e)
    (ev_count e) (match parse_addr (ev_source_ip e) with Some a => lookup a | None => ev_geo e end) (ev_evidence e).

Definition transform (t : Transformer) (e : Event) : Event :=
  if ev_source_ip e =?s "" then e else set_source (IP t (ev_source_ip e)) e.

(** What [prepareEvent] uses of the application: the location database, the two
    transformers, whether any channel is enabled, and the messages that the channels
    make of an event and its transformed copy. *)
Record preparer {Message : Type} := mkPreparer {
  pr_lookup : addr -> Geo;
  pr_store : Transformer;
  pr_notify : Transformer;
  pr_enabled : bool;
  pr_compose : string -> time -> Event -> option Message }.
Arguments preparer : clear implicits.
Arguments mkPreparer {Message} _ _ _ _ _.

(** [prepareEvent].  The messages take the event's identifier and time and the
    transformed copy only. *)
Definition prepareEvent {Message} (p : preparer Message) (fresh : string * string) (now : time) (event : Event)
    : Event * option Message :=
  let event := complete_event (pr_lookup p) fresh now event in
  let stored := transform (pr_store p) event in
  if negb (pr_enabled p)
     || (negb (ev_phase event =?s "recovery") && (severityRank (ev_severity event) <? severityRank SeverityMedium))
  then (stored, None)
  else (stored, pr_compose p (ev_id event) (ev_observed_at event) (transform (pr_notify p) event)).

(** ** What a transformed event tells of its source *)

Definition with_source (ip : string) (e : Event) : Event := set_source (ip, ev_source_range e) e.

(** A mode that is neither the address nor its keyed hash. *)
Definition prefix_only (t : Transformer) : Prop := tf_mode t <> "full"%string /\ tf_mode t <> "hash"%string.

Lemma PrefixString_address a : unzoned a -> PrefixString (addr_string a) = masked_prefix (unmap a).
Proof. intros Ha. unfold PrefixString. by rewrite parse_addr_string. Qed.

(** The transformer on a source without a zone. *)
Lemma IP_modes t ip a :
  parse_addr ip = Some a -> unzoned a ->
  IP t ip = if tf_mode t =?s "full" then (addr_string (unmap a), masked_prefix (unmap a))
            else if tf_mode t =?s "hash" then
              let h := ("ip_" ++ tf_mac t (addr_string (unmap a)))%string in (h, h)
            else (""%string, masked_prefix (unmap a)).
Proof.
  intros Hp Ha. unfold IP. rewrite Hp. rewrite PrefixString_address by (by apply unmap_unzoned).
  by rewrite unmap_unmap.
Qed.

Lemma transform_prefix t ip a e :
  parse_addr ip = Some a -> unzoned a -> prefix_only t -> ip <> ""%string ->
  transform t (with_source ip e) = set_source (""%string, masked_prefix (unmap a)) e.
Proof.
  intros Hp Ha [Hf Hh] Hne. unfold transform, with_source. cbn [ev_source_ip set_source fst].
  rewrite (proj2 (String.eqb_neq _ _) Hne), (IP_modes t ip a) by done.
  by rewrite (proj2 (String.eqb_neq _ _) Hf), (proj2 (String.eqb_neq _ _) Hh).
Qed.

(** Outside the modes that give the address or its keyed hash, what is stored of
    an event and every message made of it are the same for all sources of a prefix (24
    bits of IPv4, 48 of IPv6) whose location is the same: neither the row nor the
    notifications tell them apart, and the source address of the row is empty. *)
Theorem source_withheld {Message} (p : preparer Message) fresh now e ip ip' a a' :
  prefix_only (pr_store p) -> prefix_only (pr_notify p) ->
  parse_addr ip = Some a -> parse_addr ip' = Some a' -> unzoned a -> unzoned a' ->
  masked_prefix (unmap a) = masked_prefix (unmap a') -> pr_lookup p a = pr_lookup p a' ->
  prepareEvent p fresh now (with_source ip e) = prepareEvent p fresh now (with_source ip' e)
  /\ ev_source_ip (prepareEvent p fresh now (with_source ip e)).1 = ""%string
  /\ ev_source_range (prepareEvent p fresh now (with_source ip e)).1 = masked_prefix (unmap a).
Proof.
  intros Hs Hn Hp Hp' Ha Ha' Hm Hl.
  assert (Hne : forall s b, parse_addr s = Some b -> s <> ""%string) by (by intros ? ? ? ->).
  assert (Hc : forall s b, parse_addr s = Some b -> complete_event (pr_lookup p) fresh now (with_source s e)
    = with_source s (complete_event (fun _ => pr_lookup p b) fresh now (with_source s e))).
  { intros s b Hb. unfold complete_event, with_source. cbn. by rewrite Hb. }
  set (e0 := complete_event (fun _ => pr_lookup p a) fresh now (with_source ip e)).
  assert (He : complete_event (pr_lookup p) fresh now (with_source ip e) = with_source ip e0) by (by apply Hc).
  assert (He' : complete_event (pr_lookup p) fresh now (with_source ip' e) = with_source ip' e0).
  { unfold e0, complete_event, with_source. cbn. by rewrite Hp, Hp', Hl. }
  unfold prepareEvent. rewrite He, He'.
  rewrite !(transform_prefix _ ip a), !(transform_prefix _ ip' a') by eauto. rewrite Hm.
  cbn [with_source set_source ev_id ev_observed_at ev_phase ev_severity].
  by case_if.
Qed.

Definition example_preparer : preparer (string * string) :=
  mkPreparer (fun _ => no_geo) (mkTransformer "prefix" (fun s => s)) (mkTransformer "none" (fun s => s)) true
    (fun id _ e => Some (id, ev_source_range e)).

Lemma source_withheld_witness :
  let e := mkEvent "evt_1" "" 0 "port_scan" "start" SeverityHigh "ports" "" "" "" 30 no_geo ∅ in
  let prepare ip := prepareEvent example_preparer ("evt_2", "inc_3")%string (unix_epoch + 5 * second) (with_source ip e) in
  prepare "203.0.113.7"%string = prepare "::ffff:203.0.113.250"%string
  /\ ev_source_ip (prepare "203.0.113.7"%string).1 = ""%string
  /\ ev_source_range (prepare "203.0.113.7"%string).1 = "203.0.113.0/24"%string.
Proof.
  intros e prepare.
  apply (source_withheld example_preparer _ _ e "203.0.113.7" "::ffff:203.0.113.250" (A4 203 0 113 7)
           (A6 [0; 0; 0; 0; 0; 65535; 51968; 29178] ""));
    [split; discriminate|split; discriminate|vm_compute; reflexivity|vm_compute; reflexivity| | |vm_compute; reflexivity|reflexivity].
  - apply (parse_addr_unzoned "203.0.113.7"); vm_compute; reflexivity.
  - apply (parse_addr_unzoned "::ffff:203.0.113.250"); vm_compute; reflexivity.
Defined.
