(* ===== verification/Ingest.v ===== *)
(** * The daemon's handling of sensor batches

    [handleBatch] and [handleSequencedBatch] of [internal/daemon/app.go] and
    [sensor_commits.go], with the records of receipts, of the sensor's state
    ([sensor_state.go], [interfaces.go]) and of failed writes ([health.go]): a batch is
    given to the detectors, its events are queued, and it is committed with what became
    of them; the answer to the sensor says what is durable. *)

From S2P Require Export EventQueue Coverage Fleet Privacy.

(** ** Writes to the store, as the status page shows them *)

Record StorageHealth := mkStorageHealth {
  sh_failed : list string; sh_healthy : bool; sh_last_ingest : time; sh_last_failure : time;
  sh_failures : Z; sh_operation : string }.

(** [storageFailures] and [storageHealth] of [App]. *)
Record storage_view := mkStorageView { sv_failures : gset string; sv_health : StorageHealth }.

Definition new_storage : storage_view := mkStorageView ∅ (mkStorageHealth [] false time_zero time_zero 0 "").

(** The outcome of a write: whether it failed, its name, and whether it counts as the
    ingestion of an observation. *)
Record write := mkWrite { wt_failed : bool; wt_operation : string; wt_ingest : bool }.

(** [recordWrite]. *)
Definition recordWrite (now : time) (v : storage_view) (w : write) : storage_view :=
  let h := sv_health v in
  let failures := if wt_failed w then sv_failures v ∪ {[ wt_operation w ]}
                  else sv_failures v ∖ {[ wt_operation w ]} in
  mkStorageView failures
    (mkStorageHealth (sort_by string_lt (elements failures)) (bool_decide (failures = ∅))
       (if negb (wt_failed w) && wt_ingest w then now else sh_last_ingest h)
       (if wt_failed w then now else sh_last_failure h)
       (if wt_failed w then bump_u64 (sh_failures h) else sh_failures h)
       (if wt_failed w then wt_operation w else sh_operation h)).

(** ** Receipts *)

Record SensorReceipt := mkReceipt { sr_session : string; sr_sequence : Z }.

(** [lastSensor], [sensorByInterface], [sensorReceipts] and [batches] of [App]. *)
Record receipts := mkReceipts {
  rc_last : time; rc_at : gmap string time; rc_ids : gmap string SensorReceipt; rc_batches : Z }.

Definition no_receipts : receipts := mkReceipts time_zero ∅ ∅ 0.

(** The name whose receipt is replaced: the loops of the code, which compare with the
    entry of [oldest]. *)
Definition oldest_name (o : map_order) (m : gmap string time) : string :=
  foldl (fun oldest entry =>
           if (oldest =?s "") || before entry.2 (default time_zero (m !! oldest)) then entry.1 else oldest)
    ""%string (entries o m).

(** [recordSensorReceiptLocked]; [limit] is [InterfaceLimit]. *)
Definition recordSensorReceiptLocked (o : map_order) (limit : Z) (b : Batch) (r : receipts) : receipts :=
  let full := negb (some (rc_at r !! b_interface b)) && (limit <=? Z.of_nat (size (rc_at r))) in
  let oldest := oldest_name o (rc_at r) in
  let at' := if full then delete oldest (rc_at r) else rc_at r in
  let ids := if full then delete oldest (rc_ids r) else rc_ids r in
  mkReceipts (b_sent_at b) (<[b_interface b := b_sent_at b]> at')
    (<[b_interface b := if 5 <=? b_version b then mkReceipt (b_session b) (b_sequence b) else mkReceipt "" 0]> ids)
    (add_u64 (rc_batches r) 1).

(** ** The state of the sensor feed *)

(** What discovery knows of the interfaces: [interfaceDiscoveryRequired],
    [discoveryDegraded], [interfacesObserved] and [interfaces]. *)
Record feed_scope := mkFeedScope {
  dc_required : bool; dc_degraded : bool; dc_observed : bool; dc_interfaces : list (string * Z) }.

(** [sensorStaleAfter]. *)
Definition sensorStaleAfter (batch_interval : duration) : duration := Z.max (wrap_i64 (3 * batch_interval)) (10 * second).

Definition fresh (stale : duration) (now at' : time) : bool :=
  negb (is_zero at') && (time_sub now at' <=? stale) && (time_sub at' now <=? stale).

(** [sensorCoverageState]. *)
Definition sensorCoverageState (stale : duration) (d : feed_scope) (r : receipts) (now : time) : string :=
  if dc_required d then
    if dc_degraded d || negb (dc_observed d) || bool_decide (dc_interfaces d = [])
       || existsb (fun ref : string * Z => (ref.2 <=? 0) || negb (fresh stale now (default time_zero (rc_at r !! ref.1))))
            (dc_interfaces d)
    then "degraded" else "running"
  else if fresh stale now (rc_last r) then "running" else "degraded".

(** ** The application and its database *)

(** [sensorPreparedEvents]: what became of the events of a batch that is not committed. *)
Record sensorPreparedEvents := mkPrepared {
  sp_session : string; sp_sequence : Z; sp_ids : list string; sp_rejected : bool }.

(** The fields of [App] that the ingestion loop uses. *)
Record App := mkApp {
  ap_queue : eventQueue;
  ap_fleet : Fleet;
  ap_prepared : gmap string sensorPreparedEvents;
  ap_receipts : receipts;
  ap_state : string;
  ap_storage : storage_view;
  ap_committed : gmap string time }.

Definition with_queue (q : eventQueue) (a : App) : App :=
  mkApp q (ap_fleet a) (ap_prepared a) (ap_receipts a) (ap_state a) (ap_storage a) (ap_committed a).
Definition with_fleet (f : Fleet) (a : App) : App :=
  mkApp (ap_queue a) f (ap_prepared a) (ap_receipts a) (ap_state a) (ap_storage a) (ap_committed a).
Definition with_prepared (p : gmap string sensorPreparedEvents) (a : App) : App :=
  mkApp (ap_queue a) (ap_fleet a) p (ap_receipts a) (ap_state a) (ap_storage a) (ap_committed a).
Definition with_receipts (r : receipts) (a : App) : App :=
  mkApp (ap_queue a) (ap_fleet a) (ap_prepared a) r (ap_state a) (ap_storage a) (ap_committed a).
Definition with_state (s : string) (a : App) : App :=
  mkApp (ap_queue a) (ap_fleet a) (ap_prepared a) (ap_receipts a) s (ap_storage a) (ap_committed a).
Definition with_committed (c : gmap string time) (a : App) : App :=
  mkApp (ap_queue a) (ap_fleet a) (ap_prepared a) (ap_receipts a) (ap_state a) (ap_storage a) c.
Definition wrote (now : time) (ws : list write) (a : App) : App :=
  mkApp (ap_queue a) (ap_fleet a) (ap_prepared a) (ap_receipts a) (ap_state a)
    (foldl (recordWrite now) (ap_storage a) ws) (ap_committed a).

Section Ingest.
Context `{GoRuntime} {Message : Type}.
(** The codec of queued events, the checks on their JSON columns, what [prepareEvent]
    uses, and the options: the limit of interfaces, the age that makes a feed stale,
    and what discovery knows. *)
Context (encode : Event * option Message -> option (list Z)) (decode : list Z -> option (Event * option Message)).
Context (metadata_fits : Event -> bool) (prepare : preparer Message).
Context (interface_limit : Z) (stale : duration) (known : feed_scope).

Abbreviation event_log := (list (Event * option Message)).

(** The tables that the handlers write. *)
Record Database := mkDatabase {
  db_sensor : SensorDB;
  db_log : event_log;
  db_coverage : CoverageDB }.

Definition with_sensor (s : SensorDB) (d : Database) : Database := mkDatabase s (db_log d) (db_coverage d).

(** *** Flushing the queue *)

(** The writes of [flushEvents], in order. *)
Fixpoint loop_writes (n : nat) (fates : list call_fate) (pending : list queuedEvent) : list write :=
  match n, pending with
  | S n, e :: pending =>
      match decode (qe_data e) with
      | None => loop_writes n (tail fates) pending
      | Some _ =>
          if fate_of fates is Answered
          then mkWrite false "event" true :: loop_writes n (tail fates) pending
          else [mkWrite true "event" true]
      end
  | _, _ => []
  end.

Definition loss_write (k : loss_kind) (q : eventQueue) (recorded : list CoverageGap) : list write :=
  if el_active (loss_of_kind k (eq_losses q))
  then [mkWrite (bool_decide (recorded = [])) (gap_reason k) false] else [].

Definition flush_writes (f : flush_fates) (now : time) (log : event_log) (t : list (Z * gap) * Retention) (q : eventQueue)
    : list write :=
  let ws := loop_writes maxEventFlush (ff_events f) (eq_pending q) in
  let '(_, q) := flush_loop decode maxEventFlush (ff_events f) now log q in
  let '(t, q1, g1) := flush_loss eventCapacity (ff_capacity f) now t q in
  let '(t, q2, g2) := flush_loss eventInvalid (ff_invalid f) now t q1 in
  let '(_, _, g3) := flush_loss eventRestart (ff_restart f) now t q2 in
  ws ++ loss_write eventCapacity q g1 ++ loss_write eventInvalid q1 g2 ++ loss_write eventRestart q2 g3.

Definition flush_queue (f : flush_fates) (now : time) (s : App * Database) : App * Database :=
  let '(a, d) := s in
  let t := (sd_gaps (db_sensor d), sd_retention (db_sensor d)) in
  let ws := flush_writes f now (db_log d) t (ap_queue a) in
  let '(log, t, q, _) := flushEvents decode f now (db_log d) t (ap_queue a) in
  (wrote now ws (with_queue q a), mkDatabase (set_ledger t.1 t.2 (db_sensor d)) log (db_coverage d)).

(** *** The state of the feed *)

(** [setSensorState] of the computed state; [gate] says that the gate was entered. *)
Definition refreshSensorState (gate : bool) (f : call_fate) (now : time) (s : App * Database) : App * Database :=
  let '(a, d) := s in
  let state := sensorCoverageState stale known (ap_receipts a) now in
  if negb gate || (ap_state a =?s state) then s
  else
    let sd := db_sensor d in
    let store cov ret := mkDatabase (set_ledger (sd_gaps sd) ret sd) (db_log d) cov in
    match f, setCoverage "sensor_feed" state now (db_coverage d) (sd_retention sd) with
    | Answered, Ok (cov, ret) => (with_state state a, store cov ret)
    | AnswerLost, Ok (cov, ret) => (with_state "" a, store cov ret)
    | _, _ => (with_state "" a, d)
    end.

(** *** What a batch leads to *)

(** [model.Traffic] of the flows. *)
Definition traffic_of (b : Batch) : list Traffic :=
  omap (fun fl =>
          (fun address =>
             let geo := pr_lookup prepare address in
             mkTraffic (b_sent_at b) (f_direction fl) (geo_country_code geo) (geo_region geo) (geo_asn geo)
               (geo_asn_org geo) (f_bytes fl) (f_packets fl)
               (negb (geo_country_code geo =?s "") && negb (geo_country_code geo =?s "PRIVATE")))
          <$> parse_addr (f_remote_ip fl)) (b_flows b).

(** The readings, orders, draws and outcomes of calls in the handling of one batch. *)
Record batch_env := mkEnv {
  en_read : bool;
  en_flush1 : flush_fates;
  en_now1 : time;
  en_receipt_order : map_order;
  en_gate : bool;
  en_state : call_fate;
  en_state_now : time;
  en_evict_order : map_order;
  en_fresh : Event -> string * string;
  en_queue_now : time;
  en_flush2 : flush_fates;
  en_now2 : time;
  en_outcome : bool;
  en_rejected : string -> bool;
  en_commit_order : map_order;
  en_commit_clock : commit_clock;
  en_commit : call_fate;
  en_commit_read : bool;
  en_now3 : time;
  en_gap : call_fate;
  en_health : call_fate;
  en_traffic : call_fate }.

(** One event of the batch is queued, and its identifier kept. *)
Definition queue_observed (e : batch_env) (s : eventQueue * sensorPreparedEvents) (event : Event)
    : eventQueue * sensorPreparedEvents :=
  let '(q, p) := s in
  let '(stored, message) := prepareEvent prepare (en_fresh e event) (en_queue_now e) event in
  let q' := queueEvent encode metadata_fits stored message (en_queue_now e) q in
  (q', if lenZ (eq_pending q) <? lenZ (eq_pending q')
       then mkPrepared (sp_session p) (sp_sequence p) (sp_ids p ++ [ev_id event]) (sp_rejected p)
       else mkPrepared (sp_session p) (sp_sequence p) (sp_ids p) true).

(** [SensorEventOutcome]; a stored event has its decision.  [None] is an error. *)
Definition SensorEventOutcome (answered : bool) (rejected : string -> bool) (ids : list string) (log : event_log)
    : option (bool * bool * bool) :=
  if (1024 <? lenZ ids) || negb answered then None
  else
    let stored := forallb (fun id => existsb (fun r => ev_id r.1 =?s id) log) ids in
    Some (stored, stored, forallb (fun id => negb (rejected id)) ids).

(** The flags and the reason of the commit. *)
Definition commit_verdict (outcome : option (bool * bool * bool)) (rejected : bool) : bool * bool * bool * string :=
  let '(events, decisions, admitted) := default (false, false, false) outcome in
  if negb events || negb decisions then (events, decisions, false, "derived_events_pending"%string)
  else if negb admitted then (events, decisions, false, "notification_rejected"%string)
  else if rejected then (false, false, false, "derived_events_rejected"%string)
  else (events, decisions, true, "committed"%string).

(** A call of [CommitSensorBatch]: the acknowledgement, whether it succeeded, and the
    tables.  A call that fails answers with the sequence it had read, if any. *)
Definition prior_committed (b : Batch) (d : SensorDB) : Z :=
  match row_of (b_session b, b_interface b) (sd_rows d) with
  | Some r => if b_sequence b <=? wr_sequence r then 0 else wr_sequence r
  | None => 0
  end.

Definition call_commit_batch (e : batch_env) (b : Batch) (traffic : list Traffic) (events notifications complete : bool)
    (reason : string) (d : SensorDB) : CommitACK * bool * SensorDB :=
  match en_commit e with
  | NotRun => (failure_ack b (if en_commit_read e then prior_committed b d else 0) "storage_failed", false, d)
  | f =>
      match CommitSensorBatch (en_commit_order e) (en_commit_clock e) b traffic events notifications complete reason d with
      | (ack, Err _) => (ack, false, d)
      | (ack, Ok d') =>
          if f is Answered then (ack, true, d') else (failure_ack b (prior_committed b d) "storage_failed", false, d')
      end
  end.

(** The answer to the sensor, and what the detectors reported when they were given the
    batch. *)
Record handled := mkHandled { hd_ack : CommitACK; hd_events : option (list Event) }.

(** The detectors are given the batch and their events are queued.  A full table of
    prepared events loses an entry first. *)
Definition make_room (o : map_order) (p : gmap string sensorPreparedEvents) : gmap string sensorPreparedEvents :=
  if MaxInterfaces <=? Z.of_nat (size p)
  then match entries o p with (name, _) :: _ => delete name p | [] => p end
  else p.

Definition observe_batch (e : batch_env) (b detector : Batch) (a : App)
    : sensorPreparedEvents * option (list Event) * App :=
  let kept := make_room (en_evict_order e) (ap_prepared a) in
  let '(events, fleet) := Fleet.Observe detector (ap_fleet a) in
  let '(q, p) := foldl (queue_observed e) (ap_queue a, mkPrepared (b_session b) (b_sequence b) [] false) events in
  (p, Some events, with_prepared (<[b_interface b := p]> kept) (with_fleet fleet (with_queue q a))).

(** The prepared events of the batch: those of an earlier attempt at it, or new ones. *)
Definition prepare_batch (e : batch_env) (b detector : Batch) (a : App)
    : sensorPreparedEvents * option (list Event) * App :=
  match ap_prepared a !! b_interface b with
  | Some p =>
      if negb (sp_session p =?s b_session b) || negb (sp_sequence p =? b_sequence b)
      then observe_batch e b detector a else (p, None, a)
  | None => observe_batch e b detector a
  end.

(** The commit of a batch whose events are prepared. *)
Definition finish_batch (e : batch_env) (b : Batch) (p : sensorPreparedEvents) (raised : option (list Event))
    (s : App * Database) : App * Database * handled :=
  let '(a, d) := flush_queue (en_flush2 e) (en_now2 e) s in
  let '(events, decisions, complete, reason) :=
    commit_verdict (SensorEventOutcome (en_outcome e) (en_rejected e) (sp_ids p) (db_log d)) (sp_rejected p) in
  let '(ack, ok, sd) := call_commit_batch e b (traffic_of b) events decisions complete reason (db_sensor d) in
  let a := wrote (en_now3 e) [mkWrite (negb ok) "sensor_commit" true] a in
  (if ok then with_prepared (delete (b_interface b) (ap_prepared a)) a else a, with_sensor sd d, mkHandled ack raised).

(** [handleSequencedBatch]. *)
Definition handleSequencedBatch (e : batch_env) (b : Batch) (s : App * Database) : App * Database * handled :=
  let '(a, d) := s in
  let failed a reason := (wrote (en_now3 e) [mkWrite true "sensor_commit" false] a, d, mkHandled (failure_ack b 0 reason) None) in
  match readSensorWatermark (b_session b) (b_interface b) (sd_rows (db_sensor d)) with
  | Err _ => failed a "storage_failed"%string
  | Ok w =>
      if negb (en_read e) then failed a "storage_failed"%string
      else
        let previous := default no_watermark w in
        if some w && (b_sequence b <=? w_sequence previous) then
          let '(ack, ok, sd) := call_commit_batch e b [] (w_events previous) (w_notifications previous) (w_complete previous)
                                  (w_reason previous) (db_sensor d) in
          (wrote (en_now3 e) [mkWrite (negb ok) "sensor_commit" false] a, with_sensor sd d, mkHandled ack None)
        else
          match Delta (b_health b) (w_health previous) with
          | Err _ => failed a "invalid_cumulative_health"%string
          | Ok delta =>
              let s := match eq_pending (ap_queue a) with [] => s | _ => flush_queue (en_flush1 e) (en_now1 e) s end in
              let s := (with_receipts (recordSensorReceiptLocked (en_receipt_order e) interface_limit b (ap_receipts s.1)) s.1, s.2) in
              let '(a, d) := refreshSensorState (en_gate e) (en_state e) (en_state_now e) s in
              let '(p, raised, a) := prepare_batch e b (Apply delta b) a in
              finish_batch e b p raised (a, d)
          end
  end.

(** *** Batches of the earlier protocol *)

(** A write of some tables that may fail or lose its answer. *)
Definition call_write {E A} (f : call_fate) (r : result E A) (before : A) : bool * A :=
  match f, r with
  | Answered, Ok after => (true, after)
  | AnswerLost, Ok after => (false, after)
  | _, _ => (false, before)
  end.

Definition put_committed (o : map_order) (b : Batch) (m : gmap string time) : gmap string time :=
  let m := if negb (some (m !! b_interface b)) && (MaxInterfaces <=? Z.of_nat (size m))
           then delete (oldest_name o m) m else m in
  if after (b_sent_at b) (default time_zero (m !! b_interface b)) then <[b_interface b := b_sent_at b]> m else m.

(** What [handleBatch] does with a batch that has no session; the events that the
    detectors reported come with it. *)
Definition observe_legacy (e : batch_env) (b : Batch) (s : App * Database) : App * Database * option (list Event) :=
  let '(a, d) := s in
  let sd := db_sensor d in
  let '(health_ok, health) := call_write (en_health e) (recordBatchHealth (b_sent_at b) (b_health b) (sd_health sd)) (sd_health sd) in
  let a := wrote (en_now1 e) [mkWrite (negb health_ok) "sensor_health" true] a in
  let d := with_sensor (set_sums health (sd_traffic sd) (sd_retention sd) sd) d in
  let '(events, fleet) := Fleet.Observe b (ap_fleet a) in
  let '(q, _) := foldl (queue_observed e) (ap_queue a, mkPrepared "" 0 [] false) events in
  let '(a, d) := flush_queue (en_flush2 e) (en_now2 e) (with_fleet fleet (with_queue q a), d) in
  let sd := db_sensor d in
  let '(traffic_ok, tables) :=
    call_write (en_traffic e) (addTrafficBatch (en_commit_order e) (ck_compaction (en_commit_clock e)) (traffic_of b)
                                 (sd_traffic sd) (sd_retention sd)) (sd_traffic sd, sd_retention sd) in
  let a := wrote (en_now3 e) [mkWrite (negb traffic_ok) "traffic" (0 <? lenZ (traffic_of b))] a in
  let d := with_sensor (set_sums (sd_health sd) tables.1 tables.2 sd) d in
  (if health_ok && traffic_ok then with_committed (put_committed (en_evict_order e) b (ap_committed a)) a else a, d, Some events).

Definition handleLegacyBatch (e : batch_env) (b : Batch) (s : App * Database) : App * Database * option (list Event) :=
  let '(a, d) := match eq_pending (ap_queue s.1) with [] => s | _ => flush_queue (en_flush1 e) (en_now1 e) s end in
  let previous := default time_zero (ap_committed a !! b_interface b) in
  let a := with_receipts (recordSensorReceiptLocked (en_receipt_order e) interface_limit b (ap_receipts a)) a in
  let '(a, d) := refreshSensorState (en_gate e) (en_state e) (en_state_now e) (a, d) in
  if negb (is_zero previous) && (millisecond <? time_sub (window_start b) previous) then
    let g := mkCoverageGap "sensor_feed" "sensor_observation_gap" previous (window_start b) 0 in
    let '(ok, t) := call_gap (en_gap e) g (en_now1 e) (sd_gaps (db_sensor d), sd_retention (db_sensor d)) in
    let a := wrote (en_now1 e) [mkWrite (negb ok) "sensor_observation_gap" false] a in
    let d := with_sensor (set_ledger t.1 t.2 (db_sensor d)) d in
    if ok then observe_legacy e b (a, d) else (a, d, None)
  else observe_legacy e b (a, d).

(** [handleBatch]: batches of version 5 with an identity are committed as such. *)
Definition handleBatch (e : batch_env) (b : Batch) (s : App * Database) : App * Database * option CommitACK * option (list Event) :=
  if (5 <=? b_version b) && negb (b_session b =?s "") && (0 <? b_sequence b) then
    let '(a, d, h) := handleSequencedBatch e b s in (a, d, Some (hd_ack h), hd_events h)
  else let '(a, d, raised) := handleLegacyBatch e b s in (a, d, None, raised).
End Ingest.
