(* ===== verification/IngestAck.v ===== *)
(** * What an acknowledgement promises

    Over histories of deliveries and flushes of [Ingest]: the detectors are given each
    batch at most once however often it is sent again, and an acknowledgement that says
    complete is sent only when everything that the batch led to is stored. *)

From S2P Require Export Ingest.

(** ** Histories *)

(** The condition under which a batch has an identity. *)
Definition sequenced (b : Batch) : bool := (5 <=? b_version b) && negb (b_session b =?s "") && (0 <? b_sequence b).
Definition ident (b : Batch) : string * (string * Z) := (b_interface b, (b_session b, b_sequence b)).
Definition identities_on (i : string) (bs : list Batch) : list (string * Z) :=
  (fun b => (b_session b, b_sequence b)) <$> filter (fun b => b_interface b = i) bs.

Section Histories.
Context `{GoRuntime} {Message : Type}.
Context (encode : Event * option Message -> option (list Z)) (decode : list Z -> option (Event * option Message)).
Context (metadata_fits : Event -> bool) (prepare : preparer Message).
Context (interface_limit : Z) (stale : duration) (known : feed_scope).

Inductive ingest_op :=
| OpBatch (e : batch_env) (b : Batch)
| OpFlush (f : flush_fates) (now : time).

(** The state, and what was delivered: the batch, the acknowledgement and the events
    that the detectors reported for it. *)
Record ingest_run := mkIngestRun {
  ir_app : App; ir_db : Database (Message := Message); ir_trace : list (Batch * option CommitACK * option (list Event)) }.

Definition ingest_step (s : ingest_run) (op : ingest_op) : ingest_run :=
  match op with
  | OpBatch e b =>
      let '(a, d, ack, raised) :=
        handleBatch encode decode metadata_fits prepare interface_limit stale known e b (ir_app s, ir_db s) in
      mkIngestRun a d (ir_trace s ++ [(b, ack, raised)])
  | OpFlush f now =>
      let '(a, d) := flush_queue decode f now (ir_app s, ir_db s) in mkIngestRun a d (ir_trace s)
  end.

(** The batches with an identity, and those that the detectors were given, with the
    events. *)
Definition batches_of (ops : list ingest_op) : list Batch :=
  omap (fun op => match op with OpBatch _ b => if sequenced b then Some b else None | OpFlush _ _ => None end) ops.

Definition observed (trace : list (Batch * option CommitACK * option (list Event)))
    : list ((string * (string * Z)) * list Event) :=
  omap (fun t => if sequenced t.1.1 then (fun es => (ident t.1.1, es)) <$> t.2 else None) trace.

(** ** What the parts leave as it was *)

Abbreviation state := (App * Database (Message := Message))%type.

(** The prepared events and the watermarks are the same, and the log has grown. *)
Definition quiet (s s' : state) : Prop :=
  ap_prepared s'.1 = ap_prepared s.1 /\ sd_rows (db_sensor s'.2) = sd_rows (db_sensor s.2)
  /\ sd_retired (db_sensor s'.2) = sd_retired (db_sensor s.2)
  /\ log_ids (db_log s.2) ⊆ log_ids (db_log s'.2).

#[local] Instance quiet_preorder : PreOrder quiet.
Proof.
  split; [done|]. intros s1 s2 s3 (H1 & H2 & H3 & H4) (K1 & K2 & K3 & K4).
  split; [congruence|]. split; [congruence|]. split; [congruence|]. by etransitivity.
Qed.

Lemma insert_event_grows (w : Event * option Message) log : log_ids log ⊆ log_ids (insert_event w log).
Proof.
  unfold insert_event. case_if; [done|]. intros id Hid. unfold log_ids. rewrite fmap_app. apply elem_of_app. by left.
Qed.

Lemma flush_loop_grows n : forall fates now log q,
  log_ids log ⊆ log_ids (flush_loop decode n fates now log q).1.
Proof.
  induction n as [|n IH]; intros fates now log q; cbn [flush_loop]; [done|].
  destruct (eq_pending q) as [|e pending]; [done|]. destruct (decode (qe_data e)) as [w|]; [|apply IH].
  unfold call_insert. destruct (fate_of fates); [done| |apply insert_event_grows].
  etransitivity; [apply (insert_event_grows w)|apply IH].
Qed.

Lemma flush_quiet f now s : quiet s (flush_queue decode f now s).
Proof.
  destruct s as [a d]. unfold flush_queue, flushEvents.
  pose proof (flush_loop_grows maxEventFlush (ff_events f) now (db_log d) (ap_queue a)) as Hg.
  destruct (flush_loop _ _ _ _ _ _) as [log q1]. cbn [fst] in Hg.
  destruct (flush_loss eventCapacity _ _ _ _) as [[t2 q2] g2].
  destruct (flush_loss eventInvalid _ _ _ _) as [[t3 q3] g3].
  destruct (flush_loss eventRestart _ _ _ _) as [[t4 q4] g4]. done.
Qed.

Lemma refreshSensorState_quiet gate f now (s : state) : quiet s (refreshSensorState stale known gate f now s).
Proof.
  destruct s as [a d]. unfold refreshSensorState. case_if; [done|].
  destruct (setCoverage _ _ _ _ _) as [[cov ret]|]; by destruct f.
Qed.

Lemma observe_legacy_quiet e b (s : state) :
  quiet s (observe_legacy encode decode metadata_fits prepare e b s).1.
Proof.
  destruct s as [a d]. unfold observe_legacy.
  destruct (call_write (en_health e) _ _) as [ok1 health]. destruct (Fleet.Observe _ _) as [events fleet].
  destruct (foldl _ _ events) as [q p].
  match goal with |- context [flush_queue decode ?f ?n ?s1] => pose proof (flush_quiet f n s1) as (H1 & H2 & H3 & H4);
    destruct (flush_queue decode f n s1) as [a2 d2] end.
  destruct (call_write (en_traffic e) _ _) as [ok2 tables]. cbn [fst snd] in *.
  split; [|done]. by case_if.
Qed.

Lemma handleLegacyBatch_quiet e b (s : state) :
  quiet s (handleLegacyBatch encode decode metadata_fits prepare interface_limit stale known e b s).1.
Proof.
  unfold handleLegacyBatch. set (s1 := match eq_pending _ with [] => s | _ => _ end).
  assert (Hq1 : quiet s s1) by (unfold s1; destruct (eq_pending _); [done|apply flush_quiet]).
  destruct s1 as [a1 d1]. etransitivity; [exact Hq1|]. clear Hq1 s.
  match goal with |- context [refreshSensorState stale known ?g ?f ?n ?s2] =>
    pose proof (refreshSensorState_quiet g f n s2) as Hq2; destruct (refreshSensorState stale known g f n s2) as [a2 d2] end.
  etransitivity; [exact Hq2|]. clear Hq2. case_if; [|apply observe_legacy_quiet].
  destruct (call_gap _ _ _ _) as [ok t]. destruct ok; [|done].
  etransitivity; [|apply observe_legacy_quiet]. done.
Qed.

(** A call of [CommitSensorBatch] leaves the tables alone or has the effect of a commit;
    only then may it be acknowledged as complete. *)
Lemma failed_commit_incomplete o ck b traffic ev n c reason d ack err :
  CommitSensorBatch o ck b traffic ev n c reason d = (ack, Err err) -> ack_complete ack = false.
Proof.
  unfold CommitSensorBatch. destruct (commit_admitted _ _ _ _ _); [|by intros [= <- _]].
  destruct (readSensorWatermark _ _ _); [|by intros [= <- _]]. case_if; [done|]. case_if; [by intros [= <- _]|].
  case_if; [by intros [= <- _]|]. destruct (rbind _ _) as [[]|]; by intros [= <- _].
Qed.

Lemma call_commit_batch_effect e b traffic ev n c reason d ack ok d' :
  0 <= b_sequence b ->
  call_commit_batch e b traffic ev n c reason d = (ack, ok, d') ->
  (d' = d /\ ok = false /\ ack_complete ack = false)
  \/ exists dup complete, commit_effect b c d d' dup complete
       /\ ack_complete ack = ok && complete.
Proof.
  intros Hseq. unfold call_commit_batch.
  destruct (CommitSensorBatch _ _ _ _ _ _ _ _ _) as [ack1 [d1|err]] eqn:E.
  - apply CommitSensorBatch_effect in E; [|done].
    destruct (en_commit e); intros [= <- <- <-]; [by left|right|right]; eexists _, _; by split; [exact E|].
  - apply failed_commit_incomplete in E. destruct (en_commit e); intros [= <- <- <-]; by left.
Qed.

(** What a commit does to the rows, when no watermark is retired: the row of the batch
    has reached its sequence, the others are the same. *)
Definition same_mark (r r' : watermark_row) : Prop :=
  row_key r' = row_key r /\ wr_sequence r' = wr_sequence r /\ wr_complete r' = wr_complete r.

Inductive marks_after (b : Batch) (c : bool) (rows rows' : list watermark_row) : bool -> Prop :=
| marks_duplicate r :
    row_of (batch_key b) rows = Some r -> b_sequence b <= wr_sequence r ->
    (forall r', r' ∈ rows' -> exists r, r ∈ rows /\ same_mark r r') ->
    (forall k r, row_of k rows = Some r -> exists r', row_of k rows' = Some r' /\ same_mark r r') ->
    marks_after b c rows rows' (wr_complete r && negb (b_sequence b <? wr_sequence r))
| marks_applied :
    from_option wr_sequence 0 (row_of (batch_key b) rows) < b_sequence b ->
    (forall r', r' ∈ rows' -> r' ∈ rows
       \/ row_key r' = batch_key b /\ wr_sequence r' = b_sequence b /\ wr_complete r' = c) ->
    (forall k r, row_of k rows = Some r -> exists r', row_of k rows' = Some r' /\ wr_sequence r <= wr_sequence r') ->
    (exists r', row_of (batch_key b) rows' = Some r' /\ wr_sequence r' = b_sequence b) ->
    marks_after b c rows rows' c.

Definition rows_positive (d : SensorDB) : Prop := Forall (fun r => 0 < wr_sent_us r) (sd_rows d).

Lemma upsert_elem r r' rows :
  r' ∈ upsert_row r rows -> r' ∈ rows \/ same_mark r r' /\ wr_sent_us r' = wr_sent_us r.
Proof.
  unfold upsert_row. case_if.
  - intros (r0 & -> & Hin)%list_elem_of_fmap. case_bool_decide; [|by left]. by right.
  - intros [Hin|Hin]%elem_of_app; [by left|]. apply list_elem_of_singleton in Hin as ->. by right.
Qed.

Lemma commit_effect_retired b c d d' dup complete :
  commit_effect b c d d' dup complete -> sd_retired d <= sd_retired d'.
Proof.
  intros [r Hr Hle ->|r old delta Hold Hk Hs Hus Hh Hseq Hprev Hnew [Hrows Hret _|o Hin Hrows Hret] _ _ _]; [done|lia|lia].
Qed.

Lemma commit_effect_marks b c d d' dup complete :
  commit_effect b c d d' dup complete -> rows_positive d -> sd_retired d' = 0 ->
  marks_after b c (sd_rows d) (sd_rows d') complete /\ rows_positive d' /\ sd_retired d = 0.
Proof.
  intros Heff Hpos Hz.
  destruct Heff as [r Hr Hle Heq|r old delta Hold Hk Hs Hus Hh Hseq Hprev Hnew Hafter _ _ Hc].
  - subst d'. cbn [sd_rows sd_retired set_rows] in *. split; [|split; [|done]].
    + apply marks_duplicate; [done|done| |].
      * intros r' (r0 & -> & Hin)%list_elem_of_fmap. exists r0. split; [done|]. by case_bool_decide.
      * intros k r0 Hr0. rewrite count_duplicate_row, Hr0. simpl. eexists. split; [reflexivity|]. by case_bool_decide.
    + unfold rows_positive in *. cbn [sd_rows set_rows]. unfold count_duplicate. rewrite Forall_fmap.
      eapply Forall_impl; [exact Hpos|]. intros r0 Hr0. unfold compose. by case_bool_decide.
  - pose proof (previous_end_pos (b_interface b) _ Hpos) as Hend.
    assert (Hup : Forall (fun r => 0 < wr_sent_us r) (upsert_row r (sd_rows d))).
    { apply Forall_forall. intros r' Hr'. unfold rows_positive in Hpos. rewrite Forall_forall in Hpos.
      apply upsert_elem in Hr' as [Hr'|[_ ->]]; [by apply Hpos|lia]. }
    destruct Hafter as [Hrows Hret _|o Hin Hrows Hret].
    2:{ rewrite Forall_forall in Hup. specialize (Hup o Hin). simpl in Hup. lia. }
    split; [|split; [by unfold rows_positive; rewrite Hrows|lia]]. rewrite Hrows. apply marks_applied.
    + by rewrite <- Hold.
    + intros r' Hr'. apply upsert_elem in Hr' as [Hr'|[(H1 & H2 & H3) _]]; [by left|right].
      split; [congruence|]. split; congruence.
    + intros k r0 Hr0. rewrite row_of_upsert. case_decide as Hd; [|by exists r0].
      subst k. rewrite Hr0. eexists. split; [reflexivity|]. cbn [keep_duplicates wr_sequence].
      rewrite Hk in Hr0. rewrite Hold, Hr0 in Hseq. simpl in Hseq. lia.
    + rewrite row_of_upsert, decide_True by congruence. eexists. split; [reflexivity|].
      by destruct (row_of (row_key r) (sd_rows d)).
Qed.

(** ** The invariant *)

Definition on_log (d : Database (Message := Message)) (es : list Event) : Prop :=
  Forall (fun e => ev_id e ∈ log_ids (db_log d)) es.

Record ack_inv (names : list string) (past : list Batch) (s : ingest_run) : Prop := {
  ai_positive : rows_positive (db_sensor (ir_db s));
  ai_names : forall i p, ap_prepared (ir_app s) !! i = Some p -> i ∈ names;
  ai_prepared : forall i p, ap_prepared (ir_app s) !! i = Some p ->
    exists es, ((i, (sp_session p, sp_sequence p)), es) ∈ observed (ir_trace s)
      /\ (sp_rejected p = false -> sp_ids p = ev_id <$> es);
  ai_past : forall i x, (i, x) ∈ (observed (ir_trace s)).*1 -> x ∈ identities_on i past;
  ai_once : NoDup (observed (ir_trace s)).*1;
  ai_last : forall i x, last (identities_on i past) = Some x -> (i, x) ∈ (observed (ir_trace s)).*1 ->
    (exists p, ap_prepared (ir_app s) !! i = Some p /\ (sp_session p, sp_sequence p) = x)
    \/ exists r, row_of (x.1, i) (sd_rows (db_sensor (ir_db s))) = Some r /\ x.2 <= wr_sequence r;
  ai_complete : forall r, r ∈ sd_rows (db_sensor (ir_db s)) -> wr_complete r = true ->
    exists es, ((wr_interface r, (wr_session r, wr_sequence r)), es) ∈ observed (ir_trace s) /\ on_log (ir_db s) es;
  ai_acks : forall b ack o, (b, Some ack, o) ∈ ir_trace s -> ack_complete ack = true ->
    (exists es, (ident b, es) ∈ observed (ir_trace s) /\ on_log (ir_db s) es)
    /\ exists r, row_of (batch_key b) (sd_rows (db_sensor (ir_db s))) = Some r /\ b_sequence b <= wr_sequence r }.

Lemma observed_app t1 t2 : observed (t1 ++ t2) = observed t1 ++ observed t2.
Proof. apply omap_app. Qed.

Lemma on_interface_snoc i past b :
  identities_on i (past ++ [b]) =
    identities_on i past ++ (if decide (b_interface b = i) then [(b_session b, b_sequence b)] else []).
Proof.
  unfold identities_on. rewrite filter_app, fmap_app, filter_cons, filter_nil. by case_decide.
Qed.

(** A step that only logs. *)
Lemma ack_inv_quiet names past s a d t :
  ack_inv names past s -> quiet (ir_app s, ir_db s) (a, d) ->
  observed t = [] -> (forall b ack o, (b, Some ack, o) ∈ t -> ack_complete ack = false) ->
  ack_inv names past (mkIngestRun a d (ir_trace s ++ t)).
Proof.
  intros [Hpos Hn Hp Hpast Honce Hlast Hc Ha] (Q1 & Q2 & _ & Q4) Ht Hack. cbn [fst snd] in *.
  assert (Hobs : observed (ir_trace s ++ t) = observed (ir_trace s)) by (by rewrite observed_app, Ht, app_nil_r).
  assert (Hlog : forall es, on_log (ir_db s) es -> on_log d es).
  { intros es Hes. eapply Forall_impl; [exact Hes|]. intros ev. apply Q4. }
  constructor; cbn [ir_app ir_db ir_trace]; rewrite ?Hobs, ?Q1, ?Q2; try done.
  - unfold rows_positive. by rewrite Q2.
  - intros r Hr Hrc. destruct (Hc r Hr Hrc) as (es & Hes & Hl). exists es. auto.
  - intros b ack o [Hin|Hin]%elem_of_app Hcomp; [|by rewrite (Hack _ _ _ Hin) in Hcomp].
    destruct (Ha b ack o Hin Hcomp) as [(es & Hes & Hl) Hr]. split; [|done]. exists es. auto.
Qed.

(** What was given to the detectors before is given again only as the last. *)
Definition retried (past : list Batch) (b : Batch) : Prop :=
  (b_session b, b_sequence b) ∈ identities_on (b_interface b) past ->
  last (identities_on (b_interface b) past) = Some (b_session b, b_sequence b).

Lemma ack_inv_past names past s b :
  ack_inv names past s -> retried past b -> ack_inv names (past ++ [b]) s.
Proof.
  intros [Hpos Hn Hp Hpast Honce Hlast Hc Ha] Hretry. constructor; try done.
  - intros i x Hin. rewrite on_interface_snoc. apply elem_of_app. left. by apply Hpast.
  - intros i x. rewrite on_interface_snoc. case_decide as Hi; [|rewrite app_nil_r; apply Hlast].
    subst i. rewrite last_snoc. intros [= <-] Hin. apply Hlast; [|done]. by apply Hretry, Hpast.
Qed.

Lemma row_of_interface k rows r : row_of k rows = Some r -> (wr_session r, wr_interface r) = k.
Proof. intros Hr. by apply row_of_Some in Hr as [_ Hk]. Qed.

(** A commit of the last batch of its interface. *)
Lemma ack_commit_inv names past s b c fin d' prepared' (a' : App) :
  ack_inv names past s ->
  last (identities_on (b_interface b) past) = Some (b_session b, b_sequence b) ->
  marks_after b c (sd_rows (db_sensor (ir_db s))) (sd_rows d') fin -> rows_positive d' ->
  (from_option wr_sequence 0 (row_of (batch_key b) (sd_rows (db_sensor (ir_db s)))) < b_sequence b -> c = true ->
     exists es, (ident b, es) ∈ observed (ir_trace s) /\ on_log (ir_db s) es) ->
  (prepared' = ap_prepared (ir_app s) \/ prepared' = delete (b_interface b) (ap_prepared (ir_app s))) ->
  ap_prepared a' = prepared' ->
  ack_inv names past (mkIngestRun a' (with_sensor d' (ir_db s)) (ir_trace s))
  /\ (fin = true -> exists es, (ident b, es) ∈ observed (ir_trace s) /\ on_log (ir_db s) es)
  /\ exists r, row_of (batch_key b) (sd_rows d') = Some r /\ b_sequence b <= wr_sequence r.
Proof.
  intros [Hpos Hn Hp Hpast Honce Hlast Hc Ha] Hb Hm Hpos' Hes Hprep Ha'.
  assert (Hsub : forall i p, prepared' !! i = Some p -> ap_prepared (ir_app s) !! i = Some p).
  { intros i p. destruct Hprep as [->| ->]; [done|]. by intros [_ ?]%lookup_delete_Some. }
  assert (Hrow : exists r, row_of (batch_key b) (sd_rows d') = Some r /\ b_sequence b <= wr_sequence r).
  { destruct Hm as [r Hr Hle _ Hkeep|_ _ _ (r & Hr & Hseq)]; [|exists r; split; [done|lia]].
    destruct (Hkeep _ _ Hr) as (r' & Hr' & _ & Hs & _). exists r'. split; [done|]. by rewrite Hs. }
  assert (Hkept : forall k r, row_of k (sd_rows (db_sensor (ir_db s))) = Some r ->
    exists r', row_of k (sd_rows d') = Some r' /\ wr_sequence r <= wr_sequence r').
  { destruct Hm as [r _ _ _ Hkeep|_ _ Hkeep _]; [|exact Hkeep]. intros k r0 Hr0.
    destruct (Hkeep k r0 Hr0) as (r' & Hr' & _ & Hs & _). exists r'. split; [done|]. by rewrite Hs. }
  split; [|split; [|exact Hrow]].
  - constructor; cbn [ir_app ir_db ir_trace with_sensor db_sensor db_log]; rewrite ?Ha'; try done.
    + intros i p Hi. by eapply Hn, Hsub.
    + intros i p Hi. by apply Hp, Hsub.
    + intros i x Hx Hin. destruct (Hlast i x Hx Hin) as [(p & Hi & Hid)|(r & Hr & Hle)].
      * destruct (decide (i = b_interface b)) as [->|Hne].
        -- right. rewrite Hb in Hx. injection Hx as <-. exact Hrow.
        -- left. exists p. split; [|done]. destruct Hprep as [->| ->]; [done|]. by rewrite lookup_delete_ne.
      * right. destruct (Hkept _ _ Hr) as (r' & Hr' & Hle'). exists r'. split; [done|lia].
    + intros r' Hr' Hcomp. destruct Hm as [r Hr Hle Hfrom _|Hlt Hfrom _ _].
      * destruct (Hfrom r' Hr') as (r0 & Hin & Hk & Hs & Hcc). rewrite Hcc in Hcomp. injection Hk as -> ->. rewrite Hs.
        by apply Hc.
      * destruct (Hfrom r' Hr') as [Hin|(Hk & Hs & Hcc)]; [by apply Hc|]. rewrite Hcc in Hcomp.
        destruct (Hes Hlt Hcomp) as (es & He & Hl). injection Hk as Hk1 Hk2. rewrite Hk1, Hk2, Hs. by exists es.
    + intros b' ack o Hin Hcomp. destruct (Ha b' ack o Hin Hcomp) as [He (r & Hr & Hle)]. split; [exact He|].
      destruct (Hkept _ _ Hr) as (r' & Hr' & Hle'). exists r'. split; [done|lia].
  - intros Hfin. destruct Hm as [r Hr Hle _ _|Hlt _ _ _]; [|by apply Hes].
    apply andb_true_iff in Hfin as [Hcomp Hseq]. bool_to_prop.
    apply row_of_Some in Hr as [Hin Hk]. destruct (Hc r Hin Hcomp) as (es & He & Hl). exists es. split; [|done].
    injection Hk as Hk1 Hk2. rewrite Hk1, Hk2 in He. unfold ident. by replace (b_sequence b) with (wr_sequence r) by lia.
Qed.

(** The answer is added to what was delivered last. *)
Lemma ack_inv_answer names past a d t b ack raised :
  ack_inv names past (mkIngestRun a d (t ++ [(b, None, raised)])) ->
  (ack_complete ack = true ->
     (exists es, (ident b, es) ∈ observed (t ++ [(b, None, raised)]) /\ on_log d es)
     /\ exists r, row_of (batch_key b) (sd_rows (db_sensor d)) = Some r /\ b_sequence b <= wr_sequence r) ->
  ack_inv names past (mkIngestRun a d (t ++ [(b, Some ack, raised)])).
Proof.
  intros [Hpos Hn Hp Hpast Honce Hlast Hc Ha] Hack. cbn [ir_app ir_db ir_trace] in *.
  assert (Hobs : observed (t ++ [(b, Some ack, raised)]) = observed (t ++ [(b, None, raised)])) by (by rewrite !observed_app).
  constructor; cbn [ir_app ir_db ir_trace]; rewrite ?Hobs; try done.
  intros b' ack' o [Hin|Hin]%elem_of_app Hcomp.
  - apply (Ha b' ack' o); [|done]. apply elem_of_app. by left.
  - apply list_elem_of_singleton in Hin as [= -> -> _]. by apply Hack.
Qed.

(** The events of a batch as they are queued. *)
Lemma queue_observed_ids e es : forall q p,
  let p' := (foldl (queue_observed encode metadata_fits prepare e) (q, p) es).2 in
  sp_session p' = sp_session p /\ sp_sequence p' = sp_sequence p
  /\ (sp_rejected p' = false -> sp_rejected p = false /\ sp_ids p' = sp_ids p ++ (ev_id <$> es)).
Proof.
  induction es as [|ev es IH]; intros q p; cbn [foldl].
  { split; [done|]. split; [done|]. intros Hr. split; [done|]. by rewrite app_nil_r. }
  destruct (queue_observed encode metadata_fits prepare e (q, p) ev) as [q1 p1] eqn:E1.
  destruct (IH q1 p1) as (H1 & H2 & H3). unfold queue_observed in E1.
  destruct (prepareEvent _ _ _ _) as [stored message]. injection E1 as _ <-.
  revert H1 H2 H3. case_if; cbn [sp_session sp_sequence sp_ids sp_rejected]; intros H1 H2 H3.
  - split; [done|]. split; [done|]. intros Hr. destruct (H3 Hr) as [H4 H5]. split; [done|].
    by rewrite H5, <- app_assoc.
  - split; [done|]. split; [done|]. intros Hr. by destruct (H3 Hr) as [? _].
Qed.

Lemma make_room_same o names (p : gmap string sensorPreparedEvents) :
  NoDup names -> lenZ names < MaxInterfaces -> (forall i x, p !! i = Some x -> i ∈ names) -> make_room o p = p.
Proof.
  intros Hnd Hlen Hdom. unfold make_room.
  assert (Hsize : (size p <= length names)%nat).
  { rewrite <- size_dom, <- (size_list_to_set (C := gset string) names) by done.
    apply subseteq_size. intros i [x Hx]%elem_of_dom. apply elem_of_list_to_set. by eapply Hdom. }
  unfold lenZ in Hlen. rewrite (proj2 (Z.leb_gt _ _)) by lia. done.
Qed.

Lemma prepare_batch_inv names past s e b detector p raised a2 :
  ack_inv names past s -> retried past b -> sequenced b = true ->
  b_interface b ∈ names -> NoDup names -> lenZ names < MaxInterfaces ->
  from_option wr_sequence 0 (row_of (batch_key b) (sd_rows (db_sensor (ir_db s)))) < b_sequence b ->
  prepare_batch encode metadata_fits prepare e b detector (ir_app s) = (p, raised, a2) ->
  ack_inv names (past ++ [b]) (mkIngestRun a2 (ir_db s) (ir_trace s ++ [(b, None, raised)]))
  /\ ap_prepared a2 !! b_interface b = Some p /\ (sp_session p, sp_sequence p) = (b_session b, b_sequence b).
Proof.
  intros Hinv Hretry Hs Hin Hnd Hlen Hnew Hp.
  pose proof (ack_inv_past names past s b Hinv Hretry) as Hinv'.
  assert (Hobserve : (forall p0, ap_prepared (ir_app s) !! b_interface b = Some p0 ->
      (sp_session p0, sp_sequence p0) <> (b_session b, b_sequence b)) ->
    observe_batch encode metadata_fits prepare e b detector (ir_app s) = (p, raised, a2) ->
    ack_inv names (past ++ [b]) (mkIngestRun a2 (ir_db s) (ir_trace s ++ [(b, None, raised)]))
    /\ ap_prepared a2 !! b_interface b = Some p /\ (sp_session p, sp_sequence p) = (b_session b, b_sequence b)).
  2:{ unfold prepare_batch in Hp. destruct (ap_prepared (ir_app s) !! b_interface b) as [p0|] eqn:Ep.
      - destruct (negb _ || negb _) eqn:Eid.
        + apply Hobserve; [|exact Hp]. intros ? [= <-] [= H1 H2].
          by rewrite H1, H2, String.eqb_refl, Z.eqb_refl in Eid.
        + injection Hp as <- <- <-. bool_to_prop. apply String.eqb_eq in H0. rewrite Ep, H0, H1.
          split; [|done]. apply (ack_inv_quiet _ _ s _ _ [(b, None, None)]); [done|done| |].
          * cbn. by case_if.
          * intros b' ack o Hx. by apply list_elem_of_singleton in Hx.
      - by apply Hobserve. }
  clear Hp. intros Hno Hobs. unfold observe_batch in Hobs.
  rewrite (make_room_same _ names _ Hnd Hlen (ai_names _ _ _ Hinv)) in Hobs.
  destruct (Fleet.Observe detector (ap_fleet (ir_app s))) as [events fleet].
  pose proof (queue_observed_ids e events (ap_queue (ir_app s)) (mkPrepared (b_session b) (b_sequence b) [] false)) as Hids.
  destruct (foldl _ _ events) as [q p1]. cbn [snd sp_session sp_sequence sp_rejected sp_ids app] in Hids.
  injection Hobs as -> <- <-. destruct Hids as (Hsess & Hseq & Hids).
  assert (Hraised : observed (ir_trace s ++ [(b, None, Some events)]) = observed (ir_trace s) ++ [(ident b, events)]).
  { rewrite observed_app. f_equal. cbn. by rewrite Hs. }
  assert (Hfresh : ident b ∉ (observed (ir_trace s)).*1).
  { intros Hx. pose proof (ai_past _ _ _ Hinv _ _ Hx) as Hb. specialize (Hretry Hb).
    destruct (ai_last _ _ _ Hinv _ _ Hretry Hx) as [(p0 & Hp0 & Hid)|(r & Hr & Hle)]; [by eapply Hno|].
    cbn [fst snd] in *. unfold batch_key in Hnew. rewrite Hr in Hnew. simpl in Hnew. lia. }
  destruct Hinv' as [Hpos Hn Hprep Hpast Honce Hlast Hc Ha].
  split; [|cbn [ap_prepared with_prepared]; rewrite lookup_insert_eq; by rewrite Hsess, Hseq].
  constructor; cbn [ir_app ir_db ir_trace ap_prepared with_prepared]; rewrite ?Hraised, ?fmap_app; try done.
  - intros i p'. rewrite lookup_insert. case_decide as Hd; [intros _; by subst|apply Hn].
  - intros i p'. rewrite lookup_insert. case_decide as Hd.
    + intros [= <-]. exists events. rewrite <- Hd, Hsess, Hseq. split; [apply elem_of_app; right; by left|].
      intros Hr. by apply Hids.
    + intros Hi. destruct (Hprep i p' Hi) as (es & He & Hr). exists es. split; [apply elem_of_app; by left|done].
  - intros i x [Hx|Hx]%elem_of_app; [by apply Hpast|]. apply list_elem_of_singleton in Hx as [= -> ->].
    rewrite on_interface_snoc, decide_True by done. apply elem_of_app. right. by left.
  - apply NoDup_app. split; [done|]. split; [|apply NoDup_singleton].
    intros x Hx Hx'. apply list_elem_of_singleton in Hx'. simpl in Hx'. by subst.
  - intros i x Hx Hin'. destruct (decide (b_interface b = i)) as [<-|Hne].
    + left. exists p. rewrite lookup_insert_eq, Hsess, Hseq. split; [done|].
      rewrite on_interface_snoc, decide_True, last_snoc in Hx by done. congruence.
    + apply elem_of_app in Hin' as [Hin'|Hin'].
      * destruct (Hlast i x Hx Hin') as [(p0 & Hp0 & Hid)|Hrow]; [left|by right].
        exists p0. by rewrite lookup_insert_ne.
      * apply list_elem_of_singleton in Hin' as [= Hi _]. congruence.
  - intros r Hr Hcomp. destruct (Hc r Hr Hcomp) as (es & He & Hl). exists es. split; [apply elem_of_app; by left|done].
  - intros b' ack o [Hx|Hx]%elem_of_app Hcomp; [|by apply list_elem_of_singleton in Hx].
    destruct (Ha b' ack o Hx Hcomp) as [(es & He & Hl) Hrow]. split; [|done].
    exists es. split; [apply elem_of_app; by left|done].
Qed.

Lemma ack_inv_same names past s a d :
  ack_inv names past s -> quiet (ir_app s, ir_db s) (a, d) -> ack_inv names past (mkIngestRun a d (ir_trace s)).
Proof.
  intros Hinv Hq. rewrite <- (app_nil_r (ir_trace s)). apply ack_inv_quiet; [done|done|done|].
  by intros ? ? ? ?%elem_of_nil.
Qed.

(** The flag [complete] of a commit. *)
Lemma commit_verdict_complete answered rejected ids log r ev dec complete reason :
  commit_verdict (SensorEventOutcome (Message := Message) answered rejected ids log) r = (ev, dec, complete, reason) ->
  complete = true -> r = false /\ Forall (fun id => id ∈ log_ids log) ids.
Proof.
  unfold commit_verdict, SensorEventOutcome. case_if; [by intros [= <- <- <- <-]|]. simpl.
  destruct (forallb _ ids) eqn:Es; simpl; [|by intros [= <- <- <- <-]].
  case_if; [by intros [= <- <- <- <-]|]. destruct r; [by intros [= <- <- <- <-]|]. intros _ _. split; [done|].
  apply Forall_forall. intros id Hid. rewrite forallb_forall in Es. apply list_elem_of_In, Es in Hid.
  apply existsb_exists in Hid as (w & Hw & He%String.eqb_eq). subst id.
  apply list_elem_of_fmap. exists w. split; [done|]. by apply list_elem_of_In.
Qed.

(** A call that leaves the tables alone, or one that commits the last batch. *)
Lemma call_commit_inv names past a d t b raised e traffic ev n c reason ack ok sd prepared' a' :
  ack_inv names past (mkIngestRun a d (t ++ [(b, None, raised)])) -> 0 <= b_sequence b ->
  last (identities_on (b_interface b) past) = Some (b_session b, b_sequence b) ->
  call_commit_batch e b traffic ev n c reason (db_sensor d) = (ack, ok, sd) -> sd_retired sd = 0 ->
  (from_option wr_sequence 0 (row_of (batch_key b) (sd_rows (db_sensor d))) < b_sequence b -> c = true ->
     exists es, (ident b, es) ∈ observed (t ++ [(b, None, raised)]) /\ on_log d es) ->
  (prepared' = ap_prepared a \/ ok = true /\ prepared' = delete (b_interface b) (ap_prepared a)) ->
  ap_prepared a' = prepared' ->
  ack_inv names past (mkIngestRun a' (with_sensor sd d) (t ++ [(b, Some ack, raised)])).
Proof.
  intros Hinv Hseq Hlast Hcall Hz Hes Hprep Ha'.
  destruct (call_commit_batch_effect _ _ _ _ _ _ _ _ _ _ _ Hseq Hcall) as [(-> & -> & Hack)|(dup & fin & Heff & Hack)].
  - destruct Hprep as [->|[[=] _]]. apply ack_inv_answer; [|by rewrite Hack].
    refine (ack_inv_same names past _ a' (with_sensor (db_sensor d) d) Hinv _). by split.
  - destruct (commit_effect_marks _ _ _ _ _ _ Heff (ai_positive _ _ _ Hinv) Hz) as (Hm & Hpos & _).
    destruct (ack_commit_inv names past _ b c fin sd prepared' a' Hinv Hlast Hm Hpos Hes) as (Hinv' & Hfin & Hrow); [|done|].
    { destruct Hprep as [->|[_ ->]]; [by left|by right]. }
    apply ack_inv_answer; [exact Hinv'|]. rewrite Hack. intros [_ Hf]%andb_true_iff. split; [by apply Hfin|exact Hrow].
Qed.

Lemma finish_batch_inv names past a d t b raised e p a' d' h :
  ack_inv names past (mkIngestRun a d (t ++ [(b, None, raised)])) -> 0 <= b_sequence b ->
  last (identities_on (b_interface b) past) = Some (b_session b, b_sequence b) ->
  ap_prepared a !! b_interface b = Some p -> (sp_session p, sp_sequence p) = (b_session b, b_sequence b) ->
  finish_batch decode prepare e b p raised (a, d) = (a', d', h) -> sd_retired (db_sensor d') = 0 ->
  ack_inv names past (mkIngestRun a' d' (t ++ [(b, Some (hd_ack h), hd_events h)])).
Proof.
  intros Hinv Hseq Hlast Hp Hid. unfold finish_batch.
  pose proof (flush_quiet (en_flush2 e) (en_now2 e) (a, d)) as Hq. destruct (flush_queue _ _ _ _) as [a1 d1].
  pose proof (ack_inv_same _ _ _ _ _ Hinv Hq) as Hinv1. destruct Hq as (Hprep & _). cbn [fst] in Hprep.
  destruct (commit_verdict _ _) as [[[ev dec] complete] reason] eqn:Ev.
  destruct (call_commit_batch _ _ _ _ _ _ _ _) as [[ack ok] sd] eqn:Ec. intros [= <- <- <-] Hz.
  cbn [hd_ack hd_events].
  eapply call_commit_inv; [exact Hinv1|done|exact Hlast|exact Ec|exact Hz| | |reflexivity].
  - intros _ Hc. destruct (commit_verdict_complete _ _ _ _ _ _ _ _ _ Ev Hc) as [Hr Hids].
    destruct (ai_prepared _ _ _ Hinv1 (b_interface b) p) as (es & He & Hsame); [cbn [ir_app]; by rewrite Hprep|].
    exists es. unfold ident. rewrite <- Hid. split; [done|]. rewrite (Hsame Hr) in Hids. by apply Forall_fmap in Hids.
  - destruct ok; cbn [ap_prepared with_prepared wrote]; [right; by rewrite Hprep|left; by rewrite Hprep].
Qed.

Lemma sequenced_pos b : sequenced b = true -> 0 < b_sequence b.
Proof. unfold sequenced. intros H1. bool_to_prop. lia. Qed.

Lemma finish_batch_events e b p raised s : hd_events (finish_batch decode prepare e b p raised s).2 = raised.
Proof.
  unfold finish_batch. destruct (flush_queue _ _ _ _). destruct (commit_verdict _ _) as [[[? ?] ?] ?].
  by destruct (call_commit_batch _ _ _ _ _ _ _ _) as [[? ?] ?].
Qed.

(** The delivery of a batch that has an identity. *)
Lemma handleSequencedBatch_inv names past s e b a d h :
  ack_inv names past s -> retried past b -> sequenced b = true ->
  b_interface b ∈ names -> NoDup names -> lenZ names < MaxInterfaces ->
  handleSequencedBatch encode decode metadata_fits prepare interface_limit stale known e b (ir_app s, ir_db s) = (a, d, h) ->
  sd_retired (db_sensor d) = 0 ->
  ack_inv names (past ++ [b]) (mkIngestRun a d (ir_trace s ++ [(b, Some (hd_ack h), hd_events h)])).
Proof.
  intros Hinv Hretry Hs Hin Hnd Hlen. pose proof (sequenced_pos b Hs) as Hpos.
  assert (Hlast : last (identities_on (b_interface b) (past ++ [b])) = Some (b_session b, b_sequence b))
    by (by rewrite on_interface_snoc, decide_True, last_snoc by done).
  assert (Hfail : forall now reason,
    ack_inv names (past ++ [b]) (mkIngestRun (wrote now [mkWrite true "sensor_commit" false] (ir_app s)) (ir_db s)
      (ir_trace s ++ [(b, Some (failure_ack b 0 reason), None)]))).
  { intros now reason. apply ack_inv_quiet; [by apply ack_inv_past|done| |].
    - cbn. by case_if.
    - by intros b' ack o [= -> -> ->]%list_elem_of_singleton. }
  unfold handleSequencedBatch. cbv zeta.
  destruct (readSensorWatermark _ _ _) as [w|] eqn:Ew; [|intros [= <- <- <-] _; apply Hfail].
  destruct (negb (en_read e)); [intros [= <- <- <-] _; apply Hfail|].
  apply readSensorWatermark_Ok in Ew as [-> _]. fold (batch_key b).
  destruct (some _ && _) eqn:Edup.
  - destruct (call_commit_batch _ _ _ _ _ _ _ _) as [[ack ok] sd] eqn:Ec. intros [= <- <- <-] Hz. cbn [hd_ack hd_events].
    eapply call_commit_inv; [|lia|exact Hlast|exact Ec|exact Hz| |by left|reflexivity].
    + apply ack_inv_quiet; [by apply ack_inv_past|done| |by intros ? ? ? ?%list_elem_of_singleton].
      cbn. by case_if.
    + intros Hlt. exfalso. apply andb_true_iff in Edup as [Hsome Hle]. bool_to_prop.
      destruct (row_of (batch_key b) (sd_rows (db_sensor (ir_db s)))) as [r|]; [|discriminate]. simpl in *. lia.
  - destruct (Delta _ _) as [delta|]; [|intros [= <- <- <-] _; apply Hfail].
    set (s1 := match eq_pending _ with [] => _ | _ => _ end).
    assert (Hq1 : quiet (ir_app s, ir_db s) s1) by (unfold s1; destruct (eq_pending _); [done|apply flush_quiet]).
    clearbody s1. destruct s1 as [a1 d1]. cbn [fst snd].
    match goal with |- context [refreshSensorState stale known ?g ?f ?n ?s2] =>
      pose proof (refreshSensorState_quiet g f n s2) as Hq2; destruct (refreshSensorState stale known g f n s2) as [a2 d2] end.
    assert (Hq : quiet (ir_app s, ir_db s) (a2, d2)) by (etransitivity; [exact Hq1|exact Hq2]).
    destruct (prepare_batch _ _ _ _ _ _ _) as [[p raised] a3] eqn:Ep.
    assert (Hnew : from_option wr_sequence 0 (row_of (batch_key b) (sd_rows (db_sensor d2))) < b_sequence b).
    { destruct Hq as (_ & Hrows & _). cbn [fst snd] in Hrows. rewrite Hrows.
      destruct (row_of (batch_key b) (sd_rows (db_sensor (ir_db s)))) as [r|]; simpl in *; [bool_to_prop; lia|lia]. }
    destruct (prepare_batch_inv names past (mkIngestRun a2 d2 (ir_trace s)) e b _ p raised a3
      (ack_inv_same _ _ _ _ _ Hinv Hq) Hretry Hs Hin Hnd Hlen Hnew Ep) as (Hinv3 & Hprep & Hid).
    cbn [ir_db ir_trace] in Hinv3. intros Hh Hz.
    assert (Hraised : hd_events h = raised) by (by rewrite <- (finish_batch_events e b p raised (a3, d2)), Hh).
    subst raised.
    refine (finish_batch_inv names _ a3 d2 (ir_trace s) b (hd_events h) e p a d h Hinv3 _ Hlast Hprep Hid Hh Hz). lia.
Qed.

(** ** Retirement only grows *)

Lemma call_commit_retired e b traffic ev n c reason d ack ok d' :
  0 <= b_sequence b -> call_commit_batch e b traffic ev n c reason d = (ack, ok, d') -> sd_retired d <= sd_retired d'.
Proof.
  intros Hseq Hc. destruct (call_commit_batch_effect _ _ _ _ _ _ _ _ _ _ _ Hseq Hc) as [(-> & _)|(dup & fin & Heff & _)]; [done|].
  by eapply commit_effect_retired.
Qed.

Lemma finish_batch_retired e b p raised (s : state) a' d' h :
  0 <= b_sequence b -> finish_batch decode prepare e b p raised s = (a', d', h) ->
  sd_retired (db_sensor s.2) <= sd_retired (db_sensor d').
Proof.
  intros Hseq. unfold finish_batch.
  pose proof (flush_quiet (en_flush2 e) (en_now2 e) s) as (_ & _ & Hr & _). destruct (flush_queue _ _ _ _) as [a1 d1].
  destruct (commit_verdict _ _) as [[[? ?] ?] ?]. destruct (call_commit_batch _ _ _ _ _ _ _ _) as [[ack ok] sd] eqn:Ec.
  intros [= <- <- <-]. apply call_commit_retired in Ec; [|done]. cbn [snd] in Hr. cbn [db_sensor with_sensor]. lia.
Qed.

Lemma handleSequencedBatch_retired e b (s : state) a d h :
  0 <= b_sequence b ->
  handleSequencedBatch encode decode metadata_fits prepare interface_limit stale known e b s = (a, d, h) ->
  sd_retired (db_sensor s.2) <= sd_retired (db_sensor d).
Proof.
  intros Hseq. destruct s as [a0 d0]. unfold handleSequencedBatch. cbv zeta. cbn [snd].
  destruct (readSensorWatermark _ _ _) as [w|]; [|by intros [= <- <- <-]].
  destruct (negb (en_read e)); [by intros [= <- <- <-]|]. destruct (some _ && _).
  - destruct (call_commit_batch _ _ _ _ _ _ _ _) as [[ack ok] sd] eqn:Ec. intros [= <- <- <-].
    by apply call_commit_retired in Ec.
  - destruct (Delta _ _) as [delta|]; [|by intros [= <- <- <-]].
    set (s1 := match eq_pending _ with [] => _ | _ => _ end).
    assert (Hq1 : quiet (a0, d0) s1) by (unfold s1; destruct (eq_pending _); [done|apply flush_quiet]).
    clearbody s1. destruct s1 as [a1 d1]. cbn [fst snd].
    match goal with |- context [refreshSensorState stale known ?g ?f ?n ?s2] =>
      pose proof (refreshSensorState_quiet g f n s2) as Hq2; destruct (refreshSensorState stale known g f n s2) as [a2 d2] end.
    destruct (prepare_batch _ _ _ _ _ _ _) as [[p raised] a3]. intros Hf%finish_batch_retired; [|done].
    destruct Hq1 as (_ & _ & H1 & _), Hq2 as (_ & _ & H2 & _). cbn [snd] in *. lia.
Qed.

Lemma ingest_step_retired s op :
  sd_retired (db_sensor (ir_db s)) <= sd_retired (db_sensor (ir_db (ingest_step s op))).
Proof.
  destruct op as [e b|f now]; cbn [ingest_step].
  - unfold handleBatch. case_if.
    + destruct (handleSequencedBatch _ _ _ _ _ _ _ _ _ _) as [[a d] h] eqn:Eh. cbn [ir_db].
      apply handleSequencedBatch_retired in Eh; [exact Eh|]. bool_to_prop. lia.
    + pose proof (handleLegacyBatch_quiet e b (ir_app s, ir_db s)) as (_ & _ & Hr & _).
      destruct (handleLegacyBatch _ _ _ _ _ _ _ _ _ _) as [[a d] o]. cbn in *. lia.
  - pose proof (flush_quiet f now (ir_app s, ir_db s)) as (_ & _ & Hr & _).
    destruct (flush_queue _ _ _ _) as [a d]. cbn in *. lia.
Qed.

Lemma ingest_run_retired ops : forall s,
  sd_retired (db_sensor (ir_db s)) <= sd_retired (db_sensor (ir_db (foldl ingest_step s ops))).
Proof.
  induction ops as [|op ops IH]; intros s; [done|]. simpl. etransitivity; [apply (ingest_step_retired s op)|apply IH].
Qed.

(** ** Histories keep the invariant *)

Lemma immediate_head {A} `{EqDecision A} (before : list A) x l :
  immediate before (x :: l) = true -> (x ∈ before -> last before = Some x) /\ immediate (before ++ [x]) l = true.
Proof.
  cbn [immediate]. intros [Hx Hl]%andb_true_iff. split; [|done]. intros Hin.
  rewrite bool_decide_true in Hx by done. by apply bool_decide_eq_true in Hx.
Qed.

Lemma on_interface_cons i b bs :
  identities_on i (b :: bs) = (if decide (b_interface b = i) then [(b_session b, b_sequence b)] else []) ++ identities_on i bs.
Proof. unfold identities_on. rewrite filter_cons. by case_decide. Qed.

Lemma deliver_inv names past s e b :
  ack_inv names past s -> retried past b -> sequenced b = true ->
  b_interface b ∈ names -> NoDup names -> lenZ names < MaxInterfaces ->
  sd_retired (db_sensor (ir_db (ingest_step s (OpBatch e b)))) = 0 ->
  ack_inv names (past ++ [b]) (ingest_step s (OpBatch e b)).
Proof.
  intros Hinv Hretry Hs Hb Hnd Hlen. cbn [ingest_step]. unfold handleBatch. fold (sequenced b). rewrite Hs.
  destruct (handleSequencedBatch _ _ _ _ _ _ _ _ _ _) as [[a d] h] eqn:Eh. cbn [ir_db].
  by apply (handleSequencedBatch_inv names past s e b a d h).
Qed.

Lemma deliver_legacy_inv names past s e b :
  ack_inv names past s -> sequenced b = false -> ack_inv names past (ingest_step s (OpBatch e b)).
Proof.
  intros Hinv Hs. cbn [ingest_step]. unfold handleBatch. fold (sequenced b). rewrite Hs.
  pose proof (handleLegacyBatch_quiet e b (ir_app s, ir_db s)) as Hq.
  destruct (handleLegacyBatch _ _ _ _ _ _ _ _ _ _) as [[a d] o]. cbn [fst] in Hq.
  apply ack_inv_quiet; [done|done| |by intros ? ? ? ?%list_elem_of_singleton].
  cbn. by rewrite Hs.
Qed.

Lemma flushed_inv names past s f now :
  ack_inv names past s -> ack_inv names past (ingest_step s (OpFlush f now)).
Proof.
  intros Hinv. cbn [ingest_step]. pose proof (flush_quiet f now (ir_app s, ir_db s)) as Hq.
  destruct (flush_queue _ _ _ _) as [a d]. by apply ack_inv_same.
Qed.

Lemma ingest_run_inv names ops : forall past s,
  NoDup names -> lenZ names < MaxInterfaces -> Forall (fun b => b_interface b ∈ names) (batches_of ops) ->
  (forall i, immediate (identities_on i past) (identities_on i (batches_of ops)) = true) ->
  ack_inv names past s -> 0 <= sd_retired (db_sensor (ir_db s)) ->
  sd_retired (db_sensor (ir_db (foldl ingest_step s ops))) = 0 ->
  exists past', ack_inv names past' (foldl ingest_step s ops).
Proof.
  induction ops as [|op ops IH]; intros past s Hnd Hlen Hnames Him Hinv Hret Hz; [by exists past|]. cbn [foldl] in Hz |- *.
  pose proof (ingest_run_retired ops (ingest_step s op)) as Hr1. pose proof (ingest_step_retired s op) as Hr0.
  assert (Hz1 : sd_retired (db_sensor (ir_db (ingest_step s op))) = 0) by lia. clear Hr0 Hr1.
  assert (Hret1 : 0 <= sd_retired (db_sensor (ir_db (ingest_step s op)))) by lia.
  destruct op as [e b|f now]; [|by apply (IH past); try done; apply flushed_inv].
  destruct (sequenced b) eqn:Es.
  - assert (Hbs : batches_of (OpBatch e b :: ops) = b :: batches_of ops) by (unfold batches_of; simpl; by rewrite Es).
    rewrite Hbs in Hnames, Him. apply Forall_cons in Hnames as [Hb Hnames].
    assert (Hretry : retried past b).
    { specialize (Him (b_interface b)). rewrite on_interface_cons, decide_True in Him by done. by apply immediate_head in Him as [Hx _]. }
    apply (IH (past ++ [b])); try done; [|by apply deliver_inv].
    intros i. specialize (Him i). rewrite on_interface_cons in Him. rewrite on_interface_snoc.
    case_decide; [by apply immediate_head in Him as [_ Hx]|by rewrite app_nil_r].
  - assert (Hbs : batches_of (OpBatch e b :: ops) = batches_of ops) by (unfold batches_of; simpl; by rewrite Es).
    rewrite Hbs in Hnames, Him. by apply (IH past); try done; apply deliver_legacy_inv.
Qed.

(** C24. An acknowledgement that says complete is true.  Fewer than eight interfaces
    deliver batches, in any interleaving with batches of the earlier protocol and with
    flushes, a batch may be sent again at once any number of times, and every call of the
    store may fail, or run and lose its answer.  Then, while no watermark is retired,
    the detectors are given each batch at most once, and for every batch acknowledged
    as complete the watermark has reached its sequence and every event that the
    detectors reported for it is in the store. *)
Theorem complete_ack_sound a0 d0 ops :
  ap_prepared a0 = ∅ -> sd_rows (db_sensor d0) = [] -> sd_retired (db_sensor d0) = 0 ->
  lenZ (remove_dups (b_interface <$> batches_of ops)) < MaxInterfaces ->
  (forall i, immediate [] (identities_on i (batches_of ops)) = true) ->
  let s := foldl ingest_step (mkIngestRun a0 d0 []) ops in
  sd_retired (db_sensor (ir_db s)) = 0 ->
  NoDup (observed (ir_trace s)).*1
  /\ forall b ack o, (b, Some ack, o) ∈ ir_trace s -> ack_complete ack = true ->
      (exists es, (ident b, es) ∈ observed (ir_trace s) /\ Forall (fun e => ev_id e ∈ log_ids (db_log (ir_db s))) es)
      /\ exists r, row_of (batch_key b) (sd_rows (db_sensor (ir_db s))) = Some r /\ b_sequence b <= wr_sequence r.
Proof.
  intros Hprep Hrows Hret Hlen Him s Hz.
  destruct (ingest_run_inv (remove_dups (b_interface <$> batches_of ops)) ops [] (mkIngestRun a0 d0 [])) as [past Hinv];
    [apply NoDup_remove_dups|done| |done| |cbn [ir_db]; lia|done|].
  - apply Forall_forall. intros b Hb. apply elem_of_remove_dups. by apply list_elem_of_fmap_2.
  - constructor; cbn [ir_app ir_db ir_trace observed omap list_omap]; rewrite ?Hprep, ?Hrows; try done.
    + unfold rows_positive. by rewrite Hrows.
    + intros i x. by intros ?%elem_of_nil.
    + constructor.
    + by intros r ?%elem_of_nil.
    + by intros b ack o ?%elem_of_nil.
  - destruct Hinv as [_ _ _ _ Honce _ _ Hacks]. split; [exact Honce|exact Hacks].
Qed.
End Histories.

(** ** A worked example *)

Definition example_id_only (id : string) : Event :=
  mkEvent id "" time_zero "" "" SeverityInfo "" "" "" "" 0 no_geo ∅.

(** A codec that keeps the identifier of an event. *)
Definition example_encode (w : Event * option unit) : option (list Z) := Some (bytes_of_string (ev_id w.1)).
Definition example_decode (data : list Z) : option (Event * option unit) := Some (example_id_only (string_of_bytes data), None).
Definition example_prepare : preparer unit :=
  mkPreparer (fun _ => mkGeo "DE" "Germany" "BE" "Berlin" 3320 "Telekom" "" "" true)
    (mkTransformer "prefix" (fun s => s)) (mkTransformer "prefix" (fun s => s)) false (fun _ _ _ => None).

Definition example_syn_batch (seq port : Z) : Batch :=
  mkBatch 0 5 example_session seq (at_one + seq * second) 0 1000 "eth0"
    [mkFlow "inbound" "192.0.2.7" "tcp" port 51000 2 10 600] 600 0 10 0 10 0 0
    (mkHealth 0 0 0 (10 * seq) 0 0 0 0 0 false).

Definition example_env (seq : Z) (commit : call_fate) : batch_env :=
  let now := at_one + seq * second + millisecond in
  let answered := mkFates (replicate 64 Answered) Answered Answered Answered in
  mkEnv true answered now in_order true Answered now in_order (fun _ => ("", ""))%string now answered now true (fun _ => false)
    in_order (example_clock now) commit true now Answered Answered Answered.

(** The first commit loses its answer and its batch is sent again; the second fails
    once before it succeeds. *)
Definition example_deliveries : list ingest_op :=
  [OpBatch (example_env 1 AnswerLost) (example_syn_batch 1 80); OpBatch (example_env 1 Answered) (example_syn_batch 1 80);
   OpBatch (example_env 2 NotRun) (example_syn_batch 2 443); OpBatch (example_env 2 Answered) (example_syn_batch 2 443)].

Definition example_app : App :=
  mkApp new_queue (NewFleet example_detection 2 0) ∅ no_receipts "" new_storage ∅.
Definition example_database : Database (Message := unit) := mkDatabase no_sensor_db [] no_coverage.

Definition example_run : ingest_run :=
  foldl (@ingest_step example_runtime unit example_encode example_decode (fun _ => true) example_prepare 2 (10 * second)
    (mkFeedScope false false false [])) (mkIngestRun example_app example_database []) example_deliveries.
Definition shown (t : Batch * option CommitACK * option (list Event)) : option (bool * string) * option (list string) :=
  (match t.1.2 with Some ack => Some (ack_complete ack, ack_reason ack) | None => None end,
   match t.2 with Some es => Some (ev_kind <$> es) | None => None end).

Lemma complete_ack_sound_witness :
  map shown (ir_trace example_run) =
    [(Some (false, "storage_failed"), Some ["syn_flood"]); (Some (true, "committed"), None);
     (Some (false, "storage_failed"), Some ["syn_flood"; "port_scan"]); (Some (true, "committed"), None)]%string
  /\ NoDup (observed (ir_trace example_run)).*1
  /\ forall b ack o, (b, Some ack, o) ∈ ir_trace example_run -> ack_complete ack = true ->
      (exists es, (ident b, es) ∈ observed (ir_trace example_run)
         /\ Forall (fun e => ev_id e ∈ log_ids (db_log (ir_db example_run))) es)
      /\ exists r, row_of (batch_key b) (sd_rows (db_sensor (ir_db example_run))) = Some r /\ b_sequence b <= wr_sequence r.
Proof.
  split; [vm_compute; reflexivity|].
  apply (@complete_ack_sound example_runtime unit example_encode example_decode (fun _ => true) example_prepare 2 (10 * second)
    (mkFeedScope false false false []) example_app example_database example_deliveries);
    [reflexivity|reflexivity|reflexivity|vm_compute; reflexivity| |vm_compute; reflexivity].
  intros i. destruct (decide (i = "eth0"%string)) as [->|Hi]; [vm_compute; reflexivity|].
  assert (Hnone : identities_on i (batches_of example_deliveries) = []); [|by rewrite Hnone].
  change (batches_of example_deliveries) with
    [example_syn_batch 1 80; example_syn_batch 1 80; example_syn_batch 2 443; example_syn_batch 2 443].
  unfold identities_on. rewrite !filter_cons. by repeat (rewrite decide_False by (symmetry; exact Hi)).
Defined.

(** ** With eight interfaces the promise fails

    [handleSequencedBatch] makes room in a table of eight prepared batches even when the
    batch replaces an entry of its own interface, and it may drop the entry of a batch
    that is still to be committed.  When that batch is sent again, the detectors, which
    know its time, report nothing, and it is acknowledged as complete although its
    events are not stored. *)
Definition on_eth (i : string) (b : Batch) : Batch :=
  mkBatch (b_connection b) (b_version b) (b_session b) (b_sequence b) (b_sent_at b) (b_sent_offset b)
    (b_interval_ms b) i (b_flows b) (b_rx_bytes b) (b_tx_bytes b) (b_rx_packets b) (b_tx_packets b)
    (b_inbound_syn b) (b_inbound_udp b) (b_inbound_icmp b) (b_health b).

(** No event can be stored; the commit goes as given. *)
Definition failing_env (seq : Z) (commit : call_fate) : batch_env :=
  let now := at_one + seq * second + millisecond in
  let failing := mkFates [] NotRun NotRun NotRun in
  mkEnv true failing now in_order true Answered now in_order (fun _ => ("", ""))%string now failing now true (fun _ => false)
    in_order (example_clock now) commit true now Answered Answered Answered.

Definition eight_names : list string := ["eth0"; "eth1"; "eth2"; "eth3"; "eth4"; "eth5"; "eth6"; "eth7"].

(** The interface whose entry is dropped, in the order of the example. *)
Definition dropped_name : string :=
  match entries in_order (list_to_map ((fun i => (i, tt)) <$> eight_names) : gmap string unit) with
  | (i, _) :: _ => i | [] => "" end.
Definition other_name : string := if dropped_name =?s "eth0" then "eth1" else "eth0".

Definition eight_deliveries : list ingest_op :=
  ((fun i => OpBatch (failing_env 1 NotRun) (on_eth i (example_syn_batch 1 80))) <$> eight_names)
  ++ [OpBatch (failing_env 2 NotRun) (on_eth other_name (example_syn_batch 2 80));
      OpBatch (failing_env 2 Answered) (on_eth dropped_name (example_syn_batch 1 80))].

Lemma eight_interfaces_unsound :
  let s := foldl (@ingest_step example_runtime unit example_encode example_decode (fun _ => true) example_prepare 8 (10 * second)
    (mkFeedScope false false false [])) (mkIngestRun (mkApp new_queue (NewFleet example_detection 8 0) ∅ no_receipts "" new_storage ∅)
      example_database []) eight_deliveries in
  let b := on_eth dropped_name (example_syn_batch 1 80) in
  shown <$> last (ir_trace s) = Some (Some (true, "committed"%string), Some [])
  /\ map (fun o => ev_kind <$> o.2) (filter (fun o => o.1 = ident b) (observed (ir_trace s))) = [["syn_flood"]; []]%string
  /\ db_log (ir_db s) = [] /\ lenZ (eq_pending (ap_queue (ir_app s))) = 9.
Proof. vm_compute. repeat split. Qed.
