(* ===== verification/Outbox.v ===== *)
(** * The notification outbox: its tables and the admission of messages

    [internal/store/store.go] (the outbox part), [alerts.go], [presentation.go] and
    [notification_targets.go].  A message is admitted within bounds on number and
    bytes, together with the decision taken for the event it announces. *)

From S2P Require Export Hourly Monitor.

(** ** Channels *)

Definition notificationChannels : list string :=
  ["telegram"; "webhook"; "feishu"; "wecom"; "discord"; "slack"; "teams"; "google_chat";
   "qqbot"; "line"; "twilio_sms"; "whatsapp_cloud"].
Definition MaxNotificationChannels : Z := 12.
Definition notificationChannel : string -> bool := one_of notificationChannels.

Definition paidOfficialChannel (channel : string) : bool :=
  (channel =?s "twilio_sms") || (channel =?s "whatsapp_cloud").
Definition officialChannel (channel : string) : bool :=
  (channel =?s "qqbot") || (channel =?s "line") || paidOfficialChannel channel.

Definition is_hex (b : Z) : bool :=
  continuation 48 57 b || continuation 65 70 b || continuation 97 102 b.

(** [strings.HasPrefix] and [strings.TrimPrefix]. *)
Fixpoint strip_prefix (p s : string) : option string :=
  match p, s with
  | EmptyString, _ => Some s
  | String a p, String b s => if Ascii.eqb a b then strip_prefix p s else None
  | _, _ => None
  end.

Definition hex_text (s : string) : bool :=
  negb (string_exists (fun b => negb (is_hex b)) s) && Z.even (string_len s).

Definition validNotificationTarget (channel destination : string) : bool :=
  if destination =?s (channel ++ ":unknown") then true
  else if negb (string_len destination =? string_len channel + 1 + 64) then false
  else match strip_prefix (channel ++ ":") destination with Some s => hex_text s | None => false end.

(** ** Messages *)

(** The fields that reading a row fills in. *)
Inductive dispatch_state := Prepared | InFlight | RetryReady | Accepted | DeliveryUnknown | Blocked.
#[global] Instance dispatch_state_eq_dec : EqDecision dispatch_state.
Proof. solve_decision. Defined.
Record read_back := mkReadBack {
  rb_attempts : Z; rb_expires : time; rb_retry_key : string; rb_first : time;
  rb_state : option dispatch_state; rb_dispatch_attempt : Z; rb_provider_id : string;
  rb_poll_attempts : Z; rb_next_poll : time; rb_poll_deadline : time }.
Definition not_read : read_back := mkReadBack 0 time_zero "" time_zero None 0 "" 0 time_zero time_zero.

(** [OutboxMessage]; the store does not read [SemanticPayload]. *)
Inductive OutboxMessage := mkMessage {
  om_secondary : option OutboxMessage;
  om_id : string;
  om_dedupe : string;
  om_channel : string;
  om_privacy : string;
  om_language : string;
  om_timezone : string;
  om_destination : string;
  om_body : string;
  om_next : time;
  om_kind : string;
  om_failure : string;
  om_frozen : string;
  om_segments : Z;
  om_encoding : string;
  om_read : read_back }.

(** The messages that [Secondary] links, first to last. *)
Fixpoint linked_messages (m : OutboxMessage) : list OutboxMessage :=
  m :: match om_secondary m with Some s => linked_messages s | None => [] end.

Definition alone (m : OutboxMessage) : OutboxMessage :=
  mkMessage None (om_id m) (om_dedupe m) (om_channel m) (om_privacy m) (om_language m) (om_timezone m)
    (om_destination m) (om_body m) (om_next m) (om_kind m) (om_failure m) (om_frozen m) (om_segments m) (om_encoding m) (om_read m).
Definition with_language (l : string) (m : OutboxMessage) : OutboxMessage :=
  mkMessage (om_secondary m) (om_id m) (om_dedupe m) (om_channel m) (om_privacy m) l (om_timezone m)
    (om_destination m) (om_body m) (om_next m) (om_kind m) (om_failure m) (om_frozen m) (om_segments m) (om_encoding m) (om_read m).
Definition with_id (id : string) (m : OutboxMessage) : OutboxMessage :=
  mkMessage (om_secondary m) id (om_dedupe m) (om_channel m) (om_privacy m) (om_language m) (om_timezone m)
    (om_destination m) (om_body m) (om_next m) (om_kind m) (om_failure m) (om_frozen m) (om_segments m) (om_encoding m) (om_read m).
Definition with_body (next : time) (body : string) (m : OutboxMessage) : OutboxMessage :=
  mkMessage (om_secondary m) (om_id m) (om_dedupe m) (om_channel m) (om_privacy m) (om_language m) (om_timezone m)
    (om_destination m) body next (om_kind m) (om_failure m) (om_frozen m) (om_segments m) (om_encoding m) (om_read m).

(** ** Tables *)

(** [notification_outbox]: the columns that never change, those of coalescing and
    those of delivery. *)
Record identity := mkIdentity {
  oi_dedupe : string; oi_channel : string; oi_destination : string;
  oi_created : Z; oi_expires : Z; oi_language : string; oi_timezone : string }.
Record merging := mkMerging {
  mg_incident : string; mg_kind : string; mg_phase : string; mg_count : Z; mg_until : Z }.
Record delivery_columns := mkDelivery {
  dl_attempts : Z; dl_next : Z; dl_error : string; dl_sent : option Z; dl_quarantined : option Z;
  dl_suppressed : option Z; dl_isolated : option Z; dl_lease : option Z }.
Record OutboxRow := mkOutboxRow {
  or_identity : identity; or_body : string; or_merging : merging; or_delivery : delivery_columns }.

(** [notification_dispatch]: the frozen request, the attempt, the receipt, the polls. *)
Record intent := mkIntent {
  in_kind : string; in_frozen : string; in_segments : Z; in_encoding : string; in_retry_key : string }.
Record attempt := mkAttempt {
  at_state : dispatch_state; at_first : Z; at_last : Z; at_uncertain : bool; at_count : Z;
  at_budget_day : Z; at_reason : string }.
Record receipt := mkReceiptRow {
  rc_provider_id : string; rc_accepted : Z; rc_provider_state : string; rc_segments : option Z;
  rc_price : option string; rc_unit : string; rc_http : Z; rc_api_error : Z }.
Record polls := mkPolls { pl_attempts : Z; pl_next : Z; pl_deadline : Z; pl_lease : Z }.
Record DispatchRow := mkDispatch {
  dp_intent : intent; dp_attempt : attempt; dp_receipt : receipt; dp_polls : polls }.

Record Target := mkTarget { tg_destination : string; tg_privacy : string; tg_enabled : bool; tg_activated : Z }.

(** [official_channel_policy]. *)
Record PolicyRow := mkPolicyRow {
  po_enabled : bool; po_consented : Z; po_purpose : string; po_evidence : string; po_basis : string;
  po_types : list string; po_revoked : bool; po_cost : bool; po_messages : Z; po_segments : Z;
  po_max_segments : Z; po_optout : Z; po_optout_basis : string; po_hold : bool; po_reference : string;
  po_clock : Z; po_day : Z; po_pruned : Z }.

Record queue_counters := mkCounters { ct_rejected : Z; ct_expired : Z; ct_last_sent : Z }.
Record SilenceRow := mkSilenceRow {
  si_id : string; si_incident : string; si_kind : string; si_created : Z; si_expires : Z; si_revoked : option Z }.

Inductive verdict := Queued | Merged | Silenced | Ineligible | Rejected.
#[global] Instance verdict_eq_dec : EqDecision verdict.
Proof. solve_decision. Defined.
Record decision := mkDecision { de_message : string; de_verdict : verdict; de_silence : string; de_at : Z }.

Record OutboxDB := mkOutboxDB {
  od_rows : gmap string OutboxRow;
  od_dispatch : gmap string DispatchRow;
  od_targets : gmap string Target;
  od_cooldowns : gmap string Z;
  od_policies : gmap string PolicyRow;
  od_usage : gmap (string * Z) (Z * Z);
  od_counters : queue_counters;
  od_silences : list SilenceRow;
  od_decisions : gmap (string * string) decision;
  od_retention : Retention }.

Definition with_rows (r : gmap string OutboxRow) (d : OutboxDB) : OutboxDB :=
  mkOutboxDB r (od_dispatch d) (od_targets d) (od_cooldowns d) (od_policies d) (od_usage d) (od_counters d)
    (od_silences d) (od_decisions d) (od_retention d).
Definition with_dispatch (x : gmap string DispatchRow) (d : OutboxDB) : OutboxDB :=
  mkOutboxDB (od_rows d) x (od_targets d) (od_cooldowns d) (od_policies d) (od_usage d) (od_counters d)
    (od_silences d) (od_decisions d) (od_retention d).
Definition with_targets (t : gmap string Target) (d : OutboxDB) : OutboxDB :=
  mkOutboxDB (od_rows d) (od_dispatch d) t (od_cooldowns d) (od_policies d) (od_usage d) (od_counters d)
    (od_silences d) (od_decisions d) (od_retention d).
Definition with_cooldowns (c : gmap string Z) (d : OutboxDB) : OutboxDB :=
  mkOutboxDB (od_rows d) (od_dispatch d) (od_targets d) c (od_policies d) (od_usage d) (od_counters d)
    (od_silences d) (od_decisions d) (od_retention d).
Definition with_policies (p : gmap string PolicyRow) (d : OutboxDB) : OutboxDB :=
  mkOutboxDB (od_rows d) (od_dispatch d) (od_targets d) (od_cooldowns d) p (od_usage d) (od_counters d)
    (od_silences d) (od_decisions d) (od_retention d).
Definition with_usage (u : gmap (string * Z) (Z * Z)) (d : OutboxDB) : OutboxDB :=
  mkOutboxDB (od_rows d) (od_dispatch d) (od_targets d) (od_cooldowns d) (od_policies d) u (od_counters d)
    (od_silences d) (od_decisions d) (od_retention d).
Definition with_counters (c : queue_counters) (d : OutboxDB) : OutboxDB :=
  mkOutboxDB (od_rows d) (od_dispatch d) (od_targets d) (od_cooldowns d) (od_policies d) (od_usage d) c
    (od_silences d) (od_decisions d) (od_retention d).
Definition with_silences (s : list SilenceRow) (d : OutboxDB) : OutboxDB :=
  mkOutboxDB (od_rows d) (od_dispatch d) (od_targets d) (od_cooldowns d) (od_policies d) (od_usage d) (od_counters d)
    s (od_decisions d) (od_retention d).
Definition with_decisions (x : gmap (string * string) decision) (d : OutboxDB) : OutboxDB :=
  mkOutboxDB (od_rows d) (od_dispatch d) (od_targets d) (od_cooldowns d) (od_policies d) (od_usage d) (od_counters d)
    (od_silences d) x (od_retention d).
Definition with_retention (r : Retention) (d : OutboxDB) : OutboxDB :=
  mkOutboxDB (od_rows d) (od_dispatch d) (od_targets d) (od_cooldowns d) (od_policies d) (od_usage d) (od_counters d)
    (od_silences d) (od_decisions d) r.

Definition no_policy : PolicyRow :=
  mkPolicyRow false 0 "" "" "" [] false false 0 0 0 0 "" false "" 0 (-1) 0.

(** What the migrations leave in an empty database. *)
Definition empty_outbox : OutboxDB :=
  mkOutboxDB ∅ ∅ ∅ ∅
    (list_to_map ((fun c => (c, no_policy)) <$> ["qqbot"; "line"; "twilio_sms"; "whatsapp_cloud"]))
    ∅ (mkCounters 0 0 0) [] ∅ no_retention.

Inductive outbox_error :=
| OutboxInvalid | OutboxConflict | OutboxNoRow | OutboxConstraint | OutboxRandom | OutboxRefused
| OutboxMismatch | OutboxRetention (e : retention_error).

(** ** Statements on one table *)

(** [UPDATE ... WHERE id=? AND ...]: the table and whether a row was affected. *)
Definition update_one {V} (id : string) (where' : V -> bool) (set : V -> V) (m : gmap string V) : gmap string V * bool :=
  match m !! id with
  | Some v => if where' v then (<[id := set v]> m, true) else (m, false)
  | None => (m, false)
  end.
(** [UPDATE ... WHERE ...] over all rows. *)
Definition update_where {V} (where' : string -> V -> bool) (set : string -> V -> V) (m : gmap string V) : gmap string V :=
  map_imap (fun id v => Some (if where' id v then set id v else v)) m.
(** [EXISTS(SELECT 1 ...)]. *)
Definition exists_row {K V} `{Countable K} (where' : K -> V -> bool) (m : gmap K V) : bool :=
  existsb (uncurry where') (map_to_list m).

Definition is_null {A} (x : option A) : bool := if x is None then true else false.

(** [sent_at IS NULL AND suppressed_at IS NULL]. *)
Definition waiting (r : OutboxRow) : bool :=
  is_null (dl_sent (or_delivery r)) && is_null (dl_suppressed (or_delivery r)).

Definition set_delivery (f : delivery_columns -> delivery_columns) (r : OutboxRow) : OutboxRow :=
  mkOutboxRow (or_identity r) (or_body r) (or_merging r) (f (or_delivery r)).
Definition leased_until (l : option Z) (x : delivery_columns) : delivery_columns :=
  mkDelivery (dl_attempts x) (dl_next x) (dl_error x) (dl_sent x) (dl_quarantined x) (dl_suppressed x) (dl_isolated x) l.

(** [MAX(until_at, excluded.until_at)]. *)
Definition hold_until (destination : string) (ms : Z) (c : gmap string Z) : gmap string Z :=
  <[destination := match c !! destination with Some old => Z.max old ms | None => ms end]> c.
Definition cooling (destination : string) (ms : Z) (d : OutboxDB) : bool :=
  match od_cooldowns d !! destination with Some until => ms <? until | None => false end.

(** An instant rounded up to a millisecond. *)
Definition milli_ceiling (t : time) : time :=
  if t mod millisecond =? 0 then t else t - t mod millisecond + millisecond.

Definition target_enabled (r : OutboxRow) (d : OutboxDB) : bool :=
  match od_targets d !! oi_channel (or_identity r) with
  | Some t => (tg_destination t =?s oi_destination (or_identity r)) && tg_enabled t
  | None => false
  end.
(** [channel='' OR EXISTS(... enabled=1)]. *)
Definition receiver_open (r : OutboxRow) (d : OutboxDB) : bool :=
  (oi_channel (or_identity r) =?s "") || target_enabled r d.
Definition dispatchable (id : string) (d : OutboxDB) : bool :=
  match od_dispatch d !! id with
  | Some x => match at_state (dp_attempt x) with Prepared | RetryReady => true | _ => false end
  | None => true
  end.

(** ** Presentation *)

Definition normalizePresentation (m : OutboxMessage) : result outbox_error OutboxMessage :=
  let m := if om_language m =?s "" then with_language "en" m else m in
  if negb ((om_language m =?s "en") || (om_language m =?s "zh"))
     || (om_channel m =?s "webhook") && negb (om_language m =?s "en")
  then Err OutboxInvalid
  else if (256 <? string_len (om_timezone m)) || negb (valid_utf8 0 (bytes_of_string (om_timezone m)))
          || string_exists (fun b => (b <? 32) || (b =? 127)) (om_timezone m)
  then Err OutboxInvalid
  else Ok m.

Definition mergeablePresentation (m : OutboxMessage) : bool :=
  negb (om_timezone m =?s "") && negb (om_timezone m =?s "Local")
  && is_null (strip_prefix "Local|" (om_timezone m)).

(** ** Official messages *)

(** What [encoding/json] reads. *)
Inductive json :=
| JNull | JBool (b : bool) | JNumber (n : string) | JString (s : string)
| JArray (l : list json) | JObject (l : list (string * json)).

(** [strings.ToLower] as far as ASCII results go: two letters outside ASCII have an
    ASCII lower case, U+212A and U+0130. *)
Fixpoint lower_ascii (l : list Z) : list Z :=
  match l with
  | [] => []
  | b :: r =>
      match b, r with
      | 226, 132 :: 170 :: r => 107 :: lower_ascii r
      | 196, 176 :: r => 105 :: lower_ascii r
      | _, _ => (if continuation 65 90 b then b + 32 else b) :: lower_ascii r
      end
  end.

(** [strings.NewReplacer("_", "", "-", "")] and [strings.ToLower]. *)
Definition normalized_key (key : string) : string :=
  string_of_bytes (lower_ascii (filter (fun b => b <> 95 /\ b <> 45) (bytes_of_string key))).

Definition routing_key : string -> bool :=
  one_of ["recipient"; "to"; "token"; "accesstoken"; "secret"; "authorization"; "credential"; "url";
          "webhookurl"; "accountsid"; "authtoken"; "phonenumberid"].

(** [inspect]; [fuel] counts the depths left, of which there are 13. *)
Fixpoint inspect (fuel : nat) (v : json) : bool :=
  match fuel with
  | O => false
  | S fuel =>
      match v with
      | JObject l => forallb (fun '(key, item) => negb (routing_key (normalized_key key)) && inspect fuel item) l
      | JArray l => (lenZ l <=? 64) && forallb (inspect fuel) l
      | JString s => negb (string_exists (fun b => (b =? 0) || (b =? 27)) s)
      | _ => true
      end
  end.

(** What admission takes from outside: a fresh id, random bytes and three readings of
    the clock. *)
Record draws := mkDraws {
  dr_id : string; dr_random : option (list Z); dr_default : time; dr_created : time; dr_blocked : time }.

(** A version 4 UUID of random bytes. *)
Definition hex_digit (n : Z) : ascii := ascii_of_N (Z.to_N (if n <? 10 then 48 + n else 87 + n)).
Definition hex_byte (b : Z) : string := String (hex_digit (b / 16)) (String (hex_digit (b mod 16)) "").
Definition hex_bytes (l : list Z) : string := foldr (fun b s => (hex_byte b ++ s)%string) EmptyString l.
Definition newLINERetryKey (random : option (list Z)) : result outbox_error string :=
  match random with
  | Some bytes =>
      let bytes := <[6%nat := Z.lor (Z.land (nth 6 bytes 0) 15) 64]> bytes in
      let bytes := <[8%nat := Z.lor (Z.land (nth 8 bytes 0) 63) 128]> bytes in
      let part a b := hex_bytes (take (b - a) (drop a bytes)) in
      Ok (part 0 4 ++ "-" ++ part 4 6 ++ "-" ++ part 6 8 ++ "-" ++ part 8 10 ++ "-" ++ part 10 16)%nat%string
  | None => Err OutboxRandom
  end.

(** ** Admission *)

Definition maxPendingOutboxMessages : Z := 10000.
Definition maxPendingOutboxBytes : Z := 33554432.
Definition maxChannelOutboxMessages : Z := 1250.
Definition maxChannelOutboxBytes : Z := 4194304.
Definition maxOfficialChannelMessages : Z := 750.
Definition maxOfficialChannelBytes : Z := 2097152.
Definition channelReservedMessages : Z := 64.
Definition channelReservedBytes : Z := 262144.
Definition OutboxTTL : duration := 7 * 24 * hour.

Definition channelOutboxLimits (channel : string) : Z * Z :=
  if officialChannel channel then (maxOfficialChannelMessages, maxOfficialChannelBytes)
  else (maxChannelOutboxMessages, maxChannelOutboxBytes).

Definition row_channel (r : OutboxRow) : string := oi_channel (or_identity r).
Definition row_bytes (d : gmap string DispatchRow) (id : string) (r : OutboxRow) : Z :=
  string_len (or_body r)
  + (if officialChannel (row_channel r)
     then match d !! id with Some x => string_len (in_frozen (dp_intent x)) | None => 0 end else 0).

(** [COUNT] and [SUM] over the waiting rows of a channel, of every channel when none is
    given. *)
Definition of_channel (c : option string) (r : OutboxRow) : bool :=
  waiting r && match c with Some c => row_channel r =?s c | None => true end.
Definition used_count (c : option string) (d : OutboxDB) : Z :=
  map_sum (fun _ r => if of_channel c r then 1 else 0) (od_rows d).
Definition used_bytes (c : option string) (d : OutboxDB) : Z :=
  map_sum (fun id r => if of_channel c r then row_bytes (od_dispatch d) id r else 0) (od_rows d).

(** The headroom kept for the enabled targets of other channels. *)
Definition reserved_for (channel : string) (reserve : Z) (used : string -> Z) (d : OutboxDB) : Z :=
  map_sum (fun c t => if tg_enabled t && negb (c =?s channel) && notificationChannel c
                      then Z.max 0 (reserve - used c) else 0) (od_targets d).

Record admissionUsage := mkUsage {
  us_count : Z; us_bytes : Z; us_channel_count : Z; us_channel_bytes : Z;
  us_reserved_count : Z; us_reserved_bytes : Z }.

Definition outboxAdmissionUsage (channel : string) (d : OutboxDB) : admissionUsage :=
  mkUsage (used_count None d) (used_bytes None d) (used_count (Some channel) d) (used_bytes (Some channel) d)
    (reserved_for channel channelReservedMessages (fun c => used_count (Some c) d) d)
    (reserved_for channel channelReservedBytes (fun c => used_bytes (Some c) d) d).

Definition notificationTargetMatches (m : OutboxMessage) (d : OutboxDB) : bool :=
  if om_channel m =?s "" then true
  else match od_targets d !! om_channel m with
       | Some t => (tg_destination t =?s om_destination m) && (tg_privacy t =?s om_privacy m)
                   && negb (om_destination m =?s (om_channel m ++ ":unknown"))
       | None => false
       end.

Definition count_rejected (d : OutboxDB) : OutboxDB :=
  let c := od_counters d in
  with_counters (mkCounters (Z.min (ct_rejected c) (i64_max - 1) + 1) (ct_expired c) (ct_last_sent c)) d.

Inductive admission := Inserted | Duplicate | Full.

Section Admission.
(** [json.Unmarshal] into an interface, with [json.Valid]. *)
Context (parse_json : string -> option json).

Definition validateOfficialMessage (m : OutboxMessage) : bool :=
  if negb (officialChannel (om_channel m)) then
    (om_frozen m =?s "") && (om_kind m =?s "") && (om_segments m =? 0) && (om_encoding m =?s "")
  else if negb (one_of ["event"; "daily"; "test"] (om_kind m)) then false
  else if negb (om_failure m =?s "") then
    (om_failure m =?s "official_render_rejected") && (om_frozen m =?s "") && (om_segments m =? 0)
    && (om_encoding m =?s "")
  else
    negb ((string_len (om_frozen m) =? 0) || (4096 <? string_len (om_frozen m))
          || negb (valid_utf8 0 (bytes_of_string (om_frozen m))))
    && match parse_json (om_frozen m) with
       | Some (JObject l) => inspect 13 (JObject l)
       | _ => false
       end
    && (if om_channel m =?s "twilio_sms"
        then (1 <=? om_segments m) && (om_segments m <=? 2)
             && ((om_encoding m =?s "gsm7") || (om_encoding m =?s "ucs2"))
        else (om_segments m =? 0) && (om_encoding m =?s "")).

Definition no_attempt (state : dispatch_state) (reason : string) : attempt :=
  mkAttempt state 0 0 false 0 (-1) reason.
Definition no_receipt : receipt := mkReceiptRow "" 0 "" None None "" 0 0.

Definition insertOfficialIntent (w : draws) (m : OutboxMessage) (d : OutboxDB) : result outbox_error OutboxDB :=
  if negb (officialChannel (om_channel m)) then Ok d
  else
    let? key := if om_channel m =?s "line" then newLINERetryKey (dr_random w) else Ok EmptyString in
    let failed := negb (om_failure m =?s "") in
    let state := if failed then Blocked else Prepared in
    let row := mkDispatch (mkIntent (om_kind m) (om_frozen m) (om_segments m) (om_encoding m) key)
      (no_attempt state (om_failure m)) no_receipt (mkPolls 0 0 0 0) in
    if negb (is_null (od_dispatch d !! om_id m)) then Err OutboxConstraint
    else
      let d := with_dispatch (<[om_id m := row]> (od_dispatch d)) d in
      if failed then
        Ok (with_rows (update_one (om_id m) (fun _ => true) (set_delivery (fun x =>
              mkDelivery (dl_attempts x) (dl_next x) (om_failure m) (dl_sent x)
                (Some (unix_milli (dr_blocked w))) (dl_suppressed x) (dl_isolated x) (dl_lease x)))
              (od_rows d)).1 d)
      else Ok d.

(** Whether the message fits the outbox and its channel's share. *)
Definition over_capacity (m : OutboxMessage) (d : OutboxDB) : bool :=
  let u := outboxAdmissionUsage (om_channel m) d in
  let bytes := string_len (om_body m) + string_len (om_frozen m) in
  let '(message_limit, byte_limit) := channelOutboxLimits (om_channel m) in
  (maxPendingOutboxMessages - us_reserved_count u <? us_count u + 1)
  || (maxPendingOutboxBytes - us_reserved_bytes u <? us_bytes u + bytes)
  || negb (om_channel m =?s "")
     && ((message_limit <=? us_channel_count u) || (byte_limit <? us_channel_bytes u + bytes)).

Definition new_row (w : draws) (m : OutboxMessage) (d : OutboxDB) : OutboxRow :=
  let next := if is_zero (om_next m) then dr_default w else om_next m in
  mkOutboxRow
    (mkIdentity (limit (om_dedupe m) 512) (limit (om_channel m) 32) (limit (om_destination m) 128)
       (unix_milli (dr_created w)) (unix_milli (dr_created w + OutboxTTL)) (om_language m) (om_timezone m))
    (om_body m) (mkMerging "" "" "" 1 0)
    (mkDelivery 0 (unix_milli next) "" None None None
       (if notificationTargetMatches m d then None else Some (unix_milli (dr_created w))) None).

Definition known_dedupe (key : string) (d : OutboxDB) : bool :=
  exists_row (fun _ r => oi_dedupe (or_identity r) =?s key) (od_rows d).

Definition incomplete (m : OutboxMessage) : bool :=
  (om_dedupe m =?s "") || (om_destination m =?s "") || (om_body m =?s "").

Definition enqueue (w : draws) (m : OutboxMessage) (d : OutboxDB) : result outbox_error (OutboxDB * admission) :=
  let? m := normalizePresentation m in
  fail_if negb (is_null (om_secondary m)) with OutboxInvalid;;
  let m := if om_id m =?s "" then with_id (dr_id w) m else m in
  fail_if incomplete m with OutboxInvalid;;
  fail_if (128 <? string_len (om_destination m))
    || negb (om_channel m =?s "")
       && (negb (notificationChannel (om_channel m))
           || negb (validNotificationTarget (om_channel m) (om_destination m))) with OutboxInvalid;;
  fail_if negb (validateOfficialMessage m) with OutboxInvalid;;
  fail_if 4096 <? string_len (om_body m) with OutboxInvalid;;
  if known_dedupe (limit (om_dedupe m) 512) d then Ok (d, Duplicate)
  else if over_capacity m d then Ok (count_rejected d, Full)
  else if negb (is_null (od_rows d !! om_id m)) then Ok (d, Duplicate)
  else
    let? d := insertOfficialIntent w m (with_rows (<[om_id m := new_row w m d]> (od_rows d)) d) in
    Ok (d, Inserted).

(** ** Decisions for events *)

Definition mergeBodyReserve : Z := 128.

Definition mergedBodyLocalized (count : Z) (latest language : string) : string :=
  if language =?s "zh"
  then "<b>" ++ fmt_int count ++ " 次事件更新</b> · 以下为最新观察，所有事件保留在时间线。" ++ String "010" latest
  else "<b>" ++ fmt_int count
       ++ " incident updates</b> · latest observation below; all events retained in the timeline."
       ++ String "010" latest.

Definition by_time_and_id : Z * string -> Z * string -> bool := lex Z.ltb string_lt.

(** The first active silence that matches, by creation and id. *)
Definition silence_matches (e : Event) (ms : Z) (s : SilenceRow) : bool :=
  is_null (si_revoked s) && (ms <? si_expires s)
  && ((si_incident s =?s "") || (si_incident s =?s ev_incident e))
  && ((si_kind s =?s "") || (si_kind s =?s ev_kind e)).
Definition silence_of (e : Event) (ms : Z) (d : OutboxDB) : option string :=
  snd <$> head (sort_by by_time_and_id
    ((fun s => (si_created s, si_id s)) <$> List.filter (silence_matches e ms) (od_silences d))).

(** The row that an update of the incident is merged into. *)
Definition merge_candidate (e : Event) (m : OutboxMessage) (ms : Z) (id : string) (r : OutboxRow) : bool :=
  let g := or_merging r in
  let x := or_delivery r in
  (mg_incident g =?s ev_incident e) && (mg_kind g =?s ev_kind e)
  && (oi_destination (or_identity r) =?s om_destination m) && (oi_language (or_identity r) =?s om_language m)
  && (oi_timezone (or_identity r) =?s om_timezone m) && (mg_phase g =?s "update") && (ms <? mg_until g)
  && waiting r && is_null (dl_isolated x) && is_null (dl_quarantined x) && is_null (dl_lease x)
  && (dl_attempts x =? 0) && (ms <? oi_expires (or_identity r)).
Definition merge_target (e : Event) (m : OutboxMessage) (ms : Z) (d : OutboxDB) : option string :=
  snd <$> head (sort_by by_time_and_id
    ((fun p => (mg_until (or_merging p.2), p.1))
       <$> List.filter (uncurry (merge_candidate e m ms)) (map_to_list (od_rows d)))).

(** A recovery releases the updates of its incident that are being merged. *)
Definition release_updates (e : Event) (m : OutboxMessage) (ms : Z) (d : OutboxDB) : OutboxDB :=
  with_rows (update_where
    (fun _ r => (mg_incident (or_merging r) =?s ev_incident e)
       && (oi_destination (or_identity r) =?s om_destination m) && (mg_phase (or_merging r) =?s "update")
       && (dl_attempts (or_delivery r) =? 0) && waiting r && is_null (dl_lease (or_delivery r)))
    (fun _ r =>
       let g := or_merging r in
       let x := or_delivery r in
       mkOutboxRow (or_identity r) (or_body r) (mkMerging (mg_incident g) (mg_kind g) (mg_phase g) (mg_count g) 0)
         (mkDelivery (dl_attempts x) (Z.min (dl_next x) ms) (dl_error x) (dl_sent x) (dl_quarantined x)
            (dl_suppressed x) (dl_isolated x) (dl_lease x)))
    (od_rows d)) d.

Definition mergeable (e : Event) (m : OutboxMessage) (window : duration) (d : OutboxDB) : bool :=
  ((om_channel m =?s "") || (om_channel m =?s "telegram") || (om_channel m =?s "webhook"))
  && notificationTargetMatches m d && mergeablePresentation m && (0 <? window)
  && (ev_phase e =?s "update") && negb (ev_incident e =?s "")
  && (string_len (om_body m) <=? 4096 - mergeBodyReserve).

(** What the merge would make of the totals. *)
Definition merge_over_capacity (m : OutboxMessage) (previous : Z) (body : string) (d : OutboxDB) : bool :=
  let u := outboxAdmissionUsage (om_channel m) d in
  (maxPendingOutboxBytes - us_reserved_bytes u <? us_bytes u - previous + string_len body)
  || negb (om_channel m =?s "") && (maxChannelOutboxBytes <? us_channel_bytes u - previous + string_len body).

Definition decide_as (e : Event) (channel message : string) (v : verdict) (silence : string) (now : time)
    (d : OutboxDB) : OutboxDB :=
  with_decisions (<[(ev_id e, channel) := mkDecision message v silence (unix_milli now)]> (od_decisions d)) d.

Definition channel_of (m : option OutboxMessage) : string :=
  match m with
  | Some m => if om_channel m =?s "" then "telegram" else om_channel m
  | None => "telegram"
  end.

(** The update of a row by a merge. *)
Definition merged_row (body : string) (r : OutboxRow) : OutboxRow :=
  let g := or_merging r in
  mkOutboxRow (or_identity r) body
    (mkMerging (mg_incident g) (mg_kind g) (mg_phase g) (mg_count g + 1) (mg_until g)) (or_delivery r).

Definition merge_into (id : string) (e : Event) (m : OutboxMessage) (channel : string) (now : time) (d : OutboxDB)
    : result outbox_error OutboxDB :=
  match od_rows d !! id with
  | None => Err OutboxNoRow
  | Some r =>
      let count := mg_count (or_merging r) in
      if count =? i64_max then Err OutboxInvalid
      else
        let body := mergedBodyLocalized (count + 1) (om_body m) (om_language m) in
        if merge_over_capacity m (string_len (or_body r)) body d
        then Ok (decide_as e channel "" Rejected "" now (count_rejected d))
        else Ok (decide_as e channel id Merged "" now (with_rows (<[id := merged_row body r]> (od_rows d)) d))
  end.

Definition tag_event (e : Event) (until : Z) (r : OutboxRow) : OutboxRow :=
  mkOutboxRow (or_identity r) (or_body r)
    (mkMerging (ev_incident e) (ev_kind e) (ev_phase e) (mg_count (or_merging r)) until) (or_delivery r).

Definition queue_message (w : draws) (e : Event) (m : OutboxMessage) (channel : string) (now : time)
    (window : duration) (d : OutboxDB) : result outbox_error OutboxDB :=
  let m := if om_id m =?s "" then with_id (dr_id w) m else m in
  let next := time_add now window in
  let merging := mergeable e m window d in
  let m := if merging then with_body next (mergedBodyLocalized 1 (om_body m) (om_language m)) m else m in
  let? (d, a) := enqueue w m d in
  match a with
  | Full => Ok (decide_as e channel "" Rejected "" now d)
  | Duplicate => Err OutboxConflict
  | Inserted =>
      let d := with_rows (update_one (om_id m) (fun _ => true)
                 (tag_event e (if merging then unix_milli next else 0)) (od_rows d)).1 d in
      Ok (decide_as e channel (om_id m) Queued "" now d)
  end.

(** A message of the event's own dedupe key that an older daemon may have queued. *)
Definition dedupe_id (key : string) (d : OutboxDB) : option string :=
  fst <$> head (List.filter (fun p => oi_dedupe (or_identity p.2) =?s key) (map_to_list (od_rows d))).

Definition recordOneEventNotification (w : draws) (e : Event) (message : option OutboxMessage) (now : time)
    (window : duration) (d : OutboxDB) : result outbox_error OutboxDB :=
  let channel := channel_of message in
  if negb (is_null (od_decisions d !! (ev_id e, channel))) then Ok d
  else
    match message with
    | None => Ok (decide_as e channel "" Ineligible "" now d)
    | Some m =>
        let? m := normalizePresentation m in
        match dedupe_id (om_dedupe m) d with
        | Some id => Ok (decide_as e channel id Queued "" now d)
        | None =>
            match (if notificationChannel (om_channel m) || (om_destination m =?s "telegram")
                   then silence_of e (unix_milli now) d else None) with
            | Some silence => Ok (decide_as e channel "" Silenced silence now d)
            | None =>
                let d := if (ev_phase e =?s "recovery") && negb (ev_incident e =?s "")
                         then release_updates e m (unix_milli now) d else d in
                match (if mergeable e m window d then merge_target e m (unix_milli now) d else None) with
                | Some id => merge_into id e m channel now d
                | None => queue_message w e m channel now window d
                end
            end
        end
    end.

(** Whether the chain has at most one message per channel and dedupe key. *)
Fixpoint chain_valid (linked : bool) (seen : list OutboxMessage) (l : list OutboxMessage) : bool :=
  match l with
  | [] => true
  | m :: l =>
      (lenZ seen <? MaxNotificationChannels)
      && negb (existsb (fun p => om_channel p =?s om_channel m) seen)
      && negb (existsb (fun p => om_dedupe p =?s om_dedupe m) seen)
      && ((om_id m =?s "") || negb (existsb (fun p => om_id p =?s om_id m) seen))
      && ((om_channel m =?s "") || notificationChannel (om_channel m))
      && negb (linked && (om_channel m =?s ""))
      && chain_valid linked (seen ++ [m]) l
  end.

(** One message after the other, each with draws of its own. *)
Fixpoint record_each (ws : nat -> draws) (e : Event) (l : list OutboxMessage) (now : time) (window : duration)
    (d : OutboxDB) : result outbox_error OutboxDB :=
  match l with
  | [] => Ok d
  | m :: l =>
      let? d := recordOneEventNotification (ws O) e (Some (alone m)) now window d in
      record_each (fun n => ws (S n)) e l now window d
  end.

Definition recordEventNotification (ws : nat -> draws) (e : Event) (message : option OutboxMessage) (now : time)
    (window : duration) (d : OutboxDB) : result outbox_error OutboxDB :=
  match message with
  | None => recordOneEventNotification (ws O) e None now window d
  | Some m =>
      if chain_valid (negb (is_null (om_secondary m))) [] (linked_messages m)
      then record_each ws e (linked_messages m) now window d
      else Err OutboxInvalid
  end.
End Admission.
