(* ===== verification/OutboxQueue.v ===== *)
(** * Leases, cooldowns and outcomes of queued notifications

    [internal/store/queue.go], [eligibility.go], the claims of [alerts.go], the
    outcomes of [store.go] and [notification_targets.go], and [silences.go].  Every
    operation is one transaction. *)

From S2P Require Export Outbox.

Definition MaxDeliveryAttempts : Z := 10.

(** The transaction of an operation: an error leaves the tables as they were. *)
Abbreviation tx A := (result outbox_error (OutboxDB * A)).

Definition valid_destination (destination : string) : bool :=
  negb (destination =?s "") && (string_len destination <=? 128).

(** ** Conditions on a row *)

Definition undisturbed (r : OutboxRow) : bool :=
  waiting r && is_null (dl_quarantined (or_delivery r)) && is_null (dl_isolated (or_delivery r)).
Definition unexpired (ms : Z) (r : OutboxRow) : bool := ms <? oi_expires (or_identity r).
(** [lease_until>?]: SQL's comparison with NULL is not true. *)
Definition leased (ms : Z) (r : OutboxRow) : bool :=
  match dl_lease (or_delivery r) with Some l => ms <? l | None => false end.
Definition unleased (ms : Z) (r : OutboxRow) : bool :=
  match dl_lease (or_delivery r) with Some l => l <=? ms | None => true end.
Definition receiver_cooling (ms : Z) (r : OutboxRow) (d : OutboxDB) : bool :=
  cooling (oi_destination (or_identity r)) ms d.

(** ** Claims *)

Definition claimable (id : string) (ms : Z) (r : OutboxRow) (d : OutboxDB) : bool :=
  undisturbed r && unexpired ms r && (dl_next (or_delivery r) <=? ms) && receiver_open r d
  && unleased ms r && negb (receiver_cooling ms r d) && dispatchable id d.

(** The message of a row, as it is read back. *)
Definition milli_time (ms : Z) : time := if 0 <? ms then of_unix_milli ms else time_zero.
Definition row_message (id : string) (r : OutboxRow) (expires : time) : OutboxMessage :=
  mkMessage None id (oi_dedupe (or_identity r)) (row_channel r) "" (oi_language (or_identity r))
    (oi_timezone (or_identity r)) (oi_destination (or_identity r)) (or_body r)
    (of_unix_milli (dl_next (or_delivery r))) "" "" "" 0 ""
    (mkReadBack (dl_attempts (or_delivery r)) expires "" time_zero None 0 "" 0 time_zero time_zero).
Definition official_message (id : string) (r : OutboxRow) (x : DispatchRow) : OutboxMessage :=
  let i := dp_intent x in
  let a := dp_attempt x in
  mkMessage None id (oi_dedupe (or_identity r)) (row_channel r) "" (oi_language (or_identity r))
    (oi_timezone (or_identity r)) (oi_destination (or_identity r)) (or_body r)
    (of_unix_milli (dl_next (or_delivery r))) (in_kind i) "" (in_frozen i) (in_segments i) (in_encoding i)
    (mkReadBack (dl_attempts (or_delivery r)) (of_unix_milli (oi_expires (or_identity r))) (in_retry_key i)
       (milli_time (at_first a)) (Some (at_state a)) (at_count a) (rc_provider_id (dp_receipt x))
       (pl_attempts (dp_polls x)) (milli_time (pl_next (dp_polls x))) (milli_time (pl_deadline (dp_polls x)))).

(** [readOfficialRow]. *)
Definition readOfficialRow (id : string) (d : OutboxDB) : result outbox_error (OutboxRow * DispatchRow) :=
  match od_rows d !! id, od_dispatch d !! id with
  | Some r, Some x => Ok (r, x)
  | _, _ => Err OutboxNoRow
  end.

Definition claim_time : duration := 2 * minute.

Definition ClaimNotification (id : string) (now : time) (d : OutboxDB) : tx (option OutboxMessage) :=
  fail_if negb (ValidID id) || is_zero now with OutboxInvalid;;
  let ms := unix_milli now in
  match od_rows d !! id with
  | None => Ok (d, None)
  | Some r =>
      if negb (claimable id ms r d) then Ok (d, None)
      else
        let r := set_delivery (leased_until (Some (unix_milli (time_add now claim_time)))) r in
        let d := with_rows (<[id := r]> (od_rows d)) d in
        if officialChannel (row_channel r) then
          let? (r, x) := readOfficialRow id d in Ok (d, Some (official_message id r x))
        else Ok (d, Some (row_message id r time_zero))
  end.

Definition in_flight (id : string) (d : OutboxDB) : bool :=
  match od_dispatch d !! id with Some x => bool_decide (at_state (dp_attempt x) = InFlight) | None => false end.

Definition unsent (r : OutboxRow) : bool := is_null (dl_sent (or_delivery r)).

Definition ReleaseNotificationClaim (id : string) (d : OutboxDB) : OutboxDB :=
  with_rows (update_one id (fun r => unsent r && negb (in_flight id d)) (set_delivery (leased_until None))
    (od_rows d)).1 d.

Definition NotificationEligible (id : string) (now : time) (d : OutboxDB) : result outbox_error bool :=
  fail_if (id =?s "") || (128 <? string_len id) || is_zero now with OutboxInvalid;;
  let ms := unix_milli now in
  Ok match od_rows d !! id with
     | Some r => waiting r && is_null (dl_quarantined (or_delivery r)) && unexpired ms r
                 && (dl_next (or_delivery r) <=? ms) && unleased ms r && negb (receiver_cooling ms r d)
     | None => false
     end.

(** The policy of an official channel lets a request in flight go out. *)
Definition policy_allows (id : string) (ms : Z) (r : OutboxRow) (d : OutboxDB) : bool :=
  match od_policies d !! row_channel r, od_dispatch d !! id with
  | Some p, Some x =>
      bool_decide (at_state (dp_attempt x) = InFlight) && (0 <? at_first (dp_attempt x)) && po_enabled p
      && negb (po_revoked p) && (po_optout p =? 0) && negb (po_hold p) && (0 <? po_consented p)
      && (po_consented p <=? ms) && negb (po_basis p =?s "") && (0 <? po_messages p)
      && (negb (paidOfficialChannel (row_channel r)) || po_cost p) && one_of (po_types p) (in_kind (dp_intent x))
  | _, _ => false
  end.

Definition NotificationDeliveryAllowed (id destination : string) (now : time) (d : OutboxDB) : bool :=
  let ms := unix_milli now in
  match od_rows d !! id with
  | Some r =>
      (oi_destination (or_identity r) =?s destination) && undisturbed r && leased ms r && unexpired ms r
      && receiver_open r d && (negb (officialChannel (row_channel r)) || policy_allows id ms r d)
  | None => false
  end.

(** ** Pacing *)

Definition reservable (destination : string) (ms : Z) (r : OutboxRow) (d : OutboxDB) : bool :=
  (oi_destination (or_identity r) =?s destination) && undisturbed r && leased ms r && unexpired ms r
  && receiver_open r d && negb (receiver_cooling ms r d).

Definition hold (destination : string) (until : time) (d : OutboxDB) : OutboxDB :=
  with_cooldowns (hold_until destination (unix_milli until) (od_cooldowns d)) d.

Definition ReserveNotificationAttempt (id destination : string) (now : time) (minimum : duration) (d : OutboxDB) : tx bool :=
  fail_if negb (ValidID id) || negb (valid_destination destination) || is_zero now || (minimum <? second)
    || (30 * second <? minimum) with OutboxInvalid;;
  let eligible := match od_rows d !! id with
                  | Some r => reservable destination (unix_milli now) r d
                  | None => false
                  end in
  if negb eligible then Ok (d, false)
  else Ok (hold destination (milli_ceiling (time_add now minimum)) d, true).

(** ** Outcomes *)

Definition quarantine_exhausted (clock : Z) (x : delivery_columns) : option Z :=
  if MaxDeliveryAttempts <=? dl_attempts x + 1 then Some clock else dl_quarantined x.

Definition failed_until (next : Z) (reason : string) (clock : time) (x : delivery_columns) : delivery_columns :=
  mkDelivery (dl_attempts x + 1) next (limit reason 512) (dl_sent x)
    (quarantine_exhausted (unix_milli clock) x) (dl_suppressed x) (dl_isolated x) None.

Definition MarkRateLimited (id destination : string) (until : time) (reason : string) (clock : time) (d : OutboxDB)
    : tx unit :=
  fail_if negb (valid_destination destination) || is_zero until with OutboxInvalid;;
  let until := milli_ceiling until in
  let d := hold destination until d in
  Ok (with_rows (update_one id (fun r => (oi_destination (or_identity r) =?s destination) && unsent r)
        (set_delivery (fun x => failed_until (Z.max (dl_next x) (unix_milli until)) reason clock x))
        (od_rows d)).1 d, tt).

Definition MarkFailed (id : string) (next : time) (reason : string) (clock : time) (d : OutboxDB) : OutboxDB :=
  with_rows (update_one id unsent (set_delivery (failed_until (unix_milli next) reason clock)) (od_rows d)).1 d.

Definition affected (m : gmap string OutboxRow * bool) (d : OutboxDB) : tx unit :=
  if m.2 then Ok (with_rows m.1 d, tt) else Err OutboxNoRow.

Definition quarantine (id : string) (now : time) (reason : string) (attempted : bool) (d : OutboxDB) : tx unit :=
  affected (update_one id (fun r => unsent r && unexpired (unix_milli now) r)
    (set_delivery (fun x => mkDelivery (dl_attempts x + (if attempted then 1 else 0)) (dl_next x) (limit reason 512)
       (dl_sent x) (Some (unix_milli now)) (dl_suppressed x) (dl_isolated x)
       (if attempted then None else dl_lease x)))
    (od_rows d)) d.
Definition MarkQuarantined (id : string) (now : time) (reason : string) : OutboxDB -> tx unit :=
  quarantine id now reason true.
Definition QuarantineNotification (id : string) (now : time) : OutboxDB -> tx unit :=
  quarantine id now "manually quarantined" false.

Definition RetryNotification (id : string) (now : time) (d : OutboxDB) : tx unit :=
  let ms := unix_milli now in
  affected (update_one id
    (fun r => waiting r && is_null (dl_isolated (or_delivery r)) && unleased ms r && unexpired ms r && dispatchable id d)
    (fun r =>
       let x := or_delivery r in
       let g := or_merging r in
       mkOutboxRow (or_identity r) (or_body r) (mkMerging (mg_incident g) (mg_kind g) (mg_phase g) (mg_count g) 0)
         (mkDelivery 0 ms "" (dl_sent x) None (dl_suppressed x) (dl_isolated x) None))
    (od_rows d)) d.

Definition note_sent (ms : Z) (d : OutboxDB) : OutboxDB :=
  let c := od_counters d in
  with_counters (mkCounters (ct_rejected c) (ct_expired c) (Z.max (ct_last_sent c) ms)) d.

Definition sent_at (ms : Z) (x : delivery_columns) : delivery_columns :=
  mkDelivery (dl_attempts x) (dl_next x) "" (Some ms) (dl_quarantined x) (dl_suppressed x) (dl_isolated x) None.

Definition MarkSentWithCooldown (id : string) (now : time) (minimum : duration) (d : OutboxDB) : tx unit :=
  fail_if is_zero now || (minimum <? 0) || (24 * hour <? minimum) with OutboxInvalid;;
  fail_if negb (is_null (od_dispatch d !! id)) with OutboxRefused;;
  match od_rows d !! id with
  | Some r =>
      if negb (unsent r) then Ok (d, tt)
      else
        let d := with_rows (<[id := set_delivery (sent_at (unix_milli now)) r]> (od_rows d)) d in
        let d := if 0 <? minimum
                 then hold (oi_destination (or_identity r)) (milli_ceiling (time_add now minimum)) d else d in
        Ok (note_sent (unix_milli now) d, tt)
  | None => Ok (d, tt)
  end.
Definition MarkSent (id : string) (now : time) : OutboxDB -> tx unit := MarkSentWithCooldown id now 0.

Definition ResumeDestination (destination : string) (clock : time) (d : OutboxDB) : tx unit :=
  fail_if negb (valid_destination destination) with OutboxInvalid;;
  let ms := unix_milli clock in
  let d := with_cooldowns (delete destination (od_cooldowns d)) d in
  Ok (with_rows (update_where
        (fun _ r => (oi_destination (or_identity r) =?s destination) && waiting r
                    && is_null (dl_quarantined (or_delivery r)) && unexpired ms r)
        (fun _ r => set_delivery (fun x =>
           mkDelivery (dl_attempts x) (Z.max ms (mg_until (or_merging r))) (dl_error x) (dl_sent x)
             (dl_quarantined x) (dl_suppressed x) (dl_isolated x) (dl_lease x)) r)
        (od_rows d)) d, tt).
