(* ===== verification/OfficialDispatch.v ===== *)
(** * Dispatch through official platforms

    [internal/store/official_dispatch.go]: a request to a platform is sent only after
    its intent, its pacing interval and its budget are committed, and its outcome is
    resolved against that intent. *)

From S2P Require Export OutboxQueue.

Definition OfficialLINEWindow : duration := 24 * hour - 5 * minute.
Definition MaxOfficialPollAttempts : Z := 8.
Definition OfficialPollDeadline : duration := 24 * hour.

(** [time.Date(9999, 12, 31, 0, 0, 0, 0, time.UTC)]. *)
Definition far_future : time := unix_epoch + 253402214400 * second.

Definition utc_day (now : time) : Z := Z.quot (unix_sec now) 86400.

(** ** Policies *)

Record OfficialChannelPolicy := mkPolicy {
  op_enabled : bool; op_consented : time; op_purpose : string; op_evidence : string; op_basis : string;
  op_types : list string; op_revoked : bool; op_cost : bool; op_messages : Z; op_segments : Z;
  op_max_segments : Z; op_recovery : bool }.

Definition controlled_reasons : list string :=
  ["provider_accepted"; "delivery_unknown"; "authentication_rejected"; "permission_rejected"; "payload_rejected";
   "rate_limited"; "quota_exhausted"; "recipient_unavailable"; "recipient_opted_out"; "template_rejected";
   "template_unavailable"; "template_language_mismatch"; "invalid_response"; "retry_window_expired";
   "poll_unknown"; "poll_complete"; "retry_requires_resume"; "transport_not_sent"; "official_policy_changed";
   "official_delivery_error"; "api_accepted"; "carrier_accepted"; "carrier_delivered"; "delivery_failed";
   "payload_invalid"; "frozen_request_invalid"; "message_expired"; "clock_rollback";
   "credential_or_permission_rejected"; "provider_rejected"; "request_rejected"; "quality_or_policy_limited";
   "monthly_quota_exhausted"; "token_unavailable"; "token_response_invalid"; "token_request_invalid";
   "token_rejected"; "token_wait_canceled"; "unconfirmed_response"; "unconfirmed_provider_failure";
   "poll_response_invalid"; "poll_receipt_invalid"; "poll_request_invalid"; "poll_intent_invalid";
   "durable_intent_required"; "unsupported_channel"; "template_parameter_count_invalid";
   "template_missing_or_unapproved"; "template_text_too_long"; "template_parameter_format_invalid";
   "template_policy_rejected"].
Definition controlledOfficialReason (reason : string) : string :=
  if one_of controlled_reasons reason then reason else "official_delivery_error".

(** [strings.Contains] and a control character of UTF-8 text. *)
Fixpoint contains_text (sub s : string) : bool :=
  negb (is_null (strip_prefix sub s)) || match s with String _ s => contains_text sub s | EmptyString => false end.
Fixpoint has_control (l : list Z) : bool :=
  match l with
  | [] => false
  | b :: r => (b <? 32) || (b =? 127)
              || (b =? 194) && match r with c :: _ => continuation 128 159 c | [] => false end
              || has_control r
  end.

Definition safePolicyText (value : string) : bool :=
  (string_len value <=? 256) && valid_utf8 0 (bytes_of_string value) && negb (contains_text "://" value)
  && negb (has_control (bytes_of_string value)).

Definition within (lo hi v : Z) : bool := (lo <=? v) && (v <=? hi).

Fixpoint distinct_kinds (seen l : list string) : bool :=
  match l with
  | [] => true
  | k :: l => one_of ["event"; "daily"; "test"] k && negb (one_of seen k) && distinct_kinds (k :: seen) l
  end.

Definition validOfficialPolicy (channel : string) (p : OfficialChannelPolicy) (now : time) : bool :=
  officialChannel channel && negb (is_zero now) && (0 <? unix_milli now) && safePolicyText (op_purpose p)
  && safePolicyText (op_evidence p) && within 0 1000 (op_messages p) && within 0 2000 (op_segments p)
  && within 0 2 (op_max_segments p)
  && ((op_basis p =?s "") || (string_len (op_basis p) =? 32) && hex_text (op_basis p))
  && distinct_kinds [] (op_types p)
  && (negb (op_enabled p && negb (op_revoked p))
      || negb (is_zero (op_consented p)) && negb (after (op_consented p) now) && negb (op_purpose p =?s "")
         && negb (op_evidence p =?s "") && negb (op_basis p =?s "") && negb (lenZ (op_types p) =? 0)
         && (negb (paidOfficialChannel channel) || op_cost p) && negb (op_messages p =? 0)
         && negb ((channel =?s "twilio_sms") && ((op_segments p =? 0) || (op_max_segments p =? 0)))).

(** Every waiting row of a channel is suppressed. *)
Definition suppress_channel (channel reason : string) (ms : Z) (d : OutboxDB) : OutboxDB :=
  with_rows (update_where (fun _ r => (row_channel r =?s channel) && waiting r)
    (fun _ => set_delivery (fun x => mkDelivery (dl_attempts x) (dl_next x) reason (dl_sent x) (dl_quarantined x)
       (Some ms) (dl_isolated x) None)) (od_rows d)) d.

Definition complete_consent (channel : string) (p : OfficialChannelPolicy) (now : time) : bool :=
  negb (is_zero (op_consented p)) && negb (after (op_consented p) now) && negb (op_purpose p =?s "")
  && negb (op_evidence p =?s "") && (0 <? lenZ (op_types p)) && (0 <? op_messages p)
  && (negb (paidOfficialChannel channel) || op_cost p)
  && (negb (channel =?s "twilio_sms") || (0 <? op_segments p) && (0 <? op_max_segments p)).

Definition ConfigureOfficialPolicy (channel : string) (p : OfficialChannelPolicy) (now : time) (d : OutboxDB) : tx unit :=
  fail_if negb (validOfficialPolicy channel p now) with OutboxInvalid;;
  match od_policies d !! channel with
  | None => Err OutboxNoRow
  | Some o =>
      let new_consent := negb (op_basis p =?s "") && negb (op_basis p =?s po_basis o)
                         && (po_consented o <? unix_milli (op_consented p)) && negb (op_revoked p) in
      let clear := new_consent && complete_consent channel p now && op_recovery p
                   && (po_optout o <? unix_milli (op_consented p)) in
      let consented := if is_zero (op_consented p) then 0 else unix_milli (op_consented p) in
      let row := mkPolicyRow (op_enabled p) consented (op_purpose p) (op_evidence p) (op_basis p) (op_types p)
        (op_revoked p) (op_cost p) (op_messages p) (op_segments p) (op_max_segments p)
        (if clear then 0 else po_optout o) (if clear then EmptyString else po_optout_basis o) (po_hold o)
        (po_reference o) (po_clock o) (po_day o) (po_pruned o) in
      let d := with_policies (<[channel := row]> (od_policies d)) d in
      Ok (if op_revoked p then suppress_channel channel "official_subscription_revoked" (unix_milli now) d else d, tt)
  end.

(** ** The dispatch row *)

Definition set_attempt (f : attempt -> attempt) (x : DispatchRow) : DispatchRow :=
  mkDispatch (dp_intent x) (f (dp_attempt x)) (dp_receipt x) (dp_polls x).
Definition set_receipt (f : receipt -> receipt) (x : DispatchRow) : DispatchRow :=
  mkDispatch (dp_intent x) (dp_attempt x) (f (dp_receipt x)) (dp_polls x).
Definition set_polls (f : polls -> polls) (x : DispatchRow) : DispatchRow :=
  mkDispatch (dp_intent x) (dp_attempt x) (dp_receipt x) (f (dp_polls x)).

Definition in_state (s : dispatch_state) (reason : string) (a : attempt) : attempt :=
  mkAttempt s (at_first a) (at_last a) (at_uncertain a) (at_count a) (at_budget_day a) reason.

Definition update_dispatch (id : string) (f : DispatchRow -> DispatchRow) (d : OutboxDB) : OutboxDB :=
  with_dispatch (update_one id (fun _ => true) f (od_dispatch d)).1 d.

Definition blockOfficial (id reason : string) (now : time) (unknown : bool) (d : OutboxDB) : OutboxDB :=
  let state := if unknown then DeliveryUnknown else Blocked in
  let d := with_dispatch (update_one id (fun x => negb (bool_decide (at_state (dp_attempt x) = Accepted)))
             (set_attempt (in_state state reason)) (od_dispatch d)).1 d in
  with_rows (update_one id unsent (set_delivery (fun x => mkDelivery (dl_attempts x) (dl_next x) reason (dl_sent x)
     (Some (unix_milli now)) (dl_suppressed x) (dl_isolated x) None)) (od_rows d)).1 d.

(** ** Permission to send *)

(** The last of the reasons that hold. *)
Definition last_reason (l : list (bool * string)) : string :=
  foldl (fun reason '(holds, next) => if (holds : bool) then next else reason) "" l.

Definition dispatch_reason (m : OutboxRow) (x : DispatchRow) (p : PolicyRow) (now : time) : string :=
  let ms := unix_milli now in
  let channel := row_channel m in
  let a := dp_attempt x in
  let day := utc_day now in
  last_reason
    [(negb (po_enabled p) || po_revoked p, "official_subscription_paused"%string);
     (0 <? po_optout p, "official_subscription_opted_out"%string);
     (po_hold p, "official_restore_reconciliation_required"%string);
     ((ms <? po_clock p) || (ms <? at_last a), "official_clock_moved_backwards"%string);
     ((channel =?s "line") && (0 <? at_first a)
        && (OfficialLINEWindow <=? time_sub now (of_unix_milli (at_first a))), "line_retry_window_expired"%string);
     ((po_consented p <=? 0) || (ms <? po_consented p) || (po_purpose p =?s "") || (po_evidence p =?s "")
        || (po_basis p =?s "") || paidOfficialChannel channel && negb (po_cost p) || (po_messages p =? 0)
        || negb (one_of (po_types p) (in_kind (dp_intent x))), "official_subscription_required"%string);
     (day <? po_day p, "official_clock_moved_backwards"%string);
     ((channel =?s "twilio_sms") && ((po_segments p =? 0) || (po_max_segments p =? 0)
        || (po_max_segments p <? in_segments (dp_intent x))), "official_segment_limit"%string);
     (paidOfficialChannel channel && (0 <=? at_budget_day a) && negb (at_budget_day a =? day),
        "official_budget_day_changed"%string)].

Definition set_policy (channel : string) (f : PolicyRow -> PolicyRow) (d : OutboxDB) : OutboxDB :=
  with_policies (update_one channel (fun _ => true) f (od_policies d)).1 d.

Definition add_pruned (n : Z) (p : PolicyRow) : PolicyRow :=
  mkPolicyRow (po_enabled p) (po_consented p) (po_purpose p) (po_evidence p) (po_basis p) (po_types p)
    (po_revoked p) (po_cost p) (po_messages p) (po_segments p) (po_max_segments p) (po_optout p)
    (po_optout_basis p) (po_hold p) (po_reference p) (po_clock p) (po_day p) (po_pruned p + n).
Definition raise_clock (ms day : Z) (p : PolicyRow) : PolicyRow :=
  mkPolicyRow (po_enabled p) (po_consented p) (po_purpose p) (po_evidence p) (po_basis p) (po_types p)
    (po_revoked p) (po_cost p) (po_messages p) (po_segments p) (po_max_segments p) (po_optout p)
    (po_optout_basis p) (po_hold p) (po_reference p) (Z.max (po_clock p) ms) (Z.max (po_day p) day) (po_pruned p).

Definition usage_of (channel : string) (day : Z) (d : OutboxDB) : Z * Z :=
  default (0, 0) (od_usage d !! (channel, day)).
(** The [CHECK]s of [official_budget_usage]. *)
Definition usage_fits (u : Z * Z) : bool := within 0 1000 u.1 && within 0 2000 u.2.

Definition stale_usage (channel : string) (day : Z) (k : string * Z) : Prop := k.1 = channel /\ k.2 < day - 399.
#[global] Instance stale_usage_dec c day k : Decision (stale_usage c day k).
Proof. unfold stale_usage. apply _. Defined.

Definition exhausted (p : PolicyRow) (channel : string) (segments : Z) (used : Z * Z) : bool :=
  (po_messages p <=? used.1) || (channel =?s "twilio_sms") && (po_segments p <? used.2 + segments).

(** One message is debited, and days older than 400 are forgotten. *)
Definition debit (channel : string) (day segments : Z) (d : OutboxDB) : result outbox_error OutboxDB :=
  let used := usage_of channel day d in
  let used := (used.1 + 1, used.2 + segments) in
  fail_if negb (usage_fits used) with OutboxConstraint;;
  let usage := <[(channel, day) := used]> (od_usage d) in
  let stale := filter (fun kv => stale_usage channel day kv.1) usage in
  let d := set_policy channel (add_pruned (Z.of_nat (size stale))) d in
  Ok (with_usage (filter (fun kv => ~ stale_usage channel day kv.1) usage) d).

Definition start_attempt (first ms day : Z) (a : attempt) : attempt :=
  mkAttempt InFlight first ms true (at_count a + 1) day "".

Definition begun (m : OutboxMessage) (first : Z) : OutboxMessage :=
  let r := om_read m in
  mkMessage (om_secondary m) (om_id m) (om_dedupe m) (om_channel m) (om_privacy m) (om_language m) (om_timezone m)
    (om_destination m) (om_body m) (om_next m) (om_kind m) (om_failure m) (om_frozen m) (om_segments m)
    (om_encoding m)
    (mkReadBack (rb_attempts r) (rb_expires r) (rb_retry_key r) (of_unix_milli first) (Some InFlight)
       (rb_dispatch_attempt r + 1) (rb_provider_id r) (rb_poll_attempts r) (rb_next_poll r) (rb_poll_deadline r)).

(** The intent is committed: the message goes out. *)
Definition commit_intent (id destination : string) (r : OutboxRow) (x : DispatchRow) (day : Z) (now : time)
    (minimum : duration) (d : OutboxDB) : OutboxDB * option OutboxMessage :=
  let ms := unix_milli now in
  let a := dp_attempt x in
  if MaxDeliveryAttempts <=? at_count a
  then (blockOfficial id "official_attempt_limit" now (at_uncertain a) d, None)
  else
    let first := if at_first a =? 0 then ms else at_first a in
    let d := update_dispatch id (set_attempt (start_attempt first ms day)) d in
    let d := set_policy (row_channel r) (raise_clock ms (utc_day now)) d in
    let d := if 0 <? minimum then hold destination (milli_ceiling (time_add now minimum)) d else d in
    (d, Some (begun (official_message id r x) first)).

Definition sendable (ms : Z) (r : OutboxRow) (d : OutboxDB) : bool :=
  undisturbed r && leased ms r && unexpired ms r && target_enabled r d && negb (receiver_cooling ms r d).

Definition BeginOfficialDispatch (id destination : string) (now : time) (minimum : duration) (d : OutboxDB)
    : tx (option OutboxMessage) :=
  fail_if negb (ValidID id) || negb (valid_destination destination) || is_zero now || (unix_milli now <=? 0)
    || (minimum <? 0) || (30 * second <? minimum) || (0 <? minimum) && (minimum <? second) with OutboxInvalid;;
  let? (r, x) := readOfficialRow id d in
  let channel := row_channel r in
  fail_if negb (oi_destination (or_identity r) =?s destination) || negb (officialChannel channel) with OutboxMismatch;;
  if negb (sendable (unix_milli now) r d) || negb (dispatchable id d) then Ok (d, None)
  else
    match od_policies d !! channel with
    | None => Err OutboxNoRow
    | Some p =>
        let a := dp_attempt x in
        let reason := dispatch_reason r x p now in
        let day := utc_day now in
        if negb (reason =?s "") then Ok (blockOfficial id reason now (at_uncertain a) d, None)
        else if at_budget_day a <? 0 then
          if exhausted p channel (in_segments (dp_intent x)) (usage_of channel day d)
          then Ok (blockOfficial id "official_daily_budget_exhausted" now false d, None)
          else let? d := debit channel day (in_segments (dp_intent x)) d in
               Ok (commit_intent id destination r x day now minimum d)
        else Ok (commit_intent id destination r x (at_budget_day a) now minimum d)
    end.

(** ** Receipts *)

Definition alphanumeric (b : Z) : bool := continuation 97 122 b || continuation 65 90 b || continuation 48 57 b.
(** ["-_.:+/="]. *)
Definition id_mark (b : Z) : bool := bool_decide (b ∈ [45; 95; 46; 58; 43; 47; 61]).

Definition validProviderID (channel id : string) : bool :=
  negb (id =?s "") && (string_len id <=? 256)
  && negb (string_exists (fun b => negb (alphanumeric b || id_mark b)) id)
  && (if channel =?s "twilio_sms"
      then (string_len id =? 34) && match strip_prefix "SM" id with Some s => hex_text s | None => false end
      else (negb (channel =?s "whatsapp_cloud") || negb (is_null (strip_prefix "wamid." id)))
           && negb (contains_text "://" id)).

(** The scan of a decimal price: digits and dots so far. *)
Fixpoint price_scan (first : bool) (digits dots : Z) (l : list Z) : bool :=
  match l with
  | [] => negb (digits =? 0)
  | b :: l =>
      if continuation 48 57 b then price_scan false (digits + 1) dots l
      else if b =? 46 then negb (1 <? dots + 1) && price_scan false digits (dots + 1) l
      else if (b =? 45) && first then price_scan false digits dots l
      else false
  end.

Definition validPlatformCharge (segments : option Z) (price : option string) (unit : string) : bool :=
  match segments with Some n => within 0 100 n | None => true end
  && ((string_len unit =? 0) || (string_len unit =? 3))
  && negb (string_exists (fun b => negb (continuation 65 90 b)) unit)
  && match price with
     | Some p => negb (string_len p =? 0) && (string_len p <=? 32) && negb (unit =?s "")
                 && price_scan true 0 0 (bytes_of_string p)
     | None => true
     end.

Definition coalesce {A} (x y : option A) : option A := match x with Some _ => x | None => y end.

Definition savePlatformCharge (id : string) (segments : option Z) (price : option string) (unit : string)
    : OutboxDB -> OutboxDB :=
  update_dispatch id (set_receipt (fun c =>
    mkReceiptRow (rc_provider_id c) (rc_accepted c) (rc_provider_state c) (coalesce segments (rc_segments c))
      (coalesce price (rc_price c)) (if unit =?s "" then rc_unit c else unit) (rc_http c) (rc_api_error c))).

Definition set_codes (id : string) (http api : Z) : OutboxDB -> OutboxDB :=
  update_dispatch id (set_receipt (fun c =>
    mkReceiptRow (rc_provider_id c) (rc_accepted c) (rc_provider_state c) (rc_segments c) (rc_price c) (rc_unit c)
      http api)).

Definition opt_out (ms : Z) (p : PolicyRow) : PolicyRow :=
  mkPolicyRow (po_enabled p) (po_consented p) (po_purpose p) (po_evidence p) (po_basis p) (po_types p)
    (po_revoked p) (po_cost p) (po_messages p) (po_segments p) (po_max_segments p) (Z.max (po_optout p) ms)
    (po_basis p) (po_hold p) (po_reference p) (po_clock p) (po_day p) (po_pruned p).
Definition persistOfficialOptout (channel : string) (now : time) (d : OutboxDB) : OutboxDB :=
  suppress_channel channel "official_subscription_opted_out" (unix_milli now)
    (set_policy channel (opt_out (unix_milli now)) d).

Definition validPollStatus : string -> bool :=
  one_of ["queued"; "accepted"; "sending"; "sent"; "delivered"; "undelivered"; "failed"; "canceled"; "unknown"].
Definition terminalPollStatus : string -> bool :=
  one_of ["delivered"; "undelivered"; "failed"; "canceled"; "unknown"].

(** ** Resolution of an attempt *)

Inductive outcome := OutcomeAccepted | OutcomeNotAccepted | OutcomeUnknown | OutcomeOther.
#[global] Instance outcome_eq_dec : EqDecision outcome.
Proof. solve_decision. Defined.

Record OfficialDispatchResolution := mkResolution {
  rs_http : Z; rs_api_error : Z; rs_attempt : Z; rs_outcome : outcome; rs_provider_id : string;
  rs_reason : string; rs_retry_after : duration; rs_permanent : bool; rs_suspend : bool; rs_optout : bool;
  rs_poll_status : string; rs_segments : option Z; rs_price : option string; rs_unit : string }.

Definition valid_codes (http api : Z) : bool := within 0 599 http && within 0 2147483647 api.

Definition accepted_state (channel : string) (res : OfficialDispatchResolution) : string :=
  let status := rs_poll_status res in
  if channel =?s "twilio_sms" then if validPollStatus status then status else "queued"
  else if (status =?s "api_accepted") || (status =?s "accepted")
          || (channel =?s "whatsapp_cloud") && (status =?s "held_for_quality_assessment")
  then status else "accepted".

Definition accept (id : string) (r : OutboxRow) (x : DispatchRow) (now : time) (res : OfficialDispatchResolution)
    (d : OutboxDB) : result outbox_error OutboxDB :=
  let channel := row_channel r in
  fail_if negb (validProviderID channel (rs_provider_id res)) with OutboxInvalid;;
  let ms := unix_milli now in
  let state := accepted_state channel res in
  let sms := channel =?s "twilio_sms" in
  let next := if sms && negb (terminalPollStatus state) then unix_milli (time_add now (30 * second)) else 0 in
  let deadline := if sms then unix_milli (of_unix_milli (at_first (dp_attempt x)) + OfficialPollDeadline) else 0 in
  let d := update_dispatch id (fun x =>
    let a := dp_attempt x in
    let c := dp_receipt x in
    mkDispatch (dp_intent x)
      (mkAttempt Accepted (at_first a) (at_last a) false (at_count a) (at_budget_day a) "")
      (mkReceiptRow (rs_provider_id res) ms state (rc_segments c) (rc_price c) (rc_unit c) (rc_http c) (rc_api_error c))
      (mkPolls (pl_attempts (dp_polls x)) next deadline (pl_lease (dp_polls x)))) d in
  let d := with_rows (update_one id (fun _ => true) (set_delivery (sent_at ms)) (od_rows d)).1 d in
  Ok (note_sent ms d).

(** The attempt may be repeated after a wait. *)
Definition retry_after (id reason : string) (next : time) (d : OutboxDB) : OutboxDB :=
  let d := update_dispatch id (set_attempt (in_state RetryReady reason)) d in
  with_rows (update_one id (fun _ => true) (set_delivery (fun x =>
    mkDelivery (dl_attempts x + 1) (unix_milli next) reason (dl_sent x) (dl_quarantined x) (dl_suppressed x)
      (dl_isolated x) None)) (od_rows d)).1 d.

Definition line_may_repeat (r : OutboxRow) (a : attempt) (res : OfficialDispatchResolution) (wait : duration) (now : time)
    : bool :=
  (row_channel r =?s "line") && negb (rs_suspend res) && (at_last a <=? unix_milli now)
  && (wait <? OfficialLINEWindow)
  && (time_sub (time_add now wait) (of_unix_milli (at_first a)) <? OfficialLINEWindow).

Definition left_unknown (id : string) (r : OutboxRow) (x : DispatchRow) (now : time) (res : OfficialDispatchResolution)
    (d : OutboxDB) : OutboxDB :=
  let reason := controlledOfficialReason (rs_reason res) in
  let wait := Z.max (rs_retry_after res) (30 * second) in
  let d := if (0 <? rs_retry_after res) || (row_channel r =?s "line")
           then hold (oi_destination (or_identity r))
                  (milli_ceiling (if (OutboxTTL <? wait) || rs_suspend res then far_future else time_add now wait)) d
           else d in
  if line_may_repeat r (dp_attempt x) res wait now then retry_after id reason (time_add now wait) d
  else blockOfficial id
         (if reason =?s "official_delivery_error" then "official_delivery_unknown" else reason) now true d.

Definition not_uncertain (a : attempt) : attempt :=
  mkAttempt (at_state a) (at_first a) (at_last a) false (at_count a) (at_budget_day a) (at_reason a).

Definition refused (id : string) (r : OutboxRow) (x : DispatchRow) (now : time) (res : OfficialDispatchResolution)
    (d : OutboxDB) : OutboxDB :=
  let reason := controlledOfficialReason (rs_reason res) in
  let d := update_dispatch id (set_attempt not_uncertain) d in
  if rs_permanent res || rs_suspend res || rs_optout res || (MaxDeliveryAttempts <=? at_count (dp_attempt x))
     || (OutboxTTL <? rs_retry_after res)
  then blockOfficial id reason now false d
  else
    let wait := Z.max (rs_retry_after res) second in
    let d := retry_after id reason (time_add now wait) d in
    if 0 <? rs_retry_after res then hold (oi_destination (or_identity r)) (time_add now wait) d else d.

Definition late_acceptance (s : dispatch_state) (o : outcome) : bool :=
  bool_decide (o = OutcomeAccepted) && (bool_decide (s = DeliveryUnknown) || bool_decide (s = RetryReady)).

Definition ResolveOfficialDispatch (id : string) (now : time) (res : OfficialDispatchResolution) (d : OutboxDB) : tx unit :=
  fail_if negb (ValidID id) || is_zero now || negb (within 1 MaxDeliveryAttempts (rs_attempt res))
    || bool_decide (rs_outcome res = OutcomeOther) || (rs_retry_after res <? 0)
    || negb (validPlatformCharge (rs_segments res) (rs_price res) (rs_unit res))
    || negb (valid_codes (rs_http res) (rs_api_error res)) with OutboxInvalid;;
  let? (r, x) := readOfficialRow id d in
  let a := dp_attempt x in
  fail_if negb (bool_decide (at_state a = InFlight)) && negb (late_acceptance (at_state a) (rs_outcome res))
    || negb (at_count a =? rs_attempt res) with OutboxMismatch;;
  let? d := match rs_outcome res with
            | OutcomeAccepted => accept id r x now res d
            | OutcomeUnknown => Ok (left_unknown id r x now res d)
            | _ => Ok (refused id r x now res d)
            end in
  let d := if rs_optout res then persistOfficialOptout (row_channel r) now d else d in
  let d := if rs_suspend res then hold (oi_destination (or_identity r)) far_future d else d in
  let d := set_codes id (rs_http res) (rs_api_error res) d in
  Ok (savePlatformCharge id (rs_segments res) (rs_price res) (rs_unit res) d, tt).

(** ** Recovery of interrupted attempts *)

(** The columns of a dispatch whose outbox row satisfies a condition. *)
Definition outbox_is (id : string) (P : OutboxRow -> bool) (d : OutboxDB) : bool :=
  match od_rows d !! id with Some r => P r | None => false end.
Definition is_line (r : OutboxRow) : bool := row_channel r =?s "line".

Definition recover_in_flight (now : time) (d : OutboxDB) : OutboxDB :=
  let ms := unix_milli now in
  let opened := unix_milli (time_add now (- OfficialLINEWindow)) in
  with_dispatch (update_where
    (fun id x => bool_decide (at_state (dp_attempt x) = InFlight) && outbox_is id (unleased ms) d)
    (fun id => set_attempt (fun a =>
       in_state (if outbox_is id is_line d && (0 <? at_first a) && (at_last a <=? ms) && (opened <? at_first a)
                 then RetryReady else DeliveryUnknown) "official_interrupted_dispatch" a))
    (od_dispatch d)) d.

Definition close_line_window (now : time) (d : OutboxDB) : OutboxDB :=
  let opened := unix_milli (time_add now (- OfficialLINEWindow)) in
  with_dispatch (update_where
    (fun id x => let a := dp_attempt x in
       (bool_decide (at_state a = Prepared) || bool_decide (at_state a = RetryReady))
       && (0 <? at_first a) && (at_first a <=? opened) && outbox_is id is_line d)
    (fun _ => set_attempt (fun a =>
       in_state (if at_uncertain a then DeliveryUnknown else Blocked) "line_retry_window_expired" a))
    (od_dispatch d)) d.

Definition quarantine_closed (now : time) (d : OutboxDB) : OutboxDB :=
  with_rows (map_imap (fun id r => Some
    match od_dispatch d !! id with
    | Some x =>
        let s := at_state (dp_attempt x) in
        if waiting r && (bool_decide (s = DeliveryUnknown) || bool_decide (s = Blocked))
        then set_delivery (fun y => mkDelivery (dl_attempts y) (dl_next y) (at_reason (dp_attempt x)) (dl_sent y)
               (coalesce (dl_quarantined y) (Some (unix_milli now))) (dl_suppressed y) (dl_isolated y) None) r
        else r
    | None => r
    end) (od_rows d)) d.

Definition recoverOfficialIntents (now : time) (d : OutboxDB) : OutboxDB :=
  quarantine_closed now (close_line_window now (recover_in_flight now d)).

Definition end_polls (x : DispatchRow) : DispatchRow :=
  let c := dp_receipt x in
  mkDispatch (dp_intent x) (in_state (at_state (dp_attempt x)) "official_poll_limit" (dp_attempt x))
    (mkReceiptRow (rc_provider_id c) (rc_accepted c) "unknown" (rc_segments c) (rc_price c) (rc_unit c) (rc_http c)
       (rc_api_error c))
    (mkPolls (pl_attempts (dp_polls x)) 0 (pl_deadline (dp_polls x)) 0).

Definition polls_over (ms : Z) (x : DispatchRow) : bool :=
  let p := dp_polls x in
  bool_decide (at_state (dp_attempt x) = Accepted) && (0 <? pl_next p)
  && ((pl_deadline p <=? ms) || (MaxOfficialPollAttempts <=? pl_attempts p) && (pl_lease p <=? ms)).

Definition expireOfficialPolls (now : time) (d : OutboxDB) : OutboxDB :=
  with_dispatch (update_where (fun _ => polls_over (unix_milli now)) (fun _ => end_polls) (od_dispatch d)) d.

(** ** Polls of accepted messages *)

Definition policy_open (channel : string) (d : OutboxDB) : bool :=
  match od_policies d !! channel with
  | Some p => po_enabled p && negb (po_revoked p) && (po_optout p =? 0) && negb (po_hold p)
  | None => false
  end.

(** What every poll asks of the row, its target, policy and cooldown. *)
Definition poll_receiver (destination : string) (ms : Z) (r : OutboxRow) (d : OutboxDB) : bool :=
  (row_channel r =?s "twilio_sms") && (oi_destination (or_identity r) =?s destination) && target_enabled r d
  && policy_open (row_channel r) d && negb (receiver_cooling ms r d).
Definition poll_due (ms : Z) (x : DispatchRow) : bool :=
  let p := dp_polls x in
  bool_decide (at_state (dp_attempt x) = Accepted) && negb (rc_provider_id (dp_receipt x) =?s "")
  && (0 <? pl_next p) && (pl_next p <=? ms) && (ms <? pl_deadline p)
  && (pl_attempts p <? MaxOfficialPollAttempts) && (pl_lease p <=? ms).
Definition pollable (destination : string) (ms : Z) (d : OutboxDB) (id : string) (x : DispatchRow) : bool :=
  poll_due ms x && outbox_is id (fun r => poll_receiver destination ms r d) d.

Definition read_each (d : OutboxDB) (ids : list string) : list OutboxMessage :=
  omap (fun id => match readOfficialRow id d with Ok (r, x) => Some (official_message id r x) | Err _ => None end) ids.

Definition PendingOfficialPolls (destination : string) (now : time) (count : Z) (d : OutboxDB) : tx (list OutboxMessage) :=
  fail_if negb (valid_destination destination) || is_zero now || (count <? 1) || (100 <? count) with OutboxInvalid;;
  let d := expireOfficialPolls now d in
  let due := List.filter (uncurry (pollable destination (unix_milli now) d)) (map_to_list (od_dispatch d)) in
  let ids := snd <$> sort_by by_time_and_id ((fun kv => (pl_next (dp_polls kv.2), kv.1)) <$> due) in
  Ok (d, read_each d (take (Z.to_nat count) ids)).

Definition ClaimOfficialPoll (id destination : string) (now : time) (d : OutboxDB) : tx (option OutboxMessage) :=
  fail_if negb (ValidID id) || negb (valid_destination destination) || is_zero now with OutboxInvalid;;
  let d := expireOfficialPolls now d in
  let ms := unix_milli now in
  match od_dispatch d !! id with
  | Some x =>
      if negb (pollable destination ms d id x) then Ok (d, None)
      else
        let d := update_dispatch id (set_polls (fun p =>
                   mkPolls (pl_attempts p + 1) (pl_next p) (pl_deadline p) (unix_milli (time_add now claim_time)))) d in
        let? (r, x) := readOfficialRow id d in
        Ok (d, Some (official_message id r x))
  | None => Ok (d, None)
  end.

Definition OfficialPollAllowed (id destination : string) (n : Z) (now : time) (d : OutboxDB) : result outbox_error bool :=
  fail_if negb (ValidID id) || negb (valid_destination destination) || (n <? 1) || (MaxOfficialPollAttempts <? n)
    || is_zero now with OutboxInvalid;;
  let ms := unix_milli now in
  Ok match od_dispatch d !! id with
     | Some x =>
         let p := dp_polls x in
         bool_decide (at_state (dp_attempt x) = Accepted) && negb (rc_provider_id (dp_receipt x) =?s "")
         && (pl_attempts p =? n) && (ms <? pl_lease p) && (ms <? pl_deadline p)
         && outbox_is id (fun r => poll_receiver destination ms r d) d
     | None => false
     end.

Record OfficialPollResolution := mkPollResolution {
  pr_http : Z; pr_api_error : Z; pr_attempt : Z; pr_status : string; pr_reason : string;
  pr_retry_after : duration; pr_suspend : bool; pr_optout : bool; pr_segments : option Z;
  pr_price : option string; pr_unit : string }.

(** The state to store, the time of the next poll and the reason of an ending. *)
Definition poll_progress (x : DispatchRow) (now : time) (res : OfficialPollResolution) : string * Z * string :=
  let status := if pr_suspend res then "unknown"%string
                else if pr_status res =?s "" then rc_provider_state (dp_receipt x) else pr_status res in
  let terminal := negb (status =?s "unknown") && terminalPollStatus status in
  let deadline := pl_deadline (dp_polls x) in
  if terminal || pr_optout res then (status, 0, ""%string)
  else if (pr_attempt res <? MaxOfficialPollAttempts) && (unix_milli now <? deadline) then
    let wait := Z.max (pr_retry_after res) (30 * second) in
    if (wait <=? OfficialPollDeadline) && (unix_milli (time_add now wait) <? deadline)
    then (status, unix_milli (time_add now wait), ""%string)
    else ("unknown"%string, 0, "official_poll_deadline"%string)
  else ("unknown"%string, 0, "official_poll_limit"%string).

Definition store_poll (state : string) (next : Z) (reason : string) (x : DispatchRow) : DispatchRow :=
  let a := dp_attempt x in
  let c := dp_receipt x in
  let p := dp_polls x in
  mkDispatch (dp_intent x) (in_state (at_state a) reason a)
    (mkReceiptRow (rc_provider_id c) (rc_accepted c) state (rc_segments c) (rc_price c) (rc_unit c) (rc_http c)
       (rc_api_error c))
    (mkPolls (pl_attempts p) next (pl_deadline p) 0).

Definition ResolveOfficialPoll (id : string) (now : time) (res : OfficialPollResolution) (d : OutboxDB) : tx unit :=
  fail_if negb (ValidID id) || is_zero now || negb (within 1 MaxOfficialPollAttempts (pr_attempt res))
    || negb (pr_status res =?s "") && negb (validPollStatus (pr_status res)) || (pr_retry_after res <? 0)
    || negb (validPlatformCharge (pr_segments res) (pr_price res) (pr_unit res))
    || negb (valid_codes (pr_http res) (pr_api_error res)) with OutboxInvalid;;
  let? (r, x) := readOfficialRow id d in
  fail_if negb (row_channel r =?s "twilio_sms") || negb (bool_decide (at_state (dp_attempt x) = Accepted))
    || negb (pl_attempts (dp_polls x) =? pr_attempt res) || (pl_lease (dp_polls x) =? 0) with OutboxMismatch;;
  let '(status, next, reason) := poll_progress x now res in
  let status := if pr_optout res then "failed"%string else status in
  let reason := if pr_optout res then "official_subscription_opted_out"%string else reason in
  let d := if pr_optout res then persistOfficialOptout "twilio_sms" now d else d in
  let d := if pr_suspend res || (0 <? pr_retry_after res) then
             let wait := Z.max (pr_retry_after res) (30 * second) in
             let until := if pr_suspend res || (OutboxTTL <? wait) then far_future else time_add now wait in
             hold (oi_destination (or_identity r)) (milli_ceiling until) d
           else d in
  let reason := if (reason =?s "") && negb (pr_reason res =?s "")
                then controlledOfficialReason (pr_reason res) else reason in
  let d := update_dispatch id (store_poll status next reason) d in
  let d := set_codes id (pr_http res) (pr_api_error res) d in
  Ok (savePlatformCharge id (pr_segments res) (pr_price res) (pr_unit res) d, tt).

(** ** Reconciliation after a restore *)

Definition restored : string := "official_restored_body_requires_reconciliation".

Definition reconciled (reference : string) (ms day : Z) (p : PolicyRow) : PolicyRow :=
  mkPolicyRow (po_enabled p) (po_consented p) (po_purpose p) (po_evidence p) (po_basis p) (po_types p)
    (po_revoked p) (po_cost p) (po_messages p) (po_segments p) (po_max_segments p) (po_optout p)
    (po_optout_basis p) false reference (Z.max (po_clock p) ms) (Z.max (po_day p) day) (po_pruned p).

Definition reconcilable (p : PolicyRow) (now : time) : bool :=
  po_hold p && po_enabled p && negb (po_revoked p) && po_cost p && (0 <? po_consented p)
  && (po_consented p <=? unix_milli now) && negb (po_basis p =?s "") && negb (po_purpose p =?s "")
  && negb (po_evidence p =?s "") && (0 <? po_messages p) && (po_optout p <=? 0) && (po_clock p <=? unix_milli now).

(** The unsent rows of the channels are blocked and quarantined. *)
Definition unsent_of (P : string -> bool) (d : OutboxDB) (id : string) : bool :=
  outbox_is id (fun r => P (row_channel r) && unsent r) d.

Definition ReconcileOfficialPaidChannel (channel reference : string) (now : time) (d : OutboxDB) : tx unit :=
  fail_if negb (paidOfficialChannel channel) || (reference =?s "") || negb (safePolicyText reference)
    || is_zero now || (unix_milli now <=? 0) with OutboxInvalid;;
  match od_policies d !! channel with
  | None => Err OutboxNoRow
  | Some p =>
      fail_if negb (reconcilable p now) with OutboxRefused;;
      let ms := unix_milli now in
      let day := utc_day now in
      let used := usage_of channel day d in
      let used := (Z.max used.1 (po_messages p), Z.max used.2 (po_segments p)) in
      fail_if negb (usage_fits used) with OutboxConstraint;;
      let d := with_usage (<[(channel, day) := used]> (od_usage d)) d in
      let d := set_policy channel (reconciled reference ms day) d in
      let d := with_dispatch (update_where (fun id _ => unsent_of (String.eqb channel) d id)
                 (fun _ => set_attempt (in_state Blocked restored)) (od_dispatch d)) d in
      Ok (with_rows (update_where (fun _ r => (row_channel r =?s channel) && unsent r)
            (fun _ => set_delivery (fun x => mkDelivery (dl_attempts x) (dl_next x) restored (dl_sent x) (Some ms)
               (dl_suppressed x) (dl_isolated x) None)) (od_rows d)) d, tt)
  end.

Definition stop_polls (x : DispatchRow) : DispatchRow :=
  let c := dp_receipt x in
  let p := dp_polls x in
  mkDispatch (dp_intent x) (dp_attempt x)
    (mkReceiptRow (rc_provider_id c) (rc_accepted c) (if 0 <? pl_next p then "unknown"%string else rc_provider_state c)
       (rc_segments c) (rc_price c) (rc_unit c) (rc_http c) (rc_api_error c))
    (mkPolls (pl_attempts p) 0 (pl_deadline p) 0).

Definition held (p : PolicyRow) : PolicyRow :=
  mkPolicyRow (po_enabled p) (po_consented p) (po_purpose p) (po_evidence p) (po_basis p) (po_types p)
    (po_revoked p) (po_cost p) (po_messages p) (po_segments p) (po_max_segments p) (po_optout p)
    (po_optout_basis p) true (po_reference p) (po_clock p) (po_day p) (po_pruned p).

(** [markRestoredOfficialHold] of a database with the current schema. *)
Definition markRestoredOfficialHold (clock : time) (d : OutboxDB) : OutboxDB :=
  let ms := unix_milli clock in
  let d := with_policies (update_where (fun c _ => paidOfficialChannel c) (fun _ => held) (od_policies d)) d in
  let d := with_dispatch (update_where
    (fun id x => negb (bool_decide (at_state (dp_attempt x) = Accepted)) && unsent_of paidOfficialChannel d id)
    (fun _ => set_attempt (fun a =>
       in_state (if bool_decide (at_state a = InFlight) then DeliveryUnknown else Blocked) restored a))
    (od_dispatch d)) d in
  let d := with_rows (update_where (fun _ r => paidOfficialChannel (row_channel r) && unsent r)
    (fun _ => set_delivery (fun x => mkDelivery (dl_attempts x) (dl_next x) restored (dl_sent x)
       (coalesce (dl_quarantined x) (Some ms)) (dl_suppressed x) (coalesce (dl_isolated x) (Some ms)) None))
    (od_rows d)) d in
  with_dispatch (update_where (fun id _ => outbox_is id (fun r => row_channel r =?s "twilio_sms") d)
    (fun _ => stop_polls) (od_dispatch d)) d.

Record OfficialChannelStatus := mkChannelStatus {
  cs_channel : string; cs_enabled : bool; cs_revoked : bool; cs_opted_out : bool; cs_hold : bool;
  cs_consented : time; cs_clock : time; cs_daily_messages : Z; cs_daily_segments : Z; cs_reserved : Z;
  cs_reserved_segments : Z; cs_unknown : Z; cs_pruned : Z }.

Definition channel_status (channel : string) (now : time) (d : OutboxDB) : result outbox_error OfficialChannelStatus :=
  fail_if negb (officialChannel channel) || is_zero now with OutboxInvalid;;
  match od_policies d !! channel with
  | None => Err OutboxNoRow
  | Some p =>
      let used := usage_of channel (utc_day now) d in
      let unknown := map_sum (fun id x =>
        if bool_decide (at_state (dp_attempt x) = DeliveryUnknown)
           && outbox_is id (fun r => row_channel r =?s channel) d then 1 else 0) (od_dispatch d) in
      Ok (mkChannelStatus channel (po_enabled p) (po_revoked p) (0 <? po_optout p) (po_hold p)
            (milli_time (po_consented p)) (milli_time (po_clock p)) (po_messages p) (po_segments p) used.1 used.2
            unknown (po_pruned p))
  end.
