(* ===== verification/OutboxAdmin.v ===== *)
(** * Targets, silences, expiry and the queries of the outbox

    [internal/store/notification_targets.go], [silences.go], and what
    [queue.go] and [store.go] read and expire. *)

From S2P Require Export OfficialDispatch.

(** Failure of the ledger inside a transaction. *)
Definition ledgered {A} (r : result retention_error A) : result outbox_error A :=
  match r with Ok a => Ok a | Err e => Err (OutboxRetention e) end.

(** ** Targets *)

Definition unknown_target (channel destination : string) : bool := destination =?s (channel ++ ":unknown").

Definition isolate (ms : Z) (x : delivery_columns) : delivery_columns :=
  mkDelivery (dl_attempts x) (dl_next x) "notification target or privacy policy changed; retained in isolation"
    (dl_sent x) (dl_quarantined x) (dl_suppressed x) (Some ms) None.

Definition ConfigureNotificationTarget (channel destination privacy : string) (enabled : bool) (now : time) (d : OutboxDB)
    : tx unit :=
  fail_if negb (notificationChannel channel) || negb (ValidID destination)
    || negb (validNotificationTarget channel destination) || is_zero now
    || negb (one_of ["full"; "prefix"; "hash"] privacy) with OutboxInvalid;;
  let ms := unix_milli now in
  let previous := default (mkTarget "" "" false 0) (od_targets d !! channel) in
  let isolate_privacy := negb (tg_privacy previous =?s "") && negb (tg_privacy previous =?s privacy)
                         && negb (privacy =?s "full") in
  let d := with_rows (update_where
    (fun _ r => (row_channel r =?s channel) && waiting r && is_null (dl_isolated (or_delivery r))
                && (negb (oi_destination (or_identity r) =?s destination) || isolate_privacy))
    (fun _ => set_delivery (isolate ms)) (od_rows d)) d in
  let enabled := enabled && negb (unknown_target channel destination) in
  let activated :=
    if negb (channel =?s "telegram") && negb (channel =?s "webhook")
       && (negb (tg_destination previous =?s destination)
           || enabled && (negb (tg_enabled previous) || (tg_activated previous =? 0)))
    then ms else tg_activated previous in
  Ok (with_targets (<[channel := mkTarget destination privacy enabled activated]> (od_targets d)) d, tt).

Definition NotificationTargetActivatedAt (channel destination : string) (d : OutboxDB) : result outbox_error time :=
  fail_if negb (notificationChannel channel) || negb (validNotificationTarget channel destination) with OutboxInvalid;;
  match od_targets d !! channel with
  | Some t =>
      if tg_destination t =?s destination
      then Ok (if tg_activated t =? 0 then time_zero else of_unix_milli (tg_activated t))
      else Err OutboxNoRow
  | None => Err OutboxNoRow
  end.

Definition erase_frozen (x : DispatchRow) : DispatchRow :=
  let i := dp_intent x in
  mkDispatch (mkIntent (in_kind i) "" (in_segments i) (in_encoding i) (in_retry_key i)) (dp_attempt x) (dp_receipt x)
    (dp_polls x).

Definition suppress_body (ms : Z) (error : string -> string) (r : OutboxRow) : OutboxRow :=
  let x := or_delivery r in
  mkOutboxRow (or_identity r) "" (or_merging r)
    (mkDelivery (dl_attempts x) (dl_next x) (error (dl_error x)) (dl_sent x) (dl_quarantined x) (Some ms)
       (dl_isolated x) (dl_lease x)).

(** The bodies and frozen requests of the rows that satisfy [P] are erased. *)
Definition erase_rows (P : string -> OutboxRow -> bool) (ms : Z) (error : string -> string) (d : OutboxDB) : OutboxDB :=
  let d := with_dispatch (update_where (fun id _ => outbox_is id (P id) d) (fun _ => erase_frozen) (od_dispatch d)) d in
  with_rows (update_where P (fun _ => suppress_body ms error) (od_rows d)) d.

Definition count_rows (P : string -> OutboxRow -> bool) (d : OutboxDB) : Z :=
  map_sum (fun id r => if P id r then 1 else 0) (od_rows d).

Definition discardable (channel : string) (_ : string) (r : OutboxRow) : bool :=
  (row_channel r =?s channel) && negb (is_null (dl_isolated (or_delivery r))) && waiting r.

Definition DiscardIsolatedNotifications (channel : string) (now : time) (d : OutboxDB) : tx Z :=
  fail_if negb (notificationChannel channel) || is_zero now with OutboxInvalid;;
  Ok (erase_rows (discardable channel) (unix_milli now) (fun _ => "isolated notification explicitly discarded"%string) d,
      count_rows (discardable channel) d).

(** ** Expiry *)

(** Rows leave with what refers to them. *)
Definition remove_rows (P : string -> OutboxRow -> bool) (d : OutboxDB) : OutboxDB :=
  let d := with_dispatch (filter (fun kv => outbox_is kv.1 (P kv.1) d <> true) (od_dispatch d)) d in
  with_rows (filter (fun kv => P kv.1 kv.2 <> true) (od_rows d)) d.

Definition row_times (l : list (string * OutboxRow)) : list (Z * Z) :=
  (fun kv => (oi_created (or_identity kv.2), oi_created (or_identity kv.2))) <$> l.

(** [pruneRows] of outbox rows. *)
Definition prune_outbox (reason : string) (P : string -> OutboxRow -> bool) (now : time) (d : OutboxDB)
    : result outbox_error OutboxDB :=
  let gone := List.filter (uncurry P) (map_to_list (od_rows d)) in
  let? (_, ledger) := ledgered (pruneRows "notification_outbox" reason (row_times gone) now (od_retention d)) in
  Ok (with_retention ledger (remove_rows P d)).

Definition expired_row (ms : Z) (_ : string) (r : OutboxRow) : bool := unsent r && (oi_expires (or_identity r) <=? ms).

Definition count_expired (n : Z) (c : queue_counters) : queue_counters :=
  mkCounters (ct_rejected c) (Z.min (ct_expired c) (i64_max - n) + n) (ct_last_sent c).

Definition ExpireNotifications (now : time) (d : OutboxDB) : result outbox_error OutboxDB :=
  let ms := unix_milli now in
  let d := expireOfficialPolls now (recoverOfficialIntents now d) in
  let d := with_counters (count_expired (count_rows (expired_row ms) d) (od_counters d)) d in
  let? d := prune_outbox "time_expiry" (expired_row ms) now d in
  Ok (with_cooldowns (filter (fun kv => ms < kv.2) (od_cooldowns d)) d).

Section Enqueue.
Context (parse_json : string -> option json).

(** [Enqueue]: two transactions, the first of which stays when the second fails. *)
Definition Enqueue (now : time) (w : draws) (m : OutboxMessage) (d : OutboxDB) : OutboxDB * result outbox_error admission :=
  match ExpireNotifications now d with
  | Err e => (d, Err e)
  | Ok d =>
      match enqueue parse_json w m d with
      | Ok (d, a) => (d, Ok a)
      | Err e => (d, Err e)
      end
  end.
End Enqueue.

(** ** Rows ready for delivery *)

Definition ready (destination : string) (ms : Z) (d : OutboxDB) (id : string) (r : OutboxRow) : bool :=
  claimable id ms r d && ((destination =?s "") || (oi_destination (or_identity r) =?s destination)).

Definition pending_order : Z * (Z * string) -> Z * (Z * string) -> bool := lex Z.ltb (lex Z.ltb string_lt).

Definition listed_message (d : OutboxDB) (id : string) : option OutboxMessage :=
  match od_rows d !! id, od_dispatch d !! id with
  | Some r, Some x => Some (official_message id r x)
  | Some r, None => Some (row_message id r (of_unix_milli (oi_expires (or_identity r))))
  | None, _ => None
  end.

(** The rows that the query lists. *)
Definition list_pending (now : time) (count : Z) (destination : string) (d : OutboxDB) : list OutboxMessage :=
  let count := if (count <? 1) || (100 <? count) then 20 else count in
  let rows := List.filter (uncurry (ready destination (unix_milli now) d)) (map_to_list (od_rows d)) in
  let ordered := sort_by pending_order
    ((fun kv => (dl_next (or_delivery kv.2), (oi_created (or_identity kv.2), kv.1))) <$> rows) in
  omap (listed_message d) (take (Z.to_nat count) ((fun k => k.2.2) <$> ordered)).

Definition pendingDestination (now : time) (count : Z) (destination : string) (d : OutboxDB)
    : OutboxDB * result outbox_error (list OutboxMessage) :=
  match ExpireNotifications now d with
  | Err e => (d, Err e)
  | Ok d => (d, Ok (list_pending now count destination d))
  end.

Definition PendingDestination (now : time) (count : Z) (destination : string) (d : OutboxDB)
    : OutboxDB * result outbox_error (list OutboxMessage) :=
  if valid_destination destination then pendingDestination now count destination d else (d, Err OutboxInvalid).

(** ** Silences *)

Definition MaxSilences : Z := 128.

Record Silence := mkSilence { sl_incident : string; sl_kind : string; sl_reason : string; sl_expires : time }.

Definition millisecond_floor (t : time) : time := t - t mod millisecond.

Definition valid_silence (s : Silence) (now : time) : bool :=
  negb ((sl_incident s =?s "") && (sl_kind s =?s ""))
  && ((sl_incident s =?s "") || ValidID (sl_incident s)) && ((sl_kind s =?s "") || ValidID (sl_kind s))
  && (string_len (sl_reason s) <=? 256) && valid_utf8 0 (bytes_of_string (sl_reason s))
  && negb (string_exists (fun b => (b <? 32) || (b =? 127)) (sl_reason s))
  && negb (is_zero now) && after (sl_expires s) now && (time_sub (sl_expires s) now <=? 7 * 24 * hour).

(** [silenceMessageMatch]; [event_of] finds the event of a legacy row by its id. *)
Definition legacy_event (event_of : string -> option Event) (key : string) : option Event :=
  match strip_prefix "event:" key with
  | Some rest =>
      let n := (String.length rest - 9)%nat in
      if substring n 9 rest =?s ":telegram" then event_of (substring 0 n rest) else None
  | None => None
  end.
Definition rule_matches (s : Silence) (incident kind : string) : bool :=
  ((sl_incident s =?s "") || (incident =?s sl_incident s)) && ((sl_kind s =?s "") || (kind =?s sl_kind s)).
Definition silenced_row (event_of : string -> option Event) (s : Silence) (ms : Z) (_ : string) (r : OutboxRow) : bool :=
  waiting r && unexpired ms r
  && (notificationChannel (row_channel r) || (oi_destination (or_identity r) =?s "telegram"))
  && (if negb (mg_kind (or_merging r) =?s "") then rule_matches s (mg_incident (or_merging r)) (mg_kind (or_merging r))
      else match legacy_event event_of (oi_dedupe (or_identity r)) with
           | Some e => rule_matches s (ev_incident e) (ev_kind e)
           | None => false
           end).

(** [pruneRows] of silences. *)
Definition prune_silences (reason : string) (P : SilenceRow -> bool) (now : time) (d : OutboxDB)
    : result outbox_error OutboxDB :=
  let times := (fun s => (si_created s, si_expires s)) <$> List.filter P (od_silences d) in
  let? (_, ledger) := ledgered (pruneRows "notification_silences" reason times now (od_retention d)) in
  Ok (with_retention ledger (with_silences (List.filter (fun s => negb (P s)) (od_silences d)) d)).

Definition min_created (l : list (Z * Z)) : Z * Z := let '(_, start, stop) := extent l in (start, stop).

(** Body-free suppressed rows beyond the outbox capacity, the leased and the newest kept. *)
Definition suppressed_row (r : OutboxRow) : bool := unsent r && negb (is_null (dl_suppressed (or_delivery r))).
Definition newer_suppressed : (Z * Z) * string -> (Z * Z) * string -> bool :=
  fun a b => lex Z.ltb (lex gtb (fun s t => string_lt t s)) (a.1.1, (a.1.2, a.2)) (b.1.1, (b.1.2, b.2)).
Definition kept_suppressed (ms : Z) (d : OutboxDB) : gset string :=
  let rows := List.filter (fun kv => suppressed_row kv.2) (map_to_list (od_rows d)) in
  let keys := (fun kv => ((if leased ms kv.2 then 0 else 1, default 0 (dl_suppressed (or_delivery kv.2))), kv.1)) <$> rows in
  list_to_set (take (Z.to_nat maxPendingOutboxMessages) (snd <$> sort_by newer_suppressed keys)).
Definition excess_suppressed (ms : Z) (kept : gset string) (id : string) (r : OutboxRow) : bool :=
  suppressed_row r && unleased ms r && negb (bool_decide (id ∈ kept)).

(** The decisions of the silenced rows. *)
Definition silence_decisions (rule : string) (P : string -> OutboxRow -> bool) (d : OutboxDB) : OutboxDB :=
  with_decisions ((fun x => if outbox_is (de_message x) (P (de_message x)) d
                            then mkDecision (de_message x) Silenced rule (de_at x) else x) <$> od_decisions d) d.

Definition AddSilence (event_of : string -> option Event) (id : string) (s : Silence) (now : time) (d : OutboxDB)
    : tx (Z * Z) :=
  fail_if negb (valid_silence s now) with OutboxInvalid;;
  let created := millisecond_floor now in
  let expires := millisecond_floor (sl_expires s) in
  fail_if negb (after expires created) with OutboxInvalid;;
  let ms := unix_milli now in
  let? d := prune_silences "time_expiry" (fun r => si_expires r <=? ms) now d in
  let? d := prune_silences "capacity_eviction" (fun r => negb (is_null (si_revoked r))) now d in
  fail_if MaxSilences <=? lenZ (od_silences d) with OutboxRefused;;
  let row := mkSilenceRow id (sl_incident s) (sl_kind s) (unix_milli created) (unix_milli expires) None in
  let d := with_silences (od_silences d ++ [row]) d in
  let P := silenced_row event_of s ms in
  let suppressed := count_rows P d in
  let in_flight := count_rows (fun id r => P id r && leased ms r) d in
  let '(first, last) := min_created (row_times (List.filter (uncurry P) (map_to_list (od_rows d)))) in
  let? ledger := if 0 <? suppressed
                 then ledgered (recordRetention "notification_outbox" "silence_body_discard" suppressed first last now
                                  (od_retention d))
                 else Ok (od_retention d) in
  let d := erase_rows P ms (fun error => error) (silence_decisions id P (with_retention ledger d)) in
  let? d := prune_outbox "capacity_eviction" (excess_suppressed ms (kept_suppressed ms d)) now d in
  Ok (d, (suppressed, in_flight)).

Definition RemoveSilence (id : string) (now : time) (d : OutboxDB) : tx unit :=
  fail_if negb (ValidID id) with OutboxInvalid;;
  if existsb (fun r => si_id r =?s id) (od_silences d)
  then Ok (with_silences ((fun r =>
             if si_id r =?s id
             then mkSilenceRow (si_id r) (si_incident r) (si_kind r) (si_created r) (si_expires r)
                    (coalesce (si_revoked r) (Some (unix_milli now))) else r) <$> od_silences d) d, tt)
  else Err OutboxNoRow.
