(* ===== verification/DispatchOnce.v ===== *)
(** * No request is repeated unless the platform refused it

    The operations of the outbox as one step function, the requests they let out and
    the answers they record, and the theorem on their order: a platform sees a message
    again only after it has refused it, or, on LINE, within the window in which the
    retry key makes a repetition harmless. *)

From S2P Require Export OutboxAdmin.

(** ** Steps *)

(** [OpRestore] marks an up-to-date copy of the database; [DispatchBudget] restores
    older ones. *)
Inductive outbox_op :=
| OpEnqueue (w : draws) (m : OutboxMessage)
| OpRecord (ws : nat -> draws) (e : Event) (m : option OutboxMessage) (now : time) (window : duration)
| OpClaim (id : string) (now : time)
| OpRelease (id : string)
| OpReserve (id destination : string) (now : time) (minimum : duration)
| OpRateLimited (id destination : string) (until : time) (reason : string) (clock : time)
| OpFailed (id : string) (next : time) (reason : string) (clock : time)
| OpSent (id : string) (now : time) (minimum : duration)
| OpQuarantine (id : string) (now : time) (reason : string) (attempted : bool)
| OpRetry (id : string) (now : time)
| OpResume (destination : string) (clock : time)
| OpExpire (now : time)
| OpTarget (channel destination privacy : string) (enabled : bool) (now : time)
| OpDiscard (channel : string) (now : time)
| OpSilence (id : string) (s : Silence) (now : time)
| OpUnsilence (id : string) (now : time)
| OpPolicy (channel : string) (p : OfficialChannelPolicy) (now : time)
| OpBegin (id destination : string) (now : time) (minimum : duration)
| OpResolve (id : string) (now : time) (res : OfficialDispatchResolution)
| OpPolls (destination : string) (now : time) (count : Z)
| OpClaimPoll (id destination : string) (now : time)
| OpResolvePoll (id : string) (now : time) (res : OfficialPollResolution)
| OpReconcile (channel reference : string) (now : time)
| OpRestore (clock : time).

(** A refused transaction is rolled back. *)
Definition committed {A} (d : OutboxDB) (r : tx A) : OutboxDB := match r with Ok (d', _) => d' | Err _ => d end.
Definition kept_or (d : OutboxDB) (r : result outbox_error OutboxDB) : OutboxDB :=
  match r with Ok d' => d' | Err _ => d end.

Section Steps.
Context (parse_json : string -> option json) (event_of : string -> option Event).

Definition outbox_step (d : OutboxDB) (op : outbox_op) : OutboxDB :=
  match op with
  | OpEnqueue w m => committed d (enqueue parse_json w m d)
  | OpRecord ws e m now window => kept_or d (recordEventNotification parse_json ws e m now window d)
  | OpClaim id now => committed d (ClaimNotification id now d)
  | OpRelease id => ReleaseNotificationClaim id d
  | OpReserve id dst now minimum => committed d (ReserveNotificationAttempt id dst now minimum d)
  | OpRateLimited id dst until reason clock => committed d (MarkRateLimited id dst until reason clock d)
  | OpFailed id next reason clock => MarkFailed id next reason clock d
  | OpSent id now minimum => committed d (MarkSentWithCooldown id now minimum d)
  | OpQuarantine id now reason attempted => committed d (quarantine id now reason attempted d)
  | OpRetry id now => committed d (RetryNotification id now d)
  | OpResume dst clock => committed d (ResumeDestination dst clock d)
  | OpExpire now => kept_or d (ExpireNotifications now d)
  | OpTarget channel dst privacy enabled now => committed d (ConfigureNotificationTarget channel dst privacy enabled now d)
  | OpDiscard channel now => committed d (DiscardIsolatedNotifications channel now d)
  | OpSilence id s now => committed d (AddSilence event_of id s now d)
  | OpUnsilence id now => committed d (RemoveSilence id now d)
  | OpPolicy channel p now => committed d (ConfigureOfficialPolicy channel p now d)
  | OpBegin id dst now minimum => committed d (BeginOfficialDispatch id dst now minimum d)
  | OpResolve id now res => committed d (ResolveOfficialDispatch id now res d)
  | OpPolls dst now count => committed d (PendingOfficialPolls dst now count d)
  | OpClaimPoll id dst now => committed d (ClaimOfficialPoll id dst now d)
  | OpResolvePoll id now res => committed d (ResolveOfficialPoll id now res d)
  | OpReconcile channel reference now => committed d (ReconcileOfficialPaidChannel channel reference now d)
  | OpRestore clock => markRestoredOfficialHold clock d
  end.

(** ** What the platforms see and answer *)

Inductive dispatch_event :=
| Posted (n : Z) (at' : time) (key : string)
| Resolved (n : Z) (o : outcome).

Definition events_of (d : OutboxDB) (op : outbox_op) (id : string) : list dispatch_event :=
  match op with
  | OpBegin id' dst now minimum =>
      match BeginOfficialDispatch id' dst now minimum d with
      | Ok (_, Some m) =>
          if id' =?s id then [Posted (rb_dispatch_attempt (om_read m)) now (rb_retry_key (om_read m))] else []
      | _ => []
      end
  | OpResolve id' now res =>
      match ResolveOfficialDispatch id' now res d with
      | Ok _ => if id' =?s id then [Resolved (rs_attempt res) (rs_outcome res)] else []
      | Err _ => []
      end
  | _ => []
  end.

(** The history of every message that is in the outbox. *)
Definition history := string -> list dispatch_event.
Definition history_step (s : OutboxDB * history) (op : outbox_op) : OutboxDB * history :=
  let d := outbox_step s.1 op in
  (d, fun id => if od_dispatch d !! id is Some _ then s.2 id ++ events_of s.1 op id else []).
Definition outbox_run (ops : list outbox_op) : OutboxDB * history :=
  foldl history_step (empty_outbox, fun _ => []) ops.

(** ** Statements and lookups *)

Lemma lookup_update_one {V} id (P : V -> bool) f (m : gmap string V) id' :
  (update_one id P f m).1 !! id' = (fun v => if bool_decide (id' = id) && P v then f v else v) <$> m !! id'.
Proof.
  unfold update_one. destruct (decide (id' = id)) as [->|Hne].
  - rewrite bool_decide_eq_true_2 by done. destruct (m !! id) as [v|] eqn:Ev; simpl; [|by rewrite Ev].
    destruct (P v); simpl; by rewrite ?lookup_insert_eq, ?Ev.
  - rewrite bool_decide_eq_false_2 by done. destruct (m !! id) as [v|]; [destruct (P v)|]; simpl;
      rewrite ?lookup_insert_ne by done; by destruct (m !! id').
Qed.

Lemma lookup_update_where {V} P f (m : gmap string V) id :
  update_where P f m !! id = (fun v => if P id v then f id v else v) <$> m !! id.
Proof. unfold update_where. rewrite map_lookup_imap. by destruct (m !! id). Qed.

(** ** What an operation may do to the rows *)

Definition closed (s : dispatch_state) : Prop := s = Accepted \/ s = DeliveryUnknown \/ s = Blocked.

(** The attempt of a row that no request or answer touched. *)
Record moved (line : Prop) (x y : DispatchRow) : Prop := {
  mv_key : in_retry_key (dp_intent y) = in_retry_key (dp_intent x);
  mv_segments : in_segments (dp_intent y) = in_segments (dp_intent x);
  mv_first : at_first (dp_attempt y) = at_first (dp_attempt x);
  mv_count : at_count (dp_attempt y) = at_count (dp_attempt x);
  mv_day : at_budget_day (dp_attempt y) = at_budget_day (dp_attempt x);
  mv_state : at_state (dp_attempt y) = at_state (dp_attempt x)
             \/ closed (at_state (dp_attempt y))
             \/ line /\ at_state (dp_attempt x) = InFlight /\ at_state (dp_attempt y) = RetryReady }.

Definition line_row (d : OutboxDB) (id : string) : Prop := exists r, od_rows d !! id = Some r /\ row_channel r = "line"%string.

(** Rows and dispatches may leave but none arrives, and their identity stays. *)
Record calm (d d' : OutboxDB) : Prop := {
  cm_rows : forall id r', od_rows d' !! id = Some r' ->
    exists r, od_rows d !! id = Some r /\ or_identity r' = or_identity r;
  cm_dispatch : forall id y, od_dispatch d' !! id = Some y ->
    exists x, od_dispatch d !! id = Some x /\ moved (line_row d id) x y;
  cm_linked : forall id, is_Some (od_dispatch d' !! id) -> is_Some (od_rows d !! id) -> is_Some (od_rows d' !! id) }.

Lemma moved_refl line x : moved line x x.
Proof. split; auto. Qed.

Lemma moved_weaken (p q : Prop) x y : (p -> q) -> moved p x y -> moved q x y.
Proof. intros Hpq [?????[?|[?|(?&?&?)]]]; split; auto. Qed.

Lemma moved_trans line x y z : moved line x y -> moved line y z -> moved line x z.
Proof.
  intros [K1 G1 F1 C1 D1 S1] [K2 G2 F2 C2 D2 S2]; split; [congruence..|].
  destruct S2 as [->|[S2|(Hl & Ei & Er)]]; [exact S1|by auto|].
  destruct S1 as [S1|[[S1|[S1|S1]]|(_ & _ & S1)]]; [right; right; split_and!; congruence|congruence..].
Qed.

Lemma calm_same d d' : od_rows d' = od_rows d -> od_dispatch d' = od_dispatch d -> calm d d'.
Proof.
  intros Hr Hx. split; intros id; rewrite ?Hr, ?Hx; [by eauto|by eauto using moved_refl|done].
Qed.

Lemma calm_refl d : calm d d.
Proof. by apply calm_same. Qed.

Lemma line_row_back d d' id : calm d d' -> line_row d' id -> line_row d id.
Proof.
  intros Hc (r' & Hr' & Hl). destruct (cm_rows _ _ Hc _ _ Hr') as (r & Hr & Hid).
  exists r. unfold row_channel in *. split; [done|]. by rewrite <- Hid.
Qed.

Lemma calm_trans d1 d2 d3 : calm d1 d2 -> calm d2 d3 -> calm d1 d3.
Proof.
  intros H12 H23. split.
  - intros id r3 H3. destruct (cm_rows _ _ H23 _ _ H3) as (r2 & H2 & E2).
    destruct (cm_rows _ _ H12 _ _ H2) as (r1 & H1 & E1). exists r1. split; congruence.
  - intros id z Hz. destruct (cm_dispatch _ _ H23 _ _ Hz) as (y & Hy & My).
    destruct (cm_dispatch _ _ H12 _ _ Hy) as (x & Hx & Mx). exists x. split; [done|].
    eapply moved_trans; [exact Mx|]. eapply moved_weaken; [|exact My]. by apply line_row_back.
  - intros id [z Hz] H1. apply (cm_linked _ _ H23); [by eauto|].
    destruct (cm_dispatch _ _ H23 _ _ Hz) as (y & Hy & _). apply (cm_linked _ _ H12); eauto.
Qed.

(** An update of the rows that keeps what identifies them. *)
Lemma calm_rows (g : string -> OutboxRow -> OutboxRow) rows d :
  (forall id, rows !! id = g id <$> od_rows d !! id) -> (forall id r, or_identity (g id r) = or_identity r) ->
  calm d (with_rows rows d).
Proof.
  intros Hl Hg. split; simpl.
  - intros id r'. rewrite Hl. destruct (od_rows d !! id) as [r|]; simpl; [|done]. intros [= <-]. eauto.
  - eauto using moved_refl.
  - intros id _ [r Hr]. rewrite Hl, Hr. by eexists.
Qed.

Lemma calm_rows_one id P f d :
  (forall r, or_identity (f r) = or_identity r) -> calm d (with_rows (update_one id P f (od_rows d)).1 d).
Proof.
  intros Hf. apply (calm_rows (fun id' r => if bool_decide (id' = id) && P r then f r else r)).
  - intros. apply lookup_update_one.
  - intros. by case_if.
Qed.

Lemma calm_rows_where P f d :
  (forall id r, or_identity (f id r) = or_identity r) -> calm d (with_rows (update_where P f (od_rows d)) d).
Proof.
  intros Hf. apply (calm_rows (fun id r => if P id r then f id r else r)).
  - intros. apply lookup_update_where.
  - intros. by case_if.
Qed.

(** An update of the dispatches that no request or answer asks for. *)
Lemma calm_dispatch (g : string -> DispatchRow -> DispatchRow) rows d :
  (forall id, rows !! id = g id <$> od_dispatch d !! id) -> (forall id x, moved (line_row d id) x (g id x)) ->
  calm d (with_dispatch rows d).
Proof.
  intros Hl Hg. split; simpl; [by eauto| |done].
  intros id y. rewrite Hl. destruct (od_dispatch d !! id) as [x|]; simpl; [|done]. intros [= <-]. eauto.
Qed.

Lemma calm_dispatch_one id P f d :
  (forall x, P x = true -> moved (line_row d id) x (f x)) ->
  calm d (with_dispatch (update_one id P f (od_dispatch d)).1 d).
Proof.
  intros Hf. apply (calm_dispatch (fun id' x => if bool_decide (id' = id) && P x then f x else x)).
  - intros. apply lookup_update_one.
  - intros id' x. destruct (bool_decide (id' = id)) eqn:E; [|apply moved_refl].
    bool_to_prop. subst. destruct (P x) eqn:Ep; simpl; auto using moved_refl.
Qed.

Lemma calm_dispatch_where P f d :
  (forall id x, P id x = true -> moved (line_row d id) x (f id x)) ->
  calm d (with_dispatch (update_where P f (od_dispatch d)) d).
Proof.
  intros Hf. apply (calm_dispatch (fun id x => if P id x then f id x else x)).
  - intros. apply lookup_update_where.
  - intros id x. destruct (P id x) eqn:Ep; auto using moved_refl.
Qed.

Lemma calm_remove P d : calm d (remove_rows P d).
Proof.
  split; simpl.
  - intros id r [Hr _]%map_lookup_filter_Some. eauto.
  - intros id y [Hy _]%map_lookup_filter_Some. eauto using moved_refl.
  - intros id [y Hy] [r Hr]. apply map_lookup_filter_Some in Hy as [_ Hp]. simpl in Hp.
    unfold outbox_is in Hp. rewrite Hr in Hp. exists r. by apply map_lookup_filter_Some.
Qed.

(** [in_state] and the other setters leave the attempt's numbers. *)
Lemma moved_closed line s reason x : closed s -> moved line x (set_attempt (in_state s reason) x).
Proof. intros Hs. split; simpl; auto. Qed.

Lemma moved_attempt line x y : dp_attempt y = dp_attempt x ->
  in_retry_key (dp_intent y) = in_retry_key (dp_intent x) -> in_segments (dp_intent y) = in_segments (dp_intent x) ->
  moved line x y.
Proof. intros Ha Hk Hs. split; rewrite ?Ha; auto. Qed.

(** Rows arrive and the others stay. *)
Definition fresh_dispatch (y : DispatchRow) : Prop :=
  (at_state (dp_attempt y) = Prepared \/ at_state (dp_attempt y) = Blocked)
  /\ at_count (dp_attempt y) = 0 /\ at_first (dp_attempt y) = 0 /\ at_budget_day (dp_attempt y) = -1.
Definition official_row (d : OutboxDB) (id : string) : Prop :=
  exists r, od_rows d !! id = Some r /\ officialChannel (row_channel r) = true.

Record grown (d d' : OutboxDB) : Prop := {
  gr_rows : forall id r, od_rows d !! id = Some r ->
    exists r', od_rows d' !! id = Some r' /\ or_identity r' = or_identity r;
  gr_kept : forall id x, od_dispatch d !! id = Some x -> od_dispatch d' !! id = Some x;
  gr_fresh : forall id y, od_dispatch d' !! id = Some y -> od_dispatch d !! id = Some y \/
    od_rows d !! id = None /\ fresh_dispatch y /\ official_row d' id }.

Lemma official_kept d d' id : grown d d' -> official_row d id -> official_row d' id.
Proof.
  intros Hg (r & Hr & Ho). destruct (gr_rows _ _ Hg _ _ Hr) as (r' & Hr' & E). exists r'.
  split; [done|]. unfold row_channel in *. by rewrite E.
Qed.

Lemma grown_same d d' :
  od_dispatch d' = od_dispatch d ->
  (forall id r, od_rows d !! id = Some r -> exists r', od_rows d' !! id = Some r' /\ or_identity r' = or_identity r) ->
  grown d d'.
Proof. intros Hx Hr. split; rewrite ?Hx; auto. Qed.

Lemma grown_refl d : grown d d.
Proof. apply grown_same; eauto. Qed.

Lemma grown_trans d1 d2 d3 : grown d1 d2 -> grown d2 d3 -> grown d1 d3.
Proof.
  intros H12 H23. split.
  - intros id r1 H1. destruct (gr_rows _ _ H12 _ _ H1) as (r2 & H2 & E2).
    destruct (gr_rows _ _ H23 _ _ H2) as (r3 & H3 & E3). exists r3. split; congruence.
  - intros id x Hx. by apply (gr_kept _ _ H23), (gr_kept _ _ H12).
  - intros id y Hy. destruct (gr_fresh _ _ H23 _ _ Hy) as [Hy2|(Hn & Hf & Ho)].
    + destruct (gr_fresh _ _ H12 _ _ Hy2) as [Hy1|(Hn & Hf & Ho)]; [by auto|].
      right. eauto using official_kept.
    + right. split; [|done]. destruct (od_rows d1 !! id) as [r|] eqn:E; [|done].
      destruct (gr_rows _ _ H12 _ _ E) as (r2 & H2 & _). congruence.
Qed.

(** ** Safe histories *)

Definition post_of (e : dispatch_event) : option time := match e with Posted _ t _ => Some t | _ => None end.
Definition posts (h : list dispatch_event) : list time := omap post_of h.
Definition accepted_in (h : list dispatch_event) : Prop := exists n, Resolved n OutcomeAccepted ∈ h.

(** What lets the [n]th request out at [t] after the history [h]. *)
Definition may_post (line : Prop) (h : list dispatch_event) (n : Z) (t : time) : Prop :=
  h = [] \/ last h = Some (Resolved (n - 1) OutcomeNotAccepted)
  \/ line /\ forall t0, head (posts h) = Some t0 -> time_sub t (of_unix_milli (unix_milli t0)) < OfficialLINEWindow.

Inductive safe (line : Prop) (key : string) : list dispatch_event -> Prop :=
| safe_nil : safe line key []
| safe_answer h n o : safe line key h -> safe line key (h ++ [Resolved n o])
| safe_request h n t : safe line key h -> n = lenZ (posts h) + 1 -> ~ accepted_in h -> may_post line h n t ->
    safe line key (h ++ [Posted n t key]).

(** The attempt of a row agrees with its history. *)
Definition state_agrees (line : Prop) (a : attempt) (h : list dispatch_event) : Prop :=
  match at_state a with
  | Prepared => h = []
  | InFlight => ~ accepted_in h
  | RetryReady => ~ accepted_in h /\ (last h = Some (Resolved (at_count a) OutcomeNotAccepted) \/ line)
  | _ => True
  end.
Definition first_agrees (a : attempt) (h : list dispatch_event) : Prop :=
  match head (posts h) with Some t => at_first a = unix_milli t /\ 0 < at_first a | None => at_first a = 0 end.

Record life (line : Prop) (x : DispatchRow) (h : list dispatch_event) : Prop := {
  lf_safe : safe line (in_retry_key (dp_intent x)) h;
  lf_count : at_count (dp_attempt x) = lenZ (posts h);
  lf_first : first_agrees (dp_attempt x) h;
  lf_state : state_agrees line (dp_attempt x) h }.

Definition lives (d : OutboxDB) (h : history) : Prop :=
  forall id, match od_dispatch d !! id with
             | Some x => official_row d id /\ life (line_row d id) x (h id)
             | None => h id = []
             end.

Lemma may_post_mono (p q : Prop) h n t : (p -> q) -> may_post p h n t -> may_post q h n t.
Proof. intros Hpq [?|[?|[? ?]]]; unfold may_post; auto. Qed.

Lemma safe_mono (p q : Prop) key h : (p -> q) -> safe p key h -> safe q key h.
Proof. intros Hpq. induction 1; constructor; eauto using may_post_mono. Qed.

Lemma life_moved (p q : Prop) x y h : (p -> q) -> life p x h -> moved p x y -> life q y h.
Proof.
  intros Hpq [Hs Hc Hf Ha] [K G F C D S]. split; unfold first_agrees in *; rewrite ?K, ?C, ?F; auto.
  - eauto using safe_mono.
  - unfold state_agrees in *. rewrite C. destruct S as [->|[[->|[->| ->]]|(Hl & Ei & ->)]]; [|done..|].
    + destruct (at_state (dp_attempt x)); intuition.
    + rewrite Ei in Ha. auto.
Qed.

Lemma line_row_kept d d' id r r' :
  od_rows d !! id = Some r -> od_rows d' !! id = Some r' -> or_identity r' = or_identity r ->
  line_row d id -> line_row d' id.
Proof.
  intros Hr Hr' E (r0 & H0 & Hl). rewrite Hr in H0. injection H0 as <-. exists r'.
  unfold row_channel in *. by rewrite E.
Qed.

Definition kept_history (d : OutboxDB) (h : history) : history :=
  fun id => if od_dispatch d !! id is Some _ then h id else [].

Lemma lives_calm d d' h : lives d h -> calm d d' -> lives d' (kept_history d' h).
Proof.
  intros Hi Hc id. unfold kept_history. destruct (od_dispatch d' !! id) as [y|] eqn:Hy; [|done].
  destruct (cm_dispatch _ _ Hc _ _ Hy) as (x & Hx & Hm). specialize (Hi id). rewrite Hx in Hi.
  destruct Hi as ((r & Hr & Ho) & Hl).
  destruct (cm_linked _ _ Hc id) as [r' Hr']; [by eauto..|].
  destruct (cm_rows _ _ Hc _ _ Hr') as (r0 & H0 & E). rewrite Hr in H0. injection H0 as <-.
  split; [exists r'; unfold row_channel in *; by rewrite E|].
  eapply life_moved; [|exact Hl|exact Hm]. by apply (line_row_kept d d' id r r').
Qed.

Lemma life_fresh line y : fresh_dispatch y -> life line y [].
Proof.
  intros (Hs & Hc & Hf & _). split; [constructor|done|done|].
  unfold state_agrees. by destruct Hs as [-> | ->].
Qed.

Lemma lives_grown d d' h : lives d h -> grown d d' -> lives d' (kept_history d' h).
Proof.
  intros Hi Hg id. unfold kept_history. destruct (od_dispatch d' !! id) as [y|] eqn:Hy; [|done].
  specialize (Hi id). destruct (gr_fresh _ _ Hg _ _ Hy) as [Hx|(Hn & Hf & Ho)].
  - rewrite Hx in Hi. destruct Hi as (Ho & Hl). split; [by eapply official_kept|].
    destruct Ho as (r & Hr & _). destruct (gr_rows _ _ Hg _ _ Hr) as (r' & Hr' & E).
    eapply life_moved; [|exact Hl|apply moved_refl]. by apply (line_row_kept d d' id r r').
  - split; [done|]. destruct (od_dispatch d !! id) as [x|] eqn:Hx.
    + destruct Hi as ((r & Hr & _) & _). congruence.
    + rewrite Hi. by apply life_fresh.
Qed.

(** ** Operations that let nothing out *)

Lemma calm_hold dst until d : calm d (hold dst until d).
Proof. by apply calm_same. Qed.
Lemma calm_note_sent ms d : calm d (note_sent ms d).
Proof. by apply calm_same. Qed.
Lemma calm_set_policy c f d : calm d (set_policy c f d).
Proof. by apply calm_same. Qed.
Lemma calm_suppress c reason ms d : calm d (suppress_channel c reason ms d).
Proof. by apply calm_rows_where. Qed.
Lemma calm_update_dispatch id f d :
  (forall x, dp_attempt (f x) = dp_attempt x) -> (forall x, dp_intent (f x) = dp_intent x) ->
  calm d (update_dispatch id f d).
Proof. intros Ha Hi. apply calm_dispatch_one. intros x _. apply moved_attempt; by rewrite ?Ha, ?Hi. Qed.
Lemma calm_set_codes id http api d : calm d (set_codes id http api d).
Proof. by apply calm_update_dispatch. Qed.
Lemma calm_charge id segments price unit d : calm d (savePlatformCharge id segments price unit d).
Proof. by apply calm_update_dispatch. Qed.
Lemma calm_optout channel now d : calm d (persistOfficialOptout channel now d).
Proof. unfold persistOfficialOptout. eapply (calm_trans _ (set_policy _ _ d)); [apply calm_set_policy|apply calm_suppress]. Qed.

Lemma calm_block id reason now unknown d : calm d (blockOfficial id reason now unknown d).
Proof.
  unfold blockOfficial. eapply calm_trans; [|by apply calm_rows_one].
  apply calm_dispatch_one. intros x _. apply moved_closed. unfold closed. destruct unknown; auto.
Qed.

Lemma calm_polls now d : calm d (expireOfficialPolls now d).
Proof.
  apply calm_dispatch_where. intros id x Hp. unfold polls_over in Hp. bool_to_prop.
  split; simpl; auto.
Qed.

Lemma line_of id P d r : od_rows d !! id = Some r -> outbox_is id P d = P r.
Proof. intros Hr. unfold outbox_is. by rewrite Hr. Qed.

Lemma is_line_row id d : outbox_is id is_line d = true -> line_row d id.
Proof.
  unfold outbox_is, is_line. destruct (od_rows d !! id) as [r|] eqn:Hr; [|done]. intros H%String.eqb_eq. by exists r.
Qed.

Lemma calm_recover_flight now d : calm d (recover_in_flight now d).
Proof.
  apply calm_dispatch_where. intros id x Hp. bool_to_prop. split; simpl; auto.
  destruct (outbox_is id is_line d) eqn:El; simpl; [|unfold closed; auto].
  destruct (_ && _ && _)%bool; [|unfold closed; auto].
  right. right. by split_and!; [apply is_line_row| |].
Qed.

Lemma calm_close_window now d : calm d (close_line_window now d).
Proof.
  apply calm_dispatch_where. intros id x _. split; simpl; auto. unfold closed. destruct (at_uncertain _); auto.
Qed.

Lemma calm_quarantine_closed now d : calm d (quarantine_closed now d).
Proof.
  unfold quarantine_closed. eapply (calm_rows (fun id r => match od_dispatch d !! id with Some x => _ | None => r end)).
  - intros id. rewrite map_lookup_imap. by destruct (od_rows d !! id).
  - intros id r. destruct (od_dispatch d !! id); [by case_if|done].
Qed.

Lemma calm_recover now d : calm d (recoverOfficialIntents now d).
Proof.
  unfold recoverOfficialIntents. eapply calm_trans; [apply calm_recover_flight|].
  eapply calm_trans; [apply calm_close_window|apply calm_quarantine_closed].
Qed.

Lemma calm_prune reason P now d d' : prune_outbox reason P now d = Ok d' -> calm d d'.
Proof.
  unfold prune_outbox. destruct (ledgered _) as [[n ledger]|]; simpl; [|done]. intros [= <-].
  eapply calm_trans; [apply (calm_remove P)|by apply calm_same].
Qed.

Lemma calm_prune_silences reason P now d d' : prune_silences reason P now d = Ok d' -> calm d d'.
Proof. unfold prune_silences. destruct (ledgered _) as [[n ledger]|]; simpl; [|done]. intros [= <-]. by apply calm_same. Qed.

Lemma calm_erase P ms error d : calm d (erase_rows P ms error d).
Proof.
  unfold erase_rows. eapply calm_trans; [|by apply calm_rows_where].
  apply calm_dispatch_where. intros id x _. by apply moved_attempt.
Qed.

Lemma calm_expire now d d' : ExpireNotifications now d = Ok d' -> calm d d'.
Proof.
  unfold ExpireNotifications. destruct (prune_outbox _ _ _ _) as [d1|] eqn:E; simpl; [|done]. intros [= <-].
  apply calm_prune in E. apply (calm_trans _ d1); [|by apply calm_same].
  eapply calm_trans; [|exact E]. eapply calm_trans; [apply (calm_recover now)|].
  eapply calm_trans; [apply (calm_polls now)|by apply calm_same].
Qed.

(** The operations that neither admit a message nor touch an attempt. *)
Ltac split_checks :=
  repeat match goal with
  | |- calm _ (committed _ (if ?b then _ else _)) => destruct b; cbn [committed rbind]
  | |- calm _ (committed _ (rbind ?r _)) => let E := fresh "E" in destruct r eqn:E; cbn [committed rbind]
  | |- calm _ (committed _ (let '(_, _) := ?p in _)) => destruct p
  | |- calm _ (committed _ (Ok _)) => cbn [committed]
  | |- calm _ (committed _ (Err _)) => cbn [committed]
  | |- calm ?d ?d => apply calm_refl
  end.

(** The outermost change of the tables. *)
Ltac under m tac := apply (calm_trans _ m); [|tac].
Ltac calm_layer :=
  match goal with
  | |- calm ?d ?d => apply calm_refl
  | |- calm _ (with_targets _ ?m) => under m ltac:(by apply calm_same)
  | |- calm _ (with_cooldowns _ ?m) => under m ltac:(by apply calm_same)
  | |- calm _ (with_policies _ ?m) => under m ltac:(by apply calm_same)
  | |- calm _ (with_usage _ ?m) => under m ltac:(by apply calm_same)
  | |- calm _ (with_counters _ ?m) => under m ltac:(by apply calm_same)
  | |- calm _ (with_silences _ ?m) => under m ltac:(by apply calm_same)
  | |- calm _ (with_decisions _ ?m) => under m ltac:(by apply calm_same)
  | |- calm _ (with_retention _ ?m) => under m ltac:(by apply calm_same)
  | |- calm _ (with_rows (update_where _ _ (od_rows ?m)) ?m) => under m ltac:(by apply calm_rows_where)
  | |- calm _ (with_rows (update_one _ _ _ (od_rows ?m)).1 ?m) => under m ltac:(by apply calm_rows_one)
  | |- calm _ (with_dispatch (update_where _ _ (od_dispatch ?m)) ?m) => under m ltac:(apply calm_dispatch_where)
  | |- calm _ (hold _ _ ?m) => under m ltac:(apply calm_hold)
  | |- calm _ (note_sent _ ?m) => under m ltac:(apply calm_note_sent)
  | |- calm _ (set_policy _ _ ?m) => under m ltac:(apply calm_set_policy)
  | |- calm _ (suppress_channel _ _ _ ?m) => under m ltac:(apply calm_suppress)
  | |- calm _ (persistOfficialOptout _ _ ?m) => under m ltac:(apply calm_optout)
  | |- calm _ (blockOfficial _ _ _ _ ?m) => under m ltac:(apply calm_block)
  | |- calm _ (update_dispatch _ _ ?m) => under m ltac:(apply calm_dispatch_one)
  | |- calm _ (set_codes _ _ _ ?m) => under m ltac:(apply calm_set_codes)
  | |- calm _ (savePlatformCharge _ _ _ _ ?m) => under m ltac:(apply calm_charge)
  | |- calm _ (expireOfficialPolls _ ?m) => under m ltac:(apply calm_polls)
  | |- calm _ (erase_rows _ _ _ ?m) => under m ltac:(apply calm_erase)
  | |- calm _ (silence_decisions _ _ ?m) => under m ltac:(by apply calm_same)
  | |- calm _ (if ?b then _ else _) => destruct b
  end.
Ltac calm_layers := repeat calm_layer.

Lemma calm_insert id r r' d :
  od_rows d !! id = Some r -> or_identity r' = or_identity r -> calm d (with_rows (<[id := r']> (od_rows d)) d).
Proof.
  intros Hr Hid. split; simpl; [|eauto using moved_refl|].
  - intros id' r0. destruct (decide (id' = id)) as [->|Hne].
    + rewrite lookup_insert_eq. intros [= <-]. eauto.
    + rewrite lookup_insert_ne by done. eauto.
  - intros id' _ Hs. destruct (decide (id' = id)) as [->|Hne]; [rewrite lookup_insert_eq; by eexists|].
    by rewrite lookup_insert_ne.
Qed.

Lemma calm_claim id now d : calm d (committed d (ClaimNotification id now d)).
Proof.
  unfold ClaimNotification. split_checks. destruct (od_rows d !! id) as [r|] eqn:Hr; split_checks.
  all: by apply (calm_insert id r).
Qed.

Lemma calm_reserve id dst now minimum d : calm d (committed d (ReserveNotificationAttempt id dst now minimum d)).
Proof.
  unfold ReserveNotificationAttempt. split_checks. calm_layers.
Qed.

Lemma calm_rate_limited id dst until reason clock d :
  calm d (committed d (MarkRateLimited id dst until reason clock d)).
Proof.
  unfold MarkRateLimited. split_checks. calm_layers.
Qed.

Lemma calm_affected id P f d :
  (forall r, or_identity (f r) = or_identity r) -> calm d (committed d (affected (update_one id P f (od_rows d)) d)).
Proof. intros Hf. unfold affected. destruct (update_one id P f (od_rows d)).2; [by apply calm_rows_one|apply calm_refl]. Qed.

Lemma calm_sent id now minimum d : calm d (committed d (MarkSentWithCooldown id now minimum d)).
Proof.
  unfold MarkSentWithCooldown. split_checks. destruct (od_rows d !! id) as [r|] eqn:Hr; split_checks.
  calm_layers; by apply (calm_insert id r).
Qed.

Lemma calm_resume dst clock d : calm d (committed d (ResumeDestination dst clock d)).
Proof.
  unfold ResumeDestination. split_checks. calm_layers.
Qed.

Lemma calm_target c dst privacy enabled now d :
  calm d (committed d (ConfigureNotificationTarget c dst privacy enabled now d)).
Proof.
  unfold ConfigureNotificationTarget. split_checks. calm_layers.
Qed.

Lemma calm_silence id x now d : calm d (committed d (AddSilence event_of id x now d)).
Proof.
  unfold AddSilence. split_checks.
  apply calm_prune_silences in E, E0. apply calm_prune in E2.
  eapply calm_trans; [exact E|]. eapply calm_trans; [exact E0|]. eapply calm_trans; [|exact E2]. calm_layers.
Qed.

Lemma calm_policy c p now d : calm d (committed d (ConfigureOfficialPolicy c p now d)).
Proof.
  unfold ConfigureOfficialPolicy. split_checks. destruct (od_policies d !! c) as [o|]; split_checks. calm_layers.
Qed.

Lemma calm_claim_poll id dst now d : calm d (committed d (ClaimOfficialPoll id dst now d)).
Proof.
  unfold ClaimOfficialPoll. split_checks. destruct (od_dispatch _ !! id) as [x|]; split_checks; calm_layers.
  intros y _. by apply moved_attempt.
Qed.

Lemma calm_resolve_poll id now res d : calm d (committed d (ResolveOfficialPoll id now res d)).
Proof.
  unfold ResolveOfficialPoll. split_checks. calm_layers; intros y _; split; simpl; auto.
Qed.

Lemma calm_reconcile c reference now d : calm d (committed d (ReconcileOfficialPaidChannel c reference now d)).
Proof.
  unfold ReconcileOfficialPaidChannel. split_checks. destruct (od_policies d !! c) as [p|]; split_checks. calm_layers.
  intros id x _. apply moved_closed. unfold closed. auto.
Qed.

Lemma calm_restore clock d : calm d (markRestoredOfficialHold clock d).
Proof.
  unfold markRestoredOfficialHold. cbv zeta. calm_layers.
  - intros id x _. split; simpl; auto. unfold closed. destruct (bool_decide _); auto.
  - intros id x _. split; simpl; auto.
Qed.

Definition quiet_op (op : outbox_op) : Prop :=
  match op with OpEnqueue _ _ | OpRecord _ _ _ _ _ | OpBegin _ _ _ _ | OpResolve _ _ _ => False | _ => True end.

Lemma calm_op d op : quiet_op op -> calm d (outbox_step d op).
Proof.
  destruct op; intros []; simpl;
    auto using calm_claim, calm_reserve, calm_rate_limited, calm_sent, calm_resume, calm_target, calm_silence,
      calm_policy, calm_claim_poll, calm_resolve_poll, calm_reconcile, calm_restore.
  - by apply calm_rows_one.
  - by apply calm_rows_one.
  - unfold quarantine. by apply calm_affected.
  - unfold RetryNotification. by apply calm_affected.
  - destruct (ExpireNotifications now d) eqn:E; [by eapply calm_expire|apply calm_refl].
  - unfold DiscardIsolatedNotifications. split_checks. apply calm_erase.
  - unfold RemoveSilence. split_checks. by apply calm_same.
  - unfold PendingOfficialPolls. split_checks. apply calm_polls.
Qed.
(** ** Admission *)

Lemma limit_official c : officialChannel c = true -> officialChannel (limit c 32) = true.
Proof.
  unfold officialChannel, paidOfficialChannel. intros H.
  repeat (apply orb_true_iff in H as [H|H]); apply String.eqb_eq in H as ->; reflexivity.
Qed.

Lemma grown_rows (g : string -> OutboxRow -> OutboxRow) rows d :
  (forall id, rows !! id = g id <$> od_rows d !! id) -> (forall id r, or_identity (g id r) = or_identity r) ->
  grown d (with_rows rows d).
Proof.
  intros Hl Hg. apply grown_same; [done|]. simpl. intros id r Hr. rewrite Hl, Hr. simpl. eauto.
Qed.

Lemma grown_rows_one id P f d :
  (forall r, or_identity (f r) = or_identity r) -> grown d (with_rows (update_one id P f (od_rows d)).1 d).
Proof.
  intros Hf. apply (grown_rows (fun id' r => if bool_decide (id' = id) && P r then f r else r)).
  - intros. apply lookup_update_one.
  - intros. by case_if.
Qed.

Lemma grown_rows_where P f d :
  (forall id r, or_identity (f id r) = or_identity r) -> grown d (with_rows (update_where P f (od_rows d)) d).
Proof.
  intros Hf. apply (grown_rows (fun id r => if P id r then f id r else r)).
  - intros. apply lookup_update_where.
  - intros. by case_if.
Qed.

Lemma grown_insert id r' d :
  (forall r, od_rows d !! id = Some r -> or_identity r' = or_identity r) -> grown d (with_rows (<[id := r']> (od_rows d)) d).
Proof.
  intros Hid. apply grown_same; [done|]. simpl. intros id' r Hr.
  destruct (decide (id' = id)) as [->|Hne]; [rewrite lookup_insert_eq|rewrite lookup_insert_ne by done]; eauto.
Qed.

Lemma grown_decide e c m v x now d d1 : grown d d1 -> grown d (decide_as e c m v x now d1).
Proof. intros Hg. apply (grown_trans _ d1); [done|]. apply grown_same; eauto. Qed.

Lemma insertOfficialIntent_grown w m d0 d d' :
  od_rows d0 !! om_id m = None -> od_dispatch d = od_dispatch d0 ->
  od_rows d = <[om_id m := new_row w m d0]> (od_rows d0) ->
  insertOfficialIntent w m d = Ok d' -> grown d0 d'.
Proof.
  intros Hn Hx Hr. unfold insertOfficialIntent. destruct (officialChannel (om_channel m)) eqn:Ho; simpl.
  2:{ intros [= <-]. apply grown_same; [done|]. rewrite Hr. intros id r Hid.
      destruct (decide (id = om_id m)) as [->|Hne]; [congruence|rewrite lookup_insert_ne by done; eauto]. }
  destruct (if om_channel m =?s "line" then _ else _) as [key|]; simpl; [|done].
  rewrite Hx. destruct (od_dispatch d0 !! om_id m) eqn:Hd; simpl; [done|].
  set (failed := negb (om_failure m =?s "")). set (row := mkDispatch _ _ _ _). intros H.
  assert (Hfresh : fresh_dispatch row) by (unfold fresh_dispatch; simpl; destruct failed; auto).
  assert (Hd' : od_dispatch d' = <[om_id m := row]> (od_dispatch d0)) by (destruct failed; injection H as <-; done).
  assert (Hrow : exists f, od_rows d' = (update_one (om_id m) (fun _ => true) f (od_rows d)).1
            /\ forall r, or_identity (f r) = or_identity r).
  { destruct failed; injection H as <-; simpl; [by eexists|]. exists id. split; [|done].
    rewrite Hr. unfold update_one. rewrite lookup_insert_eq. simpl. by rewrite insert_insert_eq. }
  clear H. destruct Hrow as (f & Hrow & Hf). rewrite Hr in Hrow.
  split; rewrite ?Hd'.
  - intros id r Hid. rewrite Hrow, lookup_update_one. destruct (decide (id = om_id m)) as [->|Hne]; [congruence|].
    rewrite lookup_insert_ne, Hid, bool_decide_eq_false_2 by done. simpl. eauto.
  - intros id x Hid. rewrite lookup_insert_ne; [done|]. intros <-. congruence.
  - intros id y. destruct (decide (id = om_id m)) as [->|Hne]; [|rewrite lookup_insert_ne by done; auto].
    rewrite lookup_insert_eq. intros [= <-]. right. split_and!; [done..|].
    eexists. rewrite Hrow, lookup_update_one, lookup_insert_eq, bool_decide_eq_true_2 by done. simpl. split; [done|].
    unfold row_channel. rewrite Hf. by apply limit_official.
Qed.

Lemma enqueue_grown w m d d' a : enqueue parse_json w m d = Ok (d', a) -> grown d d'.
Proof.
  unfold enqueue. destruct (normalizePresentation m) as [m1|]; simpl; [|done].
  set (m2 := if om_id m1 =?s "" then with_id (dr_id w) m1 else m1). clearbody m2.
  do 5 (case_match; [done|]). case_match; [intros [= <- <-]; apply grown_refl|].
  case_match; [intros [= <- <-]; apply grown_same; eauto|].
  destruct (negb (is_null (od_rows d !! om_id m2))) eqn:Hid; [intros [= <- <-]; apply grown_refl|].
  destruct (insertOfficialIntent _ _ _) as [d1|] eqn:E; simpl; [|done]. intros [= <- <-].
  eapply insertOfficialIntent_grown; [| | |exact E]; [|done..].
  by destruct (od_rows d !! om_id m2).
Qed.

Lemma merge_into_grown id e m c now d d' : merge_into id e m c now d = Ok d' -> grown d d'.
Proof.
  unfold merge_into. destruct (od_rows d !! id) as [r|] eqn:Hr; [|done].
  case_match; [done|]. case_match; intros [= <-]; apply grown_decide.
  - apply grown_same; eauto.
  - apply grown_insert. intros r0. rewrite Hr. by intros [= <-].
Qed.

Lemma queue_message_grown w e m c now window d d' :
  queue_message parse_json w e m c now window d = Ok d' -> grown d d'.
Proof.
  unfold queue_message. set (m1 := if om_id m =?s "" then _ else m). set (m2 := if mergeable _ _ _ _ then _ else m1).
  destruct (enqueue parse_json w m2 d) as [[d1 a]|] eqn:E; simpl; [|done]. apply enqueue_grown in E.
  destruct a; [|done|]; intros [= <-]; apply grown_decide; [|done].
  apply (grown_trans _ d1); [exact E|by apply grown_rows_one].
Qed.

Lemma grown_release e m ms d : grown d (release_updates e m ms d).
Proof. by apply grown_rows_where. Qed.

Lemma record_one_grown w e m now window d d' :
  recordOneEventNotification parse_json w e m now window d = Ok d' -> grown d d'.
Proof.
  unfold recordOneEventNotification. case_match; [intros [= <-]; apply grown_refl|].
  destruct m as [m|]; [|intros [= <-]; apply grown_decide, grown_refl].
  destruct (normalizePresentation m) as [m1|]; simpl; [|done].
  destruct (dedupe_id _ _); [intros [= <-]; apply grown_decide, grown_refl|].
  destruct (if _ || _ then _ else None); [intros [= <-]; apply grown_decide, grown_refl|].
  set (d1 := if _ && _ then release_updates _ _ _ d else d). intros H'.
  assert (H1 : grown d d1) by (subst d1; destruct (_ && _)%bool; [apply grown_release|apply grown_refl]).
  apply (grown_trans _ d1 _ H1). revert H'.
  destruct (if mergeable _ _ _ _ then _ else None); [apply merge_into_grown|apply queue_message_grown].
Qed.

Lemma record_each_grown e l now window : forall ws d d',
  record_each parse_json ws e l now window d = Ok d' -> grown d d'.
Proof.
  induction l as [|m l IH]; intros ws d d'; simpl; [intros [= <-]; apply grown_refl|].
  destruct (recordOneEventNotification _ _ _ _ _ _ _) as [d1|] eqn:E; simpl; [|done].
  intros H. eapply grown_trans; [by eapply record_one_grown|by eapply IH].
Qed.

Lemma record_grown ws e m now window d d' :
  recordEventNotification parse_json ws e m now window d = Ok d' -> grown d d'.
Proof.
  unfold recordEventNotification. destruct m as [m|]; [|apply record_one_grown].
  case_match; [apply record_each_grown|done].
Qed.
(** ** Requests *)

(** What a request that goes out was allowed by and leaves. *)
Record let_out (id : string) (now : time) (d : OutboxDB) (r : OutboxRow) (x : DispatchRow) (p : PolicyRow)
    (m : OutboxMessage) (d' : OutboxDB) : Prop := {
  lo_row : od_rows d !! id = Some r;
  lo_dispatch : od_dispatch d !! id = Some x;
  lo_policy : od_policies d !! row_channel r = Some p;
  lo_state : at_state (dp_attempt x) = Prepared \/ at_state (dp_attempt x) = RetryReady;
  lo_reason : dispatch_reason r x p now = ""%string;
  lo_now : 0 < unix_milli now;
  lo_number : rb_dispatch_attempt (om_read m) = at_count (dp_attempt x) + 1;
  lo_key : rb_retry_key (om_read m) = in_retry_key (dp_intent x);
  lo_rows' : od_rows d' = od_rows d;
  lo_dispatch' : exists day, od_dispatch d' = <[id := set_attempt (start_attempt
      (if at_first (dp_attempt x) =? 0 then unix_milli now else at_first (dp_attempt x)) (unix_milli now) day) x]>
      (od_dispatch d) }.

Lemma debit_tables c day segments d d' :
  debit c day segments d = Ok d' -> od_rows d' = od_rows d /\ od_dispatch d' = od_dispatch d.
Proof. unfold debit. case_match; [done|]. by intros [= <-]. Qed.

Lemma commit_intent_spec id dst r x day now minimum d d' o :
  commit_intent id dst r x day now minimum d = (d', o) ->
  match o with
  | None => calm d d'
  | Some m =>
      rb_dispatch_attempt (om_read m) = at_count (dp_attempt x) + 1
      /\ rb_retry_key (om_read m) = in_retry_key (dp_intent x)
      /\ od_rows d' = od_rows d
      /\ (od_dispatch d !! id = Some x -> od_dispatch d' = <[id := set_attempt (start_attempt
            (if at_first (dp_attempt x) =? 0 then unix_milli now else at_first (dp_attempt x)) (unix_milli now) day) x]>
            (od_dispatch d))
  end.
Proof.
  unfold commit_intent. case_match; [intros [= <- <-]; apply calm_block|].
  intros [= <- <-]. split_and!; [done|done|by case_match|].
  intros Hx. assert (He : forall f, (update_one id (fun _ => true) f (od_dispatch d)).1 = <[id := f x]> (od_dispatch d))
    by (intros f; unfold update_one; by rewrite Hx).
  case_match; simpl; by rewrite He.
Qed.

Lemma Begin_spec id dst now minimum d d' o :
  BeginOfficialDispatch id dst now minimum d = Ok (d', o) ->
  match o with
  | None => calm d d'
  | Some m => exists r x p, let_out id now d r x p m d'
  end.
Proof.
  unfold BeginOfficialDispatch. destruct (_ || (0 <? minimum) && _)%bool eqn:Ev; [done|].
  assert (Hnow : 0 < unix_milli now) by (bool_to_prop; lia).
  unfold readOfficialRow. destruct (od_rows d !! id) as [r|] eqn:Hr; [|done].
  destruct (od_dispatch d !! id) as [x|] eqn:Hx; [|done]. cbn [rbind].
  case_match; [done|]. destruct (negb (sendable _ _ _) || _)%bool eqn:Hs; [intros [= <- <-]; apply calm_refl|].
  apply orb_false_iff in Hs as [_ Hs]. apply negb_false_iff in Hs. unfold dispatchable in Hs. rewrite Hx in Hs.
  destruct (od_policies d !! row_channel r) as [p|] eqn:Hp; [|done].
  destruct (negb (dispatch_reason _ _ _ _ =?s _)) eqn:Hreason; [intros [= <- <-]; apply calm_block|].
  apply negb_false_iff, String.eqb_eq in Hreason.
  assert (Hstate : at_state (dp_attempt x) = Prepared \/ at_state (dp_attempt x) = RetryReady)
    by (destruct (at_state (dp_attempt x)); auto; done).
  assert (Hout : forall d1 day, od_rows d1 = od_rows d -> od_dispatch d1 = od_dispatch d ->
    Ok (commit_intent id dst r x day now minimum d1) = Ok (E := outbox_error) (d', o) ->
    match o with None => calm d d' | Some m => exists r x p, let_out id now d r x p m d' end).
  { intros d1 day Er Ex [= Hc]. apply commit_intent_spec in Hc. destruct o as [m|].
    - destruct Hc as (Hn & Hk & Hrows & Hd). exists r, x, p. rewrite Ex in Hd. split; eauto; congruence.
    - eapply calm_trans; [by apply (calm_same d d1)|done]. }
  destruct (at_budget_day (dp_attempt x) <? 0); [|by apply Hout].
  destruct (exhausted _ _ _ _); [intros [= <- <-]; apply calm_block|].
  destruct (debit _ _ _ d) as [d1|] eqn:Ed; cbn [rbind]; [|done].
  apply debit_tables in Ed as [Er Ex]. by apply Hout.
Qed.

Lemma posts_snoc h e : posts (h ++ [e]) = posts h ++ match post_of e with Some t => [t] | None => [] end.
Proof. unfold posts. rewrite omap_app. simpl. by destruct (post_of e). Qed.

(** LINE's window, as the reason checks it. *)
Lemma no_line_reason r x p now :
  dispatch_reason r x p now = ""%string -> row_channel r = "line"%string -> 0 < at_first (dp_attempt x) ->
  time_sub now (of_unix_milli (at_first (dp_attempt x))) < OfficialLINEWindow.
Proof.
  unfold dispatch_reason, last_reason. intros Hd Hl Hf. rewrite Hl in Hd.
  destruct (OfficialLINEWindow <=? _) eqn:E; [|bool_to_prop; lia].
  rewrite (proj2 (Z.ltb_lt _ _) Hf) in Hd. simpl in Hd.
  repeat match type of Hd with context [if ?b then _ else _] => destruct b; simpl in Hd end; done.
Qed.

(** The life of the message whose request goes out. *)
Lemma life_posted id now d r x p m d' h :
  let_out id now d r x p m d' -> life (line_row d id) x h ->
  forall y, od_dispatch d' !! id = Some y ->
  life (line_row d id) y (h ++ [Posted (rb_dispatch_attempt (om_read m)) now (rb_retry_key (om_read m))]).
Proof.
  intros L [Hs Hc Hf Ha] y Hy. destruct (lo_dispatch' _ _ _ _ _ _ _ _ L) as (day & Hd).
  rewrite Hd, lookup_insert_eq in Hy. injection Hy as <-.
  rewrite (lo_key _ _ _ _ _ _ _ _ L), (lo_number _ _ _ _ _ _ _ _ L).
  unfold first_agrees, state_agrees in *.
  assert (Hacc : ~ accepted_in h).
  { destruct (lo_state _ _ _ _ _ _ _ _ L) as [E|E]; rewrite E in Ha; [|by destruct Ha].
    rewrite Ha. by intros (n & ?%not_elem_of_nil). }
  assert (Hacc' : forall n t k, ~ accepted_in (h ++ [Posted n t k])).
  { intros n t k (n' & Hn'). apply elem_of_app in Hn' as [Hn'|Hn'%list_elem_of_singleton]; [|done].
    apply Hacc. by exists n'. }
  split; simpl.
  - apply safe_request; [done|by rewrite Hc|done|].
    destruct (lo_state _ _ _ _ _ _ _ _ L) as [E|E]; rewrite E in Ha; [by left|]. right.
    destruct Ha as [_ [Ha|Hl]]; [left; rewrite Ha; do 2 f_equal; lia|right].
    split; [done|]. intros t0 H0. rewrite H0 in Hf. destruct Hf as [Hf Hpos]. rewrite <- Hf.
    destruct Hl as (r0 & Hr0 & Hl). rewrite (lo_row _ _ _ _ _ _ _ _ L) in Hr0. injection Hr0 as <-.
    eapply no_line_reason; [exact (lo_reason _ _ _ _ _ _ _ _ L)|done|done].
  - rewrite posts_snoc, lenZ_app. simpl. unfold lenZ in *. simpl. lia.
  - unfold first_agrees. rewrite posts_snoc. simpl. pose proof (lo_now _ _ _ _ _ _ _ _ L).
    destruct (posts h) as [|t0 rest]; simpl in *; [by rewrite Hf|].
    rewrite (proj2 (Z.eqb_neq _ _)) by lia. done.
  - unfold state_agrees. simpl. apply Hacc'.
Qed.
(** ** Answers *)

(** A change of the dispatch of one message, and of columns that do not identify rows. *)
Record touches (id : string) (f : DispatchRow -> DispatchRow) (d d' : OutboxDB) : Prop := {
  tc_rows : forall id', or_identity <$> od_rows d' !! id' = or_identity <$> od_rows d !! id';
  tc_dispatch : forall id', od_dispatch d' !! id' = (fun x => if bool_decide (id' = id) then f x else x) <$> od_dispatch d !! id' }.

Lemma touches_same id d d' :
  od_rows d' = od_rows d -> od_dispatch d' = od_dispatch d -> touches id (fun x => x) d d'.
Proof.
  intros Hr Hx. split; intros id'; rewrite ?Hr, ?Hx; [done|].
  destruct (od_dispatch d !! id'); simpl; [by destruct (bool_decide _)|done].
Qed.

Lemma touches_trans id f g d1 d2 d3 : touches id f d1 d2 -> touches id g d2 d3 -> touches id (fun x => g (f x)) d1 d3.
Proof.
  intros [R1 X1] [R2 X2]. split; intros id'; [congruence|]. rewrite X2, X1, <- option_fmap_compose.
  destruct (od_dispatch d1 !! id'); simpl; [by destruct (bool_decide _)|done].
Qed.

Lemma touches_then id f d1 d2 d3 :
  touches id f d1 d2 -> od_dispatch d3 = od_dispatch d2 ->
  (forall id', or_identity <$> od_rows d3 !! id' = or_identity <$> od_rows d2 !! id') -> touches id f d1 d3.
Proof. intros [R1 X1] Hx Hr. split; intros id'; rewrite ?Hx, ?Hr; auto. Qed.

Lemma identity_one id P f rows id' :
  (forall r, or_identity (f r) = or_identity r) ->
  or_identity <$> (update_one id P f rows).1 !! id' = or_identity <$> (rows : gmap string OutboxRow) !! id'.
Proof.
  intros Hf. rewrite lookup_update_one, <- option_fmap_compose. destruct (rows !! id'); simpl; [|done].
  destruct (_ && _)%bool; by rewrite ?Hf.
Qed.

Lemma identity_where P f rows id' :
  (forall id r, or_identity (f id r) = or_identity r) ->
  or_identity <$> update_where P f rows !! id' = or_identity <$> (rows : gmap string OutboxRow) !! id'.
Proof.
  intros Hf. rewrite lookup_update_where, <- option_fmap_compose. destruct (rows !! id'); simpl; [|done].
  destruct (P _ _); by rewrite ?Hf.
Qed.

Lemma touches_update id f d : touches id f d (update_dispatch id f d).
Proof.
  split; [done|]. intros id'. simpl. rewrite lookup_update_one. destruct (od_dispatch d !! id'); simpl; [|done].
  by rewrite andb_true_r.
Qed.

Lemma touches_block id reason now (unknown : bool) d :
  touches id (fun x => if negb (bool_decide (at_state (dp_attempt x) = Accepted))
                       then set_attempt (in_state (if unknown then DeliveryUnknown else Blocked) reason) x else x)
    d (blockOfficial id reason now unknown d).
Proof.
  split; intros id'; simpl; [by apply identity_one|]. rewrite lookup_update_one.
  destruct (od_dispatch d !! id'); simpl; [|done]. by destruct (bool_decide (id' = id)).
Qed.

Lemma touches_retry id reason next d : touches id (set_attempt (in_state RetryReady reason)) d (retry_after id reason next d).
Proof. eapply touches_then; [apply touches_update|done|]. intros id'. by apply identity_one. Qed.

Lemma touches_hold id f dst until d d' : touches id f d d' -> touches id f d (hold dst until d').
Proof. intros Ht. by eapply touches_then. Qed.

Lemma touches_optout id f c now d d' : touches id f d d' -> touches id f d (persistOfficialOptout c now d').
Proof. intros Ht. eapply touches_then; [done|done|]. intros id'. by apply identity_where. Qed.

(** What an answer makes of the attempt. *)
Record answered (line : Prop) (o : outcome) (x y : DispatchRow) : Prop := {
  an_key : in_retry_key (dp_intent y) = in_retry_key (dp_intent x);
  an_first : at_first (dp_attempt y) = at_first (dp_attempt x);
  an_count : at_count (dp_attempt y) = at_count (dp_attempt x);
  an_day : at_budget_day (dp_attempt y) = at_budget_day (dp_attempt x);
  an_segments : in_segments (dp_intent y) = in_segments (dp_intent x);
  an_state : closed (at_state (dp_attempt y))
    \/ at_state (dp_attempt y) = RetryReady /\ o <> OutcomeAccepted /\ (o = OutcomeNotAccepted \/ line) }.

Lemma answered_later line o x y f :
  (forall z, dp_attempt (f z) = dp_attempt z) -> (forall z, dp_intent (f z) = dp_intent z) ->
  answered line o x y -> answered line o x (f y).
Proof. intros Ha Hi [K F C D S T]. split; rewrite ?Ha, ?Hi; auto. Qed.

Lemma accept_answered id r x now res d d' line :
  accept id r x now res d = Ok d' -> exists f, touches id f d d' /\ answered line OutcomeAccepted x (f x).
Proof.
  unfold accept. case_match; [done|]. intros [= <-]. eexists. split.
  - eapply touches_then; [apply touches_update|done|]. intros id'. by apply identity_one.
  - split; simpl; try done. left. by left.
Qed.

Lemma unknown_answered id r x now res d :
  at_state (dp_attempt x) = InFlight -> od_rows d !! id = Some r ->
  exists f, touches id f d (left_unknown id r x now res d)
    /\ answered (line_row d id) OutcomeUnknown x (f x).
Proof.
  intros Hx Hr. unfold left_unknown.
  set (d1 := if (_ || _)%bool then hold _ _ d else d).
  assert (H1 : touches id (fun z => z) d d1) by (subst d1; destruct (_ || _)%bool; [apply touches_hold|]; by apply touches_same).
  destruct (line_may_repeat _ _ _ _ _) eqn:El.
  - eexists. split; [eapply touches_trans; [exact H1|apply touches_retry]|]. split; simpl; try done.
    right. split; [done|]. split; [done|]. right. exists r. split; [done|].
    unfold line_may_repeat in El. bool_to_prop. by apply String.eqb_eq.
  - eexists. split; [eapply touches_trans; [exact H1|apply touches_block]|]. simpl.
    rewrite Hx. split; simpl; try done. left. right. by left.
Qed.

Lemma refused_answered id r x now res d line :
  at_state (dp_attempt x) = InFlight ->
  exists f, touches id f d (refused id r x now res d) /\ answered line OutcomeNotAccepted x (f x).
Proof.
  intros Hx. unfold refused.
  pose proof (touches_update id (set_attempt not_uncertain) d) as H1.
  set (d1 := update_dispatch id _ d) in *. case_match.
  - eexists. split; [eapply touches_trans; [exact H1|apply touches_block]|]. simpl.
    rewrite Hx. split; simpl; try done. left. right. by right.
  - exists (fun z => set_attempt (in_state RetryReady (controlledOfficialReason (rs_reason res))) (set_attempt not_uncertain z)).
    split.
    + assert (H2 := touches_trans _ _ _ _ _ _ H1 (touches_retry id (controlledOfficialReason (rs_reason res))
         (time_add now (Z.max (rs_retry_after res) second)) d1)). case_match; [by apply touches_hold|done].
    + split; simpl; try done. right. auto.
Qed.

Lemma Resolve_spec id now res d d' u :
  ResolveOfficialDispatch id now res d = Ok (d', u) ->
  exists r x f, od_rows d !! id = Some r /\ od_dispatch d !! id = Some x
    /\ (at_state (dp_attempt x) = InFlight
        \/ rs_outcome res = OutcomeAccepted /\ (at_state (dp_attempt x) = DeliveryUnknown \/ at_state (dp_attempt x) = RetryReady))
    /\ at_count (dp_attempt x) = rs_attempt res
    /\ touches id f d d' /\ answered (line_row d id) (rs_outcome res) x (f x).
Proof.
  unfold ResolveOfficialDispatch. destruct (_ || negb (valid_codes _ _))%bool eqn:Ev; [done|].
  unfold readOfficialRow. destruct (od_rows d !! id) as [r|] eqn:Hr; [|done].
  destruct (od_dispatch d !! id) as [x|] eqn:Hx; [|done]. cbn [rbind].
  destruct (_ || negb (at_count _ =? _))%bool eqn:Es; [done|]. apply orb_false_iff in Es as [Hs Hn].
  apply negb_false_iff, Z.eqb_eq in Hn.
  assert (Hstate : at_state (dp_attempt x) = InFlight \/ rs_outcome res = OutcomeAccepted
     /\ (at_state (dp_attempt x) = DeliveryUnknown \/ at_state (dp_attempt x) = RetryReady)).
  { apply andb_false_iff in Hs as [Hs|Hs]; bool_to_prop; [by left|]. right.
    unfold late_acceptance in Hs. apply andb_true_iff in Hs as [Hs1 Hs2]. bool_to_prop.
    apply orb_true_iff in Hs2 as [?|?]; bool_to_prop; auto. }
  destruct (match rs_outcome res with OutcomeAccepted => _ | _ => _ end) as [d1|] eqn:E1; cbn [rbind]; [|done].
  intros [= <-]. assert (H1 : exists f, touches id f d d1 /\ answered (line_row d id) (rs_outcome res) x (f x)).
  { destruct (rs_outcome res) eqn:Eo; [by eapply accept_answered| | |].
    - injection E1 as <-. apply refused_answered. by destruct Hstate as [?|[? _]].
    - injection E1 as <-. apply unknown_answered; [|done]. by destruct Hstate as [?|[? _]].
    - bool_to_prop. done. }
  destruct H1 as (f & Ht & Ha). exists r, x.
  set (d2 := if rs_optout res then persistOfficialOptout _ _ d1 else d1). set (d3 := if rs_suspend res then hold _ _ d2 else d2).
  assert (H3 : touches id f d d3).
  { subst d3 d2. destruct (rs_optout res), (rs_suspend res); auto using touches_hold, touches_optout. }
  eexists. split_and!; [done..| |].
  - eapply touches_trans; [|apply touches_update]. eapply touches_trans; [exact H3|apply touches_update].
  - cbv beta. do 2 (apply answered_later; [done|done|]). exact Ha.
Qed.

(** The life of the message that was answered. *)
Lemma life_answered line o x y h :
  life line x h ->
  (at_state (dp_attempt x) = InFlight
   \/ o = OutcomeAccepted /\ (at_state (dp_attempt x) = DeliveryUnknown \/ at_state (dp_attempt x) = RetryReady)) ->
  answered line o x y -> life line y (h ++ [Resolved (at_count (dp_attempt x)) o]).
Proof.
  intros [Hs Hc Hf Ha] Hx [K F C D G S]. split.
  - rewrite K. by constructor.
  - rewrite C, posts_snoc. simpl. by rewrite app_nil_r.
  - unfold first_agrees in *. rewrite posts_snoc, F. simpl. by rewrite app_nil_r.
  - unfold state_agrees in *. rewrite C. destruct S as [[-> | [-> | ->]]|(-> & Ho & Hl)]; [done..|].
    destruct Hx as [Hx|[Hx _]]; [|done]. rewrite Hx in Ha. split.
    + intros (n & [Hn|Hn%list_elem_of_singleton]%elem_of_app); [apply Ha; by exists n|congruence].
    + destruct Hl as [-> | Hl]; [left; by rewrite last_snoc|by right].
Qed.
(** ** Every run *)

Lemma line_row_touched id id' f d d' : touches id f d d' -> line_row d id' -> line_row d' id'.
Proof.
  intros Ht (r & Hr & Hl). pose proof (tc_rows _ _ _ _ Ht id') as E. rewrite Hr in E. simpl in E.
  destruct (od_rows d' !! id') as [r'|] eqn:Hr'; simpl in E; [|done]. injection E as E.
  exists r'. split; [done|]. unfold row_channel in *. by rewrite E.
Qed.

Lemma official_row_touched id id' f d d' : touches id f d d' -> official_row d id' -> official_row d' id'.
Proof.
  intros Ht (r & Hr & Hl). pose proof (tc_rows _ _ _ _ Ht id') as E. rewrite Hr in E. simpl in E.
  destruct (od_rows d' !! id') as [r'|] eqn:Hr'; simpl in E; [|done]. injection E as E.
  exists r'. split; [done|]. unfold row_channel in *. by rewrite E.
Qed.

(** A step that changes the dispatch of one message and adds an event to its history. *)
Lemma lives_touched id f d d' h e :
  lives d h -> touches id f d d' ->
  (forall x, od_dispatch d !! id = Some x -> life (line_row d id) x (h id) -> life (line_row d id) (f x) (h id ++ [e])) ->
  lives d' (fun id' => if od_dispatch d' !! id' is Some _ then h id' ++ (if id =?s id' then [e] else []) else []).
Proof.
  intros Hi Ht Hf id'. pose proof (Hi id') as H'. pose proof (tc_dispatch _ _ _ _ Ht id') as E.
  destruct (od_dispatch d' !! id') as [y|] eqn:Hy; [|done].
  destruct (od_dispatch d !! id') as [x|] eqn:Hx; [|done]. injection E as E. destruct H' as [Ho Hl].
  split; [by eapply official_row_touched|].
  assert (Hw : life (line_row d id') y (h id' ++ (if id =?s id' then [e] else []))).
  { destruct (decide (id' = id)) as [->|Hne].
    - rewrite bool_decide_eq_true_2 in E by done. rewrite String.eqb_refl. subst y. by apply Hf.
    - rewrite bool_decide_eq_false_2 in E by done. rewrite (proj2 (String.eqb_neq _ _)) by congruence.
      rewrite app_nil_r. by subst y. }
  eapply life_moved; [|exact Hw|apply moved_refl]. by eapply line_row_touched.
Qed.

Lemma lives_ext d h h' : lives d h -> (forall id, h' id = h id) -> lives d h'.
Proof. intros Hi E id. specialize (Hi id). by rewrite E. Qed.

Lemma kept_same d d' op h : lives d' (kept_history d' h) -> (forall id, events_of d op id = []) ->
  lives d' (fun id => if od_dispatch d' !! id is Some _ then h id ++ events_of d op id else []).
Proof. intros Hi E. eapply lives_ext; [exact Hi|]. intros id. unfold kept_history. by rewrite E, app_nil_r. Qed.

Lemma touches_begin id now d r x p m d' : let_out id now d r x p m d' ->
  exists f, touches id f d d' /\ od_dispatch d' !! id = Some (f x).
Proof.
  intros L. destruct (lo_dispatch' _ _ _ _ _ _ _ _ L) as (day & Hd). eexists. split; [split|].
  - intros id'. by rewrite (lo_rows' _ _ _ _ _ _ _ _ L).
  - intros id'. rewrite Hd. destruct (decide (id' = id)) as [->|Hne].
    + rewrite lookup_insert_eq, (lo_dispatch _ _ _ _ _ _ _ _ L), bool_decide_eq_true_2 by done. done.
    + rewrite lookup_insert_ne, bool_decide_eq_false_2 by done. by destruct (od_dispatch d !! id').
  - by rewrite Hd, lookup_insert_eq.
Qed.

Lemma lives_step d h op : lives d h -> lives (outbox_step d op) (history_step (d, h) op).2.
Proof.
  intros Hi. unfold history_step. cbn [fst snd].
  destruct op; try (apply kept_same; [|done]; apply (lives_calm d); [done|by apply calm_op]).
  - apply kept_same; [|done]. simpl. destruct (enqueue _ _ _ _) as [[d1 a]|] eqn:E; simpl.
    + by eapply lives_grown, enqueue_grown.
    + apply (lives_grown d), grown_refl; done.
  - apply kept_same; [|done]. simpl. destruct (recordEventNotification _ _ _ _ _ _ _) as [d1|] eqn:E; simpl.
    + by eapply lives_grown, record_grown.
    + apply (lives_grown d), grown_refl; done.
  - simpl. destruct (BeginOfficialDispatch id destination now minimum d) as [[d1 o]|] eqn:E; simpl.
    2:{ eapply lives_ext; [apply (lives_calm d d); [done|apply calm_refl]|]. intros id'.
        unfold kept_history. by rewrite app_nil_r. }
    apply Begin_spec in E. destruct o as [m|].
    + destruct E as (r & x & p & L). destruct (touches_begin _ _ _ _ _ _ _ _ L) as (f & Ht & Hf).
      eapply lives_touched; [exact Hi|exact Ht|]. intros x' Hx Hl.
      rewrite (lo_dispatch _ _ _ _ _ _ _ _ L) in Hx. injection Hx as <-. by eapply life_posted.
    + eapply lives_ext; [by apply (lives_calm d)|]. intros id'. unfold kept_history. by rewrite app_nil_r.
  - simpl. destruct (ResolveOfficialDispatch id now res d) as [[d1 u]|] eqn:E; simpl.
    2:{ eapply lives_ext; [apply (lives_calm d d); [done|apply calm_refl]|]. intros id'.
        unfold kept_history. by rewrite app_nil_r. }
    apply Resolve_spec in E as (r & x & f & Hr & Hx & Hst & Hn & Ht & Ha).
    eapply lives_touched; [exact Hi|exact Ht|]. intros x' Hx' Hl. rewrite Hx in Hx'. injection Hx' as <-.
    rewrite <- Hn. by apply (life_answered _ _ x).
Qed.

Lemma lives_run ops : lives (outbox_run ops).1 (outbox_run ops).2.
Proof.
  unfold outbox_run. rewrite <- (rev_involutive ops). induction (rev ops) as [|op l IH]; simpl.
  - intros id. simpl. by rewrite lookup_empty.
  - rewrite foldl_app. simpl. destruct (foldl _ _ _) as [d h]. by apply lives_step.
Qed.

Lemma safe_posted line key h h1 n t k h2 :
  safe line key h -> h = h1 ++ Posted n t k :: h2 ->
  k = key /\ n = lenZ (posts h1) + 1 /\ ~ accepted_in h1 /\ may_post line h1 n t.
Proof.
  intros Hs. revert h2. induction Hs as [|h m o Hs IH|h m t' Hs IH Hn Hacc Hmay]; intros h2 E.
  - by destruct h1.
  - destruct h2 as [|e h2 _] using rev_ind; [by apply app_inj_tail in E as [_ ?]|].
    rewrite app_comm_cons, app_assoc in E. apply app_inj_tail in E as [-> _]. by eapply IH.
  - destruct h2 as [|e h2 _] using rev_ind.
    + apply app_inj_tail in E as [-> [= -> -> ->]]. done.
    + rewrite app_comm_cons, app_assoc in E. apply app_inj_tail in E as [-> _]. by eapply IH.
Qed.

(** C25. Whatever the daemon does with its outbox (admissions, claims, interruptions,
    recoveries, operator actions, restores of an up-to-date backup), the [n]th request for a message on an
    official platform goes out only while no acceptance is recorded, and only if it is
    the first, or the previous one was refused, or the channel is LINE and less than
    its retry window has passed since the first request, every one of which carries
    the same retry key. *)
Theorem no_repeated_request ops id h1 n t key h2 :
  (outbox_run ops).2 id = h1 ++ Posted n t key :: h2 ->
  n = lenZ (posts h1) + 1
  /\ (forall m, Resolved m OutcomeAccepted ∉ h1)
  /\ (h1 = [] \/ last h1 = Some (Resolved (n - 1) OutcomeNotAccepted)
      \/ line_row (outbox_run ops).1 id
         /\ (forall t0, head (posts h1) = Some t0 ->
               time_sub t (of_unix_milli (unix_milli t0)) < OfficialLINEWindow)
         /\ (forall m t' key', Posted m t' key' ∈ h1 -> key' = key)).
Proof.
  intros Hh. pose proof (lives_run ops id) as Hi. rewrite Hh in Hi.
  destruct (od_dispatch _ !! id) as [x|]; [|by destruct h1]. destruct Hi as [_ [Hs _ _ _]].
  pose proof (safe_posted _ _ _ _ _ _ _ _ Hs eq_refl) as (Hk & Hn & Hacc & Hmay).
  split; [done|]. split; [intros m Hm; apply Hacc; by exists m|].
  destruct Hmay as [?|[?|[Hl Hw]]]; [by left|by right; left|]. right. right. split_and!; [done..|].
  intros m t' key' Hp. apply list_elem_of_split in Hp as (l1 & l2 & ->).
  destruct (safe_posted _ _ _ l1 m t' key' (l2 ++ Posted n t key :: h2) Hs) as (Hk' & _); [|congruence].
  by rewrite <- app_assoc.
Qed.
End Steps.

(** ** Example *)

Fixpoint repeated (n : nat) (c : ascii) : string := match n with O => EmptyString | S n => String c (repeated n c) end.
Definition example_receiver (channel : string) : string := (channel ++ ":" ++ repeated 64 "a")%string.
Definition example_at (seconds : Z) : time := of_unix_milli (1700000000000 + seconds * 1000).

Definition example_policy : OfficialChannelPolicy :=
  mkPolicy true (example_at 0) "alerts" "ticket-1" "00112233445566778899aabbccddeeff" ["event"] false true 5 5 2 false.

Definition example_message (channel id : string) : OutboxMessage :=
  mkMessage None id ("event:" ++ id ++ ":" ++ channel) channel "full" "en" "UTC" (example_receiver channel) "body"
    time_zero "event" "" "{}" (if channel =?s "twilio_sms" then 1 else 0)
    (if channel =?s "twilio_sms" then "gsm7" else "") not_read.
Definition example_draws (seconds : Z) : draws :=
  mkDraws "msg_fresh" (Some (repeat 7 16)) (example_at seconds) (example_at seconds) (example_at seconds).
Definition example_json (s : string) : option json := Some (JObject []).

Definition set_up (channel : string) : list outbox_op :=
  [OpTarget channel (example_receiver channel) "full" true (example_at 1);
   OpPolicy channel example_policy (example_at 2)].

Definition send (channel id : string) (seconds : Z) : list outbox_op :=
  [OpClaim id (example_at seconds); OpBegin id (example_receiver channel) (example_at seconds) 0].

Definition answer (o : outcome) (n seconds : Z) (id : string) : outbox_op :=
  OpResolve id (example_at seconds)
    (mkResolution 200 0 n o "provider-1" "delivery_unknown" 0 false false false "" None None "").

(** A LINE message whose first request had no answer. *)
Definition example_dispatch : list outbox_op :=
  set_up "line" ++ [OpEnqueue (example_draws 3) (example_message "line" "m1")] ++ send "line" "m1" 4
  ++ [answer OutcomeUnknown 1 5 "m1"] ++ send "line" "m1" 60 ++ [answer OutcomeAccepted 2 61 "m1"].

Definition example_key : string := "07070707-0707-4707-8707-070707070707".

Lemma no_repeated_request_witness :
  (2 = lenZ (posts [Posted 1 (example_at 4) example_key; Resolved 1 OutcomeUnknown]) + 1)
  /\ (forall m, Resolved m OutcomeAccepted ∉ [Posted 1 (example_at 4) example_key; Resolved 1 OutcomeUnknown]).
Proof.
  destruct (no_repeated_request example_json (fun _ => None) example_dispatch "m1"
    [Posted 1 (example_at 4) example_key; Resolved 1 OutcomeUnknown] 2 (example_at 60) example_key
    [Resolved 2 OutcomeAccepted]) as (H1 & H2 & _).
  - vm_compute. reflexivity.
  - split; [exact H1|exact H2].
Defined.
