(* ===== verification/DispatchBudget.v ===== *)
(** * The daily budget of an official channel

    First requests are debited before they go out, so no clock change, restart or
    removal of rows lets a channel send more than its daily limit. A restore takes the
    ledger back to the time of the backup; the paid channels are then held until the
    operator reconciles them, which gives up the rest of the day. *)

From S2P Require Export DispatchOnce.

(** ** What an operation may do to the books *)

(** The tables of the budget stay as they are. *)
Definition unbooked (d d' : OutboxDB) : Prop := od_usage d' = od_usage d /\ od_policies d' = od_policies d.

(** Usage only grows, the day of the clock only rises and limits stay; only the channel
    [lifted] can lose its hold. *)
Record booked (lifted : string) (d d' : OutboxDB) : Prop := {
  bk_messages : forall c day, (usage_of c day d).1 <= (usage_of c day d').1;
  bk_segments : forall c day, (usage_of c day d).2 <= (usage_of c day d').2;
  bk_policy : forall c p', od_policies d' !! c = Some p' ->
    exists p, od_policies d !! c = Some p /\ po_day p <= po_day p' /\ po_messages p' = po_messages p
      /\ po_segments p' = po_segments p /\ (po_hold p = true -> po_hold p' = true \/ c = lifted) }.

Lemma unbooked_refl d : unbooked d d.
Proof. done. Qed.
Lemma unbooked_trans d1 d2 d3 : unbooked d1 d2 -> unbooked d2 d3 -> unbooked d1 d3.
Proof. intros [? ?] [? ?]. split; congruence. Qed.

Lemma booked_unbooked l d d' : unbooked d d' -> booked l d d'.
Proof.
  intros [Hu Hp]. split; unfold usage_of.
  - intros c day. rewrite Hu. lia.
  - intros c day. rewrite Hu. lia.
  - intros c p' Hp'. rewrite Hp in Hp'. exists p'. split_and!; [done|lia|done|done|auto].
Qed.

Lemma booked_trans l d1 d2 d3 : booked l d1 d2 -> booked l d2 d3 -> booked l d1 d3.
Proof.
  intros [M1 S1 P1] [M2 S2 P2]. split.
  - intros c day. specialize (M1 c day). specialize (M2 c day). lia.
  - intros c day. specialize (S1 c day). specialize (S2 c day). lia.
  - intros c p3 H3. destruct (P2 _ _ H3) as (p2 & Hp2 & ? & ? & ? & Hh2).
    destruct (P1 _ _ Hp2) as (p1 & Hp1 & ? & ? & ? & Hh1).
    exists p1. split_and!; [done|lia|congruence|congruence|]. intros Hh. destruct (Hh1 Hh); auto.
Qed.

Lemma booked_policies l pol d :
  (forall c p', pol !! c = Some p' -> exists p, od_policies d !! c = Some p /\ po_day p <= po_day p'
     /\ po_messages p' = po_messages p /\ po_segments p' = po_segments p
     /\ (po_hold p = true -> po_hold p' = true \/ c = l)) ->
  booked l d (with_policies pol d).
Proof. intros Hp. split; [|  |exact Hp]; intros c day; simpl; change (usage_of c day (with_policies pol d)) with (usage_of c day d); lia. Qed.

Lemma booked_set_policy l c f d :
  (forall p, po_day p <= po_day (f p) /\ po_messages (f p) = po_messages p /\ po_segments (f p) = po_segments p
     /\ (po_hold p = true -> po_hold (f p) = true \/ c = l)) ->
  booked l d (set_policy c f d).
Proof.
  intros Hf. apply booked_policies. intros c' p'. rewrite lookup_update_one.
  destruct (od_policies d !! c') as [p|]; simpl; [|done]. intros [= <-]. exists p. split; [done|].
  destruct (bool_decide (c' = c)) eqn:E; simpl; [bool_to_prop; subst c'; apply Hf|]. split_and!; [lia|done|done|auto].
Qed.

Lemma prune_unbooked reason P now d d' : prune_outbox reason P now d = Ok d' -> unbooked d d'.
Proof. unfold prune_outbox. destruct (ledgered _) as [[n ledger]|]; simpl; [|done]. by intros [= <-]. Qed.
Lemma prune_silences_unbooked reason P now d d' : prune_silences reason P now d = Ok d' -> unbooked d d'.
Proof. unfold prune_silences. destruct (ledgered _) as [[n ledger]|]; simpl; [|done]. by intros [= <-]. Qed.

Lemma intent_unbooked w m d d' : insertOfficialIntent w m d = Ok d' -> unbooked d d'.
Proof.
  unfold insertOfficialIntent. destruct (negb (officialChannel _)); [by intros [= <-]|].
  destruct (if om_channel m =?s "line" then _ else _) as [key|]; simpl; [|done].
  destruct (negb (is_null _)); [done|]. destruct (negb (om_failure m =?s "")); by intros [= <-].
Qed.

Section Budget.
Context (parse_json : string -> option json) (event_of : string -> option Event).

Lemma enqueue_unbooked w m d d' a : enqueue parse_json w m d = Ok (d', a) -> unbooked d d'.
Proof.
  unfold enqueue. destruct (normalizePresentation m) as [m1|]; simpl; [|done].
  set (m2 := if om_id m1 =?s "" then with_id (dr_id w) m1 else m1). clearbody m2.
  do 5 (case_match; [done|]). case_match; [by intros [= <- <-]|]. case_match; [by intros [= <- <-]|].
  case_match; [by intros [= <- <-]|].
  destruct (insertOfficialIntent _ _ _) as [d1|] eqn:E; simpl; [|done]. intros [= <- <-].
  by apply intent_unbooked in E.
Qed.

Lemma record_one_unbooked w e m now window d d' :
  recordOneEventNotification parse_json w e m now window d = Ok d' -> unbooked d d'.
Proof.
  unfold recordOneEventNotification. case_match; [by intros [= <-]|]. destruct m as [m|]; [|by intros [= <-]].
  destruct (normalizePresentation m) as [m1|]; simpl; [|done].
  destruct (dedupe_id _ _); [by intros [= <-]|].
  destruct (if _ || _ then _ else None); [by intros [= <-]|].
  set (d1 := if _ && _ then release_updates _ _ _ d else d).
  assert (H1 : unbooked d d1) by (subst d1; by destruct (_ && _)%bool). intros H'.
  apply (unbooked_trans _ d1 _ H1). revert H'.
  destruct (if mergeable _ _ _ _ then _ else None).
  - unfold merge_into. destruct (od_rows d1 !! _); [|done]. case_match; [done|]. case_match; by intros [= <-].
  - unfold queue_message. set (m2 := if mergeable _ _ _ _ then _ else _).
    destruct (enqueue parse_json w m2 d1) as [[d2 a]|] eqn:E; simpl; [|done]. apply enqueue_unbooked in E.
    destruct a; [|done|]; by intros [= <-].
Qed.

Lemma record_each_unbooked e l now window : forall ws d d',
  record_each parse_json ws e l now window d = Ok d' -> unbooked d d'.
Proof.
  induction l as [|m l IH]; intros ws d d'; simpl; [by intros [= <-]|].
  destruct (recordOneEventNotification _ _ _ _ _ _ _) as [d1|] eqn:E; simpl; [|done].
  intros H. eapply unbooked_trans; [by eapply record_one_unbooked|by eapply IH].
Qed.

Lemma expire_unbooked now d d' : ExpireNotifications now d = Ok d' -> unbooked d d'.
Proof.
  unfold ExpireNotifications. destruct (prune_outbox _ _ _ _) as [d1|] eqn:E; simpl; [|done]. intros [= <-].
  by apply prune_unbooked in E.
Qed.

Lemma silence_unbooked id s now d : unbooked d (committed d (AddSilence event_of id s now d)).
Proof.
  unfold AddSilence.
  repeat match goal with |- unbooked _ (committed _ (if ?b then _ else _)) => destruct b; [done|] end.
  destruct (prune_silences _ _ _ d) as [d1|] eqn:E1; cbn [rbind committed]; [|done].
  destruct (prune_silences _ _ _ d1) as [d2|] eqn:E2; cbn [rbind committed]; [|done].
  apply prune_silences_unbooked in E1, E2. destruct (MaxSilences <=? _); [done|].
  destruct (min_created _) as [first last].
  destruct (if 0 <? _ then _ else _) as [ledger|]; cbn [rbind committed]; [|done].
  destruct (prune_outbox _ _ _ _) as [d3|] eqn:E3; cbn [rbind committed]; [|done].
  apply prune_unbooked in E3. eapply unbooked_trans; [exact E1|]. by eapply unbooked_trans.
Qed.
(** ** Requests *)

Lemma last_reason_none l :
  Forall (fun e => e.2 <> ""%string) l -> last_reason l = ""%string -> Forall (fun e => e.1 = false) l.
Proof.
  unfold last_reason. induction l as [|[b r] l IH] using rev_ind; [by constructor|].
  rewrite !Forall_app, foldl_app. intros [Hl [Hr _]%Forall_cons]. simpl in *.
  destruct b; [by intros ->|]. intros H. split; [by apply IH|by repeat constructor].
Qed.

Lemma no_dispatch_reason r x p now :
  dispatch_reason r x p now = ""%string -> po_day p <= utc_day now /\ po_hold p = false.
Proof.
  intros H. apply last_reason_none in H; [|repeat (constructor; [done|]); constructor].
  do 2 apply Forall_inv_tail in H. pose proof (Forall_inv H) as Hh. do 4 apply Forall_inv_tail in H.
  apply Forall_inv in H. simpl in H, Hh. bool_to_prop. split; [lia|done].
Qed.

(** What a debit makes of the books. *)
Record debited_by (channel : string) (day segments : Z) (d d' : OutboxDB) : Prop := {
  db_usage : usage_of channel day d' = ((usage_of channel day d).1 + 1, (usage_of channel day d).2 + segments);
  db_others : forall c day', (c, day') <> (channel, day) -> ~ stale_usage channel day (c, day') ->
    usage_of c day' d' = usage_of c day' d;
  db_sound : (forall c day, 0 <= (usage_of c day d).1 /\ 0 <= (usage_of c day d).2) ->
    forall c day, 0 <= (usage_of c day d').1 /\ 0 <= (usage_of c day d').2;
  db_policy : forall c p', od_policies d' !! c = Some p' ->
    exists p, od_policies d !! c = Some p /\ po_day p' = po_day p /\ po_messages p' = po_messages p
      /\ po_segments p' = po_segments p /\ po_hold p' = po_hold p }.

Lemma debit_books channel day segments d d' :
  debit channel day segments d = Ok d' -> debited_by channel day segments d d'.
Proof.
  unfold debit. destruct (negb (usage_fits _)) eqn:Hfits; [done|]. intros [= <-].
  apply negb_false_iff in Hfits. unfold usage_fits, within in Hfits. cbn [fst snd] in Hfits.
  assert (Hpos : 0 <= (usage_of channel day d).1 + 1 /\ 0 <= (usage_of channel day d).2 + segments) by (bool_to_prop; lia).
  assert (Hl : forall c day', ~ stale_usage channel day (c, day') ->
    filter (fun kv => ~ stale_usage channel day kv.1) (<[(channel, day) := ((usage_of channel day d).1 + 1,
      (usage_of channel day d).2 + segments)]> (od_usage d)) !! (c, day')
    = <[(channel, day) := ((usage_of channel day d).1 + 1, (usage_of channel day d).2 + segments)]> (od_usage d) !! (c, day')).
  { intros c day' Hs. rewrite map_lookup_filter. destruct (<[_ := _]> _ !! (c, day')); simpl; [|done].
    by rewrite option_guard_True. }
  split.
  - unfold usage_of at 1. simpl. rewrite Hl by (unfold stale_usage; simpl; lia). by rewrite lookup_insert_eq.
  - intros c day' Hne Hs. unfold usage_of at 1. simpl. rewrite Hl by done. rewrite lookup_insert_ne by congruence. done.
  - intros Hd c day'. unfold usage_of. simpl. rewrite map_lookup_filter.
    destruct (decide ((c, day') = (channel, day))) as [[= -> ->]|Hne].
    + rewrite lookup_insert_eq. simpl. unfold usage_of in Hpos. case_guard; simpl; lia.
    + rewrite lookup_insert_ne by congruence. specialize (Hd c day'). unfold usage_of in Hd.
      destruct (od_usage d !! (c, day')); simpl; [case_guard; simpl in *; lia|lia].
  - intros c p'. simpl. rewrite lookup_update_one. destruct (od_policies d !! c) as [p|]; simpl; [|done].
    intros [= <-]. exists p. split; [done|]. by destruct (bool_decide (c = channel)).
Qed.

Lemma block_unbooked id reason now unknown d : unbooked d (blockOfficial id reason now unknown d).
Proof. done. Qed.

(** The books after a request went out. *)
Record sent_books (r : OutboxRow) (x : DispatchRow) (p : PolicyRow) (now : time) (day : Z) (d d' : OutboxDB) : Prop := {
  sb_day : po_day p <= utc_day now;
  sb_hold : po_hold p = false;
  sb_policy : forall c p', od_policies d' !! c = Some p' ->
    exists p0, od_policies d !! c = Some p0 /\ po_day p0 <= po_day p' /\ po_messages p' = po_messages p0
      /\ po_segments p' = po_segments p0 /\ po_hold p' = po_hold p0 /\ (c = row_channel r -> utc_day now <= po_day p');
  sb_usage : at_budget_day (dp_attempt x) < 0 /\ day = utc_day now
      /\ exhausted p (row_channel r) (in_segments (dp_intent x)) (usage_of (row_channel r) day d) = false
      /\ debited_by (row_channel r) day (in_segments (dp_intent x)) d (with_policies (od_policies d) d')
    \/ 0 <= at_budget_day (dp_attempt x) /\ day = at_budget_day (dp_attempt x) /\ od_usage d' = od_usage d }.

Lemma commit_books id dst r x day now minimum d d' o :
  commit_intent id dst r x day now minimum d = (d', o) ->
  match o with
  | None => unbooked d d' /\ MaxDeliveryAttempts <= at_count (dp_attempt x)
  | Some m =>
      om_channel m = row_channel r /\ om_segments m = in_segments (dp_intent x) /\ od_usage d' = od_usage d
      /\ od_policies d' = od_policies (set_policy (row_channel r) (raise_clock (unix_milli now) (utc_day now)) d)
      /\ (od_dispatch d !! id = Some x -> exists y, od_dispatch d' = <[id := y]> (od_dispatch d)
           /\ at_count (dp_attempt y) = at_count (dp_attempt x) + 1 /\ at_budget_day (dp_attempt y) = day)
  end.
Proof.
  unfold commit_intent. destruct (MaxDeliveryAttempts <=? _) eqn:E.
  { intros [= <- <-]. bool_to_prop. by split; [apply block_unbooked|]. }
  intros [= <- <-]. split_and!; [done|done|by case_match|by case_match|].
  intros Hx. assert (He : forall f, (update_one id (fun _ => true) f (od_dispatch d)).1 = <[id := f x]> (od_dispatch d))
    by (intros f; unfold update_one; by rewrite Hx).
  case_match; simpl; rewrite He; by eexists.
Qed.
Lemma raised_policies channel ms day d d1 d' :
  (forall c p', od_policies d1 !! c = Some p' ->
    exists p, od_policies d !! c = Some p /\ po_day p' = po_day p /\ po_messages p' = po_messages p
      /\ po_segments p' = po_segments p /\ po_hold p' = po_hold p) ->
  od_policies d' = od_policies (set_policy channel (raise_clock ms day) d1) ->
  forall c p', od_policies d' !! c = Some p' ->
    exists p0, od_policies d !! c = Some p0 /\ po_day p0 <= po_day p' /\ po_messages p' = po_messages p0
      /\ po_segments p' = po_segments p0 /\ po_hold p' = po_hold p0 /\ (c = channel -> day <= po_day p').
Proof.
  intros H1 E c p'. rewrite E. simpl. rewrite lookup_update_one.
  destruct (od_policies d1 !! c) as [p1|] eqn:Hp1; simpl; [|done]. intros [= <-].
  destruct (H1 _ _ Hp1) as (p0 & H0 & Hd & Hm & Hs & Hh). exists p0. split; [done|].
  destruct (decide (c = channel)) as [->|Hne].
  - rewrite bool_decide_eq_true_2 by done. simpl. split_and!; [lia|done|done|done|lia].
  - rewrite bool_decide_eq_false_2 by done. simpl. split_and!; [lia|done|done|done|done].
Qed.

Lemma Begin_books id dst now minimum d d' o :
  BeginOfficialDispatch id dst now minimum d = Ok (d', o) ->
  exists r x p, od_dispatch d !! id = Some x /\ od_policies d !! row_channel r = Some p
    /\ match o with
       | None => unbooked d d' \/ at_budget_day (dp_attempt x) < 0 /\ MaxDeliveryAttempts <= at_count (dp_attempt x)
       | Some m =>
           exists y, rb_dispatch_attempt (om_read m) = at_count (dp_attempt x) + 1
             /\ om_channel m = row_channel r /\ om_segments m = in_segments (dp_intent x)
             /\ od_dispatch d' = <[id := y]> (od_dispatch d) /\ at_count (dp_attempt y) = at_count (dp_attempt x) + 1
             /\ 0 <= at_budget_day (dp_attempt y)
             /\ sent_books r x p now (at_budget_day (dp_attempt y)) d d'
       end
  \/ o = None /\ d' = d.
Proof.
  intros H. pose proof (Begin_spec _ _ _ _ _ _ _ H) as Hspec. revert H.
  unfold BeginOfficialDispatch. destruct (_ || (0 <? minimum) && _)%bool eqn:Ev; [done|].
  assert (Hnow : 0 < unix_milli now) by (bool_to_prop; lia). clear Ev.
  unfold readOfficialRow. destruct (od_rows d !! id) as [r|] eqn:Hr; [|done].
  destruct (od_dispatch d !! id) as [x|] eqn:Hx; [|done]. cbn [rbind].
  destruct (negb (_ =?s dst) || _)%bool; [done|].
  destruct (negb (sendable _ _ _) || _)%bool; [intros [= <- <-]; exists r, x, no_policy; by right|].
  destruct (od_policies d !! row_channel r) as [p|] eqn:Hp; [|done].
  destruct (negb (dispatch_reason _ _ _ _ =?s _)) eqn:Hreason.
  { intros [= <- <-]. exists r, x, p. left. split_and!; [done|done|left; apply block_unbooked]. }
  apply negb_false_iff, String.eqb_eq, no_dispatch_reason in Hreason as [Hreason Hhold].
  assert (Hday : 0 <= utc_day now).
  { unfold utc_day. apply Z.quot_pos; [|lia]. unfold unix_milli, unix_sec, millisecond, second in *.
    apply Z.div_pos; [|lia]. destruct (Z.le_gt_cases 0 (now - unix_epoch)); [done|].
    assert ((now - unix_epoch) / 1000000 < 0) by (apply Z.div_lt_upper_bound; lia). lia. }
  intros H'. exists r, x, p. left. split; [done|]. split; [done|]. revert H'.
  destruct (at_budget_day (dp_attempt x) <? 0) eqn:Ed; bool_to_prop.
  - destruct (exhausted _ _ _ _) eqn:Ee; [intros [= <- <-]; left; apply block_unbooked|].
    destruct (debit _ _ _ d) as [d1|] eqn:Edeb; cbn [rbind]; [|done]. intros [= Hc].
    apply commit_books in Hc. destruct o as [m|]; [|right; tauto].
    destruct Hc as (Hch & Hseg & Husage & Hpol & Hdisp).
    pose proof (debit_tables _ _ _ _ _ Edeb) as [_ Ex]. apply debit_books in Edeb as Hbooks. rewrite Ex in Hdisp.
    destruct (Hdisp Hx) as (y & Hy & Hcount & Hbd). exists y.
    destruct Hspec as (r0 & x0 & p0 & L). pose proof (lo_number _ _ _ _ _ _ _ _ L) as Hn.
    pose proof (lo_dispatch _ _ _ _ _ _ _ _ L) as Hx0. rewrite Hx in Hx0. injection Hx0 as <-.
    split_and!; [done|done|done|done|done|by rewrite Hbd|]. split; [done|done| |].
    + apply (raised_policies _ (unix_milli now) (utc_day now) d d1); [apply Hbooks|done].
    + left. rewrite Hbd. split_and!; [done|done|done|]. destruct Hbooks as [U O N P].
      assert (E : forall c day, usage_of c day (with_policies (od_policies d) d') = usage_of c day d1)
        by (intros c day; unfold usage_of; simpl; by rewrite Husage).
      split; [by rewrite E|intros c day' Hne Hs; rewrite E; auto|intros Hd c day'; rewrite E; auto|intros c p' Hp'; by exists p'].
  - intros [= Hc]. apply commit_books in Hc. destruct o as [m|]; [|left; tauto].
    destruct Hc as (Hch & Hseg & Husage & Hpol & Hdisp). destruct (Hdisp Hx) as (y & Hy & Hcount & Hbd). exists y.
    destruct Hspec as (r0 & x0 & p0 & L). pose proof (lo_number _ _ _ _ _ _ _ _ L) as Hn.
    pose proof (lo_dispatch _ _ _ _ _ _ _ _ L) as Hx0. rewrite Hx in Hx0. injection Hx0 as <-.
    split_and!; [done|done|done|done|done|by rewrite Hbd|]. split; [done|done| |].
    + apply (raised_policies _ (unix_milli now) (utc_day now) d d); [intros c p' Hp'; by exists p'|done].
    + right. by rewrite Hbd.
Qed.

(** ** The ledger and its backups *)

(** An operation of the running daemon, a backup of its database, or a restore of the
    [n]th backup, which replaces the database by a copy of the one of that time. *)
Inductive ledger_op :=
| Operate (op : outbox_op)
| BackUp
| RestoreBackUp (n : nat) (clock : time).

(** What the platforms see: a message for the first time (channel, day and segments), or
    that the ledger was taken back. *)
Inductive ledger_event :=
| FirstSent (channel : string) (day segments : Z)
| TakenBack.

Definition sent_by (d : OutboxDB) (op : outbox_op) : list ledger_event :=
  match op with
  | OpBegin id dst now minimum =>
      match BeginOfficialDispatch id dst now minimum d with
      | Ok (_, Some m) =>
          if rb_dispatch_attempt (om_read m) =? 1 then [FirstSent (om_channel m) (utc_day now) (om_segments m)] else []
      | _ => []
      end
  | _ => []
  end.

Record ledger := mkLedger { lg_now : OutboxDB; lg_backups : list OutboxDB; lg_log : list ledger_event }.

Definition ledger_step (s : ledger) (op : ledger_op) : ledger :=
  match op with
  | Operate op =>
      mkLedger (outbox_step parse_json event_of (lg_now s) op) (lg_backups s) (lg_log s ++ sent_by (lg_now s) op)
  | BackUp => mkLedger (lg_now s) (lg_backups s ++ [lg_now s]) (lg_log s)
  | RestoreBackUp n clock =>
      if lg_backups s !! n is Some d
      then mkLedger (markRestoredOfficialHold clock d) (lg_backups s) (lg_log s ++ [TakenBack])
      else s
  end.
Definition ledger_run (ops : list ledger_op) : ledger := foldl ledger_step (mkLedger empty_outbox [] []) ops.

(** The messages, or the segments, that went out on a day. *)
Definition spent (sms : bool) (c : string) (day : Z) (log : list ledger_event) : Z :=
  sumZ ((fun e => match e with
                  | FirstSent c' day' g => if bool_decide ((c', day') = (c, day)) then if sms then g else 1 else 0
                  | TakenBack => 0
                  end) <$> log).
Definition since_restore (log : list ledger_event) : list ledger_event :=
  foldl (fun l e => match e with TakenBack => [] | _ => l ++ [e] end) [] log.

Definition configured_cap (sms : bool) (p : OfficialChannelPolicy) : Z := if sms then op_segments p else op_messages p.

(** Every limit that the operations configure for the channel is at most [L]. *)
Definition capped (sms : bool) (c : string) (L : Z) (op : ledger_op) : Prop :=
  match op with Operate (OpPolicy c' p _) => c' = c -> configured_cap sms p <= L | _ => True end.
(** The daily number of messages of the channel is always configured as [M]. *)
Definition steady (c : string) (M : Z) (op : ledger_op) : Prop :=
  match op with Operate (OpPolicy c' p _) => c' = c -> op_messages p = M | _ => True end.
(** The days on which requests are asked for and reconciliations made. *)
Definition clock_day (op : ledger_op) : option Z :=
  match op with
  | Operate (OpBegin _ _ now _) | Operate (OpReconcile _ _ now) => Some (utc_day now)
  | _ => None
  end.
Definition forward (ops : list ledger_op) : Prop := StronglySorted Z.le (omap clock_day ops).

(** ** What every ledger keeps *)

Definition amount (sms : bool) (u : Z * Z) : Z := if sms then u.2 else u.1.
Definition policy_cap (sms : bool) (p : PolicyRow) : Z := if sms then po_segments p else po_messages p.

Definition attempt_ok (x : DispatchRow) : Prop :=
  0 <= at_count (dp_attempt x) /\ (at_budget_day (dp_attempt x) < 0 <-> at_count (dp_attempt x) = 0).

(** What a database keeps wherever it is copied to. *)
Record ledger_sound (d : OutboxDB) : Prop := {
  ls_attempts : forall id x, od_dispatch d !! id = Some x -> attempt_ok x;
  ls_usage : forall c day, 0 <= (usage_of c day d).1 /\ 0 <= (usage_of c day d).2 }.

Lemma attempts_calm d d' : (forall id x, od_dispatch d !! id = Some x -> attempt_ok x) -> calm d d' ->
  forall id x, od_dispatch d' !! id = Some x -> attempt_ok x.
Proof.
  intros Ha Hc id y Hy. destruct (cm_dispatch _ _ Hc _ _ Hy) as (x & Hx & [_ _ _ C D _]).
  specialize (Ha _ _ Hx). unfold attempt_ok in *. by rewrite C, D.
Qed.

Lemma attempts_grown d d' : (forall id x, od_dispatch d !! id = Some x -> attempt_ok x) -> grown d d' ->
  forall id x, od_dispatch d' !! id = Some x -> attempt_ok x.
Proof.
  intros Ha Hg id y Hy. destruct (gr_fresh _ _ Hg _ _ Hy) as [Hx|(_ & (_ & C & _ & D) & _)]; [eauto|].
  unfold attempt_ok. rewrite C, D. lia.
Qed.
(** Operations that neither send nor configure. *)
Ltac split_tx :=
  repeat match goal with
  | |- booked _ _ (committed _ (if ?b then _ else _)) => destruct b; cbn [committed rbind]
  | |- booked _ _ (committed _ (rbind ?r _)) => let E := fresh "E" in destruct r eqn:E; cbn [committed rbind]
  | |- booked _ _ (committed _ (let '(_, _) := ?p in _)) => destruct p
  | |- booked _ _ (committed _ (match ?o with Some _ => _ | None => _ end)) => destruct o eqn:?
  | |- booked _ _ (committed _ (Ok _)) => cbn [committed]
  | |- booked _ _ (committed _ (Err _)) => cbn [committed]
  end.
Ltac same_books :=
  apply booked_unbooked; first [done | repeat match goal with |- context [if ?b then _ else _] => destruct b end; done].

Lemma booked_optout l channel now d d1 : booked l d d1 -> booked l d (persistOfficialOptout channel now d1).
Proof.
  intros Hb. apply (booked_trans _ _ d1 _ Hb). apply (booked_trans _ _ (set_policy channel (opt_out (unix_milli now)) d1)).
  - apply booked_set_policy. intros p. simpl. split_and!; [lia|done|done|auto].
  - by apply booked_unbooked.
Qed.

Lemma booked_resolve l id now res d : booked l d (committed d (ResolveOfficialDispatch id now res d)).
Proof.
  unfold ResolveOfficialDispatch. destruct (_ || negb (valid_codes _ _))%bool; [same_books|].
  destruct (readOfficialRow id d) as [[r x]|]; [|same_books]. cbn [rbind].
  destruct (_ || negb (at_count _ =? _))%bool; [same_books|].
  destruct (match rs_outcome res with OutcomeAccepted => _ | _ => _ end) as [d1|] eqn:E1; cbn [rbind committed]; [|same_books].
  assert (H1 : unbooked d d1).
  { destruct (rs_outcome res); [unfold accept in E1; case_match; [done|]; by injection E1 as <-|..].
    all: injection E1 as <-; unfold left_unknown, refused;
      repeat match goal with |- unbooked _ (if ?b then _ else _) => destruct b end; by repeat case_match. }
  set (d2 := if rs_optout res then _ else d1).
  assert (H2 : booked l d d2) by (subst d2; destruct (rs_optout res); [apply booked_optout|]; by apply booked_unbooked).
  apply (booked_trans _ _ d2 _ H2), booked_unbooked. by destruct (rs_suspend res).
Qed.

Lemma booked_resolve_poll l id now res d : booked l d (committed d (ResolveOfficialPoll id now res d)).
Proof.
  unfold ResolveOfficialPoll. split_tx; try same_books.
  set (d1 := if pr_optout res then _ else d).
  assert (H1 : booked l d d1) by (subst d1; destruct (pr_optout res); [apply booked_optout|]; by apply booked_unbooked).
  apply (booked_trans _ _ d1 _ H1), booked_unbooked. by destruct (pr_suspend res || (0 <? pr_retry_after res))%bool.
Qed.

Lemma booked_reconcile channel reference now d : booked channel d (committed d (ReconcileOfficialPaidChannel channel reference now d)).
Proof.
  unfold ReconcileOfficialPaidChannel. split_tx; try same_books.
  set (used := usage_of channel (utc_day now) d). set (d1 := with_usage _ d).
  assert (Hu : forall c day, (usage_of c day d).1 <= (usage_of c day d1).1 /\ (usage_of c day d).2 <= (usage_of c day d1).2).
  { intros c day. unfold usage_of at 2 4. subst d1. simpl. destruct (decide ((c, day) = (channel, utc_day now))) as [[= -> ->]|Hne].
    - rewrite lookup_insert_eq. simpl. fold used. lia.
    - rewrite lookup_insert_ne by congruence. fold (usage_of c day d). lia. }
  apply (booked_trans _ _ d1).
  - split; [apply Hu|apply Hu|]. intros c p' Hp'. exists p'. split_and!; [done|lia|done|done|auto].
  - set (d2 := set_policy _ _ d1). apply (booked_trans _ _ d2); [|by apply booked_unbooked].
    apply booked_set_policy. intros p0. simpl. split_and!; [lia|done|done|auto].
Qed.

Lemma booked_restore l clock d : booked l d (markRestoredOfficialHold clock d).
Proof.
  apply (booked_trans _ _ (with_policies (update_where (fun c _ => paidOfficialChannel c) (fun _ => held) (od_policies d)) d));
    [|by apply booked_unbooked].
  apply booked_policies. intros c p'. rewrite lookup_update_where.
  destruct (od_policies d !! c) as [p|]; simpl; [|done]. intros [= <-]. exists p. split; [done|].
  case_if; simpl; split_and!; try done; try lia; auto.
Qed.

(** The channel that an operation releases from its hold. *)
Definition lifted (op : outbox_op) : string := match op with OpReconcile channel _ _ => channel | _ => "" end.

Lemma booked_op d op :
  match op with OpPolicy _ _ _ | OpBegin _ _ _ _ => False | _ => True end ->
  booked (lifted op) d (outbox_step parse_json event_of d op).
Proof.
  destruct op; intros []; cbn [outbox_step lifted].
  - destruct (enqueue _ _ _ _) as [[d1 a]|] eqn:E; [|same_books]. by eapply booked_unbooked, enqueue_unbooked.
  - destruct (recordEventNotification _ _ _ _ _ _ _) as [d1|] eqn:E; [|same_books]. apply booked_unbooked.
    unfold recordEventNotification in E. destruct m as [m|]; [|by eapply record_one_unbooked].
    case_match; [by eapply record_each_unbooked|done].
  - unfold ClaimNotification. split_tx; same_books.
  - same_books.
  - unfold ReserveNotificationAttempt. split_tx; same_books.
  - unfold MarkRateLimited. split_tx; same_books.
  - same_books.
  - unfold MarkSentWithCooldown. split_tx; same_books.
  - unfold quarantine, affected. split_tx; same_books.
  - unfold RetryNotification, affected. split_tx; same_books.
  - unfold ResumeDestination. split_tx; same_books.
  - destruct (ExpireNotifications now d) as [d1|] eqn:E; [|same_books]. by eapply booked_unbooked, expire_unbooked.
  - unfold ConfigureNotificationTarget. split_tx; same_books.
  - unfold DiscardIsolatedNotifications. split_tx; same_books.
  - apply booked_unbooked, silence_unbooked.
  - unfold RemoveSilence. split_tx; same_books.
  - apply booked_resolve.
  - unfold PendingOfficialPolls. split_tx; same_books.
  - unfold ClaimOfficialPoll. split_tx; same_books.
  - apply booked_resolve_poll.
  - apply booked_reconcile.
  - apply booked_restore.
Qed.
Lemma attempts_step d op : (forall id x, od_dispatch d !! id = Some x -> attempt_ok x) ->
  forall id x, od_dispatch (outbox_step parse_json event_of d op) !! id = Some x -> attempt_ok x.
Proof.
  intros Ha. destruct op; try (eapply attempts_calm; [exact Ha|by apply calm_op]); cbn [outbox_step].
  - destruct (enqueue _ _ _ _) as [[d1 a]|] eqn:E; [|exact Ha]. by eapply attempts_grown, enqueue_grown.
  - destruct (recordEventNotification _ _ _ _ _ _ _) as [d1|] eqn:E; [|exact Ha]. by eapply attempts_grown, record_grown.
  - destruct (BeginOfficialDispatch _ _ _ _ _) as [[d1 o]|] eqn:E; [|exact Ha]. cbn [committed].
    destruct (Begin_books _ _ _ _ _ _ _ E) as (r & x & p & [(Hx & Hp & Ho)|[-> ->]]); [|exact Ha].
    destruct o as [m|].
    + destruct Ho as (y & _ & _ & _ & Hd & Hc & Hb & _). intros id' z. rewrite Hd.
      destruct (decide (id' = id)) as [->|Hne]; [|rewrite lookup_insert_ne by done; apply Ha].
      rewrite lookup_insert_eq. intros [= <-]. destruct (Ha _ _ Hx) as [H0 _]. unfold attempt_ok. rewrite Hc. lia.
    + apply Begin_spec in E. by eapply attempts_calm.
  - destruct (ResolveOfficialDispatch _ _ _ _) as [[d1 u]|] eqn:E; [|exact Ha]. cbn [committed].
    apply Resolve_spec in E as (r & x & f & Hr & Hx & _ & _ & Ht & [_ _ C D _ _]). intros id' y Hy.
    rewrite (tc_dispatch _ _ _ _ Ht) in Hy. destruct (od_dispatch d !! id') as [x'|] eqn:Hx'; [|done].
    injection Hy as <-. destruct (decide (id' = id)) as [->|Hne].
    + rewrite bool_decide_eq_true_2 by done. rewrite Hx in Hx'. injection Hx' as <-.
      specialize (Ha _ _ Hx). unfold attempt_ok in *. by rewrite C, D.
    + rewrite bool_decide_eq_false_2 by done. eauto.
Qed.


(** ** Requests in the books *)

(** A message of channel [c] goes out for the first time on [day]. *)
Record first_sent (c : string) (p : PolicyRow) (g day : Z) (d d' : OutboxDB) : Prop := {
  fs_policy : od_policies d !! c = Some p;
  fs_day : po_day p <= day;
  fs_hold : po_hold p = false;
  fs_room : exhausted p c g (usage_of c day d) = false;
  fs_usage : usage_of c day d' = ((usage_of c day d).1 + 1, (usage_of c day d).2 + g);
  fs_others : forall c' day', (c', day') <> (c, day) -> ~ stale_usage c day (c', day') ->
    usage_of c' day' d' = usage_of c' day' d;
  fs_policies : forall c' p', od_policies d' !! c' = Some p' ->
    exists p0, od_policies d !! c' = Some p0 /\ po_day p0 <= po_day p' /\ po_messages p' = po_messages p0
      /\ po_segments p' = po_segments p0 /\ po_hold p' = po_hold p0 /\ (c' = c -> day <= po_day p') }.

Lemma begin_cases d id dst now minimum d' o :
  ledger_sound d -> BeginOfficialDispatch id dst now minimum d = Ok (d', o) ->
  ledger_sound d' /\
  (sent_by d (OpBegin id dst now minimum) = [] /\ booked "" d d'
   \/ exists c p g, sent_by d (OpBegin id dst now minimum) = [FirstSent c (utc_day now) g]
        /\ first_sent c p g (utc_day now) d d').
Proof.
  intros [Ha Hu] E.
  assert (Ha' : forall id' x, od_dispatch d' !! id' = Some x -> attempt_ok x).
  { pose proof (attempts_step d (OpBegin id dst now minimum) Ha) as H. cbn [outbox_step] in H. by rewrite E in H. }
  assert (Hsound : booked "" d d' -> ledger_sound d').
  { intros [M S _]. split; [done|]. intros c day. specialize (M c day). specialize (S c day). specialize (Hu c day). lia. }
  cbn [sent_by]. rewrite E.
  destruct (Begin_books _ _ _ _ _ _ _ E) as (r & x & p & [(Hx & Hpol & Ho)|[-> ->]]).
  2:{ split; [by split|]. left. split; [done|by apply booked_unbooked]. }
  destruct (Ha _ _ Hx) as [H0 Hday]. destruct o as [m|].
  2:{ assert (Hb : booked "" d d') by (apply booked_unbooked; unfold MaxDeliveryAttempts in Ho; destruct Ho as [Ho|[Hb Hc]];
        [done|lia]). auto. }
  destruct Ho as (y & Hn & Hch & Hseg & _ & _ & _ & [Hclock Hh Hpol' Husage]).
  rewrite Hn, Hch, Hseg. destruct Husage as [(Hb & Hd & Hex & [U O N _])|(Hb & Hd & Hused)].
  - assert (Hcount : at_count (dp_attempt x) = 0) by (by apply Hday). rewrite Hcount. simpl. rewrite Hd in *.
    split; [split; [done|exact (N Hu)]|]. right. exists (row_channel r), p, (in_segments (dp_intent x)). split; [done|]. by split.
  - assert (Hcount : at_count (dp_attempt x) <> 0) by (intros Hz; apply Hday in Hz; lia).
    rewrite (proj2 (Z.eqb_neq _ _)) by lia.
    assert (Hbk : booked "" d d').
    { split; [| |intros c p' Hp'; destruct (Hpol' _ _ Hp') as (p0 & ? & ? & ? & ? & Hh' & _); exists p0; split_and!; try done;
        rewrite Hh'; auto]; intros c day; unfold usage_of; rewrite Hused; lia. }
    auto.
Qed.

Lemma policy_books d channel p now c p' :
  let d' := outbox_step parse_json event_of d (OpPolicy channel p now) in
  od_policies d' !! c = Some p' ->
  exists p0, od_policies d !! c = Some p0 /\ po_day p' = po_day p0 /\ po_hold p' = po_hold p0
    /\ (po_messages p' = po_messages p0 /\ po_segments p' = po_segments p0
        \/ channel = c /\ po_messages p' = op_messages p /\ po_segments p' = op_segments p).
Proof.
  cbn [outbox_step]. unfold ConfigureOfficialPolicy. destruct (negb _); [eauto 10|].
  destruct (od_policies d !! channel) as [o|] eqn:Ho; [|eauto 10]. cbn [committed].
  set (row := mkPolicyRow _ _ _ _ _ _ _ _ _ _ _ _ _ _ _ _ _ _). set (d1 := if op_revoked p then _ else _).
  assert (E : od_policies d1 = <[channel := row]> (od_policies d)) by (subst d1; by destruct (op_revoked p)).
  rewrite E. destruct (decide (c = channel)) as [->|Hne]; [|rewrite lookup_insert_ne by done; eauto 10].
  rewrite lookup_insert_eq. intros [= <-]. exists o. subst row. simpl. auto 10.
Qed.

Lemma policy_usage d channel p now : od_usage (outbox_step parse_json event_of d (OpPolicy channel p now)) = od_usage d.
Proof.
  cbn [outbox_step]. unfold ConfigureOfficialPolicy. destruct (negb _); [done|].
  destruct (od_policies d !! channel); [|done]. cbn [committed]. by destruct (op_revoked p).
Qed.

Lemma sound_step d op : ledger_sound d -> ledger_sound (outbox_step parse_json event_of d op).
Proof.
  intros Hs. assert (Hk : booked (lifted op) d (outbox_step parse_json event_of d op) ->
    ledger_sound (outbox_step parse_json event_of d op)).
  { intros [M S _]. split; [apply attempts_step, Hs|]. intros c day. pose proof (ls_usage _ Hs c day).
    specialize (M c day). specialize (S c day). lia. }
  destruct op; try (apply Hk; by apply booked_op).
  - split; [apply attempts_step, Hs|]. intros c day. unfold usage_of. rewrite policy_usage. apply Hs.
  - cbn [outbox_step]. destruct (BeginOfficialDispatch _ _ _ _ _) as [[d' o]|] eqn:E; [|done].
    by apply (begin_cases d) in E as [? _].
Qed.

Lemma spent_app sms c day l1 l2 : spent sms c day (l1 ++ l2) = spent sms c day l1 + spent sms c day l2.
Proof. unfold spent. by rewrite fmap_app, sumZ_app. Qed.
Lemma spent_one sms c c' day day' g :
  spent sms c day [FirstSent c' day' g] = if bool_decide ((c', day') = (c, day)) then if sms then g else 1 else 0.
Proof. unfold spent. simpl. lia. Qed.

Lemma since_restore_app log op d :
  since_restore (log ++ sent_by d op) = since_restore log ++ sent_by d op.
Proof.
  unfold since_restore. rewrite foldl_app. destruct op; simpl; rewrite ?app_nil_r; try done.
  destruct (BeginOfficialDispatch _ _ _ _ _) as [[d' [m|]]|]; simpl; rewrite ?app_nil_r; try done.
  case_match; simpl; by rewrite ?app_nil_r.
Qed.

(** ** Within one ledger *)

Record era_inv (sms : bool) (c : string) (L : Z) (d : OutboxDB) (log : list ledger_event) : Prop := {
  ei_sound : ledger_sound d;
  ei_policy : forall p, od_policies d !! c = Some p ->
    policy_cap sms p <= L /\ forall day, po_day p <= day -> spent sms c day log <= amount sms (usage_of c day d);
  ei_spent : forall day, spent sms c day log <= L }.

Lemma era_booked sms c L l d d' log :
  era_inv sms c L d log -> booked l d d' -> ledger_sound d' -> era_inv sms c L d' log.
Proof.
  intros [_ Hp Hs] [BM BS BP] Ha. split; [done| |done]. intros p' Hp'.
  destruct (BP _ _ Hp') as (p & Hp0 & Hd & Hm & Hg & _). destruct (Hp _ Hp0) as [Hcap Hday].
  split; [unfold policy_cap in *; destruct sms; lia|]. intros day Hle.
  specialize (Hday day ltac:(lia)). specialize (BM c day). specialize (BS c day). unfold amount in *.
  destruct sms; lia.
Qed.

(** A request takes what its debit left. *)
Lemma first_sent_room sms c p g day d d' :
  (sms = true -> c = "twilio_sms"%string) -> first_sent c p g day d d' ->
  amount sms (usage_of c day d) + (if sms then g else 1) <= policy_cap sms p
  /\ amount sms (usage_of c day d') = amount sms (usage_of c day d) + (if sms then g else 1)
  /\ (usage_of c day d).1 < po_messages p.
Proof.
  intros Hsms [_ _ _ Hex U _ _]. rewrite U. unfold exhausted in Hex. apply orb_false_iff in Hex as [E1 E2].
  unfold amount, policy_cap. destruct sms; [|simpl; bool_to_prop; lia].
  rewrite (Hsms eq_refl) in *. simpl in E2 |- *. bool_to_prop. lia.
Qed.

Lemma era_first_sent sms c L d d' log ch p g day :
  (sms = true -> c = "twilio_sms"%string) -> era_inv sms c L d log -> ledger_sound d' ->
  first_sent ch p g day d d' -> era_inv sms c L d' (log ++ [FirstSent ch day g]).
Proof.
  intros Hsms [Ha Hp Hs] Ha' Hf. pose proof Hf as [Hpol Hclock _ _ _ O Hpol'].
  destruct (decide (c = ch)) as [->|Hne].
  - destruct (Hp _ Hpol) as [Hcap Hle]. specialize (Hle _ Hclock) as Hnow.
    destruct (first_sent_room _ _ _ _ _ _ _ Hsms Hf) as (Hroom & Hused & _). split; [done| |].
    + intros p' Hp'. destruct (Hpol' _ _ Hp') as (p0 & Hp0 & Hd0 & Hm & Hg & _ & Hd1). rewrite Hpol in Hp0.
      injection Hp0 as <-. split; [unfold policy_cap in *; destruct sms; lia|]. intros day' Hge. specialize (Hd1 eq_refl).
      rewrite spent_app, spent_one. destruct (decide (day' = day)) as [->|Hne'].
      * rewrite bool_decide_eq_true_2 by done. lia.
      * rewrite bool_decide_eq_false_2 by congruence. rewrite O; [|congruence|unfold stale_usage; simpl; lia].
        specialize (Hle day' ltac:(lia)). lia.
    + intros day'. rewrite spent_app, spent_one. specialize (Hs day'). case_bool_decide as Eq; [injection Eq as <-|]; lia.
  - assert (Hz : forall day', spent sms c day' (log ++ [FirstSent ch day g]) = spent sms c day' log).
    { intros day'. rewrite spent_app, spent_one, bool_decide_eq_false_2 by congruence. lia. }
    split; [done| |intros day'; rewrite Hz; apply Hs].
    intros p' Hp'. destruct (Hpol' _ _ Hp') as (p0 & Hp0 & Hd0 & Hm & Hg & _). destruct (Hp _ Hp0) as [Hcap Hle].
    split; [unfold policy_cap in *; destruct sms; lia|]. intros day' Hge. rewrite Hz, O;
      [apply Hle; lia|congruence|unfold stale_usage; simpl; by intros [? _]].
Qed.

Lemma era_op sms c L d log op :
  (sms = true -> c = "twilio_sms"%string) -> capped sms c L (Operate op) -> era_inv sms c L d log ->
  era_inv sms c L (outbox_step parse_json event_of d op) (log ++ sent_by d op).
Proof.
  intros Hsms Hc Hi. pose proof (sound_step d op (ei_sound _ _ _ _ _ Hi)) as Hs.
  assert (Hk : sent_by d op = [] -> booked (lifted op) d (outbox_step parse_json event_of d op) ->
    era_inv sms c L (outbox_step parse_json event_of d op) (log ++ sent_by d op)).
  { intros -> Hb. rewrite app_nil_r. by eapply era_booked. }
  destruct op; try (apply Hk; [done|by apply booked_op]).
  - cbn [sent_by]. rewrite app_nil_r. split; [exact Hs| |apply Hi]. intros p' Hp'.
    destruct (policy_books _ _ _ _ _ _ Hp') as (p0 & Hp0 & Hd & _ & Hl). destruct (ei_policy _ _ _ _ _ Hi _ Hp0) as [Hcap Hle].
    unfold usage_of. rewrite policy_usage, Hd. split; [|exact Hle].
    destruct Hl as [[Hm Hg]|(-> & Hm & Hg)]; [unfold policy_cap in *; destruct sms; lia|].
    specialize (Hc eq_refl). unfold configured_cap, policy_cap in *. destruct sms; lia.
  - destruct (BeginOfficialDispatch id destination now minimum d) as [[d' o]|] eqn:E.
    + cbn [outbox_step] in *. rewrite E in *. cbn [committed] in *.
      destruct (begin_cases d _ _ _ _ _ _ (ei_sound _ _ _ _ _ Hi) E) as (_ & [[-> Hb]|(ch & p & g & -> & Hf)]).
      * rewrite app_nil_r. by eapply era_booked.
      * by eapply era_first_sent.
    + cbn [outbox_step sent_by]. rewrite E. by rewrite app_nil_r.
Qed.

(** A backup, whose books say nothing of what was sent after it. *)
Record saved (sms : bool) (c : string) (L : Z) (d : OutboxDB) : Prop := {
  sv_sound : ledger_sound d;
  sv_policy : forall p, od_policies d !! c = Some p -> policy_cap sms p <= L }.

Lemma era_saved sms c L d log : era_inv sms c L d log -> saved sms c L d.
Proof. intros [Ha Hp _]. split; [done|]. intros p Hpol. by apply Hp. Qed.

Lemma sound_restored clock d : ledger_sound d -> ledger_sound (markRestoredOfficialHold clock d).
Proof. apply (sound_step d (OpRestore clock)). Qed.

Lemma era_restored sms c L clock d : 0 <= L -> saved sms c L d -> era_inv sms c L (markRestoredOfficialHold clock d) [].
Proof.
  intros HL [Ha Hp]. apply (sound_restored clock) in Ha as Ha'. split; [done| |done]. intros p' Hp'.
  destruct (bk_policy _ _ _ (booked_restore "" clock d) _ _ Hp') as (p & Hp0 & _ & Hm & Hg & _). specialize (Hp _ Hp0).
  split; [unfold policy_cap in *; destruct sms; lia|]. intros day _. pose proof (ls_usage _ Ha' c day).
  unfold spent, amount. simpl. destruct sms; lia.
Qed.

Lemma empty_sound : ledger_sound empty_outbox.
Proof. split; [done|]. intros c day. by vm_compute. Qed.
Lemma empty_policy c p : od_policies empty_outbox !! c = Some p -> p = no_policy.
Proof. simpl. intros Hp. repeat (apply lookup_insert_Some in Hp as [[_ <-]|[_ Hp]]; [done|]). by rewrite lookup_empty in Hp. Qed.

Lemma era_run sms c L ops :
  (sms = true -> c = "twilio_sms"%string) -> 0 <= L -> Forall (capped sms c L) ops ->
  era_inv sms c L (lg_now (ledger_run ops)) (since_restore (lg_log (ledger_run ops)))
  /\ Forall (saved sms c L) (lg_backups (ledger_run ops)).
Proof.
  intros Hsms HL. unfold ledger_run. induction ops as [|op ops IH] using rev_ind; intros Hf.
  - split; [|by constructor]. split; [apply empty_sound| |done]. simpl. intros p ->%empty_policy.
    split; [by destruct sms|intros day _; by destruct sms].
  - apply Forall_app in Hf as [Hf1 [Hc _]%Forall_cons]. rewrite foldl_app. simpl.
    destruct (IH Hf1) as [Hi Hb]. set (s := foldl _ _ ops) in *. destruct op as [op| |n clock]; simpl.
    + split; [|done]. rewrite since_restore_app. by apply era_op.
    + split; [done|]. apply Forall_app. split; [done|]. constructor; [by eapply era_saved|constructor].
    + destruct (lg_backups s !! n) as [d|] eqn:E; [|done]. simpl. split; [|done].
      unfold since_restore. rewrite foldl_app. simpl. apply era_restored; [done|].
      by eapply Forall_lookup_1.
Qed.

(** ** Across restores *)

(** [T] is the last day that the clock has reached. *)
Record paid_inv (sms : bool) (c : string) (M L T : Z) (d : OutboxDB) (log : list ledger_event) : Prop := {
  pi_sound : ledger_sound d;
  pi_policy : forall p, od_policies d !! c = Some p ->
    policy_cap sms p <= L /\ (po_messages p = M \/ po_messages p <= 0)
    /\ (po_hold p = true \/ forall day, T <= day ->
          spent sms c day log <= amount sms (usage_of c day d) \/ M <= (usage_of c day d).1);
  pi_spent : forall day, spent sms c day log <= L;
  pi_late : forall day, T < day -> spent sms c day log = 0 }.

Lemma paid_later sms c M L T T' d log : T <= T' -> paid_inv sms c M L T d log -> paid_inv sms c M L T' d log.
Proof.
  intros Ht [Ha Hp Hs Hl]. split; [done| |done|intros day Hd; apply Hl; lia].
  intros p Hpol. destruct (Hp _ Hpol) as (H1 & H2 & H3). split_and!; [done..|].
  destruct H3 as [H3|H3]; [by left|right]. intros day Hd. apply H3. lia.
Qed.

Lemma paid_booked sms c M L T l d d' log :
  paid_inv sms c M L T d log -> booked l d d' -> l <> c -> ledger_sound d' -> paid_inv sms c M L T d' log.
Proof.
  intros [_ Hp Hs Hlate] [BM BS BP] Hne Ha. split; [done| |done|done]. intros p' Hp'.
  destruct (BP _ _ Hp') as (p & Hp0 & Hd & Hm & Hg & Hh). destruct (Hp _ Hp0) as (Hcap & HM & Hday).
  split_and!; [unfold policy_cap in *; destruct sms; lia|lia|].
  destruct Hday as [Hhold|Hday]; [left; destruct (Hh Hhold); congruence|right]. intros day Hle.
  specialize (Hday day Hle). specialize (BM c day). specialize (BS c day). unfold amount in *. destruct sms; lia.
Qed.

Lemma paid_first_sent sms c M L d d' log ch p g day :
  (sms = true -> c = "twilio_sms"%string) -> 0 <= M -> paid_inv sms c M L day d log -> ledger_sound d' ->
  first_sent ch p g day d d' -> paid_inv sms c M L day d' (log ++ [FirstSent ch day g]).
Proof.
  intros Hsms HM [Ha Hp Hs Hlate] Ha' Hf. pose proof Hf as [Hpol _ Hhold _ U O Hpol'].
  destruct (decide (c = ch)) as [->|Hne].
  - destruct (Hp _ Hpol) as (Hcap & Hlim & Hle). destruct Hle as [Hle|Hle]; [congruence|].
    destruct (first_sent_room _ _ _ _ _ _ _ Hsms Hf) as (Hroom & Hused & Hmessages).
    pose proof (Hle day (Z.le_refl _)) as Hnow. destruct Hnow as [Hnow|Hnow]; [|lia].
    split; [done| | |].
    + intros p' Hp'. destruct (Hpol' _ _ Hp') as (p0 & Hp0 & _ & Hm & Hg & _). rewrite Hpol in Hp0.
      injection Hp0 as <-. split_and!; [unfold policy_cap in *; destruct sms; lia|lia|right]. intros day' Hge.
      rewrite spent_app, spent_one. destruct (decide (day' = day)) as [->|Hne'].
      * rewrite bool_decide_eq_true_2 by done. lia.
      * rewrite bool_decide_eq_false_2 by congruence. rewrite O; [|congruence|unfold stale_usage; simpl; lia].
        specialize (Hle day' Hge). lia.
    + intros day'. rewrite spent_app, spent_one. specialize (Hs day'). case_bool_decide as Eq; [injection Eq as <-|]; lia.
    + intros day' Hd. rewrite spent_app, spent_one, bool_decide_eq_false_2 by (intros [=]; lia). rewrite Hlate; lia.
  - assert (Hz : forall day', spent sms c day' (log ++ [FirstSent ch day g]) = spent sms c day' log).
    { intros day'. rewrite spent_app, spent_one, bool_decide_eq_false_2 by congruence. lia. }
    split; [done| |intros day'; rewrite Hz; apply Hs|intros day' Hd; rewrite Hz; by apply Hlate].
    intros p' Hp'. destruct (Hpol' _ _ Hp') as (p0 & Hp0 & _ & Hm & Hg & Hh & _). destruct (Hp _ Hp0) as (Hcap & Hlim & Hle).
    split_and!; [unfold policy_cap in *; destruct sms; lia|lia|]. rewrite Hh. destruct Hle as [Hle|Hle]; [by left|right].
    intros day' Hge. rewrite Hz, O; [by apply Hle|congruence|unfold stale_usage; simpl; by intros [? _]].
Qed.

(** The reconciliation gives up what is left of the day. *)
Lemma paid_reconciled sms c M L d log reference now :
  paid_inv sms c M L (utc_day now) d log ->
  paid_inv sms c M L (utc_day now) (committed d (ReconcileOfficialPaidChannel c reference now d)) log.
Proof.
  intros Hi. pose proof (sound_step d (OpReconcile c reference now) (pi_sound _ _ _ _ _ _ _ Hi)) as Hs.
  pose proof (booked_reconcile c reference now d) as Hb. cbn [outbox_step] in Hs. revert Hs Hb.
  destruct (ReconcileOfficialPaidChannel c reference now d) as [[d' u]|] eqn:E; [|done]. cbn [committed]. intros Hs [BM BS BP].
  assert (HM : forall p, od_policies d !! c = Some p -> po_messages p = M -> M <= (usage_of c (utc_day now) d').1).
  { intros p Hp Hm. revert E. unfold ReconcileOfficialPaidChannel. destruct (_ || _)%bool; [done|]. rewrite Hp.
    destruct (negb (reconcilable _ _)); [done|]. destruct (negb (usage_fits _)); [done|]. intros [= <- _].
    unfold usage_of at 1. simpl. rewrite lookup_insert_eq. simpl. lia. }
  assert (Hpos : forall p, od_policies d !! c = Some p -> 0 < po_messages p).
  { intros p Hp. revert E. unfold ReconcileOfficialPaidChannel. destruct (_ || _)%bool; [done|]. rewrite Hp.
    destruct (negb (reconcilable p now)) eqn:Er; [done|]. intros _. apply negb_false_iff in Er. unfold reconcilable in Er.
    repeat (apply andb_true_iff in Er as [Er ?]). by apply Z.ltb_lt. }
  destruct Hi as [Ha Hp Hsp Hlate]. split; [done| |done|done]. intros p' Hp'.
  destruct (BP _ _ Hp') as (p & Hp0 & _ & Hm & Hg & _). destruct (Hp _ Hp0) as (Hcap & Hlim & _). specialize (Hpos _ Hp0).
  split_and!; [unfold policy_cap in *; destruct sms; lia|lia|right]. intros day Hd.
  destruct (decide (day = utc_day now)) as [->|Hne]; [right; apply (HM _ Hp0); lia|left].
  rewrite Hlate by lia. pose proof (ls_usage _ Hs c day). unfold amount. destruct sms; lia.
Qed.

(** The clock has not gone beyond [T]. *)
Definition reached (op : outbox_op) (T : Z) : Prop := forall day, clock_day (Operate op) = Some day -> T = day.

Lemma paid_op sms c M L T d log op :
  (sms = true -> c = "twilio_sms"%string) -> 0 <= M -> capped sms c L (Operate op) -> steady c M (Operate op) -> c <> "" ->
  reached op T -> paid_inv sms c M L T d log ->
  paid_inv sms c M L T (outbox_step parse_json event_of d op) (log ++ sent_by d op).
Proof.
  intros Hsms HM Hc Hst Hne Ht Hi. pose proof (sound_step d op (pi_sound _ _ _ _ _ _ _ Hi)) as Hs.
  assert (Hk : sent_by d op = [] -> booked (lifted op) d (outbox_step parse_json event_of d op) -> lifted op <> c ->
    paid_inv sms c M L T (outbox_step parse_json event_of d op) (log ++ sent_by d op)).
  { intros -> Hb Hl. rewrite app_nil_r. by eapply paid_booked. }
  destruct op; try (apply Hk; [done|by apply booked_op|by apply not_eq_sym]).
  - cbn [sent_by]. rewrite app_nil_r. split; [exact Hs| |apply Hi|apply Hi]. intros p' Hp'.
    destruct (policy_books _ _ _ _ _ _ Hp') as (p0 & Hp0 & _ & Hh & Hl).
    destruct (pi_policy _ _ _ _ _ _ _ Hi _ Hp0) as (Hcap & Hlim & Hle). unfold usage_of. rewrite policy_usage, Hh.
    split_and!; [| |exact Hle].
    + destruct Hl as [[Hm Hg]|(-> & Hm & Hg)]; [unfold policy_cap in *; destruct sms; lia|].
      specialize (Hc eq_refl). unfold configured_cap, policy_cap in *. destruct sms; lia.
    + destruct Hl as [[Hm _]|(-> & Hm & _)]; [lia|]. specialize (Hst eq_refl). lia.
  - specialize (Ht _ eq_refl) as ->.
    destruct (BeginOfficialDispatch id destination now minimum d) as [[d' o]|] eqn:E.
    + cbn [outbox_step] in *. rewrite E in *. cbn [committed] in *.
      destruct (begin_cases d _ _ _ _ _ _ (pi_sound _ _ _ _ _ _ _ Hi) E) as (_ & [[-> Hb]|(ch & p & g & -> & Hf)]).
      * rewrite app_nil_r. by eapply paid_booked.
      * by eapply paid_first_sent.
    + cbn [outbox_step sent_by]. rewrite E. by rewrite app_nil_r.
  - specialize (Ht _ eq_refl) as ->. destruct (decide (channel = c)) as [->|Hc'].
    + cbn [outbox_step sent_by]. rewrite app_nil_r. by apply paid_reconciled.
    + apply Hk; [done|by apply booked_op|done].
Qed.

(** A backup of the books of a channel with one limit. *)
Record saved_steady (sms : bool) (c : string) (M L : Z) (d : OutboxDB) : Prop := {
  ss_saved : saved sms c L d;
  ss_limit : forall p, od_policies d !! c = Some p -> po_messages p = M \/ po_messages p <= 0 }.

Lemma paid_saved sms c M L T d log : paid_inv sms c M L T d log -> saved_steady sms c M L d.
Proof. intros [Ha Hp _ _]. split; [split; [done|]|]; intros p Hpol; by apply Hp. Qed.

Lemma paid_restored sms c M L T clock d d0 log :
  paidOfficialChannel c = true -> saved_steady sms c M L d -> paid_inv sms c M L T d0 log ->
  paid_inv sms c M L T (markRestoredOfficialHold clock d) (log ++ [TakenBack]).
Proof.
  intros Hpaid [[Ha Hcap] Hlim] [_ _ Hs Hlate].
  assert (Hz : forall day, spent sms c day (log ++ [TakenBack]) = spent sms c day log)
    by (intros day; rewrite spent_app; unfold spent at 2; simpl; lia).
  split; [by apply sound_restored| |intros day; by rewrite Hz|intros day Hd; rewrite Hz; auto].
  intros p' Hp'. destruct (bk_policy _ _ _ (booked_restore "" clock d) _ _ Hp') as (p & Hp0 & _ & Hm & Hg & _).
  specialize (Hcap _ Hp0). specialize (Hlim _ Hp0). split_and!; [unfold policy_cap in *; destruct sms; lia|lia|left].
  revert Hp'. unfold markRestoredOfficialHold. simpl. rewrite lookup_update_where, Hp0. simpl. rewrite Hpaid.
  by intros [= <-].
Qed.

Lemma below_greatest l : Forall (fun day => day <= foldr Z.max 0 l) l.
Proof.
  induction l as [|x l IH]; constructor; [simpl; lia|]. eapply Forall_impl; [exact IH|]. intros y Hy. simpl in *. lia.
Qed.

Lemma paid_run sms c M L ops :
  (sms = true -> c = "twilio_sms"%string) -> paidOfficialChannel c = true -> 0 <= M -> 0 <= L ->
  Forall (capped sms c L) ops -> Forall (steady c M) ops -> forward ops ->
  Forall (saved_steady sms c M L) (lg_backups (ledger_run ops))
  /\ forall T, Forall (fun day => day <= T) (omap clock_day ops) ->
       paid_inv sms c M L T (lg_now (ledger_run ops)) (lg_log (ledger_run ops)).
Proof.
  intros Hsms Hpaid HM HL. unfold ledger_run, forward. induction ops as [|op ops IH] using rev_ind; intros Hf Hst Hd.
  - split; [by constructor|]. intros T _. split; [apply empty_sound| |done|done]. simpl. intros p ->%empty_policy.
    split_and!; [by destruct sms|by right|right; intros day _; left; by destruct sms].
  - apply Forall_app in Hf as [Hf1 [Hc _]%Forall_cons]. apply Forall_app in Hst as [Hst1 [Hcst _]%Forall_cons].
    rewrite omap_app in Hd. apply StronglySorted_app in Hd as (Hle & Hd & _).
    rewrite foldl_app. simpl. destruct (IH Hf1 Hst1 Hd) as [Hb Hi]. set (s := foldl _ _ ops) in *.
    destruct op as [op| |n clock].
    + split; [done|]. intros T HT. rewrite omap_app in HT. apply Forall_app in HT as [HT1 HT2].
      assert (Hop : forall T', Forall (fun day => day <= T') (omap clock_day ops) -> reached op T' ->
        paid_inv sms c M L T' (outbox_step parse_json event_of (lg_now s) op) (lg_log s ++ sent_by (lg_now s) op)).
      { intros T' H1 H2. apply paid_op; auto. intros ->. by vm_compute in Hpaid. }
      destruct (clock_day (Operate op)) as [day|] eqn:Ec.
      * cbn [omap list_omap] in HT2, Hle. rewrite Ec in HT2, Hle. apply Forall_inv in HT2.
        apply (paid_later _ _ _ _ day); [done|]. apply Hop; [|intros day'; congruence].
        apply Forall_forall. intros day' Hin. apply Hle; [done|by apply list_elem_of_singleton].
      * apply Hop; [done|intros day'; congruence].
    + simpl. split.
      * apply Forall_app. split; [done|]. constructor; [|constructor].
        apply (paid_saved _ _ _ _ (foldr Z.max 0 (omap clock_day ops)) _ (lg_log s)), Hi.
        apply below_greatest.
      * intros T HT. rewrite omap_app, app_nil_r in HT. by apply Hi.
    + simpl. destruct (lg_backups s !! n) as [d|] eqn:E; simpl;
        (split; [done|]; intros T HT; rewrite omap_app, app_nil_r in HT).
      * eapply paid_restored; [done| |by apply Hi]. by eapply Forall_lookup_1.
      * by apply Hi.
Qed.

(** C26. Whatever restarts, removals and changes of the clock come between, the messages
    that a channel sends out for the first time on one UTC day are at most the largest
    daily limit that was ever configured for it, counted since the ledger was last taken
    back to a backup, and the SMS segments that they are estimated at are at most the
    largest segment limit. On a paid channel, for which the limit of messages was not
    changed and the clock did not go back to an earlier day, this holds over all restores
    together: the hold and the reconciliation give up the day. *)
Theorem daily_budget_respected ops c day L S :
  0 <= L -> 0 <= S -> Forall (capped false c L) ops -> Forall (capped true "twilio_sms" S) ops ->
  let log := lg_log (ledger_run ops) in
  spent false c day (since_restore log) <= L /\ spent true "twilio_sms" day (since_restore log) <= S
  /\ (forward ops -> paidOfficialChannel c = true -> Forall (steady c L) ops -> spent false c day log <= L)
  /\ (forward ops -> forall M, 0 <= M -> Forall (steady "twilio_sms" M) ops -> spent true "twilio_sms" day log <= S).
Proof.
  intros HL HS H1 H2 log. split_and!.
  - by apply (era_run false c L ops).
  - by apply (era_run true "twilio_sms" S ops).
  - intros Hd Hp Hst. apply (proj2 (paid_run false c L L ops ltac:(done) Hp HL HL H1 Hst Hd) (foldr Z.max 0 (omap clock_day ops))).
    apply below_greatest.
  - intros Hd M HM Hst. apply (proj2 (paid_run true "twilio_sms" M S ops ltac:(done) ltac:(done) HM HS H2 Hst Hd)
      (foldr Z.max 0 (omap clock_day ops))). apply below_greatest.
Qed.
End Budget.

(** ** Examples *)

(** Two SMS; the ledger is then taken back to the time before the first, and the channel
    reconciled, after which the third waits. *)
Definition example_spending : list ledger_op :=
  (Operate <$> (set_up "twilio_sms"
  ++ [OpEnqueue (example_draws 3) (example_message "twilio_sms" "m1");
      OpEnqueue (example_draws 3) (example_message "twilio_sms" "m2")]))
  ++ [BackUp] ++ (Operate <$> (send "twilio_sms" "m1" 4 ++ send "twilio_sms" "m2" 6))
  ++ [RestoreBackUp 0 (example_at 7); Operate (OpReconcile "twilio_sms" "receipts-1" (example_at 8));
      Operate (OpEnqueue (example_draws 9) (example_message "twilio_sms" "m3"))]
  ++ (Operate <$> send "twilio_sms" "m3" 10).

Lemma daily_budget_respected_witness :
  lg_log (ledger_run example_json (fun _ => None) example_spending)
    = [FirstSent "twilio_sms" 19675 1; FirstSent "twilio_sms" 19675 1; TakenBack]
  /\ spent false "twilio_sms" 19675 (lg_log (ledger_run example_json (fun _ => None) example_spending)) <= 5
  /\ spent true "twilio_sms" 19675 (lg_log (ledger_run example_json (fun _ => None) example_spending)) <= 5.
Proof.
  split; [vm_compute; reflexivity|].
  assert (Hf : forward example_spending).
  { unfold forward. replace (omap clock_day example_spending) with [19675; 19675; 19675; 19675] by (vm_compute; reflexivity).
    repeat constructor. all: lia. }
  assert (Hc : forall c, Forall (steady c 5) example_spending) by (intros c; repeat constructor).
  destruct (daily_budget_respected example_json (fun _ => None) example_spending "twilio_sms" 19675 5 5) as (_ & _ & H1 & H2).
  - lia.
  - lia.
  - repeat constructor; cbn; lia.
  - repeat constructor; cbn; lia.
  - split; [by apply H1|]. apply (H2 Hf 5); [lia|apply Hc].
Defined.

(** The channels without a price are not held: LINE sends the same message again. *)
Definition example_taken_back : list ledger_op :=
  (Operate <$> (set_up "line" ++ [OpEnqueue (example_draws 3) (example_message "line" "m1")]))
  ++ [BackUp] ++ (Operate <$> send "line" "m1" 4) ++ [RestoreBackUp 0 (example_at 7)]
  ++ (Operate <$> send "line" "m1" 10).

Lemma unpaid_sends_again :
  lg_log (ledger_run example_json (fun _ => None) example_taken_back)
  = [FirstSent "line" 19675 0; TakenBack; FirstSent "line" 19675 0].
Proof. vm_compute. reflexivity. Qed.
