(* ===== verification/Worker.v ===== *)
(** * The workers that send notifications

    [internal/notify/worker.go] and [worker_official.go]: a worker takes the due
    messages of one receiver from the outbox, asks its sender to deliver them and
    records the outcome.  Between any two of its calls other operations may happen to
    the outbox, any of its calls may fail, before or after the transaction commits,
    and the sender may answer anything.  [worker_disciplined] says in which states of
    the outbox the worker talks to the platform and what it makes of the answers;
    [worker_requests_posted] says that every request to an official platform is one
    of the committed attempts that [DispatchOnce] counts. *)

From stdpp Require Import pretty.
From S2P Require Export DispatchOnce.
From S2P Require Import SensorCommit.

(** ** What a sender answers *)

(** [DispatchOutcome] of [internal/notify/official.go]. *)
Record DispatchOutcome := mkOutcome {
  do_state : string;
  do_provider_id : string;
  do_provider_state : string;
  do_reason : string;
  do_status : Z;
  do_api_error : Z;
  do_retry_after : duration;
  do_segments : option Z;
  do_price : option string;
  do_unit : string;
  do_suspend : bool }.

Definition DispatchAccepted : string := "accepted".
Definition DispatchNotAccepted : string := "not_accepted".
Definition DispatchUnknown : string := "unknown".
Definition DispatchRejected : string := "rejected".
Definition DispatchOptedOut : string := "opted_out".

(** [DeliveryError] of [internal/notify/telegram.go]. *)
Record DeliveryError := mkDeliveryError {
  er_channel : string;
  er_status : Z;
  er_api_error : Z;
  er_retry_after : duration;
  er_permanent : bool;
  er_rate_limited : bool;
  er_invalid_response : bool;
  er_invalid_payload : bool;
  er_suspend : bool }.

Definition channel_title (channel : string) : string :=
  if channel =?s "webhook" then "Webhook"
  else if channel =?s "feishu" then "Feishu"
  else if channel =?s "wecom" then "WeCom"
  else if channel =?s "discord" then "Discord"
  else if channel =?s "slack" then "Slack"
  else if channel =?s "teams" then "Teams workflow"
  else if channel =?s "google_chat" then "Google Chat"
  else "Telegram".

Definition delivery_text (e : DeliveryError) : string :=
  let title := channel_title (er_channel e) in
  let status := pretty (er_status e) in
  let api := pretty (er_api_error e) in
  if er_suspend e
  then (title ++ " retry interval requires destination resume (HTTP " ++ status ++ ", API " ++ api ++ ")")%string
  else if er_invalid_payload e then (title ++ " payload invalid")%string
  else if er_invalid_response e then (title ++ " response invalid (HTTP " ++ status ++ ")")%string
  else (title ++ " delivery failed (HTTP " ++ status ++ ", API " ++ api ++ ")")%string.

(** The result of [Send]: none, an error of the client's own kind, or another one. *)
Inductive send_answer := Sent | Failed (e : DeliveryError) | OtherError.

(** A sender: the methods that the worker looks for, and the answers of its [n]th
    call. *)
Record sender := mkSender {
  sn_destination : option string;
  sn_official : bool;
  sn_interval : option duration;
  sn_send : nat -> OutboxMessage -> send_answer;
  sn_dispatch : nat -> OutboxMessage -> DispatchOutcome * bool;
  sn_poll : nat -> OutboxMessage -> DispatchOutcome * bool }.

Definition minimum_interval (s : sender) : duration := default 0 (sn_interval s).

(** ** The world of a worker *)

Inductive answer := Plain (a : send_answer) | Official (o : DispatchOutcome) (failed : bool).

(** What happens: operations of others, operations of the worker with the message
    they answered, checks of a delivery or a poll that answered yes, requests and their
    answers. *)
Inductive entry :=
| Others (op : outbox_op)
| Did (op : outbox_op) (m : option OutboxMessage)
| Permitted (m : OutboxMessage) (destination : string) (now : time)
| Requested (m : OutboxMessage)
| Answer (m : OutboxMessage) (a : answer)
| PollPermitted (m : OutboxMessage) (destination : string) (now : time)
| PollRequested (m : OutboxMessage)
| PollAnswer (m : OutboxMessage) (o : DispatchOutcome) (failed : bool).

(** What surrounds the [n]th call: the operations of others before it, the clock,
    the fate of the call, whether the context has ended and the random number drawn. *)
Record call_env := mkCallEnv {
  ce_others : list outbox_op;
  ce_now : time;
  ce_fate : call_fate;
  ce_cancelled : bool;
  ce_random : Z }.

Record world := mkWorld { w_db : OutboxDB; w_log : list entry; w_calls : nat }.

Inductive worker_error := TargetMismatch | TargetUnavailable | Cancelled | CallFailed.

Section Worker.
Context (parse_json : string -> option json) (event_of : string -> option Event).
Context (env : nat -> call_env) (s : sender).

Abbreviation step := (outbox_step parse_json event_of).

Definition action (A : Type) : Type := world -> result worker_error A * world.

Definition ret {A} (a : A) : action A := fun w => (Ok a, w).
Definition fail {A} (e : worker_error) : action A := fun w => (Err e, w).
Definition bind {A B} (m : action A) (k : A -> action B) : action B :=
  fun w => match m w with (Ok a, w) => k a w | (Err e, w) => (Err e, w) end.

Notation "'let!' x := m 'in' k" := (bind m (fun x => k)) (at level 10, x binder, m at level 100, k at level 200).
Notation "m ;! k" := (bind m (fun _ => k)) (at level 199, right associativity).

Definition here (w : world) : call_env := env (w_calls w).

(** [time.Now().UTC()] and [ctx.Err()] before the next call. *)
Definition clock : action time := fun w => (Ok (ce_now (here w)), w).
Definition check_context : action unit := fun w => ((if ce_cancelled (here w) then Err Cancelled else Ok tt), w).

Definition note (e : entry) (w : world) : world := mkWorld (w_db w) (w_log w ++ [e]) (w_calls w).
Definition apply_others (w : world) : world :=
  let ops := ce_others (here w) in
  mkWorld (foldl step (w_db w) ops) (w_log w ++ (Others <$> ops)) (S (w_calls w)).
Definition commit (op : outbox_op) (m : option OutboxMessage) (w : world) : world :=
  mkWorld (step (w_db w) op) (w_log w ++ [Did op m]) (w_calls w).

(** A call of a writing operation: [run] is what it answers.  A call that does not
    run or is refused leaves the outbox as it is. *)
Definition transact {A} (op : outbox_op) (run : OutboxDB -> result outbox_error A) (message : A -> option OutboxMessage)
    : action A := fun w =>
  let fate := ce_fate (here w) in
  let w := apply_others w in
  if fate is NotRun then (Err CallFailed, w)
  else match run (w_db w) with
       | Err _ => (Err CallFailed, w)
       | Ok a => if fate is Answered then (Ok a, commit op (message a) w) else (Err CallFailed, commit op None w)
       end.

(** A call of a reading operation. *)
Definition ask {A} (read : OutboxDB -> result outbox_error A) : action A := fun w =>
  let fate := ce_fate (here w) in
  let w := apply_others w in
  if fate is NotRun then (Err CallFailed, w)
  else match read (w_db w) with Err _ => (Err CallFailed, w) | Ok a => (Ok a, w) end.

Definition answered {A} (r : tx A) : result outbox_error A := match r with Ok (_, a) => Ok a | Err e => Err e end.
Definition no_message {A} (_ : A) : option OutboxMessage := None.

(** ** The calls of the worker *)

Definition claim (id : string) : action (option OutboxMessage) :=
  let! now := clock in
  transact (OpClaim id now) (fun d => answered (ClaimNotification id now d)) (fun m => m).
Definition release (id : string) : action unit :=
  transact (OpRelease id) (fun _ => Ok tt) no_message.
Definition allowed (m : OutboxMessage) (destination : string) : action bool := fun w =>
  let now := ce_now (here w) in
  match ask (fun d => Ok (NotificationDeliveryAllowed (om_id m) destination now d)) w with
  | (Ok true, w) => (Ok true, note (Permitted m destination now) w)
  | r => r
  end.
Definition reserve_attempt (id destination : string) (interval : duration) : action bool :=
  let! now := clock in
  transact (OpReserve id destination now interval)
    (fun d => answered (ReserveNotificationAttempt id destination now interval d)) no_message.
Definition mark_sent (id : string) (interval : duration) : action unit :=
  let! now := clock in
  transact (OpSent id now interval) (fun d => answered (MarkSentWithCooldown id now interval d)) no_message.
Definition mark_rate_limited (id destination : string) (until : time) (reason : string) : action unit :=
  let! now := clock in
  transact (OpRateLimited id destination until reason now)
    (fun d => answered (MarkRateLimited id destination until reason now d)) no_message.
Definition mark_quarantined (id reason : string) : action unit :=
  let! now := clock in
  transact (OpQuarantine id now reason true) (fun d => answered (MarkQuarantined id now reason d)) no_message.
Definition mark_failed (id : string) (delay : duration) (reason : string) : action unit :=
  let! now := clock in
  transact (OpFailed id (time_add now delay) reason now) (fun _ => Ok tt) no_message.

Definition begin_dispatch (id destination : string) (interval : duration) : action (option OutboxMessage) :=
  let! now := clock in
  transact (OpBegin id destination now interval)
    (fun d => answered (BeginOfficialDispatch id destination now interval d)) (fun m => m).
Definition resolve (id : string) (res : OfficialDispatchResolution) : action unit :=
  let! now := clock in
  transact (OpResolve id now res) (fun d => answered (ResolveOfficialDispatch id now res d)) no_message.

(** [PendingDestination]: the expiry and the query are two calls. *)
Definition pending (now : time) (count : Z) (destination : string) : action (list OutboxMessage) :=
  if negb (valid_destination destination) then fail CallFailed
  else
    transact (OpExpire now) (fun d => ExpireNotifications now d) no_message ;!
    ask (fun d => Ok (list_pending now count destination d)).

(** ** Requests *)

(** A request goes out at one time and is answered at a later one; [e] and [e'] say so. *)
Definition exchange (e e' : entry) (w : world) : world := note e' (apply_others (note e (apply_others w))).
Definition request (m : OutboxMessage) (a : nat -> answer) : action answer := fun w =>
  (Ok (a (w_calls w)), exchange (Requested m) (Answer m (a (w_calls w))) w).
Definition send (m : OutboxMessage) : action send_answer := fun w =>
  match request m (fun n => Plain (sn_send s n m)) w with
  | (Ok (Plain a), w) => (Ok a, w)
  | (_, w) => (Ok OtherError, w)
  end.
Definition dispatch (m : OutboxMessage) : action (DispatchOutcome * bool) := fun w =>
  let '(o, failed) := sn_dispatch s (w_calls w) m in
  (Ok (o, failed), (request m (fun _ => Official o failed) w).2).
Definition poll (m : OutboxMessage) : action (DispatchOutcome * bool) := fun w =>
  let '(o, failed) := sn_poll s (w_calls w) m in
  (Ok (o, failed), exchange (PollRequested m) (PollAnswer m o failed) w).

(** ** Reasons *)

Definition worker_reasons : list string :=
  ["provider_accepted"; "delivery_unknown"; "authentication_rejected"; "permission_rejected"; "payload_rejected";
   "rate_limited"; "quota_exhausted"; "recipient_unavailable"; "recipient_opted_out"; "template_rejected";
   "template_unavailable"; "template_language_mismatch"; "invalid_response"; "retry_window_expired";
   "poll_unknown"; "poll_complete"; "retry_requires_resume"; "transport_not_sent";
   "api_accepted"; "carrier_accepted"; "carrier_delivered"; "delivery_failed"; "payload_invalid";
   "frozen_request_invalid"; "message_expired"; "clock_rollback"; "credential_or_permission_rejected";
   "provider_rejected"; "request_rejected"; "quality_or_policy_limited"; "monthly_quota_exhausted";
   "token_unavailable"; "token_response_invalid"; "token_request_invalid"; "token_rejected";
   "token_wait_canceled"; "unconfirmed_response"; "unconfirmed_provider_failure"; "poll_response_invalid";
   "poll_receipt_invalid"; "poll_request_invalid"; "poll_intent_invalid"; "durable_intent_required";
   "unsupported_channel"; "template_parameter_count_invalid"; "template_missing_or_unapproved";
   "template_text_too_long"; "template_parameter_format_invalid"; "template_policy_rejected"]%string.
Definition officialWorkerReason (reason : string) : string :=
  if one_of worker_reasons reason then reason else "delivery_unknown".

(** ** Retries *)

Definition retryDelay (attempts random : Z) : duration :=
  let attempts := Z.min 8 (Z.max 0 attempts) in
  let base := second * 2 ^ attempts in
  let jitter := random mod (base `quot` 2 + 1) in
  if hour <? base + jitter then hour else base + jitter.

Definition retry_delay (attempts : Z) : action duration := fun w =>
  (Ok (retryDelay attempts (ce_random (here w))), w).

(** ** Official platforms *)

Definition codes_ok (o : DispatchOutcome) : bool :=
  negb ((do_status o <? 0) || (599 <? do_status o) || (do_api_error o <? 0) || (2147483647 <? do_api_error o)).

(** The resolution of a dispatch: a sender has to prove that it was not accepted. *)
Definition resolution_of (m : OutboxMessage) (o : DispatchOutcome) (failed : bool) (interval retry : duration)
    : OfficialDispatchResolution :=
  let n := rb_dispatch_attempt (om_read m) in
  let resolution (out : outcome) (reason : string) (wait : duration) (permanent optout : bool) :=
    let bad := negb (codes_ok o) in
    mkResolution (if bad then 0 else do_status o) (if bad then 0 else do_api_error o) n
      (if bad then OutcomeUnknown else out) (do_provider_id o)
      (if bad then "invalid_response"%string else reason) wait permanent (do_suspend o) optout
      (do_provider_state o) (do_segments o) (do_price o) (do_unit o) in
  if do_state o =?s DispatchAccepted then
    if failed then resolution OutcomeUnknown "delivery_unknown"%string 0 false false
    else resolution OutcomeAccepted "provider_accepted"%string 0 false false
  else if do_state o =?s DispatchNotAccepted then
    let wait := if do_retry_after o =? 0 then retry else do_retry_after o in
    resolution OutcomeNotAccepted (officialWorkerReason (do_reason o)) (Z.max wait interval) false false
  else if (do_state o =?s DispatchRejected) || (do_state o =?s DispatchOptedOut) then
    resolution OutcomeNotAccepted (officialWorkerReason (do_reason o)) 0 true (do_state o =?s DispatchOptedOut)
  else if do_state o =?s DispatchUnknown then
    resolution OutcomeUnknown (officialWorkerReason (do_reason o)) (do_retry_after o) false false
  else resolution OutcomeUnknown "delivery_unknown"%string 0 false false.

(** The resolution of a request that never went out. *)
Definition policy_changed (n : Z) : OfficialDispatchResolution :=
  mkResolution 0 0 n OutcomeNotAccepted "" "official_policy_changed" second false false false "" None None "".

Definition processOfficialMessage (claimed : OutboxMessage) (interval : duration) : action unit :=
  let! begun := begin_dispatch (om_id claimed) (om_destination claimed) interval in
  match begun with
  | None => release (om_id claimed)
  | Some m =>
      let! ok := allowed m (om_destination m) in
      if negb ok then resolve (om_id m) (policy_changed (rb_dispatch_attempt (om_read m)))
      else
        let! result := dispatch m in
        let! retry := retry_delay (rb_attempts (om_read m)) in
        resolve (om_id m) (resolution_of m result.1 result.2 interval retry) ;!
        check_context
  end.

(** ** Polls *)

Definition poll_statuses : list string :=
  ["accepted"; "queued"; "sending"; "sent"; "delivered"; "undelivered"; "failed"; "canceled"; "unknown"]%string.

Definition poll_resolution (m : OutboxMessage) (o : DispatchOutcome) (failed : bool) : OfficialPollResolution :=
  let status := if failed || negb (do_state o =?s DispatchAccepted) && negb (do_state o =?s DispatchOptedOut)
                then "unknown"%string else do_provider_state o in
  let '(status, reason) := if one_of poll_statuses status then (status, officialWorkerReason (do_reason o))
                           else ("unknown", "invalid_response")%string in
  let bad := negb (codes_ok o) in
  mkPollResolution (if bad then 0 else do_status o) (if bad then 0 else do_api_error o) (rb_poll_attempts (om_read m))
    (if bad then "unknown"%string else status) (if bad then "invalid_response"%string else reason)
    (do_retry_after o) (do_suspend o) (do_state o =?s DispatchOptedOut) (do_segments o) (do_price o) (do_unit o).

Definition poll_allowed (m : OutboxMessage) (destination : string) : action bool := fun w =>
  let now := ce_now (here w) in
  match ask (OfficialPollAllowed (om_id m) destination (rb_poll_attempts (om_read m)) now) w with
  | (Ok true, w) => (Ok true, note (PollPermitted m destination now) w)
  | r => r
  end.

Definition poll_one (destination id : string) : action unit :=
  check_context ;!
  let! now := clock in
  let! claimed := transact (OpClaimPoll id destination now)
                    (fun d => answered (ClaimOfficialPoll id destination now d)) (fun m => m) in
  match claimed with
  | None => ret tt
  | Some m =>
      let! ok := poll_allowed m destination in
      if negb ok then ret tt
      else
        let! result := poll m in
        let! now := clock in
        transact (OpResolvePoll (om_id m) now (poll_resolution m result.1 result.2))
          (fun d => answered (ResolveOfficialPoll (om_id m) now (poll_resolution m result.1 result.2) d)) no_message
  end.

Fixpoint poll_each (destination : string) (messages : list OutboxMessage) : action unit :=
  match messages with
  | [] => ret tt
  | m :: messages => poll_one destination (om_id m) ;! poll_each destination messages
  end.

Definition processOfficialPolls (destination : string) (now : time) : action unit :=
  let! messages := transact (OpPolls destination now 8)
                     (fun d => answered (PendingOfficialPolls destination now 8 d)) no_message in
  poll_each destination messages.

(** ** One pass *)

Definition forever : time := far_future.

(** The outcome of a delivery that failed: whether the receiver is blocked for the
    rest of the pass. *)
Definition record_failure (m : OutboxMessage) (a : send_answer) (interval : duration) : action bool :=
  let! retry := retry_delay (rb_attempts (om_read m)) in
  let delay := Z.max retry interval in
  match a with
  | Failed e =>
      let reason := delivery_text e in
      if er_rate_limited e || (0 <? er_retry_after e) || er_suspend e then
        let delay := if 0 <? er_retry_after e then er_retry_after e else Z.max delay (30 * second) in
        let! now := clock in
        let until := if er_suspend e then forever else time_add now delay in
        mark_rate_limited (om_id m) (om_destination m) until reason ;! ret true
      else if er_permanent e then mark_quarantined (om_id m) reason ;! ret false
      else mark_failed (om_id m) delay reason ;! ret false
  | _ => mark_failed (om_id m) delay "notification delivery failed" ;! ret false
  end.

(** The attempt at a claimed message that may go out. *)
Definition deliver (m : OutboxMessage) (interval : duration) : action bool :=
  let! a := send m in
  if a is Sent then mark_sent (om_id m) interval ;! ret false
  else fun w =>
    if ce_cancelled (here w) then (Err Cancelled, (release (om_id m) w).2)
    else record_failure m a interval w.

(** A claimed message of a channel that is not official. *)
Definition process_plain (m : OutboxMessage) (destination : string) : action bool :=
  let interval := minimum_interval s in
  let! ok := allowed m destination in
  if negb ok then release (om_id m) ;! ret false
  else if 0 <? interval then
    let! reserved := reserve_attempt (om_id m) destination interval in
    if negb reserved then release (om_id m) ;! ret false
    else
      let! ok := allowed m destination in
      if negb ok then release (om_id m) ;! ret false else deliver m interval
  else deliver m interval.

(** One message of the list: the answer says whether its receiver is blocked. *)
Definition process_one (destination id : string) : action bool :=
  let! claimed := claim id in
  match claimed with
  | None => ret false
  | Some m => if sn_official s then processOfficialMessage m (minimum_interval s) ;! ret false
              else process_plain m destination
  end.

Fixpoint process_each (destination : string) (blocked : bool) (messages : list OutboxMessage) : action unit :=
  match messages with
  | [] => ret tt
  | m :: messages =>
      check_context ;!
      (if negb (om_destination m =?s destination) || blocked then process_each destination blocked messages
       else let! now_blocked := process_one destination (om_id m) in process_each destination now_blocked messages)
  end.

(** The receiver that the sender and the worker agree on. *)
Definition agreed_destination (configured : string) : result worker_error string :=
  let? destination :=
    match sn_destination s with
    | Some identity =>
        if (identity =?s "") || negb (configured =?s "") && negb (configured =?s identity)
        then Err TargetMismatch else Ok identity
    | None => Ok configured
    end in
  if destination =?s "" then Err TargetUnavailable else Ok destination.

(** [process]. *)
Definition process (configured : string) : action unit :=
  match agreed_destination configured with
  | Err e => fail e
  | Ok destination =>
      let! now := clock in
      (if sn_official s then processOfficialPolls destination now else ret tt) ;!
      let! messages := pending now 20 destination in
      process_each destination false messages
  end.

(** [Run]: passes until the context ends; an error of a pass is logged. *)
Fixpoint Run (passes : nat) (configured : string) (w : world) : world :=
  match passes with
  | O => w
  | S passes => Run passes configured (process configured w).2
  end.

(** ** The discipline of a worker *)

(** Where a worker is with a message: holding it, claimed or begun, with pacing
    reserved, permitted; having asked for its delivery; having heard the answer; and the
    same with a poll. *)
Inductive phase :=
| Idle
| Held (m : OutboxMessage) (begun reserved permitted : bool)
| Asked (m : OutboxMessage)
| Heard (m : OutboxMessage) (a : answer)
| HeldPoll (m : OutboxMessage) (permitted : bool)
| PollAsked (m : OutboxMessage)
| PollHeard (m : OutboxMessage) (o : DispatchOutcome) (failed : bool).

(** Operations that say nothing about a delivery. *)
Definition housekeeping (op : outbox_op) : bool :=
  match op with
  | OpClaim _ _ | OpBegin _ _ _ _ | OpReserve _ _ _ _ | OpRelease _ | OpExpire _ | OpPolls _ _ _ | OpClaimPoll _ _ _ => true
  | _ => false
  end.

(** What may be recorded of an official request: acceptance when the platform
    accepted it without an error, a refusal when the platform refused it or the
    request never went out. *)
Definition resolution_honest (ph : phase) (id : string) (res : OfficialDispatchResolution) : Prop :=
  match ph with
  | Held m true _ _ =>
      id = om_id m /\ rs_attempt res = rb_dispatch_attempt (om_read m)
      /\ rs_outcome res = OutcomeNotAccepted /\ rs_reason res = "official_policy_changed"%string
  | Heard m (Official o failed) =>
      id = om_id m /\ rs_attempt res = rb_dispatch_attempt (om_read m)
      /\ one_of worker_reasons (rs_reason res) = true
      /\ (rs_outcome res = OutcomeAccepted -> do_state o = DispatchAccepted /\ failed = false)
      /\ (rs_outcome res = OutcomeNotAccepted ->
            do_state o = DispatchNotAccepted \/ do_state o = DispatchRejected \/ do_state o = DispatchOptedOut)
  | _ => False
  end.

(** What may be recorded of another delivery: sent only when the client reported no
    error, a failure with a text that the worker composed. *)
Definition failure_text (a : answer) : option string :=
  match a with
  | Plain (Failed e) => Some (delivery_text e)
  | Plain OtherError => Some "notification delivery failed"%string
  | _ => None
  end.
(** What may be recorded of a poll: the state that the platform named without an error, or
    that it is unknown. *)
Definition poll_honest (ph : phase) (id : string) (res : OfficialPollResolution) : Prop :=
  match ph with
  | PollHeard m o failed =>
      id = om_id m /\ pr_attempt res = rb_poll_attempts (om_read m)
      /\ one_of poll_statuses (pr_status res) = true /\ one_of worker_reasons (pr_reason res) = true
      /\ (pr_status res <> "unknown"%string ->
            failed = false /\ (do_state o = DispatchAccepted \/ do_state o = DispatchOptedOut)
            /\ pr_status res = do_provider_state o)
      /\ (pr_optout res = true -> do_state o = DispatchOptedOut)
  | _ => False
  end.
Definition outcome_honest (ph : phase) (op : outbox_op) : Prop :=
  match ph, op with
  | Heard m a, OpSent id _ _ => id = om_id m /\ a = Plain Sent
  | Heard m a, OpFailed id _ reason _ => id = om_id m /\ failure_text a = Some reason
  | Heard m a, OpRateLimited id destination _ reason _ =>
      id = om_id m /\ destination = om_destination m /\ failure_text a = Some reason
  | Heard m a, OpQuarantine id _ reason attempted =>
      id = om_id m /\ attempted = true /\ failure_text a = Some reason
      /\ exists e, a = Plain (Failed e) /\ er_permanent e = true
  | _, OpResolve id _ res => resolution_honest ph id res
  | _, OpResolvePoll id _ res => poll_honest ph id res
  | _, _ => housekeeping op = true
  end.

(** One entry of the log, with the outbox as it is then.  A permission is of the last
    check before a request; what others do after the check is not seen. *)
Inductive watch : OutboxDB * phase -> entry -> OutboxDB * phase -> Prop :=
| WatchOthers d ph op : watch (d, ph) (Others op) (step d op, ph)
| WatchClaim d ph id now m :
    answered (ClaimNotification id now d) = Ok (Some m) ->
    watch (d, ph) (Did (OpClaim id now) (Some m)) (step d (OpClaim id now), Held m false false false)
| WatchBegin d m0 reserved permitted now interval m :
    answered (BeginOfficialDispatch (om_id m0) (om_destination m0) now interval d) = Ok (Some m) ->
    watch (d, Held m0 false reserved permitted) (Did (OpBegin (om_id m0) (om_destination m0) now interval) (Some m))
      (step d (OpBegin (om_id m0) (om_destination m0) now interval), Held m true false false)
| WatchReserve d m begun reserved permitted destination now interval :
    answered (ReserveNotificationAttempt (om_id m) destination now interval d) = Ok true ->
    watch (d, Held m begun reserved permitted) (Did (OpReserve (om_id m) destination now interval) None)
      (step d (OpReserve (om_id m) destination now interval), Held m begun true false)
| WatchPermitted d m begun reserved permitted destination now :
    NotificationDeliveryAllowed (om_id m) destination now d = true ->
    watch (d, Held m begun reserved permitted) (Permitted m destination now) (d, Held m begun reserved true)
| WatchRequest d m begun reserved :
    (if sn_official s then begun = true else 0 < minimum_interval s -> reserved = true) ->
    watch (d, Held m begun reserved true) (Requested m) (d, Asked m)
| WatchAnswer d m a : watch (d, Asked m) (Answer m a) (d, Heard m a)
| WatchClaimPoll d ph id destination now m :
    answered (ClaimOfficialPoll id destination now d) = Ok (Some m) ->
    watch (d, ph) (Did (OpClaimPoll id destination now) (Some m)) (step d (OpClaimPoll id destination now), HeldPoll m false)
| WatchPollPermitted d m permitted destination now :
    OfficialPollAllowed (om_id m) destination (rb_poll_attempts (om_read m)) now d = Ok true ->
    watch (d, HeldPoll m permitted) (PollPermitted m destination now) (d, HeldPoll m true)
| WatchPollRequest d m : watch (d, HeldPoll m true) (PollRequested m) (d, PollAsked m)
| WatchPollAnswer d m o failed : watch (d, PollAsked m) (PollAnswer m o failed) (d, PollHeard m o failed)
| WatchOutcome d ph op : outcome_honest ph op -> watch (d, ph) (Did op None) (step d op, Idle).

Inductive watched : OutboxDB * phase -> list entry -> OutboxDB * phase -> Prop :=
| watched_nil x : watched x [] x
| watched_snoc x l y e z : watched x l y -> watch y e z -> watched x (l ++ [e]) z.

(** ** Triples *)

Section triples.
Context (x0 : OutboxDB * phase).

Definition ok (w : world) (ph : phase) : Prop := watched x0 (w_log w) (w_db w, ph).

Definition triple {A} (P : phase -> Prop) (m : action A) (Q : A -> phase -> Prop) : Prop :=
  forall w ph, ok w ph -> P ph ->
    match m w with
    | (Ok a, w') => exists ph', ok w' ph' /\ Q a ph'
    | (Err _, w') => exists ph', ok w' ph'
    end.

(** Where the worker holds a message, permitted or not. *)
Definition holding (m : OutboxMessage) (begun reserved : bool) (ph : phase) : Prop :=
  exists permitted, ph = Held m begun reserved permitted.
Definition hears (m : OutboxMessage) (a : answer) (ph : phase) : Prop := ph = Heard m a.
Definition anywhere (_ : phase) : Prop := True.
Lemma triple_ret {A} (a : A) P (Q : A -> phase -> Prop) : (forall ph, P ph -> Q a ph) -> triple P (ret a) Q.
Proof. intros HQ w ph Hok HP. exists ph. auto. Qed.

Lemma triple_fail {A} e P (Q : A -> phase -> Prop) : triple P (fail e) Q.
Proof. intros w ph Hok _. by exists ph. Qed.

Lemma triple_bind {A B} (m : action A) (k : A -> action B) P R Q :
  triple P m R -> (forall a, triple (R a) (k a) Q) -> triple P (bind m k) Q.
Proof.
  intros Hm Hk w ph Hok HP. unfold bind. specialize (Hm w ph Hok HP).
  destruct (m w) as [[a|e] w']; [|done]. destruct Hm as (ph' & Hok' & HR). exact (Hk a w' ph' Hok' HR).
Qed.

Lemma triple_pre {A} P P' (m : action A) Q : (forall ph, P ph -> P' ph) -> triple P' m Q -> triple P m Q.
Proof. intros Hp Hm w ph Hok HP. exact (Hm w ph Hok (Hp ph HP)). Qed.

Lemma triple_clock P : triple P clock (fun _ => P).
Proof. intros w ph Hok HP. by exists ph. Qed.

Lemma triple_context P : triple P check_context (fun _ => P).
Proof. intros w ph Hok HP. unfold check_context. destruct (ce_cancelled _); by exists ph. Qed.

Lemma triple_retry P attempts : triple P (retry_delay attempts) (fun _ => P).
Proof. intros w ph Hok HP. by exists ph. Qed.

Lemma others_ok w ph : ok w ph -> ok (apply_others w) ph.
Proof.
  unfold ok, apply_others. cbn [w_log w_db]. generalize (ce_others (here w)) as ops.
  intros ops. generalize (w_log w) as l, (w_db w) as d.
  induction ops as [|op ops IH]; intros l d Hok; cbn [fmap list_fmap foldl]; [by rewrite app_nil_r|].
  specialize (IH (l ++ [Others op]) (step d op)). rewrite <- app_assoc in IH. apply IH.
  eapply watched_snoc; [exact Hok|constructor].
Qed.

(** A request that may go out, and its answer. *)
Lemma exchange_ok e e' w ph1 ph2 ph3 :
  ok w ph1 -> (forall d, watch (d, ph1) e (d, ph2)) -> (forall d, watch (d, ph2) e' (d, ph3)) -> ok (exchange e e' w) ph3.
Proof.
  intros Hok H1 H2. unfold exchange. eapply watched_snoc; [|apply H2]. apply others_ok.
  eapply watched_snoc; [|apply H1]. by apply others_ok.
Qed.

(** A writing call: what it may record, and where its answer leaves the worker. *)
Lemma triple_transact {A} P op (run : OutboxDB -> result outbox_error A) message (Q : A -> phase -> Prop) :
  (forall ph, P ph -> outcome_honest ph op) ->
  (forall d a ph, P ph -> run d = Ok a -> exists ph', watch (d, ph) (Did op (message a)) (step d op, ph') /\ Q a ph') ->
  triple P (transact op run message) Q.
Proof.
  intros Hout Hans w ph Hok Hph. unfold transact. pose proof (others_ok w ph Hok) as Hok1. cbv zeta.
  assert (Hlost : exists ph', ok (commit op None (apply_others w)) ph').
  { exists Idle. eapply watched_snoc; [exact Hok1|]. by apply WatchOutcome, Hout. }
  destruct (ce_fate (here w)); [by exists ph|..];
    (destruct (run (w_db (apply_others w))) as [a|e] eqn:Er; [|by exists ph]); [|exact Hlost].
  destruct (Hans _ _ _ Hph Er) as (ph' & Hw & HQ). exists ph'. split; [|done]. by eapply watched_snoc.
Qed.

(** A call whose answer does not matter. *)
Lemma triple_record {A} P op (run : OutboxDB -> result outbox_error A) (Q : A -> phase -> Prop) :
  (forall ph, P ph -> outcome_honest ph op) -> (forall a ph, Q a ph) ->
  triple P (transact op run no_message) Q.
Proof.
  intros Hout HQ. apply triple_transact; [done..|]. intros d a ph Hph _. exists Idle.
  split; [by apply WatchOutcome, Hout|done].
Qed.

Lemma triple_ask {A} P (read : OutboxDB -> result outbox_error A) : triple P (ask read) (fun _ => P).
Proof.
  intros w ph Hok Hph. unfold ask. pose proof (others_ok w ph Hok) as Hok1. cbv zeta.
  destruct (ce_fate (here w)); [by exists ph|..]; (destruct (read _); [|by exists ph]); by exists ph.
Qed.

(** ** Every function keeps the discipline *)

Lemma housekeeping_honest ph op : housekeeping op = true -> outcome_honest ph op.
Proof. by destruct ph, op. Qed.

Lemma triple_claim id :
  triple anywhere (claim id) (fun a ph => if a is Some m then holding m false false ph else anywhere ph).
Proof.
  eapply triple_bind; [apply triple_clock|]. intros now. apply triple_transact; [by intros; apply housekeeping_honest|].
  intros d [m|] ph _ Hr.
  - eexists. split; [by constructor|by exists false].
  - exists Idle. split; [|done]. by apply WatchOutcome, housekeeping_honest.
Qed.

Lemma triple_release P id : triple P (release id) (fun _ => anywhere).
Proof. by apply triple_record; [intros; apply housekeeping_honest|]. Qed.

Lemma triple_allowed m begun reserved destination :
  triple (holding m begun reserved) (allowed m destination)
    (fun ok ph => if ok : bool then ph = Held m begun reserved true else holding m begun reserved ph).
Proof.
  intros w ph Hok Hph. unfold allowed, ask.
  pose proof (others_ok w ph Hok) as Hok1. cbv zeta.
  destruct (ce_fate (here w)); [by exists ph|..];
    (destruct (NotificationDeliveryAllowed _ _ _ _) eqn:Ea; [|by exists ph]);
    (destruct Hph as [p ->]; exists (Held m begun reserved true); split; [|done]);
    (eapply watched_snoc; [exact Hok1|by constructor]).
Qed.

Lemma triple_reserve m destination interval :
  triple (holding m false false) (reserve_attempt (om_id m) destination interval)
    (fun ok ph => if ok : bool then holding m false true ph else anywhere ph).
Proof.
  eapply triple_bind; [apply triple_clock|]. intros now.
  apply triple_transact; [by intros; apply housekeeping_honest|].
  intros d [|] ph [p ->] Hr.
  - eexists. split; [by apply WatchReserve|by exists false].
  - exists Idle. split; [|done]. by apply WatchOutcome, housekeeping_honest.
Qed.

Lemma request_ok w m begun reserved a :
  ok w (Held m begun reserved true) ->
  (if sn_official s then begun = true else 0 < minimum_interval s -> reserved = true) ->
  ok (exchange (Requested m) (Answer m a) w) (Heard m a).
Proof.
  intros Hok Hc. eapply exchange_ok; [exact Hok|intros d; by apply (WatchRequest _ m begun reserved)|constructor].
Qed.

Lemma triple_send m reserved :
  sn_official s = false -> (0 < minimum_interval s -> reserved = true) ->
  triple (fun ph => ph = Held m false reserved true) (send m) (fun a => hears m (Plain a)).
Proof.
  intros Ho Hi w ph Hok ->. unfold send, request. eexists. split; [|reflexivity].
  apply (request_ok w m false reserved); [done|]. by rewrite Ho.
Qed.

Lemma triple_dispatch m :
  sn_official s = true ->
  triple (fun ph => ph = Held m true false true) (dispatch m) (fun r => hears m (Official r.1 r.2)).
Proof.
  intros Ho w ph Hok ->. unfold dispatch, request. destruct (sn_dispatch s (w_calls w) m) as [o failed].
  eexists. split; [|reflexivity]. apply (request_ok w m true false); [done|]. by rewrite Ho.
Qed.

Lemma triple_failure m a interval :
  a <> Sent -> triple (hears m (Plain a)) (record_failure m a interval) (fun _ => anywhere).
Proof.
  intros Ha. eapply triple_bind; [apply triple_retry|]. intros retry. cbv zeta.
  assert (Hfailed : forall delay reason, failure_text (Plain a) = Some reason ->
    triple (hears m (Plain a)) (bind (mark_failed (om_id m) delay reason) (fun _ => ret false)) (fun _ => anywhere)).
  { intros delay reason Hr. eapply triple_bind; [|intros ?; by apply triple_ret].
    eapply triple_bind; [apply triple_clock|]. intros now.
    apply (triple_record _ _ _ (fun _ => anywhere)); [by intros ph ->|done]. }
  destruct a as [|e|]; [done| |by apply Hfailed]. case_if; [|destruct (er_permanent e) eqn:Ep; [|by apply Hfailed]].
  - eapply triple_bind; [apply triple_clock|]. intros now. eapply triple_bind; [|intros ?; by apply triple_ret].
    eapply triple_bind; [apply triple_clock|]. intros now'.
    apply (triple_record _ _ _ (fun _ => anywhere)); [by intros ph ->|done].
  - eapply triple_bind; [|intros ?; by apply triple_ret]. eapply triple_bind; [apply triple_clock|]. intros now.
    apply (triple_record _ _ _ (fun _ => anywhere)); [|done]. intros ph ->. split_and!; try done. by exists e.
Qed.

Lemma triple_deliver m reserved interval :
  sn_official s = false -> (0 < minimum_interval s -> reserved = true) ->
  triple (fun ph => ph = Held m false reserved true) (deliver m interval) (fun _ => anywhere).
Proof.
  intros Ho Hi. eapply triple_bind; [by apply triple_send|]. intros a.
  assert (Hfail : a <> Sent -> triple (hears m (Plain a))
    (fun w => if ce_cancelled (here w) then (Err Cancelled, (release (om_id m) w).2) else record_failure m a interval w)
    (fun _ => anywhere)).
  { intros Ha w ph Hok Hph. destruct (ce_cancelled (here w)); [|by apply (triple_failure m a interval Ha w ph)].
    pose proof (triple_release _ (om_id m) w ph Hok Hph) as Hr.
    destruct (release (om_id m) w) as [[u|e] w']; cbn [snd]; [destruct Hr as (ph' & Hr & _)|destruct Hr as (ph' & Hr)]; by exists ph'. }
  destruct a as [|e|]; [|by apply Hfail..]. eapply triple_bind; [|intros ?; by apply triple_ret].
  eapply triple_bind; [apply triple_clock|]. intros now.
  apply (triple_record _ _ _ (fun _ => anywhere)); [by intros ph ->|done].
Qed.

Lemma triple_plain m destination :
  sn_official s = false -> triple (holding m false false) (process_plain m destination) (fun _ => anywhere).
Proof.
  intros Ho. unfold process_plain. cbv zeta.
  assert (Hrelease : forall reserved, triple (holding m false reserved) (bind (release (om_id m)) (fun _ => ret false)) (fun _ => anywhere)).
  { intros reserved. eapply triple_bind; [apply triple_release|]. intros ?. by apply triple_ret. }
  eapply triple_bind; [apply triple_allowed|]. intros [|]; cbn [negb]; [|apply Hrelease].
  destruct (0 <? minimum_interval s) eqn:Ei.
  2: { apply triple_deliver; [done|]. apply Z.ltb_ge in Ei. lia. }
  eapply triple_bind; [eapply triple_pre; [|apply triple_reserve]; intros ph ->; by eexists|].
  intros [|]; cbn [negb].
  - eapply triple_bind; [apply triple_allowed|]. intros [|]; cbn [negb]; [by apply triple_deliver|apply Hrelease].
  - eapply triple_bind; [apply triple_release|]. intros ?. by apply triple_ret.
Qed.

Lemma officialWorkerReason_listed reason : one_of worker_reasons (officialWorkerReason reason) = true.
Proof. unfold officialWorkerReason. destruct (one_of worker_reasons reason) eqn:E; [done|]. reflexivity. Qed.

Lemma resolution_honest_of m o failed interval retry :
  resolution_honest (Heard m (Official o failed)) (om_id m) (resolution_of m o failed interval retry).
Proof.
  unfold resolution_of. cbv zeta. cbn [resolution_honest]. split; [done|].
  destruct (do_state o =?s DispatchAccepted) eqn:E1; [apply String.eqb_eq in E1; destruct failed|
    destruct (do_state o =?s DispatchNotAccepted) eqn:E2; [apply String.eqb_eq in E2|
    destruct ((do_state o =?s DispatchRejected) || (do_state o =?s DispatchOptedOut)) eqn:E3;
      [apply orb_true_iff in E3 as [E3|E3]; apply String.eqb_eq in E3|destruct (do_state o =?s DispatchUnknown)]]];
    cbn [rs_attempt rs_reason rs_outcome]; (split; [done|]);
    (destruct (codes_ok o); cbn [negb]; (split; [first [reflexivity|apply officialWorkerReason_listed]|]); split; try done; auto).
Qed.

Lemma triple_official m interval :
  sn_official s = true -> triple (holding m false false) (processOfficialMessage m interval) (fun _ => anywhere).
Proof.
  intros Ho. unfold processOfficialMessage.
  eapply (triple_bind _ _ _ (fun a ph => if a is Some b then holding b true false ph else anywhere ph)).
  { eapply triple_bind; [apply triple_clock|]. intros now.
    apply triple_transact; [by intros; apply housekeeping_honest|].
    intros d [b|] ph [p ->] Hr.
    - eexists. split; [by apply WatchBegin|by exists false].
    - exists Idle. split; [|done]. by apply WatchOutcome, housekeeping_honest. }
  intros [b|]; [|by apply triple_release]. eapply triple_bind; [apply triple_allowed|]. intros [|]; cbn [negb].
  2: { eapply triple_bind; [apply triple_clock|]. intros now.
       apply triple_record; [|done]. by intros ph [p ->]. }
  eapply triple_bind; [by apply triple_dispatch|]. intros [o failed]. cbn [fst snd].
  eapply triple_bind; [apply triple_retry|]. intros retry.
  eapply triple_bind; [|intros ?; apply triple_context].
  eapply triple_bind; [apply triple_clock|]. intros now.
  apply (triple_record _ _ _ (fun _ => anywhere)); [|done]. intros ph ->. apply resolution_honest_of.
Qed.

Lemma poll_resolution_honest m o failed :
  poll_honest (PollHeard m o failed) (om_id m) (poll_resolution m o failed).
Proof.
  unfold poll_resolution. cbv zeta. set (status := if failed || _ then _ else _).
  assert (Hs : status <> "unknown"%string -> failed = false /\ (do_state o = DispatchAccepted \/ do_state o = DispatchOptedOut)
    /\ status = do_provider_state o).
  { unfold status. destruct failed; [done|]. cbn [orb].
    destruct (String.eqb_spec (do_state o) DispatchAccepted); [by auto|].
    destruct (String.eqb_spec (do_state o) DispatchOptedOut); by auto. }
  destruct (one_of poll_statuses status) eqn:E; destruct (codes_ok o); cbn [negb poll_honest pr_status pr_reason pr_attempt pr_optout];
    (split_and!; [done|done|first [exact E|reflexivity]|first [apply officialWorkerReason_listed|reflexivity]
      |first [exact Hs|done]|by intros ?%String.eqb_eq]).
Qed.

Definition holding_poll (m : OutboxMessage) (ph : phase) : Prop := exists permitted, ph = HeldPoll m permitted.

Lemma triple_poll_allowed m destination :
  triple (holding_poll m) (poll_allowed m destination)
    (fun ok ph => if ok : bool then ph = HeldPoll m true else holding_poll m ph).
Proof.
  intros w ph Hok Hph. unfold poll_allowed, ask. pose proof (others_ok w ph Hok) as Hok1. cbv zeta.
  destruct (ce_fate (here w)); [by exists ph|..];
    (destruct (OfficialPollAllowed _ _ _ _ _) as [[|]|] eqn:Ea; [|by exists ph|by exists ph]);
    (destruct Hph as [p ->]; exists (HeldPoll m true); split; [|done]);
    (eapply watched_snoc; [exact Hok1|by constructor]).
Qed.

Lemma triple_poll m :
  triple (fun ph => ph = HeldPoll m true) (poll m) (fun r ph => ph = PollHeard m r.1 r.2).
Proof.
  intros w ph Hok ->. unfold poll. destruct (sn_poll s (w_calls w) m) as [o failed].
  eexists. split; [|reflexivity]. eapply exchange_ok; [exact Hok|constructor|constructor].
Qed.

Lemma triple_poll_one destination id : triple anywhere (poll_one destination id) (fun _ => anywhere).
Proof.
  eapply triple_bind; [apply triple_context|]. intros ?. eapply triple_bind; [apply triple_clock|]. intros now.
  eapply (triple_bind _ _ _ (fun a ph => if a is Some m then holding_poll m ph else anywhere ph)).
  { apply triple_transact; [by intros; apply housekeeping_honest|]. intros d [m|] ph _ Hr.
    - eexists. split; [by constructor|by exists false].
    - exists Idle. split; [|done]. by apply WatchOutcome, housekeeping_honest. }
  intros [m|]; [|by apply triple_ret]. eapply triple_bind; [apply triple_poll_allowed|].
  intros [|]; cbn [negb]; [|by apply triple_ret]. eapply triple_bind; [apply triple_poll|].
  intros [o failed]. eapply triple_bind; [apply triple_clock|]. intros now'. cbn [fst snd].
  apply triple_record; [|done]. intros ph ->. apply poll_resolution_honest.
Qed.

Lemma triple_poll_each destination messages : triple anywhere (poll_each destination messages) (fun _ => anywhere).
Proof.
  induction messages as [|m l IH]; cbn [poll_each]; [by apply triple_ret|].
  eapply triple_bind; [apply triple_poll_one|by intros ?].
Qed.

Lemma triple_process_one destination id : triple anywhere (process_one destination id) (fun _ => anywhere).
Proof.
  eapply triple_bind; [apply triple_claim|]. intros [m|]; [|by apply triple_ret].
  destruct (sn_official s) eqn:Ho; [|by apply triple_plain].
  eapply triple_bind; [by apply triple_official|]. intros ?. by apply triple_ret.
Qed.

Lemma triple_process_each destination messages : forall blocked,
  triple anywhere (process_each destination blocked messages) (fun _ => anywhere).
Proof.
  induction messages as [|m l IH]; intros blocked; cbn [process_each]; [by apply triple_ret|].
  eapply triple_bind; [apply triple_context|]. intros ?. case_if; [apply IH|].
  eapply triple_bind; [apply triple_process_one|]. intros ?. apply IH.
Qed.

Lemma triple_process configured : triple anywhere (process configured) (fun _ => anywhere).
Proof.
  unfold process. destruct (agreed_destination configured) as [destination|e]; [|apply triple_fail].
  eapply triple_bind; [apply triple_clock|]. intros now. eapply (triple_bind _ _ _ (fun _ => anywhere)).
  { destruct (sn_official s); [|by apply triple_ret].
    eapply (triple_bind _ _ _ (fun _ => anywhere)); [by apply triple_record; [intros; apply housekeeping_honest|]|].
    intros ?. apply triple_poll_each. }
  intros ?. eapply (triple_bind _ _ _ (fun _ => anywhere)); [|intros ?; apply triple_process_each].
  unfold pending. case_if; [apply triple_fail|].
  eapply (triple_bind _ _ _ (fun _ => anywhere)); [by apply triple_record; [intros; apply housekeeping_honest|]|].
  intros ?. apply (triple_ask anywhere).
Qed.

Lemma Run_ok passes configured : forall w ph, ok w ph -> exists ph', ok (Run passes configured w) ph'.
Proof.
  induction passes as [|passes IH]; intros w ph Hok; cbn [Run]; [by exists ph|].
  pose proof (triple_process configured w ph Hok I) as Hp.
  destruct (process configured w) as [[u|e] w']; cbn [snd]; [destruct Hp as (ph' & Hp & _)|destruct Hp as (ph' & Hp)]; by apply (IH w' ph').
Qed.
End triples.

(** C39. Whatever the sender answers, whatever others do between the calls (also between
    a check and the request, and between the request and its answer) and whichever calls
    fail, a worker is disciplined: it asks the platform for a delivery only after the
    outbox, as it was at its last check, allowed it for a message that the worker has
    claimed, and that has a committed attempt if the platform is official and a reserved
    slot if the channel is paced, with the check after both; it asks for a state only
    after the outbox allowed the poll that the worker has claimed; it asks once per claim,
    attempt or poll; it records an acceptance, a refusal or a state only of the request it
    made and only when the platform said so, and no text but those of a fixed list and
    those it composed. *)
Theorem worker_disciplined passes configured d :
  exists ph, watched (d, Idle) (w_log (Run passes configured (mkWorld d [] 0)))
    (w_db (Run passes configured (mkWorld d [] 0)), ph).
Proof. apply (Run_ok (d, Idle) passes configured (mkWorld d [] 0) Idle). constructor. Qed.

(** ** Requests are committed attempts *)

Definition op_of (e : entry) : option outbox_op :=
  match e with Others op | Did op _ => Some op | _ => None end.
Definition ops_of (log : list entry) : list outbox_op := omap op_of log.

Abbreviation attempt_id := (string * Z * string)%type.
Definition attempt_of (m : OutboxMessage) : attempt_id :=
  (om_id m, rb_dispatch_attempt (om_read m), rb_retry_key (om_read m)).

(** The requests that go out, and the attempts that are posted. *)
Definition request_of (e : entry) : option attempt_id :=
  match e with Requested m => Some (attempt_of m) | _ => None end.
Definition posts_at (d : OutboxDB) (op : outbox_op) : list attempt_id :=
  match op with
  | OpBegin id _ _ _ =>
      omap (fun e => match e with Posted n _ key => Some (id, n, key) | _ => None end) (events_of d op id)
  | _ => []
  end.
Fixpoint posted_in (d : OutboxDB) (ops : list outbox_op) : list attempt_id :=
  match ops with
  | [] => []
  | op :: ops => posts_at d op ++ posted_in (step d op) ops
  end.

Lemma posted_in_snoc ops op : forall d, posted_in d (ops ++ [op]) = posted_in d ops ++ posts_at (foldl step d ops) op.
Proof.
  induction ops as [|op' ops IH]; intros d; cbn [posted_in app foldl]; [by rewrite app_nil_r|]. by rewrite IH, app_assoc.
Qed.

Lemma begin_message id destination now minimum d m :
  answered (BeginOfficialDispatch id destination now minimum d) = Ok (Some m) ->
  om_id m = id /\ posts_at d (OpBegin id destination now minimum) = [attempt_of m].
Proof.
  intros Hb. assert (Hid : om_id m = id).
  { revert Hb. unfold BeginOfficialDispatch. destruct (_ || (0 <? minimum) && _)%bool; [done|].
    destruct (readOfficialRow id d) as [[r x]|]; cbn [rbind answered]; [|done]. case_match; [done|].
    destruct (negb (sendable _ _ _) || _)%bool; [done|]. destruct (od_policies d !! _) as [p|]; [|done].
    destruct (negb (_ =?s "")); [done|].
    assert (Hc : forall day d1, answered (Ok (E := outbox_error) (commit_intent id destination r x day now minimum d1)) = Ok (Some m) -> om_id m = id).
    { intros day d1. unfold commit_intent. cbv zeta. case_match; [done|]. by intros [= <-]. }
    destruct (at_budget_day (dp_attempt x) <? 0); [|apply Hc]. destruct (exhausted _ _ _ _); [done|].
    destruct (debit _ _ _ _) as [d1|]; cbn [rbind answered]; [apply Hc|done]. }
  split; [done|]. unfold posts_at, events_of. destruct (BeginOfficialDispatch _ _ _ _ _) as [[d1 o]|]; [|done].
  injection Hb as ->. rewrite String.eqb_refl. unfold attempt_of. by rewrite Hid.
Qed.

(** A begun message has been posted after every request so far. *)
Definition accounted (d0 : OutboxDB) (log : list entry) (x : OutboxDB * phase) : Prop :=
  x.1 = foldl step d0 (ops_of log)
  /\ match x.2 with
     | Held m true _ _ => omap request_of log ++ [attempt_of m] `sublist_of` posted_in d0 (ops_of log)
     | _ => omap request_of log `sublist_of` posted_in d0 (ops_of log)
     end.

Lemma accounted_requests d0 log x : accounted d0 log x -> omap request_of log `sublist_of` posted_in d0 (ops_of log).
Proof.
  intros [_ Hx]. destruct x.2 as [|m [|] r p|m|m a|m p|m|m o f]; try done. etransitivity; [|exact Hx]. by apply sublist_inserts_r.
Qed.

(** What is owed at a phase, given the requests and the posts. *)
Definition owed (ph : phase) (requests posts : list attempt_id) : Prop :=
  match ph with Held m true _ _ => requests ++ [attempt_of m] `sublist_of` posts | _ => requests `sublist_of` posts end.

Lemma owed_more ph requests posts more : owed ph requests posts -> owed ph requests (posts ++ more).
Proof. destruct ph as [|m [|] r p|m|m a|m p|m|m o f]; apply sublist_inserts_r. Qed.

Lemma accounted_op d0 log d ph op e ph' :
  accounted d0 log (d, ph) -> op_of e = Some op -> request_of e = None ->
  owed ph' (omap request_of log) (posted_in d0 (ops_of log) ++ posts_at d op) ->
  accounted d0 (log ++ [e]) (step d op, ph').
Proof.
  intros [Hd _] He Hr Ho. unfold accounted, ops_of in *. rewrite !omap_app. cbn [omap list_omap fst snd] in *. rewrite He, Hr.
  rewrite foldl_app, app_nil_r, posted_in_snoc, <- Hd. split; [done|]. by destruct ph' as [|m [|] r p|m|m a|m p|m|m o f].
Qed.

Lemma accounted_quiet d0 log d ph e ph' :
  accounted d0 log (d, ph) -> op_of e = None ->
  owed ph' (omap request_of (log ++ [e])) (posted_in d0 (ops_of log)) -> accounted d0 (log ++ [e]) (d, ph').
Proof.
  intros [Hd _] He Ho. unfold accounted, ops_of in *. rewrite omap_app. cbn [omap list_omap fst snd] in *. rewrite He.
  rewrite app_nil_r. split; [done|]. by destruct ph' as [|m [|] r p|m|m a|m p|m|m o f].
Qed.

Lemma watched_accounted d0 log x : sn_official s = true -> watched (d0, Idle) log x -> accounted d0 log x.
Proof.
  intros Ho Hw. remember (d0, Idle) as start eqn:Hs. induction Hw as [|start l y e z Hw IH Hstep]; subst.
  { split; [done|]. cbn. constructor. }
  specialize (IH eq_refl). pose proof (accounted_requests _ _ _ IH) as Hreq. pose proof (proj2 IH) as Hx.
  assert (Hsame : forall e, request_of e = None -> omap request_of (l ++ [e]) = omap request_of l)
    by (intros e' He; rewrite omap_app; cbn [omap list_omap]; by rewrite He, app_nil_r).
  destruct Hstep as [d ph op|d ph id now m Hc|d m0 r p now interval m Hb|d m b r p dst now interval Hr
    |d m b r p dst now Hp|d m b r Hc|d m a|d ph id dst now m Hc|d m p dst now Hp|d m|d m o f|d ph op Hout]; cbn [snd] in Hx.
  - eapply accounted_op; [exact IH|done..|]. apply owed_more. by destruct ph as [|m [|] r p|m|m a|m p|m|m o f].
  - eapply accounted_op; [exact IH|done..|]. by apply (owed_more Idle).
  - eapply accounted_op; [exact IH|done..|]. apply begin_message in Hb as [_ ->]. by apply sublist_app.
  - eapply accounted_op; [exact IH|done..|]. apply owed_more. by destruct b.
  - eapply accounted_quiet; [exact IH|done|]. rewrite Hsame by done. by destruct b.
  - rewrite Ho in Hc. subst b. eapply accounted_quiet; [exact IH|done|]. cbn [owed]. rewrite omap_app. exact Hx.
  - eapply accounted_quiet; [exact IH|done|]. by rewrite Hsame.
  - eapply accounted_op; [exact IH|done..|]. by apply (owed_more Idle).
  - eapply accounted_quiet; [exact IH|done|]. by rewrite Hsame.
  - eapply accounted_quiet; [exact IH|done|]. by rewrite Hsame.
  - eapply accounted_quiet; [exact IH|done|]. by rewrite Hsame.
  - eapply accounted_op; [exact IH|done..|]. by apply (owed_more Idle).
Qed.

(** C40. The requests of a worker for an official platform are committed attempts: in
    their order, each is another one of the attempts that the operations of the outbox
    post (those whose repetition [DispatchOnce] bounds), with its retry key, and the outbox
    is what these operations make of it. *)
Theorem worker_requests_posted passes configured d :
  sn_official s = true ->
  let w := Run passes configured (mkWorld d [] 0) in
  w_db w = foldl step d (ops_of (w_log w))
  /\ omap request_of (w_log w) `sublist_of` posted_in d (ops_of (w_log w)).
Proof.
  intros Ho w. destruct (Run_ok (d, Idle) passes configured (mkWorld d [] 0) Idle) as [ph Hok]; [constructor|].
  apply (watched_accounted _ _ _ Ho) in Hok. fold w in Hok. split; [apply Hok|by eapply accounted_requests].
Qed.

End Worker.

(** The delay before a retry doubles with the attempts up to 256 seconds, with at most
    half as much again, so the cap of an hour is never reached. *)
Lemma retryDelay_bounds attempts random :
  0 <= random ->
  let base := second * 2 ^ Z.min 8 (Z.max 0 attempts) in
  base <= retryDelay attempts random <= base + base `quot` 2 /\ retryDelay attempts random <= 384 * second.
Proof.
  intros Hr. cbv zeta. unfold retryDelay. cbv zeta. set (k := Z.min 8 (Z.max 0 attempts)).
  assert (Hp : 1 <= 2 ^ k <= 256).
  { split; [apply (Z.pow_le_mono_r 2 0 k); lia|]. change 256 with (2 ^ 8). apply Z.pow_le_mono_r; lia. }
  set (base := second * 2 ^ k). assert (Hb : second <= base <= 256 * second) by (unfold base, second, millisecond, microsecond, nanosecond; lia).
  pose proof (Z.mod_pos_bound random (base `quot` 2 + 1)) as Hm.
  assert (Hq : 0 <= base `quot` 2 <= 128 * second).
  { rewrite Z.quot_div_nonneg by (unfold second, millisecond, microsecond, nanosecond in *; lia).
    split; [apply Z.div_pos; unfold second, millisecond, microsecond, nanosecond in *; lia|].
    apply Z.div_le_upper_bound; lia. }
  specialize (Hm ltac:(lia)). case_if; bool_to_prop; unfold hour, minute, second, millisecond, microsecond, nanosecond in *; lia.
Qed.

(** ** Example: a LINE message, first without an answer *)

Definition example_outcome (state provider : string) : DispatchOutcome :=
  mkOutcome state provider "" "secret text" 200 0 0 None None "" false.
Definition line_sender : sender :=
  mkSender (Some (example_receiver "line")) true (Some second) (fun _ _ => OtherError)
    (fun n _ => if (n <? 8)%nat then (example_outcome "unknown" "", false) else (example_outcome "accepted" "provider-1", false))
    (fun _ _ => (example_outcome "" "", true)).
Definition line_env (n : nat) : call_env :=
  mkCallEnv [] (example_at (4 + 20 * Z.of_nat n)) Answered false 0.
Definition line_outbox : OutboxDB :=
  foldl (outbox_step example_json (fun _ => None)) empty_outbox
    (set_up "line" ++ [OpEnqueue (example_draws 3) (example_message "line" "m1")]).
Definition line_run : world :=
  Run example_json (fun _ => None) line_env line_sender 3 "" (mkWorld line_outbox [] 0).

Lemma worker_requests_posted_witness :
  omap request_of (w_log line_run) = [("m1", 1, example_key); ("m1", 2, example_key)]%string
  /\ omap request_of (w_log line_run) `sublist_of`
       posted_in example_json (fun _ => None) line_outbox (ops_of (w_log line_run)).
Proof.
  split; [vm_compute; reflexivity|].
  exact (proj2 (worker_requests_posted example_json (fun _ => None) line_env line_sender 3 "" line_outbox eq_refl)).
Defined.
