(* ===== verification/Regex.v ===== *)
(** * Regular expressions as Go matches them

    The part of the package [regexp] that the journal collector uses: patterns of
    byte classes, sequences, alternatives, greedy repetition and groups.  Go prefers
    the match that a backtracking search finds first; the matcher below lists the
    matches at a position in that order.  A text is its bytes: on valid UTF-8 a class
    without bytes above 127 and one with all of them read runes whole, since what
    follows them in the patterns begins with an ASCII byte or the end. *)

From S2P Require Export NetIP.

Inductive regex :=
| Eps
| Class (ranges : list (Z * Z))
| Cat (r1 r2 : regex)
| Alt (r1 r2 : regex)
| Star (r : regex)
| Group (n : nat) (r : regex).

Definition in_class (ranges : list (Z * Z)) (b : Z) : bool :=
  existsb (fun r => (r.1 <=? b) && (b <=? r.2)) ranges.

Definition lit_bytes (l : list Z) : regex := foldr (fun b r => Cat (Class [(b, b)]) r) Eps l.
Definition lit (s : string) : regex := lit_bytes (bytes_of_string s).
Definition Plus (r : regex) : regex := Cat r (Star r).
Definition Opt (r : regex) : regex := Alt r Eps.

(** A match: the groups in the order in which they open, the text and what follows. *)
Record found := mkFound { fd_groups : list (nat * list Z); fd_text : list Z; fd_rest : list Z }.

Definition prepend (m m' : found) : found :=
  mkFound (fd_groups m ++ fd_groups m') (fd_text m ++ fd_text m') (fd_rest m').

Fixpoint star_runs (step : list Z -> list found) (fuel : nat) (s : list Z) : list found :=
  match fuel with
  | O => [mkFound [] [] s]
  | S fuel =>
      flat_map (fun m => match fd_text m with
                         | [] => []
                         | _ => prepend m <$> star_runs step fuel (fd_rest m)
                         end) (step s)
      ++ [mkFound [] [] s]
  end.

(** All matches at the start of a text, the preferred one first.  An iteration of a
    repetition consumes a byte, so the length of the text is fuel enough. *)
Fixpoint runs (r : regex) (s : list Z) : list found :=
  match r with
  | Eps => [mkFound [] [] s]
  | Class ranges =>
      match s with
      | b :: s => if in_class ranges b then [mkFound [] [b] s] else []
      | [] => []
      end
  | Cat r1 r2 => flat_map (fun m => prepend m <$> runs r2 (fd_rest m)) (runs r1 s)
  | Alt r1 r2 => runs r1 s ++ runs r2 s
  | Star r => star_runs (runs r) (length s) s
  | Group n r => (fun m => mkFound ((n, fd_text m) :: fd_groups m) (fd_text m) (fd_rest m)) <$> runs r s
  end.

Definition nilb {A} (l : list A) : bool := match l with [] => true | _ => false end.

(** The matches of the whole text, [^r$]. *)
Definition ends (r : regex) (s : list Z) : list found := List.filter (fun m => nilb (fd_rest m)) (runs r s).
Definition FindStringSubmatch (r : regex) (s : list Z) : option found := head (ends r s).
Definition MatchString (r : regex) (s : list Z) : bool := negb (nilb (ends r s)).

(** [match[n]]: the last text of a group, empty when it took no part. *)
Definition group (n : nat) (m : found) : list Z :=
  default [] (snd <$> last (List.filter (fun g => (g.1 =? n)%nat) (fd_groups m))).

(** What follows each of the successive matches of an unanchored pattern whose matches
    are not empty. *)
Fixpoint FindAll (fuel : nat) (r : regex) (s : list Z) : list (list Z) :=
  match fuel, s with
  | S fuel, _ :: s' =>
      match runs r s with
      | m :: _ => fd_rest m :: FindAll fuel r (fd_rest m)
      | [] => FindAll fuel r s'
      end
  | _, _ => []
  end.

(** ** The language of a pattern *)

Fixpoint lang (r : regex) (t : list Z) : Prop :=
  match r with
  | Eps => t = []
  | Class ranges => exists b, t = [b] /\ in_class ranges b = true
  | Cat r1 r2 => exists t1 t2, t = t1 ++ t2 /\ lang r1 t1 /\ lang r2 t2
  | Alt r1 r2 => lang r1 t \/ lang r2 t
  | Star r => exists ts, t = concat ts /\ Forall (lang r) ts
  | Group _ r => lang r t
  end.

Lemma elem_of_flat_map {A B} (f : A -> list B) l y : y ∈ flat_map f l <-> exists x, x ∈ l /\ y ∈ f x.
Proof.
  rewrite list_elem_of_In, in_flat_map. split; intros (x & H1 & H2); exists x;
    [rewrite !list_elem_of_In|rewrite <- !list_elem_of_In]; done.
Qed.

Section Star.
Context (step : list Z -> list found) (P : list Z -> Prop).

Lemma star_runs_sound fuel : forall s m,
  (forall s m, m ∈ step s -> s = fd_text m ++ fd_rest m /\ P (fd_text m)) ->
  m ∈ star_runs step fuel s ->
  s = fd_text m ++ fd_rest m /\ exists ts, fd_text m = concat ts /\ Forall P ts.
Proof.
  induction fuel as [|fuel IH]; intros s m Hs; simpl.
  - intros ->%list_elem_of_singleton. split; [done|]. by exists [].
  - rewrite elem_of_app, list_elem_of_singleton, elem_of_flat_map.
    intros [(m1 & H1 & H2)| ->]; [|split; [done|by exists []]].
    apply Hs in H1 as [-> Hp]. destruct (fd_text m1) as [|b t] eqn:Et; [by apply not_elem_of_nil in H2|].
    apply list_elem_of_fmap in H2 as (m2 & -> & H2). apply IH in H2 as [E (ts & Ht & Hts)]; [|done].
    simpl. rewrite ?Et, E, Ht. split; [simpl; by rewrite ?app_assoc|]. exists ((b :: t) :: ts). by split; [|constructor].
Qed.

Lemma star_runs_complete ts : forall fuel rest,
  (forall t rest, P t -> exists m, m ∈ step (t ++ rest) /\ fd_text m = t /\ fd_rest m = rest) ->
  (length (concat ts ++ rest) <= fuel)%nat -> Forall P ts ->
  exists m, m ∈ star_runs step fuel (concat ts ++ rest) /\ fd_text m = concat ts /\ fd_rest m = rest.
Proof.
  induction ts as [|t ts IH]; intros fuel rest Hs Hf Hp; simpl.
  - exists (mkFound [] [] rest). split; [|done]. destruct fuel; simpl; [by apply list_elem_of_singleton|].
    apply elem_of_app. right. by apply list_elem_of_singleton.
  - apply Forall_cons in Hp as [Ht Hts]. destruct t as [|b t]; [by apply IH|].
    simpl in Hf. destruct fuel as [|fuel]; [lia|].
    destruct (Hs _ (concat ts ++ rest) Ht) as (m1 & Hm1 & Et & Er).
    destruct (IH fuel rest Hs) as (m2 & Hm2 & Et2 & Er2); [|done|].
    { rewrite !length_app in Hf. rewrite length_app. lia. }
    exists (prepend m1 m2). simpl. rewrite Et, Et2. split; [|done]. apply elem_of_app. left.
    apply elem_of_flat_map. exists m1.
    split; [simpl in Hm1; by rewrite <- ?app_assoc|]. rewrite Et, Er.
    by apply list_elem_of_fmap_2.
Qed.
End Star.

Lemma runs_sound r : forall s m, m ∈ runs r s -> s = fd_text m ++ fd_rest m /\ lang r (fd_text m).
Proof.
  induction r as [|rs|r1 IH1 r2 IH2|r1 IH1 r2 IH2|r IH|n r IH]; intros s m; simpl.
  - by intros ->%list_elem_of_singleton.
  - destruct s as [|b s]; [by intros ?%not_elem_of_nil|].
    destruct (in_class rs b) eqn:E; [|by intros ?%not_elem_of_nil].
    intros ->%list_elem_of_singleton. split; [done|]. by exists b.
  - rewrite elem_of_flat_map. intros (m1 & H1 & (m2 & -> & H2)%list_elem_of_fmap).
    apply IH1 in H1 as [-> L1]. apply IH2 in H2 as [E L2]. simpl. rewrite E. split; [by rewrite <- app_assoc|].
    by exists (fd_text m1), (fd_text m2).
  - rewrite elem_of_app. intros [H|H]; [apply IH1 in H as [-> H]|apply IH2 in H as [-> H]]; auto.
  - apply star_runs_sound. exact IH.
  - intros (m1 & -> & H1)%list_elem_of_fmap. by apply IH in H1.
Qed.

Lemma runs_complete r : forall t rest, lang r t ->
  exists m, m ∈ runs r (t ++ rest) /\ fd_text m = t /\ fd_rest m = rest.
Proof.
  induction r as [|rs|r1 IH1 r2 IH2|r1 IH1 r2 IH2|r IH|n r IH]; intros t rest; simpl.
  - intros ->. exists (mkFound [] [] rest). split; [by apply list_elem_of_singleton|done].
  - intros (b & -> & Hb). simpl. rewrite Hb. eexists. split; [by apply list_elem_of_singleton|done].
  - intros (t1 & t2 & -> & L1 & L2).
    destruct (IH1 t1 (t2 ++ rest) L1) as (m1 & H1 & E1 & R1). destruct (IH2 t2 rest L2) as (m2 & H2 & E2 & R2).
    exists (prepend m1 m2). simpl. rewrite E1, E2. split; [|done]. apply elem_of_flat_map. exists m1.
    rewrite <- app_assoc, R1. split; [done|]. by apply list_elem_of_fmap_2.
  - intros [L|L]; [destruct (IH1 t rest L) as (m & H & E)|destruct (IH2 t rest L) as (m & H & E)];
      exists m; rewrite elem_of_app; auto.
  - intros (ts & -> & Hts). by apply (star_runs_complete _ (lang r)).
  - intros L. destruct (IH t rest L) as (m & H & E & R). eexists. split; [by apply list_elem_of_fmap_2|]. done.
Qed.

(** Whole matches decide the language. *)
Lemma MatchString_lang r t : MatchString r t = true <-> lang r t.
Proof.
  unfold MatchString, ends. split.
  - destruct (List.filter _ _) as [|m l] eqn:E; [done|]. intros _.
    assert (Hin : In m (List.filter (fun m => nilb (fd_rest m)) (runs r t))) by (rewrite E; by left).
    apply filter_In in Hin as [Hin Hr]. apply list_elem_of_In, runs_sound in Hin as [-> L].
    destruct (fd_rest m); [by rewrite app_nil_r|done].
  - intros L. destruct (runs_complete r t [] L) as (m & H & _ & R). rewrite app_nil_r in H.
    destruct (List.filter _ _) as [|m' l] eqn:E; [|done].
    assert (Hin : In m []) by (rewrite <- E; apply filter_In; rewrite R; split; [by apply list_elem_of_In|done]).
    done.
Qed.

(** ** Repetition of a class *)

(** The ways to split off a prefix in a class, the longest first. *)
Fixpoint splits (rs : list (Z * Z)) (s : list Z) : list (list Z * list Z) :=
  match s with
  | [] => [([], [])]
  | b :: s' => (if in_class rs b then (fun p => (b :: p.1, p.2)) <$> splits rs s' else []) ++ [([], s)]
  end.

Lemma flat_map_fmap {A B C} (f : B -> list C) (g : A -> B) l :
  flat_map f (g <$> l) = flat_map (fun x => f (g x)) l.
Proof. induction l as [|x l IH]; csimpl; [done|]. by rewrite IH. Qed.

Lemma flat_map_nil {A B} (f : A -> list B) l : (forall x, x ∈ l -> f x = []) -> flat_map f l = [].
Proof.
  induction l as [|x l IH]; intros H; simpl; [done|].
  rewrite (H x), IH; [done| |by left]. intros y Hy. apply H. by right.
Qed.

Lemma runs_cat r1 r2 s : runs (Cat r1 r2) s = flat_map (fun m => prepend m <$> runs r2 (fd_rest m)) (runs r1 s).
Proof. done. Qed.

Lemma runs_star_class rs s : runs (Star (Class rs)) s = (fun p => mkFound [] p.1 p.2) <$> splits rs s.
Proof.
  cbn [runs]. induction s as [|b s IH]; simpl; [done|]. destruct (in_class rs b); simpl; [|done].
  rewrite app_nil_r, fmap_app, IH, <- !list_fmap_compose. done.
Qed.

Lemma runs_plus_class rs b s :
  in_class rs b = true -> runs (Plus (Class rs)) (b :: s) = (fun p => mkFound [] (b :: p.1) p.2) <$> splits rs s.
Proof.
  intros Hb. unfold Plus. rewrite runs_cat.
  replace (runs (Class rs) (b :: s)) with [mkFound [] [b] s] by (simpl; by rewrite Hb). cbn [flat_map fd_rest]. rewrite app_nil_r.
  rewrite runs_star_class. by rewrite <- list_fmap_compose.
Qed.

Lemma splits_app rs s p : p ∈ splits rs s -> p.1 ++ p.2 = s.
Proof.
  revert p. induction s as [|b s IH]; intros p; simpl; [by intros ->%list_elem_of_singleton|].
  rewrite elem_of_app, list_elem_of_singleton. intros [H| ->]; [|done].
  destruct (in_class rs b); [|by apply not_elem_of_nil in H].
  apply list_elem_of_fmap in H as (q & -> & Hq). simpl. by rewrite (IH _ Hq).
Qed.

Lemma elem_of_splits rs u t : Forall (fun b => in_class rs b = true) u -> (u, t) ∈ splits rs (u ++ t).
Proof.
  induction 1 as [|b u Hb Hu IH]; simpl.
  - destruct t as [|c t]; simpl; [by left|]. apply elem_of_app. right. by left.
  - rewrite Hb. apply elem_of_app. left. apply list_elem_of_fmap. by exists (u, t).
Qed.

(** When the tail cannot start inside the class, only the longest prefix counts. *)
Lemma splits_delimited {B} (f : list Z * list Z -> list B) rs u t :
  Forall (fun b => in_class rs b = true) u ->
  match t with b :: _ => in_class rs b = false | [] => True end ->
  (forall p b q, in_class rs b = true -> f (p, b :: q) = []) ->
  flat_map f (splits rs (u ++ t)) = f (u, t).
Proof.
  intros Hu Ht. revert f. induction Hu as [|b u Hb Hu IH]; intros f Hf; simpl.
  - destruct t as [|b t]; simpl; [by rewrite app_nil_r|]. rewrite Ht. simpl. by rewrite app_nil_r.
  - rewrite Hb, flat_map_app, flat_map_fmap. simpl.
    rewrite (IH (fun p => f (b :: p.1, p.2))); [|intros; by apply Hf]. simpl.
    rewrite (Hf [] b) by done. by rewrite !app_nil_r.
Qed.

(** Otherwise the first match is at the longest prefix after which the tail matches. *)
Lemma splits_greedy {B} (f : list Z * list Z -> list B) rs s y :
  Forall (fun b => in_class rs b = true) s ->
  head (flat_map f (splits rs s)) = Some y <->
  exists u t, s = u ++ t /\ head (f (u, t)) = Some y /\ forall x t', t = x ++ t' -> x <> [] -> f (u ++ x, t') = [].
Proof.
  intros Hs. revert f. induction Hs as [|b s Hb Hs IH]; intros f; simpl.
  - rewrite app_nil_r. split.
    + intros H. exists [], []. split; [done|]. split; [done|]. intros [|] ? ? ?; done.
    + intros (u & t & E & H & _). by destruct u, t.
  - rewrite Hb, flat_map_app, flat_map_fmap. cbn [flat_map]. rewrite app_nil_r. split.
    + destruct (flat_map (fun p => f (b :: p.1, p.2)) (splits rs s)) as [|z l] eqn:El.
      * simpl. intros H. exists [], (b :: s). split; [done|]. split; [done|].
        intros [|c x] t' E Hx; [done|]. injection E as <- ->. simpl.
        destruct (f (b :: x, t')) as [|z l] eqn:Ef; [done|]. exfalso.
        assert (Hz : z ∈ flat_map (fun p => f (b :: p.1, p.2)) (splits rs (x ++ t'))).
        { apply elem_of_flat_map. exists (x, t'). split; [apply elem_of_splits; by apply Forall_app in Hs as [? _]|].
          simpl. rewrite Ef. by left. }
        rewrite El in Hz. by apply not_elem_of_nil in Hz.
      * intros H. assert (H' : head (z :: l) = Some y) by done. rewrite <- El in H'.
        apply (IH (fun p => f (b :: p.1, p.2))) in H' as (u & t & -> & Hy & Hm).
        exists (b :: u), t. done.
    + intros (u & t & E & Hy & Hm). destruct u as [|c u]; simpl in E.
      * rewrite flat_map_nil; [by subst|]. intros p Hp. apply splits_app in Hp. subst t s.
        by apply (Hm (b :: p.1) p.2).
      * injection E as <- ->.
        assert (H : head (flat_map (fun p => f (b :: p.1, p.2)) (splits rs (u ++ t))) = Some y)
          by (apply (IH (fun p => f (b :: p.1, p.2))); by exists u, t).
        by destruct (flat_map (fun p => f (b :: p.1, p.2)) (splits rs (u ++ t))).
Qed.

(** ** Sequences *)

Lemma filter_flat_map {A B} (P : B -> bool) (f : A -> list B) l :
  List.filter P (flat_map f l) = flat_map (fun x => List.filter P (f x)) l.
Proof. induction l as [|x l IH]; simpl; [done|]. by rewrite List.filter_app, IH. Qed.

Lemma ends_cat r1 r2 s : ends (Cat r1 r2) s = flat_map (fun m => prepend m <$> ends r2 (fd_rest m)) (runs r1 s).
Proof.
  unfold ends. cbn [runs]. rewrite filter_flat_map. apply flat_map_ext. intros m.
  induction (runs r2 (fd_rest m)) as [|m' l IH]; csimpl; [done|].
  destruct (nilb (fd_rest m')); csimpl; by rewrite IH.
Qed.

(** What is left of a text after a prefix. *)
Fixpoint strip (l s : list Z) : option (list Z) :=
  match l, s with
  | [], _ => Some s
  | a :: l, b :: s => if a =? b then strip l s else None
  | _ :: _, [] => None
  end.

Lemma strip_Some l s t : strip l s = Some t <-> s = l ++ t.
Proof.
  revert s. induction l as [|a l IH]; intros [|b s]; simpl; try (split; congruence).
  case_if; bool_to_prop; [subst; rewrite IH; split; congruence|split; congruence].
Qed.

Lemma runs_lit l s : runs (lit_bytes l) s = match strip l s with Some t => [mkFound [] l t] | None => [] end.
Proof.
  revert s. induction l as [|a l IH]; intros s; simpl; [done|]. destruct s as [|b s]; simpl; [done|].
  unfold in_class. simpl. rewrite orb_false_r.
  destruct (a =? b) eqn:E; bool_to_prop.
  - subst. rewrite Z.leb_refl. simpl. rewrite app_nil_r. fold (lit_bytes l). rewrite IH.
    by destruct (strip l s).
  - replace ((a <=? b) && (b <=? a)) with false; [done|]. symmetry. apply andb_false_iff. zlia.
Qed.

Lemma runs_cat_lit l r s :
  runs (Cat (lit_bytes l) r) s = match strip l s with Some t => prepend (mkFound [] l t) <$> runs r t | None => [] end.
Proof. cbn [runs]. rewrite runs_lit. destruct (strip l s); simpl; [by rewrite app_nil_r|done]. Qed.

Lemma ends_cat_lit l r s :
  ends (Cat (lit_bytes l) r) s = match strip l s with Some t => prepend (mkFound [] l t) <$> ends r t | None => [] end.
Proof. rewrite ends_cat, runs_lit. destruct (strip l s); simpl; [by rewrite app_nil_r|done]. Qed.

Lemma ends_lit_none l r s : strip l s = None -> ends (Cat (lit_bytes l) r) s = [].
Proof. intros H. by rewrite ends_cat_lit, H. Qed.

(** ** A repeated class before something that cannot start in it *)

Definition over (rs : list (Z * Z)) (u : list Z) : Prop := Forall (fun b => in_class rs b = true) u.
Definition outside (rs : list (Z * Z)) (t : list Z) : Prop :=
  match t with b :: _ => in_class rs b = false | [] => True end.

Lemma runs_plus_delimited rs r u t :
  over rs u -> u <> [] -> outside rs t -> (forall b q, in_class rs b = true -> runs r (b :: q) = []) ->
  runs (Cat (Plus (Class rs)) r) (u ++ t) = prepend (mkFound [] u t) <$> runs r t.
Proof.
  intros Hu Hne Ht Hr. destruct u as [|c u]; [done|]. apply Forall_cons in Hu as [Hc Hu].
  rewrite runs_cat, <- app_comm_cons, runs_plus_class, flat_map_fmap by done.
  rewrite (splits_delimited _ rs u t); [done|done|done|]. intros p b q Hb. simpl. by rewrite Hr.
Qed.

Lemma runs_group n r s :
  runs (Group n r) s = (fun m => mkFound ((n, fd_text m) :: fd_groups m) (fd_text m) (fd_rest m)) <$> runs r s.
Proof. done. Qed.

Section Ends.
Context (rs : list (Z * Z)) (r : regex) (u t : list Z).
Context (Hu : over rs u) (Ht : outside rs t) (Hr : forall b q, in_class rs b = true -> ends r (b :: q) = []).

Lemma ends_star_delimited : ends (Cat (Star (Class rs)) r) (u ++ t) = prepend (mkFound [] u t) <$> ends r t.
Proof.
  rewrite ends_cat, runs_star_class, flat_map_fmap, (splits_delimited _ rs u t); [done|done|done|].
  intros p b q Hb. simpl. by rewrite Hr.
Qed.

Lemma ends_plus_delimited :
  u <> [] -> ends (Cat (Plus (Class rs)) r) (u ++ t) = prepend (mkFound [] u t) <$> ends r t.
Proof.
  intros Hne. destruct u as [|c v]; [done|]. apply Forall_cons in Hu as [Hc Hv].
  rewrite ends_cat, <- app_comm_cons, runs_plus_class, flat_map_fmap by done.
  rewrite (splits_delimited _ rs v t); [done|done|done|]. intros p b q Hb. simpl. by rewrite Hr.
Qed.

Lemma ends_group_delimited n :
  u <> [] -> ends (Cat (Group n (Plus (Class rs))) r) (u ++ t) = prepend (mkFound [(n, u)] u t) <$> ends r t.
Proof.
  intros Hne. destruct u as [|c v]; [done|]. apply Forall_cons in Hu as [Hc Hv].
  rewrite ends_cat, <- app_comm_cons, runs_group, runs_plus_class, !flat_map_fmap by done.
  rewrite (splits_delimited _ rs v t); [done|done|done|]. intros p b q Hb. simpl. by rewrite Hr.
Qed.
End Ends.

(** A group of arbitrary text. *)
Lemma ends_group_star n rs r s :
  ends (Cat (Group n (Star (Class rs))) r) s
  = flat_map (fun p => prepend (mkFound [(n, p.1)] p.1 p.2) <$> ends r p.2) (splits rs s).
Proof. by rewrite ends_cat, runs_group, runs_star_class, !flat_map_fmap. Qed.

(** ** Membership *)

Lemma elem_of_ends r s m : m ∈ ends r s <-> m ∈ runs r s /\ fd_rest m = [].
Proof.
  unfold ends. rewrite !list_elem_of_In, filter_In. destruct (fd_rest m); simpl; intuition done.
Qed.

Lemma ends_lang r s m : m ∈ ends r s -> fd_text m = s /\ lang r s.
Proof. intros [H E]%elem_of_ends. apply runs_sound in H as [-> L]. by rewrite E, app_nil_r. Qed.

Lemma ends_none r s : ~ lang r s -> ends r s = [].
Proof.
  intros H. destruct (ends r s) as [|m l] eqn:E; [done|]. exfalso. apply H, (ends_lang r s m). rewrite E. by left.
Qed.

Lemma ends_some r s : lang r s -> exists m, m ∈ ends r s.
Proof.
  intros L. destruct (runs_complete r s [] L) as (m & H & _ & E). rewrite app_nil_r in H. exists m.
  by apply elem_of_ends.
Qed.

Lemma lang_lit l t : lang (lit_bytes l) t <-> t = l.
Proof.
  revert t. induction l as [|a l IH]; intros t; simpl; [done|]. split.
  - intros (t1 & t2 & -> & (b & -> & Hb) & ->%IH). unfold in_class in Hb. simpl in Hb. bool_to_prop. simpl. f_equal. lia.
  - intros ->. exists [a], l. split; [done|]. split; [|by apply IH]. exists a. split; [done|].
    unfold in_class. simpl. rewrite Z.leb_refl. done.
Qed.

Lemma lang_star_class rs t : lang (Star (Class rs)) t <-> over rs t.
Proof.
  simpl. split.
  - intros (ts & -> & Hts). induction Hts as [|x ts (b & -> & Hb) Hts IH]; [constructor|]. by constructor.
  - induction 1 as [|b t Hb Ht (ts & -> & Hts)]; [by exists []|]. exists ([b] :: ts). split; [done|].
    constructor; [by exists b|done].
Qed.

Lemma lang_plus_class rs t : lang (Plus (Class rs)) t <-> over rs t /\ t <> [].
Proof.
  unfold Plus. cbn [lang]. split.
  - intros (t1 & t2 & -> & (b & -> & Hb) & H%lang_star_class). split; [by constructor|done].
  - intros [Ht Hne]. destruct t as [|b t]; [done|]. apply Forall_cons in Ht as [Hb Ht].
    exists [b], t. split; [done|]. split; [by exists b|]. by apply lang_star_class.
Qed.

(** ** Which bytes a match can end with *)

Fixpoint nullable (r : regex) : bool :=
  match r with
  | Eps | Star _ => true
  | Class _ => false
  | Cat r1 r2 => nullable r1 && nullable r2
  | Alt r1 r2 => nullable r1 || nullable r2
  | Group _ r => nullable r
  end.

Fixpoint never_ends_in (c : Z) (r : regex) : bool :=
  match r with
  | Eps => true
  | Class rs => negb (in_class rs c)
  | Cat r1 r2 => never_ends_in c r2 && (negb (nullable r2) || never_ends_in c r1)
  | Alt r1 r2 => never_ends_in c r1 && never_ends_in c r2
  | Star r | Group _ r => never_ends_in c r
  end.

Lemma nullable_complete r : lang r [] -> nullable r = true.
Proof.
  induction r as [|rs|r1 IH1 r2 IH2|r1 IH1 r2 IH2|r IH|n r IH]; simpl; try done.
  - by intros (b & ? & _).
  - intros (t1 & t2 & E & H1 & H2). symmetry in E. apply app_nil in E as [-> ->]. by rewrite IH1, IH2.
  - intros [H|H]; [by rewrite IH1|by rewrite IH2, orb_true_r].
Qed.

Lemma never_ends_in_sound c r : never_ends_in c r = true -> forall t, lang r t -> last t <> Some c.
Proof.
  induction r as [|rs|r1 IH1 r2 IH2|r1 IH1 r2 IH2|r IH|n r IH]; simpl; intros Hn t.
  - by intros ->.
  - intros (b & -> & Hb) [= ->]. by rewrite Hb in Hn.
  - intros (t1 & t2 & -> & H1 & H2). apply andb_true_iff in Hn as [Hn2 Hn1]. rewrite last_app.
    destruct (last t2) as [x|] eqn:E; [intros [= ->]; by apply (IH2 Hn2 _ H2)|].
    apply last_None in E as ->. rewrite (nullable_complete _ H2) in Hn1. by apply IH1.
  - apply andb_true_iff in Hn as [Hn1 Hn2]. intros [H|H]; auto.
  - intros (ts & -> & Hts). induction Hts as [|x ts Hx Hts IHt]; simpl; [done|]. rewrite last_app.
    destruct (last (concat ts)) as [y|] eqn:E; [intros [= ->]; by apply IHt|]. by apply IH.
  - by apply IH.
Qed.

(** ** Which groups a pattern opens *)

Fixpoint opens_only (P : nat -> bool) (r : regex) : bool :=
  match r with
  | Eps | Class _ => true
  | Cat r1 r2 | Alt r1 r2 => opens_only P r1 && opens_only P r2
  | Star r => opens_only P r
  | Group n r => P n && opens_only P r
  end.

Section Opens.
Context (P : nat -> bool).
Let opened (m : found) : Prop := Forall (fun g => P g.1 = true) (fd_groups m).

Lemma opens_star step fuel : forall s m,
  (forall s m, m ∈ step s -> opened m) -> m ∈ star_runs step fuel s -> opened m.
Proof.
  induction fuel as [|fuel IH]; intros s m Hs; simpl; [intros ->%list_elem_of_singleton; constructor|].
  rewrite elem_of_app, list_elem_of_singleton, elem_of_flat_map. intros [(m1 & H1 & H2)| ->]; [|constructor].
  destruct (fd_text m1); [by apply not_elem_of_nil in H2|].
  apply list_elem_of_fmap in H2 as (m2 & -> & H2). apply Forall_app. split; [by apply (Hs s)|by apply (IH (fd_rest m1))].
Qed.

Lemma opens_runs r : opens_only P r = true -> forall s m, m ∈ runs r s -> opened m.
Proof.
  induction r as [|rs|r1 IH1 r2 IH2|r1 IH1 r2 IH2|r IH|n r IH]; simpl; intros Hg s m.
  - intros ->%list_elem_of_singleton. constructor.
  - destruct s as [|b s]; [by intros ?%not_elem_of_nil|].
    destruct (in_class rs b); [intros ->%list_elem_of_singleton; constructor|by intros ?%not_elem_of_nil].
  - apply andb_true_iff in Hg as [Hg1 Hg2]. rewrite elem_of_flat_map.
    intros (m1 & H1 & (m2 & -> & H2)%list_elem_of_fmap). apply Forall_app.
    split; [by apply (IH1 Hg1 s)|by apply (IH2 Hg2 (fd_rest m1))].
  - apply andb_true_iff in Hg as [Hg1 Hg2]. rewrite elem_of_app. intros [H|H]; eauto.
  - apply opens_star. by apply IH.
  - apply andb_true_iff in Hg as [Hg1 Hg2]. intros (m1 & -> & H1)%list_elem_of_fmap. constructor; [done|]. by apply (IH Hg2 s).
Qed.
End Opens.

Lemma groupless_runs r s m : opens_only (fun _ => false) r = true -> m ∈ runs r s -> fd_groups m = [].
Proof.
  intros Hr Hm. apply (opens_runs _ _ Hr) in Hm. destruct (fd_groups m); [done|].
  by apply Forall_cons in Hm as [? _].
Qed.
