(* ===== verification/SSHLog.v ===== *)
(** * SSH authentication records

    [internal/collector/auth.go]: a log message of OpenSSH or PAM becomes an
    observation.  User names and certificate identifiers are text that the peer
    chooses, so the address of the peer is taken from the end of the message, and a
    message in which more than one endpoint could be the peer's is refused. *)

From S2P Require Export Regex Hourly AuthDetect Alert.

Definition AuthInvalidUser : string := "invalid_user".
Definition AuthPAMFailure : string := "pam_failure".

(** ** The patterns *)

Fixpoint cats (l : list regex) : regex :=
  match l with
  | [] => Eps
  | [r] => r
  | r :: l => Cat r (cats l)
  end.

Definition digit : list (Z * Z) := [(48, 57)].
(** [0-9A-Fa-f:.], [A-Za-z0-9_-], [A-Za-z0-9+/=], [0-9a-fA-F:] and [a-z-]. *)
Definition ip_char : list (Z * Z) := [(48, 57); (65, 70); (97, 102); (58, 58); (46, 46)].
Definition word_char : list (Z * Z) := [(65, 90); (97, 122); (48, 57); (95, 95); (45, 45)].
Definition base64_char : list (Z * Z) := [(65, 90); (97, 122); (48, 57); (43, 43); (47, 47); (61, 61)].
Definition hex_colon : list (Z * Z) := [(48, 57); (97, 102); (65, 70); (58, 58)].
Definition option_char : list (Z * Z) := [(97, 122); (45, 45)].
(** [.] and [[^ ]]. *)
Definition dot : list (Z * Z) := [(0, 9); (11, 255)].
Definition not_space : list (Z * Z) := [(0, 31); (33, 255)].

Definition fingerprint : regex :=
  Alt (Cat (lit "SHA256:") (Plus (Class base64_char))) (Cat (lit "MD5:") (Plus (Class hex_colon))).
Definition key_option : regex :=
  Cat (Plus (Class option_char)) (Opt (Cat (lit "=") (Plus (Class word_char)))).
Definition keyDetailsGrammar : regex :=
  cats [lit ": "; Plus (Class word_char); lit " "; fingerprint;
        Opt (cats [lit " ID "; Star (Class dot); lit " (serial "; Plus (Class digit); lit ") CA ";
                   Plus (Class word_char); lit " "; fingerprint]);
        Opt (cats [lit ", "; key_option; Star (Cat (lit " ") key_option)])].

Definition preauth : regex := Opt (lit " [preauth]").

Definition sshMethod : regex :=
  Alt (lit "password") (Alt (lit "publickey") (Alt (Cat (lit "keyboard-interactive") (Opt (lit "/pam")))
    (Alt (lit "hostbased") (lit "gssapi-with-mic")))).
Definition outcome_head : regex :=
  cats [Group 1 (Alt (lit "Failed") (lit "Accepted")); lit " "; Group 2 sshMethod; lit " for "].
Definition outcome_tail : regex :=
  cats [lit " from "; Group 4 (Plus (Class ip_char)); lit " port "; Group 5 (Plus (Class digit)); lit " ssh2";
        Group 6 (Opt keyDetailsGrammar); preauth].
Definition sshOutcome : regex := cats [outcome_head; Group 3 (Star (Class dot)); outcome_tail].

Definition invalid_tail : regex :=
  cats [lit " from "; Group 2 (Plus (Class ip_char)); lit " port "; Group 3 (Plus (Class digit));
        Opt (lit " ssh2"); preauth].
Definition invalidUser : regex := cats [lit "Invalid user "; Group 1 (Star (Class dot)); invalid_tail].

Definition pamFailure : regex :=
  cats [lit "pam_unix(sshd:auth): authentication failure; logname="; Star (Class not_space);
        lit " uid="; Plus (Class digit); lit " euid="; Plus (Class digit); lit " tty=ssh ruser=";
        Star (Class not_space); lit " rhost="; Group 1 (Plus (Class ip_char));
        Opt (cats [Plus (Class [(32, 32)]); lit "user="; Group 2 (Star (Class dot))])].

Definition keyDetails : regex := keyDetailsGrammar.
Definition sshEndpoint : regex :=
  cats [lit " from "; Plus (Class ip_char); lit " port "; Plus (Class digit); lit " ssh2"].

(** ** [ParseSSH] *)

Definition control (b : Z) : bool := (b <? 32) || (b =? 127).

(** [strings.TrimSuffix(s, " [preauth]")], and [strings.HasPrefix] and [TrimPrefix]
    with "invalid user " through [strip]. *)
Definition preauth_text : list Z := Eval cbv in bytes_of_string " [preauth]".
Definition trim_preauth (s : list Z) : list Z :=
  match strip (rev preauth_text) (rev s) with Some t => rev t | None => s end.
Definition invalid_text : list Z := bytes_of_string "invalid user ".

(** [strconv.ParseUint] in base ten. *)
Definition parse_uint (bits : Z) (s : list Z) : option Z :=
  if nilb s || negb (forallb is_digit s) || (2 ^ bits <=? digits_value s) then None else Some (digits_value s).

(** [strings.Trim(source, "[]")]. *)
Fixpoint trim_left (l : list Z) : list Z :=
  match l with b :: l' => if (b =? 91) || (b =? 93) then trim_left l' else l | [] => [] end.
Definition trim_brackets (l : list Z) : list Z := rev (trim_left (rev (trim_left l))).

Definition cleanField (value : list Z) (max : nat) : string :=
  let l := drop_control 0 value in
  string_of_bytes (if (max <? length l)%nat then trim_utf8 max l else l).

Section ParseSSH.
(** [time.Now] *)
Context (now : time).

Definition authObservation (at' : time) (kind : string) (source user : list Z) (method : string)
    : option AuthObservation :=
  match parse_bytes (trim_brackets source) with
  | None => None
  | Some address =>
      Some (mkObservation (if is_zero at' then now else at') kind (unmap address) 0 (cleanField user 64)
              (cleanField (bytes_of_string method) 32) (bool_decide (user = bytes_of_string "root")) false)
  end.

Definition with_endpoint (port : Z) (invalid : bool) (o : AuthObservation) : AuthObservation :=
  mkObservation (ao_at o) (ao_kind o) (ao_source o) port (ao_user o) (ao_method o) (ao_root o) invalid.

(** [authEndpoint] and the setting of [InvalidUser] after it. *)
Definition authEndpoint (at' : time) (kind : string) (source port user : list Z) (method : string) (invalid : bool)
    : option AuthObservation :=
  match parse_uint 16 port with
  | None => None
  | Some number => if number =? 0 then None else with_endpoint number invalid <$> authObservation at' kind source user method
  end.

(** The endpoints in a message after which it could end. *)
Definition candidate (suffix : list Z) : bool :=
  let suffix := trim_preauth suffix in nilb suffix || MatchString keyDetails suffix.
Definition candidates (message : list Z) : list (list Z) :=
  List.filter candidate (FindAll (length message) sshEndpoint message).

Definition key_method (method : string) : bool := (method =?s "publickey") || (method =?s "hostbased").

Definition parse_outcome (message : list Z) (at' : time) (m : found) : option AuthObservation :=
  let kind := if bool_decide (group 1 m = bytes_of_string "Accepted") then AuthSuccess else AuthFailure in
  let method := string_of_bytes (group 2 m) in
  let stripped := strip invalid_text (group 3 m) in
  let invalid := (kind =?s AuthFailure) && some stripped in
  let user := if invalid then default (group 3 m) stripped else group 3 m in
  let details := trim_preauth (group 6 m) in
  if negb (nilb details) && (negb (key_method method) || negb (MatchString keyDetails details)) then None
  else if key_method method && (1 <? lenZ (candidates message)) then None
  else authEndpoint at' kind (group 4 m) (group 5 m) user method invalid.

Definition ParseSSH (message : list Z) (observedAt : time) : option AuthObservation :=
  if (16 * 1024 <? lenZ message) || negb (valid_utf8 0 message) || existsb control message then None
  else
    match FindStringSubmatch sshOutcome message with
    | Some m => parse_outcome message observedAt m
    | None =>
        match FindStringSubmatch invalidUser message with
        | Some m => authEndpoint observedAt AuthInvalidUser (group 2 m) (group 3 m) (group 1 m) "unknown" true
        | None =>
            match FindStringSubmatch pamFailure message with
            | Some m =>
                authObservation observedAt AuthPAMFailure (group 1 m)
                  (if nilb (group 2 m) then bytes_of_string "unknown" else group 2 m) "pam"
            | None => None
            end
        end
    end.
End ParseSSH.

(** ** Endpoints *)

Definition from_text : list Z := Eval cbv in bytes_of_string " from ".
Definition port_text : list Z := Eval cbv in bytes_of_string " port ".
Definition ssh2_text : list Z := Eval cbv in bytes_of_string " ssh2".
Definition endpoint (source port : list Z) : list Z := from_text ++ source ++ port_text ++ port ++ ssh2_text.
(** The same without the name of the protocol. *)
Definition address_port (source port : list Z) : list Z := from_text ++ source ++ port_text ++ port.

(** A source address and a port as the daemon writes them. *)
Definition endpoint_ok (source port : list Z) : Prop :=
  (over ip_char source /\ source <> []) /\ (over digit port /\ port <> []).

Lemma endpoint_cons source port : endpoint source port = 32 :: tail (endpoint source port).
Proof. done. Qed.

#[local] Arguments Z.eqb : simpl never.

(** In [l], followed by [rest], no " from " begins. *)
Definition clear (l rest : list Z) : Prop :=
  forall x t, l ++ rest = x ++ t -> (length x < length l)%nat -> strip from_text t = None.

Lemma clear_cons b l rest : strip from_text (b :: l ++ rest) = None -> clear l rest -> clear (b :: l) rest.
Proof.
  intros Hb Hl x t E Hx. destruct x as [|c x]; simpl in *; [by subst|]. injection E as _ E.
  apply (Hl x); [done|lia].
Qed.

Lemma clear_block l l' rest : Forall (fun b => b <> 32) l -> clear l' rest -> clear (l ++ l') rest.
Proof.
  induction 1 as [|b l Hb Hl IH]; intros H; [done|]. simpl. apply clear_cons; [|by apply IH].
  unfold from_text. simpl. rewrite (proj2 (Z.eqb_neq 32 b)) by congruence. done.
Qed.

Lemma over_not_space rs l : in_class rs 32 = false -> over rs l -> Forall (fun b => b <> 32) l.
Proof. intros Hs Hl. eapply Forall_impl; [exact Hl|]. intros b Hb ->. simpl in Hb. congruence. Qed.

Lemma in_ip_char b : in_class ip_char b = true -> b <> 114.
Proof. intros H ->. discriminate. Qed.

Lemma strip_after_space source t : over ip_char source -> source <> [] -> strip from_text (32 :: source ++ 32 :: t) = None.
Proof.
  intros Hs Hne. unfold from_text. destruct source as [|a [|b source]]; [done| |]; simpl.
  - by destruct (102 =? a).
  - apply Forall_cons in Hs as [_ Hs]. apply Forall_cons in Hs as [Hb _]. apply in_ip_char in Hb.
    rewrite (proj2 (Z.eqb_neq 114 b)) by congruence. by destruct (102 =? a).
Qed.

Lemma clear_app l l' rest : clear l (l' ++ rest) -> clear l' rest -> clear (l ++ l') rest.
Proof.
  intros Hl Hl' x t E Hx. rewrite <- app_assoc in E. destruct (decide (length x < length l)%nat) as [H|H].
  - by apply (Hl x).
  - rewrite <- (take_drop (length l) x), <- app_assoc in E.
    assert (Hx' : take (length l) x = l).
    { apply (f_equal (take (length l))) in E. rewrite take_app_length, take_app_le in E by (rewrite length_take; lia).
      by rewrite take_take, Nat.min_id in E. }
    rewrite Hx' in E. apply app_inv_head in E. apply (Hl' _ _ E). rewrite length_app in Hx. rewrite length_drop. lia.
Qed.

Lemma clear_address_port source port rest : endpoint_ok source port -> clear (tail (address_port source port)) rest.
Proof.
  intros [[Hs Hsn] [Hp Hpn]].
  change (clear ([102; 114; 111; 109] ++ 32 :: source ++ [] ++ 32 :: [112; 111; 114; 116] ++ 32 :: port) rest).
  apply clear_block; [repeat constructor; done|]. apply clear_cons.
  { rewrite <- app_assoc. simpl. by apply strip_after_space. }
  apply clear_block; [by apply (over_not_space ip_char)|]. simpl ([] ++ _). apply clear_cons; [done|].
  apply (clear_block [112; 111; 114; 116]); [repeat constructor; done|]. apply clear_cons.
  { destruct port as [|b port]; [done|]. apply Forall_cons in Hp as [Hb _]. unfold from_text. simpl.
    rewrite (proj2 (Z.eqb_neq 102 b)); [done|]. intros <-. discriminate. }
  rewrite <- (app_nil_r port). apply clear_block; [by apply (over_not_space digit)|].
  intros x t _ H. simpl in H. lia.
Qed.

Lemma clear_endpoint source port rest : endpoint_ok source port -> clear (tail (endpoint source port)) rest.
Proof.
  intros Hok. replace (tail (endpoint source port)) with (tail (address_port source port) ++ ssh2_text)
    by (unfold endpoint, address_port; simpl; by rewrite <- !app_assoc).
  apply clear_app; [by apply clear_address_port|]. apply (clear_cons 32 [115; 115; 104; 50]); [done|].
  rewrite <- (app_nil_r [115; 115; 104; 50]). apply clear_block; [repeat constructor; done|].
  intros x t _ H. simpl in H. lia.
Qed.

(** An endpoint that begins inside another one's text begins at its start. *)
Lemma endpoint_overlap source port rest x t :
  endpoint_ok source port -> endpoint source port ++ rest = x ++ t -> x <> [] -> strip from_text t <> None ->
  exists y, rest = y ++ t /\ x = endpoint source port ++ y.
Proof.
  intros Hok E Hx Ht. destruct (decide (length x < length (endpoint source port))%nat) as [H|H].
  - exfalso. apply Ht. rewrite endpoint_cons in E, H. destruct x as [|c x]; [done|]. simpl in E, H. injection E as _ E.
    apply (clear_endpoint source port rest Hok x); [done|]. simpl. lia.
  - exists (drop (length (endpoint source port)) x).
    assert (Hx' : x = endpoint source port ++ drop (length (endpoint source port)) x).
    { rewrite <- (take_drop (length (endpoint source port)) x) at 1. f_equal.
      rewrite <- (take_app_le x t) by lia. rewrite <- E. by rewrite take_app_length. }
    split; [|done]. rewrite Hx' in E. rewrite <- app_assoc in E. by apply app_inv_head in E.
Qed.

Lemma strip_endpoint source port rest : strip from_text (endpoint source port ++ rest) <> None.
Proof.
  unfold endpoint. rewrite <- app_assoc.
  assert (E : strip from_text (from_text ++ (source ++ port_text ++ port ++ ssh2_text) ++ rest)
              = Some ((source ++ port_text ++ port ++ ssh2_text) ++ rest)) by (by apply strip_Some).
  by rewrite E.
Qed.

Lemma strip_app l t : strip l (l ++ t) = Some t.
Proof. by apply strip_Some. Qed.

(** Text before a literal that begins with a space. *)
Lemma runs_space_lit l r rs b q : in_class rs 32 = false -> in_class rs b = true -> runs (Cat (lit_bytes (32 :: l)) r) (b :: q) = [].
Proof.
  intros Hs Hb. rewrite runs_cat_lit. simpl. rewrite (proj2 (Z.eqb_neq 32 b)); [done|]. congruence.
Qed.
Lemma ends_space_lit l r rs b q : in_class rs 32 = false -> in_class rs b = true -> ends (Cat (lit_bytes (32 :: l)) r) (b :: q) = [].
Proof. intros Hs Hb. unfold ends. by rewrite (runs_space_lit _ _ rs). Qed.

(** The pattern of endpoints reads one in a single way. *)
Lemma endpoint_runs source port rest :
  endpoint_ok source port ->
  runs sshEndpoint (endpoint source port ++ rest) = [mkFound [] (endpoint source port) rest].
Proof.
  intros [[Hs Hsn] [Hp Hpn]]. unfold endpoint. rewrite <- !app_assoc.
  change sshEndpoint with (Cat (lit_bytes from_text) (Cat (Plus (Class ip_char)) (Cat (lit_bytes port_text)
    (Cat (Plus (Class digit)) (lit_bytes ssh2_text))))).
  rewrite runs_cat_lit, strip_app, runs_plus_delimited; [|done|done|done|].
  2: { intros b q Hb. by apply (runs_space_lit _ _ ip_char). }
  rewrite runs_cat_lit, strip_app, runs_plus_delimited; [|done|done|done|].
  2: { intros b q Hb. change ssh2_text with (32 :: tail ssh2_text). rewrite runs_lit. cbn [strip].
       rewrite (proj2 (Z.eqb_neq 32 b)); [done|]. intros <-. discriminate. }
  rewrite runs_lit, strip_app. csimpl. unfold prepend. simpl. done.
Qed.

Lemma runs_endpoint s m : m ∈ runs sshEndpoint s ->
  exists source port, endpoint_ok source port /\ s = endpoint source port ++ fd_rest m.
Proof.
  intros H. apply runs_sound in H as [E L]. rewrite E. clear E.
  destruct L as (t1 & t2 & -> & ->%lang_lit & s2 & t3 & -> & Hs%lang_plus_class & t4 & t5 & -> & ->%lang_lit
                 & s3 & t6 & -> & Hp%lang_plus_class & ->%lang_lit).
  by exists s2, s3.
Qed.

(** Every endpoint is found. *)
Lemma FindAll_complete fuel : forall s x source port rest,
  (length s <= fuel)%nat -> endpoint_ok source port -> s = x ++ endpoint source port ++ rest ->
  rest ∈ FindAll fuel sshEndpoint s.
Proof.
  induction fuel as [|fuel IH]; intros s x source port rest Hf Hok E.
  { exfalso. subst s. rewrite length_app, endpoint_cons in Hf. simpl in Hf. lia. }
  destruct s as [|b s'].
  { exfalso. apply (f_equal length) in E. rewrite length_app, endpoint_cons in E. simpl in E. lia. }
  cbn [FindAll]. destruct (runs sshEndpoint (b :: s')) as [|m l] eqn:Er.
  - destruct x as [|c x].
    + rewrite E in Er. cbn [app] in Er. by rewrite endpoint_runs in Er.
    + injection E as -> ->. eapply (IH _ x); [|exact Hok|done]. simpl in Hf. lia.
  - assert (Hm : m ∈ runs sshEndpoint (b :: s')) by (rewrite Er; by left).
    apply runs_endpoint in Hm as (s1 & p1 & Hok1 & E1).
    destruct x as [|c x].
    + rewrite E in Er. cbn [app] in Er. rewrite endpoint_runs in Er by done. injection Er as <- _. by left.
    + right. rewrite E1 in E. apply endpoint_overlap in E as (y & E & _); [|done|done|apply strip_endpoint].
      apply (IH _ y source port); [|done|done]. apply (f_equal length) in E1.
      rewrite length_app, endpoint_cons in E1. simpl in Hf, E1. lia.
Qed.

(** Nothing else is found, and every further one after the one before. *)
Lemma FindAll_sound fuel : forall s i rest, FindAll fuel sshEndpoint s !! i = Some rest ->
  exists x source port, endpoint_ok source port /\ s = x ++ endpoint source port ++ rest
    /\ forall j rest', (i < j)%nat -> FindAll fuel sshEndpoint s !! j = Some rest' -> (length rest' < length rest)%nat.
Proof.
  induction fuel as [|fuel IH]; intros s i rest; [done|]. cbn [FindAll]. destruct s as [|b s']; [done|].
  destruct (runs sshEndpoint (b :: s')) as [|m l] eqn:Er.
  - intros Hi. destruct (IH _ _ _ Hi) as (x & source & port & Hok & -> & Hlater).
    exists (b :: x), source, port. by split_and!.
  - assert (Hm : m ∈ runs sshEndpoint (b :: s')) by (rewrite Er; by left).
    apply runs_endpoint in Hm as (s1 & p1 & Hok1 & E1). destruct i as [|i]; simpl.
    + intros [= <-]. exists [], s1, p1. split_and!; [done|done|]. intros [|j] rest' Hj Hr; [lia|].
      destruct (IH _ _ _ Hr) as (x & source & port & _ & E & _). rewrite E, !length_app, endpoint_cons. simpl. lia.
    + intros Hi. destruct (IH _ _ _ Hi) as (x & source & port & Hok & E & Hlater).
      exists (endpoint s1 p1 ++ x), source, port. split_and!; [done|rewrite E1, E; exact (app_assoc _ _ _)|].
      intros [|j] rest' Hj Hr; [lia|]. apply (Hlater j); [lia|done].
Qed.

(** ** What follows the endpoint *)

Definition preauth_end (t : list Z) : Prop := t = [] \/ t = preauth_text.
(** The details of a key, or none. *)
Definition details_ok (d : list Z) : Prop := d = [] \/ lang keyDetailsGrammar d.

Lemma details_last d : details_ok d -> last d <> Some 93.
Proof. intros [->|H]; [done|]. by apply (never_ends_in_sound 93 keyDetailsGrammar). Qed.

Lemma trim_preauth_app d t : details_ok d -> preauth_end t -> trim_preauth (d ++ t) = d.
Proof.
  intros Hd%details_last Ht. unfold trim_preauth. destruct Ht as [->| ->].
  - rewrite app_nil_r. destruct (rev d) as [|b l] eqn:E; [done|].
    rewrite <- (rev_involutive d), E in Hd. simpl in Hd. rewrite last_snoc in Hd.
    simpl. rewrite (proj2 (Z.eqb_neq 93 b)); [done|]. congruence.
  - rewrite rev_app_distr, strip_app. apply rev_involutive.
Qed.

Lemma candidate_details d t : details_ok d -> preauth_end t -> candidate (d ++ t) = true.
Proof.
  intros Hd Ht. unfold candidate. rewrite trim_preauth_app by done. destruct Hd as [->|Hd]; [done|].
  rewrite (proj2 (MatchString_lang keyDetails d) Hd). apply orb_true_r.
Qed.

Lemma details_candidate t : candidate t = true ->
  exists d p, t = d ++ p /\ details_ok d /\ preauth_end p.
Proof.
  unfold candidate. intros Hc. assert (E : exists p, t = trim_preauth t ++ p /\ preauth_end p).
  { unfold trim_preauth. destruct (strip (rev preauth_text) (rev t)) as [t'|] eqn:Es.
    - exists preauth_text. split; [|by right]. apply strip_Some in Es. apply (f_equal (@rev Z)) in Es.
      by rewrite rev_involutive, rev_app_distr, rev_involutive in Es.
    - exists []. rewrite app_nil_r. split; [done|by left]. }
  destruct E as (p & E & Hp). exists (trim_preauth t), p. split_and!; [done| |done].
  apply orb_true_iff in Hc as [Hc|Hc]; [left; by destruct (trim_preauth t)|right].
  by apply MatchString_lang.
Qed.

Lemma same_details d d' t t' :
  details_ok d -> details_ok d' -> preauth_end t -> preauth_end t' -> d ++ t = d' ++ t' -> d = d'.
Proof. intros Hd Hd' Ht Ht' E. by rewrite <- (trim_preauth_app d t), E, trim_preauth_app. Qed.

Definition after_endpoint : regex := Cat (Group 6 (Opt keyDetailsGrammar)) preauth.

(** What the last group holds. *)
Lemma after_group m t : m ∈ ends after_endpoint t ->
  exists d p, t = d ++ p /\ details_ok d /\ preauth_end p /\ fd_groups m = [(6%nat, d)].
Proof.
  intros [H E]%elem_of_ends. unfold after_endpoint in H. rewrite runs_cat, elem_of_flat_map in H.
  destruct H as (m1 & H1 & (m2 & -> & H2)%list_elem_of_fmap).
  rewrite runs_group, list_elem_of_fmap in H1. destruct H1 as (m0 & -> & H0).
  cbn [prepend fd_groups fd_text fd_rest] in *.
  rewrite (groupless_runs (Opt keyDetailsGrammar) _ _ eq_refl H0), (groupless_runs preauth _ _ eq_refl H2).
  apply runs_sound in H0 as [-> L0]. apply runs_sound in H2 as [E2 L2].
  rewrite E, app_nil_r in E2. exists (fd_text m0), (fd_rest m0). split; [done|]. split; [|split; [|done]].
  - destruct L0 as [L0|L0]; [by right|by left].
  - rewrite E2. destruct L2 as [L2|L2]; [right; by apply lang_lit|by left].
Qed.

(** The tail of an outcome message. *)
Lemma outcome_tail_ends source port rest :
  endpoint_ok source port ->
  ends outcome_tail (endpoint source port ++ rest)
  = prepend (mkFound [(4%nat, source); (5%nat, port)] (endpoint source port) rest) <$> ends after_endpoint rest.
Proof.
  intros [[Hs Hsn] [Hp Hpn]]. unfold endpoint. rewrite <- !app_assoc.
  change outcome_tail with (Cat (lit_bytes from_text) (Cat (Group 4 (Plus (Class ip_char))) (Cat (lit_bytes port_text)
    (Cat (Group 5 (Plus (Class digit))) (Cat (lit_bytes ssh2_text) after_endpoint))))).
  rewrite ends_cat_lit, strip_app, ends_group_delimited; [|done|done| |done].
  2: { intros b q Hb. by apply (ends_space_lit _ _ ip_char). }
  rewrite ends_cat_lit, strip_app, ends_group_delimited; [|done|done| |done].
  2: { intros b q Hb. by apply (ends_space_lit _ _ digit). }
  rewrite ends_cat_lit, strip_app, <- !list_fmap_compose. apply list_fmap_ext. intros ? m _.
  unfold prepend, compose. cbn [fd_groups fd_text fd_rest]. by rewrite <- !app_assoc.
Qed.

Lemma ends_outcome_tail t m : m ∈ ends outcome_tail t ->
  exists source port d p, endpoint_ok source port /\ details_ok d /\ preauth_end p
    /\ t = endpoint source port ++ d ++ p /\ fd_groups m = [(4%nat, source); (5%nat, port); (6%nat, d)].
Proof.
  intros H. destruct (ends_lang _ _ _ H) as [_ L].
  destruct L as (t1 & t2 & -> & ->%lang_lit & source & t3 & -> & Hs%lang_plus_class & t4 & t5 & -> & ->%lang_lit
                 & port & t6 & -> & Hp%lang_plus_class & t7 & rest & -> & ->%lang_lit & Hrest).
  assert (Hok : endpoint_ok source port) by done.
  change (bytes_of_string " from ") with from_text in *. change (bytes_of_string " port ") with port_text in *.
  change (bytes_of_string " ssh2") with ssh2_text in *.
  replace (from_text ++ source ++ port_text ++ port ++ ssh2_text ++ rest) with (endpoint source port ++ rest) in *
    by (unfold endpoint; by rewrite <- !app_assoc).
  rewrite outcome_tail_ends in H by done. apply list_elem_of_fmap in H as (m' & -> & H).
  apply after_group in H as (d & p & -> & Hd & Hp' & Hg). exists source, port, d, p. split; [done|].
  split; [done|]. split; [done|]. split; [done|]. simpl. by rewrite Hg.
Qed.

(** ** Messages of OpenSSH and PAM *)

Definition ssh_outcomes : list string := ["Failed"; "Accepted"]%string.
Definition ssh_methods : list string :=
  ["password"; "publickey"; "keyboard-interactive"; "keyboard-interactive/pam"; "hostbased"; "gssapi-with-mic"]%string.
Definition outcome_text (outcome method : string) : list Z :=
  bytes_of_string outcome ++ bytes_of_string " " ++ bytes_of_string method ++ bytes_of_string " for ".

Lemma outcome_head_runs outcome method x : outcome ∈ ssh_outcomes -> method ∈ ssh_methods ->
  runs outcome_head (outcome_text outcome method ++ x)
  = [mkFound [(1%nat, bytes_of_string outcome); (2%nat, bytes_of_string method)] (outcome_text outcome method) x].
Proof.
  intros Ho Hm. unfold ssh_outcomes, ssh_methods in *.
  repeat (apply elem_of_cons in Ho as [->|Ho]); [| |by apply not_elem_of_nil in Ho];
    repeat (apply elem_of_cons in Hm as [->|Hm]); try (by apply not_elem_of_nil in Hm); reflexivity.
Qed.

Lemma lang_after d p : details_ok d -> preauth_end p -> lang after_endpoint (d ++ p).
Proof.
  intros Hd Hp. exists d, p. split; [done|]. split.
  - destruct Hd as [->|Hd]; [by right|by left].
  - destruct Hp as [->| ->]; [by right|left; change (lang (lit_bytes preauth_text) preauth_text); by apply lang_lit].
Qed.

Lemma endpoint_unique s p s' p' r r' :
  endpoint_ok s p -> endpoint_ok s' p' -> endpoint s p ++ r = endpoint s' p' ++ r' -> s = s' /\ p = p' /\ r = r'.
Proof.
  intros Hok Hok' E.
  assert (Er : [mkFound [] (endpoint s p) r] = [mkFound [] (endpoint s' p') r']) by (by rewrite <- !endpoint_runs, E).
  assert (Ee : endpoint s p = endpoint s' p') by exact (f_equal (fun l => from_option fd_text [] (head l)) Er).
  assert (Er' : r = r') by exact (f_equal (fun l => from_option fd_rest [] (head l)) Er).
  assert (Et : ends outcome_tail (endpoint s p ++ []) = ends outcome_tail (endpoint s' p' ++ [])) by (by rewrite Ee).
  rewrite !outcome_tail_ends in Et by done.
  destruct (ends_some _ _ (lang_after [] [] (or_introl eq_refl) (or_introl eq_refl))) as (m0 & H0). cbn [app] in H0.
  destruct (ends after_endpoint []) as [|m l]; [by apply not_elem_of_nil in H0|].
  apply (f_equal (fun l => fd_groups <$> head l)) in Et. cbn in Et. by injection Et as -> ->.
Qed.

Lemma head_map {A B} (g : A -> B) l : head (g <$> l) = g <$> head l.
Proof. by destruct l. Qed.

(** The match of an outcome: the true endpoint, or one inside what follows it. *)
Lemma outcome_match outcome method user source port d p :
  outcome ∈ ssh_outcomes -> method ∈ ssh_methods -> endpoint_ok source port -> details_ok d -> preauth_end p ->
  over dot (user ++ endpoint source port ++ d ++ p) ->
  exists m u source' port' d' p' y,
    FindStringSubmatch sshOutcome (outcome_text outcome method ++ user ++ endpoint source port ++ d ++ p) = Some m
    /\ fd_groups m = [(1%nat, bytes_of_string outcome); (2%nat, bytes_of_string method); (3%nat, u);
                      (4%nat, source'); (5%nat, port'); (6%nat, d')]
    /\ endpoint_ok source' port' /\ details_ok d' /\ preauth_end p'
    /\ (source' = source /\ port' = port /\ d' = d \/ d ++ p = y ++ endpoint source' port' ++ d' ++ p').
Proof.
  intros Ho Hm Hok Hd Hp Hdot. unfold FindStringSubmatch.
  change sshOutcome with (Cat outcome_head (Cat (Group 3 (Star (Class dot))) outcome_tail)).
  rewrite ends_cat, outcome_head_runs by done. cbn [flat_map fd_rest]. rewrite app_nil_r, ends_group_star.
  set (f := fun q : list Z * list Z => prepend (mkFound [(3%nat, q.1)] q.1 q.2) <$> ends outcome_tail q.2).
  destruct (ends_some _ _ (lang_after _ _ Hd Hp)) as (m0 & H0).
  assert (Ht : exists z, z ∈ f (user, endpoint source port ++ d ++ p)).
  { eexists. unfold f. apply list_elem_of_fmap_2. cbn [snd]. rewrite outcome_tail_ends by done. by apply list_elem_of_fmap_2. }
  destruct Ht as (z & Hz).
  destruct (head (flat_map f (splits dot (user ++ endpoint source port ++ d ++ p)))) as [y|] eqn:Eh.
  2: { exfalso. assert (Hin : z ∈ flat_map f (splits dot (user ++ endpoint source port ++ d ++ p))).
       { apply elem_of_flat_map. eexists. split; [|exact Hz]. apply elem_of_splits. by apply Forall_app in Hdot as [? _]. }
       destruct (flat_map _ _); [by apply not_elem_of_nil in Hin|done]. }
  assert (Eh' := Eh). apply splits_greedy in Eh' as (u & t & Eu & Hy & Hmax); [|done].
  unfold f in Hy. cbn [fst snd] in Hy.
  destruct (ends outcome_tail t) as [|mt l] eqn:Et; [done|]. injection Hy as <-.
  assert (Hmt : mt ∈ ends outcome_tail t) by (rewrite Et; by left).
  apply ends_outcome_tail in Hmt as (s' & p2 & d' & p' & Hok' & Hd' & Hp' & -> & Hg).
  exists (prepend (mkFound [(1%nat, bytes_of_string outcome); (2%nat, bytes_of_string method)] (outcome_text outcome method)
            (user ++ endpoint source port ++ d ++ p))
     (prepend (mkFound [(3%nat, u)] u (endpoint s' p2 ++ d' ++ p')) mt)), u, s', p2, d', p'.
  assert (Hcase : exists x, u = user ++ x /\ x ++ endpoint s' p2 ++ d' ++ p' = endpoint source port ++ d ++ p).
  { apply app_eq_inv in Eu as [(x & -> & Eu)|(x & -> & Eu)]; [|by exists x].
    destruct x as [|c x]; [exists []; rewrite !app_nil_r; by split|]. exfalso.
    rewrite (Hmax (c :: x) _ Eu) in Hz; [by apply not_elem_of_nil in Hz|done]. }
  destruct Hcase as (x & -> & Ex).
  destruct x as [|c x].
  - exists []. split; [by rewrite head_map, Eh|]. split; [cbn [prepend fd_groups]; by rewrite Hg|].
    split; [done|]. split; [done|]. split; [done|]. left. simpl in Ex.
    apply endpoint_unique in Ex as (-> & -> & Ed); [|done|done]. split; [done|]. split; [done|].
    exact (same_details d' d p' p Hd' Hd Hp' Hp Ed).
  - symmetry in Ex. apply endpoint_overlap in Ex as (y & Ed & _); [|done|done|apply strip_endpoint].
    exists y. split; [by rewrite head_map, Eh|]. split; [cbn [prepend fd_groups]; by rewrite Hg|].
    split; [done|]. split; [done|]. split; [done|]. by right.
Qed.

(** The match of a message about an invalid user. *)
Definition after_port : regex := Cat (Opt (lit " ssh2")) preauth.
Definition short_end (t : list Z) : Prop :=
  t ∈ [[]; ssh2_text; preauth_text; ssh2_text ++ preauth_text].

Lemma short_end_clear t : short_end t -> clear t [].
Proof.
  intros Ht x q E Hx. rewrite app_nil_r in E. subst t. unfold short_end in Ht.
  repeat (apply elem_of_cons in Ht as [Ht|Ht]); [..|by apply not_elem_of_nil in Ht];
    repeat (destruct x as [|? x]; [simpl in Ht; subst q; try reflexivity; simpl in Hx; lia|
      simpl in Ht; try discriminate; injection Ht as -> Ht]); discriminate.
Qed.

Lemma lang_after_port t : lang after_port t <-> short_end t.
Proof.
  unfold after_port, preauth, Opt, short_end. cbn [lang]. split.
  - intros (t1 & t2 & -> & [->%lang_lit| ->] & [->%lang_lit| ->]); apply list_elem_of_In; simpl; tauto.
  - intros H. repeat (apply elem_of_cons in H as [->|H]); [..|by apply not_elem_of_nil in H].
    + exists [], []. split; [done|]. split; by right.
    + exists ssh2_text, []. split; [done|]. split; [left; by apply (lang_lit ssh2_text)|by right].
    + exists [], preauth_text. split; [done|]. split; [by right|left; by apply (lang_lit preauth_text)].
    + exists ssh2_text, preauth_text. split; [done|].
      split; left; [by apply (lang_lit ssh2_text)|by apply (lang_lit preauth_text)].
Qed.

Lemma invalid_tail_ends source port rest :
  endpoint_ok source port -> short_end rest ->
  ends invalid_tail (address_port source port ++ rest)
  = prepend (mkFound [(2%nat, source); (3%nat, port)] (address_port source port) rest) <$> ends after_port rest.
Proof.
  intros [[Hs Hsn] [Hp Hpn]] Hrest. unfold address_port. rewrite <- !app_assoc.
  change invalid_tail with (Cat (lit_bytes from_text) (Cat (Group 2 (Plus (Class ip_char))) (Cat (lit_bytes port_text)
    (Cat (Group 3 (Plus (Class digit))) after_port)))).
  rewrite ends_cat_lit, strip_app, ends_group_delimited; [|done|done| |done].
  2: { intros b q Hb. by apply (ends_space_lit _ _ ip_char). }
  rewrite ends_cat_lit, strip_app, ends_group_delimited; [|done| | |done].
  - rewrite <- !list_fmap_compose. apply list_fmap_ext. intros ? m _.
    unfold prepend, compose. cbn [fd_groups fd_text fd_rest]. by rewrite <- !app_assoc.
  - unfold short_end in Hrest.
    repeat (apply elem_of_cons in Hrest as [->|Hrest]); [..|by apply not_elem_of_nil in Hrest]; done.
  - intros b q Hb. apply ends_none. rewrite lang_after_port. unfold short_end. intros H.
    repeat (apply elem_of_cons in H as [H|H]); [..|by apply not_elem_of_nil in H];
      try discriminate H; injection H as -> _; discriminate.
Qed.

Lemma invalid_match user source port rest :
  endpoint_ok source port -> short_end rest -> over dot (user ++ address_port source port ++ rest) ->
  exists m, FindStringSubmatch invalidUser (bytes_of_string "Invalid user " ++ user ++ address_port source port ++ rest) = Some m
    /\ fd_groups m = [(1%nat, user); (2%nat, source); (3%nat, port)].
Proof.
  intros Hok Hrest Hdot. unfold FindStringSubmatch.
  change invalidUser with (Cat (lit_bytes (bytes_of_string "Invalid user ")) (Cat (Group 1 (Star (Class dot))) invalid_tail)).
  rewrite ends_cat_lit, strip_app, head_map, ends_group_star.
  destruct (ends_some after_port rest) as (m0 & H0); [by apply lang_after_port|].
  destruct (ends after_port rest) as [|m1 l1] eqn:E1; [by apply not_elem_of_nil in H0|].
  rewrite (proj2 (splits_greedy _ dot _ (prepend (mkFound [(1%nat, user)] user (address_port source port ++ rest))
     (prepend (mkFound [(2%nat, source); (3%nat, port)] (address_port source port) rest) m1)) Hdot)).
  - eexists. split; [reflexivity|]. cbn [prepend fd_groups].
    assert (H1 : m1 ∈ ends after_port rest) by (rewrite E1; by left).
    apply elem_of_ends in H1 as [H1 _]. by rewrite (groupless_runs after_port _ _ eq_refl H1).
  - exists user, (address_port source port ++ rest). split; [done|]. cbn [fst snd].
    rewrite invalid_tail_ends, E1 by done. split; [done|]. intros x t' Ex Hx.
    assert (Ht : strip from_text t' = None).
    { destruct t' as [|c' t']; [done|]. destruct x as [|c x]; [done|].
      apply (f_equal (@tail Z)) in Ex. cbn [app tail] in Ex.
      apply (clear_app (tail (address_port source port)) rest [] (clear_address_port source port _ Hok)
              (short_end_clear _ Hrest) x); rewrite ?app_nil_r; [exact Ex|].
      apply (f_equal length) in Ex. rewrite (length_app x) in Ex.
      change (tail (address_port source port ++ rest)) with (tail (address_port source port) ++ rest) in Ex.
      rewrite Ex. cbn [length]. lia. }
    by rewrite (ends_lit_none from_text _ t' Ht : ends invalid_tail t' = []).
Qed.

(** The match of a message of PAM. *)
Definition pam_user : regex := cats [Plus (Class [(32, 32)]); lit "user="; Group 2 (Star (Class dot))].
Definition user_text : list Z := Eval cbv in bytes_of_string "user=".
Definition pam_end (t : list Z) : Prop :=
  t = [] \/ exists spaces user, t = spaces ++ user_text ++ user /\ over [(32, 32)] spaces /\ spaces <> [] /\ over dot user.

Definition pam_text (logname uid euid ruser : list Z) (source : list Z) : list Z :=
  bytes_of_string "pam_unix(sshd:auth): authentication failure; logname=" ++ logname ++ bytes_of_string " uid=" ++ uid
  ++ bytes_of_string " euid=" ++ euid ++ bytes_of_string " tty=ssh ruser=" ++ ruser ++ bytes_of_string " rhost=" ++ source.

Lemma lang_pam_end t : pam_end t -> lang (Opt pam_user) t.
Proof.
  intros [->|(spaces & user & -> & Hs & Hne & Hu)]; [by right|]. left. exists spaces, (user_text ++ user).
  split; [done|]. split; [by apply lang_plus_class|]. exists user_text, user. split; [done|].
  split; [by apply (lang_lit user_text)|by apply lang_star_class].
Qed.

Lemma pam_end_first b q : in_class ip_char b = true -> ends (Opt pam_user) (b :: q) = [].
Proof.
  intros Hb. apply ends_none. intros [(s & t & E & [Hs Hne]%lang_plus_class & _)|L]; [|done].
  destruct s as [|c s]; [done|]. injection E as -> _. apply Forall_cons in Hs as [Hc _].
  unfold in_class in Hc. simpl in Hc. bool_to_prop. replace c with 32 in Hb by lia. discriminate.
Qed.

Lemma pam_end_outside t : pam_end t -> outside ip_char t.
Proof.
  intros [->|(s & u & -> & Hs & Hne & _)]; [done|]. destruct s as [|c s]; [done|].
  apply Forall_cons in Hs as [Hc _]. unfold in_class in Hc. simpl in Hc. bool_to_prop.
  replace c with 32 by lia. done.
Qed.

Lemma pam_match logname uid euid ruser source t :
  over not_space logname -> over digit uid -> uid <> [] -> over digit euid -> euid <> [] -> over not_space ruser ->
  over ip_char source -> source <> [] -> pam_end t ->
  exists m, FindStringSubmatch pamFailure (pam_text logname uid euid ruser source ++ t) = Some m /\ group 1 m = source.
Proof.
  intros Hl Hu Hun He Hen Hr Hs Hsn Ht. unfold FindStringSubmatch, pam_text. rewrite <- !app_assoc.
  change pamFailure with (Cat (lit_bytes (bytes_of_string "pam_unix(sshd:auth): authentication failure; logname="))
    (Cat (Star (Class not_space)) (Cat (lit_bytes (bytes_of_string " uid=")) (Cat (Plus (Class digit))
    (Cat (lit_bytes (bytes_of_string " euid=")) (Cat (Plus (Class digit)) (Cat (lit_bytes (bytes_of_string " tty=ssh ruser="))
    (Cat (Star (Class not_space)) (Cat (lit_bytes (bytes_of_string " rhost=")) (Cat (Group 1 (Plus (Class ip_char)))
    (Opt pam_user))))))))))).
  rewrite ends_cat_lit, strip_app, ends_star_delimited;
    [|done|done|intros b q Hb; by apply (ends_space_lit _ _ not_space)].
  rewrite ends_cat_lit, strip_app, ends_plus_delimited;
    [|done|done|intros b q Hb; by apply (ends_space_lit _ _ digit)|done].
  rewrite ends_cat_lit, strip_app, ends_plus_delimited;
    [|done|done|intros b q Hb; by apply (ends_space_lit _ _ digit)|done].
  rewrite ends_cat_lit, strip_app, ends_star_delimited;
    [|done|done|intros b q Hb; by apply (ends_space_lit _ _ not_space)].
  rewrite ends_cat_lit, strip_app, ends_group_delimited;
    [|done|by apply pam_end_outside|apply pam_end_first|done].
  destruct (ends_some _ _ (lang_pam_end _ Ht)) as (m0 & H0).
  destruct (ends (Opt pam_user) t) as [|m l] eqn:E; [by apply not_elem_of_nil in H0|].
  assert (Hm : m ∈ ends (Opt pam_user) t) by (rewrite E; by left).
  apply elem_of_ends in Hm as [Hm _]. apply (opens_runs (fun n => (n =? 2)%nat)) in Hm; [|done].
  eexists. split; [reflexivity|]. unfold group. cbn [prepend fd_groups app].
  replace (List.filter _ _) with [(1%nat, source)]; [done|]. cbn [List.filter fst Nat.eqb]. f_equal.
  induction Hm as [|g gs Hg Hgs IH]; [done|]. apply Nat.eqb_eq in Hg. simpl. by rewrite Hg.
Qed.

(** A message about a peer at a source address, and the port where the message has it;
    the user, the log name, the requesting user and the identifier within the details
    of a key are any text. *)
Inductive peer_message (source : list Z) : option (list Z) -> list Z -> Prop :=
| outcome_message outcome method user port details ending :
    outcome ∈ ssh_outcomes -> method ∈ ssh_methods -> endpoint_ok source port -> preauth_end ending ->
    details = [] \/ (key_method method = true /\ lang keyDetailsGrammar details) ->
    peer_message source (Some port)
      (outcome_text outcome method ++ user ++ endpoint source port ++ details ++ ending)
| invalid_message user port ending :
    endpoint_ok source port -> short_end ending ->
    peer_message source (Some port) (bytes_of_string "Invalid user " ++ user ++ address_port source port ++ ending)
| pam_message logname uid euid ruser ending :
    over not_space logname -> over digit uid -> uid <> [] -> over digit euid -> euid <> [] -> over not_space ruser ->
    over ip_char source -> source <> [] -> pam_end ending ->
    peer_message source None (pam_text logname uid euid ruser source ++ ending).

Definition unreadable (message : list Z) : bool :=
  (16 * 1024 <? lenZ message) || negb (valid_utf8 0 message) || existsb control message.
(** The message read as ending with an endpoint after [front], followed by nothing or by
    the details of a key. *)
Definition read_with (message front : list Z) : Prop :=
  exists source port details ending,
    message = front ++ endpoint source port ++ details ++ ending
    /\ endpoint_ok source port /\ details_ok details /\ preauth_end ending.
(** A record of a login with a key that can be read with either of two endpoints. *)
Definition two_readings (message : list Z) : Prop :=
  (exists outcome method rest, outcome ∈ ssh_outcomes /\ method ∈ ["publickey"; "hostbased"]%string
     /\ message = outcome_text outcome method ++ rest)
  /\ exists front front', front <> front' /\ read_with message front /\ read_with message front'.
Definition bad_port (port : option (list Z)) : Prop :=
  exists p, port = Some p /\ default 0 (parse_uint 16 p) = 0.

Lemma trim_left_over l : over ip_char l -> trim_left l = l.
Proof.
  intros Hl. destruct l as [|b l]; [done|]. apply Forall_cons in Hl as [Hb _]. simpl.
  destruct ((b =? 91) || (b =? 93)) eqn:E; [|done].
  apply orb_true_iff in E as [E|E]; bool_to_prop; subst b; discriminate.
Qed.

Lemma trim_brackets_over l : over ip_char l -> trim_brackets l = l.
Proof.
  intros Hl. unfold trim_brackets. rewrite (trim_left_over l) by done.
  rewrite trim_left_over by (by apply Forall_rev). apply rev_involutive.
Qed.

(** ** The peer cannot choose its address *)

Lemma readable_dot message :
  Forall (fun b => 0 <= b < 256) message -> unreadable message = false -> over dot message.
Proof.
  intros Hb Hr. unfold unreadable in Hr. apply orb_false_iff in Hr as [_ Hc].
  induction Hb as [|b l Hb Hl IH]; [constructor|]. simpl in Hc. apply orb_false_iff in Hc as [Hc Hcs].
  constructor; [|by apply IH]. unfold control in Hc. unfold in_class, dot. simpl. apply orb_true_iff. right.
  apply orb_false_iff in Hc as [Hc _]. bool_to_prop. rewrite orb_false_r. apply andb_true_iff. zlia.
Qed.

(** What an observation must say of the peer, and when it may be missing. *)
Definition tells_peer (source : list Z) (port : Z) (o : AuthObservation) : Prop :=
  (exists a, parse_bytes source = Some a /\ ao_source o = unmap a) /\ ao_source_port o = port.

Lemma authEndpoint_peer now at' kind source port user method invalid :
  over ip_char source ->
  match authEndpoint now at' kind source port user method invalid with
  | Some o => tells_peer source (digits_value port) o
  | None => parse_bytes source = None \/ bad_port (Some port)
  end.
Proof.
  intros Hs. unfold authEndpoint, authObservation. rewrite trim_brackets_over by done.
  destruct (parse_uint 16 port) as [n|] eqn:Ep; [|right; exists port; by rewrite Ep].
  destruct (n =? 0) eqn:En; bool_to_prop; [right; exists port; rewrite Ep; by subst|].
  destruct (parse_bytes source) as [a|] eqn:Ea; simpl; [|by left].
  split; [by exists a|]. simpl. unfold parse_uint in Ep.
  destruct (nilb port || negb _ || _)%bool; congruence.
Qed.

Lemma two_of_many {A} (l : list A) x y : x ∈ l -> y ∈ l -> x <> y -> 1 < lenZ l.
Proof.
  unfold lenZ. intros Hx Hy Hne. destruct l as [|a [|b l]]; simpl; [by apply not_elem_of_nil in Hx| |lia].
  apply list_elem_of_singleton in Hx, Hy. congruence.
Qed.

(** The bytes of a method are read back as its name. *)
Lemma method_name method : method ∈ ssh_methods -> string_of_bytes (bytes_of_string method) = method.
Proof.
  intros Hm. unfold ssh_methods in Hm.
  repeat (apply elem_of_cons in Hm as [->|Hm]); try (by apply not_elem_of_nil in Hm); reflexivity.
Qed.

Lemma two_kept {A} (P : A -> bool) l : (1 < length (List.filter P l))%nat ->
  exists i j x y, (i < j)%nat /\ l !! i = Some x /\ l !! j = Some y /\ P x = true /\ P y = true.
Proof.
  induction l as [|a l IH]; simpl; [lia|]. destruct (P a) eqn:Ea; simpl; intros Hl.
  - destruct (List.filter P l) as [|y l'] eqn:Ef; simpl in Hl; [lia|].
    assert (Hy : In y (List.filter P l)) by (rewrite Ef; by left). apply filter_In in Hy as [Hy Py].
    apply list_elem_of_In, list_elem_of_lookup in Hy as (j & Hj). exists 0%nat, (S j), a, y. split_and!; [lia|done..].
  - destruct (IH Hl) as (i & j & x & y & Hij & Hi & Hj & Hp). exists (S i), (S j), x, y. split_and!; [lia|done|done|tauto..].
Qed.

(** Two endpoints after which the message could end are counted as two. *)
Lemma two_candidates front source port d p y source' port' d' p' :
  endpoint_ok source port -> endpoint_ok source' port' -> details_ok d -> details_ok d' -> preauth_end p -> preauth_end p' ->
  d ++ p = y ++ endpoint source' port' ++ d' ++ p' ->
  1 < lenZ (candidates (front ++ endpoint source port ++ d ++ p)).
Proof.
  intros Hok Hok' Hd Hd' Hp Hp' E. unfold candidates. eapply (two_of_many _ (d ++ p) (d' ++ p')).
  - rewrite list_elem_of_In, filter_In, <- list_elem_of_In. split; [|by apply candidate_details].
    by apply (FindAll_complete _ _ front source port).
  - rewrite list_elem_of_In, filter_In, <- list_elem_of_In. split; [|by apply candidate_details].
    apply (FindAll_complete _ _ (front ++ endpoint source port ++ y) source' port'); [done|done|]. by rewrite E, <- !app_assoc.
  - intros E'. apply (f_equal length) in E. rewrite E', (length_app y), (length_app (endpoint _ _)), endpoint_cons in E.
    cbn [length] in E. lia.
Qed.

(** Two that are counted are two readings of the message. *)
Lemma counted_readings outcome method rest message :
  outcome ∈ ssh_outcomes -> key_method method = true -> message = outcome_text outcome method ++ rest ->
  1 < lenZ (candidates message) -> two_readings message.
Proof.
  intros Ho Hk E Hc. split.
  { exists outcome, method, rest. split_and!; [done| |done]. unfold key_method in Hk.
    apply orb_true_iff in Hk as [->%String.eqb_eq| ->%String.eqb_eq]; apply (bool_decide_unpack _); exact I. }
  clear E. unfold candidates, lenZ in Hc.
  destruct (two_kept candidate (FindAll (length message) sshEndpoint message) ltac:(lia))
    as (i & j & x & y & Hij & Hi & Hj & Cx & Cy).
  destruct (FindAll_sound _ _ _ _ Hi) as (f1 & s1 & p1 & Hok1 & E1 & Hlater).
  destruct (FindAll_sound _ _ _ _ Hj) as (f2 & s2 & p2 & Hok2 & E2 & _). specialize (Hlater _ _ Hij Hj).
  apply details_candidate in Cx as (d1 & e1 & -> & Hd1 & He1), Cy as (d2 & e2 & -> & Hd2 & He2).
  exists f1, f2. split_and!; [|by exists s1, p1, d1, e1|by exists s2, p2, d2, e2].
  intros ->. rewrite E1 in E2. apply app_inv_head in E2. apply endpoint_unique in E2; [|done|done].
  destruct E2 as (_ & _ & E2). rewrite E2 in Hlater. lia.
Qed.

Lemma no_endpoint_in_end p y source port t : preauth_end p -> p <> y ++ endpoint source port ++ t.
Proof.
  intros Hp E. apply (f_equal length) in E. unfold endpoint in E. rewrite !length_app in E.
  destruct Hp as [->| ->]; simpl in E; lia.
Qed.

Lemma outcome_peer now at' outcome method user source port d p :
  let message := outcome_text outcome method ++ user ++ endpoint source port ++ d ++ p in
  outcome ∈ ssh_outcomes -> method ∈ ssh_methods -> endpoint_ok source port -> preauth_end p ->
  d = [] \/ (key_method method = true /\ lang keyDetailsGrammar d) -> over dot message ->
  exists m, FindStringSubmatch sshOutcome message = Some m /\
  match parse_outcome now message at' m with
  | Some o => tells_peer source (digits_value port) o
  | None => parse_bytes source = None \/ bad_port (Some port) \/ two_readings message
  end.
Proof.
  intros message Ho Hm Hok Hp Hkey Hdot.
  assert (Hd : details_ok d) by (destruct Hkey as [?|[_ ?]]; [by left|by right]).
  destruct (outcome_match outcome method user source port d p) as (m & u & s' & p2 & d' & p' & y & Ef & Hg & Hok' & Hd' & Hp' & Hcase);
    [done..|by apply Forall_app in Hdot as [_ ?]|].
  exists m. split; [done|]. 
  assert (G : forall n, group n m = default [] (snd <$> last (List.filter (fun g => (g.1 =? n)%nat)
                [(1%nat, bytes_of_string outcome); (2%nat, bytes_of_string method); (3%nat, u); (4%nat, s'); (5%nat, p2); (6%nat, d')])))
    by (intros n; unfold group; by rewrite Hg).
  unfold parse_outcome. rewrite (G 2%nat : _ = bytes_of_string method), (G 4%nat : _ = s'), (G 5%nat : _ = p2), (G 6%nat : _ = d').
  rewrite (method_name _ Hm). clear G.
  replace (trim_preauth d') with d' by (rewrite <- (app_nil_r d') at 2; by rewrite trim_preauth_app; [|done|left]).
  destruct Hcase as [(-> & -> & ->)|E].
  - replace (negb (nilb d) && (negb (key_method method) || negb (MatchString keyDetails d))) with false.
    2: { destruct Hkey as [->|[-> Hl]]; [done|]. by rewrite (proj2 (MatchString_lang keyDetails d) Hl), andb_false_r. }
    destruct (key_method method && (1 <? lenZ (candidates message))) eqn:Ec.
    { apply andb_true_iff in Ec as [Hk Hc]. right. right.
      eapply (counted_readings outcome method); [done|done|done|by apply Z.ltb_lt]. }
    match goal with |- context [authEndpoint now at' ?k source port ?u ?me ?i] =>
      pose proof (authEndpoint_peer now at' k source port u me i (proj1 (proj1 Hok))) as Hr;
      destruct (authEndpoint now at' k source port u me i) end; [done|tauto].
  - destruct Hkey as [->|[Hk _]]; [by apply no_endpoint_in_end in E|].
    assert (H2 : 1 < lenZ (candidates message)).
    { unfold message. rewrite (app_assoc (outcome_text _ _)). by eapply two_candidates. }
    rewrite Hk, (proj2 (Z.ltb_lt _ _) H2). pose proof (counted_readings _ _ _ message Ho Hk eq_refl H2).
    case_if; by right; right.
Qed.

Lemma invalid_not_outcome x : FindStringSubmatch sshOutcome (bytes_of_string "Invalid user " ++ x) = None.
Proof. reflexivity. Qed.
Lemma pam_not_others l u e r s x :
  FindStringSubmatch sshOutcome (pam_text l u e r s ++ x) = None /\ FindStringSubmatch invalidUser (pam_text l u e r s ++ x) = None.
Proof. split; reflexivity. Qed.

(** C27. Whatever text the peer chooses as its user name, as the names that PAM logs or as
    the identifier of a certificate, an observation made of a message about it has the
    address of the peer and its port; and a readable message with a legal address and
    port is refused only when it records a login with a key and can be read in two ways,
    as ending with one endpoint or with another one elsewhere in it. *)
Theorem ParseSSH_peer now at' source port message :
  Forall (fun b => 0 <= b < 256) message -> peer_message source port message ->
  match ParseSSH now message at' with
  | Some o => tells_peer source (from_option digits_value 0 port) o
  | None => unreadable message = true \/ parse_bytes source = None \/ bad_port port \/ two_readings message
  end.
Proof.
  intros Hb Hm. unfold ParseSSH. change ((_ <? _) || _ || _) with (unreadable message).
  destruct (unreadable message) eqn:Hr; [by left|]. pose proof (readable_dot _ Hb Hr) as Hdot.
  destruct Hm as [outcome method user port d p Ho Hme Hok Hp Hd|user port p Hok Hp|l u e r p Hl Hu Hun He Hen Hr' Hs Hsn Hp].
  - destruct (outcome_peer now at' outcome method user source port d p Ho Hme Hok Hp Hd Hdot) as (m & -> & H).
    destruct (parse_outcome _ _ _ _); [done|tauto].
  - rewrite invalid_not_outcome. destruct (invalid_match user source port p) as (m & -> & Hg);
      [done|done|by apply Forall_app in Hdot as [_ ?]|].
    unfold group. rewrite Hg. cbn [List.filter fst Nat.eqb fmap option_fmap option_map last from_option id snd].
    pose proof (authEndpoint_peer now at' AuthInvalidUser source port user "unknown" true (proj1 (proj1 Hok))) as H.
    destruct (authEndpoint _ _ _ source port _ _ _); [done|tauto].
  - destruct (pam_not_others l u e r source p) as [-> ->].
    destruct (pam_match l u e r source p) as (m & -> & ->); [done..|].
    unfold authObservation. rewrite trim_brackets_over by done.
    destruct (parse_bytes source) as [a|] eqn:Ea; [|tauto]. split; [by exists a|done].
Qed.

Definition forged_user : string := "x from 203.0.113.9 port 22 ssh2".

Lemma ParseSSH_peer_witness :
  let message := outcome_text "Failed" "publickey" ++ bytes_of_string forged_user
                 ++ endpoint (bytes_of_string "192.0.2.7") (bytes_of_string "4711") ++ [] ++ [] in
  let parsed := ParseSSH (unix_epoch + second) message (unix_epoch + 5 * second) in
  ao_source <$> parsed = Some (A4 192 0 2 7)
  /\ match parsed with
     | Some o => tells_peer (bytes_of_string "192.0.2.7") 4711 o
     | None => unreadable message = true \/ parse_bytes (bytes_of_string "192.0.2.7") = None
               \/ bad_port (Some (bytes_of_string "4711")) \/ two_readings message
     end.
Proof.
  intros message parsed. split; [vm_compute; reflexivity|].
  apply (ParseSSH_peer (unix_epoch + second) (unix_epoch + 5 * second) (bytes_of_string "192.0.2.7")
           (Some (bytes_of_string "4711")) message).
  - apply (bool_decide_unpack _). vm_compute. exact I.
  - apply (outcome_message (bytes_of_string "192.0.2.7") "Failed" "publickey" (bytes_of_string forged_user) (bytes_of_string "4711") [] []).
    + apply (bool_decide_unpack _). vm_compute. exact I.
    + apply (bool_decide_unpack _). vm_compute. exact I.
    + split; split; try discriminate; apply (bool_decide_unpack _); vm_compute; exact I.
    + by left.
    + by left.
Defined.

(** A certificate whose identifier looks like an endpoint is refused. *)
Example forged_certificate :
  ParseSSH (unix_epoch + second) (bytes_of_string
    "Accepted publickey for root from 192.0.2.7 port 22 ssh2: ED25519-CERT SHA256:abc ID x from 203.0.113.9 port 9 ssh2: RSA SHA256:d ID y (serial 3) CA RSA SHA256:zz")
    (unix_epoch + 5 * second) = None.
Proof. vm_compute. reflexivity. Qed.

Example pam_record :
  ao_source <$> ParseSSH (unix_epoch + second) (bytes_of_string
    "pam_unix(sshd:auth): authentication failure; logname= uid=0 euid=0 tty=ssh ruser= rhost=2001:db8::1  user=rhost=203.0.113.9")
    (unix_epoch + 5 * second) = Some (A6 [8193; 3512; 0; 0; 0; 0; 0; 1] "").
Proof. vm_compute. reflexivity. Qed.
