(* ===== verification/JournalRecord.v ===== *)
(** * Records of the system journal

    [internal/collector/journal.go] and [journal_diagnostics.go], and the decoding of
    [journal_reliable.go]: which records come from an SSH daemon, when they were
    observed, what they say, and how the failures of the reader are named. *)

From S2P Require Export SSHLog Health.

(** ** Text *)

Definition strip_suffix (l s : list Z) : option (list Z) := (fun t => rev t) <$> strip (rev l) (rev s).
Definition between (prefix suffix : string) (s : string) : option (list Z) :=
  match strip (bytes_of_string prefix) (bytes_of_string s) with
  | Some t => strip_suffix (bytes_of_string suffix) t
  | None => None
  end.

(** [strconv.ParseInt(value, 10, 64)]. *)
Definition parse_int64 (value : string) : option Z :=
  let l := bytes_of_string value in
  let '(negative, digits) := match l with
                             | 45 :: l => (true, l)
                             | 43 :: l => (false, l)
                             | _ => (false, l)
                             end in
  if nilb digits || negb (forallb is_digit digits) then None
  else
    let n := digits_value digits in
    if negative then if n <=? - i64_min then Some (- n) else None
    else if n <=? i64_max then Some n else None.

(** ** The origin of a record *)

Record journalRecord := mkRecord {
  jr_cursor : string;
  jr_message : list Z;
  jr_realtime : string;
  jr_received : string;
  jr_uid : string;
  jr_exe : string;
  jr_unit : string;
  jr_user_unit : string;
  jr_transport : string;
  jr_unit_missing : bool }.

(** A unit instance: [ssh@...service]. *)
Definition unit_instance (prefix unit : string) : bool :=
  match between prefix ".service" unit with
  | Some (_ :: _) =>
      (string_len unit <=? 256)
      && negb (existsb (fun b => (b =? 47) || (b =? 13) || (b =? 10) || (b =? 0)) (bytes_of_string unit))
  | _ => false
  end.

Definition sshUnit (unit : string) : bool :=
  (unit =?s "ssh.service") || (unit =?s "sshd.service") || unit_instance "ssh@" unit || unit_instance "sshd@" unit.

Definition loginSessionScope (unit : string) : bool :=
  if 9 + 20 + 6 <? string_len unit then false
  else
    match between "session-" ".scope" unit with
    | None => false
    | Some id =>
        let '(bits, id) := match strip [99] id with Some id => (64, id) | None => (32, id) end in
        match id with
        | [] => false
        | b :: _ =>
            if (b <? 49) || (57 <? b) then false
            else
              match parse_uint bits id with
              | Some number => negb (bits =? 32) || negb (number =? 2 ^ 32 - 1)
              | None => false
              end
        end
    end.

Definition ssh_executables : list string :=
  ["/usr/sbin/sshd"; "/usr/bin/sshd"; "/usr/lib/openssh/sshd-session"; "/usr/lib/openssh/sshd-auth";
   "/usr/libexec/openssh/sshd-session"; "/usr/libexec/openssh/sshd-auth"]%string.

Definition sshOriginFailure (r : journalRecord) : string :=
  if (jr_uid r =?s "") || (jr_exe r =?s "") || (jr_transport r =?s "") then "missing_origin_metadata"
  else if negb (jr_uid r =?s "0") then "untrusted_uid"
  else if negb (jr_user_unit r =?s "") then "untrusted_unit"
  else if negb (one_of ["syslog"; "journal"]%string (jr_transport r)) then "untrusted_transport"
  else if negb (sshUnit (jr_unit r)) && negb (loginSessionScope (jr_unit r))
          && negb (jr_unit_missing r && (jr_unit r =?s "")) then "untrusted_unit"
  else if one_of ssh_executables (jr_exe r) then ""
  else "untrusted_executable".

Definition trustedSSHOrigin (r : journalRecord) : bool := sshOriginFailure r =?s "".

(** A positive number of microseconds. *)
Definition positive_micro (value : string) : option time :=
  match parse_int64 value with
  | Some us => if 0 <? us then Some (of_unix_micro us) else None
  | None => None
  end.

Definition observedAt (now : time) (r : journalRecord) : time :=
  match positive_micro (jr_realtime r) with
  | Some t => t
  | None => default now (positive_micro (jr_received r))
  end.

(** ** Entries *)

Record JournalEntry := mkEntry {
  je_cursor : string;
  je_observed : time;
  je_received : time;
  je_observation : option AuthObservation;
  je_skip : string;
  je_cause : string }.

Definition validJournalCursor (cursor : string) : bool :=
  (0 <? string_len cursor) && (string_len cursor <=? 4096) && valid_utf8 0 (bytes_of_string cursor)
  && negb (existsb (fun b => (b <? 33) || (b =? 127)) (bytes_of_string cursor)).

(** [bytes.TrimSpace] of the white space that JSON allows around a value. *)
Definition json_space (b : Z) : bool := (b =? 32) || (b =? 9) || (b =? 10) || (b =? 13).
Fixpoint drop_space (l : list Z) : list Z :=
  match l with b :: l' => if json_space b then drop_space l' else l | [] => [] end.
Definition trim_space (l : list Z) : list Z := rev (drop_space (rev (drop_space l))).

Section Decode.
(** What [encoding/json] makes of a line: the metadata of [decodeJournalEntry] with the
    raw MESSAGE, the fields of a record with the raw unit, and a raw string. *)
Context (unmarshal_metadata : list Z -> option (string * string * list Z)).
Context (unmarshal_fields : list Z -> option (journalRecord * list Z)).
Context (unmarshal_string : list Z -> option string).

(** [UnmarshalJSON]; the unit is not among the embedded fields. *)
Definition UnmarshalJSON (raw : list Z) : option journalRecord :=
  match unmarshal_fields raw with
  | None => None
  | Some (r, unit) =>
      let with_unit u missing := mkRecord (jr_cursor r) (jr_message r) (jr_realtime r) (jr_received r) (jr_uid r)
        (jr_exe r) u (jr_user_unit r) (jr_transport r) missing in
      match unit with
      | [] => Some (with_unit ""%string true)
      | _ => match unmarshal_string unit with Some u => Some (with_unit u false) | None => None end
      end
  end.

(** [decodeJournalEntry]. *)
Definition decodeJournalEntry (now : time) (raw : list Z) : option JournalEntry :=
  match unmarshal_metadata raw with
  | None => None
  | Some (cursor, received, message) =>
      if negb (validJournalCursor cursor) then None
      else
        match positive_micro received with
        | None => None
        | Some at' =>
            match UnmarshalJSON raw with
            | None => Some (mkEntry cursor at' at' None "malformed_record" "malformed_record")
            | Some record =>
                if nilb message || bool_decide (trim_space message = bytes_of_string "null")
                then Some (mkEntry cursor at' at' None "malformed_record" "malformed_record")
                else if negb (sshOriginFailure record =?s "")
                then Some (mkEntry cursor at' at' None "untrusted_origin" (sshOriginFailure record))
                else
                  let observed := observedAt now record in
                  match ParseSSH now (jr_message record) observed with
                  | None => Some (mkEntry cursor observed at' None "unrecognized_message" "")
                  | Some o => Some (mkEntry cursor observed at' (Some o) "" "")
                  end
            end
        end
  end.
End Decode.

(** ** Failures of the reader *)

(** What [errors.Is] and [errors.As] find in an error: the sentinels, and the exit of a
    process, as its code or as the name of the signal that ended it. *)
Inductive sentinel :=
| ErrNotExist | ErrNotFound | ErrPermission | EPERM | ENOEXEC | EMFILE | ENFILE | ENOMEM | EAGAIN | ENOSPC | EIO.
#[global] Instance sentinel_eq_dec : EqDecision sentinel.
Proof. solve_decision. Defined.

Inductive process_exit := ExitCode (code : Z) | Signaled (signal : string).
Record os_error := mkOsError { oe_is : list sentinel; oe_exit : option process_exit }.
Definition is_error (e : option os_error) (s : list sentinel) : bool :=
  match e with Some e => existsb (fun x => bool_decide (x ∈ oe_is e)) s | None => false end.

(** [boundedJournalStderr]. *)
Record boundedJournalStderr := mkStderr { se_prefix : list Z; se_tail : list Z; se_truncated : bool }.
Definition empty_stderr : boundedJournalStderr := mkStderr [] [] false.

(** The last [n] bytes. *)
Definition last_bytes (n : nat) (l : list Z) : list Z := drop (length l - n) l.

Definition stderr_half : nat := 4096.

(** [Write]. *)
Definition Write (data : list Z) (b : boundedJournalStderr) : boundedJournalStderr :=
  let room := (stderr_half - length (se_prefix b))%nat in
  let prefix := se_prefix b ++ take room data in
  let data := drop room data in
  let truncated := se_truncated b || (stderr_half <? length (se_tail b) + length data)%nat in
  let tail :=
    if (stderr_half <=? length data)%nat then last_bytes stderr_half data
    else match data with
         | [] => se_tail b
         | _ => last_bytes (stderr_half - length data) (se_tail b) ++ data
         end in
  mkStderr prefix tail truncated.

(** [strings.ToLower] as far as ASCII text in its result goes: the two letters outside
    ASCII that have an ASCII lower case are U+0130 and U+212A. *)
Fixpoint to_lower (l : list Z) : list Z :=
  match l with
  | 196 :: 176 :: l => 105 :: to_lower l
  | 226 :: 132 :: 170 :: l => 107 :: to_lower l
  | b :: l => (if (65 <=? b) && (b <=? 90) then b + 32 else b) :: to_lower l
  | [] => []
  end.

Definition message (b : boundedJournalStderr) : list Z :=
  to_lower (se_prefix b ++ (if se_truncated b then [10] else []) ++ se_tail b).

(** [strings.Contains]. *)
Fixpoint contains (term s : list Z) : bool :=
  some (strip term s) || match s with _ :: s => contains term s | [] => false end.

Definition cursorUnavailable (b : boundedJournalStderr) : bool :=
  existsb (fun term => contains (bytes_of_string term) (message b))
    ["failed to seek to cursor"; "cannot seek to cursor"; "cursor not found"]%string.

Definition failure_rules : list (string * list string) :=
  [("permission_denied", ["permission denied"; "operation not permitted"; "insufficient permissions"]);
   ("file_descriptor_limit", ["too many open files"]);
   ("memory_allocation_failed", ["cannot allocate memory"; "out of memory"]);
   ("resource_unavailable", ["resource temporarily unavailable"]);
   ("no_space", ["no space left on device"]);
   ("io_error", ["input/output error"; "input/output failure"]);
   ("journal_files_unavailable", ["no journal files were found"; "no journal files were opened"]);
   ("unsupported_option", ["unrecognized option"; "unknown option"; "invalid option"]);
   ("journal_format_unsupported", ["unsupported journal"; "uses an unsupported feature"; "unsupported feature"]);
   ("journal_corrupt", ["corrupted"; "corruption"; "truncated journal"; "journal file is truncated"])]%string.

Definition failureCause (b : boundedJournalStderr) : string :=
  from_option fst ""%string
    (List.find (fun rule => existsb (fun term => contains (bytes_of_string term) (message b)) rule.2) failure_rules).

(** [journalAttemptError]. *)
Record journalAttemptError := mkAttemptError { ja_reason : string; ja_diagnostic : JournalDiagnostic }.

Definition os_cause (reason : string) (e : option os_error) : string :=
  let start := reason =?s "start_failed" in
  if start && is_error e [ErrNotExist; ErrNotFound] then "executable_not_found"
  else if is_error e [ErrPermission; EPERM] then "permission_denied"
  else if start && is_error e [ENOEXEC] then "executable_invalid"
  else if is_error e [EMFILE; ENFILE] then "file_descriptor_limit"
  else if is_error e [ENOMEM] then "memory_allocation_failed"
  else if is_error e [EAGAIN] then "resource_unavailable"
  else if is_error e [ENOSPC] then "no_space"
  else if is_error e [EIO] then "io_error"
  else if start then "process_start_failed" else "stream_read_failed".

(** The exit of the child: the code to report, the cause, and the signal. *)
Definition exit_cause (reason : string) (e : option os_error) : option Z * string * string :=
  match e with
  | None => (Some 0, reason, ""%string)
  | Some e =>
      match oe_exit e with
      | Some (ExitCode code) => (if (0 <=? code) && (code <=? 255) then Some code else None, reason, ""%string)
      | Some (Signaled signal) => (None, "process_signaled"%string, if validJournalSignal signal then signal else ""%string)
      | None => (None, reason, ""%string)
      end
  end.

Definition journalFailure (now : time) (reason : string) (e : option os_error) (stderr : option boundedJournalStderr)
    : journalAttemptError :=
  let '(code, cause, signal) :=
    if (reason =?s "start_failed") || (reason =?s "read_failed") then (None, os_cause reason e, ""%string)
    else if (reason =?s "process_exited") || (reason =?s "cursor_unavailable") then
      let '(code, cause, signal) := exit_cause reason e in
      (code,
       match stderr with
       | Some b => if negb (cause =?s "process_signaled") && negb (reason =?s "cursor_unavailable")
                      && negb (failureCause b =?s "") then failureCause b else cause
       | None => cause
       end, signal)
    else (None, reason, ""%string) in
  let initial := journalDiagnostic (if reason =?s "start_failed" then "process_start_failed"
                                    else if reason =?s "read_failed" then "stream_read_failed" else reason) now in
  mkAttemptError reason
    (mkJournalDiagnostic cause (JournalCauseDescription cause) (jd_scope initial) (jd_at initial) code signal).

(** ** What the reader keeps of the child's error output *)

Lemma length_last_bytes n l : length (last_bytes n l) = Nat.min n (length l).
Proof. unfold last_bytes. rewrite length_drop. lia. Qed.

Lemma last_bytes_app n (l d : list Z) :
  last_bytes n (l ++ d)
  = if (n <=? length d)%nat then last_bytes n d
    else match d with [] => last_bytes n l | _ => last_bytes (n - length d) (last_bytes n l) ++ d end.
Proof.
  unfold last_bytes. rewrite length_app.
  destruct (n <=? length d)%nat eqn:E; [apply Nat.leb_le in E|apply Nat.leb_gt in E].
  - rewrite drop_app_ge by lia. f_equal. lia.
  - destruct d as [|b d]; [rewrite app_nil_r; simpl; f_equal; lia|].
    rewrite drop_app_le by lia. rewrite length_drop, drop_drop. f_equal. f_equal. lia.
Qed.

(** The first half of the output, the end of the rest, and whether there was more. *)
Definition keeps (all : list Z) (b : boundedJournalStderr) : Prop :=
  b = mkStderr (take stderr_half all) (last_bytes stderr_half (drop stderr_half all))
        (2 * stderr_half <? length all)%nat.

Lemma Write_keeps all b data : keeps all b -> keeps (all ++ data) (Write data b).
Proof.
  intros ->. unfold keeps, Write. cbn [se_prefix se_tail se_truncated].
  rewrite length_take, length_last_bytes, length_drop, !length_app.
  replace (stderr_half - Nat.min stderr_half (length all))%nat with (stderr_half - length all)%nat by lia.
  rewrite take_app, drop_app, last_bytes_app, !length_drop. f_equal.
  generalize stderr_half as h. intros h. apply eq_true_iff_eq. rewrite orb_true_iff, !Nat.ltb_lt. lia.
Qed.

Lemma stderr_keeps writes : keeps (concat writes) (foldl (fun b d => Write d b) empty_stderr writes).
Proof.
  assert (H : forall all b, keeps all b -> keeps (all ++ concat writes) (foldl (fun b d => Write d b) b writes)).
  { induction writes as [|d ds IH]; intros all b Hb; simpl; [by rewrite app_nil_r|].
    rewrite app_assoc. by apply IH, Write_keeps. }
  by apply (H []).
Qed.

(** However the output of the child arrives in pieces, at most twice 4096 bytes of it
    are kept, and what is kept is its beginning and its end. *)
Theorem stderr_bounded writes :
  let b := foldl (fun b d => Write d b) empty_stderr writes in
  let all := concat writes in
  (length (se_prefix b) + length (se_tail b) <= 2 * stderr_half)%nat
  /\ (se_truncated b = false -> se_prefix b ++ se_tail b = all)
  /\ (se_truncated b = true -> se_prefix b = take stderr_half all /\ se_tail b = drop (length all - stderr_half) all).
Proof.
  intros b all. unfold b. rewrite (stderr_keeps writes). fold all. cbn [se_prefix se_tail se_truncated].
  split; [rewrite length_take, length_last_bytes; lia|]. split.
  - intros H. apply Nat.ltb_ge in H. unfold last_bytes. rewrite length_drop.
    replace (length all - stderr_half - stderr_half)%nat with 0%nat by lia.
    change (drop 0 (drop stderr_half all)) with (drop stderr_half all). by rewrite take_drop.
  - intros H. apply Nat.ltb_lt in H. split; [done|]. unfold last_bytes. rewrite length_drop, drop_drop. f_equal. lia.
Qed.

(** ** What an observation was made from *)

Section Decoded.
Context (unmarshal_metadata : list Z -> option (string * string * list Z)).
Context (unmarshal_fields : list Z -> option (journalRecord * list Z)).
Context (unmarshal_string : list Z -> option string).

(** An entry has a valid cursor and the time at which the journal received it, and its
    observation comes from a record that an SSH daemon run by root wrote. *)
Lemma decoded_entry now raw e :
  decodeJournalEntry unmarshal_metadata unmarshal_fields unmarshal_string now raw = Some e ->
  validJournalCursor (je_cursor e) = true
  /\ unix_epoch < je_received e
  /\ (je_skip e = "" <-> je_observation e <> None)
  /\ forall o, je_observation e = Some o -> exists r,
       UnmarshalJSON unmarshal_fields unmarshal_string raw = Some r /\ trustedSSHOrigin r = true
       /\ jr_uid r = "0"%string /\ jr_exe r ∈ ssh_executables /\ jr_user_unit r = ""%string
       /\ ParseSSH now (jr_message r) (je_observed e) = Some o.
Proof.
  unfold decodeJournalEntry. destruct (unmarshal_metadata raw) as [[[cursor received] msg]|]; [|done].
  destruct (validJournalCursor cursor) eqn:Ec; [|done]. cbn [negb].
  destruct (positive_micro received) as [at'|] eqn:Er; [|done].
  assert (Ht : unix_epoch < at').
  { unfold positive_micro in Er. destruct (parse_int64 received) as [us|]; [|done].
    destruct (0 <? us) eqn:Eu; [|done]. injection Er as <-. bool_to_prop. unfold of_unix_micro, microsecond. lia. }
  destruct (UnmarshalJSON unmarshal_fields unmarshal_string raw) as [r|]; [|intros [= <-]; cbn; repeat split; done].
  destruct (nilb msg || _); [intros [= <-]; cbn; repeat split; done|].
  destruct (sshOriginFailure r =?s "") eqn:Eo; cbn [negb]; [|intros [= <-]; cbn; repeat split; done].
  destruct (ParseSSH now _ _) as [o|] eqn:Ep; intros [= <-]; cbn; repeat split; try done.
  intros o' [= <-]. exists r. split; [done|]. split; [done|].
  revert Eo. unfold sshOriginFailure. repeat case_if; try discriminate. intros _. bool_to_prop.
  apply String.eqb_eq in E0, E1. apply one_of_spec in E4. done.
Qed.
End Decoded.
