(* ===== verification/JournalReader.v ===== *)
(** * The journal reader

    [RunReliable] of [internal/collector/journal_reliable.go]: a child process prints
    the journal from an acknowledged cursor on; every record is either given to the
    consumer, whose return acknowledges it, or reported as lost, and a child that ends
    is started again.  What the child prints and how it ends are given; the consumer,
    the two callbacks and the clock act on a state of their own. *)

From S2P Require Export JournalRecord.

(** ** Options *)

Record JournalOptions := mkJournalOptions {
  jo_cursor : string;
  jo_observed : time;
  jo_window : duration;
  jo_max : Z;
  jo_restart_min : duration;
  jo_restart_max : duration;
  jo_pending : bool }.

Definition or_default (d n : Z) : Z := if n =? 0 then d else n.

Definition with_defaults (o : JournalOptions) : JournalOptions :=
  mkJournalOptions (jo_cursor o) (jo_observed o) (or_default (15 * minute) (jo_window o)) (or_default 10000 (jo_max o))
    (or_default second (jo_restart_min o)) (or_default minute (jo_restart_max o)) (jo_pending o).

Definition options_valid (o : JournalOptions) : bool :=
  (0 <=? jo_window o) && (jo_window o <=? 24 * hour) && (1 <=? jo_max o) && (jo_max o <=? 100000)
  && (0 <=? jo_restart_min o) && (jo_restart_min o <=? jo_restart_max o) && (jo_restart_max o <=? 5 * minute).

(** ** Lines *)

(** The lines that end with a newline, and what follows the last one. *)
Fixpoint split_lines (s : list Z) : list (list Z) * list Z :=
  match s with
  | [] => ([], [])
  | b :: s =>
      let '(ls, t) := split_lines s in
      if b =? 10 then ([b] :: ls, t)
      else match ls with
           | [] => ([], b :: t)
           | l :: ls => ((b :: l) :: ls, t)
           end
  end.

Definition max_line : Z := 256 * 1024.

(** What successive calls of [readJournalLine] return: a line, or that it was too long;
    the last one comes with the end of the stream. *)
Definition readJournalLine (line : list Z) : option (list Z) := if max_line <? lenZ line then None else Some line.
Definition lines_read (s : list Z) : list (option (list Z)) :=
  let '(ls, t) := split_lines s in readJournalLine <$> (ls ++ [t]).

(** ** The child process *)

(** What one child does: the error of its start, what it prints for an inclusive cursor
    or a time, the error that ended the reading, and its exit; [cm_cancelled] says that
    the context was cancelled meanwhile. *)
Record child := mkChild {
  cm_start : option os_error;
  cm_output : string -> time -> list Z;
  cm_read : option os_error;
  cm_wait : option os_error;
  cm_stderr : list (list Z);
  cm_cancelled : bool }.

Inductive ack := AckNew | AckDuplicate | AckFailed.
#[global] Instance ack_eq_dec : EqDecision ack.
Proof. solve_decision. Defined.

(** The variables of [RunReliable]. *)
Record Reader := mkReader {
  rd_cursor : string;
  rd_acknowledged : time;
  rd_force_since : time;
  rd_pending : bool;
  rd_last_failure : JournalDiagnostic;
  rd_quality_failure : JournalDiagnostic;
  rd_backoff : duration }.

Definition with_cursor (c : string) (r : Reader) : Reader :=
  mkReader c (rd_acknowledged r) (rd_force_since r) (rd_pending r) (rd_last_failure r) (rd_quality_failure r) (rd_backoff r).
Definition with_force (t : time) (r : Reader) : Reader :=
  mkReader (rd_cursor r) (rd_acknowledged r) t (rd_pending r) (rd_last_failure r) (rd_quality_failure r) (rd_backoff r).
Definition with_pending_recovery (p : bool) (r : Reader) : Reader :=
  mkReader (rd_cursor r) (rd_acknowledged r) (rd_force_since r) p (rd_last_failure r) (rd_quality_failure r) (rd_backoff r).
Definition with_failures (l q : JournalDiagnostic) (r : Reader) : Reader :=
  mkReader (rd_cursor r) (rd_acknowledged r) (rd_force_since r) (rd_pending r) l q (rd_backoff r).
Definition with_backoff (b : duration) (r : Reader) : Reader :=
  mkReader (rd_cursor r) (rd_acknowledged r) (rd_force_since r) (rd_pending r) (rd_last_failure r) (rd_quality_failure r) b.
(** An acknowledged entry. *)
Definition advance (e : JournalEntry) (r : Reader) : Reader :=
  mkReader (je_cursor e) (if after (je_received e) (rd_acknowledged r) then je_received e else rd_acknowledged r)
    time_zero (rd_pending r) (rd_last_failure r) (rd_quality_failure r) (rd_backoff r).

(** [SkipReason] of a record whose origin was verified. *)
Definition trusted_entry (e : JournalEntry) : bool := (je_skip e =?s "") || (je_skip e =?s "unrecognized_message").

Definition plain_status (state reason : string) (since : time) (count : Z) : JournalStatus :=
  mkJournal state reason time_zero since count "" "" "" time_zero None "".
Definition status_at (t : time) (s : JournalStatus) : JournalStatus :=
  mkJournal (js_state s) (js_reason s) t (js_since s) (js_count s) (js_cause s) (js_detail s) (js_scope s)
    (js_diagnostic_at s) (js_exit_code s) (js_signal s).
Definition with_scope (scope : string) (d : JournalDiagnostic) : JournalDiagnostic :=
  mkJournalDiagnostic (jd_cause d) (jd_detail d) scope (jd_at d) (jd_exit_code d) (jd_signal d).

Section Reader.
Context {W : Type}.
Context (decode : time -> list Z -> option JournalEntry).
Context (consume : JournalEntry -> W -> ack * W).
Context (on_degradation : JournalStatus -> W -> bool * W) (on_status : JournalStatus -> W -> W).
Context (clock : W -> time * W).
Context (options : JournalOptions).

Abbreviation state := (Reader * W)%type.

(** The diagnostic to publish with a status, and the two that are kept. *)
Definition diagnose (now : time) (s : JournalStatus) (r : Reader)
    : JournalDiagnostic * JournalDiagnostic * JournalDiagnostic :=
  let diagnostic := SafeDiagnostic s in
  let last := rd_last_failure r in
  let quality := rd_quality_failure r in
  if js_reason s =?s "record_persisted" then (diagnostic, no_journal_diagnostic, no_journal_diagnostic)
  else if js_reason s =?s "process_started" then
    (if js_state s =?s "retrying"
     then with_scope "current" (if jd_cause quality =?s "" then journalDiagnostic "recovery_pending" now else quality)
     else if jd_cause last =?s "" then last else with_scope "last_failure" last, last, quality)
  else
    let diagnostic := if jd_cause diagnostic =?s "" then journalDiagnostic (js_reason s) now else diagnostic in
    if QualityDegraded s then (diagnostic, diagnostic, diagnostic)
    else if js_state s =?s "retrying" then (diagnostic, diagnostic, quality)
    else (diagnostic, last, quality).

(** [publish]; the result says whether the degradation, if it is one, was recorded. *)
Definition publish (status : JournalStatus) (s : state) : bool * state :=
  let '(r, w) := s in
  let '(now, w) := clock w in
  let status := status_at now status in
  let '(diagnostic, last, quality) := diagnose now status r in
  let status := setDiagnostic diagnostic status in
  let '(ok, w) := if QualityDegraded status then on_degradation status w else (true, w) in
  (ok, (with_failures last quality r, on_status status w)).

(** [emit], without and with a cause. *)
Definition emit (state reason : string) (since : time) (count : Z) (s : Reader * W) : bool * (Reader * W) :=
  publish (plain_status state reason since count) s.
Definition emit_cause (state reason : string) (since : time) (count : Z) (cause : string) (s : Reader * W)
    : bool * (Reader * W) :=
  let '(r, w) := s in
  let '(now, w) := clock w in
  publish (setDiagnostic (journalDiagnostic cause now) (plain_status state reason since count)) (r, w).

(** The closure that [RunReliable] passes to an attempt. *)
Definition acknowledge_entry (e : JournalEntry) (s : state) : ack * state :=
  let '(r, w) := s in
  match consume e w with
  | (AckFailed, w) => (AckFailed, (r, w))
  | (a, w) =>
      let r := advance e r in
      if bool_decide (a = AckNew) && negb (rd_pending r) && negb (jd_cause (rd_last_failure r) =?s "") && trusted_entry e
      then (a, (emit "running" "record_persisted" (je_received e) 0 (r, w)).2)
      else (a, (r, w))
  end.

(** The variables of an attempt. *)
Record scan := mkScan { sc_backfill : Z; sc_verify : bool; sc_last : string; sc_live : bool }.

(** What a line does: the attempt goes on, past the check of the backfill or not, or it
    ends with an error. *)
Inductive line_end := Next | Skipped | Failed (e : journalAttemptError).

Definition simple_error (reason : string) : journalAttemptError := mkAttemptError reason no_journal_diagnostic.
Definition persist_failed (w : W) : journalAttemptError * W :=
  let '(now, w) := clock w in (journalFailure now "persist_failed" None None, w).

(** A line that cannot be read. *)
Definition damaged (started : time) (s : state) : line_end * state :=
  let '(r, w) := s in
  let '(ok, (r, w)) := emit "gap" "malformed_record" started 1 (with_pending_recovery true r, w) in
  if ok then (Next, (r, w)) else let '(e, w) := persist_failed w in (Failed e, (r, w)).

(** An entry that is not older than [since] and within the limit of the backfill. *)
Definition take_entry (e : JournalEntry) (c : scan) (s : state) : line_end * scan * state :=
  let '(r, w) := s in
  let '(ok, (r, w)) :=
    if trusted_entry e then (true, (r, w))
    else emit_cause "degraded" (je_skip e) (je_received e) 1 (je_cause e) (with_pending_recovery true r, w) in
  if negb ok then let '(err, w) := persist_failed w in (Failed err, c, (r, w))
  else if je_cursor e =?s sc_last c then (Skipped, c, (r, w))
  else
    match acknowledge_entry e (r, w) with
    | (AckFailed, (r, w)) => let '(err, w) := persist_failed w in (Failed err, c, (r, w))
    | (a, (r, w)) =>
        let c := mkScan (sc_backfill c) (sc_verify c) (je_cursor e) (sc_live c) in
        if bool_decide (a = AckNew) && rd_pending r && trusted_entry e
        then (Next, c, (emit "running" "record_persisted" (je_received e) 0 (with_pending_recovery false r, w)).2)
        else (Next, c, (r, w))
    end.

Definition exceeded (c : scan) : bool := negb (sc_live c) && (jo_max options <? sc_backfill c).

(** A decoded entry. *)
Definition entry_step (cursor : string) (since started : time) (e : JournalEntry) (c : scan) (s : state)
    : line_end * scan * state :=
  if sc_verify c then
    if negb (je_cursor e =?s cursor) then (Failed (simple_error "cursor_unavailable"), c, s)
    else (Skipped, mkScan (sc_backfill c - 1) false (sc_last c) (sc_live c), s)
  else
    let c := mkScan (sc_backfill c) false (sc_last c) (sc_live c || negb (before (je_received e) started)) in
    if before (je_received e) since then
      if negb (cursor =?s "") then (Failed (simple_error "backfill_time_limit"), c, s)
      else if exceeded c then (Failed (simple_error "backfill_count_limit"), c, s)
      else (Skipped, c, s)
    else if exceeded c then (Failed (simple_error "backfill_count_limit"), c, s)
    else take_entry e c s.

(** One iteration of the loop of an attempt. *)
Definition line_step (cursor : string) (since started : time) (line : option (list Z)) (c : scan) (s : state)
    : option journalAttemptError * scan * state :=
  let counted := match line with Some [] => false | _ => true end in
  let c := mkScan (sc_backfill c + (if negb (sc_live c) && counted then 1 else 0)) (sc_verify c) (sc_last c) (sc_live c) in
  let '(e, c, s) :=
    match line with
    | None => let '(e, s) := damaged started s in (e, c, s)
    | Some [] => (Next, c, s)
    | Some raw =>
        let '(r, w) := s in
        let '(now, w) := clock w in
        match decode now raw with
        | None => let '(e, s) := damaged started (r, w) in (e, c, s)
        | Some entry => entry_step cursor since started entry c (r, w)
        end
    end in
  match e with
  | Failed e => (Some e, c, s)
  | Skipped => (None, c, s)
  | Next => if exceeded c then (Some (simple_error "backfill_count_limit"), c, s) else (None, c, s)
  end.

Fixpoint read_lines (cursor : string) (since started : time) (lines : list (option (list Z))) (c : scan) (s : state)
    : option journalAttemptError * scan * state :=
  match lines with
  | [] => (None, c, s)
  | line :: lines =>
      match line_step cursor since started line c s with
      | (None, c, s) => read_lines cursor since started lines c s
      | r => r
      end
  end.

(** [runReliableAttempt]; it always ends with an error. *)
Definition runReliableAttempt (cm : child) (cursor : string) (since started : time) (s : state)
    : journalAttemptError * state :=
  match cm_start cm with
  | Some e => let '(now, w) := clock s.2 in (journalFailure now "start_failed" (Some e) None, (s.1, w))
  | None =>
      let s := (emit (if rd_pending s.1 then "retrying" else "running") "process_started" started 0 s).2 in
      match read_lines cursor since started (lines_read (cm_output cm cursor since))
              (mkScan 0 (negb (cursor =?s "")) cursor false) s with
      | (Some e, _, s) => (e, s)
      | (None, _, (r, w)) =>
          let '(now, w) := clock w in
          let stderr := foldl (fun b d => Write d b) empty_stderr (cm_stderr cm) in
          match cm_read cm with
          | Some e => (journalFailure now "read_failed" (Some e) None, (r, w))
          | None =>
              if some (cm_wait cm) && negb (cursor =?s "") && cursorUnavailable stderr
              then (journalFailure now "cursor_unavailable" (cm_wait cm) (Some stderr), (r, w))
              else (journalFailure now "process_exited" (cm_wait cm) (Some stderr), (r, w))
          end
      end
  end.

(** What comes before an attempt: the cursor that may still be used and the time from
    which to read. *)
Definition prepare_attempt (started : time) (s : state) : time * state :=
  let cutoff := time_add started (- jo_window options) in
  let '(r, w) := s in
  let '(r, w) :=
    if negb (rd_cursor r =?s "") && negb (is_zero (rd_acknowledged r)) && before (rd_acknowledged r) cutoff
    then let '(_, (r, w)) := emit "gap" "backfill_time_limit" (rd_acknowledged r) 1 (r, w) in (with_cursor "" r, w)
    else (r, w) in
  let recent := time_add (rd_acknowledged r - rd_acknowledged r mod microsecond) microsecond in
  let since := if (rd_cursor r =?s "") && negb (is_zero (rd_acknowledged r)) && after recent cutoff then recent else cutoff in
  let since := if after (rd_force_since r) since then rd_force_since r else since in
  let s := if (rd_cursor r =?s "") && is_zero (rd_acknowledged r) && is_zero (rd_force_since r)
           then (emit "gap" "backfill_time_limit" cutoff 1 (r, w)).2 else (r, w) in
  (since, (emit "starting" "process_started" started 0 s).2).

(** What follows an attempt: the gap that its error means, the status and the backoff. *)
Definition after_attempt (started : time) (before_cursor : string) (e : journalAttemptError) (s : state) : state :=
  let reason := ja_reason e in
  let s :=
    if (reason =?s "cursor_unavailable") || (reason =?s "backfill_time_limit") then
      let '(_, (r, w)) := emit "gap" reason (rd_acknowledged s.1) 1 s in (with_cursor "" r, w)
    else if reason =?s "backfill_count_limit" then
      let '(_, (r, w)) := emit "gap" reason (rd_acknowledged s.1) 1 s in (with_force started (with_cursor "" r), w)
    else s in
  let '(_, (r, w)) := publish (setDiagnostic (ja_diagnostic e) (plain_status "retrying" reason started 1)) s in
  let '(now, w) := clock w in
  let backoff := if negb (rd_cursor r =?s before_cursor) || (minute <=? time_sub now started) then jo_restart_min options
                 else rd_backoff r in
  (with_backoff (Z.min (backoff * 2) (jo_restart_max options)) r, w).

(** One iteration of the loop of [RunReliable]; the flag says that the loop ends. *)
Definition iteration (cm : child) (s : state) : bool * state :=
  let '(started, w) := clock s.2 in
  let '(since, s) := prepare_attempt started (s.1, w) in
  let cursor := rd_cursor s.1 in
  let '(e, s) := runReliableAttempt cm cursor since started s in
  if cm_cancelled cm then (true, s) else (false, after_attempt started cursor e s).

Fixpoint supervise (children : list child) (s : state) : state :=
  match children with
  | [] => s
  | cm :: children =>
      match iteration cm s with
      | (true, s) => s
      | (false, s) => supervise children s
      end
  end.

(** The variables at the start of [RunReliable]. *)
Definition new_reader (w : W) : state :=
  let '(failure, w) := if jo_pending options then let '(now, w) := clock w in (journalDiagnostic "recovery_pending" now, w)
                       else (no_journal_diagnostic, w) in
  let r := mkReader (jo_cursor options) (jo_observed options) time_zero (jo_pending options) failure failure
             (jo_restart_min options) in
  if negb (jo_cursor options =?s "") && negb (validJournalCursor (jo_cursor options))
  then let '(_, (r, w)) := emit "gap" "invalid_cursor" (jo_observed options) 1 (r, w) in (with_cursor "" r, w)
  else (r, w).
End Reader.

(** [RunReliable] while children are started; [None] when the options are refused. *)
Definition RunReliable {W : Type} decode (consume : JournalEntry -> W -> ack * W) on_degradation on_status clock
    (options : JournalOptions) (children : list child) (w : W) : option (Reader * W) :=
  let options := with_defaults options in
  if options_valid options
  then Some (supervise decode consume on_degradation on_status clock options children
               (new_reader on_degradation on_status clock options w))
  else None.

(** ** What a run says and acknowledges *)

Inductive observed := Acked (e : JournalEntry) (a : ack) | Said (s : JournalStatus).

Section Logged.
Context {W : Type}.
Context (consume : JournalEntry -> W -> ack * W).
Context (on_degradation : JournalStatus -> W -> bool * W) (on_status : JournalStatus -> W -> W).
Context (clock : W -> time * W).

Abbreviation logged := (W * list observed)%type.

(** The consumer and the callbacks with a record of what they were told. *)
Definition logged_consume (e : JournalEntry) (s : logged) : ack * logged :=
  let '(a, w) := consume e s.1 in (a, (w, s.2 ++ [Acked e a])).
Definition logged_degradation (st : JournalStatus) (s : logged) : bool * logged :=
  let '(ok, w) := on_degradation st s.1 in (ok, (w, s.2)).
Definition logged_status (st : JournalStatus) (s : logged) : logged := (on_status st s.1, s.2 ++ [Said st]).
Definition logged_clock (s : logged) : time * logged := let '(now, w) := clock s.1 in (now, (w, s.2)).
End Logged.

Definition recovers (e : JournalEntry) (a : ack) : bool := bool_decide (a = AckNew) && trusted_entry e.

(** Whether a loss is outstanding after a history, when one was before it. *)
Fixpoint outstanding (pending : bool) (l : list observed) : bool :=
  match l with
  | [] => pending
  | Acked e a :: l => outstanding (pending && negb (recovers e a)) l
  | Said s :: l => outstanding (pending || QualityDegraded s) l
  end.

(** No status says that the reader runs while a loss is outstanding. *)
Definition honest (pending : bool) (l : list observed) : Prop :=
  forall h1 s h2, l = h1 ++ Said s :: h2 -> js_state s = "running"%string -> outstanding pending h1 = false.

Lemma outstanding_app p l l' : outstanding p (l ++ l') = outstanding (outstanding p l) l'.
Proof. revert p. induction l as [|[e a|s] l IH]; intros p; simpl; [done|apply IH|apply IH]. Qed.

Lemma honest_snoc p l o :
  honest p l -> (forall s, o = Said s -> js_state s = "running"%string -> outstanding p l = false) -> honest p (l ++ [o]).
Proof.
  intros Hl Ho h1 s h2 E Hs. destruct h2 as [|x h2 _] using rev_ind.
  - apply app_inj_tail in E as [<- ->]. by apply (Ho s).
  - rewrite app_comm_cons, app_assoc in E. apply app_inj_tail in E as [-> _]. by apply (Hl h1 s h2).
Qed.

Section Readiness.
Context {W : Type}.
Context (decode : time -> list Z -> option JournalEntry).
Context (consume0 : JournalEntry -> W -> ack * W).
Context (on_degradation0 : JournalStatus -> W -> bool * W) (on_status0 : JournalStatus -> W -> W).
Context (clock0 : W -> time * W).
Context (options : JournalOptions) (p : bool).

#[local] Abbreviation consume := (logged_consume consume0).
#[local] Abbreviation on_degradation := (logged_degradation on_degradation0).
#[local] Abbreviation on_status := (logged_status on_status0).
#[local] Abbreviation clock := (logged_clock clock0).
#[local] Abbreviation state := (Reader * (W * list observed))%type.

(** A loss that the log tells of is known to the reader. *)
Definition ready_inv (s : state) : Prop :=
  honest p s.2.2 /\ (outstanding p s.2.2 = true -> rd_pending s.1 = true).

Lemma clock_log w : (clock w).2.2 = w.2.
Proof. unfold logged_clock. by destruct (clock0 w.1). Qed.

(** A published status keeps the variables but the diagnostics and is added to the log. *)
Lemma publish_log st s : exists st',
  let s' := (publish on_degradation on_status clock st s).2 in
  s'.2.2 = s.2.2 ++ [Said st'] /\ js_state st' = js_state st /\ js_reason st' = js_reason st
  /\ rd_pending s'.1 = rd_pending s.1 /\ rd_cursor s'.1 = rd_cursor s.1.
Proof.
  destruct s as [r w]. unfold publish. pose proof (clock_log w) as Hc. destruct (clock w) as [now w1]. simpl in Hc.
  destruct (diagnose _ _ _) as [[diagnostic last] quality].
  set (st' := setDiagnostic diagnostic (status_at now st)). exists st'.
  assert (H : (if QualityDegraded st' then on_degradation st' w1 else (true, w1)).2.2 = w1.2).
  { destruct (QualityDegraded st'); [|done]. unfold logged_degradation. by destruct (on_degradation0 st' w1.1). }
  destruct (if QualityDegraded st' then _ else _) as [ok w2]. simpl in H |- *. by rewrite H, Hc.
Qed.

Lemma publish_ready st s :
  ready_inv s -> (QualityDegraded st = true -> rd_pending s.1 = true) ->
  (js_state st = "running"%string -> outstanding p s.2.2 = false) ->
  ready_inv (publish on_degradation on_status clock st s).2
  /\ rd_pending (publish on_degradation on_status clock st s).2.1 = rd_pending s.1.
Proof.
  intros [Hh Hp] Hq Hr. destruct (publish_log st s) as (st' & El & Es & Er & Ep & _).
  split; [|done]. split.
  - rewrite El. apply honest_snoc; [done|]. intros ? [= <-]. by rewrite Es.
  - rewrite El, Ep, outstanding_app. simpl. unfold QualityDegraded in *. rewrite Es, Er.
    intros H. apply orb_true_iff in H as [H|H]; auto.
Qed.

(** Only the outstanding loss of the reader and the log matter. *)
Lemma ready_same r r' w w' : rd_pending r' = rd_pending r -> w'.2 = w.2 -> ready_inv (r, w) -> ready_inv (r', w').
Proof. unfold ready_inv. simpl. by intros -> ->. Qed.

Lemma emit_ready st reason since count s :
  ready_inv s -> (QualityDegraded (plain_status st reason since count) = true -> rd_pending s.1 = true) ->
  (st = "running"%string -> outstanding p s.2.2 = false) ->
  ready_inv (emit on_degradation on_status clock st reason since count s).2
  /\ rd_pending (emit on_degradation on_status clock st reason since count s).2.1 = rd_pending s.1.
Proof. intros. by apply publish_ready. Qed.

(** A status that is neither a loss nor a recovery. *)
Lemma emit_plain st reason since count s :
  ready_inv s -> QualityDegraded (plain_status st reason since count) = false -> st <> "running"%string ->
  ready_inv (emit on_degradation on_status clock st reason since count s).2.
Proof. intros H Hq Hr. apply emit_ready; [done|congruence|done]. Qed.

Lemma acknowledge_ready e s :
  ready_inv s ->
  let '(a, s') := acknowledge_entry consume on_degradation on_status clock e s in
  ready_inv s' /\ rd_pending s'.1 = rd_pending s.1 /\ (recovers e a = true -> outstanding p s'.2.2 = false).
Proof.
  destruct s as [r w]. intros [Hh Hp]. unfold acknowledge_entry, logged_consume.
  destruct (consume0 e w.1) as [a w1].
  assert (Ho : outstanding p (w.2 ++ [Acked e a]) = outstanding p w.2 && negb (recovers e a))
    by (by rewrite outstanding_app).
  assert (Hi : forall r', rd_pending r' = rd_pending r -> ready_inv (r', (w1, w.2 ++ [Acked e a]))).
  { intros r' Er. split; simpl; [by apply honest_snoc|]. rewrite Ho, Er. intros H. bool_to_prop. by apply Hp. }
  assert (Hrec : recovers e a = true -> outstanding p (w.2 ++ [Acked e a]) = false).
  { intros H. by rewrite Ho, H, andb_false_r. }
  destruct a; [|by split; [apply Hi|split]..].
  cbv zeta. destruct (bool_decide _ && _ && _ && _)%bool eqn:E; [|by split; [apply Hi|split]].
  bool_to_prop. assert (Hf : outstanding p (w.2 ++ [Acked e AckNew]) = false).
  { apply Hrec. unfold recovers. by rewrite bool_decide_true. }
  destruct (emit_ready "running" "record_persisted" (je_received e) 0 (advance e r, (w1, w.2 ++ [Acked e AckNew])))
    as [He1 He2]; [by apply Hi|done|done|].
  split; [done|]. split; [done|]. intros _.
  destruct (publish_log (plain_status "running" "record_persisted" (je_received e) 0) (advance e r, (w1, w.2 ++ [Acked e AckNew])))
    as (st' & El & Es & Er & _). unfold emit. rewrite El, outstanding_app. simpl. rewrite Hf.
  unfold QualityDegraded. by rewrite Es.
Qed.

Lemma damaged_ready started s : ready_inv s -> ready_inv (damaged on_degradation on_status clock started s).2.
Proof.
  destruct s as [r w]. intros Hi. unfold damaged.
  destruct (emit_ready "gap" "malformed_record" started 1 (with_pending_recovery true r, w)) as [H _];
    [split; [by destruct Hi|done]|done|done|].
  destruct (emit _ _ _ _ _ _ _ _) as [ok [r' w']]. simpl in H. destruct ok; [done|].
  unfold persist_failed. pose proof (clock_log w') as Hc. destruct (clock w') as [now w'']. by apply (ready_same r' _ w').
Qed.

Lemma persist_ready r w : ready_inv (r, w) -> ready_inv (r, (persist_failed clock w).2).
Proof.
  unfold persist_failed. pose proof (clock_log w) as Hc. destruct (clock w) as [now w']. by apply ready_same.
Qed.

Lemma emit_cause_ready state reason since count cause s :
  ready_inv s -> rd_pending s.1 = true -> state <> "running"%string ->
  ready_inv (emit_cause on_degradation on_status clock state reason since count cause s).2.
Proof.
  destruct s as [r w]. intros Hi Hp Hs. unfold emit_cause. pose proof (clock_log w) as Hc.
  destruct (clock w) as [now w']. apply publish_ready; [by apply (ready_same r _ w)|done|done].
Qed.

Lemma take_entry_ready e c s : ready_inv s -> ready_inv (take_entry consume on_degradation on_status clock e c s).2.
Proof.
  destruct s as [r w]. intros Hi. unfold take_entry.
  set (s1 := if trusted_entry e then _ else _).
  assert (H1 : ready_inv s1.2).
  { unfold s1. destruct (trusted_entry e); [done|]. by apply emit_cause_ready; [split; [by destruct Hi|done]|done|]. }
  destruct s1 as [ok [r1 w1]]. cbn [snd] in H1.
  destruct ok; cbn [negb]; [|pose proof (persist_ready _ _ H1) as H2; revert H2; by destruct (persist_failed clock w1)].
  destruct (je_cursor e =?s sc_last c); [done|].
  pose proof (acknowledge_ready e _ H1) as H2.
  destruct (acknowledge_entry consume on_degradation on_status clock e (r1, w1)) as [a [r2 w2]].
  destruct H2 as (H2 & Hp & Hr). destruct a; [| |pose proof (persist_ready _ _ H2) as H3; revert H3; by destruct (persist_failed clock w2)].
  all: destruct (bool_decide _ && rd_pending r2 && trusted_entry e) eqn:E; [|done].
  all: assert (Hf : outstanding p w2.2 = false) by
    (apply Hr; unfold recovers; by apply andb_true_iff in E as [[-> _]%andb_true_iff ->]).
  all: apply emit_ready; [|done|done]; destruct H2 as [H2 _]; split; [done|]; simpl; intros E'; congruence.
Qed.

Lemma line_step_ready cursor since started line c s :
  ready_inv s -> ready_inv (line_step decode consume on_degradation on_status clock options cursor since started line c s).2.
Proof.
  intros Hi. unfold line_step. set (c1 := mkScan _ _ _ _).
  set (x := match line with None => _ | Some _ => _ end).
  assert (Hx : ready_inv x.2).
  { unfold x. destruct line as [[|b raw]|]; [done| |].
    - destruct s as [r w]. pose proof (clock_log w) as Hc. destruct (clock w) as [now w1].
      assert (H1 : ready_inv (r, w1)) by (by apply (ready_same r _ w)).
      destruct (decode now (b :: raw)) as [e|].
      + unfold entry_step. repeat case_if; try done. by apply take_entry_ready.
      + pose proof (damaged_ready started _ H1) as H2. revert H2. by destruct (damaged _ _ _ _ _).
    - pose proof (damaged_ready started _ Hi) as H2. revert H2. by destruct (damaged _ _ _ _ _). }
  destruct x as [[[| |e] c2] s2]; simpl in Hx |- *; [|done..]. by case_if.
Qed.

Lemma read_lines_ready cursor since started lines : forall c s,
  ready_inv s -> ready_inv (read_lines decode consume on_degradation on_status clock options cursor since started lines c s).2.
Proof.
  induction lines as [|line lines IH]; intros c s Hi; simpl; [done|].
  pose proof (line_step_ready cursor since started line c s Hi) as H1.
  destruct (line_step _ _ _ _ _ _ _ _ _ _ _ _) as [[[e|] c1] s1]; [done|]. by apply IH.
Qed.

Lemma attempt_ready cm cursor since started s :
  ready_inv s -> ready_inv (runReliableAttempt decode consume on_degradation on_status clock options cm cursor since started s).2.
Proof.
  intros Hi. unfold runReliableAttempt. destruct s as [r w]. destruct (cm_start cm) as [e|].
  { simpl. pose proof (clock_log w) as Hc. destruct (clock w) as [now w1]. by apply (ready_same r _ w). }
  cbn [fst]. set (s1 := (emit _ _ _ _ _ _ _ _).2).
  assert (H1 : ready_inv s1).
  { unfold s1. apply emit_ready; [done|by destruct (rd_pending r)|]. destruct Hi as [_ Hp]. simpl in Hp |- *.
    destruct (rd_pending r) eqn:E; [done|]. intros _. destruct (outstanding p w.2); [|done]. by specialize (Hp eq_refl). }
  pose proof (read_lines_ready cursor since started (lines_read (cm_output cm cursor since))
    (mkScan 0 (negb (cursor =?s "")) cursor false) s1 H1) as H2.
  destruct (read_lines _ _ _ _ _ _ _ _ _ _ _ _) as [[[e|] c2] [r2 w2]]; [done|]. simpl in H2.
  pose proof (clock_log w2) as Hc. destruct (clock w2) as [now w3].
  assert (H3 : ready_inv (r2, w3)) by (by apply (ready_same r2 _ w2)).
  destruct (cm_read cm); [done|]. by case_if.
Qed.

Lemma gap_ready reason since count s :
  ready_inv s -> reason <> "malformed_record"%string ->
  ready_inv (emit on_degradation on_status clock "gap" reason since count s).2.
Proof.
  intros Hi Hr. apply emit_plain; [done| |done]. unfold QualityDegraded. simpl.
  by apply String.eqb_neq in Hr as ->.
Qed.

Lemma prepare_ready started s :
  ready_inv s -> ready_inv (prepare_attempt on_degradation on_status clock options started s).2.
Proof.
  intros Hi. unfold prepare_attempt. destruct s as [r w]. cbn [fst snd].
  set (s1 := if negb (rd_cursor r =?s "") && _ && _ then _ else _).
  assert (H1 : ready_inv s1).
  { unfold s1. case_if; [|done].
    pose proof (gap_ready "backfill_time_limit" (rd_acknowledged r) 1 _ Hi ltac:(done)) as H. revert H.
    destruct (emit _ _ _ _ _ _ _ _) as [ok [r1 w1]]. simpl. by apply ready_same. }
  destruct s1 as [r1 w1]. cbn [snd]. apply emit_plain; [|done..]. case_if; [|done]. by apply gap_ready.
Qed.

Lemma after_ready started before_cursor e s :
  ready_inv s -> ready_inv (after_attempt on_degradation on_status clock options started before_cursor e s).
Proof.
  intros Hi.
  assert (Hg : forall (f : Reader -> Reader) reason, (forall r, rd_pending (f r) = rd_pending r) -> reason <> "malformed_record"%string ->
    ready_inv (let '(_, (r, w)) := emit on_degradation on_status clock "gap" reason (rd_acknowledged s.1) 1 s in (f r, w))).
  { intros f reason Hf Hr. pose proof (gap_ready reason (rd_acknowledged s.1) 1 _ Hi Hr) as H. revert H.
    destruct (emit _ _ _ _ _ _ _ _) as [ok [r1 w1]]. by apply (ready_same r1 (f r1) w1 w1 (Hf r1)). }
  unfold after_attempt. set (s1 := if (_ =?s _) || (_ =?s _) then _ else _).
  assert (H1 : ready_inv s1).
  { unfold s1. destruct ((ja_reason e =?s "cursor_unavailable") || _) eqn:E1.
    - apply (Hg (with_cursor "")); [done|]. intros E2. rewrite E2 in E1. done.
    - destruct (ja_reason e =?s "backfill_count_limit") eqn:E2; [|done].
      apply (Hg (fun r => with_force started (with_cursor "" r))); [done|]. intros E3. rewrite E3 in E2. done. }
  destruct (publish_ready (setDiagnostic (ja_diagnostic e) (plain_status "retrying" (ja_reason e) started 1)) s1) as [H2 _];
    [done|done|done|].
  destruct (publish _ _ _ _ _) as [ok [r2 w2]]. simpl in H2. pose proof (clock_log w2) as Hc.
  destruct (clock w2) as [now w3]. by apply (ready_same r2 _ w2).
Qed.

Lemma iteration_ready cm s :
  ready_inv s -> ready_inv (iteration decode consume on_degradation on_status clock options cm s).2.
Proof.
  destruct s as [r w]. intros Hi. unfold iteration. cbn [fst snd]. pose proof (clock_log w) as Hc.
  destruct (clock w) as [started w1].
  assert (H1 : ready_inv (r, w1)) by (by apply (ready_same r _ w)). apply (prepare_ready started) in H1.
  destruct (prepare_attempt _ _ _ _ _ _) as [since s1]. cbn [snd] in H1.
  pose proof (attempt_ready cm (rd_cursor s1.1) since started _ H1) as H2.
  destruct (runReliableAttempt _ _ _ _ _ _ _ _ _ _ _) as [e s2]. cbn [snd] in H2.
  destruct (cm_cancelled cm); [done|]. by apply after_ready.
Qed.

Lemma supervise_ready children : forall s,
  ready_inv s -> ready_inv (supervise decode consume on_degradation on_status clock options children s).
Proof.
  induction children as [|cm children IH]; intros s Hi; simpl; [done|].
  pose proof (iteration_ready cm s Hi) as H. destruct (iteration _ _ _ _ _ _ _ _) as [[|] s1]; [done|]. by apply IH.
Qed.

Lemma new_reader_ready w :
  p = jo_pending options -> w.2 = [] -> ready_inv (new_reader on_degradation on_status clock options w).
Proof.
  intros Hp Hw. unfold new_reader. set (x := if jo_pending options then _ else _).
  assert (Hx : x.2.2 = []).
  { unfold x. destruct (jo_pending options); [|done]. pose proof (clock_log w) as Hc. destruct (clock w). by rewrite <- Hw. }
  destruct x as [failure w1]. set (r := mkReader _ _ _ _ _ _ _).
  assert (Hi : ready_inv (r, w1)).
  { simpl in Hx. split; cbn [fst snd]; rewrite Hx; [intros [|]; done|]. simpl. by rewrite Hp. }
  case_if; [|done]. pose proof (gap_ready "invalid_cursor" (jo_observed options) 1 _ Hi ltac:(done)) as H. revert H.
  destruct (emit _ _ _ _ _ _ _ _) as [ok [r1 w2]]. by apply ready_same.
Qed.
End Readiness.

(** C28. The reader never says that it runs while a loss is outstanding: over any children,
    whatever they print and however they end, every status "running" comes after an
    entry of verified origin that the consumer newly acknowledged since the last loss
    that was reported, or since the start when recovery was pending then. *)
Theorem readiness_honest {W : Type} (decode : time -> list Z -> option JournalEntry)
    (consume : JournalEntry -> W -> ack * W) (on_degradation : JournalStatus -> W -> bool * W)
    (on_status : JournalStatus -> W -> W) (clock : W -> time * W) (options : JournalOptions) (children : list child)
    (w : W) (r : Reader) (w' : W) (log : list observed) :
  RunReliable decode (logged_consume consume) (logged_degradation on_degradation) (logged_status on_status)
    (logged_clock clock) options children (w, []) = Some (r, (w', log)) ->
  honest (jo_pending options) log
  /\ (outstanding (jo_pending options) log = true -> rd_pending r = true).
Proof.
  unfold RunReliable. case_if; [|done]. intros [= Er].
  assert (H := supervise_ready decode consume on_degradation on_status clock (with_defaults options) (jo_pending options) children
    (new_reader (logged_degradation on_degradation) (logged_status on_status) (logged_clock clock) (with_defaults options) (w, []))).
  rewrite Er in H. apply H. by apply new_reader_ready.
Qed.

(** ** A worked example *)

Definition example_fields : journalRecord :=
  mkRecord "" (bytes_of_string "Server listening on 0.0.0.0 port 22.") "" "" "0" "/usr/sbin/sshd" "ssh.service" "" "syslog" false.
Definition example_metadata (raw : list Z) : option (string * string * list Z) :=
  match raw with
  | [c; 10] => Some (string_of_bytes [c], "5"%string, [34; 34])
  | _ => None
  end.
Definition example_decoder : time -> list Z -> option JournalEntry :=
  decodeJournalEntry example_metadata (fun _ => Some (example_fields, [])) (fun _ => None).

(** The second call of the consumer fails. *)
Definition example_consume (e : JournalEntry) (calls : nat) : ack * nat :=
  (if decide (calls = 1%nat) then AckFailed else AckNew, S calls).
Definition example_options : JournalOptions := mkJournalOptions "a" (unix_epoch + 4000) 0 0 0 0 false.
(** The record b, a damaged line and the record c. *)
Definition example_damage : child := mkChild None (fun _ _ => [97; 10; 98; 10; 120; 120; 10; 99; 10]) None None [] false.
Definition damaged_run := RunReliable example_decoder (logged_consume (fun _ n => (AckNew, S n)))
  (logged_degradation (fun _ w => (true, w))) (logged_status (fun _ w => w)) (logged_clock (fun w => (unix_epoch + second, w)))
  example_options [example_damage] (0%nat, []).

(** The states that the log tells of, and the acknowledgements between them. *)
Definition told (l : list observed) : list string :=
  (fun o => match o with Said s => js_state s | Acked e _ => je_cursor e end) <$> l.

Lemma readiness_honest_witness :
  (told ∘ (fun s : Reader * (nat * list observed) => s.2.2)) <$> damaged_run
  = Some ["starting"; "running"; "b"; "gap"; "c"; "running"; "retrying"]%string /\
  exists r w log, damaged_run = Some (r, (w, log)) /\ honest false log /\ (outstanding false log = true -> rd_pending r = true).
Proof.
  split; [vm_compute; reflexivity|].
  destruct damaged_run as [[r [w log]]|] eqn:E; [|exfalso; vm_compute in E; discriminate].
  exists r, w, log. split; [reflexivity|].
  exact (readiness_honest example_decoder (fun _ n => (AckNew, S n)) (fun _ w => (true, w)) (fun _ w => w)
    (fun w => (unix_epoch + second, w)) example_options [example_damage] 0%nat r w log E).
Defined.
