(* ===== verification/JournalOrder.v ===== *)
(** * The reader loses no record silently

    Over the runs of [JournalReader]: as long as no gap is reported, the records that
    the consumer acknowledged are consecutive records of the journal, in its order and
    without repetition, whatever children end and whatever calls of the consumer fail. *)

From S2P Require Export JournalReader.

(** ** Lines of a prefix of the journal *)

Definition journal_line (l : list Z) : Prop :=
  exists body, l = body ++ [10] /\ (10 ∉ body) /\ body <> [] /\ lenZ l <= max_line.

Lemma split_lines_partial t : 10 ∉ t -> split_lines t = ([], t).
Proof.
  induction t as [|b t IH]; intros Ht; [done|]. apply not_elem_of_cons in Ht as [Hb Ht]. simpl.
  rewrite IH by done. by rewrite (proj2 (Z.eqb_neq b 10)) by congruence.
Qed.

Lemma split_lines_line body s : 10 ∉ body ->
  split_lines (body ++ [10] ++ s) = ((body ++ [10]) :: (split_lines s).1, (split_lines s).2).
Proof.
  induction body as [|b body IH]; intros Hb; simpl; [by destruct (split_lines s)|].
  apply not_elem_of_cons in Hb as [Hb Hbody]. simpl in IH. rewrite IH by done.
  by rewrite (proj2 (Z.eqb_neq b 10)) by congruence.
Qed.

(** What follows the whole lines of a prefix: nothing, or the beginning of the next line. *)
Definition cut_line (l : option (list Z)) (t : list Z) : Prop :=
  t = [] \/ exists next, l = Some next /\ t `prefix_of` next.

Lemma split_prefix L : Forall journal_line L -> forall out, out `prefix_of` concat L ->
  exists k, (split_lines out).1 = take k L /\ cut_line (L !! k) (split_lines out).2.
Proof.
  induction 1 as [|l L (body & -> & Hb & Hne & Hlen) HL IH]; intros out Hout.
  - apply prefix_nil_inv in Hout as ->. exists 0%nat. split; [done|by left].
  - destruct Hout as [r E]. cbn [concat] in E. apply app_eq_inv in E as [(k & E & _)|(k & -> & E)].
    + destruct k as [|x k _] using rev_ind.
      * rewrite app_nil_r in E. subst out. exists 1%nat. pose proof (split_lines_line body [] Hb) as Hs.
        cbn [app] in Hs. rewrite Hs. split; [done|by left].
      * rewrite app_assoc in E. apply app_inj_tail in E as [-> _]. apply not_elem_of_app in Hb as [Hb _].
        rewrite split_lines_partial by done. exists 0%nat. split; [done|]. right. eexists. split; [done|].
        exists (k ++ [10]). by rewrite <- app_assoc.
    + destruct (IH k) as (n & E1 & E2); [by exists r|]. exists (S n).
      rewrite <- app_assoc, split_lines_line by done. cbn [fst snd take]. by rewrite E1.
Qed.

(** The length of a line lets it be read. *)
Lemma line_read l t : journal_line l -> t `prefix_of` l -> readJournalLine t = Some t.
Proof.
  intros (body & -> & _ & _ & Hlen) [r E]. unfold readJournalLine.
  replace (max_line <? lenZ t) with false; [done|]. symmetry. apply Z.ltb_ge.
  apply (f_equal length) in E. rewrite (length_app t) in E. unfold lenZ in *. lia.
Qed.

(** ** Growth of the record *)

Definition acknowledged_cursors (l : list observed) : list string :=
  omap (fun o => match o with Acked _ AckFailed | Said _ => None | Acked e _ => Some (je_cursor e) end) l.

(** The cursors of all calls of the consumer, failed or not. *)
Definition called_cursors (l : list observed) : list string :=
  omap (fun o => match o with Acked e _ => Some (je_cursor e) | Said _ => None end) l.

(** The calls with whether they were acknowledged. *)
Definition calls_of (l : list observed) : list (string * bool) :=
  omap (fun o => match o with Acked e a => Some (je_cursor e, negb (bool_decide (a = AckFailed))) | Said _ => None end) l.

Lemma calls_app l l' : calls_of (l ++ l') = calls_of l ++ calls_of l'.
Proof. apply omap_app. Qed.

Lemma calls_said l : Forall (fun o => exists st, o = Said st) l -> calls_of l = [].
Proof. by induction 1 as [|o l (st & ->) Hl IH]. Qed.

Lemma called_calls l : called_cursors l = (calls_of l).*1.
Proof. induction l as [|[e a|st] l IH]; csimpl; [done| |done]. by rewrite IH. Qed.

Definition gapless (l : list observed) : bool :=
  forallb (fun o => match o with Said s => negb (js_state s =?s "gap") | Acked _ _ => true end) l.

Lemma acknowledged_app l l' : acknowledged_cursors (l ++ l') = acknowledged_cursors l ++ acknowledged_cursors l'.
Proof. apply omap_app. Qed.

Lemma said_only l : Forall (fun o => exists st, o = Said st) l -> acknowledged_cursors l = [].
Proof. by induction 1 as [|o l (st & ->) Hl IH]. Qed.

Section Order.
Context {W : Type}.
Context (decode : time -> list Z -> option JournalEntry).
Context (consume0 : JournalEntry -> W -> ack * W).
Context (on_degradation0 : JournalStatus -> W -> bool * W) (on_status0 : JournalStatus -> W -> W).
Context (clock0 : W -> time * W).
Context (options : JournalOptions).

(** The journal: whole lines, whose cursors are known, valid and different; a line that
    is cut short does not become another record. *)
Context (cursor_of : list Z -> option string) (J : list (list Z)).
Context (Hcursor : forall now raw, je_cursor <$> decode now raw = cursor_of raw).
Context (Hvalid : forall raw, cursor_of raw <> Some ""%string).
Context (Hlines : Forall journal_line J).
Context (Hcut : forall l t, l ∈ J -> t `prefix_of` l -> t <> [] -> cursor_of t = None \/ cursor_of t = cursor_of l).
Context (Hdistinct : forall i j l l' c, J !! i = Some l -> J !! j = Some l' -> cursor_of l = Some c ->
  cursor_of l' = Some c -> i = j).

#[local] Abbreviation consume := (logged_consume consume0).
#[local] Abbreviation on_degradation := (logged_degradation on_degradation0).
#[local] Abbreviation on_status := (logged_status on_status0).
#[local] Abbreviation clock := (logged_clock clock0).
#[local] Abbreviation state := (Reader * (W * list observed))%type.

(** Calls of the consumer repeat a record only at once, and none is beyond the record
    that follows position [n], which is called last if it was called. *)
Definition calls_at (n : nat) (calls : list string) : Prop :=
  immediate [] calls = true
  /\ forall c, c ∈ calls -> exists m l, (m <= S n)%nat /\ J !! m = Some l /\ cursor_of l = Some c
       /\ (m = S n -> last calls = Some c).

(** Calls for one record after the other from position [i] on, each repeated until it is
    acknowledged; the last acknowledged is at position [n]. *)
Inductive walk (i : nat) : list (string * bool) -> nat -> Prop :=
| walk_start : walk i [] i
| walk_call calls n l c acked :
    walk i calls n -> J !! S n = Some l -> cursor_of l = Some c ->
    walk i (calls ++ [(c, acked)]) (if acked then S n else n).

(** The reader is at position [n], having acknowledged what follows position [i]. *)
Definition at_position (i n : nat) (s : state) : Prop :=
  (i <= n)%nat
  /\ Some <$> acknowledged_cursors s.2.2 = cursor_of <$> take (n - i) (drop (S i) J)
  /\ (exists l, J !! n = Some l /\ cursor_of l = Some (rd_cursor s.1))
  /\ walk i (calls_of s.2.2) n.

(** A call for the next record. *)
Lemma calls_next n c l calls : calls_at n calls -> J !! S n = Some l -> cursor_of l = Some c -> calls_at n (calls ++ [c]).
Proof.
  intros [Hi Hc] Hl Hlc. split.
  - apply immediate_snoc; [done|]. cbn [app]. intros Hin. destruct (Hc c Hin) as (m & l' & _ & Hm & Hmc & Hlast).
    apply Hlast. exact (Hdistinct _ _ _ _ _ Hm Hl Hmc Hlc).
  - intros c' [Hin| ->%list_elem_of_singleton]%elem_of_app.
    + destruct (Hc c' Hin) as (m & l' & Hm & Hml & Hmc & _). exists m, l'. do 3 (split; [done|]).
      intros ->. rewrite last_snoc. rewrite Hl in Hml. injection Hml as <-. congruence.
    + exists (S n), l. do 3 (split; [done|]). intros _. apply last_snoc.
Qed.

(** When it was acknowledged, the position moves. *)
Lemma calls_moved n calls : calls_at n calls -> calls_at (S n) calls.
Proof.
  intros [Hi Hc]. split; [done|]. intros c Hin. destruct (Hc c Hin) as (m & l & Hm & Hml & Hmc & _).
  exists m, l. split; [lia|]. split; [done|]. split; [done|]. lia.
Qed.

Lemma walk_calls i calls n : walk i calls n -> calls_at n calls.*1.
Proof.
  induction 1 as [|calls n l c acked Hw IH Hl Hc]; [split; [done|by intros c Hc%elem_of_nil]|].
  rewrite fmap_app. pose proof (calls_next _ _ _ _ IH Hl Hc). destruct acked; [by apply calls_moved|done].
Qed.

(** Unless a gap was reported. *)
Definition in_order (i n : nat) (s : state) : Prop := gapless s.2.2 = true -> at_position i n s.

(** The log of [s'] is that of [s] with more. *)
Definition extends (s s' : state) : Prop := exists l, s'.2.2 = s.2.2 ++ l.

#[local] Instance extends_preorder : PreOrder extends.
Proof.
  split; [intros s; exists []; by rewrite app_nil_r|]. intros a b c [l1 E1] [l2 E2]. exists (l1 ++ l2).
  by rewrite E2, E1, app_assoc.
Qed.

Lemma extends_gapless s s' : extends s s' -> gapless s'.2.2 = true -> gapless s.2.2 = true.
Proof. intros [l ->]. unfold gapless. rewrite forallb_app. by intros [? _]%andb_true_iff. Qed.

(** A step that only adds statuses and keeps the cursor. *)
Definition quiet (s s' : state) : Prop :=
  (exists l, s'.2.2 = s.2.2 ++ l /\ Forall (fun o => exists st, o = Said st) l) /\ rd_cursor s'.1 = rd_cursor s.1.

#[local] Instance quiet_preorder : PreOrder quiet.
Proof.
  split; [intros s; split; [exists []; rewrite app_nil_r; by split|done]|].
  intros a b c [(l1 & E1 & H1) C1] [(l2 & E2 & H2) C2]. split; [|by rewrite C2].
  exists (l1 ++ l2). split; [by rewrite E2, E1, app_assoc|by apply Forall_app].
Qed.

Lemma quiet_extends s s' : quiet s s' -> extends s s'.
Proof. intros [(l & E & _) _]. by exists l. Qed.

Lemma quiet_order i n s s' : quiet s s' -> in_order i n s -> in_order i n s'.
Proof.
  intros Hq Hi Hg. destruct (Hi (extends_gapless _ _ (quiet_extends _ _ Hq) Hg)) as (H1 & H2 & H3 & H4).
  destruct Hq as [(l & E & Hl) C]. split; [done|]. rewrite C. split; [|split; [done|]].
  - rewrite E, acknowledged_app, fmap_app, H2. by rewrite (said_only l Hl), app_nil_r.
  - by rewrite E, calls_app, (calls_said l Hl), app_nil_r.
Qed.

Lemma publish_quiet st s : quiet s (publish on_degradation on_status clock st s).2.
Proof.
  destruct (publish_log on_degradation0 on_status0 clock0 st s) as (st' & El & _ & _ & _ & Ec).
  split; [|done]. exists [Said st']. split; [done|]. constructor; [by exists st'|constructor].
Qed.

(** A gap is reported. *)
Lemma publish_gap st s : js_state st = "gap"%string -> gapless (publish on_degradation on_status clock st s).2.2.2 = false.
Proof.
  intros Hs. destruct (publish_log on_degradation0 on_status0 clock0 st s) as (st' & El & Es & _).
  rewrite El. unfold gapless. rewrite forallb_app. simpl. rewrite Es, Hs. simpl. by rewrite andb_false_r.
Qed.

Lemma quiet_same r r' w w' : rd_cursor r' = rd_cursor r -> w'.2 = w.2 -> quiet (r, w) (r', w').
Proof. intros Er Ew. split; [|done]. exists []. simpl. rewrite app_nil_r. by split. Qed.

Lemma emit_quiet st reason since count s : quiet s (emit on_degradation on_status clock st reason since count s).2.
Proof. apply publish_quiet. Qed.

Lemma emit_cause_quiet st reason since count cause s :
  quiet s (emit_cause on_degradation on_status clock st reason since count cause s).2.
Proof.
  destruct s as [r w]. unfold emit_cause. pose proof (clock_log clock0 w) as Hc. destruct (clock w) as [now w'].
  transitivity (r, w'); [by apply quiet_same|]. apply publish_quiet.
Qed.

Lemma persist_quiet r w : quiet (r, w) (r, (persist_failed clock w).2).
Proof.
  unfold persist_failed. pose proof (clock_log clock0 w) as Hc. destruct (clock w) as [now w']. by apply quiet_same.
Qed.

(** A line that cannot be read is a gap. *)
Lemma damaged_gap started s :
  let s' := (damaged on_degradation on_status clock started s).2 in quiet s s' /\ gapless s'.2.2 = false.
Proof.
  destruct s as [r w]. unfold damaged.
  pose proof (emit_quiet "gap" "malformed_record" started 1 (with_pending_recovery true r, w)) as Hq.
  pose proof (publish_gap (plain_status "gap" "malformed_record" started 1) (with_pending_recovery true r, w) eq_refl) as Hg.
  unfold emit in *. destruct (publish _ _ _ _ _) as [ok [r1 w1]]. cbn [snd] in *.
  assert (H : quiet (r, w) (r1, w1)) by (etransitivity; [by apply (quiet_same r (with_pending_recovery true r) w w)|done]).
  destruct ok; [done|]. pose proof (persist_quiet r1 w1) as Hp.
  destruct (persist_failed clock w1) as [e w2]. cbn [snd] in *. split; [by etransitivity|].
  destruct (gapless w2.2) eqn:E; [|done]. apply (extends_gapless (r1, w1) (r1, w2)) in E; [cbn [fst snd] in E; congruence|by apply quiet_extends].
Qed.

(** What an acknowledgement adds to the record. *)
Lemma acknowledge_log e s :
  let '(a, s') := acknowledge_entry consume on_degradation on_status clock e s in
  match a with
  | AckFailed => acknowledged_cursors s'.2.2 = acknowledged_cursors s.2.2 /\ rd_cursor s'.1 = rd_cursor s.1
  | _ => acknowledged_cursors s'.2.2 = acknowledged_cursors s.2.2 ++ [je_cursor e] /\ rd_cursor s'.1 = je_cursor e
  end /\ extends s s' /\ calls_of s'.2.2 = calls_of s.2.2 ++ [(je_cursor e, negb (bool_decide (a = AckFailed)))].
Proof.
  destruct s as [r w]. unfold acknowledge_entry, logged_consume. destruct (consume0 e w.1) as [a w1].
  assert (Hx : forall r', extends (r, w) (r', (w1, w.2 ++ [Acked e a]))) by (intros r'; by exists [Acked e a]).
  assert (Ha : acknowledged_cursors (w.2 ++ [Acked e a])
             = acknowledged_cursors w.2 ++ acknowledged_cursors [Acked e a]) by apply acknowledged_app.
  assert (Hcalls : calls_of (w.2 ++ [Acked e a]) = calls_of w.2 ++ [(je_cursor e, negb (bool_decide (a = AckFailed)))]) by apply calls_app.
  destruct a; [| |simpl in *; rewrite app_nil_r in Ha; done].
  all: cbv zeta; destruct (bool_decide _ && _ && _ && _)%bool; [|done].
  all: match goal with |- context [emit _ _ _ ?st ?re ?si ?co ?s0] =>
         pose proof (emit_quiet st re si co s0) as Hq; destruct (emit on_degradation on_status clock st re si co s0) as [ok s1] end.
  all: cbn [snd] in *; split; [|split; [etransitivity; [apply (Hx (advance e r))|by apply quiet_extends]|]].
  all: destruct Hq as [(l & El & Hl) Ec]; cbn [fst snd] in *.
  all: try (by rewrite El, calls_app, (calls_said l Hl), app_nil_r, Hcalls).
  all: split; [|by rewrite Ec]; by rewrite El, acknowledged_app, (said_only l Hl), app_nil_r, Ha.
Qed.

Lemma extends_order i n s s' : in_order i n s -> extends s s' -> gapless s'.2.2 = true -> at_position i n s.
Proof. intros Hi He Hg. by apply Hi, (extends_gapless s s'). Qed.

Lemma next_position i n s s' c l :
  at_position i n s -> J !! S n = Some l -> cursor_of l = Some c ->
  acknowledged_cursors s'.2.2 = acknowledged_cursors s.2.2 ++ [c] -> rd_cursor s'.1 = c ->
  calls_of s'.2.2 = calls_of s.2.2 ++ [(c, true)] -> at_position i (S n) s'.
Proof.
  intros (Hi & Ha & _ & Hcalls) Hl Hc Ha' Hr Hc'. split; [lia|].
  split; [|split; [exists l; split; [done|by rewrite Hr]|rewrite Hc'; by apply (walk_call i _ n l c true)]].
  rewrite Ha', fmap_app, Ha. replace (S n - i)%nat with (S (n - i))%nat by lia.
  rewrite (take_S_r _ _ l), fmap_app; [csimpl; by rewrite Hc|]. rewrite lookup_drop. by replace (S i + (n - i))%nat with (S n) by lia.
Qed.

Lemma acknowledge_order i n e s l :
  in_order i n s -> J !! S n = Some l -> cursor_of l = Some (je_cursor e) ->
  let '(a, s') := acknowledge_entry consume on_degradation on_status clock e s in
  extends s s' /\
  match a with
  | AckFailed => in_order i n s'
  | _ => in_order i (S n) s' /\ rd_cursor s'.1 = je_cursor e
  end.
Proof.
  intros Hi Hl Hc. pose proof (acknowledge_log e s) as H.
  destruct (acknowledge_entry _ _ _ _ e s) as [a s']. destruct H as (H & He & Hcalls). split; [done|].
  destruct a.
  1, 2: destruct H as [Ha Hr]; split; [|done]; intros Hg; eapply next_position; [by eapply extends_order|done..].
  intros Hg. destruct (extends_order _ _ _ _ Hi He Hg) as (H1 & H2 & H3 & H4). destruct H as [Ha Hr].
  split; [done|]. rewrite Ha. split; [done|]. rewrite Hr, Hcalls. split; [done|]. by apply (walk_call i _ n l _ false).
Qed.

(** The loop of an attempt between two lines, and after the one that ends it. *)
Definition scanning (i n : nat) (c : scan) (s : state) : Prop :=
  in_order i n s /\ sc_verify c = false /\ (gapless s.2.2 = true -> sc_last c = rd_cursor s.1).
Definition after_line (i n : nat) (r : option journalAttemptError * scan * state) : Prop :=
  let '(err, c, s) := r in
  match err with Some _ => exists n', in_order i n' s | None => gapless s.2.2 = true -> scanning i n c s end.

Lemma no_gap_here i n s : gapless s.2.2 = false -> in_order i n s.
Proof. intros H Hg. congruence. Qed.

Lemma take_entry_order i n e c s l :
  scanning i n c s -> J !! S n = Some l -> cursor_of l = Some (je_cursor e) ->
  let '(o, c', s') := take_entry consume on_degradation on_status clock e c s in
  match o with Failed _ => exists n', in_order i n' s' | _ => scanning i (S n) c' s' end.
Proof.
  intros (Hi & Hv & Hlast) Hl Hc. destruct s as [r w]. unfold take_entry.
  set (s1 := if trusted_entry e then _ else _).
  assert (Hq : quiet (r, w) s1.2).
  { unfold s1. destruct (trusted_entry e); [done|]. etransitivity; [|apply emit_cause_quiet]. by apply quiet_same. }
  destruct s1 as [ok [r1 w1]]. cbn [snd] in Hq. pose proof (quiet_order _ _ _ _ Hq Hi) as H1.
  destruct ok; cbn [negb].
  2: { pose proof (quiet_order _ _ _ _ (persist_quiet r1 w1) H1) as H2. destruct (persist_failed clock w1). by exists n. }
  destruct (je_cursor e =?s sc_last c) eqn:El.
  { assert (Hno : gapless w1.2 = true -> False).
    { intros Hg. apply (extends_gapless _ _ (quiet_extends _ _ Hq)) in Hg as Hg0. apply String.eqb_eq in El.
      destruct (Hi Hg0) as (_ & _ & (l0 & Hl0 & Hc0) & _). rewrite <- (Hlast Hg0), <- El in Hc0.
      pose proof (Hdistinct _ _ _ _ _ Hl0 Hl Hc0 Hc). lia. }
    split; [intros Hg; by destruct (Hno Hg)|]. split; [done|]. intros Hg. by destruct (Hno Hg). }
  pose proof (acknowledge_order i n e (r1, w1) l H1 Hl Hc) as H2.
  destruct (acknowledge_entry _ _ _ _ e (r1, w1)) as [a [r2 w2]]. destruct H2 as [He H2]. destruct a.
  1, 2: destruct H2 as [H2 Hr]; cbv zeta; destruct (bool_decide _ && rd_pending r2 && trusted_entry e);
    [|by split; [|split; [|by intros _; rewrite Hr]]].
  1, 2: match goal with |- context [emit _ _ _ ?st ?re ?si ?co ?s0] =>
    pose proof (emit_quiet st re si co s0) as Hq2; destruct (emit on_degradation on_status clock st re si co s0) as [ok2 s3] end;
    cbn [snd] in *; split; [by eapply quiet_order|split; [done|]]; intros _; rewrite (proj2 Hq2); symmetry; exact Hr.
  pose proof (quiet_order _ _ _ _ (persist_quiet r2 w2) H2) as H3. destruct (persist_failed clock w2). by exists n.
Qed.

(** A line that is that of a position, or its beginning. *)
Definition at_line (n : nat) (raw : list Z) : Prop :=
  exists l, J !! n = Some l /\ (cursor_of raw = None \/ cursor_of raw = cursor_of l).

Section Attempt.
Context (cursor : string) (since started : time) (Hne : cursor <> ""%string).

Lemma entry_step_order i n e c s l :
  scanning i n c s -> J !! S n = Some l -> cursor_of l = Some (je_cursor e) ->
  let '(o, c', s') := entry_step consume on_degradation on_status clock options cursor since started e c s in
  match o with Failed _ => exists n', in_order i n' s' | _ => scanning i (S n) c' s' end.
Proof.
  intros (Hi & Hv & Hlast) Hl Hc. unfold entry_step. rewrite Hv. cbv zeta.
  rewrite (proj2 (String.eqb_neq cursor "") Hne). cbn [negb].
  destruct (before (je_received e) since); [by exists n|]. case_if; [by exists n|].
  by apply (take_entry_order i n e _ s l).
Qed.

(** The end of an iteration. *)
Lemma line_checked i n (o : line_end) (c : scan) (s : state) :
  match o with Failed _ => exists n', in_order i n' s | _ => scanning i n c s end ->
  after_line i n match o with
                 | Failed e => (Some e, c, s)
                 | Skipped => (None, c, s)
                 | Next => if exceeded options c then (Some (simple_error "backfill_count_limit"), c, s) else (None, c, s)
                 end.
Proof.
  destruct o as [| |e]; [|by intros H _|done]. intros H. destruct (exceeded options c); [|by intros _]. exists n. by destruct H.
Qed.

Lemma line_checked_weak i n (c : scan) (s : state) :
  (gapless s.2.2 = true -> scanning i n c s) ->
  after_line i n (if exceeded options c then (Some (simple_error "backfill_count_limit"), c, s) else (None, c, s)).
Proof. intros H. case_if; [|done]. exists n. intros Hg. by apply (H Hg). Qed.

Lemma damaged_scanning i n c s :
  sc_verify c = false ->
  let '(o, s') := damaged on_degradation on_status clock started s in
  match o with Failed _ => exists n', in_order i n' s' | _ => scanning i n c s' end.
Proof.
  intros Hv. destruct (damaged_gap started s) as [_ Hg]. destruct (damaged _ _ _ started s) as [o s']. cbn [snd] in Hg.
  assert (H : scanning i n c s') by (split; [by apply no_gap_here|split; [done|congruence]]).
  destruct o; [done|done|]. exists n. by destruct H.
Qed.

Lemma line_step_order i n raw c s :
  scanning i n c s -> raw <> [] -> at_line (S n) raw ->
  after_line i (S n) (line_step decode consume on_degradation on_status clock options cursor since started (Some raw) c s).
Proof.
  intros (Hi & Hv & Hlast) Hraw (l & Hl & Hc). unfold line_step. destruct raw as [|b raw]; [done|].
  set (c1 := mkScan _ _ _ _). destruct s as [r w].
  pose proof (clock_log clock0 w) as Hw. destruct (clock w) as [now w1].
  assert (Hs : scanning i n c1 (r, w1)).
  { split; [by apply (quiet_order i n (r, w)); [apply quiet_same|]|]. split; [done|]. cbn [fst snd] in *. by rewrite Hw. }
  specialize (Hcursor now (b :: raw)). destruct (decode now (b :: raw)) as [e|].
  - cbn [fmap option_fmap option_map] in Hcursor. destruct Hc as [Hc|Hc]; [congruence|].
    pose proof (entry_step_order i n e c1 (r, w1) l Hs Hl) as H. rewrite <- Hc, <- Hcursor in H. specialize (H eq_refl).
    destruct (entry_step _ _ _ _ _ _ _ _ _ _ _) as [[o c2] s2]. by apply line_checked.
  - pose proof (damaged_scanning i (S n) c1 (r, w1) Hv) as H.
    destruct (damaged _ _ _ started (r, w1)) as [o s2]. by apply line_checked.
Qed.

(** The first line is that of some record: it is the acknowledged one, or the attempt
    ends. *)
Lemma boundary_order i n m raw s :
  in_order i n s -> cursor = rd_cursor s.1 -> raw <> [] -> at_line m raw ->
  let '(err, c, s') := line_step decode consume on_degradation on_status clock options cursor since started (Some raw)
    (mkScan 0 true cursor false) s in
  match err with Some _ => in_order i n s' | None => gapless s'.2.2 = true -> scanning i n c s' /\ m = n end.
Proof.
  intros Hi Hcur Hraw (l & Hl & Hc). unfold line_step. destruct raw as [|b raw]; [done|].
  cbn [sc_live sc_backfill sc_verify sc_last]. destruct s as [r w].
  pose proof (clock_log clock0 w) as Hw. destruct (clock w) as [now w1].
  assert (Hs : in_order i n (r, w1)) by (by apply (quiet_order i n (r, w)); [apply quiet_same|]).
  specialize (Hcursor now (b :: raw)). destruct (decode now (b :: raw)) as [e|].
  - unfold entry_step. cbn [sc_verify]. destruct (je_cursor e =?s cursor) eqn:Ee; cbn [negb]; [|done].
    intros Hg. split; [by split|]. destruct (Hs Hg) as (_ & _ & (l' & Hl' & Hc') & _).
    cbn [fmap option_fmap option_map] in Hcursor. destruct Hc as [Hc|Hc]; [congruence|].
    apply String.eqb_eq in Ee. apply (Hdistinct m n l l' (je_cursor e)); [done|done|congruence|].
    rewrite Hc', Ee, Hcur. done.
  - destruct (damaged_gap started (r, w1)) as [_ Hg]. destruct (damaged _ _ _ started (r, w1)) as [o s2]. cbn [snd] in Hg.
    destruct o; cbn; [case_if|..]; try (by apply no_gap_here); intros; congruence.
Qed.

(** Every iteration only adds to the log. *)
Lemma take_entry_extends e c s : extends s (take_entry consume on_degradation on_status clock e c s).2.
Proof.
  destruct s as [r w]. unfold take_entry. set (s1 := if trusted_entry e then _ else _).
  assert (Hq : extends (r, w) s1.2).
  { apply quiet_extends. unfold s1. destruct (trusted_entry e); [done|].
    etransitivity; [|apply emit_cause_quiet]. by apply quiet_same. }
  destruct s1 as [ok [r1 w1]]. cbn [snd] in Hq.
  assert (Hp : forall r2 w2, extends (r, w) (r2, w2) -> extends (r, w) (r2, (persist_failed clock w2).2))
    by (intros r2 w2 H; etransitivity; [exact H|apply quiet_extends, persist_quiet]).
  destruct ok; cbn [negb]; [|specialize (Hp _ _ Hq); revert Hp; by destruct (persist_failed clock w1)].
  case_if; [done|]. pose proof (acknowledge_log e (r1, w1)) as H2.
  destruct (acknowledge_entry _ _ _ _ e (r1, w1)) as [a [r2 w2]]. destruct H2 as (_ & H2 & _).
  assert (H3 : extends (r, w) (r2, w2)) by (by etransitivity).
  destruct a; [| |specialize (Hp _ _ H3); revert Hp; by destruct (persist_failed clock w2)].
  all: destruct (bool_decide _ && rd_pending r2 && trusted_entry e); [|done].
  all: etransitivity; [exact H3|]; apply quiet_extends.
  all: etransitivity; [by apply (quiet_same r2 (with_pending_recovery false r2) w2 w2)|apply emit_quiet].
Qed.

Lemma line_step_extends line c s :
  extends s (line_step decode consume on_degradation on_status clock options cursor since started line c s).2.
Proof.
  unfold line_step. set (c1 := mkScan _ _ _ _). set (x := match line with None => _ | Some _ => _ end).
  assert (Hd : forall s0, extends s0 (let '(e, s1) := damaged on_degradation on_status clock started s0 in (e, c1, s1)).2).
  { intros s0. destruct (damaged_gap started s0) as [Hq%quiet_extends _]. revert Hq. by destruct (damaged _ _ _ _ s0). }
  assert (Hx : extends s x.2).
  { unfold x. destruct line as [[|b raw]|]; [done| |apply Hd].
    destruct s as [r w]. pose proof (clock_log clock0 w) as Hc. destruct (clock w) as [now w1].
    transitivity (r, w1); [by apply quiet_extends, quiet_same|]. destruct (decode now (b :: raw)); [|apply Hd].
    unfold entry_step. repeat case_if; try done. apply take_entry_extends. }
  destruct x as [[[| |e] c2] s2]; [by case_if|done..].
Qed.

(** The lines that a child prints after the acknowledged record. *)
Lemma read_lines_order i lines : forall n c s,
  (gapless s.2.2 = true -> scanning i n c s) ->
  (forall k raw, lines !! k = Some raw -> raw = Some [] /\ S k = length lines
     \/ exists l, raw = Some l /\ l <> [] /\ at_line (S n + k) l) ->
  exists n', in_order i n' (read_lines decode consume on_degradation on_status clock options cursor since started lines c s).2.
Proof.
  induction lines as [|line lines IH]; intros n c s Hs Hl; simpl.
  { exists n. intros Hg. by apply (Hs Hg). }
  pose proof (line_step_extends line c s) as He.
  assert (H : exists m, after_line i m (line_step decode consume on_degradation on_status clock options cursor since started line c s)
     /\ (forall k raw, lines !! k = Some raw -> raw = Some [] /\ S k = length lines
          \/ exists l, raw = Some l /\ l <> [] /\ at_line (S m + k) l)).
  { destruct (Hl 0%nat line eq_refl) as [[-> Hend]|(raw & -> & Hraw & Hat)].
    - exists n. destruct lines as [|? ?]; [|done]. split; [|done]. unfold line_step. rewrite andb_false_r.
      apply line_checked_weak. intros Hg. destruct (Hs Hg) as (Ha & Hb & Hc). split; [exact Ha|]. split; [exact Hb|exact Hc].
    - exists (S n). split; [|intros k raw' Hk].
      2: { destruct (Hl (S k) raw' Hk) as [[-> E]|(l & -> & Hne' & Hat')]; [left; split; [done|simpl in E; lia]|].
           right. exists l. split; [done|]. split; [done|]. by rewrite Nat.add_succ_r in Hat'. }
      destruct (gapless s.2.2) eqn:Hg.
      + rewrite Nat.add_0_r in Hat. apply line_step_order; auto.
      + destruct (line_step _ _ _ _ _ _ _ _ _ _ _ _) as [[err c1] s1]. cbn [snd] in He.
        assert (Hg1 : gapless s1.2.2 = false) by (destruct (gapless s1.2.2) eqn:E; [|done]; by rewrite (extends_gapless _ _ He E) in Hg).
        destruct err; [exists n; by apply no_gap_here|intros; congruence]. }
  destruct H as (m & H & Hl'). destruct (line_step _ _ _ _ _ _ _ _ _ _ _ _) as [[[err|] c1] s1]; [done|].
  by apply (IH m).
Qed.

Lemma read_lines_extends lines : forall c s,
  extends s (read_lines decode consume on_degradation on_status clock options cursor since started lines c s).2.
Proof.
  induction lines as [|line lines IH]; intros c s; simpl; [done|].
  pose proof (line_step_extends line c s) as He.
  destruct (line_step _ _ _ _ _ _ _ _ _ _ _ _) as [[[err|] c1] s1]; [done|]. cbn [snd] in He.
  etransitivity; [exact He|apply IH].
Qed.

End Attempt.

(** The pieces of a line of the journal. *)
Lemma line_nonempty l : l ∈ J -> l <> [].
Proof. intros Hl. rewrite Forall_forall in Hlines. destruct (Hlines l Hl) as (body & -> & _). by destruct body. Qed.

Lemma line_piece n k l t :
  drop n J !! k = Some l -> t `prefix_of` l -> t <> [] -> readJournalLine t = Some t /\ at_line (n + k) t.
Proof.
  intros Hm Hp Ht. rewrite lookup_drop in Hm. assert (Hin : l ∈ J) by (by eapply list_elem_of_lookup_2).
  split; [apply (line_read l); [by rewrite Forall_forall in Hlines; apply Hlines|done]|].
  exists l. split; [done|]. by apply Hcut.
Qed.

(** The lines that a child prints from a record on. *)
Lemma output_lines n out : out `prefix_of` concat (drop n J) ->
  exists ps, lines_read out = Some <$> ps /\ ps <> []
  /\ forall k p, ps !! k = Some p -> p = [] /\ S k = length ps \/ p <> [] /\ at_line (n + k) p.
Proof.
  intros Hout. destruct (split_prefix (drop n J) (Forall_drop _ _ _ Hlines) out Hout) as (k & Ek & Hcutl).
  unfold lines_read. destruct (split_lines out) as [ls t]. cbn [fst snd] in *. subst ls.
  exists (take k (drop n J) ++ [t]). split; [|split; [by destruct (take k (drop n J))|]].
  - rewrite !fmap_app. f_equal.
    + apply list_fmap_ext. intros m l Hm. apply lookup_take_Some in Hm as [Hm _].
      apply (line_piece n m l l Hm); [done|]. apply line_nonempty. rewrite lookup_drop in Hm. by eapply list_elem_of_lookup_2.
    + csimpl. f_equal. destruct Hcutl as [->|(next & Hnext & Hp)]; [done|]. destruct t; [done|].
      by apply (line_piece n k next).
  - intros m p Hm. apply lookup_app_Some in Hm as [Hm|[Hge Hm]].
    + right. apply lookup_take_Some in Hm as [Hm _].
      assert (Hp : p <> []) by (apply line_nonempty; rewrite lookup_drop in Hm; by eapply list_elem_of_lookup_2).
      split; [done|]. by apply (line_piece n m p p).
    + destruct (m - _)%nat as [|?] eqn:E; [|done]. injection Hm as <-. rewrite length_take in *.
      destruct Hcutl as [->|(next & Hnext & Hp)]; [left; split; [done|rewrite length_app, length_take; simpl; lia]|].
      pose proof (lookup_lt_Some _ _ _ Hnext). replace m with k by lia.
      destruct t as [|b t]; [left; split; [done|rewrite length_app, length_take; simpl; lia]|].
      right. split; [done|]. by apply (line_piece n k next).
Qed.

(** A child that prints the journal from some record on, as far as it gets: the record of
    the cursor that it was given, or another one when that record is no longer there. *)
Definition prints_journal (cm : child) : Prop := forall c since,
  exists m, cm_output cm c since `prefix_of` concat (drop m J).

(** The lines that a child prints are read in order. *)
Lemma reading_order i n cm since started s :
  prints_journal cm -> in_order i n s ->
  exists n', in_order i n' (read_lines decode consume on_degradation on_status clock options (rd_cursor s.1) since started
    (lines_read (cm_output cm (rd_cursor s.1) since)) (mkScan 0 (negb (rd_cursor s.1 =?s "")) (rd_cursor s.1) false) s).2.
Proof.
  intros Hcm Hi. destruct (gapless s.2.2) eqn:Hg.
  2: { exists n. intros Hg2. apply (extends_gapless _ _ (read_lines_extends _ _ _ _ _ _)) in Hg2. congruence. }
  destruct (Hi Hg) as (_ & _ & (l & Hl & Hc) & _).
  assert (Hne : rd_cursor s.1 <> ""%string) by (intros E; rewrite E in Hc; by apply Hvalid in Hc).
  rewrite (proj2 (String.eqb_neq _ _) Hne). cbn [negb].
  destruct (Hcm (rd_cursor s.1) since) as (m & Hm). destruct (output_lines m _ Hm) as (ps & -> & Hps & Hat).
  destruct ps as [|p ps]; [done|]. csimpl.
  destruct (Hat 0%nat p eq_refl) as [[-> Hend]|[Hp Hp0]].
  { destruct ps; [|done]. exists n. cbn. case_if; done. }
  rewrite Nat.add_0_r in Hp0. pose proof (boundary_order (rd_cursor s.1) since started i n m p s Hi eq_refl Hp Hp0) as H2.
  destruct (line_step _ _ _ _ _ _ _ _ _ _ _ _) as [[[err|] c1] s2]; [by exists n|].
  destruct (gapless s2.2.2) eqn:Hg2.
  2: { exists n. intros Hg3. apply (extends_gapless _ _ (read_lines_extends _ _ _ _ _ _)) in Hg3. congruence. }
  destruct (H2 eq_refl) as [H3 ->].
  apply (read_lines_order _ _ _ Hne i _ n); [done|]. intros k raw Hk.
  apply list_lookup_fmap_Some in Hk as (q & -> & Hk). rewrite length_fmap.
  destruct (Hat (S k) q Hk) as [[-> E]|[Hq0 Hq1]]; [left; split; [done|simpl in E; lia]|right].
  exists q. split; [done|]. split; [done|]. by rewrite Nat.add_succ_r in Hq1.
Qed.

Lemma clock_quiet r w : quiet (r, w) (r, (clock w).2).
Proof. apply quiet_same; [done|apply clock_log]. Qed.

Lemma attempt_order i n cm since started s :
  prints_journal cm -> in_order i n s ->
  exists n', in_order i n' (runReliableAttempt decode consume on_degradation on_status clock options cm (rd_cursor s.1) since started s).2.
Proof.
  intros Hcm Hi. unfold runReliableAttempt. destruct s as [r w]. cbn [fst snd].
  destruct (cm_start cm) as [e|].
  { exists n. pose proof (quiet_order i n _ _ (clock_quiet r w) Hi) as H. revert H. by destruct (clock w). }
  pose proof (emit_quiet (if rd_pending r then "retrying" else "running") "process_started" started 0 (r, w)) as Hq.
  pose proof (quiet_order _ _ _ _ Hq Hi) as H1. destruct Hq as [_ Hc]. cbn [fst] in Hc.
  set (s1 := (emit _ _ _ _ _ _ _ _).2) in *. rewrite <- Hc.
  destruct (reading_order i n cm since started s1 Hcm H1) as (n' & H2). exists n'.
  destruct (read_lines _ _ _ _ _ _ _ _ _ _ _ _) as [[[e|] c2] [r2 w2]]; [done|]. cbn [snd] in H2.
  pose proof (quiet_order i n' _ _ (clock_quiet r2 w2) H2) as H3. revert H3. destruct (clock w2) as [now w3]. intros H3.
  destruct (cm_read cm); [done|]. by case_if.
Qed.

Lemma gap_order i n reason since count s :
  in_order i n (let '(_, (r, w)) := emit on_degradation on_status clock "gap" reason since count s in (with_cursor "" r, w)).
Proof.
  pose proof (publish_gap (plain_status "gap" reason since count) s eq_refl) as Hg. unfold emit.
  destruct (publish _ _ _ _ _) as [ok [r w]]. by apply no_gap_here.
Qed.

Lemma prepare_order i n started s :
  in_order i n s -> in_order i n (prepare_attempt on_degradation on_status clock options started s).2.
Proof.
  intros Hi. unfold prepare_attempt. destruct s as [r w].
  set (s1 := if negb (rd_cursor r =?s "") && _ && _ then _ else _).
  assert (H1 : in_order i n s1) by (unfold s1; case_if; [apply gap_order|done]).
  destruct s1 as [r1 w1]. cbn [snd]. eapply quiet_order; [apply emit_quiet|]. case_if; [|done].
  eapply quiet_order; [apply emit_quiet|done].
Qed.

Lemma after_order i n started before_cursor e s :
  in_order i n s -> in_order i n (after_attempt on_degradation on_status clock options started before_cursor e s).
Proof.
  intros Hi. unfold after_attempt. set (s1 := if (_ =?s _) || (_ =?s _) then _ else _).
  assert (H1 : in_order i n s1).
  { unfold s1. case_if; [apply gap_order|]. case_if; [|done].
    pose proof (gap_order i n (ja_reason e) (rd_acknowledged s.1) 1 s) as H. revert H.
    destruct (emit _ _ _ _ _ _ _ _) as [ok [r1 w1]]. intros H. eapply quiet_order; [by apply quiet_same|exact H]. }
  pose proof (publish_quiet (setDiagnostic (ja_diagnostic e) (plain_status "retrying" (ja_reason e) started 1)) s1) as Hq.
  pose proof (quiet_order _ _ _ _ Hq H1) as H2. destruct (publish _ _ _ _ _) as [ok [r2 w2]]. cbn [snd] in H2.
  pose proof (quiet_order i n _ _ (clock_quiet r2 w2) H2) as H3. revert H3. destruct (clock w2) as [now w3]. intros H3.
  eapply quiet_order; [by apply (quiet_same r2)|exact H3].
Qed.

Lemma supervise_order i children : forall n s,
  Forall prints_journal children -> in_order i n s ->
  exists n', in_order i n' (supervise decode consume on_degradation on_status clock options children s).
Proof.
  induction children as [|cm children IH]; intros n s Hc Hi; simpl; [by exists n|].
  apply Forall_cons in Hc as [Hcm Hc]. unfold iteration. destruct s as [r w]. cbn [fst snd].
  pose proof (quiet_order i n _ _ (clock_quiet r w) Hi) as H. revert H. destruct (clock w) as [started w1]. intros H1.
  apply (prepare_order i n started) in H1. destruct (prepare_attempt _ _ _ _ _ _) as [since s1]. cbn [snd] in H1.
  destruct (attempt_order i n cm since started s1 Hcm H1) as (n' & H2).
  destruct (runReliableAttempt _ _ _ _ _ _ _ _ _ _ _) as [e s2]. cbn [snd] in H2.
  destruct (cm_cancelled cm); [by exists n'|]. by apply (IH n'), after_order.
Qed.
End Order.

(** The cursor of a line does not depend on the clock, and it is valid. *)
Section Decode.
Context (unmarshal_metadata : list Z -> option (string * string * list Z)).
Context (unmarshal_fields : list Z -> option (journalRecord * list Z)).
Context (unmarshal_string : list Z -> option string).

Lemma decode_cursor now raw :
  je_cursor <$> decodeJournalEntry unmarshal_metadata unmarshal_fields unmarshal_string now raw
  = je_cursor <$> decodeJournalEntry unmarshal_metadata unmarshal_fields unmarshal_string time_zero raw.
Proof.
  unfold decodeJournalEntry. destruct (unmarshal_metadata raw) as [[[cursor received] message]|]; [|done].
  case_if; [done|]. destruct (positive_micro received); [|done]. destruct (UnmarshalJSON _ _ raw) as [r|]; [|done].
  case_if; [done|]. case_if; [done|]. by destruct (ParseSSH now _ _), (ParseSSH time_zero _ _).
Qed.

Lemma decode_valid now raw c :
  je_cursor <$> decodeJournalEntry unmarshal_metadata unmarshal_fields unmarshal_string now raw = Some c ->
  validJournalCursor c = true.
Proof.
  intros H. apply fmap_Some in H as (e & He & ->). by apply decoded_entry in He as [? _].
Qed.
End Decode.

(** A run from a checkpoint at record [i] on. *)
Lemma run_order {W : Type} decode (cursor_of : list Z -> option string)
    (consume : JournalEntry -> W -> ack * W) (on_degradation : JournalStatus -> W -> bool * W)
    (on_status : JournalStatus -> W -> W) (clock : W -> time * W) (options : JournalOptions) (children : list child)
    (J : list (list Z)) (i : nat) (start : list Z) (w : W) (r : Reader) (w' : W) (log : list observed) :
  (forall now raw, je_cursor <$> decode now raw = cursor_of raw) ->
  (forall raw c, cursor_of raw = Some c -> validJournalCursor c = true) ->
  Forall journal_line J ->
  (forall l t, l ∈ J -> t `prefix_of` l -> t <> [] -> cursor_of t = None \/ cursor_of t = cursor_of l) ->
  (forall i j l l' c, J !! i = Some l -> J !! j = Some l' -> cursor_of l = Some c -> cursor_of l' = Some c -> i = j) ->
  Forall (prints_journal J) children ->
  J !! i = Some start -> cursor_of start = Some (jo_cursor options) ->
  RunReliable decode (logged_consume consume) (logged_degradation on_degradation) (logged_status on_status)
    (logged_clock clock) options children (w, []) = Some (r, (w', log)) ->
  gapless log = true ->
  exists n, at_position cursor_of J i n (r, (w', log)).
Proof.
  intros Hcursor Hvalid HJ Hcut Hdist Hch Hstart Hcur. unfold RunReliable. case_if; [|done]. intros [= Er] Hg.
  assert (Hsome : forall raw, cursor_of raw <> Some ""%string) by (intros raw Hraw; by apply Hvalid in Hraw).
  assert (Hfirst : in_order cursor_of J i i (new_reader (logged_degradation on_degradation) (logged_status on_status)
                     (logged_clock clock) (with_defaults options) (w, []))).
  { pose proof (Hvalid _ _ Hcur) as Hv.
    unfold new_reader. cbn [jo_pending jo_cursor with_defaults]. rewrite Hv, andb_false_r.
    assert (Hr : forall f w1, w1.2 = [] -> in_order (W := W) cursor_of J i i (mkReader (jo_cursor options) (jo_observed options)
      time_zero (jo_pending options) f f (jo_restart_min (with_defaults options)), w1)).
    { intros f w1 Hw1 _. split; [lia|]. rewrite Nat.sub_diag. cbn [fst snd]. rewrite Hw1. split; [done|].
      split; [by exists start|]. apply walk_start. }
    destruct (jo_pending options); [|by apply Hr]. unfold logged_clock. cbn [fst]. destruct (clock w). by apply Hr. }
  destruct (supervise_order decode consume on_degradation on_status clock (with_defaults options) cursor_of J
    Hcursor Hsome HJ Hcut Hdist i children i _ Hch Hfirst) as (n & Hn).
  rewrite Er in Hn. exists n. by apply Hn.
Qed.

(** C29. As long as no gap is reported, nothing is lost, repeated or reordered between the
    journal and the consumer: from a checkpoint at record [i] on, over any children that
    print the journal from some record on, be it that of the cursor they are given or
    not (as far as they get, even within a line), whatever calls of the consumer or of the store fail, the acknowledged entries
    are the records that follow, one after the other, and the cursor from which the next
    child reads is that of the last one.  A record is delivered twice only when the second
    delivery follows the first at once. *)
Theorem journal_order {W : Type} unmarshal_metadata unmarshal_fields unmarshal_string
    (consume : JournalEntry -> W -> ack * W) (on_degradation : JournalStatus -> W -> bool * W)
    (on_status : JournalStatus -> W -> W) (clock : W -> time * W) (options : JournalOptions) (children : list child)
    (J : list (list Z)) (i : nat) (start : list Z) (w : W) (r : Reader) (w' : W) (log : list observed) :
  let decode := decodeJournalEntry unmarshal_metadata unmarshal_fields unmarshal_string in
  let cursor_of raw := je_cursor <$> decode time_zero raw in
  Forall journal_line J ->
  (forall l t, l ∈ J -> t `prefix_of` l -> t <> [] -> cursor_of t = None \/ cursor_of t = cursor_of l) ->
  (forall i j l l' c, J !! i = Some l -> J !! j = Some l' -> cursor_of l = Some c -> cursor_of l' = Some c -> i = j) ->
  Forall (prints_journal J) children ->
  J !! i = Some start -> cursor_of start = Some (jo_cursor options) ->
  RunReliable decode (logged_consume consume) (logged_degradation on_degradation) (logged_status on_status)
    (logged_clock clock) options children (w, []) = Some (r, (w', log)) ->
  gapless log = true ->
  exists n, (i <= n)%nat
    /\ Some <$> acknowledged_cursors log = cursor_of <$> take (n - i) (drop (S i) J)
    /\ (exists l, J !! n = Some l /\ cursor_of l = Some (rd_cursor r))
    /\ immediate [] (called_cursors log) = true.
Proof.
  intros decode cursor_of HJ Hcut Hdist Hch Hstart Hcur Hrun Hg.
  destruct (run_order decode cursor_of consume on_degradation on_status clock options children J i start w r w' log
    (decode_cursor _ _ _) (decode_valid _ _ _ time_zero) HJ Hcut Hdist Hch Hstart Hcur Hrun Hg) as (n & H1 & H2 & H3 & H4).
  exists n. split; [done|]. split; [done|]. split; [done|]. rewrite called_calls.
  apply (walk_calls cursor_of J Hdist i _ n H4).
Qed.

(** ** A worked example *)

(** Records a, b, c, d; the first child prints half of the record d, the second all. *)
Definition example_journal : list (list Z) := [[97; 10]; [98; 10]; [99; 10]; [100; 10]].
Definition rest_of (c : string) : list Z :=
  if c =?s "a" then [97; 10; 98; 10; 99; 10] else if c =?s "b" then [98; 10; 99; 10; 100; 10]
  else if c =?s "c" then [99; 10; 100; 10] else if c =?s "d" then [100; 10] else [].
Definition example_child : child := mkChild None (fun c _ => rest_of c) None None [] false.

Definition example_run := RunReliable example_decoder (logged_consume example_consume)
  (logged_degradation (fun _ w => (true, w))) (logged_status (fun _ w => w)) (logged_clock (fun w => (unix_epoch + second, w)))
  example_options [example_child; example_child] (0%nat, []).
Definition example_log : list observed := from_option (fun s => s.2.2) [] example_run.
Definition example_reader : option Reader := fst <$> example_run.

Lemma example_prints : prints_journal example_journal example_child.
Proof.
  intros c since. simpl. unfold rest_of.
  destruct (c =?s "a"); [|destruct (c =?s "b"); [|destruct (c =?s "c"); [|destruct (c =?s "d")]]];
    [exists 0%nat|exists 1%nat|exists 2%nat|exists 3%nat|exists 4%nat]; apply (bool_decide_unpack _); vm_compute; exact I.
Qed.

Definition example_cursor (raw : list Z) : option string := je_cursor <$> example_decoder time_zero raw.

Lemma example_cut l t : l ∈ example_journal -> t `prefix_of` l -> t <> [] ->
  example_cursor t = None \/ example_cursor t = example_cursor l.
Proof.
  intros Hl [k Ek] Ht. destruct t as [|b [|b' t]]; [by destruct Ht|left; reflexivity|right].
  unfold example_journal in Hl.
  repeat (apply elem_of_cons in Hl as [Hl|Hl]); [..|by apply not_elem_of_nil in Hl]; rewrite Hl in Ek |- *;
    injection Ek as Eb Eb' Et; rewrite <- Eb, <- Eb'; symmetry in Et; apply app_nil in Et as [-> _]; reflexivity.
Qed.

Lemma example_distinct n m l l' c : example_journal !! n = Some l -> example_journal !! m = Some l' ->
  example_cursor l = Some c -> example_cursor l' = Some c -> n = m.
Proof.
  intros Hl Hl' Hc Hc'.
  destruct n as [|[|[|[|n]]]]; simpl in Hl; try discriminate; injection Hl as <-; vm_compute in Hc; injection Hc as <-;
    destruct m as [|[|[|[|m]]]]; simpl in Hl'; try discriminate; injection Hl' as <-; vm_compute in Hc';
    reflexivity || discriminate.
Qed.

Lemma journal_order_witness :
  acknowledged_cursors example_log = ["b"; "c"; "d"]%string /\
  exists r w log, example_run = Some (r, (w, log)) /\ gapless log = true /\
  exists n, (0 <= n)%nat
    /\ Some <$> acknowledged_cursors log = (fun raw => je_cursor <$> example_decoder time_zero raw) <$> take (n - 0) (drop 1 example_journal)
    /\ (exists l, example_journal !! n = Some l /\ je_cursor <$> example_decoder time_zero l = Some (rd_cursor r))
    /\ immediate [] (called_cursors log) = true.
Proof.
  split; [vm_compute; reflexivity|].
  destruct example_run as [[r [w log]]|] eqn:E; [|exfalso; vm_compute in E; discriminate].
  exists r, w, log. split; [reflexivity|].
  assert (Hg : gapless log = true).
  { assert (H : option_map (fun s => gapless s.2.2) example_run = Some true) by (vm_compute; reflexivity).
    rewrite E in H. by injection H. }
  split; [exact Hg|].
  apply (journal_order example_metadata (fun _ => Some (example_fields, [])) (fun _ => None) example_consume
    (fun _ w => (true, w)) (fun _ w => w) (fun w => (unix_epoch + second, w)) example_options [example_child; example_child]
    example_journal 0 [97; 10] 0%nat r w log).
  - repeat first [apply Forall_nil_2|apply Forall_cons_2]; [exists [97]|exists [98]|exists [99]|exists [100]];
      (split; [reflexivity|split; [apply (bool_decide_unpack _); vm_compute; exact I|split; [discriminate|vm_compute; discriminate]]]).
  - exact example_cut.
  - exact example_distinct.
  - repeat apply Forall_cons_2; [exact example_prints..|apply Forall_nil_2].
  - reflexivity.
  - vm_compute; reflexivity.
  - exact E.
  - exact Hg.
Defined.
