(* ===== verification/Integrity.v ===== *)
(** * What the store can tell of a period

    [internal/store/integrity.go] and the reading of [retention.go]: the intervals of
    the components' states are swept into segments without overlap, with the time spent
    in each state and the time of conflicting evidence; the gaps, the hours with losses
    and the removals of the period come with them.  Instants of rows are milliseconds. *)

From S2P Require Export Coverage Hourly.

Definition maxIntegrityComponents : Z := 128.
Definition maxIntegritySegments : Z := 2 * maxCoverageIntervals + 2 * maxIntegrityComponents.

(** ** Queries *)

(** [api.ValidTimeRange]; the offsets are those of the locations of the two instants. *)
Definition ValidTimeRange (start stop : time) (start_off stop_off : Z) (days : Z) : bool :=
  negb (is_zero start) && (unix_epoch <=? start + start_off * second) && (stop + stop_off * second <? year_10000)
  && before start stop && (time_sub stop start <=? days * 24 * hour).
Definition ValidLimit (n : Z) : bool := (1 <=? n) && (n <=? 100).

Record IntegrityQuery := mkIntegrityQuery {
  iq_start : time; iq_end : time; iq_start_off : Z; iq_end_off : Z; iq_limit : Z; iq_offset : Z }.

Definition IntegrityQuery_Validate (q : IntegrityQuery) : bool :=
  ValidTimeRange (iq_start q) (iq_end q) (iq_start_off q) (iq_end_off q) 400 && ValidLimit (iq_limit q)
  && (0 <=? iq_offset q) && (iq_offset q <=? maxIntegritySegments).

(** ** Segments *)

Record coverageEdge := mkEdge { ce_at : Z; ce_state : string; ce_delta : Z }.

Record IntegritySegment := mkSegment {
  sg_name : string; sg_state : string; sg_start : Z; sg_end : Z; sg_conflict : bool }.

Record IntegrityComponent := mkComponent {
  ic_name : string; ic_running : Z; ic_degraded : Z; ic_disabled : Z; ic_unknown : Z; ic_conflict : Z }.

(** The states with a positive count. *)
Definition active_states (active : gmap string Z) : list string :=
  (filter (fun kv : string * Z => 0 < kv.2) (map_to_list active)).*1.

(** The state that a set of active states stands for, and whether they conflict. *)
Definition verdict (states : list string) : string * bool :=
  match states with
  | [] => ("unknown"%string, false)
  | [s] => (s, false)
  | _ => ("unknown"%string, true)
  end.

Definition add_time (state : string) (conflict : bool) (ms : Z) (c : IntegrityComponent) : IntegrityComponent :=
  let plus b n := if (b : bool) then n + ms else n in
  let running := state =?s "running" in
  let degraded := state =?s "degraded" in
  let disabled := state =?s "disabled" in
  mkComponent (ic_name c) (plus running (ic_running c)) (plus degraded (ic_degraded c)) (plus disabled (ic_disabled c))
    (plus (negb (running || degraded || disabled)) (ic_unknown c)) (plus conflict (ic_conflict c)).

(** The closure [appendSegment]; the segments are kept newest first. *)
Definition appendSegment (name : string) (active : gmap string Z) (from to : Z)
    (s : list IntegritySegment * IntegrityComponent) : list IntegritySegment * IntegrityComponent :=
  if to <=? from then s
  else
    let '(state, conflict) := verdict (active_states active) in
    let totals := add_time state conflict (to - from) s.2 in
    match s.1 with
    | last :: rest =>
        if (sg_state last =?s state) && Bool.eqb (sg_conflict last) conflict && (sg_end last =? from)
        then (mkSegment (sg_name last) (sg_state last) (sg_start last) to (sg_conflict last) :: rest, totals)
        else (mkSegment name state from to conflict :: s.1, totals)
    | [] => ([mkSegment name state from to conflict], totals)
    end.

(** [active[edge.state] += edge.delta]. *)
Definition apply_edge (e : coverageEdge) (active : gmap string Z) : gmap string Z :=
  <[ce_state e := default 0 (active !! ce_state e) + ce_delta e]> active.

(** The loop over the sorted edges; a range between edges of one instant is empty. *)
Fixpoint sweep (name : string) (edges : list coverageEdge) (active : gmap string Z) (previous stop : Z)
    (s : list IntegritySegment * IntegrityComponent) : list IntegritySegment * IntegrityComponent :=
  match edges with
  | [] => appendSegment name active previous stop s
  | e :: edges => sweep name edges (apply_edge e active) (ce_at e) stop (appendSegment name active previous (ce_at e) s)
  end.

(** [integritySegments]; [o] is what the unstable sort makes of edges of one instant. *)
Definition integritySegments (o : map_order) (name : string) (edges : list coverageEdge) (start stop : Z)
    : list IntegritySegment * IntegrityComponent :=
  let '(segments, totals) :=
    sweep name (sort_by (fun a b => ce_at a <? ce_at b) (iterate o edges)) ∅ start stop
      ([], mkComponent name 0 0 0 0 0) in
  (rev segments, totals).

(** ** Intervals *)

Record edge_table := mkEdges { eg_edges : gmap string (list coverageEdge); eg_truncated : bool }.

Definition known_components : list string := ["sensor_feed"; "ssh_journal"; "interface_counter"]%string.
Definition no_edges : edge_table := mkEdges (list_to_map ((fun n => (n, [])) <$> known_components)) false.

(** A row: its name, state, start and end within the period. *)
Definition add_interval (start stop as_of : Z) (t : edge_table) (row : string * string * Z * Z) : edge_table :=
  let '(name, state, from, to) := row in
  if (64 <? string_len name) || (name =?s "") then mkEdges (eg_edges t) true
  else if negb (some (eg_edges t !! name)) && (maxIntegrityComponents <=? Z.of_nat (size (eg_edges t)))
  then mkEdges (eg_edges t) true
  else
    let from := Z.max from start in
    let to := Z.min (Z.min to stop) as_of in
    if to <=? from then t
    else
      let known := one_of ["running"; "degraded"; "disabled"; "unknown"]%string state in
      let state := if known then state else "unknown"%string in
      mkEdges (<[name := default [] (eg_edges t !! name) ++ [mkEdge from state 1; mkEdge to state (-1)]]> (eg_edges t))
        (eg_truncated t || negb known).

Definition interval_row (d : CoverageDB) (iv : interval) : string * string * Z * Z :=
  (iv_name iv, iv_state iv, iv_start iv, stop_of d iv).

(** The rows of the query, of which one beyond the limit ends the loop. *)
Definition period_edges (d : CoverageDB) (start stop as_of : Z) : edge_table :=
  let rows := filter (fun iv => iv_start iv < stop /\ start < stop_of d iv) (cv_intervals d) in
  let t := foldl (add_interval start stop as_of) no_edges (interval_row d <$> take (Z.to_nat maxCoverageIntervals) rows) in
  mkEdges (eg_edges t) (eg_truncated t || (maxCoverageIntervals <? lenZ rows)).

(** The segments and totals of all components, in the order of their names. *)
Definition component_segments (o : map_order) (t : edge_table) (start stop : Z)
    : list (list IntegritySegment * IntegrityComponent) :=
  (fun row => integritySegments o row.1 row.2 start stop)
    <$> sort_by (fun a b => string_lt a.1 b.1) (entries o (eg_edges t)).

Definition segment_key (s : IntegritySegment) : Z * (string * Z) := (sg_start s, (sg_name s, sg_end s)).
Definition segment_lt (a b : IntegritySegment) : bool := lex Z.ltb (lex string_lt Z.ltb) (segment_key a) (segment_key b).

(** ** Gaps and losses *)

Definition period_gaps (start stop : Z) (l : gaps) : list gap * bool :=
  let rows := sort_by (fun a b => lex Z.ltb Z.ltb (g_start a.2, a.1) (g_start b.2, b.1))
    (filter (fun row => g_start row.2 < stop
                        /\ (start < g_end row.2 \/ (g_start row.2 = g_end row.2 /\ start <= g_start row.2))) l) in
  (take 100 rows.*2, 100 <? lenZ rows).

(** A column read into a [uint64]. *)
Definition scan_uint (c : column) : option Z :=
  match c with CInt z => if 0 <=? z then Some z else None | CReal => None end.

Definition column_positive (c : column) : bool := match c with CInt z => 0 <? z | CReal => true end.

(** The loss columns: the counters of the health without the captured packets and bytes. *)
Record IntegrityLoss := mkLoss { il_hour : Z; il_counters : list Z; il_saturations : Z }.

Definition read_loss (columns : health_row -> list column) (row : Z * health_row) : option IntegrityLoss :=
  match mapM scan_uint (columns row.2), scan_uint (hr_saturations row.2) with
  | Some counters, Some saturations => Some (mkLoss row.1 counters saturations)
  | _, _ => None
  end.

(** All but the captured packets. *)
Definition loss_columns (row : health_row) : list column :=
  omap (fun n => hr_counters row !! n) [1; 0; 2; 4; 5; 6; 7; 8]%nat.

(** The hours that overlap the period; [None] when a column does not fit. *)
Definition period_losses (start stop : time) (rows : gmap Z health_row) : option (list IntegrityLoss * bool) :=
  let first := hour_unix start in
  let last := hour_unix stop + (if before (stop - stop mod hour) stop then 3600 else 0) in
  let rows := sort_by (fun a b => a.1 <? b.1)
    (filter (fun row : Z * health_row => first <= row.1 < last
       /\ existsb column_positive (hr_saturations row.2 :: loss_columns row.2) = true) (map_to_list rows)) in
  match mapM (read_loss loss_columns) (take 101 rows) with
  | None => None
  | Some losses => Some (take 100 losses, 100 <? lenZ losses)
  end.

(** ** Removals *)

Definition maxRetentionEntries : Z := 1024.

Record RetentionQuery := mkRetentionQuery {
  rq_start : time; rq_end : time; rq_start_off : Z; rq_end_off : Z;
  rq_dataset : string; rq_reason : string; rq_before : Z; rq_limit : Z }.

Definition RetentionQuery_Validate (q : RetentionQuery) : bool :=
  ValidTimeRange (rq_start q) (rq_end q) (rq_start_off q) (rq_end_off q) 400 && ValidLimit (rq_limit q)
  && (0 <=? rq_before q) && ((rq_dataset q =?s "") || ValidRetentionDataset (rq_dataset q))
  && ((rq_reason q =?s "") || ValidRetentionReason (rq_reason q)).

Definition retentionSurvivor (dataset reason : string) : string :=
  if reason =?s "silence_body_discard" then "notification_outcome_preserved"
  else if (reason =?s "cardinality_compaction") || ((dataset =?s "auth_hourly") && (reason =?s "storage_pressure"))
  then "totals_preserved"
  else if dataset =?s "notification_outbox" then "event_decisions_have_separate_retention"
  else "none_guaranteed".

(** An entry or a total; totals have neither a number nor a day. *)
Record removed := mkRemoved {
  rv_id : Z; rv_dataset : string; rv_reason : string; rv_day : Z; rv_entry : entry; rv_survives : string }.

Record RetentionView := mkRetentionView {
  rt_tracking : Z; rt_entries : list removed; rt_totals : list removed; rt_more : bool; rt_next : Z; rt_evicted : Z }.

Definition matches (filter_by value : string) : bool := (filter_by =?s "") || (filter_by =?s value).

Definition entry_ok (dataset reason : string) (e : entry) : bool :=
  ValidRetentionDataset dataset && ValidRetentionReason reason && (1 <=? le_operations e) && (1 <=? le_rows e)
  && (le_start e <=? le_end e) && (le_first e <=? le_last e).

(** Whether removed rows overlap the period; those at a point count at its start. *)
Definition removed_in (start stop : Z) (dataset : string) (e : entry) : bool :=
  (le_start e <? stop)
  && ((start <? le_end e)
      || ((le_end e =? start)
          && (one_of ["events"; "notification_outbox"; "coverage_gaps"; "coverage_intervals"]%string dataset
              || (le_start e =? le_end e)))).

(** [readRetentionDetails]: [tracking] is the start of the tracking in [retention_meta]. *)
Definition readRetentionDetails (q : RetentionQuery) (tracking : option Z) (r : Retention) : option RetentionView :=
  if negb (RetentionQuery_Validate q) then None
  else
    match tracking with
    | None => None
    | Some tracking =>
        let rows := filter (fun row => let '(id, (dataset, reason, _), e) := row in
            removed_in (unix_milli (rq_start q)) (unix_milli (rq_end q)) dataset e = true
            /\ matches (rq_dataset q) dataset = true /\ matches (rq_reason q) reason = true
            /\ (rq_before q = 0 \/ id < rq_before q)) (rev (rn_ledger r)) in
        let rows := take (Z.to_nat (rq_limit q + 1)) rows in
        if negb (forallb (fun row => let '(id, (dataset, reason, _), e) := row in (1 <=? id) && entry_ok dataset reason e) rows)
        then None
        else
          let entries := (fun row => let '(id, (dataset, reason, day), e) := row in
            mkRemoved id dataset reason day e (retentionSurvivor dataset reason)) <$> take (Z.to_nat (rq_limit q)) rows in
          let more := rq_limit q <? lenZ rows in
          let totals := take 56 (filter (fun row => matches (rq_dataset q) row.1.1 = true /\ matches (rq_reason q) row.1.2 = true)
            (sort_by (fun a b => lex string_lt string_lt a.1 b.1) (map_to_list (rn_totals r)))) in
          if (55 <? lenZ totals) || negb (forallb (fun row => entry_ok row.1.1 row.1.2 row.2) totals) then None
          else
            Some (mkRetentionView tracking entries
                    ((fun row => mkRemoved 0 row.1.1 row.1.2 0 row.2 (retentionSurvivor row.1.1 row.1.2)) <$> totals)
                    more (if more then from_option rv_id 0 (last entries) else 0) (rn_evicted r))
    end.

(** ** The view *)

Record IntegrityView := mkIntegrityView {
  vw_retention : option RetentionView;
  vw_as_of : time;
  vw_components : list IntegrityComponent;
  vw_segments : list IntegritySegment;
  vw_more : bool;
  vw_next : Z;
  vw_truncated : bool;
  vw_gaps : list gap;
  vw_gaps_truncated : bool;
  vw_losses : list IntegrityLoss;
  vw_losses_truncated : bool }.

(** The tables that a view reads. *)
Record evidence_tables := mkEvidence {
  et_coverage : CoverageDB;
  et_gaps : gaps;
  et_health : gmap Z health_row;
  et_retention : Retention;
  et_tracking : option Z }.

(** [readIntegrityCore]. *)
Definition readIntegrityCore (o : map_order) (q : IntegrityQuery) (asOf : time) (t : evidence_tables) : option IntegrityView :=
  if negb (IntegrityQuery_Validate q) then None
  else
    let start := unix_milli (iq_start q) in
    let stop := unix_milli (iq_end q) in
    let edges := period_edges (et_coverage t) start stop (unix_milli asOf) in
    let parts := component_segments o edges start stop in
    let all := sort_by segment_lt (concat parts.*1) in
    let page := take (Z.to_nat (iq_limit q)) (drop (Z.to_nat (iq_offset q)) all) in
    let shown := Z.min (lenZ all) (iq_offset q + iq_limit q) in
    let more := (iq_offset q <? lenZ all) && (shown <? lenZ all) in
    let '(gaps, gaps_truncated) := period_gaps start stop (et_gaps t) in
    match period_losses (iq_start q) (iq_end q) (et_health t) with
    | None => None
    | Some (losses, losses_truncated) =>
        Some (mkIntegrityView None asOf parts.*2 page more (if more then shown else 0) (eg_truncated edges)
                gaps gaps_truncated losses losses_truncated)
    end.

Definition put_retention (r : RetentionView) (v : IntegrityView) : IntegrityView :=
  mkIntegrityView (Some r) (vw_as_of v) (vw_components v) (vw_segments v) (vw_more v) (vw_next v) (vw_truncated v)
    (vw_gaps v) (vw_gaps_truncated v) (vw_losses v) (vw_losses_truncated v).

(** [readIntegrity]. *)
Definition readIntegrity (o : map_order) (q : IntegrityQuery) (asOf : time) (t : evidence_tables) : option IntegrityView :=
  match readIntegrityCore o q asOf t with
  | None => None
  | Some view =>
      match readRetentionDetails (mkRetentionQuery (iq_start q) (iq_end q) (iq_start_off q) (iq_end_off q) "" "" 0 20)
              (et_tracking t) (et_retention t) with
      | None => None
      | Some retention => Some (put_retention retention view)
      end
  end.

(** ** The sweep *)

(** The milliseconds of a range at which something holds. *)
Definition ms_where (P : Z -> bool) (a b : Z) : Z := sumZ ((fun t => if P t then 1 else 0) <$> seqZ a (b - a)).

Lemma ms_where_app P a b c : a <= b <= c -> ms_where P a c = ms_where P a b + ms_where P b c.
Proof.
  intros H. unfold ms_where. replace (c - a) with ((b - a) + (c - b)) by lia.
  rewrite seqZ_app by lia. rewrite fmap_app, sumZ_app. by replace (a + (b - a)) with b by lia.
Qed.

Lemma ms_where_const P a b x : a <= b -> (forall t, a <= t < b -> P t = x) -> ms_where P a b = if x then b - a else 0.
Proof.
  intros Hab HP. unfold ms_where.
  rewrite (list_fmap_ext _ (fun _ => if x then 1 else 0)).
  2:{ intros k t Ht. apply list_elem_of_lookup_2, elem_of_seqZ in Ht. by rewrite HP by lia. }
  assert (Hc : forall l : list Z, sumZ ((fun _ => if x then 1 else 0) <$> l) = if x then lenZ l else 0).
  { induction l as [|y l IH]; [by destruct x|]. rewrite fmap_cons, sumZ_cons, lenZ_cons, IH. destruct x; lia. }
  rewrite Hc. unfold lenZ. rewrite length_seqZ. destruct x; lia.
Qed.

Lemma ms_where_range P a b : a <= b -> 0 <= ms_where P a b <= b - a.
Proof.
  intros Hab. unfold ms_where. assert (Hl : lenZ (seqZ a (b - a)) = b - a) by (unfold lenZ; rewrite length_seqZ; lia).
  enough (H : forall l : list Z, 0 <= sumZ ((fun t => if P t then 1 else 0) <$> l) <= lenZ l) by (specialize (H (seqZ a (b - a))); lia).
  induction l as [|t l IH]; [done|]. rewrite fmap_cons, sumZ_cons, lenZ_cons. destruct (P t); lia.
Qed.

(** A range that has the property for its whole length has it everywhere. *)
Lemma ms_where_full P a b t : b - a <= ms_where P a b -> a <= t < b -> P t = true.
Proof.
  intros H Ht. destruct (P t) eqn:E; [done|]. exfalso.
  rewrite (ms_where_app P a t b), (ms_where_app P t (t + 1) b) in H by lia.
  rewrite (ms_where_const P t (t + 1) false) in H by (try lia; intros u Hu; by replace u with t by lia).
  pose proof (ms_where_range P a t). pose proof (ms_where_range P (t + 1) b). lia.
Qed.

(** None of it has the property when the count is zero. *)
Lemma ms_where_none P a b t : ms_where P a b <= 0 -> a <= t < b -> P t = false.
Proof.
  intros H Ht. destruct (P t) eqn:E; [|done]. exfalso.
  rewrite (ms_where_app P a t b), (ms_where_app P t (t + 1) b) in H by lia.
  rewrite (ms_where_const P t (t + 1) true) in H by (try lia; intros u Hu; by replace u with t by lia).
  pose proof (ms_where_range P a t). pose proof (ms_where_range P (t + 1) b). lia.
Qed.

Lemma verdict_perm l l' : l ≡ₚ l' -> verdict l = verdict l'.
Proof.
  intros H. destruct l as [|x [|y l]].
  - by apply Permutation_nil in H as ->.
  - by apply Permutation_length_1_inv in H as ->.
  - destruct l' as [|x' [|y' l']]; [by apply Permutation_length in H..|done].
Qed.

Lemma verdict_states l l' : NoDup l -> NoDup l' -> (forall s, s ∈ l <-> s ∈ l') -> verdict l = verdict l'.
Proof. intros. by apply verdict_perm, NoDup_Permutation. Qed.

Lemma active_states_spec active s : s ∈ active_states active <-> 0 < default 0 (active !! s).
Proof.
  unfold active_states. rewrite list_elem_of_fmap. split.
  - intros ([k c] & -> & [Hc Hin]%list_elem_of_filter). apply elem_of_map_to_list in Hin. simpl in *. by rewrite Hin.
  - intros H. destruct (active !! s) as [c|] eqn:E; [|done]. exists (s, c). split; [done|].
    apply list_elem_of_filter. split; [done|]. by apply elem_of_map_to_list.
Qed.

Lemma active_states_NoDup active : NoDup (active_states active).
Proof.
  unfold active_states. eapply sublist_NoDup; [apply (NoDup_fst_map_to_list active)|].
  apply fmap_sublist, sublist_filter.
Qed.

(** Segments that follow each other without a hole or an overlap, newest first; the ones
    next to each other differ in what they say. *)
Definition differs (sg : IntegritySegment) (l : list IntegritySegment) : Prop :=
  match l with
  | before :: _ => (sg_state before, sg_conflict before) <> (sg_state sg, sg_conflict sg)
  | [] => True
  end.
Inductive tiles (start : Z) : Z -> list IntegritySegment -> Prop :=
| tiles_nil : tiles start start []
| tiles_snoc sg l : tiles start (sg_start sg) l -> sg_start sg < sg_end sg -> differs sg l ->
    tiles start (sg_end sg) (sg :: l).

(** The number of active intervals of a state at an instant, as the edges tell it. *)
Definition count_at (edges : list coverageEdge) (s : string) (t : Z) : Z :=
  sumZ (ce_delta <$> filter (fun e => ce_state e = s /\ ce_at e <= t) edges).

Lemma count_at_app l l' s t : count_at (l ++ l') s t = count_at l s t + count_at l' s t.
Proof. unfold count_at. by rewrite filter_app, fmap_app, sumZ_app. Qed.

Lemma count_at_perm l l' s t : l ≡ₚ l' -> count_at l s t = count_at l' s t.
Proof. intros H. unfold count_at. by rewrite H. Qed.

Lemma count_at_later l s t : Forall (fun e => t < ce_at e) l -> count_at l s t = 0.
Proof.
  intros H. unfold count_at. induction H as [|e l He _ IH]; [done|].
  rewrite filter_cons_False; [done|]. intros [_ ?]. lia.
Qed.

Lemma count_at_settled l s p t : Forall (fun e => ce_at e <= p) l -> p <= t -> count_at l s t = count_at l s p.
Proof.
  intros H Hp. unfold count_at. induction H as [|e l He _ IH]; [done|]. rewrite !filter_cons.
  destruct (decide (ce_state e = s /\ ce_at e <= t)) as [[? ?]|Hn], (decide (ce_state e = s /\ ce_at e <= p)) as [[? ?]|Hn'];
    [by rewrite !fmap_cons, !sumZ_cons, IH|exfalso; apply Hn'; split; [done|lia]|exfalso; apply Hn; split; [done|lia]|done].
Qed.

Section Sweep.
Variables (name : string) (start stop : Z) (v : Z -> string * bool).

(** What a state of the totals counts. *)
Definition in_state (s : string) (t : Z) : bool := (v t).1 =?s s.
Definition in_no_state (t : Z) : bool := negb (in_state "running" t || in_state "degraded" t || in_state "disabled" t).
Definition in_conflict (t : Z) : bool := (v t).2.

Definition totals_of (c : IntegrityComponent) (p : Z) : Prop :=
  ic_name c = name
  /\ ic_running c = ms_where (in_state "running") start p
  /\ ic_degraded c = ms_where (in_state "degraded") start p
  /\ ic_disabled c = ms_where (in_state "disabled") start p
  /\ ic_unknown c = ms_where in_no_state start p
  /\ ic_conflict c = ms_where in_conflict start p.

Definition right_segment (sg : IntegritySegment) : Prop :=
  sg_name sg = name /\ forall t, sg_start sg <= t < sg_end sg -> v t = (sg_state sg, sg_conflict sg).

Definition swept (p : Z) (s : list IntegritySegment * IntegrityComponent) : Prop :=
  start <= p /\ tiles start p s.1 /\ Forall right_segment s.1 /\ totals_of s.2 p.

Lemma append_swept active from to s :
  swept from s -> from <= to -> (forall t, from <= t < to -> v t = verdict (active_states active)) ->
  swept to (appendSegment name active from to s).
Proof.
  intros (Hp & Ht & Hr & Htot) Hft Hv. unfold appendSegment.
  destruct (to <=? from) eqn:E; bool_to_prop; [by assert (to = from) as -> by lia|].
  destruct (verdict (active_states active)) as [state conflict].
  assert (Htot' : totals_of (add_time state conflict (to - from) s.2) to).
  { assert (Hms : forall P x n, (forall t, from <= t < to -> P t = x) -> n = ms_where P start from ->
      (if x then n + (to - from) else n) = ms_where P start to).
    { intros P x n HP ->. rewrite (ms_where_app P start from to), (ms_where_const P from to x) by (done || lia).
      destruct x; lia. }
    destruct Htot as (H1 & H2 & H3 & H4 & H5 & H6). unfold add_time, totals_of. cbn.
    repeat split; [done|apply Hms; [|done]..]; intros t Hin; unfold in_no_state, in_state, in_conflict; by rewrite Hv. }
  destruct s as [[|last rest] c]; cbn [fst snd] in *.
  - split; [lia|]. split; [|split; [|done]].
    + inversion Ht; subst. apply (tiles_snoc start (mkSegment name state _ to conflict)); [constructor|cbn; lia|done].
    + by repeat constructor.
  - case_if.
    + apply andb_true_iff in E0 as [[Es%String.eqb_eq Ec%eqb_prop]%andb_true_iff Ee%Z.eqb_eq].
      split; [lia|]. split; [|split; [|done]].
      * inversion Ht; subst. apply (tiles_snoc start (mkSegment _ _ (sg_start last) to _)); [done|cbn; lia|done].
      * apply Forall_cons in Hr as [[Hn Hl] Hr]. constructor; [|done]. split; [done|]. cbn. intros t Hin.
        destruct (decide (t < from)); [apply Hl; lia|]. rewrite Hv by lia. by rewrite Es, Ec.
    + split; [lia|]. split; [|split; [|done]].
      * apply (tiles_snoc start (mkSegment name state from to conflict)); cbn; [done|lia|].
        intros [= Es Ec]. assert (Ee : sg_end last = from) by (by inversion Ht).
        by rewrite Es, Ec, Ee, String.eqb_refl, eqb_reflx, Z.eqb_refl in E0.
      * constructor; [|done]. split; [done|]. intros t Hin. by rewrite Hv.
Qed.

(** The sweep over the rest of the edges: [seen] are those before. *)
Lemma sweep_swept rest : forall seen active p s,
  (forall t l, start <= t < stop -> NoDup l -> (forall st, st ∈ l <-> 0 < count_at (seen ++ rest) st t) -> verdict l = v t) ->
  StronglySorted (fun a b => ce_at a <= ce_at b) rest -> Forall (fun e => p <= ce_at e <= stop) rest ->
  Forall (fun e => ce_at e <= p) seen -> (forall st, default 0 (active !! st) = count_at seen st p) ->
  p <= stop -> swept p s -> swept stop (sweep name rest active p stop s).
Proof.
  induction rest as [|e rest IH]; intros seen active p s Hv Hs Hb Hseen Hact Hp Hw; simpl.
  - apply append_swept; [done|lia|]. intros t Ht. symmetry. apply Hv; [destruct Hw; lia|apply active_states_NoDup|].
    intros st. by rewrite active_states_spec, Hact, app_nil_r, (count_at_settled seen st p t) by (done || lia).
  - apply Forall_cons in Hb as [He Hb]. apply StronglySorted_inv in Hs as [Hs Hle].
    assert (Hrest : forall st t, t < ce_at e -> count_at (e :: rest) st t = 0).
    { intros st t Ht. apply count_at_later. constructor; [done|]. eapply Forall_impl; [exact Hle|]. simpl. lia. }
    apply (IH (seen ++ [e])).
    + intros t l Ht Hnd Hl. apply Hv; [done..|]. intros st. by rewrite Hl, <- app_assoc.
    + done.
    + apply Forall_forall. intros x Hx. rewrite Forall_forall in Hb, Hle. specialize (Hb x Hx). specialize (Hle x Hx). lia.
    + apply Forall_app. split; [|by repeat constructor]. eapply Forall_impl; [exact Hseen|]. simpl. lia.
    + intros st. rewrite count_at_app, (count_at_settled seen st p (ce_at e)) by (done || lia). rewrite <- Hact.
      unfold apply_edge, count_at. destruct (decide (ce_state e = st)) as [<-|Hne].
      * rewrite lookup_insert_eq, filter_cons_True by (split; [done|lia]). simpl. lia.
      * rewrite lookup_insert_ne by done. rewrite filter_cons_False by (by intros [? _]). simpl. lia.
    + lia.
    + apply append_swept; [done|lia|]. intros t Ht. symmetry. apply Hv; [destruct Hw; lia|apply active_states_NoDup|].
      intros st. rewrite active_states_spec, Hact, count_at_app, Hrest by lia.
      rewrite (count_at_settled seen st p t) by (done || lia). by rewrite Z.add_0_r.
Qed.

Lemma integritySegments_swept o edges :
  (forall t l, start <= t < stop -> NoDup l -> (forall st, st ∈ l <-> 0 < count_at edges st t) -> verdict l = v t) ->
  Forall (fun e => start <= ce_at e <= stop) edges -> start <= stop ->
  let '(segments, totals) := integritySegments o name edges start stop in
  tiles start stop (rev segments) /\ Forall right_segment segments /\ totals_of totals stop.
Proof.
  intros Hv Hb Hs. unfold integritySegments. set (sorted := sort_by _ _).
  assert (Hp : sorted ≡ₚ edges).
  { unfold sorted. rewrite sort_by_perm. apply iterate_perm. }
  assert (Hss : StronglySorted (fun a b => ce_at a <= ce_at b) sorted).
  { apply Sorted_StronglySorted; [intros ? ? ?; lia|].
    assert (H : sorted_by (fun a b => ce_at a <? ce_at b) sorted) by (by apply (sort_by_sorted _ Z.ltb ce_at)).
    clear Hp. induction H as [|x l _ IH Hd]; [by constructor|]. constructor; [done|].
    destruct Hd as [|y l Hy]; constructor. unfold not_less in Hy. bool_to_prop. lia. }
  pose proof (sweep_swept sorted [] ∅ start ([], mkComponent name 0 0 0 0 0)) as H.
  destruct (sweep _ _ _ _ _ _) as [l c]. destruct H as (_ & H1 & H2 & H3).
  - intros t l' Ht Hnd Hl. apply Hv; [done..|]. intros st. rewrite Hl. simpl. by rewrite (count_at_perm _ _ _ _ Hp).
  - done.
  - by rewrite Hp.
  - constructor.
  - done.
  - done.
  - split; [lia|]. split; [constructor|]. split; [constructor|]. unfold totals_of, ms_where. cbn.
    by rewrite Z.sub_diag.
  - rewrite rev_involutive. split; [done|]. split; [by apply List.Forall_rev|done].
Qed.
End Sweep.

(** ** The edges of a period *)

Section Period.
Variables (start stop as_of : Z).

(** The edges of a row within the period. *)
Definition row_edges (row : string * string * Z * Z) : list coverageEdge :=
  let '(_, state, from, to) := row in
  let from := Z.max from start in
  let to := Z.min (Z.min to stop) as_of in
  if to <=? from then [] else [mkEdge from state 1; mkEdge to state (-1)].

Definition row_name (row : string * string * Z * Z) : string := row.1.1.1.

Lemma add_interval_spec t row :
  eg_truncated (add_interval start stop as_of t row) = false ->
  eg_truncated t = false
  /\ forall n, default [] (eg_edges (add_interval start stop as_of t row) !! n)
       = default [] (eg_edges t !! n) ++ (if decide (row_name row = n) then row_edges row else []).
Proof.
  destruct row as [[[name state] from] to]. unfold add_interval, row_name, row_edges. cbn [fst].
  destruct (_ || _); [done|]. destruct (negb _ && _); [done|]. cbv zeta.
  destruct (_ <=? _); [intros H; split; [done|]; intros n; case_decide; by rewrite app_nil_r|].
  destruct (one_of _ state); cbn [eg_truncated eg_edges negb]; [|by rewrite orb_true_r].
  rewrite orb_false_r. intros H. split; [done|]. intros n. case_decide as Hn.
  - subst n. by rewrite lookup_insert_eq.
  - by rewrite lookup_insert_ne, app_nil_r.
Qed.

Lemma add_intervals_spec rows : forall t,
  eg_truncated (foldl (add_interval start stop as_of) t rows) = false ->
  forall n, default [] (eg_edges (foldl (add_interval start stop as_of) t rows) !! n)
       = default [] (eg_edges t !! n) ++ concat (row_edges <$> filter (fun r => row_name r = n) rows).
Proof.
  induction rows as [|row rows IH] using rev_ind; intros t; [intros _ n; by rewrite app_nil_r|].
  rewrite foldl_app. simpl. intros H n. apply add_interval_spec in H as [H Hn].
  rewrite Hn, IH by done. rewrite filter_app, fmap_app, concat_app, app_assoc. f_equal.
  rewrite filter_cons. case_decide; [|done]. simpl. by rewrite app_nil_r.
Qed.

Lemma row_edges_bounds row : Forall (fun e => start <= ce_at e <= stop) (row_edges row).
Proof. destruct row as [[[n s] a] b]. simpl. case_if; bool_to_prop; repeat constructor; cbn; lia. Qed.

(** Whether a row has a state at an instant of the period. *)
Definition row_at (s : string) (t : Z) (row : string * string * Z * Z) : bool :=
  let '(_, state, from, to) := row in (state =?s s) && (from <=? t) && (t <? Z.min to as_of).

Lemma count_row s t row : start <= t < stop -> count_at (row_edges row) s t = if row_at s t row then 1 else 0.
Proof.
  intros Ht. destruct row as [[[n state] a] b]. unfold row_edges, row_at, count_at.
  destruct (String.eqb_spec state s) as [->|Hne]; cbn [andb].
  - destruct (_ <=? _) eqn:E; bool_to_prop.
    + simpl. case_if; [bool_to_prop; lia|done].
    + rewrite !filter_cons. cbn [ce_state ce_at]. repeat case_decide; case_if; bool_to_prop; simpl; try lia.
      all: exfalso; destruct_and?; try (apply andb_false_iff in E0 as [E0|E0]; bool_to_prop); intuition lia.
  - case_if; [done|]. by rewrite !filter_cons_False by (intros [? _]; simpl in *; congruence).
Qed.

Lemma count_rows s t rows : start <= t < stop ->
  0 <= count_at (concat (row_edges <$> rows)) s t
  /\ (0 < count_at (concat (row_edges <$> rows)) s t <-> exists row, row ∈ rows /\ row_at s t row = true).
Proof.
  intros Ht. induction rows as [|row rows [IH1 IH2]].
  - split; [done|]. split; [done|]. by intros (? & ?%elem_of_nil & _).
  - rewrite fmap_cons. cbn [concat]. rewrite count_at_app, count_row by done. split; [case_if; lia|]. split.
    + case_if; [intros _; exists row; split; [by left|done]|]. intros H. destruct (proj1 IH2) as (r & Hr & E'); [lia|].
      exists r. split; [by right|done].
    + intros (r & [->|Hr]%elem_of_cons & Hrow); [rewrite Hrow; lia|].
      assert (0 < count_at (concat (row_edges <$> rows)) s t) by (apply IH2; eauto). case_if; lia.
Qed.
End Period.

(** ** The view is exact *)

(** The states recorded for a component at a millisecond. *)
Definition recorded_at (d : CoverageDB) (as_of : Z) (n : string) (t : Z) : list string :=
  remove_dups (iv_state <$> filter (fun iv => iv_name iv = n /\ iv_start iv <= t < Z.min (stop_of d iv) as_of) (cv_intervals d)).

(** What they say together: nothing is known without any, or when they disagree. *)
Definition evidence_at (d : CoverageDB) (as_of : Z) (n : string) (t : Z) : string * bool :=
  let states := recorded_at d as_of n t in
  match head states with
  | None => ("unknown"%string, false)
  | Some s => if forallb (fun s' => s' =?s s) states then (s, false) else ("unknown"%string, true)
  end.

Lemma evidence_verdict d as_of n t : evidence_at d as_of n t = verdict (recorded_at d as_of n t).
Proof.
  unfold evidence_at. assert (Hnd : NoDup (recorded_at d as_of n t)) by apply NoDup_remove_dups.
  destruct (recorded_at d as_of n t) as [|s [|s' l]]; [done|simpl; by rewrite String.eqb_refl|].
  simpl. rewrite String.eqb_refl. destruct (String.eqb_spec s' s) as [->|]; [|done].
  exfalso. apply NoDup_cons in Hnd as [Hnd _]. apply Hnd. by left.
Qed.

Lemma no_edges_empty n : default [] (eg_edges no_edges !! n) = [].
Proof.
  unfold no_edges. cbn [eg_edges]. destruct (list_to_map _ !! n) as [l|] eqn:E; [|done].
  apply elem_of_list_to_map_2 in E. apply list_elem_of_fmap in E as (m & [= -> ->] & _). done.
Qed.

Lemma period_edges_spec d start stop as_of n edges :
  eg_truncated (period_edges d start stop as_of) = false ->
  eg_edges (period_edges d start stop as_of) !! n = Some edges ->
  edges = concat (row_edges start stop as_of <$> filter (fun r => row_name r = n)
            (interval_row d <$> filter (fun iv => iv_start iv < stop /\ start < stop_of d iv) (cv_intervals d))).
Proof.
  unfold period_edges. cbn [eg_truncated eg_edges]. set (rows := filter _ (cv_intervals d)). intros [Ht Hl]%orb_false_iff He.
  bool_to_prop. rewrite take_ge in Ht, He by (unfold lenZ in Hl; lia).
  pose proof (add_intervals_spec start stop as_of (interval_row d <$> rows) no_edges Ht n) as H.
  rewrite He, no_edges_empty in H. exact H.
Qed.

(** What the edges of a component count is what its intervals record. *)
Lemma component_evidence d start stop as_of n edges t l :
  eg_truncated (period_edges d start stop as_of) = false ->
  eg_edges (period_edges d start stop as_of) !! n = Some edges ->
  start <= t < stop -> NoDup l -> (forall st, st ∈ l <-> 0 < count_at edges st t) -> verdict l = evidence_at d as_of n t.
Proof.
  intros Htr He Ht Hnd Hl. rewrite evidence_verdict. apply verdict_states; [done|apply NoDup_remove_dups|]. intros st.
  rewrite Hl, (period_edges_spec _ _ _ _ _ _ Htr He), (proj2 (count_rows start stop as_of st t _ Ht)).
  unfold recorded_at. rewrite elem_of_remove_dups, list_elem_of_fmap. split.
  - intros (row & [Hn Hrow]%list_elem_of_filter & Hat).
    apply list_elem_of_fmap in Hrow as (iv & -> & [Hiv Hin]%list_elem_of_filter). simpl in Hn, Hat.
    apply andb_true_iff in Hat as [[Hst%String.eqb_eq Ha%Z.leb_le]%andb_true_iff Hb%Z.ltb_lt].
    exists iv. split; [done|]. apply list_elem_of_filter. done.
  - intros (iv & -> & [(Hn & Ha & Hb) Hin]%list_elem_of_filter). exists (interval_row d iv). split.
    + apply list_elem_of_filter. split; [done|]. apply list_elem_of_fmap_2, list_elem_of_filter. split; [lia|done].
    + simpl. rewrite String.eqb_refl. apply andb_true_iff. split; [by apply Z.leb_le|by apply Z.ltb_lt].
Qed.

(** The parts of the view: for every component with edges, its segments and totals. *)
Lemma component_segments_spec o d start stop as_of part :
  eg_truncated (period_edges d start stop as_of) = false -> start <= stop ->
  part ∈ component_segments o (period_edges d start stop as_of) start stop ->
  tiles start stop (rev part.1)
  /\ Forall (right_segment (ic_name part.2) (evidence_at d as_of (ic_name part.2))) part.1
  /\ totals_of (ic_name part.2) start (evidence_at d as_of (ic_name part.2)) part.2 stop.
Proof.
  intros Htr Hs Hp. unfold component_segments in Hp. apply list_elem_of_fmap in Hp as ([n edges] & -> & Hin).
  rewrite sort_by_perm in Hin. apply elem_of_entries in Hin. cbn [fst snd].
  pose proof (integritySegments_swept n start stop (evidence_at d as_of n) o edges) as H.
  destruct (integritySegments o n edges start stop) as [segments c]. cbn [fst snd].
  destruct H as (H1 & H2 & H3).
  - intros t l Ht Hnd Hl. by eapply component_evidence.
  - rewrite (period_edges_spec _ _ _ _ _ _ Htr Hin). apply Forall_concat, Forall_fmap, Forall_true. apply row_edges_bounds.
  - done.
  - assert (Hn : ic_name c = n) by apply H3. by rewrite Hn.
Qed.

Lemma tiles_range start p l : tiles start p l -> Forall (fun sg => start <= sg_start sg < sg_end sg /\ sg_end sg <= p) l /\ start <= p.
Proof.
  induction 1 as [|sg l Ht [IH Hp] Hlt _]; [by split|]. split; [|lia]. constructor; [lia|].
  eapply Forall_impl; [exact IH|]. simpl. lia.
Qed.

(** Newest first, they are sorted by their start. *)
Lemma tiles_sorted start p l : tiles start p l -> StronglySorted (fun a b => sg_start b < sg_start a) l.
Proof.
  induction 1 as [|sg l Ht IH Hlt _]; constructor; [done|]. apply tiles_range in Ht as [Ht _].
  eapply Forall_impl; [exact Ht|]. simpl. lia.
Qed.

Lemma starts_sorted l : sorted_by segment_lt l -> StronglySorted (fun a b => sg_start a <= sg_start b) l.
Proof.
  intros H. apply Sorted_StronglySorted; [intros ? ? ?; lia|].
  induction H as [|x l _ IH Hd]; [by constructor|]. constructor; [done|].
  destruct Hd as [|y l Hy]; constructor. unfold not_less, segment_lt, lex in Hy.
  destruct (sg_start y <? sg_start x) eqn:E; bool_to_prop; [|lia]. cbn [segment_key fst] in Hy.
  rewrite decide_False, (proj2 (Z.ltb_lt _ _) E) in Hy by lia. done.
Qed.

Lemma sorted_lookup {A} (R : A -> A -> Prop) l : StronglySorted R l ->
  forall i j x y, (i < j)%nat -> l !! i = Some x -> l !! j = Some y -> R x y.
Proof.
  induction 1 as [|a l _ IH Ha]; intros [|i] [|j] x y Hij Hi Hj; try done; try lia; simpl in *.
  - injection Hi as <-. rewrite Forall_forall in Ha. apply Ha. by eapply list_elem_of_lookup_2.
  - by apply (IH i j); [lia|..].
Qed.

Lemma sorted_filter {A} (R : A -> A -> Prop) (P : A -> Prop) `{!forall x, Decision (P x)} l :
  StronglySorted R l -> StronglySorted R (filter P l).
Proof.
  induction 1 as [|a l _ IH Ha]; [constructor|]. rewrite filter_cons. case_decide; [|done]. constructor; [done|].
  rewrite Forall_forall in *. intros x [_ Hx]%list_elem_of_filter. by apply Ha.
Qed.

(** A list sorted by start is determined by its elements when their starts differ. *)
Lemma sorted_starts l l' :
  StronglySorted (fun a b => sg_start b < sg_start a) (rev l) ->
  StronglySorted (fun a b => sg_start a <= sg_start b) l' -> l' ≡ₚ l -> l' = l.
Proof.
  intros Hl Hl' Hp.
  assert (Hd : forall x y, x ∈ l -> y ∈ l -> sg_start x = sg_start y -> x = y).
  { intros x y Hx Hy E. rewrite <- (rev_involutive l), list_elem_of_In, <- in_rev, <- list_elem_of_In in Hx.
    rewrite <- (rev_involutive l), list_elem_of_In, <- in_rev, <- list_elem_of_In in Hy.
    apply list_elem_of_lookup in Hx as [i Hi], Hy as [j Hj]. destruct (Nat.lt_trichotomy i j) as [Hij|[->|Hij]];
      [|congruence|]; [pose proof (sorted_lookup _ _ Hl _ _ _ _ Hij Hi Hj)|pose proof (sorted_lookup _ _ Hl _ _ _ _ Hij Hj Hi)]; simpl in *; lia. }
  eapply (StronglySorted_unique_strong (fun a b => sg_start a <= sg_start b)); [|done| |done].
  - intros x y Hx Hy H1 H2. rewrite Hp in Hx. apply Hd; [done|done|lia].
  - clear Hd Hp Hl'. rewrite <- (rev_involutive l). induction Hl as [|x m Hm IH Hx]; [constructor|]. simpl.
    apply StronglySorted_app. split_and!; [|done|by repeat constructor].
    intros y z Hy ->%list_elem_of_singleton. rewrite list_elem_of_In, <- in_rev, <- list_elem_of_In in Hy.
    rewrite Forall_forall in Hx. specialize (Hx y Hy). simpl in Hx. lia.
Qed.

(** The four times of a component make up the period. *)
Lemma four_times v start stop : start <= stop ->
  ms_where (in_state v "running") start stop + ms_where (in_state v "degraded") start stop
  + ms_where (in_state v "disabled") start stop + ms_where (in_no_state v) start stop = stop - start.
Proof.
  intros Hs. unfold ms_where. replace (stop - start) with (lenZ (seqZ start (stop - start))) at 5
    by (unfold lenZ; rewrite length_seqZ; lia).
  induction (seqZ start (stop - start)) as [|t l IH]; [done|]. rewrite !fmap_cons, !sumZ_cons, lenZ_cons, <- IH.
  unfold in_no_state, in_state. destruct (v t) as [s c]. cbn [fst].
  destruct (String.eqb_spec s "running") as [->|H1]; [simpl; lia|].
  destruct (String.eqb_spec s "degraded") as [->|H2]; [simpl; lia|].
  destruct (String.eqb_spec s "disabled") as [->|H3]; simpl; lia.
Qed.

(** A component with anything recorded in the period is among the parts. *)
Lemma recorded_component d start stop as_of n t :
  eg_truncated (period_edges d start stop as_of) = false -> start <= t < stop -> recorded_at d as_of n t <> [] ->
  exists edges, eg_edges (period_edges d start stop as_of) !! n = Some edges.
Proof.
  intros Htr Ht Hr. destruct (eg_edges _ !! n) as [edges|] eqn:E; [by eexists|]. exfalso. apply Hr.
  revert Htr E. unfold period_edges. cbn [eg_truncated eg_edges]. set (rows := filter _ (cv_intervals d)).
  intros [Htr Hl]%orb_false_iff E. bool_to_prop. rewrite take_ge in Htr, E by (unfold lenZ in Hl; lia).
  pose proof (add_intervals_spec start stop as_of _ _ Htr n) as H. rewrite E, no_edges_empty in H. simpl in H.
  assert (Hc : forall st, ~ 0 < count_at (concat (row_edges start stop as_of <$> filter (fun r => row_name r = n) (interval_row d <$> rows))) st t)
    by (intros st; rewrite <- H; unfold count_at; simpl; lia).
  unfold recorded_at. destruct (filter (fun iv => iv_name iv = n /\ _) (cv_intervals d)) as [|iv l] eqn:Ef; [done|]. exfalso.
  assert (Hiv : iv ∈ iv :: l) by left. rewrite <- Ef in Hiv. apply list_elem_of_filter in Hiv as [(Hn & Ha & Hb) Hin].
  apply (Hc (iv_state iv)).
  apply (count_rows start stop as_of _ _ _ Ht). exists (interval_row d iv). split.
  - apply list_elem_of_filter. split; [done|]. apply list_elem_of_fmap_2, list_elem_of_filter. split; [lia|done].
  - simpl. rewrite String.eqb_refl. apply andb_true_iff. split; [by apply Z.leb_le|by apply Z.ltb_lt].
Qed.

Lemma sweep_name name edges : forall active p stop s, ic_name (sweep name edges active p stop s).2 = ic_name s.2.
Proof.
  assert (Ha : forall active from to s, ic_name (appendSegment name active from to s).2 = ic_name s.2).
  { intros. unfold appendSegment. case_if; [done|]. destruct (verdict _). destruct s.1; [done|]. by case_if. }
  induction edges as [|e edges IH]; intros; simpl; [apply Ha|]. by rewrite IH, Ha.
Qed.

Lemma integritySegments_name o name edges start stop : ic_name (integritySegments o name edges start stop).2 = name.
Proof.
  unfold integritySegments. pose proof (sweep_name name (sort_by (fun a b => ce_at a <? ce_at b) (iterate o edges)) ∅ start stop
    ([], mkComponent name 0 0 0 0 0)) as H. by destruct (sweep _ _ _ _ _ _).
Qed.

(** The fields of a view that was read. *)
Lemma readIntegrity_fields o q asOf t view :
  readIntegrity o q asOf t = Some view ->
  let start := unix_milli (iq_start q) in
  let stop := unix_milli (iq_end q) in
  let edges := period_edges (et_coverage t) start stop (unix_milli asOf) in
  let parts := component_segments o edges start stop in
  let all := sort_by segment_lt (concat parts.*1) in
  IntegrityQuery_Validate q = true
  /\ vw_components view = parts.*2
  /\ vw_segments view = take (Z.to_nat (iq_limit q)) (drop (Z.to_nat (iq_offset q)) all)
  /\ vw_more view = (iq_offset q <? lenZ all) && (Z.min (lenZ all) (iq_offset q + iq_limit q) <? lenZ all)
  /\ vw_truncated view = eg_truncated edges
  /\ vw_gaps view = (period_gaps start stop (et_gaps t)).1
  /\ vw_gaps_truncated view = (period_gaps start stop (et_gaps t)).2
  /\ exists r, vw_retention view = Some r
     /\ readRetentionDetails (mkRetentionQuery (iq_start q) (iq_end q) (iq_start_off q) (iq_end_off q) "" "" 0 20)
          (et_tracking t) (et_retention t) = Some r.
Proof.
  unfold readIntegrity, readIntegrityCore. destruct (IntegrityQuery_Validate q); [|done]. cbn [negb].
  destruct (period_gaps _ _ _) as [g gt]. destruct (period_losses _ _ _) as [[l lt]|]; [|done].
  destruct (readRetentionDetails _ _ _) as [r|]; [|done]. intros [= <-]. cbn.
  do 7 (split; [done|]). by exists r.
Qed.

Lemma query_range q : IntegrityQuery_Validate q = true -> unix_milli (iq_start q) <= unix_milli (iq_end q).
Proof.
  unfold IntegrityQuery_Validate, ValidTimeRange. intros H. bool_to_prop.
  assert (iq_start q < iq_end q) by (by apply before_spec). unfold unix_milli. apply Z.div_le_mono; [done|lia].
Qed.

(** The segments of one component among those of all. *)
Lemma filter_named {R} (f : string * R -> list IntegritySegment) rows n x :
  (forall row, row ∈ rows -> Forall (fun sg => sg_name sg = row.1) (f row)) -> NoDup rows.*1 -> (n, x) ∈ rows ->
  filter (fun sg => sg_name sg = n) (concat (f <$> rows)) = f (n, x).
Proof.
  assert (Hall : forall l, Forall (fun sg => sg_name sg = n) l -> filter (fun sg => sg_name sg = n) l = l).
  { induction 1 as [|sg l Hn _ IH]; [done|]. by rewrite filter_cons_True, IH. }
  assert (Hnone : forall rows, (forall row, row ∈ rows -> Forall (fun sg => sg_name sg = row.1) (f row)) -> n ∉ rows.*1 ->
    filter (fun sg => sg_name sg = n) (concat (f <$> rows)) = []).
  { clear rows. induction rows as [|row rows IH]; intros Hf Hn; [done|]. cbn [fmap list_fmap concat]. rewrite filter_app.
    apply not_elem_of_cons in Hn as [Hne Hn]. rewrite IH, app_nil_r; [|intros; apply Hf; by right|done].
    specialize (Hf row ltac:(by left)). clear -Hf Hne. induction Hf as [|sg l Hs _ IH]; [done|].
    rewrite filter_cons_False by congruence. exact IH. }
  induction rows as [|row rows IH]; intros Hf Hnd Hin; [by apply not_elem_of_nil in Hin|].
  cbn [fmap list_fmap concat] in *. apply NoDup_cons in Hnd as [Hn Hnd]. rewrite filter_app.
  apply elem_of_cons in Hin as [<-|Hin].
  - rewrite Hall by (apply (Hf (n, x)); by left). rewrite Hnone, app_nil_r; [done|intros; apply Hf; by right|done].
  - rewrite IH; [|intros; apply Hf; by right|done|done].
    assert (Hne : row.1 <> n) by (intros E; apply Hn; rewrite E; apply list_elem_of_fmap; by exists (n, x)).
    specialize (Hnone [row]). cbn [fmap list_fmap concat] in Hnone. rewrite app_nil_r in Hnone.
    rewrite Hnone; [done|intros r ->%list_elem_of_singleton; apply Hf; by left|intros E%list_elem_of_singleton; congruence].
Qed.

(** Taken out of the sorted list of all, the segments of a component tile the period. *)
Lemma component_tiles o d start stop as_of part :
  let edges := period_edges d start stop as_of in
  let parts := component_segments o edges start stop in
  eg_truncated edges = false -> start <= stop -> part ∈ parts ->
  filter (fun sg => sg_name sg = ic_name part.2) (sort_by segment_lt (concat parts.*1)) = part.1.
Proof.
  intros edges parts Htr Hs Hp. pose proof (component_segments_spec o d start stop as_of part Htr Hs Hp) as (Ht & _ & _).
  apply sorted_starts; [by eapply tiles_sorted| |].
  - apply sorted_filter, starts_sorted, (sort_by_sorted _ (lex Z.ltb (lex string_lt Z.ltb)) segment_key). done.
  - rewrite sort_by_perm. unfold parts, component_segments in *. apply list_elem_of_fmap in Hp as ([n l] & -> & Hin).
    cbn [fst snd]. rewrite integritySegments_name, <- list_fmap_compose.
    rewrite (filter_named _ _ n l); [done| | |done].
    + intros row Hrow. pose proof (component_segments_spec o d start stop as_of (integritySegments o row.1 row.2 start stop) Htr Hs) as H.
      destruct H as (_ & H & _); [apply list_elem_of_fmap; by exists row|]. cbn. rewrite integritySegments_name in H.
      eapply Forall_impl; [exact H|]. by intros sg [? _].
    + rewrite sort_by_perm. apply entries_NoDup.
Qed.

(** C30. What the view says is what was recorded.  When the history is not truncated, every
    segment has at each of its milliseconds the state that the intervals of its component
    record there: the one state, "unknown" without any, and "unknown" with conflicting
    evidence when several disagree.  The segments of every component of which anything
    was recorded follow each other from the start of the period to its end, without a
    hole or an overlap, and each differs from the next; the times of the component are
    exactly the milliseconds of each state and add up to the period.  The pages of
    segments cut one list. *)
Theorem integrity_exact o q asOf t view :
  readIntegrity o q asOf t = Some view -> vw_truncated view = false ->
  let start := unix_milli (iq_start q) in
  let stop := unix_milli (iq_end q) in
  let evidence := evidence_at (et_coverage t) (unix_milli asOf) in
  exists all,
    vw_segments view = take (Z.to_nat (iq_limit q)) (drop (Z.to_nat (iq_offset q)) all)
    /\ (vw_more view = true <-> iq_offset q + iq_limit q < lenZ all)
    /\ Forall (fun sg => start <= sg_start sg < sg_end sg /\ sg_end sg <= stop
         /\ forall m, sg_start sg <= m < sg_end sg -> evidence (sg_name sg) m = (sg_state sg, sg_conflict sg)) all
    /\ Forall (fun c => totals_of (ic_name c) start (evidence (ic_name c)) c stop
         /\ ic_running c + ic_degraded c + ic_disabled c + ic_unknown c = stop - start
         /\ tiles start stop (rev (filter (fun sg => sg_name sg = ic_name c) all)))
         (vw_components view)
    /\ forall n m, start <= m < stop -> recorded_at (et_coverage t) (unix_milli asOf) n m <> [] ->
         n ∈ ic_name <$> vw_components view.
Proof.
  intros Hread Htr start stop evidence. pose proof (readIntegrity_fields _ _ _ _ _ Hread) as (Hq & Hc & Hseg & Hmore & Ht & _).
  fold start stop in Hc, Hseg, Hmore, Ht. rewrite Ht in Htr. pose proof (query_range q Hq) as Hle. fold start stop in Hle.
  set (parts := component_segments o _ start stop) in *. set (all := sort_by segment_lt (concat parts.*1)) in *.
  assert (Hall : forall sg, sg ∈ all <-> exists part, part ∈ parts /\ sg ∈ part.1).
  { intros sg. unfold all. rewrite sort_by_perm, list_elem_of_In, in_concat. setoid_rewrite <- list_elem_of_In.
    setoid_rewrite list_elem_of_fmap. split; [intros (l & (part & -> & Hp) & Hsg); eauto|intros (part & Hp & Hsg); eauto]. }
  assert (Hrev : forall (l : list IntegritySegment) sg, sg ∈ rev l <-> sg ∈ l) by (intros; rewrite !list_elem_of_In; symmetry; apply in_rev).
  pose proof (fun part => component_segments_spec o _ start stop _ part Htr Hle) as Hparts. fold parts in Hparts.
  exists all. split; [done|]. split.
  { rewrite Hmore, andb_true_iff, !Z.ltb_lt. unfold IntegrityQuery_Validate, ValidLimit in Hq. bool_to_prop. lia. }
  split.
  { apply Forall_forall. intros sg (part & Hp & Hsg)%Hall. destruct (Hparts part Hp) as (H1 & H2 & _).
    apply tiles_range in H1 as [H1 _]. rewrite Forall_forall in H1, H2. destruct (H2 sg Hsg) as [Hn Hv].
    destruct (H1 sg (proj2 (Hrev _ _) Hsg)) as [? ?].
    split; [lia|]. split; [lia|]. rewrite Hn. exact Hv. }
  split.
  { rewrite Hc. apply Forall_fmap, Forall_forall. intros part Hp. destruct (Hparts part Hp) as (H1 & H2 & H3). simpl.
    split; [done|]. split.
    - destruct H3 as (_ & -> & -> & -> & -> & _). by apply four_times.
    - unfold all, parts. rewrite component_tiles; [exact H1|done|done|done]. }
  intros n m Hm Hrec. destruct (recorded_component _ _ _ _ _ _ Htr Hm Hrec) as [edges He].
  rewrite Hc, <- list_fmap_compose. apply list_elem_of_fmap. exists (integritySegments o n edges start stop).
  assert (Hp : integritySegments o n edges start stop ∈ parts).
  { apply list_elem_of_fmap. exists (n, edges). split; [done|]. rewrite sort_by_perm. by apply elem_of_entries. }
  split; [|done]. simpl. symmetry. apply integritySegments_name.
Qed.

(** ** A worked example *)

Definition example_intervals : CoverageDB :=
  mkCoverage [mkInterval 1 "ssh_journal" "running" 0 (Some 10); mkInterval 2 "ssh_journal" "degraded" 8 (Some 12);
              mkInterval 3 "ssh_journal" "running" 15 None] {["ssh_journal"%string := ("running"%string, 18)]}.
Definition example_evidence : evidence_tables := mkEvidence example_intervals [] ∅ no_retention (Some 0).
Definition example_query : IntegrityQuery := mkIntegrityQuery unix_epoch (unix_epoch + 20 * millisecond) 0 0 100 0.
Definition example_view : option IntegrityView := readIntegrity in_order example_query (unix_epoch + 30 * millisecond) example_evidence.

Lemma integrity_exact_witness :
  (fun v => filter (fun c => ic_name c = "ssh_journal"%string) (vw_components v)) <$> example_view
  = Some [mkComponent "ssh_journal" 11 2 0 7 2] /\
  (fun v => (fun s => (sg_state s, sg_start s, sg_end s, sg_conflict s)) <$> filter (fun s => sg_name s = "ssh_journal"%string) (vw_segments v))
    <$> example_view
  = Some [("running", 0, 8, false); ("unknown", 8, 10, true); ("degraded", 10, 12, false); ("unknown", 12, 15, false);
          ("running", 15, 18, false); ("unknown", 18, 20, false)]%string /\
  exists view all, example_view = Some view /\ vw_segments view = take 100 all
    /\ Forall (fun c => ic_running c + ic_degraded c + ic_disabled c + ic_unknown c = 20) (vw_components view).
Proof.
  split; [vm_compute; reflexivity|]. split; [vm_compute; reflexivity|].
  destruct example_view as [view|] eqn:E; [|exfalso; vm_compute in E; discriminate].
  assert (Ht : vw_truncated view = false) by (vm_compute in E; injection E as <-; reflexivity).
  destruct (integrity_exact in_order example_query _ example_evidence view E Ht) as (all & Hs & _ & _ & Hc & _).
  exists view, all. split; [reflexivity|]. split; [exact Hs|].
  eapply Forall_impl; [exact Hc|]. intros c (_ & H & _). exact H.
Defined.
