(* ===== verification/AuthHistory.v ===== *)
(** * What the history of logins adds to a login event

    [internal/daemon/auth_history.go] and [internal/store/auth_history.go]: a successful
    login is compared with the retained logins of the last seven days, only when the
    evidence of those days is complete.  The offsets of the local time zone are given. *)

From S2P Require Export Integrity Privacy AuthDetect.

Definition authHistoryObservation : duration := 7 * 24 * hour.
Definition MaxSSHHistoryLogins : Z := 1000.

(** ** The retained logins *)

Record SSHHistoryLogin := mkLogin { lg_at : time; lg_ip : string; lg_range : string }.

Definition login_row (e : Event) : SSHHistoryLogin :=
  mkLogin (of_unix_milli (unix_milli (ev_observed_at e))) (limit (ev_source_ip e) 128) (limit (ev_source_range e) 128).

Definition login_in (start stop : time) (e : Event) : Prop :=
  ev_kind e = "ssh_login_success"%string /\ unix_milli start <= unix_milli (ev_observed_at e) < unix_milli stop.
#[global] Instance login_in_dec start stop e : Decision (login_in start stop e).
Proof. unfold login_in. apply _. Defined.

(** [SSHLoginHistory] over the stored events; the flag says that there were more. *)
Definition SSHLoginHistory (start stop : time) (events : list Event) : option (list SSHHistoryLogin * bool) :=
  if negb (before start stop) || (8 * 24 * hour <? time_sub stop start) then None
  else
    let rows := take 1001 (sort_by (fun a b => lex Z.ltb string_lt (unix_milli (ev_observed_at a), ev_id a)
                                                 (unix_milli (ev_observed_at b), ev_id b))
                             (filter (login_in start stop) events)) in
    Some (login_row <$> take (Z.to_nat MaxSSHHistoryLogins) rows, MaxSSHHistoryLogins <? lenZ rows).

(** ** The evidence of a period *)

Definition history_datasets : list string := ["events"; "coverage_intervals"; "coverage_gaps"]%string.
Definition auth_names : list string := ["ssh_journal"; "auth_detection"]%string.

(** The loop over the components: whether it went on, and [journalCovered]. *)
Fixpoint components_cover (ms : Z) (l : list IntegrityComponent) (covered : bool) : bool :=
  match l with
  | [] => covered
  | c :: l =>
      let covered := if ic_name c =?s "ssh_journal"
                     then (ms <=? ic_running c) && (ic_degraded c =? 0) && (ic_unknown c =? 0) && (ic_conflict c =? 0)
                     else covered in
      if (ic_name c =?s "auth_detection") && ((0 <? ic_degraded c) || (0 <? ic_unknown c) || (0 <? ic_conflict c)) then false
      else components_cover ms l covered
  end.

(** [authHistoryCoverage]. *)
Definition authHistoryCoverage (view : IntegrityView) (start stop : time) : bool :=
  match vw_retention view with
  | None => false
  | Some r =>
      if vw_truncated view || vw_gaps_truncated view || after (of_unix_milli (rt_tracking r)) start
         || is_zero (of_unix_milli (rt_tracking r)) then false
      else if existsb (fun g => one_of auth_names (g_name g)) (vw_gaps view) then false
      else if existsb (fun e => one_of history_datasets (rv_dataset e)) (rt_entries r) then false
      else if (0 <? rt_evicted r)
              && existsb (fun e => one_of history_datasets (rv_dataset e)
                                   && before (of_unix_milli (le_start (rv_entry e))) stop
                                   && negb (before (of_unix_milli (le_end (rv_entry e))) start)) (rt_totals r) then false
      else components_cover (milliseconds (time_sub stop start)) (vw_components view) false
  end.

(** ** Hints *)

(** What [addAuthHistoryHints] uses of the application, with the snapshot that the two
    reads see and whether they succeed in time. *)
Record history_env := mkHistory {
  hs_enabled : bool;
  hs_zone : option (time -> Z);
  hs_privacy : option Transformer;
  hs_started : time;
  hs_order : map_order;
  hs_as_of : time;
  hs_tables : evidence_tables;
  hs_events : list Event;
  hs_integrity_ok : bool;
  hs_logins_ok : bool }.

Definition put_evidence (k v : string) (e : Event) : Event :=
  mkEvent (ev_id e) (ev_incident e) (ev_observed_at e) (ev_kind e) (ev_phase e) (ev_severity e) (ev_summary e)
    (ev_source_ip e) (ev_source_range e) (ev_target e) (ev_count e) (ev_geo e) (<[k := v]> (ev_evidence e)).

Definition hint_state : string -> Event -> Event := put_evidence "history_hint_state".

(** The local day and hour of an instant. *)
Definition local_seconds (zone : time -> Z) (t : time) : Z := unix_sec t + zone t.
Definition local_day (zone : time -> Z) (t : time) : Z := local_seconds zone t / 86400.
Definition local_hour (zone : time -> Z) (t : time) : Z := local_seconds zone t mod 86400 / 3600.

Definition known_source (source : string * string) (entries : list SSHHistoryLogin) : bool :=
  existsb (fun l => if negb (source.1 =?s "") then lg_ip l =?s source.1 else lg_range l =?s source.2) entries.

(** The hints of complete evidence. *)
Definition history_hints (zone : time -> Z) (p : Transformer) (o : AuthObservation) (entries : list SSHHistoryLogin) (e : Event)
    : Event :=
  if lenZ entries <? 20 then e
  else if lenZ (remove_dups ((fun l => local_day zone (lg_at l)) <$> entries)) <? 3 then e
  else
    let source := IP p (addr_string (ao_source o)) in
    let e := put_evidence "history_basis" "current_process_retained_successes_7d" (hint_state "available" e) in
    let e := if negb (known_source source entries) && negb (source.2 =?s "")
             then put_evidence "history_source_hint"
                    (if source.1 =?s "" then "first_observed_prefix" else "first_observed_source") e
             else e in
    if forallb (fun l => negb (local_hour zone (lg_at l) =? local_hour zone (ao_at o))) entries
    then put_evidence "history_time_hint" "unseen_local_hour" e else e.

(** [addAuthHistoryHints]. *)
Definition addAuthHistoryHints (h : history_env) (o : AuthObservation) (e : Event) : Event :=
  if negb (hs_enabled h) || negb (ao_kind o =?s AuthSuccess) then e
  else
    let e := hint_state "observing" e in
    match hs_zone h, hs_privacy h with
    | Some zone, Some p =>
        let start := time_add (ao_at o) (- authHistoryObservation) in
        if after (hs_started h) start then e
        else
          match (if hs_integrity_ok h
                 then readIntegrity (hs_order h) (mkIntegrityQuery start (ao_at o) 0 0 100 0) (hs_as_of h) (hs_tables h)
                 else None) with
          | None => hint_state "history_incomplete" e
          | Some view =>
              if negb (authHistoryCoverage view start (ao_at o)) then hint_state "history_incomplete" e
              else
                match (if hs_logins_ok h then SSHLoginHistory start (ao_at o) (hs_events h) else None) with
                | Some (entries, false) => history_hints zone p o entries e
                | _ => hint_state "history_unavailable" e
                end
          end
    | _, _ => hint_state "history_unavailable" e
    end.

(** ** Hints need evidence *)







(** What complete coverage of a period means for the tables that were read. *)
Record covered (t : evidence_tables) (as_of start stop : time) : Prop := {
  cover_running : forall m, unix_milli start <= m < unix_milli stop ->
    recorded_at (et_coverage t) (unix_milli as_of) "ssh_journal" m = ["running"%string];
  cover_detection : forall m m', unix_milli start <= m < unix_milli stop -> unix_milli start <= m' < unix_milli stop ->
    recorded_at (et_coverage t) (unix_milli as_of) "auth_detection" m' <> [] ->
    recorded_at (et_coverage t) (unix_milli as_of) "auth_detection" m ∈ [["running"%string]; ["disabled"%string]];
  cover_gaps : forall g, g ∈ (et_gaps t).*2 -> g_name g ∈ ["ssh_journal"; "auth_detection"]%string ->
    forall m, unix_milli start <= m < unix_milli stop -> ~ g_start g <= m < g_end g;
  cover_removals : forall r,
    readRetentionDetails (mkRetentionQuery start stop 0 0 "" "" 0 20) (et_tracking t) (et_retention t) = Some r ->
    rt_more r = false ->
    forall id dataset reason day e, (id, (dataset, reason, day), e) ∈ rn_ledger (et_retention t) ->
      le_start e < unix_milli stop -> unix_milli start <= le_end e ->
      dataset ∉ ["events"; "coverage_intervals"; "coverage_gaps"]%string }.





(** *** The hints of complete evidence *)

Definition state_is (v : string) (e : Event) : Prop := ev_evidence e !! "history_hint_state"%string = Some v.









(** ** Worked examples *)

Definition example_day : duration := 24 * hour.
Definition example_login (i : Z) : Event :=
  mkEvent ("evt_" ++ fmt_int i) "" (unix_epoch + (2 + i mod 4) * example_day + i * minute) "ssh_login_success" "observed"
    SeverityInfo "" "203.0.113.7" "203.0.113.0/24" "" 1 no_geo ∅.
Definition example_observed : AuthObservation :=
  mkObservation (unix_epoch + 8 * example_day + 12 * hour) AuthSuccess (A4 203 0 113 9) 4711 "root" "publickey" true false.
Definition example_cover : CoverageDB :=
  mkCoverage [mkInterval 1 "ssh_journal" "running" 0 None] {["ssh_journal"%string := ("running"%string, 9 * 86400000)]}.
Definition example_history (r : Retention) : history_env :=
  mkHistory true (Some (fun _ => 3600)) (Some (mkTransformer "full" (fun s => s))) unix_epoch in_order
    (unix_epoch + 9 * example_day) (mkEvidence example_cover [] ∅ r (Some 0)) (example_login <$> seqZ 0 24) true true.
Definition example_event : Event :=
  mkEvent "evt_x" "inc_x" (ao_at example_observed) "ssh_login_success" "observed" SeverityMedium "" "203.0.113.9" "" "" 1 no_geo ∅.


(** The coverage check reads the twenty newest removals of the period and not whether
    there are more: events removed on one of the seven days do not suppress the hints
    when twenty later removals of other data hide them. *)
Definition example_removals : list removal :=
  let at_day (n : Z) := unix_epoch + n * example_day + hour in
  let day_ms (n : Z) := n * 86400000 in
  mkRemoval "events" "storage_pressure" 500 (day_ms 2) (day_ms 3) (at_day 3)
  :: flat_map (fun n => [mkRemoval "traffic_hourly" "cardinality_compaction" 1 (day_ms n) (day_ms n + 3600000) (at_day n);
                         mkRemoval "auth_hourly" "cardinality_compaction" 1 (day_ms n) (day_ms n + 3600000) (at_day n);
                         mkRemoval "interface_hourly" "storage_pressure" 1 (day_ms n) (day_ms n + 3600000) (at_day n);
                         mkRemoval "notification_outbox" "storage_pressure" 1 (day_ms n) (day_ms n) (at_day n)]) (seqZ 3 5).
Definition example_pressure : Retention :=
  match rfold record_removal no_retention example_removals with Ok r => r | Err _ => no_retention end.

Lemma hidden_removal :
  let h := example_history example_pressure in
  is_ok (rfold record_removal no_retention example_removals) = true
  /\ removed_in (unix_milli (time_add (ao_at example_observed) (- authHistoryObservation))) (unix_milli (ao_at example_observed))
       "events" (mkLedgerEntry 1 500 (2 * 86400000) (3 * 86400000) (3 * 86400000 + 3600000) (3 * 86400000 + 3600000)) = true
  /\ (1, ("events", "storage_pressure", 3 * 86400000)%string,
      mkLedgerEntry 1 500 (2 * 86400000) (3 * 86400000) (3 * 86400000 + 3600000) (3 * 86400000 + 3600000))
     ∈ rn_ledger (et_retention (hs_tables h))
  /\ state_is "available" (addAuthHistoryHints h example_observed example_event).
Proof.
  cbv zeta. split; [vm_compute; reflexivity|]. split; [vm_compute; reflexivity|]. split; [|vm_compute; reflexivity].
  apply list_elem_of_lookup. exists 0%nat. vm_compute. reflexivity.
Qed.
