(* ===== verification/JournalStore.v ===== *)
(** * Checkpoints of the journal

    [internal/store/journal.go], with the recovery mark of [coverage.go]: one
    transaction stores what a journal record led to and the cursor up to which the
    journal has been read; a bounded table of cursor hashes keeps a record that is read
    again from being counted again. *)

From S2P Require Export Outbox Coverage.

Record JournalWrite := mkJournalWrite {
  jw_cursor : string;
  jw_received : time;
  jw_observed : time;
  jw_kind : string;
  jw_range : string;
  jw_event : option Event;
  jw_notification : option OutboxMessage;
  jw_trusted : bool }.

Record Checkpoint := mkCheckpoint { cp_cursor : string; cp_observed : time; cp_pending : bool }.

(** [journal_seen] as row numbers and hashes in the order of the rows, the checkpoint of
    the journal with its microseconds, the [pending] of [journal_recovery], and the
    tables that a commit writes. *)
Record JournalDB := mkJournalDB {
  jb_seen : list (Z * string);
  jb_checkpoint : option (string * Z);
  jb_recovery : option Z;
  jb_auth : AuthTables;
  jb_events : list Event;
  jb_outbox : OutboxDB;
  jb_gaps : gaps;
  jb_coverage : CoverageDB }.

Definition jb_retention (d : JournalDB) : Retention := od_retention (jb_outbox d).

Definition with_recovery (pending : option Z) (d : JournalDB) : JournalDB :=
  mkJournalDB (jb_seen d) (jb_checkpoint d) pending (jb_auth d) (jb_events d) (jb_outbox d) (jb_gaps d) (jb_coverage d).
Definition with_seen (seen : list (Z * string)) (d : JournalDB) : JournalDB :=
  mkJournalDB seen (jb_checkpoint d) (jb_recovery d) (jb_auth d) (jb_events d) (jb_outbox d) (jb_gaps d) (jb_coverage d).
Definition with_checkpoint (c : string * Z) (d : JournalDB) : JournalDB :=
  mkJournalDB (jb_seen d) (Some c) (jb_recovery d) (jb_auth d) (jb_events d) (jb_outbox d) (jb_gaps d) (jb_coverage d).
Definition with_auth (a : AuthTables) (r : Retention) (d : JournalDB) : JournalDB :=
  mkJournalDB (jb_seen d) (jb_checkpoint d) (jb_recovery d) a (jb_events d) (with_retention r (jb_outbox d)) (jb_gaps d) (jb_coverage d).
Definition with_events (es : list Event) (d : JournalDB) : JournalDB :=
  mkJournalDB (jb_seen d) (jb_checkpoint d) (jb_recovery d) (jb_auth d) es (jb_outbox d) (jb_gaps d) (jb_coverage d).
Definition with_outbox (o : OutboxDB) (d : JournalDB) : JournalDB :=
  mkJournalDB (jb_seen d) (jb_checkpoint d) (jb_recovery d) (jb_auth d) (jb_events d) o (jb_gaps d) (jb_coverage d).
Definition with_gaps (g : gaps) (r : Retention) (d : JournalDB) : JournalDB :=
  mkJournalDB (jb_seen d) (jb_checkpoint d) (jb_recovery d) (jb_auth d) (jb_events d) (with_retention r (jb_outbox d)) g (jb_coverage d).
Definition with_coverage (c : CoverageDB) (r : Retention) (d : JournalDB) : JournalDB :=
  mkJournalDB (jb_seen d) (jb_checkpoint d) (jb_recovery d) (jb_auth d) (jb_events d) (with_retention r (jb_outbox d)) (jb_gaps d) c.

Inductive journal_error :=
| InvalidCheckpoint
| RecoveryUnavailable
| MetadataTooLarge
| JournalLedger (e : retention_error)
| JournalAggregate (e : store_error)
| JournalOutbox (e : outbox_error).

Definition from_ledger {A} (r : result retention_error A) : result journal_error A :=
  match r with Ok a => Ok a | Err e => Err (JournalLedger e) end.
Definition from_aggregate {A} (r : result store_error A) : result journal_error A :=
  match r with Ok a => Ok a | Err e => Err (JournalAggregate e) end.
Definition from_outbox {A} (r : result outbox_error A) : result journal_error A :=
  match r with Ok a => Ok a | Err e => Err (JournalOutbox e) end.

(** [JournalCheckpoint]; a missing or corrupt mark is an error. *)
Definition JournalCheckpoint (d : JournalDB) : option Checkpoint :=
  match jb_recovery d with
  | None => None
  | Some pending =>
      if negb (pending =? 0) && negb (pending =? 1) then None
      else
        let '(cursor, observed) := default (""%string, 0) (jb_checkpoint d) in
        Some (mkCheckpoint cursor (if cursor =?s "" then time_zero else of_unix_micro observed) (pending =? 1))
  end.

(** [setJournalRecovery]: the row must be there. *)
Definition setJournalRecovery (pending : bool) (d : JournalDB) : result journal_error JournalDB :=
  match jb_recovery d with
  | None => Err RecoveryUnavailable
  | Some _ => Ok (with_recovery (Some (if pending then 1 else 0)) d)
  end.

Definition writable_cursor (cursor : string) : bool :=
  negb (cursor =?s "") && (string_len cursor <=? 4096)
  && negb (existsb (fun b => (b <=? 32) || (b =? 127)) (bytes_of_string cursor)).

(** The columns of an event's row, as they are read back. *)
Definition event_row (e : Event) : Event :=
  mkEvent (ev_id e) (ev_incident e) (of_unix_milli (unix_milli (ev_observed_at e))) (ev_kind e) (ev_phase e) (ev_severity e)
    (limit (ev_summary e) 1024) (limit (ev_source_ip e) 128) (limit (ev_source_range e) 128) (limit (ev_target e) 256)
    (ev_count e) (ev_geo e) (ev_evidence e).

(** [insertEvent]: [INSERT OR IGNORE] after the check of the JSON columns. *)
Definition insertEvent (metadata_fits : Event -> bool) (e : Event) (events : list Event) : result journal_error (list Event) :=
  if negb (metadata_fits e) then Err MetadataTooLarge
  else Ok (if existsb (fun x => ev_id x =?s ev_id e) events then events else events ++ [event_row e]).

Section Commits.
(** The hash of a cursor, the parser of frozen messages, the check on an event's JSON
    columns and the window in which notifications of an incident are merged. *)
Context (cursorHash : string -> string).
Context (parse_json : string -> option json).
Context (metadata_fits : Event -> bool) (window : duration).

(** The instants that a commit reads and the identifiers it draws. *)
Record commit_draws := mkCommitDraws { cd_auth : time; cd_event : time; cd_draws : nat -> draws }.

Definition hash_seen (h : string) (seen : list (Z * string)) : bool := existsb (fun r => r.2 =?s h) seen.

(** [JournalSeen]. *)
Definition JournalSeen (cursor : string) (d : JournalDB) : bool := hash_seen (cursorHash cursor) (jb_seen d).

Definition next_row (seen : list (Z * string)) : Z := foldr Z.max 0 seen.*1 + 1.

(** What a record that was not seen leads to. *)
Definition store_record (c : commit_draws) (w : JournalWrite) (d : JournalDB) : result journal_error JournalDB :=
  let? d := if jw_trusted w then setJournalRecovery false d else Ok d in
  let? d := if jw_kind w =?s "" then Ok d
            else
              let? (a, r) := from_aggregate (addAuth (jw_observed w) (jw_kind w) (jw_range w) (cd_auth c) (jb_auth d) (jb_retention d)) in
              Ok (with_auth a r d) in
  match jw_event w, jw_notification w with
  | Some e, m =>
      let? es := insertEvent metadata_fits e (jb_events d) in
      let? o := from_outbox (recordEventNotification parse_json (cd_draws c) e m (cd_event c) window (jb_outbox d)) in
      Ok (with_outbox o (with_events es d))
  | None, Some m =>
      let? (o, _) := from_outbox (enqueue parse_json (cd_draws c O) m (jb_outbox d)) in Ok (with_outbox o d)
  | None, None => Ok d
  end.

(** The checkpoint keeps the latest reception. *)
Definition put_checkpoint (w : JournalWrite) (d : JournalDB) : JournalDB :=
  let us := unix_micro (jw_received w) in
  with_checkpoint (jw_cursor w, match jb_checkpoint d with Some (_, old) => Z.max old us | None => us end) d.

Definition maxJournalSeen : Z := 10000.
Definition prune_seen (seen : list (Z * string)) : list (Z * string) :=
  filter (fun r => ~ r.1 <= foldr Z.max 0 seen.*1 - maxJournalSeen) seen.

(** [CommitJournal]; the flag says that the record was not seen before. *)
Definition CommitJournal (c : commit_draws) (w : JournalWrite) (d : JournalDB) : result journal_error (bool * JournalDB) :=
  if negb (writable_cursor (jw_cursor w)) || is_zero (jw_received w) then Err InvalidCheckpoint
  else
    let h := cursorHash (jw_cursor w) in
    let fresh := negb (hash_seen h (jb_seen d)) in
    let? d := if fresh then store_record c w (with_seen (jb_seen d ++ [(next_row (jb_seen d), h)]) d) else Ok d in
    let d := put_checkpoint w d in
    Ok (fresh, with_seen (prune_seen (jb_seen d)) d).
End Commits.

(** [RecordJournalDegradation] and, without [pending], [RecordCoverageGap]. *)
Definition recordJournalGap (pending : bool) (g : CoverageGap) (now : time) (d : JournalDB) : result journal_error JournalDB :=
  let? d := if pending then setJournalRecovery true d else Ok d in
  let? (l, r) := from_ledger (recordCoverageGap g now (jb_gaps d) (jb_retention d)) in
  Ok (with_gaps l r d).
Definition RecordJournalDegradation (g : CoverageGap) (now : time) (d : JournalDB) : result journal_error JournalDB :=
  if negb (cg_name g =?s "ssh_journal") then Err InvalidCheckpoint else recordJournalGap true g now d.

(** [SetComponentStatus] of a component. *)
Definition SetComponentStatus (name state : string) (now : time) (d : JournalDB) : result journal_error JournalDB :=
  let? (c, r) := from_ledger (setCoverage name state now (jb_coverage d) (jb_retention d)) in
  Ok (with_coverage c r d).
