(* ===== verification/JournalIngest.v ===== *)
(** * The daemon's handling of journal records

    [handleJournal] of [internal/daemon/health.go] and the functions around it: a record
    that was not seen before is given to the detector, and what came of it is kept until
    the store has it, so that a record whose commit failed is not counted again when the
    reader delivers it once more. *)

From S2P Require Export JournalStore JournalReader AuthHistory Ingest.

(** ** State *)

(** The fields of [App] that the handling of the journal uses. *)
Record JournalApp := mkJournalApp {
  jp_pending : option JournalWrite;
  jp_auth : Auth;
  jp_ids : nat;
  jp_stats : AuthStats;
  jp_auth_state : string;
  jp_status : JournalStatus;
  jp_storage : storage_view }.

Definition with_jpending (p : option JournalWrite) (a : JournalApp) : JournalApp :=
  mkJournalApp p (jp_auth a) (jp_ids a) (jp_stats a) (jp_auth_state a) (jp_status a) (jp_storage a).
Definition with_detector (d : Auth) (ids : nat) (a : JournalApp) : JournalApp :=
  mkJournalApp (jp_pending a) d ids (jp_stats a) (jp_auth_state a) (jp_status a) (jp_storage a).
Definition with_stats (s : AuthStats) (a : JournalApp) : JournalApp :=
  mkJournalApp (jp_pending a) (jp_auth a) (jp_ids a) s (jp_auth_state a) (jp_status a) (jp_storage a).
Definition with_auth_state (s : string) (a : JournalApp) : JournalApp :=
  mkJournalApp (jp_pending a) (jp_auth a) (jp_ids a) (jp_stats a) s (jp_status a) (jp_storage a).
Definition with_status (s : JournalStatus) (a : JournalApp) : JournalApp :=
  mkJournalApp (jp_pending a) (jp_auth a) (jp_ids a) (jp_stats a) (jp_auth_state a) s (jp_storage a).
Definition jwrote (now : time) (failed : bool) (operation : string) (ingest : bool) (a : JournalApp) : JournalApp :=
  mkJournalApp (jp_pending a) (jp_auth a) (jp_ids a) (jp_stats a) (jp_auth_state a) (jp_status a)
    (recordWrite now (jp_storage a) (mkWrite failed operation ingest)).

(** A call that changes the database: whether it was answered without an error. *)
Definition call_store {E A} (f : call_fate) (r : result E (A * JournalDB)) (failed : A) (d : JournalDB) : bool * A * JournalDB :=
  match f, r with
  | Answered, Ok (x, d) => (true, x, d)
  | AnswerLost, Ok (_, d) => (false, failed, d)
  | _, _ => (false, failed, d)
  end.

(** What one call meets: the clock, the identifiers, the reads and the writes of the
    store, and what the history of logins reads besides the journal's tables. *)
Record journal_env := mkJournalEnv {
  jv_now : time;
  jv_fresh : string * string;
  jv_seen_ok : bool;
  jv_commit : call_fate;
  jv_cover : call_fate;
  jv_draws : commit_draws;
  jv_history : history_env }.

(** The history with the tables as they are. *)
Definition history_of (h : history_env) (d : JournalDB) : history_env :=
  mkHistory (hs_enabled h) (hs_zone h) (hs_privacy h) (hs_started h) (hs_order h) (hs_as_of h)
    (mkEvidence (jb_coverage d) (jb_gaps d) (et_health (hs_tables h)) (jb_retention d) (et_tracking (hs_tables h)))
    (jb_events d) (hs_integrity_ok h) (hs_logins_ok h).

(** ** Coverage of the detector *)

(** [refreshAuthCoverage]. *)
Definition refreshAuthCoverage (f : call_fate) (now : time) (s : JournalApp * JournalDB) : JournalApp * JournalDB :=
  let '(a, d) := s in
  if negb (ac_enabled (a_config (jp_auth a))) then s
  else
    let stats := StatsAt now (jp_auth a) in
    let a := with_stats stats a in
    let previous := jp_auth_state a in
    let state := if as_complete stats then "running"%string else "degraded"%string in
    if (state =?s previous) || ((state =?s "running") && (previous =?s "")) then (a, d)
    else
      let '(ok, _, d) := call_store f (let? d := SetComponentStatus "auth_detection" state now d in Ok (tt, d)) tt d in
      let a := jwrote now (negb ok) "auth_detection_coverage" false a in
      (if ok then with_auth_state state a else a, d).

(** ** Records *)

Section Ingest.
Context `{GoRuntime}.
(** SHA-256 of a cursor, the parser of frozen messages, the check on an event's JSON
    columns, the window in which notifications are merged, and what [prepareEvent] uses. *)
Context (cursorHash : string -> string) (parse_json : string -> option json).
Context (metadata_fits : Event -> bool) (window : duration) (prepare : preparer OutboxMessage).

(** The write of a record, and the observation that the detector was given. *)
Definition prepare_write (e : journal_env) (entry : JournalEntry) (seen : bool) (a : JournalApp) (d : JournalDB)
    : JournalWrite * JournalApp * option AuthObservation :=
  let write kind range event message :=
    mkJournalWrite (je_cursor entry) (je_received entry) (je_observed entry) kind range event message (trusted_entry entry) in
  match je_observation entry, seen with
  | Some o, false =>
      let range := (IP (pr_store prepare) (addr_string (ao_source o))).2 in
      let '(raised, (detector, ids)) := AuthDetect.Observe o (jp_auth a) (jp_ids a) in
      let a := with_detector detector ids a in
      match raised with
      | None => (write (ao_kind o) range None None, a, Some o)
      | Some event =>
          let event := addAuthHistoryHints (history_of (jv_history e) d) o event in
          let complete := (ac_window (a_config detector) <=? time_sub (jv_now e) (hs_started (jv_history e)))
                          && as_complete (StatsAt (jv_now e) detector) in
          let event := put_evidence "detection_window_complete" (fmt_bool complete) event in
          let '(stored, message) := prepareEvent prepare (jv_fresh e) (jv_now e) event in
          (write (ao_kind o) range (Some stored) message, a, Some o)
      end
  | _, _ => (write "" "" None None, a, None)
  end.

(** What a call did: its answer, the observation that the detector was given and the
    write whose effects were stored. *)
Record journal_call := mkJournalCall {
  jc_ack : ack; jc_given : option AuthObservation; jc_stored : option JournalWrite }.

(** The second half of [handleJournal]: the commit of the pending write. *)
Definition commit_pending (e : journal_env) (entry : JournalEntry) (w : JournalWrite) (given : option AuthObservation)
    (s : JournalApp * JournalDB) : journal_call * (JournalApp * JournalDB) :=
  let '(a, d) := s in
  let r := CommitJournal cursorHash parse_json metadata_fits window (jv_draws e) w d in
  let stored := match jv_commit e, r with
                | NotRun, _ => None
                | _, Ok (true, _) => Some w
                | _, _ => None
                end in
  let '(ok, inserted, d) := call_store (jv_commit e) r false d in
  let a := jwrote (jv_now e) (negb ok) "journal" (inserted && some (je_observation entry)) a in
  if ok then
    let a := if inserted && jw_trusted w then jwrote (jv_now e) false "journal_recovery" false a else a in
    (mkJournalCall (if inserted then AckNew else AckDuplicate) given stored,
     refreshAuthCoverage (jv_cover e) (jv_now e) (with_jpending None a, d))
  else (mkJournalCall AckFailed given stored, (a, d)).

(** The pending write that is of this record. *)
Definition pending_of_entry (entry : JournalEntry) (a : JournalApp) : option JournalWrite :=
  match jp_pending a with
  | Some w => if jw_cursor w =?s je_cursor entry then Some w else None
  | None => None
  end.

(** [handleJournal]. *)
Definition handleJournal (e : journal_env) (entry : JournalEntry) (s : JournalApp * JournalDB)
    : journal_call * (JournalApp * JournalDB) :=
  let '(a, d) := s in
  match pending_of_entry entry a with
  | Some w => commit_pending e entry w None (a, d)
  | None =>
      if negb (jv_seen_ok e) then (mkJournalCall AckFailed None None, (jwrote (jv_now e) true "journal" false a, d))
      else
        let '(w, a, given) := prepare_write e entry (JournalSeen cursorHash (je_cursor entry) d) a d in
        let a := with_jpending (Some w) (with_stats (StatsAt (jv_now e) (jp_auth a)) a) in
        commit_pending e entry w given (a, d)
  end.
End Ingest.

(** ** States of the reader *)

(** [journalCoverageGap]. *)
Definition journalCoverageGap (s : JournalStatus) : CoverageGap :=
  let since := if is_zero (js_since s) || after (js_since s) (js_at s) then js_at s else js_since s in
  mkCoverageGap "ssh_journal" (js_reason s) since (js_at s) (js_count s).

Definition only_db {E} (r : result E JournalDB) : result E (unit * JournalDB) := let? d := r in Ok (tt, d).

(** [recordJournalDegradation]; the flag says that it was recorded. *)
Definition recordJournalDegradation (f : call_fate) (now : time) (status : JournalStatus) (s : JournalApp * JournalDB)
    : bool * (JournalApp * JournalDB) :=
  let '(a, d) := s in
  let '(ok, _, d) := call_store f (only_db (RecordJournalDegradation (journalCoverageGap status) now d)) tt d in
  (ok, (jwrote now (negb ok) "coverage_gap" false (jwrote now (negb ok) "journal_recovery" false a), d)).

(** [recordJournalStatus], without the log. *)
Definition recordJournalStatus (f1 f2 : call_fate) (now : time) (status : JournalStatus) (s : JournalApp * JournalDB)
    : JournalApp * JournalDB :=
  let '(a, d) := s in
  let a := with_status status a in
  let state := if js_state status =?s "running" then "running"%string else "degraded"%string in
  let '(ok, _, d) := call_store f1 (only_db (SetComponentStatus "ssh_journal" state now d)) tt d in
  let a := jwrote now (negb ok) "coverage" false a in
  if (js_state status =?s "gap") && negb (QualityDegraded status) then
    let '(ok, _, d) := call_store f2 (only_db (recordJournalGap false (journalCoverageGap status) now d)) tt d in
    (jwrote now (negb ok) "coverage_gap" false a, d)
  else (a, d).

(** What the log says of a change: a flag for an information instead of a warning, and
    the attributes; [None] when nothing is logged. *)
Inductive log_value := LText (s : string) | LTime (t : time) | LInt (z : Z).

Definition logJournalTransition (logger : bool) (previous status : JournalStatus) : option (bool * list (string * log_value)) :=
  if negb logger || (js_state status =?s "starting") then None
  else
    let diagnostic := SafeDiagnostic status in
    let old := SafeDiagnostic previous in
    if (js_state previous =?s js_state status) && (js_reason previous =?s js_reason status)
       && (jd_cause old =?s jd_cause diagnostic) && (jd_scope old =?s jd_scope diagnostic)
       && (jd_signal old =?s jd_signal diagnostic) && bool_decide (jd_exit_code old = jd_exit_code diagnostic)
    then None
    else
      Some (js_state status =?s "running",
        [("state", LText (SafeJournalState (js_state status))); ("reason", LText (SafeJournalReason (js_reason status)))]%string
        ++ (if jd_cause diagnostic =?s "" then []
            else [("cause", LText (jd_cause diagnostic)); ("diagnostic_scope", LText (jd_scope diagnostic));
                  ("detail", LText (jd_detail diagnostic))]%string
                 ++ (if is_zero (jd_at diagnostic) then [] else [("diagnostic_at_utc"%string, LTime (jd_at diagnostic))])
                 ++ (match jd_exit_code diagnostic with Some z => [("exit_code"%string, LInt z)] | None => [] end)
                 ++ (if jd_signal diagnostic =?s "" then [] else [("signal"%string, LText (jd_signal diagnostic))]))).
