(* ===== verification/JournalOnce.v ===== *)
(** * Every journal record is counted once

    Over histories of [JournalIngest], whatever commits fail, are not answered or are
    answered after the reader gave up: as long as a record whose delivery failed is
    delivered again before the next one, the detector is given each record at most once
    and the store counts it exactly once. *)

From S2P Require Export JournalIngest IngestAck.

(** ** The table of cursor hashes *)

Definition max_row (seen : list (Z * string)) : Z := foldr Z.max 0 seen.*1.
(** Nothing would be pruned. *)
Definition pruned (seen : list (Z * string)) : Prop := Forall (fun r => max_row seen - maxJournalSeen < r.1) seen.

Lemma max_row_le seen r : r ∈ seen -> r.1 <= max_row seen.
Proof.
  unfold max_row. induction seen as [|x l IH]; [by intros ?%elem_of_nil|].
  intros [->|Hr]%elem_of_cons; csimpl; [lia|]. specialize (IH Hr). lia.
Qed.

Lemma max_row_nonneg seen : 0 <= max_row seen.
Proof. unfold max_row. induction seen as [|x l IH]; csimpl; lia. Qed.

Lemma max_row_elem seen : 0 < max_row seen -> exists r, r ∈ seen /\ r.1 = max_row seen.
Proof.
  unfold max_row. induction seen as [|x l IH]; csimpl; [lia|]. intros H.
  destruct (Z.max_spec x.1 (foldr Z.max 0 l.*1)) as [[H1 H2]|[H1 H2]]; rewrite H2 in *.
  - destruct (IH H) as (r & Hr & E). exists r. split; [by right|done].
  - exists x. split; [by left|done].
Qed.

Lemma max_row_snoc seen h : max_row (seen ++ [(next_row seen, h)]) = next_row seen.
Proof.
  unfold max_row, next_row. rewrite fmap_app, foldr_app. simpl.
  assert (H : forall l m, 0 <= m -> foldr Z.max m l = Z.max m (foldr Z.max 0 l)).
  { induction l as [|x l IH]; intros m Hm; simpl; [lia|]. rewrite (IH m) by done. lia. }
  pose proof (max_row_nonneg seen) as Hn. unfold max_row in Hn. rewrite H by lia. lia.
Qed.

Lemma hash_seen_spec h seen : hash_seen h seen = true <-> h ∈ seen.*2.
Proof.
  unfold hash_seen. rewrite existsb_exists, list_elem_of_fmap. setoid_rewrite String.eqb_eq. setoid_rewrite <- list_elem_of_In.
  split; intros (r & ? & ?); exists r; done.
Qed.

Lemma prune_seen_elem r seen : r ∈ prune_seen seen <-> r ∈ seen /\ max_row seen - maxJournalSeen < r.1.
Proof. unfold prune_seen. rewrite list_elem_of_filter. fold (max_row seen). split; intros [? ?]; split; done || lia. Qed.

Lemma prune_pruned seen : pruned seen -> prune_seen seen = seen.
Proof.
  intros H. unfold prune_seen, pruned in *. fold (max_row seen). revert H. generalize (max_row seen - maxJournalSeen) as m.
  induction seen as [|r l IH]; intros m H; [done|]. apply Forall_cons in H as [Hr Hl].
  rewrite filter_cons_True by lia. f_equal. by apply IH.
Qed.

Lemma prune_seen_pruned seen : pruned (prune_seen seen).
Proof.
  unfold pruned. apply Forall_forall. intros r Hr. apply prune_seen_elem in Hr as [Hin Hr].
  assert (max_row (prune_seen seen) <= max_row seen); [|lia].
  destruct (decide (0 < max_row (prune_seen seen))) as [Hp|Hp]; [|pose proof (max_row_nonneg seen); lia].
  destruct (max_row_elem _ Hp) as (x & Hx & <-). apply prune_seen_elem in Hx as [Hx _]. by apply max_row_le.
Qed.

(** ** What a commit changes *)

(** Each aggregate row is an exact count. *)
Definition auth_exact (a : AuthTables) : Prop := map_Forall (fun _ c => exact c) (at_rows a).
Definition auth_total (a : AuthTables) : Z := map_sum (fun _ c => int_of c) (at_rows a).

Lemma auth_row_le a k c : auth_exact a -> at_rows a !! k = Some c -> 0 <= int_of c <= auth_total a.
Proof.
  intros He Hk. split; [by destruct (He k c Hk) as (z & -> & Hz); simpl; lia|].
  apply (map_sum_lookup_le (fun _ c => int_of c) _ k); [|done]. intros k' c' Hk'. destruct (He k' c' Hk') as (z & -> & Hz). simpl. lia.
Qed.

Lemma auth_total_nonneg a : auth_exact a -> 0 <= auth_total a.
Proof. intros He. apply map_sum_nonneg. intros k c Hk. destruct (He k c Hk) as (z & -> & Hz). simpl. lia. Qed.

Lemma count_one_total k a keys : auth_exact a -> auth_total a < i64_max ->
  let a' := mkAuthTables (count_one k (at_rows a)) keys in auth_exact a' /\ auth_total a' = auth_total a + 1.
Proof.
  intros He Ht a'. unfold a', auth_exact, auth_total, count_one. cbn [at_rows].
  pose proof (auth_total_nonneg a He) as H0. destruct (at_rows a !! k) as [c|] eqn:E.
  - pose proof (auth_row_le _ _ _ He E) as Hc. destruct (He k c E) as (z & -> & Hz). simpl in Hc.
    assert (Hadd : sql_add (CInt z) 1 = CInt (z + 1)).
    { unfold sql_add. rewrite (proj2 (Z.leb_le _ _)), (proj2 (Z.leb_le _ _)) by zlia. done. }
    rewrite Hadd. split.
    + apply map_Forall_insert_2; [exists (z + 1); split; [done|lia]|done].
    + rewrite (map_sum_insert _ _ _ _ _ E). simpl. unfold auth_total. lia.
  - split.
    + apply map_Forall_insert_2; [exists 1; split; [done|zlia]|done].
    + rewrite map_sum_insert_None by done. simpl. unfold auth_total. lia.
Qed.

Lemma addAuth_total at' kind range now a r a' r' :
  auth_exact a -> auth_total a < i64_max -> addAuth at' kind range now a r = Ok (a', r') ->
  auth_exact a' /\ auth_total a' = auth_total a + 1.
Proof.
  intros He Ht. unfold addAuth. case_if; [done|]. cbv zeta. destruct (at_rows a !! _).
  - intros [= <- <-]. by apply count_one_total.
  - case_if; [intros [= <- <-]; by apply count_one_total|]. destruct (retained _); [|done]. intros [= <- <-]. by apply count_one_total.
Qed.

Section Once.
Context `{GoRuntime}.
Context (cursorHash : string -> string) (parse_json : string -> option json).
Context (metadata_fits : Event -> bool) (window : duration) (prepare : preparer OutboxMessage).

(** Whether a write counts an authentication. *)
Definition counts (w : JournalWrite) : bool := negb (jw_kind w =?s "").

(** The authentication rows after [n] more counts. *)
Definition counted_more (n : Z) (a a' : AuthTables) : Prop :=
  auth_exact a -> auth_total a + n <= i64_max -> auth_exact a' /\ auth_total a' = auth_total a + n.

Lemma store_record_effect c w d d' :
  store_record parse_json metadata_fits window c w d = Ok d' ->
  jb_seen d' = jb_seen d /\ counted_more (if counts w then 1 else 0) (jb_auth d) (jb_auth d').
Proof.
  unfold store_record, counts.
  assert (H1 : forall d1, (if jw_trusted w then setJournalRecovery false d else Ok d) = Ok d1 ->
    jb_seen d1 = jb_seen d /\ jb_auth d1 = jb_auth d).
  { intros d1. case_if; [|by intros [= <-]]. unfold setJournalRecovery. destruct (jb_recovery d); [|done]. by intros [= <-]. }
  destruct (if jw_trusted w then _ else _) as [d1|]; [|done]. destruct (H1 d1 eq_refl) as [Es Ea]. cbn [rbind].
  set (r2 := if jw_kind w =?s "" then _ else _).
  assert (H2 : forall d2, r2 = Ok d2 -> jb_seen d2 = jb_seen d /\ counted_more (if negb (jw_kind w =?s "") then 1 else 0) (jb_auth d) (jb_auth d2)).
  { unfold r2. intros d2. destruct (jw_kind w =?s ""); cbn [negb].
    - intros [= <-]. split; [done|]. intros He _. rewrite Ea, Z.add_0_r. done.
    - destruct (addAuth _ _ _ _ _ _) as [[a r]|] eqn:E; [|done]. intros [= <-]. split; [done|].
      intros He Ht. rewrite Ea in E. apply (addAuth_total _ _ _ _ _ _ _ _ He ltac:(lia) E). }
  destruct r2 as [d2|]; [|done]. destruct (H2 d2 eq_refl) as [Es2 Hc]. cbn [rbind].
  assert (Hfin : forall d3, jb_seen d3 = jb_seen d2 -> jb_auth d3 = jb_auth d2 -> jb_seen d3 = jb_seen d
    /\ counted_more (if negb (jw_kind w =?s "") then 1 else 0) (jb_auth d) (jb_auth d3)) by (intros d3 -> ->; done).
  destruct (jw_event w) as [e|].
  - destruct (insertEvent _ _ _); [|done]. cbn [rbind]. destruct (recordEventNotification _ _ _ _ _ _ _); [|done].
    intros [= <-]. by apply Hfin.
  - destruct (jw_notification w) as [m|]; [|intros [= <-]; by apply Hfin].
    destruct (enqueue _ _ _ _) as [[o x]|]; [|done]. intros [= <-]. by apply Hfin.
Qed.

Lemma prune_keeps h seen : pruned seen -> (next_row seen, h) ∈ prune_seen (seen ++ [(next_row seen, h)]).
Proof.
  intros _. apply prune_seen_elem. rewrite max_row_snoc. split; [apply elem_of_app; right; by left|].
  unfold maxJournalSeen. simpl. lia.
Qed.

(** A commit leaves the hash of its cursor in the table, counts the record when it was
    not there, and adds no other hash. *)
Lemma CommitJournal_effect c w d fresh d' :
  pruned (jb_seen d) -> CommitJournal cursorHash parse_json metadata_fits window c w d = Ok (fresh, d') ->
  fresh = negb (hash_seen (cursorHash (jw_cursor w)) (jb_seen d))
  /\ pruned (jb_seen d') /\ cursorHash (jw_cursor w) ∈ (jb_seen d').*2
  /\ (forall h, h ∈ (jb_seen d').*2 -> h ∈ (jb_seen d).*2 \/ h = cursorHash (jw_cursor w))
  /\ counted_more (if fresh && counts w then 1 else 0) (jb_auth d) (jb_auth d').
Proof.
  intros Hp. unfold CommitJournal. case_if; [done|]. cbv zeta. set (h := cursorHash (jw_cursor w)).
  destruct (hash_seen h (jb_seen d)) eqn:Eh; cbn [negb rbind].
  - intros [= <- <-]. cbn [jb_seen with_seen put_checkpoint with_checkpoint jb_auth]. rewrite prune_pruned by done.
    split; [done|]. split; [done|]. split; [by apply hash_seen_spec|]. split; [by left|]. intros He _. by rewrite Z.add_0_r.
  - destruct (store_record _ _ _ _ _ _) as [d1|] eqn:Es; [|done]. cbn [rbind]. intros [= <- <-].
    apply store_record_effect in Es as [Eseen Hc]. cbn [jb_seen with_seen put_checkpoint with_checkpoint jb_auth] in *.
    rewrite Eseen. split; [done|]. split; [apply prune_seen_pruned|]. split.
    + apply list_elem_of_fmap. exists (next_row (jb_seen d), h). split; [done|]. by apply prune_keeps.
    + split; [|done]. intros h' Hh. apply list_elem_of_fmap in Hh as (r & -> & Hr). apply prune_seen_elem in Hr as [Hr _].
      apply elem_of_app in Hr as [Hr|Hr]; [left; by apply list_elem_of_fmap_2|right]. by apply list_elem_of_singleton in Hr as ->.
Qed.

(** ** Histories *)

(** Deliveries of records and what else changes this state between them. *)
Inductive journal_op :=
| Deliver (e : journal_env) (entry : JournalEntry)
| Refresh (f : call_fate) (now : time)
| Degraded (f : call_fate) (now : time) (status : JournalStatus)
| Status (f1 f2 : call_fate) (now : time) (status : JournalStatus).

Abbreviation state := (JournalApp * JournalDB)%type.
Abbreviation trace := (list (JournalEntry * journal_call)).

Definition journal_step (s : state * trace) (op : journal_op) : state * trace :=
  match op with
  | Deliver e entry =>
      let '(c, s') := handleJournal cursorHash parse_json metadata_fits window prepare e entry s.1 in
      (s', s.2 ++ [(entry, c)])
  | Refresh f now => (refreshAuthCoverage f now s.1, s.2)
  | Degraded f now status => ((recordJournalDegradation f now status s.1).2, s.2)
  | Status f1 f2 now status => (recordJournalStatus f1 f2 now status s.1, s.2)
  end.

Definition journal_history (ops : list journal_op) (s : state) : state * trace := foldl journal_step (s, []) ops.

Definition delivered (ops : list journal_op) : list JournalEntry :=
  omap (fun op => match op with Deliver _ entry => Some entry | _ => None end) ops.

(** The observations that the detector was given, with their cursors. *)
Definition given_of (t : trace) : list (string * AuthObservation) :=
  omap (fun x : JournalEntry * journal_call => pair (je_cursor x.1) <$> jc_given x.2) t.
(** The writes whose effects were stored. *)
Definition stored_of (t : trace) : list JournalWrite := omap (fun x : JournalEntry * journal_call => jc_stored x.2) t.

Lemma given_app t t' : given_of (t ++ t') = given_of t ++ given_of t'.
Proof. apply omap_app. Qed.
Lemma stored_app t t' : stored_of (t ++ t') = stored_of t ++ stored_of t'.
Proof. apply omap_app. Qed.

(** What the write of a record says of it. *)
Definition write_of (given : list (string * AuthObservation)) (es : list JournalEntry) (w : JournalWrite) : Prop :=
  exists entry, entry ∈ es /\ jw_cursor w = je_cursor entry /\ jw_received w = je_received entry
    /\ jw_observed w = je_observed entry /\ jw_trusted w = trusted_entry entry
    /\ jw_kind w = from_option ao_kind ""%string (je_observation entry)
    /\ forall o, je_observation entry = Some o -> (je_cursor entry, o) ∈ given.

Lemma write_of_more given given' es es' w : write_of given es w -> write_of (given ++ given') (es ++ es') w.
Proof.
  intros (entry & Hin & H1 & H2 & H3 & H4 & H5 & H6). exists entry. split; [apply elem_of_app; by left|].
  do 5 (split; [done|]). intros o Ho. apply elem_of_app. left. by apply H6.
Qed.

(** The deliveries so far are [es], of the initial state [s0]. *)
Record journal_inv (s0 : state) (es : list JournalEntry) (s : state) (t : trace) : Prop := {
  ji_pruned : pruned (jb_seen s.2);
  ji_detector : (jp_auth s.1, jp_ids s.1) = (observe_all (given_of t).*2 (jp_auth s0.1) (jp_ids s0.1)).2;
  ji_given : (given_of t).*1 ⊆ je_cursor <$> es;
  ji_given_once : NoDup (given_of t).*1;
  ji_stored : jw_cursor <$> stored_of t ⊆ je_cursor <$> es;
  ji_stored_once : NoDup (jw_cursor <$> stored_of t);
  ji_writes : Forall (write_of (given_of t) es) (stored_of t);
  ji_hashes : forall h, h ∈ (jb_seen s.2).*2 -> h ∈ (jb_seen s0.2).*2 \/ h ∈ cursorHash ∘ jw_cursor <$> stored_of t;
  ji_last_stored : forall c, last (je_cursor <$> es) = Some c -> c ∈ jw_cursor <$> stored_of t -> cursorHash c ∈ (jb_seen s.2).*2;
  ji_last_given : forall c, last (je_cursor <$> es) = Some c -> (forall w, jp_pending s.1 = Some w -> jw_cursor w <> c) ->
    c ∈ (given_of t).*1 -> cursorHash c ∈ (jb_seen s.2).*2;
  ji_pending : forall w, jp_pending s.1 = Some w -> jw_cursor w ∈ je_cursor <$> es
    /\ (write_of (given_of t) es w \/ cursorHash (jw_cursor w) ∈ (jb_seen s.2).*2);
  ji_counts : counted_more (lenZ (filter (fun w => counts w = true) (stored_of t))) (jb_auth s0.2) (jb_auth s.2);
  ji_acks : Forall (fun x => match jc_ack x.2 with
      | AckNew => je_cursor x.1 ∈ jw_cursor <$> stored_of t
      | AckDuplicate => cursorHash (je_cursor x.1) ∈ (jb_seen s0.2).*2
                        \/ cursorHash (je_cursor x.1) ∈ cursorHash ∘ jw_cursor <$> stored_of t
      | AckFailed => True
      end) t }.

(** *** Steps that leave the records alone *)

Definition same_rows (d d' : JournalDB) : Prop :=
  jb_seen d' = jb_seen d /\ jb_auth d' = jb_auth d /\ jb_checkpoint d' = jb_checkpoint d.
Definition same_records (s s' : state) : Prop :=
  same_rows s.2 s'.2 /\ jp_pending s'.1 = jp_pending s.1
  /\ jp_auth s'.1 = jp_auth s.1 /\ jp_ids s'.1 = jp_ids s.1.

Lemma inv_same s0 es s s' t : same_records s s' -> journal_inv s0 es s t -> journal_inv s0 es s' t.
Proof.
  intros ((E1 & E2 & _) & E3 & E4 & E5) []. split; rewrite ?E1, ?E2, ?E3, ?E4, ?E5; done.
Qed.

Lemma call_store_same {E A} (f : call_fate) (r : result E (A * JournalDB)) x d :
  (forall y d', r = Ok (y, d') -> same_rows d d') -> let '(_, _, d') := call_store f r x d in same_rows d d'.
Proof. intros Hr. unfold call_store. destruct f, r as [[y d']|]; try done; by apply (Hr y). Qed.

Lemma status_same name st now d d' : SetComponentStatus name st now d = Ok d' -> same_rows d d'.
Proof. unfold SetComponentStatus. destruct (setCoverage _ _ _ _ _) as [[c r]|]; [|done]. by intros [= <-]. Qed.

Lemma gap_same pending g now d d' : recordJournalGap pending g now d = Ok d' -> same_rows d d'.
Proof.
  unfold recordJournalGap, setJournalRecovery. destruct pending; [destruct (jb_recovery d); [|done]|]; cbn [rbind];
    (destruct (recordCoverageGap _ _ _ _) as [[l r]|]; [|done]); by intros [= <-].
Qed.

Lemma only_db_same {E} (r : result E JournalDB) d :
  (forall d', r = Ok d' -> same_rows d d') -> forall y d', only_db r = Ok (y, d') -> same_rows d d'.
Proof. intros Hr y d'. unfold only_db. destruct r as [x|]; [|done]. intros [= <- <-]. by apply Hr. Qed.

Lemma refresh_same f now s : same_records s (refreshAuthCoverage f now s).
Proof.
  destruct s as [a d]. unfold refreshAuthCoverage, same_records. case_if; [done|]. cbv zeta.
  set (st := if as_complete _ then _ else _). case_if; [done|].
  pose proof (call_store_same f (let? d' := SetComponentStatus "auth_detection" st now d in Ok (tt, d')) tt d) as H1.
  destruct (call_store _ _ _ _) as [[ok x] d']. split; [|by destruct ok].
  apply H1. intros y d1. destruct (SetComponentStatus _ _ _ _) as [d2|] eqn:Ec; [|done]. intros [= <- <-]. by eapply status_same.
Qed.

Lemma degradation_same f now status s : same_records s (recordJournalDegradation f now status s).2.
Proof.
  destruct s as [a d]. unfold recordJournalDegradation, same_records.
  pose proof (call_store_same f (only_db (RecordJournalDegradation (journalCoverageGap status) now d)) tt d) as H1.
  destruct (call_store _ _ _ _) as [[ok x] d']. split; [|done]. apply H1.
  apply only_db_same. intros d1. unfold RecordJournalDegradation. case_if; [done|]. apply gap_same.
Qed.

Lemma recorded_same f1 f2 now status s : same_records s (recordJournalStatus f1 f2 now status s).
Proof.
  destruct s as [a d]. unfold recordJournalStatus, same_records. cbv zeta.
  set (st := if _ =?s "running" then _ else _).
  pose proof (call_store_same f1 (only_db (SetComponentStatus "ssh_journal" st now d)) tt d) as H1.
  destruct (call_store f1 _ _ _) as [[ok x] d'].
  assert (Hs : same_rows d d') by (apply H1, only_db_same; intros; by eapply status_same).
  case_if; [|done].
  pose proof (call_store_same f2 (only_db (recordJournalGap false (journalCoverageGap status) now d')) tt d') as H2.
  destruct (call_store f2 _ _ _) as [[ok2 x2] d2].
  assert (Hs2 : same_rows d' d2) by (apply H2, only_db_same; intros; by eapply gap_same).
  split; [|done]. destruct Hs as (E1 & E2 & E3), Hs2 as (F1 & F2 & F3). unfold same_rows. cbn [snd]. by rewrite F1, F2, F3.
Qed.

(** *** A delivery before anything happens *)

Lemma inv_delivered s0 es s t entry :
  (je_cursor entry ∈ je_cursor <$> es -> last (je_cursor <$> es) = Some (je_cursor entry)) ->
  journal_inv s0 es s t -> journal_inv s0 (es ++ [entry]) s (t ++ [(entry, mkJournalCall AckFailed None None)]).
Proof.
  intros Hi []. assert (Eg : given_of (t ++ [(entry, mkJournalCall AckFailed None None)]) = given_of t)
    by (rewrite given_app; apply app_nil_r).
  assert (Es : stored_of (t ++ [(entry, mkJournalCall AckFailed None None)]) = stored_of t)
    by (rewrite stored_app; apply app_nil_r).
  assert (Hsub : je_cursor <$> es ⊆ je_cursor <$> es ++ [entry]) by (rewrite fmap_app; apply list_subseteq_app_l; done).
  assert (Hw : forall w, write_of (given_of t) es w -> write_of (given_of t) (es ++ [entry]) w).
  { intros w Hw. rewrite <- (app_nil_r (given_of t)). by apply write_of_more. }
  split; rewrite ?Eg, ?Es; try done.
  - by etransitivity.
  - by etransitivity.
  - eapply Forall_impl; [eassumption|]. exact Hw.
  - rewrite fmap_app. intros c. cbn. rewrite last_snoc. intros [= <-] Hc. apply ji_last_stored0; [|done]. by apply Hi, ji_stored0.
  - rewrite fmap_app. intros c. cbn. rewrite last_snoc. intros [= <-] Hp Hc. apply ji_last_given0; [|done..]. by apply Hi, ji_given0.
  - intros w Hp. destruct (ji_pending0 w Hp) as [H1 [H2|H2]]; (split; [by apply Hsub|]); [left; by apply Hw|by right].
  - apply Forall_app. split; [done|by repeat constructor].
Qed.

(** *** The preparation of a write *)

(** The state after an observation, or none, was given to the detector. *)
Definition detector_after (given : option AuthObservation) (a a' : JournalApp) : Prop :=
  match given with
  | None => (jp_auth a', jp_ids a') = (jp_auth a, jp_ids a)
  | Some o => (jp_auth a', jp_ids a') = (AuthDetect.Observe o (jp_auth a) (jp_ids a)).2
  end.

Lemma prepare_write_effect e entry seen a d w a' given :
  prepare_write prepare e entry seen a d = (w, a', given) ->
  detector_after given a a' /\ jw_cursor w = je_cursor entry
  /\ (given <> None -> seen = false)
  /\ (seen = false -> given = je_observation entry /\ jw_received w = je_received entry
      /\ jw_observed w = je_observed entry /\ jw_trusted w = trusted_entry entry
      /\ jw_kind w = from_option ao_kind ""%string (je_observation entry)).
Proof.
  unfold prepare_write. destruct (je_observation entry) as [o|]; [|intros [= <- <- <-]; by repeat split].
  destruct seen; [intros [= <- <- <-]; by repeat split|].
  destruct (AuthDetect.Observe o (jp_auth a) (jp_ids a)) as [raised [detector ids]] eqn:Eo.
  destruct raised as [event|]; [|intros [= <- <- <-]; cbn; rewrite Eo; by repeat split].
  destruct (prepareEvent _ _ _ _) as [stored message]. intros [= <- <- <-]. cbn. rewrite Eo. by repeat split.
Qed.

Lemma given_call t entry a given st :
  given_of (t ++ [(entry, mkJournalCall a given st)]) = given_of t ++ match given with Some o => [(je_cursor entry, o)] | None => [] end.
Proof. rewrite given_app. by destruct given. Qed.

Lemma stored_call t entry a given st :
  stored_of (t ++ [(entry, mkJournalCall a given st)]) = stored_of t ++ match st with Some w => [w] | None => [] end.
Proof. rewrite stored_app. by destruct st. Qed.

Lemma inv_prepared s0 es entry a d t w a' given :
  let c := je_cursor entry in
  journal_inv s0 (es ++ [entry]) (a, d) (t ++ [(entry, mkJournalCall AckFailed None None)]) ->
  (forall w, jp_pending a = Some w -> jw_cursor w <> c) ->
  detector_after given a a' -> jw_cursor w = c -> (given <> None -> JournalSeen cursorHash c d = false) ->
  (JournalSeen cursorHash c d = false -> given = je_observation entry /\ jw_received w = je_received entry
      /\ jw_observed w = je_observed entry /\ jw_trusted w = trusted_entry entry
      /\ jw_kind w = from_option ao_kind ""%string (je_observation entry)) ->
  jp_pending a' = Some w ->
  journal_inv s0 (es ++ [entry]) (a', d) (t ++ [(entry, mkJournalCall AckFailed given None)]).
Proof.
  intros c Hi Hnp Hdet Hwc Hgs Hw Hpw. destruct Hi as [I1 I2 I3 I4 I5 I6 I7 I8 I9 I10 I11 I12 I13].
  rewrite !given_call, !stored_call, !app_nil_r in *.
  assert (Hlast : last (je_cursor <$> es ++ [entry]) = Some c) by (rewrite fmap_app; apply last_snoc).
  assert (Hnew : given <> None -> c ∉ (given_of t).*1).
  { intros Hg Hc. specialize (I10 c Hlast Hnp Hc). apply hash_seen_spec in I10. specialize (Hgs Hg). unfold JournalSeen in Hgs.
    simpl in I10. congruence. }
  set (new := match given with Some o => [(je_cursor entry, o)] | None => [] end).
  assert (Hnewc : new.*1 = match given with Some _ => [c] | None => [] end) by (unfold new; by destruct given).
  assert (Hmore : forall x, write_of (given_of t) (es ++ [entry]) x -> write_of (given_of t ++ new) (es ++ [entry]) x).
  { intros x Hx. rewrite <- (app_nil_r (es ++ [entry])). by apply write_of_more. }
  split; rewrite ?given_call, ?stored_call, ?app_nil_r; fold new; cbn [fst snd] in *; try done.
  - rewrite fmap_app. unfold new, detector_after in *. destruct given as [o|]; [|by rewrite app_nil_r, Hdet].
    cbn [fmap list_fmap]. rewrite observe_all_snoc. cbn [snd]. rewrite <- I2. exact Hdet.
  - rewrite fmap_app, Hnewc. apply list_subseteq_app_iff_l. split; [done|]. destruct given; [|apply list_subseteq_nil].
    intros x Hx%list_elem_of_singleton. subst x. rewrite fmap_app. apply elem_of_app. right. by left.
  - rewrite fmap_app, Hnewc. destruct given; [|by rewrite app_nil_r].
    apply NoDup_app. split; [done|]. split; [|apply NoDup_singleton].
    intros x Hx Hxc%list_elem_of_singleton. subst x. by apply Hnew.
  - eapply Forall_impl; [exact I7|]. exact Hmore.
  - intros c' Hc' Hp. exfalso. rewrite Hlast in Hc'. injection Hc' as <-. by apply (Hp w).
  - intros w' Hw'. rewrite Hpw in Hw'. injection Hw' as <-. split.
    { rewrite Hwc, fmap_app. apply elem_of_app. right. by left. }
    destruct (JournalSeen cursorHash c d) eqn:Eseen; [right; rewrite Hwc; by apply hash_seen_spec|left].
    destruct (Hw eq_refl) as (Hg & H1 & H2 & H3 & H4). exists entry. split; [apply elem_of_app; right; by left|].
    do 5 (split; [done|]). intros o Ho. unfold new. rewrite Hg, Ho. apply elem_of_app. right. by left.
  - apply Forall_app in I13 as [I13 _]. apply Forall_app. split; [done|by repeat constructor].
Qed.

(** *** The commit of the pending write *)

Lemma counted_more_trans n m a b c : 0 <= m -> counted_more n a b -> counted_more m b c -> counted_more (n + m) a c.
Proof.
  intros Hm H1 H2 He Ht. destruct (H1 He ltac:(lia)) as [He1 Ht1]. destruct (H2 He1 ltac:(lia)) as [He2 Ht2].
  split; [done|lia].
Qed.

(** Calls stay right when more is stored. *)
Definition call_right (seen0 : list string) (stored : list JournalWrite) (x : JournalEntry * journal_call) : Prop :=
  match jc_ack x.2 with
  | AckNew => je_cursor x.1 ∈ jw_cursor <$> stored
  | AckDuplicate => cursorHash (je_cursor x.1) ∈ seen0 \/ cursorHash (je_cursor x.1) ∈ cursorHash ∘ jw_cursor <$> stored
  | AckFailed => True
  end.

Lemma call_right_more seen0 stored more x : call_right seen0 stored x -> call_right seen0 (stored ++ more) x.
Proof.
  unfold call_right. destruct (jc_ack x.2); [|intros [Hx|Hx]; [by left|right]|done];
    rewrite fmap_app; intros; apply elem_of_app; by left.
Qed.

Lemma inv_stored s0 es entry a d t w given draws fresh d' k a' :
  let c := je_cursor entry in
  journal_inv s0 (es ++ [entry]) (a, d) (t ++ [(entry, mkJournalCall AckFailed given None)]) ->
  jp_pending a = Some w -> jw_cursor w = c ->
  CommitJournal cursorHash parse_json metadata_fits window draws w d = Ok (fresh, d') ->
  (k = AckFailed \/ k = if fresh then AckNew else AckDuplicate) ->
  (jp_auth a', jp_ids a') = (jp_auth a, jp_ids a) -> (jp_pending a' = None \/ jp_pending a' = Some w) ->
  journal_inv s0 (es ++ [entry]) (a', d') (t ++ [(entry, mkJournalCall k given (if fresh then Some w else None))]).
Proof.
  intros c Hi Hpw Hwc Hcommit Hk Hdet Hpend. destruct Hi as [I1 I2 I3 I4 I5 I6 I7 I8 I9 I10 I11 I12 I13].
  cbn [fst snd] in *. apply (CommitJournal_effect _ _ _ _ _ I1) in Hcommit as (Ef & E1 & E2 & E3 & E4).
  assert (Hlast : last (je_cursor <$> es ++ [entry]) = Some c) by (rewrite fmap_app; apply last_snoc).
  assert (Hfresh : fresh = true -> cursorHash c ∉ (jb_seen d).*2).
  { intros -> Hin. rewrite Hwc in Ef. apply hash_seen_spec in Hin. by rewrite Hin in Ef. }
  set (new := if fresh then [w] else []).
  assert (Hnew : match (if fresh then Some w else None) with Some w => [w] | None => [] end = new) by (unfold new; by destruct fresh).
  rewrite !given_call, !stored_call, app_nil_r in *.
  assert (Hsub : forall A (f : JournalWrite -> A), f <$> new ⊆ f <$> [w]).
  { intros A f. unfold new. destruct fresh; [done|apply list_subseteq_nil]. }
  split; rewrite ?given_call, ?stored_call, ?Hnew; cbn [fst snd] in *; try done.
  - by rewrite Hdet.
  - rewrite fmap_app. apply list_subseteq_app_iff_l. split; [done|]. etransitivity; [apply Hsub|].
    intros x Hx%list_elem_of_singleton. subst x. rewrite Hwc, fmap_app. apply elem_of_app. right. by left.
  - rewrite fmap_app. unfold new. destruct fresh; [|by rewrite app_nil_r]. apply NoDup_app. split; [done|].
    split; [|apply NoDup_singleton]. intros x Hx Hxw%list_elem_of_singleton. subst x. apply (Hfresh eq_refl).
    rewrite Hwc in Hx. by apply (I9 c).
  - apply Forall_app. split; [done|]. unfold new. destruct fresh; [|done]. apply Forall_singleton.
    destruct (I11 w Hpw) as [_ [Hw|Hw]]; [done|]. exfalso. rewrite Hwc in Hw. by apply (Hfresh eq_refl).
  - intros h Hh. destruct (E3 h Hh) as [Hh'| ->]; [destruct (I8 h Hh') as [?|Hst]; [by left|right]|].
    + rewrite fmap_app. apply elem_of_app. by left.
    + rewrite fmap_app. unfold new. destruct fresh.
      * right. apply elem_of_app. right. by left.
      * destruct (I8 (cursorHash (jw_cursor w))) as [?|Hst]; [apply hash_seen_spec; by destruct (hash_seen _ _)|by left|].
        right. apply elem_of_app. by left.
  - intros c' Hc' _. rewrite Hlast in Hc'. injection Hc' as <-. by rewrite <- Hwc.
  - intros c' Hc' _ _. rewrite Hlast in Hc'. injection Hc' as <-. by rewrite <- Hwc.
  - intros w' Hw'. assert (w' = w) as -> by (destruct Hpend; congruence). split; [by apply (I11 w)|by right].
  - rewrite filter_app, lenZ_app. apply (counted_more_trans _ _ _ (jb_auth d)); [unfold lenZ; lia|done|].
    unfold new. destruct fresh; [|exact E4]. rewrite filter_cons. cbn [andb] in E4. destruct (counts w); [|exact E4].
    rewrite decide_True by done. exact E4.
  - apply Forall_app in I13 as [I13 _]. apply Forall_app. split.
    + eapply Forall_impl; [exact I13|]. intros x. apply call_right_more.
    + apply Forall_singleton. cbn [fst snd jc_ack]. destruct Hk as [-> | ->]; [done|]. unfold new. destruct fresh.
      * rewrite fmap_app. apply elem_of_app. right. apply list_elem_of_singleton. by symmetry.
      * rewrite app_nil_r. apply I8. rewrite Hwc in Ef. apply hash_seen_spec. fold c. by destruct (hash_seen _ _).
Qed.

Lemma inv_committed s0 es entry a d t w given e :
  journal_inv s0 (es ++ [entry]) (a, d) (t ++ [(entry, mkJournalCall AckFailed given None)]) ->
  jp_pending a = Some w -> jw_cursor w = je_cursor entry ->
  let '(call, s') := commit_pending cursorHash parse_json metadata_fits window e entry w given (a, d) in
  journal_inv s0 (es ++ [entry]) s' (t ++ [(entry, call)]).
Proof.
  intros Hi Hpw Hwc. unfold commit_pending.
  assert (Hno : forall now f op i, journal_inv s0 (es ++ [entry]) (jwrote now f op i a, d) (t ++ [(entry, mkJournalCall AckFailed given None)]))
    by (intros; apply (inv_same _ _ (a, d)); [by repeat split|done]).
  destruct (CommitJournal _ _ _ _ _ _ _) as [[fresh d']|] eqn:Ec; [|destruct (jv_commit e); apply Hno].
  destruct (jv_commit e); cbn [call_store]; [apply Hno| |].
  - set (a1 := if fresh && jw_trusted w then _ else _). eapply inv_same; [apply refresh_same|].
    assert (Hst : forall x, match fresh, x with true, _ => Some w | _, _ => None end = if fresh then Some w else None :> option JournalWrite)
      by (by destruct fresh).
    assert (H1 : journal_inv s0 (es ++ [entry]) (with_jpending None a1, d')
      (t ++ [(entry, mkJournalCall (if fresh then AckNew else AckDuplicate) given (if fresh then Some w else None))])).
    { eapply inv_stored; [exact Hi|done|done|exact Ec|by right|unfold a1; by case_if|by left]. }
    by destruct fresh.
  - assert (H1 : forall now f op i, journal_inv s0 (es ++ [entry]) (jwrote now f op i a, d')
      (t ++ [(entry, mkJournalCall AckFailed given (if fresh then Some w else None))])).
    { intros. eapply inv_stored; [exact Hi|done|done|exact Ec|by left|done|by right]. }
    by destruct fresh; apply H1.
Qed.

(** *** Histories *)

Lemma pending_of_entry_Some entry a w : pending_of_entry entry a = Some w -> jp_pending a = Some w /\ jw_cursor w = je_cursor entry.
Proof.
  unfold pending_of_entry. destruct (jp_pending a) as [w'|]; [|done].
  destruct (String.eqb_spec (jw_cursor w') (je_cursor entry)); [|done]. by intros [= ->].
Qed.

Lemma pending_of_entry_None entry a w : pending_of_entry entry a = None -> jp_pending a = Some w -> jw_cursor w <> je_cursor entry.
Proof. unfold pending_of_entry. intros Hn Hp. rewrite Hp in Hn. revert Hn. by destruct (String.eqb_spec (jw_cursor w) (je_cursor entry)). Qed.

Lemma inv_deliver s0 es s t e entry :
  (je_cursor entry ∈ je_cursor <$> es -> last (je_cursor <$> es) = Some (je_cursor entry)) ->
  journal_inv s0 es s t ->
  let '(call, s') := handleJournal cursorHash parse_json metadata_fits window prepare e entry s in
  journal_inv s0 (es ++ [entry]) s' (t ++ [(entry, call)]).
Proof.
  intros Himm Hi. apply (inv_delivered _ _ _ _ _ Himm) in Hi. destruct s as [a d]. unfold handleJournal.
  destruct (pending_of_entry entry a) as [w|] eqn:Ep.
  - apply pending_of_entry_Some in Ep as [Hp Hc]. by apply inv_committed.
  - destruct (jv_seen_ok e); cbn [negb]; [|by apply (inv_same _ _ (a, d)); [repeat split|]].
    destruct (prepare_write _ _ _ _ _ _) as [[w a'] given] eqn:Ew.
    apply prepare_write_effect in Ew as (Hdet & Hc & Hgs & Hw).
    apply inv_committed; [|done..]. eapply inv_prepared; [exact Hi| | |exact Hc|done..].
    + intros w' Hw'. by apply (pending_of_entry_None entry a).
    + unfold detector_after in *. by destruct given.
Qed.

Lemma inv_history s0 ops : forall es s t,
  immediate (je_cursor <$> es) (je_cursor <$> delivered ops) = true -> journal_inv s0 es s t ->
  journal_inv s0 (es ++ delivered ops) (foldl journal_step (s, t) ops).1 (foldl journal_step (s, t) ops).2.
Proof.
  induction ops as [|op ops IH]; intros es s t Himm Hi; cbn [foldl]; [by rewrite app_nil_r|].
  destruct op as [e entry|f now|f now status|f1 f2 now status]; cbn [journal_step fst snd].
  - change (delivered (Deliver e entry :: ops)) with (entry :: delivered ops) in *.
    cbn in Himm. apply andb_true_iff in Himm as [Hx Himm].
    assert (Hlast : je_cursor entry ∈ je_cursor <$> es -> last (je_cursor <$> es) = Some (je_cursor entry)).
    { intros Hin. rewrite bool_decide_true in Hx by done. by apply bool_decide_eq_true in Hx. }
    pose proof (inv_deliver s0 es s t e entry Hlast Hi) as H1. destruct (handleJournal _ _ _ _ _ _ _ _) as [call s'].
    rewrite cons_middle, app_assoc. apply IH; [|done]. by rewrite fmap_app.
  - apply IH; [done|]. eapply inv_same; [apply refresh_same|done].
  - apply IH; [done|]. eapply inv_same; [apply degradation_same|done].
  - apply IH; [done|]. eapply inv_same; [apply recorded_same|done].
Qed.

Lemma inv_start a d : jp_pending a = None -> pruned (jb_seen d) -> journal_inv (a, d) [] (a, d) [].
Proof.
  intros Hp Hr. split; cbn; try done.
  - constructor.
  - constructor.
  - by left.
  - intros w Hw. congruence.
  - intros He _. split; [done|]. unfold lenZ. simpl. lia.
Qed.

(** C32. Every record is counted once.  However commits fail, lose their answer or are
    repeated, as long as a record is delivered again before the next one, the detector
    is exactly where giving it, once each and in order, the observations of the
    records it was given would have put it; the effects of every record are stored at
    most once, and say what the record says; a record acknowledged as new is stored, one
    acknowledged as a duplicate is stored or was seen before this run; and the hourly
    rows count exactly the stored authentications. *)
Theorem journal_counted_once ops a d :
  immediate [] (je_cursor <$> delivered ops) = true -> jp_pending a = None -> pruned (jb_seen d) ->
  (forall x y, x ∈ je_cursor <$> delivered ops -> y ∈ je_cursor <$> delivered ops -> cursorHash x = cursorHash y -> x = y) ->
  let '((a', d'), t) := journal_history ops (a, d) in
  (jp_auth a', jp_ids a') = (observe_all (given_of t).*2 (jp_auth a) (jp_ids a)).2
  /\ NoDup (given_of t).*1
  /\ NoDup (jw_cursor <$> stored_of t)
  /\ Forall (write_of (given_of t) (delivered ops)) (stored_of t)
  /\ Forall (fun x => je_cursor x.1 ∈ je_cursor <$> delivered ops -> match jc_ack x.2 with
       | AckNew => je_cursor x.1 ∈ jw_cursor <$> stored_of t
       | AckDuplicate => je_cursor x.1 ∈ jw_cursor <$> stored_of t \/ JournalSeen cursorHash (je_cursor x.1) d = true
       | AckFailed => True
       end) t
  /\ (auth_exact (jb_auth d) -> auth_total (jb_auth d) + lenZ (filter (fun w => counts w = true) (stored_of t)) <= i64_max ->
      auth_total (jb_auth d') = auth_total (jb_auth d) + lenZ (filter (fun w => counts w = true) (stored_of t))).
Proof.
  intros Himm Hp Hr Hinj. pose proof (inv_history (a, d) ops [] (a, d) [] Himm (inv_start a d Hp Hr)) as Hi.
  unfold journal_history. destruct (foldl _ _ _) as [[a' d'] t]. cbn [fst snd app] in Hi.
  destruct Hi as [_ I2 _ I4 I5 I6 I7 _ _ _ _ I12 I13]. cbn [fst snd] in *.
  split; [done|]. split; [done|]. split; [done|]. split; [done|]. split; [|by intros He Ht; apply I12].
  eapply Forall_impl; [exact I13|]. intros x Hx Hin. cbn beta in Hx. destruct (jc_ack x.2); [done| |done].
  destruct Hx as [Hx|Hx]; [right; by apply hash_seen_spec|left].
  apply list_elem_of_fmap in Hx as (w & Ew & Hw). assert (Hwi : jw_cursor w ∈ je_cursor <$> delivered ops) by (by apply I5, list_elem_of_fmap_2).
  rewrite (Hinj _ _ Hin Hwi Ew). by apply list_elem_of_fmap_2.
Qed.
End Once.

(** ** A worked example *)

Definition example_now : time := unix_epoch + 100 * second.
Definition example_observation (kind : string) : AuthObservation :=
  mkObservation (unix_epoch + 5 * second) kind (A4 192 0 2 7) 40000 "root" "password" true false.
Definition example_entry (cursor kind : string) : JournalEntry :=
  mkEntry cursor (unix_epoch + 5 * second) (unix_epoch + 6 * second) (Some (example_observation kind)) "" "".
Definition example_commit_draws : commit_draws :=
  mkCommitDraws example_now example_now (fun _ => mkDraws "msg" None example_now example_now example_now).
Definition example_journal_env (commit : call_fate) : journal_env :=
  mkJournalEnv example_now ("evt_y", "inc_y")%string true commit Answered example_commit_draws
    (mkHistory false None None unix_epoch in_order example_now (mkEvidence no_coverage [] ∅ no_retention (Some 0)) [] true true).
Definition example_journal_db : JournalDB :=
  mkJournalDB [] None (Some 1) (mkAuthTables ∅ ∅) [] empty_outbox [] no_coverage.
Definition example_journal_app : JournalApp :=
  mkJournalApp None (NewAuth example_auth) 0 (StatsAt example_now (NewAuth example_auth)) ""
    (plain_status "starting" "process_started" unix_epoch 0) new_storage.
Definition example_quiet_preparer : preparer OutboxMessage :=
  mkPreparer (fun _ => no_geo) (mkTransformer "prefix" (fun s => s)) (mkTransformer "none" (fun s => s)) false (fun _ _ _ => None).

(** The commit of the first record fails and then loses its answer. *)
Definition example_ops : list journal_op :=
  [Deliver (example_journal_env NotRun) (example_entry "a" "success");
   Deliver (example_journal_env AnswerLost) (example_entry "a" "success");
   Deliver (example_journal_env Answered) (example_entry "a" "success");
   Deliver (example_journal_env Answered) (example_entry "b" "failure")].
Definition example_journal_run : (JournalApp * JournalDB) * list (JournalEntry * journal_call) :=
  @journal_history example_runtime (fun s => s) (fun _ => None) (fun _ => true) minute example_quiet_preparer
    example_ops (example_journal_app, example_journal_db).

Lemma journal_counted_once_witness :
  (jc_ack ∘ snd) <$> example_journal_run.2 = [AckFailed; AckFailed; AckDuplicate; AckNew]
  /\ jw_cursor <$> stored_of example_journal_run.2 = ["a"; "b"]%string
  /\ a_observed (jp_auth example_journal_run.1.1) = 1
  /\ auth_total (jb_auth example_journal_run.1.2) = 2
  /\ NoDup (given_of example_journal_run.2).*1
  /\ auth_total (jb_auth example_journal_run.1.2)
     = auth_total (jb_auth example_journal_db) + lenZ (filter (fun w => counts w = true) (stored_of example_journal_run.2)).
Proof.
  split; [vm_compute; reflexivity|]. split; [vm_compute; reflexivity|]. split; [vm_compute; reflexivity|].
  split; [vm_compute; reflexivity|].
  pose proof (@journal_counted_once example_runtime (fun s => s) (fun _ => None) (fun _ => true) minute example_quiet_preparer
    example_ops example_journal_app example_journal_db ltac:(vm_compute; reflexivity) ltac:(reflexivity) ltac:(constructor)
    ltac:(done)) as H.
  fold example_journal_run in H. destruct example_journal_run as [[a' d'] t] eqn:E. destruct H as (_ & H2 & _ & _ & _ & H6).
  split; [exact H2|]. apply H6; [intros k c Hk; exfalso; vm_compute in Hk; discriminate|].
  assert (Ht : stored_of t = stored_of example_journal_run.2) by (by rewrite E). rewrite Ht. vm_compute. discriminate.
Defined.
