(* ===== verification/JournalEnd.v ===== *)
(** * From the journal to the tables, across restarts

    The reader of [JournalReader] over the handling of [JournalIngest], as [App.Run] wires
    them: a process reads the checkpoint, follows the journal from there and may end at
    any point, between the effects of a commit and its answer too; the next process goes
    on.  As long as no gap is reported, every record counts exactly once. *)

From S2P Require Export JournalOrder JournalOnce.

(** ** What the reader keeps *)

(** A property of the surroundings that every callback keeps is kept by a run. *)
Section Kept.
Context {W : Type}.
Context (decode : time -> list Z -> option JournalEntry).
Context (consume : JournalEntry -> W -> ack * W).
Context (on_degradation : JournalStatus -> W -> bool * W) (on_status : JournalStatus -> W -> W).
Context (clock : W -> time * W).
Context (options : JournalOptions).
Context (P : W -> Prop).

Definition decoded (e : JournalEntry) : Prop := exists now raw, decode now raw = Some e.

Context (Hconsume : forall e w, decoded e -> P w -> P (consume e w).2).
Context (Hdegradation : forall st w, P w -> P (on_degradation st w).2).
Context (Hstatus : forall st w, P w -> P (on_status st w)).
Context (Hclock : forall w, P w -> P (clock w).2).

#[local] Abbreviation state := (Reader * W)%type.

Lemma publish_kept st (s : state) : P s.2 -> P (publish on_degradation on_status clock st s).2.2.
Proof.
  destruct s as [r w]. intros Hw. unfold publish. pose proof (Hclock w Hw) as H1. destruct (clock w) as [now w1].
  destruct (diagnose _ _ _) as [[d l] q]. cbn [snd] in *. set (st' := setDiagnostic _ _). destruct (QualityDegraded st').
  - pose proof (Hdegradation st' w1 H1) as H2. destruct (on_degradation st' w1). by apply Hstatus.
  - by apply Hstatus.
Qed.

Lemma emit_kept st reason since count (s : state) : P s.2 -> P (emit on_degradation on_status clock st reason since count s).2.2.
Proof. apply publish_kept. Qed.

Lemma emit_cause_kept st reason since count cause (s : state) :
  P s.2 -> P (emit_cause on_degradation on_status clock st reason since count cause s).2.2.
Proof.
  destruct s as [r w]. intros Hw. unfold emit_cause. pose proof (Hclock w Hw) as H1. destruct (clock w). by apply publish_kept.
Qed.

Lemma acknowledge_kept e (s : state) : decoded e -> P s.2 ->
  P (acknowledge_entry consume on_degradation on_status clock e s).2.2.
Proof.
  destruct s as [r w]. intros He Hw. unfold acknowledge_entry. pose proof (Hconsume e w He Hw) as H1.
  destruct (consume e w) as [a w1]. cbn [snd] in H1. destruct a; [| |done]; cbv zeta; case_if; by try apply emit_kept.
Qed.

Lemma persist_kept w : P w -> P (persist_failed clock w).2.
Proof. intros Hw. unfold persist_failed. pose proof (Hclock w Hw) as H1. by destruct (clock w). Qed.

Lemma damaged_kept started (s : state) : P s.2 -> P (damaged on_degradation on_status clock started s).2.2.
Proof.
  destruct s as [r w]. intros Hw. unfold damaged.
  pose proof (emit_kept "gap" "malformed_record" started 1 (with_pending_recovery true r, w) Hw) as H1.
  destruct (emit _ _ _ _ _ _ _ _) as [ok [r1 w1]]. destruct ok; [done|].
  pose proof (persist_kept w1 H1) as H2. by destruct (persist_failed clock w1).
Qed.

Lemma take_entry_kept e c (s : state) : decoded e -> P s.2 ->
  P (take_entry consume on_degradation on_status clock e c s).2.2.
Proof.
  destruct s as [r w]. intros He Hw. unfold take_entry. set (s1 := if trusted_entry e then _ else _).
  assert (H1 : P s1.2.2) by (unfold s1; destruct (trusted_entry e); [done|by apply emit_cause_kept]).
  destruct s1 as [ok [r1 w1]]. cbn [snd] in H1. pose proof (persist_kept w1 H1) as H2.
  destruct ok; cbn [negb]; [|by destruct (persist_failed clock w1)]. case_if; [done|].
  pose proof (acknowledge_kept e (r1, w1) He H1) as H3.
  destruct (acknowledge_entry _ _ _ _ e (r1, w1)) as [a [r2 w2]]. cbn [snd] in H3.
  destruct a; [case_if; [by apply emit_kept|done]..|].
  pose proof (persist_kept w2 H3) as H4. by destruct (persist_failed clock w2).
Qed.

Lemma line_step_kept cursor since started line c (s : state) : P s.2 ->
  P (line_step decode consume on_degradation on_status clock options cursor since started line c s).2.2.
Proof.
  intros Hw. unfold line_step. set (c0 := JournalReader.mkScan _ _ _ _).
  set (x := match line with None => _ | Some _ => _ end).
  assert (Hx : P x.2.2).
  { unfold x. pose proof (damaged_kept started s Hw) as Hd. destruct line as [[|b raw]|].
    - done.
    - destruct s as [r w]. pose proof (Hclock w Hw) as H1. destruct (clock w) as [now w1]. cbn [snd] in H1.
      destruct (decode now (b :: raw)) as [e|] eqn:Ee.
      + unfold entry_step. repeat case_if; try done. apply take_entry_kept; [by exists now, (b :: raw)|done].
      + pose proof (damaged_kept started (r, w1) H1) as H2. revert H2. by destruct (damaged _ _ _ _ _).
    - revert Hd. by destruct (damaged _ _ _ _ _). }
  destruct x as [[[| |e] c2] s2]; simpl in Hx |- *; [|done..]. by case_if.
Qed.

Lemma read_lines_kept cursor since started lines : forall c (s : state), P s.2 ->
  P (read_lines decode consume on_degradation on_status clock options cursor since started lines c s).2.2.
Proof.
  induction lines as [|line lines IH]; intros c s Hw; [done|]. simpl.
  pose proof (line_step_kept cursor since started line c s Hw) as H1.
  destruct (line_step _ _ _ _ _ _ _ _ _ _ _ _) as [[[err|] c1] s1]; [done|]. by apply IH.
Qed.

Lemma attempt_kept cm cursor since started (s : state) : P s.2 ->
  P (runReliableAttempt decode consume on_degradation on_status clock options cm cursor since started s).2.2.
Proof.
  intros Hw. unfold runReliableAttempt. destruct (cm_start cm).
  { pose proof (Hclock s.2 Hw) as H1. by destruct (clock s.2). }
  pose proof (emit_kept (if rd_pending s.1 then "retrying" else "running") "process_started" started 0 s Hw) as H1.
  set (s1 := (emit _ _ _ _ _ _ _ _).2) in *.
  pose proof (read_lines_kept cursor since started (lines_read (cm_output cm cursor since))
    (JournalReader.mkScan 0 (negb (cursor =?s "")) cursor false) s1 H1) as H2.
  destruct (read_lines _ _ _ _ _ _ _ _ _ _ _ _) as [[[e|] c2] [r2 w2]]; [done|]. cbn [snd] in H2.
  pose proof (Hclock w2 H2) as H3. destruct (clock w2). destruct (cm_read cm); [done|]. by case_if.
Qed.

Lemma gap_kept f reason since count (s : state) : P s.2 ->
  P (let '(_, (r, w)) := emit on_degradation on_status clock "gap" reason since count s in (f r : Reader, w)).2.
Proof.
  intros Hw. pose proof (emit_kept "gap" reason since count s Hw) as H1. by destruct (emit _ _ _ _ _ _ _ _) as [ok [r w]].
Qed.

Lemma prepare_kept started (s : state) : P s.2 -> P (prepare_attempt on_degradation on_status clock options started s).2.2.
Proof.
  destruct s as [r w]. intros Hw. unfold prepare_attempt. set (s1 := if negb (rd_cursor r =?s "") && _ && _ then _ else _).
  assert (H1 : P s1.2) by (unfold s1; case_if; [by apply gap_kept|done]).
  destruct s1 as [r1 w1]. cbn [snd]. apply emit_kept. case_if; [by apply emit_kept|done].
Qed.

Lemma after_kept started before_cursor e (s : state) : P s.2 ->
  P (after_attempt on_degradation on_status clock options started before_cursor e s).2.
Proof.
  intros Hw. unfold after_attempt. set (s1 := if (_ =?s _) || (_ =?s _) then _ else _).
  assert (H1 : P s1.2).
  { unfold s1. case_if; [by apply gap_kept|]. case_if; [|done].
    by apply (gap_kept (fun r => with_force started (with_cursor "" r))). }
  pose proof (publish_kept (setDiagnostic (ja_diagnostic e) (plain_status "retrying" (ja_reason e) started 1)) s1 H1) as H2.
  destruct (publish _ _ _ _ _) as [ok [r2 w2]]. cbn [snd] in H2. pose proof (Hclock w2 H2) as H3. by destruct (clock w2).
Qed.

Lemma supervise_kept children : forall (s : state), P s.2 ->
  P (supervise decode consume on_degradation on_status clock options children s).2.
Proof.
  induction children as [|cm children IH]; intros s Hw; simpl; [done|]. unfold iteration.
  pose proof (Hclock s.2 Hw) as H1. destruct (clock s.2) as [started w1].
  pose proof (prepare_kept started (s.1, w1) H1) as H2. destruct (prepare_attempt _ _ _ _ _ _) as [since s1].
  pose proof (attempt_kept cm (rd_cursor s1.1) since started s1 H2) as H3.
  destruct (runReliableAttempt _ _ _ _ _ _ _ _ _ _ _) as [e s2]. cbn [snd] in H3.
  destruct (cm_cancelled cm); [done|]. by apply IH, after_kept.
Qed.

Lemma new_reader_kept w : P w -> P (new_reader on_degradation on_status clock options w).2.
Proof.
  intros Hw. unfold new_reader. pose proof (Hclock w Hw) as H1.
  destruct (jo_pending options); [destruct (clock w) as [now w1]; cbn [snd] in H1|]; (case_if; [by apply gap_kept|done]).
Qed.
End Kept.

Lemma run_kept {W} decode consume on_degradation on_status clock options children (P : W -> Prop) w r w' :
  (forall e w, decoded decode e -> P w -> P (consume e w).2) ->
  (forall st w, P w -> P (on_degradation st w).2) -> (forall st w, P w -> P (on_status st w)) ->
  (forall w, P w -> P (clock w).2) -> P w ->
  RunReliable decode consume on_degradation on_status clock options children w = Some (r, w') -> P w'.
Proof.
  intros H1 H2 H3 H4 Hw. unfold RunReliable. destruct (options_valid _); [|done]. intros [= E].
  change w' with (r, w').2. rewrite <- E. apply supervise_kept; try done. by apply new_reader_kept.
Qed.

(** ** Processes *)

Section Processes.
Context `{GoRuntime}.
Context (cursorHash : string -> string) (parse_json : string -> option json).
Context (metadata_fits : Event -> bool) (window : duration) (prepare : preparer OutboxMessage).
Context (decode : time -> list Z -> option JournalEntry).

#[local] Abbreviation state := (JournalApp * JournalDB)%type.
#[local] Abbreviation trace := (list (JournalEntry * journal_call)).

(** What the calls of a process meet: the number of the last reading of the clock tells
    them apart. *)
Record surroundings := mkSurroundings {
  su_now : nat -> time;
  su_env : nat -> journal_env;
  su_status : nat -> call_fate * call_fate;
  su_refresh : nat -> list (call_fate * time) }.

(** The callbacks of [App.Run], over the number of the reading, the application and the
    store, and what was delivered; the loop of the application refreshes the coverage of
    the detector in between. *)
Abbreviation daemon := (nat * (state * trace))%type.

Definition daemon_consume (u : surroundings) (e : JournalEntry) (w : daemon) : ack * daemon :=
  let '(k, (s, t)) := w in
  let '(c, s) := handleJournal cursorHash parse_json metadata_fits window prepare (su_env u k) e s in
  (jc_ack c, (k, (s, t ++ [(e, c)]))).
Definition daemon_degradation (u : surroundings) (st : JournalStatus) (w : daemon) : bool * daemon :=
  let '(k, (s, t)) := w in
  let '(ok, s) := recordJournalDegradation (su_status u k).1 (su_now u k) st s in (ok, (k, (s, t))).
Definition daemon_status (u : surroundings) (st : JournalStatus) (w : daemon) : daemon :=
  let '(k, (s, t)) := w in (k, (recordJournalStatus (su_status u k).1 (su_status u k).2 (su_now u k) st s, t)).
Definition daemon_clock (u : surroundings) (w : daemon) : time * daemon :=
  let '(k, (s, t)) := w in
  (su_now u k, (S k, (foldl (fun s r => refreshAuthCoverage r.1 r.2 s) s (su_refresh u k), t))).

(** A process: its detector, with the identifiers already used, the children of its
    reader until it ends, and its surroundings. *)
Record process := mkProcess {
  ps_auth : AuthConfig; ps_ids : nat; ps_children : list child; ps_surroundings : surroundings }.

Definition no_stats : AuthStats := mkAuthStats 0 0 0 0 0 0 0 0 0 0 false time_zero false.
Definition new_app (p : process) : JournalApp :=
  mkJournalApp None (NewAuth (ps_auth p)) (ps_ids p) no_stats "" (plain_status "" "" time_zero 0) new_storage.

(** The reader of a process: what it did, what it was told, and the rows it left;
    [None] when the checkpoint cannot be read. *)
Definition run_process (p : process) (d : JournalDB) : option (trace * list JournalReader.observed * JournalDB) :=
  match JournalCheckpoint d with
  | None => None
  | Some c =>
      let u := ps_surroundings p in
      match RunReliable decode (logged_consume (daemon_consume u)) (logged_degradation (daemon_degradation u))
              (logged_status (daemon_status u)) (logged_clock (daemon_clock u))
              (mkJournalOptions (cp_cursor c) (cp_observed c) 0 0 0 0 (cp_pending c)) (ps_children p)
              ((0%nat, ((new_app p, d), [])), []) with
      | None => None
      | Some (_, ((_, ((_, d), t)), log)) => Some (t, log, d)
      end
  end.

(** One process after the other. *)
Fixpoint run_processes (ps : list process) (d : JournalDB) : option (trace * list JournalReader.observed * JournalDB) :=
  match ps with
  | [] => Some ([], [], d)
  | p :: ps =>
      match run_process p d with
      | None => None
      | Some (t, log, d) =>
          match run_processes ps d with
          | None => None
          | Some (t', log', d) => Some (t ++ t', log ++ log', d)
          end
      end
  end.

(** ** One delivery *)

Definition checkpoint_cursor (d : JournalDB) : string := (default (""%string, 0) (jb_checkpoint d)).1.

Lemma commit_cursor c w d fresh d' :
  CommitJournal cursorHash parse_json metadata_fits window c w d = Ok (fresh, d') ->
  fresh = negb (hash_seen (cursorHash (jw_cursor w)) (jb_seen d)) /\ checkpoint_cursor d' = jw_cursor w.
Proof.
  unfold CommitJournal. case_if; [done|]. cbv zeta. set (x := if negb _ then _ else _).
  destruct x as [d1|]; [|done]. cbn [rbind]. by intros [= <- <-].
Qed.

(** Either nothing was committed, or the record was, and stored when it was not seen. *)
Definition one_commit (entry : JournalEntry) (d : JournalDB) (call : journal_call) (d' : JournalDB) : Prop :=
  (checkpoint_cursor d' = checkpoint_cursor d /\ jc_stored call = None /\ jc_ack call = AckFailed)
  \/ (checkpoint_cursor d' = je_cursor entry
      /\ if hash_seen (cursorHash (je_cursor entry)) (jb_seen d) then jc_stored call = None
         else exists w, jw_cursor w = je_cursor entry /\ jc_stored call = Some w).

Lemma same_cursor d d' : same_rows d d' -> checkpoint_cursor d' = checkpoint_cursor d.
Proof. intros (_ & _ & E). unfold checkpoint_cursor. by rewrite E. Qed.

Lemma commit_pending_once e entry w given a d : jw_cursor w = je_cursor entry ->
  let '(call, (_, d')) := commit_pending cursorHash parse_json metadata_fits window e entry w given (a, d) in
  one_commit entry d call d'.
Proof.
  intros Hc. unfold commit_pending. destruct (CommitJournal _ _ _ _ _ _ _) as [[fresh d1]|] eqn:E; [|by destruct (jv_commit e); left].
  apply commit_cursor in E as [Ef Ec]. rewrite Hc in *.
  assert (Hst : one_commit entry d (mkJournalCall AckFailed given (if fresh then Some w else None)) d1).
  { right. split; [done|]. rewrite Ef. destruct (hash_seen _ _); [done|]. by exists w. }
  assert (Hsame : forall call d2, jc_stored call = (if fresh then Some w else None) -> same_rows d1 d2 -> one_commit entry d call d2).
  { intros call d2 Hs Hd. destruct Hst as [(H1 & H2 & H3)|[H1 H2]].
    - cbn in H2. right. rewrite (same_cursor _ _ Hd). split; [congruence|]. rewrite Hs. cbn in *. by destruct fresh, (hash_seen _ _).
    - right. rewrite (same_cursor _ _ Hd). split; [done|]. by rewrite Hs. }
  destruct (jv_commit e); cbn [call_store].
  - by left.
  - match goal with |- context [refreshAuthCoverage ?f ?now ?s] =>
      pose proof (refresh_same f now s) as [Hr _]; destruct (refreshAuthCoverage f now s) as [a2 d2] end.
    cbn [snd] in Hr. apply Hsame; [by destruct fresh|done].
  - apply Hsame; [by destruct fresh|done].
Qed.

Lemma deliver_once e entry a d :
  let '(call, (_, d')) := handleJournal cursorHash parse_json metadata_fits window prepare e entry (a, d) in
  one_commit entry d call d'.
Proof.
  unfold handleJournal. destruct (pending_of_entry entry a) as [w|] eqn:Ep.
  - apply pending_of_entry_Some in Ep as [_ Hc]. by apply commit_pending_once.
  - destruct (jv_seen_ok e); cbn [negb]; [|by left].
    destruct (prepare_write _ _ _ _ _ _) as [[w a'] given] eqn:Ew.
    apply prepare_write_effect in Ew as (_ & Hc & _ & _). by apply commit_pending_once.
Qed.

(** ** Positions in the journal *)

Context (cursor_of : list Z -> option string) (J : list (list Z)).
Context (Hcursor : forall now raw, je_cursor <$> decode now raw = cursor_of raw).
Context (Hvalid : forall raw c, cursor_of raw = Some c -> validJournalCursor c = true).
Context (Hlines : Forall journal_line J).
Context (Hcut : forall l t, l ∈ J -> t `prefix_of` l -> t <> [] -> cursor_of t = None \/ cursor_of t = cursor_of l).
Context (Hdistinct : forall i j l l' c, J !! i = Some l -> J !! j = Some l' -> cursor_of l = Some c ->
  cursor_of l' = Some c -> i = j).
(** The hash tells the records of the journal apart. *)
Context (Hhash : forall i j l l' c c', J !! i = Some l -> J !! j = Some l' -> cursor_of l = Some c ->
  cursor_of l' = Some c' -> cursorHash c = cursorHash c' -> i = j).

(** The cursors of the records after position [i] up to position [p]. *)
Definition records (i p : nat) : list (option string) := cursor_of <$> take (p - i) (drop (S i) J).

Lemma records_next i p l : (i <= p)%nat -> J !! S p = Some l -> records i (S p) = records i p ++ [cursor_of l].
Proof.
  intros Hi Hl. unfold records. replace (S p - i)%nat with (S (p - i))%nat by lia.
  rewrite (take_S_r _ _ l), fmap_app; [done|]. rewrite lookup_drop. by replace (S i + (p - i))%nat with (S p) by lia.
Qed.

Lemma records_at i p c : Some c ∈ records i p -> exists m l, (i < m <= p)%nat /\ J !! m = Some l /\ cursor_of l = Some c.
Proof.
  intros Hin. apply list_elem_of_fmap in Hin as (l & Hl & Hin). apply list_elem_of_lookup in Hin as [k Hk].
  apply lookup_take_Some in Hk as [Hk Hlt]. rewrite lookup_drop in Hk. exists (S i + k)%nat, l. split; [lia|done].
Qed.

Lemma records_split i p q : (i <= p <= q)%nat -> records i q = records i p ++ records p q.
Proof.
  intros Hp. unfold records. rewrite <- fmap_app. f_equal. replace (q - i)%nat with ((p - i) + (q - p))%nat by lia.
  rewrite <- take_take_drop. f_equal. rewrite drop_drop. f_equal. f_equal. lia.
Qed.

(** The rows from which a process can go on at position [p]: the checkpoint is there and
    no later record was seen. *)
Record resumable (p : nat) (d : JournalDB) : Prop := {
  rs_pruned : pruned (jb_seen d);
  rs_at : exists l, J !! p = Some l /\ cursor_of l = Some (checkpoint_cursor d);
  rs_later : forall m l c, (p < m)%nat -> J !! m = Some l -> cursor_of l = Some c -> cursorHash c ∉ (jb_seen d).*2 }.

Definition calls_in (t : trace) : list (string * bool) :=
  (fun x => (je_cursor x.1, negb (bool_decide (jc_ack x.2 = AckFailed)))) <$> t.

(** The reader is at position [n]; the checkpoint is there too, or already at the record
    that was delivered last. *)
Record reached (s0 : state) (i n : nat) (s : state) (t : trace) : Prop := {
  rc_inv : journal_inv cursorHash s0 t.*1 s t;
  rc_checkpoint : exists p l, (i <= p)%nat /\ J !! p = Some l /\ cursor_of l = Some (checkpoint_cursor s.2)
    /\ (p = n \/ (p = S n /\ last (je_cursor <$> t.*1) = Some (checkpoint_cursor s.2)))
    /\ Some <$> (jw_cursor <$> stored_of t) = records i p }.

(** What holds of the surroundings of a reader that started at position [i]. *)
Definition followed (s0 : state) (i : nat) (w : nat * (state * trace) * list JournalReader.observed) : Prop :=
  calls_of w.2 = calls_in w.1.2.2 /\ forall n, walk cursor_of J i (calls_in w.1.2.2) n -> reached s0 i n w.1.2.1 w.1.2.2.

Lemma walk_snoc i calls n c acked : walk cursor_of J i (calls ++ [(c, acked)]) n ->
  exists m l, walk cursor_of J i calls m /\ J !! S m = Some l /\ cursor_of l = Some c /\ n = if acked then S m else m.
Proof.
  intros Hw. inversion Hw as [E|calls' m l c' acked' Hw' Hl Hc E En]; [by destruct calls|].
  apply app_inj_tail in E as [-> [= -> ->]]. by exists m, l.
Qed.

Lemma calls_in_snoc t e call :
  calls_in (t ++ [(e, call)]) = calls_in t ++ [(je_cursor e, negb (bool_decide (jc_ack call = AckFailed)))].
Proof. unfold calls_in. by rewrite fmap_app. Qed.

Lemma calls_in_cursors t : (calls_in t).*1 = je_cursor <$> t.*1.
Proof. induction t as [|x t IH]; csimpl; [done|]. by rewrite IH. Qed.

(** The record after the checkpoint was not seen before. *)
Lemma next_unseen s0 i s t p l c :
  resumable i s0.2 -> journal_inv cursorHash s0 t.*1 s t -> (i <= p)%nat ->
  Some <$> (jw_cursor <$> stored_of t) = records i p -> J !! S p = Some l -> cursor_of l = Some c ->
  hash_seen (cursorHash c) (jb_seen s.2) = false.
Proof.
  intros Hr Hi Hip Hs Hl Hc. apply not_true_is_false. intros Hin. apply hash_seen_spec in Hin.
  apply (ji_hashes _ _ _ _ _ Hi) in Hin as [Hin|Hin]; [by apply (rs_later _ _ Hr (S p) l c ltac:(lia) Hl Hc)|].
  apply list_elem_of_fmap in Hin as (w & Ew & Hw). cbn in Ew.
  assert (Hrec : Some (jw_cursor w) ∈ records i p) by (rewrite <- Hs; by do 2 apply list_elem_of_fmap_2).
  apply records_at in Hrec as (m & l' & Hm & Hl' & Hc').
  pose proof (Hhash _ _ _ _ _ _ Hl Hl' Hc Hc' Ew). lia.
Qed.

Lemma reached_delivered s0 i n l s t e call s' :
  resumable i s0.2 -> (i <= n)%nat -> reached s0 i n s t -> J !! S n = Some l -> cursor_of l = Some (je_cursor e) ->
  journal_inv cursorHash s0 (t.*1 ++ [e]) s' (t ++ [(e, call)]) -> one_commit e s.2 call s'.2 ->
  reached s0 i (if negb (bool_decide (jc_ack call = AckFailed)) then S n else n) s' (t ++ [(e, call)]).
Proof.
  intros Hr Hin [Hi (p & lp & Hip & Hlp & Hcp & Hp & Hs)] Hl Hc Hi' Hone.
  assert (Et : (t ++ [(e, call)]).*1 = t.*1 ++ [e]) by (by rewrite fmap_app).
  assert (Hlast : last (je_cursor <$> t.*1 ++ [e]) = Some (je_cursor e)) by (rewrite fmap_app; apply last_snoc).
  split; [by rewrite Et|]. rewrite Et, Hlast, stored_app, !fmap_app.
  assert (Hnone : jc_stored call = None -> stored_of [(e, call)] = []) by (intros E; cbn; by rewrite E).
  destruct Hone as [(Hc' & Hst & Ha)|[Hc' Hst]].
  - exists p, lp. rewrite (Hnone Hst), app_nil_r, Hc'. do 3 (split; [done|]). split; [|done]. rewrite Ha. cbn [negb bool_decide].
    destruct Hp as [->|[-> Hl']]; [by left|right]. split; [done|]. rewrite Hl in Hlp. injection Hlp as <-. congruence.
  - exists (S n), l. rewrite Hc'. split; [lia|]. do 2 (split; [done|]).
    split; [case_bool_decide; [by right|by left]|].
    destruct Hp as [->|[-> Hl']].
    + rewrite (next_unseen s0 i s t n l _ Hr Hi Hip Hs Hl Hc) in Hst. destruct Hst as (w & Hw & Hst).
      cbn. rewrite Hst. csimpl. rewrite Hw, Hs. by rewrite (records_next i n l Hip Hl), Hc.
    + rewrite Hl in Hlp. injection Hlp as <-. assert (E : checkpoint_cursor s.2 = je_cursor e) by congruence. rewrite E in *.
      assert (Hseen : hash_seen (cursorHash (je_cursor e)) (jb_seen s.2) = true).
      { apply hash_seen_spec, (ji_last_stored _ _ _ _ _ Hi _ Hl').
        assert (Hx : Some (je_cursor e) ∈ Some <$> (jw_cursor <$> stored_of t)).
        { rewrite Hs, (records_next i n l Hin Hl), Hc. apply elem_of_app. right. by left. }
        apply list_elem_of_fmap in Hx as (x & [= ->] & Hx). exact Hx. }
      rewrite Hseen in Hst. by rewrite (Hnone Hst), app_nil_r.
Qed.

Lemma walk_le i calls n : walk cursor_of J i calls n -> (i <= n)%nat.
Proof. induction 1 as [|calls n l c [|] _ IH]; lia. Qed.

(** ** The callbacks keep what was reached *)

Lemma reached_same s0 i n s s' t : same_records s s' -> reached s0 i n s t -> reached s0 i n s' t.
Proof.
  intros Hsame [Hi Hp]. split; [by eapply inv_same|]. destruct Hsame as [Hrows _]. by rewrite (same_cursor _ _ Hrows).
Qed.

Lemma followed_consume s0 i u e w :
  resumable i s0.2 -> followed s0 i w -> followed s0 i (logged_consume (daemon_consume u) e w).2.
Proof.
  intros Hr. destruct w as [[k [[a d] t]] log]. intros [Hlog Hw]. unfold logged_consume, daemon_consume. cbn [fst snd] in *.
  pose proof (deliver_once (su_env u k) e a d) as Hone.
  pose proof (fun es Himm Hi => inv_deliver cursorHash parse_json metadata_fits window prepare s0 es (a, d) t (su_env u k) e Himm Hi) as Hdel.
  destruct (handleJournal _ _ _ _ _ _ _ _) as [call [a' d']]. split.
  - cbn [fst snd]. rewrite calls_app, calls_in_snoc, Hlog. done.
  - intros n Hwalk. cbn [fst snd] in *. rewrite calls_in_snoc in Hwalk.
    apply walk_snoc in Hwalk as (m & l & Hwalk & Hl & Hc & ->). specialize (Hw m Hwalk).
    eapply (reached_delivered s0 i m l (a, d) t e call (a', d') Hr); [by eapply walk_le|done..| |done].
    apply Hdel; [|by destruct Hw]. rewrite <- calls_in_cursors. intros Hin.
    pose proof (walk_calls cursor_of J Hdistinct i _ m Hwalk) as [_ Hcalls].
    destruct (Hcalls _ Hin) as (m' & l' & _ & Hl' & Hc' & Hlast). apply Hlast. by apply (Hdistinct _ _ l' l (je_cursor e)).
Qed.

Lemma followed_step s0 i k k' s s' t log log' :
  same_records s s' -> calls_of log' = calls_of log -> followed s0 i ((k, (s, t)), log) -> followed s0 i ((k', (s', t)), log').
Proof.
  intros Hsame Hl [Hlog Hw]. split; [cbn [fst snd] in *; by rewrite Hl|]. intros n Hn. by eapply reached_same, Hw.
Qed.

Lemma followed_degradation s0 i u st w : followed s0 i w -> followed s0 i (logged_degradation (daemon_degradation u) st w).2.
Proof.
  destruct w as [[k [s t]] log]. unfold logged_degradation, daemon_degradation. cbn [fst snd].
  pose proof (degradation_same (su_status u k).1 (su_now u k) st s) as Hs.
  destruct (recordJournalDegradation _ _ _ _) as [ok s']. by apply followed_step.
Qed.

Lemma followed_status s0 i u st w : followed s0 i w -> followed s0 i (logged_status (daemon_status u) st w).
Proof.
  destruct w as [[k [s t]] log]. unfold logged_status, daemon_status. cbn [fst snd].
  apply followed_step; [apply recorded_same|]. by rewrite calls_app, app_nil_r.
Qed.

Lemma same_records_trans s1 s2 s3 : same_records s1 s2 -> same_records s2 s3 -> same_records s1 s3.
Proof.
  intros ((H1 & H2 & H3) & H4 & H5 & H6) ((K1 & K2 & K3) & K4 & K5 & K6). unfold same_records, same_rows.
  repeat split; etransitivity; eassumption.
Qed.

Lemma followed_clock s0 i u w : followed s0 i w -> followed s0 i (logged_clock (daemon_clock u) w).2.
Proof.
  destruct w as [[k [s t]] log]. unfold logged_clock, daemon_clock. cbn [fst snd]. apply followed_step; [|done].
  revert s. induction (su_refresh u k) as [|r l IH]; intros s; cbn [foldl]; [by repeat split|].
  eapply same_records_trans; [apply refresh_same|apply IH].
Qed.

(** ** Processes *)

(** What a write says of the record that it was made of. *)
Definition says (w : JournalWrite) : Prop :=
  exists e, decoded decode e /\ jw_cursor w = je_cursor e /\ jw_received w = je_received e
    /\ jw_observed w = je_observed e /\ jw_trusted w = trusted_entry e
    /\ jw_kind w = from_option ao_kind ""%string (je_observation e).

Lemma resumable_reached s0 i n s t : resumable i s0.2 -> reached s0 i n s t ->
  exists q, (i <= q)%nat /\ resumable q s.2 /\ Some <$> (jw_cursor <$> stored_of t) = records i q.
Proof.
  intros Hr [Hi (p & l & Hip & Hl & Hc & _ & Hs)]. exists p. split; [done|]. split; [|done]. split; [by destruct Hi|by exists l|].
  intros m lm c Hm Hlm Hcm Hin. apply (ji_hashes _ _ _ _ _ Hi) in Hin as [Hin|Hin].
  - by apply (rs_later _ _ Hr m lm c ltac:(lia) Hlm Hcm).
  - apply list_elem_of_fmap in Hin as (w & Ew & Hw). cbn in Ew.
    assert (Hrec : Some (jw_cursor w) ∈ records i p) by (rewrite <- Hs; by do 2 apply list_elem_of_fmap_2).
    apply records_at in Hrec as (m' & l' & Hm' & Hl' & Hc'). pose proof (Hhash _ _ _ _ _ _ Hlm Hl' Hcm Hc' Ew). lia.
Qed.

Lemma process_once p d t log d' i :
  Forall (prints_journal J) (ps_children p) -> resumable i d ->
  run_process p d = Some (t, log, d') -> gapless log = true ->
  exists q, (i <= q)%nat /\ resumable q d' /\ Some <$> (jw_cursor <$> stored_of t) = records i q
    /\ counted_more (lenZ (filter (fun w => counts w = true) (stored_of t))) (jb_auth d) (jb_auth d')
    /\ Forall says (stored_of t).
Proof.
  intros Hch Hr. unfold run_process. destruct (JournalCheckpoint d) as [c|] eqn:Ec; [|done]. cbv zeta.
  set (u := ps_surroundings p). set (o := mkJournalOptions _ _ _ _ _ _ _). set (s0 := (new_app p, d)).
  destruct (RunReliable _ _ _ _ _ _ _ _) as [[r [[k [[a' d1] t1]] log1]]|] eqn:Erun; [|done]. intros [= <- <- <-] Hg.
  assert (Hcur : cp_cursor c = checkpoint_cursor d).
  { revert Ec. unfold JournalCheckpoint, checkpoint_cursor. destruct (jb_recovery d); [|done]. case_if; [done|].
    destruct (default _ _) as [cursor us]. by intros [= <-]. }
  destruct (rs_at _ _ Hr) as (start & Hstart & Hsc). rewrite <- Hcur in Hsc.
  destruct (run_order decode cursor_of _ _ _ _ o (ps_children p) J i start _ _ _ _ Hcursor Hvalid Hlines Hcut Hdistinct Hch Hstart Hsc
    Erun Hg) as (n & _ & _ & _ & Hwalk). cbn [snd] in Hwalk.
  assert (Hf : followed s0 i ((k, ((a', d1), t1)), log1)).
  { eapply (run_kept decode _ _ _ _ o (ps_children p) (followed s0 i)); [| | | | |exact Erun].
    - intros e w _. by apply followed_consume.
    - apply followed_degradation.
    - apply followed_status.
    - apply followed_clock.
    - split; [done|]. intros m Hm. cbn [fst snd calls_in fmap list_fmap] in Hm. inversion Hm as [|calls ? ? ? ? ? ? ? E]; [|by destruct calls].
      split; [apply inv_start; [done|by destruct Hr]|]. exists m, start. cbn [fst snd]. change (s0.2) with d. rewrite <- Hcur.
      split; [done|]. subst m. split; [done|]. split; [done|]. split; [by left|]. unfold records. by rewrite Nat.sub_diag. }
  assert (Hdec : Forall (decoded decode) t1.*1).
  { change (Forall (decoded decode) ((k, ((a', d1), t1)), log1).1.2.2.*1).
    eapply (run_kept decode _ _ _ _ o (ps_children p) (fun w : nat * (state * trace) * list JournalReader.observed =>
      Forall (decoded decode) w.1.2.2.*1)); [| | | | |exact Erun].
    - intros e [[k1 [s1 t2]] l1] He Hw. unfold logged_consume, daemon_consume. cbn [fst snd] in *.
      destruct (handleJournal _ _ _ _ _ _ _ _) as [call s2]. cbn [fst snd]. rewrite fmap_app. apply Forall_app. split; [done|].
      by apply Forall_singleton.
    - intros st [[k1 [s1 t2]] l1] Hw. unfold logged_degradation, daemon_degradation. cbn [fst snd] in *.
      by destruct (recordJournalDegradation _ _ _ _).
    - by intros st [[k1 [s1 t2]] l1] Hw.
    - by intros [[k1 [s1 t2]] l1] Hw.
    - constructor. }
  destruct Hf as [Hlog Hf]. cbn [fst snd] in *. rewrite Hlog in Hwalk. specialize (Hf n Hwalk).
  destruct (resumable_reached s0 i n (a', d1) t1 Hr Hf) as (q & Hq & Hrq & Hs). exists q. split; [done|]. split; [done|]. split; [done|].
  destruct Hf as [Hi _]. split; [apply (ji_counts _ _ _ _ _ Hi)|]. eapply Forall_impl; [apply (ji_writes _ _ _ _ _ Hi)|].
  intros w (e & He & H1 & H2 & H3 & H4 & H5 & _). exists e. split; [|done]. rewrite Forall_forall in Hdec. by apply Hdec.
Qed.

Lemma processes_once ps : forall d t log d' i,
  Forall (fun p => Forall (prints_journal J) (ps_children p)) ps -> resumable i d ->
  run_processes ps d = Some (t, log, d') -> gapless log = true ->
  exists q, (i <= q)%nat /\ resumable q d' /\ Some <$> (jw_cursor <$> stored_of t) = records i q
    /\ counted_more (lenZ (filter (fun w => counts w = true) (stored_of t))) (jb_auth d) (jb_auth d')
    /\ Forall says (stored_of t).
Proof.
  induction ps as [|p ps IH]; intros d t log d' i Hch Hr; simpl.
  - intros [= <- <- <-] _. exists i. split; [done|]. split; [done|]. split; [unfold records; by rewrite Nat.sub_diag|].
    split; [|constructor]. intros He _. split; [done|]. unfold lenZ. simpl. lia.
  - apply Forall_cons in Hch as [Hp Hch]. destruct (run_process p d) as [[[t1 log1] d1]|] eqn:E1; [|done].
    destruct (run_processes ps d1) as [[[t2 log2] d2]|] eqn:E2; [|done]. intros [= <- <- <-] Hg.
    unfold gapless in Hg. rewrite forallb_app in Hg. apply andb_true_iff in Hg as [Hg1 Hg2].
    destruct (process_once _ _ _ _ _ _ Hp Hr E1 Hg1) as (q1 & Hq1 & Hr1 & Hs1 & Hc1 & Hw1).
    destruct (IH _ _ _ _ _ Hch Hr1 E2 Hg2) as (q2 & Hq2 & Hr2 & Hs2 & Hc2 & Hw2).
    exists q2. split; [lia|]. split; [done|]. rewrite stored_app.
    split; [by rewrite !fmap_app, Hs1, Hs2, <- records_split by lia|]. split; [|by apply Forall_app].
    rewrite filter_app, lenZ_app. eapply counted_more_trans; [unfold lenZ; lia|done..].
Qed.
End Processes.

(** C33. Every journal record counts exactly once, across restarts.  Processes follow the
    journal one after the other, each from the checkpoint that it finds; each may end at
    any point, children may end, or begin at another record than they were asked for, and
    calls of the store may fail or lose their answer.  As long as no gap is reported, what was stored is one write for each record from the
    first checkpoint to the last, in the order of the journal, and says what a decoding
    of the record says; the hourly rows grow by exactly the authentications among them,
    and the next process can go on in the same way. *)
Theorem journal_exactly_once `{GoRuntime} (cursorHash : string -> string) parse_json metadata_fits window prepare
    unmarshal_metadata unmarshal_fields unmarshal_string
    (J : list (list Z)) (i : nat) (ps : list process) d t log d' :
  let decode := decodeJournalEntry unmarshal_metadata unmarshal_fields unmarshal_string in
  let cursor_of raw := je_cursor <$> decode time_zero raw in
  Forall journal_line J ->
  (forall l t, l ∈ J -> t `prefix_of` l -> t <> [] -> cursor_of t = None \/ cursor_of t = cursor_of l) ->
  (forall i j l l' c, J !! i = Some l -> J !! j = Some l' -> cursor_of l = Some c -> cursor_of l' = Some c -> i = j) ->
  (forall i j l l' c c', J !! i = Some l -> J !! j = Some l' -> cursor_of l = Some c -> cursor_of l' = Some c' ->
    cursorHash c = cursorHash c' -> i = j) ->
  Forall (fun p => Forall (prints_journal J) (ps_children p)) ps ->
  resumable cursorHash cursor_of J i d ->
  run_processes cursorHash parse_json metadata_fits window prepare decode ps d = Some (t, log, d') ->
  gapless log = true ->
  exists q, (i <= q)%nat
    /\ resumable cursorHash cursor_of J q d'
    /\ Some <$> (jw_cursor <$> stored_of t) = records cursor_of J i q
    /\ Forall (says decode) (stored_of t)
    /\ (auth_exact (jb_auth d) -> auth_total (jb_auth d) + lenZ (filter (fun w => counts w = true) (stored_of t)) <= i64_max ->
        auth_total (jb_auth d') = auth_total (jb_auth d) + lenZ (filter (fun w => counts w = true) (stored_of t))).
Proof.
  intros decode cursor_of HJ Hcut Hdist Hhash Hch Hr Hrun Hg.
  destruct (processes_once cursorHash parse_json metadata_fits window prepare decode cursor_of J
    (decode_cursor _ _ _) (decode_valid _ _ _ time_zero) HJ Hcut Hdist Hhash ps d t log d' i Hch Hr Hrun Hg)
    as (q & H1 & H2 & H3 & H4 & H5).
  exists q. do 4 (split; [done|]). intros He Ht. by apply H4.
Qed.

(** ** A worked example *)

Definition failed_login : journalRecord :=
  mkRecord "" (bytes_of_string "Failed password for root from 192.0.2.7 port 22 ssh2") "" "" "0" "/usr/sbin/sshd" "ssh.service" "" "syslog" false.
Definition login_decoder : time -> list Z -> option JournalEntry :=
  decodeJournalEntry example_metadata (fun _ => Some (failed_login, [])) (fun _ => None).

(** The first process ends before the commit of the record b is answered. *)
Definition example_process (commit : call_fate) : process :=
  mkProcess example_auth 0 [mkChild None (fun c _ => rest_of c) None None [] false; mkChild None (fun c _ => rest_of c) None None [] true]
    (mkSurroundings (fun _ => unix_epoch + second) (fun _ => example_journal_env commit) (fun _ => (Answered, Answered)) (fun _ => [])).
Definition example_processes : list process := [example_process AnswerLost; example_process Answered].
Definition example_rows : JournalDB :=
  mkJournalDB [(1, "a"%string)] (Some ("a"%string, 5)) (Some 0) (mkAuthTables ∅ ∅) [] empty_outbox [] no_coverage.
Definition example_processed :=
  @run_processes example_runtime (fun s => s) (fun _ => None) (fun _ => true) minute example_quiet_preparer login_decoder
    example_processes example_rows.

Lemma login_cursor raw : je_cursor <$> login_decoder time_zero raw = example_cursor raw.
Proof.
  unfold login_decoder, example_cursor, example_decoder, decodeJournalEntry.
  destruct (example_metadata raw) as [[[cursor received] message]|]; [|done].
  destruct (negb (validJournalCursor cursor)); [done|]. destruct (positive_micro received); [|done].
  cbn [UnmarshalJSON]. repeat (case_match; try done).
Qed.

Lemma login_cut l t' : l ∈ example_journal -> t' `prefix_of` l -> t' <> [] ->
  je_cursor <$> login_decoder time_zero t' = None
  \/ je_cursor <$> login_decoder time_zero t' = je_cursor <$> login_decoder time_zero l.
Proof. rewrite !login_cursor. apply example_cut. Qed.

Lemma login_distinct n m l l' c c' : example_journal !! n = Some l -> example_journal !! m = Some l' ->
  je_cursor <$> login_decoder time_zero l = Some c -> je_cursor <$> login_decoder time_zero l' = Some c' -> c = c' -> n = m.
Proof. rewrite !login_cursor. intros Hl Hl' Hc Hc' <-. by apply (example_distinct n m l l' c). Qed.

Lemma login_resumable : resumable (fun s => s) (fun raw => je_cursor <$> login_decoder time_zero raw) example_journal 0 example_rows.
Proof.
  split.
  - apply (bool_decide_unpack _). vm_compute. exact I.
  - exists [97; 10]. split; [done|]. rewrite login_cursor. by vm_compute.
  - intros m l c Hm Hl Hc. rewrite login_cursor in Hc. intros Hin%list_elem_of_singleton. rewrite Hin in Hc.
    assert (m = 0%nat); [|lia]. apply (example_distinct m 0 l [97; 10] "a"); try done; by vm_compute.
Qed.

Lemma journal_exactly_once_witness :
  (fun x => jw_cursor <$> stored_of x.1.1) <$> example_processed = Some ["b"; "c"; "d"]%string /\
  exists t log d', example_processed = Some (t, log, d') /\ gapless log = true /\
  exists q, (0 <= q)%nat
    /\ resumable (fun s => s) (fun raw => je_cursor <$> login_decoder time_zero raw) example_journal q d'
    /\ Some <$> (jw_cursor <$> stored_of t) = records (fun raw => je_cursor <$> login_decoder time_zero raw) example_journal 0 q
    /\ Forall (says login_decoder) (stored_of t)
    /\ auth_total (jb_auth d') = lenZ (filter (fun w => counts w = true) (stored_of t)).
Proof.
  split; [vm_compute; reflexivity|].
  destruct example_processed as [[[t log] d']|] eqn:E; [|exfalso; vm_compute in E; discriminate].
  exists t, log, d'. split; [reflexivity|].
  assert (Hg : option_map (fun x => gapless x.1.2) example_processed = Some true) by (vm_compute; reflexivity).
  rewrite E in Hg. injection Hg as Hg. split; [exact Hg|].
  assert (Ht : option_map (fun x => lenZ (filter (fun w => counts w = true) (stored_of x.1.1))) example_processed = Some 3)
    by (vm_compute; reflexivity).
  rewrite E in Ht. injection Ht as Ht.
  destruct (@journal_exactly_once example_runtime (fun s => s) (fun _ => None) (fun _ => true) minute example_quiet_preparer
    example_metadata (fun _ => Some (failed_login, [])) (fun _ => None) example_journal 0 example_processes example_rows t log d')
    as (q & H1 & H2 & H3 & H4 & H5).
  - repeat first [apply Forall_nil_2|apply Forall_cons_2]; [exists [97]|exists [98]|exists [99]|exists [100]];
      (split; [reflexivity|split; [apply (bool_decide_unpack _); vm_compute; exact I|split; [discriminate|vm_compute; discriminate]]]).
  - exact login_cut.
  - intros n m l l' c Hl Hl' Hc Hc'. exact (login_distinct n m l l' c c Hl Hl' Hc Hc' eq_refl).
  - exact login_distinct.
  - repeat apply Forall_cons_2; try apply Forall_nil_2; exact example_prints.
  - exact login_resumable.
  - exact E.
  - exact Hg.
  - exists q. split; [exact H1|]. split; [exact H2|]. split; [exact H3|]. split; [exact H4|].
    change (auth_total (jb_auth example_rows)) with 0 in H5. apply H5; [|rewrite Ht; vm_compute; discriminate].
    intros k c Hk. exfalso. vm_compute in Hk. discriminate.
Defined.
