(* ===== verification/Mmdb.v ===== *)
(** * The bounds on GeoIP databases

    [internal/assets/mmdb_bounds.go]: before a database in the MaxMind format is given
    to the library that reads it, every value of its data section is checked, and what
    the library would expand and allocate for it is bounded.  Completed targets of
    pointers are remembered in a table of fixed size.  Reads of the data are checked: one
    outside of it would be the error [MPanic]. *)

From S2P Require Export Hourly.

(** ** Limits *)

Definition mmdbWorkLimit : Z := 64000000.
Definition mmdbExpandedValueLimit : Z := 128000000.
Definition mmdbExpandedByteLimit : Z := Z.shiftl 8 30.
Definition mmdbRecordValueLimit : Z := 16384.
Definition mmdbRecordByteLimit : Z := Z.shiftl 8 20.
Definition mmdbDepthLimit : nat := 32.
Definition mmdbCacheSlots : Z := Z.shiftl 1 18.
Definition maxDatabase : Z := Z.shiftl 160 20.

Inductive mmdb_error := MBounds | MBudget | MCancelled | MNotMap | MTrailing | MPanic.

Definition wrap_u32 (z : Z) : Z := z mod 4294967296.
Definition wrap_u8 (z : Z) : Z := z mod 256.

(** [mmdbAdd]: the counter after the charge and whether it is within the limit. *)
Definition mmdbAdd (counter amount limit : Z) : bool * Z :=
  if u64_max - counter <? amount then (false, u64_max) else (counter + amount <=? limit, counter + amount).

(** ** State *)

Record mmdbValueSummary := mkSummary { ms_end : Z; ms_values : Z; ms_bytes : Z; ms_height : Z }.

(** A slot of the cache; an unused slot, whose key is zero, is absent from the map. *)
Record mmdbCacheEntry := mkCacheEntry { mc_key : Z; mc_summary : mmdbValueSummary }.

Record mmdbValueBounds := mkBounds {
  mb_operations : Z;
  mb_recordValues : Z;
  mb_recordBytes : Z;
  mb_expandedValues : Z;
  mb_expandedBytes : Z;
  mb_maxRecordValues : Z;
  mb_maxRecordBytes : Z;
  mb_cache : gmap Z mmdbCacheEntry;
  mb_cacheHits : Z;
  mb_cacheMisses : Z;
  mb_cacheEntries : Z;
  mb_cacheEvictions : Z;
  mb_active : list Z;
  mb_maxDepth : nat }.

Definition set_operations (n : Z) (p : mmdbValueBounds) : mmdbValueBounds :=
  mkBounds n (mb_recordValues p) (mb_recordBytes p) (mb_expandedValues p) (mb_expandedBytes p) (mb_maxRecordValues p)
    (mb_maxRecordBytes p) (mb_cache p) (mb_cacheHits p) (mb_cacheMisses p) (mb_cacheEntries p) (mb_cacheEvictions p)
    (mb_active p) (mb_maxDepth p).
Definition set_record (values bytes : Z) (p : mmdbValueBounds) : mmdbValueBounds :=
  mkBounds (mb_operations p) values bytes (mb_expandedValues p) (mb_expandedBytes p) (mb_maxRecordValues p)
    (mb_maxRecordBytes p) (mb_cache p) (mb_cacheHits p) (mb_cacheMisses p) (mb_cacheEntries p) (mb_cacheEvictions p)
    (mb_active p) (mb_maxDepth p).
Definition set_expanded (values bytes max_values max_bytes : Z) (p : mmdbValueBounds) : mmdbValueBounds :=
  mkBounds (mb_operations p) (mb_recordValues p) (mb_recordBytes p) values bytes max_values max_bytes
    (mb_cache p) (mb_cacheHits p) (mb_cacheMisses p) (mb_cacheEntries p) (mb_cacheEvictions p) (mb_active p) (mb_maxDepth p).
Definition set_active (a : list Z) (d : nat) (p : mmdbValueBounds) : mmdbValueBounds :=
  mkBounds (mb_operations p) (mb_recordValues p) (mb_recordBytes p) (mb_expandedValues p) (mb_expandedBytes p)
    (mb_maxRecordValues p) (mb_maxRecordBytes p) (mb_cache p) (mb_cacheHits p) (mb_cacheMisses p) (mb_cacheEntries p)
    (mb_cacheEvictions p) a d.
Definition set_cache (c : gmap Z mmdbCacheEntry) (hits misses entries evictions : Z) (p : mmdbValueBounds) : mmdbValueBounds :=
  mkBounds (mb_operations p) (mb_recordValues p) (mb_recordBytes p) (mb_expandedValues p) (mb_expandedBytes p)
    (mb_maxRecordValues p) (mb_maxRecordBytes p) c hits misses entries evictions (mb_active p) (mb_maxDepth p).

(** ** Encodings *)

Definition byte_at (data : list Z) (i : Z) : result mmdb_error Z :=
  if (0 <=? i) && (i <? lenZ data) then Ok (nth (Z.to_nat i) data 0) else Err MPanic.
Definition bytes_at (data : list Z) (lo hi : Z) : result mmdb_error (list Z) :=
  if (0 <=? lo) && (lo <=? hi) && (hi <=? lenZ data)
  then Ok (take (Z.to_nat (hi - lo)) (drop (Z.to_nat lo) data)) else Err MPanic.

(** [value = value<<8 | b] over the bytes. *)
Definition big_endian (start : Z) (bytes : list Z) : Z := foldl (fun v b => Z.lor (Z.shiftl v 8) b) start bytes.

(** What the bytes of a value say: a pointer with its target, a container with the number
    of values in it, a flag, or a scalar with its length, which is a text or not; and
    where the encoding of these bytes ends. *)
Inductive head :=
| HPointer (target next : Z)
| HContainer (count next : Z)
| HFlag (next : Z)
| HScalar (text : bool) (size next : Z).

Definition read_pointer (data : list Z) (size offset : Z) : result mmdb_error head :=
  let n := Z.land (Z.shiftr size 3) 3 + 1 in
  fail_if (lenZ data <? offset + n) || ((n =? 4) && negb (size =? 24)) with MBounds ;;
  let pointer := if n =? 4 then 0 else Z.land size 7 in
  let? bytes := bytes_at data offset (offset + n) in
  let pointer := big_endian pointer bytes in
  let pointer := if n =? 2 then pointer + 2048 else if n =? 3 then pointer + 526336 else pointer in
  fail_if lenZ data <=? pointer with MBounds ;;
  Ok (HPointer pointer (offset + n)).

(** The extended kind and the extended size. *)
Definition read_kind (data : list Z) (kind offset : Z) : result mmdb_error (Z * Z) :=
  if kind =? 0 then
    fail_if lenZ data <=? offset with MBounds ;;
    let? b := byte_at data offset in Ok (b + 7, offset + 1)
  else Ok (kind, offset).
Definition read_size (data : list Z) (size offset : Z) : result mmdb_error (Z * Z) :=
  if 29 <=? size then
    let n := size - 28 in
    fail_if lenZ data <? offset + n with MBounds ;;
    let? bytes := bytes_at data offset (offset + n) in
    let value := big_endian 0 bytes in
    Ok (if size =? 29 then value + 29 else if size =? 30 then value + 285 else value + 65821, offset + n)
  else Ok (size, offset).

(** The largest size of a scalar kind and whether it must be exactly that; [None] is no
    kind of a value. *)
Definition scalar_size (kind : Z) : option (Z * bool) :=
  if (kind =? 2) || (kind =? 4) then Some (Z.shiftl 64 10, false)
  else if kind =? 3 then Some (8, true)
  else if kind =? 5 then Some (2, false)
  else if (kind =? 6) || (kind =? 8) then Some (4, false)
  else if kind =? 9 then Some (8, false)
  else if kind =? 10 then Some (16, false)
  else if kind =? 15 then Some (4, true)
  else None.

Definition read_head (data : list Z) (offset : Z) : result mmdb_error head :=
  let? control := byte_at data offset in
  let offset := offset + 1 in
  let kind := Z.shiftr control 5 in
  let size := Z.land control 31 in
  if kind =? 1 then read_pointer data size offset
  else
    let? (kind, offset) := read_kind data kind offset in
    let? (size, offset) := read_size data size offset in
    if (kind =? 7) || (kind =? 11) then
      fail_if ((kind =? 7) && (256 <? size)) || ((kind =? 11) && (1024 <? size)) with MBudget ;;
      Ok (HContainer (if kind =? 7 then size * 2 else size) offset)
    else if kind =? 14 then (fail_if 1 <? size with MBounds ;; Ok (HFlag offset))
    else
      match scalar_size kind with
      | None => Err MBounds
      | Some (largest, exactly) =>
          fail_if (if exactly then negb (size =? largest) else largest <? size)
            with (if (kind =? 2) || (kind =? 4) then MBudget else MBounds) ;;
          fail_if lenZ data - offset <? size with MBounds ;;
          Ok (HScalar (kind =? 2) size offset)
      end.

(** ** The check *)

Section Check.
(** The data, when the context is done, by the number of operations, the limits and the
    number of slots of the cache. *)
Context (data : list Z) (cancelled : Z -> bool) (workLimit valueLimit byteLimit cacheSlots : Z).

Definition cache_slot (offset : Z) : Z :=
  Z.land (Z.shiftr (wrap_u32 (wrap_u32 offset * 2654435761)) 14) (cacheSlots - 1).

Definition charge_values (n : Z) (p : mmdbValueBounds) : result mmdb_error mmdbValueBounds :=
  let '(ok, v) := mmdbAdd (mb_recordValues p) n mmdbRecordValueLimit in
  if ok then Ok (set_record v (mb_recordBytes p) p) else Err MBudget.
Definition charge_bytes (n : Z) (p : mmdbValueBounds) : result mmdb_error mmdbValueBounds :=
  let '(ok, v) := mmdbAdd (mb_recordBytes p) n mmdbRecordByteLimit in
  if ok then Ok (set_record (mb_recordValues p) v p) else Err MBudget.

(** What is checked on entry: the work, the offset, the depth, the context and that the
    value is not one of those that it is part of. *)
Definition enter_value (offset : Z) (depth : nat) (p : mmdbValueBounds) : result mmdb_error mmdbValueBounds :=
  let '(ok, n) := mmdbAdd (mb_operations p) 1 workLimit in
  fail_if negb ok with MBudget ;;
  let p := set_operations n p in
  fail_if (offset <? 0) || (lenZ data <=? offset) with MBounds ;;
  fail_if (mmdbDepthLimit <? depth)%nat with MBudget ;;
  fail_if ((n =? 1) || (n mod 1024 =? 0)) && cancelled n with MCancelled ;;
  fail_if existsb (Z.eqb offset) (take depth (mb_active p)) with MBounds ;;
  Ok (set_active (<[depth := offset]> (mb_active p)) (max (mb_maxDepth p) depth) p).

(** A use of a remembered summary. *)
Definition reuse (depth : nat) (s : mmdbValueSummary) (p : mmdbValueBounds) : result mmdb_error (mmdbValueSummary * mmdbValueBounds) :=
  let p := set_cache (mb_cache p) (mb_cacheHits p + 1) (mb_cacheMisses p) (mb_cacheEntries p) (mb_cacheEvictions p) p in
  let p := set_active (mb_active p) (max (mb_maxDepth p) (depth + Z.to_nat (ms_height s))) p in
  fail_if Z.of_nat mmdbDepthLimit <? Z.of_nat depth + ms_height s with MBudget ;;
  let? p := charge_values (ms_values s) p in
  let? p := charge_bytes (ms_bytes s) p in
  Ok (s, p).

(** The closure [finish]; the offset of the value is the one of its depth. *)
Definition finish (depth : nat) (target : bool) (before_values before_bytes : Z) (stop height : Z) (p : mmdbValueBounds)
    : mmdbValueSummary * mmdbValueBounds :=
  let s := mkSummary (wrap_u32 stop) (wrap_u32 (mb_recordValues p - before_values)) (wrap_u32 (mb_recordBytes p - before_bytes)) height in
  if target && (0 <? cacheSlots) then
    let offset := nth depth (mb_active p) 0 in
    let slot := cache_slot offset in
    let key := wrap_u32 (wrap_u32 offset + 1) in
    let entries := if some (mb_cache p !! slot) then mb_cacheEntries p else mb_cacheEntries p + 1 in
    let evictions := match mb_cache p !! slot with
                     | Some e => if mc_key e =? key then mb_cacheEvictions p else mb_cacheEvictions p + 1
                     | None => mb_cacheEvictions p
                     end in
    (s, set_cache (<[slot := mkCacheEntry key s]> (mb_cache p)) (mb_cacheHits p) (mb_cacheMisses p) entries evictions p)
  else (s, p).

(** The values of a container, one after the other. *)
Fixpoint parse_children (parse : Z -> mmdbValueBounds -> result mmdb_error (mmdbValueSummary * mmdbValueBounds))
    (count : nat) (offset height : Z) (p : mmdbValueBounds) : result mmdb_error (Z * Z * mmdbValueBounds) :=
  match count with
  | O => Ok (offset, height, p)
  | S count =>
      let? (child, p) := parse offset p in
      parse_children parse count (ms_end child) (Z.max height (wrap_u8 (ms_height child + 1))) p
  end.

(** What follows the entry of a value that is not remembered; [parse] is for the next
    depth. *)
Definition parse_value (parse : Z -> bool -> mmdbValueBounds -> result mmdb_error (mmdbValueSummary * mmdbValueBounds))
    (offset : Z) (depth : nat) (target : bool) (p : mmdbValueBounds) : result mmdb_error (mmdbValueSummary * mmdbValueBounds) :=
  let before_values := mb_recordValues p in
  let before_bytes := mb_recordBytes p in
  let? p := charge_values 1 p in
  let? h := read_head data offset in
  match h with
  | HPointer pointer next =>
      let? (child, p) := parse pointer true p in
      Ok (finish depth target before_values before_bytes next (wrap_u8 (ms_height child + 1)) p)
  | HContainer count next =>
      let? p := charge_bytes (count * 128) p in
      let? (stop, height, p) := parse_children (fun offset => parse offset false) (Z.to_nat count) next 0 p in
      Ok (finish depth target before_values before_bytes stop height p)
  | HFlag next => Ok (finish depth target before_values before_bytes next 0 p)
  | HScalar text size next =>
      let? p := charge_bytes size p in
      let? bytes := bytes_at data next (next + size) in
      fail_if text && negb (valid_utf8 0 bytes) with MBounds ;;
      Ok (finish depth target before_values before_bytes (next + size) 0 p)
  end.

(** [parse]; the depth grows with every call inside a call and is at most
    [mmdbDepthLimit], so two calls more than that are never needed. *)
Fixpoint parse (fuel : nat) (depth : nat) (offset : Z) (target : bool) (p : mmdbValueBounds)
    : result mmdb_error (mmdbValueSummary * mmdbValueBounds) :=
  match fuel with
  | O => Err MPanic
  | S fuel =>
      let? p := enter_value offset depth p in
      if target && (0 <? cacheSlots) then
        match mb_cache p !! cache_slot offset with
        | Some e =>
            if mc_key e =? wrap_u32 (wrap_u32 offset + 1) then reuse depth (mc_summary e) p
            else
              parse_value (parse fuel (S depth)) offset depth target
                (set_cache (mb_cache p) (mb_cacheHits p) (mb_cacheMisses p + 1) (mb_cacheEntries p) (mb_cacheEvictions p) p)
        | None =>
            parse_value (parse fuel (S depth)) offset depth target
              (set_cache (mb_cache p) (mb_cacheHits p) (mb_cacheMisses p + 1) (mb_cacheEntries p) (mb_cacheEvictions p) p)
        end
      else parse_value (parse fuel (S depth)) offset depth target p
  end.

Definition parse_fuel : nat := S (S mmdbDepthLimit).

(** One iteration of the loop of [check]: the offset of the next record. *)
Definition check_record (metadata : bool) (offset : Z) (p : mmdbValueBounds) : result mmdb_error (Z * mmdbValueBounds) :=
  let? (s, p) := parse parse_fuel 0 offset false (set_record 0 0 p) in
  let next := ms_end s in
  fail_if next <=? offset with MBounds ;;
  let '(ok, values) := mmdbAdd (mb_expandedValues p) (mb_recordValues p) valueLimit in
  fail_if negb ok with MBudget ;;
  let '(ok, bytes) := mmdbAdd (mb_expandedBytes p) (mb_recordBytes p) byteLimit in
  fail_if negb ok with MBudget ;;
  let p := set_expanded values bytes (Z.max (mb_maxRecordValues p) (mb_recordValues p))
             (Z.max (mb_maxRecordBytes p) (mb_recordBytes p)) p in
  fail_if metadata && negb (next =? lenZ data) with MTrailing ;;
  Ok (next, p).

(** The loop; every iteration that goes on has advanced. *)
Fixpoint check_loop (fuel : nat) (metadata : bool) (offset : Z) (p : mmdbValueBounds) : result mmdb_error mmdbValueBounds :=
  if lenZ data <=? offset then Ok p
  else
    match fuel with
    | O => Err MPanic
    | S fuel => let? (next, p) := check_record metadata offset p in check_loop fuel metadata next p
    end.

(** [check]; the context is also asked before and after. *)
Definition check (started ended : bool) (metadata : bool) (p : mmdbValueBounds) : result mmdb_error mmdbValueBounds :=
  fail_if started with MCancelled ;;
  fail_if maxDatabase <? lenZ data with MBudget ;;
  fail_if metadata && ((lenZ data =? 0) || negb (Z.shiftr (nth 0 data 0) 5 =? 7)) with MNotMap ;;
  let? p := check_loop (length data) metadata 0 p in
  fail_if ended with MCancelled ;;
  Ok p.
End Check.

(** [newMMDBValueBounds]: the number of slots, and the state at the start. *)
Fixpoint halve (fuel : nat) (slots len : Z) : Z :=
  match fuel with
  | O => slots
  | S fuel => if (1 <? slots) && (len <? slots) then halve fuel (slots / 2) len else slots
  end.
Definition cache_slots (data : list Z) : Z := halve 18 mmdbCacheSlots (lenZ data).
Definition new_bounds : mmdbValueBounds := mkBounds 0 0 0 0 0 0 0 ∅ 0 0 0 0 (replicate (S mmdbDepthLimit) 0) 0.

(** [checkMMDBValues]. *)
Definition checkMMDBValues (cancelled : Z -> bool) (started ended : bool) (data : list Z) (metadata : bool)
    : result mmdb_error mmdbValueBounds :=
  check data cancelled mmdbWorkLimit mmdbExpandedValueLimit mmdbExpandedByteLimit (cache_slots data) started ended metadata new_bounds.

(** ** What a value expands to *)

Section Expansion.
Context (data : list Z).

(** The values of a container: where they end, how many values and bytes they expand to,
    and how deep they are. *)
Fixpoint expand_children (expand : Z -> option mmdbValueSummary) (count : nat) (offset : Z) : option (Z * Z * Z * Z) :=
  match count with
  | O => Some (offset, 0, 0, 0)
  | S count =>
      match expand offset with
      | None => None
      | Some s =>
          match expand_children expand count (ms_end s) with
          | None => None
          | Some (stop, values, bytes, height) =>
              Some (stop, ms_values s + values, ms_bytes s + bytes, Z.max (ms_height s + 1) height)
          end
      end
  end.

(** A value with everything that its pointers lead to, decoded afresh each time; [None]
    when something is not encoded as it must be or is deeper than [n] levels. *)
Fixpoint expand (n : nat) (offset : Z) : option mmdbValueSummary :=
  match n with
  | O => None
  | S n =>
      if (offset <? 0) || (lenZ data <=? offset) then None
      else
        match read_head data offset with
        | Err _ => None
        | Ok (HPointer target next) =>
            match expand n target with
            | None => None
            | Some s => Some (mkSummary next (1 + ms_values s) (ms_bytes s) (ms_height s + 1))
            end
        | Ok (HContainer count next) =>
            match expand_children (expand n) (Z.to_nat count) next with
            | None => None
            | Some (stop, values, bytes, height) => Some (mkSummary stop (1 + values) (count * 128 + bytes) height)
            end
        | Ok (HFlag next) => Some (mkSummary next 1 0 0)
        | Ok (HScalar text size next) =>
            if text && negb (valid_utf8 0 (take (Z.to_nat size) (drop (Z.to_nat next) data))) then None
            else Some (mkSummary (next + size) 1 size 0)
        end
  end.

(** The records of the data from an offset on to its end. *)
Inductive records_from : Z -> list mmdbValueSummary -> Prop :=
| records_end : records_from (lenZ data) []
| records_next offset s l :
    expand (S mmdbDepthLimit) offset = Some s -> records_from (ms_end s) l -> records_from offset (s :: l).

(** *** Encodings *)

Context (Hbytes : Forall (fun b => 0 <= b < 256) data).

Lemma byte_at_spec i : 0 <= i < lenZ data -> exists b, byte_at data i = Ok b /\ 0 <= b < 256.
Proof.
  intros Hi. unfold byte_at. rewrite (proj2 (Z.leb_le _ _)), (proj2 (Z.ltb_lt _ _)) by lia. cbn [andb].
  eexists. split; [done|]. rewrite Forall_forall in Hbytes. apply Hbytes. apply list_elem_of_In, nth_In. unfold lenZ in Hi. lia.
Qed.

Lemma bytes_at_spec lo hi : 0 <= lo <= hi -> hi <= lenZ data ->
  bytes_at data lo hi = Ok (take (Z.to_nat (hi - lo)) (drop (Z.to_nat lo) data))
  /\ Forall (fun b => 0 <= b < 256) (take (Z.to_nat (hi - lo)) (drop (Z.to_nat lo) data)).
Proof.
  intros Hlo Hhi. unfold bytes_at. rewrite !(proj2 (Z.leb_le _ _)) by lia. split; [done|]. by apply Forall_take, Forall_drop.
Qed.

Lemma big_endian_nonneg bytes : Forall (fun b => 0 <= b < 256) bytes -> forall start, 0 <= start -> 0 <= big_endian start bytes.
Proof.
  induction 1 as [|b l Hb Hl IH]; intros start Hs; [done|]. apply IH. apply Z.lor_nonneg. split; [|lia].
  apply Z.shiftl_nonneg. lia.
Qed.

(** What the bytes of a value say stays within the data. *)
Definition head_within (offset : Z) (h : head) : Prop :=
  match h with
  | HPointer target next => offset < next <= lenZ data /\ 0 <= target < lenZ data
  | HContainer count next => offset < next <= lenZ data /\ 0 <= count <= 1024
  | HFlag next => offset < next <= lenZ data
  | HScalar _ size next => offset < next /\ 0 <= size /\ next + size <= lenZ data
  end.

(** A read is either within the data or refused, never outside. *)
Definition safe_read {A} (P : A -> Prop) (r : result mmdb_error A) : Prop :=
  match r with Ok a => P a | Err e => e <> MPanic end.

Lemma mmdb_safe_bind {A B} (P : A -> Prop) (Q : B -> Prop) (r : result mmdb_error A) (k : A -> result mmdb_error B) :
  safe_read P r -> (forall a, P a -> safe_read Q (k a)) -> safe_read Q (let? a := r in k a).
Proof. destruct r as [a|e]; simpl; [|done]. intros Ha Hk. by apply Hk. Qed.

Lemma safe_fail {A} (P : A -> Prop) (b : bool) e (r : result mmdb_error A) :
  e <> MPanic -> (b = false -> safe_read P r) -> safe_read P (fail_if b with e ;; r).
Proof. destruct b; simpl; auto. Qed.

Lemma read_pointer_safe size offset : 0 <= offset -> 0 <= size < 32 ->
  safe_read (head_within (offset - 1)) (read_pointer data size offset).
Proof.
  intros Ho Hs. unfold read_pointer. set (n := Z.land (Z.shiftr size 3) 3 + 1).
  assert (Hn : 1 <= n) by (pose proof (Z.land_nonneg (Z.shiftr size 3) 3); lia).
  apply safe_fail; [done|]. intros E. bool_to_prop. cbv zeta.
  destruct (bytes_at_spec offset (offset + n)) as [Eb Hb]; [lia..|]. rewrite Eb. cbn [rbind].
  match goal with |- context [big_endian ?start _] => assert (Hst : 0 <= start) end.
  { case_if; [lia|]. apply Z.land_nonneg. left. lia. }
  pose proof (big_endian_nonneg _ Hb _ Hst) as Hp. set (x := big_endian _ _) in *.
  apply safe_fail; [done|]. intros E1. apply Z.leb_gt in E1. cbn. split; [lia|]. split; [|done]. repeat case_if; lia.
Qed.

Lemma read_kind_safe kind offset : 0 <= offset <= lenZ data -> 0 <= kind ->
  safe_read (fun x : Z * Z => 0 <= x.1 /\ offset <= x.2 <= lenZ data) (read_kind data kind offset).
Proof.
  intros Ho Hk. unfold read_kind. case_if; [|simpl; lia]. apply safe_fail; [done|]. intros E1%Z.leb_gt.
  destruct (byte_at_spec offset ltac:(lia)) as (b & -> & Hb). simpl. lia.
Qed.

Lemma read_size_safe size offset : 0 <= offset <= lenZ data -> 0 <= size ->
  safe_read (fun x : Z * Z => 0 <= x.1 /\ offset <= x.2 <= lenZ data) (read_size data size offset).
Proof.
  intros Ho Hk. unfold read_size. case_if; [|simpl; lia]. bool_to_prop. apply safe_fail; [done|]. intros E1. bool_to_prop.
  destruct (bytes_at_spec offset (offset + (size - 28))) as [Eb Hb]; [lia..|]. rewrite Eb. cbn [rbind].
  pose proof (big_endian_nonneg _ Hb 0 ltac:(lia)) as Hv. set (x := big_endian _ _) in *. cbn.
  split; [repeat case_if; lia|lia].
Qed.

Lemma read_head_safe offset : 0 <= offset < lenZ data -> safe_read (head_within offset) (read_head data offset).
Proof.
  intros Ho. unfold read_head. destruct (byte_at_spec offset Ho) as (control & -> & Hc). cbn [rbind].
  assert (Hs : 0 <= Z.land control 31 < 32).
  { change 31 with (Z.ones 5). rewrite Z.land_ones by lia. apply Z.mod_pos_bound. lia. }
  case_if. { pose proof (read_pointer_safe (Z.land control 31) (offset + 1) ltac:(lia) Hs) as H.
    by replace (offset + 1 - 1) with offset in H by lia. }
  eapply mmdb_safe_bind; [apply read_kind_safe; [lia|apply Z.shiftr_nonneg; lia]|]. intros [kind o1] [Hk Ho1]. cbn [fst snd] in *.
  eapply mmdb_safe_bind; [apply read_size_safe; lia|]. intros [size o2] [Hz Ho2]. cbn [fst snd] in *.
  destruct (_ || _) eqn:E1.
  - apply safe_fail; [done|]. intros E2. cbn. split; [lia|].
    destruct (kind =? 7), (kind =? 11); cbn [andb orb] in *; bool_to_prop; done || lia.
  - case_if; [apply safe_fail; [done|]; intros _; cbn; lia|]. destruct (scalar_size kind) as [[largest ex]|]; [|done].
    apply safe_fail; [case_if; discriminate|]. intros _. apply safe_fail; [done|]. intros E2. bool_to_prop. cbn. lia.
Qed.

Lemma read_head_within offset h : 0 <= offset < lenZ data -> read_head data offset = Ok h -> head_within offset h.
Proof. intros Ho E. pose proof (read_head_safe offset Ho) as H. by rewrite E in H. Qed.

(** *** Expansions *)

Lemma expand_children_bounds (f : Z -> option mmdbValueSummary) n :
  (forall o s, f o = Some s -> o < ms_end s <= lenZ data /\ 1 <= ms_values s /\ 0 <= ms_bytes s /\ 0 <= ms_height s < n) ->
  forall count o stop v b h, 0 < n -> o <= lenZ data -> expand_children f count o = Some (stop, v, b, h) ->
  o <= stop <= lenZ data /\ 0 <= v /\ 0 <= b /\ 0 <= h <= n.
Proof.
  intros Hf count. induction count as [|count IH]; intros o stop v b h Hn Ho; cbn; [intros [= <- <- <- <-]; lia|].
  destruct (f o) as [s|] eqn:E; [|done]. apply Hf in E as (H1 & H2 & H3 & H4).
  destruct (expand_children f count (ms_end s)) as [[[[stop' v'] b'] h']|] eqn:E2; [|done].
  apply IH in E2; [|done|lia]. intros [= <- <- <- <-]. lia.
Qed.

Lemma expand_bounds n : forall o s, expand n o = Some s ->
  0 <= o < ms_end s /\ ms_end s <= lenZ data /\ 1 <= ms_values s /\ 0 <= ms_bytes s /\ 0 <= ms_height s < Z.of_nat n.
Proof.
  induction n as [|n IH]; intros o s; cbn [expand]; [done|]. destruct (_ || _) eqn:E; [done|]. bool_to_prop.
  destruct (read_head data o) as [h|] eqn:Eh; [|done]. apply read_head_within in Eh; [|lia]. destruct h as [t next|count next|next|text size next].
  - destruct (expand n t) as [s'|] eqn:E'; [|done]. apply IH in E'. cbn in Eh. intros [= <-]. cbn. lia.
  - destruct (expand_children _ _ _) as [[[[stop v] b] h]|] eqn:E'; [|done]. cbn in Eh. intros [= <-]. cbn.
    destruct n as [|n].
    + destruct (Z.to_nat count) eqn:Ec; cbn in E'; [|done]. injection E' as <- <- <- <-. lia.
    + apply (expand_children_bounds (expand (S n)) (Z.of_nat (S n))) in E'; [lia| |lia|lia].
      intros o' s' Hs'. apply IH in Hs'. lia.
  - cbn in Eh. intros [= <-]. cbn. lia.
  - cbn in Eh. case_if; [done|]. intros [= <-]. cbn. lia.
Qed.

Lemma expand_children_agree (f g : Z -> option mmdbValueSummary) count : forall o stop v b h,
  expand_children f count o = Some (stop, v, b, h) ->
  (forall o' s, f o' = Some s -> ms_height s + 1 <= h -> g o' = Some s) ->
  expand_children g count o = Some (stop, v, b, h).
Proof.
  induction count as [|count IH]; intros o stop v b h; cbn; [done|].
  destruct (f o) as [s|] eqn:E; [|done].
  destruct (expand_children f count (ms_end s)) as [[[[stop' v'] b'] h']|] eqn:E2; [|done]. intros [= <- <- <- <-] Hg.
  rewrite (Hg o s E) by lia. rewrite (IH _ _ _ _ _ E2); [done|]. intros o' s' Hs' Hh. apply Hg; [done|lia].
Qed.

(** An expansion is found within any depth that is more than its height. *)
Lemma expand_within n : forall o s, expand n o = Some s -> forall m, ms_height s < Z.of_nat m -> expand m o = Some s.
Proof.
  induction n as [|n IH]; intros o s Hs m Hm; [done|]. pose proof (expand_bounds _ _ _ Hs) as Hb.
  destruct m as [|m]; [lia|]. revert Hs. cbn [expand]. destruct (_ || _); [done|].
  destruct (read_head data o) as [[t next|count next|next|text size next]|]; [..|done]; try done.
  - destruct (expand n t) as [s'|] eqn:E'; [|done]. intros [= <-]. cbn in Hm. by rewrite (IH t s' E' m) by lia.
  - destruct (expand_children _ _ _) as [[[[stop v] b] h]|] eqn:E'; [|done]. intros [= <-]. cbn in Hm.
    rewrite (expand_children_agree (expand n) (expand m) _ _ _ _ _ _ E'); [done|].
    intros o' s' Hs' Hh. apply (IH o' s' Hs'). lia.
Qed.
End Expansion.

(** ** The check against the expansion *)

Lemma mmdbAdd_spec counter amount limit : 0 <= counter -> 0 <= amount -> limit <= u64_max ->
  mmdbAdd counter amount limit = (false, (mmdbAdd counter amount limit).2) /\ limit < counter + amount
  \/ mmdbAdd counter amount limit = (true, counter + amount) /\ counter + amount <= limit.
Proof.
  intros Hc Ha Hl. unfold mmdbAdd. case_if; bool_to_prop; [left; split; [done|lia]|].
  destruct (Z.leb_spec (counter + amount) limit); [by right|by left].
Qed.

Section Exact.
Context (data : list Z) (cancelled : Z -> bool) (workLimit valueLimit byteLimit cacheSlots : Z).
Context (Hbytes : Forall (fun b => 0 <= b < 256) data) (Hlen : lenZ data <= maxDatabase) (Hwork : workLimit <= u64_max).

#[local] Abbreviation parse := (parse data cancelled workLimit cacheSlots).
#[local] Abbreviation parse_value := (parse_value data cacheSlots).
#[local] Abbreviation enter_value := (enter_value data cancelled workLimit).
#[local] Abbreviation expand := (expand data).

(** Every remembered summary is that of its target. *)
Definition cache_ok (c : gmap Z mmdbCacheEntry) : Prop :=
  forall slot e, c !! slot = Some e ->
    exists o, 0 <= o < lenZ data /\ mc_key e = o + 1 /\ expand (S mmdbDepthLimit) o = Some (mc_summary e).

#[local] Arguments cache_ok : simpl never.

Record sound (p : mmdbValueBounds) : Prop := {
  sd_active : length (mb_active p) = S mmdbDepthLimit;
  sd_cache : cache_ok (mb_cache p);
  sd_operations : 0 <= mb_operations p;
  sd_values : 0 <= mb_recordValues p <= mmdbRecordValueLimit;
  sd_bytes : 0 <= mb_recordBytes p <= mmdbRecordByteLimit }.

(** A state after a value at a depth: the record is charged with the expansion. *)
Record charged (depth : nat) (o : Z) (s : mmdbValueSummary) (p p' : mmdbValueBounds) : Prop := {
  ch_expands : expand (S mmdbDepthLimit - depth) o = Some s;
  ch_depth : (depth <= mmdbDepthLimit)%nat;
  ch_sound : sound p';
  ch_values : mb_recordValues p' = mb_recordValues p + ms_values s;
  ch_bytes : mb_recordBytes p' = mb_recordBytes p + ms_bytes s;
  ch_active : take depth (mb_active p') = take depth (mb_active p);
  ch_totals : mb_expandedValues p' = mb_expandedValues p /\ mb_expandedBytes p' = mb_expandedBytes p }.

(** *** Steps *)

(** The parts of the state that a charge keeps. *)
Definition same_rest (p p' : mmdbValueBounds) : Prop :=
  mb_operations p' = mb_operations p /\ mb_cache p' = mb_cache p /\ mb_active p' = mb_active p
  /\ mb_expandedValues p' = mb_expandedValues p /\ mb_expandedBytes p' = mb_expandedBytes p.

Lemma charge_values_ok n p p' : sound p -> 0 <= n -> charge_values n p = Ok p' ->
  sound p' /\ same_rest p p' /\ mb_recordValues p' = mb_recordValues p + n /\ mb_recordBytes p' = mb_recordBytes p.
Proof.
  intros [H1 H2 H3 H4 H5] Hn. unfold charge_values.
  destruct (mmdbAdd_spec (mb_recordValues p) n mmdbRecordValueLimit) as [[-> _]|[-> Hl]]; [lia|done|by vm_compute|done|].
  intros [= <-]. split; [split; cbn; done || lia|by repeat split].
Qed.

Lemma charge_bytes_ok n p p' : sound p -> 0 <= n -> charge_bytes n p = Ok p' ->
  sound p' /\ same_rest p p' /\ mb_recordValues p' = mb_recordValues p /\ mb_recordBytes p' = mb_recordBytes p + n.
Proof.
  intros [H1 H2 H3 H4 H5] Hn. unfold charge_bytes.
  destruct (mmdbAdd_spec (mb_recordBytes p) n mmdbRecordByteLimit) as [[-> _]|[-> Hl]]; [lia|done|by vm_compute|done|].
  intros [= <-]. split; [split; cbn; done || lia|by repeat split].
Qed.

Lemma enter_ok o depth p p' : sound p -> enter_value o depth p = Ok p' ->
  0 <= o < lenZ data /\ (depth <= mmdbDepthLimit)%nat /\ sound p' /\ mb_recordValues p' = mb_recordValues p
  /\ mb_recordBytes p' = mb_recordBytes p /\ mb_cache p' = mb_cache p /\ mb_operations p' = mb_operations p + 1
  /\ mb_expandedValues p' = mb_expandedValues p /\ mb_expandedBytes p' = mb_expandedBytes p
  /\ mb_active p' = <[depth := o]> (mb_active p).
Proof.
  intros [H1 H2 H3 H4 H5]. unfold Mmdb.enter_value. destruct (mmdbAdd_spec (mb_operations p) 1 workLimit) as [[-> _]|[-> Hl]]; [lia..|done|].
  cbn [negb]. case_if; [done|]. destruct (Nat.ltb_spec mmdbDepthLimit depth) as [|Hd]; [done|].
  case_if; [done|]. case_if; [done|]. intros [= <-]. bool_to_prop. cbn. split; [lia|]. split; [done|].
  split; [|by repeat split]. split; cbn; try done; [by rewrite length_insert|lia].
Qed.

Lemma active_entered o depth p p' : sound p -> enter_value o depth p = Ok p' ->
  take depth (mb_active p') = take depth (mb_active p) /\ mb_active p' !! depth = Some o.
Proof.
  intros Hs He. destruct (enter_ok _ _ _ _ Hs He) as (_ & Hd & _ & _ & _ & _ & _ & _ & _ & ->).
  split; [apply take_insert_ge; lia|]. apply list_lookup_insert_eq. rewrite (sd_active _ Hs). lia.
Qed.

Lemma take_step {A} (l l' : list A) d : take (S d) l' = take (S d) l -> take d l' = take d l /\ l' !! d = l !! d.
Proof.
  intros E. split.
  - rewrite <- (Nat.min_l d (S d)) by lia. rewrite <- !take_take. by rewrite E.
  - by rewrite <- (lookup_take_lt l' (S d)), E, lookup_take_lt by lia.
Qed.

(** *** Soundness *)

Lemma expand_small n o s : expand n o = Some s -> (n <= S mmdbDepthLimit)%nat ->
  wrap_u32 (ms_end s) = ms_end s /\ wrap_u8 (ms_height s + 1) = ms_height s + 1 /\ wrap_u32 (wrap_u32 o + 1) = o + 1.
Proof.
  intros Hs Hn. apply (expand_bounds data Hbytes) in Hs. unfold wrap_u32, wrap_u8. unfold mmdbDepthLimit in Hn.
  change maxDatabase with 167772160 in Hlen. rewrite !Z.mod_small by lia. rewrite Z.mod_small by (rewrite Z.mod_small; lia).
  rewrite Z.mod_small by lia. lia.
Qed.

(** A summary that is published is that of the expansion. *)
Lemma finish_ok depth target o p0 p s s' p' :
  sound p0 -> sound p -> (depth <= mmdbDepthLimit)%nat -> expand (S mmdbDepthLimit - depth) o = Some s ->
  mb_active p !! depth = Some o -> take depth (mb_active p) = take depth (mb_active p0) ->
  mb_recordValues p = mb_recordValues p0 + ms_values s -> mb_recordBytes p = mb_recordBytes p0 + ms_bytes s ->
  mb_expandedValues p = mb_expandedValues p0 /\ mb_expandedBytes p = mb_expandedBytes p0 ->
  finish cacheSlots depth target (mb_recordValues p0) (mb_recordBytes p0) (ms_end s) (ms_height s) p = (s', p') ->
  s' = s /\ charged depth o s p0 p' /\ mb_operations p' = mb_operations p.
Proof.
  intros Hs0 Hs Hd He Ha Ht Hv Hb Hx. unfold finish.
  assert (Hdown : (S mmdbDepthLimit - depth <= S mmdbDepthLimit)%nat) by lia.
  destruct (expand_small _ _ _ He Hdown) as (E1 & _ & E3). pose proof (expand_bounds data Hbytes _ _ _ He) as Hbd.
  assert (Es : mkSummary (wrap_u32 (ms_end s)) (wrap_u32 (mb_recordValues p - mb_recordValues p0))
                 (wrap_u32 (mb_recordBytes p - mb_recordBytes p0)) (ms_height s) = s).
  { rewrite E1, Hv, Hb. destruct Hs, Hs0. unfold wrap_u32. change mmdbRecordValueLimit with 16384 in *.
    change mmdbRecordByteLimit with 8388608 in *. rewrite !Z.mod_small by lia. destruct s; cbn. f_equal; lia. }
  rewrite Es. destruct (target && (0 <? cacheSlots)).
  - intros [= <- <-]. split; [done|]. split; [|done]. split; try done. destruct Hs. split; cbn; try done.
    rewrite nth_lookup, Ha. cbn [default]. intros slot e. destruct (decide (slot = cache_slot cacheSlots o)) as [->|Hne].
    + rewrite lookup_insert_eq. intros [= <-]. exists o. cbn [mc_key mc_summary]. rewrite E3. split; [lia|]. split; [done|].
      apply (expand_within data Hbytes _ _ _ He). lia.
    + rewrite lookup_insert_ne by done. by apply sd_cache0.
  - intros [= <- <-]. split; [done|]. split; [by split|done].
Qed.

(** What a call for the next depth gives. *)
Definition calls_sound (depth : nat) (f : Z -> bool -> mmdbValueBounds -> result mmdb_error (mmdbValueSummary * mmdbValueBounds)) : Prop :=
  forall o t p s p', sound p -> f o t p = Ok (s, p') -> charged depth o s p p'.

Lemma children_sound depth f : calls_sound (S depth) f -> forall count o h p stop height p',
  sound p -> 0 <= h <= Z.of_nat (S mmdbDepthLimit) ->
  parse_children (fun o => f o false) count o h p = Ok (stop, height, p') ->
  exists v b h', expand_children (expand (S mmdbDepthLimit - S depth)) count o = Some (stop, v, b, h')
    /\ height = Z.max h h' /\ sound p' /\ mb_recordValues p' = mb_recordValues p + v
    /\ mb_recordBytes p' = mb_recordBytes p + b /\ take (S depth) (mb_active p') = take (S depth) (mb_active p)
    /\ mb_expandedValues p' = mb_expandedValues p /\ mb_expandedBytes p' = mb_expandedBytes p.
Proof.
  intros Hf count. induction count as [|count IH]; intros o h p stop height p' Hs Hh; cbn [parse_children expand_children].
  - intros [= <- <- <-]. exists 0, 0, 0. split; [done|]. split; [lia|]. split; [done|]. repeat split; lia || done.
  - destruct (f o false p) as [[s p1]|] eqn:E; [|done]. cbn [rbind]. intros Hrest. apply (Hf _ _ _ _ _ Hs) in E.
    destruct E as [H1 H2 H3 H4 H5 H6 [H7 H8]]. pose proof (expand_bounds data Hbytes _ _ _ H1) as Hbd.
    destruct (expand_small _ _ _ H1 ltac:(lia)) as (_ & E2 & _). rewrite E2 in Hrest.
    apply IH in Hrest as (v & b & h' & K1 & K2 & K3 & K4 & K5 & K6 & K7 & K8); [|done|lia].
    rewrite H1, K1. exists (ms_values s + v), (ms_bytes s + b), (Z.max (ms_height s + 1) h'). split; [done|].
    split; [lia|]. split; [done|]. split; [lia|]. split; [lia|]. split; [by rewrite K6, H6|]. split; congruence.
Qed.

Lemma parse_value_sound depth f o target p0 p s p' :
  calls_sound (S depth) f -> sound p0 -> sound p -> (depth <= mmdbDepthLimit)%nat -> 0 <= o < lenZ data ->
  mb_active p !! depth = Some o -> take depth (mb_active p) = take depth (mb_active p0) ->
  mb_recordValues p = mb_recordValues p0 -> mb_recordBytes p = mb_recordBytes p0 ->
  mb_expandedValues p = mb_expandedValues p0 /\ mb_expandedBytes p = mb_expandedBytes p0 ->
  parse_value f o depth target p = Ok (s, p') -> charged depth o s p0 p'.
Proof.
  intros Hf Hs0 Hs Hd Ho Ha Ht Hv Hb [Hx Hy]. unfold Mmdb.parse_value. rewrite Hv, Hb.
  destruct (charge_values 1 p) as [p1|] eqn:E1; [|done]. cbn [rbind].
  destruct (charge_values_ok 1 _ _ Hs ltac:(lia) E1) as (S1 & (R1 & R2 & R3 & R4 & R5) & V1 & B1).
  destruct (read_head data o) as [h|] eqn:Eh; [|done]. cbn [rbind]. pose proof (read_head_within data Hbytes o h Ho Eh) as Hw.
  replace (S mmdbDepthLimit - S depth)%nat with (mmdbDepthLimit - depth)%nat in * by lia.
  assert (Eexp : expand (S mmdbDepthLimit - depth) o = expand (S (mmdbDepthLimit - depth)) o) by (f_equal; lia).
  assert (Hr : (o <? 0) || (lenZ data <=? o) = false).
  { rewrite (proj2 (Z.ltb_ge _ _)), (proj2 (Z.leb_gt _ _)) by lia. done. }
  destruct h as [t next|count next|next|text size next]; cbn [head_within] in Hw.
  - destruct (f t true p1) as [[c p2]|] eqn:E2; [|done]. cbn [rbind].
    apply (Hf _ _ _ _ _ S1) in E2 as [C1 C2 C3 C4 C5 C6 [C7 C8]].
    replace (S mmdbDepthLimit - S depth)%nat with (mmdbDepthLimit - depth)%nat in C1 by lia.
    destruct (expand_small _ _ _ C1 ltac:(lia)) as (_ & -> & _). rewrite R3 in C6. destruct (take_step _ _ _ C6) as [T1 T2].
    intros Hfin. injection Hfin as Hfin.
    eapply (finish_ok depth target o p0 p2 (mkSummary next (1 + ms_values c) (ms_bytes c) (ms_height c + 1))) in Hfin as (-> & Hc & _); try done.
    + rewrite Eexp. cbn [Mmdb.expand]. by rewrite Hr, Eh, C1.
    + by rewrite T2, Ha.
    + by rewrite T1, Ht.
    + cbn. lia.
    + cbn. lia.
    + split; congruence.
  - destruct (charge_bytes (count * 128) p1) as [p2|] eqn:E2; [|done]. cbn [rbind].
    destruct (charge_bytes_ok (count * 128) _ _ S1 ltac:(lia) E2) as (S2 & (Q1 & Q2 & Q3 & Q4 & Q5) & V2 & B2).
    destruct (parse_children _ _ _ _ _) as [[[stop height] p3]|] eqn:E3; [|done]. cbn [rbind].
    apply (children_sound depth f Hf) in E3 as (v & b & h' & K1 & -> & K3 & K4 & K5 & K6 & K7 & K8); [|done|lia].
    replace (S mmdbDepthLimit - S depth)%nat with (mmdbDepthLimit - depth)%nat in K1 by lia.
    rewrite Q3, R3 in K6. destruct (take_step _ _ _ K6) as [T1 T2]. intros Hfin. injection Hfin as Hfin.
    assert (Hexp : expand (S mmdbDepthLimit - depth) o = Some (mkSummary stop (1 + v) (count * 128 + b) h')).
    { rewrite Eexp. cbn [Mmdb.expand]. by rewrite Hr, Eh, K1. }
    pose proof (expand_bounds data Hbytes _ _ _ Hexp) as Hbd. cbn [ms_height] in Hbd. rewrite Z.max_r in Hfin by lia.
    eapply (finish_ok depth target o p0 p3 (mkSummary stop (1 + v) (count * 128 + b) h')) in Hfin as (-> & Hc & _); try done.
    + by rewrite T2, Ha.
    + by rewrite T1, Ht.
    + cbn. lia.
    + cbn. lia.
    + split; congruence.
  - intros Hfin. injection Hfin as Hfin.
    eapply (finish_ok depth target o p0 p1 (mkSummary next 1 0 0)) in Hfin as (-> & Hc & _); try done.
    + rewrite Eexp. cbn [Mmdb.expand]. by rewrite Hr, Eh.
    + by rewrite R3.
    + by rewrite R3.
    + cbn. lia.
    + cbn. lia.
    + split; congruence.
  - destruct (charge_bytes size p1) as [p2|] eqn:E2; [|done]. cbn [rbind].
    destruct (charge_bytes_ok size _ _ S1 ltac:(lia) E2) as (S2 & (Q1 & Q2 & Q3 & Q4 & Q5) & V2 & B2).
    destruct (bytes_at_spec data Hbytes next (next + size)) as [Eb _]; [lia..|]. rewrite Eb. cbn [rbind].
    replace (next + size - next) with size by lia. destruct (text && _) eqn:Et; [done|]. intros Hfin. injection Hfin as Hfin.
    eapply (finish_ok depth target o p0 p2 (mkSummary (next + size) 1 size 0)) in Hfin as (-> & Hc & _); try done.
    + rewrite Eexp. cbn [Mmdb.expand]. by rewrite Hr, Eh, Et.
    + by rewrite Q3, R3.
    + by rewrite Q3, R3.
    + cbn. lia.
    + cbn. lia.
    + split; congruence.
Qed.

Lemma reuse_sound depth o e p0 p s p' :
  sound p0 -> sound p -> (depth <= mmdbDepthLimit)%nat -> 0 <= o < lenZ data ->
  mb_cache p !! cache_slot cacheSlots o = Some e -> mc_key e = wrap_u32 (wrap_u32 o + 1) ->
  take depth (mb_active p) = take depth (mb_active p0) ->
  mb_recordValues p = mb_recordValues p0 -> mb_recordBytes p = mb_recordBytes p0 ->
  mb_expandedValues p = mb_expandedValues p0 /\ mb_expandedBytes p = mb_expandedBytes p0 ->
  reuse depth (mc_summary e) p = Ok (s, p') -> charged depth o s p0 p'.
Proof.
  intros Hs0 Hs Hd Ho Hc Hk Ht Hv Hb [Hx Hy]. destruct (sd_cache _ Hs _ _ Hc) as (o' & Ho' & Hk' & He).
  assert (o' = o) as ->.
  { revert Hk. rewrite Hk'. unfold wrap_u32. change maxDatabase with 167772160 in Hlen.
    rewrite (Z.mod_small o) by lia. rewrite Z.mod_small by lia. lia. }
  pose proof (expand_bounds data Hbytes _ _ _ He) as Hbd. unfold reuse. set (p1 := set_active _ _ (set_cache _ _ _ _ _ p)).
  assert (S1 : sound p1) by (by destruct Hs). destruct (_ <? _) eqn:Eh; [done|]. bool_to_prop.
  destruct (charge_values _ p1) as [p2|] eqn:E2; [|done]. cbn [rbind].
  destruct (charge_values_ok (ms_values (mc_summary e)) _ _ S1 ltac:(lia) E2) as (S2 & (R1 & R2 & R3 & R4 & R5) & V2 & B2).
  destruct (charge_bytes _ p2) as [p3|] eqn:E3; [|done]. cbn [rbind].
  destruct (charge_bytes_ok (ms_bytes (mc_summary e)) _ _ S2 ltac:(lia) E3) as (S3 & (Q1 & Q2 & Q3 & Q4 & Q5) & V3 & B3).
  intros [= <- <-]. unfold p1 in *. cbn in V2, B2, R3, R4, R5. split; try done; try congruence; [|split; congruence].
  apply (expand_within data Hbytes _ _ _ He). unfold mmdbDepthLimit in *. lia.
Qed.

Lemma parse_sound fuel : forall depth, calls_sound depth (parse fuel depth).
Proof.
  induction fuel as [|fuel IH]; intros depth o target p s p' Hs; [done|]. cbn [Mmdb.parse].
  destruct (enter_value o depth p) as [p1|] eqn:Ee; [|done]. cbn [rbind].
  destruct (enter_ok _ _ _ _ Hs Ee) as (Ho & Hd & S1 & V1 & B1 & C1 & O1 & X1 & Y1 & A1).
  destruct (active_entered _ _ _ _ Hs Ee) as [T1 A2].
  destruct (target && (0 <? cacheSlots)); [|by apply (parse_value_sound depth (parse fuel (S depth)) o target p p1)].
  set (p2 := set_cache (mb_cache p1) (mb_cacheHits p1) (mb_cacheMisses p1 + 1) (mb_cacheEntries p1) (mb_cacheEvictions p1) p1).
  assert (S2 : sound p2) by (by destruct S1).
  assert (Hmiss : parse_value (parse fuel (S depth)) o depth target p2 = Ok (s, p') -> charged depth o s p p').
  { by apply (parse_value_sound depth (parse fuel (S depth)) o target p p2). }
  destruct (mb_cache p1 !! cache_slot cacheSlots o) as [e|] eqn:Ec; [|exact Hmiss].
  destruct (Z.eqb_spec (mc_key e) (wrap_u32 (wrap_u32 o + 1))) as [Ek|]; [|exact Hmiss].
  by apply (reuse_sound depth o e p p1).
Qed.

(** ** No read outside the data *)

Lemma charge_values_safe n p : charge_values n p <> Err MPanic.
Proof. unfold charge_values. destruct (mmdbAdd _ _ _) as [[|] v]; done. Qed.
Lemma charge_bytes_safe n p : charge_bytes n p <> Err MPanic.
Proof. unfold charge_bytes. destruct (mmdbAdd _ _ _) as [[|] v]; done. Qed.

Lemma children_safe (f : Z -> mmdbValueBounds -> result mmdb_error (mmdbValueSummary * mmdbValueBounds)) count : forall o h p,
  (forall o p, f o p <> Err MPanic) -> parse_children f count o h p <> Err MPanic.
Proof.
  induction count as [|count IH]; intros o h p Hf; cbn [parse_children]; [done|]. pose proof (Hf o p) as H1.
  destruct (f o p) as [[s p1]|e]; cbn [rbind]; [by apply IH|]. congruence.
Qed.

Lemma parse_value_safe f o depth target p : 0 <= o < lenZ data -> (forall o t p, f o t p <> Err MPanic) ->
  parse_value f o depth target p <> Err MPanic.
Proof.
  intros Ho Hf. unfold Mmdb.parse_value. pose proof (charge_values_safe 1 p) as H1.
  destruct (charge_values 1 p) as [p1|e]; cbn [rbind]; [|congruence].
  pose proof (read_head_safe data Hbytes o Ho) as Hh.
  destruct (read_head data o) as [[t next|count next|next|text size next]|e]; cbn [rbind safe_read head_within] in *; [..|congruence].
  - pose proof (Hf t true p1) as H2. destruct (f t true p1) as [[s p2]|e]; cbn [rbind]; [done|congruence].
  - pose proof (charge_bytes_safe (count * 128) p1) as H2. destruct (charge_bytes _ p1) as [p2|e]; cbn [rbind]; [|congruence].
    pose proof (children_safe (fun o => f o false) (Z.to_nat count) next 0 p2 ltac:(intros; apply Hf)) as H3.
    destruct (parse_children _ _ _ _ _) as [[[stop h] p3]|e]; cbn [rbind]; [done|congruence].
  - done.
  - pose proof (charge_bytes_safe size p1) as H2. destruct (charge_bytes _ p1) as [p2|e]; cbn [rbind]; [|congruence].
    destruct (bytes_at_spec data Hbytes next (next + size)) as [Eb _]; [lia..|]. rewrite Eb. cbn [rbind]. by case_if.
Qed.

Lemma enter_safe o depth p : enter_value o depth p <> Err MPanic.
Proof. unfold Mmdb.enter_value. destruct (mmdbAdd _ _ _) as [ok n]. by repeat case_if. Qed.

Lemma enter_within o depth p p' : enter_value o depth p = Ok p' -> 0 <= o < lenZ data /\ (depth <= mmdbDepthLimit)%nat.
Proof.
  unfold Mmdb.enter_value. destruct (mmdbAdd _ _ _) as [ok n]. case_if; [done|]. case_if; [done|].
  destruct (Nat.ltb_spec mmdbDepthLimit depth); [done|]. bool_to_prop. by intros _.
Qed.

Lemma parse_safe fuel : forall depth o target p, (depth <= S mmdbDepthLimit < depth + fuel)%nat ->
  parse fuel depth o target p <> Err MPanic.
Proof.
  induction fuel as [|fuel IH]; intros depth o target p Hd; [lia|]. cbn [Mmdb.parse].
  pose proof (enter_safe o depth p) as H1. destruct (enter_value o depth p) as [p1|e] eqn:Ee; cbn [rbind]; [|congruence].
  apply enter_within in Ee as [Ho Hd']. assert (Hf : forall o t p, parse fuel (S depth) o t p <> Err MPanic) by (intros; apply IH; lia).
  assert (Hreuse : forall s, reuse depth s p1 <> Err MPanic).
  { intros s. unfold reuse. set (p2 := set_active _ _ _). case_if; [done|]. pose proof (charge_values_safe (ms_values s) p2) as H2.
    destruct (charge_values _ p2) as [p3|e]; cbn [rbind]; [|congruence]. pose proof (charge_bytes_safe (ms_bytes s) p3) as H3.
    destruct (charge_bytes _ p3) as [p4|e]; cbn [rbind]; [done|congruence]. }
  destruct (target && _); [|by apply parse_value_safe].
  destruct (mb_cache p1 !! _); [case_if; [apply Hreuse|]|]; by apply parse_value_safe.
Qed.

(** ** Completeness *)

Context (Hnever : forall n, cancelled n = false).

(** The values that a value is part of are deeper than it. *)
Definition ancestors_deeper (depth : nat) (s : mmdbValueSummary) (p : mmdbValueBounds) : Prop :=
  Forall (fun a => exists sa, expand (S mmdbDepthLimit) a = Some sa /\ ms_height s < ms_height sa) (take depth (mb_active p)).

(** What a call for the next depth does with a value that is within the limits. *)
Definition calls_complete (depth : nat) (f : Z -> bool -> mmdbValueBounds -> result mmdb_error (mmdbValueSummary * mmdbValueBounds)) : Prop :=
  forall o t p s, sound p -> expand (S mmdbDepthLimit - depth) o = Some s -> ancestors_deeper depth s p ->
    mb_recordValues p + ms_values s <= mmdbRecordValueLimit -> mb_recordBytes p + ms_bytes s <= mmdbRecordByteLimit ->
    mb_operations p + ms_values s <= workLimit ->
    exists p', f o t p = Ok (s, p') /\ mb_operations p' <= mb_operations p + ms_values s.

Lemma charge_values_fits n p : 0 <= n -> sound p -> mb_recordValues p + n <= mmdbRecordValueLimit ->
  exists p', charge_values n p = Ok p' /\ same_rest p p' /\ mb_recordValues p' = mb_recordValues p + n
    /\ mb_recordBytes p' = mb_recordBytes p.
Proof.
  intros Hn [_ _ _ H4 _] Hl. unfold charge_values.
  destruct (mmdbAdd_spec (mb_recordValues p) n mmdbRecordValueLimit) as [[_ Hx]|[-> _]]; [lia|done|by vm_compute|lia|].
  eexists. split; [done|]. by repeat split.
Qed.

Lemma charge_bytes_fits n p : 0 <= n -> sound p -> mb_recordBytes p + n <= mmdbRecordByteLimit ->
  exists p', charge_bytes n p = Ok p' /\ same_rest p p' /\ mb_recordValues p' = mb_recordValues p
    /\ mb_recordBytes p' = mb_recordBytes p + n.
Proof.
  intros Hn [_ _ _ _ H5] Hl. unfold charge_bytes.
  destruct (mmdbAdd_spec (mb_recordBytes p) n mmdbRecordByteLimit) as [[_ Hx]|[-> _]]; [lia|done|by vm_compute|lia|].
  eexists. split; [done|]. by repeat split.
Qed.

Lemma ancestors_same depth s p p' : take depth (mb_active p') = take depth (mb_active p) ->
  ancestors_deeper depth s p -> ancestors_deeper depth s p'.
Proof. unfold ancestors_deeper. by intros ->. Qed.

Lemma enter_fits depth o p s : sound p -> (depth <= mmdbDepthLimit)%nat -> 0 <= o < lenZ data ->
  expand (S mmdbDepthLimit) o = Some s -> ancestors_deeper depth s p -> mb_operations p + 1 <= workLimit ->
  exists p', enter_value o depth p = Ok p'.
Proof.
  intros Hs Hd Ho He Ha Hw. unfold Mmdb.enter_value. pose proof (sd_operations _ Hs) as Hops.
  destruct (mmdbAdd_spec (mb_operations p) 1 workLimit) as [[_ Hx]|[-> _]]; [lia|lia|done|lia|]. cbn [negb].
  rewrite (proj2 (Z.ltb_ge _ _)), (proj2 (Z.leb_gt _ _)) by lia. cbn [orb].
  rewrite (proj2 (Nat.ltb_ge _ _)) by lia. rewrite Hnever, andb_false_r. cbn [mb_active set_operations].
  destruct (existsb _ _) eqn:E; [|by eexists]. apply existsb_exists in E as (a & Hin & Ea). apply Z.eqb_eq in Ea. subst a.
  apply list_elem_of_In in Hin. unfold ancestors_deeper in Ha. rewrite Forall_forall in Ha.
  destruct (Ha _ Hin) as (sa & Hsa & Hlt). rewrite He in Hsa. injection Hsa as <-. lia.
Qed.

(** The parts of a value are less deep than it. *)
Lemma ancestors_child depth o s c p p1 :
  expand (S mmdbDepthLimit) o = Some s -> ms_height c < ms_height s -> ancestors_deeper depth s p ->
  take depth (mb_active p1) = take depth (mb_active p) -> mb_active p1 !! depth = Some o -> ancestors_deeper (S depth) c p1.
Proof.
  intros He Hh Ha Ht Ho. unfold ancestors_deeper. rewrite (take_S_r _ _ o Ho), Ht. apply Forall_app. split.
  - eapply Forall_impl; [exact Ha|]. intros a (sa & Hsa & Hlt). exists sa. split; [done|lia].
  - apply Forall_singleton. by exists s.
Qed.

Lemma children_complete depth f o s : calls_sound (S depth) f -> calls_complete (S depth) f ->
  expand (S mmdbDepthLimit) o = Some s -> forall count next h p stop v b h' p0,
  sound p -> 0 <= h <= Z.of_nat (S mmdbDepthLimit) ->
  expand_children (expand (S mmdbDepthLimit - S depth)) count next = Some (stop, v, b, h') -> h' <= ms_height s ->
  next <= lenZ data -> (depth < S mmdbDepthLimit)%nat ->
  ancestors_deeper depth s p0 -> take depth (mb_active p) = take depth (mb_active p0) -> mb_active p !! depth = Some o ->
  mb_recordValues p + v <= mmdbRecordValueLimit -> mb_recordBytes p + b <= mmdbRecordByteLimit ->
  mb_operations p + v <= workLimit ->
  exists p', parse_children (fun o => f o false) count next h p = Ok (stop, Z.max h h', p')
    /\ mb_operations p' <= mb_operations p + v.
Proof.
  intros Hf Hc He count. induction count as [|count IH]; intros next h p stop v b h' p0 Hs Hh; cbn [parse_children expand_children].
  - intros [= <- <- <- <-]. intros. exists p. rewrite Z.max_l by lia. split; [done|lia].
  - destruct (expand _ next) as [c|] eqn:Ec; [|done].
    destruct (expand_children _ count (ms_end c)) as [[[[stop1 v1] b1] h1]|] eqn:E1; [|done].
    intros [= <- <- <- <-] Hle Hn Hd Ha Ht Hat Hv Hb Hops. pose proof (expand_bounds data Hbytes _ _ _ Ec) as Hbd.
    assert (Hmore : ms_end c <= stop1 /\ 0 <= v1 /\ 0 <= b1 /\ 0 <= h1).
    { destruct (S mmdbDepthLimit - S depth)%nat as [|m] eqn:Em; [done|].
      eapply (expand_children_bounds data (expand (S m)) (Z.of_nat (S m))) in E1; [lia| |lia|lia].
      intros o' s' Hs'. apply (expand_bounds data Hbytes) in Hs'. lia. }
    assert (Hanc : ancestors_deeper (S depth) c p) by (apply (ancestors_child depth o s c p0 p He); done || lia).
    destruct (Hc next false p c Hs Ec Hanc) as (p1 & Ef & Ho1); [lia..|]. rewrite Ef. cbn [rbind].
    pose proof (Hf _ _ _ _ _ Hs Ef) as [C1 C2 C3 C4 C5 C6 _]. destruct (expand_small _ _ _ Ec ltac:(lia)) as (_ & -> & _).
    destruct (take_step _ _ _ C6) as [T1 T2].
    destruct (IH (ms_end c) (Z.max h (ms_height c + 1)) p1 stop1 v1 b1 h1 p0) as (p2 & E2 & Ho2);
      try done; try lia; [by rewrite T1, Ht|by rewrite T2, Hat|].
    exists p2. rewrite E2. split; [|lia]. by rewrite Z.max_assoc.
Qed.

Lemma finish_operations depth target v b stop h p :
  exists s p', finish cacheSlots depth target v b stop h p = (s, p') /\ mb_operations p' = mb_operations p.
Proof. unfold finish. case_if; by do 2 eexists. Qed.

Lemma parse_value_complete depth f o target p s :
  calls_sound (S depth) f -> calls_complete (S depth) f -> sound p -> (depth <= mmdbDepthLimit)%nat ->
  expand (S mmdbDepthLimit - depth) o = Some s -> ancestors_deeper depth s p -> mb_active p !! depth = Some o ->
  mb_recordValues p + ms_values s <= mmdbRecordValueLimit -> mb_recordBytes p + ms_bytes s <= mmdbRecordByteLimit ->
  mb_operations p + ms_values s <= workLimit + 1 ->
  exists s' p', parse_value f o depth target p = Ok (s', p') /\ mb_operations p' <= mb_operations p + ms_values s - 1.
Proof.
  intros Hf Hc Hs Hd He Ha Hat Hv Hb Hops. pose proof (expand_bounds data Hbytes _ _ _ He) as Hbd.
  assert (He0 : expand (S mmdbDepthLimit) o = Some s) by (apply (expand_within data Hbytes _ _ _ He); lia).
  unfold Mmdb.parse_value.
  destruct (charge_values_fits 1 p ltac:(lia) Hs ltac:(lia)) as (p1 & E1 & (R1 & R2 & R3 & R4 & R5) & V1 & B1).
  destruct (charge_values_ok 1 _ _ Hs ltac:(lia) E1) as [S1 _]. rewrite E1. cbn [rbind].
  assert (Hdown : (S mmdbDepthLimit - depth)%nat = S (S mmdbDepthLimit - S depth)) by lia.
  rewrite Hdown in He. cbn [Mmdb.expand] in He. destruct (_ || _) eqn:Er; [done|]. bool_to_prop.
  destruct (read_head data o) as [h|] eqn:Eh; [|done]. cbn [rbind].
  pose proof (read_head_within data Hbytes o h ltac:(lia) Eh) as Hw.
  assert (Ha1 : forall p2, mb_active p2 = mb_active p -> ancestors_deeper depth s p2).
  { intros p2 E. apply (ancestors_same depth s p); [by rewrite E|done]. }
  destruct h as [t next|count next|next|text size next]; cbn [head_within] in Hw.
  - destruct (expand _ t) as [c|] eqn:Ec; [|done]. injection He as <-. cbn [ms_end ms_values ms_bytes ms_height] in *.
    assert (Hanc : ancestors_deeper (S depth) c p1).
    { eapply (ancestors_child depth o _ c p p1 He0); [cbn; lia|done|by rewrite R3|by rewrite R3]. }
    destruct (Hc t true p1 c S1 Ec Hanc) as (p2 & -> & Ho2); [lia..|]. cbn [rbind].
    destruct (finish_operations depth target (mb_recordValues p) (mb_recordBytes p) next (wrap_u8 (ms_height c + 1)) p2)
      as (s' & p' & -> & Eo). exists s', p'. split; [done|]. cbn. lia.
  - destruct (expand_children _ _ _) as [[[[stop v] b] h]|] eqn:Ec; [|done]. injection He as <-. cbn [ms_end ms_values ms_bytes ms_height] in *.
    assert (Hvb : 0 <= v /\ 0 <= b).
    { destruct (S mmdbDepthLimit - S depth)%nat as [|m] eqn:Em.
      - destruct (Z.to_nat count); cbn in Ec; [|done]. injection Ec as <- <- <- <-. lia.
      - eapply (expand_children_bounds data (expand (S m)) (Z.of_nat (S m))) in Ec; [lia| |lia|lia].
        intros o' s' Hs'. apply (expand_bounds data Hbytes) in Hs'. lia. }
    destruct (charge_bytes_fits (count * 128) p1 ltac:(lia) S1 ltac:(lia)) as (p2 & E2 & (Q1 & Q2 & Q3 & Q4 & Q5) & V2 & B2).
    destruct (charge_bytes_ok (count * 128) _ _ S1 ltac:(lia) E2) as [S2 _]. rewrite E2. cbn [rbind].
    destruct (children_complete depth f o _ Hf Hc He0 (Z.to_nat count) next 0 p2 stop v b h p) as (p3 & -> & Ho3); try done; try lia.
    + by rewrite Q3, R3.
    + by rewrite Q3, R3.
    + cbn [rbind].
      destruct (finish_operations depth target (mb_recordValues p) (mb_recordBytes p) stop (Z.max 0 h) p3) as (s' & p' & -> & Eo).
      exists s', p'. split; [done|]. cbn. lia.
  - injection He as <-.
    destruct (finish_operations depth target (mb_recordValues p) (mb_recordBytes p) next 0 p1) as (s' & p' & -> & Eo).
    exists s', p'. split; [done|]. cbn. lia.
  - destruct (text && _) eqn:Et; [done|]. injection He as <-. cbn [ms_end ms_values ms_bytes ms_height] in *.
    destruct (charge_bytes_fits size p1 ltac:(lia) S1 ltac:(lia)) as (p2 & E2 & (Q1 & Q2 & Q3 & Q4 & Q5) & V2 & B2).
    rewrite E2. cbn [rbind]. destruct (bytes_at_spec data Hbytes next (next + size)) as [Eb _]; [lia..|]. rewrite Eb. cbn [rbind].
    replace (next + size - next) with size by lia. rewrite Et.
    destruct (finish_operations depth target (mb_recordValues p) (mb_recordBytes p) (next + size) 0 p2) as (s' & p' & -> & Eo).
    exists s', p'. split; [done|]. cbn. lia.
Qed.

Lemma reuse_complete depth s p : sound p -> 0 <= ms_values s -> 0 <= ms_bytes s -> 0 <= ms_height s ->
  Z.of_nat depth + ms_height s <= Z.of_nat mmdbDepthLimit ->
  mb_recordValues p + ms_values s <= mmdbRecordValueLimit -> mb_recordBytes p + ms_bytes s <= mmdbRecordByteLimit ->
  exists p', reuse depth s p = Ok (s, p') /\ mb_operations p' = mb_operations p.
Proof.
  intros Hs Hv0 Hb0 Hh Hd Hv Hb. unfold reuse. set (p1 := set_active _ _ (set_cache _ _ _ _ _ p)).
  assert (S1 : sound p1) by (by destruct Hs). rewrite (proj2 (Z.ltb_ge _ _)) by done.
  destruct (charge_values_fits (ms_values s) p1 Hv0 S1 Hv) as (p2 & E2 & (R1 & R2 & R3 & R4 & R5) & V2 & B2).
  destruct (charge_values_ok _ _ _ S1 Hv0 E2) as [S2 _]. rewrite E2. cbn [rbind].
  destruct (charge_bytes_fits (ms_bytes s) p2 Hb0 S2) as (p3 & E3 & (Q1 & Q2 & Q3 & Q4 & Q5) & V3 & B3); [by rewrite B2|].
  rewrite E3. cbn [rbind]. exists p3. split; [done|]. by rewrite Q1, R1.
Qed.

Lemma parse_complete fuel : forall depth, (S mmdbDepthLimit < depth + fuel)%nat -> calls_complete depth (parse fuel depth).
Proof.
  induction fuel as [|fuel IH]; intros depth Hfuel o target p s Hs He Ha Hv Hb Hops.
  { exfalso. replace (S mmdbDepthLimit - depth)%nat with 0%nat in He by lia. done. }
  pose proof (expand_bounds data Hbytes _ _ _ He) as Hbd.
  assert (He0 : expand (S mmdbDepthLimit) o = Some s) by (apply (expand_within data Hbytes _ _ _ He); lia).
  enough (H : exists s' p', parse (S fuel) depth o target p = Ok (s', p') /\ mb_operations p' <= mb_operations p + ms_values s).
  { destruct H as (s' & p' & E & Ho). pose proof (parse_sound _ _ _ _ _ _ _ Hs E) as Hch. pose proof (ch_expands _ _ _ _ _ Hch) as Hx.
    rewrite He in Hx. injection Hx as <-. by exists p'. }
  cbn [Mmdb.parse]. destruct (enter_fits depth o p s Hs ltac:(lia) ltac:(lia) He0 Ha ltac:(lia)) as (p1 & Ee). rewrite Ee. cbn [rbind].
  destruct (enter_ok _ _ _ _ Hs Ee) as (Ho & Hd & S1 & V1 & B1 & C1 & O1 & X1 & Y1 & A1).
  destruct (active_entered _ _ _ _ Hs Ee) as [T1 A2].
  assert (Hvalue : forall p2, sound p2 -> mb_active p2 = mb_active p1 -> mb_recordValues p2 = mb_recordValues p1 ->
    mb_recordBytes p2 = mb_recordBytes p1 -> mb_operations p2 = mb_operations p1 ->
    exists s' p', parse_value (parse fuel (S depth)) o depth target p2 = Ok (s', p')
      /\ mb_operations p' <= mb_operations p + ms_values s).
  { intros p2 S2 EA EV EB EO.
    destruct (parse_value_complete depth (parse fuel (S depth)) o target p2 s) as (s' & p' & E & Hx); try done; try lia.
    - apply parse_sound.
    - apply IH. lia.
    - apply (ancestors_same depth s p); [by rewrite EA, T1|done].
    - by rewrite EA.
    - exists s', p'. split; [done|lia]. }
  destruct (target && (0 <? cacheSlots)); [|by apply Hvalue].
  set (p2 := set_cache (mb_cache p1) (mb_cacheHits p1) (mb_cacheMisses p1 + 1) (mb_cacheEntries p1) (mb_cacheEvictions p1) p1).
  assert (S2 : sound p2) by (by destruct S1).
  destruct (mb_cache p1 !! cache_slot cacheSlots o) as [e|] eqn:Ec; [|by apply Hvalue].
  destruct (Z.eqb_spec (mc_key e) (wrap_u32 (wrap_u32 o + 1))) as [Ek|]; [|by apply Hvalue].
  destruct (sd_cache _ S1 _ _ Ec) as (o' & Ho' & Hk' & He').
  destruct (expand_small _ _ _ He0 ltac:(lia)) as (_ & _ & Eo). rewrite Eo, Hk' in Ek. assert (o' = o) as -> by lia.
  rewrite He0 in He'. injection He' as <-.
  destruct (reuse_complete depth s p1 S1) as (p3 & E3 & Ho3); try lia. exists s, p3. split; [done|lia].
Qed.

(** *** The loop over the records *)

#[local] Abbreviation check_record := (check_record data cancelled workLimit valueLimit byteLimit cacheSlots).
#[local] Abbreviation check_loop := (check_loop data cancelled workLimit valueLimit byteLimit cacheSlots).

Definition record_fits (s : mmdbValueSummary) : Prop :=
  ms_values s <= mmdbRecordValueLimit /\ ms_bytes s <= mmdbRecordByteLimit.
Definition total_values (l : list mmdbValueSummary) : Z := sumZ (ms_values <$> l).
Definition total_bytes (l : list mmdbValueSummary) : Z := sumZ (ms_bytes <$> l).

(** The state between records. *)
Record between_records (p : mmdbValueBounds) : Prop := {
  bt_sound : sound p; bt_values : 0 <= mb_expandedValues p; bt_bytes : 0 <= mb_expandedBytes p }.

Context (Hvalue : valueLimit <= u64_max) (Hbyte : byteLimit <= u64_max).

Lemma sound_reset p : sound p -> sound (set_record 0 0 p).
Proof. intros []. split; cbn; try done; split; try done; by vm_compute. Qed.

Lemma record_sound metadata o p next p' : between_records p -> check_record metadata o p = Ok (next, p') ->
  exists s, expand (S mmdbDepthLimit) o = Some s /\ next = ms_end s /\ record_fits s /\ between_records p'
    /\ mb_expandedValues p' = mb_expandedValues p + ms_values s /\ mb_expandedValues p' <= valueLimit
    /\ mb_expandedBytes p' = mb_expandedBytes p + ms_bytes s /\ mb_expandedBytes p' <= byteLimit
    /\ (metadata = true -> next = lenZ data).
Proof.
  intros [Hs Hv Hb]. unfold Mmdb.check_record. pose proof (sound_reset p Hs) as H0.
  destruct (parse parse_fuel 0 o false _) as [[s p1]|] eqn:E; [|done]. cbn [rbind].
  apply (parse_sound _ _ _ _ _ _ _ H0) in E as [C1 _ C3 C4 C5 _ [C7 C8]]. cbn in C4, C5, C7, C8. rewrite Nat.sub_0_r in C1.
  case_if; [done|]. pose proof (expand_bounds data Hbytes _ _ _ C1) as Hbd. pose proof (sd_values _ C3). pose proof (sd_bytes _ C3).
  destruct (mmdbAdd_spec (mb_expandedValues p1) (mb_recordValues p1) valueLimit) as [[-> _]|[-> Hvl]]; [lia|lia|done|done|].
  destruct (mmdbAdd_spec (mb_expandedBytes p1) (mb_recordBytes p1) byteLimit) as [[-> _]|[-> Hbl]]; [lia|lia|done|done|].
  cbn [negb]. case_if; [done|]. intros [= <- <-]. exists s.
  cbn [mb_expandedValues mb_expandedBytes set_expanded]. split; [exact C1|]. split; [done|]. split; [split; lia|].
  split; [split; [by destruct C3|cbn; lia|cbn; lia]|]. do 4 (split; [lia|]). intros Hmeta. rewrite Hmeta in *. cbn [andb] in *. by bool_to_prop.
Qed.

Lemma loop_sound metadata fuel : forall o p p', between_records p -> 0 <= o <= lenZ data ->
  check_loop fuel metadata o p = Ok p' ->
  exists l, records_from data o l /\ Forall record_fits l
    /\ mb_expandedValues p' = mb_expandedValues p + total_values l /\ mb_expandedBytes p' = mb_expandedBytes p + total_bytes l
    /\ (l <> [] -> mb_expandedValues p' <= valueLimit /\ mb_expandedBytes p' <= byteLimit)
    /\ (metadata = true -> (length l <= 1)%nat).
Proof.
  induction fuel as [|fuel IH]; intros o p p' Hp Ho; cbn [Mmdb.check_loop]; (destruct (Z.leb_spec (lenZ data) o) as [Hend|Hgo];
    [intros [= <-]; exists []; assert (o = lenZ data) as -> by lia; split; [constructor|]; split; [constructor|];
     unfold total_values, total_bytes; cbn; split; [lia|]; split; [lia|]; split; [done|]; cbn; lia|]); [done|].
  destruct (check_record metadata o p) as [[next p1]|] eqn:E; [|done]. cbn [rbind].
  destruct (record_sound _ _ _ _ _ Hp E) as (s & He & -> & Hfit & Hp1 & Hv & Hvl & Hb & Hbl & Hm).
  pose proof (expand_bounds data Hbytes _ _ _ He) as Hbd. intros Hrest.
  destruct (IH (ms_end s) p1 p' Hp1 ltac:(lia) Hrest) as (l & Hl & Hfits & Hv' & Hb' & Hlim & Hm').
  exists (s :: l). split; [by apply (records_next data o s)|]. split; [by constructor|]. unfold total_values, total_bytes in *.
  rewrite !fmap_cons, !sumZ_cons. split; [lia|]. split; [lia|]. split.
  - intros _. destruct l as [|s' l]; [|by apply Hlim]. rewrite !fmap_nil in *. change (sumZ []) with 0 in *. lia.
  - intros Hmeta. specialize (Hm Hmeta). inversion Hl as [|o' s' l' Hs' Hl' Eo]; [subst; simpl; lia|].
    apply (expand_bounds data Hbytes) in Hs'. lia.
Qed.

Lemma record_complete metadata o p s : between_records p -> expand (S mmdbDepthLimit) o = Some s -> record_fits s ->
  mb_operations p + ms_values s <= workLimit -> mb_expandedValues p + ms_values s <= valueLimit ->
  mb_expandedBytes p + ms_bytes s <= byteLimit -> (metadata = true -> ms_end s = lenZ data) ->
  exists p', check_record metadata o p = Ok (ms_end s, p') /\ mb_operations p' <= mb_operations p + ms_values s.
Proof.
  intros [Hs Hv Hb] He [Hfv Hfb] Hops Hvl Hbl Hm. unfold Mmdb.check_record. pose proof (sound_reset p Hs) as H0.
  pose proof (expand_bounds data Hbytes _ _ _ He) as Hbd.
  destruct (parse_complete parse_fuel 0 ltac:(unfold parse_fuel; lia) o false (set_record 0 0 p) s H0) as (p1 & E & Ho);
    [by rewrite Nat.sub_0_r|constructor|exact Hfv|exact Hfb|exact Hops|].
  rewrite E. cbn [rbind]. pose proof (parse_sound _ _ _ _ _ _ _ H0 E) as [_ _ C3 C4 C5 _ [C7 C8]]. cbn in C4, C5, C7, C8, Ho.
  rewrite (proj2 (Z.leb_gt _ _)) by lia.
  destruct (mmdbAdd_spec (mb_expandedValues p1) (mb_recordValues p1) valueLimit) as [[_ Hx]|[-> _]]; [lia|lia|done|lia|].
  destruct (mmdbAdd_spec (mb_expandedBytes p1) (mb_recordBytes p1) byteLimit) as [[_ Hx]|[-> _]]; [lia|lia|done|lia|].
  cbn [negb]. assert (Ht : metadata && negb (ms_end s =? lenZ data) = false).
  { destruct metadata; [|done]. by rewrite (Hm eq_refl), Z.eqb_refl. }
  rewrite Ht. eexists. split; [done|]. cbn. lia.
Qed.

Lemma records_nonneg o l : records_from data o l -> 0 <= total_values l /\ 0 <= total_bytes l.
Proof.
  unfold total_values, total_bytes. induction 1 as [|o s l Hs Hl IH]; [done|]. rewrite !fmap_cons, !sumZ_cons.
  apply (expand_bounds data Hbytes) in Hs. lia.
Qed.

Lemma loop_complete metadata l : forall fuel o p, records_from data o l -> between_records p ->
  (metadata = true -> (length l <= 1)%nat) -> lenZ data <= o + Z.of_nat fuel -> Forall record_fits l ->
  mb_operations p + total_values l <= workLimit -> mb_expandedValues p + total_values l <= valueLimit ->
  mb_expandedBytes p + total_bytes l <= byteLimit ->
  exists p', check_loop fuel metadata o p = Ok p'.
Proof.
  induction l as [|s l IH]; intros fuel o p Hl Hp Hm Hfuel Hfits Hops Hv Hb; inversion Hl as [E|o' s' l' Hs Hl' E E']; subst.
  - exists p. destruct fuel; cbn [Mmdb.check_loop]; by rewrite Z.leb_refl.
  - pose proof (expand_bounds data Hbytes _ _ _ Hs) as Hbd. apply Forall_cons in Hfits as [Hfit Hfits].
    pose proof (records_nonneg _ _ Hl') as [Hn1 Hn2]. unfold total_values, total_bytes in *.
    rewrite fmap_cons, sumZ_cons in Hops, Hv. rewrite fmap_cons, sumZ_cons in Hb.
    destruct fuel as [|fuel]; [lia|]. cbn [Mmdb.check_loop]. rewrite (proj2 (Z.leb_gt _ _)) by lia.
    destruct (record_complete metadata o p s Hp Hs Hfit) as (p1 & E1 & Ho1); try lia.
    { intros Hmeta. specialize (Hm Hmeta). destruct l; [|simpl in Hm; lia]. by inversion Hl'. }
    rewrite E1. cbn [rbind]. destruct (record_sound _ _ _ _ _ Hp E1) as (s2 & He2 & _ & _ & Hp1 & Hv1 & _ & Hb1 & _).
    rewrite Hs in He2. injection He2 as <-. apply IH; try done; try lia.
    intros Hmeta. specialize (Hm Hmeta). simpl in Hm. lia.
Qed.

Lemma loop_safe metadata fuel : forall o p, between_records p -> 0 <= o -> lenZ data <= o + Z.of_nat fuel ->
  check_loop fuel metadata o p <> Err MPanic.
Proof.
  induction fuel as [|fuel IH]; intros o p Hp Ho Hfuel; cbn [Mmdb.check_loop]; (destruct (Z.leb_spec (lenZ data) o); [done|]); [lia|].
  destruct (check_record metadata o p) as [[next p1]|e] eqn:E; cbn [rbind].
  - destruct (record_sound _ _ _ _ _ Hp E) as (s & He & -> & _ & Hp1 & _).
    apply (expand_bounds data Hbytes) in He. apply IH; [done|lia|lia].
  - revert E. unfold Mmdb.check_record. pose proof (parse_safe parse_fuel 0 o false (set_record 0 0 p)) as Hsafe.
    destruct (parse _ _ _ _ _) as [[s p1]|e']; cbn [rbind]; [|intros [= <-]; injection 1 as ->; by apply Hsafe; [unfold parse_fuel; lia|]].
    case_if; [by intros [= <-]|]. destruct (mmdbAdd _ _ valueLimit) as [ok v]. case_if; [by intros [= <-]|].
    destruct (mmdbAdd _ _ byteLimit) as [ok2 b]. case_if; [by intros [= <-]|]. case_if; by intros [= <-].
Qed.
End Exact.

(** What a database must be to pass: its records are values without a cycle and at most
    [mmdbDepthLimit] levels deep, with every pointer, size, kind and text as it must be,
    and neither one of them nor all of them expand to too much. *)
Record within_limits (data : list Z) (metadata : bool) (l : list mmdbValueSummary) : Prop := {
  wl_length : lenZ data <= maxDatabase;
  wl_records : records_from data 0 l;
  wl_each : Forall record_fits l;
  wl_values : total_values l <= mmdbExpandedValueLimit;
  wl_bytes : total_bytes l <= mmdbExpandedByteLimit;
  wl_metadata : metadata = true -> data <> [] /\ Z.shiftr (nth 0 data 0) 5 = 7 /\ length l = 1%nat }.

Lemma new_bounds_between data : between_records data new_bounds.
Proof.
  split; [|done|done]. split; [done| |done|split; [done|by vm_compute]|split; [done|by vm_compute]].
  intros slot e He. cbn [mb_cache new_bounds] in He. by rewrite lookup_empty in He.
Qed.

(** C34. A database passes the check exactly when it is within the limits, although what
    is shared is looked at only once: whatever passes is well formed, and what the
    reader can expand of each record and of all of them stays within the limits, also
    when cached targets were not parsed again; and whatever is within the limits and
    not too much work passes.  No byte outside the data is ever read. *)
Theorem mmdb_check_exact (cancelled : Z -> bool) (started ended : bool) (data : list Z) (metadata : bool) :
  Forall (fun b => 0 <= b < 256) data ->
  let r := checkMMDBValues cancelled started ended data metadata in
  r <> Err MPanic
  /\ (is_ok r = true -> exists l, within_limits data metadata l)
  /\ (forall l, within_limits data metadata l -> total_values l <= mmdbWorkLimit ->
      (forall n, cancelled n = false) -> started = false -> ended = false -> is_ok r = true).
Proof.
  intros Hbytes. unfold checkMMDBValues, check. cbv zeta.
  assert (H1 : mmdbWorkLimit <= u64_max) by (by vm_compute). assert (H2 : mmdbExpandedValueLimit <= u64_max) by (by vm_compute).
  assert (H3 : mmdbExpandedByteLimit <= u64_max) by (by vm_compute). pose proof (new_bounds_between data) as H0.
  destruct started; [by split; [|split]|]. destruct (Z.ltb_spec maxDatabase (lenZ data)) as [Hbig|Hlen].
  { split; [done|]. split; [done|]. intros l Hl. pose proof (wl_length _ _ _ Hl). lia. }
  destruct (metadata && _) eqn:Em.
  { split; [done|]. split; [done|]. intros l Hl. exfalso. apply andb_true_iff in Em as [-> Em].
    destruct (wl_metadata _ _ _ Hl eq_refl) as (Hne & Hk & _). rewrite Hk in Em. rewrite orb_false_r in Em. apply Z.eqb_eq in Em.
    destruct data; [done|]. unfold lenZ in Em. simpl in Em. lia. }
  pose proof (loop_safe data cancelled mmdbWorkLimit mmdbExpandedValueLimit mmdbExpandedByteLimit (cache_slots data)
    Hbytes Hlen H1 H2 H3 metadata (length data) 0 new_bounds H0 ltac:(lia) ltac:(unfold lenZ; lia)) as Hsafe.
  split; [|split].
  - destruct (check_loop _ _ _ _ _ _ _ _ _ _) as [p'|e]; cbn [rbind]; [by destruct ended|congruence].
  - destruct (check_loop _ _ _ _ _ _ _ _ _ _) as [p'|e] eqn:E; [|done]. intros _.
    destruct (loop_sound data cancelled mmdbWorkLimit mmdbExpandedValueLimit mmdbExpandedByteLimit (cache_slots data)
      Hbytes Hlen H1 H2 H3 metadata (length data) 0 new_bounds p' H0 ltac:(unfold lenZ; lia) E) as (l & L1 & L2 & L3 & L4 & L5 & L6).
    change (mb_expandedValues new_bounds) with 0 in L3. change (mb_expandedBytes new_bounds) with 0 in L4.
    exists l. split; [done|done|done| | |].
    + destruct l; [by vm_compute|]. destruct L5 as [L5 _]; [done|]. lia.
    + destruct l; [by vm_compute|]. destruct L5 as [_ L5]; [done|]. lia.
    + intros Hm. rewrite Hm in Em. cbn [andb] in Em. apply orb_false_iff in Em as [Em1 Em2]. bool_to_prop.
      split; [by intros ->|]. split; [done|]. specialize (L6 Hm). destruct l as [|s [|]]; [|done|simpl in L6; lia].
      exfalso. inversion L1. lia.
  - intros l Hl Hw Hn _ Hend. destruct Hl as [_ L1 L2 L3 L4 L5].
    destruct (loop_complete data cancelled mmdbWorkLimit mmdbExpandedValueLimit mmdbExpandedByteLimit (cache_slots data)
      Hbytes Hlen H1 Hn H2 H3 metadata l (length data) 0 new_bounds L1 H0) as (p' & ->);
      [|unfold lenZ; lia|exact L2|exact Hw|exact L3|exact L4|cbn [rbind]; by rewrite Hend].
    intros Hm. destruct (L5 Hm) as (_ & _ & ->). lia.
Qed.

(** ** A worked example: a text, and an array of two pointers to it *)

Definition example_database : list Z := [65; 120; 2; 4; 32; 0; 32; 0].
Definition example_summaries : list mmdbValueSummary := [mkSummary 2 1 1 0; mkSummary 8 5 258 2].
Definition example_check : result mmdb_error mmdbValueBounds := checkMMDBValues (fun _ => false) false false example_database false.

Lemma mmdb_check_exact_witness :
  is_ok example_check = true /\ from_option mb_cacheHits 0 (match example_check with Ok p => Some p | Err _ => None end) = 1
  /\ within_limits example_database false example_summaries
  /\ (exists l, within_limits example_database false l).
Proof.
  assert (Hb : Forall (fun b => 0 <= b < 256) example_database) by (repeat constructor; vm_compute; discriminate || reflexivity).
  assert (Hl : within_limits example_database false example_summaries).
  { split; [vm_compute; discriminate| |repeat constructor; vm_compute; discriminate|vm_compute; discriminate|vm_compute; discriminate|discriminate].
    apply (records_next _ 0 (mkSummary 2 1 1 0)); [vm_compute; reflexivity|].
    apply (records_next _ 2 (mkSummary 8 5 258 2)); [vm_compute; reflexivity|]. exact (records_end example_database). }
  destruct (mmdb_check_exact (fun _ => false) false false example_database false Hb) as (_ & H2 & H3).
  split; [apply (H3 example_summaries Hl); [vm_compute; discriminate|reflexivity..]|]. split; [vm_compute; reflexivity|].
  split; [exact Hl|]. apply H2. vm_compute. reflexivity.
Defined.
