(* ===== verification/AuthCompaction.v ===== *)
(** * Authentication detail under storage pressure

    [internal/store/budget_auth.go]: when the database is nearly full, the source
    ranges of an hour and kind are folded into one row, in windows of the primary
    key that a cursor walks through.  [compaction_conserves]: whatever observations
    and compactions follow one another, and whichever of them fail, the rows of an
    hour and kind add up to the observations that were accepted. *)

From S2P Require Export SensorCommit.

(** ** The state of a budget ([internal/store/budget.go]) *)

Record BudgetConfig := mkBudgetConfig { MaxBytes : Z; MinFreeBytes : Z }.

Record StorageBudgetStatus := mkBudgetStatus {
  bu_configured : bool;
  bu_state : string;
  bu_reason : string;
  bu_journal_mode : string;
  bu_max : Z;
  bu_limit : Z;
  bu_database : Z;
  bu_wal : Z;
  bu_journal : Z;
  bu_shm : Z;
  bu_used : Z;
  bu_live : Z;
  bu_available : Z;
  bu_min_free : Z;
  bu_rejected : Z;
  bu_pruned_traffic : Z;
  bu_compacted_auth : Z;
  bu_pruned_events : Z;
  bu_checked : time }.

Abbreviation auth_key := (Z * string * string)%type.

Record budgetState := mkBudget {
  bg_config : BudgetConfig;
  bg_page_size : Z;
  bg_max_pages : Z;
  bg_status : StorageBudgetStatus;
  bg_cursor : option auth_key;
  bg_pass : bool }.

Definition with_status (s : StorageBudgetStatus) (b : budgetState) : budgetState :=
  mkBudget (bg_config b) (bg_page_size b) (bg_max_pages b) s (bg_cursor b) (bg_pass b).
Definition with_cursor (c : option auth_key) (b : budgetState) : budgetState :=
  mkBudget (bg_config b) (bg_page_size b) (bg_max_pages b) (bg_status b) c (bg_pass b).
Definition with_pass (p : bool) (b : budgetState) : budgetState :=
  mkBudget (bg_config b) (bg_page_size b) (bg_max_pages b) (bg_status b) (bg_cursor b) p.

Definition with_counters (traffic auth events : Z) (s : StorageBudgetStatus) : StorageBudgetStatus :=
  mkBudgetStatus (bu_configured s) (bu_state s) (bu_reason s) (bu_journal_mode s) (bu_max s) (bu_limit s)
    (bu_database s) (bu_wal s) (bu_journal s) (bu_shm s) (bu_used s) (bu_live s) (bu_available s)
    (bu_min_free s) (bu_rejected s) traffic auth events (bu_checked s).

(** ** The tables that the budget reclaims rows from *)

Record Tables := mkTables {
  tb_traffic : TrafficTables;
  tb_auth : AuthTables;
  tb_events : gmap Z Event;
  tb_gaps : gaps;
  tb_ledger : Retention }.

Inductive budget_error :=
| BudgetConfigInvalid | BudgetLocked | PageSizeUnsupported | Inspection | UnsafeSidecar | ConnectionFailed
| Rejected (reason : string) | StatementFailed | IntegerBounds | LedgerFailed (e : retention_error).

Definition ledger {A} (r : result retention_error A) : result budget_error A :=
  match r with Ok a => Ok a | Err e => Err (LedgerFailed e) end.

(** [DELETE ... WHERE rowid IN]. *)
Definition delete_rows {K V W} `{Countable K} (gone : list (K * W)) (m : gmap K V) : gmap K V :=
  foldl (fun m r => delete r.1 m) m gone.

(** ** Reading a window of the primary key *)

Definition maxAuthCompactionRows : nat := 256.
Definition authPressureBucket : string := "_storage_pressure".
Definition authPressureReason : string := "storage_auth_detail_compacted".

Definition key_lt : auth_key -> auth_key -> bool := lex (lex Z.ltb string_lt) string_lt.

Definition after_cursor (c : option auth_key) (k : auth_key) : bool :=
  match c with None => true | Some c => key_lt c k end.

(** The rows after the cursor in the order of the key. *)
Definition rows_after (c : option auth_key) (rows : gmap auth_key column) : list (auth_key * column) :=
  sort_by (fun a b => key_lt a.1 b.1) (filter (fun r => after_cursor c r.1 = true) (map_to_list rows)).

Definition summary_row (source : string) : bool :=
  (source =?s "_overflow") || (source =?s authPressureBucket).

(** The loop over the rows: a count that is no longer an integer cannot be read. *)
Fixpoint scan_rows (l : list (auth_key * column)) (selected : list (auth_key * Z)) (last : option auth_key)
    : result budget_error (list (auth_key * Z) * option auth_key) :=
  match l with
  | [] => Ok (selected, last)
  | (k, c) :: l =>
      match c with
      | CReal => Err StatementFailed
      | CInt n =>
          if (if head selected is Some first then negb (bool_decide (k.1 = first.1.1)) else false)
          then Ok (selected, last)
          else scan_rows l (if summary_row k.2 then selected else selected ++ [(k, n)]) (Some k)
      end
  end.

(** ** The transaction *)

Definition add_total (total : Z) (row : auth_key * Z) : result budget_error Z :=
  if (total <? 0) || (row.2 <? 0) || (i64_max - row.2 <? total) then Err IntegerBounds
  else Ok (total + row.2).

Definition same_loss (start stop : Z) (row : Z * gap) : bool :=
  (g_name row.2 =?s "ssh_journal") && (g_reason row.2 =?s authPressureReason)
  && (g_start row.2 =? start) && (g_end row.2 =? stop).

(** The row that [ORDER BY id DESC LIMIT 1 OFFSET 1000] names. *)
Definition beyond_thousand (l : gaps) : gaps := take 1 (drop 1000 (rev l)).

Definition recordAuthCompaction (hour removed : Z) (now : time) (l : gaps) (r : Retention)
    : result budget_error (gaps * Retention) :=
  if (Z.quot i64_max 1000 - 3600 <? hour) || (hour <? Z.quot i64_min 1000) then Err IntegerBounds
  else
    let start := hour * 1000 in
    let stop := (hour + 3600) * 1000 in
    match find (same_loss start stop) (rev l) with
    | None =>
        let l := l ++ [(next_id l, mkGap "ssh_journal" authPressureReason start stop removed)] in
        let old := beyond_thousand l in
        let? (_, r) := ledger (pruneRows "coverage_gaps" "capacity_eviction"
                                 ((fun row => (g_start row.2, g_end row.2)) <$> old) now r) in
        Ok (filter (fun row => row.1 ∉ old.*1) l, r)
    | Some (id, g) =>
        if (g_count g <? 0) || (i64_max - removed <? g_count g) then Err IntegerBounds
        else Ok ((fun row => if row.1 =? id
                             then (row.1, mkGap (g_name row.2) (g_reason row.2) (g_start row.2) (g_end row.2)
                                            (g_count g + removed))
                             else row) <$> l, r)
    end.

(** The row of the same hour and kind. *)
Definition bucket_of (first : auth_key) : auth_key := (first.1, authPressureBucket).

(** The transaction for the selected rows, [None] when it leaves a sole source as it
    is. *)
Definition compact_rows (first : auth_key * Z) (selected : list (auth_key * Z)) (now : time) (t : Tables)
    : result budget_error (option Tables) :=
  let rows := at_rows (tb_auth t) in
  let hour := first.1.1.1 in
  let bucket := bucket_of first.1 in
  let n := lenZ selected in
  if (if rows !! bucket is Some CReal then true else false) then Err StatementFailed
  else if (n =? 1) && bool_decide (rows !! bucket = None) then Ok None
  else
    let released := if decide (rows !! bucket = None) then n - 1 else n in
    let? total := rfold add_total (from_option int_of 0 (rows !! bucket)) selected in
    let rows := <[bucket := CInt total]> (delete_rows selected rows) in
    let keys := alter (fun k => Z.max 0 (k - released)) hour (at_keys (tb_auth t)) in
    let? (l, r) := recordAuthCompaction hour n now (tb_gaps t) (tb_ledger t) in
    let? r := ledger (recordRetention "auth_hourly" "storage_pressure" n (hour * 1000)
                        ((hour + 3600) * 1000) now r) in
    Ok (Some (mkTables (tb_traffic t) (mkAuthTables rows keys) (tb_events t) l r)).

Definition count_compacted (n : Z) (b : budgetState) : budgetState :=
  let s := bg_status b in
  with_status (with_counters (bu_pruned_traffic s)
    (if u64_max - n <? bu_compacted_auth s then u64_max else bu_compacted_auth s + n)
    (bu_pruned_events s) s) b.

(** How one call goes: whether the rows can be read, and the fate of the
    transaction. *)
Record compact_call := mkCompact { co_read : bool; co_fate : call_fate; co_now : time }.

(** [compactAuthChunkLocked]: the answer is whether there was progress, [None] an
    error. *)
Definition compactAuthChunkLocked (c : compact_call) (s : budgetState * Tables)
    : (budgetState * Tables) * option bool :=
  let '(b, t) := s in
  if negb (co_read c) then (s, None)
  else
    match scan_rows (take maxAuthCompactionRows (rows_after (bg_cursor b) (at_rows (tb_auth t)))) [] None with
    | Err _ => (s, None)
    | Ok (selected, last) =>
        let b := with_cursor last b in
        match selected with
        | [] => if last is Some _ then ((b, t), Some true) else ((with_pass true b, t), Some false)
        | first :: _ =>
            if co_fate c is NotRun then ((b, t), None)
            else
              match compact_rows first selected (co_now c) t with
              | Err _ => ((b, t), None)
              | Ok None => ((b, t), Some true)
              | Ok (Some t) =>
                  if co_fate c is Answered then ((count_compacted (lenZ selected) b, t), Some true)
                  else ((b, t), None)
              end
        end
    end.

(** ** Histories *)

(** Observations and compactions, each with the fate of its transaction. *)
Inductive auth_step :=
| Observe (observedAt : time) (kind source : string) (f : call_fate) (now : time)
| Compact (c : compact_call).

Definition with_auth (a : AuthTables) (r : Retention) (t : Tables) : Tables :=
  mkTables (tb_traffic t) a (tb_events t) (tb_gaps t) r.

Definition take_step (x : auth_step) (s : budgetState * Tables) : budgetState * Tables :=
  match x with
  | Observe observedAt kind source f now =>
      if f is NotRun then s
      else match addAuth observedAt kind source now (tb_auth s.2) (tb_ledger s.2) with
           | Ok (a, r) => (s.1, with_auth a r s.2)
           | Err _ => s
           end
  | Compact c => (compactAuthChunkLocked c s).1
  end.

(** The hour and kind of the observation that a step commits. *)
Definition accepted (x : auth_step) (s : budgetState * Tables) : list (Z * string) :=
  match x with
  | Observe observedAt kind source f now =>
      if f is NotRun then []
      else match addAuth observedAt kind source now (tb_auth s.2) (tb_ledger s.2) with
           | Ok _ => [(hour_unix observedAt, limit kind 64)]
           | Err _ => []
           end
  | Compact _ => []
  end.

Fixpoint take_steps (l : list auth_step) (s : budgetState * Tables) : (budgetState * Tables) * list (Z * string) :=
  match l with
  | [] => (s, [])
  | x :: l => let '(s', seen) := take_steps l (take_step x s) in (s', accepted x s ++ seen)
  end.

(** What the rows of an hour and kind hold, and the rows of an hour that are keys. *)
Definition group_total (g : Z * string) (rows : gmap auth_key column) : Z :=
  map_sum (fun k c => weigh (bool_decide (k.1 = g)) (int_of c)) rows.
Definition is_key (h : Z) (k : auth_key) : bool := (k.1.1 =? h) && negb (k.2 =?s "_overflow").
Definition key_rows (h : Z) (rows : gmap auth_key column) : Z :=
  map_sum (fun k _ => weigh (is_key h k) 1) rows.

Definition occurrences (g : Z * string) (l : list (Z * string)) : Z :=
  sumZ ((fun x => weigh (bool_decide (x = g)) 1) <$> l).

Definition rows_counted (rows : gmap auth_key column) : Prop := map_Forall (fun _ c => exact c) rows.

Definition auth_ok (l : list (Z * string)) (a : AuthTables) : Prop :=
  rows_counted (at_rows a)
  /\ (forall g, group_total g (at_rows a) = occurrences g l)
  /\ (forall h, key_rows h (at_rows a) <= default 0 (at_keys a !! h) <= maxAuthKeysPerHour).

(** ** Deleting rows *)

Lemma lookup_delete_rows {K V W} `{Countable K} (gone : list (K * W)) (m : gmap K V) k :
  delete_rows gone m !! k = if decide (k ∈ gone.*1) then None else m !! k.
Proof.
  unfold delete_rows. revert m. induction gone as [|[k' w] gone IH]; intros m; cbn [foldl].
  - rewrite decide_False; [done|]. apply not_elem_of_nil.
  - rewrite IH. csimpl. destruct (decide (k = k')) as [->|Hk].
    + rewrite (decide_True (P := k' ∈ k' :: gone.*1)) by left. case_decide; [done|]. apply lookup_delete_eq.
    + rewrite lookup_delete_ne by done. apply decide_ext. rewrite elem_of_cons. tauto.
Qed.

Lemma map_sum_delete_rows {K V W} `{Countable K} (f : K -> V -> Z) (g : K -> W -> Z) (gone : list (K * W)) : forall m : gmap K V,
  NoDup gone.*1 -> (forall r, r ∈ gone -> exists v, m !! r.1 = Some v /\ f r.1 v = g r.1 r.2) ->
  map_sum f m = sumZ (uncurry g <$> gone) + map_sum f (delete_rows gone m).
Proof.
  unfold delete_rows. induction gone as [|[k w] gone IH]; intros m Hd Hin; cbn [foldl].
  - done.
  - apply NoDup_cons in Hd as [Hk Hd].
    change (sumZ _) with (g k w + sumZ (uncurry g <$> gone)).
    destruct (Hin (k, w) ltac:(left)) as (v & Hv & Hf). cbn [fst snd] in *.
    rewrite (map_sum_delete f m k v Hv), Hf, (IH (delete k m) Hd); [lia|].
    intros r Hr. destruct (Hin r ltac:(by right)) as (v' & Hv' & Hf'). exists v'. split; [|done].
    rewrite lookup_delete_ne; [done|]. intros Heq. apply Hk. change ((k, w).1) with k. rewrite Heq.
    by apply list_elem_of_fmap_2.
Qed.

(** ** The window *)

Lemma elem_of_rows_after c rows k v :
  (k, v) ∈ rows_after c rows <-> after_cursor c k = true /\ rows !! k = Some v.
Proof.
  unfold rows_after. rewrite (sort_by_perm _), list_elem_of_filter, elem_of_map_to_list. done.
Qed.

Lemma rows_after_NoDup c rows : NoDup (rows_after c rows).*1.
Proof.
  unfold rows_after. rewrite (sort_by_perm _).
  apply (sublist_NoDup _ (map_to_list rows).*1); [apply NoDup_fst_map_to_list|apply fmap_sublist, sublist_filter].
Qed.

(** The selected rows are rows that were read, of one hour and kind, none of them a
    summary. *)
Definition good_selection (rows : gmap auth_key column) (selected : list (auth_key * Z)) : Prop :=
  NoDup selected.*1
  /\ (forall r, r ∈ selected -> rows !! r.1 = Some (CInt r.2) /\ summary_row r.1.2 = false)
  /\ (forall r r', r ∈ selected -> r' ∈ selected -> r.1.1 = r'.1.1).

Lemma good_selection_snoc rows selected k n :
  good_selection rows selected -> k ∉ selected.*1 -> rows !! k = Some (CInt n) -> summary_row k.2 = false ->
  (forall first, head selected = Some first -> k.1 = first.1.1) ->
  good_selection rows (selected ++ [(k, n)]).
Proof.
  intros (Hd & Hin & Hg) Hk Hrow Hs Hhead. split; [|split].
  - rewrite fmap_app. apply NoDup_app. split; [done|]. split; [|apply NoDup_singleton].
    intros x Hx Hx'. apply list_elem_of_singleton in Hx' as ->. done.
  - intros r [Hr| ->%list_elem_of_singleton]%elem_of_app; [by apply Hin|done].
  - assert (Hk' : forall r, r ∈ selected -> r.1.1 = k.1).
    { intros r Hr. destruct selected as [|first l]; [by apply not_elem_of_nil in Hr|].
      rewrite (Hhead first eq_refl). apply Hg; [done|left]. }
    intros r r' [Hr| ->%list_elem_of_singleton]%elem_of_app [Hr'| ->%list_elem_of_singleton]%elem_of_app; cbn [fst];
      [by apply Hg|by apply Hk'|symmetry; by apply Hk'|done].
Qed.

Lemma scan_rows_spec rows l : forall selected last selected' last',
  NoDup (selected.*1 ++ l.*1) -> (forall k v, (k, v) ∈ l -> rows !! k = Some v) ->
  good_selection rows selected -> scan_rows l selected last = Ok (selected', last') ->
  good_selection rows selected'.
Proof.
  induction l as [|[k c] l IH]; intros selected last selected' last' Hd Hl Hg; cbn [scan_rows].
  { by intros [= <- <-]. }
  destruct c as [n|]; [|discriminate].
  destruct (if head selected is Some first then _ else false) eqn:Eg; [by intros [= <- <-]|].
  change ((k, CInt n) :: l).*1 with (k :: l.*1) in Hd.
  assert (Hk : k ∉ selected.*1).
  { apply NoDup_app in Hd as (_ & Hd & _). intros Hk. apply (Hd k Hk). left. }
  apply IH.
  - case_if; [|rewrite fmap_app, <- app_assoc; done].
    apply NoDup_app in Hd as (H1 & H2 & [_ H3]%NoDup_cons). apply NoDup_app. split; [done|]. split; [|done].
    intros x Hx Hx'. apply (H2 x Hx). by right.
  - intros k' v Hin. apply Hl. by right.
  - case_if; [done|]. apply good_selection_snoc; [done..|apply Hl; left|done|].
    intros first Hf. rewrite Hf in Eg. apply negb_false_iff, bool_decide_eq_true in Eg. done.
Qed.

(** ** One compaction *)

Lemma add_totals selected : forall t0 total,
  rfold add_total t0 selected = Ok total ->
  total = t0 + sumZ (snd <$> selected) /\ (selected = [] \/ 0 <= total <= i64_max)
  /\ Forall (fun r => 0 <= r.2) selected.
Proof.
  induction selected as [|r selected IH]; intros t0 total; cbn [rfold].
  { intros [= <-]. split; [csimpl; rewrite Z.add_0_r; done|]. split; [by left|constructor]. }
  unfold add_total at 1. case_if; [discriminate|]. cbn [rbind]. intros Hr. bool_to_prop.
  destruct (IH _ _ Hr) as (-> & Hb & Hf). csimpl.
  split; [lia|]. split; [right|by constructor].
  destruct Hb as [->|Hb]; [change (sumZ (snd <$> [])) with 0; lia|done].
Qed.

Lemma key_rows_nonneg h rows : 0 <= key_rows h rows.
Proof. apply map_sum_nonneg. intros k c _. by apply weigh_nonneg. Qed.

Lemma group_total_nonneg g rows : rows_counted rows -> 0 <= group_total g rows.
Proof. intros Hr. apply map_sum_nonneg. intros k c Hk. apply weigh_nonneg, exact_int, (Hr k c Hk). Qed.

Lemma sum_uniform (b : bool) (p : auth_key -> bool) (val : Z -> Z) selected :
  (forall r, r ∈ selected -> p r.1 = b) ->
  sumZ (uncurry (fun k n => weigh (p k) (val n)) <$> selected) = weigh b (sumZ (val ∘ snd <$> selected)).
Proof.
  intros Hp. induction selected as [|[k n] l IH]; [by destruct b|]. csimpl.
  rewrite IH by (intros r Hr; apply Hp; by right).
  pose proof (Hp (k, n) ltac:(left)) as Hk. cbn [fst] in Hk. rewrite Hk. destruct b; cbn [weigh]; lia.
Qed.

Lemma sum_ones {A} (l : list A) : sumZ ((fun _ => 1) <$> l) = lenZ l.
Proof. induction l as [|x l IH]; [done|]. csimpl. rewrite IH, lenZ_cons. lia. Qed.

(** A sum over the rows when the selected ones give way to their bucket. *)
Lemma sum_compacted (f : auth_key -> column -> Z) (g : auth_key -> Z -> Z) rows selected bucket total :
  good_selection rows selected -> bucket.2 = authPressureBucket ->
  (forall r, r ∈ selected -> f r.1 (CInt r.2) = g r.1 r.2) ->
  map_sum f (<[bucket := CInt total]> (delete_rows selected rows))
  = map_sum f rows - sumZ (uncurry g <$> selected) + f bucket (CInt total)
    - from_option (f bucket) 0 (rows !! bucket).
Proof.
  intros (Hd & Hin & _) Hbucket Hf. rewrite (map_sum_delete_rows f g selected rows Hd).
  2: { intros r Hr'. exists (CInt r.2). split; [apply Hin, Hr'|by apply Hf]. }
  assert (Hbk : delete_rows selected rows !! bucket = rows !! bucket).
  { rewrite lookup_delete_rows, decide_False; [done|]. intros (r & Hrb & Hr')%list_elem_of_fmap.
    destruct (Hin r Hr') as [_ Hs]. rewrite <- Hrb, Hbucket in Hs. done. }
  rewrite <- Hbk. destruct (delete_rows selected rows !! bucket) as [c|] eqn:Ec; cbn [from_option].
  - rewrite (map_sum_insert _ _ _ _ _ Ec). lia.
  - rewrite map_sum_insert_None by done. lia.
Qed.

(** What the rows of the groups and hours become. *)
Lemma compacted_rows rows selected first n :
  rows_counted rows -> good_selection rows selected -> first ∈ selected ->
  rfold add_total (from_option int_of 0 (rows !! bucket_of first.1)) selected = Ok n ->
  let rows' := <[bucket_of first.1 := CInt n]> (delete_rows selected rows) in
  rows_counted rows'
  /\ (forall g, group_total g rows' = group_total g rows)
  /\ (forall h, key_rows h rows' = key_rows h rows
        + weigh (first.1.1.1 =? h) (weigh (bool_decide (rows !! bucket_of first.1 = None)) 1 - lenZ selected)).
Proof.
  intros Hr Hsel Hfirst Htot. destruct (add_totals _ _ _ Htot) as (-> & Hb & _).
  pose proof Hsel as (_ & Hin & Hg).
  assert (Hsame : forall r, r ∈ selected -> r.1.1 = first.1.1) by (intros; by apply Hg).
  split; [|split].
  - apply map_Forall_insert_2.
    + apply exact_CInt. destruct Hb as [->|Hb]; [by apply not_elem_of_nil in Hfirst|lia].
    + intros k c Hk. rewrite lookup_delete_rows in Hk. case_decide; [done|]. by apply (Hr k).
  - intros g. unfold group_total.
    rewrite (sum_compacted _ (fun k n => weigh (bool_decide (k.1 = g)) n)) by done.
    rewrite (sum_uniform (bool_decide (first.1.1 = g)) (fun k => bool_decide (k.1 = g)) id)
      by (intros r Hr'; by rewrite (Hsame r Hr')).
    change (id ∘ snd <$> selected) with (snd <$> selected).
    destruct (rows !! bucket_of first.1) as [c|]; cbn [from_option fst bucket_of int_of];
      destruct (bool_decide (first.1.1 = g)); cbn [weigh]; lia.
  - intros h. unfold key_rows. rewrite (sum_compacted _ (fun k _ => weigh (is_key h k) 1)) by done.
    rewrite (sum_uniform (first.1.1.1 =? h) (is_key h) (fun _ => 1)).
    2: { intros r Hr'. unfold is_key. rewrite (Hsame r Hr'). destruct (Hin r Hr') as [_ Hs].
         apply orb_false_iff in Hs as [-> _]. apply andb_true_r. }
    change ((fun _ => 1) ∘ snd <$> selected) with ((fun _ : auth_key * Z => 1) <$> selected).
    rewrite sum_ones. change (is_key h (bucket_of first.1)) with ((first.1.1.1 =? h) && true). rewrite andb_true_r.
    destruct (rows !! bucket_of first.1) as [c|]; cbn [from_option];
      [rewrite bool_decide_false by done|rewrite bool_decide_true by done];
      destruct (first.1.1.1 =? h); cbn [weigh]; lia.
Qed.

(** ** The invariant *)

Lemma compact_rows_cases first selected now t t' :
  compact_rows first selected now t = Ok (Some t') ->
  let rows := at_rows (tb_auth t) in
  let bucket := bucket_of first.1 in
  let released := if decide (rows !! bucket = None) then lenZ selected - 1 else lenZ selected in
  exists total l r,
    rfold add_total (from_option int_of 0 (rows !! bucket)) selected = Ok total
    /\ (lenZ selected <> 1 \/ rows !! bucket <> None)
    /\ recordAuthCompaction first.1.1.1 (lenZ selected) now (tb_gaps t) (tb_ledger t) = Ok (l, r)
    /\ recordRetention "auth_hourly" "storage_pressure" (lenZ selected) (first.1.1.1 * 1000)
         ((first.1.1.1 + 3600) * 1000) now r = Ok (tb_ledger t')
    /\ t' = mkTables (tb_traffic t)
              (mkAuthTables (<[bucket := CInt total]> (delete_rows selected rows))
                 (alter (fun k => Z.max 0 (k - released)) first.1.1.1 (at_keys (tb_auth t))))
              (tb_events t) l (tb_ledger t').
Proof.
  cbv zeta. unfold compact_rows.
  destruct (if at_rows (tb_auth t) !! bucket_of first.1 is Some CReal then true else false); [discriminate|].
  destruct (_ && _) eqn:En; [discriminate|].
  destruct (rfold add_total _ _) as [total|]; cbn [rbind]; [|discriminate].
  destruct (recordAuthCompaction _ _ _ _ _) as [[l r]|]; cbn [rbind]; [|discriminate].
  destruct (recordRetention _ _ _ _ _ _ _) as [r'|] eqn:Er; cbn [ledger rbind]; [|discriminate]. intros [= <-].
  exists total, l, r. split_and!; try done.
  apply andb_false_iff in En as [En|En]; [left; by apply Z.eqb_neq in En|right; by apply bool_decide_eq_false in En].
Qed.

Lemma compact_rows_ok l first selected now t t' :
  auth_ok l (tb_auth t) -> good_selection (at_rows (tb_auth t)) selected -> first ∈ selected ->
  compact_rows first selected now t = Ok (Some t') -> auth_ok l (tb_auth t').
Proof.
  intros (Hr & Hg & Hk) Hsel Hfirst (total & gs & r & Et & _ & _ & _ & ->)%compact_rows_cases. cbn [tb_auth].
  destruct (compacted_rows _ _ _ _ Hr Hsel Hfirst Et) as (Hr' & Hg' & Hk'). split; [done|]. split; cbn [at_rows at_keys].
  - intros g. by rewrite Hg'.
  - intros h. rewrite Hk'. specialize (Hk h).
    pose proof (key_rows_nonneg h (<[bucket_of first.1 := CInt total]> (delete_rows selected (at_rows (tb_auth t))))) as Hn.
    assert (1 <= lenZ selected) by (destruct selected; [by apply not_elem_of_nil in Hfirst|];
      rewrite lenZ_cons; pose proof (lenZ_nonneg selected); lia).
    rewrite Hk' in Hn. clear Hg' Hk' Et. set (o := at_rows (tb_auth t) !! bucket_of first.1) in *.
    destruct (Z.eqb_spec first.1.1.1 h) as [<-|Hne]; cbn [weigh] in *; [|rewrite lookup_alter_ne by done; lia].
    rewrite lookup_alter_eq.
    destruct (at_keys (tb_auth t) !! first.1.1.1) as [n|]; cbn [default fmap option_fmap option_map] in *;
      destruct (decide (o = None)); [rewrite bool_decide_true in * by done|rewrite bool_decide_false in * by done
        |rewrite bool_decide_true in * by done|rewrite bool_decide_false in * by done]; cbn [weigh] in *; unfold from_option, id, maxAuthKeysPerHour in *; lia.
Qed.

Lemma good_selection_nil rows : good_selection rows [].
Proof. split; [constructor|]. split; intros r; intros; by (exfalso; eapply not_elem_of_nil). Qed.

Lemma window_selection c rows selected last :
  scan_rows (take maxAuthCompactionRows (rows_after c rows)) [] None = Ok (selected, last) ->
  good_selection rows selected.
Proof.
  intros Hs. eapply scan_rows_spec; [| |apply good_selection_nil|exact Hs].
  - cbn [app fmap list_fmap]. eapply sublist_NoDup; [apply (rows_after_NoDup c rows)|]. apply fmap_sublist, sublist_take.
  - intros k v Hin. apply elem_of_take in Hin as (i & Hin & _). apply list_elem_of_lookup_2 in Hin. by apply elem_of_rows_after in Hin as [_ ?].
Qed.

Lemma occurrences_app g l l' : occurrences g (l ++ l') = occurrences g l + occurrences g l'.
Proof. unfold occurrences. by rewrite fmap_app, sumZ_app. Qed.

Lemma occurrences_le g l : occurrences g l <= lenZ l.
Proof.
  unfold occurrences. induction l as [|x l IH]; [done|]. csimpl. rewrite lenZ_cons.
  destruct (bool_decide _); cbn [weigh]; lia.
Qed.

Lemma count_one_ok l k rows :
  rows_counted rows -> (forall g, group_total g rows = occurrences g l) -> lenZ l < i64_max ->
  rows_counted (count_one k rows)
  /\ (forall g, group_total g (count_one k rows) = occurrences g (l ++ [k.1]))
  /\ (forall h, key_rows h (count_one k rows)
        = key_rows h rows + weigh (bool_decide (rows !! k = None) && is_key h k) 1).
Proof.
  intros Hr Hg Hlen. unfold count_one.
  assert (Hocc : forall g, occurrences g (l ++ [k.1]) = group_total g rows + weigh (bool_decide (k.1 = g)) 1).
  { intros g. rewrite occurrences_app, Hg. unfold occurrences. csimpl. lia. }
  destruct (rows !! k) as [c|] eqn:Ek.
  - assert (Hle : int_of c <= i64_max - 1).
    { pose proof (occurrences_le k.1 l) as Ho. rewrite <- Hg in Ho.
      pose proof (map_sum_lookup_le (fun k' c => weigh (bool_decide (k'.1 = k.1)) (int_of c)) rows k c) as Hw.
      fold (group_total k.1 rows) in Hw. cbv beta in Hw.
      specialize (Hw ltac:(intros k' c' Hk'; apply weigh_nonneg, exact_int, (Hr k' c' Hk')) Ek).
      rewrite bool_decide_true in Hw by done. cbn [weigh] in Hw. lia. }
    destruct (exact_add c 1 (Hr k c Ek) ltac:(lia) ltac:(lia)) as [He Hx]. split; [by apply map_Forall_insert_2|]. split.
    + intros g. rewrite Hocc. unfold group_total. rewrite (map_sum_insert _ _ _ _ _ Ek), He. cbn [int_of].
      destruct (bool_decide (k.1 = g)); cbn [weigh]; lia.
    + intros h. unfold key_rows. rewrite (map_sum_insert _ _ _ _ _ Ek), bool_decide_false by done. cbn [andb weigh]. lia.
  - split; [apply map_Forall_insert_2; [by apply exact_CInt|done]|]. split.
    + intros g. rewrite Hocc. unfold group_total. rewrite map_sum_insert_None by done. cbn [int_of]. lia.
    + intros h. unfold key_rows. rewrite map_sum_insert_None, bool_decide_true by done. cbn [andb]. lia.
Qed.

Lemma addAuth_ok l observedAt kind source now a r a' r' :
  auth_ok l a -> lenZ l < i64_max -> addAuth observedAt kind source now a r = Ok (a', r') ->
  auth_ok (l ++ [(hour_unix observedAt, limit kind 64)]) a'.
Proof.
  intros (Hr & Hg & Hk) Hlen. unfold addAuth. case_if; [discriminate|].
  set (key := (hour_unix observedAt, limit kind 64, limit source 128)). fold key.
  set (g := (hour_unix observedAt, limit kind 64)).
  pose proof (count_one_ok l key (at_rows a) Hr Hg Hlen) as (Hr1 & Hg1 & Hk1).
  pose proof (count_one_ok l (g, "_overflow"%string) (at_rows a) Hr Hg Hlen) as (Hr2 & Hg2 & Hk2).
  destruct (at_rows a !! key) eqn:Ek; [|case_if].
  - intros [= <- <-]. split; [done|]. split; [done|]. cbn [at_rows at_keys]. intros h. rewrite Hk1. cbn [andb weigh].
    rewrite bool_decide_false by done. cbn [andb weigh]. rewrite Z.add_0_r. apply Hk.
  - intros [= <- <-]. split; [done|]. split; [done|]. cbn [at_rows at_keys]. intros h. rewrite Hk1.
    rewrite bool_decide_true by done. cbn [andb]. bool_to_prop. specialize (Hk h).
    change (is_key h key) with ((hour_unix observedAt =? h) && negb (limit source 128 =?s "_overflow")).
    destruct (Z.eqb_spec (hour_unix observedAt) h) as [<-|Hne]; cbn [andb].
    + rewrite lookup_insert_eq. cbn [default]. unfold maxAuthKeysPerHour, default, id in *.
      destruct (negb _); cbn [weigh]; lia.
    + rewrite lookup_insert_ne by done. cbn [weigh]. lia.
  - destruct (retained _) as [r1|]; cbn [rbind]; [|discriminate]. intros [= <- <-].
    split; [done|]. split; [done|]. cbn [at_rows at_keys]. intros h. rewrite Hk2.
    assert (is_key h (g, "_overflow"%string) = false) as -> by (unfold is_key; apply andb_false_r).
    rewrite andb_false_r. cbn [weigh]. rewrite Z.add_0_r. apply Hk.
Qed.

Lemma compactAuthChunkLocked_ok l c s : auth_ok l (tb_auth s.2) -> auth_ok l (tb_auth (compactAuthChunkLocked c s).1.2).
Proof.
  destruct s as [b t]. cbn [snd]. intros Hok. unfold compactAuthChunkLocked. case_if; [done|].
  destruct (scan_rows _ _ _) as [[selected last]|] eqn:Es; [|done]. apply window_selection in Es.
  destruct selected as [|first selected]; [by destruct last|]. destruct (co_fate c); [done|..];
    (destruct (compact_rows _ _ _ _) as [[t'|]|] eqn:Ec; [|done..]);
    (eapply compact_rows_ok; [exact Hok|exact Es|left|exact Ec]).
Qed.

Lemma take_steps_ok steps : forall l s,
  auth_ok l (tb_auth s.2) -> lenZ l + lenZ steps <= i64_max ->
  auth_ok (l ++ (take_steps steps s).2) (tb_auth (take_steps steps s).1.2).
Proof.
  induction steps as [|x steps IH]; intros l s Hok Hlen; cbn [take_steps]; [by rewrite app_nil_r|].
  rewrite lenZ_cons in Hlen. pose proof (lenZ_nonneg steps).
  assert (Hstep : auth_ok (l ++ accepted x s) (tb_auth (take_step x s).2) /\ lenZ (accepted x s) <= 1).
  { destruct x as [observedAt kind source f now|c]; cbn [take_step accepted];
      [|split; [rewrite app_nil_r; by apply compactAuthChunkLocked_ok|done]].
    destruct f; [split; [by rewrite app_nil_r|done]|..];
      (destruct (addAuth _ _ _ _ _ _) as [[a r]|] eqn:Ea; [|split; [by rewrite app_nil_r|done]]);
      (split; [|done]); cbn [with_auth tb_auth snd]; (eapply addAuth_ok; [exact Hok|lia|exact Ea]). }
  destruct Hstep as [Hstep Hone]. specialize (IH _ _ Hstep). rewrite lenZ_app in IH. specialize (IH ltac:(lia)).
  destruct (take_steps steps (take_step x s)) as [s1 seen]. cbn [fst snd] in *. by rewrite app_assoc.
Qed.

Definition no_status : StorageBudgetStatus :=
  mkBudgetStatus true "running" "" "" 0 0 0 0 0 0 0 0 0 0 0 0 0 0 0.
Definition fresh_budget (cfg : BudgetConfig) : budgetState := mkBudget cfg 4096 0 no_status None false.
Definition empty_tables : Tables := mkTables (mkTraffic' ∅ ∅) (mkAuthTables ∅ ∅) ∅ [] no_retention.

(** C35. Pressure never changes what was counted: from empty tables, after any
    sequence of observations and of compactions, each of which may fail before or
    after its transaction commits, the rows of every hour and kind add up to exactly
    the observations that were accepted for them, and an hour has no more keys than
    its counter says, which stays within the cap. *)
Theorem compaction_conserves steps b s seen :
  lenZ steps <= i64_max -> take_steps steps (b, empty_tables) = (s, seen) ->
  (forall g, group_total g (at_rows (tb_auth s.2)) = occurrences g seen)
  /\ (forall h, key_rows h (at_rows (tb_auth s.2)) <= default 0 (at_keys (tb_auth s.2) !! h) <= maxAuthKeysPerHour).
Proof.
  intros Hlen Hs. pose proof (take_steps_ok steps [] (b, empty_tables)) as Hok. rewrite Hs in Hok.
  destruct Hok as (_ & Hg & Hk); [|done|by split].
  split; [apply map_Forall_empty|]. split; intros ?; cbn; [done|]. rewrite lookup_empty. by vm_compute.
Qed.

Definition example_steps : list auth_step :=
  [Observe (5 * second) "failure" "192.0.2.0/24" Answered 1; Observe (6 * second) "failure" "198.51.100.0/24" Answered 1;
   Compact (mkCompact true Answered (7 * second)); Observe (8 * second) "failure" "203.0.113.0/24" AnswerLost 1;
   Compact (mkCompact true NotRun 1); Compact (mkCompact true Answered (9 * second));
   Compact (mkCompact true Answered (10 * second)); Observe (20 * second) "" "203.0.113.0/24" Answered 1].

Lemma compaction_conserves_witness :
  let r := take_steps example_steps (fresh_budget (mkBudgetConfig 0 0), empty_tables) in
  (map_to_list (at_rows (tb_auth r.1.2)) = [((-62135596800, "failure"%string, authPressureBucket), CInt 3)]
   /\ tb_gaps r.1.2 = [(1, mkGap "ssh_journal" authPressureReason (-62135596800000) (-62135593200000) 3)])
  /\ forall g, group_total g (at_rows (tb_auth r.1.2)) = occurrences g r.2.
Proof.
  split; [split; vm_compute; reflexivity|].
  apply (compaction_conserves example_steps (fresh_budget (mkBudgetConfig 0 0))); [vm_compute; discriminate|].
  apply surjective_pairing.
Defined.
