(* ===== verification/Budget.v ===== *)
(** * The storage budget

    [internal/store/budget.go]: the active files of the database stay within a
    configured size.  The page limit leaves room for a rollback journal of every
    page ([page_limit_fits]); a write is admitted when the files, the live pages and
    the free space allow it ([admission_bounded]); a chunk reclaims rows in the order
    traffic, authentication detail, events ([chunk_in_order]). *)

From S2P Require Export AuthCompaction.

Definition budgetFileOverhead : Z := Z.shiftl 1 20.

Inductive writePriority := writeCritical | writeNormal | writeTraffic.
#[global] Instance writePriority_eq_dec : EqDecision writePriority.
Proof. solve_decision. Defined.

Definition validateBudget (cfg : BudgetConfig) : bool :=
  negb ((MaxBytes cfg <? Z.shiftl 64 20) || (Z.shiftl 1 40 <? MaxBytes cfg)
        || (MinFreeBytes cfg <? 0) || (Z.shiftl 1 40 <? MinFreeBytes cfg)).

Definition page_limit (cfg : BudgetConfig) (pageSize : Z) : Z :=
  (MaxBytes cfg - budgetFileOverhead) `quot` (2 * pageSize + 8).

Definition writeHeadroom (maxBytes : Z) (priority : writePriority) : Z :=
  let headroom := maxBytes `quot` 16 in
  let headroom := if Z.shiftl 64 20 <? headroom then Z.shiftl 64 20 else headroom in
  if priority is writeCritical then headroom `quot` 4 else headroom.

(** ** What SQLite and the file system answer *)

(** [None] is an error. *)
Record connection := mkConnection {
  cn_mode : option string;
  cn_checkpoint_busy : option Z;
  cn_delete_mode : option string;
  cn_pragmas : bool;
  cn_max_pages : option Z;
  cn_exclusive : bool }.

(** [configureBudgetConnection]: the statements that follow the journal mode all
    have to succeed. *)
Definition configureBudgetConnection (memory : bool) (c : connection) (b : budgetState) : bool :=
  match cn_mode c with
  | None => false
  | Some mode =>
      (if mode =?s "wal" then bool_decide (cn_checkpoint_busy c = Some 0) else true)
      && (memory || bool_decide (cn_delete_mode c = Some "delete"%string))
      && cn_pragmas c
      && bool_decide (cn_max_pages c = Some (bg_max_pages b))
      && cn_exclusive c
  end.

Inductive file_info := Missing | Regular (size : Z) | Irregular | Unreadable.

Record inspection := mkInspection {
  in_page_size : option Z;
  in_pages : option Z;
  in_free : option Z;
  in_mode : option string;
  in_database : file_info;
  in_wal : file_info;
  in_journal : file_info;
  in_shm : file_info;
  in_space : option Z;
  in_now : time }.

Definition file_size (f : file_info) : result budget_error Z :=
  match f with
  | Missing => Ok 0
  | Regular size => Ok size
  | Irregular => Err UnsafeSidecar
  | Unreadable => Err Inspection
  end.

Definition answer {A} (o : option A) : result budget_error A :=
  match o with Some a => Ok a | None => Err Inspection end.

Definition availableDiskBytes (bsize bavail : Z) : option Z :=
  if bsize <=? 0 then None
  else if u64_max / bsize <? bavail then Some u64_max
  else Some (bavail * bsize).

(** ** The status *)

Definition with_reason (state reason : string) (s : StorageBudgetStatus) : StorageBudgetStatus :=
  mkBudgetStatus (bu_configured s) state reason (bu_journal_mode s) (bu_max s) (bu_limit s)
    (bu_database s) (bu_wal s) (bu_journal s) (bu_shm s) (bu_used s) (bu_live s) (bu_available s)
    (bu_min_free s) (bu_rejected s) (bu_pruned_traffic s) (bu_compacted_auth s) (bu_pruned_events s) (bu_checked s).

Definition unconfigured : StorageBudgetStatus :=
  mkBudgetStatus false "unconfigured" "" "" 0 0 0 0 0 0 0 0 0 0 0 0 0 0 0.

(** The readings: a database in memory keeps the sizes that the status had. *)
Definition inspect (memory : bool) (i : inspection) (s : StorageBudgetStatus)
    : result budget_error StorageBudgetStatus :=
  let? pageSize := answer (in_page_size i) in
  let? pages := answer (in_pages i) in
  let? freePages := answer (in_free i) in
  let? mode := answer (in_mode i) in
  let live := wrap_i64 ((pages - freePages) * pageSize) in
  let? (sizes, available) :=
    if memory then Ok ((bu_database s, bu_wal s, bu_journal s, bu_shm s), bu_available s)
    else
      let? database := file_size (in_database i) in
      let? wal := file_size (in_wal i) in
      let? journal := file_size (in_journal i) in
      let? shm := file_size (in_shm i) in
      let? available := answer (in_space i) in
      Ok ((database, wal, journal, shm), available) in
  let '(database, wal, journal, shm) := sizes in
  Ok (mkBudgetStatus (bu_configured s) (bu_state s) (bu_reason s) mode (bu_max s) (bu_limit s)
        database wal journal shm (wrap_i64 (database + wal + journal + shm)) live available
        (bu_min_free s) (bu_rejected s) (bu_pruned_traffic s) (bu_compacted_auth s) (bu_pruned_events s) (in_now i)).

Definition capacity_reasons : list string :=
  ["active_files_over_budget"; "low_disk_space"; "reserved_event_capacity"; "database_capacity_exhausted"]%string.

Definition reserve (s : StorageBudgetStatus) : Z := bu_limit s `quot` 8.

(** What the readings say about a configured budget. *)
Definition assess (memory : bool) (s : StorageBudgetStatus) : StorageBudgetStatus :=
  let s := if one_of capacity_reasons (bu_reason s) then with_reason "running" "" s else s in
  if bu_max s <? bu_used s then with_reason "degraded" "active_files_over_budget" s
  else if negb memory && (bu_available s <? wrap_u64 (bu_min_free s + writeHeadroom (bu_max s) writeNormal))
  then with_reason "degraded" "low_disk_space" s
  else if bu_limit s <=? bu_live s then with_reason "degraded" "database_capacity_exhausted" s
  else if bu_limit s - reserve s <=? bu_live s then with_reason "degraded" "reserved_event_capacity" s
  else s.

(** [budgetStatusLocked]. *)
Definition budgetStatusLocked (memory : bool) (i : inspection) (b : option budgetState)
    : option budgetState * result budget_error StorageBudgetStatus :=
  match inspect memory i (from_option bg_status unconfigured b) with
  | Err e => (b, Err e)
  | Ok s =>
      match b with
      | None => (None, Ok s)
      | Some b => let s := assess memory s in (Some (with_status s b), Ok s)
      end
  end.

(** [BudgetStatus]: [None] when the context has ended. *)
Definition BudgetStatus (cancelled busy memory : bool) (i : inspection) (b : option budgetState)
    : option budgetState * result budget_error StorageBudgetStatus :=
  if cancelled then (b, Err BudgetLocked)
  else if busy then (b, Ok (mkBudgetStatus false "busy" "storage_operation_in_progress" "" 0 0 0 0 0 0 0 0 0 0 0 0 0 0 0))
  else budgetStatusLocked memory i b.

(** [ConfigureBudget]. *)
Definition ConfigureBudget (cfg : BudgetConfig) (locked memory : bool) (pageSize : option Z)
    (c : connection) (i : inspection) (b : option budgetState) : option budgetState * result budget_error unit :=
  if negb (validateBudget cfg) then (b, Err BudgetConfigInvalid)
  else if negb locked then (b, Err BudgetLocked)
  else
    match pageSize with
    | None => (b, Err Inspection)
    | Some pageSize =>
        if (pageSize <? 512) || (65536 <? pageSize) then (b, Err PageSizeUnsupported)
        else
          let pages := page_limit cfg pageSize in
          let s := mkBudgetStatus true "running" "" "" (MaxBytes cfg) (pages * pageSize) 0 0 0 0 0 0 0
                     (MinFreeBytes cfg) 0 0 0 0 0 in
          let b := mkBudget cfg pageSize pages s None false in
          if negb (configureBudgetConnection memory c b)
          then (Some (with_status (with_reason "degraded" "budget_configuration_failed" s) b), Err ConnectionFailed)
          else
            match budgetStatusLocked memory i (Some b) with
            | (b, Ok _) => (b, Ok tt)
            | (b, Err e) => (b, Err e)
            end
    end.

(** ** Reclaiming rows *)

(** [SELECT rowid ... ORDER BY at LIMIT n]: rows of the same time come in any order. *)
Definition oldest {K V} `{Countable K} (n : nat) (at' : K -> V -> Z) (o : map_order) (m : gmap K V) : list (K * V) :=
  take n (sort_by (fun a b => at' a.1 a.2 <? at' b.1 b.2) (entries o m)).

Definition int64_span (span : Z * Z) : bool :=
  (i64_min <=? span.1) && (span.1 <=? i64_max) && (i64_min <=? span.2) && (span.2 <=? i64_max).

(** [pruneRetentionChunkLocked] with such a selector, and the fate of its
    transaction: the number of rows, [None] for an error. *)
Definition prune_oldest {K V} `{Countable K} (dataset : string) (n : nat) (at' : K -> V -> Z) (span : K * V -> Z * Z)
    (o : map_order) (f : call_fate) (now : time) (m : gmap K V) (r : Retention) : option Z * (gmap K V * Retention) :=
  let gone := oldest n at' o m in
  if (if f is NotRun then true else negb (forallb int64_span (span <$> gone))) then (None, (m, r))
  else
    match pruneRows dataset "storage_pressure" (span <$> gone) now r with
    | Err _ => (None, (m, r))
    | Ok (count, r) => ((if f is Answered then Some count else None), (delete_rows gone m, r))
    end.

Definition traffic_hour (k : trafficKey) (_ : column * column) : Z := tk_hour k.
Definition traffic_span (row : trafficKey * (column * column)) : Z * Z :=
  (tk_hour row.1 * 1000, (tk_hour row.1 + 3600) * 1000).
Definition event_time (_ : Z) (e : Event) : Z := unix_milli (ev_observed_at e).
Definition event_span (row : Z * Event) : Z * Z := (unix_milli (ev_observed_at row.2), unix_milli (ev_observed_at row.2)).

Definition with_traffic (rows : gmap trafficKey (column * column)) (r : Retention) (t : Tables) : Tables :=
  mkTables (mkTraffic' rows (tt_keys (tb_traffic t))) (tb_auth t) (tb_events t) (tb_gaps t) r.
Definition with_events (events : gmap Z Event) (r : Retention) (t : Tables) : Tables :=
  mkTables (tb_traffic t) (tb_auth t) events (tb_gaps t) r.

Definition count_traffic (n : Z) (b : budgetState) : budgetState :=
  let s := bg_status b in
  with_status (with_counters (add_u64 (bu_pruned_traffic s) n) (bu_compacted_auth s) (bu_pruned_events s) s) b.
Definition count_events (n : Z) (b : budgetState) : budgetState :=
  let s := bg_status b in
  with_status (with_counters (bu_pruned_traffic s) (bu_compacted_auth s) (add_u64 (bu_pruned_events s) n) s) b.

(** How the transactions of one chunk go. *)
Record prune_call := mkPrune {
  pc_order : map_order;
  pc_traffic : call_fate;
  pc_traffic_at : time;
  pc_compact : compact_call;
  pc_events : call_fate;
  pc_events_at : time }.

Definition prune_events (c : prune_call) (s : budgetState * Tables) : (budgetState * Tables) * option bool :=
  let '(b, t) := s in
  match prune_oldest "events" 64 event_time event_span (pc_order c) (pc_events c) (pc_events_at c)
          (tb_events t) (tb_ledger t) with
  | (None, (m, r)) => ((b, with_events m r t), None)
  | (Some n, (m, r)) => ((count_events n (with_pass false b), with_events m r t), Some (0 <? n))
  end.

(** [pruneBudgetChunkLocked]. *)
Definition pruneBudgetChunkLocked (allowEvents : bool) (c : prune_call) (s : budgetState * Tables)
    : (budgetState * Tables) * option bool :=
  let '(b, t) := s in
  match prune_oldest "traffic_hourly" 256 traffic_hour traffic_span (pc_order c) (pc_traffic c) (pc_traffic_at c)
          (tt_rows (tb_traffic t)) (tb_ledger t) with
  | (None, (m, r)) => ((b, with_traffic m r t), None)
  | (Some n, (m, r)) =>
      let t := with_traffic m r t in
      if 0 <? n then ((count_traffic n b, t), Some true)
      else
        let '(s, progressed) :=
          if negb allowEvents || negb (bg_pass b) then compactAuthChunkLocked (pc_compact c) (b, t)
          else ((b, t), Some false) in
        match progressed with
        | Some false => if allowEvents then prune_events c s else (s, Some false)
        | _ => (s, progressed)
        end
  end.

(** ** Admission and maintenance *)

Definition reject (reason : string) (b : budgetState) : budgetState * result budget_error unit :=
  let s := with_reason "degraded" reason (bg_status b) in
  (with_status (mkBudgetStatus (bu_configured s) (bu_state s) (bu_reason s) (bu_journal_mode s) (bu_max s)
     (bu_limit s) (bu_database s) (bu_wal s) (bu_journal s) (bu_shm s) (bu_used s) (bu_live s) (bu_available s)
     (bu_min_free s) (bump_u64 (bu_rejected s)) (bu_pruned_traffic s) (bu_compacted_auth s) (bu_pruned_events s)
     (bu_checked s)) b, Err (Rejected reason)).

(** What the calls of one admission answer: two inspections, with a chunk between. *)
Record write_call := mkWrite {
  wc_locked : bool;
  wc_memory : bool;
  wc_connection : connection;
  wc_first : inspection;
  wc_prune : prune_call;
  wc_second : inspection }.

(** The state is running again when there is capacity for a normal write. *)
Definition recover (memory : bool) (s : StorageBudgetStatus) (reserve : Z) (b : budgetState) : budgetState :=
  if (bu_live s <? bu_limit s - reserve)
     && (memory || (wrap_u64 (bu_min_free s + writeHeadroom (bu_max s) writeNormal) <=? bu_available s))
  then with_status (with_reason "running" "" (bg_status b)) b else b.

Definition inspected (memory : bool) (i : inspection) (b : budgetState) : budgetState * result budget_error StorageBudgetStatus :=
  match budgetStatusLocked memory i (Some b) with
  | (Some b, r) => (b, r)
  | (None, r) => (b, r)
  end.

(** [beginWrite] of a store with a budget: [Ok] hands out the release. *)
Definition beginWrite (priority : writePriority) (c : write_call) (s : budgetState * Tables)
    : (budgetState * Tables) * result budget_error unit :=
  let '(b, t) := s in
  let memory := wc_memory c in
  if negb (wc_locked c) then (s, Err BudgetLocked)
  else if negb (configureBudgetConnection memory (wc_connection c) b)
  then let '(b, e) := reject "budget_configuration_failed" b in ((b, t), e)
  else
    match inspected memory (wc_first c) b with
    | (b, Err _) => let '(b, e) := reject "storage_inspection_failed" b in ((b, t), e)
    | (b, Ok s) =>
        if negb memory && (bu_available s <? wrap_u64 (MinFreeBytes (bg_config b) + writeHeadroom (MaxBytes (bg_config b)) priority))
        then let '(b, e) := reject "low_disk_space" b in ((b, t), e)
        else if bu_max s <? bu_used s
        then let '(b, e) := reject "active_files_over_budget" b in ((b, t), e)
        else
          let rsv := reserve (bg_status b) in
          if bu_limit s - rsv <=? bu_live s then
            match pruneBudgetChunkLocked false (wc_prune c) (b, t) with
            | ((b, t), None) => let '(b, e) := reject "budget_prune_failed" b in ((b, t), e)
            | ((b, t), Some _) =>
                match inspected memory (wc_second c) b with
                | (b, Err _) => let '(b, e) := reject "storage_inspection_failed" b in ((b, t), e)
                | (b, Ok s) =>
                    if negb (bool_decide (priority = writeCritical)) && (bu_limit s - rsv <=? bu_live s)
                    then let '(b, e) := reject "reserved_event_capacity" b in ((b, t), e)
                    else ((recover memory s rsv b, t), Ok tt)
                end
            end
          else ((recover memory s rsv b, t), Ok tt)
    end.

(** [MaintainBudget] of a store with a budget. *)
Definition MaintainBudget (c : write_call) (s : budgetState * Tables) : (budgetState * Tables) * result budget_error unit :=
  let '(b, t) := s in
  let memory := wc_memory c in
  if negb (wc_locked c) then (s, Err BudgetLocked)
  else if negb (configureBudgetConnection memory (wc_connection c) b) then (s, Err ConnectionFailed)
  else
    match inspected memory (wc_first c) b with
    | (b, Err e) => ((b, t), Err e)
    | (b, Ok s) =>
        if bu_live s <? bu_limit s - reserve s then ((b, t), Ok tt)
        else if (bu_available s <? wrap_u64 (MinFreeBytes (bg_config b) + writeHeadroom (MaxBytes (bg_config b)) writeCritical))
                && negb memory
        then ((with_status (with_reason "degraded" "low_disk_space" (bg_status b)) b, t), Err (Rejected "low_disk_space"))
        else
          match pruneBudgetChunkLocked true (wc_prune c) (b, t) with
          | ((b, t), None) =>
              ((with_status (with_reason "degraded" "budget_prune_failed" (bg_status b)) b, t), Err StatementFailed)
          | ((b, t), Some _) =>
              match inspected memory (wc_second c) b with
              | (b, Ok _) => ((b, t), Ok tt)
              | (b, Err e) => ((b, t), Err e)
              end
          end
    end.

(** ** The rows that one chunk removes *)

Lemma extent_spec rows : exists a b,
  extent rows = (lenZ rows, a, b) /\ (Forall (fun s => s.1 <= s.2) rows -> a <= b).
Proof.
  unfold extent.
  assert (Hext : forall rows c s e, 0 <= c -> exists a b,
    foldl (fun '(count, start, stop) '(low, high) =>
           (count + 1, if (count =? 0) || (low <? start) then low else start,
            if (count =? 0) || (stop <? high) then high else stop)) (c, s, e) rows = (c + lenZ rows, a, b)
    /\ (s <= e -> Forall (fun s => s.1 <= s.2) rows -> a <= b)).
  { clear rows. induction rows as [|[low high] rows IH]; intros c s e Hc; cbn [foldl].
    - exists s, e. change (lenZ []) with 0. rewrite Z.add_0_r. auto.
    - match goal with |- context [foldl _ (c + 1, ?x, ?y) _] => destruct (IH (c + 1) x y ltac:(lia)) as (a & b & -> & Hab) end.
      exists a, b. rewrite lenZ_cons. split; [f_equal; f_equal; lia|].
      intros Hse [Hlh Hf]%Forall_cons. cbn [fst snd] in Hlh. apply Hab; [|done].
      repeat case_if; bool_to_prop; lia. }
  destruct (Hext rows 0 0 0 ltac:(lia)) as (a & b & -> & Hab). exists a, b. split; [done|]. apply Hab. lia.
Qed.

(** How far the ledger's ids have come. *)
Definition ledger_mark (r : Retention) : Z := rn_evicted r + lenZ (rn_ledger r).

Lemma recordRetention_mark ds rs c a b now r r' :
  ledger_ok r -> recordRetention ds rs c a b now r = Ok r' -> ledger_ok r' /\ ledger_mark r' <= ledger_mark r + 1.
Proof.
  intros Hl Hr. split; [by eapply recordRetention_kept|]. revert Hr. unfold recordRetention, ledger_mark.
  case_if; [intros [= <-]; lia|]. case_if; [discriminate|].
  destruct (ledger_upsert _ _ _) as [l|] eqn:El; cbn [rbind]; [|discriminate].
  destruct (ledger_upsert_spec _ _ _ _ Hl El) as (_ & Hlen & _ & _).
  destruct Hl as (He & _ & H1024 & _ & _). case_if; intros [= <-]; cbn [rn_evicted rn_ledger]; bool_to_prop; [|lia].
  unfold add_saturated, lenZ in *. rewrite length_drop. case_if; lia.
Qed.

Lemma pruneRows_mark ds rs rows now r n r' :
  ledger_ok r -> pruneRows ds rs rows now r = Ok (n, r') ->
  n = lenZ rows /\ ledger_ok r' /\ ledger_mark r' <= ledger_mark r + 1.
Proof.
  intros Hl. unfold pruneRows. case_if; [discriminate|]. destruct (extent_spec rows) as (a & b & -> & _).
  destruct (recordRetention _ _ _ _ _ _ _) as [r1|] eqn:Er; cbn [rbind]; [|discriminate]. intros [= <- <-].
  split; [done|]. by eapply recordRetention_mark.
Qed.

Lemma pruneRows_total ds rs rows now r :
  ledger_ok r -> ledger_mark r < i64_max -> ValidRetentionDataset ds = true -> ValidRetentionReason rs = true ->
  now <> 0 -> Forall (fun s => s.1 <= s.2) rows -> exists r', pruneRows ds rs rows now r = Ok (lenZ rows, r').
Proof.
  intros Hl Hm Hds Hrs Hnow Hf. unfold pruneRows. rewrite Hds. cbn [negb].
  destruct (extent_spec rows) as (a & b & -> & Hab).
  destruct (recordRetention_total ds rs (lenZ rows) a b now r) as (r' & -> & _); try done; [apply lenZ_nonneg|by apply Hab|].
  by exists r'.
Qed.

Section oldest.
Context {K V : Type} `{Countable K} (at' : K -> V -> Z).

Definition time_lt (a b : K * V) : bool := at' a.1 a.2 <? at' b.1 b.2.

Lemma oldest_rows n o (m : gmap K V) :
  NoDup (oldest n at' o m).*1 /\ (forall k v, (k, v) ∈ oldest n at' o m -> m !! k = Some v)
  /\ lenZ (oldest n at' o m) = Z.min (Z.of_nat n) (Z.of_nat (size m)).
Proof.
  unfold oldest. change (fun a b => at' a.1 a.2 <? at' b.1 b.2) with time_lt.
  assert (Hp : sort_by time_lt (entries o m) ≡ₚ map_to_list m)
    by (rewrite (sort_by_perm time_lt (entries o m)); apply entries_perm).
  split; [|split].
  - apply (sublist_NoDup _ (sort_by time_lt (entries o m)).*1); [|apply fmap_sublist, sublist_take].
    rewrite Hp. apply NoDup_fst_map_to_list.
  - intros k v (i & Hi & _)%elem_of_take. apply list_elem_of_lookup_2 in Hi. rewrite Hp in Hi.
    by apply elem_of_map_to_list in Hi.
  - unfold lenZ. rewrite length_take, (Permutation_length Hp), length_map_to_list. lia.
Qed.

(** No row that is kept is older than a removed one. *)
Lemma oldest_first n o (m : gmap K V) k v k' v' :
  (k, v) ∈ oldest n at' o m -> delete_rows (oldest n at' o m) m !! k' = Some v' -> at' k v <= at' k' v'.
Proof.
  intros Hin Hk'. rewrite lookup_delete_rows in Hk'. case_decide as Hout; [done|].
  unfold oldest in *. change (fun a b => at' a.1 a.2 <? at' b.1 b.2) with time_lt in *.
  pose proof (sort_by_sorted time_lt Z.ltb (fun a => at' a.1 a.2) (fun _ _ => eq_refl) (entries o m)) as Hs.
  assert (Hin' : (k', v') ∈ sort_by time_lt (entries o m)).
  { rewrite (sort_by_perm time_lt (entries o m)), elem_of_entries. done. }
  rewrite <- (take_drop n (sort_by time_lt (entries o m))) in Hin', Hs.
  apply elem_of_app in Hin' as [Hin'|Hin']; [exfalso; apply Hout; by apply (list_elem_of_fmap_2 fst) in Hin'|].
  apply Sorted_StronglySorted in Hs; [|unfold not_less, time_lt; intros ???; rewrite !Z.ltb_ge; lia].
  apply StronglySorted_app in Hs as (Hle & _ & _). specialize (Hle _ _ Hin Hin'). unfold not_less, time_lt in Hle.
  cbn [fst snd] in Hle. bool_to_prop. lia.
Qed.

Lemma size_delete_rows n o (m : gmap K V) :
  Z.of_nat (size (delete_rows (oldest n at' o m) m)) = Z.of_nat (size m) - lenZ (oldest n at' o m).
Proof.
  destruct (oldest_rows n o m) as (Hd & Hin & _).
  assert (Hs : forall m : gmap K V, Z.of_nat (size m) = map_sum (fun _ _ => 1) m).
  { intros m'. induction m' as [|k v m' Hk IH] using map_ind; [done|].
    rewrite map_sum_insert_None, map_size_insert_None by done. lia. }
  rewrite !Hs, (map_sum_delete_rows (fun _ _ => 1) (fun _ _ => 1) (oldest n at' o m) m Hd).
  - assert (sumZ (uncurry (fun (_ : K) (_ : V) => 1) <$> oldest n at' o m) = lenZ (oldest n at' o m)) as ->; [|lia].
    rewrite <- sum_ones. f_equal. by apply list_fmap_ext; intros ? [].
  - intros [k v] Hr. exists v. split; [by apply Hin|done].
Qed.
End oldest.

(** At most [n] rows are gone, each no younger than any row that is kept. *)
Definition removes {K V} `{Countable K} (n : Z) (at' : K -> V -> Z) (m m' : gmap K V) : Prop :=
  exists gone : list (K * V), lenZ gone <= n /\ m' = delete_rows gone m
    /\ forall k v, (k, v) ∈ gone -> m !! k = Some v /\ forall k' v', m' !! k' = Some v' -> at' k v <= at' k' v'.

Section prune.
Context {K V : Type} `{Countable K} (at' : K -> V -> Z) (ds : string) (span : K * V -> Z * Z).

Lemma oldest_removes n o (m : gmap K V) : removes (Z.of_nat n) at' m (delete_rows (oldest n at' o m) m).
Proof.
  destruct (oldest_rows at' n o m) as (_ & Hin & Hlen). exists (oldest n at' o m).
  split; [lia|]. split; [done|]. intros k v Hk. split; [by apply Hin|]. intros k' v'. by apply oldest_first.
Qed.

Lemma prune_oldest_cases n o f now (m : gmap K V) r res m' r' :
  prune_oldest ds n at' span o f now m r = (res, (m', r')) ->
  (m' = m /\ r' = r \/ m' = delete_rows (oldest n at' o m) m /\ exists c, pruneRows ds "storage_pressure" (span <$> oldest n at' o m) now r = Ok (c, r'))
  /\ (forall c, res = Some c -> m' = delete_rows (oldest n at' o m) m /\ c = lenZ (oldest n at' o m)).
Proof.
  unfold prune_oldest. case_if; [intros [= <- <- <-]; split; [by left|done]|].
  destruct (pruneRows _ _ _ _ _) as [[c r1]|] eqn:Ep; [|intros [= <- <- <-]; split; [by left|done]].
  intros [= <- <- <-]. split; [right; by eauto|]. intros c' Hc. split; [done|].
  destruct f; [done| |done]. injection Hc as <-. revert Ep. unfold pruneRows. case_if; [discriminate|].
  destruct (extent_spec (span <$> oldest n at' o m)) as (a & b & -> & _).
  destruct (recordRetention _ _ _ _ _ _ _); cbn [rbind]; [|discriminate]. intros [= <- _].
  unfold lenZ. by rewrite length_fmap.
Qed.

(** A call that can be answered is answered. *)
Lemma prune_oldest_total n o now (m : gmap K V) r :
  ledger_ok r -> ledger_mark r < i64_max -> ValidRetentionDataset ds = true -> now <> 0 ->
  map_Forall (fun k v => int64_span (span (k, v)) = true /\ (span (k, v)).1 <= (span (k, v)).2) m ->
  exists r', prune_oldest ds n at' span o Answered now m r
    = (Some (lenZ (oldest n at' o m)), (delete_rows (oldest n at' o m) m, r')).
Proof.
  intros Hl Hm Hds Hnow Hspan. destruct (oldest_rows at' n o m) as (_ & Hin & _).
  assert (Hall : Forall (fun s => int64_span s = true /\ s.1 <= s.2) (span <$> oldest n at' o m)).
  { apply Forall_fmap, Forall_forall. intros [k v] Hk. apply Hspan, Hin, Hk. }
  unfold prune_oldest. cbn iota.
  assert (forallb int64_span (span <$> oldest n at' o m) = true) as ->.
  { apply Is_true_eq_true, forallb_True, Forall_forall. intros s Hs. rewrite Forall_forall in Hall.
    apply Is_true_eq_left, (Hall s Hs). }
  destruct (pruneRows_total ds "storage_pressure" (span <$> oldest n at' o m) now r Hl Hm Hds eq_refl Hnow) as (r' & ->).
  { eapply Forall_impl; [exact Hall|]. by intros s [_ ?]. }
  exists r'. cbn [negb]. unfold lenZ. by rewrite length_fmap.
Qed.

Lemma oldest_nil n o (m : gmap K V) : (0 < n)%nat -> lenZ (oldest n at' o m) <= 0 -> m = ∅.
Proof.
  intros Hn Hle. destruct (oldest_rows at' n o m) as (_ & _ & Hlen). apply map_size_empty_inv. lia.
Qed.
End prune.

Lemma compact_keeps c s s' p :
  compactAuthChunkLocked c s = (s', p) ->
  tb_traffic s'.2 = tb_traffic s.2 /\ tb_events s'.2 = tb_events s.2
  /\ (p = Some false -> tb_auth s'.2 = tb_auth s.2).
Proof.
  destruct s as [b t]. unfold compactAuthChunkLocked. cbn [fst snd]. case_if; [by intros [= <- <-]|].
  destruct (scan_rows _ _ _) as [[selected last]|]; [|by intros [= <- <-]].
  destruct selected as [|first selected]; [destruct last; by intros [= <- <-]|].
  destruct (co_fate c); [by intros [= <- <-]|..];
    (destruct (compact_rows _ _ _ _) as [[t'|]|] eqn:Ec;
     [apply compact_rows_cases in Ec as (? & ? & ? & _ & _ & _ & _ & ->)|..]; by intros [= <- <-]).
Qed.

Lemma removes_none {K V} `{Countable K} n (at' : K -> V -> Z) m : 0 <= n -> removes n at' m m.
Proof. intros Hn. exists []. split; [done|]. split; [done|]. intros k v []%not_elem_of_nil. Qed.

(** What a chunk may do: at most 256 traffic rows go, the oldest; authentication rows
    change only when no traffic row is left; at most 64 events go, the oldest, only
    when they may and no traffic row is left, and then no authentication row changes.
    Without progress no traffic is left and, if events may go, no event. *)
Definition in_order_of_value (allow : bool) (t t' : Tables) (p : option bool) : Prop :=
  removes 256 traffic_hour (tt_rows (tb_traffic t)) (tt_rows (tb_traffic t'))
  /\ (tb_auth t' <> tb_auth t -> tt_rows (tb_traffic t) = ∅)
  /\ removes 64 event_time (tb_events t) (tb_events t')
  /\ (tb_events t' <> tb_events t ->
        allow = true /\ tt_rows (tb_traffic t) = ∅ /\ tb_auth t' = tb_auth t)
  /\ (p = Some false -> tt_rows (tb_traffic t) = ∅ /\ (allow = true -> tb_events t = ∅)).

(** A chunk that leaves the events. *)
Lemma events_kept allow t t' p :
  removes 256 traffic_hour (tt_rows (tb_traffic t)) (tt_rows (tb_traffic t')) ->
  (tb_auth t' <> tb_auth t \/ p = Some false -> tt_rows (tb_traffic t) = ∅) ->
  tb_events t' = tb_events t -> (p <> Some false \/ allow = false) ->
  in_order_of_value allow t t' p.
Proof.
  intros Hm Ha He Hp. unfold in_order_of_value. rewrite He.
  split_and!; [done|by auto|by apply removes_none|done|].
  intros ->. split; [by auto|]. intros ->. by destruct Hp.
Qed.

(** The step between traffic and events. *)
Lemma walk_step allow c b t s p :
  (if negb allow || negb (bg_pass b) then compactAuthChunkLocked c (b, t) else ((b, t), Some false)) = (s, p) ->
  tb_traffic s.2 = tb_traffic t /\ tb_events s.2 = tb_events t
  /\ (p = Some false -> allow = true -> tb_auth s.2 = tb_auth t).
Proof.
  destruct (negb allow || negb (bg_pass b)) eqn:Ew.
  - intros (H1 & H2 & H3)%compact_keeps. split_and!; [done..|]. intros Hp _. by apply H3.
  - intros [= <- <-]. by split_and!.
Qed.

(** Every chunk keeps to the order of value, whatever fails. *)
Lemma chunk_in_order allow c b t b' t' p :
  pruneBudgetChunkLocked allow c (b, t) = ((b', t'), p) -> in_order_of_value allow t t' p.
Proof.
  unfold pruneBudgetChunkLocked.
  destruct (prune_oldest "traffic_hourly" _ _ _ _ _ _ _ _) as [res [m r]] eqn:Et.
  apply prune_oldest_cases in Et as [Hm Hres].
  assert (Hm' : removes 256 traffic_hour (tt_rows (tb_traffic t)) m).
  { destruct Hm as [[-> _]|[-> _]]; [by apply removes_none|apply (oldest_removes traffic_hour 256)]. }
  destruct res as [n|]; [|intros [= <- <- <-]; apply events_kept; try done; [by intros [?|?]|by left]].
  destruct (Hres n eq_refl) as [_ ->]. clear Hm Hres.
  destruct (0 <? lenZ _) eqn:En; [intros [= <- <- <-]; apply events_kept; try done; [by intros [?|?]|by left]|].
  apply Z.ltb_ge in En. pose proof (oldest_nil traffic_hour 256 _ _ ltac:(lia) En) as Hempty.
  destruct (if negb allow || negb (bg_pass b) then _ else _) as [[b1 t1] p1] eqn:Ec.
  apply walk_step in Ec as (H1 & H2 & H3). cbn [snd with_traffic tb_traffic tb_events tb_auth tt_rows] in H1, H2, H3.
  assert (Hkept : p1 <> Some false \/ allow = false -> (b1, t1, p1) = (b', t', p) -> in_order_of_value allow t t' p).
  { intros Hp [= <- <- <-]. apply events_kept; [by rewrite H1|done..]. }
  destruct p1 as [[|]|]; [apply Hkept; by left| |apply Hkept; by left].
  destruct allow; [|apply Hkept; by right]. pose proof (H3 eq_refl eq_refl) as Ha.
  unfold prune_events. destruct (prune_oldest _ _ _ _ _ _ _ _ _) as [res [me re]] eqn:Ee.
  apply prune_oldest_cases in Ee as [Hme Hres]. rewrite H2 in Hme, Hres.
  assert (Hre : removes 64 event_time (tb_events t) me).
  { destruct Hme as [[-> _]|[-> _]]; [by apply removes_none|apply (oldest_removes event_time 64)]. }
  destruct res as [n|]; intros [= <- <- <-]; unfold in_order_of_value;
    cbn [with_events tb_traffic tb_auth tb_events]; rewrite H1; split_and!; try done.
  intros [= Hp]. apply Z.ltb_ge in Hp. split; [done|]. intros _. destruct (Hres n eq_refl) as [_ ->].
  by apply (oldest_nil event_time 64 (pc_order c)); [lia|].
Qed.

(** ** Admission *)

(** A budget as [ConfigureBudget] leaves it. *)
Definition budget_ok (b : budgetState) : Prop :=
  validateBudget (bg_config b) = true /\ 512 <= bg_page_size b <= 65536
  /\ bg_max_pages b = page_limit (bg_config b) (bg_page_size b)
  /\ bu_limit (bg_status b) = bg_max_pages b * bg_page_size b
  /\ bu_max (bg_status b) = MaxBytes (bg_config b) /\ bu_min_free (bg_status b) = MinFreeBytes (bg_config b).

(** The configuration and the readings that a chunk leaves alone. *)
Definition same_budget (b b' : budgetState) : Prop :=
  bg_config b' = bg_config b /\ bg_page_size b' = bg_page_size b /\ bg_max_pages b' = bg_max_pages b
  /\ bu_limit (bg_status b') = bu_limit (bg_status b) /\ bu_max (bg_status b') = bu_max (bg_status b)
  /\ bu_min_free (bg_status b') = bu_min_free (bg_status b) /\ bu_rejected (bg_status b') = bu_rejected (bg_status b).

Lemma same_budget_ok b b' : same_budget b b' -> budget_ok b -> budget_ok b'.
Proof. unfold budget_ok. by intros (-> & -> & -> & -> & -> & -> & _). Qed.

Lemma same_budget_trans b1 b2 b3 : same_budget b1 b2 -> same_budget b2 b3 -> same_budget b1 b3.
Proof. unfold same_budget. intros (H1 & H2 & H3 & H4 & H5 & H6 & H7) (-> & -> & -> & -> & -> & -> & ->). done. Qed.

Lemma compact_same_budget c b t : same_budget b (compactAuthChunkLocked c (b, t)).1.1.
Proof.
  unfold compactAuthChunkLocked. case_if; [done|]. destruct (scan_rows _ _ _) as [[selected last]|]; [|done].
  destruct selected as [|first selected]; [by destruct last|].
  destruct (co_fate c); [done|..]; by destruct (compact_rows _ _ _ _) as [[t'|]|].
Qed.

Lemma chunk_same_budget allow c b t b' t' p :
  pruneBudgetChunkLocked allow c (b, t) = ((b', t'), p) -> same_budget b b'.
Proof.
  unfold pruneBudgetChunkLocked. destruct (prune_oldest "traffic_hourly" _ _ _ _ _ _ _ _) as [[n|] [m r]]; [|by intros [= <- _ _]].
  case_if; [by intros [= <- _ _]|].
  assert (Hw : same_budget b (if negb allow || negb (bg_pass b) then compactAuthChunkLocked (pc_compact c) (b, with_traffic m r t)
      else ((b, with_traffic m r t), Some false)).1.1) by (case_if; [apply compact_same_budget|done]).
  destruct (if negb allow || negb (bg_pass b) then _ else _) as [[b1 t1] p1]. cbn [fst] in Hw.
  destruct p1 as [[|]|]; [by intros [= <- _ _]| |by intros [= <- _ _]]. destruct allow; [|by intros [= <- _ _]].
  unfold prune_events. destruct (prune_oldest _ _ _ _ _ _ _ _ _) as [[k|] [me re]]; by intros [= <- _ _].
Qed.

Lemma assess_same memory s b : same_budget (with_status s b) (with_status (assess memory s) b)
  /\ bu_live (assess memory s) = bu_live s /\ bu_used (assess memory s) = bu_used s /\ bu_available (assess memory s) = bu_available s.
Proof.
  unfold assess. destruct (one_of capacity_reasons (bu_reason s)); cbv zeta;
    repeat match goal with |- context [if ?c then _ else _] => destruct c end; done.
Qed.

Lemma inspect_same memory i b s : inspect memory i (bg_status b) = Ok s -> same_budget b (with_status s b).
Proof.
  unfold inspect. destruct (in_page_size i), (in_pages i), (in_free i), (in_mode i); cbn [answer rbind]; try discriminate.
  destruct (if memory then _ else _) as [[[[[d w] j] h] a]|]; cbn [rbind]; [|discriminate]. by intros [= <-].
Qed.

(** What an inspection of a configured budget gives. *)
Lemma inspected_cases memory i b b' r :
  inspected memory i b = (b', r) ->
  same_budget b b'
  /\ match r with
     | Ok s => bg_status b' = s /\ exists s0, inspect memory i (bg_status b) = Ok s0
         /\ bu_live s = bu_live s0 /\ bu_used s = bu_used s0 /\ bu_available s = bu_available s0
     | Err _ => b' = b
     end.
Proof.
  unfold inspected, budgetStatusLocked. cbn [from_option].
  destruct (inspect memory i (bg_status b)) as [s0|e] eqn:Ei; intros [= <- <-]; [|done].
  destruct (assess_same memory s0 b) as (H1 & H2 & H3 & H4). split.
  - eapply same_budget_trans; [by eapply inspect_same|done].
  - split; [done|]. by exists s0.
Qed.

(** The page limit leaves room for the journal of every page and the overhead, and not
    for one page more. *)
Lemma page_limit_fits cfg pageSize :
  validateBudget cfg = true -> 512 <= pageSize <= 65536 ->
  let n := page_limit cfg pageSize in
  0 < n /\ n * pageSize + n * (pageSize + 8) + budgetFileOverhead <= MaxBytes cfg
  /\ MaxBytes cfg < (n + 1) * pageSize + (n + 1) * (pageSize + 8) + budgetFileOverhead.
Proof.
  unfold validateBudget, page_limit. intros Hv Hp. apply negb_true_iff in Hv.
  repeat (apply orb_false_iff in Hv as [Hv ?]). bool_to_prop.
  change (Z.shiftl 64 20) with 67108864 in *. change budgetFileOverhead with 1048576.
  rewrite Z.quot_div_nonneg by lia.
  pose proof (Z.div_mod (MaxBytes cfg - 1048576) (2 * pageSize + 8) ltac:(lia)) as Hd.
  pose proof (Z.mod_pos_bound (MaxBytes cfg - 1048576) (2 * pageSize + 8) ltac:(lia)) as Hm.
  set (n := (MaxBytes cfg - 1048576) / (2 * pageSize + 8)) in *. cbv zeta.
  replace (n * pageSize + n * (pageSize + 8)) with ((2 * pageSize + 8) * n) by ring.
  replace ((n + 1) * pageSize + (n + 1) * (pageSize + 8)) with ((2 * pageSize + 8) * n + (2 * pageSize + 8)) by ring.
  split; [|lia]. unfold n. apply Z.div_str_pos. lia.
Qed.

(** The sum of the watermark is not cut. *)
Lemma headroom_exact cfg p : validateBudget cfg = true ->
  wrap_u64 (MinFreeBytes cfg + writeHeadroom (MaxBytes cfg) p) = MinFreeBytes cfg + writeHeadroom (MaxBytes cfg) p
  /\ 0 <= writeHeadroom (MaxBytes cfg) p.
Proof.
  unfold validateBudget. intros Hv. apply negb_true_iff in Hv.
  repeat (apply orb_false_iff in Hv as [Hv ?]). bool_to_prop.
  assert (Hh : 0 <= writeHeadroom (MaxBytes cfg) p <= 67108864).
  { unfold writeHeadroom. change (Z.shiftl 64 20) with 67108864 in *. cbv zeta.
    rewrite (Z.quot_div_nonneg (MaxBytes cfg) 16) by lia. pose proof (Z.div_pos (MaxBytes cfg) 16 ltac:(lia) ltac:(lia)).
    set (h := if 67108864 <? _ then _ else _). assert (0 <= h <= 67108864) by (unfold h; case_if; bool_to_prop; lia).
    destruct p; [|lia..]. rewrite Z.quot_div_nonneg by lia. split; [by apply Z.div_pos; lia|].
    apply Z.div_le_upper_bound; lia. }
  split; [|lia]. apply wrap_u64_small. unfold is_u64. change (Z.shiftl 1 40) with 1099511627776 in *. unfold u64_max. lia.
Qed.

Definition refusal_reasons : list string :=
  ["budget_configuration_failed"; "storage_inspection_failed"; "low_disk_space"; "active_files_over_budget";
   "budget_prune_failed"; "reserved_event_capacity"]%string.

(** What an admission promises, by its answer.  Every refusal but a cancelled wait for the
    lock is published as the reason of a degraded budget and counted. *)
Definition admission (p : writePriority) (c : write_call) (b b' : budgetState) (t t' : Tables)
    (r : result budget_error unit) : Prop :=
  match r with
  | Ok _ =>
      cn_max_pages (wc_connection c) = Some (bg_max_pages b)
      /\ (exists s, inspect (wc_memory c) (wc_first c) (bg_status b) = Ok s
            /\ bu_used s <= MaxBytes (bg_config b)
            /\ (wc_memory c = false -> MinFreeBytes (bg_config b) + writeHeadroom (MaxBytes (bg_config b)) p <= bu_available s))
      /\ (p <> writeCritical -> bu_live (bg_status b') < bu_limit (bg_status b') - reserve (bg_status b'))
      /\ bu_rejected (bg_status b') = bu_rejected (bg_status b)
  | Err BudgetLocked => wc_locked c = false /\ b' = b /\ t' = t
  | Err (Rejected reason) =>
      wc_locked c = true /\ bu_state (bg_status b') = "degraded"%string /\ bu_reason (bg_status b') = reason
      /\ bu_rejected (bg_status b') = bump_u64 (bu_rejected (bg_status b))
      /\ one_of refusal_reasons reason = true
      /\ (reason = "reserved_event_capacity"%string ->
            p <> writeCritical /\ bu_limit (bg_status b') - reserve (bg_status b') <= bu_live (bg_status b'))
  | Err _ => False
  end.

(** A writer's chunk removes no event. *)
Lemma writer_keeps_events c b t s p :
  pruneBudgetChunkLocked false c (b, t) = (s, p) -> tb_events s.2 = tb_events t.
Proof.
  unfold pruneBudgetChunkLocked. destruct (prune_oldest _ _ _ _ _ _ _ _ _) as [[n|] [m r]]; [|by intros [= <- _]].
  case_if; [by intros [= <- _]|]. cbn [negb orb].
  destruct (compactAuthChunkLocked _ _) as [s1 p1] eqn:Ec. apply compact_keeps in Ec as (_ & He & _).
  by destruct p1 as [[|]|]; intros [= <- _].
Qed.

Lemma reject_admission p c b b1 t t' reason :
  wc_locked c = true -> budget_ok b -> same_budget b b1 -> one_of refusal_reasons reason = true ->
  (reason = "reserved_event_capacity"%string ->
     p <> writeCritical /\ bu_limit (bg_status b1) - reserve (bg_status b1) <= bu_live (bg_status b1)) ->
  budget_ok (reject reason b1).1 /\ admission p c b (reject reason b1).1 t t' (reject reason b1).2.
Proof.
  intros Hlk Hb Hs Hin Hr. apply (same_budget_ok _ _ Hs) in Hb as Hb1. destruct Hs as (_ & _ & _ & _ & _ & _ & Hrej).
  split; [done|]. cbn. by rewrite Hrej.
Qed.

Lemma recover_same memory s rsv b : same_budget b (recover memory s rsv b)
  /\ bu_live (bg_status (recover memory s rsv b)) = bu_live (bg_status b).
Proof. unfold recover. by case_if. Qed.

(** A write that the first or the second inspection admits. *)
Lemma admitted p c b b1 s rsv t t' :
  budget_ok b -> same_budget b b1 -> configureBudgetConnection (wc_memory c) (wc_connection c) b = true ->
  (exists s, inspect (wc_memory c) (wc_first c) (bg_status b) = Ok s
     /\ bu_used s <= MaxBytes (bg_config b)
     /\ (wc_memory c = false -> MinFreeBytes (bg_config b) + writeHeadroom (MaxBytes (bg_config b)) p <= bu_available s)) ->
  bg_status b1 = s -> (p <> writeCritical -> bu_live s < bu_limit s - rsv) -> rsv = reserve (bg_status b) ->
  budget_ok (recover (wc_memory c) s rsv b1) /\ admission p c b (recover (wc_memory c) s rsv b1) t t' (Ok tt).
Proof.
  intros Hb Hs Hc Hfirst <- Hlive ->. destruct (recover_same (wc_memory c) (bg_status b1) (reserve (bg_status b)) b1) as [Hr Hl].
  pose proof (same_budget_trans _ _ _ Hs Hr) as Hsr. split; [by eapply same_budget_ok|]. cbn [admission].
  assert (Hmax : cn_max_pages (wc_connection c) = Some (bg_max_pages b)).
  { revert Hc. unfold configureBudgetConnection. destruct (cn_mode _); [|done]. rewrite !andb_true_iff.
    intros [[_ Hx] _]. by apply bool_decide_eq_true in Hx. }
  destruct Hs as (_ & _ & _ & Hs4 & _). destruct Hsr as (_ & _ & _ & H4 & _ & _ & H7). split_and!; try done.
  intros Hp. set (b2 := recover _ _ _ b1) in *. unfold reserve in *. rewrite Hl, H4. specialize (Hlive Hp). rewrite Hs4 in Hlive. exact Hlive.
Qed.

(** C37. A write is admitted only within the budget: SQLite holds the connection to the
    configured pages, the active files that were read fit the budget, the file
    system has the watermark and the headroom of the write free, and a write that is
    not critical finds the last reading of live pages outside the reserve, after the
    chunk that may have been reclaimed.  A refusal is published and counted, a critical
    write is never refused for the reserve, and no admission removes an event. *)
Theorem admission_bounded p c b t b' t' r :
  budget_ok b -> beginWrite p c (b, t) = ((b', t'), r) ->
  budget_ok b' /\ tb_events t' = tb_events t /\ admission p c b b' t t' r.
Proof.
  intros Hb. unfold beginWrite. destruct (wc_locked c) eqn:Hlk; cbn [negb]; [|by intros [= <- <- <-]].
  destruct (configureBudgetConnection _ _ _) eqn:Ec; cbn [negb];
    [|intros Heq; injection Heq as <- <- <-; destruct (reject_admission p c b b t t "budget_configuration_failed" Hlk Hb) as [? ?]; done].
  destruct (inspected _ _ b) as [b1 [s1|e1]] eqn:E1; apply inspected_cases in E1 as [Hs1 H1].
  2: { intros Heq. injection Heq as <- <- <-. by destruct (reject_admission p c b b1 t t "storage_inspection_failed" Hlk Hb Hs1). }
  destruct H1 as (Hst1 & s0 & Hs0 & Hlive & Hused & Havail).
  assert (Hcfg : bg_config b1 = bg_config b) by apply Hs1.
  destruct (negb _ && _) eqn:Ef.
  { intros Heq. injection Heq as <- <- <-. by destruct (reject_admission p c b b1 t t "low_disk_space" Hlk Hb Hs1). }
  destruct (bu_max s1 <? bu_used s1) eqn:Eu.
  { intros Heq. injection Heq as <- <- <-. by destruct (reject_admission p c b b1 t t "active_files_over_budget" Hlk Hb Hs1). }
  assert (Hlim : reserve (bg_status b1) = reserve (bg_status b)) by (unfold reserve; by destruct Hs1 as (_ & _ & _ & -> & _)).
  assert (Hfirst : exists s, inspect (wc_memory c) (wc_first c) (bg_status b) = Ok s /\ bu_used s <= MaxBytes (bg_config b)
     /\ (wc_memory c = false -> MinFreeBytes (bg_config b) + writeHeadroom (MaxBytes (bg_config b)) p <= bu_available s)).
  { exists s0. split; [done|]. pose proof Hb as (Hv & _ & _ & _ & Hbm & _). rewrite <- Hused, <- Havail, <- Hbm. split.
    - destruct Hs1 as (_ & _ & _ & _ & <- & _). rewrite Hst1. by apply Z.ltb_ge in Eu.
    - intros Hm. rewrite Hm, Hcfg in Ef. cbn [negb andb] in Ef. rewrite (proj1 (headroom_exact _ p Hv)) in Ef. rewrite Hbm. by apply Z.ltb_ge in Ef. }
  clear Ef Eu Hused Havail Hs0 Hlive s0. rewrite Hlim. destruct (bu_limit s1 - _ <=? bu_live s1) eqn:El.
  2: { intros Heq. injection Heq as <- <- <-. apply Z.leb_gt in El.
       destruct (admitted p c b b1 s1 (reserve (bg_status b)) t t Hb Hs1 Ec Hfirst Hst1 ltac:(lia) eq_refl). done. }
  destruct (pruneBudgetChunkLocked false _ _) as [[b2 t2] pr] eqn:Ep.
  pose proof (same_budget_trans _ _ _ Hs1 (chunk_same_budget _ _ _ _ _ _ _ Ep)) as Hs2.
  pose proof (writer_keeps_events _ _ _ _ _ Ep) as Hev. cbn [snd] in Hev.
  destruct pr as [pr|].
  2: { intros Heq. injection Heq as <- <- <-. by destruct (reject_admission p c b b2 t t2 "budget_prune_failed" Hlk Hb Hs2). }
  destruct (inspected _ _ b2) as [b3 [s3|e3]] eqn:E3; apply inspected_cases in E3 as [Hs3 H3];
    pose proof (same_budget_trans _ _ _ Hs2 Hs3) as Hs.
  2: { intros Heq. injection Heq as <- <- <-. by destruct (reject_admission p c b b3 t t2 "storage_inspection_failed" Hlk Hb Hs). }
  destruct H3 as [Hst3 _]. destruct (negb (bool_decide (p = writeCritical)) && _) eqn:Er; intros Heq; injection Heq as <- <- <-.
  - apply andb_true_iff in Er as [Hp%negb_true_iff%bool_decide_eq_false Hl%Z.leb_le].
    assert (Hreserve : reserve (bg_status b3) = reserve (bg_status b)) by (unfold reserve; by destruct Hs as (_ & _ & _ & -> & _)).
    rewrite <- Hst3, <- Hreserve in Hl. by destruct (reject_admission p c b b3 t t2 "reserved_event_capacity" Hlk Hb Hs).
  - destruct (admitted p c b b3 s3 (reserve (bg_status b)) t t2 Hb Hs Ec Hfirst Hst3); [|done|done].
    intros Hp. rewrite bool_decide_false in Er by done. cbn [negb andb] in Er. apply Z.leb_gt in Er. lia.
Qed.

(** The budget that [ConfigureBudget] sets up fits: SQLite holds the connection to
    a positive number of pages, a database of that many pages together with a
    rollback journal that saves each of them and the overhead stays within the
    configured bytes, and one page more would not. *)
Theorem budget_fits cfg locked memory pageSize c i b0 b :
  ConfigureBudget cfg locked memory pageSize c i b0 = (Some b, Ok tt) ->
  budget_ok b /\ bg_config b = cfg /\ pageSize = Some (bg_page_size b)
  /\ cn_max_pages c = Some (bg_max_pages b) /\ 0 < bg_max_pages b
  /\ bg_max_pages b * bg_page_size b + bg_max_pages b * (bg_page_size b + 8) + budgetFileOverhead <= MaxBytes cfg
     < (bg_max_pages b + 1) * bg_page_size b + (bg_max_pages b + 1) * (bg_page_size b + 8) + budgetFileOverhead.
Proof.
  unfold ConfigureBudget. destruct (validateBudget cfg) eqn:Hv; cbn [negb]; [|by intros [= _ ?]].
  destruct locked; cbn [negb]; [|by intros [= _ ?]]. destruct pageSize as [ps|]; [|by intros [= _ ?]].
  destruct ((ps <? 512) || (65536 <? ps)) eqn:Eps; [by intros [= _ ?]|].
  set (b1 := mkBudget _ _ _ _ _ _). destruct (configureBudgetConnection memory c b1) eqn:Ec; cbn [negb]; [|by intros [= _ ?]].
  assert (Hb1 : budget_ok b1) by (apply orb_false_iff in Eps as [E1 E2]; bool_to_prop; split_and!; try done).
  destruct (inspected memory i b1) as [b2 r2] eqn:Ei. unfold inspected in Ei.
  assert (Hc := inspected_cases memory i b1 b2 r2 Ei). destruct Hc as [Hs _].
  destruct (budgetStatusLocked memory i (Some b1)) as [[b3|] r3]; injection Ei as <- <-; destruct r3 as [s3|e3]; intros [= <-].
  pose proof (same_budget_ok _ _ Hs Hb1) as Hok. destruct Hs as (H1 & H2 & H3 & _).
  split; [done|]. rewrite H1, H2, H3. split; [done|]. split; [done|]. split.
  { revert Ec. unfold configureBudgetConnection. destruct (cn_mode _); [|done]. rewrite !andb_true_iff.
    intros [[_ Hx] _]. by apply bool_decide_eq_true in Hx. }
  apply orb_false_iff in Eps as [E1 E2]. bool_to_prop. apply (page_limit_fits cfg ps Hv). lia.
Qed.

(** ** Examples: a database of 64 MiB in pages of 4096 bytes *)

Definition example_config : BudgetConfig := mkBudgetConfig (Z.shiftl 64 20) 0.
Definition example_connection : connection := mkConnection (Some "wal"%string) (Some 0) (Some "delete"%string) true (Some 8056) true.
Definition example_reading (pages : Z) : inspection :=
  mkInspection (Some 4096) (Some pages) (Some 0) (Some "delete"%string) (Regular (pages * 4096)) Missing Missing Missing
    (Some (Z.shiftl 1 30)) (5 * second).
Definition example_budget : budgetState :=
  match (ConfigureBudget example_config true false (Some 4096) example_connection (example_reading 100) None).1 with
  | Some b => b
  | None => fresh_budget example_config
  end.

Lemma budget_fits_witness :
  let b := example_budget in
  bg_max_pages b = 8056 /\ budget_ok b
  /\ bg_max_pages b * bg_page_size b + bg_max_pages b * (bg_page_size b + 8) + budgetFileOverhead <= 67108864.
Proof.
  destruct (budget_fits example_config true false (Some 4096) example_connection (example_reading 100) None example_budget eq_refl)
    as (H1 & _ & _ & _ & _ & H2 & _).
  split; [vm_compute; reflexivity|]. split; [exact H1|exact H2].
Defined.

Definition example_row : trafficKey := mkTrafficKey 7200 "in" "" "" 0 "" false.
Definition example_traffic : Tables := with_traffic {[example_row := (CInt 5, CInt 1)]} no_retention empty_tables.
Definition example_prune : prune_call := mkPrune in_order Answered 1 (mkCompact true Answered 1) Answered 1.

(** A normal write finds 8000 of 8056 pages in use: a chunk is reclaimed first, and
    the second reading decides. *)
Definition example_write (pages : Z) : write_call :=
  mkWrite true false example_connection (example_reading 8000) example_prune (example_reading pages).

Lemma admission_bounded_witness :
  (exists b' t', beginWrite writeNormal (example_write 100) (example_budget, example_traffic) = ((b', t'), Ok tt)
     /\ tt_rows (tb_traffic t') = ∅ /\ admission writeNormal (example_write 100) example_budget b' example_traffic t' (Ok tt))
  /\ exists b' t', beginWrite writeNormal (example_write 7999) (example_budget, example_traffic)
       = ((b', t'), Err (Rejected "reserved_event_capacity"))
     /\ admission writeNormal (example_write 7999) example_budget b' example_traffic t' (Err (Rejected "reserved_event_capacity")).
Proof.
  assert (Hb : budget_ok example_budget) by (split_and!; first [reflexivity|vm_compute; discriminate]).
  split; eexists _, _; (split; [vm_compute; reflexivity|]).
  - split; [reflexivity|]. refine (proj2 (proj2 (admission_bounded _ _ _ _ _ _ _ Hb _))). vm_compute. reflexivity.
  - refine (proj2 (proj2 (admission_bounded _ _ _ _ _ _ _ Hb _))). vm_compute. reflexivity.
Defined.
