(* ===== verification/Maintenance.v ===== *)
(** * Maintenance comes to an end

    [MaintainBudget] of [internal/store/budget.go], called again and again while the
    database is over its reserve, removes one bounded chunk at a time.
    [maintenance_reclaims]: a number of chunks known in advance removes all traffic and
    all events, even when no compaction of authentication detail can be committed,
    because the cursor of [internal/store/budget_auth.go] advances before its
    transaction. *)

From S2P Require Export Budget.

(** ** What the walk has before it *)

(** The keys that the walk still has before it. *)
Definition ahead (b : budgetState) (t : Tables) : Z := lenZ (rows_after (bg_cursor b) (at_rows (tb_auth t))).
Definition auth_size (t : Tables) : Z := Z.of_nat (size (at_rows (tb_auth t))).

(** The keys after a cursor as a set: their number is what counts. *)
Definition keys_after (c : option auth_key) (rows : gmap auth_key column) : gset auth_key :=
  filter (fun k => after_cursor c k = true) (dom rows).

Lemma keys_after_size c rows : lenZ (rows_after c rows) = Z.of_nat (size (keys_after c rows)).
Proof.
  assert (keys_after c rows = list_to_set (rows_after c rows).*1) as ->.
  { apply set_eq. intros k. unfold keys_after. rewrite elem_of_filter, elem_of_dom, elem_of_list_to_set, list_elem_of_fmap.
    split.
    - intros [Hc [v Hv]]. exists (k, v). split; [done|]. by apply elem_of_rows_after.
    - intros ([k' v] & -> & [Hc Hv]%elem_of_rows_after). split; [done|]. by exists v. }
  rewrite size_list_to_set by apply rows_after_NoDup. unfold lenZ. by rewrite length_fmap.
Qed.

(** A scan consumes a prefix of its window, names its last key, and selects from it. *)
Lemma scan_rows_prefix l : forall selected last0 selected' last',
  scan_rows l selected last0 = Ok (selected', last') ->
  exists p rest, l = p ++ rest
    /\ last' = match last p with Some r => Some r.1 | None => last0 end
    /\ lenZ selected' <= lenZ selected + lenZ p
    /\ (selected = [] -> l <> [] -> p <> []).
Proof.
  induction l as [|[k c] l IH]; intros selected last0 selected' last'; cbn [scan_rows].
  { intros [= <- <-]. exists [], []. split_and!; try done. change (lenZ (A := auth_key * column) []) with 0. lia. }
  destruct c as [n|]; [|discriminate].
  destruct (if head selected is Some first then _ else false) eqn:Eg.
  - intros [= <- <-]. exists [], ((k, CInt n) :: l). split_and!; try done.
    + change (lenZ (A := auth_key * column) []) with 0. lia.
    + by intros ->.
  - intros (p & rest & -> & -> & Hlen & _)%IH. exists ((k, CInt n) :: p), rest. split_and!; try done.
    + destruct p as [|r p]; [done|]. rewrite last_cons_cons. by destruct (last (r :: p)) eqn:El; [|apply last_None in El].
    + rewrite lenZ_cons. destruct (summary_row k.2); [lia|]. rewrite lenZ_app in Hlen. change (lenZ [(k, n)]) with 1 in Hlen. lia.
Qed.

#[global] Instance key_lt_strict : StrictTotal key_lt.
Proof. unfold key_lt. apply _. Qed.

Lemma key_order : Transitive (not_less (fun a b : auth_key * column => key_lt a.1 b.1)).
Proof.
  unfold not_less. intros x y z H1 H2. destruct (key_lt z.1 x.1) eqn:E; [|done].
  destruct (key_lt x.1 y.1) eqn:E1; [by rewrite (st_trans (lt := key_lt) _ _ _ E E1) in H2|].
  by rewrite (st_total _ _ E1 H1), H2 in E.
Qed.

(** The keys after the last key of a prefix are those after the cursor without the prefix. *)
Lemma keys_after_last c rows p rest r :
  rows_after c rows = p ++ rest -> last p = Some r ->
  keys_after (Some r.1) rows ⊆ keys_after c rows ∖ list_to_set p.*1.
Proof.
  intros Hp Hlast k. unfold keys_after. rewrite elem_of_difference, !elem_of_filter, elem_of_list_to_set.
  intros [Hk Hdom]. cbn [after_cursor] in Hk.
  assert (Hr : r ∈ rows_after c rows).
  { rewrite Hp. apply elem_of_app. left. by apply last_Some_elem_of. }
  destruct r as [kr v]. cbn [fst] in *. apply elem_of_rows_after in Hr as [Hc _]. split; [split; [|done]|].
  - destruct c as [c|]; [|done]. cbn [after_cursor] in *. by apply (st_trans (lt := key_lt) c kr).
  - intros ([k' w] & -> & Hin)%list_elem_of_fmap. cbn [fst] in *.
    apply last_Some in Hlast as [p' ->]. apply elem_of_app in Hin as [Hin|[= -> ->]%list_elem_of_singleton].
    2: { by rewrite (st_irrefl (lt := key_lt)) in Hk. }
    pose proof (sort_by_sorted (fun a b : auth_key * column => key_lt a.1 b.1) key_lt fst (fun _ _ => eq_refl)
      (filter (fun r => after_cursor c r.1 = true) (map_to_list rows))) as Hs.
    fold (rows_after c rows) in Hs. rewrite Hp in Hs.
    apply Sorted_StronglySorted in Hs; [|apply key_order].
    apply StronglySorted_app in Hs as (_ & Hs & _). apply StronglySorted_app in Hs as (Hle & _ & _).
    specialize (Hle (k', w) (kr, v) Hin ltac:(left)). unfold not_less in Hle. cbn [fst] in Hle. congruence.
Qed.

Lemma scan_rows_total rows : forall selected last0,
  (forall k v, (k, v) ∈ rows -> exact v) -> exists r, scan_rows rows selected last0 = Ok r.
Proof.
  induction rows as [|[k c] l IH]; intros selected last0 Hr; cbn [scan_rows]; [by eauto|].
  destruct (Hr k c ltac:(left)) as (n & -> & _).
  destruct (if head selected is Some first then _ else false); [by eauto|]. apply IH. intros k' v' Hin. apply (Hr k'). by right.
Qed.

Lemma keys_after_sub c rows rows' : dom rows' ⊆ dom rows -> keys_after c rows' ⊆ keys_after c rows.
Proof. intros Hd k. unfold keys_after. rewrite !elem_of_filter. set_solver. Qed.

Lemma dom_delete_rows {K V W} `{Countable K} (gone : list (K * W)) (m : gmap K V) :
  dom (delete_rows gone m) = dom m ∖ list_to_set gone.*1.
Proof.
  apply set_eq. intros k. rewrite elem_of_difference, !elem_of_dom, elem_of_list_to_set, lookup_delete_rows.
  case_decide; [split; [by intros []|tauto]|tauto].
Qed.

(** What one compaction leaves of the keys. *)
Lemma compacted_dom rows selected bucket total :
  good_selection rows selected ->
  let rows' := <[bucket := CInt total]> (delete_rows selected rows) in
  dom rows' ⊆ {[bucket]} ∪ dom rows
  /\ Z.of_nat (size rows') <= Z.of_nat (size rows) + (if decide (rows !! bucket = None) then 1 else 0) - (if decide (rows !! bucket = None) then lenZ selected else 0).
Proof.
  intros (Hd & Hin & _). cbv zeta. split; [rewrite dom_insert, dom_delete_rows; set_solver|].
  rewrite <- !size_dom, dom_insert_L, dom_delete_rows.
  assert (Hsub : list_to_set selected.*1 ⊆ dom rows).
  { intros k (r & -> & Hr)%elem_of_list_to_set%list_elem_of_fmap. apply elem_of_dom. by eexists; apply Hin. }
  case_decide as Hb.
  - pose proof (size_union_alt {[bucket]} (dom rows ∖ list_to_set selected.*1)) as Hs.
    rewrite size_singleton in Hs.
    assert (size ((dom rows ∖ list_to_set selected.*1) ∖ {[bucket]}) <= size (dom rows ∖ list_to_set selected.*1))%nat
      by (apply subseteq_size; set_solver).
    pose proof (size_difference (dom rows) (list_to_set selected.*1) Hsub) as Hdiff.
    rewrite (size_list_to_set selected.*1 Hd), length_fmap in Hdiff.
    pose proof (subseteq_size _ _ Hsub) as Hle. rewrite (size_list_to_set selected.*1 Hd), length_fmap in Hle.
    unfold lenZ. lia.
  - assert (size ({[bucket]} ∪ dom rows ∖ list_to_set selected.*1) <= size (dom rows))%nat; [|lia].
    apply subseteq_size. apply not_eq_None_Some in Hb. apply elem_of_dom in Hb. set_solver.
Qed.

Lemma recordAuthCompaction_mark hour removed now l r l' r' :
  ledger_ok r -> recordAuthCompaction hour removed now l r = Ok (l', r') ->
  ledger_ok r' /\ ledger_mark r' <= ledger_mark r + 1.
Proof.
  intros Hl. unfold recordAuthCompaction. case_if; [discriminate|].
  destruct (find _ _) as [[id g]|].
  - case_if; [discriminate|]. intros [= _ <-]. split; [done|lia].
  - destruct (pruneRows _ _ _ _ _) as [[n r1]|] eqn:Ep; cbn [ledger rbind]; [|discriminate]. intros [= _ <-].
    by apply pruneRows_mark in Ep as (_ & ? & ?).
Qed.

(** What a compaction leaves: the totals, no more rows than before, and fewer keys
    before the walk unless there was none. *)
Definition walked (b : budgetState) (t : Tables) (b' : budgetState) (t' : Tables) (p : option bool) : Prop :=
  (ahead b t = 0 /\ p = Some false /\ t' = t /\ bg_pass b' = true)
  \/ (p <> Some false /\ bg_pass b' = bg_pass b /\ ahead b' t' < ahead b t).

Definition keeps_totals (t t' : Tables) : Prop :=
  rows_counted (at_rows (tb_auth t')) /\ auth_size t' <= auth_size t
  /\ forall g, group_total g (at_rows (tb_auth t')) = group_total g (at_rows (tb_auth t)).

Lemma keeps_totals_refl t : rows_counted (at_rows (tb_auth t)) -> keeps_totals t t.
Proof. intros Hr. split; [done|]. by split; [lia|]. Qed.

Lemma rows_after_last c rows p rest r :
  rows_after c rows = p ++ rest -> last p = Some r ->
  Z.of_nat (size (keys_after (Some r.1) rows)) <= Z.of_nat (size (keys_after c rows)) - lenZ p.
Proof.
  intros Hp Hlast. pose proof (rows_after_NoDup c rows) as Hd. rewrite Hp, fmap_app in Hd.
  apply NoDup_app in Hd as (Hd & _ & _). pose proof (subseteq_size _ _ (keys_after_last _ _ _ _ _ Hp Hlast)) as Hs.
  assert (Hsub : list_to_set p.*1 ⊆ keys_after c rows).
  { intros k ([k' v] & -> & Hin)%elem_of_list_to_set%list_elem_of_fmap.
    assert (Hin' : (k', v) ∈ rows_after c rows) by (rewrite Hp; apply elem_of_app; by left).
    apply elem_of_rows_after in Hin' as [Hc Hv]. apply elem_of_filter. split; [done|]. by apply elem_of_dom_2 in Hv. }
  pose proof (size_difference _ _ Hsub) as Hdiff. pose proof (subseteq_size _ _ Hsub) as Hle.
  rewrite (size_list_to_set p.*1 Hd), length_fmap in Hdiff, Hle. unfold lenZ. lia.
Qed.

(** A committed compaction, seen from the key that the scan ended at. *)
Lemma compacted_ahead c rows selected bucket total n :
  good_selection rows selected -> (lenZ selected <> 1 \/ rows !! bucket <> None) -> selected <> [] ->
  Z.of_nat (size (keys_after c rows)) <= n - lenZ selected ->
  Z.of_nat (size (keys_after c (<[bucket := CInt total]> (delete_rows selected rows)))) < n.
Proof.
  intros Hsel Hone Hne Hn. destruct (compacted_dom rows selected bucket total Hsel) as [Hdom _].
  assert (1 <= lenZ selected) by (destruct selected; [done|]; rewrite lenZ_cons; pose proof (lenZ_nonneg selected); lia).
  destruct (decide (rows !! bucket = None)) as [Hb|Hb].
  - destruct Hone as [Hone|]; [|done].
    assert (Hs : keys_after c (<[bucket := CInt total]> (delete_rows selected rows)) ⊆ {[bucket]} ∪ keys_after c rows).
    { intros k. unfold keys_after. rewrite elem_of_union, !elem_of_filter. intros [Hk Hkd]. apply Hdom in Hkd. set_solver. }
    apply subseteq_size in Hs. pose proof (size_union_alt {[bucket]} (keys_after c rows)) as Hu.
    rewrite size_singleton in Hu.
    assert (size (keys_after c rows ∖ {[bucket]}) <= size (keys_after c rows))%nat by (apply subseteq_size; set_solver). lia.
  - assert (Hs : keys_after c (<[bucket := CInt total]> (delete_rows selected rows)) ⊆ keys_after c rows).
    { apply keys_after_sub. apply not_eq_None_Some, elem_of_dom in Hb. set_solver. }
    apply subseteq_size in Hs. lia.
Qed.

Lemma compact_rows_keeps first selected now t t' :
  rows_counted (at_rows (tb_auth t)) -> ledger_ok (tb_ledger t) -> good_selection (at_rows (tb_auth t)) (first :: selected) ->
  compact_rows first (first :: selected) now t = Ok (Some t') ->
  keeps_totals t t' /\ ledger_ok (tb_ledger t') /\ ledger_mark (tb_ledger t') <= ledger_mark (tb_ledger t) + 2.
Proof.
  intros Hr Hl Hsel (total & gs & r & Et & Hone & Eg & Er & ->)%compact_rows_cases.
  assert (Hin : first ∈ first :: selected) by left.
  destruct (compacted_rows _ _ _ _ Hr Hsel Hin Et) as (Hr' & Hg' & _).
  apply recordAuthCompaction_mark in Eg as [Hl1 Hm1]; [|done].
  apply recordRetention_mark in Er as [Hl2 Hm2]; [|done]. cbn [tb_ledger] in *.
  split; [|split; [done|lia]]. split; [done|]. split; [|done]. unfold auth_size. cbn [tb_auth at_rows].
  destruct (compacted_dom _ _ (bucket_of first.1) total Hsel) as [_ Hs].
  assert (1 <= lenZ (first :: selected)) by (rewrite lenZ_cons; pose proof (lenZ_nonneg selected); lia).
  destruct (decide (_ = None)); lia.
Qed.

Lemma compaction_advances c b t b' t' p :
  co_read c = true -> rows_counted (at_rows (tb_auth t)) -> ledger_ok (tb_ledger t) ->
  compactAuthChunkLocked c (b, t) = ((b', t'), p) ->
  keeps_totals t t' /\ ledger_ok (tb_ledger t') /\ ledger_mark (tb_ledger t') <= ledger_mark (tb_ledger t) + 2
  /\ walked b t b' t' p.
Proof.
  intros Hread Hr Hl. unfold compactAuthChunkLocked. rewrite Hread. cbn [negb].
  set (cursor := bg_cursor b). set (rows := at_rows (tb_auth t)) in *.
  destruct (scan_rows_total (take maxAuthCompactionRows (rows_after cursor rows)) [] None) as [[selected last'] Es].
  { intros k v (i & Hi%list_elem_of_lookup_2 & _)%elem_of_take. apply elem_of_rows_after in Hi as [_ Hi]. by apply (Hr k). }
  rewrite Es. pose proof (window_selection _ _ _ _ Es) as Hsel.
  destruct (scan_rows_prefix _ _ _ _ _ Es) as (pre & rest & Hpre & -> & Hlen & Hne).
  assert (Hrows : rows_after cursor rows = pre ++ (rest ++ drop maxAuthCompactionRows (rows_after cursor rows)))
    by (rewrite app_assoc, <- Hpre; symmetry; apply take_drop).
  destruct (last pre) as [r|] eqn:El.
  2: { apply last_None in El as ->. destruct selected as [|x l];
         [|change (lenZ (A := auth_key * column) []) with 0 in Hlen; rewrite lenZ_cons in Hlen; change (lenZ (A := auth_key * Z) []) with 0 in Hlen;
           pose proof (lenZ_nonneg l); lia].
       intros [= <- <- <-]. split; [by apply keeps_totals_refl|]. split; [done|]. split; [lia|]. left. split; [|done].
       unfold ahead. fold cursor rows. destruct (rows_after cursor rows) eqn:Ea; [done|]. exfalso. by apply Hne. }
  assert (Hkept : forall p, p <> Some false -> ((with_cursor (Some r.1) b, t, p) = (b', t', p)) ->
    keeps_totals t t' /\ ledger_ok (tb_ledger t') /\ ledger_mark (tb_ledger t') <= ledger_mark (tb_ledger t) + 2
    /\ walked b t b' t' p).
  { intros p' Hp' [= <- <-]. split; [by apply keeps_totals_refl|]. split; [done|]. split; [lia|]. right. split_and!; try done.
    unfold ahead. cbn [with_cursor bg_cursor]. fold cursor rows. rewrite !keys_after_size.
    pose proof (rows_after_last _ _ _ _ _ Hrows El). destruct pre; [done|]. rewrite lenZ_cons in *.
    pose proof (lenZ_nonneg pre). lia. }
  assert (Hcommit : forall first l t1 b1, selected = first :: l -> compact_rows first selected (co_now c) t = Ok (Some t1) ->
    bg_cursor b1 = Some r.1 -> bg_pass b1 = bg_pass b -> forall p, p <> Some false ->
    keeps_totals t t1 /\ ledger_ok (tb_ledger t1) /\ ledger_mark (tb_ledger t1) <= ledger_mark (tb_ledger t) + 2
    /\ walked b t b1 t1 p).
  { intros first l t1 b1 -> Hc Hcur Hpass p' Hp'. destruct (compact_rows_keeps _ _ _ _ _ Hr Hl Hsel Hc) as (H1 & H2 & H3).
    split_and!; try done. right. split_and!; try done. unfold ahead. rewrite Hcur. fold cursor rows. rewrite !keys_after_size.
    apply compact_rows_cases in Hc as (total & gs & r' & _ & Hone & _ & _ & ->). cbn [tb_auth at_rows]. fold rows.
    apply compacted_ahead; [done..|]. pose proof (rows_after_last _ _ _ _ _ Hrows El).
    change (lenZ (A := auth_key * Z) []) with 0 in Hlen. lia. }
  destruct selected as [|first l]; [intros Heq; injection Heq as <- <- <-; by apply Hkept|].
  destruct (co_fate c); [intros Heq; injection Heq as <- <- <-; by apply Hkept|..];
    (destruct (compact_rows first _ _ t) as [[t1|]|] eqn:Ec; intros Heq; injection Heq as <- <- <-;
     [by eapply Hcommit|by apply Hkept|by apply Hkept]).
Qed.

(** ** Chunks until nothing is left *)

(** The chunks of successive calls that may remove events. *)
Definition chunks (calls : list prune_call) (s : budgetState * Tables) : budgetState * Tables :=
  foldl (fun s c => (pruneBudgetChunkLocked true c s).1) s calls.

(** Calls whose reads and deletions are answered; a compaction may fail. *)
Definition healthy (c : prune_call) : Prop :=
  pc_traffic c = Answered /\ pc_traffic_at c <> 0 /\ pc_events c = Answered /\ pc_events_at c <> 0
  /\ co_read (pc_compact c) = true.

Definition traffic_size (t : Tables) : Z := Z.of_nat (size (tt_rows (tb_traffic t))).
Definition event_size (t : Tables) : Z := Z.of_nat (size (tb_events t)).

(** Tables whose counts are integers and whose times can be read in milliseconds. *)
Record reclaimable (t : Tables) : Prop := {
  rc_rows : rows_counted (at_rows (tb_auth t));
  rc_ledger : ledger_ok (tb_ledger t);
  rc_traffic : map_Forall (fun k v => int64_span (traffic_span (k, v)) = true) (tt_rows (tb_traffic t));
  rc_events : map_Forall (fun k v => int64_span (event_span (k, v)) = true) (tb_events t) }.

Definition measure (n : Z) (s : budgetState * Tables) : Z :=
  traffic_size s.2 + event_size s.2 * (n + 2) + (if bg_pass s.1 then 0 else ahead s.1 s.2 + 1).

Lemma ahead_le b t : 0 <= ahead b t <= auth_size t.
Proof.
  split; [apply lenZ_nonneg|]. unfold ahead, auth_size. rewrite keys_after_size, <- size_dom.
  apply inj_le, subseteq_size. unfold keys_after. intros k. rewrite elem_of_filter. tauto.
Qed.

Lemma map_Forall_delete_rows {K V W} `{Countable K} (P : K -> V -> Prop) (gone : list (K * W)) (m : gmap K V) :
  map_Forall P m -> map_Forall P (delete_rows gone m).
Proof. intros Hm k v. rewrite lookup_delete_rows. case_decide; [done|]. apply Hm. Qed.

(** The events of a chunk. *)
Lemma prune_events_step c b t :
  healthy c -> reclaimable t -> ledger_mark (tb_ledger t) < i64_max ->
  exists t' p, prune_events c (b, t) = ((count_events (Z.min 64 (event_size t)) (with_pass false b), t'), p)
    /\ reclaimable t' /\ ledger_mark (tb_ledger t') <= ledger_mark (tb_ledger t) + 1
    /\ tb_auth t' = tb_auth t /\ tb_traffic t' = tb_traffic t /\ event_size t' = event_size t - Z.min 64 (event_size t).
Proof.
  intros (_ & _ & He & Hat & _) Ht Hm. unfold prune_events. rewrite He.
  destruct (prune_oldest_total event_time "events" event_span 64 (pc_order c) (pc_events_at c) (tb_events t) (tb_ledger t))
    as (r' & Heq); [apply Ht|done|done|done| |].
  { intros k v Hk. split; [by apply (rc_events t Ht)|done]. }
  pose proof (size_delete_rows event_time 64 (pc_order c) (tb_events t)) as Hs.
  destruct (oldest_rows event_time 64 (pc_order c) (tb_events t)) as (_ & _ & Hlen).
  apply prune_oldest_cases in Heq as Hc. rewrite Heq.
  assert (Hr : ledger_ok r' /\ ledger_mark r' <= ledger_mark (tb_ledger t) + 1).
  { destruct Hc as [[[_ ->]|[_ [n Hp]]] _]; [split; [apply Ht|lia]|]. by apply pruneRows_mark in Hp as (_ & ? & ?); [|apply Ht]. }
  destruct Hr as [Hr1 Hr2]. fold (event_size t) in Hs, Hlen. change (Z.of_nat 64) with 64 in Hlen.
  eexists _, _. split; [rewrite Hlen; reflexivity|]. split; [|cbn; split_and!; [lia|done|done|]].
  - constructor; cbn; [apply Ht|done|apply Ht|]. apply map_Forall_delete_rows, Ht.
  - unfold event_size at 1. cbn [with_events tb_events]. lia.
Qed.

Definition progresses (n : Z) (s s' : budgetState * Tables) : Prop :=
  reclaimable s'.2 /\ ledger_mark (tb_ledger s'.2) <= ledger_mark (tb_ledger s.2) + 3 /\ keeps_totals s.2 s'.2
  /\ traffic_size s'.2 <= traffic_size s.2 /\ event_size s'.2 <= event_size s.2
  /\ (0 < traffic_size s.2 + event_size s.2 -> measure n s' < measure n s).

Lemma sizes_nonneg t : 0 <= traffic_size t /\ 0 <= event_size t /\ 0 <= auth_size t.
Proof. unfold traffic_size, event_size, auth_size. lia. Qed.

(** The part after the traffic: a walk, then events when it is complete. *)
Lemma walk_and_events n c b t :
  healthy c -> reclaimable t -> ledger_mark (tb_ledger t) + 3 <= i64_max -> traffic_size t = 0 -> auth_size t <= n ->
  let '(s, progressed) := if negb true || negb (bg_pass b) then compactAuthChunkLocked (pc_compact c) (b, t) else ((b, t), Some false) in
  progresses n (b, t) (match progressed with Some false => prune_events c s | _ => (s, progressed) end).1.
Proof.
  intros Hc Ht Hm Hz Hn. cbn [negb orb].
  assert (Hevents : forall b1, bg_pass b1 = true -> (bg_pass b = true \/ ahead b t = 0) -> progresses n (b, t) (prune_events c (b1, t)).1).
  { intros b1 _ Hb. destruct (prune_events_step c b1 t Hc Ht ltac:(lia)) as (t' & p & -> & Ht' & Hm' & Ha & Htr & He).
    cbn [fst]. unfold progresses, traffic_size, keeps_totals, auth_size, measure in *. cbn [fst snd]. rewrite Ha, Htr in *.
    pose proof (ahead_le (count_events (Z.min 64 (event_size t)) (with_pass false b1)) t') as Hahead.
    unfold auth_size in Hahead. rewrite Ha in Hahead. pose proof (sizes_nonneg t) as (H1 & H2 & H3). unfold auth_size in H3.
    split_and!; [done|lia|apply Ht|lia|done|lia|lia|]. unfold traffic_size. rewrite Htr, Hz, He.
    change (bg_pass (count_events _ _)) with false. cbn iota. intros Hpos.
    assert (0 <= (if bg_pass b then 0 else ahead b t + 1)) by (destruct Hb as [->| ->]; [lia|destruct (bg_pass b); lia]).
    assert (Hgo : 1 <= Z.min 64 (event_size t)) by lia. nia. }
  destruct (bg_pass b) eqn:Eb; cbn [negb].
  { apply Hevents; [done|by left]. }
  destruct (compactAuthChunkLocked (pc_compact c) (b, t)) as [[b1 t1] p] eqn:Ec.
  pose proof (compact_keeps _ _ _ _ Ec) as (Htr & Hev & _). cbn [fst snd] in Htr, Hev.
  apply compaction_advances in Ec as (Hk & Hl & Hm1 & Hw); [|apply Hc|apply Ht|apply Ht].
  destruct Hw as [(Hz1 & -> & -> & Hp)|(Hp & Hpass & Hlt)]; [apply Hevents; [done|by right]|].
  assert (Hs : progresses n (b, t) (b1, t1)).
  { unfold progresses, measure. cbn [fst snd]. rewrite Hpass, Eb. unfold traffic_size, event_size in *. rewrite Htr, Hev.
    split_and!; [|lia|done|lia|lia|lia]. constructor; [apply Hk|done|rewrite Htr; apply Ht|rewrite Hev; apply Ht]. }
  by destruct p as [[|]|].
Qed.

Lemma chunk_progresses n c b t :
  healthy c -> reclaimable t -> ledger_mark (tb_ledger t) + 3 <= i64_max -> auth_size t <= n ->
  progresses n (b, t) (pruneBudgetChunkLocked true c (b, t)).1.
Proof.
  intros Hc Ht Hm Hn. unfold pruneBudgetChunkLocked. pose proof Hc as (Hf & Hat & _). rewrite Hf.
  destruct (prune_oldest_total traffic_hour "traffic_hourly" traffic_span 256 (pc_order c) (pc_traffic_at c) (tt_rows (tb_traffic t)) (tb_ledger t))
    as (r' & Heq); [apply Ht|lia|done|done| |].
  { intros k v Hk. split; [by apply (rc_traffic t Ht)|]. cbn. lia. }
  pose proof (size_delete_rows traffic_hour 256 (pc_order c) (tt_rows (tb_traffic t))) as Hs.
  destruct (oldest_rows traffic_hour 256 (pc_order c) (tt_rows (tb_traffic t))) as (_ & _ & Hlen).
  apply prune_oldest_cases in Heq as Hcs. rewrite Heq.
  fold (traffic_size t) in Hs, Hlen. change (Z.of_nat 256) with 256 in Hlen.
  destruct (0 <? lenZ _) eqn:En; bool_to_prop.
  - assert (Hr : ledger_ok r' /\ ledger_mark r' <= ledger_mark (tb_ledger t) + 1).
    { destruct Hcs as [[[_ ->]|[_ [k Hp]]] _]; [split; [apply Ht|lia]|]. by apply pruneRows_mark in Hp as (_ & ? & ?); [|apply Ht]. }
    destruct Hr as [Hr1 Hr2]. set (t1 := with_traffic _ r' t). unfold progresses, measure. cbn [fst snd].
    assert (Ht1 : traffic_size t1 = traffic_size t - lenZ (oldest 256 traffic_hour (pc_order c) (tt_rows (tb_traffic t)))) by exact Hs.
    change (event_size t1) with (event_size t). change (ledger_mark (tb_ledger t1)) with (ledger_mark r').
    change (ahead (count_traffic _ b) t1) with (ahead b t). change (bg_pass (count_traffic _ b)) with (bg_pass b).
    split_and!; [|lia|exact (keeps_totals_refl t (rc_rows t Ht))|lia|done|lia].
    constructor; cbn; [apply Ht|done|apply map_Forall_delete_rows, Ht|apply Ht].
  - assert (Hz : traffic_size t = 0) by (pose proof (sizes_nonneg t); lia).
    assert (Hsame : with_traffic (delete_rows (oldest 256 traffic_hour (pc_order c) (tt_rows (tb_traffic t))) (tt_rows (tb_traffic t))) r' t = t).
    { assert (oldest 256 traffic_hour (pc_order c) (tt_rows (tb_traffic t)) = []) as Hnil.
      { destruct (oldest _ _ _ _) as [|x l]; [done|]. rewrite lenZ_cons in En. pose proof (lenZ_nonneg l). lia. }
      destruct Hcs as [[[_ ->]|[_ [k Hp]]] _]; rewrite Hnil in *; [by destruct t as [[]]|].
      cbn in Hp. injection Hp as _ <-. by destruct t as [[]]. }
    rewrite Hsame. pose proof (walk_and_events n c b t Hc Ht Hm Hz Hn) as Hw.
    destruct (if negb true || negb (bg_pass b) then _ else _) as [s p]. by destruct p as [[|]|].
Qed.

Lemma chunks_reclaim n calls : forall s,
  0 <= n -> reclaimable s.2 -> Forall healthy calls -> auth_size s.2 <= n ->
  ledger_mark (tb_ledger s.2) + 3 * lenZ calls <= i64_max ->
  (forall g, group_total g (at_rows (tb_auth (chunks calls s).2)) = group_total g (at_rows (tb_auth s.2)))
  /\ (traffic_size s.2 + event_size s.2 = 0 \/ measure n s < lenZ calls ->
      traffic_size (chunks calls s).2 + event_size (chunks calls s).2 = 0).
Proof.
  induction calls as [|c calls IH]; intros [b0 s] Hpos Hs Hc Hn Hm.
  - split; [done|]. intros [Hz|Hlt]; [done|]. exfalso. unfold measure in Hlt. cbn [fst snd] in *.
    pose proof (sizes_nonneg s). pose proof (ahead_le b0 s). change (lenZ _) with 0 in Hlt.
    assert (0 <= (if bg_pass b0 then 0 else ahead b0 s + 1)) by (destruct (bg_pass b0); lia). nia.
  - apply Forall_cons in Hc as [Hc1 Hc]. rewrite lenZ_cons in Hm. pose proof (lenZ_nonneg calls). cbn [snd] in *.
    pose proof (chunk_progresses (n) c b0 s Hc1 Hs ltac:(lia) Hn) as (H1 & H2 & (_ & H3 & H4) & H5 & H6 & H7).
    change (chunks (c :: calls) (b0, s)) with (chunks calls (pruneBudgetChunkLocked true c (b0, s)).1).
    set (s' := (pruneBudgetChunkLocked true c (b0, s)).1) in *. cbn [snd] in *.
    destruct (IH s' Hpos H1 Hc ltac:(lia) ltac:(lia)) as [IH1 IH2]. split; [intros g; by rewrite IH1, H4|].
    intros Hor. apply IH2. rewrite lenZ_cons in Hor. pose proof (sizes_nonneg s). pose proof (sizes_nonneg s'.2).
    destruct (decide (traffic_size s + event_size s = 0)) as [|Hne]; [left; lia|].
    right. destruct Hor as [|Hor]; [done|]. specialize (H7 ltac:(lia)). lia.
Qed.

(** C38. Maintenance comes to an end: whatever order rows of the same time come in, and
    even when no compaction of authentication detail can be committed, the number of
    chunks given by the rows removes all traffic and all events, and the totals of
    every hour and kind of authentication observation stay what they were. *)
Theorem maintenance_reclaims calls b t b' t' :
  reclaimable t -> Forall healthy calls -> ledger_mark (tb_ledger t) + 3 * lenZ calls <= i64_max ->
  traffic_size t + (event_size t + 1) * (auth_size t + 2) <= lenZ calls ->
  chunks calls (b, t) = (b', t') ->
  tt_rows (tb_traffic t') = ∅ /\ tb_events t' = ∅
  /\ forall g, group_total g (at_rows (tb_auth t')) = group_total g (at_rows (tb_auth t)).
Proof.
  intros Ht Hc Hm Hlen Hrun.
  destruct (chunks_reclaim (auth_size t) calls (b, t) ltac:(apply sizes_nonneg) Ht Hc ltac:(cbn; lia) Hm) as [H1 H2]. rewrite Hrun in H1, H2. cbn [snd] in *.
  pose proof (sizes_nonneg t). pose proof (sizes_nonneg t'). pose proof (ahead_le b t).
  assert (Hz : traffic_size t' + event_size t' = 0).
  { apply H2. right. unfold measure. cbn [fst snd]. destruct (bg_pass b); nia. }
  unfold traffic_size, event_size in Hz. split_and!; [apply map_size_empty_inv; lia..|done].
Qed.

(** One traffic row, one event and two sources of an hour, and calls of which no
    compaction commits. *)
Definition example_full : Tables :=
  mkTables (mkTraffic' {[mkTrafficKey 7200 "in" "" "" 0 "" false := (CInt 5, CInt 1)]} ∅)
    (mkAuthTables {[(3600, "failure"%string, "192.0.2.0/24"%string) := CInt 2; (3600, "failure"%string, "198.51.100.0/24"%string) := CInt 3]} {[3600 := 2]})
    {[7 := mkEvent "evt_e" "inc_e" 1 "port_scan" "start" SeverityMedium "" "" "" "" 1 no_geo ∅]} [] no_retention.
Definition example_chunk : prune_call := mkPrune reversed Answered 1 (mkCompact true NotRun 1) Answered 1.

Lemma maintenance_reclaims_witness :
  let t' := (chunks (replicate 9 example_chunk) (fresh_budget (mkBudgetConfig 0 0), example_full)).2 in
  tt_rows (tb_traffic t') = ∅ /\ tb_events t' = ∅
  /\ group_total (3600, "failure"%string) (at_rows (tb_auth t')) = 5.
Proof.
  assert (Ht : reclaimable example_full).
  { constructor; [|unfold ledger_ok; split_and!; first [by left|by vm_compute|vm_compute; discriminate]|apply map_Forall_singleton; reflexivity|apply map_Forall_singleton; reflexivity].
    intros k c Hk. cbn [example_full tb_auth at_rows] in Hk. apply lookup_insert_Some in Hk as [[_ <-]|[_ [_ <-]%lookup_singleton_Some]]; by apply exact_CInt. }
  destruct (maintenance_reclaims (replicate 9 example_chunk) (fresh_budget (mkBudgetConfig 0 0)) example_full
    (chunks (replicate 9 example_chunk) (fresh_budget (mkBudgetConfig 0 0), example_full)).1
    (chunks (replicate 9 example_chunk) (fresh_budget (mkBudgetConfig 0 0), example_full)).2 Ht) as (H1 & H2 & H3).
  - apply Forall_replicate. by split_and!.
  - vm_compute. discriminate.
  - vm_compute. discriminate.
  - apply surjective_pairing.
  - split; [exact H1|]. split; [exact H2|]. rewrite H3. vm_compute. reflexivity.
Defined.
