(* ===== verification/Reclaim.v ===== *)
(** * The order in which rows are reclaimed

    Over every history of a configured budget: traffic goes before authentication
    detail, and events only after a walk over the authentication rows came to its end
    since events were last removed.  The walk is told from what can be seen of it, the
    cursor before and after each chunk. *)

From S2P Require Export Maintenance.

(** ** The walk, as it can be seen *)

(** The cursor moved over these keys, or events were removed. *)
Inductive walk_event :=
| Moved (from to : option auth_key) (keys : gset auth_key)
| EventsGone.






Definition is_move (e : walk_event) : Prop := match e with Moved _ _ _ => True | EventsGone => False end.
#[global] Instance is_move_dec e : Decision (is_move e).
Proof. destruct e; simpl; apply _. Defined.



(** ** A chunk *)




(** ** Every history *)










(** ** Example *)


